(* ===== verification/_CoqProject ===== *)
-Q . S2P
Prelude.v
Archive.v
Bitset.v
VersionManager.v
VersionTheorems.v
Num.v
Storage.v
Temporal.v
TemporalTheorems.v
Property.v
PropertyTheorems.v
Column.v
ColumnTheorems.v
ColumnSpec.v
IdIndexer.v
IndexerTheorems.v
Table.v
TableTheorems.v
EdgeSchema.v
VertexSchema.v
SchemaOps.v
SchemaInvariant.v
SchemaTheorems.v
KCore.v
GraphBuild.v
Aggregate.v
VertexTimestamp.v
VertexTable.v
VertexTheorems.v
TimestampTheorems.v
MutableCsr.v
CsrRows.v
CsrOps.v
CsrLists.v
CsrDelete.v
CsrBatch.v
NbrView.v
SingleCsr.v
CsrEdges.v
CsrInterface.v
CsrSpec.v
CsrInstances.v
OffsetSearch.v
EdgeTable.v
EdgePairs.v
EdgeSpec.v
EdgeUpdate.v
EdgeTheorems.v
CsrTheorems.v
EdgeInterface.v
EdgeExamples.v
PropertyGraph.v
GraphTheorems.v
GraphCompact.v
Wal.v
WalTheorems.v
InsertTransaction.v
GraphExamples.v
Projection.v
KcoreCompute.v
Louvain.v
LouvainCorrect.v
Modularity.v
LouvainExact.v
ProjectionCorrect.v
HostingCorrect.v
InfraCorrect.v
Call.v
Csv.v
Sample.v
KcoreTheorems.v
ProjectionTheorems.v
LouvainGraph.v
Examples.v
LouvainTheorems.v
CallCorrect.v
CallTheorems.v
StoreTheorems.v
Parallel.v
ParallelTheorems.v
