(* ===== verification/Prelude.v ===== *)
(** * Graph storage and graph algorithms: a verification library

    This library models parts of a property-graph database and of its two
    graph-algorithm extensions, and proves what they compute:

    - LOUVAIN community detection with its three bibliographic projections,
      src/extension/louvain/include/louvain_functions.h;
    - KCORE peeling with its two projections,
      src/extension/kcore/include/kcore_functions.h;
    - the schema: labels of vertices and edges, their types and their tombstones
      (src/include/neug/storages/graph/schema.h, src/src/storages/graph/schema.cc);
    - the storage underneath: the mutable adjacency lists
      (src/include/neug/storages/csr/, src/src/storages/csr/mutable_csr.cc) and
      the insertion timestamps of vertices
      (src/src/storages/graph/vertex_timestamp.cc);
    - the values stored with vertices and edges: dates, date-times, intervals and
      property values (src/include/neug/utils/property/, src/src/utils/property/),
      the columns that hold them, the index of primary keys
      (src/include/neug/utils/id_indexer.h) and the tables made of columns;
    - vertex tables, which combine an index, timestamps and a property table
      (src/src/storages/graph/vertex_table.cc);
    - edge tables, which combine two adjacency lists and a property table
      (src/src/storages/graph/edge_table.cc), and the search for an edge from its
      other end (src/src/storages/csr/generic_view_utils.cc);
    - the property graph, which is a schema with a vertex table for each vertex label
      and an edge table for each edge type (src/src/storages/graph/property_graph.cc);
    - the write-ahead log (src/src/transaction/wal/), the recovery from it
      (src/src/main/neug_db.cc) and the insert transactions
      (src/src/transaction/insert_transaction.cc);
    - the version manager that gives transactions their timestamps
      (src/src/transaction/version_manager.cc) with the bitset it uses
      (src/include/neug/utils/bitset.h).

    ** The program

    A transaction asks the version manager for a timestamp and reads or changes
    the store, a [PropertyGraph], at it: vertices and edges carry the timestamp of
    their insertion, and a reader sees the entries at or below its own.  [CompactTransaction]
    removes deleted entries, and a checkpoint dumps the store to files.  What a
    transaction changes is logged as redo records: a commit appends them to the file of
    its thread under its timestamp and then applies them, and when a database opens, the
    logs of all threads are replayed in the order of the timestamps.

    A CALL binds the constants of the query to an input record, builds a graph
    (the stored multigraph, or a weighted projection of a bibliographic store)
    inside a [LouvainComputer] or [KcoreComputer], runs the algorithm on the
    adjacency rows, writes CSV files and returns one row.  The algorithms see
    the store through [StorageReadInterface] and its [Schema] only.

    ** The files

    - [Prelude] (this file): machine integers, vectors with checked access, the
      option monad for undefined behaviour with its total-correctness predicate
      [wp], loops and their invariant rules, sums over index ranges, and the
      symbolic-execution tactics [wstep] and [wsteps].
    - [Archive]: the byte archives InArchive and OutArchive.
    - [Bitset]: the words of a [Bitset] and its serialisation.
    - [VersionManager]: [TPVersionManager]; threads are program counters and
      every atomic access is a step ([vm_step]), and compactions clear the manager
      after their release ([vm_step_compact]).  [VersionTheorems]: why the
      threads can always finish, and the properties of both.
    - [VertexTimestamp], [TimestampTheorems]: [VertexTimestamp] with its files.
    - [MutableCsr]: memory, state and operations of [MutableCsr].  [CsrRows]:
      what it means that a state holds given rows; [CsrOps], [CsrLists],
      [CsrDelete], [CsrBatch]: the operations on rows.  [NbrView]:
      the iterators.  [CsrSpec], [CsrTheorems]: the calls against plain adjacency
      lists, and the properties.
    - [SingleCsr]: [SingleMutableCsr], one slot per vertex.  [CsrEdges]: rows as a
      multiset of edges.  [CsrInterface]: the virtual methods of a CSR as the class
      [CsrBase] and its laws [CsrLaws] on the multiset of edges; [CsrInstances]:
      both CSRs obey them.
    - [Temporal], [TemporalTheorems]: [Date], [DateTime] and [Interval] of
      property/types.h with their arithmetic.
    - [Property], [PropertyTheorems]: [DataTypeId], [Property], its orders, its
      archives, and the class [PropLaws] of the conversions [PropUtils].
    - [Column]: [TypedColumn] of fixed-width values and of strings, with the files
      of string columns; [ColumnTheorems]: truncation at character boundaries and
      string columns as lists of strings; [ColumnSpec]: every column as a list of
      property values, and what a checkpoint keeps.
    - [IdIndexer]: the hash policy and the index of primary keys [LFIndexer]; [IndexerTheorems]: it is a list of keys.
    - [Table], [TableTheorems]: named columns.
    - [VertexSchema], [EdgeSchema]: the types of vertices and edges with their
      properties.  [VertexTable]: keys, times and properties of the vertices of one
      label; [VertexTheorems]: it is a list of vertices.
    - [SchemaOps]: [Schema], its labels, types and tombstones with the operations that
      create, delete, restore, rename and compact them.  [SchemaInvariant]: what keeps
      the parts together; [SchemaTheorems]: reachable schemas, compaction, soft deletion.
    - [OffsetSearch]: finding an edge in the list of its other end point.
      [EdgeTable]: [EdgeTable] over two CSRs known by [CsrBase] only, with
      [EdgeDataAccessor].  [EdgePairs]: every operation keeps the incoming CSR the
      mirror image of the outgoing one.  [EdgeSpec], [EdgeTheorems]: the table as a
      multiset of edges with their properties; [EdgeUpdate]: updates of an edge;
      [EdgeExamples]: tables over [MutableCsr].
    - [EdgeInterface]: the methods of edge tables a graph calls as the class
      [EdgeTableOps] with the laws [EdgeTableLaws]; [EdgeTable] has them.
      [PropertyGraph]: [PropertyGraph].  [GraphTheorems]: loops over its edge tables as
      lists of the edges they take away, deletion of vertices and of types; [GraphCompact]: tables move with their types; [GraphExamples]: a graph of
      people and shops.
    - [Wal]: redo records and their archives, [LocalWalWriter], [LocalWalParser] and
      [ingestWals] over any database of the class [Replay].  [WalTheorems]: writers and
      readers as the classes [Appends] and [Reads], what the parser collects, recovery.
      [InsertTransaction]: transactions that insert, from [AddVertex] to [Commit], with
      [IngestWal] as the database of recovery, and their properties.
    - [Num]: the class [Arith] of the operations on edge weights, with two
      instances: [double_arith], IEEE binary64 as the program runs it, and
      [exact_arith], the rationals.
    - [Storage]: what the algorithms see of a [Schema] (label tombstones and edge-label
      keys; [visible_schema] of [SchemaOps] gives it), and the read interface as a
      record of operations.
    - [GraphBuild]: [LouvainComputer::BuildGraph] (count, allocate, fill) and
      [KcoreComputer::BuildGraph] (append).
    - [Aggregate]: [std::unordered_map] as an association list in insertion
      order; the order in which the program iterates over one is the class
      [HashOrder], an arbitrary permutation.  Sparse pair aggregation and its
      materialisation as adjacency rows.
    - [Projection], [KcoreCompute]: the four projections pass by pass,
      [parse_year_prefix], and [KcoreComputer::Compute].
    - [KCore]: [RunKCore], its bucket arrays and its correctness.
    - [Louvain]: [AccumulateByComm], [LocalMove], renumbering, coarsening,
      [ComputeModularity] and [LouvainComputer::Compute].
    - [Call]: overloads, binding, result rows and files of the seven CALL
      functions.
    - [Parallel]: the OpenMP filling of the rows as interleaved threads.
    - [LouvainCorrect], [Modularity], [LouvainExact], [ProjectionCorrect],
      [HostingCorrect], [InfraCorrect], [LouvainGraph], [Csv], [CallCorrect]:
      specifications and lemmas.
    - [LouvainTheorems], [KcoreTheorems], [ProjectionTheorems],
      [CallTheorems], [StoreTheorems], [ParallelTheorems]: the properties of the
      algorithms, each applied to a concrete input from [Sample] (a small
      store), [Examples] (small graphs) or its own file.

    ** How code corresponds to definitions

    A definition has the name of the function it translates, prefixed by
    [Kcore_] where both computers have one of that name, and long functions are
    cut at their own comments ("Step 2", "Pass 3").  A computation that may run
    into undefined behaviour returns [option]: [None] is an index outside a
    vector ([vget], [vset]), a pointer outside its block or a signed overflow
    ([i32]); casts truncate ([to_int], [to_u32], [to_u8], [to_u64]).  C++
    exceptions are the value [Thrown] of [outcome].  Weights are written against
    [Arith], so one definition is both the program and the exact computation it
    approximates.  The fields of [computer] are the members the builders set;
    early returns leave the [fresh_computer].

    ** What is proved

    - Transactions: [version_manager_safe] (updates exclude everything else,
      readers see published timestamps, for every interleaving),
      [version_manager_progress] (no deadlock), both for runs of the calls within the
      ring; [compact_clear_race] shows what the clear of a compaction does to
      transactions that have begun after its release, and [ring_overrun] what the calls
      do beyond the ring.
    - Storage: the bitset, the vertex timestamps and the mutable CSR refine a
      list of booleans, a list of timestamps and plain adjacency lists
      ([bitset_refines], [vertex_timestamps_refine], [mutable_csr_refines]), for calls
      within the contracts that the steps [list_step] and [adj_exec] of the lists state;
      and so do every property column a list of values ([column_refines]) and every
      table a list of named columns ([table_refines]), and the index of primary keys
      the list of the keys inserted ([indexer_refines], within the contract [keys_exec];
      [long_key_twice] is outside);
      their files read back ([timestamps_dump_open], [csr_checkpoint],
      [string_checkpoint] under an exact condition on the size); the
      sorted view ([foreach_nbr_gt_spec]); and five groups of defects
      ([InsertVertex_hides_vertices], [csr_dump_deleted],
      [batch_delete_edges_miscounts], [typed_view_stale],
      [string_checkpoint_flaws]).
    - Vertex tables: every call acts on a list of vertices as it should
      ([vertex_table_refines]); [deleted_vertex_not_reloaded]: where it does not.
    - Schema: from an empty schema every operation within its contract returns and
      keeps the parts in step ([schema_invariant]); compaction changes numbers only and
      gives what the graph builders need ([compact_schema_spec]); soft deletion can be
      undone ([soft_delete_reverts]); [deleted_type_returns]: an edge type that is
      deleted softly and created again keeps its old properties.
    - Edge tables, for any two CSRs with [CsrLaws] and any type of edge data: the
      operations [et_op] that insert, delete, put back, compact, grow and update in place
      act on the multiset of edges as they should when [allowed] ([edge_table_refines]),
      and views show exactly these edges at both ends ([edge_table_reads]);
      [update_bundled_spec]; and where the search for an edge or the update of one
      goes wrong ([update_then_delete_fails], [update_skips_deleted],
      [delete_plain_parallel]).  [rename_collision]: a table whose names collide.
    - Property graphs, for any edge tables with [EdgeTableLaws]: a batch of deletions
      takes away exactly the edges at the deleted vertices
      ([batch_delete_vertices_spec]), and compaction leaves under every name the table
      that was there ([graph_compaction]); the deletion of one vertex takes the wrong
      edges ([delete_vertex_wrong_ends]), and the deletion of a vertex type keeps the
      edge types from the type to itself ([loops_return]).
    - The log, for any database with [ReplayLaws]: records read back
      ([redo_roundtrip]), recovery replays what was logged in the order of the timestamps
      ([recovery_in_order]), so that for insert transactions it repeats the commits
      ([insert_durability]); where units are lost or read out of range
      ([recovery_flaws]), and where two insert transactions at the same time leave a log
      that cannot be replayed ([duplicate_insert_unrecoverable]) or one that says
      something else ([concurrent_insert_wrong_vertex]).
    - Values: the calendar ([date_calendar]) and the arithmetic on it
      ([date_add_spec], [datetime_add_spec], [interval_order]), archives of
      property values ([property_roundtrip], [serialize_property_roundtrip]), their
      orders ([property_order]) and truncation of strings ([truncate_utf8_spec]).
    - Louvain in every arithmetic and for every hash order
      ([Compute_partition], [Compute_connected], [LocalMove_sweeps],
      [Compute_store], [renumber_spec]): the computation terminates without
      undefined behaviour, the result is a partition with consecutive labels,
      communities are connected, levels shrink the graph, and the local-move
      loop stops only at its bound or at a fixed point.
    - Louvain in exact arithmetic ([Compute_store_modularity],
      [coarsen_preserves_modularity], [choose_comm_maximises],
      [ComputeModularity_newman], [choose_comm_threshold], [Compute_pair]):
      [ComputeModularity] is Newman's modularity with resolution, coarsening
      preserves it, a vertex without self-loop takes a best community, and with
      a self-loop the comparison is biased by the loop's weight.
    - k-core ([RunKCore_coreness], [Kcore_Compute_store]): the peeling returns
      the coreness of every vertex.
    - Builders and projections ([BuildGraph_store], [builders_agree],
      [coauthor_projection], [datasource_projection], [infra_projection],
      [project_projection], [kcore_coauthor_projection],
      [coauthor_projection_missing]): which vertices and which weights each
      graph has, in terms of the store, and how the weights of the co-author graph
      compare with the documented ones.
    - Parallel loops ([parallel_fill], [sweep_order], [accumulate_threads]):
      safety, absence of conflicting writes, termination and result of the
      filling threads; independence of the order of a sweep's iterations;
      per-thread accumulation.
    - CALL functions ([ExecuteLouvain_output], [ExecutePlain_output],
      [ExecuteLouvainCoauthor_output] and the like, [escape_csv_reads],
      [overload_defaults]): types of the row, files that read back through a
      reader of quoted comma-separated records, and what is returned or thrown, with
      which files written, when a directory cannot be created or a file not opened.
    - Labels and dates ([edge_label_bijection], [get_vertex_label_id_spec],
      [BuildGraph_label_gap], [deleted_label_gap], [parse_year_prefix_spec]):
      key packing, label resolution, what a deleted label does to the
      enumeration, and year prefixes.

    ** Bounds and fuel

    The recursions on [nat] are the program's bounded loops: [move_iters] recurs
    on [max_iterations] and [run_levels] on [max_levels], both converted with
    [Z.to_nat], so a negative bound runs no iteration, as in the source; the
    loops of the neighbour iterator ([skip_invisible], [iterate]) and of the
    typed view recur on the number of entries left, which the loops never
    exceed; the loop of [DeleteVertex] recurs on the entries of the list and
    [grow_capacity] ends after one round ([grow_capacity_ends]); [truncate_loop] has one step per byte of the length, and needs more
    only when the program's loop does not end ([truncate_utf8_spec]).  [buildable] collects what keeps a store inside the program's
    integers: vertex ids below 2^32, at most [INT_MAX] vertices and edge ends,
    and no deleted vertex label ([BuildGraph_label_gap] shows that the last
    condition is needed).  [mutable_csr_refines] is stated for rows of fewer
    than 2^30 entries and fewer than 2^32 vertices, where the capacities stay
    [int]s; the version manager for runs whose timestamps stay below 2^32 and
    within [ring_buf_size] of the published one.  The reading of a log file has one
    round per byte and one more, and every unit takes at least a header; the reading of
    redo records likewise, since each takes at least the byte of its operation.  Logged
    units are shorter than 2^30 bytes and their timestamps below 2^32 - 1, so that the
    fields of a header hold them.

    ** What is not modelled

    Logging, timing and the number of threads; weak-memory effects (the threads
    share atomics and disjoint slots); the serial definitions add doubles in
    loop order, whereas the parallel reductions may add them in another.  The
    operations of a CSR and of the vertex timestamps run one at a time, so the
    row locks of [put_edge] are left out, and assertions are disabled.  The
    containers behind a CSR are its block of memory and its files lists of
    entries: paths, memory mapping and checksums are left out.  The clock, the
    file system (which directories can be created and which files opened; a write to an
    open file succeeds) and the property columns are the parameters [call_env].  The
    hash tables' iteration order and the storage behind the read interface are
    interfaces.  Parsing and printing of dates and intervals, serialisation,
    YAML forms and descriptions of schemas, changes of the properties of an edge table or
    type (which put new CSRs in place of the old), the files of tables and graphs, the
    statistics of a graph, the conversion of record batches, read and update
    transactions with the undo of the latter (their redo records are modelled, and recovery
    takes their replay as a parameter), the immutable CSR, the growing indexer of the loader, the query
    compiler and execution engine, the import and export extensions, the
    sampled-matching extension, the server, bindings and tests are outside
    this library. *)
From stdpp Require Export base tactics numbers list option gmap.
From Stdlib Require Export ZArith Lia.
From stdpp Require Import sorting.

#[export] Set Warnings "-clear-no-such-hyp".
#[global] Open Scope Z_scope.

(** ** Machine integers *)

Definition INT_MIN : Z := - 2 ^ 31.
Definition INT_MAX : Z := 2 ^ 31 - 1.

(** The result of a signed [int] operation: [None] when it overflows, which
    is undefined behaviour in C++. *)
Definition i32 (z : Z) : option Z :=
  if (INT_MIN <=? z) && (z <=? INT_MAX) then Some z else None.

(** [static_cast<int>] of a wider integer: two's complement truncation. *)
Definition to_int (z : Z) : Z := (z + 2 ^ 31) mod 2 ^ 32 - 2 ^ 31.

(** [static_cast<uint32_t>] ([vid_t]) and [static_cast<uint8_t>] ([label_t]). *)
Definition to_u32 (z : Z) : Z := z mod 2 ^ 32.
Definition to_u8 (z : Z) : Z := z mod 2 ^ 8.

Lemma i32_Some z : INT_MIN <= z <= INT_MAX -> i32 z = Some z.
Proof. intros ?. unfold i32. by rewrite !(proj2 (Z.leb_le _ _)) by lia. Qed.

Lemma to_int_small z : INT_MIN <= z <= INT_MAX -> to_int z = z.
Proof. unfold to_int, INT_MIN, INT_MAX. intros ?. rewrite Z.mod_small; lia. Qed.

Lemma to_u32_small z : 0 <= z < 2 ^ 32 -> to_u32 z = z.
Proof. apply Z.mod_small. Qed.

Lemma to_u32_nat z : 0 <= z <= INT_MAX -> to_u32 z = z.
Proof. unfold INT_MAX. intros ?. apply to_u32_small. lia. Qed.

Lemma to_int_range z : INT_MIN <= to_int z <= INT_MAX.
Proof.
  unfold to_int, INT_MIN, INT_MAX.
  pose proof (Z.mod_pos_bound (z + 2 ^ 31) (2 ^ 32)). lia.
Qed.

(** The low [k] bits and the rest. *)
Lemma lor_low lo hi k : 0 <= k -> 0 <= lo < 2 ^ k -> Z.lor lo (Z.shiftl hi k) = lo + 2 ^ k * hi.
Proof.
  intros Hk Hlo. enough (Z.land lo (Z.shiftl hi k) = 0) as H.
  { pose proof (Z.add_lor_land lo (Z.shiftl hi k)). rewrite Z.shiftl_mul_pow2 in * by done. lia. }
  rewrite <-(Z.mod_small lo (2 ^ k)), <-Z.land_ones by lia. apply Z.bits_inj'. intros i Hi.
  rewrite !Z.land_spec, Z.bits_0. destruct (Z.lt_ge_cases i k).
  - by rewrite Z.shiftl_spec_low, andb_false_r by lia.
  - by rewrite Z.ones_spec_high, andb_false_r by lia.
Qed.

(** ** [std::vector] with checked access

    [vec[i]] of the source is [vget]/[vset]: [None] is the undefined behaviour
    of an index outside the vector.  [vat]/[vput] are their total counterparts,
    used in specifications only. *)

Definition vlen {A} (l : list A) : Z := Z.of_nat (length l).

Definition vget {A} (l : list A) (i : Z) : option A :=
  if i <? 0 then None else l !! Z.to_nat i.

Definition vput {A} (l : list A) (i : Z) (x : A) : list A := <[Z.to_nat i := x]> l.

Definition vset {A} (l : list A) (i : Z) (x : A) : option (list A) :=
  if (0 <=? i) && (i <? vlen l) then Some (vput l i x) else None.

Definition vat {A} `{Inhabited A} (l : list A) (i : Z) : A := l !!! Z.to_nat i.

(** [vector<A>(n, x)] and [assign(n, x)]. *)
Definition vnew {A} (n : Z) (x : A) : list A := replicate (Z.to_nat n) x.

Lemma vlen_nil {A} : vlen (@nil A) = 0.
Proof. done. Qed.
Lemma vlen_one {A} (x : A) : vlen [x] = 1.
Proof. done. Qed.

Lemma vlen_app {A} (l1 l2 : list A) : vlen (l1 ++ l2) = vlen l1 + vlen l2.
Proof. unfold vlen. rewrite length_app. lia. Qed.

Lemma vput_middle {A} (l1 l2 : list A) x y : vput (l1 ++ x :: l2) (vlen l1) y = l1 ++ y :: l2.
Proof.
  unfold vput, vlen. rewrite Nat2Z.id, insert_app_r_alt, Nat.sub_diag by done. done.
Qed.

Section vectors.
Context {A : Type} `{Inhabited A}.
Implicit Types l : list A.

Lemma vlen_nonneg l : 0 <= vlen l.
Proof. unfold vlen. lia. Qed.

Lemma vget_Some l i : 0 <= i < vlen l -> vget l i = Some (vat l i).
Proof.
  intros Hi. unfold vget, vat, vlen in *.
  destruct (Z.ltb_spec i 0); [lia|].
  apply list_lookup_lookup_total_lt. lia.
Qed.

Lemma vget_inv l i x : vget l i = Some x -> 0 <= i < vlen l /\ vat l i = x.
Proof.
  unfold vget, vat, vlen. destruct (Z.ltb_spec i 0); [done|]. intros Hx.
  split; [apply lookup_lt_Some in Hx; lia|].
  by apply list_lookup_total_correct.
Qed.

Lemma vset_Some l i x : 0 <= i < vlen l -> vset l i x = Some (vput l i x).
Proof.
  intros Hi. unfold vset.
  by rewrite (proj2 (Z.leb_le _ _)), (proj2 (Z.ltb_lt _ _)) by lia.
Qed.

Lemma vlen_vput l i x : vlen (vput l i x) = vlen l.
Proof. unfold vlen, vput. by rewrite length_insert. Qed.

Lemma vat_vput_eq l i x : 0 <= i < vlen l -> vat (vput l i x) i = x.
Proof.
  intros Hi. unfold vat, vput, vlen in *.
  apply list_lookup_total_insert_eq. lia.
Qed.

Lemma vat_vput_ne l i j x : 0 <= i -> 0 <= j -> i <> j -> vat (vput l i x) j = vat l j.
Proof.
  intros Hi Hj Hne. unfold vat, vput.
  apply list_lookup_total_insert_ne. lia.
Qed.

Lemma vat_vput l i j x :
  0 <= i < vlen l -> 0 <= j -> vat (vput l i x) j = if decide (i = j) then x else vat l j.
Proof.
  intros Hi Hj. case_decide as Hij; [subst; by apply vat_vput_eq|].
  apply vat_vput_ne; lia.
Qed.

Lemma vlen_vnew n (x : A) : 0 <= n -> vlen (vnew n x) = n.
Proof. intros. unfold vlen, vnew. rewrite length_replicate. lia. Qed.

Lemma vat_vnew n (x : A) i : 0 <= i < n -> vat (vnew n x) i = x.
Proof. intros. unfold vat, vnew. apply lookup_total_replicate_2. lia. Qed.

Lemma vat_ext l1 l2 :
  vlen l1 = vlen l2 -> (forall i, 0 <= i < vlen l1 -> vat l1 i = vat l2 i) -> l1 = l2.
Proof.
  intros Hlen Hext. apply list_eq_same_length with (length l1); [by unfold vlen in *; lia|done|].
  intros i x y Hi Hx Hy.
  specialize (Hext (Z.of_nat i)). unfold vlen, vat in Hext. rewrite Nat2Z.id in Hext.
  apply list_lookup_total_correct in Hx, Hy. rewrite <-Hx, <-Hy. apply Hext. lia.
Qed.

Lemma vat_elem l i : 0 <= i < vlen l -> vat l i ∈ l.
Proof. intros Hi. unfold vat, vlen in *. apply list_elem_of_lookup_total_2. lia. Qed.

Lemma fmap_vat l : vat l <$> seqZ 0 (vlen l) = l.
Proof.
  apply list_eq. intros i. rewrite list_lookup_fmap. unfold vlen, vat.
  destruct (decide (i < length l)%nat).
  - rewrite lookup_seqZ_lt by lia. simpl. rewrite Z.add_0_l, Nat2Z.id.
    symmetry. by apply list_lookup_lookup_total_lt.
  - rewrite lookup_seqZ_ge by lia. symmetry. apply lookup_ge_None. lia.
Qed.
End vectors.

Lemma vat_default {A} `{Inhabited A} (l : list A) i : vlen l <= i -> vat l i = inhabitant.
Proof. intros Hi. unfold vat, vlen in *. by rewrite list_lookup_total_alt, lookup_ge_None_2 by lia. Qed.

Lemma vat_app {A} `{Inhabited A} (l k : list A) i : 0 <= i ->
  vat (l ++ k) i = if decide (i < vlen l) then vat l i else vat k (i - vlen l).
Proof.
  intros Hi. unfold vat, vlen. rewrite !list_lookup_total_alt. case_decide.
  - by rewrite lookup_app_l by lia.
  - rewrite lookup_app_r by lia. do 2 f_equal. lia.
Qed.

Lemma vat_take {A} `{Inhabited A} (l : list A) n i : 0 <= i < n -> vat (take (Z.to_nat n) l) i = vat l i.
Proof. intros Hi. unfold vat. rewrite !list_lookup_total_alt, lookup_take by lia. by rewrite decide_True by lia. Qed.

Lemma vat_drop {A} `{Inhabited A} (l : list A) n i : 0 <= n -> 0 <= i -> vat (drop (Z.to_nat n) l) i = vat l (n + i).
Proof. intros Hn Hi. unfold vat. rewrite !list_lookup_total_alt, lookup_drop. do 2 f_equal. lia. Qed.

Lemma take_succ_vat {A} `{Inhabited A} (l : list A) i : 0 <= i < vlen l ->
  take (Z.to_nat (i + 1)) l = take (Z.to_nat i) l ++ [vat l i].
Proof.
  intros Hi. replace (Z.to_nat (i + 1)) with (S (Z.to_nat i)) by lia. apply take_S_r.
  apply list_lookup_lookup_total_lt. unfold vlen in Hi. lia.
Qed.

Lemma vlen_take {A} (l : list A) n : 0 <= n <= vlen l -> vlen (take (Z.to_nat n) l) = n.
Proof. unfold vlen. rewrite length_take. lia. Qed.

Lemma vlen_drop {A} (l : list A) n : 0 <= n <= vlen l -> vlen (drop (Z.to_nat n) l) = vlen l - n.
Proof. unfold vlen. rewrite length_drop. lia. Qed.

Lemma vat_map {A B} `{Inhabited A, Inhabited B} (f : A -> B) l i : 0 <= i < vlen l -> vat (map f l) i = f (vat l i).
Proof.
  intros Hi. unfold vat, vlen in *. rewrite !list_lookup_total_alt, list_lookup_fmap.
  destruct (lookup_lt_is_Some_2 l (Z.to_nat i)) as [x ->]; [lia|done].
Qed.

Lemma vput_vat {A} `{Inhabited A} (l : list A) i : vput l i (vat l i) = l.
Proof.
  unfold vput, vat. destruct (decide (Z.to_nat i < length l)%nat).
  - apply list_insert_id, list_lookup_lookup_total_lt. lia.
  - apply list_insert_ge. lia.
Qed.

(** Vectors of any type. *)
Lemma vget_iff {A} (l : list A) i x : vget l i = Some x <-> 0 <= i /\ l !! Z.to_nat i = Some x.
Proof. unfold vget. destruct (Z.ltb_spec i 0); split; try done; intros; try split; naive_solver lia. Qed.

Lemma vget_elem {A} (l : list A) i x : vget l i = Some x -> x ∈ l.
Proof. intros [_ Hl]%vget_iff. by apply list_elem_of_lookup_2 in Hl. Qed.

Lemma elem_vget {A} (l : list A) x : x ∈ l -> exists i, vget l i = Some x.
Proof. intros [k Hk]%list_elem_of_lookup. exists (Z.of_nat k). apply vget_iff. rewrite Nat2Z.id. split; [lia|done]. Qed.

Lemma vget_lt {A} (l : list A) i x : vget l i = Some x -> 0 <= i < vlen l.
Proof. intros [Hi Hl]%vget_iff. apply lookup_lt_Some in Hl. unfold vlen. lia. Qed.

Lemma vget_vput_iff {A} (l : list A) k y i x : 0 <= k < vlen l ->
  vget (vput l k y) i = Some x <-> (i = k /\ x = y) \/ (i <> k /\ vget l i = Some x).
Proof.
  intros Hk. rewrite !vget_iff. unfold vput, vlen in *. rewrite list_lookup_insert_Some. split.
  - intros [Hi [(He & -> & _)|[Hne Hl]]]; [left|right]; (split; [lia|done]).
  - intros [[-> ->]|[Hne [Hi Hl]]]; (split; [lia|]); [left|right]; split_and!; try done; lia.
Qed.

Lemma vget_is {A} (l : list A) i : 0 <= i < vlen l -> exists x, vget l i = Some x.
Proof. intros Hi. unfold vget, vlen in *. rewrite (proj2 (Z.ltb_ge _ _)) by lia. apply lookup_lt_is_Some_2. lia. Qed.

Lemma vset_is {A} (l : list A) i x : 0 <= i < vlen l -> vset l i x = Some (vput l i x).
Proof. intros Hi. unfold vset. by rewrite (proj2 (Z.leb_le _ _)), (proj2 (Z.ltb_lt _ _)) by lia. Qed.

Lemma vput_len {A} (l : list A) i x : vlen (vput l i x) = vlen l.
Proof. unfold vlen, vput. by rewrite length_insert. Qed.

Lemma vget_vput {A} (l : list A) k y i x : vget (vput l k y) i = Some x -> 0 <= k < vlen l -> (i = k /\ x = y) \/ (i <> k /\ vget l i = Some x).
Proof. intros Hi Hk. by apply vget_vput_iff in Hi. Qed.

Lemma vget_vput_eq {A} (l : list A) k y : 0 <= k < vlen l -> vget (vput l k y) k = Some y.
Proof. intros Hk. apply vget_vput_iff; [done|by left]. Qed.

Lemma vget_vput_ne {A} (l : list A) k y i : 0 <= k < vlen l -> i <> k -> vget (vput l k y) i = vget l i.
Proof.
  intros Hk Hne. destruct (vget l i) as [x|] eqn:E; [apply vget_vput_iff; [done|by right]|].
  destruct (vget (vput l k y) i) as [x|] eqn:E'; [|done]. apply vget_vput in E' as [[? _]|[_ ?]]; [done|congruence|done].
Qed.

Lemma vlen_map {A B} (f : A -> B) l : vlen (map f l) = vlen l.
Proof. unfold vlen. by rewrite length_map. Qed.

(** ** Total correctness of the option monad

    [wp m Q]: [m] runs without undefined behaviour and its result satisfies
    [Q]. *)

Definition wp {A} (m : option A) (Q : A -> Prop) : Prop :=
  match m with Some a => Q a | None => False end.

Section wp.
Context {A B : Type}.

Lemma wp_exists (m : option A) (Q : A -> Prop) : wp m Q <-> exists a, m = Some a /\ Q a.
Proof.
  destruct m; simpl; split; [by eauto|by intros (? & [= ->] & ?)|done|by intros (? & ? & ?)].
Qed.

Lemma wp_ret (a : A) (Q : A -> Prop) : Q a -> wp (Some a) Q.
Proof. done. Qed.

Lemma wp_bind (m : option A) (k : A -> option B) (Q : B -> Prop) :
  wp m (fun a => wp (k a) Q) -> wp (m ≫= k) Q.
Proof. by destruct m. Qed.

Lemma wp_mono (m : option A) (P Q : A -> Prop) :
  wp m P -> (forall a, P a -> Q a) -> wp m Q.
Proof. destruct m; simpl; auto. Qed.

Lemma wp_and (m : option A) (P Q : A -> Prop) :
  wp m P -> wp m Q -> wp m (fun a => P a /\ Q a).
Proof. destruct m; simpl; auto. Qed.

Lemma wp_eq (m : option A) (Q : A -> Prop) a : m = Some a -> Q a -> wp m Q.
Proof. by intros ->. Qed.
End wp.

Lemma wp_i32 z (Q : Z -> Prop) : INT_MIN <= z <= INT_MAX -> Q z -> wp (i32 z) Q.
Proof. intros ??. by rewrite i32_Some. Qed.

Lemma wp_vget {A} `{Inhabited A} (l : list A) i (Q : A -> Prop) :
  0 <= i < vlen l -> Q (vat l i) -> wp (vget l i) Q.
Proof. intros ??. by rewrite vget_Some. Qed.

Lemma wp_vset {A} `{Inhabited A} (l : list A) i x (Q : list A -> Prop) :
  0 <= i < vlen l -> Q (vput l i x) -> wp (vset l i x) Q.
Proof. intros ??. by rewrite vset_Some. Qed.

(** ** Loops *)

(** A range-based [for] over [l] with loop state [s]. *)
Fixpoint for_each {A S} (l : list A) (s : S) (body : A -> S -> option S) : option S :=
  match l with
  | [] => Some s
  | x :: l' => s' ← body x s; for_each l' s' body
  end.

Lemma seqZ_snoc i : 0 <= i -> seqZ 0 (i + 1) = seqZ 0 i ++ [i].
Proof. intros. rewrite seqZ_app, (seqZ_cons (0 + i) 1) by lia. by rewrite Z.add_0_l. Qed.

(** [for (int i = 0; i < n; ++i)]. *)
Definition for_range {S} (n : Z) (s : S) (body : Z -> S -> option S) : option S :=
  for_each (seqZ 0 n) s body.

Section loops.
Context {A S : Type}.

Lemma for_each_app (l1 l2 : list A) (s : S) body :
  for_each (l1 ++ l2) s body = s' ← for_each l1 s body; for_each l2 s' body.
Proof.
  revert s. induction l1 as [|x l1 IH]; intros s; simpl; [done|].
  destruct (body x s); simpl; auto.
Qed.

(** Invariant rule: [P done s] holds after the elements of [done]. *)
Lemma wp_for_each (P : list A -> S -> Prop) (l : list A) s body (Q : S -> Prop) :
  P [] s ->
  (forall done x rest s', l = done ++ x :: rest -> P done s' ->
     wp (body x s') (P (done ++ [x]))) ->
  (forall s', P l s' -> Q s') ->
  wp (for_each l s body) Q.
Proof.
  intros H0 Hstep HQ.
  assert (forall rest done s', l = done ++ rest -> P done s' ->
    wp (for_each rest s' body) (P l)) as Hgo.
  { induction rest as [|x rest IH]; intros done s' Hl HP; simpl.
    - rewrite app_nil_r in Hl. by subst.
    - apply wp_bind. eapply wp_mono; [by eapply Hstep|].
      intros s'' HP'. eapply (IH (done ++ [x])); [|done].
      by rewrite <-app_assoc. }
  eapply wp_mono; [by apply (Hgo l [])|done].
Qed.

Lemma wp_for_range (P : Z -> S -> Prop) n s body (Q : S -> Prop) :
  0 <= n ->
  P 0 s ->
  (forall i s', 0 <= i < n -> P i s' -> wp (body i s') (P (i + 1))) ->
  (forall s', P n s' -> Q s') ->
  wp (for_range n s body) Q.
Proof.
  intros Hn H0 Hstep HQ. unfold for_range.
  assert (forall k i s', (k = Z.to_nat (n - i))%nat -> 0 <= i <= n -> P i s' ->
    wp (for_each (seqZ i (n - i)) s' body) Q) as Hgo.
  { induction k as [|k IH]; intros i s' Hk Hi HP.
    - assert (i = n) as -> by lia. rewrite Z.sub_diag. simpl. auto.
    - rewrite seqZ_cons by lia. simpl. apply wp_bind.
      eapply wp_mono; [apply Hstep; [lia|done]|].
      intros s'' HP'. replace (Z.pred (n - i)) with (n - (i + 1)) by lia.
      apply IH; [lia|lia|]. done. }
  specialize (Hgo _ 0 s eq_refl). rewrite Z.sub_0_r in Hgo. apply Hgo; [lia|done].
Qed.
End loops.

(** A loop over a list with the index. *)
Lemma for_each_zip {A S} (k : list A) (s : S) (f : Z -> A -> S -> option S) :
  for_each (zip (seqZ 0 (vlen k)) k) s (fun '(j, x) s => f j x s) =
  for_range (vlen k) s (fun j s => x ← vget k j; f j x s).
Proof.
  unfold for_range. change 0 with (vlen (@nil A)). change k with ([] ++ k) at 4. generalize (@nil A). revert s.
  induction k as [|x k IH]; intros s pre; [done|].
  replace (vlen (x :: k)) with (Z.succ (vlen k)) by (unfold vlen; simpl; lia).
  rewrite seqZ_cons by (unfold vlen; lia). rewrite Z.pred_succ. cbn [zip zip_with for_each].
  assert (vget (pre ++ x :: k) (vlen pre) = Some x) as ->.
  { unfold vget, vlen. rewrite (proj2 (Z.ltb_ge _ _)) by lia. by rewrite Nat2Z.id, list_lookup_middle. }
  cbn [mbind option_bind]. destruct (f (vlen pre) x s) as [s'|]; [|done]. cbn [mbind option_bind].
  specialize (IH s' (pre ++ [x])). rewrite vlen_app in IH. by rewrite <-app_assoc in IH.
Qed.

Lemma for_each_ext {A S} (l : list A) (s : S) b1 b2 :
  (forall x s', x ∈ l -> b1 x s' = b2 x s') -> for_each l s b1 = for_each l s b2.
Proof.
  revert s. induction l as [|x l IH]; intros s Hext; simpl; [done|].
  rewrite Hext by set_solver. destruct (b2 x s); simpl; [|done].
  apply IH. set_solver.
Qed.

Lemma for_each_flat_map {A B S} (f : A -> list B) (l : list A) (s : S) body :
  for_each (flat_map f l) s body = for_each l s (fun x s => for_each (f x) s body).
Proof.
  revert s. induction l as [|x l IH]; intros s; simpl; [done|].
  rewrite for_each_app. destruct (for_each (f x) s body); simpl; auto.
Qed.

Lemma for_each_map {A B S} (f : A -> B) (l : list A) (s : S) body :
  for_each (map f l) s body = for_each l s (fun x s => body (f x) s).
Proof. revert s. induction l as [|x l IH]; intros s; simpl; [done|]. destruct (body (f x) s); simpl; auto. Qed.

Lemma for_each_filter {A S} (P : A -> Prop) `{!forall x, Decision (P x)} (l : list A) (s : S) body :
  for_each (filter P l) s body = for_each l s (fun x s => if decide (P x) then body x s else Some s).
Proof.
  revert s. induction l as [|x l IH]; intros s; simpl; [done|].
  rewrite filter_cons. case_decide; simpl; [|done]. destruct (body x s); simpl; auto.
Qed.

(** A loop whose body never fails is a fold. *)
Lemma for_each_pure {A S} (l : list A) (s : S) (f : A -> S -> S) body :
  (forall x s', x ∈ l -> body x s' = Some (f x s')) ->
  for_each l s body = Some (fold_left (fun s x => f x s) l s).
Proof.
  revert s. induction l as [|x l IH]; intros s Hext; simpl; [done|].
  rewrite Hext by set_solver. simpl. apply IH. set_solver.
Qed.

(** ** Bounded sums *)

(** [sumz f n = f 0 + ... + f (n - 1)]. *)
Definition sumz (f : Z -> Z) (n : Z) : Z := foldr Z.add 0 (f <$> seqZ 0 n).

Section sums.
Implicit Types f g : Z -> Z.

Lemma foldr_add_app (l1 l2 : list Z) :
  foldr Z.add 0 (l1 ++ l2) = foldr Z.add 0 l1 + foldr Z.add 0 l2.
Proof. induction l1; simpl; lia. Qed.

Lemma sumz_0 f : sumz f 0 = 0.
Proof. done. Qed.

Lemma sumz_succ f n : 0 <= n -> sumz f (n + 1) = sumz f n + f n.
Proof.
  intros. unfold sumz. rewrite seqZ_app, fmap_app, foldr_add_app by lia.
  rewrite (seqZ_cons (0 + n) 1) by lia. simpl. rewrite Z.add_0_r. done.
Qed.

Lemma sumz_ind (P : Z -> Prop) n :
  0 <= n -> P 0 -> (forall k, 0 <= k < n -> P k -> P (k + 1)) -> P n.
Proof.
  intros Hn H0 HS. revert n Hn HS. apply (natlike_ind (fun n => _ -> P n)); [done|].
  intros n Hn IH HS. apply HS; [lia|]. apply IH. intros. apply HS; [lia|done].
Qed.

Lemma sumz_ext f g n : (forall i, 0 <= i < n -> f i = g i) -> sumz f n = sumz g n.
Proof.
  intros Hext. unfold sumz. f_equal. apply list_fmap_ext.
  intros i x [-> Hi]%lookup_seqZ. apply Hext. lia.
Qed.

Lemma sumz_plus f g n : sumz (fun i => f i + g i) n = sumz f n + sumz g n.
Proof. unfold sumz. induction (seqZ 0 n); csimpl; lia. Qed.

Lemma sumz_const c n : 0 <= n -> sumz (fun _ => c) n = n * c.
Proof.
  intros Hn. apply (sumz_ind (fun n => sumz (fun _ => c) n = n * c)); [done|done|].
  intros k Hk IH. rewrite sumz_succ; lia.
Qed.

Lemma sumz_bound f n b : 0 <= n -> (forall i, 0 <= i < n -> 0 <= f i <= b) -> 0 <= sumz f n <= n * b.
Proof.
  intros Hn Hf. apply (sumz_ind (fun n => 0 <= sumz f n <= n * b)); [done|rewrite sumz_0; lia|].
  intros k Hk IH. rewrite sumz_succ by lia. specialize (Hf k Hk). lia.
Qed.

Lemma sumz_le f g n : (forall i, 0 <= i < n -> f i <= g i) -> sumz f n <= sumz g n.
Proof.
  intros Hf. unfold sumz.
  assert (forall i, i ∈ seqZ 0 n -> f i <= g i) as Hl by (intros i ?%elem_of_seqZ; apply Hf; lia).
  clear Hf. induction (seqZ 0 n) as [|x l IH]; csimpl; [done|].
  apply Z.add_le_mono; [apply Hl; left|]. apply IH. intros. apply Hl. by right.
Qed.

(** Two summands that differ at one index. *)
Lemma sumz_update f g n u :
  0 <= u < n -> (forall i, 0 <= i < n -> i <> u -> f i = g i) ->
  sumz f n = sumz g n + (f u - g u).
Proof.
  intros Hu. assert (0 <= n) as Hn by lia. revert Hu.
  apply (sumz_ind (fun n => 0 <= u < n -> (forall i, 0 <= i < n -> i <> u -> f i = g i) ->
    sumz f n = sumz g n + (f u - g u))); [done|lia|].
  intros k Hk IH Hu Hext. rewrite !sumz_succ by lia.
  destruct (decide (u = k)) as [->|Hne].
  - rewrite (sumz_ext f g); [lia|]. intros. apply Hext; lia.
  - rewrite IH, (Hext k); [lia..|]. intros. apply Hext; lia.
Qed.

Lemma sumz_split f k n : 0 <= k <= n -> sumz f n = sumz f k + sumz (fun i => f (k + i)) (n - k).
Proof.
  intros Hk. replace n with (k + (n - k)) at 1 by lia.
  apply (sumz_ind (fun m => sumz f (k + m) = sumz f k + sumz (fun i => f (k + i)) m)).
  - lia.
  - rewrite Z.add_0_r, sumz_0. lia.
  - intros m Hm IH. rewrite Z.add_assoc, !sumz_succ by lia. lia.
Qed.

(** Reindexing along a bijection of [0, n). *)
Lemma sumz_perm f (p : Z -> Z) n :
  p <$> seqZ 0 n ≡ₚ seqZ 0 n -> sumz (fun i => f (p i)) n = sumz f n.
Proof.
  intros Hp. unfold sumz.
  transitivity (foldr Z.add 0 (f <$> (p <$> seqZ 0 n))).
  { by rewrite <-list_fmap_compose. }
  apply (foldr_permutation_proper eq); [solve_proper|intros; lia|by apply Permutation_map].
Qed.
End sums.

(** An injection of [0, n) into itself is a permutation. *)
Lemma inj_perm_seqZ (p : Z -> Z) n :
  (forall i, 0 <= i < n -> 0 <= p i < n) ->
  (forall i j, 0 <= i < n -> 0 <= j < n -> p i = p j -> i = j) ->
  p <$> seqZ 0 n ≡ₚ seqZ 0 n.
Proof.
  intros Hr Hinj. apply submseteq_length_Permutation; [|by rewrite length_fmap].
  apply NoDup_submseteq.
  - apply NoDup_fmap_2_strong; [|apply NoDup_seqZ].
    intros x y ?%elem_of_seqZ ?%elem_of_seqZ. apply Hinj; lia.
  - intros x (y & -> & Hy%elem_of_seqZ)%list_elem_of_fmap.
    apply elem_of_seqZ. specialize (Hr y). lia.
Qed.

(** The indicator of a boolean, for counting with [sumz]. *)
Definition ind (b : bool) : Z := if b then 1 else 0.

Lemma ind_range b : 0 <= ind b <= 1.
Proof. destruct b; simpl; lia. Qed.

(** A downward closed predicate on [0, n) holds exactly below its count. *)
Lemma sumz_initial_segment (p : Z -> bool) n j :
  0 <= j < n -> (forall a b, 0 <= a <= b -> b < n -> p b = true -> p a = true) ->
  (p j = true <-> j < sumz (fun i => ind (p i)) n).
Proof.
  intros Hj Hdown.
  assert (0 <= sumz (fun i => ind (p (j + i))) (n - j) <= (n - j) * 1) as Hb.
  { apply sumz_bound; [lia|]. intros. unfold ind. case_match; lia. }
  assert (0 <= sumz (fun i => ind (p i)) j <= j * 1) as Hb'.
  { apply sumz_bound; [lia|]. intros. unfold ind. case_match; lia. }
  rewrite (sumz_split _ j n) by lia.
  split; intros Hp.
  - rewrite (sumz_ext (fun i => ind (p i)) (fun _ => 1) j).
    2: { intros i Hi. unfold ind. by rewrite (Hdown i j) by (done || lia). }
    rewrite sumz_const, (sumz_split _ 1 (n - j)) by lia.
    assert (0 <= sumz (fun i => ind (p (j + (1 + i)))) (n - j - 1) <= (n - j - 1) * 1).
    { apply sumz_bound; [lia|]. intros. unfold ind. case_match; lia. }
    rewrite (sumz_succ _ 0 ltac:(lia) : sumz _ 1 = _), sumz_0.
    rewrite Z.add_0_r, Hp. simpl. lia.
  - destruct (p j) eqn:E; [done|exfalso].
    rewrite (sumz_ext _ (fun _ => 0) (n - j)) in Hp.
    2: { intros i Hi. destruct (p (j + i)) eqn:E'; [|done].
         by rewrite (Hdown j (j + i)) in E by (done || lia). }
    rewrite sumz_const in Hp; lia.
Qed.

Lemma filter_id {A} (P : A -> Prop) `{!forall x, Decision (P x)} (l : list A) :
  (forall x, x ∈ l -> P x) -> filter P l = l.
Proof.
  induction l as [|x l IH]; intros HP; [done|].
  rewrite filter_cons_True by (apply HP; left). f_equal. apply IH. intros. apply HP. by right.
Qed.

Lemma filter_ext_elem {A} (P Q : A -> Prop) `{!forall x, Decision (P x), !forall x, Decision (Q x)} (l : list A) :
  (forall x, x ∈ l -> P x <-> Q x) -> filter P l = filter Q l.
Proof.
  induction l as [|x l IH]; intros Heq; [done|]. assert (filter P l = filter Q l) as Hl by (apply IH; intros; apply Heq; by right).
  clear IH.
  specialize (Heq x ltac:(by left)). rewrite !filter_cons, Hl. repeat case_decide; tauto.
Qed.

Lemma strictly_sorted_nodup (l : list Z) : StronglySorted Z.lt l -> NoDup l.
Proof.
  induction 1 as [|x l Hl IH Hall]; constructor; [|done].
  rewrite Forall_forall in Hall. intros Hx. specialize (Hall x Hx). lia.
Qed.

(** ** Automation *)

Create HintDb vec.
Create Rewrite HintDb vec.
#[export] Hint Resolve vlen_nonneg : vec.
#[export] Hint Rewrite @vlen_vput : vec.
#[export] Hint Rewrite @vlen_vnew using lia : vec.

(** Side conditions of a checked access. *)
Ltac vlia := autorewrite with vec in *; unfold INT_MIN, INT_MAX in *; lia.

(** One symbolic-execution step of a program in the option monad. *)
Ltac wstep :=
  lazymatch goal with
  | |- wp (_ ≫= _) _ => apply wp_bind
  | |- wp (Some _) _ => apply wp_ret
  | |- wp (vget _ _) _ => apply wp_vget; [try vlia|]
  | |- wp (vset _ _ _) _ => apply wp_vset; [try vlia|]
  | |- wp (i32 _) _ => apply wp_i32; [try vlia|]
  end; cbv beta iota zeta.
Ltac wsteps := repeat wstep.
