(* ===== verification/Archive.v ===== *)
(** * Archives

    [InArchive] and [OutArchive] (include/neug/utils/serialization): values are
    appended to a byte buffer in their memory representation (little endian) and
    read back in order.  Bytes are integers from 0 to 255; reading past the end
    of the buffer is [None]. *)
From S2P Require Import Prelude.
#[local] Open Scope Z_scope.

(** The bytes of a [k]-byte unsigned integer. *)
Fixpoint le_bytes (k : nat) (z : Z) : list Z :=
  match k with O => [] | S k => z mod 256 :: le_bytes k (z / 256) end.

Fixpoint le_value (bs : list Z) : Z :=
  match bs with [] => 0 | b :: bs => b + 256 * le_value bs end.

Lemma le_bytes_length k z : length (le_bytes k z) = k.
Proof. revert z. induction k as [|k IH]; intros z; simpl; [done|]. by rewrite IH. Qed.

Lemma le_value_bytes k z : 0 <= z < 256 ^ Z.of_nat k -> le_value (le_bytes k z) = z.
Proof.
  revert z. induction k as [|k IH]; intros z Hz; cbn [le_bytes le_value].
  - change (256 ^ Z.of_nat 0) with 1 in Hz. lia.
  - rewrite Nat2Z.inj_succ, Z.pow_succ_r in Hz by lia.
    rewrite IH; [pose proof (Z.div_mod z 256); lia|].
    split; [apply Z.div_pos; lia|apply Z.div_lt_upper_bound; lia].
Qed.

(** [arc.AddBytes] and [arc.GetBytes]. *)
Definition AddBytes (arc bs : list Z) : list Z := arc ++ bs.
Definition GetBytes (arc : list Z) (n : Z) : option (list Z * list Z) :=
  if (0 <=? n) && (n <=? vlen arc) then Some (take (Z.to_nat n) arc, drop (Z.to_nat n) arc) else None.

Lemma GetBytes_app bs rest : GetBytes (bs ++ rest) (vlen bs) = Some (bs, rest).
Proof.
  unfold GetBytes, vlen. rewrite length_app, !(proj2 (Z.leb_le _ _)) by lia. simpl.
  by rewrite Nat2Z.id, take_app_length, drop_app_length.
Qed.

(** [operator<<] and [operator>>] for an unsigned integer of [k] bytes. *)
Definition put_uint (k : nat) (arc : list Z) (u : Z) : list Z := AddBytes arc (le_bytes k u).
Definition get_uint (k : nat) (arc : list Z) : option (Z * list Z) :=
  r ← GetBytes arc (Z.of_nat k); Some (le_value (fst r), snd r).

Lemma get_put_uint k u rest : 0 <= u < 256 ^ Z.of_nat k -> get_uint k (le_bytes k u ++ rest) = Some (u, rest).
Proof.
  intros Hu. unfold get_uint. pose proof (GetBytes_app (le_bytes k u) rest) as Hg.
  unfold vlen in Hg. rewrite le_bytes_length in Hg. rewrite Hg. simpl. by rewrite le_value_bytes.
Qed.

(** [operator<<] and [operator>>] for [std::string] and [std::string_view]: an
    eight-byte length and the characters. *)
Definition put_string (arc s : list Z) : list Z := AddBytes (put_uint 8 arc (vlen s)) s.
Definition get_string (arc : list Z) : option (list Z * list Z) :=
  '(size, arc) ← get_uint 8 arc; GetBytes arc size.

Lemma get_put_string s rest : vlen s < 2 ^ 64 -> get_string (put_string [] s ++ rest) = Some (s, rest).
Proof.
  intros Hs. pose proof (vlen_nonneg (s : list Z)). unfold get_string, put_string, put_uint, AddBytes.
  rewrite app_nil_l, <-app_assoc, get_put_uint by (change (256 ^ Z.of_nat 8) with (2 ^ 64); lia).
  cbn [mbind option_bind]. apply GetBytes_app.
Qed.

(** A sequence of [uint32_t] values written one by one. *)
Fixpoint put_uints (k : nat) (arc : list Z) (us : list Z) : list Z :=
  match us with [] => arc | u :: us => put_uints k (put_uint k arc u) us end.
Fixpoint get_uints (k : nat) (n : nat) (arc : list Z) : option (list Z * list Z) :=
  match n with
  | O => Some ([], arc)
  | S n => '(u, arc) ← get_uint k arc; '(us, arc) ← get_uints k n arc; Some (u :: us, arc)
  end.

Lemma put_uints_app k arc us : put_uints k arc us = arc ++ put_uints k [] us.
Proof.
  revert arc. induction us as [|u us IH]; intros arc; simpl; [by rewrite app_nil_r|].
  rewrite IH, (IH (put_uint k [] u)). unfold put_uint, AddBytes. by rewrite app_nil_l, app_assoc.
Qed.

Lemma get_put_uints k us rest : (forall u, u ∈ us -> 0 <= u < 256 ^ Z.of_nat k) ->
  get_uints k (length us) (put_uints k [] us ++ rest) = Some (us, rest).
Proof.
  induction us as [|u us IH]; intros Hus; simpl; [done|].
  rewrite put_uints_app. unfold put_uint, AddBytes. rewrite app_nil_l, <-app_assoc, get_put_uint by (apply Hus; left).
  cbn [mbind option_bind]. rewrite IH; [done|]. intros. apply Hus. by right.
Qed.
