(* ===== verification/Bitset.v ===== *)
(** * The word-level bitset

    [Bitset] (include/neug/utils/bitset.h): an aligned buffer of 64-bit words
    that grows through [reserve], with plain and atomic bit operations.  The
    schema's tombstones and the version manager's ring use it.  An access
    through the null pointer or outside the allocated words is [None].  The
    refinement is to lists of booleans.  [Serialize] and [Deserialize]
    (src/utils/bitset.cc) are at the end. *)
From S2P Require Import Prelude Archive.
#[local] Open Scope Z_scope.

(** [size_t] and [uint64_t] arithmetic. *)
Definition to_u64 (z : Z) : Z := z mod 2 ^ 64.
Definition not64 (x : Z) : Z := Z.lxor x (Z.ones 64).
Definition is_word (w : Z) : Prop := 0 <= w < 2 ^ 64.

Definition WORD_SIZE (n : Z) : Z := Z.shiftr (to_u64 (n + 63)) 6.
Definition WORD_INDEX (i : Z) : Z := Z.shiftr i 6.
Definition BIT_OFFSET (i : Z) : Z := Z.land i 63.
Definition kAlignment : Z := 64.
Definition ROUND_UP_TO_ALIGNMENT (i alignment : Z) : Z :=
  Z.land (to_u64 (i + alignment - 1)) (not64 (alignment - 1)).

(** Fresh memory: what [aligned_alloc] returns is a block of the requested
    number of words with unspecified contents. *)
Class Memory := {
  fresh_words : Z -> list Z;
  fresh_length n : 0 <= n -> vlen (fresh_words n) = n;
  fresh_range n : Forall is_word (fresh_words n)
}.

(** A block of zeros, for examples. *)
#[export] Program Instance zero_memory : Memory := {| fresh_words n := vnew n 0 |}.
Next Obligation. intros n Hn. by apply vlen_vnew. Qed.
Next Obligation. intros n. apply Forall_replicate. by unfold is_word. Qed.

Record Bitset := mkBitset {
  data_ : option (list Z);      (* [None] is the null pointer *)
  size_ : Z;
  size_in_words_ : Z;
  capacity_ : Z;
  capacity_in_words_ : Z
}.

Definition empty_bitset : Bitset := mkBitset None 0 0 0 0.

(** [memcpy(dst, src, n * sizeof(uint64_t))] and [memset(p + from, 0, ...)]. *)
Definition memcpy_words (dst : list Z) (src : option (list Z)) (n : Z) : option (list Z) :=
  s ← src;
  if (n <=? vlen s) && (n <=? vlen dst) then Some (take (Z.to_nat n) s ++ drop (Z.to_nat n) dst) else None.
Definition memset_zero (p : option (list Z)) (from n : Z) : option (option (list Z)) :=
  match p with
  | None => if n =? 0 then Some None else None
  | Some l =>
      if (0 <=? n) && (from + n <=? vlen l)
      then Some (Some (take (Z.to_nat from) l ++ vnew n 0 ++ drop (Z.to_nat (from + n)) l)) else None
  end.

Section bitset.
Context `{!Memory}.

(** [aligned_alloc(kAlignment, alloc_size)] for a capacity in words. *)
Definition alloc_words (capacity_in_words : Z) : list Z :=
  fresh_words (Z.shiftr (ROUND_UP_TO_ALIGNMENT (to_u64 (capacity_in_words * 8)) kAlignment) 3).

(** [Bitset(const Bitset& other)]; the copy assignment frees the old block and
    does the same. *)
Definition copy (other : Bitset) : option Bitset :=
  if capacity_ other =? 0 then
    Some (mkBitset None (size_ other) (size_in_words_ other) (capacity_ other) (capacity_in_words_ other))
  else
    d ← memcpy_words (alloc_words (capacity_in_words_ other)) (data_ other) (capacity_in_words_ other);
    Some (mkBitset (Some d) (size_ other) (size_in_words_ other) (capacity_ other) (capacity_in_words_ other)).

(** [Bitset(Bitset&& other)]: the new object and what is left of [other]. *)
Definition move_construct (other : Bitset) : Bitset * Bitset := (other, mkBitset None 0 0 0 0).

(** [operator=(Bitset&& other)] for distinct objects; the last assignment of
    the source names [size_in_words_] a second time. *)
Definition move_assign (other : Bitset) : Bitset * Bitset :=
  (other, mkBitset None 0 0 0 (capacity_in_words_ other)).

Definition reserve (b : Bitset) (cap : Z) : option Bitset :=
  let cap := Z.max cap (kAlignment * 8) in
  let new_cap_in_words := Z.max (WORD_SIZE cap) (kAlignment / 8) in
  if new_cap_in_words <=? capacity_in_words_ b then
    Some (mkBitset (data_ b) (size_ b) (size_in_words_ b) cap (capacity_in_words_ b))
  else
    let new_data := alloc_words new_cap_in_words in
    d ← match data_ b with
        | None => Some new_data
        | Some _ => memcpy_words new_data (data_ b) (size_in_words_ b)
        end;
    Some (mkBitset (Some d) (size_ b) (size_in_words_ b) cap new_cap_in_words).

Definition bitset_clear (b : Bitset) : Bitset := mkBitset (data_ b) 0 0 (capacity_ b) (capacity_in_words_ b).

Definition reset_all (b : Bitset) : option Bitset :=
  d ← memset_zero (data_ b) 0 (size_in_words_ b);
  Some (mkBitset d (size_ b) (size_in_words_ b) (capacity_ b) (capacity_in_words_ b)).

(** [data_[k] = f(data_[k])]. *)
Definition update_word (b : Bitset) (k : Z) (f : Z -> Z) : option Bitset :=
  d ← data_ b;
  w ← vget d k;
  d' ← vset d k (f w);
  Some (mkBitset (Some d') (size_ b) (size_in_words_ b) (capacity_ b) (capacity_in_words_ b)).

(** The partial last word loses its bits past the size. *)
Definition clear_tail (b : Bitset) : option Bitset :=
  if negb (size_in_words_ b =? 0) && negb (BIT_OFFSET (size_ b) =? 0) then
    let mask := to_u64 (Z.shiftl 1 (BIT_OFFSET (size_ b)) - 1) in
    update_word b (size_in_words_ b - 1) (fun w => Z.land w mask)
  else Some b.

Definition bitset_resize (b : Bitset) (new_size : Z) : option Bitset :=
  if new_size <=? size_ b then
    Some (mkBitset (data_ b) new_size (WORD_SIZE new_size) (capacity_ b) (capacity_in_words_ b))
  else
    b ← reserve b new_size;
    let new_size_in_words := WORD_SIZE new_size in
    d ← memset_zero (data_ b) (size_in_words_ b) (to_u64 (new_size_in_words - size_in_words_ b));
    b ← clear_tail (mkBitset d (size_ b) (size_in_words_ b) (capacity_ b) (capacity_in_words_ b));
    Some (mkBitset (data_ b) new_size new_size_in_words (capacity_ b) (capacity_in_words_ b)).

Definition bit_mask (i : Z) : Z := to_u64 (Z.shiftl 1 (BIT_OFFSET i)).

(** [set] and [atomic_set]; [reset] and [atomic_reset]. *)
Definition bitset_set (b : Bitset) (i : Z) : option Bitset :=
  update_word b (WORD_INDEX i) (fun w => Z.lor w (bit_mask i)).
Definition bitset_reset (b : Bitset) (i : Z) : option Bitset :=
  update_word b (WORD_INDEX i) (fun w => Z.land w (not64 (bit_mask i))).

Definition bitset_get (b : Bitset) (i : Z) : option bool :=
  d ← data_ b;
  w ← vget d (WORD_INDEX i);
  Some (negb (Z.land w (bit_mask i) =? 0)).

(** [atomic_set_with_ret], [atomic_reset_with_ret]: the old bit. *)
Definition atomic_set_with_ret (b : Bitset) (i : Z) : option (bool * Bitset) :=
  old ← bitset_get b i; b' ← bitset_set b i; Some (old, b').
Definition atomic_reset_with_ret (b : Bitset) (i : Z) : option (bool * Bitset) :=
  old ← bitset_get b i; b' ← bitset_reset b i; Some (old, b').

(** [__builtin_popcountll]. *)
Definition popcount (w : Z) : Z := sumz (fun k => ind (Z.testbit w k)) 64.

Definition bitset_count (b : Bitset) : option Z :=
  for_range (size_in_words_ b) 0 (fun i ret =>
    d ← data_ b; w ← vget d i; Some (to_u64 (ret + popcount w))).
End bitset.

(** ** Bits of a block *)

Definition word_bit (d : list Z) (j : Z) : bool := Z.testbit (vat d (WORD_INDEX j)) (BIT_OFFSET j).

Lemma WORD_INDEX_div i : WORD_INDEX i = i / 64.
Proof. unfold WORD_INDEX. by rewrite Z.shiftr_div_pow2. Qed.

Lemma BIT_OFFSET_mod i : BIT_OFFSET i = i mod 64.
Proof. unfold BIT_OFFSET. change 63 with (Z.ones 6). by rewrite Z.land_ones. Qed.

Lemma BIT_OFFSET_range i : 0 <= BIT_OFFSET i < 64.
Proof. rewrite BIT_OFFSET_mod. by apply Z.mod_pos_bound. Qed.

Lemma index_split i : i = 64 * WORD_INDEX i + BIT_OFFSET i.
Proof. rewrite WORD_INDEX_div, BIT_OFFSET_mod. by apply Z.div_mod. Qed.

Lemma index_unique i k o : 0 <= o < 64 -> i = 64 * k + o -> WORD_INDEX i = k /\ BIT_OFFSET i = o.
Proof.
  intros Ho Hi. rewrite WORD_INDEX_div, BIT_OFFSET_mod.
  split; symmetry; [by apply (Z.div_unique i 64 k o); [left|]|by apply (Z.mod_unique i 64 k o); [left|]].
Qed.

Lemma WORD_SIZE_ceil n : 0 <= n < 2 ^ 63 -> 64 * WORD_SIZE n - 64 < n <= 64 * WORD_SIZE n.
Proof.
  intros Hn. unfold WORD_SIZE, to_u64. rewrite Z.mod_small by lia. fold (WORD_INDEX (n + 63)).
  pose proof (index_split (n + 63)). pose proof (BIT_OFFSET_range (n + 63)). lia.
Qed.

Lemma word_index_lt i n : 0 <= i < 64 * n -> 0 <= WORD_INDEX i < n.
Proof. intros Hi. pose proof (index_split i). pose proof (BIT_OFFSET_range i). lia. Qed.

Lemma word_testbit_high w k : is_word w -> 64 <= k -> Z.testbit w k = false.
Proof.
  intros [Hw0 Hw] Hk. destruct (Z.eq_dec w 0) as [->|]; [by rewrite Z.bits_0|].
  apply Z.bits_above_log2; [lia|]. assert (Z.log2 w < 64) by (apply Z.log2_lt_pow2; lia). lia.
Qed.

Lemma word_ext w : (forall k, 64 <= k -> Z.testbit w k = false) -> 0 <= w -> is_word w.
Proof.
  intros Hk Hw. split; [done|]. destruct (Z.eq_dec w 0) as [->|]; [done|].
  apply Z.log2_lt_pow2; [lia|]. destruct (Z.lt_ge_cases (Z.log2 w) 64) as [|Hge]; [done|].
  pose proof (Z.bit_log2 w ltac:(lia)) as Hb. by rewrite Hk in Hb by done.
Qed.

Lemma mask_testbit i k : 0 <= k -> Z.testbit (bit_mask i) k = (k =? BIT_OFFSET i).
Proof.
  intros Hk. pose proof (BIT_OFFSET_range i). unfold bit_mask, to_u64.
  rewrite Z.shiftl_1_l, Z.mod_small by (split; [lia|apply Z.pow_lt_mono_r; lia]).
  rewrite Z.pow2_bits_eqb by lia. apply Z.eqb_sym.
Qed.

Lemma not64_testbit x k : 0 <= k < 64 -> Z.testbit (not64 x) k = negb (Z.testbit x k).
Proof. intros Hk. unfold not64. rewrite Z.lxor_spec, Z.ones_spec_low by lia. by rewrite xorb_true_r. Qed.

Lemma lor_word v w : is_word v -> is_word w -> is_word (Z.lor v w).
Proof.
  intros Hv Hw. apply word_ext; [|unfold is_word in *; rewrite Z.lor_nonneg; lia].
  intros k Hk. by rewrite Z.lor_spec, !word_testbit_high.
Qed.

Lemma land_word v w : is_word v -> 0 <= w -> is_word (Z.land v w).
Proof.
  intros Hv Hw. apply word_ext; [|unfold is_word in *; rewrite Z.land_nonneg; lia].
  intros k Hk. by rewrite Z.land_spec, word_testbit_high.
Qed.

Lemma mask_word i : is_word (bit_mask i).
Proof. unfold bit_mask, is_word, to_u64. by apply Z.mod_pos_bound. Qed.

Lemma not64_nonneg x : is_word x -> 0 <= not64 x.
Proof. intros [? _]. unfold not64. apply Z.lxor_nonneg. split; intros; [done|lia]. Qed.

Lemma land_mask w i : is_word w -> negb (Z.land w (bit_mask i) =? 0) = Z.testbit w (BIT_OFFSET i).
Proof.
  intros Hw. pose proof (BIT_OFFSET_range i).
  destruct (Z.testbit w (BIT_OFFSET i)) eqn:E.
  - destruct (Z.eqb_spec (Z.land w (bit_mask i)) 0) as [H0|]; [|done].
    apply (f_equal (fun x => Z.testbit x (BIT_OFFSET i))) in H0.
    rewrite Z.land_spec, mask_testbit, E, Z.eqb_refl, Z.bits_0 in H0 by lia. done.
  - apply negb_false_iff, Z.eqb_eq, Z.bits_inj'. intros k Hk.
    rewrite Z.land_spec, mask_testbit, Z.bits_0 by done.
    destruct (Z.eqb_spec k (BIT_OFFSET i)) as [->|]; [by rewrite E|by rewrite andb_false_r].
Qed.

(** Replacing word [k] changes exactly the bits of that word. *)
Lemma word_bit_put d k w j : 0 <= k < vlen d -> 0 <= j ->
  word_bit (vput d k w) j = if decide (WORD_INDEX j = k) then Z.testbit w (BIT_OFFSET j) else word_bit d j.
Proof.
  intros Hk Hj. unfold word_bit. assert (0 <= WORD_INDEX j) by (rewrite WORD_INDEX_div; by apply Z.div_pos).
  rewrite vat_vput by lia. repeat case_decide; congruence.
Qed.

(** ** Representation *)

Definition words (b : Bitset) : list Z := default [] (data_ b).
Definition bit (b : Bitset) (j : Z) : bool := word_bit (words b) j.

Record bitset_ok (b : Bitset) : Prop := {
  bo_size : 0 <= size_ b < 2 ^ 63;
  bo_words : size_in_words_ b = WORD_SIZE (size_ b);
  bo_cap : size_in_words_ b <= capacity_in_words_ b <= vlen (words b);
  bo_limit : capacity_in_words_ b <= 2 ^ 58;
  bo_zero : capacity_ b = 0 -> capacity_in_words_ b = 0;
  bo_null : data_ b = None -> capacity_ b = 0 /\ capacity_in_words_ b = 0;
  bo_range : Forall is_word (words b)
}.

Lemma bitset_data b : bitset_ok b -> 0 < size_ b -> data_ b = Some (words b).
Proof.
  intros [Hs Hw Hc Hlim Hz Hn _] Hp. unfold words. destruct (data_ b); [done|]. destruct (Hn eq_refl).
  pose proof (WORD_SIZE_ceil (size_ b) Hs). lia.
Qed.

Lemma bitset_index b i : bitset_ok b -> 0 <= i < size_ b -> 0 <= WORD_INDEX i < vlen (words b).
Proof.
  intros [Hs Hw Hc Hlim Hz _ _] Hi. pose proof (WORD_SIZE_ceil (size_ b) Hs).
  pose proof (word_index_lt i (WORD_SIZE (size_ b)) ltac:(lia)). lia.
Qed.

Lemma update_word_wp b k f : bitset_ok b -> 0 <= k < size_in_words_ b -> (forall w, is_word w -> is_word (f w)) ->
  wp (update_word b k f) (fun b' => bitset_ok b' /\ size_ b' = size_ b /\ size_in_words_ b' = size_in_words_ b /\
    capacity_in_words_ b' = capacity_in_words_ b /\ is_Some (data_ b') /\
    words b' = vput (words b) k (f (vat (words b) k))).
Proof.
  intros Hb Hk Hf. pose proof Hb as [Hs Hw Hc Hlim Hz Hn Hr]. pose proof (WORD_SIZE_ceil (size_ b) Hs).
  unfold update_word. rewrite bitset_data by (done || lia). wsteps. simpl.
  split_and!; [|done|done|done|done|done]. split; simpl; [done|done|by cbn; rewrite vlen_vput|done|done|done|].
  unfold words at 1. simpl. apply Forall_insert; [done|]. apply Hf.
  apply (proj1 (Forall_forall _ _) Hr), vat_elem. lia.
Qed.

Lemma get_wp b i : bitset_ok b -> 0 <= i < size_ b -> bitset_get b i = Some (bit b i).
Proof.
  intros Hb Hi. pose proof (bitset_index b i Hb Hi) as Hw. unfold bitset_get.
  rewrite bitset_data by (done || lia). cbn [mbind option_bind]. rewrite vget_Some by done. cbn [mbind option_bind].
  rewrite land_mask; [done|]. apply (proj1 (Forall_forall _ _) (bo_range _ Hb)), vat_elem. lia.
Qed.

(** The two updates of a single bit. *)
Lemma set_wp b i : bitset_ok b -> 0 <= i < size_ b ->
  wp (bitset_set b i) (fun b' => bitset_ok b' /\ size_ b' = size_ b /\
    forall j, 0 <= j -> bit b' j = (j =? i) || bit b j).
Proof.
  intros Hb Hi. pose proof Hb as [Hs Hw _ _ _ _ _]. pose proof (WORD_SIZE_ceil (size_ b) Hs).
  pose proof (bitset_index b i Hb Hi). pose proof (BIT_OFFSET_range i).
  eapply wp_mono; [apply update_word_wp; [done|rewrite Hw; apply word_index_lt; lia|]|].
  - intros w Hww. apply lor_word; [done|apply mask_word].
  - intros b' (Hb' & Hsz & _ & _ & _ & Hwd). split_and!; [done..|]. intros j Hj. unfold bit. rewrite Hwd, word_bit_put by lia.
    pose proof (index_split i). pose proof (index_split j). pose proof (BIT_OFFSET_range j). case_decide as Hji.
    + rewrite Z.lor_spec, mask_testbit by lia. unfold word_bit. rewrite Hji. rewrite orb_comm. f_equal.
      destruct (Z.eqb_spec j i), (Z.eqb_spec (BIT_OFFSET j) (BIT_OFFSET i)); lia || done.
    + destruct (Z.eqb_spec j i); [congruence|done].
Qed.

Lemma reset_wp b i : bitset_ok b -> 0 <= i < size_ b ->
  wp (bitset_reset b i) (fun b' => bitset_ok b' /\ size_ b' = size_ b /\
    forall j, 0 <= j -> bit b' j = negb (j =? i) && bit b j).
Proof.
  intros Hb Hi. pose proof Hb as [Hs Hw _ _ _ _ _]. pose proof (WORD_SIZE_ceil (size_ b) Hs).
  pose proof (bitset_index b i Hb Hi). pose proof (BIT_OFFSET_range i).
  eapply wp_mono; [apply update_word_wp; [done|rewrite Hw; apply word_index_lt; lia|]|].
  - intros w Hww. apply land_word; [done|apply not64_nonneg, mask_word].
  - intros b' (Hb' & Hsz & _ & _ & _ & Hwd). split_and!; [done..|]. intros j Hj. unfold bit. rewrite Hwd, word_bit_put by lia.
    pose proof (index_split i). pose proof (index_split j). pose proof (BIT_OFFSET_range j). case_decide as Hji.
    + rewrite Z.land_spec, not64_testbit, mask_testbit by lia. unfold word_bit. rewrite Hji. rewrite andb_comm.
      f_equal. f_equal. destruct (Z.eqb_spec j i), (Z.eqb_spec (BIT_OFFSET j) (BIT_OFFSET i)); lia || done.
    + destruct (Z.eqb_spec j i); [congruence|done].
Qed.

Lemma round_down_64 y : is_word y -> Z.land y (not64 63) = 64 * (y / 64).
Proof.
  intros Hy. rewrite Z.mul_comm. change 64 with (2 ^ 6).
  rewrite <-Z.shiftl_mul_pow2, <-Z.shiftr_div_pow2 by done.
  apply Z.bits_inj'. intros k Hk. rewrite Z.land_spec, Z.shiftl_spec by done.
  destruct (Z.lt_ge_cases k 6).
  - rewrite (Z.testbit_neg_r _ (k - 6)) by lia. rewrite not64_testbit by lia. change 63 with (Z.ones 6).
    rewrite Z.ones_spec_low by lia. by rewrite andb_false_r.
  - rewrite Z.shiftr_spec by lia. replace (k - 6 + 6) with k by lia.
    destruct (Z.lt_ge_cases k 64).
    + rewrite not64_testbit by lia. change 63 with (Z.ones 6). rewrite Z.ones_spec_high by lia. by rewrite andb_true_r.
    + by rewrite (word_testbit_high y).
Qed.

Section operations.
Context `{!Memory}.

Lemma alloc_words_length n : 0 <= n <= 2 ^ 58 -> n <= vlen (alloc_words n).
Proof.
  intros Hn. unfold alloc_words, ROUND_UP_TO_ALIGNMENT, kAlignment, to_u64.
  rewrite (Z.mod_small (n * 8)), Z.mod_small by lia. rewrite round_down_64 by (unfold is_word; lia).
  pose proof (Z.div_mod (n * 8 + 64 - 1) 64 ltac:(lia)). pose proof (Z.mod_pos_bound (n * 8 + 64 - 1) 64 ltac:(lia)).
  set (q := (n * 8 + 64 - 1) / 64) in *. rewrite Z.shiftr_div_pow2 by lia. change (2 ^ 3) with 8.
  replace (64 * q) with (8 * q * 8) by lia. rewrite Z.div_mul by lia. rewrite fresh_length; lia.
Qed.

Lemma alloc_words_range n : Forall is_word (alloc_words n).
Proof. apply fresh_range. Qed.

(** The words [memcpy] and [memset] leave. *)
Lemma memcpy_wp dst src n : 0 <= n -> n <= vlen src -> n <= vlen dst -> Forall is_word src -> Forall is_word dst ->
  wp (memcpy_words dst (Some src) n) (fun d => vlen d = vlen dst /\ Forall is_word d /\
    forall k, 0 <= k < n -> vat d k = vat src k).
Proof.
  intros Hn Hs Hd Hws Hwd. unfold memcpy_words. cbn [mbind option_bind]. unfold vlen in *.
  rewrite !(proj2 (Z.leb_le _ _)) by lia. simpl. split_and!.
  - rewrite length_app, length_take, length_drop. lia.
  - apply Forall_app. split; [by apply Forall_take|by apply Forall_drop].
  - intros k Hk. unfold vat. rewrite !list_lookup_total_alt, lookup_app_l by (rewrite length_take; lia).
    by rewrite lookup_take_lt by lia.
Qed.

Lemma memset_wp d from n : 0 <= from -> 0 <= n -> from + n <= vlen d -> Forall is_word d ->
  wp (memset_zero (Some d) from n) (fun d' => exists l, d' = Some l /\ vlen l = vlen d /\ Forall is_word l /\
    forall k, 0 <= k < from + n -> vat l k = if decide (k < from) then vat d k else 0).
Proof.
  intros Hf Hn Hl Hw. unfold memset_zero, vlen in *. rewrite !(proj2 (Z.leb_le _ _)) by lia. simpl.
  eexists. split; [done|]. split_and!.
  - unfold vnew. rewrite !length_app, length_take, length_drop, length_replicate. lia.
  - rewrite !Forall_app. split_and!; [by apply Forall_take| |by apply Forall_drop].
    apply Forall_replicate. by unfold is_word.
  - intros k Hk. unfold vat, vnew. rewrite !list_lookup_total_alt. case_decide.
    + rewrite lookup_app_l by (rewrite length_take; lia). by rewrite lookup_take_lt by lia.
    + rewrite lookup_app_r, lookup_app_l, lookup_replicate_2 by (rewrite ?length_take, ?length_replicate; lia). done.
Qed.

Lemma reserve_wp b cap : bitset_ok b -> size_ b <= cap < 2 ^ 63 ->
  wp (reserve b cap) (fun b' => bitset_ok b' /\ size_ b' = size_ b /\ WORD_SIZE cap <= capacity_in_words_ b' /\
    is_Some (data_ b') /\ forall k, 0 <= k < size_in_words_ b -> vat (words b') k = vat (words b) k).
Proof.
  intros [Hs Hw Hc Hlim Hz Hnull Hr] Hcap. pose proof (WORD_SIZE_ceil (size_ b) Hs).
  unfold reserve, kAlignment. change (64 * 8) with 512. change (64 / 8) with 8.
  pose proof (WORD_SIZE_ceil (Z.max cap 512) ltac:(lia)). pose proof (WORD_SIZE_ceil cap ltac:(lia)).
  destruct (Z.leb_spec (Z.max (WORD_SIZE (Z.max cap 512)) 8) (capacity_in_words_ b)) as [Hle|Hgt].
  - assert (is_Some (data_ b)) as [d Hd] by (destruct (data_ b); [done|]; destruct (Hnull eq_refl); lia).
    simpl. rewrite Hd. split_and!; [|done|lia|done|].
    + unfold words in *. rewrite Hd in *. split; simpl; unfold words; simpl in *; done || lia.
    + intros k Hk. unfold words. by rewrite Hd.
  - set (nc := Z.max (WORD_SIZE (Z.max cap 512)) 8) in *.
    pose proof (alloc_words_length nc ltac:(lia)) as Hal. pose proof (alloc_words_range nc) as Har.
    assert (wp (match data_ b with None => Some (alloc_words nc)
      | Some _ => memcpy_words (alloc_words nc) (data_ b) (size_in_words_ b) end) (fun d =>
      vlen d = vlen (alloc_words nc) /\ Forall is_word d /\
      forall k, 0 <= k < size_in_words_ b -> vat d k = vat (words b) k)) as Hd.
    { unfold words in *. destruct (data_ b) as [d|]; simpl in *; [apply memcpy_wp; lia || done|].
      destruct (Hnull eq_refl). split_and!; [done..|lia]. }
    apply wp_bind. eapply wp_mono; [exact Hd|]. intros d (Hl & Hwd & Hk). simpl.
    split_and!; [split; simpl; unfold words; simpl; try done; lia|done|lia|done|done].
Qed.

Lemma last_word_offset n : 0 < n < 2 ^ 63 -> BIT_OFFSET n <> 0 -> n = 64 * (WORD_SIZE n - 1) + BIT_OFFSET n.
Proof.
  intros Hn Ho. pose proof (WORD_SIZE_ceil n ltac:(lia)). pose proof (index_split n). pose proof (BIT_OFFSET_range n). lia.
Qed.

Lemma low_mask_testbit o k : 0 <= o < 64 -> 0 <= k -> Z.testbit (to_u64 (Z.shiftl 1 o - 1)) k = (k <? o).
Proof.
  intros Ho Hk. pose proof (Z.pow_lt_mono_r 2 o 64). pose proof (Z.pow_pos_nonneg 2 o). unfold to_u64.
  rewrite Z.shiftl_1_l, Z.mod_small by lia.
  replace (2 ^ o - 1) with (Z.ones o) by (rewrite Z.ones_equiv; lia). rewrite Z.testbit_ones by lia.
  by rewrite (proj2 (Z.leb_le 0 k)).
Qed.

Lemma clear_tail_wp b : bitset_ok b -> is_Some (data_ b) ->
  wp (clear_tail b) (fun b' => bitset_ok b' /\ size_ b' = size_ b /\ capacity_in_words_ b' = capacity_in_words_ b /\
    is_Some (data_ b') /\
    forall j, 0 <= j -> bit b' j = (if WORD_INDEX j <? WORD_SIZE (size_ b) then j <? size_ b else true) && bit b j).
Proof.
  intros Hb Hd. pose proof Hb as [Hs Hw Hc Hlim Hz _ _]. pose proof (WORD_SIZE_ceil (size_ b) Hs).
  pose proof (index_split (size_ b)). pose proof (BIT_OFFSET_range (size_ b)).
  assert (forall j, j = 64 * WORD_INDEX j + BIT_OFFSET j /\ 0 <= BIT_OFFSET j < 64) as Hspl
    by (intros j; split; [apply index_split|apply BIT_OFFSET_range]).
  unfold clear_tail. rewrite Hw.
  destruct (Z.eqb_spec (WORD_SIZE (size_ b)) 0); [|destruct (Z.eqb_spec (BIT_OFFSET (size_ b)) 0)]; simpl.
  1,2: split_and!; [done..|]; intros j Hj; specialize (Hspl j);
    destruct (Z.ltb_spec (WORD_INDEX j) (WORD_SIZE (size_ b))); [|done];
    by rewrite (proj2 (Z.ltb_lt j _)) by lia.
  pose proof (last_word_offset (size_ b) ltac:(lia) ltac:(done)) as Hlast.
  eapply wp_mono; [apply update_word_wp; [done|lia|]|].
  { intros w Hww. apply land_word; [done|]. apply Z.mod_pos_bound. lia. }
  intros b' (Hb' & Hsz & _ & Hcp & Hd' & Hwd). split_and!; [done..|].
  intros j Hj. specialize (Hspl j). unfold bit. rewrite Hwd, word_bit_put by lia. case_decide as Hji.
  - rewrite Z.land_spec, low_mask_testbit by lia. unfold word_bit. rewrite Hji, (proj2 (Z.ltb_lt (_ - 1) _)) by lia.
    rewrite andb_comm. f_equal. apply Bool.eq_iff_eq_true. rewrite !Z.ltb_lt. lia.
  - destruct (Z.ltb_spec (WORD_INDEX j) (WORD_SIZE (size_ b))); [|done]. by rewrite (proj2 (Z.ltb_lt j _)) by lia.
Qed.

(** Growing keeps the old bits, and every new bit is zero, also where the last
    word held stale bits. *)
Lemma grow_wp b n : bitset_ok b -> size_ b < n < 2 ^ 63 ->
  wp (bitset_resize b n) (fun b' => bitset_ok b' /\ size_ b' = n /\
    forall j, 0 <= j < n -> bit b' j = (j <? size_ b) && bit b j).
Proof.
  intros Hb Hn. pose proof Hb as [Hs Hw _ _ _ _ _]. unfold bitset_resize. rewrite (proj2 (Z.leb_gt _ _)) by lia.
  pose proof (WORD_SIZE_ceil (size_ b) Hs). pose proof (WORD_SIZE_ceil n ltac:(lia)).
  apply wp_bind. eapply wp_mono; [apply (reserve_wp b n); [done|lia]|].
  intros b1 (Hb1 & Hs1 & Hcap & [d1 Hd1] & Hk1). pose proof Hb1 as [_ Hw1 Hc1 Hlim1 Hz1 _ Hr1]. cbv zeta.
  assert (words b1 = d1) as Hwd1 by (unfold words; by rewrite Hd1). rewrite Hwd1 in *. rewrite Hd1, Hw1, Hs1 in *.
  unfold to_u64 at 1. rewrite Z.mod_small by lia.
  apply wp_bind. eapply wp_mono; [apply (memset_wp d1); lia || done|].
  intros d (l & -> & Hl & Hwl & Hkl).
  apply wp_bind. eapply wp_mono; [apply clear_tail_wp; [split; simpl; unfold words; simpl; done || lia|done]|].
  simpl. intros b3 ([_ _ Hc3 Hlim3 Hz3 Hn3 Hr3] & Hs3 & Hcp3 & [d3 Hd3] & Hj3). simpl in *. split_and!; [|done|].
  - split; simpl; unfold words in *; simpl; [lia|done|rewrite Hd3 in *; lia|lia|done|by rewrite Hd3|done].
  - intros j Hj. change (bit _ j) with (bit b3 j) at 1. rewrite Hj3 by lia. unfold bit, word_bit, words at 1. simpl.
    pose proof (word_index_lt j (WORD_SIZE n) ltac:(lia)). pose proof (index_split j). pose proof (BIT_OFFSET_range j).
    rewrite Hkl by lia. case_decide.
    + rewrite (proj2 (Z.ltb_lt (WORD_INDEX j) _)), Hk1 by lia. done.
    + rewrite (proj2 (Z.ltb_ge (WORD_INDEX j) _)), (proj2 (Z.ltb_ge j _)), Z.bits_0 by lia. done.
Qed.

Lemma resize_wp b n : bitset_ok b -> 0 <= n < 2 ^ 63 ->
  wp (bitset_resize b n) (fun b' => bitset_ok b' /\ size_ b' = n /\
    forall j, 0 <= j < n -> bit b' j = (j <? size_ b) && bit b j).
Proof.
  intros Hb Hn. destruct (Z.lt_ge_cases (size_ b) n); [apply grow_wp; [done|lia]|].
  unfold bitset_resize. rewrite (proj2 (Z.leb_le _ _)) by lia. destruct Hb as [Hs Hw Hc Hlim Hz Hnull Hr]. simpl.
  pose proof (WORD_SIZE_ceil (size_ b) Hs). pose proof (WORD_SIZE_ceil n ltac:(lia)).
  split_and!; [split; simpl; try done; change (words _) with (words b); lia|done|].
  intros j Hj. by rewrite (proj2 (Z.ltb_lt j _)) by lia.
Qed.

Lemma reset_all_wp b : bitset_ok b ->
  wp (reset_all b) (fun b' => bitset_ok b' /\ size_ b' = size_ b /\ forall j, 0 <= j < size_ b -> bit b' j = false).
Proof.
  intros Hb. pose proof Hb as [Hs Hw Hc Hlim Hz Hnull Hr]. pose proof (WORD_SIZE_ceil (size_ b) Hs). unfold reset_all, memset_zero.
  destruct (data_ b) as [d|] eqn:Hd.
  - assert (words b = d) as Hwd by (unfold words; by rewrite Hd). rewrite Hwd in *.
    apply wp_bind. fold (memset_zero (Some d) 0 (size_in_words_ b)). eapply wp_mono; [apply (memset_wp d); lia || done|]. intros d' (l & -> & Hl & Hwl & Hk). simpl.
    split_and!; [split; simpl; unfold words; simpl; done || lia|done|]. intros j Hj.
    pose proof (word_index_lt j (WORD_SIZE (size_ b)) ltac:(lia)).
    unfold bit, word_bit, words. simpl. rewrite Hk by lia. rewrite decide_False by lia. apply Z.bits_0.
  - destruct (Hnull eq_refl). rewrite (proj2 (Z.eqb_eq _ _)) by lia. simpl.
    split_and!; [split; simpl; unfold words in *; simpl; rewrite ?Hd in *; simpl in *; done || lia|done|].
    lia.
Qed.

Lemma empty_bitset_ok : bitset_ok empty_bitset.
Proof. split; simpl; done || lia. Qed.

(** Copying gives an independent bitset with the same bits. *)
Lemma copy_wp b : bitset_ok b ->
  wp (copy b) (fun b' => bitset_ok b' /\ size_ b' = size_ b /\ forall j, 0 <= j < size_ b -> bit b' j = bit b j).
Proof.
  intros Hb. pose proof Hb as [Hs Hw Hc Hlim Hz Hnull Hr]. pose proof (WORD_SIZE_ceil (size_ b) Hs). unfold copy.
  destruct (Z.eqb_spec (capacity_ b) 0) as [Hc0|Hc0]; simpl.
  - specialize (Hz Hc0). split_and!; [split; simpl; unfold words, vlen; simpl; done || lia|done|lia].
  - apply wp_bind. unfold words in *. destruct (data_ b) as [d|] eqn:Hd; simpl in *.
    + pose proof (alloc_words_length (capacity_in_words_ b) ltac:(lia)) as Hal.
      eapply wp_mono; [apply memcpy_wp; [lia|lia|done|done|apply alloc_words_range]|].
      intros d' (Hl & Hwd & Hk). simpl.
      split_and!; [split; simpl; unfold words; simpl; done || lia|done|]. intros j Hj.
      pose proof (word_index_lt j (WORD_SIZE (size_ b)) ltac:(lia)).
      unfold bit, word_bit, words. simpl. rewrite Hd. simpl. by rewrite Hk by lia.
    + by destruct (Hnull eq_refl).
Qed.

(** The partial operations of a moved-from object: [operator=] leaves the old
    capacity with a null pointer, so growing it again dereferences null, whereas
    a moved-from object of the constructor is an empty bitset. *)
Lemma moved_from_resize b n : 0 < n < 2 ^ 63 -> Z.max (WORD_SIZE (Z.max n 512)) 8 <= capacity_in_words_ b ->
  bitset_resize (snd (move_assign b)) n = None /\
  wp (bitset_resize (snd (move_construct b)) n) (fun b' => bitset_ok b' /\ size_ b' = n).
Proof.
  intros Hn Hcap. split.
  - unfold move_assign, bitset_resize, reserve, kAlignment. simpl. rewrite (proj2 (Z.leb_gt _ _)) by lia.
    change (64 * 8) with 512. change (64 / 8) with 8. rewrite (proj2 (Z.leb_le _ _)) by lia. simpl.
    pose proof (WORD_SIZE_ceil n ltac:(lia)). unfold to_u64. rewrite Z.sub_0_r, Z.mod_small by lia.
    by rewrite (proj2 (Z.eqb_neq _ _)) by lia.
  - eapply wp_mono; [apply (resize_wp empty_bitset); [apply empty_bitset_ok|lia]|]. by intros b' (? & ? & _).
Qed.

(** ** Counting *)

Definition count_true (l : list bool) : Z := vlen (filter (fun x => x = true) l).
Definition bits (b : Bitset) : list bool := map (bit b) (seqZ 0 (size_ b)).

Lemma count_true_sumz f n : 0 <= n -> count_true (map f (seqZ 0 n)) = sumz (fun k => ind (f k)) n.
Proof.
  intros Hn. apply (sumz_ind (fun n => count_true (map f (seqZ 0 n)) = sumz (fun k => ind (f k)) n)); [done|done|].
  intros k Hk IH. rewrite sumz_succ, seqZ_snoc, map_app by lia. unfold count_true in *.
  rewrite filter_app, vlen_app, IH. simpl. rewrite filter_cons. by destruct (f k).
Qed.

Lemma sumz_words d n : 0 <= n ->
  sumz (fun k => popcount (vat d k)) n = sumz (fun j => ind (word_bit d j)) (64 * n).
Proof.
  intros Hn. apply (sumz_ind (fun n => sumz (fun k => popcount (vat d k)) n =
    sumz (fun j => ind (word_bit d j)) (64 * n))); [done|done|].
  intros k Hk IH. rewrite sumz_succ, IH, (sumz_split _ (64 * k) (64 * (k + 1))) by lia. f_equal.
  unfold popcount. replace (64 * (k + 1) - 64 * k) with 64 by lia. apply sumz_ext. intros o Ho. unfold word_bit.
  by destruct (index_unique (64 * k + o) k o) as [-> ->].
Qed.

Lemma popcount_range w : 0 <= popcount w <= 64.
Proof. apply (sumz_bound _ 64 1); [lia|]. intros. apply ind_range. Qed.

(** [count] adds up whole words: the set bits, and the stale bits past the end
    in the last word. *)
Lemma count_wp b : bitset_ok b ->
  bitset_count b = Some (count_true (bits b) +
    sumz (fun k => ind (bit b (size_ b + k))) (64 * size_in_words_ b - size_ b)).
Proof.
  intros Hb. pose proof Hb as [Hs Hw Hc _ _ _ _]. pose proof (WORD_SIZE_ceil (size_ b) Hs).
  unfold bits. rewrite count_true_sumz by lia.
  rewrite <-(sumz_split (fun j => ind (bit b j))) by lia. unfold bit. rewrite <-sumz_words by lia.
  enough (wp (bitset_count b) (fun r => r = sumz (fun k => popcount (vat (words b) k)) (size_in_words_ b))) as Hwp
    by (by apply wp_exists in Hwp as (? & -> & ->)).
  unfold bitset_count.
  apply (wp_for_range (fun i r => r = sumz (fun k => popcount (vat (words b) k)) i)); [lia|done| |done].
  intros i r Hi ->. rewrite bitset_data by (done || lia). wsteps. rewrite sumz_succ by lia.
  unfold to_u64. apply Z.mod_small. pose proof (popcount_range (vat (words b) i)).
  pose proof (sumz_bound (fun k => popcount (vat (words b) k)) i 64 ltac:(lia) ltac:(intros; apply popcount_range)). lia.
Qed.

(** ** Refinement to lists of booleans *)

Inductive bit_op :=
| OpResize (n : Z)
| OpSet (i : Z)
| OpReset (i : Z)
| OpGet (i : Z)
| OpSetRet (i : Z)
| OpResetRet (i : Z)
| OpResetAll
| OpClear
| OpCopy.

(** One call: the value it returns, if any, and the new state. *)
Definition bitset_exec (op : bit_op) (b : Bitset) : option (option bool * Bitset) :=
  match op with
  | OpResize n => b' ← bitset_resize b n; Some (None, b')
  | OpSet i => b' ← bitset_set b i; Some (None, b')
  | OpReset i => b' ← bitset_reset b i; Some (None, b')
  | OpGet i => r ← bitset_get b i; Some (Some r, b)
  | OpSetRet i => r ← atomic_set_with_ret b i; Some (Some (fst r), snd r)
  | OpResetRet i => r ← atomic_reset_with_ret b i; Some (Some (fst r), snd r)
  | OpResetAll => b' ← reset_all b; Some (None, b')
  | OpClear => Some (None, bitset_clear b)
  | OpCopy => b' ← copy b; Some (None, b')
  end.

Definition list_exec (op : bit_op) (l : list bool) : option (option bool * list bool) :=
  match op with
  | OpResize n => if (0 <=? n) && (n <? 2 ^ 63)
                  then Some (None, take (Z.to_nat n) l ++ vnew (n - vlen l) false) else None
  | OpSet i => l' ← vset l i true; Some (None, l')
  | OpReset i => l' ← vset l i false; Some (None, l')
  | OpGet i => x ← vget l i; Some (Some x, l)
  | OpSetRet i => x ← vget l i; l' ← vset l i true; Some (Some x, l')
  | OpResetRet i => x ← vget l i; l' ← vset l i false; Some (Some x, l')
  | OpResetAll => Some (None, vnew (vlen l) false)
  | OpClear => Some (None, [])
  | OpCopy => Some (None, l)
  end.

(** A sequence of calls, with the list of returned values. *)
Definition exec_all {S} (step : bit_op -> S -> option (option bool * S)) (ops : list bit_op) (s : S) :
    option (list bool * S) :=
  for_each ops ([], s) (fun op '(outs, s) => r ← step op s; Some (outs ++ option_list (fst r), snd r)).

Definition bits_rel (b : Bitset) (l : list bool) : Prop := bitset_ok b /\ l = bits b.

Lemma vlen_bits b : bitset_ok b -> vlen (bits b) = size_ b.
Proof. intros [Hs _ _ _ _ _ _]. unfold bits, vlen. rewrite length_map, length_seqZ. lia. Qed.

Lemma vat_bits b j : 0 <= j < size_ b -> vat (bits b) j = bit b j.
Proof.
  intros Hj. unfold vat, bits. rewrite list_lookup_total_alt, list_lookup_fmap, lookup_seqZ_lt by lia.
  simpl. f_equal. lia.
Qed.

(** A bitset represents [l] when it has its length and its bits. *)
Lemma bits_relI b l : bitset_ok b -> vlen l = size_ b -> (forall j, 0 <= j < size_ b -> vat l j = bit b j) -> bits_rel b l.
Proof.
  intros Hb Hl Hj. split; [done|]. apply vat_ext; [by rewrite vlen_bits|].
  intros i Hi. rewrite Hj, vat_bits by lia. done.
Qed.

Lemma update_bit_rel b b' i x : bitset_ok b -> 0 <= i < size_ b -> bitset_ok b' -> size_ b' = size_ b ->
  (forall j, 0 <= j -> bit b' j = if decide (j = i) then x else bit b j) -> bits_rel b' (vput (bits b) i x).
Proof.
  intros Hb Hi Hb' Hs Hj. apply bits_relI; [done|by rewrite vlen_vput, vlen_bits|].
  intros j Hjr. rewrite vat_vput, Hj by (rewrite ?vlen_bits; done || lia).
  repeat case_decide; try congruence. rewrite vat_bits by lia. done.
Qed.

Lemma set_rel b i : bitset_ok b -> 0 <= i < size_ b ->
  wp (bitset_set b i) (fun b' => bits_rel b' (vput (bits b) i true)).
Proof.
  intros Hb Hi. eapply wp_mono; [by apply set_wp|]. intros b' (Hb' & Hs & Hj). apply update_bit_rel; try done.
  intros j Hj0. rewrite Hj by done. case_decide; [by rewrite (proj2 (Z.eqb_eq _ _))|by rewrite (proj2 (Z.eqb_neq _ _))].
Qed.

Lemma reset_rel b i : bitset_ok b -> 0 <= i < size_ b ->
  wp (bitset_reset b i) (fun b' => bits_rel b' (vput (bits b) i false)).
Proof.
  intros Hb Hi. eapply wp_mono; [by apply reset_wp|]. intros b' (Hb' & Hs & Hj). apply update_bit_rel; try done.
  intros j Hj0. rewrite Hj by done. case_decide; [by rewrite (proj2 (Z.eqb_eq _ _))|by rewrite (proj2 (Z.eqb_neq _ _))].
Qed.

Lemma resize_rel b n : bitset_ok b -> 0 <= n < 2 ^ 63 ->
  wp (bitset_resize b n) (fun b' => bits_rel b' (take (Z.to_nat n) (bits b) ++ vnew (n - vlen (bits b)) false)).
Proof.
  intros Hb Hn. eapply wp_mono; [by apply resize_wp|]. intros b' (Hb' & Hs & Hj).
  pose proof (vlen_bits b Hb) as Hl. pose proof (bo_size _ Hb). rewrite Hl. unfold vlen in Hl.
  apply bits_relI; [done| |].
  - unfold vlen, vnew. rewrite length_app, length_take, length_replicate. lia.
  - intros j Hjr. rewrite Hj by lia. unfold vat, vnew. rewrite list_lookup_total_alt.
    destruct (Z.ltb_spec j (size_ b)); cbn [andb].
    + rewrite lookup_app_l, lookup_take_lt by (rewrite ?length_take; lia).
      rewrite <-vat_bits by lia. unfold vat. by rewrite list_lookup_total_alt.
    + rewrite lookup_app_r, lookup_replicate_2 by (rewrite ?length_take; lia). done.
Qed.

(** One call on a bitset does what it does on the list it represents. *)
Lemma exec_refines op b l r : bits_rel b l -> list_exec op l = Some r ->
  wp (bitset_exec op b) (fun r' => fst r' = fst r /\ bits_rel (snd r') (snd r)).
Proof.
  intros [Hb ->] Hr. pose proof (vlen_bits b Hb) as Hl.
  assert (forall i x, vget (bits b) i = Some x -> 0 <= i < size_ b /\ bitset_get b i = Some x) as Hget.
  { intros i x [Hi <-]%vget_inv. rewrite Hl in Hi. split; [done|]. by rewrite get_wp, vat_bits. }
  assert (forall i x l', vset (bits b) i x = Some l' -> 0 <= i < size_ b /\ l' = vput (bits b) i x) as Hset.
  { intros i x l' Hs. unfold vset in Hs. rewrite Hl in Hs.
    destruct (Z.leb_spec 0 i), (Z.ltb_spec i (size_ b)); simpl in Hs; simplify_eq. done. }
  destruct op as [n|i|i|i|i|i| | |]; simpl in *; unfold atomic_set_with_ret, atomic_reset_with_ret.
  - destruct (Z.leb_spec 0 n), (Z.ltb_spec n (2 ^ 63)); simpl in Hr; simplify_eq.
    apply wp_bind. eapply wp_mono; [apply resize_rel; done|]. intros b' Hb'. done.
  - apply bind_Some in Hr as (l' & [Hi ->]%Hset & [= <-]).
    apply wp_bind. eapply wp_mono; [by apply set_rel|]. done.
  - apply bind_Some in Hr as (l' & [Hi ->]%Hset & [= <-]).
    apply wp_bind. eapply wp_mono; [by apply reset_rel|]. done.
  - apply bind_Some in Hr as (x & [Hi ->]%Hget & [= <-]). done.
  - apply bind_Some in Hr as (x & [Hi ->]%Hget & Hr). apply bind_Some in Hr as (l' & [_ ->]%Hset & [= <-]).
    cbn [mbind option_bind]. apply wp_bind, wp_bind. eapply wp_mono; [by apply set_rel|]. done.
  - apply bind_Some in Hr as (x & [Hi ->]%Hget & Hr). apply bind_Some in Hr as (l' & [_ ->]%Hset & [= <-]).
    cbn [mbind option_bind]. apply wp_bind, wp_bind. eapply wp_mono; [by apply reset_rel|]. done.
  - simplify_eq. apply wp_bind. eapply wp_mono; [by apply reset_all_wp|]. intros b' (Hb' & Hs & Hj).
    simpl. split; [done|]. pose proof (bo_size _ Hb). rewrite Hl.
    apply bits_relI; [done|rewrite vlen_vnew; lia|]. intros j Hjr. rewrite vat_vnew, Hj by lia. done.
  - simplify_eq. split; [done|]. destruct Hb as [Hs Hw Hc Hlim Hz Hnull Hr']. pose proof (WORD_SIZE_ceil _ Hs).
    apply bits_relI; [|done|simpl; lia]. split; simpl; change (words (bitset_clear b)) with (words b); done || lia.
  - simplify_eq. apply wp_bind. eapply wp_mono; [by apply copy_wp|]. intros b' (Hb' & Hs & Hj).
    simpl. split; [done|]. apply bits_relI; [done|lia|]. intros j Hjr. rewrite Hj, vat_bits by lia. done.
Qed.
End operations.

(** *** Bitsets on a stream

    The stream is a list of bytes; words are written in their memory representation;
    reading past the end of the stream is [None]. *)

Section serial.
Context `{!Memory}.

Definition Serialize (b : Bitset) : option (list Z) :=
  let arc := put_uint 8 (put_uint 8 (put_uint 8 (put_uint 8 [] (size_ b)) (size_in_words_ b)) (capacity_ b))
                      (capacity_in_words_ b) in
  let os := le_bytes 8 (vlen arc) ++ arc in
  if 0 <? size_in_words_ b then
    d ← data_ b;
    if size_in_words_ b <=? vlen d then Some (put_uints 8 os (take (Z.to_nat (size_in_words_ b)) d)) else None
  else Some os.

(** Into an object whose former block is freed. *)
Definition Deserialize (stream : list Z) : option Bitset :=
  '(size, stream) ← get_uint 8 stream;
  '(arc, stream) ← GetBytes stream size;
  '(sz, arc) ← get_uint 8 arc;
  '(size_in_words, arc) ← get_uint 8 arc;
  '(capacity, arc) ← get_uint 8 arc;
  '(capacity_in_words, arc) ← get_uint 8 arc;
  let data := fresh_words capacity_in_words in
  data ← (if 0 <? size_in_words then
            '(ws, stream) ← get_uints 8 (Z.to_nat size_in_words) stream;
            memcpy_words data (Some ws) size_in_words
          else Some data);
  Some (mkBitset (Some data) sz size_in_words capacity capacity_in_words).

Lemma put_uint_nil k u : put_uint k [] u = le_bytes k u.
Proof. done. Qed.

Lemma vlen_le_bytes k u : vlen (le_bytes k u) = Z.of_nat k.
Proof. unfold vlen. by rewrite le_bytes_length. Qed.

(** What is read is a bitset of the same size with the same bits. *)
Lemma serialize_roundtrip b : bitset_ok b -> capacity_ b < 2 ^ 64 -> 0 <= capacity_ b -> (capacity_in_words_ b = 0 -> capacity_ b = 0) ->
  exists bytes b', Serialize b = Some bytes /\ Deserialize bytes = Some b' /\ bits_rel b' (bits b).
Proof.
  intros [Hs Hw Hc Hlim Hz Hn Hr] Hcap Hcap0 Hcz. pose proof (WORD_SIZE_ceil (size_ b) Hs) as Hceil. rewrite <-Hw in Hceil.
  assert (256 ^ Z.of_nat 8 = 2 ^ 64) as H256 by done.
  set (n := size_in_words_ b) in *. set (ws := take (Z.to_nat n) (words b)).
  assert (0 <= n) as Hn0 by lia. assert (vlen ws = n) as Hwl by (apply vlen_take; lia).
  set (head := le_bytes 8 (size_ b) ++ le_bytes 8 n ++ le_bytes 8 (capacity_ b) ++ le_bytes 8 (capacity_in_words_ b)).
  assert (vlen head = 32) as Hhl by (subst head; by rewrite !vlen_app, !vlen_le_bytes).
  assert (Serialize b = Some ((le_bytes 8 32 ++ head) ++ put_uints 8 [] ws)) as Hser.
  { unfold Serialize. fold n. assert (put_uint 8 (put_uint 8 (put_uint 8 (put_uint 8 [] (size_ b)) n) (capacity_ b)) (capacity_in_words_ b) = head)
      as -> by (unfold put_uint, AddBytes; subst head; by rewrite app_nil_l, <-!app_assoc).
    rewrite Hhl. destruct (Z.ltb_spec 0 n).
    - assert (data_ b = Some (words b)) as ->.
      { unfold words in *. destruct (data_ b); [done|]. destruct (Hn eq_refl). unfold vlen in Hc. simpl in Hc. lia. }
      cbn [mbind option_bind]. rewrite (proj2 (Z.leb_le _ _)) by lia. by rewrite put_uints_app.
    - assert (n = 0) as E by lia. assert (ws = []) as -> by (subst ws; by rewrite E). by rewrite app_nil_r. }
  set (cw := capacity_in_words_ b) in *. pose proof (fresh_length cw ltac:(lia)) as Hfl.
  set (d := ws ++ drop (Z.to_nat n) (fresh_words cw)).
  exists ((le_bytes 8 32 ++ head) ++ put_uints 8 [] ws), (mkBitset (Some d) (size_ b) n (capacity_ b) cw). split; [done|].
  assert (vlen d = cw) as Hdl by (subst d; rewrite vlen_app, vlen_drop; lia).
  assert (Forall is_word ws) as Hww by (by apply Forall_take). split.
  - unfold Deserialize. rewrite <-!app_assoc, get_put_uint by lia. cbn [mbind option_bind]. rewrite <-Hhl, GetBytes_app. cbn [mbind option_bind].
    subst head. rewrite get_put_uint by lia. cbn [mbind option_bind]. rewrite get_put_uint by lia. cbn [mbind option_bind].
    rewrite get_put_uint by lia. cbn [mbind option_bind]. rewrite <-(app_nil_r (le_bytes 8 cw)), get_put_uint by lia. cbn [mbind option_bind].
    destruct (Z.ltb_spec 0 n).
    + replace (Z.to_nat n) with (length ws) at 1 by (unfold vlen in Hwl; lia).
      rewrite <-(app_nil_r (put_uints 8 [] ws)), get_put_uints.
      2:{ intros u Hu. rewrite Forall_forall in Hww. specialize (Hww u Hu). unfold is_word in Hww. lia. }
      cbn [mbind option_bind]. unfold memcpy_words. cbn [mbind option_bind]. rewrite Hwl, Hfl, !(proj2 (Z.leb_le _ _)) by lia. simpl.
      by rewrite (take_ge ws) by (unfold vlen in Hwl; lia).
    + assert (n = 0) as E by lia. cbn [mbind option_bind]. subst d. assert (ws = []) as -> by (subst ws; by rewrite E).
      by rewrite E, drop_0.
  - split.
    + split; simpl; try done; [unfold words; simpl; lia|].
      unfold words. simpl. subst d. apply Forall_app. split; [done|]. apply Forall_drop, fresh_range.
    + unfold bits. simpl. apply map_ext_in. intros j Hj. apply list_elem_of_In, elem_of_seqZ in Hj. unfold bit, word_bit. simpl.
      replace (vat (words (mkBitset (Some d) (size_ b) n (capacity_ b) cw)) (WORD_INDEX j)) with (vat (words b) (WORD_INDEX j)); [done|].
      pose proof (WORD_SIZE_ceil (size_ b) Hs) as Hceil2. pose proof (word_index_lt j (WORD_SIZE (size_ b)) ltac:(lia)) as Hwi. rewrite <-Hw in Hwi. fold n in Hwi.
      unfold words at 2. simpl. subst d. rewrite vat_app by lia. rewrite decide_True by lia. subst ws. by rewrite vat_take by lia.
Qed.
End serial.
