(* ===== verification/VersionManager.v ===== *)
(** * The version manager

    [TPVersionManager] (src/transaction/version_manager.cc,
    include/neug/transaction/version_manager.h): the timestamps of concurrent
    read, insert and update transactions.  A thread is a program counter, and an
    action is one access to an atomic variable, one bit operation on the ring or
    one acquisition or release of the spin lock; a run is any interleaving.  The
    failing iterations of the waiting loops are actions that change nothing. *)
From S2P Require Import Prelude Bitset.
#[local] Open Scope Z_scope.

Definition ring_buf_size : Z := 1024 * 1024.
Definition ring_index_mask : Z := ring_buf_size - 1.

Record TPVersionManager := TPVM {
  thread_num_ : Z;
  write_ts_ : Z;
  read_ts_ : Z;
  pending_reqs_ : Z;
  pending_update_reqs_ : Z;
  buf_ : Bitset;
  lock_ : bool
}.

Definition set_write_ts (ts : Z) (m : TPVersionManager) : TPVersionManager :=
  TPVM (thread_num_ m) ts (read_ts_ m) (pending_reqs_ m) (pending_update_reqs_ m) (buf_ m) (lock_ m).
Definition set_read_ts (ts : Z) (m : TPVersionManager) : TPVersionManager :=
  TPVM (thread_num_ m) (write_ts_ m) ts (pending_reqs_ m) (pending_update_reqs_ m) (buf_ m) (lock_ m).
Definition set_pending (n : Z) (m : TPVersionManager) : TPVersionManager :=
  TPVM (thread_num_ m) (write_ts_ m) (read_ts_ m) n (pending_update_reqs_ m) (buf_ m) (lock_ m).
Definition set_update_reqs (n : Z) (m : TPVersionManager) : TPVersionManager :=
  TPVM (thread_num_ m) (write_ts_ m) (read_ts_ m) (pending_reqs_ m) n (buf_ m) (lock_ m).
Definition set_buf (b : Bitset) (m : TPVersionManager) : TPVersionManager :=
  TPVM (thread_num_ m) (write_ts_ m) (read_ts_ m) (pending_reqs_ m) (pending_update_reqs_ m) b (lock_ m).
Definition set_lock (b : bool) (m : TPVersionManager) : TPVersionManager :=
  TPVM (thread_num_ m) (write_ts_ m) (read_ts_ m) (pending_reqs_ m) (pending_update_reqs_ m) (buf_ m) b.

(** Atomic arithmetic on [std::atomic<int>] and [std::atomic<uint32_t>] wraps. *)
Definition add_pending (d : Z) (m : TPVersionManager) : TPVersionManager :=
  set_pending (to_int (pending_reqs_ m + d)) m.
Definition next_write_ts (m : TPVersionManager) : TPVersionManager := set_write_ts (to_u32 (write_ts_ m + 1)) m.

(** Where a thread is.  [ts] is the timestamp it has been given. *)
Inductive vm_pc :=
| Idle
  (* acquire_read_timestamp, the transaction, release_read_timestamp *)
| RdAdd | RdUndo | RdWait | RdLoad | Reading (ts : Z) | RdSub
  (* acquire_insert_timestamp, the transaction, release_insert_timestamp *)
| InAdd | InUndo | InWait | InFetch | Inserting (ts : Z)
| InLock (ts : Z) | InTest (ts : Z) | InLoop (ts : Z) | InStore (ts : Z) | InSet (ts : Z) | InUnlock | InSub
  (* acquire_update_timestamp, the transaction *)
| UpCas | UpSub | UpWait | UpFetch | Updating (ts : Z)
  (* release_update_timestamp, revert_update_timestamp *)
| UpLock (ts : Z) | UpTest (ts : Z) | UpStore (ts : Z) | UpSet (ts : Z) | UpUnlock | UpAdd | UpClear
| RvCas (ts : Z).

(** What a client calls next. *)
Inductive vm_call : vm_pc -> vm_pc -> Prop :=
| call_acquire_read : vm_call Idle RdAdd
| call_acquire_insert : vm_call Idle InAdd
| call_acquire_update : vm_call Idle UpCas
| call_release_read ts : vm_call (Reading ts) RdSub
| call_release_insert ts : vm_call (Inserting ts) (InLock ts)
| call_release_update ts : vm_call (Updating ts) (UpLock ts)
| call_revert_update ts : vm_call (Updating ts) (RvCas ts).

Section manager.
Context `{!Memory}.

(** The constructor, with whatever [thread_num_] is before [init_ts]. *)
Definition new_manager (thread_num : Z) : option TPVersionManager :=
  b ← bitset_resize empty_bitset ring_buf_size;
  b ← reset_all b;
  Some (TPVM thread_num 1 0 0 0 b false).

Definition init_ts (ts thread_num : Z) (m : TPVersionManager) : TPVersionManager :=
  TPVM thread_num (to_u32 (ts + 1)) ts (pending_reqs_ m) (pending_update_reqs_ m) (buf_ m) (lock_ m).

(** [pending_reqs_.fetch_add(1)] and the test of its result. *)
Definition admit_req (yes no : vm_pc) (m : TPVersionManager) : vm_pc * TPVersionManager :=
  (if 0 <=? pending_reqs_ m then yes else no, add_pending 1 m).

(** The action at a program counter inside a call. *)
Definition vm_act (pc : vm_pc) (m : TPVersionManager) : option (vm_pc * TPVersionManager) :=
  match pc with
  | Idle | Reading _ | Inserting _ | Updating _ => None
  | RdAdd => Some (admit_req RdLoad RdUndo m)
  | RdUndo => Some (RdWait, add_pending (-1) m)
  | RdWait => Some (if 0 <=? pending_reqs_ m then RdAdd else RdWait, m)
  | RdLoad => Some (Reading (read_ts_ m), m)
  | RdSub => Some (Idle, add_pending (-1) m)
  | InAdd => Some (admit_req InFetch InUndo m)
  | InUndo => Some (InWait, add_pending (-1) m)
  | InWait => Some (if 0 <=? pending_reqs_ m then InAdd else InWait, m)
  | InFetch => Some (Inserting (write_ts_ m), next_write_ts m)
  | InLock ts => Some (if lock_ m then (InLock ts, m) else (InTest ts, set_lock true m))
  | InTest ts => Some (if ts =? to_u32 (read_ts_ m + 1) then InLoop ts else InSet ts, m)
  | InLoop ts =>
      '(released, b) ← atomic_reset_with_ret (buf_ m) (Z.land (to_u32 (ts + 1)) ring_index_mask);
      Some (if (released : bool) then InLoop (to_u32 (ts + 1)) else InStore ts, set_buf b m)
  | InStore ts => Some (InUnlock, set_read_ts ts m)
  | InSet ts => b ← bitset_set (buf_ m) (Z.land ts ring_index_mask); Some (InUnlock, set_buf b m)
  | InUnlock => Some (InSub, set_lock false m)
  | InSub => Some (Idle, add_pending (-1) m)
  | UpCas => Some (if pending_update_reqs_ m =? 0 then (UpSub, set_update_reqs 1 m) else (UpCas, m))
  | UpSub => Some (if pending_reqs_ m =? 0 then UpFetch else UpWait, add_pending (- thread_num_ m) m)
  | UpWait => Some (if pending_reqs_ m =? - thread_num_ m then UpFetch else UpWait, m)
  | UpFetch => Some (Updating (write_ts_ m), next_write_ts m)
  | UpLock ts => Some (if lock_ m then (UpLock ts, m) else (UpTest ts, set_lock true m))
  | UpTest ts => Some (if ts =? to_u32 (read_ts_ m + 1) then UpStore ts else UpSet ts, m)
  | UpStore ts => Some (UpUnlock, set_read_ts ts m)
  | UpSet ts => b ← bitset_set (buf_ m) (Z.land ts ring_index_mask); Some (UpUnlock, set_buf b m)
  | UpUnlock => Some (UpAdd, set_lock false m)
  | UpAdd => Some (UpClear, add_pending (thread_num_ m) m)
  | UpClear => Some (Idle, set_update_reqs 0 m)
  | RvCas ts =>
      if write_ts_ m =? to_u32 (ts + 1) then Some (UpAdd, set_write_ts ts m) else Some (Updating ts, m)
  end.

Definition in_call (pc : vm_pc) : Prop :=
  match pc with Idle | Reading _ | Inserting _ | Updating _ => False | _ => True end.

Definition vm_state : Type := TPVersionManager * list vm_pc.

(** A step of one thread; the outcome is [None] when it leaves the ring. *)
Inductive vm_step : vm_state -> option vm_state -> Prop :=
| vm_step_call m l1 pc pc' l2 : vm_call pc pc' -> vm_step (m, l1 ++ pc :: l2) (Some (m, l1 ++ pc' :: l2))
| vm_step_act m l1 pc l2 : in_call pc ->
    vm_step (m, l1 ++ pc :: l2) ('(pc', m') ← vm_act pc m; Some (m', l1 ++ pc' :: l2)).

(** *** Compactions

    A thread of a service is in a call or a transaction of its own, or it runs a
    [CompactTransaction]: it acquires an update timestamp, and [Commit], after
    [release_update_timestamp] has returned and not before, calls [clear], each of whose
    stores is an action; [Abort] reverts the timestamp. *)
Inductive client :=
| Client (pc : vm_pc)
| Compacting (pc : vm_pc)
| ClearWrite | ClearRead | ClearPending | ClearBuf.

Inductive client_call : client -> client -> Prop :=
| client_calls pc pc' : vm_call pc pc' -> client_call (Client pc) (Client pc')
| compact_begin : client_call (Client Idle) (Compacting UpCas)
| compact_release ts : client_call (Compacting (Updating ts)) (Compacting (UpLock ts))
| compact_abort ts : client_call (Compacting (Updating ts)) (Client (RvCas ts)).

(** What [Commit] does when a call has got to [pc]. *)
Definition commit_next (pc : vm_pc) : client := match pc with Idle => ClearWrite | _ => Compacting pc end.

Definition client_act (c : client) (m : TPVersionManager) : option (client * TPVersionManager) :=
  match c with
  | Client pc => '(pc, m) ← vm_act pc m; Some (Client pc, m)
  | Compacting pc => '(pc, m) ← vm_act pc m; Some (commit_next pc, m)
  | ClearWrite => Some (ClearRead, set_write_ts 1 m)
  | ClearRead => Some (ClearPending, set_read_ts 0 m)
  | ClearPending => Some (ClearBuf, set_pending 0 m)
  | ClearBuf => b ← reset_all (buf_ m); Some (Client Idle, set_buf b m)
  end.
Definition can_act (c : client) : Prop := match c with Client pc | Compacting pc => in_call pc | _ => True end.

Definition service_state : Type := TPVersionManager * list client.

Inductive vm_step_compact : service_state -> option service_state -> Prop :=
| service_call m l1 c c' l2 : client_call c c' -> vm_step_compact (m, l1 ++ c :: l2) (Some (m, l1 ++ c' :: l2))
| service_act m l1 c l2 : can_act c ->
    vm_step_compact (m, l1 ++ c :: l2) ('(c', m') ← client_act c m; Some (m', l1 ++ c' :: l2)).

(** The state a service starts in: [init_ts(ts, thread_num)] on a fresh manager
    and idle threads. *)
Definition vm_start (ts thread_num : Z) (threads : nat) : option vm_state :=
  m ← new_manager thread_num; Some (init_ts ts thread_num m, replicate threads Idle).
End manager.

(** ** Counting the threads *)

Definition is_active (pc : vm_pc) : Z :=
  match pc with
  | RdLoad | Reading _ | RdSub | InFetch | Inserting _ | InLock _ | InTest _ | InLoop _ | InStore _ | InSet _
  | InUnlock | InSub => 1
  | _ => 0
  end.
Definition is_transient (pc : vm_pc) : Z := match pc with RdUndo | InUndo => 1 | _ => 0 end.
(** Threads that have passed the compare-and-swap, that have claimed the
    requests, and that run alone. *)
Definition is_exclusive (pc : vm_pc) : Z :=
  match pc with
  | UpFetch | Updating _ | UpLock _ | UpTest _ | UpStore _ | UpSet _ | UpUnlock | UpAdd | RvCas _ => 1
  | _ => 0
  end.
Definition has_claimed (pc : vm_pc) : Z := match pc with UpWait => 1 | _ => is_exclusive pc end.
Definition is_updater (pc : vm_pc) : Z := match pc with UpSub | UpClear => 1 | _ => has_claimed pc end.
Definition is_critical (pc : vm_pc) : Z :=
  match pc with
  | InTest _ | InLoop _ | InStore _ | InSet _ | InUnlock | UpTest _ | UpStore _ | UpSet _ | UpUnlock => 1
  | _ => 0
  end.

Fixpoint tally (f : vm_pc -> Z) (pcs : list vm_pc) : Z :=
  match pcs with [] => 0 | pc :: pcs => f pc + tally f pcs end.

#[export] Instance tally_perm f : Proper ((≡ₚ) ==> (=)) (tally f).
Proof. intros l1 l2 Hp. induction Hp; simpl; lia. Qed.

(** The pointwise relations between the classes, summed up. *)
Lemma tally_bounds pcs :
  0 <= tally is_active pcs /\ 0 <= tally is_transient pcs /\
  0 <= tally is_exclusive pcs <= tally has_claimed pcs /\ tally has_claimed pcs <= tally is_updater pcs /\
  0 <= tally is_critical pcs <= tally is_active pcs + tally is_exclusive pcs /\
  tally is_active pcs + tally is_transient pcs + tally is_updater pcs <= Z.of_nat (length pcs).
Proof. induction pcs as [|pc pcs IH]; [done|]. destruct pc; simpl; lia. Qed.

(** ** The protocol of the requests *)

Record protocol (m : TPVersionManager) (pcs : list vm_pc) : Prop := {
  pr_threads : Z.of_nat (length pcs) <= thread_num_ m <= INT_MAX /\ 0 < thread_num_ m;
  pr_pending : pending_reqs_ m =
    tally is_active pcs + tally is_transient pcs - thread_num_ m * tally has_claimed pcs;
  pr_update : pending_update_reqs_ m = tally is_updater pcs /\ tally is_updater pcs <= 1;
  pr_alone : 0 < tally is_exclusive pcs -> tally is_active pcs = 0;
  pr_lock : (if lock_ m then 1 else 0) = tally is_critical pcs
}.

#[export] Instance protocol_perm m : Proper ((≡ₚ) ==> iff) (protocol m).
Proof.
  assert (forall l1 l2, l1 ≡ₚ l2 -> protocol m l1 -> protocol m l2) as Hp.
  { intros l1 l2 Hp [H1 H2 H3 H4 H5]. rewrite Hp in *. by split. }
  intros l1 l2 Hl. split; apply Hp; [done|by symmetry].
Qed.

Section protocol.
Context `{!Memory}.

Lemma protocol_call m pc pc' pcs : vm_call pc pc' -> protocol m (pc :: pcs) -> protocol m (pc' :: pcs).
Proof. intros Hc [H1 H2 H3 H4 H5]. destruct Hc; split; simpl in *; lia || done. Qed.

(** The arithmetic of one action, once the claim is known to be there or not. *)
Ltac protocol_case c :=
  assert (c = 0 \/ c = 1) as [Hc|Hc] by lia; rewrite Hc in *;
  constructor; unfold add_pending, set_pending, next_write_ts, set_write_ts; cbn; rewrite ?Hc;
  rewrite ?to_int_small by (unfold INT_MIN, INT_MAX; lia); try lia; auto.

Lemma protocol_act m pc pcs pc' m' : vm_act pc m = Some (pc', m') -> protocol m (pc :: pcs) -> protocol m' (pc' :: pcs).
Proof.
  intros Ha [[H1 H1'] H2 [H3 H3'] H4 H5]. pose proof (tally_bounds pcs) as Hb. unfold INT_MAX in H1.
  destruct pc; cbn [vm_act tally length is_active is_transient is_exclusive has_claimed is_updater is_critical] in *;
    try discriminate Ha; try (apply bind_Some in Ha as (r & _ & Ha)); try destruct r as [? r]; unfold admit_req in Ha;
    repeat lazymatch type of Ha with
      | context [0 <=? pending_reqs_ m] => destruct (Z.leb_spec 0 (pending_reqs_ m))
      | context [pending_update_reqs_ m =? 0] => destruct (Z.eqb_spec (pending_update_reqs_ m) 0)
      | context [pending_reqs_ m =? ?x] => destruct (Z.eqb_spec (pending_reqs_ m) x)
      | context [if lock_ m then _ else _] => destruct (lock_ m) eqn:Hlock
      | context [if ?b then _ else _] => destruct b
      end; try injection Ha as <- <-.
  all: protocol_case (tally has_claimed pcs); destruct (lock_ m); lia.
Qed.
End protocol.

(** ** The ring *)

Definition slot (ts : Z) : Z := Z.land ts ring_index_mask.

Lemma slot_mod ts : slot ts = ts mod ring_buf_size.
Proof.
  unfold slot. change ring_index_mask with (Z.ones 20). change ring_buf_size with (2 ^ 20). by rewrite Z.land_ones.
Qed.

Lemma ring_pos : 4 < ring_buf_size < 2 ^ 30.
Proof. done. Qed.

#[global] Opaque ring_buf_size ring_index_mask.

Lemma ring_slot_range ts : 0 <= slot ts < ring_buf_size.
Proof. rewrite slot_mod. apply Z.mod_pos_bound, ring_pos. Qed.

Lemma ring_slot_inj a b : a - b < ring_buf_size -> b - a < ring_buf_size -> slot a = slot b -> a = b.
Proof.
  pose proof ring_pos. rewrite !slot_mod. intros Hab Hba Heq.
  pose proof (Z.div_mod a ring_buf_size ltac:(lia)). pose proof (Z.div_mod b ring_buf_size ltac:(lia)).
  assert (a / ring_buf_size = b / ring_buf_size); [|congruence]. nia.
Qed.

(** ** The timestamps *)

(** The timestamp a thread has been given and not yet released, and the
    timestamp up to which a releasing thread has caught up. *)
Definition held (pc : vm_pc) : list Z :=
  match pc with
  | Inserting ts | InLock ts | InTest ts | InSet ts
  | Updating ts | UpLock ts | UpTest ts | UpStore ts | UpSet ts | RvCas ts => [ts]
  | _ => []
  end.
Definition catching (pc : vm_pc) : list Z := match pc with InLoop ts | InStore ts => [ts] | _ => [] end.

Definition held_by (pcs : list vm_pc) : list Z := flat_map held pcs.
Definition catching_up (pcs : list vm_pc) : list Z := flat_map catching pcs.

(** The timestamps in use fit the ring and the integer type. *)
Definition fits (m : TPVersionManager) : Prop :=
  read_ts_ m < write_ts_ m /\ write_ts_ m - read_ts_ m - 1 <= ring_buf_size.

(** What a program counter says about the two counters. *)
Definition pc_ok (W R : Z) (pc : vm_pc) : Prop :=
  match pc with
  | Reading t => t <= R
  | InSet t => t <> R + 1
  | UpSet _ => False
  | Updating t | UpLock t | UpTest t | UpStore t | RvCas t => W = t + 1
  | _ => True
  end.

(** All timestamps up to [V] have been released; between [V] and [write_ts_] a
    timestamp is either held by one thread or marked in the ring.  [V] runs
    ahead of [read_ts_] while a thread is catching up. *)
Record timestamps (V : Z) (m : TPVersionManager) (pcs : list vm_pc) : Prop := {
  ts_order : 0 <= read_ts_ m <= V /\ V < write_ts_ m < 2 ^ 32;
  ts_catching t : t ∈ catching_up pcs -> t = V;
  ts_settled : catching_up pcs = [] -> V = read_ts_ m;
  ts_nodup : NoDup (held_by pcs);
  ts_range t : t ∈ held_by pcs -> V < t < write_ts_ m;
  ts_ring : bitset_ok (buf_ m) /\ size_ (buf_ m) = ring_buf_size;
  ts_marked t : V < t < write_ts_ m -> bit (buf_ m) (slot t) = bool_decide (t ∉ held_by pcs);
  ts_clean i : 0 <= i < ring_buf_size -> bit (buf_ m) i = true -> exists t, V < t < write_ts_ m /\ slot t = i;
  ts_gap : V + 1 < write_ts_ m -> V + 1 ∈ held_by pcs \/ InLoop V ∈ pcs;
  ts_pcs : Forall (pc_ok (write_ts_ m) (read_ts_ m)) pcs
}.

#[export] Instance held_perm : Proper ((≡ₚ) ==> (≡ₚ)) held_by.
Proof. intros l1 l2 Hp. unfold held_by. by rewrite Hp. Qed.
#[export] Instance catching_perm : Proper ((≡ₚ) ==> (≡ₚ)) catching_up.
Proof. intros l1 l2 Hp. unfold catching_up. by rewrite Hp. Qed.

#[export] Instance timestamps_perm V m : Proper ((≡ₚ) ==> iff) (timestamps V m).
Proof.
  assert (forall l1 l2, l1 ≡ₚ l2 -> timestamps V m l1 -> timestamps V m l2) as Hp.
  { intros l1 l2 Hp [H1 H2 H3 H4 H5 H6 H7 H8 H9 H10].
    assert (forall t, t ∈ held_by l1 <-> t ∈ held_by l2) as Hh by (intros; by rewrite Hp).
    split; try done.
    - intros t. rewrite <-Hp. apply H2.
    - intros Hnil. apply H3. apply Permutation_nil. by rewrite <-Hnil, Hp.
    - by rewrite <-Hp.
    - intros t. rewrite <-Hh. apply H5.
    - intros t Ht. rewrite H7 by done. by apply bool_decide_ext, not_iff_compat.
    - intros Hlt. rewrite <-Hh, <-Hp. by apply H9.
    - by rewrite <-Hp. }
  intros l1 l2 Hl. split; apply Hp; [done|by symmetry].
Qed.

(** What the counting says about who can hold what. *)
Lemma tally_zero f pcs pc : (forall pc, 0 <= f pc) -> tally f pcs = 0 -> pc ∈ pcs -> f pc = 0.
Proof.
  intros Hf. assert (forall l, 0 <= tally f l) as Hl by (induction l as [|x l IH]; simpl; [lia|specialize (Hf x); lia]).
  induction pcs as [|x pcs IH]; intros H0 Hin; simpl in H0; [by apply elem_of_nil in Hin|].
  specialize (Hl pcs). pose proof (Hf x). apply elem_of_cons in Hin as [->|Hin]; [lia|apply IH; lia || done].
Qed.

Lemma class_nonneg pc : 0 <= is_active pc /\ 0 <= is_exclusive pc /\ 0 <= is_critical pc.
Proof. destruct pc; simpl; lia. Qed.

Lemma no_critical pcs pc : tally is_critical pcs = 0 -> pc ∈ pcs -> is_critical pc = 0.
Proof. apply tally_zero. intros. apply class_nonneg. Qed.
Lemma no_exclusive pcs pc : tally is_exclusive pcs = 0 -> pc ∈ pcs -> is_exclusive pc = 0.
Proof. apply tally_zero. intros. apply class_nonneg. Qed.
Lemma no_active pcs pc : tally is_active pcs = 0 -> pc ∈ pcs -> is_active pc = 0.
Proof. apply tally_zero. intros. apply class_nonneg. Qed.

Lemma flat_map_nil {A B} (f : A -> list B) l : (forall x, x ∈ l -> f x = []) -> flat_map f l = [].
Proof. induction l as [|x l IH]; intros Hf; [done|]. simpl. rewrite Hf by left. apply IH. intros. apply Hf. by right. Qed.

Lemma no_catching pcs : tally is_critical pcs = 0 -> catching_up pcs = [].
Proof. intros H0. apply flat_map_nil. intros pc Hpc. pose proof (no_critical _ _ H0 Hpc). by destruct pc. Qed.

Lemma nothing_held pcs : tally is_active pcs = 0 -> tally is_exclusive pcs = 0 -> held_by pcs = [].
Proof.
  intros Ha He. apply flat_map_nil. intros pc Hpc. pose proof (no_active _ _ Ha Hpc).
  pose proof (no_exclusive _ _ He Hpc). by destruct pc.
Qed.

(** The other threads do not mind a new [write_ts_] when none of them runs
    alone, nor a larger [read_ts_] when none of them holds the lock. *)
Lemma pcs_write W' W R pcs : tally is_exclusive pcs = 0 -> Forall (pc_ok W R) pcs -> Forall (pc_ok W' R) pcs.
Proof.
  intros H0 HF. apply Forall_forall. intros pc Hin. pose proof (no_exclusive _ _ H0 Hin).
  rewrite Forall_forall in HF. apply HF in Hin. by destruct pc.
Qed.

Lemma pcs_read R' W R pcs : tally is_critical pcs = 0 -> R <= R' -> Forall (pc_ok W R) pcs -> Forall (pc_ok W R') pcs.
Proof.
  intros H0 Hle HF. apply Forall_forall. intros pc Hin. pose proof (no_critical _ _ H0 Hin).
  rewrite Forall_forall in HF. apply HF in Hin. destruct pc; simpl in *; lia || done.
Qed.

(** The lists at a thread in front. *)
Lemma held_cons pc pcs : held_by (pc :: pcs) = held pc ++ held_by pcs.
Proof. done. Qed.
Lemma catching_cons pc pcs : catching_up (pc :: pcs) = catching pc ++ catching_up pcs.
Proof. done. Qed.

Section timestamps.
Context `{!Memory}.

(** An action that leaves the timestamps alone. *)
Lemma timestamps_frame V m m' pc pc' pcs :
  write_ts_ m' = write_ts_ m -> read_ts_ m' = read_ts_ m -> buf_ m' = buf_ m ->
  held pc' = held pc -> catching pc' = catching pc -> (forall t, pc <> InLoop t) ->
  (pc_ok (write_ts_ m) (read_ts_ m) pc -> pc_ok (write_ts_ m) (read_ts_ m) pc') ->
  timestamps V m (pc :: pcs) -> timestamps V m' (pc' :: pcs).
Proof.
  intros Hw Hr Hb Hh Hc Hl Hok [H1 H2 H3 H4 H5 H6 H7 H8 H9 H10].
  split; rewrite ?Hw, ?Hr, ?Hb, ?held_cons, ?catching_cons, ?Hh, ?Hc; rewrite <-?held_cons, <-?catching_cons; try done.
  - intros Hlt. destruct (H9 Hlt) as [|[Heq|Hin]%elem_of_cons]; [by left|by destruct (Hl V)|right; by right].
  - apply Forall_cons in H10 as [Hpc H10]. constructor; [by apply Hok|done].
Qed.

Lemma timestamps_call V m pc pc' pcs : vm_call pc pc' -> timestamps V m (pc :: pcs) -> timestamps V m (pc' :: pcs).
Proof. intros Hc. destruct Hc; apply timestamps_frame; done. Qed.

(** Drawing the next timestamp. *)
Lemma timestamps_fetch V m pc pc' pcs :
  held pc = [] -> catching pc = [] -> held pc' = [write_ts_ m] -> catching pc' = [] -> (forall t, pc <> InLoop t) ->
  (pc_ok (write_ts_ m + 1) (read_ts_ m) pc') -> tally is_exclusive pcs = 0 -> fits (next_write_ts m) ->
  timestamps V m (pc :: pcs) -> timestamps V (next_write_ts m) (pc' :: pcs).
Proof.
  intros Hh Hc Hh' Hc' Hl Hok Hex Hfit [[H1 H1'] H2 H3 H4 H5 [H6 H6'] H7 H8 H9 H10].
  unfold fits, next_write_ts, set_write_ts in *. cbn [read_ts_ write_ts_ buf_] in *.
  rewrite held_cons, Hh, catching_cons, Hc in *. simpl in *.
  assert (write_ts_ m + 1 < 2 ^ 32) as Hw.
  { destruct (Z.eq_dec (write_ts_ m + 1) (2 ^ 32)) as [Heq|]; [|lia]. rewrite Heq in Hfit. unfold to_u32 in Hfit.
    rewrite Z_mod_same_full in Hfit. lia. }
  rewrite to_u32_small in * by lia.
  split; cbn [read_ts_ write_ts_ buf_]; rewrite ?held_cons, ?catching_cons, ?Hh', ?Hc'; simpl; try done.
  - lia.
  - constructor; [intros Hin; apply H5 in Hin; lia|done].
  - intros t [->|Hin]%elem_of_cons; [lia|]. apply H5 in Hin. lia.
  - intros t Ht. destruct (decide (t = write_ts_ m)) as [->|Hne].
    + rewrite bool_decide_eq_false_2 by (intros Hn; apply Hn; left).
      destruct (bit (buf_ m) (slot (write_ts_ m))) eqn:E; [|done].
      apply H8 in E as (t & Ht' & Hs); [|apply ring_slot_range]. apply ring_slot_inj in Hs; lia.
    + rewrite H7 by lia. apply bool_decide_ext. rewrite elem_of_cons. naive_solver.
  - intros i Hi Hb. destruct (H8 i Hi Hb) as (t & Ht & Hs). exists t. split; [lia|done].
  - intros Hlt. destruct (decide (V + 1 = write_ts_ m)) as [->|Hne]; [left; left|].
    destruct H9 as [Hin|[Heq|Hin]%elem_of_cons]; [lia|left; by right|by destruct (Hl V)|right; by right].
  - apply Forall_cons in H10 as [_ H10]. constructor; [done|by eapply pcs_write].
Qed.

(** The releasing thread that holds the next timestamp starts to catch up. *)
Lemma timestamps_catch V m t pcs :
  catching_up pcs = [] -> t = read_ts_ m + 1 ->
  timestamps V m (InTest t :: pcs) -> timestamps t m (InLoop t :: pcs).
Proof.
  intros Hc -> [[H1 H1'] H2 H3 H4 H5 H6 H7 H8 H9 H10].
  assert (V = read_ts_ m) as -> by (apply H3; done). set (R := read_ts_ m) in *.
  rewrite held_cons, catching_cons in *. simpl in *. rewrite Hc in *.
  pose proof (H5 (R + 1) ltac:(left)). apply NoDup_cons in H4 as [Hnew H4].
  split; rewrite ?held_cons, ?catching_cons, ?Hc; simpl; try done.
  - fold R. lia.
  - intros t Hin. by apply list_elem_of_singleton in Hin.
  - intros t Hin. assert (t <> R + 1) by congruence. pose proof (H5 t ltac:(by right)). lia.
  - intros t Ht. rewrite H7 by lia. apply bool_decide_ext. rewrite elem_of_cons. naive_solver lia.
  - intros i Hi Hb. destruct (H8 i Hi Hb) as (t & Ht & Hs). exists t. split; [|done].
    assert (t <> R + 1); [intros ->|lia]. rewrite <-Hs, H7 in Hb by lia.
    by apply bool_decide_eq_true in Hb; apply Hb; left.
  - intros _. right. left.
  - apply Forall_cons in H10 as [_ H10]. by constructor.
Qed.

(** One iteration of the catching-up loop: the next timestamp has been
    released and its mark is taken away, or it is still held. *)
Lemma timestamps_loop_go V m b' pcs :
  catching_up pcs = [] -> timestamps V m (InLoop V :: pcs) -> fits m -> bitset_ok b' -> size_ b' = ring_buf_size ->
  (forall j, 0 <= j -> bit b' j = negb (j =? slot (V + 1)) && bit (buf_ m) j) ->
  bit (buf_ m) (slot (V + 1)) = true -> timestamps (V + 1) (set_buf b' m) (InLoop (V + 1) :: pcs).
Proof.
  intros Hc [[H1 H1'] H2 H3 H4 H5 [H6 H6'] H7 H8 H9 H10] Hfit Hb' Hs' Hbit E. unfold fits in Hfit.
  rewrite held_cons, catching_cons in *. simpl in *. rewrite Hc in *.
  apply H8 in E as Ht; [|apply ring_slot_range]. destruct Ht as (t & Ht & Hs). apply ring_slot_inj in Hs; [subst t|lia..].
  rewrite H7 in E by lia. apply bool_decide_eq_true in E.
  split; rewrite ?held_cons, ?catching_cons, ?Hc; simpl; try done.
  - lia.
  - intros t' Hin. by apply list_elem_of_singleton in Hin.
  - intros t' Hin. assert (t' <> V + 1) by congruence. specialize (H5 t' Hin). lia.
  - intros t' Ht'. rewrite Hbit by apply ring_slot_range.
    rewrite (proj2 (Z.eqb_neq _ _)) by (intros Hs; apply ring_slot_inj in Hs; lia). simpl. apply H7. lia.
  - intros i Hi Hb. rewrite Hbit in Hb by lia. apply andb_true_iff in Hb as [Hne Hb].
    apply negb_true_iff, Z.eqb_neq in Hne. destruct (H8 i Hi Hb) as (t' & Ht' & <-). exists t'. split; [|done].
    assert (t' <> V + 1) by congruence. lia.
  - intros _. right. left.
  - apply Forall_cons in H10 as [_ H10]. by constructor.
Qed.

Lemma timestamps_loop_stop V m b' pcs :
  timestamps V m (InLoop V :: pcs) -> bitset_ok b' -> size_ b' = ring_buf_size ->
  (forall j, 0 <= j -> bit b' j = negb (j =? slot (V + 1)) && bit (buf_ m) j) ->
  bit (buf_ m) (slot (V + 1)) = false -> timestamps V (set_buf b' m) (InStore V :: pcs).
Proof.
  intros [[H1 H1'] H2 H3 H4 H5 H6 H7 H8 H9 H10] Hb' Hs' Hbit E.
  rewrite held_cons, catching_cons in *. simpl in *.
  assert (forall i, 0 <= i -> bit b' i = bit (buf_ m) i) as Hsame.
  { intros i Hi. rewrite Hbit by done. destruct (Z.eqb_spec i (slot (V + 1))) as [->|]; [by rewrite E|done]. }
  split; rewrite ?held_cons, ?catching_cons; simpl; try done.
  - intros t' Ht'. rewrite Hsame by apply ring_slot_range. by apply H7.
  - intros i Hi Hb. rewrite Hsame in Hb by lia. by apply H8.
  - intros Hlt. left. rewrite H7 in E by lia. apply bool_decide_eq_false in E.
    destruct (decide (V + 1 ∈ held_by pcs)); [done|by destruct E].
  - apply Forall_cons in H10 as [_ H10]. by constructor.
Qed.

Lemma timestamps_loop V m t pcs : fits m -> catching_up pcs = [] -> timestamps V m (InLoop t :: pcs) ->
  wp (vm_act (InLoop t) m) (fun '(pc', m') => exists V', timestamps V' m' (pc' :: pcs)).
Proof.
  intros Hfit Hc Hinv. pose proof Hinv as [[H1 H1'] H2 _ _ _ [H6 H6'] _ _ _ _].
  assert (t = V) as -> by (apply H2; left). unfold fits in Hfit. cbn [vm_act].
  rewrite to_u32_small by lia. fold (slot (V + 1)). pose proof (ring_slot_range (V + 1)).
  unfold atomic_reset_with_ret. rewrite get_wp by (done || lia). cbn [mbind option_bind].
  apply wp_bind, wp_bind. eapply wp_mono; [apply reset_wp; [done|by rewrite H6']|].
  intros b' (Hb' & Hs' & Hbit). wsteps. rewrite H6' in Hs'.
  destruct (bit (buf_ m) (slot (V + 1))) eqn:E.
  - exists (V + 1). by apply timestamps_loop_go.
  - exists V. by apply timestamps_loop_stop.
Qed.

(** Publishing a timestamp that is already the virtual one, or the next one. *)
Lemma timestamps_store V m t pc pc' pcs :
  held pc' = [] -> catching pc' = [] -> (pc_ok (write_ts_ m) t pc') ->
  (forall t', pc <> InLoop t') -> tally is_critical pcs = 0 -> 
  (catching pc = [t] /\ held pc = [] \/ catching pc = [] /\ held pc = [t] /\ t = read_ts_ m + 1 /\ t + 1 = write_ts_ m) ->
  timestamps V m (pc :: pcs) -> timestamps t (set_read_ts t m) (pc' :: pcs).
Proof.
  intros Hh' Hc' Hok Hl Hcrit Hcase [[H1 H1'] H2 H3 H4 H5 H6 H7 H8 H9 H10].
  pose proof (no_catching _ Hcrit) as Hc.
  rewrite held_cons, catching_cons, Hc in *. unfold set_read_ts. apply Forall_cons in H10 as [_ H10].
  destruct Hcase as [[Hcp Hhp]|(Hcp & Hhp & -> & Hlast)]; rewrite Hcp, Hhp in *; simpl in *.
  - assert (t = V) as -> by (apply H2; left).
    split; cbn [read_ts_ write_ts_ buf_]; rewrite ?held_cons, ?catching_cons, ?Hh', ?Hc', ?Hc; simpl; try done; try lia.
    + intros t Ht. by apply elem_of_nil in Ht.
    + intros Hlt. destruct (H9 Hlt) as [|[Heq|Hin]%elem_of_cons]; [by left|by destruct (Hl V)|right; by right].
    + constructor; [done|]. eapply pcs_read; [done| |done]. lia.
  - assert (V = read_ts_ m) as -> by by apply H3. set (R := read_ts_ m) in *.
    assert (held_by pcs = []) as Hnone.
    { destruct (held_by pcs) as [|t l]; [done|]. apply NoDup_cons in H4 as [Hnew _].
      pose proof (H5 t ltac:(right; left)). assert (t <> R + 1) by (intros ->; apply Hnew; left). lia. }
    split; cbn [read_ts_ write_ts_ buf_]; rewrite ?held_cons, ?catching_cons, ?Hh', ?Hc', ?Hc, ?Hnone; simpl; try done; try lia.
    + intros t Ht. by apply elem_of_nil in Ht.
    + constructor.
    + intros t Ht. by apply elem_of_nil in Ht.
    + intros i Hi Hb. destruct (H8 i Hi Hb) as (t & Ht & Hs). exfalso. assert (t = R + 1) as -> by lia.
      rewrite <-Hs, H7 in Hb by lia. apply bool_decide_eq_true in Hb. apply Hb. left.
    + constructor; [done|]. eapply pcs_read; [done| |done]. fold R. lia.
Qed.

(** Marking a timestamp that is not the next one. *)
Lemma timestamps_mark V m t pcs : fits m -> catching_up pcs = [] -> timestamps V m (InSet t :: pcs) ->
  wp (vm_act (InSet t) m) (fun '(pc', m') => timestamps V m' (pc' :: pcs)).
Proof.
  intros Hfit Hc [[H1 H1'] H2 H3 H4 H5 [H6 H6'] H7 H8 H9 H10]. unfold fits in Hfit.
  assert (V = read_ts_ m) as -> by (apply H3; rewrite catching_cons; simpl; done). cbn [vm_act].
  rewrite held_cons, catching_cons, Hc in *. simpl in *. apply Forall_cons in H10 as [Hne H10]. simpl in Hne.
  pose proof (H5 t ltac:(left)). apply NoDup_cons in H4 as [Hnew H4]. fold (slot t). pose proof (ring_slot_range t).
  apply wp_bind. eapply wp_mono; [apply set_wp; [done|by rewrite H6']|]. intros b' (Hb' & Hs' & Hbit). wsteps.
  split; unfold set_buf; cbn [read_ts_ write_ts_ buf_]; rewrite ?held_cons, ?catching_cons, ?Hc; simpl; try done; try lia.
  - intros t' Hin. apply H5. by right.
  - by rewrite Hs'.
  - intros t' Ht'. rewrite Hbit by apply ring_slot_range. destruct (decide (t' = t)) as [->|Hnt].
    + by rewrite Z.eqb_refl, bool_decide_eq_true_2.
    + rewrite (proj2 (Z.eqb_neq _ _)) by (intros Hs; apply ring_slot_inj in Hs; lia). simpl. rewrite H7 by done.
      apply bool_decide_ext. rewrite elem_of_cons. naive_solver.
  - intros i Hi Hb. rewrite Hbit in Hb by lia. apply orb_true_iff in Hb as [Heq%Z.eqb_eq|Hb]; [|by apply H8].
    by exists t.
  - intros Hlt. destruct (H9 Hlt) as [[Heq|Hin]%elem_of_cons|[Heq|Hin]%elem_of_cons]; [lia|by left|done|right; by right].
  - by constructor.
Qed.

(** Giving the last timestamp back. *)
Lemma timestamps_revert m V t pcs : held_by pcs = [] -> catching_up pcs = [] -> tally is_exclusive pcs = 0 ->
  write_ts_ m = t + 1 -> timestamps V m (RvCas t :: pcs) -> timestamps V (set_write_ts t m) (UpAdd :: pcs).
Proof.
  intros Hnone Hc Hex Hlast [[H1 H1'] H2 H3 H4 H5 H6 H7 H8 H9 H10]. unfold set_write_ts.
  rewrite held_cons, catching_cons, Hc, Hnone in *. simpl in *. apply Forall_cons in H10 as [_ H10].
  pose proof (H5 t ltac:(left)).
  split; cbn [read_ts_ write_ts_ buf_]; rewrite ?held_cons, ?catching_cons, ?Hc, ?Hnone; simpl; try done; try lia.
  - constructor.
  - intros t' Ht'. by apply elem_of_nil in Ht'.
  - intros t' Ht'. rewrite H7 by lia. apply bool_decide_eq_true_2. rewrite list_elem_of_singleton. lia.
  - intros i Hi Hb. destruct (H8 i Hi Hb) as (t' & Ht' & Hs). exists t'. split; [|done].
    assert (t' <> t); [|lia]. intros ->. rewrite <-Hs, H7 in Hb by lia. apply bool_decide_eq_true in Hb. apply Hb. left.
  - intros Hlt. destruct (H9 ltac:(lia)) as [Heq%list_elem_of_singleton|[|Hin]%elem_of_cons]; [lia|done|right; by right].
  - constructor; [done|by eapply pcs_write].
Qed.

(** A thread that runs alone holds the only timestamp out. *)
Lemma alone m pc pcs : protocol m (pc :: pcs) -> is_exclusive pc = 1 ->
  held_by pcs = [] /\ catching_up pcs = [] /\ tally is_exclusive pcs = 0 /\ (forall t, InLoop t ∉ pcs) /\
  tally is_critical pcs = 0.
Proof.
  intros [_ _ [_ H3] H4 _] He. pose proof (tally_bounds pcs) as Hb. simpl in *.
  assert (is_updater pc = 1) by (by destruct pc). pose proof (class_nonneg pc).
  assert (tally is_exclusive pcs = 0 /\ tally is_active pcs = 0 /\ tally is_critical pcs = 0) as (He0 & Ha & Hc) by lia.
  split_and!; [by apply nothing_held|by apply no_catching|done| |done].
  intros t Hin. by pose proof (no_active _ _ Ha Hin).
Qed.

Lemma in_critical m pc pcs : protocol m (pc :: pcs) -> is_critical pc = 1 ->
  tally is_critical pcs = 0 /\ catching_up pcs = [].
Proof.
  intros [_ _ _ _ H5] Hc. pose proof (tally_bounds pcs) as Hb. simpl in *.
  assert (tally is_critical pcs = 0) by (destruct (lock_ m); lia). split; [done|by apply no_catching].
Qed.

Lemma active_not_alone m pc pcs : protocol m (pc :: pcs) -> is_active pc = 1 -> tally is_exclusive pcs = 0.
Proof.
  intros [_ _ _ H4 _] Ha. pose proof (tally_bounds pcs) as Hb. simpl in *. pose proof (class_nonneg pc). lia.
Qed.

(** The held timestamp of a lone thread is the next to be published. *)
Lemma alone_next V m pc pcs t : protocol m (pc :: pcs) -> timestamps V m (pc :: pcs) -> is_exclusive pc = 1 ->
  held pc = [t] -> write_ts_ m = t + 1 -> catching pc = [] -> t = read_ts_ m + 1.
Proof.
  intros Hp [_ _ H3 _ H5 _ _ _ H9 _] He Hh Hw Hc. destruct (alone _ _ _ Hp He) as (Hnone & Hcn & _ & Hl & _).
  rewrite held_cons, catching_cons, Hnone, Hcn, Hh, Hc in *. simpl in *. rewrite <-(H3 eq_refl).
  pose proof (H5 t ltac:(left)). destruct H9 as [Heq%list_elem_of_singleton|[Heq|Hin]%elem_of_cons]; [lia|done| |].
  - by rewrite <-Heq in He.
  - by destruct (Hl V).
Qed.

Lemma timestamps_act V m pc pcs : in_call pc -> protocol m (pc :: pcs) -> timestamps V m (pc :: pcs) -> fits m ->
  wp (vm_act pc m) (fun '(pc', m') => fits m' -> exists V', timestamps V' m' (pc' :: pcs)).
Proof.
  intros Hin Hp Ht Hfit. pose proof (ts_order _ _ _ Ht) as Ho. pose proof (ts_pcs _ _ _ Ht) as Hok.
  apply Forall_cons in Hok as [Hok _].
  destruct pc; try done; simpl in Hok; cbn [vm_act]; unfold admit_req, add_pending, set_pending.
  all: try (repeat case_match; intros _; exists V; by eapply timestamps_frame; [..|exact Ht]).
  - (* RdLoad *) intros _. exists V. eapply timestamps_frame; [..|exact Ht]; done || simpl; lia.
  - (* InFetch *) intros Hf. exists V. eapply timestamps_fetch; [..|exact Hf|exact Ht]; try done.
    by eapply active_not_alone.
  - (* InTest *) rewrite to_u32_small by lia. destruct (in_critical _ _ _ Hp eq_refl) as [_ Hc].
    destruct (Z.eqb_spec ts (read_ts_ m + 1)) as [Heq|Hne]; intros _.
    + exists ts. by apply (timestamps_catch V).
    + exists V. by eapply timestamps_frame; [..|exact Ht].
  - (* InLoop *) eapply wp_mono; [eapply (timestamps_loop V); [done|by eapply in_critical|exact Ht]|].
    intros [pc' m'] Hx _. exact Hx.
  - (* InStore *) intros _. exists ts. destruct (in_critical _ _ _ Hp eq_refl) as [Hcr _].
    eapply (timestamps_store V m ts); [..|exact Ht]; try done. by left.
  - (* InSet *) eapply wp_mono; [eapply (timestamps_mark V); [done|by eapply in_critical|exact Ht]|].
    intros [pc' m'] Hx _. by exists V.
  - (* UpFetch *) intros Hf. exists V. destruct (alone _ _ _ Hp eq_refl) as (_ & _ & He & _).
    by eapply timestamps_fetch; [..|exact Hf|exact Ht].
  - (* UpTest *) rewrite to_u32_small by lia. pose proof (alone_next _ _ _ _ _ Hp Ht eq_refl eq_refl Hok eq_refl) as Heq.
    rewrite (proj2 (Z.eqb_eq _ _) Heq). intros _. exists V. by eapply timestamps_frame; [..|exact Ht].
  - (* UpStore *) intros _. exists ts. destruct (alone _ _ _ Hp eq_refl) as (_ & _ & _ & _ & Hcr).
    pose proof (alone_next _ _ _ _ _ Hp Ht eq_refl eq_refl Hok eq_refl) as Heq.
    eapply (timestamps_store V m ts); [..|exact Ht]; try done. right. done.
  - (* RvCas *) destruct (alone _ _ _ Hp eq_refl) as (Hnone & Hc & He & _).
    rewrite to_u32_small, (proj2 (Z.eqb_eq _ _) Hok) by lia. intros _. exists V. by apply timestamps_revert.
Qed.

(** ** Runs *)

Definition vm_inv (s : vm_state) : Prop := protocol (fst s) (snd s) /\ exists V, timestamps V (fst s) (snd s).

(** Steps that stay inside the ring and the integer type. *)
Definition vm_next (s s' : vm_state) : Prop := vm_step s (Some s') /\ fits (fst s').

Lemma vm_step_ok s o : vm_inv s -> fits (fst s) -> vm_step s o ->
  exists s', o = Some s' /\ (fits (fst s') -> vm_inv s').
Proof.
  intros [Hp [V Ht]] Hfit Hs. destruct Hs as [m l1 pc pc' l2 Hcall|m l1 pc l2 Hin]; simpl in *.
  - eexists. split; [done|]. intros _. rewrite <-Permutation_middle in Hp, Ht.
    split; [|exists V]; simpl; rewrite <-Permutation_middle; [by eapply protocol_call|by eapply timestamps_call].
  - rewrite <-Permutation_middle in Hp, Ht. pose proof (timestamps_act V m pc _ Hin Hp Ht Hfit) as Hwp.
    apply wp_exists in Hwp as ([pc' m'] & Hact & Ht'). rewrite Hact. simpl. eexists. split; [done|].
    intros Hf. split; [|destruct (Ht' Hf) as [V' Ht2]; exists V']; simpl; rewrite <-Permutation_middle;
      [by eapply protocol_act|done].
Qed.

Lemma vm_steps_ok s s' : vm_inv s -> fits (fst s) -> rtc vm_next s s' -> vm_inv s' /\ fits (fst s').
Proof.
  intros Hi Hf Hs. revert Hi Hf. induction Hs as [|s1 s2 s3 [Hs Hf2] _ IH]; intros Hi Hf; [done|].
  destruct (vm_step_ok _ _ Hi Hf Hs) as (? & [= <-] & Hi2). apply IH; [by apply Hi2|done].
Qed.

Lemma new_manager_wp thread_num :
  wp (new_manager thread_num) (fun m => thread_num_ m = thread_num /\ write_ts_ m = 1 /\ read_ts_ m = 0 /\
    pending_reqs_ m = 0 /\ pending_update_reqs_ m = 0 /\ lock_ m = false /\ bitset_ok (buf_ m) /\
    size_ (buf_ m) = ring_buf_size /\ forall i, 0 <= i < ring_buf_size -> bit (buf_ m) i = false).
Proof.
  pose proof ring_pos. unfold new_manager. apply wp_bind.
  eapply wp_mono; [apply resize_wp; [apply empty_bitset_ok|lia]|]. intros b (Hb & Hs & _).
  apply wp_bind. eapply wp_mono; [by apply reset_all_wp|]. intros b' (Hb' & Hs' & Hbit). rewrite Hs in *. done.
Qed.

(** The start of a service satisfies the invariant. *)
Lemma vm_start_ok ts thread_num threads :
  0 <= ts < 2 ^ 32 - 1 -> 0 < thread_num <= INT_MAX -> Z.of_nat threads <= thread_num ->
  wp (vm_start ts thread_num threads) (fun s => vm_inv s /\ fits (fst s) /\
    snd s = replicate threads Idle /\ read_ts_ (fst s) = ts).
Proof.
  intros Hts Hn Hth. pose proof ring_pos. unfold vm_start. apply wp_bind.
  eapply wp_mono; [apply new_manager_wp|]. intros m (H1 & H2 & H3 & H4 & H5 & H6 & H7 & H8 & H9). wsteps.
  assert (forall f, f Idle = 0 -> tally f (replicate threads Idle) = 0) as Ht.
  { intros f Hf. induction threads; simpl; [done|]. rewrite IHthreads; lia. }
  assert (held_by (replicate threads Idle) = []) as Hh by (apply flat_map_nil; intros pc [-> _]%elem_of_replicate; done).
  assert (catching_up (replicate threads Idle) = []) as Hc by (apply flat_map_nil; intros pc [-> _]%elem_of_replicate; done).
  unfold vm_inv, init_ts, fits. simpl. rewrite to_u32_small by lia. split_and!; [|exists ts|lia..|done|done].
  - split; simpl; rewrite ?H4, ?H5, ?H6, ?length_replicate, ?Ht by done; lia.
  - split; simpl; rewrite ?Hh, ?Hc; try done; try lia.
    + intros t Hin. by apply elem_of_nil in Hin.
    + constructor.
    + intros t Hin. by apply elem_of_nil in Hin.
    + intros i Hi Hb. rewrite H9 in Hb by done. done.
    + apply Forall_forall. intros pc [-> _]%elem_of_replicate. done.
Qed.
End timestamps.
