(* ===== verification/VersionTheorems.v ===== *)
(** * Properties of the bitset and the version manager

    The refinement of the bitset, safety and progress of the version manager,
    and two runs outside its assumptions. *)
From S2P Require Import Prelude Bitset VersionManager.
#[local] Open Scope Z_scope.

(** ** Progress

    From every state of a run the threads can finish: there is always a thread
    whose next action is not a failing iteration of a waiting loop, and such
    actions lower a measure. *)

(** How far a thread is from being idle. *)
Definition distance (pc : vm_pc) : Z :=
  match pc with
  | Idle => 0
  | RdSub => 1 | Reading _ => 2 | RdLoad => 3 | RdAdd => 4 | RdWait => 5 | RdUndo => 6
  | InSub => 1 | InUnlock => 2 | InStore _ | InSet _ => 3
  | InLoop t => 4 + (2 ^ 32 - t) | InTest t => 5 + (2 ^ 32 - t) | InLock t => 6 + (2 ^ 32 - t)
  | Inserting t => 7 + (2 ^ 32 - t) | InFetch => 8 + 2 ^ 32 | InAdd => 9 + 2 ^ 32 | InWait => 10 + 2 ^ 32
  | InUndo => 11 + 2 ^ 32
  | UpClear => 1 | UpAdd => 2 | UpUnlock | RvCas _ => 3 | UpStore _ | UpSet _ => 4 | UpTest _ => 5
  | UpLock _ => 6 | Updating _ => 7 | UpFetch => 8 | UpWait => 9 | UpSub => 10 | UpCas => 11
  end.

(** Threads that may still draw a timestamp. *)
Definition will_fetch (pc : vm_pc) : Z :=
  match pc with InAdd | InUndo | InWait | InFetch | UpCas | UpSub | UpWait | UpFetch => 1 | _ => 0 end.

(** Room for the timestamps that the pending calls will draw. *)
Definition room (s : vm_state) : Prop :=
  write_ts_ (fst s) + tally will_fetch (snd s) < 2 ^ 32 /\
  write_ts_ (fst s) + tally will_fetch (snd s) - read_ts_ (fst s) - 1 <= ring_buf_size.

(** What a finishing thread does: it goes on with its call, or ends its
    transaction. *)
Definition finish_call (pc : vm_pc) : vm_pc :=
  match pc with Reading _ => RdSub | Inserting t => InLock t | Updating t => UpLock t | _ => pc end.

(** The next action of the thread is no failing iteration of a loop. *)
Definition ready (m : TPVersionManager) (pc : vm_pc) : Prop :=
  match pc with
  | Idle => False
  | InLock _ | UpLock _ => lock_ m = false
  | UpWait => pending_reqs_ m = - thread_num_ m
  | UpSub | RdAdd | RdWait | InAdd | InWait => 0 <= pending_reqs_ m
  | UpCas => pending_update_reqs_ m = 0
  | _ => True
  end.

#[export] Instance vm_pc_eq_dec : EqDecision vm_pc.
Proof. solve_decision. Defined.

Lemma tally_nonneg f pcs : (forall pc, 0 <= f pc) -> 0 <= tally f pcs.
Proof. intros Hf. induction pcs as [|pc pcs IH]; simpl; [done|]. specialize (Hf pc). lia. Qed.

Lemma tally_pos f pcs : 0 < tally f pcs -> exists pc, pc ∈ pcs /\ f pc <> 0.
Proof.
  induction pcs as [|pc pcs IH]; simpl; [lia|]. intros H. destruct (decide (f pc = 0)) as [H0|].
  - destruct IH as (x & Hx & Hf); [lia|]. exists x. split; [by right|done].
  - exists pc. split; [left|done].
Qed.

Section progress.
Context `{!Memory}.

(** Some thread is ready unless all are idle. *)
Lemma some_ready m pcs : protocol m pcs -> Forall (fun pc => pc = Idle) pcs \/ exists pc, pc ∈ pcs /\ ready m pc.
Proof.
  intros [[H1 H1'] H2 [H3 H3'] H4 H5]. pose proof (tally_bounds pcs) as Hb.
  assert (forall f, 0 < tally f pcs -> (forall pc, pc ∈ pcs -> f pc <> 0 -> ready m pc) ->
    exists pc, pc ∈ pcs /\ ready m pc) as Hpick.
  { intros f (pc & Hpc & Hf)%tally_pos Hr. exists pc. auto. }
  destruct (decide (0 < tally is_critical pcs)); [right; apply (Hpick is_critical); [done|by intros []]|].
  assert (lock_ m = false) as Hlock by (destruct (lock_ m); [lia|done]).
  destruct (decide (0 < tally is_active pcs)); [right; apply (Hpick is_active); [done|by intros []]|].
  destruct (decide (0 < tally is_transient pcs)); [right; apply (Hpick is_transient); [done|by intros []]|].
  destruct (decide (0 < tally has_claimed pcs)).
  { right. apply (Hpick has_claimed); [done|]. assert (tally has_claimed pcs = 1) as Hc by lia. rewrite Hc in H2.
    intros []; simpl; try done. intros _ _. lia. }
  assert (tally has_claimed pcs = 0) as Hc by lia. rewrite Hc in H2.
  destruct (decide (0 < tally is_updater pcs)).
  { right. apply (Hpick is_updater); [done|]. intros pc Hin Hne.
    pose proof (tally_zero has_claimed pcs pc ltac:(by intros []) Hc Hin). destruct pc; simpl in *; lia || done. }
  destruct (decide (Forall (fun pc => pc = Idle) pcs)) as [|Hn]; [by left|right].
  apply not_Forall_Exists, Exists_exists in Hn as (pc & Hin & Hne); [|apply _]. exists pc. split; [done|].
  assert (forall f, tally f pcs <= 0 -> (forall pc, 0 <= f pc) -> f pc = 0) as Hzero.
  { intros f Hle Hf. apply (tally_zero f pcs); [done| |done]. pose proof (tally_nonneg f pcs Hf). lia. }
  pose proof (Hzero is_active ltac:(lia) ltac:(by intros [])). pose proof (Hzero is_transient ltac:(lia) ltac:(by intros [])).
  pose proof (Hzero is_updater ltac:(lia) ltac:(by intros [])). destruct pc; simpl in *; lia || done.
Qed.

(** The step of a thread that finishes. *)
Definition finish_act (pc : vm_pc) (m : TPVersionManager) : option (vm_pc * TPVersionManager) :=
  if decide (finish_call pc = pc) then vm_act pc m else Some (finish_call pc, m).

Lemma finish_step m m' l1 pc pc' l2 : pc <> Idle -> finish_act pc m = Some (pc', m') ->
  vm_step (m, l1 ++ pc :: l2) (Some (m', l1 ++ pc' :: l2)).
Proof.
  intros Hne Ha. unfold finish_act in Ha. case_decide as Hd.
  - assert (in_call pc) as Hin by (by destruct pc). pose proof (vm_step_act m l1 pc l2 Hin) as Hs. by rewrite Ha in Hs.
  - simplify_eq. destruct pc; try done; constructor; constructor.
Qed.

(** A ready thread gets closer to being idle and keeps the room. *)
Lemma finish_progress V m pc pcs : protocol m (pc :: pcs) -> timestamps V m (pc :: pcs) -> room (m, pc :: pcs) ->
  ready m pc -> wp (finish_act pc m) (fun '(pc', m') =>
    fits m' /\ room (m', pc' :: pcs) /\ 0 <= distance pc' < distance pc).
Proof.
  intros Hp Ht Hroom Hr. pose proof Ht as [[H1 H1'] H2 _ _ H5 [H6 H6'] _ _ _ H10]. apply Forall_cons in H10 as [Hok _].
  unfold room, fits in *. cbn [fst snd tally] in *.
  pose proof (tally_nonneg will_fetch pcs ltac:(by intros [])) as Hf. pose proof (ring_slot_range (V + 1)).
  assert (forall t, t ∈ held pc -> V < t < write_ts_ m) as Hh by (intros; apply H5; rewrite held_cons; set_solver).
  assert (forall t, t ∈ catching pc -> t = V) as Hc by (intros; apply H2; rewrite catching_cons; set_solver).
  unfold finish_act. destruct pc; cbn [finish_call ready pc_ok held catching will_fetch] in *; try done;
    first [rewrite decide_True by done|rewrite decide_False by done]; cbn [vm_act]; unfold admit_req;
    try rewrite Hr; try rewrite (proj2 (Z.leb_le _ _) Hr);
    try (pose proof (Hh ts ltac:(left)) as Hts); try (pose proof (Hc ts ltac:(left)) as Hts).
  14: { (* InLoop *) subst ts. rewrite to_u32_small by lia. fold (slot (V + 1)).
    unfold atomic_reset_with_ret. rewrite get_wp by (done || lia). cbn [mbind option_bind].
    apply wp_bind, wp_bind. eapply wp_mono; [apply reset_wp; [done|by rewrite H6']|].
    intros b' _. wsteps. case_match; simpl; lia. }
  15: { (* InSet *) fold (slot ts). pose proof (ring_slot_range ts). apply wp_bind.
    eapply wp_mono; [apply set_wp; [done|by rewrite H6']|]. intros b' _. wsteps. simpl. lia. }
  28: { (* RvCas *) rewrite to_u32_small, (proj2 (Z.eqb_eq _ _) Hok) by lia. wsteps. simpl. lia. }
  all: wsteps; simpl; repeat case_match; simpl; rewrite ?to_u32_small by lia; lia.
Qed.

(** A run that finishes what is going on ends with all threads idle and
    everything published. *)
Lemma drain k s : vm_inv s -> fits (fst s) -> room s -> (forall pc, pc ∈ snd s -> 0 <= distance pc) ->
  tally distance (snd s) < Z.of_nat k ->
  exists s', rtc vm_next s s' /\ Forall (fun pc => pc = Idle) (snd s').
Proof.
  revert s. induction k as [|k IH]; intros [m pcs] [Hp [V Ht]] Hfit Hroom Hd Hk; simpl in *.
  { assert (forall l, (forall pc, pc ∈ l -> 0 <= distance pc) -> 0 <= tally distance l) as Hnn; [|specialize (Hnn pcs Hd); lia].
    induction l as [|x l IHl]; intros Hx; simpl; [done|]. specialize (IHl ltac:(intros; apply Hx; by right)).
    specialize (Hx x ltac:(left)). lia. }
  destruct (some_ready m pcs Hp) as [Hidle|(pc & Hin & Hr)]; [by exists (m, pcs)|].
  apply list_elem_of_split in Hin as (l1 & l2 & ->). rewrite <-Permutation_middle in Hp, Ht, Hk.
  assert (room (m, pc :: l1 ++ l2)) as Hroom' by (unfold room in *; simpl in *; by rewrite <-Permutation_middle in Hroom).
  pose proof (finish_progress V m pc _ Hp Ht Hroom' Hr) as Hwp.
  apply wp_exists in Hwp as ([pc' m'] & Hact & Hfit' & Hr' & Hdist).
  assert (vm_next (m, l1 ++ pc :: l2) (m', l1 ++ pc' :: l2)) as Hnext.
  { split; [|done]. apply finish_step; [by intros ->|done]. }
  destruct (vm_steps_ok (m, l1 ++ pc :: l2) (m', l1 ++ pc' :: l2)) as [Hi' _]; [|done|by apply rtc_once|].
  { split; [|exists V]; simpl; by rewrite <-Permutation_middle. }
  destruct (IH (m', l1 ++ pc' :: l2)) as (s' & Hs' & Hidle); [done|done| | |simpl in *|].
  - unfold room in *. simpl in *. by rewrite <-Permutation_middle.
  - simpl in *. intros x Hx. rewrite <-Permutation_middle in Hx. apply elem_of_cons in Hx as [->|Hx]; [lia|].
    apply Hd. rewrite <-Permutation_middle. by right.
  - rewrite <-Permutation_middle. simpl in *. lia.
  - exists s'. split; [by eapply rtc_l|done].
Qed.

(** Reachable program counters have a distance. *)
Lemma distance_nonneg V m pcs pc : timestamps V m pcs -> pc ∈ pcs -> 0 <= distance pc.
Proof.
  intros [[H1 H1'] H2 _ _ H5 _ _ _ _ _] Hin.
  assert (forall t, t ∈ held pc -> V < t < write_ts_ m) as Hh.
  { intros t Ht. apply H5. apply list_elem_of_In, in_flat_map. exists pc. by rewrite <-!list_elem_of_In. }
  assert (forall t, t ∈ catching pc -> t = V) as Hc.
  { intros t Ht. apply H2. apply list_elem_of_In, in_flat_map. exists pc. by rewrite <-!list_elem_of_In. }
  destruct pc; simpl in *; try lia;
    first [pose proof (Hh ts ltac:(left)); lia|pose proof (Hc ts ltac:(left)); lia].
Qed.
End progress.

(** ** The properties *)

Section theorems.
Context `{!Memory}.

(** C28: Every sequence of calls on an empty bitset (resizing up and down,
    setting, resetting, reading, clearing, copying) that stays within the
    current size runs without a null or wild access and returns what the same
    calls return on a list of booleans; and [count] is the number of true
    entries whenever the last word holds no stale bits. *)
Theorem bitset_refines ops outs l :
  exec_all list_exec ops [] = Some (outs, l) ->
  exists b, exec_all bitset_exec ops empty_bitset = Some (outs, b) /\ bits_rel b l /\
    bitset_count b = Some (count_true l +
      sumz (fun k => ind (bit b (size_ b + k))) (64 * size_in_words_ b - size_ b)).
Proof.
  intros Hl. assert (forall ops s l0 b0 r, bits_rel b0 l0 ->
    for_each ops (s, l0) (fun op '(outs, s) => r ← list_exec op s; Some (outs ++ option_list (fst r), snd r)) = Some r ->
    wp (for_each ops (s, b0) (fun op '(outs, s) => r ← bitset_exec op s; Some (outs ++ option_list (fst r), snd r)))
      (fun r' => fst r' = fst r /\ bits_rel (snd r') (snd r))) as Hgo.
  { clear. induction ops as [|op ops IH]; intros s l0 b0 r Hrel Hr; simpl in *; [by simplify_eq|].
    apply bind_Some in Hr as ([s1 l1] & Hr1 & Hr). apply bind_Some in Hr1 as ([x l2] & Hx & [= <- <-]).
    pose proof (exec_refines op b0 l0 _ Hrel Hx) as Hwp. apply wp_bind, wp_bind.
    eapply wp_mono; [exact Hwp|]. intros [x' b1] [Hxe Hrel1]. simpl in *. subst x'. by eapply IH. }
  pose proof (Hgo ops [] [] empty_bitset _ (conj empty_bitset_ok eq_refl) Hl) as Hwp.
  apply wp_exists in Hwp as ([outs' b] & Hb & Heq & Hrel). simpl in *. subst outs'.
  exists b. split; [exact Hb|]. split; [done|]. destruct Hrel as [Hok ->]. by apply count_wp.
Qed.

(** Two different positions of a list of threads. *)
Lemma two_threads (pcs : list vm_pc) i j p q : i <> j -> pcs !! i = Some p -> pcs !! j = Some q ->
  exists rest, pcs ≡ₚ p :: q :: rest.
Proof.
  intros Hij Hi Hj. apply delete_Permutation in Hi as Hp.
  assert (q ∈ delete i pcs) as Hin.
  { destruct (decide (j < i)%nat).
    - apply (list_elem_of_lookup_2 _ j). by rewrite list_lookup_delete_lt.
    - apply (list_elem_of_lookup_2 _ (pred j)). rewrite list_lookup_delete_ge by lia.
      by replace (S (pred j)) with j by lia. }
  apply list_elem_of_split in Hin as (l1 & l2 & Hd). exists (l1 ++ l2). by rewrite Hp, Hd, <-Permutation_middle.
Qed.

(** C4: From the start of a service with at most [thread_num] threads, in
    every interleaving that stays within the ring and the 32-bit timestamps: no
    action leaves the ring; a thread that runs an update is alone among the
    readers, inserters and updaters; no timestamp is held twice; the held ones
    are given out and not published; as long as no release is catching up with the marks
    of the ring, a timestamp that is given out and not published is held, or is marked
    because it was released before an earlier one; readers see published timestamps
    only; reverting an update succeeds; and when nobody holds a timestamp or is
    catching up, everything given out is published. *)
Theorem version_manager_safe ts thread_num threads s0 m pcs :
  0 <= ts < 2 ^ 32 - 1 -> 0 < thread_num <= INT_MAX -> Z.of_nat threads <= thread_num ->
  vm_start ts thread_num threads = Some s0 -> rtc vm_next s0 (m, pcs) ->
  (forall o, vm_step (m, pcs) o -> is_Some o) /\
  (forall i j p q, i <> j -> pcs !! i = Some p -> pcs !! j = Some q -> is_exclusive p = 1 ->
     is_active q = 0 /\ is_exclusive q = 0) /\
  NoDup (held_by pcs) /\ (forall t, t ∈ held_by pcs -> read_ts_ m < t < write_ts_ m) /\
  (catching_up pcs = [] -> forall t, read_ts_ m < t < write_ts_ m -> bit (buf_ m) (slot t) = bool_decide (t ∉ held_by pcs)) /\
  (forall t, Reading t ∈ pcs -> t <= read_ts_ m) /\
  (forall t, RvCas t ∈ pcs -> write_ts_ m = t + 1) /\
  (held_by pcs = [] -> catching_up pcs = [] -> read_ts_ m + 1 = write_ts_ m).
Proof.
  intros Hts Hn Hth Hs0 Hrun. pose proof (vm_start_ok ts thread_num threads Hts Hn Hth) as Hwp. rewrite Hs0 in Hwp.
  destruct Hwp as (Hi0 & Hf0 & _ & _). destruct (vm_steps_ok _ _ Hi0 Hf0 Hrun) as [[Hp [V Ht]] Hf]. simpl in *.
  pose proof (ts_order _ _ _ Ht) as Ho. pose proof (ts_pcs _ _ _ Ht) as Hok. rewrite Forall_forall in Hok.
  split_and!.
  - intros o Ho'. destruct (vm_step_ok (m, pcs) o) as (s' & -> & _); [split; [done|by exists V]|done|done|done].
  - intros i j p q Hij Hi Hj Hex. destruct (two_threads _ _ _ _ _ Hij Hi Hj) as (rest & Hperm).
    rewrite Hperm in Hp. destruct (alone _ _ _ Hp Hex) as (_ & _ & He & _).
    pose proof (pr_alone _ _ Hp) as Ha. pose proof (tally_bounds rest). pose proof (class_nonneg q). pose proof (class_nonneg p).
    simpl in *. lia.
  - apply (ts_nodup _ _ _ Ht).
  - intros t Hin. pose proof (ts_range _ _ _ Ht t Hin). lia.
  - intros Hc t Hr. apply (ts_marked _ _ _ Ht). pose proof (ts_settled _ _ _ Ht Hc). lia.
  - intros t Hin. apply (Hok _ Hin).
  - intros t Hin. apply (Hok _ Hin).
  - intros Hh Hc. pose proof (ts_settled _ _ _ Ht Hc). destruct (decide (V + 1 < write_ts_ m)) as [Hlt|]; [|lia].
    destruct (ts_gap _ _ _ Ht Hlt) as [Hin|Hin]; [rewrite Hh in Hin; by apply elem_of_nil in Hin|].
    assert (V ∈ catching_up pcs) as Hv; [|rewrite Hc in Hv; by apply elem_of_nil in Hv].
    apply list_elem_of_In, in_flat_map. exists (InLoop V). rewrite <-!list_elem_of_In. split; [done|left].
Qed.

(** C29: From every state of a run whose pending calls find room in the ring,
    the threads can finish without new transactions: some continuation ends
    with all threads idle, and then every timestamp given out or given back has
    been published.  No interleaving can deadlock the manager. *)
Theorem version_manager_progress ts thread_num threads s0 s :
  0 <= ts < 2 ^ 32 - 1 -> 0 < thread_num <= INT_MAX -> Z.of_nat threads <= thread_num ->
  vm_start ts thread_num threads = Some s0 -> rtc vm_next s0 s -> room s ->
  exists s', rtc vm_next s s' /\ Forall (fun pc => pc = Idle) (snd s') /\
    read_ts_ (fst s') + 1 = write_ts_ (fst s') /\ pending_reqs_ (fst s') = 0.
Proof.
  intros Hts Hn Hth Hs0 Hrun Hroom. pose proof (vm_start_ok ts thread_num threads Hts Hn Hth) as Hwp. rewrite Hs0 in Hwp.
  destruct Hwp as (Hi0 & Hf0 & _ & _). destruct (vm_steps_ok _ _ Hi0 Hf0 Hrun) as [Hi Hf].
  destruct (drain (Z.to_nat (tally distance (snd s) + 1)) s) as (s' & Hs' & Hidle); [done..| |lia|].
  { destruct Hi as [_ [V Ht]]. intros pc Hin. by eapply distance_nonneg. }
  exists s'. split; [done|]. split; [done|]. destruct (vm_steps_ok _ _ Hi Hf Hs') as [[Hp [V Ht]] _].
  assert (forall A (f : vm_pc -> list A), f Idle = [] -> flat_map f (snd s') = []) as Hnil.
  { intros A f Hfi. apply flat_map_nil. intros pc Hin. rewrite Forall_forall in Hidle. by rewrite (Hidle pc Hin). }
  assert (forall f, f Idle = 0 -> tally f (snd s') = 0) as Htl.
  { intros f Hfi. clear -Hfi Hidle. induction Hidle as [|pc l -> _ IH]; simpl; lia. }
  split.
  - pose proof (ts_settled _ _ _ Ht (Hnil _ catching eq_refl)). pose proof (ts_order _ _ _ Ht).
    destruct (decide (V + 1 < write_ts_ (fst s'))) as [Hlt|]; [|lia].
    destruct (ts_gap _ _ _ Ht Hlt) as [Hin|Hin].
    + unfold held_by in Hin. rewrite Hnil in Hin by done. by apply elem_of_nil in Hin.
    + rewrite Forall_forall in Hidle. by specialize (Hidle _ Hin).
  - pose proof (pr_pending _ _ Hp) as Hpe. rewrite !Htl in Hpe by done. lia.
Qed.

(** ** Runs of given threads *)

Definition vm_run : relation vm_state := fun s s' => vm_step s (Some s').
Definition service_run : relation service_state := fun s s' => vm_step_compact s (Some s').

Lemma run_act m m' l1 pc pc' l2 : in_call pc -> vm_act pc m = Some (pc', m') ->
  vm_run (m, l1 ++ pc :: l2) (m', l1 ++ pc' :: l2).
Proof. intros Hin Ha. pose proof (vm_step_act m l1 pc l2 Hin) as Hs. by rewrite Ha in Hs. Qed.

Lemma run_call m l1 pc pc' l2 : vm_call pc pc' -> vm_run (m, l1 ++ pc :: l2) (m, l1 ++ pc' :: l2).
Proof. intros Hc. by constructor. Qed.

Lemma run_client m m' l1 c c' l2 : can_act c -> client_act c m = Some (c', m') -> service_run (m, l1 ++ c :: l2) (m', l1 ++ c' :: l2).
Proof. intros Hin Ha. pose proof (service_act m l1 c l2 Hin) as Hs. by rewrite Ha in Hs. Qed.

Lemma run_client_call m l1 c c' l2 : client_call c c' -> service_run (m, l1 ++ c :: l2) (m, l1 ++ c' :: l2).
Proof. intros Hc. by constructor. Qed.

(** The actions of one thread among the others [l1] and [l2]. *)
Ltac act l1 l2 := eapply rtc_l; [eapply (run_act _ _ l1 _ _ l2); [exact I|cbn; reflexivity]|cbn].
Ltac to_call pc l1 l2 := eapply rtc_l; [eapply (run_call _ l1 _ pc l2); constructor|cbn].
Ltac client_acts l1 l2 := eapply rtc_l; [eapply (run_client _ _ l1 _ _ l2); [exact I|cbn; reflexivity]|cbn].
Ltac client_to c l1 l2 := eapply rtc_l; [eapply (run_client_call _ l1 _ c l2); repeat constructor|cbn].

(** A fresh service with timestamp 0. *)
Lemma start_fresh thread_num threads :
  exists b, vm_start 0 thread_num threads = Some (TPVM thread_num 1 0 0 0 b false, replicate threads Idle) /\
    bitset_ok b /\ size_ b = ring_buf_size /\ forall i, 0 <= i < ring_buf_size -> bit b i = false.
Proof.
  pose proof (new_manager_wp thread_num) as Hwp. apply wp_exists in Hwp as ([tn w r p u b l] & Hm & Hwp).
  destruct Hwp as (H1 & H2 & H3 & H4 & H5 & H6 & H7). simpl in *. subst. exists b. unfold vm_start. by rewrite Hm.
Qed.

(** C35: A compaction clears the manager after it has released its timestamp, when other
    transactions may have begun.  From every state in which its thread is about to clear
    and no update is pending, wherever the other threads are, the thread can go on to
    clear the manager and then to run an update at timestamp 1, none of the others
    moving; and such a state is reached by the calls and one compaction of two threads
    with a reader at timestamp 1, which [version_manager_safe] excludes beside an
    update. *)
Theorem compact_clear_race :
  (forall m others, bitset_ok (buf_ m) -> pending_update_reqs_ m = 0 ->
     exists m', rtc service_run (m, ClearWrite :: others) (m', Client (Updating 1) :: others)) /\
  (exists m0 m, vm_start 0 2 2 = Some (m0, [Idle; Idle]) /\
     rtc service_run (m0, [Client Idle; Client Idle]) (m, [ClearWrite; Client (Reading 1)]) /\ bitset_ok (buf_ m) /\ pending_update_reqs_ m = 0).
Proof.
  split.
  - intros [n w r p u b l] others Hb Hu. cbn in Hb, Hu. subst u. pose proof (reset_all_wp b Hb) as Hr. apply wp_exists in Hr as (b' & Hb' & _). eexists.
    do 3 client_acts (@nil client) others.
    eapply rtc_l; [eapply (run_client _ _ [] _ _ others); [exact I|cbn; rewrite Hb'; reflexivity]|cbn].
    client_to (Client UpCas) (@nil client) others. do 3 client_acts (@nil client) others. apply rtc_refl.
  - destruct (start_fresh 2 2) as (b & Hs0 & H7 & _). eexists _, _. split; [exact Hs0|]. split.
    + client_to (Compacting UpCas) (@nil client) [Client Idle]. do 3 client_acts (@nil client) [Client Idle].
      client_to (Compacting (UpLock 1)) (@nil client) [Client Idle]. do 6 client_acts (@nil client) [Client Idle].
      client_to (Client RdAdd) [ClearWrite] (@nil client). do 2 client_acts [ClearWrite] (@nil client). apply rtc_refl.
    + done.
Qed.

(** ** Overrunning the ring *)

(** A manager with three inserters in flight. *)
Definition three_held (k : Z) (b : Bitset) : TPVersionManager := TPVM 4 k 0 3 0 b false.
Definition three_inserting : list vm_pc := [Inserting 1; Inserting 2; Inserting 3].

(** The fourth thread inserts and releases [k], which only marks the ring. *)
Lemma overrun_round k b : bitset_ok b -> size_ b = ring_buf_size -> 4 <= k < 2 ^ 31 ->
  exists b', bitset_ok b' /\ size_ b' = ring_buf_size /\
    (forall j, 0 <= j -> bit b' j = (j =? slot k) || bit b j) /\
    rtc vm_run (three_held k b, three_inserting ++ [Idle]) (three_held (k + 1) b', three_inserting ++ [Idle]).
Proof.
  intros Hb Hs Hk. pose proof (set_wp b (slot k) Hb ltac:(rewrite Hs; apply ring_slot_range)) as Hwp.
  apply wp_exists in Hwp as (b' & Hb' & Hok' & Hs' & Hbit). exists b'. split; [done|]. split; [lia|]. split; [done|].
  unfold three_held. to_call InAdd three_inserting (@nil vm_pc). do 2 act three_inserting (@nil vm_pc).
  to_call (InLock k) three_inserting (@nil vm_pc). act three_inserting (@nil vm_pc).
  eapply rtc_l; [eapply (run_act _ _ three_inserting _ (InSet k) []); [exact I|]|].
  { cbn. rewrite to_u32_small by lia. by rewrite (proj2 (Z.eqb_neq _ _)) by lia. }
  eapply rtc_l; [eapply (run_act _ _ three_inserting _ InUnlock []); [exact I|]|].
  { cbn. fold (slot k). rewrite Hb'. reflexivity. }
  cbn. do 2 act three_inserting (@nil vm_pc). unfold next_write_ts. cbn. rewrite to_u32_small by lia. apply rtc_refl.
Qed.

Lemma overrun k b : bitset_ok b -> size_ b = ring_buf_size -> (forall j, 0 <= j < ring_buf_size -> bit b j = false) ->
  0 <= k -> 4 + k < 2 ^ 31 ->
  exists b', bitset_ok b' /\ size_ b' = ring_buf_size /\
    (forall j, 0 <= j < ring_buf_size -> bit b' j = true <-> exists t, 4 <= t < 4 + k /\ slot t = j) /\
    rtc vm_run (three_held 4 b, three_inserting ++ [Idle]) (three_held (4 + k) b', three_inserting ++ [Idle]).
Proof.
  intros Hb Hs Hzero Hk. revert k Hk. apply (natlike_ind (fun k => 4 + k < 2 ^ 31 -> _)).
  - intros _. exists b. split_and!; [done|done| |apply rtc_refl]. intros j Hj. rewrite Hzero by done.
    split; [done|intros (t & ? & _); lia].
  - intros k Hk IH Hlt. destruct IH as (b1 & Hb1 & Hs1 & Hbit1 & Hrun); [lia|].
    destruct (overrun_round (4 + k) b1 Hb1 Hs1 ltac:(lia)) as (b2 & Hb2 & Hs2 & Hbit2 & Hrun2).
    exists b2. split; [done|]. split; [done|]. replace (4 + Z.succ k) with (4 + k + 1) by lia.
    split; [|by etrans]. intros j Hj. rewrite Hbit2, orb_true_iff, Hbit1, Z.eqb_eq by lia. split.
    + intros [->|(t & Ht & <-)]; [exists (4 + k)|exists t]; split; lia || done.
    + intros (t & Ht & <-). destruct (decide (t = 4 + k)) as [->|]; [by left|right]. exists t. split; lia || done.
Qed.

Lemma reset_bit_run b t x : bitset_ok b -> size_ b = ring_buf_size -> bit b (slot t) = x ->
  exists b', atomic_reset_with_ret b (slot t) = Some (x, b') /\ bitset_ok b' /\ size_ b' = ring_buf_size /\
    forall j, 0 <= j -> bit b' j = negb (j =? slot t) && bit b j.
Proof.
  intros Hb Hs <-. pose proof (ring_slot_range t). unfold atomic_reset_with_ret. rewrite get_wp by (done || lia).
  cbn [mbind option_bind]. pose proof (reset_wp b (slot t) Hb ltac:(lia)) as Hwp.
  apply wp_exists in Hwp as (b' & -> & Hb' & Hs' & Hbit). exists b'. split; [done|]. split; [done|]. split; [lia|done].
Qed.

Lemma loop_act m t x b' : atomic_reset_with_ret (buf_ m) (slot (t + 1)) = Some (x, b') -> 0 <= t < 2 ^ 32 - 1 ->
  vm_act (InLoop t) m = Some (if x then InLoop (t + 1) else InStore t, set_buf b' m).
Proof. intros Hr Ht. cbn [vm_act]. rewrite to_u32_small by lia. fold (slot (t + 1)). by rewrite Hr. Qed.

(** C36: The ring is trusted beyond its size: with four threads, when three
    insert transactions stay open while the fourth commits [ring_buf_size - 1]
    more, the marks wrap around, and releasing timestamp 1 also publishes
    timestamp 2, which is still being written.  The run consists of the calls of the
    four threads alone; [version_manager_safe] excludes it as long as the timestamps
    stay within the ring. *)
Theorem ring_overrun :
  exists s0 m, vm_start 0 4 4 = Some s0 /\
    rtc vm_run s0 (m, [InUnlock; Inserting 2; Inserting 3; Idle]) /\ read_ts_ m = 2 /\ write_ts_ m = ring_buf_size + 3.
Proof.
  destruct (start_fresh 4 4) as (b & Hs0 & H7 & H8 & H9). eexists _. pose proof ring_pos as Hring.
  destruct (overrun (ring_buf_size - 1) b H7 H8 H9 ltac:(lia) ltac:(lia)) as (b1 & Hb1 & Hs1 & Hbit1 & Hrun).
  assert (bit b1 (slot 2) = true) as H2.
  { apply Hbit1; [apply ring_slot_range|]. exists (ring_buf_size + 2). split; [lia|].
    rewrite !slot_mod. rewrite <-(Z_mod_plus_full 2 1 ring_buf_size). f_equal. }
  assert (bit b1 (slot 3) = false) as H3.
  { apply not_true_iff_false. rewrite Hbit1 by apply ring_slot_range. intros (t & Ht & Hs). apply ring_slot_inj in Hs; lia. }
  destruct (reset_bit_run b1 2 true Hb1 Hs1 H2) as (b2 & Hr2 & Hb2 & Hs2 & Hbit2).
  assert (bit b2 (slot 3) = false) as H3'.
  { rewrite Hbit2 by apply ring_slot_range. by rewrite H3, andb_false_r. }
  destruct (reset_bit_run b2 3 false Hb2 Hs2 H3') as (b3 & Hr3 & _).
  eexists. split; [exact Hs0|]. split.
  - to_call InAdd (@nil vm_pc) [Idle; Idle; Idle]. do 2 act (@nil vm_pc) [Idle; Idle; Idle].
    to_call InAdd [Inserting 1] [Idle; Idle]. do 2 act [Inserting 1] [Idle; Idle].
    to_call InAdd [Inserting 1; Inserting 2] [Idle]. do 2 act [Inserting 1; Inserting 2] [Idle].
    etrans; [exact Hrun|]. cbn.
    to_call (InLock 1) (@nil vm_pc) [Inserting 2; Inserting 3; Idle]. do 2 act (@nil vm_pc) [Inserting 2; Inserting 3; Idle].
    eapply rtc_l; [eapply (run_act _ _ []); [exact I|by apply (loop_act _ 1 true b2)]|cbn].
    eapply rtc_l; [eapply (run_act _ _ []); [exact I|by apply (loop_act _ 2 false b3)]|cbn].
    act (@nil vm_pc) [Inserting 2; Inserting 3; Idle]. apply rtc_refl.
  - split; [reflexivity|]. cbn. lia.
Qed.
End theorems.

(** ** Concrete inputs *)

(** The update beside the reader. *)
Lemma compact_clear_race_witness : exists m0 m, vm_start 0 2 2 = Some (m0, [Idle; Idle]) /\
  rtc service_run (m0, [Client Idle; Client Idle]) (m, [Client (Updating 1); Client (Reading 1)]).
Proof.
  destruct compact_clear_race as (Hrace & m0 & m1 & Hs0 & Hrun & Hb & Hu). destruct (Hrace m1 [Client (Reading 1)] Hb Hu) as [m Hm]. exists m0, m. split; [exact Hs0|]. by etrans.
Defined.

(** Growing past a word, shrinking, growing again. *)
Lemma bitset_refines_witness :
  exists b, exec_all bitset_exec [OpResize 70; OpSet 3; OpSet 69; OpResize 4; OpResize 70; OpGet 3; OpGet 69; OpCopy;
      OpResetRet 3; OpGet 3] empty_bitset = Some ([true; false; true; false], b) /\
    bits_rel b (replicate 70 false) /\
    bitset_count b = Some (count_true (replicate 70 false) +
      sumz (fun k => ind (bit b (size_ b + k))) (64 * size_in_words_ b - size_ b)).
Proof. apply bitset_refines. by vm_compute. Defined.

(** A service with two threads, the first of which has begun an insertion. *)
Definition first_insert (b : Bitset) : vm_state := (TPVM 2 2 0 1 0 b false, [Inserting 1; Idle]).

Lemma first_insert_run b : rtc vm_next (TPVM 2 1 0 0 0 b false, [Idle; Idle]) (first_insert b).
Proof.
  pose proof ring_pos.
  apply (rtc_l _ _ (TPVM 2 1 0 0 0 b false, [InAdd; Idle])).
  { split; [apply (vm_step_call _ [] Idle InAdd [Idle]); constructor|unfold fits; simpl; lia]. }
  apply (rtc_l _ _ (TPVM 2 1 0 1 0 b false, [InFetch; Idle])).
  { split; [exact (vm_step_act (TPVM 2 1 0 0 0 b false) [] InAdd [Idle] I)|unfold fits; simpl; lia]. }
  apply rtc_once. split; [exact (vm_step_act (TPVM 2 1 0 1 0 b false) [] InFetch [Idle] I)|unfold fits; simpl; lia].
Qed.

Lemma two_threads_ok : 0 <= 0 < 2 ^ 32 - 1 /\ 0 < 2 <= INT_MAX /\ Z.of_nat 2 <= 2.
Proof. unfold INT_MAX. lia. Qed.

Lemma first_insert_room b : room (first_insert b).
Proof. pose proof ring_pos. unfold room. simpl. lia. Qed.

Lemma version_manager_safe_witness :
  exists b, vm_start 0 2 2 = Some (TPVM 2 1 0 0 0 b false, replicate 2 Idle) /\
    (forall o, vm_step (TPVM 2 2 0 1 0 b false, [Inserting 1; Idle]) o -> is_Some o) /\
    (forall t, t ∈ held_by [Inserting 1; Idle] -> 0 < t < 2).
Proof.
  destruct (start_fresh 2 2) as (b & Hs & _). exists b. split; [exact Hs|].
  destruct two_threads_ok as (H1 & H2 & H3).
  destruct (version_manager_safe 0 2 2 _ (TPVM 2 2 0 1 0 b false) [Inserting 1; Idle] H1 H2 H3 Hs (first_insert_run b))
    as (Hstep & _ & _ & Hheld & _). exact (conj Hstep Hheld).
Defined.

Lemma version_manager_progress_witness :
  exists b s', rtc vm_next (first_insert b) s' /\ Forall (fun pc => pc = Idle) (snd s') /\
    read_ts_ (fst s') + 1 = write_ts_ (fst s') /\ pending_reqs_ (fst s') = 0.
Proof.
  destruct (start_fresh 2 2) as (b & Hs & _). exists b. destruct two_threads_ok as (H1 & H2 & H3).
  exact (version_manager_progress 0 2 2 _ (first_insert b) H1 H2 H3 Hs (first_insert_run b) (first_insert_room b)).
Defined.
