(* ===== verification/Num.v ===== *)
(** * The arithmetic of edge weights

    The C++ computes weights, modularity and move gains in [double].  The model
    is written once against the interface [Arith] and instantiated twice:
    [double_arith] is IEEE 754 binary64 with rounding to nearest (the Standard
    Library's [SpecFloat], whose operations are ordinary functions on integers),
    which is what the program runs; [exact_arith] is the rational numbers, for
    the theorems that are about the quantities the code approximates.
    Theorems stated for every [Arith] hold of the program's own arithmetic. *)
From S2P Require Import Prelude.
From Stdlib Require Import QArith Qcanon SpecFloat.
#[local] Open Scope Z_scope.

Class Arith (W : Type) := {
  wzero : W;
  wone : W;
  wadd : W -> W -> W;
  wsub : W -> W -> W;
  wmul : W -> W -> W;
  wdiv : W -> W -> W;
  wltb : W -> W -> bool;
  wleb : W -> W -> bool;
  wofZ : Z -> W
}.

(** ** [double] *)

Definition prec : Z := 53.
Definition emax : Z := 1024.

Definition double := spec_float.
Definition double_ofZ (z : Z) : double := binary_normalize prec emax z 0 false.

#[export] Instance double_arith : Arith double := {
  wzero := S754_zero false;
  wone := double_ofZ 1;
  wadd := SFadd prec emax;
  wsub := SFsub prec emax;
  wmul := SFmul prec emax;
  wdiv := SFdiv prec emax;
  wltb := SFltb;
  wleb := SFleb;
  wofZ := double_ofZ
}.

(** ** Exact rational arithmetic *)

Definition Qc_ltb (a b : Qc) : bool := if Qclt_le_dec a b then true else false.
Definition Qc_leb (a b : Qc) : bool := if Qclt_le_dec b a then false else true.

#[export] Instance exact_arith : Arith Qc := {
  wzero := 0%Qc;
  wone := 1%Qc;
  wadd := Qcplus;
  wsub := Qcminus;
  wmul := Qcmult;
  wdiv := Qcdiv;
  wltb := Qc_ltb;
  wleb := Qc_leb;
  wofZ := fun z => Q2Qc (inject_Z z)
}.

#[export] Instance arith_inhabited {W} `{Arith W} : Inhabited W | 100 := populate wzero.

Lemma Qc_ltb_lt a b : Qc_ltb a b = true <-> (a < b)%Qc.
Proof.
  unfold Qc_ltb. destruct (Qclt_le_dec a b); split; try done.
  intros ?. by apply Qcle_not_lt in q.
Qed.

Lemma Qc_leb_le a b : Qc_leb a b = true <-> (a <= b)%Qc.
Proof.
  unfold Qc_leb. destruct (Qclt_le_dec b a); split; try done.
  intros ?. by apply Qcle_not_lt in H.
Qed.

Definition two {W} `{Arith W} : W := wofZ 2.
