(* ===== verification/Storage.v ===== *)
(** * The storage read interface

    What the graph algorithms see of the store: the part of [Schema]
    (src/storages/graph/schema.cc) that resolves and enumerates labels, with its
    tombstones, and [StorageReadInterface]
    (include/neug/storages/graph/graph_interface.h) as a record of the
    operations the algorithms call.  Label ids are [uint8_t], vertex ids
    [uint32_t]. *)
From S2P Require Import Prelude.
From stdpp Require Export strings.
#[local] Open Scope Z_scope.

(** ** Schema *)

Record Schema := {
  vlabel_indexer : list string;      (* names by label id *)
  vlabel_tomb : list bool;           (* set bits are deleted labels *)
  e_schemas : list Z                 (* keys, in the map's iteration order *)
}.

Definition vertex_label_frontier (sch : Schema) : Z := to_u8 (vlen (vlabel_indexer sch)).

Definition tomb_count (tomb : list bool) : Z := vlen (filter (fun b => b = true) tomb).

Definition vertex_label_num (sch : Schema) : Z :=
  to_u8 (vlen (vlabel_indexer sch) - tomb_count (vlabel_tomb sch)).

(** [vlabel_tomb_.get(label_id)] is only reached for an indexed label. *)
Definition vertex_label_valid (sch : Schema) (label_id : Z) : option bool :=
  if label_id <? vlen (vlabel_indexer sch) then
    t ← vget (vlabel_tomb sch) label_id; Some (negb t)
  else Some false.

(** [vlabel_indexer_.get_index]. *)
Fixpoint get_index (names : list string) (label : string) (i : Z) : option Z :=
  match names with
  | [] => None
  | x :: names' => if decide (x = label) then Some i else get_index names' label (i + 1)
  end.

(** The outcome of a call that may throw. *)
Inductive outcome (A : Type) :=
| Returned (a : A)
| Thrown.
Arguments Returned {A} a.
Arguments Thrown {A}.

(** Calls in sequence: an exception ends the sequence.  [through] is a call on a part
    of the state. *)
Definition and_then {A B S} (m : option (outcome A * S)) (f : A -> S -> option (outcome B * S)) : option (outcome B * S) :=
  '(r, s) ← m; match r with Returned a => f a s | Thrown => Some (Thrown, s) end.
Definition through {A S T} (put : S -> T) (m : option (outcome A * S)) : option (outcome A * T) := '(r, s) ← m; Some (r, put s).

(** [for (x : l)] with a body that may throw. *)
Fixpoint each {A S} (l : list A) (f : A -> S -> option (outcome unit * S)) (s : S) : option (outcome unit * S) :=
  match l with [] => Some (Returned tt, s) | x :: l => and_then (f x s) (fun _ s => each l f s) end.

Definition get_vertex_label_id (sch : Schema) (label : string) : option (outcome Z) :=
  match get_index (vlabel_indexer sch) label 0 with
  | None => Some Thrown
  | Some ret =>
      t ← vget (vlabel_tomb sch) ret;
      Some (if (t : bool) then Thrown else Returned ret)
  end.

Definition generate_edge_label (src dst edge : Z) : Z :=
  let ret := Z.lor 0 src in
  let ret := Z.lor (to_u32 (Z.shiftl ret 8)) dst in
  Z.lor (to_u32 (Z.shiftl ret 8)) edge.

Definition parse_edge_label (edge_label : Z) : Z * Z * Z :=
  let edge := Z.land edge_label 255 in
  let edge_label := Z.shiftr edge_label 8 in
  let dst := Z.land edge_label 255 in
  let edge_label := Z.shiftr edge_label 8 in
  let src := Z.land edge_label 255 in
  (src, dst, edge).

Definition DeleteVertexLabel (sch : Schema) (v_label_id : Z) : option Schema :=
  tomb ← vset (vlabel_tomb sch) v_label_id true;
  Some {| vlabel_indexer := vlabel_indexer sch; vlabel_tomb := tomb; e_schemas := e_schemas sch |}.

(** ** StorageReadInterface *)

Record StorageReadInterface := {
  schema : Schema;
  GetVertexSet_size : Z -> Z;                  (* GetVertexSet(label).size() *)
  IsValidVertex : Z -> Z -> bool;              (* label, vid *)
  get_edges : Z -> Z -> Z -> Z -> list Z;      (* src, dst, edge label; source vid *)
  int64_column : Z -> string -> option (Z -> Z);
  string_column : Z -> string -> option (Z -> string)
}.

(** What the store promises: sizes and neighbour ids are [vid_t] values. *)
Record store_ok (g : StorageReadInterface) : Prop := {
  so_size L : 0 <= GetVertexSet_size g L < 2 ^ 32;
  so_edges s d e v x : x ∈ get_edges g s d e v -> 0 <= x < 2 ^ 32
}.

Lemma wp_and_then {A B S} (m : option (outcome A * S)) (f : A -> S -> option (outcome B * S)) (Q : outcome B * S -> Prop) :
  wp m (fun r => exists a, fst r = Returned a /\ wp (f a (snd r)) Q) -> wp (and_then m f) Q.
Proof. unfold and_then. destruct m as [[r s]|]; [|done]. intros (a & Hr & HQ). cbn [fst snd] in Hr, HQ. subst r. exact HQ. Qed.

Lemma wp_through {A S T} (put : S -> T) (m : option (outcome A * S)) (Q : outcome A * T -> Prop) :
  wp m (fun r => Q (fst r, put (snd r))) -> wp (through put m) Q.
Proof. unfold through. destruct m as [[r s]|]; done. Qed.

Lemma wp_each {A S} (P : list A -> S -> Prop) (l : list A) (f : A -> S -> option (outcome unit * S)) (Q : outcome unit * S -> Prop) s :
  P l s -> (forall x l s, P (x :: l) s -> wp (f x s) (fun r => fst r = Returned tt /\ P l (snd r))) -> (forall s, P [] s -> Q (Returned tt, s)) ->
  wp (each l f s) Q.
Proof.
  intros Hs Hf HQ. revert s Hs. induction l as [|x l IH]; intros s Hs; cbn [each]; [by apply wp_ret, HQ|].
  apply wp_and_then. eapply wp_mono; [by apply Hf|]. intros r [Hr HP]. exists tt. split; [done|by apply IH].
Qed.

(** *** The place of a name *)

Lemma get_index_bound names label i j : get_index names label i = Some j -> i <= j < i + vlen names.
Proof.
  revert i. induction names as [|x names IH]; intros i; simpl; [done|].
  unfold vlen in *. simpl. case_decide; [intros [= <-]; lia|]. intros Hj%IH. lia.
Qed.

Lemma vget_cons {A} (x : A) l k : 0 <= k -> vget (x :: l) k = if k =? 0 then Some x else vget l (k - 1).
Proof.
  intros Hk. unfold vget. rewrite (proj2 (Z.ltb_ge k 0)) by lia. destruct (Z.eqb_spec k 0) as [->|]; [done|].
  rewrite (proj2 (Z.ltb_ge _ _)) by lia. replace (Z.to_nat k) with (S (Z.to_nat (k - 1))) by lia. done.
Qed.

Lemma get_index_spec names label i j :
  NoDup names -> (get_index names label i = Some j <-> i <= j /\ vget names (j - i) = Some label).
Proof.
  revert i. induction names as [|x names IH]; intros i Hnd; simpl.
  - unfold vget. rewrite lookup_nil. destruct (_ <? _); naive_solver.
  - apply NoDup_cons in Hnd as [Hx Hnd]. destruct (decide (i <= j)) as [Hij|]; case_decide as Heq.
    + rewrite vget_cons by lia. subst x. destruct (Z.eqb_spec (j - i) 0).
      { assert (j = i) as -> by lia. naive_solver. }
      split; [intros [= ->]; lia|]. intros [_ Hj]. destruct Hx. unfold vget in Hj.
      destruct (_ <? _); [done|]. by eapply list_elem_of_lookup_2.
    + rewrite vget_cons, IH by (done || lia). destruct (Z.eqb_spec (j - i) 0); [naive_solver lia|].
      replace (j - i - 1) with (j - (i + 1)) by lia. naive_solver lia.
    + split; [intros [= ->]; lia|lia].
    + rewrite IH by done. lia.
Qed.

Lemma lor_byte x d : 0 <= x -> 0 <= d < 2 ^ 8 -> Z.lor (Z.shiftl x 8) d = x * 2 ^ 8 + d.
Proof. intros Hx Hd. rewrite Z.lor_comm, lor_low by lia. lia. Qed.

Lemma generate_edge_label_value src dst edge :
  0 <= src < 2 ^ 8 -> 0 <= dst < 2 ^ 8 -> 0 <= edge < 2 ^ 8 ->
  generate_edge_label src dst edge = (src * 2 ^ 8 + dst) * 2 ^ 8 + edge.
Proof.
  intros Hs Hd He. unfold generate_edge_label, to_u32. cbv zeta. rewrite Z.lor_0_l.
  rewrite (Z.mod_small (Z.shiftl src 8)) by (rewrite Z.shiftl_mul_pow2 by lia; lia).
  rewrite lor_byte by lia.
  rewrite Z.mod_small by (rewrite Z.shiftl_mul_pow2 by lia; lia).
  by rewrite lor_byte by lia.
Qed.

Lemma byte_split a b : 0 <= a -> 0 <= b < 2 ^ 8 ->
  Z.land (a * 2 ^ 8 + b) 255 = b /\ Z.shiftr (a * 2 ^ 8 + b) 8 = a.
Proof.
  intros Ha Hb. change 255 with (Z.ones 8).
  rewrite Z.land_ones, Z.shiftr_div_pow2 by lia. split.
  - rewrite Z.add_comm, Z_mod_plus_full. by apply Z.mod_small.
  - rewrite Z.div_add_l, Z.div_small by lia. lia.
Qed.

Lemma parse_generate src dst edge :
  0 <= src < 2 ^ 8 -> 0 <= dst < 2 ^ 8 -> 0 <= edge < 2 ^ 8 ->
  parse_edge_label (generate_edge_label src dst edge) = (src, dst, edge).
Proof.
  intros Hs Hd He. rewrite generate_edge_label_value by done. unfold parse_edge_label. cbv zeta.
  destruct (byte_split (src * 2 ^ 8 + dst) edge) as [-> ->]; [lia..|].
  destruct (byte_split src dst) as [-> ->]; [lia..|].
  change 255 with (Z.ones 8). rewrite Z.land_ones, Z.mod_small by lia. done.
Qed.

(** A schema is tight when no vertex label is deleted. *)
Definition no_tombs (sch : Schema) : Prop :=
  length (vlabel_tomb sch) = length (vlabel_indexer sch) /\ Forall (fun b => b = false) (vlabel_tomb sch) /\
  vlen (vlabel_indexer sch) < 2 ^ 8.
