(* ===== verification/Temporal.v ===== *)
(** * Dates, date-times and intervals

    [Date], [DateTime] and [Interval] (include/neug/utils/property/types.h,
    src/utils/property/types.cc), with the conversion of the calendar library
    in third_party/HowardHinnant.  The conversion from day numbers is the branch
    compiled without [ENABLE_CHRONO_YMD].  Signed overflow is [None].  Bit-fields
    are allocated from the lowest bit on. *)
From S2P Require Import Prelude Storage Bitset.
#[local] Open Scope Z_scope.

(** A signed 64-bit result. *)
Definition i64 (z : Z) : option Z :=
  if (- 2 ^ 63 <=? z) && (z <? 2 ^ 63) then Some z else None.

(** ** The calendar library *)

(** The members of [year], [month] and [day] are a [short] and two [unsigned char]. *)
Definition to_i16 (z : Z) : Z := (z + 2 ^ 15) mod 2 ^ 16 - 2 ^ 15.

(** [year_month_day::to_days]; [Z.quot] is integer division in C++. *)
Definition to_days (year month day : Z) : Z :=
  let m := to_u8 month in
  let d := to_u8 day in
  let y := to_i16 year - ind (m <=? 2) in
  let era := Z.quot (if 0 <=? y then y else y - 399) 400 in
  let yoe := to_u32 (y - era * 400) in
  let doy := to_u32 (to_u32 (153 * (if 2 <? m then m - 3 else m + 9) + 2) / 5 + d - 1) in
  let doe := to_u32 (yoe * 365 + yoe / 4 - yoe / 100 + doy) in
  era * 146097 + to_int doe - 719468.

(** ** [Date] *)

Record Date := DayValue { hour : Z; day : Z; month : Z; year : Z }.

(** Assignments to the bit-fields. *)
Definition day_value (y m d h : Z) : Date := DayValue (h mod 2 ^ 5) (d mod 2 ^ 5) (m mod 2 ^ 4) (y mod 2 ^ 18).

Definition to_u32_date (d : Date) : Z :=
  Z.lor (hour d) (Z.lor (Z.shiftl (day d) 5) (Z.lor (Z.shiftl (month d) 10) (Z.shiftl (year d) 14))).
Definition from_u32 (v : Z) : Date :=
  DayValue (Z.land v 31) (Z.land (Z.shiftr v 5) 31) (Z.land (Z.shiftr v 10) 15) (Z.shiftr v 14).

Definition is_leap_year (year : Z) : bool :=
  (Z.rem year 4 =? 0) && (negb (Z.rem year 100 =? 0) || (Z.rem year 400 =? 0)).

Definition NORMAL_DAYS : list Z := [0; 31; 28; 31; 30; 31; 30; 31; 31; 30; 31; 30; 31].
Definition LEAP_DAYS : list Z := [0; 31; 29; 31; 30; 31; 30; 31; 31; 30; 31; 30; 31].
Definition month_day (year month : Z) : option Z :=
  if is_leap_year year then vget LEAP_DAYS month else vget NORMAL_DAYS month.

Definition z2 : Z := 2 ^ 32 - 1468000.
Definition r2_e3 : Z := 536895458.

Definition from_timestamp (ts : Z) : Date :=
  let ts := Z.quot ts 1000 in
  let days_since_epoch := Z.quot ts 86400 in
  let sec_of_day := Z.rem ts 86400 in
  let '(sec_of_day, days_since_epoch) :=
    if sec_of_day <? 0 then (sec_of_day + 86400, days_since_epoch - 1) else (sec_of_day, days_since_epoch) in
  let r0 := days_since_epoch + r2_e3 in
  let n1 := 4 * r0 + 3 in
  let q1 := Z.quot n1 146097 in
  let r1 := Z.quot (Z.rem n1 146097) 4 in
  let n2 := 4 * r1 + 3 in
  let u2 := to_u64 (2939745 * n2) in
  let q2 := to_u32 (u2 / 2 ^ 32) in
  let r2 := u2 mod 2 ^ 32 / 2939745 / 4 in
  let n3 := to_u32 (2141 * r2 + 197913) in
  let q3 := n3 / 2 ^ 16 in
  let r3 := n3 mod 2 ^ 16 / 2141 in
  let y0 := 100 * q1 + q2 in
  let j := 306 <=? r2 in
  let y1 := y0 + ind j in
  let m1 := if j then to_u32 (q3 - 12) else q3 in
  let d1 := r3 + 1 in
  day_value (to_int (y1 + z2)) (to_int m1) (to_int d1) (Z.quot sec_of_day 3600).

Definition to_timestamp (d : Date) : Z :=
  let timestamp := to_days (year d) (month d) (day d) * 86400 + hour d * 3600 in
  timestamp * 1000.

Definition to_num_days (d : Date) : Z := to_int (Z.quot (to_timestamp d) (24 * 60 * 60 * 1000)).
Definition from_num_days (num_days : Z) : Date := from_timestamp (num_days * 24 * 60 * 60 * 1000).

(** ** [Interval] *)

Record Interval := MkInterval { months : Z; days : Z; micros : Z }.

Definition MONTHS_PER_YEAR : Z := 12.
Definition DAYS_PER_MONTH : Z := 30.
Definition MICROS_PER_MSEC : Z := 1000.
Definition MICROS_PER_DAY : Z := 86400000000.
Definition MSEC_PER_DAY : Z := 86400000.

Definition invert (i : Interval) : option Interval :=
  m ← i64 (- micros i); d ← i32 (- days i); o ← i32 (- months i); Some (MkInterval o d m).

(** [normalize(months, days, micros)], whose results are 64-bit. *)
Definition normalize (i : Interval) : Z * Z * Z :=
  let carry_days := Z.quot (micros i) MICROS_PER_DAY in
  let micros := micros i - carry_days * MICROS_PER_DAY in
  let days := days i + carry_days in
  let carry_months := Z.quot days DAYS_PER_MONTH in
  let days := days - carry_months * DAYS_PER_MONTH in
  (months i + carry_months, days, micros).

Definition borrow (msf lsf scale : Z) : Z * Z :=
  if INT_MAX <? msf then (INT_MAX, lsf + (msf - INT_MAX) * scale)
  else if msf <? INT_MIN then (INT_MIN, lsf + (msf - INT_MIN) * scale)
  else (msf, lsf).

(** [normalize()]. *)
Definition normalized (i : Interval) : Interval :=
  let '(mm, dd, mi) := normalize i in
  let '(months, dd) := borrow mm dd DAYS_PER_MONTH in
  let '(days, mi) := borrow dd mi MICROS_PER_DAY in
  MkInterval months days mi.

Definition interval_eqb (l r : Interval) : bool :=
  if (months l =? months r) && (days l =? days r) && (micros l =? micros r) then true
  else
    let '(lmonths, ldays, lmicros) := normalize l in
    let '(rmonths, rdays, rmicros) := normalize r in
    (lmonths =? rmonths) && (ldays =? rdays) && (lmicros =? rmicros).

Definition interval_gtb (l r : Interval) : bool :=
  let '(lmonths, ldays, lmicros) := normalize l in
  let '(rmonths, rdays, rmicros) := normalize r in
  if rmonths <? lmonths then true
  else if lmonths <? rmonths then false
  else if rdays <? ldays then true
  else if ldays <? rdays then false
  else rmicros <? lmicros.

Definition interval_ltb (l r : Interval) : bool := interval_gtb r l.

Definition from_mill_seconds (mill_seconds : Z) : option Interval :=
  m ← i64 (mill_seconds * MICROS_PER_MSEC); Some (MkInterval 0 0 m).

Definition to_mill_seconds (i : Interval) : Z :=
  Z.quot (micros i) MICROS_PER_MSEC + days i * Z.quot MICROS_PER_DAY MICROS_PER_MSEC.

(** ** Arithmetic *)

(** The year and month after adding months, before the clamping of the day. *)
Definition add_months (year month n : Z) : Z * Z :=
  let year_diff := Z.quot n MONTHS_PER_YEAR in
  let year := year + year_diff in
  let month := month + (n - year_diff * MONTHS_PER_YEAR) in
  if MONTHS_PER_YEAR <? month then (year + 1, month - MONTHS_PER_YEAR)
  else if month <=? 0 then (year - 1, month + MONTHS_PER_YEAR)
  else (year, month).

Definition date_add (d : Date) (i : Interval) : option (outcome Date) :=
  '(y, m, dd) ←
    (if months i =? 0 then Some (year d, month d, day d)
     else
       let '(y, m) := add_months (year d) (month d) (months i) in
       last ← month_day y m;
       Some (y, m, if last <? day d then last else day d));
  let new_date := day_value y m dd 0 in
  let n := to_num_days new_date in
  let n := if days i =? 0 then n else n + days i in
  let n := if micros i =? 0 then n else n + to_int (Z.quot (micros i) MICROS_PER_DAY) in
  let n := if (micros i <? 0) && negb (Z.rem (micros i) MICROS_PER_DAY =? 0) then n - 1 else n in
  if INT_MAX <? n then Some Thrown else Some (Returned (from_num_days (to_int n))).

Definition date_sub (d : Date) (i : Interval) : option (outcome Date) := i ← invert i; date_add d i.

(** [operator-(const Date&)]. *)
Definition date_diff (l r : Date) : option Interval := from_mill_seconds (to_timestamp l - to_timestamp r).

(** [DateTime] is its [milli_second]. *)
Definition months_delta (milli_second months : Z) : option (outcome Z) :=
  let ds := to_int (Z.quot milli_second MSEC_PER_DAY) in
  date ← date_add (from_num_days ds) (MkInterval months 0 0);
  match date with
  | Thrown => Some Thrown
  | Returned date => diff ← i32 (to_num_days date - ds); Some (Returned (diff * MSEC_PER_DAY))
  end.

Definition datetime_add (milli_second : Z) (i : Interval) : option (outcome Z) :=
  delta ← (if months i =? 0 then Some (Returned 0) else months_delta milli_second (months i));
  match delta with
  | Thrown => Some Thrown
  | Returned delta =>
      let delta := if days i =? 0 then delta else delta + days i * MSEC_PER_DAY in
      let delta := if micros i =? 0 then delta else delta + Z.quot (micros i) MICROS_PER_MSEC in
      t ← i64 (milli_second + delta); Some (Returned t)
  end.

Definition datetime_sub (milli_second : Z) (i : Interval) : option (outcome Z) := i ← invert i; datetime_add milli_second i.
Definition datetime_diff (l r : Z) : option Interval := d ← i64 (l - r); from_mill_seconds d.
