(* ===== verification/TemporalTheorems.v ===== *)
(** * The calendar and the arithmetic of dates

    Day numbers and dates are inverse to each other and count days by the
    Gregorian rule; adding intervals to dates and date-times; the order of
    intervals. *)
From S2P Require Import Prelude Storage Bitset Temporal.
#[local] Open Scope Z_scope.

(** [lia] reads division and remainder by constants. *)
#[local] Ltac Zify.zify_post_hook ::= Z.to_euclidean_division_equations.

(** ** Day numbers

    A year that starts in March, and the day in it. *)
Definition year_start (y : Z) : Z := 365 * y + y / 4 - y / 100 + y / 400 - 719468.
Definition march_doy (m d : Z) : Z := (153 * (if 2 <? m then m - 3 else m + 9) + 2) / 5 + d - 1.
Definition march_year (y m : Z) : Z := y - ind (m <=? 2).

(** The month and day that [from_timestamp] gives the [r2]-th day. *)
Definition month_of (r2 : Z) : Z * Z :=
  let n3 := to_u32 (2141 * r2 + 197913) in
  (if 306 <=? r2 then to_u32 (n3 / 2 ^ 16 - 12) else n3 / 2 ^ 16, n3 mod 2 ^ 16 / 2141 + 1).

Definition leap (y : Z) : Prop := y mod 4 = 0 /\ (y mod 100 <> 0 \/ y mod 400 = 0).

Lemma is_leap_year_iff y : 0 <= y -> is_leap_year y = true <-> leap y.
Proof.
  intros Hy. unfold is_leap_year, leap. rewrite !Z.rem_mod_nonneg by lia.
  rewrite andb_true_iff, orb_true_iff, negb_true_iff, !Z.eqb_eq, Z.eqb_neq. done.
Qed.

(** What the tables have to say about the days of a year. *)
Lemma month_of_table : forall r, 0 <= r <= 365 ->
  1 <= fst (month_of r) <= 12 /\ 1 <= snd (month_of r) /\ march_doy (fst (month_of r)) (snd (month_of r)) = r /\
  (fst (month_of r) <=? 2) = (306 <=? r) /\ snd (month_of r) <= vat LEAP_DAYS (fst (month_of r)) /\
  (r < 365 -> snd (month_of r) <= vat NORMAL_DAYS (fst (month_of r))).
Proof.
  assert (Forall (fun r => 1 <= fst (month_of r) <= 12 /\ 1 <= snd (month_of r) /\ march_doy (fst (month_of r)) (snd (month_of r)) = r /\
    (fst (month_of r) <=? 2) = (306 <=? r) /\ snd (month_of r) <= vat LEAP_DAYS (fst (month_of r)) /\
    (365 <= r \/ snd (month_of r) <= vat NORMAL_DAYS (fst (month_of r)))) (seqZ 0 366)) as Hall by (apply (bool_decide_unpack _); vm_compute; done).
  intros r Hr. rewrite Forall_forall in Hall. destruct (Hall r) as (H1 & H2 & H3 & H4 & H5 & H6); [apply elem_of_seqZ; lia|].
  split_and!; try done; lia.
Qed.

Lemma month_table : forall m d, 1 <= m <= 12 -> 1 <= d <= vat LEAP_DAYS m ->
  0 <= march_doy m d <= 365 /\ month_of (march_doy m d) = (m, d) /\ (march_doy m d = 365 <-> m = 2 /\ d = 29).
Proof.
  assert (Forall (fun m => Forall (fun d => 0 <= march_doy m d <= 365 /\ month_of (march_doy m d) = (m, d) /\ 
    (march_doy m d = 365 <-> m = 2 /\ d = 29)) (seqZ 1 (vat LEAP_DAYS m))) (seqZ 1 12)) as Hall by (apply (bool_decide_unpack _); vm_compute; done).
  intros m d Hm Hd. rewrite Forall_forall in Hall. specialize (Hall m ltac:(apply elem_of_seqZ; lia)). rewrite Forall_forall in Hall.
  apply Hall. apply elem_of_seqZ. lia.
Qed.

Lemma LEAP_DAYS_table : forall m, 1 <= m <= 12 ->
  vget LEAP_DAYS m = Some (vat LEAP_DAYS m) /\ vget NORMAL_DAYS m = Some (vat NORMAL_DAYS m) /\
  28 <= vat NORMAL_DAYS m <= vat LEAP_DAYS m /\ vat LEAP_DAYS m <= 31 /\ vat LEAP_DAYS m = vat NORMAL_DAYS m + ind (m =? 2).
Proof.
  assert (Forall (fun m => vget LEAP_DAYS m = Some (vat LEAP_DAYS m) /\ vget NORMAL_DAYS m = Some (vat NORMAL_DAYS m) /\
    28 <= vat NORMAL_DAYS m <= vat LEAP_DAYS m /\ vat LEAP_DAYS m <= 31 /\ vat LEAP_DAYS m = vat NORMAL_DAYS m + ind (m =? 2)) (seqZ 1 12)) as Hall
    by (apply (bool_decide_unpack _); vm_compute; done).
  intros m Hm. rewrite Forall_forall in Hall. apply Hall. apply elem_of_seqZ. lia.
Qed.

(** A date of the calendar, of a year that fits the calendar library's [short]. *)
Record valid_ymd (y m d : Z) : Prop := {
  vd_year : 0 <= y <= 32767;
  vd_month : 1 <= m <= 12;
  vd_day : 1 <= d /\ (exists last, month_day y m = Some last /\ d <= last)
}.

Lemma month_day_total y m : 0 <= y -> 1 <= m <= 12 -> exists last, month_day y m = Some last /\ 28 <= last <= 31 /\
  last <= vat LEAP_DAYS m /\ (last = 29 /\ m = 2 <-> leap y /\ m = 2) /\ (m <> 2 -> last = vat LEAP_DAYS m).
Proof.
  intros Hy Hm. destruct (LEAP_DAYS_table m Hm) as (Hl & Hn & Hle & H31 & He). unfold month_day. rewrite Hl, Hn.
  pose proof (is_leap_year_iff y Hy) as Hlp. destruct (is_leap_year y).
  - eexists. split; [done|]. split_and!; try lia. split; intros [? ->]; [naive_solver|]. split; [|done]. by compute.
  - eexists. split; [done|]. split_and!; try lia; [|intros; destruct (Z.eqb_spec m 2); simpl in He; lia].
    split; intros [H1 ->]; [|naive_solver]. exfalso. revert H1. by compute.
Qed.

Lemma to_days_eq y m d : 0 <= y <= 32767 -> 1 <= m <= 12 -> 1 <= d <= 31 ->
  to_days y m d = year_start (march_year y m) + march_doy m d.
Proof.
  intros Hy Hm Hd. unfold to_days, year_start, march_year, march_doy.
  assert (to_u8 m = m) as -> by (apply Z.mod_small; lia). assert (to_u8 d = d) as -> by (apply Z.mod_small; lia).
  assert (to_i16 y = y) as -> by (unfold to_i16; rewrite Z.mod_small; lia).
  pose proof (ind_range (m <=? 2)) as Hi. set (y' := y - ind (m <=? 2)) in *.
  assert (Z.quot (if 0 <=? y' then y' else y' - 399) 400 = y' / 400) as ->.
  { destruct (Z.leb_spec 0 y'); [apply Z.quot_div_nonneg; lia|]. by assert (y' = -1) as -> by (subst y'; lia). }
  set (k := if 2 <? m then m - 3 else m + 9). assert (0 <= k <= 11) by (subst k; destruct (Z.ltb_spec 2 m); lia).
  pose proof (Z.div_mod y' 400 ltac:(done)) as Hdm. pose proof (Z.mod_pos_bound y' 400 ltac:(done)) as Hr.
  set (e := y' / 400) in *. set (r := y' mod 400) in *. replace (y' - e * 400) with r by lia. clearbody e r k y'.
  assert (y' / 4 = 100 * e + r / 4) as -> by lia. assert (y' / 100 = 4 * e + r / 100) as -> by lia.
  assert (0 <= r / 4 <= 99 /\ 0 <= r / 100 <= 3 /\ 0 <= (153 * k + 2) / 5 <= 337) as (H4 & H100 & Hk) by lia.
  rewrite (to_u32_small r), (to_u32_small (153 * k + 2)) by lia.
  rewrite (to_u32_small (_ / 5 + d - 1)) by lia. rewrite to_u32_small by lia.
  rewrite to_int_small by (unfold INT_MIN, INT_MAX; lia). lia.
Qed.

(** The first day of the years. *)
Lemma year_start_succ y : 0 <= y + 1 -> year_start (y + 1) = year_start y + 365 + ind (is_leap_year (y + 1)).
Proof.
  intros Hy. pose proof (is_leap_year_iff (y + 1) Hy) as Hl. unfold year_start, leap in *.
  destruct (is_leap_year (y + 1)); simpl; lia.
Qed.

Lemma year_start_mono y y' : y < y' -> year_start (y + 1) <= year_start y'.
Proof. unfold year_start. lia. Qed.

(** A day number determines year and day: the 365th day exists only before the
    end of a leap year's February. *)
Lemma year_start_unique y r y' r' : 0 <= y + 1 -> 0 <= y' + 1 -> 0 <= r <= 365 -> 0 <= r' <= 365 ->
  (r = 365 -> is_leap_year (y + 1) = true) -> (r' = 365 -> is_leap_year (y' + 1) = true) ->
  year_start y + r = year_start y' + r' -> y = y' /\ r = r'.
Proof.
  intros Hy Hy' Hr Hr' Hl Hl' He. pose proof (year_start_succ y Hy) as Hs. pose proof (year_start_succ y' Hy') as Hs'.
  destruct (Z.lt_trichotomy y y') as [Hlt|[->|Hlt]]; [|lia|].
  - pose proof (year_start_mono y y' Hlt). destruct (decide (r = 365)) as [E|E]; [rewrite (Hl E) in Hs; simpl in Hs|pose proof (ind_range (is_leap_year (y + 1)))]; lia.
  - pose proof (year_start_mono y' y Hlt). destruct (decide (r' = 365)) as [E|E]; [rewrite (Hl' E) in Hs'; simpl in Hs'|pose proof (ind_range (is_leap_year (y' + 1)))]; lia.
Qed.

(** The day numbers of the years 0 to 32767. *)
Definition MIN_DAY : Z := -719528.
Definition MAX_DAY : Z := 11248737.

(** The century, the year in it and the day of the year by the 32-bit
    multiplication. *)
Lemma century_step r1 : 0 <= r1 <= 36524 -> let u2 := to_u64 (2939745 * (4 * r1 + 3)) in
  to_u32 (u2 / 2 ^ 32) = (4 * r1 + 3) / 1461 /\ u2 mod 2 ^ 32 / 2939745 / 4 = (4 * r1 + 3) mod 1461 / 4.
Proof.
  intros Hr u2. pose proof (Z.div_mod (4 * r1 + 3) 1461 ltac:(done)) as Hdm. pose proof (Z.mod_pos_bound (4 * r1 + 3) 1461 ltac:(done)) as Hb.
  set (a := (4 * r1 + 3) / 1461) in *. set (b := (4 * r1 + 3) mod 1461) in *. clearbody a b.
  assert (u2 = 2 ^ 32 * a + (149 * a + 2939745 * b)) as -> by (unfold u2, to_u64; rewrite Z.mod_small; lia).
  assert (0 <= a <= 100) as Ha by lia.
  assert ((2 ^ 32 * a + (149 * a + 2939745 * b)) / 2 ^ 32 = a) as -> by lia.
  assert ((2 ^ 32 * a + (149 * a + 2939745 * b)) mod 2 ^ 32 = 149 * a + 2939745 * b) as -> by lia.
  rewrite to_u32_small by lia. split; [done|]. assert ((149 * a + 2939745 * b) / 2939745 = b) as -> by lia. done.
Qed.

Lemma day_of_year_range y r : MIN_DAY <= year_start y + r <= MAX_DAY -> 0 <= r <= 365 ->
  -1 <= y <= 32767 /\ 0 <= y + ind (306 <=? r) <= 32767.
Proof.
  unfold MIN_DAY, MAX_DAY. intros Hn Hr.
  assert (year_start (-1) = -719834 /\ year_start 32767 = 11248432 /\ year_start 32768 = 11248798) as (H1 & H2 & H3) by done.
  assert (-1 <= y).
  { destruct (Z.le_gt_cases (-1) y); [done|]. pose proof (year_start_mono y (-1) ltac:(lia)). unfold year_start in *. lia. }
  assert (y <= 32767). { destruct (Z.le_gt_cases y 32767); [done|]. pose proof (year_start_mono 32767 y ltac:(lia)). unfold year_start in *. lia. }
  split; [done|]. pose proof (ind_range (306 <=? r)).
  destruct (decide (y = -1)) as [->|]; [rewrite (proj2 (Z.leb_le 306 r)) by lia; simpl; lia|].
  destruct (decide (y = 32767)) as [->|]; [rewrite (proj2 (Z.leb_gt 306 r)) by lia; simpl; lia|]. lia.
Qed.

Lemma day_value_month_of y r : 0 <= r <= 365 -> 0 <= y + ind (306 <=? r) <= 32767 ->
  let n3 := to_u32 (2141 * r + 197913) in
  day_value (to_int (y + 1468000 + ind (306 <=? r) + z2)) (to_int (if 306 <=? r then to_u32 (n3 / 2 ^ 16 - 12) else n3 / 2 ^ 16))
    (to_int (n3 mod 2 ^ 16 / 2141 + 1)) 0 =
  DayValue 0 (snd (month_of r)) (fst (month_of r)) (y + ind (306 <=? r)).
Proof.
  intros Hr Hy n3. destruct (month_of_table r Hr) as (Hm & Hd & _ & _ & Hl & _). destruct (LEAP_DAYS_table _ Hm) as (_ & _ & _ & H31 & _).
  unfold month_of in Hm, Hd, Hl, H31 |- *. fold n3 in Hm, Hd, Hl, H31 |- *. cbn [fst snd] in *.
  unfold day_value. rewrite !to_int_small by (unfold INT_MIN, INT_MAX; lia).
  f_equal; [apply Z.mod_small; lia|apply Z.mod_small; lia|].
  unfold z2, to_int.
  replace (y + 1468000 + ind (306 <=? r) + (2 ^ 32 - 1468000) + 2 ^ 31) with (y + ind (306 <=? r) + 2 ^ 31 + 1 * 2 ^ 32) by lia.
  rewrite Z.mod_add, (Z.mod_small (_ + 2 ^ 31)) by lia. rewrite Z.mod_small; lia.
Qed.

Lemma from_num_days_eq n : MIN_DAY <= n <= MAX_DAY -> exists y r,
  n = year_start y + r /\ -1 <= y <= 32767 /\ 0 <= r <= 365 /\ (r = 365 -> is_leap_year (y + 1) = true) /\
  y + ind (306 <=? r) <= 32767 /\
  from_num_days n = DayValue 0 (snd (month_of r)) (fst (month_of r)) (y + ind (306 <=? r)).
Proof.
  intros Hn. unfold MIN_DAY, MAX_DAY in Hn. unfold from_num_days, from_timestamp.
  assert (Z.quot (Z.quot (n * 24 * 60 * 60 * 1000) 1000) 86400 = n) as -> by lia.
  assert (Z.rem (Z.quot (n * 24 * 60 * 60 * 1000) 1000) 86400 = 0) as -> by lia. cbn [Z.ltb Z.compare].
  change (Z.quot 0 3600) with 0. unfold r2_e3. set (r0 := n + 536895458).
  assert (Z.quot (4 * r0 + 3) 146097 = (4 * r0 + 3) / 146097) as -> by (apply Z.quot_div_nonneg; lia).
  assert (Z.quot (Z.rem (4 * r0 + 3) 146097) 4 = (4 * r0 + 3) mod 146097 / 4) as -> by lia.
  set (c := (4 * r0 + 3) / 146097). set (r1 := (4 * r0 + 3) mod 146097 / 4).
  assert (0 <= r1 <= 36524) as Hr1 by lia. assert (r0 = 36524 * c + c / 4 + r1) as Hr0 by lia.
  destruct (century_step r1 Hr1) as [-> ->].
  set (a := (4 * r1 + 3) / 1461). set (r := (4 * r1 + 3) mod 1461 / 4).
  assert (0 <= a <= 99 /\ 0 <= r <= 365 /\ r1 = 365 * a + a / 4 + r) as (Ha & Hr & He) by lia.
  assert (r = 365 -> a mod 4 = 3 /\ (a <> 99 \/ c mod 4 = 3)) as Hlast by lia.
  exists (100 * c + a - 1468000), r. clearbody a r. clearbody r1. clearbody c.
  assert (n = 365 * (100 * c + a - 1468000) + (25 * c + a / 4 - 367000) - (c - 14680) + (c / 4 - 3670) - 719468 + r) as Hn' by lia.
  assert (year_start (100 * c + a - 1468000) = 365 * (100 * c + a - 1468000) + (25 * c + a / 4 - 367000) - (c - 14680) + (c / 4 - 3670) - 719468) as Hys
    by (unfold year_start; lia).
  assert (100 * c + a - 1468000 + 1 = 100 * c + (a + 1) - 1468000) as Hy1 by lia.
  destruct (day_of_year_range (100 * c + a - 1468000) r) as [Hy Hy']; [unfold MIN_DAY, MAX_DAY; lia|done|].
  split_and!; try lia.
  - intros E. apply is_leap_year_iff; [lia|]. destruct (Hlast E) as [Ha4 Hc]. unfold leap. rewrite Hy1. lia.
  - rewrite <-day_value_month_of by done. cbv zeta.
    replace (100 * c + a - 1468000 + 1468000) with (100 * c + a) by lia. done.
Qed.

(** ** Dates and day numbers *)

Definition midnight (d : Date) : Prop := hour d = 0.
Definition valid_date (d : Date) : Prop := valid_ymd (year d) (month d) (day d).

Lemma to_num_days_small d : midnight d -> INT_MIN <= to_days (year d) (month d) (day d) <= INT_MAX ->
  to_num_days d = to_days (year d) (month d) (day d).
Proof.
  unfold midnight. intros Hh Hr. unfold to_num_days, to_timestamp. rewrite Hh.
  assert (Z.quot ((to_days (year d) (month d) (day d) * 86400 + 0 * 3600) * 1000) (24 * 60 * 60 * 1000) = to_days (year d) (month d) (day d)) as -> by lia.
  by apply to_int_small.
Qed.

Lemma valid_march d : valid_date d -> let y := march_year (year d) (month d) in let r := march_doy (month d) (day d) in
  to_days (year d) (month d) (day d) = year_start y + r /\ 0 <= r <= 365 /\ (r = 365 -> is_leap_year (y + 1) = true) /\
  -1 <= y <= 32767 /\ y + ind (306 <=? r) = year d /\ month_of r = (month d, day d).
Proof.
  intros [Hy Hm [Hd (last & Hlast & Hle)]]. destruct (month_day_total (year d) (month d) ltac:(lia) Hm) as (last' & Hl & H28 & Hlp & H29 & Hne).
  rewrite Hlast in Hl. injection Hl as <-. destruct (LEAP_DAYS_table _ Hm) as (_ & _ & _ & H31 & _).
  destruct (month_table (month d) (day d) Hm ltac:(lia)) as (Hr & Ho & H365). pose proof (month_of_table _ Hr) as (_ & _ & _ & Hb & _).
  rewrite Ho in Hb. cbn [fst] in Hb. cbv zeta. unfold march_year. pose proof (ind_range (month d <=? 2)) as Hi.
  split_and!; try lia.
  - apply to_days_eq; lia.
  - intros E. apply H365 in E as [Em Ed]. rewrite Em. simpl. rewrite Z.sub_add. apply is_leap_year_iff; [lia|].
    rewrite Em in Hlp. change (vat LEAP_DAYS 2) with 29 in Hlp. apply H29. lia.
  - rewrite <-Hb. lia.
  - done.
Qed.

(** From a day number to its date and back. *)
Lemma to_from_num_days n : MIN_DAY <= n <= MAX_DAY ->
  valid_date (from_num_days n) /\ midnight (from_num_days n) /\ to_num_days (from_num_days n) = n.
Proof.
  intros Hn. destruct (from_num_days_eq n Hn) as (y & r & He & Hy & Hr & Hl & Hy' & ->).
  destruct (month_of_table r Hr) as (Hm & Hd & Hdoy & Hb & Hlp & Hnorm). destruct (LEAP_DAYS_table _ Hm) as (HL & HN & _ & H31 & _).
  set (m := fst (month_of r)) in *. set (d := snd (month_of r)) in *.
  destruct (day_of_year_range y r ltac:(lia) Hr) as [_ Hyr].
  assert (valid_ymd (y + ind (306 <=? r)) m d) as Hv.
  { split; [lia|done|]. split; [done|]. unfold month_day. rewrite HL, HN.
    destruct (is_leap_year (y + ind (306 <=? r))) eqn:E; eexists; (split; [done|]); [done|].
    destruct (decide (r = 365)) as [->|]; [|apply Hnorm; lia]. change (ind (306 <=? 365)) with 1 in E. by rewrite (Hl eq_refl) in E. }
  split; [done|]. split; [done|].
  assert (to_days (y + ind (306 <=? r)) m d = n) as Htd.
  { rewrite to_days_eq by lia. unfold march_year. rewrite Hb, Hdoy, He. f_equal. f_equal. lia. }
  rewrite to_num_days_small; simpl; [done|done|]. rewrite Htd. unfold MIN_DAY, MAX_DAY, INT_MIN, INT_MAX in *. lia.
Qed.

Lemma valid_num_days d : valid_date d -> midnight d ->
  to_num_days d = to_days (year d) (month d) (day d) /\ MIN_DAY <= to_num_days d <= MAX_DAY.
Proof.
  intros Hv Hh. destruct (valid_march d Hv) as (He & Hr & Hl & Hy & Hyr & Ho). pose proof (vd_year _ _ _ Hv) as Hyd.
  assert (MIN_DAY <= to_days (year d) (month d) (day d) <= MAX_DAY) as Hn.
  { rewrite He. unfold MIN_DAY, MAX_DAY. set (y := march_year _ _) in *. set (r := march_doy _ _) in *.
    assert (year_start (-1) = -719834 /\ year_start 0 = -719468 /\ year_start 32767 = 11248432) as (H1 & H2 & H4) by done.
    pose proof (ind_range (306 <=? r)). split.
    - destruct (decide (y = -1)) as [E|]; [|pose proof (year_start_mono (-1) y ltac:(lia)); change (-1 + 1) with 0 in *; lia].
      rewrite E in *. destruct (Z.leb_spec 306 r); simpl in *; lia.
    - destruct (decide (y = 32767)) as [E|]; [|pose proof (year_start_mono y 32767 ltac:(lia)); unfold year_start in *; lia].
      rewrite E in *. destruct (Z.leb_spec 306 r); simpl in *; lia. }
  rewrite to_num_days_small; [done|done|]. unfold MIN_DAY, MAX_DAY, INT_MIN, INT_MAX in *. lia.
Qed.

(** From a date to its number and back. *)
Lemma from_to_num_days d : valid_date d -> midnight d -> from_num_days (to_num_days d) = d.
Proof.
  intros Hv Hh. destruct (valid_num_days d Hv Hh) as [Hd Hn].
  destruct (from_num_days_eq _ Hn) as (y & r & He & Hy & Hr & Hl & Hy' & ->).
  destruct (valid_march d Hv) as (He' & Hr' & Hl' & Hyd & Hyr & Ho). rewrite Hd, He' in He.
  apply year_start_unique in He as [<- <-]; try done; try lia. rewrite Ho, Hyr. unfold midnight in Hh. simpl. by destruct d; simpl in *; subst.
Qed.

(** The day after [d] in the calendar. *)
Definition next_day (d : Date) : Date :=
  if bool_decide (month_day (year d) (month d) = Some (day d)) then
    if month d =? 12 then DayValue 0 1 1 (year d + 1) else DayValue 0 1 (month d + 1) (year d)
  else DayValue 0 (day d + 1) (month d) (year d).

Lemma year_month_day y m d : 0 <= y <= 32767 -> 1 <= m <= 12 -> 1 <= d -> (exists last, month_day y m = Some last /\ d <= last) ->
  valid_date (DayValue 0 d m y).
Proof. by split. Qed.

Lemma march_doy_next m last : 1 <= m <= 11 -> m <> 2 -> last = vat LEAP_DAYS m -> march_doy (m + 1) 1 = march_doy m last + 1.
Proof.
  intros Hm Hne ->. assert (Forall (fun m => m = 2 \/ march_doy (m + 1) 1 = march_doy m (vat LEAP_DAYS m) + 1) (seqZ 1 11)) as Hall
    by (apply (bool_decide_unpack _); vm_compute; done).
  rewrite Forall_forall in Hall. destruct (Hall m); [apply elem_of_seqZ; lia|done|done].
Qed.

Lemma next_day_spec d : valid_date d -> midnight d -> to_num_days d < MAX_DAY ->
  valid_date (next_day d) /\ midnight (next_day d) /\ to_num_days (next_day d) = to_num_days d + 1.
Proof.
  intros Hv Hh Hlt. destruct (valid_num_days d Hv Hh) as [Hn _]. pose proof Hv as [Hy Hm [Hd (last & Hlast & Hle)]].
  destruct (month_day_total (year d) (month d) ltac:(lia) Hm) as (last' & Hl & H28 & Hlp & H29 & Hne). rewrite Hlast in Hl. injection Hl as <-.
  rewrite Hn in Hlt |- *. rewrite to_days_eq in Hlt |- * by lia.
  cut (valid_date (next_day d) /\ to_days (year (next_day d)) (month (next_day d)) (day (next_day d)) =
    year_start (march_year (year d) (month d)) + march_doy (month d) (day d) + 1).
  { intros [Hv' He]. assert (midnight (next_day d)) as Hh'.
    { unfold next_day. case_bool_decide; [destruct (_ =? _)|]; done. }
    destruct (valid_num_days _ Hv' Hh') as [Hn' _]. split_and!; [done|done|]. by rewrite Hn', He. }
  unfold next_day. rewrite Hlast. case_bool_decide as E.
  - injection E as E. destruct (Z.eqb_spec (month d) 12) as [Em|Em].
    + assert (day d = 31) as Ed by (rewrite <-E, Hne by lia; by rewrite Em). rewrite Em, Ed in *.
      assert (year d <> 32767) by (intros E32; rewrite E32 in Hlt; done).
      split; [apply year_month_day; try lia; exists 31; split; [unfold month_day; by destruct (is_leap_year _)|done]|]. simpl.
      rewrite to_days_eq by lia. unfold march_year. simpl. replace (year d + 1 - 1) with (year d - 0) by lia.
      change (march_doy 1 1) with (march_doy 12 31 + 1). lia.
    + destruct (month_day_total (year d) (month d + 1) ltac:(lia) ltac:(lia)) as (next & Hnext & H28' & _).
      split; [apply year_month_day; try lia; exists next; split; [done|lia]|]. simpl. rewrite to_days_eq by lia.
      destruct (decide (month d = 2)) as [E2|E2].
      * rewrite E2 in *. change (march_doy (2 + 1) 1) with 0. unfold march_year. simpl. rewrite <-E.
        pose proof (year_start_succ (year d - 1) ltac:(lia)) as Hs. rewrite Z.sub_add in Hs. rewrite Z.sub_0_r, Hs.
        pose proof (is_leap_year_iff (year d) ltac:(lia)) as Hlp2. unfold month_day in Hlast.
        destruct (is_leap_year (year d)); simpl; injection Hlast as <-; change (march_doy 2 29) with 365; change (march_doy 2 28) with 364; lia.
      * rewrite <-E, (march_doy_next _ last) by (lia || done || by apply Hne). unfold march_year.
        assert ((month d + 1 <=? 2) = (month d <=? 2)) as -> by (destruct (Z.leb_spec (month d) 2), (Z.leb_spec (month d + 1) 2); lia || done). lia.
  - assert (day d <> last) by congruence. split; [apply year_month_day; try lia; exists last; split; [done|lia]|]. simpl.
    rewrite to_days_eq by lia. unfold march_doy. lia.
Qed.

(** ** The packed representation *)

Record fields_fit (d : Date) : Prop := {
  ff_hour : 0 <= hour d < 32;
  ff_day : 0 <= day d < 32;
  ff_month : 0 <= month d < 16;
  ff_year : 0 <= year d < 2 ^ 18
}.

Lemma to_u32_date_sum d : fields_fit d -> to_u32_date d = hour d + 32 * day d + 1024 * month d + 16384 * year d.
Proof.
  intros [Hh Hd Hm Hy]. unfold to_u32_date.
  assert (Z.lor (Z.shiftl (month d) 10) (Z.shiftl (year d) 14) = Z.shiftl (Z.lor (month d) (Z.shiftl (year d) 4)) 10) as ->
    by (rewrite Z.shiftl_lor, Z.shiftl_shiftl by lia; done).
  assert (forall x, Z.lor (Z.shiftl (day d) 5) (Z.shiftl x 10) = Z.shiftl (Z.lor (day d) (Z.shiftl x 5)) 5) as ->
    by (intros x; rewrite Z.shiftl_lor, Z.shiftl_shiftl by lia; done).
  rewrite !lor_low by (simpl; lia). lia.
Qed.

Lemma from_to_u32 d : fields_fit d -> from_u32 (to_u32_date d) = d /\ 0 <= to_u32_date d < 2 ^ 32.
Proof.
  intros Hf. rewrite to_u32_date_sum by done. destruct Hf as [Hfh Hfd Hfm Hfy]. unfold from_u32.
  change 31 with (Z.ones 5). change 15 with (Z.ones 4). rewrite !Z.land_ones, !Z.shiftr_div_pow2 by lia.
  destruct d as [h d m y]. simpl in *. split; [f_equal; lia|lia].
Qed.

Lemma valid_fields d : valid_date d -> 0 <= hour d < 24 -> fields_fit d.
Proof.
  intros [Hy Hm [Hd (last & Hl & Hle)]] Hh. destruct (month_day_total (year d) (month d) ltac:(lia) Hm) as (last' & Hl' & H28 & _).
  rewrite Hl in Hl'. injection Hl' as <-. split; lia.
Qed.

Definition at_midnight (d : Date) : Date := DayValue 0 (day d) (month d) (year d).

Lemma to_u32_date_hour d : fields_fit d -> to_u32_date d = to_u32_date (at_midnight d) + hour d.
Proof. intros Hf. rewrite !to_u32_date_sum by (destruct Hf; split; simpl; lia). simpl. lia. Qed.

(** The packed dates increase from day to day. *)
Lemma next_day_packed d : valid_date d -> midnight d -> to_num_days d < MAX_DAY -> to_u32_date d + 32 <= to_u32_date (next_day d).
Proof.
  intros Hv Hh Hlt. destruct (next_day_spec d Hv Hh Hlt) as (Hv' & Hh' & _). unfold midnight in *.
  rewrite !to_u32_date_sum by (apply valid_fields; [done|lia]). pose proof (vd_month _ _ _ Hv). pose proof (ff_day _ (valid_fields d Hv ltac:(lia))).
  unfold next_day in *. case_bool_decide; [destruct (Z.eqb_spec (month d) 12)|]; simpl in *; lia.
Qed.

Lemma packed_mono k n : MIN_DAY <= n -> n + 1 + Z.of_nat k <= MAX_DAY ->
  to_u32_date (from_num_days n) + 32 <= to_u32_date (from_num_days (n + 1 + Z.of_nat k)).
Proof.
  intros Hn. induction k as [|k IH]; intros Hk.
  - rewrite Z.add_0_r. destruct (to_from_num_days n ltac:(lia)) as (Hv & Hh & He).
    destruct (next_day_spec _ Hv Hh ltac:(lia)) as (Hv' & Hh' & He'). rewrite He in He'. rewrite <-He', from_to_num_days by done.
    apply next_day_packed; [done|done|lia].
  - specialize (IH ltac:(lia)). replace (n + 1 + Z.of_nat (S k)) with (n + 1 + Z.of_nat k + 1) by lia.
    set (p := n + 1 + Z.of_nat k) in *. destruct (to_from_num_days p ltac:(lia)) as (Hv & Hh & He).
    destruct (next_day_spec _ Hv Hh ltac:(lia)) as (Hv' & Hh' & He'). rewrite He in He'. rewrite <-He', from_to_num_days by done.
    pose proof (next_day_packed _ Hv Hh ltac:(lia)). lia.
Qed.

Lemma packed_lt n m : MIN_DAY <= n -> n < m -> m <= MAX_DAY -> to_u32_date (from_num_days n) + 32 <= to_u32_date (from_num_days m).
Proof.
  intros Hn Hlt Hm. pose proof (packed_mono (Z.to_nat (m - n - 1)) n Hn) as Hp.
  rewrite Z2Nat.id in Hp by lia. replace (n + 1 + (m - n - 1)) with m in Hp by lia. apply Hp. lia.
Qed.

Lemma to_timestamp_hours d : valid_date d -> 0 <= hour d < 24 ->
  to_timestamp d = to_num_days (at_midnight d) * 86400000 + hour d * 3600000 /\
  to_u32_date d = to_u32_date (from_num_days (to_num_days (at_midnight d))) + hour d /\
  MIN_DAY <= to_num_days (at_midnight d) <= MAX_DAY.
Proof.
  intros Hv Hh. assert (valid_date (at_midnight d)) as Hv' by done. assert (midnight (at_midnight d)) as Hm by done.
  destruct (valid_num_days _ Hv' Hm) as [Hn Hr]. rewrite from_to_num_days by done. split_and!; [|by apply to_u32_date_hour, valid_fields|lia|lia].
  rewrite Hn. unfold to_timestamp. simpl. lia.
Qed.

(** ** Adding to dates *)

Lemma add_months_spec y m n : 1 <= m <= 12 ->
  add_months y m n = ((12 * y + (m - 1) + n) / 12, (12 * y + (m - 1) + n) mod 12 + 1).
Proof.
  intros Hm. unfold add_months, MONTHS_PER_YEAR. destruct (Z.ltb_spec 12 (m + (n - Z.quot n 12 * 12))).
  - f_equal; lia.
  - destruct (Z.leb_spec (m + (n - Z.quot n 12 * 12)) 0); f_equal; lia.
Qed.

(** The date [n] months later, in the last day of a shorter month. *)
Definition months_later (d : Date) (n : Z) : Date :=
  let k := 12 * year d + (month d - 1) + n in
  let last := default 0 (month_day (k / 12) (k mod 12 + 1)) in
  DayValue 0 (Z.min (day d) last) (k mod 12 + 1) (k / 12).

Lemma months_later_valid d n : valid_date d -> 0 <= year (months_later d n) <= 32767 -> valid_date (months_later d n).
Proof.
  intros Hv Hy. unfold months_later in *. simpl in *. set (k := 12 * year d + (month d - 1) + n) in *.
  destruct (month_day_total (k / 12) (k mod 12 + 1) ltac:(lia) ltac:(lia)) as (last & Hl & H28 & _). rewrite Hl. simpl.
  destruct (vd_day _ _ _ Hv) as [Hd _]. apply year_month_day; [lia|lia|lia|]. exists last. split; [done|lia].
Qed.

(** [operator+] of a date: months first, then days and whole days of the
    microseconds, rounded down. *)
Lemma date_add_eq d i : valid_date d -> - 2 ^ 63 <= micros i < 2 ^ 63 -> 0 <= year (months_later d (months i)) <= 32767 ->
  let n := to_num_days (months_later d (months i)) + days i + micros i / MICROS_PER_DAY in
  date_add d i = Some (if INT_MAX <? n then Thrown else Returned (from_num_days (to_int n))).
Proof.
  intros Hv Hmi Hy n. pose proof (months_later_valid d (months i) Hv Hy) as Hv'. pose proof (vd_month _ _ _ Hv) as Hm.
  assert (forall y m dd, DayValue 0 dd m y = months_later d (months i) -> day_value y m dd 0 = months_later d (months i)) as Hday.
  { intros y m dd Heq. rewrite <-Heq in *. pose proof (valid_fields _ Hv' ltac:(simpl; lia)) as [_ Hfd Hfm Hfy]. simpl in *.
    unfold day_value. rewrite !Z.mod_small by lia. done. }
  assert (exists y m dd, (if months i =? 0 then Some (year d, month d, day d)
     else let '(y, m) := add_months (year d) (month d) (months i) in
       last ← month_day y m; Some (y, m, if last <? day d then last else day d)) = Some (y, m, dd) /\
     DayValue 0 dd m y = months_later d (months i)) as (y & m & dd & Hmon & Heq).
  { unfold months_later in *. set (k := 12 * year d + (month d - 1) + months i) in *. simpl in Hy.
    destruct (month_day_total (k / 12) (k mod 12 + 1) ltac:(lia) ltac:(lia)) as (last & Hl & _). rewrite Hl in *. simpl.
    destruct (Z.eqb_spec (months i) 0) as [E|E].
    - assert (k / 12 = year d /\ k mod 12 + 1 = month d) as [Hk1 Hk2] by lia. rewrite Hk1, Hk2 in *.
      destruct (vd_day _ _ _ Hv) as [_ (last' & Hl' & Hle)]. rewrite Hl in Hl'. injection Hl' as <-.
      eexists _, _, _. split; [done|]. by rewrite Z.min_l.
    - rewrite add_months_spec by done. fold k. rewrite Hl. cbn [mbind option_bind]. eexists _, _, _. split; [done|]. f_equal.
      destruct (Z.ltb_spec last (day d)); lia. }
  unfold date_add. rewrite Hmon. cbn [mbind option_bind]. rewrite (Hday _ _ _ Heq).
  set (n0 := to_num_days (months_later d (months i))) in *.
  assert ((if days i =? 0 then n0 else n0 + days i) = n0 + days i) as -> by (destruct (Z.eqb_spec (days i) 0); lia).
  assert ((if micros i =? 0 then n0 + days i else n0 + days i + to_int (Z.quot (micros i) MICROS_PER_DAY)) =
    n0 + days i + Z.quot (micros i) MICROS_PER_DAY) as ->.
  { unfold MICROS_PER_DAY. destruct (Z.eqb_spec (micros i) 0) as [->|]; [change (Z.quot 0 _) with 0; lia|].
    rewrite to_int_small; [done|]. unfold INT_MIN, INT_MAX. lia. }
  assert ((if (micros i <? 0) && negb (Z.rem (micros i) MICROS_PER_DAY =? 0) then n0 + days i + Z.quot (micros i) MICROS_PER_DAY - 1
    else n0 + days i + Z.quot (micros i) MICROS_PER_DAY) = n) as ->.
  { unfold n, MICROS_PER_DAY. destruct (Z.ltb_spec (micros i) 0), (Z.eqb_spec (Z.rem (micros i) 86400000000) 0); simpl; lia. }
  by destruct (INT_MAX <? n).
Qed.

(** ** Intervals *)

(** The length with months of thirty days, in microseconds. *)
Definition total_micros (i : Interval) : Z := (months i * DAYS_PER_MONTH + days i) * MICROS_PER_DAY + micros i.
Definition triple_total (t : Z * Z * Z) : Z := let '(mo, d, mi) := t in (mo * DAYS_PER_MONTH + d) * MICROS_PER_DAY + mi.

Lemma normalize_total i : triple_total (normalize i) = total_micros i.
Proof. unfold triple_total, normalize, total_micros, DAYS_PER_MONTH, MICROS_PER_DAY. lia. Qed.

Definition forward (i : Interval) : Prop := 0 <= months i /\ 0 <= days i /\ 0 <= micros i.

Lemma normalize_forward i : forward i -> let '(mo, d, mi) := normalize i in 0 <= d < 30 /\ 0 <= mi < MICROS_PER_DAY.
Proof. intros (H1 & H2 & H3). unfold normalize, DAYS_PER_MONTH, MICROS_PER_DAY in *. lia. Qed.

Lemma interval_eqb_iff l r : interval_eqb l r = true <-> normalize l = normalize r.
Proof.
  unfold interval_eqb. destruct (_ && _) eqn:E.
  - split; [intros _|done]. rewrite !andb_true_iff, !Z.eqb_eq in E. destruct E as [[E1 E2] E3]. unfold normalize. by rewrite E1, E2, E3.
  - destruct (normalize l) as [[? ?] ?], (normalize r) as [[? ?] ?]. rewrite !andb_true_iff, !Z.eqb_eq. split; [by intros [[-> ->] ->]|by intros [= -> -> ->]].
Qed.

Definition lex_lt (a b : Z * Z * Z) : Prop :=
  let '(mo, d, mi) := a in let '(mo', d', mi') := b in mo < mo' \/ mo = mo' /\ (d < d' \/ d = d' /\ mi < mi').

Lemma interval_ltb_iff l r : interval_ltb l r = true <-> lex_lt (normalize l) (normalize r).
Proof.
  unfold interval_ltb, interval_gtb, lex_lt. destruct (normalize l) as [[a b] c], (normalize r) as [[a' b'] c'].
  destruct (Z.ltb_spec a a'), (Z.ltb_spec a' a), (Z.ltb_spec b b'), (Z.ltb_spec b' b), (Z.ltb_spec c c'); split; intros; try done; lia.
Qed.

Lemma borrow_total msf lsf scale : let '(f, l) := borrow msf lsf scale in f * scale + l = msf * scale + lsf /\ INT_MIN <= f <= INT_MAX.
Proof. unfold borrow, INT_MIN, INT_MAX in *. destruct (Z.ltb_spec (2 ^ 31 - 1) msf); [lia|]. destruct (Z.ltb_spec msf (- 2 ^ 31)); lia. Qed.

(** ** The properties *)

(** [from_num_days] and [to_num_days] are inverse to each other between the day
    numbers of the years 0 to 32767 and their calendar dates; day 0 is 1 January
    1970, and the next number is the next day of the Gregorian calendar. *)
Theorem date_calendar :
  from_num_days 0 = DayValue 0 1 1 1970 /\
  (forall n, MIN_DAY <= n <= MAX_DAY -> valid_date (from_num_days n) /\ midnight (from_num_days n) /\ to_num_days (from_num_days n) = n) /\
  (forall d, valid_date d -> midnight d -> from_num_days (to_num_days d) = d /\ MIN_DAY <= to_num_days d <= MAX_DAY) /\
  (forall n, MIN_DAY <= n < MAX_DAY -> from_num_days (n + 1) = next_day (from_num_days n)).
Proof.
  split; [done|]. split; [apply to_from_num_days|]. split.
  - intros d Hv Hh. split; [by apply from_to_num_days|by apply valid_num_days].
  - intros n Hn. destruct (to_from_num_days n ltac:(lia)) as (Hv & Hh & He).
    destruct (next_day_spec _ Hv Hh ltac:(lia)) as (Hv' & Hh' & He'). by rewrite <-(from_to_num_days _ Hv' Hh'), He', He.
Qed.

Lemma date_calendar_witness :
  valid_date (DayValue 0 29 2 2024) /\ from_num_days 19782 = DayValue 0 29 2 2024 /\
  from_num_days (19782 + 1) = next_day (from_num_days 19782).
Proof.
  assert (valid_date (DayValue 0 29 2 2024)) by (apply year_month_day; try lia; exists 29; done).
  split; [done|]. split; [done|]. apply date_calendar. done.
Defined.

(** The order of the packed 32-bit dates is the chronological one, and a packed
    date unpacks to the date. *)
Theorem date_order a b : valid_date a -> 0 <= hour a < 24 -> valid_date b -> 0 <= hour b < 24 ->
  (to_u32_date a < to_u32_date b <-> to_timestamp a < to_timestamp b) /\ from_u32 (to_u32_date a) = a.
Proof.
  intros Ha Hha Hb Hhb. split.
  - destruct (to_timestamp_hours a Ha Hha) as (-> & -> & Hna), (to_timestamp_hours b Hb Hhb) as (-> & -> & Hnb).
    set (na := to_num_days (at_midnight a)) in *. set (nb := to_num_days (at_midnight b)) in *.
    destruct (Z.lt_trichotomy na nb) as [Hlt|[->|Hlt]]; [|lia|].
    + pose proof (packed_lt na nb ltac:(lia) Hlt ltac:(lia)). lia.
    + pose proof (packed_lt nb na ltac:(lia) Hlt ltac:(lia)). lia.
  - by apply from_to_u32, valid_fields.
Qed.

Lemma date_order_witness :
  to_u32_date (DayValue 5 31 12 1999) < to_u32_date (DayValue 0 1 1 2000) /\
  to_timestamp (DayValue 5 31 12 1999) < to_timestamp (DayValue 0 1 1 2000).
Proof.
  assert (valid_date (DayValue 5 31 12 1999)) as Ha by (apply (year_month_day 1999 12 31); try lia; exists 31; done).
  assert (valid_date (DayValue 0 1 1 2000)) as Hb by (apply year_month_day; try lia; exists 31; done).
  split; [done|]. apply (date_order _ _ Ha ltac:(simpl; lia) Hb ltac:(simpl; lia)). done.
Defined.

(** Adding an interval to a date: first the months, stopping at the end of a
    shorter month, then the days and the whole days of the microseconds, rounded
    down; the result is the calendar date with that number, and past the 32-bit
    day numbers it throws.  Subtracting is adding the inverse. *)
Theorem date_add_spec d i : valid_date d -> - 2 ^ 63 < micros i < 2 ^ 63 -> 0 <= year (months_later d (months i)) <= 32767 ->
  let n := to_num_days (months_later d (months i)) + days i + micros i / MICROS_PER_DAY in
  valid_date (months_later d (months i)) /\
  (INT_MAX < n -> date_add d i = Some Thrown) /\
  (MIN_DAY <= n <= MAX_DAY -> exists r, date_add d i = Some (Returned r) /\ valid_date r /\ midnight r /\ to_num_days r = n /\
     (INT_MIN < months i <= INT_MAX -> INT_MIN < days i <= INT_MAX ->
      date_sub d (MkInterval (- months i) (- days i) (- micros i)) = Some (Returned r))).
Proof.
  intros Hv Hmi Hy n. split; [by apply months_later_valid|].
  pose proof (date_add_eq d i Hv ltac:(lia) Hy) as Heq. fold n in Heq. cbv zeta in Heq. split.
  - intros Hn. rewrite Heq, (proj2 (Z.ltb_lt _ _)) by done. done.
  - intros Hn. destruct (to_from_num_days n Hn) as (Hvr & Hmr & Hr). unfold MIN_DAY, MAX_DAY in Hn. exists (from_num_days n).
    assert (date_add d i = Some (Returned (from_num_days n))) as Hadd.
    { rewrite Heq, (proj2 (Z.ltb_ge _ _)), to_int_small by (unfold INT_MIN, INT_MAX; lia). done. }
    split_and!; try done. intros Hmo Hdd. unfold date_sub, invert, i64. simpl.
    assert ((- 2 ^ 63 <=? - - micros i) && (- - micros i <? 2 ^ 63) = true) as -> by lia. unfold INT_MIN, INT_MAX in Hmo, Hdd.
    rewrite !i32_Some by (unfold INT_MIN, INT_MAX; lia). cbn [mbind option_bind]. rewrite !Z.opp_involutive. clear -Hadd. by destruct i.
Qed.

Lemma date_add_spec_witness :
  date_add (DayValue 0 31 1 2024) (MkInterval 1 1 (- 3600000000)) = Some (Returned (DayValue 0 29 2 2024)) /\
  valid_date (months_later (DayValue 0 31 1 2024) 1).
Proof.
  split; [done|]. apply (date_add_spec (DayValue 0 31 1 2024) (MkInterval 1 1 (- 3600000000))).
  - apply year_month_day; try lia. exists 31. done.
  - simpl. lia.
  - done.
Defined.

Lemma midnight_later d n : midnight (months_later d n).
Proof. done. Qed.

Lemma date_add_months d mo : valid_date d -> 0 <= year (months_later d mo) <= 32767 -> to_num_days (months_later d mo) <= INT_MAX ->
  date_add d (MkInterval mo 0 0) = Some (Returned (from_num_days (to_int (to_num_days (months_later d mo))))).
Proof.
  intros Hv Hy Hle. rewrite (date_add_eq d (MkInterval mo 0 0) Hv ltac:(done) Hy). cbn [months days micros].
  change (0 / MICROS_PER_DAY) with 0. by rewrite !Z.add_0_r, (proj2 (Z.ltb_ge _ _)) by done.
Qed.

(** As rewriting rules, so that checking them evaluates no date. *)
Lemma bind_Some_eq {A B} (x : A) (f : A -> option B) : (y ← Some x; f y) = f x.
Proof. done. Qed.

Lemma months_delta_unfold t mo : months_delta t mo =
  (date ← date_add (from_num_days (to_int (Z.quot t MSEC_PER_DAY))) (MkInterval mo 0 0);
   match date with
   | Thrown => Some Thrown
   | Returned date => diff ← i32 (to_num_days date - to_int (Z.quot t MSEC_PER_DAY)); Some (Returned (diff * MSEC_PER_DAY))
   end).
Proof. done. Qed.

Lemma months_delta_of t n mo d k : Z.quot t MSEC_PER_DAY = n -> INT_MIN <= n <= INT_MAX ->
  date_add (from_num_days n) (MkInterval mo 0 0) = Some (Returned d) -> to_num_days d = k -> INT_MIN <= k - n <= INT_MAX ->
  months_delta t mo = Some (Returned ((k - n) * MSEC_PER_DAY)).
Proof.
  intros Hq Hn Ha <- Hk. rewrite months_delta_unfold, Hq, (to_int_small n), Ha, bind_Some_eq by done.
  by rewrite i32_Some, bind_Some_eq by done.
Qed.

(** The months part of the addition to a date-time. *)
Lemma months_delta_eq t n mo : Z.quot t MSEC_PER_DAY = n -> MIN_DAY <= n <= MAX_DAY ->
  0 <= year (months_later (from_num_days n) mo) <= 32767 ->
  months_delta t mo = Some (Returned ((to_num_days (months_later (from_num_days n) mo) - n) * MSEC_PER_DAY)).
Proof.
  intros Hq Hd Hy. destruct (to_from_num_days n Hd) as (Hv & _ & _).
  destruct (valid_num_days _ (months_later_valid _ mo Hv Hy) (midnight_later _ _)) as [_ Hr].
  destruct (to_from_num_days _ Hr) as (_ & _ & Hback). unfold MIN_DAY, MAX_DAY in Hr, Hd.
  apply (months_delta_of _ _ _ (from_num_days (to_num_days (months_later (from_num_days n) mo))));
    [done|unfold INT_MIN, INT_MAX; lia| |done|unfold INT_MIN, INT_MAX; lia].
  rewrite date_add_months by (done || (unfold INT_MAX; lia)). by rewrite to_int_small by (unfold INT_MIN, INT_MAX; lia).
Qed.

Lemma months_later_0 d : valid_date d -> midnight d -> months_later d 0 = d.
Proof.
  intros [Hy Hm [Hd (last & Hl & Hle)]] Hh. unfold months_later. rewrite Z.add_0_r.
  assert ((12 * year d + (month d - 1)) / 12 = year d) as -> by lia. assert ((12 * year d + (month d - 1)) mod 12 + 1 = month d) as -> by lia.
  rewrite Hl. simpl. rewrite Z.min_l by done. unfold midnight in Hh. destruct d. simpl in *. by subst.
Qed.

(** [operator+] of a date-time at or after the epoch, or at midnight: the months
    move its date, keeping the time of the day, then the days and the whole
    milliseconds of the interval are added. *)
Theorem datetime_add_spec t i : 0 <= t \/ t mod MSEC_PER_DAY = 0 -> MIN_DAY <= t / MSEC_PER_DAY <= MAX_DAY ->
  INT_MIN <= days i <= INT_MAX -> - 2 ^ 63 <= micros i < 2 ^ 63 ->
  let d := months_later (from_num_days (t / MSEC_PER_DAY)) (months i) in 0 <= year d <= 32767 ->
  datetime_add t i = Some (Returned (
    to_num_days d * MSEC_PER_DAY + t mod MSEC_PER_DAY + days i * MSEC_PER_DAY + Z.quot (micros i) MICROS_PER_MSEC)).
Proof.
  intros Ht Hd Hdays Hmi d Hy. destruct (to_from_num_days _ Hd) as (Hv & Hm & Hn).
  destruct (valid_num_days d (months_later_valid _ (months i) Hv Hy) (midnight_later _ _)) as [_ Hr].
  unfold datetime_add. rewrite (months_delta_eq t (t / MSEC_PER_DAY)) by (done || (clear -Ht; unfold MSEC_PER_DAY in *; lia)). fold d.
  assert (months i = 0 -> to_num_days d = t / MSEC_PER_DAY) as H0.
  { intros E. unfold d. rewrite E. by rewrite months_later_0. }
  assert ((if months i =? 0 then Some (Returned 0) else Some (Returned ((to_num_days d - t / MSEC_PER_DAY) * MSEC_PER_DAY))) =
    Some (Returned ((to_num_days d - t / MSEC_PER_DAY) * MSEC_PER_DAY))) as ->.
  { destruct (Z.eqb_spec (months i) 0) as [E|]; [|done]. by rewrite (H0 E), Z.sub_diag. }
  cbn [mbind option_bind]. unfold MIN_DAY, MAX_DAY, INT_MIN, INT_MAX in Hd, Hdays, Hr. set (n' := to_num_days d) in *. clearbody n'. clear H0 Hn Hm Hv Ht Hy.
  set (x := Z.quot (micros i) MICROS_PER_MSEC). assert (- 2 ^ 63 <= x * 1000 < 2 ^ 63) as Hx by (unfold x, MICROS_PER_MSEC; lia).
  assert (forall z, (if days i =? 0 then z else z + days i * MSEC_PER_DAY) = z + days i * MSEC_PER_DAY) as ->
    by (intros z; destruct (Z.eqb_spec (days i) 0); lia).
  assert (forall z, (if micros i =? 0 then z else z + x) = z + x) as ->
    by (intros z; destruct (Z.eqb_spec (micros i) 0) as [E|]; [unfold x; rewrite E; change (Z.quot 0 _) with 0; lia|done]).
  assert (t = t / MSEC_PER_DAY * MSEC_PER_DAY + t mod MSEC_PER_DAY) as Hdm by (unfold MSEC_PER_DAY; lia).
  pose proof (Z.mod_pos_bound t MSEC_PER_DAY eq_refl) as Hmod. set (q := t / MSEC_PER_DAY) in *. set (r := t mod MSEC_PER_DAY) in *. clearbody q r x.
  unfold i64, MSEC_PER_DAY in *. rewrite (proj2 (Z.leb_le _ _)), (proj2 (Z.ltb_lt _ _)) by lia. cbn [andb mbind option_bind]. do 2 f_equal. lia.
Qed.

Lemma datetime_add_spec_witness :
  datetime_add (19753 * 86400000 + 43200000) (MkInterval 1 0 5000) = Some (Returned (19782 * 86400000 + 43200000 + 5)).
Proof.
  rewrite (datetime_add_spec (19753 * 86400000 + 43200000) (MkInterval 1 0 5000)).
  - vm_compute. done.
  - left. done.
  - done.
  - done.
  - done.
  - done.
Defined.

(** Before the epoch the day is rounded towards zero, so the months are added to
    the day after: noon of 30 November 1969 plus a month is noon of 31 December. *)
Lemma datetime_add_before_epoch :
  datetime_add (-31 * 86400000 - 43200000) (MkInterval 1 0 0) = Some (Returned (-1 * 86400000 + 43200000)) /\
  from_num_days (-32) = DayValue 0 30 11 1969 /\ from_num_days (-1) = DayValue 0 31 12 1969.
Proof. done. Qed.

(** Equality and order of intervals compare the normalised triples: the order is
    strict and total up to the equality.  For intervals without negative parts
    it compares the lengths, a month being thirty days; and normalising keeps
    the length. *)
Theorem interval_order a b c :
  (interval_ltb a b = true -> interval_ltb b c = true -> interval_ltb a c = true) /\
  (interval_ltb a b = true \/ interval_eqb a b = true \/ interval_ltb b a = true) /\
  (interval_eqb a b = true -> interval_ltb a b = false /\ interval_ltb b a = false /\ interval_eqb b a = true) /\
  (interval_ltb a b = true -> interval_ltb b a = false) /\
  (forward a -> forward b ->
     (interval_ltb a b = true <-> total_micros a < total_micros b) /\ (interval_eqb a b = true <-> total_micros a = total_micros b)) /\
  total_micros (normalized a) = total_micros a.
Proof.
  rewrite <-!not_true_iff_false, !interval_ltb_iff, !interval_eqb_iff.
  rewrite <-(normalize_total a), <-(normalize_total b). pose proof (normalize_forward a) as Ha. pose proof (normalize_forward b) as Hb.
  split_and!.
  - unfold lex_lt. destruct (normalize a) as [[? ?] ?], (normalize b) as [[? ?] ?], (normalize c) as [[? ?] ?]. lia.
  - unfold lex_lt. destruct (normalize a) as [[x y] z], (normalize b) as [[x' y'] z'].
    destruct (decide (x = x')) as [->|]; [|lia]. destruct (decide (y = y')) as [->|]; [|lia]. destruct (decide (z = z')) as [->|]; [auto|lia].
  - intros ->. unfold lex_lt. destruct (normalize b) as [[? ?] ?]. split_and!; [lia|lia|done].
  - unfold lex_lt. destruct (normalize a) as [[? ?] ?], (normalize b) as [[? ?] ?]. lia.
  - intros Hfa Hfb. specialize (Ha Hfa). specialize (Hb Hfb). unfold lex_lt, triple_total, DAYS_PER_MONTH, MICROS_PER_DAY in *.
    destruct (normalize a) as [[x y] z], (normalize b) as [[x' y'] z']. split; [lia|]. split; [by intros [= -> -> ->]|intros He].
    assert (x = x') as -> by lia. assert (y = y') as -> by lia. assert (z = z') as -> by lia. done.
  - unfold normalized. destruct (normalize a) as [[x y] z]. pose proof (borrow_total x y DAYS_PER_MONTH) as H1.
    destruct (borrow x y DAYS_PER_MONTH) as [mo y']. pose proof (borrow_total y' z MICROS_PER_DAY) as H2.
    destruct (borrow y' z MICROS_PER_DAY) as [dd z']. unfold total_micros, triple_total in *. simpl. lia.
Qed.

Lemma interval_order_witness :
  interval_ltb (MkInterval 0 31 0) (MkInterval 1 2 0) = true /\ interval_eqb (MkInterval 1 0 0) (MkInterval 0 30 0) = true /\
  total_micros (MkInterval 0 31 0) < total_micros (MkInterval 1 2 0).
Proof.
  split_and!; [done|done|]. destruct (interval_order (MkInterval 0 31 0) (MkInterval 1 2 0) (MkInterval 0 0 0)) as (_ & _ & _ & _ & H & _).
  destruct H as [H _]; [done|done|]. apply H. done.
Defined.

(** With mixed signs the order is not that of the lengths: a month less a day is
    above twenty-nine days and an hour. *)
Lemma interval_order_mixed :
  interval_ltb (MkInterval 0 29 3600000000) (MkInterval 1 (-1) 0) = true /\
  total_micros (MkInterval 1 (-1) 0) < total_micros (MkInterval 0 29 3600000000).
Proof. done. Qed.
