(* ===== verification/Property.v ===== *)
(** * Property values

    [DataTypeId] (include/neug/common/types.h) and [Property]
    (include/neug/utils/property/property.h, src/utils/property/property.cc): a
    tagged value, its conversions to and from the types of columns and edges, its
    comparisons, and its two serialisations.  Floating-point numbers are their
    bits; characters are bytes.  Reading another member of the union than the tag
    names is [None]. *)
From S2P Require Import Prelude Storage Bitset Archive Temporal.
#[local] Open Scope Z_scope.

Inductive DataTypeId :=
  | kInvalid | kNull | kUnknown | kBoolean | kInt8 | kInt16 | kInt32 | kInt64 | kDate | kTimestampMs | kFloat | kDouble
  | kVarchar | kInterval | kUInt8 | kUInt16 | kUInt32 | kUInt64 | kStruct | kList | kVertex | kEdge | kPath | kEmpty.

#[export] Instance DataTypeId_eq_dec : EqDecision DataTypeId.
Proof. solve_decision. Defined.

Definition type_code (t : DataTypeId) : Z :=
  match t with
  | kInvalid => 0 | kNull => 1 | kUnknown => 2 | kBoolean => 10 | kInt8 => 11 | kInt16 => 12 | kInt32 => 13 | kInt64 => 14
  | kDate => 15 | kTimestampMs => 18 | kFloat => 22 | kDouble => 23 | kVarchar => 25 | kInterval => 27 | kUInt8 => 28
  | kUInt16 => 29 | kUInt32 => 30 | kUInt64 => 31 | kStruct => 100 | kList => 101 | kVertex => 200 | kEdge => 201
  | kPath => 202 | kEmpty => 203
  end.

Definition all_types : list DataTypeId :=
  [kInvalid; kNull; kUnknown; kBoolean; kInt8; kInt16; kInt32; kInt64; kDate; kTimestampMs; kFloat; kDouble; kVarchar; kInterval;
   kUInt8; kUInt16; kUInt32; kUInt64; kStruct; kList; kVertex; kEdge; kPath; kEmpty].

(** [static_cast<DataTypeId>] of an [int32_t]: [None] for a number that is no
    enumerator. *)
Definition type_of_code (c : Z) : option DataTypeId := head (filter (fun t => type_code t = to_u8 c) all_types).

Inductive Property :=
  | PEmpty
  | PBool (v : bool)
  | PInt32 (v : Z)
  | PUInt32 (v : Z)
  | PInt64 (v : Z)
  | PUInt64 (v : Z)
  | PVarchar (s : list Z)
  | PFloat (bits : Z)
  | PDouble (bits : Z)
  | PDate (d : Date)
  | PTimestampMs (milli_second : Z)
  | PInterval (i : Interval).

(** [type()]. *)
Definition prop_type (p : Property) : DataTypeId :=
  match p with
  | PEmpty => kEmpty | PBool _ => kBoolean | PInt32 _ => kInt32 | PUInt32 _ => kUInt32 | PInt64 _ => kInt64 | PUInt64 _ => kUInt64
  | PVarchar _ => kVarchar | PFloat _ => kFloat | PDouble _ => kDouble | PDate _ => kDate | PTimestampMs _ => kTimestampMs
  | PInterval _ => kInterval
  end.

(** [get_default_value]: it throws for a type that no property has. *)
Definition get_default_value (t : DataTypeId) : outcome Property :=
  match t with
  | kEmpty => Returned PEmpty
  | kBoolean => Returned (PBool false)
  | kInt32 => Returned (PInt32 0)
  | kUInt32 => Returned (PUInt32 0)
  | kInt64 => Returned (PInt64 0)
  | kUInt64 => Returned (PUInt64 0)
  | kFloat => Returned (PFloat 0)
  | kDouble => Returned (PDouble 0)
  | kVarchar => Returned (PVarchar [])
  | kDate => Returned (PDate (from_num_days 0))
  | kTimestampMs => Returned (PTimestampMs 0)
  | kInterval => Returned (PInterval (MkInterval 0 0 0))
  | _ => Thrown
  end.

(** ** Comparisons *)

(** IEEE comparison on the bits: [w] is the position of the sign, [inf] the bits
    of infinity.  The order of the numbers is that of sign and magnitude. *)
Definition magnitude (w bits : Z) : Z := bits mod 2 ^ w.
Definition is_nan (w inf bits : Z) : bool := inf <? magnitude w bits.
Definition float_key (w bits : Z) : Z := if bits <? 2 ^ w then magnitude w bits else - magnitude w bits.
Definition float_eqb (w inf a b : Z) : bool := negb (is_nan w inf a) && negb (is_nan w inf b) && (float_key w a =? float_key w b).
Definition float_ltb (w inf a b : Z) : bool := negb (is_nan w inf a) && negb (is_nan w inf b) && (float_key w a <? float_key w b).
Definition INF32 : Z := 2139095040.
Definition INF64 : Z := 9218868437227405312.

(** [std::string_view] comparison. *)
Fixpoint string_ltb (a b : list Z) : bool :=
  match a, b with
  | _, [] => false
  | [], _ :: _ => true
  | x :: a, y :: b => if x <? y then true else if y <? x then false else string_ltb a b
  end.

(** [operator==]: there is no case for dates, date-times and intervals. *)
Definition prop_eqb (p q : Property) : bool :=
  match p, q with
  | PInt32 a, PInt32 b => a =? b
  | PUInt32 a, PUInt32 b => a =? b
  | PVarchar a, PVarchar b => bool_decide (a = b)
  | PEmpty, PEmpty => true
  | PDouble a, PDouble b => float_eqb 63 INF64 a b
  | PInt64 a, PInt64 b => a =? b
  | PUInt64 a, PUInt64 b => a =? b
  | PBool a, PBool b => Bool.eqb a b
  | PFloat a, PFloat b => float_eqb 31 INF32 a b
  | _, _ => false
  end.

Definition prop_ltb (p q : Property) : bool :=
  match p, q with
  | PInt32 a, PInt32 b => a <? b
  | PInt64 a, PInt64 b => a <? b
  | PVarchar a, PVarchar b => string_ltb a b
  | PEmpty, PEmpty => false
  | PDouble a, PDouble b => float_ltb 63 INF64 a b
  | PUInt32 a, PUInt32 b => a <? b
  | PUInt64 a, PUInt64 b => a <? b
  | PBool a, PBool b => negb a && b
  | PFloat a, PFloat b => float_ltb 31 INF32 a b
  | PDate a, PDate b => to_u32_date a <? to_u32_date b
  | PTimestampMs a, PTimestampMs b => a <? b
  | PInterval a, PInterval b => interval_ltb a b
  | _, _ => type_code (prop_type p) <? type_code (prop_type q)
  end.

(** ** Serialisation *)

Definition to_i64 (z : Z) : Z := (z + 2 ^ 63) mod 2 ^ 64 - 2 ^ 63.

Definition put_int32 (arc : list Z) (z : Z) : list Z := put_uint 4 arc (to_u32 z).
Definition put_int64 (arc : list Z) (z : Z) : list Z := put_uint 8 arc (to_u64 z).
Definition get_int32 (arc : list Z) : option (Z * list Z) := '(u, arc) ← get_uint 4 arc; Some (to_int u, arc).
Definition get_int64 (arc : list Z) : option (Z * list Z) := '(u, arc) ← get_uint 8 arc; Some (to_i64 u, arc).

(** A [bool] is one byte, 0 or 1; another byte read as one is undefined. *)
Definition put_bool (arc : list Z) (b : bool) : list Z := put_uint 1 arc (ind b).
Definition get_bool (arc : list Z) : option (bool * list Z) :=
  '(u, arc) ← get_uint 1 arc; if u =? 0 then Some (false, arc) else if u =? 1 then Some (true, arc) else None.

Definition put_type (arc : list Z) (t : DataTypeId) : list Z := put_int32 arc (type_code t).
Definition get_type (arc : list Z) : option (option DataTypeId * list Z) := '(c, arc) ← get_int32 arc; Some (type_of_code c, arc).

Definition put_interval (arc : list Z) (i : Interval) : list Z := put_int64 (put_int32 (put_int32 arc (months i)) (days i)) (micros i).
Definition get_interval (arc : list Z) : option (Interval * list Z) :=
  '(mo, arc) ← get_int32 arc; '(d, arc) ← get_int32 arc; '(mi, arc) ← get_int64 arc; Some (MkInterval mo d mi, arc).

(** The value after its tag, in [operator<<] and [operator>>]. *)
Definition put_value (arc : list Z) (p : Property) : list Z :=
  match p with
  | PEmpty => arc
  | PBool v => put_bool arc v
  | PInt32 v => put_int32 arc v
  | PUInt32 v => put_uint 4 arc v
  | PInt64 v => put_int64 arc v
  | PUInt64 v => put_uint 8 arc v
  | PVarchar s => put_string arc s
  | PFloat bits => put_uint 4 arc bits
  | PDouble bits => put_uint 8 arc bits
  | PDate d => put_uint 4 arc (to_u32_date d)
  | PTimestampMs t => put_int64 arc t
  | PInterval i => put_interval arc i
  end.

Definition read {A} (f : A -> Property) (r : option (A * list Z)) : option (outcome Property * list Z) :=
  '(a, arc) ← r; Some (Returned (f a), arc).

(** [value] is the object that is read into. *)
Definition get_value (t : DataTypeId) (arc : list Z) (value : Property) : option (outcome Property * list Z) :=
  match t with
  | kEmpty => Some (Returned value, arc)
  | kBoolean => read PBool (get_bool arc)
  | kInt32 => read PInt32 (get_int32 arc)
  | kUInt32 => read PUInt32 (get_uint 4 arc)
  | kFloat => read PFloat (get_uint 4 arc)
  | kInt64 => read PInt64 (get_int64 arc)
  | kUInt64 => read PUInt64 (get_uint 8 arc)
  | kDouble => read PDouble (get_uint 8 arc)
  | kVarchar => read PVarchar (get_string arc)
  | kDate => read (fun u => PDate (from_u32 u)) (get_uint 4 arc)
  | kTimestampMs => read PTimestampMs (get_int64 arc)
  | kInterval => read PInterval (get_interval arc)
  | _ => Some (Thrown, arc)
  end.

Definition put_property (arc : list Z) (p : Property) : list Z := put_value (put_type arc (prop_type p)) p.
Definition get_property (arc : list Z) (value : Property) : option (outcome Property * list Z) :=
  '(t, arc) ← get_type arc; match t with None => Some (Thrown, arc) | Some t => get_value t arc value end.

(** [serialize_property] and [deserialize_property]: without the tag, and
    intervals as milliseconds. *)
Definition serialize_property (arc : list Z) (p : Property) : list Z :=
  match p with PInterval i => put_int64 arc (to_mill_seconds i) | _ => put_value arc p end.

Definition deserialize_property (arc : list Z) (pt : DataTypeId) : option (Property * list Z) :=
  match pt with
  | kEmpty => Some (PEmpty, arc)
  | kInterval => '(v, arc) ← get_int64 arc; i ← from_mill_seconds v; Some (PInterval i, arc)
  | _ => '(r, arc) ← get_value pt arc PEmpty; match r with Returned p => Some (p, arc) | Thrown => None end
  end.

(** ** Typed access *)

(** [PropUtils<T>]. *)
Record PropUtils (T : Type) := {
  pu_type : DataTypeId;
  to_typed : Property -> option T;
  to_prop : T -> Property
}.
Arguments pu_type {T} _.
Arguments to_typed {T} _ _.
Arguments to_prop {T} _ _.

Definition bool_utils : PropUtils bool := {| pu_type := kBoolean; to_typed p := match p with PBool v => Some v | _ => None end; to_prop := PBool |}.
Definition int32_utils : PropUtils Z := {| pu_type := kInt32; to_typed p := match p with PInt32 v => Some v | _ => None end; to_prop := PInt32 |}.
Definition uint32_utils : PropUtils Z := {| pu_type := kUInt32; to_typed p := match p with PUInt32 v => Some v | _ => None end; to_prop := PUInt32 |}.
Definition int64_utils : PropUtils Z := {| pu_type := kInt64; to_typed p := match p with PInt64 v => Some v | _ => None end; to_prop := PInt64 |}.
Definition uint64_utils : PropUtils Z := {| pu_type := kUInt64; to_typed p := match p with PUInt64 v => Some v | _ => None end; to_prop := PUInt64 |}.
Definition string_utils : PropUtils (list Z) := {| pu_type := kVarchar; to_typed p := match p with PVarchar v => Some v | _ => None end; to_prop := PVarchar |}.
Definition float_utils : PropUtils Z := {| pu_type := kFloat; to_typed p := match p with PFloat v => Some v | _ => None end; to_prop := PFloat |}.
Definition double_utils : PropUtils Z := {| pu_type := kDouble; to_typed p := match p with PDouble v => Some v | _ => None end; to_prop := PDouble |}.
Definition date_utils : PropUtils Date := {| pu_type := kDate; to_typed p := match p with PDate v => Some v | _ => None end; to_prop := PDate |}.
Definition datetime_utils : PropUtils Z := {| pu_type := kTimestampMs; to_typed p := match p with PTimestampMs v => Some v | _ => None end; to_prop := PTimestampMs |}.
Definition interval_utils : PropUtils Interval := {| pu_type := kInterval; to_typed p := match p with PInterval v => Some v | _ => None end; to_prop := PInterval |}.
Definition empty_utils : PropUtils unit := {| pu_type := kEmpty; to_typed p := Some tt; to_prop _ := PEmpty |}.

(** What the columns and edges rely on: a value converts to a property of the
    type and back. *)
Class PropLaws {T} (U : PropUtils T) := {
  pl_back v : to_typed U (to_prop U v) = Some v;
  pl_type v : prop_type (to_prop U v) = pu_type U;
  pl_typed p v : prop_type p = pu_type U -> to_typed U p = Some v -> p = to_prop U v;
  pl_total p : prop_type p = pu_type U -> is_Some (to_typed U p)
}.

Ltac prop_laws := split; intros; try done; match goal with p : Property |- _ => destruct p end; simplify_eq/=; done.

#[export] Instance bool_laws : PropLaws bool_utils.
Proof. prop_laws. Qed.
#[export] Instance int32_laws : PropLaws int32_utils.
Proof. prop_laws. Qed.
#[export] Instance uint32_laws : PropLaws uint32_utils.
Proof. prop_laws. Qed.
#[export] Instance int64_laws : PropLaws int64_utils.
Proof. prop_laws. Qed.
#[export] Instance uint64_laws : PropLaws uint64_utils.
Proof. prop_laws. Qed.
#[export] Instance float_laws : PropLaws float_utils.
Proof. prop_laws. Qed.
#[export] Instance double_laws : PropLaws double_utils.
Proof. prop_laws. Qed.
#[export] Instance date_laws : PropLaws date_utils.
Proof. prop_laws. Qed.
#[export] Instance datetime_laws : PropLaws datetime_utils.
Proof. prop_laws. Qed.
#[export] Instance interval_laws : PropLaws interval_utils.
Proof. prop_laws. Qed.
#[export] Instance string_laws : PropLaws string_utils.
Proof. prop_laws. Qed.
