(* ===== verification/PropertyTheorems.v ===== *)
(** * Properties of property values

    Their serialisations read back, the comparison is a strict order, and what
    [operator==] compares. *)
From S2P Require Import Prelude Storage Bitset Archive Temporal TemporalTheorems Property.
#[local] Open Scope Z_scope.

(** ** Reading back *)

(** The payload is one that the C++ type can hold. *)
Definition interval_ok (i : Interval) : Prop :=
  INT_MIN <= months i <= INT_MAX /\ INT_MIN <= days i <= INT_MAX /\ - 2 ^ 63 <= micros i < 2 ^ 63.

Definition prop_ok (p : Property) : Prop :=
  match p with
  | PEmpty | PBool _ => True
  | PInt32 v => INT_MIN <= v <= INT_MAX
  | PUInt32 v | PFloat v => 0 <= v < 2 ^ 32
  | PInt64 v | PTimestampMs v => - 2 ^ 63 <= v < 2 ^ 63
  | PUInt64 v | PDouble v => 0 <= v < 2 ^ 64
  | PVarchar s => vlen s < 2 ^ 64
  | PDate d => fields_fit d
  | PInterval i => interval_ok i
  end.

(** A writer appends to the archive, and the reader takes the same value off the
    front of what was appended. *)
Record inverts {A} (put : list Z -> A -> list Z) (get : list Z -> option (A * list Z)) (x : A) : Prop := {
  inv_append arc : put arc x = arc ++ put [] x;
  inv_read rest : get (put [] x ++ rest) = Some (x, rest)
}.

Lemma put_uint_append k arc u : put_uint k arc u = arc ++ put_uint k [] u.
Proof. done. Qed.

Lemma uint_inverts k u : 0 <= u < 256 ^ Z.of_nat k -> inverts (put_uint k) (get_uint k) u.
Proof. intros Hu. split; [done|]. intros rest. by apply get_put_uint. Qed.

Lemma int32_inverts z : INT_MIN <= z <= INT_MAX -> inverts put_int32 get_int32 z.
Proof.
  intros Hz. split; [done|]. intros rest. unfold get_int32, put_int32. pose proof (Z.mod_pos_bound z (2 ^ 32) eq_refl) as Hm. fold (to_u32 z) in Hm.
  rewrite (inv_read _ _ _ (uint_inverts 4 (to_u32 z) Hm)). cbn [mbind option_bind]. do 2 f_equal.
  unfold to_int, to_u32, INT_MIN, INT_MAX in *. rewrite Zplus_mod_idemp_l, Z.mod_small; lia.
Qed.

Lemma int64_inverts z : - 2 ^ 63 <= z < 2 ^ 63 -> inverts put_int64 get_int64 z.
Proof.
  intros Hz. split; [done|]. intros rest. unfold get_int64, put_int64. pose proof (Z.mod_pos_bound z (2 ^ 64) eq_refl) as Hm. fold (to_u64 z) in Hm.
  rewrite (inv_read _ _ _ (uint_inverts 8 (to_u64 z) Hm)). cbn [mbind option_bind]. do 2 f_equal.
  unfold to_i64, to_u64 in *. rewrite Zplus_mod_idemp_l, Z.mod_small; lia.
Qed.

Lemma bool_inverts b : inverts put_bool get_bool b.
Proof.
  split; [done|]. intros rest. unfold get_bool, put_bool.
  rewrite (inv_read _ _ _ (uint_inverts 1 (ind b) ltac:(destruct b; done))). by destruct b.
Qed.

Lemma string_inverts s : vlen s < 2 ^ 64 -> inverts put_string get_string s.
Proof.
  intros Hs. split; [|intros; by apply get_put_string]. intros arc. unfold put_string, put_uint, AddBytes. by rewrite app_nil_l, app_assoc.
Qed.

Lemma interval_inverts i : interval_ok i -> inverts put_interval get_interval i.
Proof.
  intros (Hm & Hd & Hmi). pose proof (int32_inverts _ Hm) as Im. pose proof (int32_inverts _ Hd) as Id. pose proof (int64_inverts _ Hmi) as Ii.
  assert (forall arc, put_interval arc i = arc ++ put_int32 [] (months i) ++ put_int32 [] (days i) ++ put_int64 [] (micros i)) as Happ.
  { intros arc. unfold put_interval. by rewrite (inv_append _ _ _ Ii), (inv_append _ _ _ Id), (inv_append _ _ _ Im), <-!app_assoc. }
  split; [intros arc; by rewrite (Happ arc), (Happ [])|]. intros rest. rewrite Happ, app_nil_l, <-!app_assoc. unfold get_interval.
  rewrite (inv_read _ _ _ Im). cbn [mbind option_bind]. rewrite (inv_read _ _ _ Id). cbn [mbind option_bind].
  rewrite (inv_read _ _ _ Ii). by destruct i.
Qed.

Lemma type_inverts t rest : get_type (put_type [] t ++ rest) = Some (Some t, rest).
Proof.
  unfold get_type, put_type. rewrite (inv_read _ _ _ (int32_inverts (type_code t) ltac:(destruct t; done))). by destruct t.
Qed.

Lemma put_value_append arc p : prop_ok p -> put_value arc p = arc ++ put_value [] p.
Proof.
  destruct p; simpl; intros Hp; try done; [by rewrite app_nil_r|by apply (inv_append _ _ _ (string_inverts s Hp))|].
  by apply (inv_append _ _ _ (interval_inverts i Hp)).
Qed.

Lemma read_inverts {A} (put : list Z -> A -> list Z) get (f : A -> Property) x rest :
  inverts put get x -> read f (get (put [] x ++ rest)) = Some (Returned (f x), rest).
Proof. intros [_ Hr]. unfold read. by rewrite Hr. Qed.

(** Reading an empty property leaves the object as it was. *)
Definition read_into (p value : Property) : Property := match p with PEmpty => value | _ => p end.

Lemma get_put_value p v rest : prop_ok p ->
  get_value (prop_type p) (put_value [] p ++ rest) v = Some (Returned (read_into p v), rest).
Proof.
  destruct p; intros Hp; cbn [prop_type put_value get_value prop_ok read_into] in *.
  - done.
  - apply read_inverts, bool_inverts.
  - by apply read_inverts, int32_inverts.
  - by apply read_inverts, (uint_inverts 4).
  - by apply read_inverts, int64_inverts.
  - by apply read_inverts, (uint_inverts 8).
  - by apply read_inverts, string_inverts.
  - by apply read_inverts, (uint_inverts 4).
  - by apply read_inverts, (uint_inverts 8).
  - destruct (from_to_u32 d Hp) as [Hd Hr]. rewrite (read_inverts (put_uint 4)) by (by apply (uint_inverts 4)). by rewrite Hd.
  - by apply read_inverts, int64_inverts.
  - by apply read_inverts, interval_inverts.
Qed.

Lemma property_reads_into p value rest : prop_ok p -> get_property (put_property [] p ++ rest) value = Some (Returned (read_into p value), rest).
Proof.
  intros Hp. unfold put_property, get_property. rewrite put_value_append, <-app_assoc, type_inverts by done. cbn [mbind option_bind]. by apply get_put_value.
Qed.

(** ** The order *)

Definition prop_nan (p : Property) : bool :=
  match p with PFloat b => is_nan 31 INF32 b | PDouble b => is_nan 63 INF64 b | _ => false end.

(** What properties of one type are compared by. *)
Definition prop_key (p : Property) : list Z :=
  match p with
  | PEmpty => []
  | PBool b => [ind b]
  | PInt32 v | PUInt32 v | PInt64 v | PUInt64 v | PTimestampMs v => [v]
  | PVarchar s => s
  | PFloat b => [float_key 31 b]
  | PDouble b => [float_key 63 b]
  | PDate d => [to_u32_date d]
  | PInterval i => let '(mo, d, mi) := normalize i in [mo; d; mi]
  end.

Lemma string_ltb_irrefl a : string_ltb a a = false.
Proof. induction a as [|x a IH]; [done|]. simpl. by rewrite Z.ltb_irrefl. Qed.

Lemma string_ltb_trans a b c : string_ltb a b = true -> string_ltb b c = true -> string_ltb a c = true.
Proof.
  revert b c. induction a as [|x a IH]; intros [|y b] [|z c]; simpl; try done.
  destruct (Z.ltb_spec x y), (Z.ltb_spec y x), (Z.ltb_spec y z), (Z.ltb_spec z y), (Z.ltb_spec x z), (Z.ltb_spec z x); intros; try done; try lia.
  by eapply IH.
Qed.

Lemma string_ltb_total a b : string_ltb a b = true \/ a = b \/ string_ltb b a = true.
Proof.
  revert b. induction a as [|x a IH]; intros [|y b]; simpl; auto.
  destruct (Z.ltb_spec x y), (Z.ltb_spec y x); auto. assert (x = y) as -> by lia. destruct (IH b) as [|[->|]]; auto.
Qed.

Lemma string_ltb_one x y : string_ltb [x] [y] = (x <? y).
Proof. simpl. destruct (x <? y); [done|]. by destruct (y <? x). Qed.

Lemma string_ltb_three a b c a' b' c' :
  string_ltb [a; b; c] [a'; b'; c'] =
  (if a <? a' then true else if a' <? a then false else if b <? b' then true else if b' <? b then false else c <? c').
Proof. simpl. destruct (a <? a'); [done|]. destruct (a' <? a); [done|]. destruct (b <? b'); [done|]. destruct (b' <? b); [done|]. destruct (c <? c'); [done|]. by destruct (c' <? c). Qed.

Lemma prop_ltb_same p q : prop_type p = prop_type q ->
  prop_ltb p q = negb (prop_nan p) && negb (prop_nan q) && string_ltb (prop_key p) (prop_key q).
Proof.
  destruct p, q; intros Ht; try done; cbn [prop_ltb prop_nan prop_key negb andb]; rewrite ?string_ltb_one; try done.
  - by destruct v, v0.
  - unfold interval_ltb, interval_gtb. destruct (normalize i) as [[? ?] ?], (normalize i0) as [[? ?] ?]. by rewrite string_ltb_three.
Qed.

Lemma prop_ltb_types p q : prop_type p <> prop_type q -> prop_ltb p q = (type_code (prop_type p) <? type_code (prop_type q)).
Proof. by destruct p, q. Qed.

Lemma type_code_inj t u : type_code t = type_code u -> t = u.
Proof. by destruct t, u. Qed.

Lemma one_key x y : (x =? y) = true <-> [x] = [y].
Proof. rewrite Z.eqb_eq. split; [by intros ->|by intros [= ->]]. Qed.

(** [operator==] compares keys, and has no case for the temporal types. *)
Lemma prop_eqb_iff p q : prop_eqb p q = true <->
  prop_nan p = false /\ prop_nan q = false /\ prop_type p = prop_type q /\ prop_key p = prop_key q /\
  prop_type p ∉ [kDate; kTimestampMs; kInterval].
Proof.
  destruct (decide (prop_type p = prop_type q)) as [E|E].
  - assert (forall t, t ∈ [kDate; kTimestampMs; kInterval] <-> t = kDate \/ t = kTimestampMs \/ t = kInterval) as Hel by set_solver.
    rewrite Hel. destruct p, q; try discriminate E; cbn [prop_eqb prop_nan prop_type prop_key]; clear E Hel; rewrite ?one_key;
      try (intuition congruence).
    + rewrite eqb_true_iff. destruct v, v0; simpl; intuition congruence.
    + rewrite bool_decide_eq_true. intuition congruence.
    + unfold float_eqb. rewrite !andb_true_iff, !negb_true_iff, one_key. intuition congruence.
    + unfold float_eqb. rewrite !andb_true_iff, !negb_true_iff, one_key. intuition congruence.
  - split; [by destruct p, q|]. by intros (_ & _ & ? & _).
Qed.

(** ** The properties *)

(** C38: [operator<<] and [operator>>] are inverse: every value of every type reads
    back as itself from the front of the archive, except that reading an empty
    property leaves the object that is read into as it was. *)
Theorem property_roundtrip p value rest : prop_ok p ->
  put_property rest p = rest ++ put_property [] p /\
  get_property (put_property [] p ++ rest) value = Some (Returned (read_into p value), rest).
Proof.
  intros Hp. split; [|by apply property_reads_into].
  unfold put_property. rewrite (put_value_append (put_type rest _)), (put_value_append (put_type [] _)) by done. by rewrite app_assoc.
Qed.

Lemma property_roundtrip_witness :
  get_property (put_property [] (PInterval (MkInterval (-3) 40 (-7))) ++ [1; 2]) PEmpty = Some (Returned (PInterval (MkInterval (-3) 40 (-7))), [1; 2]).
Proof. apply (property_roundtrip (PInterval (MkInterval (-3) 40 (-7)))). done. Defined.

Lemma from_mill_seconds_eq m : - 2 ^ 63 <= m * 1000 < 2 ^ 63 -> from_mill_seconds m = Some (MkInterval 0 0 (m * 1000)).
Proof.
  intros Hm. unfold from_mill_seconds, i64, MICROS_PER_MSEC. by rewrite (proj2 (Z.leb_le _ _)), (proj2 (Z.ltb_lt _ _)) by lia.
Qed.

(** [serialize_property] writes no tag and an interval as milliseconds: every
    other value reads back as itself, and an interval only when it has neither
    months nor days nor a fraction of a millisecond; what is read otherwise is
    the milliseconds of its days and microseconds, the months being dropped. *)
Theorem serialize_property_roundtrip p rest : prop_ok p ->
  match p with
  | PInterval i => - 2 ^ 63 <= to_mill_seconds i * MICROS_PER_MSEC < 2 ^ 63 ->
      deserialize_property (serialize_property [] p ++ rest) (prop_type p) =
        Some (PInterval (MkInterval 0 0 (to_mill_seconds i * MICROS_PER_MSEC)), rest) /\
      (MkInterval 0 0 (to_mill_seconds i * MICROS_PER_MSEC) = i <-> months i = 0 /\ days i = 0 /\ Z.rem (micros i) MICROS_PER_MSEC = 0)
  | _ => deserialize_property (serialize_property [] p ++ rest) (prop_type p) = Some (p, rest)
  end.
Proof.
  intros Hp. pose proof (get_put_value p PEmpty rest Hp) as Hg.
  destruct p; cbn [deserialize_property serialize_property prop_type] in *; try (by rewrite Hg); [done|].
  intros Hi. unfold MICROS_PER_MSEC in *. rewrite (inv_read _ _ _ (int64_inverts (to_mill_seconds i) ltac:(lia))), bind_Some_eq.
  rewrite from_mill_seconds_eq, bind_Some_eq by done. split; [reflexivity|].
  unfold to_mill_seconds, MICROS_PER_MSEC, MICROS_PER_DAY. change (Z.quot 86400000000 1000) with 86400000.
  pose proof (Z.quot_rem' (micros i) 1000) as Hq. clear Hg Hi Hp. destruct i as [mo d mi]. cbn [months days micros] in *. split.
  - intros [= <- <- Hmi]. split_and!; [done|done|]. lia.
  - intros (-> & -> & Hr). f_equal. lia.
Qed.

Lemma serialize_property_roundtrip_witness :
  deserialize_property (serialize_property [] (PInterval (MkInterval 2 1 1500))) kInterval = Some (PInterval (MkInterval 0 0 86400001000), []) /\
  deserialize_property (serialize_property [] (PUInt32 7) ++ [9]) kUInt32 = Some (PUInt32 7, [9]).
Proof.
  split.
  - apply (serialize_property_roundtrip (PInterval (MkInterval 2 1 1500)) []); done.
  - apply (serialize_property_roundtrip (PUInt32 7)). done.
Defined.

(** [operator<] is a strict order on properties of all types, values of one type
    among themselves and types by their code; two values that are not NaN are
    comparable or have one type and the same key, and then [operator==] holds
    for them unless the type is a temporal one, for which it never holds. *)
Theorem property_order p q r :
  prop_ltb p p = false /\
  (prop_ltb p q = true -> prop_ltb q r = true -> prop_ltb p r = true) /\
  (prop_nan p = false -> prop_nan q = false ->
     prop_ltb p q = true \/ prop_ltb q p = true \/ (prop_type p = prop_type q /\ prop_key p = prop_key q)) /\
  (prop_eqb p q = true <-> prop_nan p = false /\ prop_nan q = false /\ prop_type p = prop_type q /\ prop_key p = prop_key q /\
     prop_type p ∉ [kDate; kTimestampMs; kInterval]).
Proof.
  split_and!.
  - rewrite prop_ltb_same by done. by rewrite string_ltb_irrefl, !andb_false_r.
  - destruct (decide (prop_type p = prop_type q)) as [Epq|Epq], (decide (prop_type q = prop_type r)) as [Eqr|Eqr].
    + rewrite !prop_ltb_same by congruence. rewrite !andb_true_iff. intros [[? ?] ?] [[? ?] ?]. split_and!; try done. by eapply string_ltb_trans.
    + rewrite (prop_ltb_types q r), (prop_ltb_types p r) by congruence. by rewrite Epq.
    + rewrite (prop_ltb_types p q), (prop_ltb_types p r) by congruence. by rewrite Eqr.
    + rewrite (prop_ltb_types p q), (prop_ltb_types q r) by done. rewrite !Z.ltb_lt. intros H1 H2.
      assert (prop_type p <> prop_type r) by (intros E; rewrite E in H1; lia). rewrite prop_ltb_types by done. apply Z.ltb_lt. lia.
  - intros Hp Hq. destruct (decide (prop_type p = prop_type q)) as [E|E].
    + rewrite !prop_ltb_same by done. rewrite Hp, Hq. simpl. destruct (string_ltb_total (prop_key p) (prop_key q)) as [|[|]]; auto.
    + rewrite !prop_ltb_types by done. rewrite !Z.ltb_lt. destruct (Z.lt_trichotomy (type_code (prop_type p)) (type_code (prop_type q))) as [|[He|]]; auto.
      by apply type_code_inj in He.
  - apply prop_eqb_iff.
Qed.

Lemma property_order_witness : prop_ltb (PInt64 (-1)) (PVarchar [104; 105]) = true.
Proof.
  destruct (property_order (PInt64 (-1)) (PInt64 4) (PVarchar [104; 105])) as (_ & H & _). apply H; done.
Defined.
