(* ===== verification/Column.v ===== *)
(** * Property columns

    [TypedColumn<T>], [TypedColumn<std::string_view>] and [TypedColumn<EmptyType>]
    (include/neug/utils/property/column.h) with [truncate_utf8]
    (src/utils/property/column.cc).  A container is the list of its elements;
    memory it gains by resizing is zero ([mmap], [ftruncate]).  Characters are
    bytes; a read outside a container is [None]. *)
From S2P Require Import Prelude Storage Bitset Property.
#[local] Open Scope Z_scope.

(** [Resize]: the front is kept and the rest is zero. *)
Definition Resize {A} (zero : A) (l : list A) (n : Z) : list A :=
  take (Z.to_nat n) l ++ replicate (Z.to_nat n - length l) zero.

(** ** Columns of fixed-width values

    [buffer_], null before [open], and [size_]. *)
Record TypedColumn (T : Type) := FixedColumn { buffer_ : option (list T); size_ : Z }.
Arguments FixedColumn {T} _ _.
Arguments buffer_ {T} _.
Arguments size_ {T} _.

Section fixed.
Context {T : Type} (U : PropUtils T) (zero : T).
Implicit Types c : TypedColumn T.

(** The container of the file, or an empty one. *)
Definition fixed_open (file : list T) : TypedColumn T := FixedColumn (Some file) (vlen file).
Definition fixed_dump (c : TypedColumn T) : option (list T) := buffer_ c.

Definition fixed_resize c (n : Z) : option (TypedColumn T) :=
  l ← buffer_ c; Some (FixedColumn (Some (Resize zero l n)) n).

Definition set_value c (index : Z) (val : T) : option (outcome unit * TypedColumn T) :=
  if index <? size_ c then
    l ← buffer_ c; l ← vset l index val; Some (Returned tt, FixedColumn (Some l) (size_ c))
  else Some (Thrown, c).

Definition fixed_resize_default c (n : Z) (default_value : Property) : option (outcome unit * TypedColumn T) :=
  if bool_decide (prop_type default_value = pu_type U) then
    let old_size := size_ c in
    c ← fixed_resize c n;
    v ← to_typed U default_value;
    c ← for_each (seqZ old_size (n - old_size)) c (fun i c => '(_, c) ← set_value c i v; Some c);
    Some (Returned tt, c)
  else Some (Thrown, c).

Definition fixed_set_any c (index : Z) (value : Property) (insert_safe : bool) : option (outcome unit * TypedColumn T) :=
  v ← to_typed U value; set_value c index v.

Definition fixed_get_prop c (index : Z) : option Property :=
  l ← buffer_ c; v ← vget l index; Some (to_prop U v).
End fixed.

(** ** String columns *)

(** The lead byte's length; 0 for a byte that starts no character. *)
Definition char_length (ch : Z) : Z :=
  if Z.land ch 128 =? 0 then 1
  else if Z.land ch 224 =? 192 then 2
  else if Z.land ch 240 =? 224 then 3
  else if Z.land ch 248 =? 240 then 4
  else 0.

(** The loop of [truncate_utf8] in at most [fuel] iterations; [None] when they are
    not enough.  Every iteration but one at a byte that starts no character
    advances, so [length + 1] are enough, or the loop does not end. *)
Fixpoint truncate_loop (fuel : nat) (str : list Z) (byte_count length : Z) : option Z :=
  match fuel with
  | O => None
  | S fuel =>
      ch ← vget (str ++ [0]) byte_count;
      if negb (ch =? 0) && (byte_count <? length) then
        let n := char_length ch in
        if length <? byte_count + n then Some byte_count else truncate_loop fuel str (byte_count + n) length
      else Some byte_count
  end.

Definition truncate_utf8 (str : list Z) (length : Z) : option (list Z) :=
  if vlen str <=? length then Some str
  else n ← truncate_loop (S (Z.to_nat length)) str 0 length; Some (take (Z.to_nat n) str).

(** Items are (offset, length) in bit-fields of 48 and 16 bits. *)
Definition string_item (offset length : Z) : Z * Z := (offset mod 2 ^ 48, length mod 2 ^ 16).

Record StringColumn := MkString {
  items : list (Z * Z);
  data : list Z;
  string_size : Z;
  pos : Z;
  width : Z
}.
Implicit Types c : StringColumn.

Definition with_data (d : list Z) c : StringColumn := MkString (items c) d (string_size c) (pos c) (width c).
Definition with_items (l : list (Z * Z)) (n : Z) c : StringColumn := MkString l (data c) n (pos c) (width c).
Definition with_pos (p : Z) c : StringColumn := MkString (items c) (data c) (string_size c) p (width c).

(** [memcpy] to [offset]. *)
Definition memcpy (d : list Z) (offset : Z) (s : list Z) : option (list Z) :=
  if (0 <=? offset) && (offset + vlen s <=? vlen d)
  then Some (take (Z.to_nat offset) d ++ s ++ drop (Z.to_nat (offset + vlen s)) d) else None.

Definition substr (d : list Z) (offset length : Z) : option (list Z) :=
  if offset + length <=? vlen d then Some (take (Z.to_nat length) (drop (Z.to_nat offset) d)) else None.

Definition get_view c (idx : Z) : option (list Z) := '(o, n) ← vget (items c) idx; substr (data c) o n.
Definition string_get_prop c (idx : Z) : option Property := s ← get_view c idx; Some (PVarchar s).

Definition string_set_value c (idx : Z) (val : list Z) : option (outcome unit * StringColumn) :=
  copied_val ← (if width c <=? vlen val then truncate_utf8 val (width c) else Some val);
  if (idx <? string_size c) && (pos c + vlen copied_val <=? vlen (data c)) then
    let offset := pos c in
    let c := with_pos (pos c + vlen copied_val) c in
    l ← vset (items c) idx (string_item offset (vlen copied_val));
    d ← memcpy (data c) offset copied_val;
    Some (Returned tt, with_data d (with_items l (string_size c) c))
  else Some (Thrown, c).

Definition string_set_any c (idx : Z) (value : Property) (insert_safe : bool) : option (outcome unit * StringColumn) :=
  if string_size c <=? idx then Some (Thrown, c)
  else
    dst_value ← to_typed string_utils value;
    let c := if vlen (data c) <? pos c + vlen dst_value then
        let new_avg_width := (pos c + idx) / (idx + 1) in
        with_data (Resize 0 (data c) (Z.max (string_size c * new_avg_width) (pos c + vlen dst_value))) c
      else c in
    string_set_value c idx dst_value.

Definition string_avg_size c : option Z :=
  if string_size c =? 0 then Some 0
  else
    '(total_length, non_zero_count) ← for_range (string_size c) (0, 0) (fun i '(t, n) =>
      '(_, l) ← vget (items c) i; Some (if 0 <? l then (t + l, n + 1) else (t, n)));
    Some (if 0 <? non_zero_count then total_length / non_zero_count else 0).

Definition string_resize c (size : Z) : option StringColumn :=
  if vlen (items c) =? 0 then
    Some (with_items (Resize (0, 0) (items c) size) size (with_data (Resize 0 (data c) (Z.max (size * width c) (pos c))) c))
  else
    avg ← string_avg_size c;
    let avg_size := if 0 <? avg then avg else width c in
    Some (with_items (Resize (0, 0) (items c) size) size (with_data (Resize 0 (data c) (Z.max (size * avg_size) (pos c))) c)).

(** [size_] is already the new one when the average is taken. *)
Definition string_resize_default c (size : Z) (default_value : Property) : option (outcome unit * StringColumn) :=
  if bool_decide (prop_type default_value = kVarchar) then
    let old_size := string_size c in
    default_str ← to_typed string_utils default_value;
    default_str ← truncate_utf8 default_str (width c);
    let new_items := if old_size <? size then size - old_size else 0 in
    let c := with_items (Resize (0, 0) (items c) size) size c in
    let needed := pos c + new_items * width c in
    avg ← string_avg_size c;
    let c := with_data (Resize 0 (data c) (Z.max needed (size * avg))) c in
    if vlen default_str =? 0 then Some (Returned tt, c)
    else if old_size <? size then
      '(r, c) ← string_set_value c old_size default_str;
      match r with
      | Thrown => Some (Thrown, c)
      | Returned _ =>
          item ← vget (items c) old_size;
          c ← for_each (seqZ (old_size + 1) (size - (old_size + 1))) c (fun i c =>
            l ← vset (items c) i item; Some (with_items l (string_size c) c));
          Some (Returned tt, c)
      end
    else Some (Returned tt, c)
  else Some (Thrown, c).

(** ** The files of a string column

    The containers of the [.items] and [.data] files without their headers, and
    the number in [.pos]. *)
Record StringFiles := MkStringFiles { file_items : list (Z * Z); file_data : list Z; file_pos : Z }.

(** The loop of [dump]: an item equal to the one before is written again as the
    last one written; [cur_item] is not initialised. *)
Definition dump_items c (cur_item : Z * Z) : option (list (Z * Z) * list Z * Z) :=
  '(_, _, out, d, count_no_empty) ← for_range (string_size c) ((0, 0), cur_item, [], [], 0)
    (fun i '(pre_item, cur_item, out, d, count_no_empty) =>
      item ← vget (items c) i;
      if (fst item =? fst pre_item) && (snd item =? snd pre_item)
      then Some (pre_item, cur_item, out ++ [cur_item], d, count_no_empty)
      else
        s ← substr (data c) (fst item) (snd item);
        let cur_item := string_item (vlen d) (snd item) in
        Some (item, cur_item, out ++ [cur_item], d ++ s, if 0 <? snd item then count_no_empty + 1 else count_no_empty));
  Some (out, d, count_no_empty).

Definition HEADER_SIZE : Z := 16.

(** The data file, header included, is cut or extended to the size that the
    average length gives; the position is that of the column. *)
Definition string_dump c (cur_item : Z * Z) : option StringFiles :=
  '(out, d, count_no_empty) ← dump_items c cur_item;
  let avg_size := if 0 <? count_no_empty then vlen d / count_no_empty else width c in
  let count := Z.max (string_size c + (string_size c + 3) / 4) 4096 in
  Some (MkStringFiles out (Resize 0 d (avg_size * count - HEADER_SIZE)) (pos c)).

Definition string_open (w : Z) (f : StringFiles) : StringColumn :=
  MkString (file_items f) (file_data f) (vlen (file_items f)) (file_pos f) w.

(** A column without files. *)
Definition string_new (w : Z) : StringColumn := MkString [] [] 0 0 w.

(** ** [ColumnBase]

    A column of one of the types, or of no values. *)
Inductive Column : Type :=
  | Fixed {T : Type} (U : PropUtils T) (zero : T) (c : TypedColumn T)
  | Str (c : StringColumn)
  | Nothing.

(** [CreateColumn], opened without files; [max_length] is the width of the string
    type.  It throws for the other types. *)
Definition CreateColumn (t : DataTypeId) (max_length : Z) : outcome Column :=
  match t with
  | kBoolean => Returned (Fixed bool_utils false (fixed_open []))
  | kInt32 => Returned (Fixed int32_utils 0 (fixed_open []))
  | kUInt32 => Returned (Fixed uint32_utils 0 (fixed_open []))
  | kInt64 => Returned (Fixed int64_utils 0 (fixed_open []))
  | kUInt64 => Returned (Fixed uint64_utils 0 (fixed_open []))
  | kFloat => Returned (Fixed float_utils 0 (fixed_open []))
  | kDouble => Returned (Fixed double_utils 0 (fixed_open []))
  | kTimestampMs => Returned (Fixed datetime_utils 0 (fixed_open []))
  | kDate => Returned (Fixed date_utils (Temporal.from_u32 0) (fixed_open []))
  | kInterval => Returned (Fixed interval_utils (Temporal.MkInterval 0 0 0) (fixed_open []))
  | kVarchar => Returned (Str (string_new (max_length mod 2 ^ 16)))
  | kEmpty => Returned Nothing
  | _ => Thrown
  end.

Definition col_type (c : Column) : DataTypeId :=
  match c with Fixed U _ _ => pu_type U | Str _ => kVarchar | Nothing => kEmpty end.
Definition col_size (c : Column) : Z :=
  match c with Fixed _ _ c => size_ c | Str c => string_size c | Nothing => 0 end.

Definition lift {A B} (f : A -> B) (m : option (outcome unit * A)) : option (outcome unit * B) := '(r, a) ← m; Some (r, f a).

Definition col_set_any (c : Column) (index : Z) (value : Property) (insert_safe : bool) : option (outcome unit * Column) :=
  match c with
  | Fixed U zero c => lift (Fixed U zero) (fixed_set_any U c index value insert_safe)
  | Str c => lift Str (string_set_any c index value insert_safe)
  | Nothing => Some (Returned tt, Nothing)
  end.
Definition col_set_prop (c : Column) (index : Z) (prop : Property) : option (outcome unit * Column) :=
  match c with
  | Fixed U zero c => lift (Fixed U zero) (v ← to_typed U prop; set_value c index v)
  | Str c => lift Str (v ← to_typed string_utils prop; string_set_value c index v)
  | Nothing => Some (Returned tt, Nothing)
  end.
Definition col_get_prop (c : Column) (index : Z) : option Property :=
  match c with
  | Fixed U _ c => fixed_get_prop U c index
  | Str c => string_get_prop c index
  | Nothing => Some PEmpty
  end.
Definition col_resize (c : Column) (n : Z) : option Column :=
  match c with
  | Fixed U zero c => c ← fixed_resize zero c n; Some (Fixed U zero c)
  | Str c => c ← string_resize c n; Some (Str c)
  | Nothing => Some Nothing
  end.
Definition col_resize_default (c : Column) (n : Z) (d : Property) : option (outcome unit * Column) :=
  match c with
  | Fixed U zero c => lift (Fixed U zero) (fixed_resize_default U zero c n d)
  | Str c => lift Str (string_resize_default c n d)
  | Nothing => Some (Returned tt, Nothing)
  end.
