(* ===== verification/ColumnTheorems.v ===== *)
(** * Columns as lists of values

    [truncate_utf8] keeps whole characters; a column behaves as the list of its
    values; what the files of a string column keep. *)
From S2P Require Import Prelude Storage Bitset Property Column.
#[local] Open Scope Z_scope.

(** ** Truncation *)

(** One character: its lead byte and the bytes that belong to it. *)
Definition is_char (c : list Z) : Prop :=
  match c with [] => False | lead :: _ => 0 < lead < 256 /\ vlen c = char_length lead end.

Lemma char_length_range ch : 0 <= char_length ch <= 4.
Proof. unfold char_length. repeat case_match; lia. Qed.

Lemma vget_middle {A} (l k : list A) x : vget (l ++ x :: k) (vlen l) = Some x.
Proof. unfold vget, vlen. rewrite (proj2 (Z.ltb_ge _ _)), Nat2Z.id by lia. by rewrite list_lookup_middle. Qed.

Lemma truncate_loop_chars fuel pre cs length : Forall is_char cs -> vlen pre <= length < vlen pre + Z.of_nat fuel ->
  exists k, (k <= List.length cs)%nat /\
    truncate_loop fuel (pre ++ concat cs) (vlen pre) length = Some (vlen pre + vlen (concat (take k cs))) /\
    vlen pre + vlen (concat (take k cs)) <= length /\
    (k = List.length cs \/ length < vlen pre + vlen (concat (take (S k) cs))).
Proof.
  revert pre cs. induction fuel as [|fuel IH]; intros pre cs Hcs Hl; [lia|]. cbn [truncate_loop].
  destruct Hcs as [|c cs Hc Hcs].
  - exists O. simpl. rewrite app_nil_r, vget_middle. cbn [mbind option_bind]. simpl. rewrite vlen_nil, Z.add_0_r. split_and!; auto. lia.
  - destruct c as [|lead rest]; [done|]. destruct Hc as [Hlead Hlen]. cbn [concat].
    rewrite <-(app_assoc pre _ [0]), <-!app_comm_cons, vget_middle. cbn [mbind option_bind]. rewrite (proj2 (Z.eqb_neq _ _)) by lia. simpl andb.
    destruct (Z.ltb_spec (vlen pre) length) as [Hlt|Hge].
    + rewrite <-Hlen. destruct (Z.ltb_spec length (vlen pre + vlen (lead :: rest))) as [Hover|Hfit].
      * exists O. simpl take. simpl concat. rewrite vlen_nil, Z.add_0_r, app_nil_r. split_and!; [lia|done|lia|by right].
      * destruct (IH (pre ++ lead :: rest) cs Hcs) as (k & Hk & Ht & Hle & Hmax).
        { rewrite vlen_app. pose proof (vlen_nonneg rest). unfold vlen in *. simpl List.length in *. lia. }
        rewrite vlen_app, <-app_assoc in Ht. rewrite vlen_app in Hle, Hmax. exists (S k). simpl List.length.
        change (take (S k) ((lead :: rest) :: cs)) with ((lead :: rest) :: take k cs).
        change (take (S (S k)) ((lead :: rest) :: cs)) with ((lead :: rest) :: take (S k) cs).
        cbn [concat]. rewrite !vlen_app, !Z.add_assoc. change ((lead :: rest) ++ concat cs) with (lead :: rest ++ concat cs) in Ht.
        split_and!; [lia|done|lia|]. destruct Hmax as [->|]; [by left|by right].
    + assert (vlen pre = length) as He by lia. exists O. simpl take. simpl concat. rewrite vlen_nil, Z.add_0_r, app_nil_r.
      split_and!; [lia|done|lia|]. right. rewrite Hlen. pose proof (vlen_nonneg rest). rewrite <-Hlen. unfold vlen in *. simpl List.length. lia.
Qed.

Lemma truncate_loop_stuck fuel pre lead rest length : 0 < lead -> char_length lead = 0 -> vlen pre < length ->
  truncate_loop fuel (pre ++ lead :: rest) (vlen pre) length = None.
Proof.
  intros Hlead Hc Hlt. induction fuel as [|fuel IH]; [done|]. cbn [truncate_loop]. rewrite <-app_assoc, <-app_comm_cons, vget_middle.
  cbn [mbind option_bind]. rewrite (proj2 (Z.eqb_neq _ _)), (proj2 (Z.ltb_lt _ _)), Hc by lia. simpl andb.
  rewrite Z.add_0_r, (proj2 (Z.ltb_ge _ _)) by lia. done.
Qed.

Lemma truncate_loop_never fuel pre cs lead rest length : Forall is_char cs -> 0 < lead -> char_length lead = 0 ->
  vlen pre + vlen (concat cs) < length -> truncate_loop fuel (pre ++ concat cs ++ lead :: rest) (vlen pre) length = None.
Proof.
  intros Hcs Hlead Hz. revert pre fuel. induction Hcs as [|c cs Hc Hcs IH]; intros pre fuel Hlt.
  - apply truncate_loop_stuck; [done|done|]. simpl in Hlt. rewrite vlen_nil in Hlt. lia.
  - destruct fuel as [|fuel]; [done|]. destruct c as [|l c]; [done|]. destruct Hc as [Hl Hlen]. cbn [concat] in *. cbn [truncate_loop].
    rewrite <-!app_assoc, <-!app_comm_cons, vget_middle. rewrite vlen_app in Hlt. pose proof (vlen_nonneg (concat cs)). pose proof (vlen_nonneg (l :: c)).
    cbn [mbind option_bind]. rewrite (proj2 (Z.eqb_neq _ _)), (proj2 (Z.ltb_lt (vlen pre) _)) by (lia || (unfold vlen in *; simpl in *; lia)). simpl andb.
    rewrite <-Hlen, (proj2 (Z.ltb_ge _ _)) by lia. specialize (IH (pre ++ l :: c) fuel). rewrite vlen_app in IH.
    rewrite <-app_assoc, <-app_comm_cons in IH. apply IH. lia.
Qed.

(** C37: [truncate_utf8] keeps as many whole characters as fit into [n] bytes.  At a
    byte that starts no character (a continuation byte, say) it never ends. *)
Theorem truncate_utf8_spec cs n : Forall is_char cs -> 0 <= n ->
  (exists k, truncate_utf8 (concat cs) n = Some (concat (take k cs)) /\ vlen (concat (take k cs)) <= n /\
     ((List.length cs <= k)%nat \/ n < vlen (concat (take (S k) cs)))) /\
  (forall lead rest, 0 < lead -> char_length lead = 0 -> vlen (concat cs) < n -> forall fuel,
     truncate_loop fuel (concat cs ++ lead :: rest) 0 n = None).
Proof.
  intros Hcs Hn. split.
  - unfold truncate_utf8. destruct (Z.leb_spec (vlen (concat cs)) n) as [Hle|Hgt].
    + exists (List.length cs). rewrite take_ge by done. split_and!; auto.
    + destruct (truncate_loop_chars (S (Z.to_nat n)) [] cs n Hcs) as (k & Hk & Ht & Hle & Hmax); [rewrite vlen_nil; lia|].
      rewrite vlen_nil, !Z.add_0_l in *. rewrite app_nil_l in Ht. rewrite Ht. cbn [mbind option_bind]. exists k.
      split_and!; [|done|destruct Hmax; [left; lia|by right]]. f_equal. unfold vlen. rewrite Nat2Z.id.
      rewrite <-(take_drop k cs) at 2. by rewrite concat_app, take_app_length.
  - intros lead rest Hl Hz Hlt fuel. by apply (truncate_loop_never fuel [] cs lead rest n).
Qed.

Lemma truncate_utf8_spec_witness :
  (exists k, truncate_utf8 [206; 177; 98; 206; 178] 4 = Some (concat (take k [[206; 177]; [98]; [206; 178]]))) /\
  (forall fuel, truncate_loop fuel ([97] ++ 128 :: [97]) 0 2 = None).
Proof.
  assert (Forall is_char [[206; 177]; [98]; [206; 178]]) as Hcs by (repeat constructor).
  assert (Forall is_char [[97]]) as Hc by (repeat constructor).
  split.
  - destruct (proj1 (truncate_utf8_spec _ 4 Hcs ltac:(done))) as (k & Hk & _). by exists k.
  - by apply (proj2 (truncate_utf8_spec _ 2 Hc ltac:(done))).
Defined.

(** ** A string column holds a list of strings *)

(** Where the bytes of an item are. *)
Definition view (d : list Z) (it : Z * Z) : list Z := take (Z.to_nat (snd it)) (drop (Z.to_nat (fst it)) d).

Record string_rel (c : StringColumn) (l : list (list Z)) : Prop := {
  sr_size : string_size c = vlen (items c);
  sr_items it : it ∈ items c -> 0 <= fst it /\ 0 <= snd it /\ fst it + snd it <= pos c;
  sr_data : 0 <= pos c <= vlen (data c);
  sr_width : 0 <= width c < 2 ^ 16;
  sr_views : l = view (data c) <$> items c
}.

Lemma string_new_rel w : 0 <= w < 2 ^ 16 -> string_rel (string_new w) [].
Proof. intros Hw. split; simpl; try done; try lia. intros it Hit. by apply elem_of_nil in Hit. Qed.

Lemma vlen_fmap {A B} (f : A -> B) l : vlen (f <$> l) = vlen l.
Proof. unfold vlen. by rewrite length_fmap. Qed.

Lemma get_view_rel c l i : string_rel c l -> 0 <= i < vlen l -> get_view c i = Some (vat l i).
Proof.
  intros [Hs Hi Hd _ ->] Hil. rewrite vlen_fmap in Hil. unfold get_view. rewrite vget_Some by done. cbn [mbind option_bind].
  pose proof (Hi (vat (items c) i) (vat_elem _ _ Hil)) as Hit. destruct (vat (items c) i) as [o n] eqn:E. simpl in Hit. unfold substr.
  rewrite (proj2 (Z.leb_le _ _)) by lia. rewrite vat_map by done. by rewrite E.
Qed.

Lemma vlen_Resize {A} (z : A) l n : 0 <= n -> vlen (Resize z l n) = n.
Proof. intros Hn. unfold Resize, vlen. rewrite length_app, length_take, length_replicate. lia. Qed.

Lemma vat_Resize {A} `{Inhabited A} (z : A) l n i : 0 <= i < vlen l -> i < n -> vat (Resize z l n) i = vat l i.
Proof.
  intros Hi Hn. unfold Resize. rewrite vat_app, decide_True by (unfold vlen in *; rewrite ?length_take; lia). apply vat_take. lia.
Qed.

Lemma view_Resize d it n : 0 <= fst it -> 0 <= snd it -> fst it + snd it <= Z.min (vlen d) n -> view (Resize 0 d n) it = view d it.
Proof.
  intros Ho Hn Hle. unfold view, Resize, vlen in *. rewrite drop_app_le by (rewrite length_take; lia).
  rewrite take_app_le by (rewrite length_drop, length_take; lia). rewrite skipn_firstn_comm, take_take. f_equal. lia.
Qed.

Lemma Resize_with_data c l n : string_rel c l -> pos c <= n -> string_rel (with_data (Resize 0 (data c) n) c) l.
Proof.
  intros [Hs Hi Hd Hw ->] Hn. split; simpl; try done; [rewrite vlen_Resize; lia|].
  apply list_fmap_ext. intros i it Hit. apply list_elem_of_lookup_2 in Hit. destruct (Hi it Hit) as (H1 & H2 & H3).
  symmetry. apply view_Resize; lia.
Qed.

Lemma Resize_with_items c l n : string_rel c l -> 0 <= n ->
  string_rel (with_items (Resize (0, 0) (items c) n) n c) (Resize [] l n).
Proof.
  intros [Hs Hi Hd Hw ->] Hn. split; simpl; try done; [by rewrite vlen_Resize| |].
  - intros it Hit. unfold Resize in Hit. apply elem_of_app in Hit as [Hit|Hit].
    + apply Hi. by eapply elem_of_take in Hit as (i & Hit & _); eapply list_elem_of_lookup_2.
    + apply elem_of_replicate in Hit as [-> _]. simpl. lia.
  - unfold Resize. rewrite fmap_app, fmap_take, fmap_replicate, length_fmap. done.
Qed.

Lemma memcpy_inv d o s d' : memcpy d o s = Some d' -> 0 <= o /\ o + vlen s <= vlen d /\
  d' = take (Z.to_nat o) d ++ s ++ drop (Z.to_nat (o + vlen s)) d.
Proof.
  unfold memcpy. destruct (Z.leb_spec 0 o); [|done]. destruct (Z.leb_spec (o + vlen s) (vlen d)); [|done]. by intros [= <-].
Qed.

Lemma vlen_memcpy d o s d' : memcpy d o s = Some d' -> vlen d' = vlen d.
Proof. intros (Ho & Hle & ->)%memcpy_inv. unfold vlen in *. rewrite !length_app, length_take, length_drop. lia. Qed.

Lemma view_memcpy_old d o s d' it : memcpy d o s = Some d' -> 0 <= fst it -> 0 <= snd it -> fst it + snd it <= o -> view d' it = view d it.
Proof.
  intros (Ho & Hle & ->)%memcpy_inv H1 H2 H3. unfold view, vlen in *.
  rewrite drop_app_le by (rewrite length_take; lia). rewrite take_app_le by (rewrite length_drop, length_take; lia).
  rewrite skipn_firstn_comm, take_take. f_equal. lia.
Qed.

Lemma view_memcpy_new d o s d' : memcpy d o s = Some d' -> view d' (o, vlen s) = s.
Proof.
  intros (Ho & Hle & ->)%memcpy_inv. unfold view, vlen in *. simpl.
  rewrite drop_app_ge by (rewrite length_take; lia). rewrite length_take, Nat2Z.id.
  assert ((Z.to_nat o - Z.to_nat o `min` List.length d)%nat = O) as -> by lia. rewrite drop_0. by rewrite take_app_length.
Qed.

(** The string as it is stored: cut when it is as long as the width. *)
Definition clip (w : Z) (s : list Z) : option (list Z) := if w <=? vlen s then truncate_utf8 s w else Some s.

Lemma truncate_utf8_vlen s w t : truncate_utf8 s w = Some t -> vlen t <= vlen s.
Proof.
  unfold truncate_utf8. destruct (_ <=? _); [by intros [= <-]|]. destruct (truncate_loop _ _ _ _); [|done]. intros [= <-].
  unfold vlen. rewrite length_take. lia.
Qed.

Lemma truncate_loop_bound fuel s b w n : b <= w -> truncate_loop fuel s b w = Some n -> n <= w.
Proof.
  revert b. induction fuel as [|fuel IH]; intros b Hb; [done|]. cbn [truncate_loop]. destruct (vget _ _) as [ch|]; [|done]. cbn [mbind option_bind].
  destruct (_ && _); [|intros [= <-]; lia]. destruct (Z.ltb_spec w (b + char_length ch)); [intros [= <-]; lia|]. intros Ht. by apply IH in Ht.
Qed.

Lemma clip_vlen w s t : 0 <= w -> clip w s = Some t -> vlen t <= vlen s /\ vlen t <= w.
Proof.
  intros Hw. unfold clip. destruct (Z.leb_spec w (vlen s)); [|intros [= <-]; lia]. intros Ht. split; [by eapply truncate_utf8_vlen|].
  unfold truncate_utf8 in Ht. destruct (Z.leb_spec (vlen s) w); [by injection Ht as <-|].
  destruct (truncate_loop _ _ _ _) as [n|] eqn:E; [|done]. injection Ht as <-. apply truncate_loop_bound in E; [|done]. unfold vlen in *. rewrite length_take. lia.
Qed.

Lemma clip_short w s t : 0 <= w -> vlen s <= w -> clip w s = Some t -> t = s.
Proof.
  intros Hw Hle. unfold clip, truncate_utf8. destruct (Z.leb_spec w (vlen s)); [|by intros [= <-]]. rewrite (proj2 (Z.leb_le _ _)) by done. by intros [= <-].
Qed.

Lemma string_set_value_eq c idx s : string_set_value c idx s =
  (t ← clip (width c) s;
   if (idx <? string_size c) && (pos c + vlen t <=? vlen (data c)) then
     l ← vset (items c) idx (string_item (pos c) (vlen t));
     d ← memcpy (data c) (pos c) t;
     Some (Returned tt, MkString l d (string_size c) (pos c + vlen t) (width c))
   else Some (Thrown, c)).
Proof. done. Qed.

Lemma string_set_value_rel c l idx s t : string_rel c l -> 0 <= idx < vlen l -> clip (width c) s = Some t ->
  pos c + vlen t <= vlen (data c) -> pos c < 2 ^ 48 ->
  wp (string_set_value c idx s) (fun r => fst r = Returned tt /\ string_rel (snd r) (vput l idx t) /\
    pos (snd r) = pos c + vlen t /\ width (snd r) = width c /\ items (snd r) = vput (items c) idx (pos c, vlen t)).
Proof.
  intros Hrel Hidx Ht Hfit Hpos. pose proof Hrel as [Hs Hi Hd Hw Hl]. destruct (clip_vlen _ _ _ (proj1 Hw) Ht) as [_ Htw]. pose proof (vlen_nonneg t).
  assert (vlen l = vlen (items c)) as Hll by (rewrite Hl; apply vlen_fmap).
  rewrite string_set_value_eq, Ht. cbn [mbind option_bind]. rewrite (proj2 (Z.ltb_lt idx _)), (proj2 (Z.leb_le _ _)) by lia. simpl andb.
  unfold string_item. rewrite !Z.mod_small by lia. rewrite vset_Some by lia. cbn [mbind option_bind].
  destruct (memcpy (data c) (pos c) t) as [d|] eqn:Em.
  2:{ unfold memcpy in Em. rewrite (proj2 (Z.leb_le 0 (pos c))), (proj2 (Z.leb_le _ (vlen (data c)))) in Em by lia. done. }
  cbn [mbind option_bind]. simpl. split; [done|]. split; [|done]. split; simpl.
  - by rewrite vlen_vput.
  - intros it Hit. apply list_elem_of_lookup in Hit as [k Hk]. unfold vput in Hk. apply list_lookup_insert_Some in Hk as [(_ & <- & _)|[_ Hk]].
    + simpl. lia.
    + apply list_elem_of_lookup_2 in Hk. destruct (Hi it Hk). lia.
  - rewrite (vlen_memcpy _ _ _ _ Em). lia.
  - done.
  - rewrite Hl. unfold vput. rewrite list_fmap_insert, (view_memcpy_new _ _ _ _ Em). f_equal.
    apply list_fmap_ext. intros k it Hit. apply list_elem_of_lookup_2 in Hit. destruct (Hi it Hit) as (H1 & H2 & H3). symmetry. by eapply view_memcpy_old.
Qed.

Lemma string_set_any_rel c l idx s t safe : string_rel c l -> 0 <= idx < vlen l -> clip (width c) s = Some t -> pos c < 2 ^ 48 ->
  wp (string_set_any c idx (PVarchar s) safe) (fun r => fst r = Returned tt /\ string_rel (snd r) (vput l idx t) /\
    pos (snd r) = pos c + vlen t /\ width (snd r) = width c).
Proof.
  intros Hrel Hidx Ht Hpos. pose proof Hrel as [Hs Hi Hd Hw Hl]. destruct (clip_vlen _ _ _ (proj1 Hw) Ht) as [Hts _]. pose proof (vlen_nonneg s).
  assert (vlen l = vlen (items c)) as Hll by (rewrite Hl; apply vlen_fmap).
  unfold string_set_any. rewrite (proj2 (Z.leb_gt _ _)) by lia. cbn [to_typed string_utils mbind option_bind].
  set (c' := if vlen (data c) <? pos c + vlen s then _ else c).
  assert (string_rel c' l /\ pos c' = pos c /\ width c' = width c /\ pos c + vlen t <= vlen (data c')) as (Hrel' & Hp & Hwd & Hfit).
  { unfold c'. destruct (Z.ltb_spec (vlen (data c)) (pos c + vlen s)); [|split_and!; done || lia].
    split_and!; [apply Resize_with_data; [done|lia]|done|done|]. simpl. rewrite vlen_Resize; lia. }
  clearbody c'. rewrite <-Hwd in Ht. rewrite <-Hp in Hpos, Hfit |- *. rewrite <-Hwd.
  eapply wp_mono; [by apply (string_set_value_rel c' l idx s t)|]. naive_solver.
Qed.

Lemma string_avg_size_total c l : string_rel c l -> exists a, string_avg_size c = Some a /\ 0 <= a.
Proof.
  intros [Hs Hi Hd Hw Hl]. unfold string_avg_size. destruct (_ =? 0); [by exists 0|]. pose proof (vlen_nonneg (items c)).
  apply wp_exists. apply wp_bind. eapply (wp_for_range (fun i p => 0 <= fst p /\ 0 <= snd p)); [lia|done| |].
  - intros i [a b] Hir [Ha Hb]. apply wp_bind, wp_vget; [lia|].
    rewrite Hs in Hir. pose proof (Hi (vat (items c) i) (vat_elem _ _ Hir)) as Hit. destruct (vat (items c) i) as [o n]. simpl in *. destruct (0 <? n); simpl; lia.
  - intros [a b] [Ha Hb]. simpl in *. destruct (Z.ltb_spec 0 b); simpl; [|lia]. by apply Z.div_pos.
Qed.

Lemma string_resize_rel c l n : string_rel c l -> 0 <= n ->
  wp (string_resize c n) (fun c' => string_rel c' (Resize [] l n) /\ pos c' = pos c /\ width c' = width c).
Proof.
  intros Hrel Hn. destruct (string_avg_size_total c l Hrel) as (a & Ha & _). unfold string_resize. rewrite Ha.
  assert (forall k, string_rel (with_items (Resize (0, 0) (items c) n) n (with_data (Resize 0 (data c) (Z.max k (pos c))) c)) (Resize [] l n)) as Hr.
  { intros k. apply (Resize_with_items (with_data _ c)); [|done]. apply Resize_with_data; [done|lia]. }
  destruct (_ =? 0); cbn [mbind option_bind]; apply wp_ret; (split; [apply Hr|done]).
Qed.

Lemma clip_truncate w s : 0 <= w -> clip w s = truncate_utf8 s w.
Proof.
  intros Hw. unfold clip, truncate_utf8. destruct (Z.leb_spec w (vlen s)); [done|]. by rewrite (proj2 (Z.leb_le _ _)) by lia.
Qed.

(** Writing one value to all places from [a] on. *)
Definition fill {A} (t : A) (l : list A) (idxs : list Z) : list A := foldl (fun l i => vput l i t) l idxs.

Lemma vlen_fill {A} (t : A) l idxs : vlen (fill t l idxs) = vlen l.
Proof. revert l. induction idxs as [|i idxs IH]; intros l; [done|]. simpl. by rewrite IH, vlen_vput. Qed.

Lemma fill_snoc {A} (t : A) l idxs i : fill t l (idxs ++ [i]) = vput (fill t l idxs) i t.
Proof. unfold fill. by rewrite foldl_app. Qed.

Lemma fill_seqZ {A} (t : A) l a k : 0 <= a -> vlen l = a + Z.of_nat k ->
  fill t l (seqZ a (Z.of_nat k)) = take (Z.to_nat a) l ++ replicate k t.
Proof.
  revert l a. induction k as [|k IH]; intros l a Ha Hl.
  - simpl. rewrite app_nil_r, take_ge; [done|]. unfold vlen in Hl. lia.
  - rewrite seqZ_cons by lia. cbn [fill foldl]. fold (fill t (vput l a t) (seqZ (Z.succ a) (Z.pred (Z.of_nat (S k))))).
    replace (Z.pred (Z.of_nat (S k))) with (Z.of_nat k) by lia. rewrite IH by (rewrite ?vlen_vput; lia).
    rewrite Z2Nat.inj_succ by done. unfold vput. erewrite take_S_r by (apply list_lookup_insert_eq; unfold vlen in Hl; lia).
    rewrite take_insert_ge by done. by rewrite <-app_assoc.
Qed.

Lemma set_item_rel c l i it t : string_rel c l -> 0 <= fst it -> 0 <= snd it -> fst it + snd it <= pos c -> view (data c) it = t ->
  string_rel (with_items (vput (items c) i it) (string_size c) c) (vput l i t).
Proof.
  intros [Hs Hi Hd Hw ->] H1 H2 H3 Hv. split; simpl; try done; [by rewrite vlen_vput| |].
  - intros it' Hit. apply list_elem_of_lookup in Hit as [k Hk]. unfold vput in Hk.
    apply list_lookup_insert_Some in Hk as [(_ & <- & _)|[_ Hk]]; [done|]. apply list_elem_of_lookup_2 in Hk. by apply Hi.
  - unfold vput. by rewrite list_fmap_insert, Hv.
Qed.

(** Copying the item of the first new row to the rows after it. *)
Lemma copy_items_rel c l t old idxs : string_rel c l -> 0 <= old < vlen l -> vat l old = t -> (forall i, i ∈ idxs -> 0 <= i < vlen l) ->
  wp (item ← vget (items c) old;
      c ← for_each idxs c (fun i c => k ← vset (items c) i item; Some (with_items k (string_size c) c));
      Some (Returned tt, c))
    (fun r => fst r = Returned tt /\ string_rel (snd r) (fill t l idxs) /\ pos (snd r) = pos c /\ width (snd r) = width c).
Proof.
  intros Hrel Hold Ht His. assert (vlen (items c) = vlen l) as Hni by (destruct Hrel as [_ _ _ _ ->]; by rewrite vlen_fmap).
  apply wp_bind, wp_vget; [lia|]. set (item := vat (items c) old).
  assert (view (data c) item = t) as Hv by (destruct Hrel as [_ _ _ _ ->]; rewrite <-Ht; symmetry; apply vat_map; lia).
  destruct (sr_items _ _ Hrel item (vat_elem _ _ ltac:(rewrite Hni; exact Hold))) as (H1 & H2 & H3).
  apply wp_bind. eapply (wp_for_each (fun acc c' => string_rel c' (fill t l acc) /\ pos c' = pos c /\ width c' = width c /\ data c' = data c)).
  - done.
  - intros acc i rest c' Hl (Hrel' & Hp & Hw & Hd). apply wp_bind, wp_vset.
    + assert (vlen (items c') = vlen l) as -> by (destruct Hrel' as [_ _ _ _ Hl']; by rewrite <-(vlen_fill t l acc), Hl', vlen_fmap).
      apply His. rewrite Hl. set_solver.
    + apply wp_ret. split; [|done]. rewrite fill_snoc. apply set_item_rel; [done|done|done|by rewrite Hp|by rewrite Hd].
  - intros c' (? & ? & ? & _). done.
Qed.

Lemma Resize_grow {A} (z t : A) l n : vlen l < n ->
  take (S (List.length l)) (vput (Resize z l n) (vlen l) t) ++ replicate (Z.to_nat (n - (vlen l + 1))) t = Resize t l n.
Proof.
  intros Hn. unfold Resize, vput, vlen in *. rewrite !(take_ge l) by lia. rewrite Nat2Z.id.
  replace (Z.to_nat n - List.length l)%nat with (S (Z.to_nat (n - (Z.of_nat (List.length l) + 1)))) by lia.
  cbn [replicate]. rewrite insert_app_r_alt, Nat.sub_diag by done. cbn [list_insert insert]. rewrite take_app_ge by lia.
  rewrite Nat.sub_succ_l, Nat.sub_diag by done. cbn [take]. by rewrite take_0, <-app_assoc.
Qed.

Lemma string_resize_default_rel c l n s t : string_rel c l -> 0 <= n -> truncate_utf8 s (width c) = Some t -> pos c < 2 ^ 48 ->
  wp (string_resize_default c n (PVarchar s)) (fun r => fst r = Returned tt /\ string_rel (snd r) (Resize t l n) /\
    width (snd r) = width c /\ pos (snd r) = if vlen l <? n then pos c + vlen t else pos c).
Proof.
  intros Hrel Hn Ht Hpos. pose proof Hrel as [Hs _ Hd Hw Hl]. pose proof (vlen_nonneg t) as Ht0.
  assert (vlen t <= width c) as Htw by (rewrite <-clip_truncate in Ht by lia; by apply (clip_vlen _ _ _ (proj1 Hw) Ht)).
  assert (string_size c = vlen l) as Hsl by (rewrite Hs, Hl; symmetry; apply vlen_fmap).
  unfold string_resize_default. rewrite bool_decide_eq_true_2 by done. cbv zeta. rewrite Hsl. cbn [to_typed string_utils mbind option_bind]. rewrite Ht. cbn [mbind option_bind].
  set (c1 := with_items (Resize (0, 0) (items c) n) n c).
  assert (string_rel c1 (Resize [] l n)) as Hrel1 by (by apply Resize_with_items).
  destruct (string_avg_size_total _ _ Hrel1) as (a & -> & Ha0). cbn [mbind option_bind].
  set (c2 := with_data _ c1).
  assert (string_rel c2 (Resize [] l n) /\ (vlen l < n -> pos c + vlen t <= vlen (data c2))) as [Hrel2 Hfit].
  { split; [apply Resize_with_data; [done|]; simpl; destruct (Z.ltb_spec (vlen l) n); nia|].
    intros Hlt. simpl. rewrite (proj2 (Z.ltb_lt _ _)), vlen_Resize by lia. nia. }
  destruct (Z.eqb_spec (vlen t) 0) as [E|E].
  - apply wp_ret. split; [done|]. destruct t; [|done]. simpl. split; [done|]. split; [done|]. destruct (vlen l <? n); [by rewrite vlen_nil, Z.add_0_r|done].
  - destruct (Z.ltb_spec (vlen l) n) as [Hlt|Hge].
    + apply wp_bind. assert (vlen (Resize [] l n) = n) as Hrl by (by apply vlen_Resize).
      eapply wp_mono; [apply (string_set_value_rel c2 (Resize [] l n) (vlen l) t t Hrel2)|].
      * rewrite Hrl. pose proof (vlen_nonneg l). lia.
      * rewrite clip_truncate by (simpl; lia). unfold truncate_utf8. simpl. by rewrite (proj2 (Z.leb_le _ _)).
      * by apply Hfit.
      * done.
      * intros [r c3] (Hr3 & Hrel3 & Hp3 & Hw3 & _). simpl in Hr3, Hrel3, Hp3, Hw3 |- *. subst r. pose proof (vlen_nonneg l) as Hl0. eapply wp_mono; [eapply (copy_items_rel c3 _ t (vlen l) (seqZ (vlen l + 1) (n - (vlen l + 1))) Hrel3)|].
        -- rewrite vlen_vput. lia.
        -- apply vat_vput_eq. lia.
        -- intros i Hi. apply elem_of_seqZ in Hi. rewrite vlen_vput. lia.
        -- intros [r c4] (Hr & Hrel4 & Hp4 & Hw4). simpl in *. split; [done|]. split; [|by rewrite Hw4, Hp4, Hw3, Hp3].
           replace (n - (vlen l + 1)) with (Z.of_nat (Z.to_nat (n - (vlen l + 1)))) in Hrel4 by lia.
           rewrite fill_seqZ in Hrel4 by (rewrite ?vlen_vput; lia). replace (Z.to_nat (vlen l + 1)) with (S (List.length l)) in Hrel4 by (unfold vlen; lia).
           by rewrite Resize_grow in Hrel4.
    + apply wp_ret. split; [done|]. simpl. split; [|done]. assert (Resize t l n = Resize [] l n) as ->; [|done].
      unfold Resize. replace (Z.to_nat n - List.length l)%nat with O by (unfold vlen in Hge; lia). done.
Qed.
