(* ===== verification/ColumnSpec.v ===== *)
(** * A column as an abstract list of property values

    [vals_exec] is what a column promises: a list of values of its type.
    [column_refines] shows that every column that [CreateColumn] makes keeps the
    promise; then what the files of a string column keep and lose. *)
From S2P Require Import Prelude Storage Bitset Property Column ColumnTheorems.
#[local] Open Scope Z_scope.

#[export] Instance Property_inhabited : Inhabited Property := populate PEmpty.

Inductive col_op :=
  | OpSet (index : Z) (value : Property) (insert_safe : bool)
  | OpResize (n : Z)
  | OpResizeDefault (n : Z) (default_value : Property)
  | OpGet (index : Z).

Inductive col_out := OutDone | OutThrown | OutProp (p : Property).

Definition out_of (r : outcome unit) : col_out := match r with Returned _ => OutDone | Thrown => OutThrown end.

(** A call on the column. *)
Definition col_exec (op : col_op) (c : Column) : option (col_out * Column) :=
  match op with
  | OpSet i p safe => '(r, c) ← col_set_any c i p safe; Some (out_of r, c)
  | OpResize n => c ← col_resize c n; Some (OutDone, c)
  | OpResizeDefault n p => '(r, c) ← col_resize_default c n p; Some (out_of r, c)
  | OpGet i => p ← col_get_prop c i; Some (OutProp p, c)
  end.

(** ** The specification *)

(** The value as a column of strings of [w] bytes stores it, and what it costs. *)
Definition clip_prop (w : Z) (p : Property) : option Property :=
  match p with PVarchar s => t ← truncate_utf8 s w; Some (PVarchar t) | _ => Some p end.
Definition prop_bytes (p : Property) : Z := match p with PVarchar s => vlen s | _ => 0 end.

(** The value of fresh rows. *)
Definition zero_prop (t : DataTypeId) : Property :=
  match t with kDate => PDate (Temporal.from_u32 0) | _ => match get_default_value t with Returned p => p | Thrown => PEmpty end end.

(** The values of a column of type [t] and width [w], with the bytes its strings
    have used; [None] for a call that breaks the contract: a value of another
    type, a read past the end, a negative size, strings beyond the 48-bit
    offsets, or a string whose truncation does not end. *)
Definition vals_exec (t : DataTypeId) (w : Z) (op : col_op) (st : list Property * Z) : option (col_out * (list Property * Z)) :=
  let '(vals, used) := st in
  match op with
  | OpSet i p _ =>
      if bool_decide (prop_type p = t) && (0 <=? i) then
        if vlen vals <=? i then Some (OutThrown, st)
        else
          q ← clip_prop w p;
          if used <? 2 ^ 48 then Some (OutDone, (vput vals i q, used + prop_bytes q)) else None
      else None
  | OpResize n => if 0 <=? n then Some (OutDone, (Resize (zero_prop t) vals n, used)) else None
  | OpResizeDefault n p =>
      if negb (bool_decide (prop_type p = t)) then Some (OutThrown, st)
      else if 0 <=? n then
        q ← clip_prop w p;
        if used <? 2 ^ 48 then Some (OutDone, (Resize q vals n, if vlen vals <? n then used + prop_bytes q else used)) else None
      else None
  | OpGet i => if (0 <=? i) && (i <? vlen vals) then Some (OutProp (vat vals i), st) else None
  end.

Fixpoint run {S} (exec : col_op -> S -> option (col_out * S)) (ops : list col_op) (s : S) : option (list col_out * S) :=
  match ops with
  | [] => Some ([], s)
  | op :: ops => '(o, s) ← exec op s; '(os, s) ← run exec ops s; Some (o :: os, s)
  end.

(** ** The relation *)

Record fixed_rel {T} (U : PropUtils T) (c : TypedColumn T) (vals : list Property) : Prop := {
  fr_laws : PropLaws U;
  fr_string : pu_type U <> kVarchar;
  fr_vals : exists l, c = FixedColumn (Some l) (vlen l) /\ vals = to_prop U <$> l
}.

Definition col_rel (t : DataTypeId) (w : Z) (c : Column) (st : list Property * Z) : Prop :=
  match c with
  | Fixed U zero c => pu_type U = t /\ to_prop U zero = zero_prop t /\ fixed_rel U c (fst st) /\ snd st = 0
  | Str c => t = kVarchar /\ width c = w /\ pos c = snd st /\ exists l, string_rel c l /\ fst st = PVarchar <$> l
  | Nothing => False
  end.

(** Every value of a column has its type. *)
Lemma col_rel_types t w c st : col_rel t w c st -> forall p, p ∈ fst st -> prop_type p = t.
Proof.
  destruct c as [T U zero c|c|]; [| |done].
  - intros (<- & _ & [HL _ (l & _ & ->)] & _) p Hp. apply list_elem_of_fmap in Hp as (v & -> & _). apply pl_type.
  - intros (-> & _ & _ & l & _ & ->) p Hp. by apply list_elem_of_fmap in Hp as (v & -> & _).
Qed.

(** ** Fixed-width columns *)

Lemma Resize_fmap {A B} (f : A -> B) z l n : f <$> Resize z l n = Resize (f z) (f <$> l) n.
Proof. unfold Resize. by rewrite fmap_app, fmap_take, fmap_replicate, length_fmap. Qed.

Lemma fill_Resize {A} (z t : A) l n : 0 <= n -> fill t (Resize z l n) (seqZ (vlen l) (n - vlen l)) = Resize t l n.
Proof.
  intros Hn. pose proof (vlen_nonneg l) as Hl. destruct (Z.le_gt_cases (vlen l) n) as [Hle|Hgt].
  - replace (n - vlen l) with (Z.of_nat (Z.to_nat (n - vlen l))) by lia. rewrite fill_seqZ by (rewrite ?vlen_Resize; lia).
    unfold Resize, vlen in *. rewrite Nat2Z.id, !(take_ge l) by lia. rewrite take_app_length. f_equal. f_equal. lia.
  - rewrite seqZ_nil by lia. cbn [fill foldl]. unfold Resize, vlen in *. f_equal.
    by replace (Z.to_nat n - List.length l)%nat with O by lia.
Qed.

Section fixed.
Context {T : Type} (U : PropUtils T) {HL : PropLaws U}.

Lemma set_value_Some (l : list T) i v : 0 <= i < vlen l ->
  set_value (FixedColumn (Some l) (vlen l)) i v = Some (Returned tt, FixedColumn (Some (vput l i v)) (vlen (vput l i v))).
Proof. intros Hi. unfold set_value. cbn [size_ buffer_]. rewrite (proj2 (Z.ltb_lt _ _)) by lia. cbn [mbind option_bind]. by rewrite vset_Some, vlen_vput. Qed.

Lemma fill_column (l : list T) v idxs : (forall i, i ∈ idxs -> 0 <= i < vlen l) ->
  for_each idxs (FixedColumn (Some l) (vlen l)) (fun i c => '(_, c) ← set_value c i v; Some c) =
  Some (FixedColumn (Some (fill v l idxs)) (vlen (fill v l idxs))).
Proof.
  revert l. induction idxs as [|i idxs IH]; intros l Hi; [done|]. cbn [for_each]. rewrite set_value_Some by (apply Hi; left). cbn [mbind option_bind].
  rewrite IH; [done|]. intros j Hj. rewrite vlen_vput. apply Hi. by right.
Qed.

Lemma fixed_resize_default_eq (zero : T) (l : list T) n p v : 0 <= n -> prop_type p = pu_type U -> to_typed U p = Some v ->
  fixed_resize_default U zero (FixedColumn (Some l) (vlen l)) n p =
  Some (Returned tt, FixedColumn (Some (Resize v l n)) (vlen (Resize v l n))).
Proof.
  intros Hn Ht Hv. unfold fixed_resize_default. rewrite bool_decide_eq_true_2 by done. cbn [fixed_resize buffer_ size_ mbind option_bind]. rewrite Hv.
  cbn [mbind option_bind]. assert (FixedColumn (Some (Resize zero l n)) n = FixedColumn (Some (Resize zero l n)) (vlen (Resize zero l n))) as ->
    by (by rewrite vlen_Resize).
  rewrite fill_column.
  - cbn [mbind option_bind]. by rewrite fill_Resize.
  - intros i Hi. apply elem_of_seqZ in Hi. rewrite vlen_Resize by done. pose proof (vlen_nonneg l). lia.
Qed.
End fixed.

(** ** Each call *)

Lemma clip_prop_other w p t : prop_type p = t -> t <> kVarchar -> clip_prop w p = Some p /\ prop_bytes p = 0.
Proof. intros <- Ht. by destruct p. Qed.

Lemma fixed_exec {T} (U : PropUtils T) zero c w op st out st' : col_rel (pu_type U) w (Fixed U zero c) st ->
  vals_exec (pu_type U) w op st = Some (out, st') -> exists c', col_exec op (Fixed U zero c) = Some (out, Fixed U zero c') /\
  col_rel (pu_type U) w (Fixed U zero c') st'.
Proof.
  destruct st as [vals used]. intros (_ & Hz & [HL Hstr (l & -> & Hvals)] & Hu) Hx. simpl in Hvals, Hu. subst vals used.
  assert (forall l', col_rel (pu_type U) w (Fixed U zero (FixedColumn (Some l') (vlen l'))) (to_prop U <$> l', 0)) as Hrel.
  { intros l'. split_and!; try done. split; [done|done|by exists l']. }
  assert (vlen (to_prop U <$> l) = vlen l) as Hlen by apply vlen_fmap.
  pose (populate zero : Inhabited T) as HI.
  destruct op as [i p safe|n|n p|i]; cbn [vals_exec] in Hx.
  - case_bool_decide as Ht; [|done]. destruct (Z.leb_spec 0 i); [|done]. simpl andb in Hx. cbn iota in Hx.
    destruct (pl_total p Ht) as [v Hv]. cbn [col_exec col_set_any]. unfold fixed_set_any. rewrite Hv. cbn [mbind option_bind].
    rewrite Hlen in Hx. destruct (Z.leb_spec (vlen l) i).
    + injection Hx as <- <-. unfold set_value. cbn [size_]. rewrite (proj2 (Z.ltb_ge _ _)) by lia. eexists. split; [done|apply Hrel].
    + destruct (clip_prop_other w p _ Ht Hstr) as [Hc Hb]. rewrite Hc in Hx. cbn [mbind option_bind] in Hx. rewrite Hb in Hx. injection Hx as <- <-.
      rewrite set_value_Some by lia. eexists. split; [done|]. rewrite (pl_typed p v Ht Hv). unfold vput. rewrite <-list_fmap_insert. apply Hrel.
  - destruct (Z.leb_spec 0 n); [|done]. injection Hx as <- <-. cbn [col_exec col_resize fixed_resize buffer_ mbind option_bind].
    eexists. split; [done|]. rewrite <-Hz, <-Resize_fmap. pose proof (Hrel (Resize zero l n)) as Hr. by rewrite vlen_Resize in Hr.
  - cbn [col_exec col_resize_default]. case_bool_decide as Ht; simpl negb in Hx; cbn iota in Hx.
    + destruct (Z.leb_spec 0 n); [|done]. destruct (pl_total p Ht) as [v Hv]. destruct (clip_prop_other w p _ Ht Hstr) as [Hc Hb].
      rewrite Hc in Hx. cbn [mbind option_bind] in Hx. rewrite Hb in Hx. injection Hx as <- <-.
      rewrite (fixed_resize_default_eq U zero l n p v) by done. eexists. split; [done|]. rewrite (pl_typed p v Ht Hv), <-Resize_fmap.
      destruct (_ <? _); apply Hrel.
    + injection Hx as <- <-. unfold fixed_resize_default. rewrite bool_decide_eq_false_2 by done. eexists. split; [done|apply Hrel].
  - destruct (Z.leb_spec 0 i); [|done]. rewrite Hlen in Hx. destruct (Z.ltb_spec i (vlen l)); [|done]. injection Hx as <- <-.
    cbn [col_exec col_get_prop fixed_get_prop buffer_ mbind option_bind]. rewrite vget_Some by lia. cbn [mbind option_bind].
    eexists. split; [|apply Hrel]. do 3 f_equal. symmetry. by apply (vat_map (to_prop U) l i).
Qed.

Lemma string_exec w c op st out st' : col_rel kVarchar w (Str c) st ->
  vals_exec kVarchar w op st = Some (out, st') -> exists c', col_exec op (Str c) = Some (out, Str c') /\ col_rel kVarchar w (Str c') st'.
Proof.
  destruct st as [vals used]. intros (_ & Hw & Hp & l & Hrel & Hvals) Hx. simpl in Hp, Hvals. subst vals used.
  assert (forall c' l' u, width c' = w -> string_rel c' l' -> pos c' = u -> col_rel kVarchar w (Str c') (PVarchar <$> l', u)) as Hret.
  { intros c' l' u ? ? ?. split_and!; try done. by exists l'. }
  pose proof (sr_width _ _ Hrel) as Hwr. rewrite Hw in Hwr. pose proof (sr_size _ _ Hrel) as Hs.
  assert (vlen (PVarchar <$> l) = vlen l) as Hlen by apply vlen_fmap.
  assert (string_size c = vlen l) as Hsl by (rewrite Hs, (sr_views _ _ Hrel); symmetry; apply vlen_fmap).
  destruct op as [i p safe|n|n p|i]; cbn [vals_exec] in Hx; rewrite ?Hlen in Hx.
  - case_bool_decide as Ht; [|done]. destruct (Z.leb_spec 0 i); [|done]. simpl andb in Hx. cbn iota in Hx. destruct p as [| | | | | |s| | | | |]; try done.
    cbn [col_exec col_set_any]. destruct (Z.leb_spec (vlen l) i).
    + injection Hx as <- <-. unfold string_set_any. rewrite Hsl, (proj2 (Z.leb_le _ _)) by done. exists c. split; [done|by apply Hret].
    + cbn [clip_prop] in Hx. destruct (truncate_utf8 s w) as [t|] eqn:Et; [|done]. cbn [mbind option_bind prop_bytes] in Hx.
      destruct (Z.ltb_spec (pos c) (2 ^ 48)); [|done]. injection Hx as <- <-.
      destruct (proj1 (wp_exists _ _) (string_set_any_rel c l i s t safe Hrel ltac:(lia) ltac:(by rewrite clip_truncate, Hw by lia) ltac:(done)))
        as ([r c'] & Hc & Hr & Hrel' & Hp' & Hw').
      simpl in Hr, Hrel', Hp', Hw'. subst r. rewrite Hc. exists c'. split; [done|]. unfold vput. rewrite <-list_fmap_insert. apply Hret; [by rewrite Hw'|done|done].
  - destruct (Z.leb_spec 0 n); [|done]. injection Hx as <- <-. cbn [col_exec col_resize].
    destruct (proj1 (wp_exists _ _) (string_resize_rel c l n Hrel ltac:(done))) as (c' & Hc & Hrel' & Hp' & Hw'). rewrite Hc. exists c'. split; [done|].
    change (zero_prop kVarchar) with (PVarchar []). rewrite <-Resize_fmap. apply Hret; [by rewrite Hw'|done|done].
  - cbn [col_exec col_resize_default]. case_bool_decide as Ht; simpl negb in Hx; cbn iota in Hx.
    + destruct (Z.leb_spec 0 n); [|done]. destruct p as [| | | | | |s| | | | |]; try done. cbn [clip_prop] in Hx.
      destruct (truncate_utf8 s w) as [t|] eqn:Et; [|done]. cbn [mbind option_bind prop_bytes] in Hx.
      destruct (Z.ltb_spec (pos c) (2 ^ 48)); [|done]. injection Hx as <- <-.
      destruct (proj1 (wp_exists _ _) (string_resize_default_rel c l n s t Hrel ltac:(done) ltac:(by rewrite Hw) ltac:(done)))
        as ([r c'] & Hc & Hr & Hrel' & Hw' & Hp').
      simpl in Hr, Hrel', Hp', Hw'. subst r. rewrite Hc. exists c'. split; [done|]. rewrite <-Resize_fmap. apply Hret; [by rewrite Hw'|done|done].
    + injection Hx as <- <-. unfold string_resize_default. rewrite bool_decide_eq_false_2 by done. exists c. split; [done|by apply Hret].
  - destruct (Z.leb_spec 0 i); [|done]. destruct (Z.ltb_spec i (vlen l)); [|done]. injection Hx as <- <-.
    cbn [col_exec col_get_prop]. unfold string_get_prop. rewrite (get_view_rel c l i Hrel) by done. exists c. split; [|by apply Hret].
    cbn [mbind option_bind]. do 3 f_equal. symmetry. by apply (vat_map PVarchar l i).
Qed.

(** One call on any column that stands for the values. *)
Lemma col_exec_rel t w c op st out st' : col_rel t w c st -> vals_exec t w op st = Some (out, st') ->
  exists c', col_exec op c = Some (out, c') /\ col_rel t w c' st'.
Proof.
  intros Hrel Hx. destruct c as [T U zero c|c|]; [| |done].
  - pose proof Hrel as [<- _]. destruct (fixed_exec U zero c w op st out st' Hrel Hx) as (c' & ? & ?). by exists (Fixed U zero c').
  - pose proof Hrel as [-> _]. destruct (string_exec w c op st out st' Hrel Hx) as (c' & ? & ?). by exists (Str c').
Qed.

Lemma col_run_rel t w ops c st outs st' : col_rel t w c st -> run (vals_exec t w) ops st = Some (outs, st') ->
  exists c', run col_exec ops c = Some (outs, c') /\ col_rel t w c' st'.
Proof.
  revert c st outs. induction ops as [|op ops IH]; intros c st outs Hrel Hx; cbn [run] in Hx |- *.
  - injection Hx as <- <-. by exists c.
  - destruct (vals_exec t w op st) as [[o st1]|] eqn:E1; [|done]. cbn [mbind option_bind] in Hx.
    destruct (run _ ops st1) as [[os st2]|] eqn:E2; [|done]. injection Hx as <- <-.
    destruct (col_exec_rel t w c op st o st1 Hrel E1) as (c1 & -> & Hrel1). cbn [mbind option_bind].
    destruct (IH c1 st1 os Hrel1 E2) as (c2 & -> & Hrel2). by exists c2.
Qed.

Lemma CreateColumn_rel t w c : t <> kEmpty -> CreateColumn t w = Returned c -> col_rel t (w mod 2 ^ 16) c ([], 0).
Proof.
  intros Hne Hc. destruct t; try done; injection Hc as <-; try (split_and!; try done; split; [apply _|done|by exists []]).
  split_and!; try done. exists []. split; [|done]. apply string_new_rel, Z.mod_pos_bound. done.
Qed.

Lemma col_get_prop_rel t w c st i : col_rel t w c st -> 0 <= i < vlen (fst st) -> col_get_prop c i = Some (vat (fst st) i).
Proof.
  intros Hrel Hi. destruct (col_exec_rel t w c (OpGet i) st (OutProp (vat (fst st) i)) st Hrel) as (c' & Hx & _).
  - destruct st as [vals used]. simpl in *. by rewrite (proj2 (Z.leb_le _ _)), (proj2 (Z.ltb_lt _ _)) by lia.
  - cbn [col_exec] in Hx. destruct (col_get_prop c i); [|done]. by injection Hx as ->.
Qed.

Lemma col_size_rel t w c st : col_rel t w c st -> col_size c = vlen (fst st) /\ col_type c = t.
Proof.
  destruct c as [T U zero c|c|]; [| |done].
  - intros (<- & _ & [_ _ (l & -> & ->)] & _). simpl. by rewrite vlen_fmap.
  - intros (-> & _ & _ & l & Hrel & ->). simpl. rewrite (sr_size _ _ Hrel), (sr_views _ _ Hrel). by rewrite !vlen_fmap.
Qed.

Lemma vals_run_types t w ops st outs st' : (forall p, p ∈ fst st -> prop_type p = t) -> prop_type (zero_prop t) = t ->
  run (vals_exec t w) ops st = Some (outs, st') -> (forall p, p ∈ fst st' -> prop_type p = t) /\ (forall p, OutProp p ∈ outs -> prop_type p = t).
Proof.
  intros Hst Hz. revert st outs Hst. induction ops as [|op ops IH]; intros st outs Hst Hx; cbn [run] in Hx.
  { injection Hx as <- <-. split; [done|]. intros p Hp. by apply elem_of_nil in Hp. }
  destruct (vals_exec t w op st) as [[o st1]|] eqn:E1; [|done]. cbn [mbind option_bind] in Hx.
  destruct (run _ ops st1) as [[os st2]|] eqn:E2; [|done]. injection Hx as <- <-.
  assert (forall p q, clip_prop w p = Some q -> prop_type q = prop_type p) as Hclip.
  { intros p q. destruct p; try (by intros [= <-]). cbn [clip_prop]. destruct (truncate_utf8 _ _); [|done]. by intros [= <-]. }
  assert (forall z l n p, prop_type z = t -> (forall p, p ∈ l -> prop_type p = t) -> p ∈ Resize z l n -> prop_type p = t) as Hresize.
  { intros z l n p Hzt Hl Hp. unfold Resize in Hp. apply elem_of_app in Hp as [Hp|Hp]; [|by apply elem_of_replicate in Hp as [-> _]].
    apply elem_of_take in Hp as (i & Hp & _). apply list_elem_of_lookup_2 in Hp. by apply Hl. }
  assert ((forall p, p ∈ fst st1 -> prop_type p = t) /\ (forall p, o = OutProp p -> prop_type p = t)) as [Hst1 Ho].
  { destruct st as [vals used]. simpl in Hst. destruct op as [i p safe|n|n p|i]; cbn [vals_exec] in E1.
    - case_bool_decide as Ht; [|done]. destruct (0 <=? i); [|done]. simpl in E1. destruct (_ <=? i); [by injection E1 as <- <-|].
      destruct (clip_prop w p) as [q|] eqn:Eq; [|done]. cbn [mbind option_bind] in E1. destruct (_ <? _); [|done]. injection E1 as <- <-. split; [|done].
      simpl. intros p' Hp'. unfold vput in Hp'. apply list_elem_of_lookup in Hp' as [k Hk]. apply list_lookup_insert_Some in Hk as [(_ & <- & _)|[_ Hk]].
      + by rewrite (Hclip p q Eq).
      + apply list_elem_of_lookup_2 in Hk. by apply Hst.
    - destruct (0 <=? n); [|done]. injection E1 as <- <-. split; [|done]. simpl. intros p' Hp'. by eapply Hresize.
    - case_bool_decide as Ht; simpl in E1; [|by injection E1 as <- <-]. destruct (0 <=? n); [|done].
      destruct (clip_prop w p) as [q|] eqn:Eq; [|done]. cbn [mbind option_bind] in E1. destruct (used <? _); [|done]. injection E1 as <- <-. split; [|done].
      simpl. intros p' Hp'. eapply Hresize; [|done|done]. by rewrite (Hclip p q Eq).
    - destruct (_ && _) eqn:Ei; [|done]. injection E1 as <- <-. split; [done|]. intros p [= <-]. apply Hst, vat_elem. lia. }
  destruct (IH st1 os Hst1 E2) as [H1 H2]. split; [done|]. intros p Hp. apply elem_of_cons in Hp as [Hp|Hp]; [by apply Ho|by apply H2].
Qed.

(** ** The files of a string column *)

(** After [i] rows: what was written so far reads as the first [i] strings. *)
Record dumped (l : list (list Z)) (its : list (Z * Z)) (i : Z)
    (st : (Z * Z) * (Z * Z) * list (Z * Z) * list Z * Z) : Prop := {
  du_pre : fst (fst (fst (fst st))) = if 0 <? i then vat its (i - 1) else (0, 0);
  du_cur : 0 < i -> snd (fst (fst (fst st))) = vat (snd (fst (fst st))) (i - 1);
  du_len : vlen (snd (fst (fst st))) = i;
  du_views j : 0 <= j < i -> let it := vat (snd (fst (fst st))) j in
    0 <= fst it /\ 0 <= snd it /\ fst it + snd it <= vlen (snd (fst st)) /\ view (snd (fst st)) it = vat l j;
  du_last : 0 < i -> snd (fst st) <> [] -> exists j, 0 <= j < i /\ 0 < snd (vat (snd (fst (fst st))) j) /\
    fst (vat (snd (fst (fst st))) j) + snd (vat (snd (fst (fst st))) j) = vlen (snd (fst st));
  du_size : vlen (snd (fst st)) <= i * (2 ^ 16 - 1);
  du_count : 0 <= snd st
}.

Lemma view_app d s it : 0 <= fst it -> 0 <= snd it -> fst it + snd it <= vlen d -> view (d ++ s) it = view d it.
Proof.
  intros H1 H2 H3. unfold view, vlen in *. rewrite drop_app_le by lia. by rewrite take_app_le by (rewrite length_drop; lia).
Qed.

Lemma view_end d s : view (d ++ s) (vlen d, vlen s) = s.
Proof. unfold view, vlen. simpl. by rewrite !Nat2Z.id, drop_app_length, take_ge. Qed.

Section dump.
Context (c : StringColumn) (l : list (list Z)) (junk : Z * Z) (Hrel : string_rel c l) (Hshort : forall s, s ∈ l -> vlen s < 2 ^ 16).

Lemma row_item i : 0 <= i < vlen l -> let it := vat (items c) i in
  0 <= fst it /\ 0 <= snd it < 2 ^ 16 /\ fst it + snd it <= vlen (data c) /\ view (data c) it = vat l i /\ vlen (vat l i) = snd it.
Proof.
  intros Hir it. destruct Hrel as [Hs Hi Hd _ Hl]. assert (vlen (items c) = vlen l) as Hil by (rewrite Hl; symmetry; apply vlen_fmap).
  assert (view (data c) it = vat l i) as Hvi by (rewrite Hl; symmetry; apply vat_map; lia).
  destruct (Hi it (vat_elem _ _ ltac:(rewrite Hil; exact Hir))) as (H1 & H2 & H3). pose proof (Hshort _ (vat_elem _ _ Hir)) as Hsh.
  assert (vlen (vat l i) = snd it) as Hlen by (rewrite <-Hvi; unfold view, vlen in *; rewrite length_take, length_drop; lia).
  split_and!; try done; lia.
Qed.

(** A row with the item of the row before. *)
Lemma dumped_repeat i cur out d n : 0 < i < vlen l -> dumped l (items c) i (vat (items c) i, cur, out, d, n) ->
  dumped l (items c) (i + 1) (vat (items c) i, cur, out ++ [cur], d, n).
Proof.
  intros Hir [Hpre Hcur Hol Hv Hlast Hsz Hn]. cbn [fst snd] in *. rewrite (proj2 (Z.ltb_lt _ _)) in Hpre by lia. split; cbn [fst snd].
  - rewrite (proj2 (Z.ltb_lt _ _)) by lia. by replace (i + 1 - 1) with i by lia.
  - intros _. rewrite vat_app, decide_False by lia. by replace (i + 1 - 1 - vlen out) with 0 by lia.
  - rewrite vlen_app, vlen_one. lia.
  - intros j Hj. rewrite vat_app by lia. case_decide; [by apply Hv; lia|]. assert (j = i) as -> by lia. rewrite Hol, Z.sub_diag. change (vat [cur] 0) with cur.
    rewrite Hcur by lia. destruct (Hv (i - 1) ltac:(lia)) as (V1 & V2 & V3 & V4). split_and!; [done|done|done|]. rewrite V4.
    pose proof (row_item i ltac:(lia)) as (_ & _ & _ & R1 & _). pose proof (row_item (i - 1) ltac:(lia)) as (_ & _ & _ & R2 & _).
    rewrite <-R1, <-R2. by rewrite Hpre.
  - intros _ Hdn. destruct (Hlast ltac:(lia) Hdn) as (j & Hj & L1 & L2). exists j. rewrite vat_app, decide_True by lia. split_and!; [lia|lia|done|done].
  - lia.
  - done.
Qed.

(** A row with another item. *)
Lemma dumped_new i pre cur out d n n' : 0 <= i < vlen l -> 0 <= n' -> dumped l (items c) i (pre, cur, out, d, n) ->
  let it := (vlen d, snd (vat (items c) i)) in
  dumped l (items c) (i + 1) (vat (items c) i, it, out ++ [it], d ++ vat l i, n').
Proof.
  intros Hir Hn' [Hpre Hcur Hol Hv Hlast Hsz Hn] it. cbn [fst snd] in *. destruct (row_item i Hir) as (H1 & H2 & H3 & Hvi & Hlen). pose proof (vlen_nonneg d) as Hd0.
  split; cbn [fst snd].
  - rewrite (proj2 (Z.ltb_lt _ _)) by lia. by replace (i + 1 - 1) with i by lia.
  - intros _. rewrite vat_app, decide_False by lia. by replace (i + 1 - 1 - vlen out) with 0 by lia.
  - rewrite vlen_app, vlen_one. lia.
  - intros j Hj. rewrite vat_app, vlen_app by lia. case_decide.
    + destruct (Hv j ltac:(lia)) as (V1 & V2 & V3 & V4). split_and!; [done|done|lia|]. by rewrite view_app.
    + assert (j = i) as -> by lia. rewrite Hol, Z.sub_diag. change (vat [it] 0) with it. unfold it. cbn [fst snd]. split_and!; [lia|lia|lia|]. rewrite <-Hlen. apply view_end.
  - intros _ Hdn. destruct (decide (snd (vat (items c) i) = 0)) as [E0|E0].
    + assert (vat l i = []) as Hnil by (apply length_zero_iff_nil; unfold vlen in Hlen; lia). rewrite Hnil, app_nil_r in *. destruct (Z.ltb_spec 0 i).
      * destruct (Hlast ltac:(lia) Hdn) as (j & Hj & L1 & L2). exists j. rewrite vat_app, decide_True by lia. split_and!; [lia|lia|done|done].
      * exfalso. apply Hdn, length_zero_iff_nil. unfold vlen in *. lia.
    + exists i. rewrite vat_app, decide_False by lia. rewrite Hol, Z.sub_diag. change (vat [it] 0) with it. unfold it. cbn [fst snd]. rewrite vlen_app. split_and!; lia.
  - rewrite vlen_app. lia.
  - done.
Qed.

Lemma dump_items_spec : (l <> [] -> vat (items c) 0 <> (0, 0)) -> vlen l <= 2 ^ 32 ->
  wp (dump_items c junk) (fun '(out, d, n) => exists pre cur, dumped l (items c) (vlen l) (pre, cur, out, d, n)).
Proof.
  intros Hfirst Hlen. assert (string_size c = vlen l /\ vlen (items c) = vlen l) as [Hsl Hil]
    by (destruct Hrel as [Hs _ _ _ Hl]; rewrite Hs, Hl; split; symmetry; apply vlen_fmap).
  unfold dump_items. rewrite Hsl. apply wp_bind. eapply (wp_for_range (dumped l (items c))).
  - apply vlen_nonneg.
  - split; simpl; try done; lia.
  - intros i [[[[pre cur] out] d] n] Hir HP. apply wp_bind, wp_vget; [lia|]. destruct (row_item i Hir) as (H1 & H2 & H3 & Hvi & Hli). set (it := vat (items c) i) in *.
    destruct ((fst it =? fst pre) && (snd it =? snd pre)) eqn:E.
    + apply andb_prop in E as [E1%Z.eqb_eq E2%Z.eqb_eq]. assert (pre = it) as -> by (destruct it, pre; simpl in *; congruence).
      apply wp_ret, dumped_repeat; [|done]. destruct (Z.ltb_spec 0 i) as [H0|H0]; [lia|]. exfalso. assert (i = 0) as -> by lia.
      apply Hfirst; [intros E0; rewrite E0 in Hir; unfold vlen in Hir; simpl in Hir; lia|]. apply (du_pre _ _ _ _ HP).
    + unfold substr. rewrite (proj2 (Z.leb_le _ _)) by lia. cbn [mbind option_bind]. fold (view (data c) it). rewrite Hvi.
      pose proof (du_size _ _ _ _ HP) as Hsz. pose proof (du_count _ _ _ _ HP) as Hn. simpl in Hsz, Hn. pose proof (vlen_nonneg d).
      unfold string_item. rewrite !Z.mod_small by lia. apply wp_ret, (dumped_new i pre cur out d n); [done|destruct (0 <? snd it); lia|done].
  - intros [[[[pre cur] out] d] n] HP. simpl. by exists pre, cur.
Qed.
End dump.

(** Every row of the checkpoint reads back exactly if the file holds every byte. *)
Lemma dumped_readable l its st w n p : dumped l its (vlen l) st ->
  let '(_, _, out, d, _) := st in
  (forall i, 0 <= i < vlen l -> get_view (string_open w (MkStringFiles out (Resize 0 d n) p)) i = Some (vat l i)) <-> vlen d <= Z.max 0 n.
Proof.
  destruct st as [[[[pre cur] out] d] m]. intros [_ _ Hol Hv Hlast Hsz _]. cbn [fst snd] in *.
  assert (vlen (Resize 0 d n) = Z.max 0 n) as Hrs by (unfold vlen, Resize; rewrite length_app, length_take, length_replicate; lia).
  split.
  - intros Hall. destruct (decide (d = [])) as [->|Hne]; [unfold vlen; simpl; lia|].
    pose proof (vlen_nonneg l). destruct (Z.lt_ge_cases 0 (vlen l)) as [Hl|Hl].
    + destruct (Hlast Hl Hne) as (j & Hj & L1 & L2). specialize (Hall j Hj). unfold get_view in Hall. cbn [items string_open file_items] in Hall.
      rewrite vget_Some in Hall by lia. cbn [mbind option_bind] in Hall. destruct (vat out j) as [o len]. cbn [fst snd data string_open file_data] in *.
      unfold substr in Hall. destruct (Z.leb_spec (o + len) (vlen (Resize 0 d n))); [lia|done].
    + replace (vlen l) with 0 in Hsz by lia. lia.
  - intros Hn i Hi. destruct (Hv i Hi) as (V1 & V2 & V3 & V4). unfold get_view. cbn [items string_open file_items]. rewrite vget_Some by lia.
    cbn [mbind option_bind]. destruct (vat out i) as [o len]. cbn [fst snd data string_open file_data] in *. unfold substr.
    rewrite (proj2 (Z.leb_le _ _)) by lia. f_equal. rewrite <-V4. unfold view, Resize, vlen in *. cbn [fst snd].
    rewrite (take_ge d) by lia. rewrite drop_app_le by lia. by rewrite take_app_le by (rewrite length_drop; lia).
Qed.

(** ** The theorems *)

(** C21: Every column of values that [CreateColumn] makes is the list of its values: a
    sequence of [set_any], [resize], [resize] with a default and [get_prop] calls
    that keeps the contract returns and throws exactly as on the list, and the
    column then holds the list, its length and values of its type only; strings
    are cut to the width at a character boundary, fresh rows are zero. *)
Theorem column_refines t max_length c ops outs vals used : t <> kEmpty -> CreateColumn t max_length = Returned c ->
  run (vals_exec t (max_length mod 2 ^ 16)) ops ([], 0) = Some (outs, (vals, used)) ->
  exists c', run col_exec ops c = Some (outs, c') /\ col_type c' = t /\ col_size c' = vlen vals /\
    (forall i, 0 <= i < vlen vals -> col_get_prop c' i = Some (vat vals i)) /\
    (forall p, p ∈ vals \/ OutProp p ∈ outs -> prop_type p = t).
Proof.
  intros Hne Hc Hx. pose proof (CreateColumn_rel t max_length c Hne Hc) as Hrel.
  destruct (col_run_rel t _ ops c _ outs _ Hrel Hx) as (c' & Hrun & Hrel'). exists c'. destruct (col_size_rel _ _ _ _ Hrel') as [Hs Ht].
  destruct (vals_run_types t _ ops _ outs _ (fun p (Hp : p ∈ []) => False_ind _ (proj1 (elem_of_nil p) Hp)) ltac:(by destruct t) Hx) as [Hv Ho].
  split_and!; [done|done|done| |].
  - intros i Hi. by apply (col_get_prop_rel t _ _ _ i Hrel').
  - intros p [Hp|Hp]; [by apply Hv|by apply Ho].
Qed.

Definition column_demo : list col_op :=
  [OpResizeDefault 3 (PVarchar [97; 98; 99]); OpSet 1 (PVarchar [195; 164; 195; 164; 195]) false; OpSet 3 (PVarchar []) true;
   OpSet 0 (PVarchar [120]) false; OpResize 4; OpGet 1; OpGet 3].

Lemma column_refines_witness :
  exists c', run col_exec column_demo (Str (string_new 4)) =
    Some ([OutDone; OutDone; OutThrown; OutDone; OutDone; OutProp (PVarchar [195; 164; 195; 164]); OutProp (PVarchar [])], c') /\
  col_get_prop c' 2 = Some (PVarchar [97; 98; 99]).
Proof.
  destruct (column_refines kVarchar 4 (Str (string_new 4)) column_demo
    [OutDone; OutDone; OutThrown; OutDone; OutDone; OutProp (PVarchar [195; 164; 195; 164]); OutProp (PVarchar [])]
    [PVarchar [120]; PVarchar [195; 164; 195; 164]; PVarchar [97; 98; 99]; PVarchar []] 8 ltac:(discriminate) eq_refl ltac:(vm_compute; reflexivity))
    as (c' & Hrun & _ & _ & Hget & _).
  exists c'. split; [exact Hrun|]. apply (Hget 2). vm_compute. split; [discriminate|reflexivity].
Defined.

(** A checkpoint of a string column writes the strings row by row, a run of rows
    with the same item once, and then cuts the file to the size that the average
    length of the strings written, rounded down, gives for the capacity, the
    header included.  Every row reads back after a reopen exactly if that size
    holds all the bytes; the width and the write position are the column's. *)
Theorem string_checkpoint c l cur_item : string_rel c l -> (forall s, s ∈ l -> vlen s < 2 ^ 16) ->
  (l <> [] -> vat (items c) 0 <> (0, 0)) -> vlen l <= 2 ^ 32 ->
  exists out d n f, dump_items c cur_item = Some (out, d, n) /\ string_dump c cur_item = Some f /\
    (let avg_size := if 0 <? n then vlen d / n else width c in
     (forall i, 0 <= i < vlen l -> get_view (string_open (width c) f) i = Some (vat l i)) <->
     vlen d <= Z.max 0 (avg_size * Z.max (vlen l + (vlen l + 3) / 4) 4096 - HEADER_SIZE)) /\
    string_size (string_open (width c) f) = vlen l /\ pos (string_open (width c) f) = pos c.
Proof.
  intros Hrel Hshort Hfirst Hlen. destruct (proj1 (wp_exists _ _) (dump_items_spec c l cur_item Hrel Hshort Hfirst Hlen)) as ([[out d] n] & Hd & pre & cur & HP).
  assert (string_size c = vlen l) as Hsl by (destruct Hrel as [Hs _ _ _ Hl]; rewrite Hs, Hl; symmetry; apply vlen_fmap).
  exists out, d, n. unfold string_dump. rewrite Hd. cbn [mbind option_bind]. rewrite Hsl. eexists. split; [done|]. split; [done|]. split_and!.
  - apply (dumped_readable l _ _ _ _ _ HP).
  - apply (du_len _ _ _ _ HP).
  - done.
Qed.

Definition checkpoint_demo : StringColumn := MkString [(3, 2); (0, 3); (0, 3)] [97; 98; 99; 100; 101; 0] 3 5 4.

Lemma string_checkpoint_witness :
  exists f, string_dump checkpoint_demo (7, 7) = Some f /\ get_view (string_open 4 f) 0 = Some [100; 101] /\
    get_view (string_open 4 f) 2 = Some [97; 98; 99].
Proof.
  destruct (string_checkpoint checkpoint_demo [[100; 101]; [97; 98; 99]; [97; 98; 99]] (7, 7)) as (out & d & n & f & Hd & Hf & [_ Hall] & _).
  - split; [reflexivity| | | |reflexivity].
    + intros it Hit. simpl items in Hit. repeat (apply elem_of_cons in Hit as [->|Hit]; [simpl; lia|]). by apply (elem_of_nil it) in Hit.
    + vm_compute. split; discriminate.
    + simpl. lia.
  - intros s Hs. repeat (apply elem_of_cons in Hs as [->|Hs]; [reflexivity|]). by apply (elem_of_nil s) in Hs.
  - intros _. discriminate.
  - discriminate.
  - exists f. injection Hd as <- <- <-. split; [done|]. split; apply Hall; [|done| |done]; vm_compute; discriminate.
Defined.

(** [n] rows of two bytes, but for the last. *)
Definition short_item (n i : Z) : Z * Z := (2 * i, Z.min 2 (2 * n - 1 - 2 * i)).
Definition short_rows (n : Z) : StringColumn :=
  MkString (short_item n <$> seqZ 0 n) (replicate (Z.to_nat (2 * n - 1)) 97) n (2 * n - 1) 4.

Lemma vget_short n k i : 0 <= i < k -> vget (short_item n <$> seqZ 0 k) i = Some (short_item n i).
Proof.
  intros Hi. unfold vget. rewrite (proj2 (Z.ltb_ge i 0)) by lia. rewrite list_lookup_fmap, lookup_seqZ_lt by lia. simpl. do 2 f_equal. lia.
Qed.

Lemma dump_short n cur_item : 1 <= n < 2 ^ 40 ->
  dump_items (short_rows n) cur_item = Some (short_item n <$> seqZ 0 n, replicate (Z.to_nat (2 * n - 1)) 97, n).
Proof.
  intros Hn. unfold dump_items. cbn [string_size short_rows].
  enough (wp (for_range n (0, 0, cur_item, [], [], 0) (fun i '(pre_item, cur_item, out, d, count_no_empty) =>
      item ← vget (items (short_rows n)) i;
      if (fst item =? fst pre_item) && (snd item =? snd pre_item) then Some (pre_item, cur_item, out ++ [cur_item], d, count_no_empty)
      else s ← substr (data (short_rows n)) (fst item) (snd item);
        Some (item, string_item (vlen d) (snd item), out ++ [string_item (vlen d) (snd item)], d ++ s, if 0 <? snd item then count_no_empty + 1 else count_no_empty)))
      (fun '(_, _, out, d, m) => out = short_item n <$> seqZ 0 n /\ d = replicate (Z.to_nat (2 * n - 1)) 97 /\ m = n)) as Hw.
  { apply wp_exists in Hw as ([[[[pre cur] out] d] m] & -> & -> & -> & ->). done. }
  apply (wp_for_range (fun i '(pre, _, out, d, m) => (0 < i -> pre = short_item n (i - 1)) /\ (i = 0 -> pre = (0, 0)) /\
    out = short_item n <$> seqZ 0 i /\ d = replicate (Z.to_nat (Z.min (2 * i) (2 * n - 1))) 97 /\ m = i)); [lia| | |].
  - split_and!; [lia|done|done| |done]. by rewrite Z.min_l by lia.
  - intros i [[[[pre cur] out] d] m] Hi (Hpre & Hpre0 & -> & -> & ->). apply wp_bind. cbn [items short_rows]. rewrite vget_short by done. apply wp_ret.
    assert ((fst (short_item n i) =? fst pre) && (snd (short_item n i) =? snd pre) = false) as ->.
    { apply andb_false_iff. destruct (Z.eq_dec i 0) as [->|]; [right; rewrite Hpre0 by done|left; rewrite Hpre by lia]; apply Z.eqb_neq; simpl; lia. }
    cbn [data short_rows]. change (fst (short_item n i)) with (2 * i). change (snd (short_item n i)) with (Z.min 2 (2 * n - 1 - 2 * i)). unfold substr.
    rewrite (proj2 (Z.leb_le _ _)) by (unfold vlen; rewrite length_replicate; lia).
    cbn [mbind option_bind]. apply wp_ret. split_and!; [intros _; f_equal; lia|lia| | |].
    + rewrite seqZ_snoc, fmap_app by lia. do 2 f_equal. cbn [fst snd]. unfold string_item, vlen. rewrite length_replicate, !Z.mod_small by lia. unfold short_item.
      apply (f_equal (fun x => [(x, Z.min 2 (2 * n - 1 - 2 * i))])). lia.
    + rewrite drop_replicate, take_replicate, <-replicate_add. f_equal. lia.
    + cbn [fst snd]. rewrite (proj2 (Z.ltb_lt _ _)) by (simpl; lia). lia.
  - intros [[[[pre cur] out] d] m] (_ & _ & -> & -> & ->). split_and!; [done| |done]. f_equal. lia.
Qed.

Lemma short_rows_lost n cur_item : 2041 <= n < 2 ^ 40 -> get_view (short_rows n) (n - 1) = Some [97] /\
  exists f, string_dump (short_rows n) cur_item = Some f /\ get_view (string_open 4 f) (n - 1) = None.
Proof.
  intros Hn. split.
  - unfold get_view. cbn [items short_rows]. rewrite vget_short by lia. cbn [mbind option_bind]. unfold short_item, substr. cbn [data short_rows].
    rewrite (proj2 (Z.leb_le _ _)) by (unfold vlen; rewrite length_replicate; lia). rewrite drop_replicate, take_replicate.
    by replace (Z.to_nat (Z.min 2 (2 * n - 1 - 2 * (n - 1))) `min` (Z.to_nat (2 * n - 1) - Z.to_nat (2 * (n - 1))))%nat with 1%nat by lia.
  - unfold string_dump. rewrite dump_short by lia. cbn [mbind option_bind]. eexists. split; [done|]. unfold get_view. cbn [items string_open file_items].
    rewrite vget_short by lia. cbn [mbind option_bind data string_open file_data]. unfold short_item, substr. rewrite (proj2 (Z.leb_gt _ _)); [done|].
    rewrite (proj2 (Z.ltb_lt _ _)) by lia. cbn [string_size short_rows]. unfold vlen, HEADER_SIZE. rewrite length_replicate.
    replace (Z.of_nat (Z.to_nat (2 * n - 1)) / n) with 1 by (apply (Z.div_unique _ _ _ (n - 1)); lia).
    unfold Resize. rewrite length_app, length_take, !length_replicate. pose proof (Z.mul_div_le (n + 3) 4 ltac:(lia)). lia.
Qed.

(** A checkpoint can lose strings, damage them later, or write an item that is
    not initialised: of 2041 or more rows of two bytes but for the last, the
    last cannot be read after a reopen; rows given one default are written twice when another row
    is between, but the write position is that of the column, so that setting row
    0 after the reopen changes row 2; and the first rows of an unset column are written as
    whatever the local variable held. *)
Theorem string_checkpoint_flaws :
  (forall n cur_item, 2041 <= n < 2 ^ 40 -> get_view (short_rows n) (n - 1) = Some [97] /\
     exists f, string_dump (short_rows n) cur_item = Some f /\ get_view (string_open 4 f) (n - 1) = None) /\
  (exists c f c', string_resize_default (string_new 2) 3 (PVarchar [97; 98]) = Some (Returned tt, c) /\
     string_set_any c 1 (PVarchar [99; 100]) false = Some (Returned tt, c') /\ get_view c' 2 = Some [97; 98] /\
     string_dump c' (0, 0) = Some f /\ get_view (string_open 2 f) 2 = Some [97; 98] /\
     exists c'', string_set_any (string_open 2 f) 0 (PVarchar [101; 102]) false = Some (Returned tt, c'') /\
       get_view c'' 0 = Some [101; 102] /\ get_view c'' 2 = Some [101; 102]) /\
  (forall cur_item, exists c f, string_resize (string_new 2) 1 = Some c /\ get_view c 0 = Some [] /\
     string_dump c cur_item = Some f /\ file_items f = [cur_item]).
Proof.
  split_and!.
  - apply short_rows_lost.
  - do 3 eexists. split_and!; [vm_compute; done..|]. eexists. split_and!; vm_compute; done.
  - intros cur. do 2 eexists. split_and!; [vm_compute; done..| |]; [unfold string_dump; reflexivity|reflexivity].
Qed.
