(* ===== verification/IdIndexer.v ===== *)
(** * The index of primary keys

    [LFIndexer<vid_t>] (include/neug/utils/id_indexer.h): a column with the key of
    every vertex, and an open hash table with linear probing from keys to vertices.
    Keys are never removed.  The hash functions of the standard library are the
    parameter [std_hash]; the hash policy comes first.  The size of the table is computed in double precision,
    which is exact below [2 ^ 52]. *)
From S2P Require Import Prelude Storage Bitset Property Column.
#[local] Open Scope Z_scope.

(** *** Prime-number hash policy

    [prime_number_hash_policy] (src/third_party/flat_hash_map/flat_hash_map.hpp): the
    number of slots is a prime of a fixed list, and a hash value goes to its remainder.
    A pointer to a function [mod<p>] is its index in the array [mod_functions], which is
    the same in the three places where the source has it. *)

Definition prime_list : list Z :=
  [2; 3; 5; 7; 11; 13; 17; 23; 29; 37; 47; 59; 73; 97; 127; 151; 197; 251; 313; 397; 499; 631; 797; 1009; 1259; 1597;
   2011; 2539; 3203; 4027; 5087; 6421; 8089; 10193; 12853; 16193; 20399; 25717; 32401; 40823; 51437; 64811; 81649;
   102877; 129607; 163307; 205759; 259229; 326617; 411527; 518509; 653267; 823117; 1037059; 1306601; 1646237;
   2074129; 2613229; 3292489; 4148279; 5226491; 6584983; 8296553; 10453007; 13169977; 16593127; 20906033; 26339969;
   33186281; 41812097; 52679969; 66372617; 83624237; 105359939; 132745199; 167248483; 210719881; 265490441;
   334496971; 421439783; 530980861; 668993977; 842879579; 1061961721; 1337987929; 1685759167; 2123923447; 2675975881;
   3371518343; 4247846927; 5351951779; 6743036717; 8495693897; 10703903591; 13486073473; 16991387857; 21407807219;
   26972146961; 33982775741; 42815614441; 53944293929; 67965551447; 85631228929; 107888587883; 135931102921;
   171262457903; 215777175787; 271862205833; 342524915839; 431554351609; 543724411781; 685049831731; 863108703229;
   1087448823553; 1370099663459; 1726217406467; 2174897647073; 2740199326961; 3452434812973; 4349795294267;
   5480398654009; 6904869625999; 8699590588571; 10960797308051; 13809739252051; 17399181177241; 21921594616111;
   27619478504183; 34798362354533; 43843189232363; 55238957008387; 69596724709081; 87686378464759; 110477914016779;
   139193449418173; 175372756929481; 220955828033581; 278386898836457; 350745513859007; 441911656067171;
   556773797672909; 701491027718027; 883823312134381; 1113547595345903; 1402982055436147; 1767646624268779;
   2227095190691797; 2805964110872297; 3535293248537579; 4454190381383713; 5611928221744609; 7070586497075177;
   8908380762767489; 11223856443489329; 14141172994150357; 17816761525534927; 22447712886978529; 28282345988300791;
   35633523051069991; 44895425773957261; 56564691976601587; 71267046102139967; 89790851547914507; 113129383953203213;
   142534092204280003; 179581703095829107; 226258767906406483; 285068184408560057; 359163406191658253;
   452517535812813007; 570136368817120201; 718326812383316683; 905035071625626043; 1140272737634240411;
   1436653624766633509; 1810070143251252131; 2280545475268481167; 2873307249533267101; 3620140286502504283;
   4561090950536962147; 5746614499066534157; 7240280573005008577; 9122181901073924329; 11493228998133068689;
   14480561146010017169; 18446744073709551557].

(** [mod0] is the constant 0. *)
Definition mod_function (index h : Z) : option Z :=
  if index =? 0 then Some 0 else p ← vget prime_list (index - 1); Some (h mod p).

(** [std::lower_bound] over all but the last prime; the new size and the function. *)
Fixpoint lower_bound (l : list Z) (n : Z) : Z :=
  match l with [] => 0 | p :: l => if p <? n then 1 + lower_bound l n else 0 end.

Definition next_size_over (size : Z) : option (Z * Z) :=
  let found := lower_bound (take (length prime_list - 1) prime_list) size in
  p ← vget prime_list found; Some (p, 1 + found).

(** The policy is its current function. *)
Definition fresh_policy : Z := 0.
Definition commit (policy new_mod_function : Z) : Z := new_mod_function.
Definition index_for_hash (policy h num_slots_minus_one : Z) : option Z := mod_function policy h.
Definition get_mod_function_index (policy : Z) : Z := policy.
Definition set_mod_function_by_index (index : Z) : option Z := if index <? 1 + vlen prime_list then Some index else None.

(** ** Sizes *)

Lemma lower_bound_range l n : 0 <= lower_bound l n <= vlen l.
Proof. induction l as [|p l IH]; [simpl; unfold vlen; simpl; lia|]. cbn [lower_bound]. unfold vlen in *. simpl. destruct (p <? n); lia. Qed.

Lemma lower_bound_above l n : lower_bound l n < vlen l -> n <= vat l (lower_bound l n).
Proof.
  induction l as [|p l IH]; [unfold vlen; simpl; lia|]. cbn [lower_bound]. destruct (Z.ltb_spec p n) as [Hlt|Hge].
  - intros Hl. pose proof (lower_bound_range l n). replace (vat (p :: l) (1 + lower_bound l n)) with (vat l (lower_bound l n)).
    + apply IH. unfold vlen in *. simpl in *. lia.
    + unfold vat. by replace (Z.to_nat (1 + lower_bound l n)) with (S (Z.to_nat (lower_bound l n))) by lia.
  - intros _. unfold vat. simpl. lia.
Qed.

Definition largest_prime : Z := 18446744073709551557.

(** The next size is a prime of the list that is large enough, and hash values go
    below it. *)
Lemma next_size_over_spec n : n <= largest_prime -> exists p f, next_size_over n = Some (p, f) /\ n <= p /\ 0 < p <= largest_prime /\
  1 <= f <= vlen prime_list /\ (forall h m, index_for_hash f h m = Some (h mod p)) /\ set_mod_function_by_index f = Some f.
Proof.
  intros Hn. unfold next_size_over. set (init := take (length prime_list - 1) prime_list). set (found := lower_bound init n).
  pose proof (lower_bound_range init n) as Hr. fold found in Hr.
  assert (vlen init = 185) as Hi by reflexivity. assert (vlen prime_list = 186) as Hp by reflexivity.
  assert (vget prime_list found = Some (vat prime_list found)) as Hg by (apply vget_Some; lia).
  rewrite Hg. cbn [mbind option_bind]. exists (vat prime_list found), (1 + found).
  assert (n <= vat prime_list found) as Hle.
  { destruct (decide (found = 185)) as [->|Hne]; [exact Hn|]. assert (found < vlen init) as Hlt by lia.
    pose proof (lower_bound_above init n Hlt) as Ha. fold found in Ha. unfold init in Ha. change (length prime_list - 1)%nat with (Z.to_nat 185) in Ha. rewrite vat_take in Ha by lia. exact Ha. }
  assert (forall p, p ∈ prime_list -> 0 < p <= largest_prime) as Hpos.
  { apply Forall_forall. apply (bool_decide_unpack _). vm_compute. exact I. }
  split_and!; [done|done|apply Hpos, vat_elem; lia|apply Hpos, vat_elem; lia|lia|lia| |].
  - intros h m. unfold index_for_hash, mod_function. rewrite (proj2 (Z.eqb_neq _ _)) by lia. replace (1 + found - 1) with found by lia. by rewrite Hg.
  - unfold set_mod_function_by_index. by rewrite (proj2 (Z.ltb_lt _ _)) by lia.
Qed.

(** *** The index *)

(** [GHash<int64_t>]. *)
Definition hash_int64 (val : Z) : Z :=
  let x := to_u64 val in
  let x := to_u64 (Z.lxor x (Z.shiftr x 30) * 0xbf58476d1ce4e5b9) in
  let x := to_u64 (Z.lxor x (Z.shiftr x 27) * 0x94d049bb133111eb) in
  Z.lxor x (Z.shiftr x 31).

Definition STRING_DEFAULT_MAX_LENGTH : Z := 256.

(** [LFIndexer::sentinel]. *)
Definition sentinel : Z := 2 ^ 32 - 1.

Record LFIndexer := MkIndexer {
  indices_ : option (list Z);        (* [None] is the null pointer *)
  indices_size_ : Z;
  num_elements_ : Z;
  num_slots_minus_one_ : Z;
  keys_ : option Column;
  hash_policy_ : Z
}.

Definition new_indexer : LFIndexer := MkIndexer None 0 0 0 None fresh_policy.

Definition with_keys (c : Column) (s : LFIndexer) : LFIndexer :=
  MkIndexer (indices_ s) (indices_size_ s) (num_elements_ s) (num_slots_minus_one_ s) (Some c) (hash_policy_ s).
Definition with_indices (l : list Z) (s : LFIndexer) : LFIndexer :=
  MkIndexer (Some l) (indices_size_ s) (num_elements_ s) (num_slots_minus_one_ s) (keys_ s) (hash_policy_ s).
Definition with_num (n : Z) (s : LFIndexer) : LFIndexer :=
  MkIndexer (indices_ s) (indices_size_ s) (to_u64 n) (num_slots_minus_one_ s) (keys_ s) (hash_policy_ s).

(** [init]; [extra] is the length of the string type, if there is one. *)
Definition init_indexer (type : DataTypeId) (extra : option Z) (s : LFIndexer) : outcome LFIndexer :=
  match type with
  | kInt64 | kInt32 | kUInt64 | kUInt32 =>
      match CreateColumn type 0 with Returned c => Returned (with_keys c s) | Thrown => Thrown end
  | kVarchar =>
      match CreateColumn type (default STRING_DEFAULT_MAX_LENGTH extra) with Returned c => Returned (with_keys c s) | Thrown => Thrown end
  | _ => Thrown
  end.

(** [open_in_memory] when there are no files. *)
Definition open_empty (s : LFIndexer) : LFIndexer :=
  MkIndexer (Some []) 0 0 (num_slots_minus_one_ s) (keys_ s) (hash_policy_ s).

Section indexer.
Context `{!Memory} (std_hash : Property -> Z).
Implicit Types s : LFIndexer.

(** [GHash<Property>]; it throws for the other types. *)
Definition hasher_ (val : Property) : outcome Z :=
  match val with
  | PInt64 v => Returned (hash_int64 v)
  | PInt32 _ | PUInt64 _ | PUInt32 _ | PVarchar _ => Returned (std_hash val)
  | _ => Thrown
  end.

Definition capacity s : option Z := c ← keys_ s; Some (col_size c).
Definition get_key s (index : Z) : option Property := c ← keys_ s; col_get_prop c index.

(** [while (true)]: the slots from [index] on until [visit] ends the loop, which
    the number of slots bounds as long as one is empty. *)
Fixpoint probe {A} (fuel : nat) (indices : list Z) (num_slots_minus_one index : Z) (visit : Z -> Z -> option (option A)) : option A :=
  match fuel with
  | O => None
  | S fuel =>
      ind ← vget indices index;
      r ← visit index ind;
      match r with
      | Some a => Some a
      | None => probe fuel indices num_slots_minus_one ((index + 1) mod (num_slots_minus_one + 1)) visit
      end
  end.

(** The slot where the search for [oid] starts. *)
Definition first_slot s (oid : Property) : option (outcome Z) :=
  match hasher_ oid with
  | Thrown => Some Thrown
  | Returned h => index ← index_for_hash (hash_policy_ s) h (num_slots_minus_one_ s); Some (Returned index)
  end.

Definition find s (oid : Property) : option (outcome (option Z)) :=
  l ← indices_ s;
  index ← first_slot s oid;
  match index with
  | Thrown => Some Thrown
  | Returned index =>
      r ← probe (length l) l (num_slots_minus_one_ s) index (fun _ ind =>
        if ind =? sentinel then Some (Some None)
        else k ← get_key s ind; Some (if prop_eqb k oid then Some (Some ind) else None));
      Some (Returned r)
  end.

(** [get_index(oid)], [get_index(oid, ret)] and [contains(oid)]. *)
Definition get_index s (oid : Property) : option (outcome Z) :=
  r ← find s oid; Some (match r with Returned r => Returned (default sentinel r) | Thrown => Thrown end).
Definition get_index_opt s (oid : Property) : option (outcome (option Z)) :=
  if indices_size_ s <=? 0 then Some (Returned None)
  else
    c ← keys_ s;
    if negb (bool_decide (prop_type oid = col_type c)) then Some (Returned None) else find s oid.
Definition contains s (oid : Property) : option (outcome bool) :=
  r ← find s oid; Some (match r with Returned r => Returned (bool_decide (is_Some r)) | Thrown => Thrown end).

(** The first empty slot gets [ind]. *)
Definition place (l : list Z) (num_slots_minus_one index ind : Z) : option (list Z) :=
  slot ← probe (length l) l num_slots_minus_one index (fun slot x => Some (if x =? sentinel then Some slot else None));
  vset l slot ind.

Definition place_key s (oid : Property) (ind : Z) : option (outcome unit * LFIndexer) :=
  l ← indices_ s;
  index ← first_slot s oid;
  match index with
  | Thrown => Some (Thrown, s)
  | Returned index => l ← place l (num_slots_minus_one_ s) index ind; Some (Returned tt, with_indices l s)
  end.

(** The keys that the table finds, before it is rebuilt. *)
Definition found_keys s : option Bitset :=
  oid_set ← bitset_resize empty_bitset (num_elements_ s);
  for_range (num_elements_ s) oid_set (fun idx oid_set =>
    k ← get_key s idx; r ← contains s k;
    match r with Returned true => bitset_set oid_set idx | Returned false => Some oid_set | Thrown => None end).

Definition rehash s (size : Z) : option LFIndexer :=
  let size := Z.max size 4 in
  c ← keys_ s; c ← col_resize c size;
  let s := with_keys c s in
  let size := 2 * size in
  if size =? indices_size_ s then Some s
  else
    oid_set ← found_keys s;
    '(size, mod_function) ← next_size_over size;
    _ ← indices_ s;
    let s := MkIndexer (Some (vnew size sentinel)) size (num_elements_ s) (size - 1) (keys_ s) (commit (hash_policy_ s) mod_function) in
    for_range (num_elements_ s) s (fun idx s =>
      oid ← get_key s idx; hit ← bitset_get oid_set idx;
      if hit : bool then '(r, s) ← place_key s oid idx; match r with Returned _ => Some s | Thrown => None end else Some s).

Definition reserve_indexer s (size : Z) : option LFIndexer := rehash s (Z.max size (num_elements_ s)).

(** [insert]: the number of elements is raised before the checks. *)
Definition insert s (oid : Property) (insert_safe : bool) : option (outcome Z * LFIndexer) :=
  cap ← capacity s;
  s ← (if insert_safe && (cap <=? num_elements_ s) then reserve_indexer s (cap + Z.shiftr cap 2) else Some s);
  let ind := to_u32 (num_elements_ s) in
  let s := with_num (num_elements_ s + 1) s in
  cap ← capacity s;
  if negb insert_safe && (cap <=? ind) then Some (Thrown, s)
  else
    c ← keys_ s;
    '(r, c) ← col_set_any c ind oid insert_safe;
    match r with
    | Thrown => Some (Thrown, with_keys c s)
    | Returned _ =>
        '(r, s) ← place_key (with_keys c s) oid ind;
        match r with Thrown => Some (Thrown, s) | Returned _ => Some (Returned ind, s) end
    end.
End indexer.
