(* ===== verification/IndexerTheorems.v ===== *)
(** * The index of primary keys as a list of keys

    The invariant of the hash table ([table_ok]): from the first slot of a key the
    search meets its vertex before an empty slot.  [indexer_refines] shows that an
    [LFIndexer] behaves as the list of the keys inserted, in order. *)
From S2P Require Import Prelude Storage Bitset Property PropertyTheorems Column ColumnTheorems ColumnSpec IdIndexer.
#[local] Open Scope Z_scope.

(** ** Probing *)

Definition slot (m b d : Z) : Z := (b + d) mod m.

Lemma probe_slot_range m b d : 0 < m -> 0 <= slot m b d < m.
Proof. intros Hm. by apply Z.mod_pos_bound. Qed.

Lemma slot_next m b d : slot m ((b + 1) mod m) d = slot m b (d + 1).
Proof. unfold slot. rewrite Zplus_mod_idemp_l. f_equal. lia. Qed.

Lemma slot_0 m b : 0 <= b < m -> slot m b 0 = b.
Proof. intros Hb. unfold slot. rewrite Z.add_0_r. by apply Z.mod_small. Qed.

(** Every slot is some steps away. *)
Lemma slot_to m b j : 0 <= j < m -> exists d, 0 <= d < m /\ slot m b d = j.
Proof.
  intros Hj. exists ((j - b) mod m). split; [apply Z.mod_pos_bound; lia|]. unfold slot. rewrite Zplus_mod_idemp_r.
  replace (b + (j - b)) with j by lia. by apply Z.mod_small.
Qed.

Lemma probe_spec {A} (l : list Z) (visit : Z -> Z -> option (option A)) a d b fuel : 0 <= b < vlen l ->
  (forall d', 0 <= d' < d -> visit (slot (vlen l) b d') (vat l (slot (vlen l) b d')) = Some None) ->
  visit (slot (vlen l) b d) (vat l (slot (vlen l) b d)) = Some (Some a) -> 0 <= d < Z.of_nat fuel ->
  probe fuel l (vlen l - 1) b visit = Some a.
Proof.
  revert d b. induction fuel as [|fuel IH]; intros d b Hb Hbefore Hd Hf; [lia|]. cbn [probe]. rewrite vget_Some by done. cbn [mbind option_bind].
  replace (vlen l - 1 + 1) with (vlen l) by lia. destruct (decide (d = 0)) as [->|Hne].
  - rewrite slot_0 in Hd by done. by rewrite Hd.
  - pose proof (Hbefore 0 ltac:(lia)) as H0. rewrite slot_0 in H0 by done. rewrite H0. cbn [mbind option_bind].
    apply (IH (d - 1)); [by apply Z.mod_pos_bound; lia| | |lia].
    + intros d' Hd'. rewrite !slot_next. apply Hbefore. lia.
    + rewrite !slot_next. by replace (d - 1 + 1) with d by lia.
Qed.

(** The least of the numbers below [n] with a property. *)
Lemma first_such (P : Z -> bool) n : 0 <= n ->
  (forall d, 0 <= d < n -> P d = false) \/ exists d, 0 <= d < n /\ P d = true /\ forall d', 0 <= d' < d -> P d' = false.
Proof.
  intros Hn. pattern n. apply natlike_ind; [left; lia| |done]. clear n Hn. intros n Hn [IH|(d & Hd & HP & Hb)]; [|right; exists d; split_and!; [lia|lia|done|done]].
  destruct (P n) eqn:E; [right; exists n; split_and!; [lia|lia|done|done]|left]. intros d Hd. destruct (decide (d = n)) as [->|]; [done|]. apply IH. lia.
Qed.

(** ** The table *)

(** From slot [b] the search meets the entry [i] before an empty slot. *)
Definition reaches (l : list Z) (b i : Z) : Prop :=
  exists d, 0 <= d < vlen l /\ vat l (slot (vlen l) b d) = i /\ forall d', 0 <= d' < d -> vat l (slot (vlen l) b d') <> sentinel.

Definition full_slots (l : list Z) : list Z := filter (fun x => x <> sentinel) l.

Record table_ok (base : Property -> Z) (l : list Z) (ks : list Property) : Prop := {
  to_reach i : 0 <= i < vlen ks -> reaches l (base (vat ks i)) i;
  to_slots : Forall (fun x => x = sentinel \/ 0 <= x < vlen ks) l;
  to_once : NoDup (full_slots l)
}.

Lemma NoDup_below (l : list Z) n : NoDup l -> (forall x, x ∈ l -> 0 <= x < n) -> 0 <= n -> vlen l <= n.
Proof.
  intros Hd Hx Hn. assert (l ⊆+ seqZ 0 n) as Hs. { apply NoDup_submseteq; [done|]. intros x Hin. apply elem_of_seqZ. specialize (Hx x Hin). lia. }
  apply submseteq_length in Hs. rewrite length_seqZ in Hs. unfold vlen. lia.
Qed.

(** With more slots than keys there is an empty slot, and a first one from anywhere. *)
Lemma first_empty base l ks b : table_ok base l ks -> vlen ks < vlen l ->
  exists d, 0 <= d < vlen l /\ vat l (slot (vlen l) b d) = sentinel /\ forall d', 0 <= d' < d -> vat l (slot (vlen l) b d') <> sentinel.
Proof.
  intros [_ Hs Ho] Hlt. pose proof (vlen_nonneg ks). pose proof (vlen_nonneg l).
  destruct (first_such (fun d => vat l (slot (vlen l) b d) =? sentinel) (vlen l) ltac:(lia)) as [Hno|(d & Hd & HP & Hb)].
  - exfalso. assert (full_slots l = l) as Hfull.
    { apply filter_id. intros x Hx. apply list_elem_of_lookup in Hx as [j Hj]. pose proof (lookup_lt_Some _ _ _ Hj).
      destruct (slot_to (vlen l) b (Z.of_nat j)) as (d & Hd & Hsl); [unfold vlen; lia|]. specialize (Hno d Hd). rewrite Hsl in Hno.
      apply Z.eqb_neq in Hno. unfold vat in Hno. rewrite Nat2Z.id in Hno. by rewrite (list_lookup_total_correct _ _ _ Hj) in Hno. }
    rewrite Hfull in Ho. assert (vlen l <= vlen ks); [|lia]. apply NoDup_below; [done| |done]. intros x Hx.
    rewrite Forall_forall in Hs. destruct (Hs x Hx) as [->|]; [|done]. rewrite <-Hfull in Hx. by apply list_elem_of_filter in Hx as [? _].
  - exists d. split; [done|]. split; [by apply Z.eqb_eq|]. intros d' Hd'. by apply Z.eqb_neq, Hb.
Qed.

Lemma place_spec base l ks oid : table_ok base l ks -> vlen ks < vlen l -> vlen ks < sentinel -> 0 <= base oid < vlen l ->
  exists l', place l (vlen l - 1) (base oid) (vlen ks) = Some l' /\ vlen l' = vlen l /\ table_ok base l' (ks ++ [oid]).
Proof.
  intros Hok Hlt Hn Hb. destruct (first_empty base l ks (base oid) Hok Hlt) as (d & Hd & He & Hbefore). destruct Hok as [Hr Hs Ho].
  pose proof (probe_slot_range (vlen l) (base oid) d ltac:(lia)) as Hj. set (j := slot (vlen l) (base oid) d) in *.
  exists (vput l j (vlen ks)). unfold place. rewrite (probe_spec l _ j d (base oid)); [|done| | |unfold vlen in *; lia].
  2: { intros d' Hd'. cbv beta. by rewrite (proj2 (Z.eqb_neq _ _)) by by apply Hbefore. }
  2: { cbv beta. fold j. by rewrite He, Z.eqb_refl. }
  cbn [mbind option_bind]. rewrite vset_Some by done. split; [done|]. split; [apply vlen_vput|]. pose proof (vlen_nonneg ks).
  assert (forall b d', vat (vput l j (vlen ks)) (slot (vlen l) b d') <> sentinel \/ vat (vput l j (vlen ks)) (slot (vlen l) b d') = vat l (slot (vlen l) b d')) as Hkeep.
  { intros b d'. pose proof (probe_slot_range (vlen l) b d' ltac:(lia)). rewrite vat_vput by lia. case_decide; [left; lia|by right]. }
  split.
  - intros i Hi. rewrite vlen_app, vlen_one in Hi. unfold reaches. rewrite vlen_vput. rewrite vat_app by lia. destruct (decide (i < vlen ks)) as [Hik|Hik].
    + destruct (Hr i ltac:(lia)) as (d1 & Hd1 & Hv1 & Hb1). exists d1. split; [done|]. split.
      * pose proof (probe_slot_range (vlen l) (base (vat ks i)) d1 ltac:(lia)). rewrite vat_vput by lia. case_decide as Hc; [|done]. exfalso. assert (i = sentinel) by congruence. lia.
      * intros d' Hd'. destruct (Hkeep (base (vat ks i)) d') as [?|Heq]; [done|]. rewrite Heq. by apply Hb1.
    + assert (i = vlen ks) as -> by lia. rewrite Z.sub_diag. change (vat [oid] 0) with oid. exists d. split; [done|]. split; [fold j; by apply vat_vput_eq|].
      intros d' Hd'. destruct (Hkeep (base oid) d') as [?|Heq]; [done|]. rewrite Heq. by apply Hbefore.
  - rewrite vlen_app, vlen_one. apply Forall_insert; [|right; lia]. eapply Forall_impl; [exact Hs|]. intros x [?|?]; [by left|right; lia].
  - unfold vput, vat in *. assert (l !! Z.to_nat j = Some sentinel) as Hlj by (rewrite <-He; apply list_lookup_lookup_total_lt; unfold vlen in *; lia).
    rewrite <-(take_drop_middle _ _ _ Hlj) in Ho. unfold full_slots in *. rewrite insert_take_drop by (by eapply lookup_lt_Some).
    rewrite filter_app, filter_cons in Ho |- *. rewrite decide_False in Ho by (intros ?; done). rewrite decide_True by lia.
    apply NoDup_Permutation_proper with (vlen ks :: (filter (fun x => x <> sentinel) (take (Z.to_nat j) l) ++ filter (fun x => x <> sentinel) (drop (S (Z.to_nat j)) l)));
      [symmetry; apply Permutation_middle|]. constructor; [|done]. intros Hin. rewrite <-filter_app in Hin. apply list_elem_of_filter in Hin as [_ Hin].
    assert (vlen ks ∈ l) as Hinl. { rewrite <-(take_drop_middle _ _ _ Hlj). apply elem_of_app in Hin. set_solver. }
    rewrite Forall_forall in Hs. destruct (Hs _ Hinl); lia.
Qed.

(** ** Keys *)

Definition key_types : list DataTypeId := [kInt64; kInt32; kUInt64; kUInt32; kVarchar].

Lemma key_eqb t p q : t ∈ key_types -> prop_type p = t -> prop_type q = t -> prop_eqb p q = true <-> p = q.
Proof.
  intros Ht Hp Hq. unfold key_types in Ht. destruct p; simpl in Hp; subst t; try (exfalso; set_solver); destruct q; try discriminate Hq; simpl;
    rewrite ?Z.eqb_eq, ?bool_decide_eq_true; intuition congruence.
Qed.

(** The number of a key. *)
Fixpoint index_of (ks : list Property) (oid : Property) (i : Z) : option Z :=
  match ks with [] => None | k :: ks => if prop_eqb k oid then Some i else index_of ks oid (i + 1) end.

Lemma index_of_spec t ks oid i : t ∈ key_types -> Forall (fun k => prop_type k = t) ks -> prop_type oid = t ->
  match index_of ks oid i with Some j => i <= j < i + vlen ks /\ vat ks (j - i) = oid | None => oid ∉ ks end.
Proof.
  intros Ht Hks Ho. revert i. induction ks as [|k ks IH]; intros i; cbn [index_of]; [apply not_elem_of_nil|].
  apply Forall_cons in Hks as [Hk Hks]. pose proof (vlen_nonneg ks). assert (vlen (k :: ks) = 1 + vlen ks) as Hlen by (unfold vlen; simpl; lia). rewrite Hlen.
  destruct (prop_eqb k oid) eqn:E.
  - apply (key_eqb t) in E; [|done..]. subst k. split; [lia|]. by rewrite Z.sub_diag.
  - assert (k <> oid) as Hne by (intros ->; rewrite (proj2 (key_eqb t oid oid Ht Ho Ho) eq_refl) in E; done).
    specialize (IH Hks (i + 1)). destruct (index_of ks oid (i + 1)) as [j|].
    + destruct IH as [Hj Hv]. split; [lia|]. unfold vat in *. by replace (Z.to_nat (j - i)) with (S (Z.to_nat (j - (i + 1)))) by lia.
    + by apply not_elem_of_cons.
Qed.

Lemma index_of_at t ks i : t ∈ key_types -> Forall (fun k => prop_type k = t) ks -> NoDup ks -> 0 <= i < vlen ks ->
  index_of ks (vat ks i) 0 = Some i.
Proof.
  intros Ht Hks Hd Hi. assert (vat ks i ∈ ks) as Hin by by apply vat_elem.
  assert (prop_type (vat ks i) = t) as Ho by by apply (proj1 (Forall_forall _ _) Hks).
  pose proof (index_of_spec t ks (vat ks i) 0 Ht Hks Ho) as Hs. destruct (index_of ks (vat ks i) 0) as [j|]; [|done]. destruct Hs as [Hj Hv].
  rewrite Z.sub_0_r in Hv. f_equal. unfold vat, vlen in *. apply Z2Nat.inj; [lia..|].
  eapply NoDup_lookup; [exact Hd|apply list_lookup_lookup_total_lt; lia|]. rewrite Hv. apply list_lookup_lookup_total_lt. lia.
Qed.

Section indexer.
Context `{!Memory} (std_hash : Property -> Z).
Implicit Types s : LFIndexer.

Definition key_hash (p : Property) : Z := match p with PInt64 v => hash_int64 v | _ => std_hash p end.
Definition base (m : Z) (p : Property) : Z := key_hash p mod m.

Lemma hasher_key t p : t ∈ key_types -> prop_type p = t -> hasher_ std_hash p = Returned (key_hash p).
Proof. intros Ht Hp. unfold key_types in Ht. destruct p; simpl in Hp; subst t; try done; exfalso; set_solver. Qed.

(** The object without the table: the first rows of the column are the keys. *)
Record keys_rel (t : DataTypeId) (w : Z) s (ks : list Property) (st : list Property * Z) : Prop := {
  kr_type : t ∈ key_types;
  kr_column : exists c, keys_ s = Some c /\ col_rel t w c st;
  kr_keys : Forall (fun k => prop_type k = t) ks;
  kr_once : NoDup ks;
  kr_len : vlen ks <= vlen (fst st);
  kr_rows i : 0 <= i < vlen ks -> vat (fst st) i = vat ks i;
  kr_num : num_elements_ s = vlen ks;
  kr_few : vlen ks <= sentinel
}.

(** The table has [m] slots and holds the first [n] keys. *)
Definition slots_rel s (m : Z) (ks : list Property) : Prop :=
  exists l, indices_ s = Some l /\ vlen l = m /\ indices_size_ s = m /\ num_slots_minus_one_ s = m - 1 /\
    (forall h k, index_for_hash (hash_policy_ s) h k = Some (h mod m)) /\ table_ok (base m) l ks.

Lemma get_key_rel t w s ks st i : keys_rel t w s ks st -> 0 <= i < vlen ks -> get_key s i = Some (vat ks i).
Proof.
  intros [_ (c & Hc & Hrel) _ _ Hl Hr _ _] Hi. unfold get_key. rewrite Hc. cbn [mbind option_bind].
  rewrite (col_get_prop_rel _ _ c st i Hrel) by lia. by rewrite Hr.
Qed.

Lemma first_slot_rel t s m ks oid : t ∈ key_types -> slots_rel s m ks -> prop_type oid = t ->
  first_slot std_hash s oid = Some (Returned (base m oid)).
Proof.
  intros Ht (l & _ & _ & _ & _ & Hp & _) Ho. unfold first_slot. rewrite (hasher_key t oid Ht Ho).
  rewrite Hp. done.
Qed.

(** The search finds the number of a key that is in the table. *)
Lemma find_rel t w s ks st m n oid : keys_rel t w s ks st -> slots_rel s m (take (Z.to_nat n) ks) -> 0 <= n <= vlen ks -> n < m -> prop_type oid = t ->
  find std_hash s oid = Some (Returned (index_of (take (Z.to_nat n) ks) oid 0)).
Proof.
  intros Hk Hs Hn Hm Ho. pose proof Hk as [Ht _ Hty Hdup _ _ _ Hfew]. unfold find. rewrite (first_slot_rel t s m _ oid Ht Hs Ho).
  destruct Hs as (l & -> & Hl & _ & Hm1 & _ & Hok). cbn [mbind option_bind]. rewrite Hm1. rewrite <-Hl at 1. set (k := take (Z.to_nat n) ks) in *.
  assert (vlen k = n) as Hkn by (unfold k; rewrite vlen_take; lia). assert (Forall (fun k => prop_type k = t) k) as Htk by by apply Forall_take.
  assert (NoDup k) as Hdk by (rewrite <-(take_drop (Z.to_nat n) ks) in Hdup; by apply NoDup_app in Hdup as [? _]).
  assert (0 <= base m oid < vlen l) as Hb by (rewrite Hl; apply Z.mod_pos_bound; lia).
  assert (forall i, 0 <= i < n -> get_key s i = Some (vat k i)) as Hget by (intros i Hi; rewrite (get_key_rel t w s ks st) by (done || lia); unfold k; by rewrite vat_take).
  assert (forall d, vat l (slot (vlen l) (base m oid) d) = sentinel \/ 0 <= vat l (slot (vlen l) (base m oid) d) < n) as Hslots.
  { intros d. rewrite <-Hkn. apply (proj1 (Forall_forall _ _) (to_slots _ _ _ Hok)), vat_elem, probe_slot_range. lia. }
  match goal with |- context [probe _ _ _ _ ?v] => set (visit := v) end. enough (probe (length l) l (vlen l - 1) (base m oid) visit = Some (index_of k oid 0)) as -> by done.
  assert (forall d, vat l (slot (vlen l) (base m oid) d) <> sentinel -> index_of k oid 0 <> Some (vat l (slot (vlen l) (base m oid) d)) ->
    visit (slot (vlen l) (base m oid) d) (vat l (slot (vlen l) (base m oid) d)) = Some None) as Hmiss.
  { intros d Hne Hni. unfold visit. destruct (Hslots d) as [?|Hr]; [done|]. set (x := vat l _) in *. clearbody x. rewrite (proj2 (Z.eqb_neq _ _)) by done. rewrite Hget by done. cbn [mbind option_bind].
    destruct (prop_eqb _ oid) eqn:E; [|done]. exfalso. apply Hni. apply (key_eqb t) in E; [|done|apply (proj1 (Forall_forall _ _) Htk), vat_elem; lia|done].
    rewrite <-E. apply (index_of_at t); [done|done|done|lia]. }
  pose proof (index_of_spec t k oid 0 Ht Htk Ho) as Hix. destruct (index_of k oid 0) as [i|] eqn:Ei.
  - destruct Hix as [Hi Hv]. rewrite Z.sub_0_r in Hv. destruct (to_reach _ _ _ Hok i ltac:(lia)) as (d & Hd & Hat & Hbefore). rewrite Hv in Hat, Hbefore.
    destruct (first_such (fun d => vat l (slot (vlen l) (base m oid) d) =? i) (vlen l) ltac:(lia)) as [Hno|(d0 & Hd0 & Hat0 & Hb0)].
    { specialize (Hno d Hd). cbv beta in Hno. rewrite Hat, Z.eqb_refl in Hno. done. }
    apply Z.eqb_eq in Hat0. assert (d0 <= d) by (destruct (Z.le_gt_cases d0 d); [done|]; specialize (Hb0 d ltac:(lia)); cbv beta in Hb0; rewrite Hat, Z.eqb_refl in Hb0; done).
    apply (probe_spec l visit (Some i) d0); [done| | |unfold vlen in *; lia].
    + intros d' Hd'. apply Hmiss; [apply Hbefore; lia|]. intros [= Heq]. specialize (Hb0 d' Hd'). cbv beta in Hb0. by rewrite <-Heq, Z.eqb_refl in Hb0.
    + rewrite Hat0. unfold visit. rewrite (proj2 (Z.eqb_neq _ _)) by lia. rewrite Hget by lia. cbn [mbind option_bind]. rewrite Hv.
      by rewrite (proj2 (key_eqb t oid oid Ht Ho Ho) eq_refl).
  - destruct (first_empty _ l k (base m oid) Hok ltac:(lia)) as (d & Hd & He & Hbefore). apply (probe_spec l visit None d); [done| | |unfold vlen in *; lia].
    + intros d' Hd'. apply Hmiss; [by apply Hbefore|done].
    + rewrite He. unfold visit. by rewrite Z.eqb_refl.
Qed.

Lemma place_key_rel t s m ks' oid : t ∈ key_types -> slots_rel s m ks' -> vlen ks' < m -> vlen ks' < sentinel -> prop_type oid = t ->
  exists l, place_key std_hash s oid (vlen ks') = Some (Returned tt, with_indices l s) /\ slots_rel (with_indices l s) m (ks' ++ [oid]).
Proof.
  intros Ht Hs Hm Hn Ho. unfold place_key. rewrite (first_slot_rel t s m ks' oid Ht Hs Ho).
  destruct Hs as (l & -> & Hl & Hsz & Hm1 & Hp & Hok). cbn [mbind option_bind]. assert (m - 1 = vlen l - 1) as Hlm by lia. rewrite Hm1, Hlm. pose proof (vlen_nonneg ks').
  destruct (place_spec _ l ks' oid Hok) as (l' & -> & Hl' & Hok'); [lia|done|rewrite Hl; apply Z.mod_pos_bound; lia|].
  cbn [mbind option_bind]. exists l'. split; [done|]. exists l'. split_and!; done || congruence.
Qed.

(** All keys of the table are found, so [rehash] keeps them all. *)
Lemma found_keys_rel t w s ks st m : keys_rel t w s ks st -> slots_rel s m ks -> vlen ks < m ->
  wp (found_keys std_hash s) (fun b => bitset_ok b /\ Bitset.size_ b = vlen ks /\ forall j, 0 <= j < vlen ks -> bit b j = true).
Proof.
  intros Hk Hs Hm. pose proof Hk as [Ht _ Hty Hd _ _ Hnum Hfew]. pose proof (vlen_nonneg ks). unfold found_keys. rewrite Hnum.
  assert (2 ^ 32 < 2 ^ 63) by lia. unfold sentinel in Hfew. apply wp_bind.
  eapply wp_mono; [apply (resize_wp empty_bitset (vlen ks) empty_bitset_ok); lia|]. intros b (Hb & Hsz & Hbits).
  apply (wp_for_range (fun r b => bitset_ok b /\ Bitset.size_ b = vlen ks /\ forall j, 0 <= j < vlen ks -> bit b j = (j <? r))); [done| | |].
  - split_and!; [done|done|]. intros j Hj. rewrite Hbits by done. simpl. by rewrite !(proj2 (Z.ltb_ge _ _)) by lia.
  - intros r b' Hr (Hb' & Hsz' & Hbits'). rewrite (get_key_rel t w s ks st r Hk Hr). cbn [mbind option_bind]. unfold contains.
    assert (prop_type (vat ks r) = t) as Ho by by apply (proj1 (Forall_forall _ _) Hty), vat_elem.
    assert (take (Z.to_nat (vlen ks)) ks = ks) as Htk by (apply take_ge; unfold vlen; lia).
    rewrite (find_rel t w s ks st m (vlen ks) (vat ks r)); [|done|by rewrite Htk|lia|lia|done]. rewrite Htk, (index_of_at t) by done. cbn [mbind option_bind].
    rewrite bool_decide_eq_true_2 by done. eapply wp_mono; [apply set_wp; [done|lia]|]. intros b2 (Hb2 & Hsz2 & Hbits2). split_and!; [done|congruence|].
    intros j Hj. rewrite Hbits2, Hbits' by lia. destruct (Z.eqb_spec j r) as [->|]; simpl; [by rewrite (proj2 (Z.ltb_lt _ _)) by lia|].
    destruct (Z.ltb_spec j r), (Z.ltb_spec j (r + 1)); lia || done.
  - intros b' (Hb' & Hsz' & Hbits'). split_and!; [done|done|]. intros j Hj. rewrite Hbits' by done. apply Z.ltb_lt. lia.
Qed.

Definition lf_rel (t : DataTypeId) (w : Z) s (ks : list Property) (st : list Property * Z) : Prop :=
  keys_rel t w s ks st /\
  (indices_ s = Some [] /\ indices_size_ s = 0 /\ ks = [] /\ fst st = [] \/
   exists m, slots_rel s m ks /\ 4 <= vlen (fst st) /\ 2 * vlen (fst st) <= m).

Lemma slots_rel_empty f p n c : 0 < p -> (forall h k, index_for_hash f h k = Some (h mod p)) ->
  slots_rel (MkIndexer (Some (vnew p sentinel)) p n (p - 1) c f) p [].
Proof.
  intros Hp Hf. exists (vnew p sentinel). assert (vlen (vnew p sentinel) = p) as Hl by (rewrite vlen_vnew; lia).
  split_and!; [done|done|done|done|done|]. split.
  - intros i Hi. unfold vlen in Hi. simpl in Hi. lia.
  - unfold vnew. apply Forall_forall. intros x Hx%elem_of_replicate. left. by destruct Hx.
  - unfold full_slots, vnew. assert (filter (fun x => x <> sentinel) (replicate (Z.to_nat p) sentinel) = []) as ->; [|constructor].
    induction (Z.to_nat p) as [|k IH]; [done|]. cbn [replicate]. by rewrite filter_cons, decide_False by (intros ?; done).
Qed.

(** A new table of the next size, for the enlarged or shrunk column. *)
Lemma rehash_rel t w s ks st size : lf_rel t w s ks st -> vlen ks <= size < 2 ^ 52 ->
  wp (rehash std_hash s size) (fun s' => lf_rel t w s' ks (Resize (zero_prop t) (fst st) (Z.max size 4), snd st)).
Proof.
  intros [Hk Hs] Hsize. pose proof Hk as [Ht (c & Hc & Hrel) Hty Hd Hlen Hrows Hnum Hfew]. unfold rehash. rewrite Hc. cbn [mbind option_bind].
  set (n := Z.max size 4). set (st' := (Resize (zero_prop t) (fst st) n, snd st)). pose proof (vlen_nonneg ks).
  destruct (col_exec_rel t w c (OpResize n) st OutDone st' Hrel) as (c' & Hc' & Hrel').
  { unfold st'. destruct st as [vals used]. cbn [vals_exec]. by rewrite (proj2 (Z.leb_le _ _)) by lia. }
  cbn [col_exec] in Hc'. destruct (col_resize c n) as [c1|]; [|done]. injection Hc' as ->. cbn [mbind option_bind].
  assert (vlen (fst st') = n) as Hn by (unfold st'; simpl; apply vlen_Resize; lia).
  assert (keys_rel t w (with_keys c' s) ks st') as Hk'.
  { split; [done|by exists c'|done|done|lia| |done|done]. intros i Hi. rewrite <-Hrows by done. apply vat_Resize; lia. }
  assert (forall m, slots_rel s m ks -> slots_rel (with_keys c' s) m ks) as Hsk by (intros m (l & Hl); exists l; exact Hl).
  destruct (Z.eqb_spec (2 * n) (indices_size_ (with_keys c' s))) as [Heq|Hne]; cbn [indices_size_ with_keys] in *.
  { apply wp_ret. cbv beta. fold st'. split; [done|]. destruct Hs as [(_ & Hz & _)|(m & Hm & H4 & H2)]; [lia|]. right. exists m. split; [by apply Hsk|]. destruct Hm as (l & _ & _ & Hm & _). lia. }
  apply wp_bind. eapply (wp_mono _ (fun b => bitset_ok b /\ Bitset.size_ b = vlen ks /\ forall j, 0 <= j < vlen ks -> bit b j = true)).
  { destruct Hs as [(_ & _ & -> & _)|(m & Hm & H4 & H2)]; [|by apply (found_keys_rel t w _ ks st' m); [|apply Hsk|lia]].
    unfold found_keys. cbn [num_elements_ with_keys]. rewrite Hnum. apply wp_bind. eapply wp_mono; [apply (resize_wp empty_bitset 0 empty_bitset_ok); lia|].
    intros b (Hb & Hsz & _). apply wp_ret. split_and!; [done|done|]. intros j Hj. unfold vlen in Hj. simpl in Hj. lia. }
  intros b (Hb & Hbsz & Hbits). destruct (next_size_over_spec (2 * n)) as (p & f & -> & Hp & Hp' & _ & Hf & _); [unfold n, largest_prime; lia|]. cbn [mbind option_bind].
  assert (is_Some (indices_ s)) as [l0 Hl0] by (destruct Hs as [(-> & _)|(m & (l & -> & _) & _)]; done).
  cbn [indices_ with_keys]. rewrite Hl0. cbn [mbind option_bind num_elements_ keys_ with_keys commit hash_policy_]. rewrite Hnum.
  apply (wp_for_range (fun r s' => keys_rel t w s' ks st' /\ slots_rel s' p (take (Z.to_nat r) ks))); [done| | |].
  - split; [by destruct Hk' as [? ? ? ? ? ? ? ?]; split|]. rewrite take_0. by apply slots_rel_empty; [lia|].
  - intros r s' Hr [Hkr Hsr]. rewrite (get_key_rel t w s' ks st' r Hkr Hr). cbn [mbind option_bind]. rewrite (get_wp b r Hb) by lia. cbn [mbind option_bind]. rewrite Hbits by done.
    assert (vlen (take (Z.to_nat r) ks) = r) as Htr by (rewrite vlen_take; lia).
    assert (prop_type (vat ks r) = t) as Ho by by apply (proj1 (Forall_forall _ _) Hty), vat_elem.
    destruct (place_key_rel t s' p _ (vat ks r) Ht Hsr) as (l & Hpl & Hsl); [lia|unfold sentinel in *; lia|done|]. rewrite Htr in Hpl. rewrite Hpl.
    cbn [mbind option_bind]. apply wp_ret. split; [by destruct Hkr as [? ? ? ? ? ? ? ?]; split|]. by rewrite take_succ_vat by lia.
  - intros s' [Hkr Hsr]. rewrite take_ge in Hsr by (unfold vlen; lia). split; [done|]. right. exists p. split; [done|]. lia.
Qed.

(** ** Insertion *)

(** The arrays of the object: the column holds [st], the table the keys [ks], which
    need not be what the column made of them. *)
Record arrays_rel (t : DataTypeId) (w : Z) s (m : Z) (ks : list Property) (st : list Property * Z) : Prop := {
  ar_type : t ∈ key_types;
  ar_column : exists c, keys_ s = Some c /\ col_rel t w c st;
  ar_num : num_elements_ s = vlen ks;
  ar_slots : slots_rel s m ks;
  ar_room : vlen ks <= vlen (fst st) /\ 2 * vlen (fst st) <= m
}.

(** An insertion when there is room: the column stores the truncated key, and the
    table puts the vertex where the whole key belongs. *)
Lemma insert_arrays t w s m ks st oid q safe : arrays_rel t w s m ks st -> prop_type oid = t -> clip_prop w oid = Some q -> vlen ks < sentinel ->
  snd st < 2 ^ 48 -> vlen ks < vlen (fst st) ->
  exists s', insert std_hash s oid safe = Some (Returned (vlen ks), s') /\
    arrays_rel t w s' m (ks ++ [oid]) (vput (fst st) (vlen ks) q, snd st + prop_bytes q).
Proof.
  intros [Ht (c & Hc & Hrel) Hnum Hm [Hlen H2]] Ho Hclip Hn Hu Hlt. pose proof (vlen_nonneg ks).
  destruct (col_size_rel t w c st Hrel) as [Hsz _]. unfold insert, capacity. rewrite Hc. cbn [mbind option_bind]. rewrite Hsz, Hnum.
  rewrite (proj2 (Z.leb_gt (vlen (fst st)) (vlen ks))), andb_false_r by lia. cbn [mbind option_bind keys_ with_num].
  assert (to_u32 (num_elements_ s) = vlen ks) as Hu32 by (rewrite Hnum; apply to_u32_small; unfold sentinel in *; lia). rewrite Hu32, Hc. cbn [mbind option_bind]. rewrite Hsz.
  rewrite (proj2 (Z.leb_gt _ _)), andb_false_r by lia. set (st' := (vput (fst st) (vlen ks) q, snd st + prop_bytes q)).
  destruct (col_exec_rel t w c (OpSet (vlen ks) oid safe) st OutDone st' Hrel) as (c' & Hc' & Hrel').
  { unfold st'. destruct st as [vals used]. cbn [vals_exec fst snd] in *. rewrite bool_decide_eq_true_2, (proj2 (Z.leb_le _ _)) by done. cbn [andb].
    rewrite (proj2 (Z.leb_gt _ _)) by lia. rewrite Hclip. cbn [mbind option_bind]. by rewrite (proj2 (Z.ltb_lt _ _)). }
  cbn [col_exec] in Hc'. destruct (col_set_any c (vlen ks) oid safe) as [[[[]|] c1]|]; [|done|done]. injection Hc' as ->. cbn [mbind option_bind].
  set (s1 := with_keys c' (with_num (num_elements_ s + 1) s)).
  assert (slots_rel s1 m ks) as Hs1 by (destruct Hm as (l & Hm); exists l; exact Hm).
  destruct (place_key_rel t s1 m ks oid Ht Hs1) as (l & Hpl & Hsl); [lia|done|done|]. fold s1. rewrite Hpl. cbn [mbind option_bind].
  eexists. split; [done|]. split; [done|by exists c'| |exact Hsl|].
  - unfold s1. cbn [num_elements_ with_keys with_num with_indices]. rewrite Hnum, vlen_app, vlen_one. apply Z.mod_small. unfold sentinel in *. lia.
  - unfold st'. cbn [fst]. rewrite vlen_vput, vlen_app, vlen_one. lia.
Qed.

(** A key that is stored as it is goes to the next number. *)
Lemma append_rel t w s ks st oid safe : lf_rel t w s ks st -> prop_type oid = t -> clip_prop w oid = Some oid -> oid ∉ ks -> vlen ks < sentinel ->
  snd st < 2 ^ 48 -> vlen ks < vlen (fst st) ->
  exists s', insert std_hash s oid safe = Some (Returned (vlen ks), s') /\
    lf_rel t w s' (ks ++ [oid]) (vput (fst st) (vlen ks) oid, snd st + prop_bytes oid).
Proof.
  intros [Hk Hs] Ho Hclip Hnew Hn Hu Hlt. pose proof Hk as [Ht Hcol Hty Hd Hlen Hrows Hnum Hfew]. pose proof (vlen_nonneg ks).
  destruct Hs as [(_ & _ & _ & He)|(m & Hm & H4 & H2)]; [rewrite He in Hlt; unfold vlen in *; simpl in *; lia|].
  destruct (insert_arrays t w s m ks st oid oid safe) as (s' & Hins & [_ Hcol' Hnum' Hm' [Hlen' H2']]); try done. exists s'. split; [done|].
  set (st' := (vput (fst st) (vlen ks) oid, snd st + prop_bytes oid)) in *. assert (vlen (fst st') = vlen (fst st)) as Hl' by (unfold st'; simpl; apply vlen_vput).
  split; [|right; exists m; split_and!; [done|lia|lia]]. split; try done.
  - apply Forall_app. split; [done|]. by constructor.
  - apply NoDup_app. split; [done|]. split; [|apply NoDup_singleton]. intros x Hx ->%list_elem_of_singleton. done.
  - intros i Hi. rewrite vlen_app, vlen_one in Hi. rewrite vat_app by lia. unfold st'. cbn [fst]. case_decide; [rewrite vat_vput_ne by lia; apply Hrows; lia|].
    assert (i = vlen ks) as -> by lia. rewrite Z.sub_diag. by apply vat_vput_eq.
  - rewrite vlen_app, vlen_one. lia.
Qed.

(** Nothing is found when no row equals the key. *)
Lemma find_miss t w s m ks st oid : arrays_rel t w s m ks st -> prop_type oid = t -> vlen ks < m ->
  (forall i, 0 <= i < vlen ks -> vat (fst st) i <> oid) -> find std_hash s oid = Some (Returned None).
Proof.
  intros [Ht (c & Hc & Hrel) Hnum Hm [Hlen H2]] Ho Hlt Hno. unfold find. rewrite (first_slot_rel t s m ks oid Ht Hm Ho).
  destruct Hm as (l & -> & Hl & _ & Hm1 & _ & Hok). cbn [mbind option_bind]. assert (m - 1 = vlen l - 1) as Hlm by lia. rewrite Hm1, Hlm.
  pose proof (vlen_nonneg ks). assert (0 <= base m oid < vlen l) as Hb by (rewrite Hl; apply Z.mod_pos_bound; lia).
  destruct (first_empty _ l ks (base m oid) Hok ltac:(lia)) as (d & Hd & He & Hbefore).
  match goal with |- context [probe _ _ _ _ ?v] => set (visit := v) end. rewrite (probe_spec l visit None d (base m oid) (length l)); [done|done| | |unfold vlen in *; lia].
  - intros d' Hd'. specialize (Hbefore d' Hd'). assert (vat l (slot (vlen l) (base m oid) d') ∈ l) as Hin by (apply vat_elem, probe_slot_range; lia).
    set (x := vat l (slot (vlen l) (base m oid) d')) in *. clearbody x. unfold visit. rewrite (proj2 (Z.eqb_neq _ _)) by done. destruct (proj1 (Forall_forall _ _) (to_slots _ _ _ Hok) x Hin) as [?|Hx]; [done|].
    unfold get_key. rewrite Hc. cbn [mbind option_bind]. rewrite (col_get_prop_rel _ _ c st x Hrel) by lia. cbn [mbind option_bind].
    destruct (prop_eqb _ oid) eqn:E; [|done]. exfalso. apply (Hno x Hx). apply (key_eqb t); [done| |done|done]. apply (col_rel_types t w c st Hrel), vat_elem. lia.
  - rewrite He. unfold visit. by rewrite Z.eqb_refl.
Qed.

(** A string key longer than the width of the column: it is stored cut, the search
    does not find it again, and the same key is inserted a second time under another
    number. *)
Theorem long_key_twice w s ks st k q : lf_rel kVarchar w s ks st -> clip_prop w (PVarchar k) = Some q -> q <> PVarchar k -> PVarchar k ∉ ks ->
  vlen ks + 1 < vlen (fst st) -> vlen ks + 1 < sentinel -> snd st + prop_bytes q < 2 ^ 48 ->
  exists s1 s2, insert std_hash s (PVarchar k) false = Some (Returned (vlen ks), s1) /\ get_key s1 (vlen ks) = Some q /\
    find std_hash s1 (PVarchar k) = Some (Returned None) /\ insert std_hash s1 (PVarchar k) false = Some (Returned (vlen ks + 1), s2).
Proof.
  intros [Hk Hs] Hq Hne Hnew Hroom Hfew Hu. pose proof Hk as [Ht Hcol Hty Hd Hlen Hrows Hnum _]. pose proof (vlen_nonneg ks).
  destruct Hs as [(_ & _ & _ & He)|(m & Hm & H4 & H2)]; [rewrite He in Hroom; unfold vlen in *; simpl in *; lia|].
  assert (0 <= prop_bytes q) as Hqb by (destruct q; simpl; unfold vlen; lia).
  destruct (insert_arrays kVarchar w s m ks st (PVarchar k) q false) as (s1 & Hins & Ha1); [done|done|done|lia|lia|lia|]. exists s1.
  assert (vlen (ks ++ [PVarchar k]) = vlen ks + 1) as Hl1 by (by rewrite vlen_app, vlen_one).
  destruct (insert_arrays kVarchar w s1 m _ _ (PVarchar k) q false Ha1) as (s2 & Hins2 & _); [done|done|lia|done|cbn [fst]; rewrite vlen_vput; lia|]. exists s2. rewrite Hl1 in Hins2.
  split_and!; [done| | |done].
  - destruct Ha1 as [_ (c & Hc & Hrel) _ _ _]. unfold get_key. rewrite Hc. cbn [mbind option_bind]. rewrite (col_get_prop_rel _ _ c _ (vlen ks) Hrel); cbn [fst]; [|rewrite vlen_vput; lia].
    by rewrite vat_vput_eq by lia.
  - apply (find_miss kVarchar w s1 m _ _ (PVarchar k) Ha1); [done|rewrite Hl1; lia|]. rewrite Hl1. cbn [fst]. intros i Hi. destruct (decide (i = vlen ks)) as [->|Hne'].
    + by rewrite vat_vput_eq by lia.
    + rewrite vat_vput_ne by lia. rewrite Hrows by lia. intros Heq. apply Hnew. rewrite <-Heq. apply vat_elem. lia.
Qed.

(** ** The specification *)

Inductive key_op := KInsert (oid : Property) (insert_safe : bool) | KGet (oid : Property) | KKey (index : Z) | KReserve (n : Z).
Inductive key_out := KIndex (i : Z) | KNone | KProp (p : Property) | KDone | KThrown.

Definition found_out (r : outcome (option Z)) : key_out := match r with Returned (Some i) => KIndex i | Returned None => KNone | Thrown => KThrown end.

Definition indexer_exec (op : key_op) s : option (key_out * LFIndexer) :=
  match op with
  | KInsert oid safe => '(r, s) ← insert std_hash s oid safe; Some (match r with Returned i => KIndex i | Thrown => KThrown end, s)
  | KGet oid => r ← get_index_opt std_hash s oid; Some (found_out r, s)
  | KKey i => p ← get_key s i; Some (KProp p, s)
  | KReserve n => s ← reserve_indexer std_hash s n; Some (KDone, s)
  end.

(** The keys in order, the capacity, and the bytes that string keys have used.
    [None] outside the contract: an inserted key has the type, is no longer than
    the column's strings, is new and has a place ([insert_safe] makes one); sizes
    stay below [2 ^ 52].  A longer string would be stored cut and not be found again. *)
Definition keys_exec (t : DataTypeId) (w : Z) (op : key_op) (st : list Property * Z * Z) : option (key_out * (list Property * Z * Z)) :=
  let '(ks, cap, used) := st in
  match op with
  | KInsert oid safe =>
      q ← clip_prop w oid;
      let cap := if safe && (cap <=? vlen ks) then Z.max (Z.max (cap + cap / 4) (vlen ks)) 4 else cap in
      if bool_decide (prop_type oid = t) && prop_eqb q oid && bool_decide (index_of ks oid 0 = None) &&
         (vlen ks <? sentinel) && (used <? 2 ^ 48) && (vlen ks <? cap) && (cap <? 2 ^ 52)
      then Some (KIndex (vlen ks), (ks ++ [oid], cap, used + prop_bytes oid)) else None
  | KGet oid => Some (if bool_decide (prop_type oid = t) then found_out (Returned (index_of ks oid 0)) else KNone, st)
  | KKey i => p ← vget ks i; Some (KProp p, st)
  | KReserve n =>
      let cap := Z.max (Z.max n (vlen ks)) 4 in
      if cap <? 2 ^ 52 then Some (KDone, (ks, cap, used)) else None
  end.

Fixpoint krun {S} (exec : key_op -> S -> option (key_out * S)) (ops : list key_op) (s : S) : option (list key_out * S) :=
  match ops with
  | [] => Some ([], s)
  | op :: ops => '(o, s) ← exec op s; '(os, s) ← krun exec ops s; Some (o :: os, s)
  end.

Definition index_rel (t : DataTypeId) (w : Z) s (st : list Property * Z * Z) : Prop :=
  exists vals, lf_rel t w s (fst (fst st)) (vals, snd st) /\ vlen vals = snd (fst st).

Lemma indexer_reserve_rel t w s ks cap used n : index_rel t w s (ks, cap, used) -> Z.max (Z.max n (vlen ks)) 4 < 2 ^ 52 ->
  wp (reserve_indexer std_hash s n) (fun s' => index_rel t w s' (ks, Z.max (Z.max n (vlen ks)) 4, used)).
Proof.
  intros (vals & Hrel & Hcap) Hn. cbn [fst snd] in *. unfold reserve_indexer. rewrite (kr_num _ _ _ _ _ (proj1 Hrel)).
  eapply wp_mono; [apply (rehash_rel t w s ks (vals, used)); [done|lia]|]. intros s' Hs'. eexists. split; [exact Hs'|]. cbn [fst snd]. apply vlen_Resize. lia.
Qed.

Lemma insert_reserved s oid s1 : num_elements_ s1 = num_elements_ s ->
  (cap ← capacity s; if cap <=? num_elements_ s then reserve_indexer std_hash s (cap + Z.shiftr cap 2) else Some s) = Some s1 ->
  (cap ← capacity s1; Some (cap <=? num_elements_ s1)) = Some false -> insert std_hash s oid true = insert std_hash s1 oid true.
Proof.
  intros Hn Hr Hc. unfold insert. destruct (capacity s) as [cap|]; [|done]. cbn [mbind option_bind andb] in *. rewrite Hr. cbn [mbind option_bind].
  destruct (capacity s1) as [cap1|] eqn:E1; [|done]. cbn [mbind option_bind] in *. injection Hc as Hc. by rewrite Hc.
Qed.

Lemma capacity_rel t w s st : index_rel t w s st -> capacity s = Some (snd (fst st)) /\ num_elements_ s = vlen (fst (fst st)).
Proof.
  intros (vals & [Hk _] & Hcap). destruct (kr_column _ _ _ _ _ Hk) as (c & Hc & Hrel). unfold capacity. rewrite Hc. cbn [mbind option_bind].
  rewrite (proj1 (col_size_rel t w c _ Hrel)). cbn [fst]. rewrite Hcap. split; [done|apply (kr_num _ _ _ _ _ Hk)].
Qed.

Lemma insert_rel t w s ks cap used oid safe st' n : index_rel t w s (ks, cap, used) -> keys_exec t w (KInsert oid safe) (ks, cap, used) = Some (n, st') ->
  wp (insert std_hash s oid safe) (fun r => exists i, fst r = Returned i /\ n = KIndex i /\ index_rel t w (snd r) st').
Proof.
  intros Hrel Hx. cbn [keys_exec] in Hx. destruct (clip_prop w oid) as [q|] eqn:Eq; [|done]. cbn [mbind option_bind] in Hx.
  set (cap1 := if safe && (cap <=? vlen ks) then Z.max (Z.max (cap + cap / 4) (vlen ks)) 4 else cap) in Hx.
  match type of Hx with (if ?b then _ else _) = _ => destruct b eqn:Ec; [|done] end. injection Hx as <- <-.
  apply andb_prop in Ec as [[[[[[Ho%bool_decide_eq_true Hq]%andb_prop Hnew%bool_decide_eq_true]%andb_prop Hn%Z.ltb_lt]%andb_prop Hu%Z.ltb_lt]%andb_prop Hlt%Z.ltb_lt]%andb_prop Hc%Z.ltb_lt].
  pose proof Hrel as (vals & Hlf & Hcap). cbn [fst snd] in *. pose proof (proj1 Hlf) as Hk. pose proof (kr_type _ _ _ _ _ Hk) as Ht.
  assert (q = oid) as ->. { apply (key_eqb t); [done| |done|done]. destruct oid; simpl in Eq; try (by injection Eq as <-). destruct (truncate_utf8 _ _); [|done]. by injection Eq as <-. }
  pose proof (index_of_spec t ks oid 0 Ht (kr_keys _ _ _ _ _ Hk) Ho) as Hix. rewrite Hnew in Hix.
  assert (forall s1 safe1, index_rel t w s1 (ks, cap1, used) -> (safe1 && (cap1 <=? vlen ks)) = false ->
    wp (insert std_hash s1 oid safe1) (fun r => exists i, fst r = Returned i /\ KIndex (vlen ks) = KIndex i /\ index_rel t w (snd r) (ks ++ [oid], cap1, used + prop_bytes oid))) as Hgo.
  { intros s1 safe1 (vals1 & Hlf1 & Hcap1) Hs1. cbn [fst snd] in *. destruct (append_rel t w s1 ks (vals1, used) oid safe1 Hlf1 Ho Eq Hix Hn Hu) as (s2 & -> & Hs2); [simpl; lia|].
    exists (vlen ks). split; [done|]. split; [done|]. eexists. split; [exact Hs2|]. cbn [fst snd]. by rewrite vlen_vput. }
  unfold cap1 in *. destruct (safe && (cap <=? vlen ks)) eqn:Es; [|by apply Hgo]. apply andb_prop in Es as [-> Hle]. pose proof (capacity_rel t w s _ Hrel) as [Hcs Hns]. cbn [fst snd] in *.
  pose proof (indexer_reserve_rel t w s ks cap used (cap + Z.shiftr cap 2) Hrel) as Hres. rewrite Z.shiftr_div_pow2 in Hres by lia. specialize (Hres Hc). apply wp_exists in Hres as (s1 & Hr1 & Hrel1).
  pose proof (capacity_rel t w s1 _ Hrel1) as [Hcs1 Hns1]. cbn [fst snd] in *.
  rewrite (insert_reserved s oid s1); [by apply Hgo; [|rewrite (proj2 (Z.leb_gt _ _))]|congruence| |].
  - rewrite Hcs. cbn [mbind option_bind]. rewrite Hns, Hle, Z.shiftr_div_pow2 by lia. exact Hr1.
  - rewrite Hcs1. cbn [mbind option_bind]. rewrite Hns1. f_equal. apply Z.leb_gt. exact Hlt.
Qed.

Lemma get_rel t w s st oid : index_rel t w s st ->
  get_index_opt std_hash s oid = Some (Returned (if bool_decide (prop_type oid = t) then index_of (fst (fst st)) oid 0 else None)).
Proof.
  intros (vals & [Hk Hs] & Hcap). unfold get_index_opt. destruct (kr_column _ _ _ _ _ Hk) as (c & Hc & Hrel).
  destruct Hs as [(_ & -> & He & _)|(m & Hm & H4 & H2)]; [rewrite He; simpl; by case_bool_decide|].
  assert (indices_size_ s = m) as -> by (destruct Hm as (l & _ & _ & -> & _); done). pose proof (kr_len _ _ _ _ _ Hk). cbn [fst] in *.
  rewrite (proj2 (Z.leb_gt _ _)), Hc by lia. cbn [mbind option_bind]. rewrite (proj2 (col_size_rel t w c _ Hrel)).
  case_bool_decide as Ht; simpl negb; cbn iota; [|done].
  assert (take (Z.to_nat (vlen (fst (fst st)))) (fst (fst st)) = fst (fst st)) as Htk by (apply take_ge; unfold vlen; lia).
  pose proof (vlen_nonneg (fst (fst st))).
  rewrite (find_rel t w s _ _ m (vlen (fst (fst st))) oid Hk); [by rewrite Htk|by rewrite Htk|lia|lia|done].
Qed.

Lemma indexer_exec_rel t w op s st out st' : index_rel t w s st -> keys_exec t w op st = Some (out, st') ->
  wp (indexer_exec op s) (fun r => fst r = out /\ index_rel t w (snd r) st').
Proof.
  destruct st as [[ks cap] used]. intros Hrel Hx. destruct op as [oid safe|oid|i|n]; cbn [indexer_exec].
  - apply wp_bind. eapply wp_mono; [by eapply insert_rel|]. intros [r s'] (i & Hr & -> & Hrel'). cbn [fst snd] in *. subst r. by apply wp_ret.
  - cbn [keys_exec] in Hx. injection Hx as <- <-. rewrite (get_rel t w s _ oid Hrel). cbn [mbind option_bind fst]. apply wp_ret. split; [|done]. by case_bool_decide.
  - cbn [keys_exec] in Hx. destruct (vget ks i) as [p|] eqn:E; [|done]. injection Hx as <- <-. apply vget_inv in E as [Hi <-].
    destruct Hrel as (vals & Hlf & Hcap). rewrite (get_key_rel t w s ks (vals, used) i (proj1 Hlf) Hi). apply wp_ret. split; [done|]. by exists vals.
  - cbn [keys_exec] in Hx. destruct (Z.ltb_spec (Z.max (Z.max n (vlen ks)) 4) (2 ^ 52)); [|done]. injection Hx as <- <-.
    apply wp_bind. eapply wp_mono; [by apply (indexer_reserve_rel t w s ks cap used n)|]. intros s' Hs'. by apply wp_ret.
Qed.

Lemma indexer_run_rel t w ops s st outs st' : index_rel t w s st -> krun (keys_exec t w) ops st = Some (outs, st') ->
  wp (krun indexer_exec ops s) (fun r => fst r = outs /\ index_rel t w (snd r) st').
Proof.
  revert s st outs. induction ops as [|op ops IH]; intros s st outs Hrel Hx; cbn [krun] in Hx |- *; [injection Hx as <- <-; by apply wp_ret|].
  destruct (keys_exec t w op st) as [[o st1]|] eqn:E; [|done]. cbn [mbind option_bind] in Hx. destruct (krun (keys_exec t w) ops st1) as [[os st2]|] eqn:E2; [|done].
  injection Hx as <- <-. apply wp_bind. eapply wp_mono; [by eapply indexer_exec_rel|]. intros [o' s1] [Ho Hs1]. cbn [fst snd] in *. subst o'.
  apply wp_bind. eapply wp_mono; [by eapply IH|]. intros [os' s2] [Hos Hs2]. cbn [fst snd] in *. subst os'. by apply wp_ret.
Qed.

(** The length of the keys of a type. *)
Definition key_width (t : DataTypeId) (extra : option Z) : Z := match t with kVarchar => default STRING_DEFAULT_MAX_LENGTH extra mod 2 ^ 16 | _ => 0 end.

Lemma indexer_init_rel t extra : t ∈ key_types -> exists s0, init_indexer t extra new_indexer = Returned s0 /\ index_rel t (key_width t extra) (open_empty s0) ([], 0, 0).
Proof.
  intros Ht. assert (forall c, CreateColumn t (default STRING_DEFAULT_MAX_LENGTH extra) = Returned c \/ CreateColumn t 0 = Returned c /\ t <> kVarchar ->
    col_rel t (key_width t extra) c ([], 0) -> index_rel t (key_width t extra) (open_empty (with_keys c new_indexer)) ([], 0, 0)) as Hgo.
  { intros c _ Hc. exists []. split; [|done]. split; [|left; done]. split; [done|by exists c|by apply Forall_nil|by apply NoDup_nil|done| |done|done]. intros i Hi. unfold vlen in Hi. simpl in Hi. lia. }
  assert (t <> kEmpty) as Hne by (intros ->; revert Ht; apply (bool_decide_unpack _); vm_compute; exact I).
  unfold key_types in Ht. rewrite !elem_of_cons, elem_of_nil in Ht.
  destruct Ht as [->|[->|[->|[->|[->|[]]]]]]; (eexists; split; [reflexivity|]; apply Hgo; [eauto|]);
    try (refine (CreateColumn_rel _ 0 _ _ _); [done|reflexivity]). refine (CreateColumn_rel _ _ _ _ _); [done|reflexivity].
Qed.

(** C23: A sequence of insertions, look-ups, reads and reservations on a fresh indexer,
    each within the contract of [keys_exec], ends, without leaving its arrays, and
    answers as the list of the keys inserted so far: a key is found under the number of
    its insertion, whatever the hash functions, through every change of the size of the
    table, and a key that was not inserted or has another type is not found.  The
    contract: an inserted key is of the indexer's type, is not in it yet, is no longer
    than the strings of its column, and has a free place or is inserted with
    [insert_safe]; numbers read are in range; there are fewer keys than the sentinel,
    string keys take less than [2 ^ 48] bytes and capacities stay below [2 ^ 52].  The
    bound on the length is needed: a longer key is stored cut, not found, and inserted
    a second time ([long_key_twice]). *)
Theorem indexer_refines t extra ops outs ks cap used : t ∈ key_types ->
  krun (keys_exec t (key_width t extra)) ops ([], 0, 0) = Some (outs, (ks, cap, used)) ->
  exists s0 s, init_indexer t extra new_indexer = Returned s0 /\ krun indexer_exec ops (open_empty s0) = Some (outs, s) /\
    num_elements_ s = vlen ks /\ capacity s = Some cap /\ NoDup ks /\
    (forall i, 0 <= i < vlen ks -> get_key s i = Some (vat ks i) /\ get_index_opt std_hash s (vat ks i) = Some (Returned (Some i))).
Proof.
  intros Ht Hx. destruct (indexer_init_rel t extra Ht) as (s0 & Hi & Hrel0). exists s0.
  pose proof (indexer_run_rel t _ ops _ _ outs _ Hrel0 Hx) as Hw. apply wp_exists in Hw as ([o s] & Hr & Ho & Hrel). cbn [fst snd] in *. subst o. exists s.
  destruct (capacity_rel t _ s _ Hrel) as [Hc Hn]. pose proof Hrel as (vals & [Hk _] & _). cbn [fst snd] in *.
  split; [done|]. split; [done|]. split; [done|]. split; [done|]. split; [apply (kr_once _ _ _ _ _ Hk)|]. intros i Hix. split; [by eapply get_key_rel|].
  rewrite (get_rel t _ s _ _ Hrel). cbn [fst snd]. rewrite bool_decide_eq_true_2 by by apply (proj1 (Forall_forall _ _) (kr_keys _ _ _ _ _ Hk)), vat_elem.
  by rewrite (index_of_at t) by (done || apply (kr_keys _ _ _ _ _ Hk) || apply (kr_once _ _ _ _ _ Hk)).
Qed.
End indexer.

(** ** Examples *)

Definition short_hash (p : Property) : Z := match p with PVarchar s => vlen s | _ => 7 end.

(** Keys that collide, a growth by [insert_safe], and look-ups after it. *)
Definition key_demo : list key_op :=
  [KGet (PVarchar [97]); KReserve 4; KInsert (PVarchar [97]) false; KInsert (PVarchar [98]) false; KInsert (PVarchar [99; 99]) false; KInsert (PVarchar [100]) false;
   KInsert (PVarchar [101]) true; KGet (PVarchar [100]); KGet (PVarchar [101; 101]); KGet (PInt64 1); KKey 2].

Lemma indexer_refines_witness : exists s0 s, init_indexer kVarchar (Some 2) new_indexer = Returned s0 /\
  krun (indexer_exec short_hash) key_demo (open_empty s0) = Some ([KNone; KDone; KIndex 0; KIndex 1; KIndex 2; KIndex 3; KIndex 4; KIndex 3; KNone; KNone; KProp (PVarchar [99; 99])], s) /\
  num_elements_ s = 5 /\ capacity s = Some 5.
Proof.
  destruct (indexer_refines short_hash kVarchar (Some 2) key_demo
    [KNone; KDone; KIndex 0; KIndex 1; KIndex 2; KIndex 3; KIndex 4; KIndex 3; KNone; KNone; KProp (PVarchar [99; 99])]
    [PVarchar [97]; PVarchar [98]; PVarchar [99; 99]; PVarchar [100]; PVarchar [101]] 5 6) as (s0 & s & Hi & Hr & Hn & Hc & _).
  - apply (bool_decide_unpack _). vm_compute. exact I.
  - vm_compute. reflexivity.
  - exists s0, s. split; [exact Hi|]. split; [exact Hr|]. split; [exact Hn|exact Hc].
Defined.

Lemma long_key_twice_witness : exists s s1 s2, insert short_hash s (PVarchar [97; 98; 99]) false = Some (Returned 0, s1) /\
  get_key s1 0 = Some (PVarchar [97; 98]) /\ find short_hash s1 (PVarchar [97; 98; 99]) = Some (Returned None) /\
  insert short_hash s1 (PVarchar [97; 98; 99]) false = Some (Returned 1, s2).
Proof.
  destruct (indexer_init_rel short_hash kVarchar (Some 2) ltac:(apply (bool_decide_unpack _); vm_compute; exact I)) as (s0 & _ & Hrel0).
  pose proof (indexer_run_rel short_hash kVarchar _ [KReserve 4] _ _ [KDone] ([], 4, 0) Hrel0 ltac:(vm_compute; reflexivity)) as Hw.
  apply wp_exists in Hw as ([o s] & _ & _ & (vals & Hlf & Hcap)). exists s.
  destruct (long_key_twice short_hash _ s [] (vals, 0) [97; 98; 99] (PVarchar [97; 98]) Hlf) as (s1 & s2 & H1 & H2 & H3 & H4);
    [vm_compute; reflexivity|discriminate|apply not_elem_of_nil|change (0 + 1 < vlen vals); cbn [fst snd] in Hcap; rewrite Hcap; reflexivity|reflexivity|reflexivity|].
  exists s1, s2. split; [exact H1|]. split; [exact H2|]. split; [exact H3|exact H4].
Defined.
