(* ===== verification/Table.v ===== *)
(** * Property tables

    [Table] (include/neug/utils/property/table.h, src/utils/property/table.cc): the
    columns of the vertices or edges of one label.  [column_ptrs_] repeats the
    addresses of [columns_] and is left out, and so are names of files.  A null
    [shared_ptr] is [None]; to use it, and a [CHECK] that does not hold, is [None] of
    the call. *)
From stdpp Require Import strings.
From S2P Require Import Prelude Storage Bitset Property Column.
#[local] Open Scope Z_scope.

(** [DataType]: the id and the maximal length of a string type. *)
Definition DataType : Type := DataTypeId * Z.

Record Table := MkTable {
  col_id_map_ : gmap string Z;
  col_names_ : list string;
  columns_ : list (option Column)
}.
Implicit Types t : Table.

Definition new_table : Table := MkTable ∅ [] [].
Definition with_columns (cs : list (option Column)) t : Table := MkTable (col_id_map_ t) (col_names_ t) cs.

(** [unordered_map::insert]: an entry that is there stays. *)
Definition map_insert (k : string) (v : Z) (m : gmap string Z) : gmap string Z :=
  match m !! k with Some _ => m | None => <[k := v]> m end.

(** [vector::resize] of the columns. *)
Definition resize_columns (n : Z) (cs : list (option Column)) : list (option Column) := Resize None cs n.

(** The loop of [initColumns] and [add_columns] from index [i]; an exception leaves the
    columns so far. *)
Fixpoint create_columns t (names : list string) (types : list DataType) : option (outcome unit * Table) :=
  match names with
  | [] => Some (Returned tt, t)
  | name :: names =>
      match types with
      | [] => None
      | (ty, max_length) :: types =>
          let col_id := vlen (col_names_ t) in
          let t := MkTable (map_insert name col_id (col_id_map_ t)) (col_names_ t ++ [name]) (columns_ t) in
          match CreateColumn ty max_length with
          | Thrown => Some (Thrown, t)
          | Returned c => cs ← vset (columns_ t) col_id (Some c); create_columns (with_columns cs t) names types
          end
      end
  end.

Definition initColumns (col_name : list string) (property_types : list DataType) : option (outcome unit * Table) :=
  '(r, t) ← create_columns (MkTable ∅ [] (resize_columns (vlen col_name) [])) col_name property_types;
  match r with
  | Thrown => Some (Thrown, t)
  | Returned _ => Some (Returned tt, with_columns (resize_columns (Z.of_nat (size (col_id_map_ t))) (columns_ t)) t)
  end.

(** [for (i : columns_)]: [f] is called on the columns in turn and an exception ends
    the loop. *)
Fixpoint on_columns {C} (f : Z -> C -> option (outcome unit * C)) (i : Z) (cs : list C) : option (outcome unit * list C) :=
  match cs with
  | [] => Some (Returned tt, [])
  | c :: cs =>
      '(r, c) ← f i c;
      match r with
      | Thrown => Some (Thrown, c :: cs)
      | Returned _ => '(r, cs) ← on_columns f (i + 1) cs; Some (r, c :: cs)
      end
  end.

(** A method of a column through its pointer. *)
Definition deref (f : Z -> Column -> option (outcome unit * Column)) (i : Z) (c : option Column) : option (outcome unit * option Column) :=
  c ← c; lift Some (f i c).

Definition on_table t (f : Z -> Column -> option (outcome unit * Column)) : option (outcome unit * Table) :=
  '(r, cs) ← on_columns (deref f) 0 (columns_ t); Some (r, with_columns cs t).

Definition table_insert t (index : Z) (values : list Property) (insert_safe : bool) : option (outcome unit * Table) :=
  if vlen values =? vlen (columns_ t) then on_table t (fun i c => v ← vget values i; col_set_any c index v insert_safe) else None.

Definition table_resize t (row_num : Z) : option (outcome unit * Table) :=
  on_table t (fun _ c => c ← col_resize c row_num; Some (Returned tt, c)).

Definition table_resize_default t (row_num : Z) (default_values : list Property) : option (outcome unit * Table) :=
  if vlen default_values =? vlen (columns_ t)
  then on_table t (fun i c => v ← vget default_values i; col_resize_default c row_num v)
  else Some (Thrown, t).

(** The new columns are resized after all of them were created. *)
Definition add_columns t (col_names : list string) (col_types : list DataType) (default_property_values : list Property)
    (capacity : Z) : option (outcome unit * Table) :=
  if vlen default_property_values =? vlen col_names then
    let old_size := vlen (columns_ t) in
    '(r, t) ← create_columns (with_columns (resize_columns (old_size + vlen col_names) (columns_ t)) t) col_names col_types;
    match r with
    | Thrown => Some (Thrown, t)
    | Returned _ =>
        '(r, cs) ← on_columns (deref (fun i c => v ← vget default_property_values (i - old_size); col_resize_default c capacity v))
          old_size (drop (Z.to_nat old_size) (columns_ t));
        Some (r, with_columns (take (Z.to_nat old_size) (columns_ t) ++ cs) t)
    end
  else Some (Thrown, t).

Definition rename_column t (old_name new_name : string) : option Table :=
  match col_id_map_ t !! old_name with
  | Some col_id =>
      names ← vset (col_names_ t) col_id new_name;
      Some (MkTable (map_insert new_name col_id (delete old_name (col_id_map_ t))) names (columns_ t))
  | None => Some t
  end.

(** [vector::erase] at [i]. *)
Definition erase {A} (l : list A) (i : Z) : option (list A) :=
  if (0 <=? i) && (i <? vlen l) then Some (take (Z.to_nat i) l ++ drop (Z.to_nat (i + 1)) l) else None.

(** [std::find]: the place of a name. *)
Definition find_name (names : list string) (name : string) : option Z := get_index names name 0.

Definition delete_column t (col_name : string) : option Table :=
  match col_id_map_ t !! col_name with
  | Some col_id =>
      c ← vget (columns_ t) col_id; _ ← c;
      cs ← erase (columns_ t) col_id;
      names ← erase (col_names_ t) col_id;
      Some (MkTable ((fun id => if col_id <? id then id - 1 else id) <$> delete col_name (col_id_map_ t)) names cs)
  | None => Some t
  end.

(** [CHECK_EQ(col_num, new_col_id_map.size())] *)
Definition reset_header t (col_name : list string) : option Table :=
  '(m, names) ← for_each (zip (seqZ 0 (vlen col_name)) col_name) (∅, col_names_ t) (fun '(i, name) '(m, names) =>
    names ← vset names i name; Some (map_insert name i m, names));
  if vlen col_name =? Z.of_nat (size m) then Some (MkTable m names (columns_ t)) else None.

(** *** Queries *)

Definition get_column_id_by_name t (name : string) : Z := default (-1) (col_id_map_ t !! name).

(** The column, or a null pointer. *)
Definition get_column_by_id t (index : Z) : option Column := c ← vget (columns_ t) index; c.
Definition get_column t (name : string) : option Column := col_id ← col_id_map_ t !! name; get_column_by_id t col_id.

Definition column_name t (index : Z) : option string := vget (col_names_ t) index.
Definition column_types t : option (list DataTypeId) :=
  mapM (fun i => c ← get_column_by_id t i; Some (col_type c)) (seqZ 0 (Z.of_nat (size (col_id_map_ t)))).
Definition col_num t : Z := vlen (columns_ t).
Definition table_size t : option Z := match columns_ t with [] => Some 0 | c :: _ => c ← c; Some (col_size c) end.
Definition get_row t (row_id : Z) : option (list Property) := mapM (fun c : option Column => c ← c; col_get_prop c row_id) (columns_ t).
