(* ===== verification/TableTheorems.v ===== *)
(** * A table as named columns of values

    [cols_exec] is what a [Table] promises: a list of named columns, each a list of
    values.  [table_refines] shows that a table made by [initColumns] keeps the
    promise; [table_rows] reads it row by row, and [rename_collision] shows why
    new names must be fresh. *)
From stdpp Require Import strings.
From S2P Require Import Prelude Storage Bitset Property Column ColumnTheorems ColumnSpec Table.
#[local] Open Scope Z_scope.

(** ** The specification *)

(** A column: its name, type, width, and its values with the bytes used. *)
Record acol := ACol { ac_name : string; ac_type : DataTypeId; ac_width : Z; ac_vals : list Property * Z }.

#[export] Instance acol_inhabited : Inhabited acol := populate (ACol EmptyString kEmpty 0 ([], 0)).

Definition ac_step (op : col_op) (a : acol) : option (outcome unit * acol) :=
  '(o, st) ← vals_exec (ac_type a) (ac_width a) op (ac_vals a);
  match o with
  | OutDone => Some (Returned tt, ACol (ac_name a) (ac_type a) (ac_width a) st)
  | OutThrown => Some (Thrown, ACol (ac_name a) (ac_type a) (ac_width a) st)
  | OutProp _ => None
  end.

Definition names_of (cols : list acol) : list string := ac_name <$> cols.

Definition find_col (cols : list acol) (name : string) : option acol := head (filter (fun a => ac_name a = name) cols).

(** A type with a column of values. *)
Definition storable (ty : DataType) : bool :=
  match CreateColumn ty.1 ty.2 with Returned _ => negb (bool_decide (ty.1 = kEmpty)) | Thrown => false end.

Definition fresh_cols (names : list string) (types : list DataType) : list acol :=
  zip_with (fun name ty => ACol name ty.1 (ty.2 mod 2 ^ 16) ([], 0)) names types.

Inductive table_op :=
  | TInsert (index : Z) (values : list Property) (insert_safe : bool)
  | TResize (n : Z)
  | TResizeDefault (n : Z) (default_values : list Property)
  | TAdd (names : list string) (types : list DataType) (default_values : list Property) (capacity : Z)
  | TRename (old_name new_name : string)
  | TDelete (name : string)
  | TGetRow (index : Z)
  | TGet (name : string) (index : Z).

Inductive table_out := TDone | TThrown | TRow (row : list Property) | TCell (p : option Property).

Definition tout (r : outcome unit) : table_out := match r with Returned _ => TDone | Thrown => TThrown end.

Definition table_exec (op : table_op) (t : Table) : option (table_out * Table) :=
  match op with
  | TInsert i vs safe => '(r, t) ← table_insert t i vs safe; Some (tout r, t)
  | TResize n => '(r, t) ← table_resize t n; Some (tout r, t)
  | TResizeDefault n ds => '(r, t) ← table_resize_default t n ds; Some (tout r, t)
  | TAdd names types ds cap => '(r, t) ← add_columns t names types ds cap; Some (tout r, t)
  | TRename old new => t ← rename_column t old new; Some (TDone, t)
  | TDelete name => t ← delete_column t name; Some (TDone, t)
  | TGetRow i => row ← get_row t i; Some (TRow row, t)
  | TGet name i =>
      match get_column t name with
      | None => Some (TCell None, t)
      | Some c => p ← col_get_prop c i; Some (TCell (Some p), t)
      end
  end.

(** The contract: names are distinct and new ones fresh, types storable, and the
    calls on the columns keep the contract of columns. *)
Definition cols_exec (op : table_op) (cols : list acol) : option (table_out * list acol) :=
  match op with
  | TInsert i vs safe =>
      if vlen vs =? vlen cols then '(r, cols) ← on_columns (fun k a => v ← vget vs k; ac_step (OpSet i v safe) a) 0 cols; Some (tout r, cols)
      else None
  | TResize n => '(r, cols) ← on_columns (fun _ => ac_step (OpResize n)) 0 cols; Some (tout r, cols)
  | TResizeDefault n ds =>
      if vlen ds =? vlen cols then '(r, cols) ← on_columns (fun k a => v ← vget ds k; ac_step (OpResizeDefault n v) a) 0 cols; Some (tout r, cols)
      else Some (TThrown, cols)
  | TAdd names types ds cap =>
      if vlen ds =? vlen names then
        if bool_decide (NoDup (names_of cols ++ names)) && (vlen types =? vlen names) && forallb storable types then
          '(r, added) ← on_columns (fun k a => v ← vget ds (k - vlen cols); ac_step (OpResizeDefault cap v) a) (vlen cols) (fresh_cols names types);
          Some (tout r, cols ++ added)
        else None
      else Some (TThrown, cols)
  | TRename old new =>
      if bool_decide (old ∈ names_of cols) then
        if bool_decide (old <> new /\ new ∈ names_of cols) then None
        else Some (TDone, (fun a => if String.eqb (ac_name a) old then ACol new (ac_type a) (ac_width a) (ac_vals a) else a) <$> cols)
      else Some (TDone, cols)
  | TDelete name => Some (TDone, filter (fun a => ac_name a <> name) cols)
  | TGetRow i =>
      if forallb (fun a => (0 <=? i) && (i <? vlen (fst (ac_vals a)))) cols
      then Some (TRow ((fun a => vat (fst (ac_vals a)) i) <$> cols), cols) else None
  | TGet name i =>
      match find_col cols name with
      | None => Some (TCell None, cols)
      | Some a => if (0 <=? i) && (i <? vlen (fst (ac_vals a))) then Some (TCell (Some (vat (fst (ac_vals a)) i)), cols) else None
      end
  end.

Fixpoint trun {S} (exec : table_op -> S -> option (table_out * S)) (ops : list table_op) (s : S) : option (list table_out * S) :=
  match ops with
  | [] => Some ([], s)
  | op :: ops => '(o, s) ← exec op s; '(os, s) ← trun exec ops s; Some (o :: os, s)
  end.

(** ** The relation *)

Definition slot_rel (c : option Column) (a : acol) : Prop := exists c', c = Some c' /\ col_rel (ac_type a) (ac_width a) c' (ac_vals a).

Record table_rel (t : Table) (cols : list acol) : Prop := {
  tr_cols : Forall2 slot_rel (columns_ t) cols;
  tr_names : col_names_ t = names_of cols;
  tr_nodup : NoDup (names_of cols);
  tr_map name i : col_id_map_ t !! name = Some i <-> vget (names_of cols) i = Some name
}.

(** ** Loops over the columns *)

Lemma on_columns_sim {C A} (R : C -> A -> Prop) (f : Z -> C -> option (outcome unit * C)) (g : Z -> A -> option (outcome unit * A)) :
  (forall i c a r a', R c a -> g i a = Some (r, a') -> exists c', f i c = Some (r, c') /\ R c' a') ->
  forall cs ca i r ca', Forall2 R cs ca -> on_columns g i ca = Some (r, ca') ->
  exists cs', on_columns f i cs = Some (r, cs') /\ Forall2 R cs' ca'.
Proof.
  intros Hf cs ca i r ca' HR. revert i r ca'. induction HR as [|c a cs ca Hca HR IH]; intros i r ca' Hg; cbn [on_columns] in Hg |- *.
  - injection Hg as <- <-. by exists [].
  - destruct (g i a) as [[r1 a1]|] eqn:E; [|done]. cbn [mbind option_bind] in Hg. destruct (Hf i c a r1 a1 Hca E) as (c1 & -> & Hc1). cbn [mbind option_bind].
    destruct r1.
    + destruct (on_columns g (i + 1) ca) as [[r2 ca2]|] eqn:E2; [|done]. injection Hg as <- <-.
      destruct (IH _ _ _ E2) as (cs2 & -> & H2). eexists. split; [done|]. by constructor.
    + injection Hg as <- <-. eexists. split; [done|]. by constructor.
Qed.

(** What every call keeps, the loop keeps. *)
Lemma on_columns_keeps {A B} (p : A -> B) (g : Z -> A -> option (outcome unit * A)) :
  (forall i a r a', g i a = Some (r, a') -> p a' = p a) ->
  forall ca i r ca', on_columns g i ca = Some (r, ca') -> p <$> ca' = p <$> ca.
Proof.
  intros Hg. induction ca as [|a ca IH]; intros i r ca' Hx; cbn [on_columns] in Hx; [by injection Hx as <- <-|].
  destruct (g i a) as [[r1 a1]|] eqn:E; [|done]. cbn [mbind option_bind] in Hx. destruct r1.
  - destruct (on_columns g (i + 1) ca) as [[r2 ca2]|] eqn:E2; [|done]. injection Hx as <- <-. cbn [fmap list_fmap]. f_equal; [by eapply Hg|by eapply IH].
  - injection Hx as <- <-. cbn [fmap list_fmap]. f_equal. by eapply Hg.
Qed.

Lemma ac_step_name op a r a' : ac_step op a = Some (r, a') -> ac_name a' = ac_name a.
Proof. unfold ac_step. destruct (vals_exec _ _ _ _) as [[[]]|]; [| | |done]; by intros [= <- <-]. Qed.

(** A call on the column of a slot. *)
Lemma deref_rel (op : col_op) (f : Z -> Column -> option (outcome unit * Column)) i c a r a' :
  (forall c out c', col_exec op c = Some (out, c') -> out_of r = out -> f i c = Some (r, c')) ->
  slot_rel c a -> ac_step op a = Some (r, a') -> exists c', deref f i c = Some (r, c') /\ slot_rel c' a'.
Proof.
  intros Hf (c0 & -> & Hrel). unfold ac_step. destruct (vals_exec _ _ op _) as [[o st']|] eqn:E; [|done]. cbn [mbind option_bind].
  destruct (col_exec_rel _ _ _ _ _ _ _ Hrel E) as (c1 & Hc1 & Hrel1). unfold deref, lift. cbn [mbind option_bind].
  destruct o; [| |done]; intros [= <- <-]; rewrite (Hf _ _ _ Hc1 eq_refl); eexists; (split; [done|]); by exists c1.
Qed.

(** The methods of a column as [col_exec]. *)
Lemma exec_set i v safe r c out c' : col_exec (OpSet i v safe) c = Some (out, c') -> out_of r = out -> col_set_any c i v safe = Some (r, c').
Proof. cbn [col_exec]. destruct (col_set_any c i v safe) as [[[[]|] ?]|]; [| |done]; intros [= <- <-]; by destruct r as [[]|]. Qed.
Lemma exec_default n v r c out c' : col_exec (OpResizeDefault n v) c = Some (out, c') -> out_of r = out -> col_resize_default c n v = Some (r, c').
Proof. cbn [col_exec]. destruct (col_resize_default c n v) as [[[[]|] ?]|]; [| |done]; intros [= <- <-]; by destruct r as [[]|]. Qed.
Lemma exec_resize n r c out c' : col_exec (OpResize n) c = Some (out, c') -> out_of r = out -> (c ← col_resize c n; Some (Returned tt, c)) = Some (r, c').
Proof. cbn [col_exec]. destruct (col_resize c n); [|done]. intros [= <- <-]. by destruct r as [[]|]. Qed.

(** Replacing the columns by others of the same names. *)
Lemma table_rel_columns t cols cs cols' : table_rel t cols -> Forall2 slot_rel cs cols' -> names_of cols' = names_of cols ->
  table_rel (with_columns cs t) cols'.
Proof. intros [_ Hn Hd Hm] Hcs Hnames. split; [done| | |]; rewrite Hnames; done. Qed.

Lemma table_rel_len t cols : table_rel t cols -> vlen (columns_ t) = vlen cols.
Proof. intros [Hc _ _ _]. unfold vlen. by rewrite (Forall2_length _ _ _ Hc). Qed.

Lemma on_table_rel t cols f g r cols' : table_rel t cols ->
  (forall i c a r a', slot_rel c a -> g i a = Some (r, a') -> exists c', deref f i c = Some (r, c') /\ slot_rel c' a') ->
  (forall i a r a', g i a = Some (r, a') -> ac_name a' = ac_name a) ->
  on_columns g 0 cols = Some (r, cols') -> exists t', on_table t f = Some (r, t') /\ table_rel t' cols'.
Proof.
  intros Hrel Hf Hg Hx. destruct (on_columns_sim slot_rel (deref f) g Hf _ _ _ _ _ (tr_cols _ _ Hrel) Hx) as (cs & Hcs & H2).
  unfold on_table. rewrite Hcs. eexists. split; [done|]. eapply table_rel_columns; [done|done|]. by eapply on_columns_keeps.
Qed.

(** The loops whose call takes the value of the column. *)
Lemma valued_step {A} (vs : list A) (op : A -> col_op) (f : A -> Column -> option (outcome unit * Column)) (h : Z -> Z) :
  (forall v r c out c', col_exec (op v) c = Some (out, c') -> out_of r = out -> f v c = Some (r, c')) ->
  forall i c a r a', slot_rel c a -> (v ← vget vs (h i); ac_step (op v) a) = Some (r, a') ->
  exists c', deref (fun i c => v ← vget vs (h i); f v c) i c = Some (r, c') /\ slot_rel c' a'.
Proof.
  intros Hf i c a r a' Hc Hx. destruct (vget vs (h i)) as [v|] eqn:E; [|done]. cbn [mbind option_bind] in Hx.
  apply (deref_rel (op v) _ i c a r a'); [|done|done]. intros c0 out c' He Ho. rewrite E. cbn [mbind option_bind]. by eapply Hf.
Qed.

Lemma valued_name {A} (vs : list A) (op : A -> col_op) (h : Z -> Z) i a r a' : (v ← vget vs (h i); ac_step (op v) a) = Some (r, a') -> ac_name a' = ac_name a.
Proof. destruct (vget vs (h i)) as [v|]; [|done]. apply ac_step_name. Qed.

(** ** Names and places *)

Lemma vget_app_iff {A} (l k : list A) i x : vget (l ++ k) i = Some x <-> vget l i = Some x \/ vget k (i - vlen l) = Some x.
Proof.
  rewrite !vget_iff, lookup_app_Some. unfold vlen. split.
  - intros [Hi [Hl|[Hle Hk]]]; [by left|right]. split; [lia|]. by replace (Z.to_nat (i - _)) with (Z.to_nat i - List.length l)%nat by lia.
  - intros [[Hi Hl]|[Hi Hk]]; (split; [lia|]); [by left|right]. split; [lia|]. by replace (Z.to_nat i - List.length l)%nat with (Z.to_nat (i - Z.of_nat (List.length l))) by lia.
Qed.

(** The list without its entry at [k]. *)
Lemma vget_erase_iff {A} (l : list A) k i x : 0 <= k < vlen l ->
  vget (take (Z.to_nat k) l ++ drop (Z.to_nat (k + 1)) l) i = Some x <-> exists j, vget l j = Some x /\ j <> k /\ i = if k <? j then j - 1 else j.
Proof.
  intros Hk. rewrite vget_app_iff. assert (vlen (take (Z.to_nat k) l) = k) as -> by (unfold vlen in *; rewrite length_take; lia).
  split.
  - intros [[Hi Hl]%vget_iff|[Hi Hl]%vget_iff].
    + apply lookup_take_Some in Hl as [Hl Hlt]. exists i. rewrite vget_iff. rewrite (proj2 (Z.ltb_ge _ _)) by lia. split_and!; [lia|done|lia|done].
    + rewrite lookup_drop in Hl. exists (i + 1). rewrite vget_iff, (proj2 (Z.ltb_lt _ _)) by lia. split_and!; [lia| |lia|lia].
      by replace (Z.to_nat (i + 1)) with (Z.to_nat (k + 1) + Z.to_nat (i - k))%nat by lia.
  - intros (j & [Hj Hl]%vget_iff & Hne & ->). destruct (Z.ltb_spec k j); [right|left]; rewrite vget_iff.
    + split; [lia|]. rewrite lookup_drop. by replace (Z.to_nat (k + 1) + Z.to_nat (j - 1 - k))%nat with (Z.to_nat j) by lia.
    + split; [lia|]. apply lookup_take_Some. split; [done|lia].
Qed.

Lemma vget_names cols i name : vget (names_of cols) i = Some name <-> exists a, vget cols i = Some a /\ ac_name a = name.
Proof.
  rewrite vget_iff. unfold names_of. rewrite list_lookup_fmap, fmap_Some. split.
  - intros [Hi (a & Ha & ->)]. exists a. by rewrite vget_iff.
  - intros (a & [Hi Ha]%vget_iff & <-). split; [done|]. by exists a.
Qed.

Lemma nodup_vget {A} (l : list A) i j x : NoDup l -> vget l i = Some x -> vget l j = Some x -> i = j.
Proof. intros Hd [Hi Hl]%vget_iff [Hj Hk]%vget_iff. pose proof (NoDup_lookup _ _ _ _ Hd Hl Hk). lia. Qed.

Section table.
Context (t : Table) (cols : list acol) (Hrel : table_rel t cols).

Lemma map_none name : name ∉ names_of cols <-> col_id_map_ t !! name = None.
Proof.
  split.
  - intros Hn. destruct (col_id_map_ t !! name) as [i|] eqn:E; [|done]. apply (tr_map _ _ Hrel), vget_elem in E. done.
  - intros Hn (i & Hi)%elem_vget. apply (tr_map _ _ Hrel) in Hi. congruence.
Qed.

Lemma columns_vget i a : vget cols i = Some a -> exists c, vget (columns_ t) i = Some (Some c) /\ col_rel (ac_type a) (ac_width a) c (ac_vals a).
Proof.
  intros [Hi Ha]%vget_iff. destruct (Forall2_lookup_r _ _ _ _ _ (tr_cols _ _ Hrel) Ha) as (c & Hc & c' & -> & Hr).
  exists c'. rewrite vget_iff. done.
Qed.

Lemma get_column_rel name : get_column t name = None /\ find_col cols name = None \/
  exists c a, get_column t name = Some c /\ find_col cols name = Some a /\ ac_name a = name /\ col_rel (ac_type a) (ac_width a) c (ac_vals a).
Proof.
  unfold get_column, find_col. destruct (filter (fun a => ac_name a = name) cols) as [|a l] eqn:Ef.
  - left. split; [|done]. rewrite (proj1 (map_none name)); [done|]. unfold names_of. intros (a & -> & Ha)%list_elem_of_fmap.
    assert (a ∈ filter (fun b => ac_name b = ac_name a) cols) as Hin by (by apply list_elem_of_filter). rewrite Ef in Hin. by apply elem_of_nil in Hin.
  - right. assert (a ∈ filter (fun a => ac_name a = name) cols) as Hin by (rewrite Ef; left). apply list_elem_of_filter in Hin as [Hn Hin].
    destruct (elem_vget _ _ Hin) as [i Hi]. destruct (columns_vget i a Hi) as (c & Hc & Hr).
    assert (col_id_map_ t !! name = Some i) as -> by (apply (tr_map _ _ Hrel), vget_names; by exists a).
    exists c, a. cbn [mbind option_bind]. unfold get_column_by_id. by rewrite Hc.
Qed.

Lemma rename_rel old new : bool_decide (old <> new /\ new ∈ names_of cols) = false -> old ∈ names_of cols ->
  exists t', rename_column t old new = Some t' /\
  table_rel t' ((fun a => if String.eqb (ac_name a) old then ACol new (ac_type a) (ac_width a) (ac_vals a) else a) <$> cols).
Proof.
  intros Hbd%bool_decide_eq_false_1 Hold. destruct (elem_vget _ _ Hold) as [id Hid]. set (cols' := _ <$> cols).
  pose proof (vget_lt _ _ _ Hid) as Hlt. pose proof (tr_nodup _ _ Hrel) as Hd.
  assert (names_of cols' = vput (names_of cols) id new) as Hnames.
  { apply list_eq. intros k. unfold cols', names_of. rewrite !list_lookup_fmap. apply vget_iff in Hid as [Hi0 Hid]. unfold vput.
    destruct (decide (k = Z.to_nat id)) as [->|Hne].
    - rewrite list_lookup_insert_eq by (by apply lookup_lt_Some in Hid). unfold names_of in Hid. rewrite list_lookup_fmap in Hid.
      destruct (cols !! Z.to_nat id); [|done]. injection Hid as He. simpl. by rewrite (proj2 (String.eqb_eq _ _) He).
    - rewrite list_lookup_insert_ne by done. rewrite list_lookup_fmap. destruct (cols !! k) as [a|] eqn:E; [|done]. simpl.
      destruct (String.eqb_spec (ac_name a) old) as [He|]; [|done]. exfalso. apply Hne. eapply NoDup_lookup; [done| |done].
      unfold names_of. by rewrite list_lookup_fmap, E, <-He. }
  unfold rename_column. rewrite (proj2 (tr_map _ _ Hrel old id) Hid), (tr_names _ _ Hrel). rewrite vset_Some by done. cbn [mbind option_bind].
  assert (forall i, vget (names_of cols) i = Some new -> i = id) as Hnew.
  { intros i Hi. destruct (decide (old = new)) as [<-|Hne]; [by eapply nodup_vget|]. exfalso. apply Hbd. split; [done|by eapply vget_elem]. }
  assert (NoDup (names_of cols')) as Hd'.
  { rewrite Hnames. apply NoDup_alt. intros i j x Hi Hj.
    assert (vget (vput (names_of cols) id new) (Z.of_nat i) = Some x) as Hi' by (apply vget_iff; rewrite Nat2Z.id; split; [lia|done]).
    assert (vget (vput (names_of cols) id new) (Z.of_nat j) = Some x) as Hj' by (apply vget_iff; rewrite Nat2Z.id; split; [lia|done]).
    apply vget_vput_iff in Hi' as [[Ei ->]|[Ei Hi']], Hj' as [[Ej Ex]|[Ej Hj']]; try done; try lia.
    - apply Hnew in Hj'. lia.
    - subst x. apply Hnew in Hi'. lia.
    - pose proof (nodup_vget _ _ _ _ Hd Hi' Hj'). lia. }
  eexists. split; [done|]. split; [| |done|].
  - unfold cols'. apply Forall2_fmap_r. eapply Forall2_impl; [exact (tr_cols _ _ Hrel)|]. intros c a (c' & -> & Hr). exists c'. split; [done|].
    by destruct (String.eqb _ _).
  - done.
  - intros name i. rewrite Hnames, vget_vput_iff by done. cbn [col_id_map_]. unfold map_insert.
    assert (delete old (col_id_map_ t) !! new = None) as ->.
    { destruct (decide (old = new)) as [<-|Hne]; [apply lookup_delete_eq|]. rewrite lookup_delete_ne by done. apply map_none. intros Hin. by apply Hbd. }
    destruct (decide (name = new)) as [->|Hne].
    + rewrite lookup_insert_eq. split; [intros [= <-]; by left|]. intros [[-> _]|[Hi Hg]]; [done|]. by apply Hnew in Hg.
    + rewrite lookup_insert_ne by done. destruct (decide (name = old)) as [->|Ho].
      * rewrite lookup_delete_eq. split; [done|]. intros [[_ ?]|[Hi Hg]]; [done|]. exfalso. apply Hi. exact (nodup_vget _ _ _ _ Hd Hg Hid).
      * rewrite lookup_delete_ne, (tr_map _ _ Hrel) by done. split; [|by intros [[_ ?]|[_ ?]]]. intros Hg. right. split; [|done].
        intros ->. congruence.
Qed.

Lemma rename_absent old new : old ∉ names_of cols -> rename_column t old new = Some t.
Proof. intros Hn. unfold rename_column. by rewrite (proj1 (map_none old)). Qed.

Lemma filter_erase name id : vget (names_of cols) id = Some name ->
  filter (fun a => ac_name a <> name) cols = take (Z.to_nat id) cols ++ drop (Z.to_nat (id + 1)) cols.
Proof.
  intros (a & Ha & Hn)%vget_names. apply vget_iff in Ha as [Hi Ha]. pose proof (tr_nodup _ _ Hrel) as Hd.
  rewrite <-(take_drop_middle cols _ _ Ha) at 1. rewrite filter_app, filter_cons, decide_False by (intros E; by apply E).
  replace (Z.to_nat (id + 1)) with (S (Z.to_nat id)) by lia.
  assert (forall k : list acol, (forall (i : nat) b, k !! i = Some b -> ac_name b <> name) -> filter (fun a => ac_name a <> name) k = k) as Hall.
  { intros k Hk. apply filter_id. intros b (i & Hb)%list_elem_of_lookup. by eapply Hk. }
  assert (forall j b, cols !! j = Some b -> ac_name b = name -> j = Z.to_nat id) as Huniq.
  { intros j b Hj Hb. eapply NoDup_lookup; [exact Hd| |]; unfold names_of; rewrite list_lookup_fmap; [by rewrite Hj|rewrite Ha; simpl; by rewrite Hn, Hb]. }
  f_equal; apply Hall; intros i b Hb E.
  - apply lookup_take_Some in Hb as [Hb Hlt]. apply Huniq in Hb; [lia|done].
  - rewrite lookup_drop in Hb. apply Huniq in Hb; [lia|done].
Qed.

Lemma delete_absent name : name ∉ names_of cols -> delete_column t name = Some t /\ filter (fun a => ac_name a <> name) cols = cols.
Proof.
  intros Hn. unfold delete_column. rewrite (proj1 (map_none name) Hn). split; [done|]. apply filter_id.
  intros a Ha <-. apply Hn, list_elem_of_fmap. by exists a.
Qed.

Lemma delete_rel name : name ∈ names_of cols ->
  exists t', delete_column t name = Some t' /\ table_rel t' (filter (fun a => ac_name a <> name) cols).
Proof.
  intros (id & Hid)%elem_vget. pose proof (tr_nodup _ _ Hrel) as Hd. pose proof (vget_lt _ _ _ Hid) as Hlt.
  rewrite (filter_erase name id Hid). set (cols' := take _ cols ++ _).
  assert (names_of cols' = take (Z.to_nat id) (names_of cols) ++ drop (Z.to_nat (id + 1)) (names_of cols)) as Hnames
    by (unfold cols', names_of; by rewrite fmap_app, fmap_take, fmap_drop).
  assert (vlen (names_of cols) = vlen cols) as Hlen by apply vlen_fmap.
  unfold delete_column. rewrite (proj2 (tr_map _ _ Hrel name id) Hid).
  destruct (proj1 (vget_names _ _ _) Hid) as (a & Ha & _). destruct (columns_vget id a Ha) as (c & Hc & _).
  rewrite Hc, (tr_names _ _ Hrel). cbn [mbind option_bind]. unfold erase.
  rewrite (table_rel_len _ _ Hrel), Hlen, (proj2 (Z.leb_le _ _)), (proj2 (Z.ltb_lt _ _)) by lia. simpl andb. cbn [mbind option_bind].
  eexists. split; [done|]. split; [| | |].
  - unfold cols'. apply Forall2_app; [apply Forall2_take|apply Forall2_drop]; exact (tr_cols _ _ Hrel).
  - done.
  - rewrite Hnames. assert (Z.to_nat (id + 1) = S (Z.to_nat id)) as -> by lia. apply vget_iff in Hid as [Hi0 Hid].
    rewrite <-(take_drop_middle (names_of cols) _ _ Hid) in Hd. apply NoDup_app in Hd as (H1 & H2 & H3). apply NoDup_app.
    apply NoDup_cons in H3 as [_ H3]. split_and!; [done| |done]. intros x Hx Hx'. apply (H2 x Hx). by right.
  - intros nm i. rewrite Hnames, vget_erase_iff by lia. cbn [col_id_map_]. rewrite lookup_fmap, fmap_Some. split.
    + intros (j & Hj & ->). apply lookup_delete_Some in Hj as [Hne Hj]. apply (tr_map _ _ Hrel) in Hj. exists j. split_and!; [done| |done].
      intros ->. congruence.
    + intros (j & Hj & Hne & ->). exists j. split; [|done]. apply lookup_delete_Some. split; [|by apply (tr_map _ _ Hrel)].
      intros ->. apply Hne. exact (nodup_vget _ _ _ _ Hd Hj Hid).
Qed.
End table.

(** *** New columns *)

Lemma fresh_cols_cons name names ty types :
  fresh_cols (name :: names) (ty :: types) = ACol name ty.1 (ty.2 mod 2 ^ 16) ([], 0) :: fresh_cols names types.
Proof. done. Qed.

Lemma names_fresh names types : vlen types = vlen names -> names_of (fresh_cols names types) = names.
Proof.
  revert types. induction names as [|n names IH]; intros [|ty types] Hl; try done; unfold vlen in *; simpl in Hl; try lia.
  rewrite fresh_cols_cons. unfold names_of in *. csimpl. f_equal. apply IH. lia.
Qed.

Lemma types_fresh names types : vlen types = vlen names -> ac_type <$> fresh_cols names types = types.*1.
Proof.
  revert types. induction names as [|n names IH]; intros [|ty types] Hl; try done; unfold vlen in *; simpl in Hl; try lia.
  rewrite fresh_cols_cons. csimpl. f_equal. apply IH. lia.
Qed.

Lemma map_insert_rel (m : gmap string Z) names name :
  (forall nm i, m !! nm = Some i <-> vget names i = Some nm) -> name ∉ names ->
  forall nm i, map_insert name (vlen names) m !! nm = Some i <-> vget (names ++ [name]) i = Some nm.
Proof.
  intros Hm Hn nm i. assert (m !! name = None) as E.
  { destruct (m !! name) as [k|] eqn:E; [|done]. by apply Hm, vget_elem in E. }
  unfold map_insert. rewrite E, vget_app_iff. destruct (decide (nm = name)) as [->|Hne].
  - rewrite lookup_insert_eq. split.
    + intros [= <-]. right. apply vget_iff. by rewrite Z.sub_diag.
    + intros [Hg|Hg]; [by apply vget_elem in Hg|]. apply vget_lt in Hg. rewrite vlen_one in Hg. f_equal. lia.
  - rewrite lookup_insert_ne, Hm by done. split; [by left|]. intros [Hg|Hg]; [done|]. apply vget_elem in Hg. by apply list_elem_of_singleton in Hg.
Qed.

Lemma create_columns_rel names types t cols n : table_rel (with_columns (take (Z.to_nat (vlen cols)) (columns_ t)) t) cols ->
  columns_ t = take (Z.to_nat (vlen cols)) (columns_ t) ++ replicate n None -> n = List.length names -> vlen types = vlen names ->
  NoDup (names_of cols ++ names) -> forallb storable types = true ->
  exists t', create_columns t names types = Some (Returned tt, t') /\ table_rel t' (cols ++ fresh_cols names types).
Proof.
  revert types t cols n. induction names as [|name names IH]; intros types t cols n Hrel Hcs -> Hl Hd Hs.
  - exists t. split; [done|]. destruct types; [|unfold vlen in Hl; simpl in Hl; lia]. simpl. rewrite app_nil_r. simpl in Hcs. rewrite app_nil_r in Hcs.
    rewrite <-Hcs in Hrel. by destruct t.
  - destruct types as [|[ty w] types]; [unfold vlen in Hl; simpl in Hl; lia|]. cbn [create_columns]. simpl in Hs. apply andb_prop in Hs as [Hst Hs].
    unfold storable in Hst. cbn [fst snd] in Hst. destruct (CreateColumn ty w) as [c|] eqn:Ec; [|done].
    apply negb_true_iff, bool_decide_eq_false_1 in Hst. pose proof (CreateColumn_rel ty w c Hst Ec) as Hc.
    pose proof (tr_names _ _ Hrel) as Hnames. cbn [col_names_ with_columns] in Hnames. rewrite Hnames. pose proof (table_rel_len _ _ Hrel) as Hlen.
    cbn [columns_ with_columns] in Hlen. set (olds := take _ (columns_ t)) in *.
    assert (vlen (names_of cols) = vlen cols) as Hvn by apply vlen_fmap. rewrite Hvn. cbn [columns_]. rewrite Hcs.
    pose proof (vlen_nonneg cols). rewrite vset_Some by (rewrite vlen_app, Hlen; unfold vlen; rewrite length_replicate; simpl; lia).
    cbn [mbind option_bind]. change (replicate (List.length (name :: names)) (@None Column)) with (None :: replicate (List.length names) (@None Column)).
    assert (vput (olds ++ None :: replicate (List.length names) None) (vlen cols) (Some c) = (olds ++ [Some c]) ++ replicate (List.length names) None) as ->.
    { unfold vput. rewrite insert_app_r_alt by (unfold vlen in *; lia). replace (Z.to_nat (vlen cols) - List.length olds)%nat with O by (unfold vlen in *; lia).
      simpl. by rewrite <-app_assoc. }
    rewrite fresh_cols_cons. cbn [fst snd].
    change (cols ++ ACol name ty (w mod 2 ^ 16) ([], 0) :: fresh_cols names types) with (cols ++ [ACol name ty (w mod 2 ^ 16) ([], 0)] ++ fresh_cols names types).
    rewrite app_assoc. set (a := ACol _ _ _ _). assert (take (Z.to_nat (vlen (cols ++ [a]))) ((olds ++ [Some c]) ++ replicate (List.length names) None) = olds ++ [Some c]) as Htake.
    { rewrite take_app_le by (rewrite length_app; unfold vlen in *; rewrite length_app; simpl; lia). apply take_ge. rewrite length_app. unfold vlen in *. rewrite length_app. simpl. lia. }
    assert (names_of (cols ++ [a]) = names_of cols ++ [name]) as Hna by (unfold names_of; by rewrite fmap_app).
    apply (IH types (MkTable _ _ _) (cols ++ [a]) (List.length names)); cbn [columns_ with_columns col_names_ col_id_map_].
    + rewrite Htake. split; cbn [columns_ with_columns col_names_ col_id_map_].
      * apply Forall2_app; [exact (tr_cols _ _ Hrel)|]. constructor; [|constructor]. by exists c.
      * done.
      * rewrite Hna. change (name :: names) with ([name] ++ names) in Hd. rewrite app_assoc in Hd. by apply NoDup_app in Hd as (? & _).
      * rewrite Hna, <-Hvn. apply map_insert_rel; [exact (tr_map _ _ Hrel)|]. apply NoDup_app in Hd as (_ & Hd & _). intros Hin. apply (Hd name Hin). left.
    + by rewrite Htake.
    + done.
    + unfold vlen in *. simpl in Hl. lia.
    + rewrite Hna, <-app_assoc. done.
    + done.
Qed.

(** The map has as many entries as there are columns. *)
Lemma map_size t cols : table_rel t cols -> Z.of_nat (size (col_id_map_ t)) = vlen cols.
Proof.
  intros Hrel. assert (dom (col_id_map_ t) = list_to_set (C := gset string) (names_of cols)) as Hdom.
  { apply set_eq. intros nm. rewrite elem_of_dom, elem_of_list_to_set. split.
    - intros (i & Hi). apply (tr_map _ _ Hrel) in Hi. by eapply vget_elem.
    - intros (i & Hi)%elem_vget. exists i. by apply (tr_map _ _ Hrel). }
  rewrite <-size_dom, Hdom, size_list_to_set by exact (tr_nodup _ _ Hrel). unfold names_of, vlen. by rewrite length_fmap.
Qed.

Lemma initColumns_rel names types : NoDup names -> vlen types = vlen names -> forallb storable types = true ->
  exists t, initColumns names types = Some (Returned tt, t) /\ table_rel t (fresh_cols names types).
Proof.
  intros Hd Hl Hs. unfold initColumns. set (t0 := MkTable _ _ _).
  assert (resize_columns (vlen names) [] = replicate (List.length names) None) as Hr.
  { unfold resize_columns, Resize, vlen. rewrite Nat2Z.id. simpl. by rewrite take_nil, Nat.sub_0_r. }
  destruct (create_columns_rel names types t0 [] (List.length names)) as (t & -> & Hrel); try done.
  - split; [constructor|done|constructor|]. intros nm i. split; [done|]. by intros ?%vget_elem%elem_of_nil.
  - cbn [mbind option_bind]. eexists. split; [done|]. simpl in Hrel. rewrite (map_size _ _ Hrel).
    apply (table_rel_columns t _ _ _ Hrel); [|done]. pose proof (table_rel_len _ _ Hrel) as Hlen. unfold resize_columns, Resize, vlen in *.
    rewrite <-Hlen, Nat2Z.id, take_ge, Nat.sub_diag by lia. rewrite app_nil_r. exact (tr_cols _ _ Hrel).
Qed.

Lemma add_rel t cols names types ds cap r added : table_rel t cols -> vlen ds = vlen names -> NoDup (names_of cols ++ names) ->
  vlen types = vlen names -> forallb storable types = true ->
  on_columns (fun k a => v ← vget ds (k - vlen cols); ac_step (OpResizeDefault cap v) a) (vlen cols) (fresh_cols names types) = Some (r, added) ->
  exists t', add_columns t names types ds cap = Some (r, t') /\ table_rel t' (cols ++ added).
Proof.
  intros Hrel Hds Hd Hl Hs Hx. unfold add_columns. rewrite (proj2 (Z.eqb_eq _ _) Hds), (table_rel_len _ _ Hrel).
  pose proof (table_rel_len _ _ Hrel) as Hlen. pose proof (vlen_nonneg cols) as Hn0. set (t0 := with_columns _ t).
  assert (columns_ t0 = columns_ t ++ replicate (List.length names) None) as Hc0.
  { unfold t0, with_columns, resize_columns, Resize. cbn [columns_]. unfold vlen in *. rewrite take_ge by lia. f_equal. f_equal. lia. }
  assert (take (Z.to_nat (vlen cols)) (columns_ t0) = columns_ t) as Ht0.
  { rewrite Hc0, take_app_le by (unfold vlen in *; lia). apply take_ge. unfold vlen in *. lia. }
  destruct (create_columns_rel names types t0 cols (List.length names)) as (t1 & -> & Hrel1); try done.
  { rewrite Ht0. by destruct t. }
  { by rewrite Ht0, Hc0. }
  cbn [mbind option_bind]. pose proof (tr_cols _ _ Hrel1) as Hc1.
  apply Forall2_app_inv_r in Hc1 as (cs1 & cs2 & H1 & H2 & Hcs). pose proof (Forall2_length _ _ _ H1) as Hl1.
  rewrite Hcs, drop_app_le, (drop_ge cs1) by (unfold vlen in *; lia). cbn [app].
  destruct (on_columns_sim slot_rel _ _ (valued_step ds (fun v => OpResizeDefault cap v) (fun v c => col_resize_default c cap v)
    (fun k => k - vlen cols) (fun v => exec_default cap v)) _ _ _ _ _ H2 Hx) as (cs' & -> & H2').
  cbn [mbind option_bind]. rewrite take_app_le, take_ge by (unfold vlen in *; lia). eexists. split; [done|].
  apply (table_rel_columns t1 _ _ _ Hrel1); [by apply Forall2_app|]. unfold names_of. rewrite !fmap_app. f_equal.
  eapply (on_columns_keeps ac_name); [|exact Hx]. intros k a r0 a'. apply (valued_name ds (fun v => OpResizeDefault cap v) (fun k => k - vlen cols) k).
Qed.

(** ** Each call *)

Lemma table_exec_rel t cols op out cols' : table_rel t cols -> cols_exec op cols = Some (out, cols') ->
  exists t', table_exec op t = Some (out, t') /\ table_rel t' cols'.
Proof.
  intros Hrel Hx. pose proof (table_rel_len _ _ Hrel) as Hlen. destruct op as [i vs safe|n|n ds|names types ds cap|old new|name|i|name i]; cbn [cols_exec table_exec] in Hx |- *.
  - unfold table_insert. rewrite Hlen. destruct (vlen vs =? vlen cols); [|done]. destruct (on_columns _ 0 cols) as [[r cols1]|] eqn:E; [|done]. injection Hx as <- <-.
    destruct (on_table_rel t cols (fun k c => v ← vget vs k; col_set_any c i v safe) _ r cols1 Hrel
      (valued_step vs (fun v => OpSet i v safe) (fun v c => col_set_any c i v safe) (fun k => k) (fun v => exec_set i v safe))
      (valued_name vs (fun v => OpSet i v safe) (fun k => k)) E) as (t' & -> & Hr). by exists t'.
  - unfold table_resize. destruct (on_columns _ 0 cols) as [[r cols1]|] eqn:E; [|done]. injection Hx as <- <-.
    destruct (on_table_rel t cols (fun _ c => c ← col_resize c n; Some (Returned tt, c)) (fun _ => ac_step (OpResize n)) r cols1 Hrel) as (t' & -> & Hr); [| |exact E|by exists t'].
    + intros k c a r0 a' Hc Ha. apply (deref_rel (OpResize n) _ k c a r0 a'); [|done|done]. intros. by eapply exec_resize.
    + intros k a r0 a'. apply ac_step_name.
  - unfold table_resize_default. rewrite Hlen. destruct (vlen ds =? vlen cols); [|injection Hx as <- <-; by exists t].
    destruct (on_columns _ 0 cols) as [[r cols1]|] eqn:E; [|done]. injection Hx as <- <-.
    destruct (on_table_rel t cols (fun k c => v ← vget ds k; col_resize_default c n v) _ r cols1 Hrel
      (valued_step ds (fun v => OpResizeDefault n v) (fun v c => col_resize_default c n v) (fun k => k) (fun v => exec_default n v))
      (valued_name ds (fun v => OpResizeDefault n v) (fun k => k)) E) as (t' & -> & Hr). by exists t'.
  - destruct (Z.eqb_spec (vlen ds) (vlen names)) as [Hds|Hds].
    + destruct (bool_decide _ && _ && _) eqn:Ec; [|done]. apply andb_prop in Ec as [[Hd%bool_decide_eq_true Hl%Z.eqb_eq]%andb_prop Hs].
      destruct (on_columns _ _ (fresh_cols _ _)) as [[r added]|] eqn:E; [|done]. injection Hx as <- <-.
      destruct (add_rel t cols names types ds cap r added Hrel Hds Hd Hl Hs E) as (t' & -> & Hr). by exists t'.
    + injection Hx as <- <-. exists t. split; [|done]. unfold add_columns. by rewrite (proj2 (Z.eqb_neq _ _) Hds).
  - case_bool_decide as Hin.
    + destruct (bool_decide (old <> new /\ _)) eqn:Ec; [done|]. injection Hx as <- <-.
      destruct (rename_rel t cols Hrel old new Ec Hin) as (t' & -> & Hr). by exists t'.
    + injection Hx as <- <-. exists t. by rewrite (rename_absent t cols Hrel).
  - injection Hx as <- <-. destruct (decide (name ∈ names_of cols)) as [Hin|Hin].
    + destruct (delete_rel t cols Hrel name Hin) as (t' & -> & Hr). by exists t'.
    + destruct (delete_absent t cols Hrel name Hin) as [-> ->]. by exists t.
  - destruct (forallb _ cols) eqn:Ef; [|done]. injection Hx as <- <-. exists t. split; [|done]. unfold get_row.
    assert (mapM (fun c : option Column => c ← c; col_get_prop c i) (columns_ t) = Some ((fun a => vat (fst (ac_vals a)) i) <$> cols)) as ->; [|done].
    apply mapM_Some. pose proof (tr_cols _ _ Hrel) as Hc. revert Ef Hc. generalize (columns_ t). clear. induction cols as [|a cols IH]; intros cs Ef Hc.
    + apply Forall2_nil_inv_r in Hc as ->. constructor.
    + apply Forall2_cons_inv_r in Hc as (c & cs' & (c' & -> & Hr) & Hc & ->). simpl in Ef. apply andb_prop in Ef as [Ha Ef].
      csimpl. constructor; [|by apply IH]. cbn [mbind option_bind]. eapply col_get_prop_rel; [exact Hr|]. lia.
  - destruct (get_column_rel t cols Hrel name) as [[-> Hf]|(c & a & -> & Hf & Hn & Hr)]; rewrite Hf in Hx; [injection Hx as <- <-; by exists t|].
    destruct (_ && _) eqn:Ei; [|done]. injection Hx as <- <-. rewrite (col_get_prop_rel _ _ _ _ i Hr) by lia. by exists t.
Qed.

Lemma trun_rel ops t cols outs cols' : table_rel t cols -> trun cols_exec ops cols = Some (outs, cols') ->
  exists t', trun table_exec ops t = Some (outs, t') /\ table_rel t' cols'.
Proof.
  revert t cols outs. induction ops as [|op ops IH]; intros t cols outs Hrel Hx; cbn [trun] in Hx |- *.
  - injection Hx as <- <-. by exists t.
  - destruct (cols_exec op cols) as [[o cols1]|] eqn:E1; [|done]. cbn [mbind option_bind] in Hx.
    destruct (trun _ ops cols1) as [[os cols2]|] eqn:E2; [|done]. injection Hx as <- <-.
    destruct (table_exec_rel t cols op o cols1 Hrel E1) as (t1 & -> & Hrel1). cbn [mbind option_bind].
    destruct (IH t1 cols1 os Hrel1 E2) as (t2 & -> & Hrel2). by exists t2.
Qed.

Lemma column_types_rel t cols : table_rel t cols -> column_types t = Some (ac_type <$> cols).
Proof.
  intros Hrel. unfold column_types. rewrite (map_size _ _ Hrel). apply mapM_Some.
  apply Forall2_lookup. intros k. rewrite list_lookup_fmap. destruct (cols !! k) as [a|] eqn:E; simpl.
  - pose proof (lookup_lt_Some _ _ _ E). rewrite lookup_seqZ_lt by (unfold vlen; lia). constructor. unfold get_column_by_id.
    destruct (columns_vget t cols Hrel (0 + Z.of_nat k) a) as (c & -> & Hr); [apply vget_iff; rewrite Z.add_0_l, Nat2Z.id; split; [lia|done]|].
    cbn [mbind option_bind]. f_equal. by apply (col_size_rel _ _ _ _ Hr).
  - apply lookup_ge_None in E. rewrite lookup_seqZ_ge by (unfold vlen; lia). constructor.
Qed.

Lemma column_id_rel t cols name i : table_rel t cols -> vget (names_of cols) i = Some name -> get_column_id_by_name t name = i.
Proof. intros Hrel Hi. unfold get_column_id_by_name. by rewrite (proj2 (tr_map _ _ Hrel name i) Hi). Qed.

Lemma column_id_absent t cols name : table_rel t cols -> name ∉ names_of cols -> get_column_id_by_name t name = -1.
Proof. intros Hrel Hn. unfold get_column_id_by_name. by rewrite (proj1 (map_none t cols Hrel name) Hn). Qed.

(** ** The properties *)

(** C22: A table made by [initColumns] for distinct names and types with columns is a
    list of named lists of values: any sequence of [insert], [resize],
    [add_columns], [rename_column] to a fresh name, [delete_column], [get_row] and
    reads through [get_column] returns and throws as on these lists, and then the
    names, the ids by name and the types are those of the columns in order. *)
Theorem table_refines names types ops outs cols : NoDup names -> vlen types = vlen names -> forallb storable types = true ->
  trun cols_exec ops (fresh_cols names types) = Some (outs, cols) ->
  exists t0 t, initColumns names types = Some (Returned tt, t0) /\ trun table_exec ops t0 = Some (outs, t) /\
    col_num t = vlen cols /\ col_names_ t = names_of cols /\ column_types t = Some (ac_type <$> cols) /\
    (forall i name, vget (names_of cols) i = Some name -> get_column_id_by_name t name = i) /\
    (forall name, name ∉ names_of cols -> get_column_id_by_name t name = -1).
Proof.
  intros Hd Hl Hs Hx. destruct (initColumns_rel names types Hd Hl Hs) as (t0 & Hinit & Hrel0).
  destruct (trun_rel ops t0 _ outs cols Hrel0 Hx) as (t & Hrun & Hrel). exists t0, t. split_and!; [done|done|by apply table_rel_len|apply (tr_names _ _ Hrel)| | |].
  - by apply column_types_rel.
  - intros i name. by apply column_id_rel.
  - intros name. by apply column_id_absent.
Qed.

Definition table_demo : list table_op :=
  [TResizeDefault 2 [PInt64 7; PVarchar [97]]; TInsert 1 [PInt64 8; PVarchar [98; 99; 100]] false; TInsert 2 [PInt64 0; PVarchar []] false;
   TAdd ["flag"%string] [(kBoolean, 0)] [PBool true] 2; TGetRow 1; TRename "name" "title"; TDelete "id"; TGetRow 0; TGet "id" 0; TGet "title" 1].

Lemma table_refines_witness : exists t0 t, initColumns ["id"%string; "name"%string] [(kInt64, 0); (kVarchar, 2)] = Some (Returned tt, t0) /\
  trun table_exec table_demo t0 = Some ([TDone; TDone; TThrown; TDone; TRow [PInt64 8; PVarchar [98; 99]; PBool true]; TDone; TDone;
    TRow [PVarchar [97]; PBool true]; TCell None; TCell (Some (PVarchar [98; 99]))], t) /\ col_names_ t = ["title"%string; "flag"%string].
Proof.
  destruct (table_refines ["id"%string; "name"%string] [(kInt64, 0); (kVarchar, 2)] table_demo
    [TDone; TDone; TThrown; TDone; TRow [PInt64 8; PVarchar [98; 99]; PBool true]; TDone; TDone;
     TRow [PVarchar [97]; PBool true]; TCell None; TCell (Some (PVarchar [98; 99]))]
    [ACol "title" kVarchar 2 ([PVarchar [97]; PVarchar [98; 99]], 3); ACol "flag" kBoolean 0 ([PBool true; PBool true], 0)])
    as (t0 & t & Hinit & Hrun & _ & Hnames & _).
  - apply (bool_decide_eq_true_1 _). vm_compute. reflexivity.
  - reflexivity.
  - vm_compute. reflexivity.
  - vm_compute. reflexivity.
  - exists t0, t. split; [exact Hinit|]. split; [exact Hrun|exact Hnames].
Defined.

(** Renaming a column to the name of another one keeps the other one's entry: no
    name leads to the renamed column any more, the names have a duplicate, and
    [column_types] misses the last column. *)
Theorem rename_collision names types t i j old new : NoDup names -> vlen types = vlen names -> forallb storable types = true ->
  initColumns names types = Some (Returned tt, t) -> vget names i = Some old -> vget names j = Some new -> i <> j ->
  exists t', rename_column t old new = Some t' /\ col_names_ t' = vput names i new /\
    get_column_id_by_name t' new = j /\ (forall name, get_column_id_by_name t' name <> i) /\
    col_num t' = vlen names /\ column_types t' = Some (take (List.length names - 1) types.*1).
Proof.
  intros Hd Hl Hs Hinit Hi Hj Hne. destruct (initColumns_rel names types Hd Hl Hs) as (t0 & Hinit' & Hrel). rewrite Hinit in Hinit'.
  injection Hinit' as <-. pose proof (names_fresh names types Hl) as Hnames. pose proof (tr_map _ _ Hrel) as Hm. rewrite Hnames in Hm.
  assert (vlen (fresh_cols names types) = vlen names) as Hfl by (rewrite <-Hnames at 2; unfold names_of; by rewrite vlen_fmap).
  assert (old <> new) as Hon by (intros <-; apply Hne; exact (nodup_vget _ _ _ _ Hd Hi Hj)).
  pose proof (vget_lt _ _ _ Hi) as Hlt. unfold rename_column. rewrite (proj2 (Hm old i) Hi), (tr_names _ _ Hrel), Hnames, vset_Some by done.
  cbn [mbind option_bind]. unfold map_insert. rewrite lookup_delete_ne, (proj2 (Hm new j) Hj) by done. eexists. split; [done|].
  cbn [col_names_]. unfold get_column_id_by_name, col_num. cbn [col_id_map_ columns_]. split_and!; [done| | | |].
  - by rewrite lookup_delete_ne, (proj2 (Hm new j) Hj) by done.
  - intros name. destruct (delete old (col_id_map_ t) !! name) as [k|] eqn:E; simpl; [|lia]. apply lookup_delete_Some in E as [Hn E]. apply Hm in E.
    intros ->. congruence.
  - by rewrite (table_rel_len _ _ Hrel).
  - pose proof (column_types_rel _ _ Hrel) as Hct. unfold column_types in *. cbn [col_id_map_]. rewrite (map_size _ _ Hrel) in Hct.
    pose proof (map_size _ _ Hrel) as Hsz. rewrite map_size_delete_Some by (by exists i; apply Hm).
    rewrite Hfl in *. replace (Z.of_nat (Nat.pred (size (col_id_map_ t)))) with (vlen names - 1) by lia.
    replace (vlen names) with (vlen names - 1 + 1) in Hct by lia. rewrite seqZ_app in Hct by lia.
    unfold get_column_by_id in *. cbn [columns_].
    apply mapM_Some in Hct. apply mapM_Some. apply Forall2_app_inv_l in Hct as (l1 & l2 & H1 & H2 & Hll).
    assert (take (List.length names - 1) types.*1 = l1) as ->; [|exact H1].
    rewrite <-(types_fresh names types Hl), Hll. pose proof (Forall2_length _ _ _ H1) as Hl1. rewrite length_seqZ in Hl1.
    rewrite take_app_le by (unfold vlen in *; lia). apply take_ge. unfold vlen in *. lia.
Qed.

Lemma rename_collision_witness : exists t t', initColumns ["a"%string; "b"%string] [(kBoolean, 0); (kInt32, 0)] = Some (Returned tt, t) /\
  rename_column t "a" "b" = Some t' /\ col_names_ t' = ["b"%string; "b"%string] /\ get_column_id_by_name t' "b" = 1.
Proof.
  destruct (initColumns ["a"%string; "b"%string] [(kBoolean, 0); (kInt32, 0)]) as [[[[]|] t]|] eqn:E; [|discriminate E|discriminate E].
  exists t. destruct (rename_collision ["a"%string; "b"%string] [(kBoolean, 0); (kInt32, 0)] t 0 1 "a" "b") as (t' & Ht & Hn & Hb & _);
    [apply (bool_decide_eq_true_1 _); vm_compute; reflexivity|reflexivity|reflexivity|exact E|reflexivity|reflexivity|discriminate|].
  exists t'. split; [reflexivity|]. split; [exact Ht|]. split; [exact Hn|exact Hb].
Defined.
