(* ===== verification/EdgeSchema.v ===== *)
(** * Edge types

    [EdgeSchema] (include/neug/storages/graph/schema.h, src/storages/graph/schema.cc).
    [default_property_strings], which owns the bytes of the default strings, and the
    description are left out. *)
From stdpp Require Import strings.
From S2P Require Import Prelude Storage Property Column Table.
#[local] Open Scope Z_scope.

Inductive EdgeStrategy := kNone | kSingle | kMultiple.

Record EdgeSchema := MkEdgeSchema {
  src_label_name : string;
  dst_label_name : string;
  edge_label_name : string;
  sort_on_compaction : bool;
  ie_mutable : bool;
  oe_mutable : bool;
  oe_strategy : EdgeStrategy;
  ie_strategy : EdgeStrategy;
  properties : list DataType;
  property_names : list string;
  default_property_values : list Property;
  eprop_soft_deleted : list bool
}.
Implicit Types m : EdgeSchema.

Definition with_properties (types : list DataType) (names : list string) (defaults : list Property) (deleted : list bool) m : EdgeSchema :=
  MkEdgeSchema (src_label_name m) (dst_label_name m) (edge_label_name m) (sort_on_compaction m) (ie_mutable m) (oe_mutable m)
    (oe_strategy m) (ie_strategy m) types names defaults deleted.

(** The default values of the types. *)
Fixpoint default_values (types : list DataType) : outcome (list Property) :=
  match types with
  | [] => Returned []
  | (ty, _) :: types =>
      match get_default_value ty with
      | Thrown => Thrown
      | Returned v => match default_values types with Thrown => Thrown | Returned vs => Returned (v :: vs) end
      end
  end.

(** The constructor. *)
Definition new_edge_schema (src dst label : string) (sort ie_mutable oe_mutable : bool) (oe ie : EdgeStrategy)
    (types : list DataType) (names : list string) (defaults : list Property) : option (outcome EdgeSchema) :=
  let with_defaults := fun ds => MkEdgeSchema src dst label sort ie_mutable oe_mutable oe ie types names ds (map (fun _ => false) names) in
  match (match defaults with [] => default_values types | _ => Returned defaults end) with
  | Thrown => Some Thrown
  | Returned ds => if vlen types =? vlen names then Some (Returned (with_defaults ds)) else None
  end.

Definition is_bundled m : bool :=
  match properties m with
  | [] => true
  | [(ty, _)] => negb (bool_decide (ty = kVarchar))
  | _ => false
  end.

Definition edge_has_property m (prop : string) : option bool :=
  match find_name (property_names m) prop with
  | Some idx => deleted ← vget (eprop_soft_deleted m) idx; Some (negb deleted)
  | None => Some false
  end.

(** The default value that is given, or the default of the type. *)
Definition default_or (defaults : list Property) (i : Z) (ty : DataType) : outcome Property :=
  match vget defaults i with Some v => Returned v | None => get_default_value ty.1 end.

(** An exception for a name that is there leaves the properties added so far. *)
Definition edge_add_properties m (names : list string) (types : list DataType) (defaults : list Property) : option (outcome unit * EdgeSchema) :=
  each (zip (seqZ 0 (vlen names)) names) (fun '(i, name) m =>
    if bool_decide (name ∈ property_names m) then Some (Thrown, m)
    else
      ty ← vget types i;
      match default_or defaults i ty with
      | Thrown => Some (Thrown, with_properties (properties m ++ [ty]) (property_names m ++ [name]) (default_property_values m) (eprop_soft_deleted m) m)
      | Returned v => Some (Returned tt, with_properties (properties m ++ [ty]) (property_names m ++ [name])
                              (default_property_values m ++ [v]) (eprop_soft_deleted m ++ [false]) m)
      end) m.

Definition with_names (names : list string) m : EdgeSchema :=
  with_properties (properties m) names (default_property_values m) (eprop_soft_deleted m) m.
Definition with_deleted (deleted : list bool) m : EdgeSchema :=
  with_properties (properties m) (property_names m) (default_property_values m) deleted m.

Definition edge_rename_properties m (names renames : list string) : option (outcome unit * EdgeSchema) :=
  each (zip (seqZ 0 (vlen names)) names) (fun '(i, name) m =>
    match find_name (property_names m) name with
    | Some j =>
        deleted ← vget (eprop_soft_deleted m) j;
        if deleted : bool then Some (Thrown, m)
        else rename ← vget renames i; names ← vset (property_names m) j rename; Some (Returned tt, with_names names m)
    | None => Some (Thrown, m)
    end) m.

Definition edge_delete_properties m (names : list string) (is_soft : bool) : option EdgeSchema :=
  for_each names m (fun name m =>
    match find_name (property_names m) name with
    | Some j =>
        if is_soft then deleted ← vset (eprop_soft_deleted m) j true; Some (with_deleted deleted m)
        else
          names ← erase (property_names m) j; types ← erase (properties m) j; defaults ← erase (default_property_values m) j;
          deleted ← erase (eprop_soft_deleted m) j; Some (with_properties types names defaults deleted m)
    | None => Some m
    end).

Definition edge_revert_delete_properties m (names : list string) : option (outcome unit * EdgeSchema) :=
  each names (fun name m =>
    match find_name (property_names m) name with
    | Some j => deleted ← vset (eprop_soft_deleted m) j false; Some (Returned tt, with_deleted deleted m)
    | None => Some (Thrown, m)
    end) m.

Definition edge_property_soft_deleted m (prop : string) : option (outcome bool) :=
  match find_name (property_names m) prop with
  | Some idx => deleted ← vget (eprop_soft_deleted m) idx; Some (Returned deleted)
  | None => Some Thrown
  end.

Definition edge_property_index m (prop : string) : option Z :=
  match find_name (property_names m) prop with
  | Some idx => deleted ← vget (eprop_soft_deleted m) idx; Some (if deleted : bool then -1 else idx)
  | None => Some (-1)
  end.

Definition edge_property_name m (index : Z) : outcome string :=
  match vget (property_names m) index with Some name => Returned name | None => Thrown end.

Definition edge_has_property_internal m (prop : string) : bool := bool_decide (prop ∈ property_names m).
