(* ===== verification/VertexSchema.v ===== *)
(** * Vertex types

    [VertexSchema] (include/neug/storages/graph/schema.h, src/storages/graph/schema.cc):
    the properties of a vertex type but its primary key, which is a column of the
    index.  [default_property_strings], the description and the maximal number of
    vertices are left out. *)
From stdpp Require Import strings.
From S2P Require Import Prelude Storage Property Column Table EdgeSchema.
#[local] Open Scope Z_scope.

Record VertexSchema := MkVertexSchema {
  label_name : string;
  property_types : list DataType;
  property_names : list string;
  primary_keys : list (DataType * string * Z);
  default_property_values : list Property;
  vprop_soft_deleted : list bool
}.
Implicit Types m : VertexSchema.

Definition with_properties (types : list DataType) (names : list string) (defaults : list Property) (deleted : list bool) m : VertexSchema :=
  MkVertexSchema (label_name m) types names (primary_keys m) defaults deleted.
Definition with_names (names : list string) m : VertexSchema :=
  with_properties (property_types m) names (default_property_values m) (vprop_soft_deleted m) m.
Definition with_deleted (deleted : list bool) m : VertexSchema :=
  with_properties (property_types m) (property_names m) (default_property_values m) deleted m.

(** The constructor. *)
Definition new_vertex_schema (label : string) (types : list DataType) (names : list string) (primary_keys : list (DataType * string * Z))
    (defaults : list Property) : outcome VertexSchema :=
  match (match defaults with [] => default_values types | _ => Returned defaults end) with
  | Thrown => Thrown
  | Returned ds => Returned (MkVertexSchema label types names primary_keys ds (map (fun _ => false) names))
  end.

(** [clear]; a schema without primary keys is empty. *)
Definition vertex_clear m : VertexSchema := MkVertexSchema (label_name m) [] [] [] [] [].
Definition vertex_empty m : bool := match primary_keys m with [] => true | _ => false end.

(** An exception of [get_default_value] leaves the vectors at different lengths. *)
Definition vertex_add_properties m (names : list string) (types : list DataType) (defaults : list Property) : option (outcome unit * VertexSchema) :=
  each (zip (seqZ 0 (vlen names)) names) (fun '(i, name) m =>
    ty ← vget types i;
    match default_or defaults i ty with
    | Thrown => Some (Thrown, with_properties (property_types m ++ [ty]) (property_names m ++ [name]) (default_property_values m) (vprop_soft_deleted m ++ [false]) m)
    | Returned v => Some (Returned tt, with_properties (property_types m ++ [ty]) (property_names m ++ [name])
                            (default_property_values m ++ [v]) (vprop_soft_deleted m ++ [false]) m)
    end) m.

Definition vertex_set_properties m (types : list DataType) (defaults : list Property) : VertexSchema :=
  with_properties types (property_names m) defaults (Resize false (vprop_soft_deleted m) (vlen types)) m.

(** The inner loop: the first name that equals [name] and is not deleted. *)
Fixpoint rename_first (deleted : list bool) (names : list string) (name rename : string) : option (list string) :=
  match names with
  | [] => Some []
  | x :: names =>
      match deleted with
      | [] => None
      | d :: deleted =>
          if d : bool then names ← rename_first deleted names name rename; Some (x :: names)
          else if bool_decide (x = name) then Some (rename :: names)
          else names ← rename_first deleted names name rename; Some (x :: names)
      end
  end.

Definition vertex_rename_properties m (names renames : list string) : option VertexSchema :=
  for_each (zip (seqZ 0 (vlen names)) names) m (fun '(i, name) m =>
    rename ← vget renames i; names ← rename_first (vprop_soft_deleted m) (property_names m) name rename; Some (with_names names m)).

(** [std::get<1>(primary_keys[0])]. *)
Definition primary_key_name m : option string := '(_, name, _) ← vget (primary_keys m) 0; Some name.

Definition vertex_delete_properties m (names : list string) (is_soft : bool) : option (outcome unit * VertexSchema) :=
  key ← primary_key_name m;
  if bool_decide (key ∈ names) then Some (Thrown, m)
  else
    m ← for_each names m (fun name m =>
      match find_name (property_names m) name with
      | Some j =>
          if is_soft then deleted ← vset (vprop_soft_deleted m) j true; Some (with_deleted deleted m)
          else
            names ← erase (property_names m) j; types ← erase (property_types m) j; defaults ← erase (default_property_values m) j;
            deleted ← erase (vprop_soft_deleted m) j; Some (with_properties types names defaults deleted m)
      | None => Some m
      end);
    Some (Returned tt, m).

Definition vertex_property_soft_deleted m (prop : string) : option (outcome bool) :=
  match find_name (property_names m) prop with
  | Some idx => deleted ← vget (vprop_soft_deleted m) idx; Some (Returned deleted)
  | None => Some Thrown
  end.

Definition vertex_revert_delete_properties m (names : list string) : option VertexSchema :=
  for_each names m (fun name m =>
    match find_name (property_names m) name with
    | Some j => deleted ← vset (vprop_soft_deleted m) j false; Some (with_deleted deleted m)
    | None => Some m
    end).

Definition vertex_has_property m (prop : string) : option bool :=
  key ← primary_key_name m;
  if bool_decide (key = prop) then Some true
  else match find_name (property_names m) prop with
       | Some idx => deleted ← vget (vprop_soft_deleted m) idx; Some (negb deleted)
       | None => Some false
       end.

Definition vertex_property_index m (prop : string) : option (outcome Z) :=
  key ← primary_key_name m;
  if bool_decide (key = prop) then Some Thrown
  else match find_name (property_names m) prop with
       | Some idx => deleted ← vget (vprop_soft_deleted m) idx; Some (Returned (if deleted : bool then -1 else idx))
       | None => Some (Returned (-1))
       end.

Definition vertex_property_name m (index : Z) : outcome string :=
  match vget (property_names m) index with Some name => Returned name | None => Thrown end.

Definition is_pk_same (lhs rhs : VertexSchema) : bool :=
  bool_decide (map (fun '(ty, _, i) => (ty, i)) (primary_keys lhs) = map (fun '(ty, _, i) => (ty, i)) (primary_keys rhs)).

Definition vertex_has_property_internal m (prop : string) : option bool :=
  key ← primary_key_name m; Some (bool_decide (key = prop) || bool_decide (prop ∈ property_names m)).
