(* ===== verification/SchemaOps.v ===== *)
(** * The schema

    [Schema] (include/neug/storages/graph/schema.h, src/storages/graph/schema.cc): the
    labels of vertices and edges with their types.  A label keeps its number for good;
    deleted labels are marked in tombstones.  [IdIndexer] of label names is the list of
    the names, for at most 255 labels, the range of [label_t].  A tombstone bitset is
    a list of booleans; the one of edge types, whose indices take three bytes, is its
    size with the set of its bits.  Assertions are disabled; an index outside a vector
    or a bitset and a null pointer are [None]. *)
From stdpp Require Import strings gmap.
From S2P Require Import Prelude Storage Property Column Table EdgeSchema VertexSchema.
#[local] Open Scope Z_scope.

(** Queries that may throw, in sequence. *)
Definition obind {A B} (m : option (outcome A)) (f : A -> option (outcome B)) : option (outcome B) :=
  r ← m; match r with Returned x => f x | Thrown => Some Thrown end.
(** [||] of queries. *)
Definition oror (m n : option bool) : option bool := b ← m; if b : bool then Some true else n.
Declare Scope schema_scope.
Notation "x ⇐ m ; f" := (obind m (fun x => f)) (at level 200, m at level 100, f at level 200, right associativity) : schema_scope.
#[local] Open Scope schema_scope.

Record Tomb := MkTomb { tomb_size : Z; tomb_bits : gset Z }.
Definition tomb_get (t : Tomb) (i : Z) : option bool := if (0 <=? i) && (i <? tomb_size t) then Some (bool_decide (i ∈ tomb_bits t)) else None.
Definition tomb_set (t : Tomb) (i : Z) : option Tomb :=
  if (0 <=? i) && (i <? tomb_size t) then Some (MkTomb (tomb_size t) ({[i]} ∪ tomb_bits t)) else None.
Definition tomb_reset (t : Tomb) (i : Z) : option Tomb :=
  if (0 <=? i) && (i <? tomb_size t) then Some (MkTomb (tomb_size t) (tomb_bits t ∖ {[i]})) else None.
(** [resize] keeps the bits below the new size. *)
Definition tomb_resize (t : Tomb) (n : Z) : Tomb := MkTomb n (filter (fun i => i < n) (tomb_bits t)).

Record SchemaState := MkSchema {
  vlabel_indexer_ : list string;
  elabel_indexer_ : list string;
  v_schemas_ : list (option VertexSchema);
  e_schemas_ : gmap Z EdgeSchema;
  vlabel_tomb_ : list bool;
  elabel_tomb_ : list bool;
  elabel_triplet_tomb_ : Tomb
}.
Implicit Types s : SchemaState.

Definition new_schema : SchemaState := MkSchema [] [] [] ∅ [] [] (MkTomb 0 ∅).

(** What the algorithms see. *)
Definition visible_schema s : Schema :=
  {| vlabel_indexer := vlabel_indexer_ s; vlabel_tomb := vlabel_tomb_ s; e_schemas := map fst (map_to_list (e_schemas_ s)) |}.

Definition set_v_schemas (l : list (option VertexSchema)) s : SchemaState :=
  MkSchema (vlabel_indexer_ s) (elabel_indexer_ s) l (e_schemas_ s) (vlabel_tomb_ s) (elabel_tomb_ s) (elabel_triplet_tomb_ s).
Definition set_e_schemas (m : gmap Z EdgeSchema) s : SchemaState :=
  MkSchema (vlabel_indexer_ s) (elabel_indexer_ s) (v_schemas_ s) m (vlabel_tomb_ s) (elabel_tomb_ s) (elabel_triplet_tomb_ s).
Definition set_vlabel_tomb (l : list bool) s : SchemaState :=
  MkSchema (vlabel_indexer_ s) (elabel_indexer_ s) (v_schemas_ s) (e_schemas_ s) l (elabel_tomb_ s) (elabel_triplet_tomb_ s).
Definition set_elabel_tomb (l : list bool) s : SchemaState :=
  MkSchema (vlabel_indexer_ s) (elabel_indexer_ s) (v_schemas_ s) (e_schemas_ s) (vlabel_tomb_ s) l (elabel_triplet_tomb_ s).
Definition set_triplet_tomb (t : Tomb) s : SchemaState :=
  MkSchema (vlabel_indexer_ s) (elabel_indexer_ s) (v_schemas_ s) (e_schemas_ s) (vlabel_tomb_ s) (elabel_tomb_ s) t.

(** *** Labels *)

(** [IdIndexer::add]. *)
Definition label_add (names : list string) (label : string) : list string * Z :=
  match find_name names label with
  | Some i => (names, to_u8 i)
  | None => (names ++ [label], to_u8 (vlen names))
  end.

Definition vertex_label_to_index s (label : string) : SchemaState * Z :=
  let '(names, ret) := label_add (vlabel_indexer_ s) label in
  let grow := vlen (v_schemas_ s) <=? ret in
  (MkSchema names (elabel_indexer_ s) (if grow then Resize None (v_schemas_ s) (ret + 1) else v_schemas_ s) (e_schemas_ s)
     (if grow then Resize false (vlabel_tomb_ s) (ret + 1) else vlabel_tomb_ s) (elabel_tomb_ s) (elabel_triplet_tomb_ s), ret).

Definition edge_label_to_index s (label : string) : SchemaState * Z :=
  let '(names, ret) := label_add (elabel_indexer_ s) label in
  (MkSchema (vlabel_indexer_ s) names (v_schemas_ s) (e_schemas_ s) (vlabel_tomb_ s)
     (if vlen (elabel_tomb_ s) <=? ret then Resize false (elabel_tomb_ s) (ret + 1) else elabel_tomb_ s) (elabel_triplet_tomb_ s), ret).

Definition contains_vertex_label s (label : string) : option bool :=
  match find_name (vlabel_indexer_ s) label with Some ret => t ← vget (vlabel_tomb_ s) ret; Some (negb t) | None => Some false end.
Definition contains_edge_label s (label : string) : option bool :=
  match find_name (elabel_indexer_ s) label with Some ret => t ← vget (elabel_tomb_ s) ret; Some (negb t) | None => Some false end.

Definition vlabel_valid s (label_id : Z) : option bool :=
  if label_id <? vlen (vlabel_indexer_ s) then t ← vget (vlabel_tomb_ s) label_id; Some (negb t) else Some false.
Definition edge_label_valid s (label_id : Z) : option bool :=
  if label_id <? vlen (elabel_indexer_ s) then t ← vget (elabel_tomb_ s) label_id; Some (negb t) else Some false.

(** [get_vertex_label_id_internal], which does not look at the tombstone, and
    [get_vertex_label_id]. *)
Definition vlabel_id_internal s (label : string) : outcome Z :=
  match find_name (vlabel_indexer_ s) label with Some ret => Returned ret | None => Thrown end.
Definition elabel_id_internal s (label : string) : outcome Z :=
  match find_name (elabel_indexer_ s) label with Some ret => Returned ret | None => Thrown end.
Definition vlabel_id s (label : string) : option (outcome Z) :=
  ret ⇐ Some (vlabel_id_internal s label); t ← vget (vlabel_tomb_ s) ret; Some (if t : bool then Thrown else Returned ret).
Definition elabel_id s (label : string) : option (outcome Z) :=
  ret ⇐ Some (elabel_id_internal s label); t ← vget (elabel_tomb_ s) ret; Some (if t : bool then Thrown else Returned ret).

(** The labels that are not deleted. *)
Definition live_ids (n : Z) (tomb : list bool) : option (list Z) :=
  for_each (seqZ 0 n) [] (fun i ret => t ← vget tomb i; Some (if t : bool then ret else ret ++ [i])).
Definition get_vertex_label_ids s : option (list Z) := live_ids (vlen (vlabel_indexer_ s)) (vlabel_tomb_ s).
Definition get_edge_label_ids s : option (list Z) := live_ids (vlen (elabel_indexer_ s)) (elabel_tomb_ s).

Definition vertex_label_name s (index : Z) : option (outcome string) :=
  t ← vget (vlabel_tomb_ s) index;
  if t : bool then Some Thrown else Some (match vget (vlabel_indexer_ s) index with Some name => Returned name | None => Thrown end).
Definition edge_label_name_of s (index : Z) : option (outcome string) :=
  valid ← edge_label_valid s index;
  if negb valid then Some Thrown else Some (match vget (elabel_indexer_ s) index with Some name => Returned name | None => Thrown end).

Definition edge_triplet_valid s (src dst edge : Z) : option bool :=
  let index := generate_edge_label src dst edge in
  if index <? tomb_size (elabel_triplet_tomb_ s) then t ← tomb_get (elabel_triplet_tomb_ s) index; Some (negb t) else Some false.

Definition has_edge_label s (src dst edge : Z) : bool :=
  bool_decide (is_Some (e_schemas_ s !! generate_edge_label src dst edge)).

Definition exist s (src dst edge : Z) : option bool :=
  valid ← edge_triplet_valid s src dst edge; Some (valid && has_edge_label s src dst edge).

Definition exist_names s (src dst edge : string) : option (outcome bool) :=
  s1 ← contains_vertex_label s src; d1 ← contains_vertex_label s dst; e1 ← contains_edge_label s edge;
  if negb (s1 && d1 && e1) then Some (Returned false)
  else src ⇐ vlabel_id s src; dst ⇐ vlabel_id s dst; edge ⇐ elabel_id s edge; b ← exist s src dst edge; Some (Returned b).

Definition has_edge_label_names s (src dst label : string) : option (outcome bool) :=
  s1 ← contains_vertex_label s src; d1 ← contains_vertex_label s dst;
  if negb (s1 && d1) then Some (Returned false)
  else
    src ⇐ vlabel_id s src; dst ⇐ vlabel_id s dst;
    match find_name (elabel_indexer_ s) label with None => Some (Returned false) | Some edge => Some (Returned (has_edge_label s src dst edge)) end.

(** *** Creation *)

(** The label is numbered before the type is made, which may throw. *)
Definition AddVertexLabel s (label : string) (types : list DataType) (names : list string) (primary_key : list (DataType * string * Z))
    (defaults : list Property) : option (outcome unit * SchemaState) :=
  let '(s, id) := vertex_label_to_index s label in
  t ← vget (vlabel_tomb_ s) id;
  tomb ← (if t : bool then vset (vlabel_tomb_ s) id false else Some (vlabel_tomb_ s));
  let s := set_vlabel_tomb tomb s in
  let s := set_v_schemas (if vlen (v_schemas_ s) <=? id then Resize None (v_schemas_ s) (id + 1) else v_schemas_ s) s in
  match new_vertex_schema label types names primary_key defaults with
  | Thrown => Some (Thrown, s)
  | Returned m => l ← vset (v_schemas_ s) id (Some m); Some (Returned tt, set_v_schemas l s)
  end.

(** [emplace] leaves a type that is there. *)
Definition AddEdgeLabel s (src_label dst_label edge_label : string) (properties : list DataType) (prop_names : list string) (oe ie : EdgeStrategy)
    (oe_mutable ie_mutable sort_on_compaction : bool) (defaults : list Property) : option (outcome unit * SchemaState) :=
  let '(s, src) := vertex_label_to_index s src_label in
  let '(s, dst) := vertex_label_to_index s dst_label in
  let '(s, edge) := edge_label_to_index s edge_label in
  t ← vget (elabel_tomb_ s) edge;
  tomb ← (if t : bool then vset (elabel_tomb_ s) edge false else Some (elabel_tomb_ s));
  let s := set_elabel_tomb tomb s in
  let label_id := generate_edge_label src dst edge in
  m ← new_edge_schema src_label dst_label edge_label sort_on_compaction ie_mutable oe_mutable oe ie properties prop_names defaults;
  match m with
  | Thrown => Some (Thrown, s)
  | Returned m =>
      let s := set_e_schemas (match e_schemas_ s !! label_id with Some _ => e_schemas_ s | None => <[label_id := m]> (e_schemas_ s) end) s in
      let tomb := elabel_triplet_tomb_ s in
      let tomb := if tomb_size tomb <=? label_id then tomb_resize tomb (label_id + 1) else tomb in
      t ← tomb_get tomb label_id;
      tomb ← (if t : bool then tomb_reset tomb label_id else Some tomb);
      Some (Returned tt, set_triplet_tomb tomb s)
  end.

(** *** Deletion *)

Definition delete_vertex_label s (v_label_id : Z) (is_soft : bool) : option SchemaState :=
  l ← (if is_soft then Some (v_schemas_ s)
       else m ← vget (v_schemas_ s) v_label_id; m ← m; vset (v_schemas_ s) v_label_id (Some (vertex_clear m)));
  tomb ← vset (vlabel_tomb_ s) v_label_id true;
  Some (set_vlabel_tomb tomb (set_v_schemas l s)).

(** The type with this number, if it is there. *)
Definition drop_triplet s (index : Z) (is_soft : bool) : option SchemaState :=
  tomb ← tomb_set (elabel_triplet_tomb_ s) index;
  Some (set_triplet_tomb tomb (if is_soft then s else set_e_schemas (delete index (e_schemas_ s)) s)).

(** [DeleteEdgeLabel(label)]: every type of this label. *)
Definition delete_edge_label_all s (label : string) (is_soft : bool) : option (outcome unit * SchemaState) :=
  match elabel_id_internal s label with
  | Thrown => Some (Thrown, s)
  | Returned edge =>
      let n := vlen (vlabel_indexer_ s) in
      s ← for_each (seqZ 0 n) s (fun src s =>
        t ← vget (vlabel_tomb_ s) src;
        if t : bool then Some s
        else for_each (seqZ 0 n) s (fun dst s =>
          t ← vget (vlabel_tomb_ s) dst;
          if t : bool then Some s
          else there ← exist s src dst edge; if there : bool then drop_triplet s (generate_edge_label src dst edge) is_soft else Some s));
      tomb ← vset (elabel_tomb_ s) edge true; Some (Returned tt, set_elabel_tomb tomb s)
  end.

(** Some type has this edge label; the name of every type is in the index. *)
Definition edge_label_used s (edge : Z) : bool :=
  existsb (fun m => match find_name (elabel_indexer_ s) (edge_label_name m) with Some e => e =? edge | None => false end) (map snd (map_to_list (e_schemas_ s))).

(** [DeleteEdgeLabel(src, dst, edge)] *)
Definition delete_edge_triplet s (src dst edge : Z) (is_soft : bool) : option SchemaState :=
  let index := generate_edge_label src dst edge in
  match e_schemas_ s !! index with
  | None => Some s
  | Some _ =>
      s ← drop_triplet s index is_soft;
      if edge_label_used s edge then Some s else tomb ← vset (elabel_tomb_ s) edge true; Some (set_elabel_tomb tomb s)
  end.

Definition revert_delete_vertex_label s (v_label : string) : option (outcome unit * SchemaState) :=
  match vlabel_id_internal s v_label with
  | Thrown => Some (Thrown, s)
  | Returned id =>
      t ← vget (vlabel_tomb_ s) id;
      tomb ← (if t : bool then vset (vlabel_tomb_ s) id false else Some (vlabel_tomb_ s)); Some (Returned tt, set_vlabel_tomb tomb s)
  end.

Definition revert_delete_edge_label s (e_label_id : Z) : option SchemaState :=
  t ← vget (elabel_tomb_ s) e_label_id;
  tomb ← (if t : bool then vset (elabel_tomb_ s) e_label_id false else Some (elabel_tomb_ s)); Some (set_elabel_tomb tomb s).

(** [RevertDeleteEdgeLabel(src, dst, edge)] of labels that are in the index. *)
Definition revert_delete_triplet s (src dst edge : Z) : option SchemaState :=
  let index := generate_edge_label src dst edge in
  let tomb := elabel_triplet_tomb_ s in
  tomb ← (if index <? tomb_size tomb then t ← tomb_get tomb index; if t : bool then tomb_reset tomb index else Some tomb else Some tomb);
  revert_delete_edge_label (set_triplet_tomb tomb s) edge.

Definition vertex_soft_deleted s (v_label : Z) : option bool :=
  t ← vget (vlabel_tomb_ s) v_label;
  if t : bool then m ← vget (v_schemas_ s) v_label; m ← m; Some (negb (vertex_empty m)) else Some false.
Definition edge_soft_deleted s (src dst edge : Z) : option bool :=
  t ← tomb_get (elabel_triplet_tomb_ s) (generate_edge_label src dst edge); Some (t && has_edge_label s src dst edge).

(** *** Properties *)

(** A change of the type of a vertex label, which is shared. *)
Definition on_vertex_schema {A} s (label : string) (f : VertexSchema -> option (outcome A * VertexSchema)) : option (outcome A * SchemaState) :=
  r ← vlabel_id s label;
  match r with
  | Thrown => Some (Thrown, s)
  | Returned id =>
      m ← vget (v_schemas_ s) id; m ← m; '(r, m) ← f m; l ← vset (v_schemas_ s) id (Some m); Some (r, set_v_schemas l s)
  end.

Definition returns {A} (m : option A) : option (outcome unit * A) := x ← m; Some (Returned tt, x).

Definition AddVertexProperties s (label : string) (names : list string) (types : list DataType) (defaults : list Property) :=
  on_vertex_schema s label (fun m => vertex_add_properties m names types defaults).
Definition RenameVertexProperties s (label : string) (names renames : list string) :=
  on_vertex_schema s label (fun m => returns (vertex_rename_properties m names renames)).
Definition DeleteVertexProperties s (label : string) (names : list string) (is_soft : bool) :=
  on_vertex_schema s label (fun m => vertex_delete_properties m names is_soft).
Definition RevertDeleteVertexProperties s (label : string) (names : list string) :=
  on_vertex_schema s label (fun m => returns (vertex_revert_delete_properties m names)).

Definition vertex_type s (label : string) : option (outcome VertexSchema) :=
  id ⇐ vlabel_id s label; m ← vget (v_schemas_ s) id; m ← m; Some (Returned m).
Definition schema_has_property s (label prop : string) : option (outcome bool) :=
  m ⇐ vertex_type s label; b ← vertex_has_property m prop; Some (Returned b).
Definition vertex_has_primary_key s (label prop : string) : option (outcome bool) :=
  m ⇐ vertex_type s label; Some (Returned (existsb (fun '(_, name, _) => bool_decide (name = prop)) (primary_keys m))).

Definition ensure (valid : option bool) : option (outcome unit) := b ← valid; Some (if b : bool then Returned tt else Thrown).

Definition set_vertex_properties s (label_id : Z) (types : list DataType) (defaults : list Property) : option (outcome unit * SchemaState) :=
  r ← ensure (vlabel_valid s label_id);
  match r with
  | Thrown => Some (Thrown, s)
  | Returned _ =>
      m ← vget (v_schemas_ s) label_id; m ← m; l ← vset (v_schemas_ s) label_id (Some (vertex_set_properties m types defaults)); Some (Returned tt, set_v_schemas l s)
  end.

(** The types of edges; [at] throws where there is none. *)
Definition edge_type_at s (src dst edge : Z) : outcome EdgeSchema :=
  match e_schemas_ s !! generate_edge_label src dst edge with Some m => Returned m | None => Thrown end.

Definition edge_has_property_of s (src dst edge : string) (prop : string) : option (outcome bool) :=
  edge ⇐ elabel_id s edge; src ⇐ vlabel_id s src; dst ⇐ vlabel_id s dst;
  _ ⇐ ensure (vlabel_valid s src); _ ⇐ ensure (vlabel_valid s dst); _ ⇐ ensure (edge_label_valid s edge); _ ⇐ ensure (edge_triplet_valid s src dst edge);
  m ⇐ Some (edge_type_at s src dst edge); b ← edge_has_property m prop; Some (Returned b).

Definition on_edge_schema {A} s (ids : option (outcome (Z * Z * Z))) (f : EdgeSchema -> option (outcome A * EdgeSchema)) : option (outcome A * SchemaState) :=
  r ← ids;
  match r with
  | Thrown => Some (Thrown, s)
  | Returned (src, dst, edge) =>
      match edge_type_at s src dst edge with
      | Thrown => Some (Thrown, s)
      | Returned m => '(r, m) ← f m; Some (r, set_e_schemas (<[generate_edge_label src dst edge := m]> (e_schemas_ s)) s)
      end
  end.

Definition edge_ids s (src dst edge : string) : option (outcome (Z * Z * Z)) :=
  src ⇐ vlabel_id s src; dst ⇐ vlabel_id s dst; edge ⇐ elabel_id s edge; Some (Returned (src, dst, edge)).
Definition edge_ids_internal s (src dst edge : string) : option (outcome (Z * Z * Z)) :=
  src ⇐ Some (vlabel_id_internal s src); dst ⇐ Some (vlabel_id_internal s dst); edge ⇐ Some (elabel_id_internal s edge); Some (Returned (src, dst, edge)).

Definition AddEdgeProperties s (src dst edge : string) (names : list string) (types : list DataType) (defaults : list Property) :=
  on_edge_schema s (edge_ids s src dst edge) (fun m => edge_add_properties m names types defaults).
Definition RenameEdgeProperties s (src dst edge : string) (names renames : list string) :=
  on_edge_schema s (edge_ids s src dst edge) (fun m => edge_rename_properties m names renames).
Definition DeleteEdgeProperties s (src dst edge : string) (names : list string) (is_soft : bool) :=
  on_edge_schema s (edge_ids_internal s src dst edge) (fun m => returns (edge_delete_properties m names is_soft)).
Definition RevertDeleteEdgeProperties s (src dst edge : string) (names : list string) :=
  on_edge_schema s (edge_ids s src dst edge) (fun m => edge_revert_delete_properties m names).

(** *** Compaction *)

(** The labels that are not deleted, in order, with what belongs to them. *)
Fixpoint live_labels {A} (names : list string) (xs : list A) (tomb : list bool) : option (list (string * A)) :=
  match xs with
  | [] => Some []
  | x :: xs =>
      match tomb, names with
      | t :: tomb, name :: names => l ← live_labels names xs tomb; Some (if t : bool then l else (name, x) :: l)
      | _, _ => None
      end
  end.

(** One type of edges under the new numbers of its labels, or nothing. *)
Definition compact_triplet s (vlabels elabels : list string) (key : Z) : option (outcome (option Z)) :=
  let '(src, dst, edge) := parse_edge_label key in
  skip ← oror (vget (vlabel_tomb_ s) src) (oror (vget (vlabel_tomb_ s) dst) (oror (vget (elabel_tomb_ s) edge) (valid ← edge_triplet_valid s src dst edge; Some (negb valid))));
  if skip : bool then Some (Returned None)
  else
    sn ← vget (vlabel_indexer_ s) src; dn ← vget (vlabel_indexer_ s) dst; en ← vget (elabel_indexer_ s) edge;
    Some (match find_name vlabels sn, find_name vlabels dn, find_name elabels en with
          | Some src, Some dst, Some edge => Returned (Some (generate_edge_label src dst edge))
          | _, _, _ => Thrown
          end).

Fixpoint compact_triplets s (vlabels elabels : list string) (pairs : list (Z * EdgeSchema)) (acc : gmap Z EdgeSchema * Z) : option (outcome (gmap Z EdgeSchema * Z)) :=
  match pairs with
  | [] => Some (Returned acc)
  | (key, m) :: pairs =>
      r ⇐ compact_triplet s vlabels elabels key;
      compact_triplets s vlabels elabels pairs (match r with Some new_index => (<[new_index := m]> (fst acc), Z.max (snd acc) new_index) | None => acc end)
  end.

(** [Compact]; an index with the same name twice would throw. *)
Definition compact_schema s : option (outcome SchemaState) :=
  vs ← live_labels (vlabel_indexer_ s) (v_schemas_ s) (vlabel_tomb_ s);
  es ← live_labels (elabel_indexer_ s) (elabel_indexer_ s) (elabel_tomb_ s);
  let vlabels := map fst vs in
  let elabels := map fst es in
  if negb (bool_decide (NoDup vlabels) && bool_decide (NoDup elabels)) then Some Thrown
  else
    r ⇐ compact_triplets s vlabels elabels (map_to_list (e_schemas_ s)) (∅, 0);
    Some (Returned (MkSchema vlabels elabels (map snd vs) (fst r) (map (fun _ => false) vs) (map (fun _ => false) es) (MkTomb (snd r + 1) ∅))).
