(* ===== verification/SchemaInvariant.v ===== *)
(** * The schema keeps its parts together

    [schema_ok]: every label has a number, a tombstone and a place for its type, a label
    that is not deleted has a type with a primary key, and every type of edges is under
    the numbers of its labels.  The lemmas say that each operation of [SchemaOps] keeps
    it and does not leave a vector. *)
From stdpp Require Import strings gmap.
From S2P Require Import Prelude Storage Property Column ColumnTheorems ColumnSpec Table TableTheorems EdgeSchema VertexSchema SchemaOps.
#[local] Open Scope Z_scope.
Implicit Types s : SchemaState.

(** ** Names *)

Lemma find_name_iff names x i : NoDup names -> find_name names x = Some i <-> vget names i = Some x.
Proof.
  intros Hd. unfold find_name. rewrite get_index_spec, Z.sub_0_r by done. split; [naive_solver|]. intros Hi. split; [|done]. apply vget_inv in Hi as [Hi _]. lia.
Qed.

Lemma find_name_none names x : find_name names x = None <-> x ∉ names.
Proof.
  unfold find_name. assert (forall k, get_index names x k = None <-> x ∉ names) as Hg; [|done].
  induction names as [|y names IH]; intros k; simpl; [split; [intros _; apply not_elem_of_nil|done]|].
  rewrite not_elem_of_cons. case_decide; [naive_solver|]. rewrite IH. naive_solver.
Qed.

Lemma find_name_range names x i : find_name names x = Some i -> 0 <= i < vlen names.
Proof. intros Hi%get_index_bound. lia. Qed.

Lemma find_name_inv names x i : find_name names x = Some i -> vget names i = Some x.
Proof.
  unfold find_name. assert (forall k, get_index names x k = Some i -> vget names (i - k) = Some x) as Hg; [|intros Hi; by rewrite <-(Hg 0 Hi), Z.sub_0_r].
  induction names as [|y names IH]; intros k; simpl; [done|]. case_decide.
  - intros [= <-]. subst y. by rewrite Z.sub_diag.
  - intros Hi. pose proof (get_index_bound _ _ _ _ Hi). rewrite vget_cons by lia. rewrite (proj2 (Z.eqb_neq _ _)) by lia.
    rewrite <-(IH (k + 1) Hi). f_equal. lia.
Qed.

Lemma vget_total {A} `{Inhabited A} (l : list A) i : 0 <= i < vlen l -> exists x, vget l i = Some x.
Proof. intros Hi. exists (vat l i). by apply vget_Some. Qed.

Lemma Resize_snoc {A} (z : A) l : Resize z l (vlen l + 1) = l ++ [z].
Proof.
  unfold Resize, vlen. rewrite take_ge by lia. f_equal. replace (_ - _)%nat with 1%nat by lia. done.
Qed.

Lemma vput_snoc {A} (l : list A) x y : vput (l ++ [x]) (vlen l) y = l ++ [y].
Proof. unfold vput, vlen. rewrite Nat2Z.id. rewrite insert_app_r_alt by lia. by rewrite Nat.sub_diag. Qed.
Lemma erase_len {A} (l : list A) i : 0 <= i < vlen l -> exists k, erase l i = Some k /\ vlen k = vlen l - 1.
Proof.
  intros Hi. unfold erase. rewrite (proj2 (Z.leb_le _ _)), (proj2 (Z.ltb_lt _ _)) by lia. eexists. split; [done|].
  unfold vlen in *. rewrite length_app, length_take, length_drop. lia.
Qed.

(** ** Types with parts of equal length *)

Definition vertex_lens (n : Z) (m : VertexSchema) : Prop :=
  vlen (VertexSchema.property_names m) = n /\ vlen (property_types m) = n /\ vlen (VertexSchema.default_property_values m) = n /\ vlen (vprop_soft_deleted m) = n.
Record vertex_ok (m : VertexSchema) : Prop := {
  vk_lens : exists n, vertex_lens n m;
  vk_key : is_Some (primary_key_name m)
}.

Definition edge_lens (n : Z) (m : EdgeSchema) : Prop :=
  vlen (EdgeSchema.property_names m) = n /\ vlen (properties m) = n /\ vlen (EdgeSchema.default_property_values m) = n /\ vlen (eprop_soft_deleted m) = n.
Definition edge_ok (m : EdgeSchema) : Prop := exists n, edge_lens n m.

(** A change that keeps the names of the labels. *)
Definition same_vertex (m m' : VertexSchema) : Prop := vertex_ok m' /\ label_name m' = label_name m /\ primary_keys m' = primary_keys m.
Definition same_edge (m m' : EdgeSchema) : Prop :=
  edge_ok m' /\ src_label_name m' = src_label_name m /\ dst_label_name m' = dst_label_name m /\ edge_label_name m' = edge_label_name m.

Lemma same_vertex_refl m : vertex_ok m -> same_vertex m m. Proof. by split. Qed.
Lemma same_vertex_trans m1 m2 m3 : same_vertex m1 m2 -> same_vertex m2 m3 -> same_vertex m1 m3.
Proof. intros (H1 & H2 & H3) (H4 & H5 & H6). split; [done|]. split; congruence. Qed.
Lemma same_edge_refl m : edge_ok m -> same_edge m m. Proof. intros Hm. split; [done|]. by split_and!. Qed.
Lemma same_edge_trans m1 m2 m3 : same_edge m1 m2 -> same_edge m2 m3 -> same_edge m1 m3.
Proof. intros (H1 & H2 & H3 & H4) (H5 & H6 & H7 & H8). split; [done|]. split_and!; congruence. Qed.

Lemma same_vertex_with m n types names defaults deleted : vertex_ok m ->
  vlen names = n -> vlen types = n -> vlen defaults = n -> vlen deleted = n -> same_vertex m (VertexSchema.with_properties types names defaults deleted m).
Proof. intros [_ Hk] H1 H2 H3 H4. split; [|done]. split; [by exists n|]. exact Hk. Qed.
Lemma same_edge_with m n types names defaults deleted :
  vlen names = n -> vlen types = n -> vlen defaults = n -> vlen deleted = n -> same_edge m (EdgeSchema.with_properties types names defaults deleted m).
Proof. intros H1 H2 H3 H4. split; [by exists n|]. by split_and!. Qed.

(** Loops over numbered names. *)
Lemma numbered_range {A} (l : list A) i x : (i, x) ∈ zip (seqZ 0 (vlen l)) l -> 0 <= i < vlen l.
Proof. intros Hin. apply elem_of_zip_l in Hin. by apply elem_of_seqZ in Hin. Qed.

Lemma wp_each_keeps {A S} (I : S -> Prop) (l : list A) (f : A -> S -> option (outcome unit * S)) (s : S) :
  I s -> (forall x (s : S), x ∈ l -> I s -> wp (f x s) (fun r => I (snd r))) -> wp (each l f s) (fun r => I (snd r)).
Proof.
  intros Hs Hf. revert s Hs. induction l as [|x l IH]; intros s Hs; cbn [each]; [by apply wp_ret|]. unfold and_then. apply wp_bind.
  eapply wp_mono; [apply (Hf x s); [apply list_elem_of_here|done]|]. intros [[[]|] s1] H1; [|by apply wp_ret].
  apply IH; [|done]. intros y s2 Hy. apply Hf. by apply list_elem_of_further.
Qed.

Lemma wp_for_each_keeps {A S} (I : S -> Prop) (l : list A) (f : A -> S -> option S) (s : S) :
  I s -> (forall x (s : S), x ∈ l -> I s -> wp (f x s) I) -> wp (for_each l s f) I.
Proof.
  intros Hs Hf. revert s Hs. induction l as [|x l IH]; intros s Hs; cbn [for_each]; [by apply wp_ret|]. apply wp_bind.
  eapply wp_mono; [apply (Hf x s); [apply list_elem_of_here|done]|]. intros s1 H1. apply IH; [|done]. intros y s2 Hy. apply Hf. by apply list_elem_of_further.
Qed.

Lemma wp_get {A} (l : list A) i (Q : A -> Prop) : 0 <= i < vlen l -> (forall x, vget l i = Some x -> Q x) -> wp (vget l i) Q.
Proof. intros Hi HQ. destruct (vget_is l i Hi) as [x Hx]. rewrite Hx. apply wp_ret. by apply HQ. Qed.
Lemma wp_set {A} (l : list A) i y (Q : list A -> Prop) : 0 <= i < vlen l -> Q (vput l i y) -> wp (vset l i y) Q.
Proof. intros Hi HQ. rewrite vset_is by done. by apply wp_ret. Qed.
Lemma wp_erase {A} (l : list A) i (Q : list A -> Prop) : 0 <= i < vlen l -> (forall k, vlen k = vlen l - 1 -> Q k) -> wp (erase l i) Q.
Proof. intros Hi HQ. destruct (erase_len l i Hi) as (k & -> & Hk). apply wp_ret. by apply HQ. Qed.

(** *** Properties of a vertex type *)

Lemma default_given ds i ty : 0 <= i < vlen ds -> exists v, default_or ds i ty = Returned v.
Proof. intros Hi. destruct (vget_is ds i Hi) as [v Hv]. exists v. unfold default_or. by rewrite Hv. Qed.

Lemma vertex_add_ok m names types ds : vertex_ok m -> vlen types = vlen names -> vlen ds = vlen names ->
  wp (vertex_add_properties m names types ds) (fun r => same_vertex m (snd r)).
Proof.
  intros Hm Ht Hd. unfold vertex_add_properties. apply wp_each_keeps; [by apply same_vertex_refl|]. intros [i name] m1 Hin%numbered_range H1.
  apply wp_bind, wp_get; [lia|]. intros ty _. destruct (default_given ds i ty) as [v ->]; [lia|]. apply wp_ret. cbn [snd].
  eapply same_vertex_trans; [exact H1|]. destruct H1 as ([(n & L1 & L2 & L3 & L4) Hk] & _). apply (same_vertex_with m1 (n + 1)); [by split; [exists n|]|..]; rewrite vlen_app, vlen_one; lia.
Qed.

Lemma rename_first_wp deleted names name rename : vlen deleted = vlen names ->
  wp (rename_first deleted names name rename) (fun l => vlen l = vlen names).
Proof.
  revert deleted. induction names as [|x names IH]; intros [|d deleted] Hl; try done; cbn [rename_first]; unfold vlen in *; cbn [List.length] in *.
  assert (Z.of_nat (List.length deleted) = Z.of_nat (List.length names)) as Hl' by lia.
  assert (wp (names ← rename_first deleted names name rename; Some (x :: names)) (fun l => Z.of_nat (List.length l) = Z.of_nat (S (List.length names)))) as Hgo.
  { apply wp_bind. eapply wp_mono; [by apply IH|]. intros l Hk. apply wp_ret. cbn beta in Hk. cbn [List.length]. lia. }
  destruct d; [done|]. case_bool_decide; [|done]. by apply wp_ret.
Qed.

Lemma vertex_rename_ok m names renames : vertex_ok m -> vlen renames = vlen names ->
  wp (vertex_rename_properties m names renames) (same_vertex m).
Proof.
  intros Hm Hr. unfold vertex_rename_properties. apply wp_for_each_keeps; [by apply same_vertex_refl|]. intros [i name] m1 Hin%numbered_range H1.
  apply wp_bind, wp_get; [lia|]. intros rename _. pose proof (proj1 H1) as [(n & L1 & L2 & L3 & L4) Hk]. apply wp_bind.
  eapply wp_mono; [apply rename_first_wp; lia|]. intros l Hl. cbn beta in Hl. apply wp_ret. eapply same_vertex_trans; [exact H1|].
  apply (same_vertex_with m1 n); [by split; [exists n|]|lia..].
Qed.

Lemma vertex_delete_ok m names is_soft : vertex_ok m -> wp (vertex_delete_properties m names is_soft) (fun r => same_vertex m (snd r)).
Proof.
  intros Hm. unfold vertex_delete_properties. destruct (vk_key _ Hm) as [key ->]. cbn [mbind option_bind]. case_bool_decide; [apply wp_ret; by apply same_vertex_refl|].
  apply wp_bind. eapply wp_mono; [apply (wp_for_each_keeps (same_vertex m)); [by apply same_vertex_refl|]|by intros m1 H1; apply wp_ret].
  intros name m1 _ H1. pose proof (proj1 H1) as [(n & L1 & L2 & L3 & L4) Hk].
  destruct (find_name _ name) as [j|] eqn:Ej; [|by apply wp_ret]. apply find_name_range in Ej. destruct is_soft.
  - apply wp_bind, wp_set; [lia|]. apply wp_ret. eapply same_vertex_trans; [exact H1|]. apply (same_vertex_with m1 n); rewrite ?vput_len; try lia. by split; [exists n|].
  - do 4 (apply wp_bind, wp_erase; [lia|]; intros ? ?). apply wp_ret. eapply same_vertex_trans; [exact H1|].
    apply (same_vertex_with m1 (n - 1)); try lia. by split; [exists n|].
Qed.

Lemma vertex_revert_ok m names : vertex_ok m -> wp (vertex_revert_delete_properties m names) (same_vertex m).
Proof.
  intros Hm. apply wp_for_each_keeps; [by apply same_vertex_refl|]. intros name m1 _ H1. pose proof (proj1 H1) as [(n & L1 & L2 & L3 & L4) Hk].
  destruct (find_name _ name) as [j|] eqn:Ej; [|by apply wp_ret]. apply find_name_range in Ej.
  apply wp_bind, wp_set; [lia|]. apply wp_ret. eapply same_vertex_trans; [exact H1|]. apply (same_vertex_with m1 n); rewrite ?vput_len; try lia. by split; [exists n|].
Qed.

(** *** Properties of an edge type *)

Lemma edge_add_ok m names types ds : edge_ok m -> vlen types = vlen names -> vlen ds = vlen names ->
  wp (edge_add_properties m names types ds) (fun r => same_edge m (snd r)).
Proof.
  intros Hm Ht Hd. unfold edge_add_properties. apply wp_each_keeps; [by apply same_edge_refl|]. intros [i name] m1 Hin%numbered_range H1.
  case_bool_decide; [by apply wp_ret|]. apply wp_bind, wp_get; [lia|]. intros ty _. destruct (default_given ds i ty) as [v ->]; [lia|]. apply wp_ret. cbn [snd].
  eapply same_edge_trans; [exact H1|]. destruct (proj1 H1) as (n & L1 & L2 & L3 & L4). apply (same_edge_with m1 (n + 1)); rewrite vlen_app, vlen_one; lia.
Qed.

Lemma edge_rename_ok m names renames : edge_ok m -> vlen renames = vlen names ->
  wp (edge_rename_properties m names renames) (fun r => same_edge m (snd r)).
Proof.
  intros Hm Hr. apply wp_each_keeps; [by apply same_edge_refl|]. intros [i name] m1 Hin%numbered_range H1. destruct (proj1 H1) as (n & L1 & L2 & L3 & L4).
  destruct (find_name _ name) as [j|] eqn:Ej; [|by apply wp_ret]. apply find_name_range in Ej. apply wp_bind, wp_get; [lia|]. intros [] _; [by apply wp_ret|].
  apply wp_bind, wp_get; [lia|]. intros rename _. apply wp_bind, wp_set; [lia|]. apply wp_ret. eapply same_edge_trans; [exact H1|].
  apply (same_edge_with m1 n); rewrite ?vput_len; lia.
Qed.

Lemma edge_delete_ok m names is_soft : edge_ok m -> wp (edge_delete_properties m names is_soft) (same_edge m).
Proof.
  intros Hm. apply wp_for_each_keeps; [by apply same_edge_refl|]. intros name m1 _ H1. destruct (proj1 H1) as (n & L1 & L2 & L3 & L4).
  destruct (find_name _ name) as [j|] eqn:Ej; [|by apply wp_ret]. apply find_name_range in Ej. destruct is_soft.
  - apply wp_bind, wp_set; [lia|]. apply wp_ret. eapply same_edge_trans; [exact H1|]. apply (same_edge_with m1 n); rewrite ?vput_len; lia.
  - do 4 (apply wp_bind, wp_erase; [lia|]; intros ? ?). apply wp_ret. eapply same_edge_trans; [exact H1|]. apply (same_edge_with m1 (n - 1)); lia.
Qed.

Lemma edge_revert_ok m names : edge_ok m -> wp (edge_revert_delete_properties m names) (fun r => same_edge m (snd r)).
Proof.
  intros Hm. apply wp_each_keeps; [by apply same_edge_refl|]. intros name m1 _ H1. destruct (proj1 H1) as (n & L1 & L2 & L3 & L4).
  destruct (find_name _ name) as [j|] eqn:Ej; [|by apply wp_ret]. apply find_name_range in Ej.
  apply wp_bind, wp_set; [lia|]. apply wp_ret. eapply same_edge_trans; [exact H1|]. apply (same_edge_with m1 n); rewrite ?vput_len; lia.
Qed.

(** ** The invariant *)

(** Names with their tombstones. *)
Definition labels_ok (names : list string) (tomb : list bool) : Prop := NoDup names /\ vlen tomb = vlen names /\ vlen names <= 255.

(** The types of the vertex labels; a label that is not deleted has a primary key. *)
Definition types_ok (names : list string) (tomb : list bool) (vs : list (option VertexSchema)) : Prop :=
  vlen vs = vlen names /\ forall i name, vget names i = Some name -> exists m, vget vs i = Some (Some m) /\ label_name m = name /\
    (exists n, vertex_lens n m) /\ (vget tomb i = Some false -> is_Some (primary_key_name m)).

(** The types of edges are under the numbers of their labels. *)
Definition placed (vnames enames : list string) (key : Z) (m : EdgeSchema) : Prop :=
  exists i j k, key = generate_edge_label i j k /\ vget vnames i = Some (src_label_name m) /\ vget vnames j = Some (dst_label_name m) /\
    vget enames k = Some (edge_label_name m).
Definition edges_ok (vnames enames : list string) (edges : gmap Z EdgeSchema) (size : Z) : Prop :=
  forall key m, edges !! key = Some m -> edge_ok m /\ placed vnames enames key m /\ 0 <= key < size.

Definition tomb_ok (t : Tomb) : Prop := 0 <= tomb_size t /\ forall i, i ∈ tomb_bits t -> 0 <= i < tomb_size t.

Record schema_ok s : Prop := {
  so_vlabels : labels_ok (vlabel_indexer_ s) (vlabel_tomb_ s);
  so_elabels : labels_ok (elabel_indexer_ s) (elabel_tomb_ s);
  so_types : types_ok (vlabel_indexer_ s) (vlabel_tomb_ s) (v_schemas_ s);
  so_edges : edges_ok (vlabel_indexer_ s) (elabel_indexer_ s) (e_schemas_ s) (tomb_size (elabel_triplet_tomb_ s));
  so_tomb : tomb_ok (elabel_triplet_tomb_ s)
}.

Lemma new_schema_ok : schema_ok new_schema.
Proof.
  assert (labels_ok [] []) as Hl by (split; [apply NoDup_nil_2|split; [done|unfold vlen; simpl; lia]]).
  split; simpl; [done|done| |by intros key m|]; (split; simpl; [try done; lia|]).
  - intros i name. unfold vget. rewrite lookup_nil. by destruct (i <? 0).
  - intros i Hi. set_solver.
Qed.

Section parts.
Context (s : SchemaState) (Hs : schema_ok s).

Lemma vlabel_at i : 0 <= i < vlen (vlabel_indexer_ s) -> exists name m, vget (vlabel_indexer_ s) i = Some name /\ vget (v_schemas_ s) i = Some (Some m) /\
  label_name m = name /\ (exists n, vertex_lens n m) /\ (vget (vlabel_tomb_ s) i = Some false -> is_Some (primary_key_name m)).
Proof. intros Hi. destruct (vget_is _ i Hi) as [name Hn]. destruct (proj2 (so_types _ Hs) i name Hn) as (m & Hm). by exists name, m. Qed.

(** Another tombstone for a vertex label. *)
Lemma schema_ok_vtomb i (b : bool) : 0 <= i < vlen (vlabel_indexer_ s) ->
  (b = false -> forall m, vget (v_schemas_ s) i = Some (Some m) -> is_Some (primary_key_name m)) -> schema_ok (set_vlabel_tomb (vput (vlabel_tomb_ s) i b) s).
Proof.
  intros Hi Hb. destruct Hs as [(H1 & H2 & H3) H4 [H5 H6] H7 H8]. split; simpl; [by split_and!; rewrite ?vput_len|done| |done|done].
  split; [done|]. intros j name Hj. destruct (H6 j name Hj) as (m & Hm & Hn & Hl & Hk). exists m. split_and!; [done..|].
  intros Ht. apply vget_vput in Ht as [[-> <-]|[_ Ht]]; [by apply Hb|by apply Hk|lia].
Qed.

(** Another type for a vertex label. *)
Lemma schema_ok_vtype i m m' : vget (v_schemas_ s) i = Some (Some m) -> (exists n, vertex_lens n m') -> label_name m' = label_name m ->
  (vget (vlabel_tomb_ s) i = Some false -> is_Some (primary_key_name m')) -> schema_ok (set_v_schemas (vput (v_schemas_ s) i (Some m')) s).
Proof.
  intros Hm Hl Hn Hk. pose proof (vget_lt _ _ _ Hm) as Hi. destruct Hs as [H1 H4 [H5 H6] H7 H8]. split; simpl; [done|done| |done|done].
  split; [by rewrite vput_len|]. intros j name Hj. destruct (H6 j name Hj) as (m1 & Hm1 & Hn1 & Hl1 & Hk1). destruct (decide (j = i)) as [->|Hne].
  - rewrite Hm in Hm1. injection Hm1 as <-. exists m'. split_and!; [by apply vget_vput_eq|congruence|done|done].
  - exists m1. by rewrite vget_vput_ne.
Qed.

Lemma schema_ok_etomb i (b : bool) : schema_ok (set_elabel_tomb (vput (elabel_tomb_ s) i b) s).
Proof. destruct Hs as [H1 (H2 & H3 & H4) H5 H6 H7]. split; simpl; [done| |done|done|done]. by split_and!; rewrite ?vput_len. Qed.

Lemma schema_ok_edge key m m' : e_schemas_ s !! key = Some m -> same_edge m m' -> schema_ok (set_e_schemas (<[key := m']> (e_schemas_ s)) s).
Proof.
  intros Hm (Hok & Hsrc & Hdst & Hed). destruct Hs as [H1 H2 H3 H4 H5]. split; simpl; [done..| |done]. intros key1 m1. rewrite lookup_insert_Some.
  intros [[<- <-]|[_ H]]; [|by apply H4]. destruct (H4 key m Hm) as (_ & (i & j & k & P) & Hr). split; [done|]. split; [|done]. exists i, j, k. by rewrite Hsrc, Hdst, Hed.
Qed.

Lemma schema_ok_delete key : schema_ok (set_e_schemas (delete key (e_schemas_ s)) s).
Proof. destruct Hs as [H1 H2 H3 H4 H5]. split; simpl; [done..| |done]. intros key1 m1 [_ H]%lookup_delete_Some. by apply H4. Qed.

Lemma schema_ok_triplet t : tomb_ok t -> tomb_size t = tomb_size (elabel_triplet_tomb_ s) -> schema_ok (set_triplet_tomb t s).
Proof. intros Ht Hz. destruct Hs as [H1 H2 H3 H4 H5]. split; simpl; [done..| |done]. by rewrite Hz. Qed.
End parts.

Lemma tomb_set_ok t i : tomb_ok t -> 0 <= i < tomb_size t -> exists t', tomb_set t i = Some t' /\ tomb_ok t' /\ tomb_size t' = tomb_size t /\ tomb_bits t' = {[i]} ∪ tomb_bits t.
Proof.
  intros [Hz Hb] Hi. unfold tomb_set. rewrite (proj2 (Z.leb_le _ _)), (proj2 (Z.ltb_lt _ _)) by lia. eexists. split; [done|]. split; [|done]. split; simpl; [done|].
  intros j [->%elem_of_singleton|Hj]%elem_of_union; [done|by apply Hb].
Qed.
Lemma tomb_reset_ok t i : tomb_ok t -> 0 <= i < tomb_size t -> exists t', tomb_reset t i = Some t' /\ tomb_ok t' /\ tomb_size t' = tomb_size t /\ tomb_bits t' = tomb_bits t ∖ {[i]}.
Proof.
  intros [Hz Hb] Hi. unfold tomb_reset. rewrite (proj2 (Z.leb_le _ _)), (proj2 (Z.ltb_lt _ _)) by lia. eexists. split; [done|]. split; [|done]. split; simpl; [done|].
  intros j [Hj _]%elem_of_difference. by apply Hb.
Qed.
Lemma tomb_get_ok t i : 0 <= i < tomb_size t -> tomb_get t i = Some (bool_decide (i ∈ tomb_bits t)).
Proof. intros Hi. unfold tomb_get. by rewrite (proj2 (Z.leb_le _ _)), (proj2 (Z.ltb_lt _ _)) by lia. Qed.

(** *** Creation *)

Lemma to_u8_is i : 0 <= i <= 255 -> to_u8 i = i.
Proof. intros Hi. unfold to_u8. apply Z.mod_small. lia. Qed.

Lemma vput_same {A} (l : list A) i x : vget l i = Some x -> vput l i x = l.
Proof. intros [Hi Hl]%vget_iff. by apply list_insert_id. Qed.

(** Marking a label as not deleted. *)
Lemma clear_mark (l : list bool) i b : vget l i = Some b -> (if b : bool then vset l i false else Some l) = Some (vput l i false).
Proof. intros Hi. destruct b; [apply vset_is; by eapply vget_lt|by rewrite vput_same]. Qed.

Lemma vertex_index_old s label i : schema_ok s -> find_name (vlabel_indexer_ s) label = Some i -> vertex_label_to_index s label = (s, i).
Proof.
  intros Hs Hf. pose proof (find_name_range _ _ _ Hf) as Hi. destruct (so_vlabels _ Hs) as (_ & _ & Hn). destruct (so_types _ Hs) as [Hl _].
  unfold vertex_label_to_index, label_add. rewrite Hf, to_u8_is by lia. rewrite Hl, (proj2 (Z.leb_gt _ _)) by lia. by destruct s.
Qed.

(** A label after the others. *)
Definition add_vlabel (label : string) (m : option VertexSchema) s : SchemaState :=
  MkSchema (vlabel_indexer_ s ++ [label]) (elabel_indexer_ s) (v_schemas_ s ++ [m]) (e_schemas_ s) (vlabel_tomb_ s ++ [false]) (elabel_tomb_ s) (elabel_triplet_tomb_ s).

Lemma vertex_index_new s label : schema_ok s -> label ∉ vlabel_indexer_ s -> vlen (vlabel_indexer_ s) < 255 ->
  vertex_label_to_index s label = (add_vlabel label None s, vlen (vlabel_indexer_ s)).
Proof.
  intros Hs Hf Hn. pose proof (vlen_nonneg (vlabel_indexer_ s)). destruct (so_vlabels _ Hs) as (_ & Ht & _). destruct (so_types _ Hs) as [Hl _].
  unfold vertex_label_to_index, label_add, add_vlabel. rewrite (proj2 (find_name_none _ _) Hf), to_u8_is by lia. rewrite Hl, Z.leb_refl.
  replace (Resize None (v_schemas_ s) (vlen (vlabel_indexer_ s) + 1)) with (v_schemas_ s ++ [None]) by (by rewrite <-Hl, Resize_snoc).
  replace (Resize false (vlabel_tomb_ s) (vlen (vlabel_indexer_ s) + 1)) with (vlabel_tomb_ s ++ [false]) by (by rewrite <-Ht, Resize_snoc). done.
Qed.

Lemma labels_ok_snoc names tomb label : labels_ok names tomb -> label ∉ names -> vlen names < 255 -> labels_ok (names ++ [label]) (tomb ++ [false]).
Proof.
  intros (H1 & H2 & H3) Hn Hl. split; [|rewrite !vlen_app, !vlen_one; lia]. apply NoDup_app. split_and!; [done| |apply NoDup_singleton].
  intros x Hx ->%list_elem_of_singleton. done.
Qed.

Lemma vget_last_snoc {A} (l : list A) x : vget (l ++ [x]) (vlen l) = Some x.
Proof. apply vget_app_iff. right. by rewrite Z.sub_diag. Qed.
Lemma vget_snoc_inv {A} (l : list A) x i y : vget (l ++ [x]) i = Some y -> vget l i = Some y \/ i = vlen l /\ y = x.
Proof.
  intros [H|H]%vget_app_iff; [by left|right]. pose proof (vget_lt _ _ _ H) as Hi. rewrite vlen_one in Hi. assert (i = vlen l) as -> by lia.
  rewrite Z.sub_diag in H. by injection H as <-.
Qed.
Lemma vget_app_old {A} (l k : list A) i y : vget l i = Some y -> vget (l ++ k) i = Some y.
Proof. intros H. apply vget_app_iff. by left. Qed.

Lemma edges_ok_more vn vn' en en' es n n' : edges_ok vn en es n -> (forall i x, vget vn i = Some x -> vget vn' i = Some x) ->
  (forall i x, vget en i = Some x -> vget en' i = Some x) -> n <= n' -> edges_ok vn' en' es n'.
Proof. intros He Hv Hn Hz key m Hm. destruct (He key m Hm) as (Hok & (i & j & k & Hk & H1 & H2 & H3) & Hr). split; [done|]. split; [|lia]. exists i, j, k. auto. Qed.

Lemma AddVertexLabel_spec s label types names pk ds m : schema_ok s -> label ∈ vlabel_indexer_ s \/ vlen (vlabel_indexer_ s) < 255 ->
  new_vertex_schema label types names pk ds = Returned m ->
  AddVertexLabel s label types names pk ds = Some (Returned tt, match find_name (vlabel_indexer_ s) label with
    | Some i => set_v_schemas (vput (v_schemas_ s) i (Some m)) (set_vlabel_tomb (vput (vlabel_tomb_ s) i false) s)
    | None => add_vlabel label (Some m) s
    end).
Proof.
  intros Hs Hroom Hm. unfold AddVertexLabel. destruct (so_vlabels _ Hs) as (_ & Ht & Hn). destruct (so_types _ Hs) as [Hl _].
  destruct (find_name (vlabel_indexer_ s) label) as [i|] eqn:Ef.
  - pose proof (find_name_range _ _ _ Ef) as Hi. rewrite (vertex_index_old s label i Hs Ef). destruct (vget_is (vlabel_tomb_ s) i) as [t Ht1]; [lia|]. rewrite Ht1. cbn [mbind option_bind].
    rewrite (clear_mark _ _ _ Ht1), Hm. cbn [mbind option_bind v_schemas_ set_vlabel_tomb set_v_schemas]. rewrite (proj2 (Z.leb_gt _ _)) by lia. by rewrite vset_is by lia.
  - pose proof (proj1 (find_name_none _ _) Ef) as Hnew. assert (vlen (vlabel_indexer_ s) < 255) as Hlt by naive_solver. rewrite vertex_index_new by done.
    cbn [vlabel_tomb_ add_vlabel]. rewrite <-Ht, vget_last_snoc. cbn [mbind option_bind]. rewrite Hm. cbn [v_schemas_ set_vlabel_tomb set_v_schemas add_vlabel].
    assert ((vlen (v_schemas_ s ++ [None]) <=? vlen (vlabel_tomb_ s)) = false) as -> by (rewrite vlen_app, vlen_one; lia). rewrite Ht, <-Hl, vset_is by (rewrite vlen_app, vlen_one; pose proof (vlen_nonneg (v_schemas_ s)); lia).
    cbn [mbind option_bind]. by rewrite vput_snoc.
Qed.

Lemma add_vlabel_ok s label m : schema_ok s -> label ∉ vlabel_indexer_ s -> vlen (vlabel_indexer_ s) < 255 -> label_name m = label -> vertex_ok m -> schema_ok (add_vlabel label (Some m) s).
Proof.
  intros Hs Hnew Hlt Hlab [Hlens Hkey]. destruct Hs as [H1 H4 [H5 H6] H7 H8]. split; simpl; [by apply labels_ok_snoc|done| | |done].
  - split; [by rewrite !vlen_app, !vlen_one, H5|]. intros i name [Hi|[-> ->]]%vget_snoc_inv.
    + destruct (H6 i name Hi) as (m1 & Hm1 & Hn1 & Hl1 & Hk1). exists m1. split_and!; [by apply vget_app_old|done|done|]. intros Ht. apply Hk1.
      destruct (vget_snoc_inv _ _ _ _ Ht) as [?|[-> _]]; [done|]. apply vget_lt in Hi. destruct H1 as (_ & H1 & _). lia.
    + exists m. split_and!; [by rewrite <-H5, vget_last_snoc|done|done|done].
  - eapply edges_ok_more; [exact H7|intros; by apply vget_app_old|done|lia].
Qed.

Lemma AddVertexLabel_ok s label types names pk ds m : schema_ok s -> label ∈ vlabel_indexer_ s \/ vlen (vlabel_indexer_ s) < 255 ->
  new_vertex_schema label types names pk ds = Returned m -> vertex_ok m ->
  wp (AddVertexLabel s label types names pk ds) (fun r => fst r = Returned tt /\ schema_ok (snd r)).
Proof.
  intros Hs Hroom Hm Hok. rewrite (AddVertexLabel_spec s label types names pk ds m) by done. apply wp_ret. split; [done|]. cbn [snd].
  assert (label_name m = label) as Hlab. { unfold new_vertex_schema in Hm. destruct (match ds with [] => _ | _ => _ end); [|done]. by injection Hm as <-. }
  destruct (find_name (vlabel_indexer_ s) label) as [i|] eqn:Ef.
  - destruct (vlabel_at s Hs i (find_name_range _ _ _ Ef)) as (name & m0 & Hn & Hm0 & Hlab0 & _). apply find_name_inv in Ef. rewrite Ef in Hn. injection Hn as <-.
    pose proof (schema_ok_vtype s Hs i m0 m Hm0 (vk_lens _ Hok) ltac:(congruence) (fun _ => vk_key _ Hok)) as H1.
    pose proof (schema_ok_vtomb _ H1 i false (vget_lt _ _ _ Ef)) as H2. cbn [v_schemas_ set_v_schemas vlabel_tomb_] in H2. apply H2. intros _ m1.
    rewrite vget_vput_eq by by eapply vget_lt. intros [= <-]. apply Hok.
  - apply find_name_none in Ef. apply add_vlabel_ok; naive_solver.
Qed.

Definition add_elabel (label : string) s : SchemaState :=
  MkSchema (vlabel_indexer_ s) (elabel_indexer_ s ++ [label]) (v_schemas_ s) (e_schemas_ s) (vlabel_tomb_ s) (elabel_tomb_ s ++ [false]) (elabel_triplet_tomb_ s).

Lemma edge_index_spec s label : schema_ok s -> label ∈ elabel_indexer_ s \/ vlen (elabel_indexer_ s) < 255 ->
  exists s1 k, edge_label_to_index s label = (s1, k) /\ schema_ok s1 /\ find_name (elabel_indexer_ s1) label = Some k /\
    s1 = match find_name (elabel_indexer_ s) label with Some _ => s | None => add_elabel label s end.
Proof.
  intros Hs Hroom. pose proof (vlen_nonneg (elabel_indexer_ s)). destruct (so_elabels _ Hs) as (Hd & Ht & Hn). unfold edge_label_to_index, label_add.
  destruct (find_name (elabel_indexer_ s) label) as [i|] eqn:Ef.
  - pose proof (find_name_range _ _ _ Ef). rewrite to_u8_is by lia. exists s, i. rewrite (proj2 (Z.leb_gt _ _)) by lia. split; [by destruct s|done].
  - apply find_name_none in Ef. assert (vlen (elabel_indexer_ s) < 255) as Hlt by naive_solver. rewrite to_u8_is by lia. rewrite Ht, Z.leb_refl.
    replace (Resize false (elabel_tomb_ s) (vlen (elabel_indexer_ s) + 1)) with (elabel_tomb_ s ++ [false]) by (by rewrite <-Ht, Resize_snoc).
    eexists _, _. split; [done|]. pose proof (labels_ok_snoc _ _ _ (so_elabels _ Hs) Ef Hlt) as H1. split; [|split; [|done]].
    + destruct Hs as [H2 _ H4 H5 H6]. split; simpl; [done|done|done| |done]. eapply edges_ok_more; [exact H5|done|intros; by apply vget_app_old|lia].
    + simpl. apply find_name_iff; [apply H1|apply vget_last_snoc].
Qed.

Lemma edge_number i j k : 0 <= i <= 255 -> 0 <= j <= 255 -> 0 <= k <= 255 -> 0 <= generate_edge_label i j k.
Proof. intros Hi Hj Hk. rewrite generate_edge_label_value by lia. lia. Qed.

Lemma vlabel_small s i name : schema_ok s -> vget (vlabel_indexer_ s) i = Some name -> 0 <= i <= 255.
Proof. intros Hs Hi%vget_lt. destruct (so_vlabels _ Hs) as (_ & _ & Hn). lia. Qed.
Lemma elabel_small s i name : schema_ok s -> vget (elabel_indexer_ s) i = Some name -> 0 <= i <= 255.
Proof. intros Hs Hi%vget_lt. destruct (so_elabels _ Hs) as (_ & _ & Hn). lia. Qed.

(** The edge types at two numbers are the same only if the labels are. *)
Lemma edge_number_inj i j k i' j' k' : 0 <= i <= 255 -> 0 <= j <= 255 -> 0 <= k <= 255 -> 0 <= i' <= 255 -> 0 <= j' <= 255 -> 0 <= k' <= 255 ->
  generate_edge_label i j k = generate_edge_label i' j' k' -> i = i' /\ j = j' /\ k = k'.
Proof.
  intros ? ? ? ? ? ? He. assert ((i, j, k) = (i', j', k')) as [= -> -> ->]; [|done].
  rewrite <-(parse_generate i j k), <-(parse_generate i' j' k') by lia. by rewrite He.
Qed.

(** The tombstone of a type after [AddEdgeLabel]: large enough, and clear. *)
Lemma triplet_cleared t id : tomb_ok t -> 0 <= id ->
  let t1 := if tomb_size t <=? id then tomb_resize t (id + 1) else t in
  exists t2, (b ← tomb_get t1 id; t2 ← (if b : bool then tomb_reset t1 id else Some t1); Some t2) = Some t2 /\ tomb_ok t2 /\
    tomb_size t2 = Z.max (tomb_size t) (id + 1) /\ tomb_bits t2 = tomb_bits t ∖ {[id]}.
Proof.
  intros Ht Hid t1. assert (tomb_ok t1 /\ tomb_size t1 = Z.max (tomb_size t) (id + 1) /\ tomb_bits t1 = tomb_bits t) as (H1 & Hz & Hb).
  { unfold t1. destruct (Z.leb_spec (tomb_size t) id); [|split_and!; [apply Ht..|lia|done]]. destruct Ht as [Hz Hb].
    assert (tomb_bits (tomb_resize t (id + 1)) = tomb_bits t) as E. { simpl. apply set_eq. intros i. rewrite elem_of_filter. split; [naive_solver|]. intros Hi. split; [specialize (Hb i Hi); lia|done]. }
    split_and!; [split; [simpl; lia|]|simpl; lia|done]. rewrite E. intros i Hi. specialize (Hb i Hi). simpl. lia. }
  rewrite tomb_get_ok by lia. cbn [mbind option_bind]. rewrite <-Hb, <-Hz. case_bool_decide as Hin.
  - destruct (tomb_reset_ok t1 id H1 ltac:(lia)) as (t2 & -> & H2 & Hz2 & Hb2). exists t2. by split_and!.
  - exists t1. split_and!; [done|done|done|set_solver].
Qed.

Lemma AddEdgeLabel_spec s a b e types names oe ie om im sort ds m i j : schema_ok s -> find_name (vlabel_indexer_ s) a = Some i -> find_name (vlabel_indexer_ s) b = Some j ->
  e ∈ elabel_indexer_ s \/ vlen (elabel_indexer_ s) < 255 -> new_edge_schema a b e sort im om oe ie types names ds = Some (Returned m) -> edge_ok m ->
  wp (AddEdgeLabel s a b e types names oe ie om im sort ds) (fun r => fst r = Returned tt /\ schema_ok (snd r) /\
    exists k, find_name (elabel_indexer_ (snd r)) e = Some k /\ vlabel_indexer_ (snd r) = vlabel_indexer_ s /\ vlabel_tomb_ (snd r) = vlabel_tomb_ s /\ v_schemas_ (snd r) = v_schemas_ s /\
      e_schemas_ (snd r) = (let id := generate_edge_label i j k in match e_schemas_ s !! id with Some _ => e_schemas_ s | None => <[id := m]> (e_schemas_ s) end) /\
      tomb_bits (elabel_triplet_tomb_ (snd r)) = tomb_bits (elabel_triplet_tomb_ s) ∖ {[generate_edge_label i j k]} /\
      (find_name (elabel_indexer_ s) e = Some k \/ e ∉ elabel_indexer_ s) /\ vget (elabel_tomb_ (snd r)) k = Some false).
Proof.
  intros Hs Ha Hb He Hm Hok. unfold AddEdgeLabel. rewrite (vertex_index_old s a i Hs Ha), (vertex_index_old s b j Hs Hb).
  destruct (edge_index_spec s e Hs He) as (s1 & k & -> & H1 & Hk & Hs1). pose proof (find_name_range _ _ _ Hk) as Hkr. destruct (so_elabels _ H1) as (_ & Ht1 & _).
  assert (vlabel_indexer_ s1 = vlabel_indexer_ s /\ e_schemas_ s1 = e_schemas_ s /\ elabel_triplet_tomb_ s1 = elabel_triplet_tomb_ s /\ v_schemas_ s1 = v_schemas_ s /\
    vlabel_tomb_ s1 = vlabel_tomb_ s /\ (find_name (elabel_indexer_ s) e = Some k \/ e ∉ elabel_indexer_ s)) as (Ev & Ee & Et & Es & Evt & Hold).
  { subst s1. destruct (find_name (elabel_indexer_ s) e) as [k0|] eqn:E; split_and!; try done; first [left; congruence|right; by apply find_name_none]. }
  destruct (vget_is (elabel_tomb_ s1) k) as [t Ht]; [lia|]. rewrite Ht. cbn [mbind option_bind]. rewrite (clear_mark _ _ _ Ht), Hm. cbn [mbind option_bind].
  pose proof (schema_ok_etomb s1 H1 k false) as H2. set (s2 := set_elabel_tomb _ s1) in *.
  assert (e_schemas_ s2 = e_schemas_ s) as Ee2 by (rewrite <-Ee; done). assert (elabel_triplet_tomb_ s2 = elabel_triplet_tomb_ s) as Et2 by (rewrite <-Et; done).
  pose proof (find_name_inv _ _ _ Ha) as Ha'. pose proof (find_name_inv _ _ _ Hb) as Hb'. pose proof (find_name_inv _ _ _ Hk) as Hk'.
  pose proof (vlabel_small s i a Hs Ha') as Hi. pose proof (vlabel_small s j b Hs Hb') as Hj. pose proof (elabel_small s1 k e H1 Hk') as Hk2.
  set (id := generate_edge_label i j k). pose proof (edge_number i j k Hi Hj Hk2) as Hid. fold id in Hid.
  destruct (triplet_cleared (elabel_triplet_tomb_ s) id (so_tomb _ Hs) Hid) as (t2 & Ht2 & Hok2 & Hz2 & Hb2). cbv zeta in Ht2 |- *. cbn [elabel_triplet_tomb_ set_e_schemas]. rewrite Et2, Ee2.
  destruct (tomb_get _ id) as [b0|]; [|done]. cbn [mbind option_bind] in *. destruct (if b0 : bool then _ else _) as [t3|]; [|done]. injection Ht2 as ->. cbn [mbind option_bind].
  apply wp_ret. split; [done|]. split; [|exists k; split_and!; try done; by apply vget_vput_eq; lia].
  destruct H2 as [G1 G2 G3 G4 G5]. split; simpl; [done|done|done| |done]. rewrite Ee2, Et2 in G4.
  assert (edges_ok (vlabel_indexer_ s1) (elabel_indexer_ s1) (e_schemas_ s) (tomb_size t2)) as G6 by (eapply edges_ok_more; [exact G4|done|done|lia]).
  destruct (e_schemas_ s !! id) as [m0|] eqn:E0; [done|]. intros key m1. rewrite lookup_insert_Some. intros [[<- <-]|[_ Hkm]]; [|by apply G6].
  split; [done|]. split; [|lia]. exists i, j, k. rewrite Ev. unfold new_edge_schema in Hm. destruct (match ds with [] => _ | _ => _ end); [|done].
  destruct (vlen types =? vlen names); [|done]. injection Hm as <-. by split_and!.
Qed.

(** *** Deletion *)

(** What a deletion of edge types leaves alone. *)
Definition same_labels s s' : Prop := vlabel_indexer_ s' = vlabel_indexer_ s /\ elabel_indexer_ s' = elabel_indexer_ s /\
  vlabel_tomb_ s' = vlabel_tomb_ s /\ v_schemas_ s' = v_schemas_ s.

Lemma same_labels_trans s1 s2 s3 : same_labels s1 s2 -> same_labels s2 s3 -> same_labels s1 s3.
Proof. intros (H1 & H2 & H3 & H4) (H5 & H6 & H7 & H8). split_and!; congruence. Qed.

Lemma drop_triplet_ok s index is_soft : schema_ok s -> 0 <= index < tomb_size (elabel_triplet_tomb_ s) ->
  wp (drop_triplet s index is_soft) (fun s' => schema_ok s' /\ same_labels s s' /\ elabel_tomb_ s' = elabel_tomb_ s).
Proof.
  intros Hs Hi. unfold drop_triplet. destruct (tomb_set_ok _ index (so_tomb _ Hs) Hi) as (t & -> & Ht & Hz & _). apply wp_ret. split; [|by destruct is_soft].
  destruct is_soft; [by apply schema_ok_triplet|]. apply schema_ok_triplet; [by apply schema_ok_delete|done|done].
Qed.

Lemma edge_exists_range s i j k : schema_ok s -> has_edge_label s i j k = true -> 0 <= generate_edge_label i j k < tomb_size (elabel_triplet_tomb_ s).
Proof. intros Hs [m Hm]%bool_decide_eq_true. by apply (so_edges _ Hs) in Hm as (_ & _ & Hr). Qed.

Lemma exist_wp s i j k (Q : bool -> Prop) : schema_ok s -> 0 <= i <= 255 -> 0 <= j <= 255 -> 0 <= k <= 255 ->
  (Q false) -> (has_edge_label s i j k = true -> Q true) -> wp (exist s i j k) Q.
Proof.
  intros Hs Hi Hj Hk Hf Ht. pose proof (edge_number i j k Hi Hj Hk). unfold exist, edge_triplet_valid. destruct (Z.ltb_spec (generate_edge_label i j k) (tomb_size (elabel_triplet_tomb_ s))).
  - rewrite tomb_get_ok by lia. apply wp_ret. destruct (negb _), (has_edge_label s i j k); simpl; auto.
  - apply wp_ret. done.
Qed.

Lemma delete_edge_label_all_ok s label is_soft : schema_ok s -> wp (delete_edge_label_all s label is_soft) (fun r => schema_ok (snd r)).
Proof.
  intros Hs. unfold delete_edge_label_all, elabel_id_internal. destruct (find_name (elabel_indexer_ s) label) as [k|] eqn:Ek; [|by apply wp_ret].
  pose proof (elabel_small s k label Hs (find_name_inv _ _ _ Ek)) as Hk. apply find_name_range in Ek. destruct (so_vlabels _ Hs) as (_ & Htv & Hv). destruct (so_elabels _ Hs) as (_ & Hte & _).
  set (I := fun s' => schema_ok s' /\ same_labels s s' /\ elabel_tomb_ s' = elabel_tomb_ s). apply wp_bind. eapply wp_mono; [apply (wp_for_each_keeps I); [by split|]|].
  - intros i s1 Hi%elem_of_seqZ H1. pose proof H1 as (Hok1 & (_ & _ & E1 & _) & _). rewrite E1. apply wp_bind, wp_get; [lia|]. intros [] _; [by apply wp_ret|].
    apply (wp_for_each_keeps I); [done|]. intros j s2 Hj%elem_of_seqZ H2. pose proof H2 as (Hok2 & Hsame2 & Et2). pose proof Hsame2 as (_ & _ & E2 & _). rewrite E2.
    apply wp_bind, wp_get; [lia|]. intros [] _; [by apply wp_ret|]. apply wp_bind, exist_wp; [done|lia|lia|lia|by apply wp_ret|]. intros Hex.
    eapply wp_mono; [apply drop_triplet_ok; [done|by apply edge_exists_range]|]. intros s3 (H3 & Hsame3 & Et3). split; [done|]. split; [by eapply same_labels_trans|congruence].
  - intros s1 (H1 & _ & Et1). cbn beta. apply wp_bind, wp_set; [rewrite Et1; lia|]. apply wp_ret. by apply schema_ok_etomb.
Qed.

Lemma delete_edge_triplet_ok s i j k is_soft : schema_ok s -> 0 <= i <= 255 -> 0 <= j <= 255 -> 0 <= k <= 255 -> wp (delete_edge_triplet s i j k is_soft) schema_ok.
Proof.
  intros Hs Hi Hj Hk. unfold delete_edge_triplet. destruct (e_schemas_ s !! generate_edge_label i j k) as [m|] eqn:E; [|by apply wp_ret].
  destruct (so_edges _ Hs _ _ E) as (_ & (i' & j' & k' & Hkey & H1 & H2 & H3) & Hr).
  destruct (edge_number_inj i j k i' j' k') as (-> & -> & ->); try done; [by eapply vlabel_small|by eapply vlabel_small|by eapply elabel_small|].
  apply wp_bind. eapply wp_mono; [by apply drop_triplet_ok|]. intros s1 (Hok1 & _ & Et). destruct (edge_label_used s1 k'); [by apply wp_ret|].
  apply wp_bind, wp_set; [|by apply wp_ret, schema_ok_etomb]. rewrite Et. destruct (so_elabels _ Hs) as (_ & -> & _). by eapply vget_lt.
Qed.

Lemma delete_vertex_label_ok s i is_soft : schema_ok s -> 0 <= i < vlen (vlabel_indexer_ s) -> wp (delete_vertex_label s i is_soft) schema_ok.
Proof.
  intros Hs Hi. destruct (vlabel_at s Hs i Hi) as (name & m & Hn & Hm & Hl & Hlens & Hk). destruct (so_vlabels _ Hs) as (_ & Ht & _). destruct (so_types _ Hs) as [Hv _].
  unfold delete_vertex_label. apply wp_bind. eapply (wp_mono _ (fun l => l = if is_soft then v_schemas_ s else vput (v_schemas_ s) i (Some (vertex_clear m)))).
  - destruct is_soft; [by apply wp_ret|]. rewrite Hm. cbn [mbind option_bind]. apply wp_set; [lia|done].
  - intros l ->. apply wp_bind, wp_set; [lia|]. apply wp_ret. pose proof (schema_ok_vtomb s Hs i true Hi ltac:(done)) as H1. destruct is_soft; [by destruct s|].
    refine (schema_ok_vtype _ H1 i m (vertex_clear m) Hm _ _ _); [by exists 0|done|]. simpl. rewrite vget_vput_eq by lia. done.
Qed.

Lemma delete_vertex_label_is s i m is_soft : schema_ok s -> vget (v_schemas_ s) i = Some (Some m) ->
  delete_vertex_label s i is_soft = Some (set_vlabel_tomb (vput (vlabel_tomb_ s) i true) (if is_soft then s else set_v_schemas (vput (v_schemas_ s) i (Some (vertex_clear m))) s)).
Proof.
  intros Hs Hm. pose proof (vget_lt _ _ _ Hm) as Hi. destruct (so_vlabels _ Hs) as (_ & Ht & _). destruct (so_types _ Hs) as [Hv _]. unfold delete_vertex_label. rewrite Hm. cbn [mbind option_bind].
  rewrite (vset_is (v_schemas_ s)), (vset_is (vlabel_tomb_ s)) by lia. destruct is_soft; cbn [mbind option_bind]; [by destruct s|done].
Qed.

(** *** Undoing *)

Lemma revert_vertex_ok s label : schema_ok s -> (forall i m, find_name (vlabel_indexer_ s) label = Some i -> vget (v_schemas_ s) i = Some (Some m) -> is_Some (primary_key_name m)) ->
  wp (revert_delete_vertex_label s label) (fun r => schema_ok (snd r)).
Proof.
  intros Hs Hk. unfold revert_delete_vertex_label, vlabel_id_internal. destruct (find_name (vlabel_indexer_ s) label) as [i|] eqn:Ei; [|by apply wp_ret].
  pose proof (find_name_range _ _ _ Ei). destruct (so_vlabels _ Hs) as (_ & Ht & _). apply wp_bind, wp_get; [lia|]. intros t Htt. rewrite (clear_mark _ _ _ Htt).
  cbn [mbind option_bind]. apply wp_ret. apply schema_ok_vtomb; [done|done|]. intros _ m. by apply Hk.
Qed.

Lemma revert_edge_ok s k : schema_ok s -> 0 <= k < vlen (elabel_indexer_ s) -> wp (revert_delete_edge_label s k) schema_ok.
Proof.
  intros Hs Hk. destruct (so_elabels _ Hs) as (_ & Ht & _). unfold revert_delete_edge_label. apply wp_bind, wp_get; [lia|]. intros t Htt. rewrite (clear_mark _ _ _ Htt).
  cbn [mbind option_bind]. by apply wp_ret, schema_ok_etomb.
Qed.

Lemma revert_triplet_ok s i j k : schema_ok s -> 0 <= i <= 255 -> 0 <= j <= 255 -> 0 <= k < vlen (elabel_indexer_ s) -> wp (revert_delete_triplet s i j k) schema_ok.
Proof.
  intros Hs Hi Hj Hk. destruct (so_elabels _ Hs) as (_ & _ & Hn). pose proof (edge_number i j k Hi Hj ltac:(lia)) as Hid. unfold revert_delete_triplet. set (id := generate_edge_label i j k) in *.
  apply wp_bind. eapply (wp_mono _ (fun t => tomb_ok t /\ tomb_size t = tomb_size (elabel_triplet_tomb_ s))).
  - pose proof (so_tomb _ Hs). destruct (Z.ltb_spec id (tomb_size (elabel_triplet_tomb_ s))); [|by apply wp_ret]. rewrite tomb_get_ok by lia. cbn [mbind option_bind].
    case_bool_decide; [|by apply wp_ret]. destruct (tomb_reset_ok _ id (so_tomb _ Hs) ltac:(lia)) as (t & -> & Ht & Hz & _). by apply wp_ret.
  - intros t [Ht Hz]. apply revert_edge_ok; [by apply schema_ok_triplet|done].
Qed.

(** *** Properties *)

(** The label of a type that can be reached: it is not deleted. *)
Lemma on_vertex_ok {A} s label (f : VertexSchema -> option (outcome A * VertexSchema)) : schema_ok s ->
  (forall m, vertex_ok m -> wp (f m) (fun r => same_vertex m (snd r))) -> wp (on_vertex_schema s label f) (fun r => schema_ok (snd r)).
Proof.
  intros Hs Hf. unfold on_vertex_schema, vlabel_id, obind, vlabel_id_internal. cbn [mbind option_bind].
  destruct (find_name (vlabel_indexer_ s) label) as [i|] eqn:Ei; [|by apply wp_ret]. pose proof (find_name_range _ _ _ Ei) as Hi. destruct (so_vlabels _ Hs) as (_ & Ht & _).
  destruct (vget_is (vlabel_tomb_ s) i) as [t Htt]; [lia|]. rewrite Htt. cbn [mbind option_bind]. destruct t; [by apply wp_ret|].
  destruct (vlabel_at s Hs i Hi) as (name & m & Hn & Hm & Hl & Hlens & Hk). rewrite Hm. cbn [mbind option_bind]. apply wp_bind.
  eapply wp_mono; [apply Hf; split; [done|by apply Hk]|]. intros [r m1] ([Hlens1 Hk1] & Hl1 & _). cbn [fst snd] in *. apply wp_bind, wp_set; [by eapply vget_lt|].
  apply wp_ret. by apply (schema_ok_vtype s Hs i m).
Qed.

Lemma on_edge_ok {A} s ids (f : EdgeSchema -> option (outcome A * EdgeSchema)) : schema_ok s -> wp ids (fun _ => True) ->
  (forall m, edge_ok m -> wp (f m) (fun r => same_edge m (snd r))) -> wp (on_edge_schema s ids f) (fun r => schema_ok (snd r)).
Proof.
  intros Hs Hids Hf. unfold on_edge_schema. apply wp_bind. eapply wp_mono; [exact Hids|]. intros [[[i j] k]|] _; [|by apply wp_ret]. unfold edge_type_at.
  destruct (e_schemas_ s !! generate_edge_label i j k) as [m|] eqn:E; [|by apply wp_ret]. apply wp_bind. eapply wp_mono; [apply Hf; by apply (so_edges _ Hs) in E as (? & _)|].
  intros [r m1] Hm. apply wp_ret. by apply (schema_ok_edge s Hs _ m).
Qed.

Lemma wp_obind {A B} (m : option (outcome A)) (f : A -> option (outcome B)) (Q : outcome B -> Prop) : Q Thrown ->
  wp m (fun r => match r with Returned x => wp (f x) Q | Thrown => True end) -> wp (obind m f) Q.
Proof. intros Ht. unfold obind. destruct m as [[x|]|]; [done| |done]. intros _. exact Ht. Qed.

Lemma vlabel_id_wp s label : schema_ok s -> wp (vlabel_id s label) (fun r => match r with Returned i => 0 <= i <= 255 | Thrown => True end).
Proof.
  intros Hs. unfold vlabel_id. apply wp_obind; [done|]. unfold vlabel_id_internal. destruct (find_name (vlabel_indexer_ s) label) as [i|] eqn:Ei; [|by apply wp_ret].
  pose proof (vlabel_small s i label Hs (find_name_inv _ _ _ Ei)). apply find_name_range in Ei. destruct (so_vlabels _ Hs) as (_ & Ht & _). apply wp_ret, wp_bind, wp_get; [lia|].
  intros [] _; by apply wp_ret.
Qed.
Lemma elabel_id_wp s label : schema_ok s -> wp (elabel_id s label) (fun r => match r with Returned i => 0 <= i <= 255 | Thrown => True end).
Proof.
  intros Hs. unfold elabel_id. apply wp_obind; [done|]. unfold elabel_id_internal. destruct (find_name (elabel_indexer_ s) label) as [i|] eqn:Ei; [|by apply wp_ret].
  pose proof (elabel_small s i label Hs (find_name_inv _ _ _ Ei)). apply find_name_range in Ei. destruct (so_elabels _ Hs) as (_ & Ht & _). apply wp_ret, wp_bind, wp_get; [lia|].
  intros [] _; by apply wp_ret.
Qed.

Lemma edge_ids_wp s a b e : schema_ok s -> wp (edge_ids s a b e) (fun _ => True).
Proof.
  intros Hs. unfold edge_ids. apply wp_obind; [done|]. eapply wp_mono; [by apply vlabel_id_wp|]. intros [i|] _; [|done]. apply wp_obind; [done|].
  eapply wp_mono; [by apply vlabel_id_wp|]. intros [j|] _; [|done]. apply wp_obind; [done|]. eapply wp_mono; [by apply elabel_id_wp|]. intros [k|] _; [|done]. by apply wp_ret.
Qed.

Lemma edge_ids_internal_wp s a b e : wp (edge_ids_internal s a b e) (fun _ => True).
Proof. unfold edge_ids_internal, obind. cbn [mbind option_bind]. destruct (vlabel_id_internal s a), (vlabel_id_internal s b), (elabel_id_internal s e); by apply wp_ret. Qed.

