(* ===== verification/SchemaTheorems.v ===== *)
(** * What the operations of the schema do

    [schema_invariant]: from an empty schema, the operations within their contract
    return and keep [schema_ok].  [compact_schema_spec]: compaction renumbers the labels
    and changes nothing else.  [soft_delete_reverts] and [deleted_type_returns]: what
    the tombstones of edge types hide. *)
From stdpp Require Import strings gmap.
From S2P Require Import Prelude Storage Property Column ColumnTheorems ColumnSpec Table TableTheorems EdgeSchema VertexSchema SchemaOps SchemaInvariant.
#[local] Open Scope Z_scope.
Implicit Types s : SchemaState.

(** ** Compaction *)

Lemma live_labels_wp {A} (names : list string) (xs : list A) tomb : vlen xs = vlen names -> vlen tomb = vlen names ->
  wp (live_labels names xs tomb) (fun l => map fst l `sublist_of` names /\
    forall name x, (name, x) ∈ l <-> exists i, vget names i = Some name /\ vget xs i = Some x /\ vget tomb i = Some false).
Proof.
  revert xs tomb. induction names as [|name names IH]; intros [|x xs] [|t tomb] H1 H2; try done; cbn [live_labels].
  - apply wp_ret. split; [done|]. intros name x. split; [by intros ?%elem_of_nil|]. intros (i & Hi & _). unfold vget in Hi. rewrite lookup_nil in Hi. by destruct (i <? 0).
  - apply wp_bind. eapply wp_mono; [apply IH; unfold vlen in *; simpl in *; lia|]. intros l [Hsub Hl]. apply wp_ret.
    assert (forall n y, (exists i, vget (name :: names) i = Some n /\ vget (x :: xs) i = Some y /\ vget (t :: tomb) i = Some false) <->
      (n = name /\ y = x /\ t = false) \/ (n, y) ∈ l) as Hcons.
    { intros n y. rewrite Hl. split.
      - intros (i & G1 & G2 & G3). pose proof (vget_lt _ _ _ G1) as Hi. rewrite !vget_cons in * by lia. destruct (Z.eqb_spec i 0); [left|right; by exists (i - 1)].
        by injection G1 as <-; injection G2 as <-; injection G3 as <-.
      - intros [(-> & -> & ->)|(i & G1 & G2 & G3)]; [by exists 0|]. exists (i + 1). pose proof (vget_lt _ _ _ G1). rewrite !vget_cons by lia.
        rewrite (proj2 (Z.eqb_neq _ _)) by lia. replace (i + 1 - 1) with i by lia. done. }
    destruct t; (split; [|intros n y; rewrite Hcons]).
    + by constructor.
    + naive_solver.
    + cbn [map fst]. by apply sublist_skip.
    + rewrite elem_of_cons. naive_solver.
Qed.

(** The renamed types: [ren] gives the new number of a type that stays. *)
Section renamed.
Context {A : Type} (ren : Z -> option Z).

Definition renamed (pairs : list (Z * A)) (acc : gmap Z A * Z) : Prop :=
  (forall n m, fst acc !! n = Some m <-> exists key, (key, m) ∈ pairs /\ ren key = Some n) /\ (forall n m, fst acc !! n = Some m -> n <= snd acc) /\ 0 <= snd acc.

Lemma renamed_step pairs key m acc : renamed pairs acc -> key ∉ pairs.*1 -> (forall k n, k ∈ pairs.*1 -> ren k = Some n -> ren key <> Some n) ->
  renamed (pairs ++ [(key, m)]) (match ren key with Some n => (<[n := m]> (fst acc), Z.max (snd acc) n) | None => acc end).
Proof.
  intros (H1 & H2 & H3) Hnew Hinj. assert (forall n m', (exists k, (k, m') ∈ pairs ++ [(key, m)] /\ ren k = Some n) <-> fst acc !! n = Some m' \/ (m' = m /\ ren key = Some n)) as Hx.
  { intros n m'. rewrite H1. setoid_rewrite elem_of_app. setoid_rewrite list_elem_of_singleton. split; [intros (k & [Hk|[= -> ->]] & Hr); [left; by exists k|by right]|].
    intros [(k & Hk & Hr)|[-> Hr]]; [exists k; auto|exists key; auto]. }
  destruct (ren key) as [n0|] eqn:E0; unfold renamed; cbn [fst snd].
  - assert (fst acc !! n0 = None) as Hfresh.
    { apply eq_None_not_Some. intros [m' (k & Hk & Hr)%H1]. apply (Hinj k n0); [by apply (list_elem_of_fmap_2 fst) in Hk|done|done]. }
    split; [|split; [|lia]].
    + intros n m'. rewrite Hx, lookup_insert_Some. naive_solver.
    + intros n m'. rewrite lookup_insert_Some. intros [[<- _]|[_ H]]; [lia|]. apply H2 in H. lia.
  - split; [|done]. intros n m'. rewrite Hx. naive_solver.
Qed.

End renamed.

Section triplets.
Context (s : SchemaState) (vlabels elabels : list string) (ren : Z -> option Z).

Lemma compact_triplets_wp pairs before acc : (forall key m, (key, m) ∈ pairs -> compact_triplet s vlabels elabels key = Some (Returned (ren key))) ->
  NoDup (before ++ pairs).*1 -> (forall k1 k2 n, k1 ∈ (before ++ pairs).*1 -> k2 ∈ (before ++ pairs).*1 -> ren k1 = Some n -> ren k2 = Some n -> k1 = k2) -> renamed ren before acc ->
  exists acc', compact_triplets s vlabels elabels pairs acc = Some (Returned acc') /\ renamed ren (before ++ pairs) acc'.
Proof.
  revert before acc. induction pairs as [|[key m] pairs IH]; intros before acc Hc Hd Hinj Ha; cbn [compact_triplets].
  - exists acc. by rewrite app_nil_r.
  - rewrite (Hc key m) by apply list_elem_of_here. cbn [obind mbind option_bind].
    replace (before ++ (key, m) :: pairs) with ((before ++ [(key, m)]) ++ pairs) in * by (by rewrite <-app_assoc). apply IH; [|done|done|].
    + intros k m' Hin. apply (Hc k m'). by apply list_elem_of_further.
    + rewrite !fmap_app, <-app_assoc in Hd. apply NoDup_app in Hd as (_ & Hd & _). apply renamed_step; [done| |].
      * intros Hin. apply (Hd key Hin). simpl. apply list_elem_of_here.
      * intros k n Hk Hr Hr'. rewrite !fmap_app in Hinj. assert (k = key) as ->; [|apply (Hd key Hk), list_elem_of_here]. apply (Hinj k key n); [| |done|done]; simpl; set_solver.
Qed.
End triplets.

(** ** What a reader of the schema sees *)

(** The number of a label that is not deleted. *)
Definition live_id (names : list string) (tomb : list bool) (name : string) : option Z :=
  i ← find_name names name; t ← vget tomb i; if t : bool then None else Some i.
Definition live_vlabel s : string -> option Z := live_id (vlabel_indexer_ s) (vlabel_tomb_ s).
Definition live_elabel s : string -> option Z := live_id (elabel_indexer_ s) (elabel_tomb_ s).

(** The types under their names. *)
Definition vtype s (label : string) : option VertexSchema := i ← live_vlabel s label; m ← vget (v_schemas_ s) i; m.
Definition look {A} s (tables : gmap Z A) (src dst edge : string) : option A :=
  i ← live_vlabel s src; j ← live_vlabel s dst; k ← live_elabel s edge;
  if bool_decide (generate_edge_label i j k ∈ tomb_bits (elabel_triplet_tomb_ s)) then None else (tables !! generate_edge_label i j k).
Definition etype s : string -> string -> string -> option EdgeSchema := look s (e_schemas_ s).

Lemma live_id_iff names tomb name i : NoDup names -> live_id names tomb name = Some i <-> vget names i = Some name /\ vget tomb i = Some false.
Proof.
  intros Hd. unfold live_id. split.
  - destruct (find_name names name) as [j|] eqn:Ej; [|done]. cbn [mbind option_bind]. destruct (vget tomb j) as [[]|] eqn:Et; [done| |done]. intros [= ->]. by apply find_name_iff in Ej.
  - intros [Hn%find_name_iff Ht]; [|done]. rewrite Hn. cbn [mbind option_bind]. by rewrite Ht.
Qed.

Lemma look_iff {A} s (tables : gmap Z A) a b e m : look s tables a b e = Some m <-> exists i j k, live_vlabel s a = Some i /\ live_vlabel s b = Some j /\ live_elabel s e = Some k /\
  (generate_edge_label i j k ∉ tomb_bits (elabel_triplet_tomb_ s)) /\ tables !! generate_edge_label i j k = Some m.
Proof.
  unfold look. split.
  - destruct (live_vlabel s a) as [i|], (live_vlabel s b) as [j|], (live_elabel s e) as [k|]; try done. cbn [mbind option_bind]. case_bool_decide; [done|]. by exists i, j, k.
  - intros (i & j & k & -> & -> & -> & Hb & He). cbn [mbind option_bind]. by rewrite bool_decide_eq_false_2.
Qed.

Lemma etype_iff s a b e m : etype s a b e = Some m <-> exists i j k, live_vlabel s a = Some i /\ live_vlabel s b = Some j /\ live_elabel s e = Some k /\
  (generate_edge_label i j k ∉ tomb_bits (elabel_triplet_tomb_ s)) /\ e_schemas_ s !! generate_edge_label i j k = Some m.
Proof. apply look_iff. Qed.

(** A type is where its names say. *)
Lemma placed_at s i j k m a b e : schema_ok s -> e_schemas_ s !! generate_edge_label i j k = Some m ->
  vget (vlabel_indexer_ s) i = Some a -> vget (vlabel_indexer_ s) j = Some b -> vget (elabel_indexer_ s) k = Some e ->
  src_label_name m = a /\ dst_label_name m = b /\ edge_label_name m = e.
Proof.
  intros Hs Hm Ha Hb He. destruct (so_edges _ Hs _ _ Hm) as (_ & (i' & j' & k' & Hkey & H1 & H2 & H3) & _).
  destruct (edge_number_inj i j k i' j' k') as (-> & -> & ->); try done; eauto using vlabel_small, elabel_small. split_and!; congruence.
Qed.

(** The numbers of the labels after a compaction. *)
Definition kept (names : list string) (tomb : list bool) (new : list string) : Prop :=
  new `sublist_of` names /\ forall name, name ∈ new <-> exists i, vget names i = Some name /\ vget tomb i = Some false.

Lemma kept_find names tomb new name : NoDup names -> kept names tomb new -> is_Some (find_name new name) <-> is_Some (live_id names tomb name).
Proof.
  intros Hd [_ Hk]. transitivity (name ∈ new).
  - rewrite <-not_eq_None_Some, find_name_none. split; [apply dec_stable|auto].
  - rewrite Hk. split; [intros (i & H); exists i; by apply live_id_iff|intros [i H%live_id_iff]; [by exists i|done]].
Qed.

Lemma kept_labels_ok {A} names tomb new (l : list A) : labels_ok names tomb -> kept names tomb new -> vlen l = vlen new -> labels_ok new (map (fun _ => false) l).
Proof.
  intros (Hd & Ht & Hn) [Hsub _] Hl. split; [by eapply sublist_NoDup|]. split; [unfold vlen in *; rewrite length_map; lia|].
  apply sublist_length in Hsub. unfold vlen in *. lia.
Qed.

Lemma vget_false {A} (l : list A) i : 0 <= i < vlen l -> vget (map (fun _ => false) l) i = Some false.
Proof. intros Hi. destruct (vget_is l i Hi) as [x Hx]. apply vget_iff in Hx as [_ Hx]. apply vget_iff. split; [lia|]. change (@map A bool) with (@fmap list _ A bool). by rewrite list_lookup_fmap, Hx. Qed.

Section compaction.
Context (s : SchemaState) (Hs : schema_ok s) (vl el : list string).
Context (Hvl : kept (vlabel_indexer_ s) (vlabel_tomb_ s) vl) (Hel : kept (elabel_indexer_ s) (elabel_tomb_ s) el).

Definition new_number (key : Z) (m : EdgeSchema) : option Z :=
  if bool_decide (key ∈ tomb_bits (elabel_triplet_tomb_ s)) then None
  else i ← find_name vl (src_label_name m); j ← find_name vl (dst_label_name m); k ← find_name el (edge_label_name m); Some (generate_edge_label i j k).

Lemma dead_find names tomb new name i : labels_ok names tomb -> kept names tomb new -> vget names i = Some name ->
  (vget tomb i = Some true /\ find_name new name = None) \/ (vget tomb i = Some false /\ is_Some (find_name new name)).
Proof.
  intros (Hd & Ht & _) Hk Hn. destruct (vget_is tomb i) as [t Htt]; [apply vget_lt in Hn; lia|]. destruct t; [left|right]; (split; [done|]).
  - apply eq_None_not_Some. rewrite kept_find by done. intros [j [Hj Hf]%live_id_iff]; [|done]. assert (j = i) as -> by (apply find_name_iff in Hj, Hn; [congruence|done..]). congruence.
  - apply (kept_find _ _ _ _ Hd Hk). exists i. by apply live_id_iff.
Qed.

Lemma compact_triplet_spec key m : e_schemas_ s !! key = Some m -> compact_triplet s vl el key = Some (Returned (new_number key m)).
Proof.
  intros Hm. destruct (so_edges _ Hs _ _ Hm) as (_ & (i & j & k & Hkey & H1 & H2 & H3) & Hr).
  pose proof (vlabel_small _ _ _ Hs H1). pose proof (vlabel_small _ _ _ Hs H2). pose proof (elabel_small _ _ _ Hs H3).
  unfold compact_triplet. rewrite Hkey, parse_generate, H1, H2, H3 by lia. unfold edge_triplet_valid. cbv zeta. rewrite <-Hkey, (proj2 (Z.ltb_lt _ _)), tomb_get_ok by lia.
  cbn [mbind option_bind]. unfold new_number, oror.
  destruct (dead_find _ _ _ _ i (so_vlabels _ Hs) Hvl H1) as [[-> ->]|[-> [i' ->]]]; cbn [mbind option_bind]; [by case_bool_decide|].
  destruct (dead_find _ _ _ _ j (so_vlabels _ Hs) Hvl H2) as [[-> ->]|[-> [j' ->]]]; cbn [mbind option_bind]; [by case_bool_decide|].
  destruct (dead_find _ _ _ _ k (so_elabels _ Hs) Hel H3) as [[-> ->]|[-> [k' ->]]]; cbn [mbind option_bind]; [by case_bool_decide|].
  by case_bool_decide.
Qed.

Lemma kept_small new names tomb name i : labels_ok names tomb -> kept names tomb new -> find_name new name = Some i -> 0 <= i <= 255.
Proof. intros (_ & _ & Hn) [Hsub%sublist_length _] Hi%find_name_range. unfold vlen in *. lia. Qed.

(** The types that stay, under the new numbers. *)
Lemma new_number_iff key m n : new_number key m = Some n <-> (key ∉ tomb_bits (elabel_triplet_tomb_ s)) /\ exists i j k, n = generate_edge_label i j k /\
  find_name vl (src_label_name m) = Some i /\ find_name vl (dst_label_name m) = Some j /\ find_name el (edge_label_name m) = Some k /\
  0 <= i <= 255 /\ 0 <= j <= 255 /\ 0 <= k <= 255.
Proof.
  unfold new_number. case_bool_decide as Hb; [naive_solver|]. split; [|by intros (_ & i & j & k & -> & -> & -> & -> & _)].
  destruct (find_name vl (src_label_name m)) as [i|] eqn:E1; [|done]. destruct (find_name vl (dst_label_name m)) as [j|] eqn:E2; [|done].
  destruct (find_name el (edge_label_name m)) as [k|] eqn:E3; [|done]. intros [= <-]. split; [done|]. exists i, j, k.
  split_and!; try done; first [by eapply kept_small; [apply (so_vlabels _ Hs)|exact Hvl|exact E1]|by eapply kept_small; [apply (so_vlabels _ Hs)|exact Hvl|exact E2]|
    by eapply kept_small; [apply (so_elabels _ Hs)|exact Hel|exact E3]].
Qed.

Lemma new_number_inj key1 key2 m1 m2 n : e_schemas_ s !! key1 = Some m1 -> e_schemas_ s !! key2 = Some m2 -> new_number key1 m1 = Some n -> new_number key2 m2 = Some n -> key1 = key2.
Proof.
  intros H1 H2 (_ & i1 & j1 & k1 & E1 & A1 & B1 & C1 & ? & ? & ?)%new_number_iff (_ & i2 & j2 & k2 & E2 & A2 & B2 & C2 & ? & ? & ?)%new_number_iff.
  destruct (edge_number_inj i1 j1 k1 i2 j2 k2) as (-> & -> & ->); [done..|congruence|]. apply find_name_inv in A1, A2, B1, B2, C1, C2.
  destruct (so_edges _ Hs _ _ H1) as (_ & (i & j & k & -> & P1 & P2 & P3) & _). destruct (so_edges _ Hs _ _ H2) as (_ & (i' & j' & k' & -> & Q1 & Q2 & Q3) & _).
  assert (src_label_name m1 = src_label_name m2 /\ dst_label_name m1 = dst_label_name m2 /\ edge_label_name m1 = edge_label_name m2) as (Ea & Eb & Ec) by (split_and!; congruence).
  rewrite <-Ea in Q1. rewrite <-Eb in Q2. rewrite <-Ec in Q3. destruct (so_vlabels _ Hs) as (Hd & _). destruct (so_elabels _ Hs) as (Hde & _).
  apply find_name_iff in P1, P2, P3, Q1, Q2, Q3; [|done..]. by simplify_eq.
Qed.

(** The fold over the types. *)
Lemma compact_types : exists r, compact_triplets s vl el (map_to_list (e_schemas_ s)) (∅, 0) = Some (Returned r) /\ 0 <= snd r /\
  (forall n m, fst r !! n = Some m -> n <= snd r) /\ forall n m, fst r !! n = Some m <-> exists key, e_schemas_ s !! key = Some m /\ new_number key m = Some n.
Proof.
  set (ren := fun key => m ← e_schemas_ s !! key; new_number key m).
  assert (forall key, key ∈ (map_to_list (e_schemas_ s)).*1 -> exists m, e_schemas_ s !! key = Some m /\ ren key = new_number key m) as Hkeys.
  { intros key ([key' m] & -> & Hin%elem_of_map_to_list)%list_elem_of_fmap. exists m. unfold ren. cbn [fst]. by rewrite Hin. }
  destruct (compact_triplets_wp s vl el ren (map_to_list (e_schemas_ s)) [] (∅, 0)) as (r & Hr & H1 & H2 & H3).
  - intros key m Hin%elem_of_map_to_list. rewrite (compact_triplet_spec key m) by done. unfold ren. by rewrite Hin.
  - apply NoDup_fst_map_to_list.
  - intros k1 k2 n (m1 & E1 & ->)%Hkeys (m2 & E2 & ->)%Hkeys. by apply (new_number_inj k1 k2 m1 m2).
  - split; [|split; [|done]]; cbn [fst snd]; intros n m; rewrite ?lookup_empty; [|done]. split; [done|]. intros (key & Hin & _). by apply elem_of_nil in Hin.
  - exists r. split; [done|]. split; [done|]. split; [done|]. intros n m. rewrite H1. cbn [app]. setoid_rewrite elem_of_map_to_list. unfold ren.
    split; intros (key & Hm & Hn); exists key; (split; [done|]); rewrite Hm in *; done.
Qed.
End compaction.

Lemma live_id_kept {A} new (l : list A) name i : NoDup new -> vlen l = vlen new -> live_id new (map (fun _ => false) l) name = Some i <-> find_name new name = Some i.
Proof.
  intros Hd Hl. rewrite live_id_iff, find_name_iff by done. split; [naive_solver|]. intros Hi. split; [done|]. apply vget_false. rewrite Hl. by eapply vget_lt.
Qed.

Lemma vget_map_iff {A B} (f : A -> B) (l : list A) i y : vget (map f l) i = Some y <-> exists x, vget l i = Some x /\ y = f x.
Proof.
  change (@map A B) with (@fmap list _ A B). rewrite vget_iff, list_lookup_fmap_Some. setoid_rewrite vget_iff. naive_solver.
Qed.

Lemma vtype_iff s label m : schema_ok s -> vtype s label = Some m <-> exists i, vget (vlabel_indexer_ s) i = Some label /\ vget (vlabel_tomb_ s) i = Some false /\ vget (v_schemas_ s) i = Some (Some m).
Proof.
  intros Hs. destruct (so_vlabels _ Hs) as (Hd & _). unfold vtype. split.
  - destruct (live_vlabel s label) as [i|] eqn:Ei; [|done]. apply live_id_iff in Ei as [Hn Ht]; [|done]. cbn [mbind option_bind]. intros Hm. exists i. split_and!; [done|done|].
    destruct (vget (v_schemas_ s) i) as [x|]; [|done]. cbn [mbind option_bind] in Hm. by subst x.
  - intros (i & Hn & Ht & Hm). unfold live_vlabel. rewrite (proj2 (live_id_iff _ _ label i Hd)) by done. cbn [mbind option_bind]. by rewrite Hm.
Qed.

Lemma pairs_at {A} (vs : list (string * A)) i name x : NoDup (map fst vs) -> (name, x) ∈ vs -> vget (map fst vs) i = Some name -> vget (map snd vs) i = Some x.
Proof.
  intros Hd Hin Hi. apply vget_map_iff in Hi as ([n y] & Hy & ->). apply vget_map_iff. exists (n, y). split; [done|]. cbn [fst snd] in *.
  apply list_elem_of_lookup in Hin as [q Hq]. apply vget_iff in Hy as [Hi Hy]. assert (q = Z.to_nat i) as ->; [|congruence].
  change (@map (string * A) string) with (@fmap list _ (string * A) string) in Hd. eapply (NoDup_lookup _ _ _ n Hd); rewrite list_lookup_fmap; [by rewrite Hq|by rewrite Hy].
Qed.

(** The compaction of a schema. *)
Section compacted.
Context (s : SchemaState) (Hs : schema_ok s) (vs : list (string * option VertexSchema)) (es : list (string * string)) (types : gmap Z EdgeSchema) (largest : Z).
Context (Hvs : map fst vs `sublist_of` vlabel_indexer_ s)
  (Hv : forall name x, (name, x) ∈ vs <-> exists i, vget (vlabel_indexer_ s) i = Some name /\ vget (v_schemas_ s) i = Some x /\ vget (vlabel_tomb_ s) i = Some false)
  (Hel : kept (elabel_indexer_ s) (elabel_tomb_ s) (map fst es))
  (Hlargest : 0 <= largest) (Hbound : forall n m, types !! n = Some m -> n <= largest)
  (Htypes : forall n m, types !! n = Some m <-> exists key, e_schemas_ s !! key = Some m /\ new_number s (map fst vs) (map fst es) key m = Some n).

Definition compacted : SchemaState :=
  MkSchema (map fst vs) (map fst es) (map snd vs) types (map (fun _ => false) vs) (map (fun _ => false) es) (MkTomb (largest + 1) ∅).

Lemma kept_vlabels : kept (vlabel_indexer_ s) (vlabel_tomb_ s) (map fst vs).
Proof.
  split; [done|]. intros name. change (@map (string * option VertexSchema) string) with (@fmap list _ (string * option VertexSchema) string). rewrite list_elem_of_fmap. split.
  - intros ([n x] & -> & (i & H1 & _ & H3)%Hv). by exists i.
  - intros (i & H1 & H2). destruct (proj2 (so_types _ Hs) i name H1) as (m & Hm & _). exists (name, Some m). split; [done|]. apply Hv. by exists i.
Qed.

Lemma compacted_ok : schema_ok compacted.
Proof.
  pose proof kept_vlabels as Hvl. split; simpl.
  - eapply kept_labels_ok; [apply (so_vlabels _ Hs)|exact Hvl|]. unfold vlen. by rewrite length_map.
  - eapply kept_labels_ok; [apply (so_elabels _ Hs)|exact Hel|]. unfold vlen. by rewrite length_map.
  - split; [unfold vlen; by rewrite !length_map|]. intros i name ([n x] & Hi & ->)%vget_map_iff. cbn [fst].
    assert ((n, x) ∈ vs) as (i0 & H1 & H2 & H3)%Hv by by eapply vget_elem.
    destruct (proj2 (so_types _ Hs) i0 n H1) as (m & Hm & Hn & Hl & Hk). exists m. split_and!; [|done|done|auto].
    apply vget_map_iff. exists (n, x). split; [done|]. cbn [snd]. congruence.
  - intros n m Hm. pose proof (Hbound n m Hm) as Hle. apply Htypes in Hm as (key & Hkey & Hn). apply new_number_iff in Hn as (_ & i & j & k & -> & H1 & H2 & H3 & ? & ? & ?); [|done..].
    split; [by apply (so_edges _ Hs) in Hkey as (? & _)|]. split; [|split; [by apply edge_number|lia]]. exists i, j, k. split_and!; [done|by apply find_name_inv..].
  - split; simpl; [lia|]. set_solver.
Qed.

Lemma compacted_vlabel name i : live_vlabel compacted name = Some i <-> find_name (map fst vs) name = Some i.
Proof. apply live_id_kept; [apply compacted_ok|unfold vlen; by rewrite length_map]. Qed.
Lemma compacted_elabel name i : live_elabel compacted name = Some i <-> find_name (map fst es) name = Some i.
Proof. apply live_id_kept; [apply compacted_ok|unfold vlen; by rewrite length_map]. Qed.

Lemma compacted_vtype label m : vtype compacted label = Some m <-> vtype s label = Some m.
Proof.
  rewrite !vtype_iff by (done || apply compacted_ok). simpl. split.
  - intros (i & H1 & _ & ([n x] & Hi & E)%vget_map_iff). cbn [snd] in E. subst x. apply vget_map_iff in H1 as ([n' x'] & Hi' & ->). rewrite Hi in Hi'. injection Hi' as <- <-. cbn [fst].
    assert ((n, Some m) ∈ vs) as (i0 & ? & ? & ?)%Hv by by eapply vget_elem. by exists i0.
  - intros (i & H1 & H2 & H3). assert ((label, Some m) ∈ vs) as Hin by (apply Hv; by exists i). pose proof Hin as [q Hq]%list_elem_of_lookup.
    assert (vget vs (Z.of_nat q) = Some (label, Some m)) as Hq' by (apply vget_iff; rewrite Nat2Z.id; split; [lia|done]). exists (Z.of_nat q).
    split_and!; [apply vget_map_iff; by exists (label, Some m)| |apply vget_map_iff; by exists (label, Some m)]. apply vget_false. by eapply vget_lt.
Qed.

(** Tables that are renumbered like the types are under the same names. *)
Lemma compacted_look {A} (M M' : gmap Z A) a b e x : (forall key x, M !! key = Some x -> is_Some (e_schemas_ s !! key)) ->
  (forall n x, M' !! n = Some x <-> exists key m, e_schemas_ s !! key = Some m /\ M !! key = Some x /\ new_number s (map fst vs) (map fst es) key m = Some n) ->
  look compacted M' a b e = Some x <-> look s M a b e = Some x.
Proof.
  intros HM HM'. destruct (so_vlabels _ Hs) as (Hd & _). destruct (so_elabels _ Hs) as (Hde & _). rewrite !look_iff. setoid_rewrite compacted_vlabel. setoid_rewrite compacted_elabel. split.
  - intros (i & j & k & H1 & H2 & H3 & _ & Hx). apply HM' in Hx as (key & m & Hkey & Hx & Hn). apply new_number_iff in Hn as (Hb & i1 & j1 & k1 & E & A1 & A2 & A3 & ? & ? & ?); [|done|apply kept_vlabels|exact Hel].
    pose proof (kept_small _ _ _ _ _ (so_vlabels _ Hs) kept_vlabels H1). pose proof (kept_small _ _ _ _ _ (so_vlabels _ Hs) kept_vlabels H2).
    pose proof (kept_small _ _ _ _ _ (so_elabels _ Hs) Hel H3). destruct (edge_number_inj i j k i1 j1 k1) as (<- & <- & <-); [done..|].
    apply find_name_inv in H1 as H1', H2 as H2', H3 as H3', A1, A2, A3. assert (src_label_name m = a /\ dst_label_name m = b /\ edge_label_name m = e) as (Ea & Eb & Ee) by (split_and!; congruence).
    destruct (proj1 (kept_find _ _ _ a Hd kept_vlabels) ltac:(by eexists)) as [i0 L1]. destruct (proj1 (kept_find _ _ _ b Hd kept_vlabels) ltac:(by eexists)) as [j0 L2].
    destruct (proj1 (kept_find _ _ _ e Hde Hel) ltac:(by eexists)) as [k0 L3]. exists i0, j0, k0. split; [done|]. split; [done|]. split; [done|].
    apply live_id_iff in L1 as [L1 _], L2 as [L2 _], L3 as [L3 _]; [|done..].
    destruct (so_edges _ Hs _ _ Hkey) as (_ & (i2 & j2 & k2 & -> & P1 & P2 & P3) & _). rewrite Ea in P1. rewrite Eb in P2. rewrite Ee in P3.
    apply find_name_iff in L1, L2, L3, P1, P2, P3; [|done..]. by simplify_eq.
  - intros (i & j & k & L1 & L2 & L3 & Hb & Hx). pose proof (HM _ _ Hx) as [m Hm]. pose proof L1 as [N1 _]%live_id_iff; [|done]. pose proof L2 as [N2 _]%live_id_iff; [|done]. pose proof L3 as [N3 _]%live_id_iff; [|done].
    destruct (placed_at s i j k m a b e Hs Hm N1 N2 N3) as (Ea & Eb & Ee).
    destruct (proj2 (kept_find _ _ _ a Hd kept_vlabels) ltac:(by eexists)) as [i0 F1]. destruct (proj2 (kept_find _ _ _ b Hd kept_vlabels) ltac:(by eexists)) as [j0 F2].
    destruct (proj2 (kept_find _ _ _ e Hde Hel) ltac:(by eexists)) as [k0 F3]. exists i0, j0, k0. split_and!; [done|done|done|set_solver|]. apply HM'. exists (generate_edge_label i j k), m.
    split; [done|]. split; [done|]. unfold new_number. rewrite bool_decide_eq_false_2 by done. by rewrite Ea, Eb, Ee, F1, F2, F3.
Qed.
Lemma compacted_etype a b e m : etype compacted a b e = Some m <-> etype s a b e = Some m.
Proof.
  apply compacted_look; [by intros key x ->; eexists|]. intros n x. simpl. rewrite Htypes. split; [intros (key & H1 & H2); by exists key, x|].
  intros (key & m1 & H1 & H2 & H3). exists key. split; congruence.
Qed.
End compacted.

(** A schema without deleted labels, as the graph builder needs it. *)
Definition tight (sch : Schema) : Prop :=
  no_tombs sch /\ forall key, key ∈ e_schemas sch ->
    let '(src, dst, _) := parse_edge_label key in 0 <= src < vertex_label_num sch /\ 0 <= dst < vertex_label_num sch.

Lemma filter_dead {A} (l : list A) : filter (fun b => b = true) (map (fun _ => false) l) = [].
Proof. induction l as [|x l IH]; [done|]. cbn [map]. by rewrite filter_cons_False by congruence. Qed.

Lemma tight_of {A} s (l : list A) : schema_ok s -> vlabel_tomb_ s = map (fun _ => false) l -> tight (visible_schema s).
Proof.
  intros Hs Ht. destruct (so_vlabels _ Hs) as (_ & Hlen & Hn). pose proof (vlen_nonneg (vlabel_indexer_ s)) as H0.
  assert (vertex_label_num (visible_schema s) = vlen (vlabel_indexer_ s)) as Hnum.
  { unfold vertex_label_num, tomb_count. simpl. rewrite Ht, filter_dead. unfold to_u8. change (vlen []) with 0. rewrite Z.sub_0_r, Z.mod_small; lia. }
  split.
  - split; [unfold vlen in *; simpl; lia|]. split; [|simpl; lia]. simpl. rewrite Ht. apply Forall_forall. intros b. change (@map A bool) with (@fmap list _ A bool). intros (x & -> & _)%list_elem_of_fmap. done.
  - intros key Hin. simpl in Hin. change (@map (Z * EdgeSchema) Z) with (@fmap list _ (Z * EdgeSchema) Z) in Hin.
    apply list_elem_of_fmap in Hin as ([key' m] & -> & Hm%elem_of_map_to_list). destruct (so_edges _ Hs _ _ Hm) as (_ & (i & j & k & E & H1 & H2 & H3) & _). cbn [fst]. rewrite E, Hnum.
    pose proof (vlabel_small _ _ _ Hs H1). pose proof (vlabel_small _ _ _ Hs H2). pose proof (elabel_small _ _ _ Hs H3). rewrite parse_generate by lia.
    apply vget_lt in H1, H2. done.
Qed.

(** The result of the compaction, part by part. *)
Record compacts s (vs : list (string * option VertexSchema)) (es : list (string * string)) (types : gmap Z EdgeSchema) (largest : Z) : Prop := {
  cs_result : compact_schema s = Some (Returned (compacted vs es types largest));
  cs_labels : live_labels (vlabel_indexer_ s) (v_schemas_ s) (vlabel_tomb_ s) = Some vs;
  cs_sub : map fst vs `sublist_of` vlabel_indexer_ s;
  cs_vertices name x : (name, x) ∈ vs <-> exists i, vget (vlabel_indexer_ s) i = Some name /\ vget (v_schemas_ s) i = Some x /\ vget (vlabel_tomb_ s) i = Some false;
  cs_edges : kept (elabel_indexer_ s) (elabel_tomb_ s) (map fst es);
  cs_largest : 0 <= largest /\ forall n m, types !! n = Some m -> n <= largest;
  cs_types n m : types !! n = Some m <-> exists key, e_schemas_ s !! key = Some m /\ new_number s (map fst vs) (map fst es) key m = Some n
}.

Lemma compacts_exists s : schema_ok s -> exists vs es types largest, compacts s vs es types largest.
Proof.
  intros Hs. destruct (so_vlabels _ Hs) as (Hd & Ht & _). destruct (so_elabels _ Hs) as (Hde & Hte & _). destruct (so_types _ Hs) as [Hl _].
  destruct (proj1 (wp_exists _ _) (live_labels_wp (vlabel_indexer_ s) (v_schemas_ s) (vlabel_tomb_ s) Hl Ht)) as (vs & Evs & Hsub & Hv).
  destruct (proj1 (wp_exists _ _) (live_labels_wp (elabel_indexer_ s) (elabel_indexer_ s) (elabel_tomb_ s) eq_refl Hte)) as (es & Ees & Hsube & He).
  assert (kept (elabel_indexer_ s) (elabel_tomb_ s) (map fst es)) as Hel.
  { split; [done|]. intros name. change (@map (string * string) string) with (@fmap list _ (string * string) string). rewrite list_elem_of_fmap. split.
    - intros ([n x] & -> & (i & H1 & _ & H3)%He). by exists i.
    - intros (i & H1 & H2). exists (name, name). split; [done|]. apply He. by exists i. }
  destruct (compact_types s Hs (map fst vs) (map fst es) (kept_vlabels s Hs vs Hsub Hv) Hel) as ([types largest] & Ect & H0 & Hb & Htypes). cbn [fst snd] in *.
  exists vs, es, types, largest. split; try done. unfold compact_schema. rewrite Evs, Ees. cbn [mbind option_bind]. cbv zeta.
  rewrite (bool_decide_eq_true_2 _ (sublist_NoDup _ _ Hd Hsub)), (bool_decide_eq_true_2 _ (sublist_NoDup _ _ Hde Hsube)). cbn [andb negb]. by rewrite Ect.
Qed.

Lemma compacts_ok s vs es types largest : schema_ok s -> compacts s vs es types largest -> schema_ok (compacted vs es types largest).
Proof. intros Hs [H1 H2 H3 H4 H5 [H6 H7] H8]. by eapply compacted_ok. Qed.

Lemma compacted_schema s : schema_ok s -> exists s', compact_schema s = Some (Returned s') /\ schema_ok s' /\
  vlabel_indexer_ s' `sublist_of` vlabel_indexer_ s /\ elabel_indexer_ s' `sublist_of` elabel_indexer_ s /\
  (forall label, vtype s' label = vtype s label) /\ (forall src dst edge, etype s' src dst edge = etype s src dst edge) /\ tight (visible_schema s').
Proof.
  intros Hs. destruct (compacts_exists s Hs) as (vs & es & types & largest & Hc). pose proof (compacts_ok s vs es types largest Hs Hc) as Hok. destruct Hc as [Hr Hlive Hsub Hv Hel [H0 Hb] Htypes].
  exists (compacted vs es types largest). split; [done|]. split; [done|]. split; [done|]. split; [apply Hel|].
  split; [intros label; apply option_eq; intros m; by apply compacted_vtype|]. split; [intros a b e; apply option_eq; intros m; by apply compacted_etype|]. by apply (tight_of _ vs).
Qed.

(** ** Reachable schemas *)

Inductive schema_op :=
  | OpAddVertexLabel (label : string) (types : list DataType) (names : list string) (primary_key : list (DataType * string * Z)) (defaults : list Property)
  | OpAddEdgeLabel (src dst edge : string) (types : list DataType) (names : list string) (oe ie : EdgeStrategy) (oe_mutable ie_mutable sort : bool) (defaults : list Property)
  | OpDeleteVertexLabel (label : Z) (is_soft : bool)
  | OpDeleteEdgeLabel (label : string) (is_soft : bool)
  | OpDeleteEdgeTriplet (src dst edge : Z) (is_soft : bool)
  | OpRevertVertexLabel (label : string)
  | OpRevertEdgeLabel (label : Z)
  | OpRevertTriplet (src dst edge : Z)
  | OpAddVertexProperties (label : string) (names : list string) (types : list DataType) (defaults : list Property)
  | OpRenameVertexProperties (label : string) (names renames : list string)
  | OpDeleteVertexProperties (label : string) (names : list string) (is_soft : bool)
  | OpRevertVertexProperties (label : string) (names : list string)
  | OpAddEdgeProperties (src dst edge : string) (names : list string) (types : list DataType) (defaults : list Property)
  | OpRenameEdgeProperties (src dst edge : string) (names renames : list string)
  | OpDeleteEdgeProperties (src dst edge : string) (names : list string) (is_soft : bool)
  | OpRevertEdgeProperties (src dst edge : string) (names : list string)
  | OpCompact.

Definition schema_exec s (op : schema_op) : option (outcome unit * SchemaState) :=
  match op with
  | OpAddVertexLabel label types names pk ds => AddVertexLabel s label types names pk ds
  | OpAddEdgeLabel a b e types names oe ie om im sort ds => AddEdgeLabel s a b e types names oe ie om im sort ds
  | OpDeleteVertexLabel label is_soft => returns (delete_vertex_label s label is_soft)
  | OpDeleteEdgeLabel label is_soft => delete_edge_label_all s label is_soft
  | OpDeleteEdgeTriplet src dst edge is_soft => returns (delete_edge_triplet s src dst edge is_soft)
  | OpRevertVertexLabel label => revert_delete_vertex_label s label
  | OpRevertEdgeLabel label => returns (revert_delete_edge_label s label)
  | OpRevertTriplet src dst edge => returns (revert_delete_triplet s src dst edge)
  | OpAddVertexProperties label names types ds => AddVertexProperties s label names types ds
  | OpRenameVertexProperties label names renames => RenameVertexProperties s label names renames
  | OpDeleteVertexProperties label names is_soft => DeleteVertexProperties s label names is_soft
  | OpRevertVertexProperties label names => RevertDeleteVertexProperties s label names
  | OpAddEdgeProperties a b e names types ds => AddEdgeProperties s a b e names types ds
  | OpRenameEdgeProperties a b e names renames => RenameEdgeProperties s a b e names renames
  | OpDeleteEdgeProperties a b e names is_soft => DeleteEdgeProperties s a b e names is_soft
  | OpRevertEdgeProperties a b e names => RevertDeleteEdgeProperties s a b e names
  | OpCompact => r ← compact_schema s; Some (match r with Returned s' => (Returned tt, s') | Thrown => (Thrown, s) end)
  end.

(** There is a number left for the label. *)
Definition has_room (names : list string) (label : string) : Prop := label ∈ names \/ vlen names < 255.

(** What the callers see to. *)
Definition schema_pre s (op : schema_op) : Prop :=
  match op with
  | OpAddVertexLabel label types names pk ds =>
      has_room (vlabel_indexer_ s) label /\ match new_vertex_schema label types names pk ds with Returned m => vertex_ok m | Thrown => False end
  | OpAddEdgeLabel a b e types names oe ie om im sort ds =>
      a ∈ vlabel_indexer_ s /\ b ∈ vlabel_indexer_ s /\ has_room (elabel_indexer_ s) e /\
      match new_edge_schema a b e sort im om oe ie types names ds with Some (Returned m) => edge_ok m | _ => False end
  | OpDeleteVertexLabel label _ => 0 <= label < vlen (vlabel_indexer_ s)
  | OpDeleteEdgeTriplet src dst edge _ => 0 <= src <= 255 /\ 0 <= dst <= 255 /\ 0 <= edge <= 255
  | OpRevertVertexLabel label => forall i m, vget (vlabel_indexer_ s) i = Some label -> vget (v_schemas_ s) i = Some (Some m) -> vertex_empty m = false
  | OpRevertEdgeLabel label => 0 <= label < vlen (elabel_indexer_ s)
  | OpRevertTriplet src dst edge => 0 <= src <= 255 /\ 0 <= dst <= 255 /\ 0 <= edge < vlen (elabel_indexer_ s)
  | OpAddVertexProperties _ names types ds | OpAddEdgeProperties _ _ _ names types ds => vlen types = vlen names /\ vlen ds = vlen names
  | OpRenameVertexProperties _ names renames | OpRenameEdgeProperties _ _ _ names renames => vlen renames = vlen names
  | _ => True
  end.

Inductive schema_reachable : SchemaState -> Prop :=
  | reach_new : schema_reachable new_schema
  | reach_op s op r s' : schema_reachable s -> schema_pre s op -> schema_exec s op = Some (r, s') -> schema_reachable s'.

Lemma wp_returns {A} (m : option A) (Q : A -> Prop) : wp m Q -> wp (returns m) (fun r => Q (snd r)).
Proof. intros H. unfold returns. apply wp_bind. by destruct m. Qed.

Lemma elem_find names x : x ∈ names -> exists i, find_name names x = Some i.
Proof. intros Hx. destruct (find_name names x) as [i|] eqn:E; [by exists i|]. by apply find_name_none in E. Qed.

Lemma schema_exec_ok s op : schema_ok s -> schema_pre s op -> wp (schema_exec s op) (fun r => schema_ok (snd r)).
Proof.
  intros Hs Hpre. destruct op; cbn [schema_exec schema_pre] in *.
  - destruct Hpre as [Hroom Hm]. destruct (new_vertex_schema _ _ _ _ _) as [m|] eqn:E; [|done]. eapply wp_mono; [by eapply AddVertexLabel_ok|]. by intros r [_ H].
  - destruct Hpre as ([i Hi]%elem_find & [j Hj]%elem_find & Hroom & Hm). destruct (new_edge_schema _ _ _ _ _ _ _ _ _ _ _) as [[m|]|] eqn:E; [|done..].
    eapply wp_mono; [by eapply (AddEdgeLabel_spec s src dst edge types names oe ie oe_mutable ie_mutable sort defaults m i j)|]. by intros r (_ & H & _).
  - by apply wp_returns, delete_vertex_label_ok.
  - by apply delete_edge_label_all_ok.
  - destruct Hpre as (? & ? & ?). by apply wp_returns, delete_edge_triplet_ok.
  - apply revert_vertex_ok; [done|]. intros i m Hi%find_name_inv Hm. specialize (Hpre i m Hi Hm). unfold vertex_empty, primary_key_name in *.
    destruct (primary_keys m) as [|[[ty name] n] l]; [done|]. by exists name.
  - by apply wp_returns, revert_edge_ok.
  - destruct Hpre as (? & ? & ?). by apply wp_returns, revert_triplet_ok.
  - destruct Hpre. apply on_vertex_ok; [done|]. intros m Hm. by apply vertex_add_ok.
  - apply on_vertex_ok; [done|]. intros m Hm. by apply wp_returns, vertex_rename_ok.
  - apply on_vertex_ok; [done|]. intros m Hm. by apply vertex_delete_ok.
  - apply on_vertex_ok; [done|]. intros m Hm. by apply wp_returns, vertex_revert_ok.
  - destruct Hpre. apply on_edge_ok; [done|by apply edge_ids_wp|]. intros m Hm. by apply edge_add_ok.
  - apply on_edge_ok; [done|by apply edge_ids_wp|]. intros m Hm. by apply edge_rename_ok.
  - apply on_edge_ok; [done|apply edge_ids_internal_wp|]. intros m Hm. by apply wp_returns, edge_delete_ok.
  - apply on_edge_ok; [done|by apply edge_ids_wp|]. intros m Hm. by apply edge_revert_ok.
  - destruct (compacted_schema s Hs) as (s' & -> & Hok & _). by apply wp_ret.
Qed.

Lemma reachable_ok s : schema_reachable s -> schema_ok s.
Proof.
  induction 1 as [|s op r s' _ IH Hpre He]; [apply new_schema_ok|]. pose proof (schema_exec_ok s op IH Hpre) as Hw. by rewrite He in Hw.
Qed.

(** ** Deletion and what follows *)

Lemma delete_edge_triplet_spec s a b e i j k m is_soft : schema_ok s -> vget (vlabel_indexer_ s) i = Some a -> vget (vlabel_indexer_ s) j = Some b ->
  vget (elabel_indexer_ s) k = Some e -> e_schemas_ s !! generate_edge_label i j k = Some m ->
  exists s1, delete_edge_triplet s i j k is_soft = Some s1 /\ schema_ok s1 /\ same_labels s s1 /\
    e_schemas_ s1 = (if is_soft then e_schemas_ s else delete (generate_edge_label i j k) (e_schemas_ s)) /\
    tomb_size (elabel_triplet_tomb_ s1) = tomb_size (elabel_triplet_tomb_ s) /\
    tomb_bits (elabel_triplet_tomb_ s1) = {[generate_edge_label i j k]} ∪ tomb_bits (elabel_triplet_tomb_ s) /\
    (is_soft = true -> elabel_tomb_ s1 = elabel_tomb_ s) /\
    (elabel_tomb_ s1 = elabel_tomb_ s \/ elabel_tomb_ s1 = vput (elabel_tomb_ s) k true /\ forall key m, e_schemas_ s1 !! key = Some m -> edge_label_name m <> e).
Proof.
  intros Hs Ha Hb He Hm. destruct (so_vlabels _ Hs) as (Hd & _). destruct (so_elabels _ Hs) as (Hde & Ht & _). destruct (placed_at s i j k m a b e Hs Hm Ha Hb He) as (_ & _ & Ee).
  pose proof (vlabel_small _ _ _ Hs Ha). pose proof (vlabel_small _ _ _ Hs Hb). pose proof (elabel_small _ _ _ Hs He).
  destruct (so_edges _ Hs _ _ Hm) as (_ & _ & Hr). destruct (tomb_set_ok _ _ (so_tomb _ Hs) Hr) as (t & Et & Hok & Hz & Hbits).
  pose proof (delete_edge_triplet_ok s i j k is_soft Hs ltac:(done) ltac:(done) ltac:(done)) as Hw. unfold delete_edge_triplet, drop_triplet in *. rewrite Hm, Et in *. cbn [mbind option_bind] in *.
  set (s0 := if is_soft then s else set_e_schemas (delete (generate_edge_label i j k) (e_schemas_ s)) s) in *.
  assert (elabel_indexer_ (set_triplet_tomb t s0) = elabel_indexer_ s /\ elabel_tomb_ (set_triplet_tomb t s0) = elabel_tomb_ s) as [Ei Ev] by by destruct is_soft.
  assert (edge_label_used (set_triplet_tomb t s0) k = false -> forall key m, e_schemas_ (set_triplet_tomb t s0) !! key = Some m -> edge_label_name m <> e) as Hunused.
  { intros Eu key m' Hm' Ee'. unfold edge_label_used in Eu. apply not_true_iff_false in Eu. apply Eu, existsb_exists. exists m'. split.
    - apply in_map_iff. exists (key, m'). split; [done|]. by apply list_elem_of_In, elem_of_map_to_list.
    - rewrite Ei, Ee', (proj2 (find_name_iff _ _ k Hde) He). by apply Z.eqb_refl. }
  destruct (edge_label_used (set_triplet_tomb t s0) k) eqn:Eu.
  - eexists. split; [done|]. split; [done|]. destruct is_soft; (split_and!; try done; by left).
  - rewrite Ev in *. rewrite vset_is in * by (rewrite Ht; by eapply vget_lt). cbn [mbind option_bind] in *. specialize (Hunused eq_refl). eexists. split; [done|]. split; [done|].
    split; [by destruct is_soft|]. split; [by destruct is_soft|]. split; [done|]. split; [done|]. split; [|by right].
    intros ->. exfalso. by apply (Hunused (generate_edge_label i j k) m).
Qed.

Lemma live_names s a b e i j k : schema_ok s -> live_vlabel s a = Some i -> live_vlabel s b = Some j -> live_elabel s e = Some k ->
  vget (vlabel_indexer_ s) i = Some a /\ vget (vlabel_indexer_ s) j = Some b /\ vget (elabel_indexer_ s) k = Some e.
Proof.
  intros Hs Ha Hb He. destruct (so_vlabels _ Hs) as (Hd & _). destruct (so_elabels _ Hs) as (Hde & _). by apply live_id_iff in Ha as [Ha _], Hb as [Hb _], He as [He _].
Qed.

(** The type is not seen any more. *)
Lemma etype_dropped s a b e i j k : live_vlabel s a = Some i -> live_vlabel s b = Some j ->
  (forall k', live_elabel s e = Some k' -> k' = k) -> generate_edge_label i j k ∈ tomb_bits (elabel_triplet_tomb_ s) -> etype s a b e = None.
Proof.
  intros Ha Hb He Hin. unfold etype, look. rewrite Ha, Hb. cbn [mbind option_bind]. destruct (live_elabel s e) as [k'|] eqn:E; [|done]. cbn [mbind option_bind].
  rewrite (He k' eq_refl). by rewrite bool_decide_eq_true_2.
Qed.

Lemma live_find names tomb name i : NoDup names -> live_id names tomb name = Some i -> find_name names name = Some i.
Proof. intros Hd [H _]%live_id_iff; [|done]. by apply find_name_iff. Qed.

Lemma same_live s s' : same_labels s s' -> live_vlabel s' = live_vlabel s.
Proof. intros (H1 & _ & H2 & _). unfold live_vlabel. by rewrite H1, H2. Qed.

(** ** Theorems *)

(** C10: [Schema::Compact] returns a schema with the names of the labels that were not
    deleted, in their order, and no tombstone; under its name every vertex type and
    every edge type is what it was, and a deleted one is still not there.  The result
    is a schema the graph builder takes. *)
Theorem compact_schema_spec s : schema_ok s -> exists s', compact_schema s = Some (Returned s') /\ schema_ok s' /\
  vlabel_indexer_ s' `sublist_of` vlabel_indexer_ s /\ elabel_indexer_ s' `sublist_of` elabel_indexer_ s /\
  (forall label, vtype s' label = vtype s label) /\ (forall src dst edge, etype s' src dst edge = etype s src dst edge) /\ tight (visible_schema s').
Proof. apply compacted_schema. Qed.

(** C9: From an empty schema, whatever is created, deleted, undone, renamed or compacted,
    the parts of the schema stay together, and every operation its caller may make
    returns without leaving a vector or a bitset or following a null pointer. *)
Theorem schema_invariant s op : schema_reachable s -> schema_pre s op ->
  schema_ok s /\ exists r s', schema_exec s op = Some (r, s') /\ schema_ok s'.
Proof.
  intros Hr%reachable_ok Hpre. split; [done|]. destruct (proj1 (wp_exists _ _) (schema_exec_ok s op Hr Hpre)) as ([r s'] & He & Hok). by exists r, s'.
Qed.

(** A soft deletion hides a vertex label with the edge types at it, or one edge type,
    and undoing it gives back the very same schema. *)
Theorem soft_delete_reverts s : schema_ok s ->
  (forall label i, live_vlabel s label = Some i -> exists s1, delete_vertex_label s i true = Some s1 /\ vtype s1 label = None /\
     (forall other edge, etype s1 label other edge = None /\ etype s1 other label edge = None) /\ revert_delete_vertex_label s1 label = Some (Returned tt, s)) /\
  (forall a b e i j k m, live_vlabel s a = Some i -> live_vlabel s b = Some j -> live_elabel s e = Some k -> etype s a b e = Some m ->
     exists s1, delete_edge_triplet s i j k true = Some s1 /\ etype s1 a b e = None /\ revert_delete_triplet s1 i j k = Some s).
Proof.
  intros Hs. destruct (so_vlabels _ Hs) as (Hd & Ht & _). destruct (so_elabels _ Hs) as (Hde & Hte & _). split.
  - intros label i Hi. pose proof Hi as [Hn Hf]%live_id_iff; [|done]. pose proof (vget_lt _ _ _ Hf) as Hr. unfold delete_vertex_label. cbn [mbind option_bind]. rewrite vset_is by done.
    eexists. split; [done|]. set (s1 := set_vlabel_tomb _ _). assert (live_vlabel s1 label = None) as Hdead.
    { unfold live_vlabel, live_id. cbn [s1 vlabel_indexer_ vlabel_tomb_ set_vlabel_tomb set_v_schemas]. rewrite (live_find _ _ _ _ Hd Hi). cbn [mbind option_bind]. by rewrite vget_vput_eq. }
    split; [unfold vtype; by rewrite Hdead|]. split; [intros other edge; unfold etype, look; rewrite Hdead; split; [done|by destruct (live_vlabel s1 other)]|].
    unfold revert_delete_vertex_label, vlabel_id_internal. cbn [s1 vlabel_indexer_ vlabel_tomb_ set_vlabel_tomb set_v_schemas]. rewrite (live_find _ _ _ _ Hd Hi).
    rewrite vget_vput_eq by done. cbn [mbind option_bind]. rewrite vset_is by (by rewrite vput_len). cbn [mbind option_bind]. do 2 f_equal.
    assert (vput (vput (vlabel_tomb_ s) i true) i false = vlabel_tomb_ s) as E by (unfold vput; rewrite list_insert_insert_eq; by apply vput_same). destruct s. unfold set_vlabel_tomb. simpl in *. by rewrite E.
  - intros a b e i j k m Ha Hb He Hm. apply etype_iff in Hm as (i' & j' & k' & Ha' & Hb' & He' & Hbit & Hm). rewrite Ha in Ha'. rewrite Hb in Hb'. rewrite He in He'. simplify_eq.
    destruct (live_names s a b e i' j' k' Hs Ha Hb He) as (Na & Nb & Ne).
    destruct (delete_edge_triplet_spec s a b e i' j' k' m true Hs Na Nb Ne Hm) as (s1 & -> & Hs1 & Hsame & Hes & Hz & Hbits & Htomb & _). specialize (Htomb eq_refl). exists s1. split; [done|]. split.
    + apply (etype_dropped s1 a b e i' j' k'); [by rewrite (same_live s s1)..| |set_solver]. destruct Hsame as (_ & H2 & _). unfold live_elabel. rewrite H2, Htomb. intros k'' Hk. unfold live_elabel in He. congruence.
    + destruct (so_edges _ Hs _ _ Hm) as (_ & _ & Hr). unfold revert_delete_triplet, revert_delete_edge_label. cbv zeta. rewrite (proj2 (Z.ltb_lt _ _)), tomb_get_ok by lia.
      cbn [mbind option_bind]. rewrite bool_decide_eq_true_2 by set_solver. unfold tomb_reset. rewrite (proj2 (Z.leb_le _ _)), (proj2 (Z.ltb_lt _ _)) by lia. cbn [mbind option_bind andb elabel_tomb_ set_triplet_tomb].
      rewrite Htomb. apply live_id_iff in He as [_ He]; [|done]. rewrite He. cbn [mbind option_bind]. f_equal. destruct Hsame as (E1 & E2 & E3 & E4).
      assert (tomb_bits (elabel_triplet_tomb_ s1) ∖ {[generate_edge_label i' j' k']} = tomb_bits (elabel_triplet_tomb_ s)) as Eb by set_solver. rewrite Eb, Hz.
      unfold set_elabel_tomb, set_triplet_tomb. cbn [vlabel_indexer_ elabel_indexer_ v_schemas_ e_schemas_ vlabel_tomb_ elabel_triplet_tomb_]. rewrite E1, E2, E3, E4, Hes. destruct s as [? ? ? ? ? ? []]. done.
Qed.

(** [AddEdgeLabel] does not replace a type that is there: after a soft deletion it
    returns and the old type, with its old properties, is seen again instead of the new
    one.  After a hard deletion the new type is seen. *)
Theorem deleted_type_returns s a b e i j k old m is_soft types names oe ie oe_mutable ie_mutable sort ds : schema_ok s ->
  live_vlabel s a = Some i -> live_vlabel s b = Some j -> live_elabel s e = Some k -> etype s a b e = Some old ->
  new_edge_schema a b e sort ie_mutable oe_mutable oe ie types names ds = Some (Returned m) -> edge_ok m ->
  exists s1 s2, delete_edge_triplet s i j k is_soft = Some s1 /\ AddEdgeLabel s1 a b e types names oe ie oe_mutable ie_mutable sort ds = Some (Returned tt, s2) /\
    schema_ok s2 /\ etype s2 a b e = Some (if is_soft then old else m).
Proof.
  intros Hs Ha Hb He Hold Hm Hok. destruct (so_vlabels _ Hs) as (Hd & _). destruct (so_elabels _ Hs) as (Hde & _).
  apply etype_iff in Hold as (i' & j' & k' & Ha' & Hb' & He' & Hbit & Hold). rewrite Ha in Ha'. rewrite Hb in Hb'. rewrite He in He'. simplify_eq.
  destruct (live_names s a b e i' j' k' Hs Ha Hb He) as (Na & Nb & Ne).
  destruct (delete_edge_triplet_spec s a b e i' j' k' old is_soft Hs Na Nb Ne Hold) as (s1 & -> & Hs1 & Hsame & Hes & _ & Hbits & _). pose proof (same_live s s1 Hsame) as Hlive.
  pose proof Hsame as (E1 & E2 & _). assert (find_name (elabel_indexer_ s) e = Some k') as Hk by (by eapply live_find).
  destruct (proj1 (wp_exists _ _) (AddEdgeLabel_spec s1 a b e types names oe ie oe_mutable ie_mutable sort ds m i' j' Hs1 ltac:(by rewrite E1; eapply live_find)
    ltac:(by rewrite E1; eapply live_find) ltac:(left; rewrite E2; eapply vget_elem; by apply find_name_inv) Hm Hok)) as ([r s2] & He2 & Hr & Hs2 & k2 & Hk2 & F1 & F2 & _ & F4 & F5 & F6 & F7).
  cbn [fst snd] in *. subst r. exists s1, s2. split; [done|]. split; [done|]. split; [done|]. assert (k2 = k') as ->. { rewrite E2 in F6. destruct F6 as [?|F6]; [congruence|]. apply find_name_none in F6. congruence. }
  apply etype_iff. exists i', j', k'. assert (live_vlabel s2 = live_vlabel s) as -> by (unfold live_vlabel in *; by rewrite F1, F2). split; [done|]. split; [done|]. split.
  - destruct (so_elabels _ Hs2) as (Hd2 & _). apply live_id_iff; [done|]. split; [by apply find_name_inv|done].
  - split; [rewrite F5; set_solver|]. rewrite F4, Hes. cbv zeta. destruct is_soft; [by rewrite Hold|]. rewrite lookup_delete_eq. by rewrite lookup_insert_eq.
Qed.

(** ** A schema *)

Fixpoint schema_run s (ops : list schema_op) : option SchemaState :=
  match ops with [] => Some s | op :: ops => '(_, s) ← schema_exec s op; schema_run s ops end.

Fixpoint run_pre s (ops : list schema_op) : Prop :=
  match ops with [] => True | op :: ops => schema_pre s op /\ match schema_exec s op with Some (_, s) => run_pre s ops | None => True end end.

Lemma run_reachable ops : forall s s', schema_reachable s -> run_pre s ops -> schema_run s ops = Some s' -> schema_reachable s'.
Proof.
  induction ops as [|op ops IH]; intros s s' Hs; [by intros _ [= <-]|]. intros [Hpre Hops] Hrun. simpl in *. destruct (schema_exec s op) as [[r s1]|] eqn:E; [|done].
  apply (IH s1); [by eapply reach_op|done|done].
Qed.

Definition add_vertex (label : string) : schema_op :=
  OpAddVertexLabel label [(kVarchar, 9)] ["name"%string] [((kInt64, 0), "id"%string, 0)] [].
Definition add_edge (src dst label : string) : schema_op :=
  OpAddEdgeLabel src dst label [(kInt32, 0)] ["since"%string] kMultiple kMultiple true true false [].

(** People, cities and shops; the cities are deleted and their number is free. *)
Definition town_ops : list schema_op :=
  [add_vertex "person"; add_vertex "city"; add_vertex "shop"; add_edge "person" "city" "lives"; add_edge "person" "shop" "buys";
   OpDeleteVertexLabel 1 true]%string.
Definition town : SchemaState := from_option id new_schema (schema_run new_schema town_ops).
Definition buys : EdgeSchema :=
  MkEdgeSchema "person" "shop" "buys" false true true kMultiple kMultiple [(kInt32, 0)] ["since"%string] [PInt32 0] [false].

Ltac schema_member := apply (bool_decide_eq_true_1 _); vm_compute; reflexivity.
Ltac schema_small := right; vm_compute; reflexivity.

Lemma town_ok : schema_ok town.
Proof.
  apply reachable_ok, (run_reachable town_ops new_schema); [constructor| |vm_compute; reflexivity]. cbn [run_pre town_ops add_vertex add_edge schema_pre].
  repeat match goal with |- context [match schema_exec ?s ?op with _ => _ end] => let x := eval vm_compute in (schema_exec s op) in change (schema_exec s op) with x; cbv iota beta end.
  split_and!; try done; try schema_small; try schema_member; try (split; [by exists 1|by eexists]); by exists 1.
Qed.

Lemma compact_schema_spec_witness : exists s', compact_schema town = Some (Returned s') /\ vlabel_indexer_ s' = ["person"; "shop"]%string /\
  etype s' "person" "shop" "buys" = Some buys /\ etype s' "person" "city" "lives" = None /\ tight (visible_schema s').
Proof.
  destruct (compact_schema_spec town town_ok) as (s' & He & _ & _ & _ & _ & Hs & Ht). exists s'. split; [exact He|]. split; [|split; [|split; [|exact Ht]]].
  - assert (fmap (fun r => match r with Returned s => vlabel_indexer_ s | Thrown => [] end) (compact_schema town) = Some ["person"; "shop"]%string) as E by (vm_compute; reflexivity).
    rewrite He in E. by injection E.
  - rewrite Hs. vm_compute. reflexivity.
  - rewrite Hs. vm_compute. reflexivity.
Defined.

Lemma schema_invariant_witness : exists r s', schema_exec new_schema (add_vertex "person") = Some (r, s') /\ schema_ok s'.
Proof.
  apply (schema_invariant new_schema (add_vertex "person") reach_new). split; [right; vm_compute; reflexivity|]. split; [by exists 1|by eexists].
Defined.

Lemma soft_delete_reverts_witness : exists s1, delete_edge_triplet town 0 2 1 true = Some s1 /\ etype s1 "person" "shop" "buys" = None /\ revert_delete_triplet s1 0 2 1 = Some town.
Proof.
  apply (proj2 (soft_delete_reverts town town_ok) "person" "shop" "buys" 0 2 1 buys)%string; vm_compute; reflexivity.
Defined.

(** The new type of the edges has no property; the old one comes back. *)
Lemma deleted_type_returns_witness : exists s1 s2, delete_edge_triplet town 0 2 1 true = Some s1 /\
  AddEdgeLabel s1 "person" "shop" "buys" [] [] kMultiple kMultiple true true false [] = Some (Returned tt, s2) /\ schema_ok s2 /\ etype s2 "person" "shop" "buys" = Some buys.
Proof.
  apply (deleted_type_returns town "person" "shop" "buys" 0 2 1 buys (MkEdgeSchema "person" "shop" "buys" false true true kMultiple kMultiple [] [] [] []) true)%string;
    [exact town_ok|vm_compute; reflexivity..|by exists 0].
Defined.
