(* ===== verification/KCore.v ===== *)
(** * Batagelj-Zaversnik k-core peeling

    [KcoreComputer::RunKCore] (extension/kcore/include/kcore_functions.h): the
    deduplicated neighbour lists, the bucket sort of the vertices by degree and
    the peeling loop over the four arrays [deg], [bin], [vert] and [pos].  The
    arrays are lists with checked access, so that [RunKCore] returns [None]
    exactly when the C++ would index outside a vector or overflow an [int]. *)
From S2P Require Import Prelude.

Section run.
Context {W : Type}.

(** The clean neighbour list of [u]: the [seen] set and [nbr[u]]. *)
Definition dedup_row (u : Z) (row : list (Z * W)) : list Z :=
  snd (fold_left (fun '(seen, out) '(v, _) =>
    if v =? u then (seen, out)
    else if decide (v ∈ seen) then (seen, out)
    else ({[v]} ∪ seen, out ++ [v])) row ((∅ : gset Z), [])).

Definition build_nbr (n : Z) (adj : list (list (Z * W))) : option (list (list Z)) :=
  for_range n (vnew n []) (fun u nbr =>
    row ← vget adj u;
    vset nbr u (dedup_row u row)).
End run.

(** [deg[v] = nbr[v].size()] and the running maximum [md]. *)
Definition init_deg (n : Z) (nbr : list (list Z)) : option (list Z * Z) :=
  for_range n (vnew n 0, 0) (fun v '(deg, md) =>
    row ← vget nbr v;
    let d := to_int (vlen row) in
    deg' ← vset deg v d;
    Some (deg', if md <? d then d else md)).

(** [vec[i]++] on an [int] vector. *)
Definition vincr (l : list Z) (i : Z) : option (list Z) :=
  x ← vget l i; x' ← i32 (x + 1); vset l i x'.

(** [bin[d]]: first a histogram, then the first slot of degree class [d]. *)
Definition count_bins (n md : Z) (deg : list Z) : option (list Z) :=
  sz ← i32 (md + 2);
  for_range n (vnew sz 0) (fun v bin => d ← vget deg v; vincr bin d).

Definition prefix_bins (md : Z) (bin : list Z) : option (list Z) :=
  m ← i32 (md + 1);
  res ← for_range m (bin, 0) (fun d '(bin, start) =>
    num ← vget bin d;
    bin' ← vset bin d start;
    start' ← i32 (start + num);
    Some (bin', start'));
  Some (fst res).

(** Fill [vert] and [pos], advancing [bin[d]] past each placed vertex. *)
Definition place_verts (n : Z) (deg bin : list Z) : option (list Z * list Z * list Z) :=
  for_range n (bin, vnew n 0, vnew n 0) (fun v '(bin, vert, pos) =>
    d ← vget deg v;
    b ← vget bin d;
    pos' ← vset pos v b;
    p ← vget pos' v;
    vert' ← vset vert p v;
    bin' ← vincr bin d;
    Some (bin', vert', pos')).

(** [for (int d = md; d >= 1; --d) bin[d] = bin[d - 1]; bin[0] = 0]. *)
Definition restore_bins (md : Z) (bin : list Z) : option (list Z) :=
  bin' ← for_range md bin (fun k bin =>
    let d := md - k in
    x ← vget bin (d - 1);
    vset bin d x);
  vset bin' 0 0.

Record peel_state := PeelState {
  ps_deg : list Z;
  ps_bin : list Z;
  ps_vert : list Z;
  ps_pos : list Z;
  ps_coreness : list Z
}.

(** The body of [for (int u : nbr[v])]. *)
Definition peel_nbr (v u : Z) (s : peel_state) : option peel_state :=
  let '(PeelState deg bin vert pos coreness) := s in
  du ← vget deg u;
  dv ← vget deg v;
  if dv <? du then
    pu ← vget pos u;
    pw ← vget bin du;
    w ← vget vert pw;
    swapped ← (if negb (u =? w) then
                 pos1 ← vset pos u pw;
                 vert1 ← vset vert pw u;
                 pos2 ← vset pos1 w pu;
                 vert2 ← vset vert1 pu w;
                 Some (pos2, vert2)
               else Some (pos, vert));
    bin' ← vincr bin du;
    d ← vget deg u;
    d' ← i32 (d - 1);
    deg' ← vset deg u d';
    Some (PeelState deg' bin' (snd swapped) (fst swapped) coreness)
  else Some s.

(** One iteration of the peeling loop. *)
Definition peel_vertex (nbr : list (list Z)) (i : Z) (s : peel_state) : option peel_state :=
  v ← vget (ps_vert s) i;
  dv ← vget (ps_deg s) v;
  coreness' ← vset (ps_coreness s) v dv;
  row ← vget nbr v;
  for_each row (PeelState (ps_deg s) (ps_bin s) (ps_vert s) (ps_pos s) coreness')
    (fun u s => peel_nbr v u s).

Definition bucket_sort (n : Z) (nbr : list (list Z)) : option peel_state :=
  dm ← init_deg n nbr;
  let '(deg, md) := dm in
  hist ← count_bins n md deg;
  starts ← prefix_bins md hist;
  placed ← place_verts n deg starts;
  let '(bin, vert, pos) := placed in
  bin' ← restore_bins md bin;
  Some (PeelState deg bin' vert pos (vnew n 0)).

(** [RunKCore] on a [coreness] vector that [Compute] has set to [n] zeros. *)
Definition RunKCore {W} (n : Z) (adj : list (list (Z * W))) : option (list Z) :=
  nbr ← build_nbr n adj;
  s0 ← bucket_sort n nbr;
  s ← for_range n s0 (peel_vertex nbr);
  Some (ps_coreness s).

(** ** The arrays *)

(** Vertices of degree below [d], and those of degree [d] among the first [k]. *)
Definition cnt_lt (n : Z) (deg : list Z) (d : Z) : Z := sumz (fun u => ind (vat deg u <? d)) n.
Definition cnt_eq (k : Z) (deg : list Z) (d : Z) : Z := sumz (fun u => ind (vat deg u =? d)) k.

(** The invariant of the four arrays: [vert] and [pos] are inverse
    permutations, [vert] lists the vertices by increasing degree, and [bin[d]]
    is the first slot of the vertices of degree at least [d]. *)
Record arrays_ok (n md : Z) (s : peel_state) : Prop := {
  ao_md : 0 <= md <= n;
  ao_deg : vlen (ps_deg s) = n;
  ao_bin : vlen (ps_bin s) = md + 2;
  ao_vert : vlen (ps_vert s) = n;
  ao_pos : vlen (ps_pos s) = n;
  ao_vert_pos j : 0 <= j < n ->
    0 <= vat (ps_vert s) j < n /\ vat (ps_pos s) (vat (ps_vert s) j) = j;
  ao_pos_vert u : 0 <= u < n ->
    0 <= vat (ps_pos s) u < n /\ vat (ps_vert s) (vat (ps_pos s) u) = u;
  ao_deg_range u : 0 <= u < n -> 0 <= vat (ps_deg s) u <= md;
  ao_sorted j k : 0 <= j <= k -> k < n ->
    vat (ps_deg s) (vat (ps_vert s) j) <= vat (ps_deg s) (vat (ps_vert s) k);
  ao_bins d : 0 <= d <= md -> vat (ps_bin s) d = cnt_lt n (ps_deg s) d
}.

Lemma cnt_lt_range n deg d : 0 <= n -> 0 <= cnt_lt n deg d <= n.
Proof.
  intros Hn. unfold cnt_lt. enough (0 <= cnt_lt n deg d <= n * 1) by (unfold cnt_lt in *; lia).
  apply sumz_bound; [done|]. intros. unfold ind. case_match; lia.
Qed.

(** In sorted order the vertices of degree below [d] come first. *)
Lemma arrays_segment n md s j d :
  arrays_ok n md s -> 0 <= j < n ->
  (vat (ps_deg s) (vat (ps_vert s) j) < d <-> j < cnt_lt n (ps_deg s) d).
Proof.
  intros Hok Hj. unfold cnt_lt.
  rewrite <-(sumz_perm (fun u => ind (vat (ps_deg s) u <? d)) (vat (ps_vert s))).
  2: { apply inj_perm_seqZ; [intros i Hi; apply (ao_vert_pos _ _ _ Hok); done|].
       intros a b Ha Hb Hab.
       rewrite <-(proj2 (ao_vert_pos _ _ _ Hok a Ha)), Hab. by apply (ao_vert_pos _ _ _ Hok). }
  rewrite <-Z.ltb_lt.
  apply (sumz_initial_segment (fun j => vat (ps_deg s) (vat (ps_vert s) j) <? d)); [done|].
  intros a b Ha Hb Hlt. pose proof (ao_sorted _ _ _ Hok a b Ha Hb). lia.
Qed.

(** Lowering the degree of [u] by one moves it out of one class only. *)
Lemma cnt_lt_decr n deg u d :
  0 <= u < n -> vlen deg = n ->
  cnt_lt n (vput deg u (vat deg u - 1)) d =
  cnt_lt n deg d + ind (d =? vat deg u).
Proof.
  intros Hu Hlen. unfold cnt_lt.
  rewrite (sumz_update _ (fun x => ind (vat deg x <? d)) n u Hu).
  - rewrite vat_vput_eq by lia. unfold ind. f_equal.
    destruct (Z.ltb_spec (vat deg u - 1) d), (Z.ltb_spec (vat deg u) d), (Z.eqb_spec d (vat deg u)); lia.
  - intros i Hi Hne. by rewrite vat_vput_ne by lia.
Qed.

(** Exchanging [u] with the first vertex [w] of its class and lowering its
    degree keeps the arrays; [pu] and [pw] are the slots of [u] and [w]. *)
Section exchange.
Context (n md : Z) (deg bin vert pos coreness vert' pos' : list Z) (u w du pu pw : Z).
Let s := PeelState deg bin vert pos coreness.
Context (Hok : arrays_ok n md s) (Hu : 0 <= u < n).
Context (Edu : vat deg u = du) (Epu : vat pos u = pu) (Epw : vat bin du = pw)
        (Ew : vat vert pw = w) (Hdu0 : 0 < du).
Context (Hvlen : vlen vert' = n) (Hplen : vlen pos' = n).
Context (Hvert' : forall j, 0 <= j < n ->
  vat vert' j = if decide (j = pw) then u else if decide (j = pu) then w else vat vert j).
Context (Hpos' : forall x, 0 <= x < n ->
  vat pos' x = if decide (x = u) then pw else if decide (x = w) then pu else vat pos x).

Lemma exchange_slots :
  0 <= pw <= pu /\ pu < n /\ 0 <= w < n /\ vat deg w = du /\ du <= md /\
  vat vert pu = u /\ vat pos w = pw /\ pw = cnt_lt n deg du.
Proof using Hok Hu Edu Epu Epw Ew.
  destruct (ao_pos_vert _ _ _ Hok u Hu) as [Hpu Hvpu]; simpl in *.
  pose proof (ao_deg_range _ _ _ Hok u Hu) as Hdu; simpl in *.
  rewrite Epu in *. rewrite Edu in *.
  assert (pw = cnt_lt n deg du) as Hpw by (rewrite <-Epw; by apply (ao_bins _ _ _ Hok)).
  pose proof (cnt_lt_range n deg du) as Hr.
  assert (pw <= pu) as Hle.
  { destruct (arrays_segment n md s pu du Hok Hpu) as [_ H]; simpl in *.
    rewrite Hvpu, Edu in H. lia. }
  assert (0 <= pw < n) as Hpwr by lia.
  destruct (ao_vert_pos _ _ _ Hok pw Hpwr) as [Hw Hpw']; simpl in *.
  destruct (arrays_segment n md s pw du Hok Hpwr) as [H _]; simpl in *.
  pose proof (ao_sorted _ _ _ Hok pw pu ltac:(lia) ltac:(lia)) as Hs; simpl in *.
  rewrite Hvpu, Edu, Ew in Hs. rewrite Ew in *. split_and!; try done; lia.
Qed.

Lemma exchange_degree j : 0 <= j < n ->
  vat (vput deg u (du - 1)) (vat vert' j) =
  if decide (j = pw) then du - 1 else vat deg (vat vert j).
Proof using Hok Hu Hvert' Edu Epu Epw Ew.
  intros Hj. destruct exchange_slots as (? & ? & Hw & Hdw & ? & Hvpu & Hpww & ?).
  pose proof (ao_deg _ _ _ Hok) as Hl. pose proof (ao_vert_pos _ _ _ Hok j Hj) as [Hvj Hpj].
  simpl in *. rewrite Hvert' by done.
  destruct (decide (j = pw)) as [Hjw|Hjw]; [by rewrite vat_vput_eq by lia|].
  destruct (decide (j = pu)) as [->|Hju].
  - rewrite vat_vput_ne; [by rewrite Hvpu, Hdw, Edu|lia..|congruence].
  - rewrite vat_vput_ne; [done|lia..|congruence].
Qed.

Lemma exchange_ok :
  arrays_ok n md (PeelState (vput deg u (du - 1)) (vput bin du (pw + 1)) vert' pos' coreness).
Proof using All.
  destruct exchange_slots as (Hpw & Hpu & Hw & Hdw & Hdm & Hvpu & Hpww & Hcnt).
  pose proof (ao_deg _ _ _ Hok) as Hl. pose proof (ao_bin _ _ _ Hok) as Hbl. simpl in *.
  split; simpl; rewrite ?vlen_vput; try done.
  - apply (ao_md _ _ _ Hok).
  - intros j Hj. pose proof (ao_vert_pos _ _ _ Hok j Hj) as [Hvj Hpj]; simpl in *.
    rewrite Hvert' by done. repeat case_decide; (split; [lia|]); rewrite Hpos' by lia;
      repeat case_decide; congruence || lia.
  - intros x Hx. pose proof (ao_pos_vert _ _ _ Hok x Hx) as [Hpx Hvx]; simpl in *.
    rewrite Hpos' by done. repeat case_decide; (split; [lia|]); rewrite Hvert' by lia;
      repeat case_decide; congruence || lia.
  - intros x Hx. pose proof (ao_deg_range _ _ _ Hok x Hx); simpl in *.
    rewrite vat_vput by lia. case_decide; lia.
  - intros j k Hj Hk. rewrite !exchange_degree by lia.
    pose proof (ao_sorted _ _ _ Hok j k Hj Hk) as Hs; simpl in *.
    pose proof (arrays_segment n md s j du Hok ltac:(lia)) as Hseg1.
    pose proof (arrays_segment n md s k du Hok ltac:(lia)) as Hseg2. simpl in *.
    repeat case_decide; lia.
  - intros d Hd. rewrite <-Edu, cnt_lt_decr, Edu by lia.
    pose proof (ao_bins _ _ _ Hok d Hd) as Hb; simpl in *.
    rewrite vat_vput by lia. unfold ind.
    destruct (Z.eqb_spec d du); case_decide; simplify_eq; lia.
Qed.
End exchange.

(** One step of the inner loop: the arrays stay consistent, the slots up to
    the current one are frozen, and only [u] can lose a degree. *)
Lemma peel_nbr_ok n md s i u :
  n <= INT_MAX -> arrays_ok n md s -> 0 <= i < n -> 0 <= u < n ->
  let v := vat (ps_vert s) i in
  wp (peel_nbr v u s) (fun s' =>
    arrays_ok n md s' /\
    (forall j, 0 <= j <= i -> vat (ps_vert s') j = vat (ps_vert s) j) /\
    ps_coreness s' = ps_coreness s /\
    (forall x, 0 <= x < n -> vat (ps_deg s') x =
       vat (ps_deg s) x - ind ((x =? u) && (vat (ps_deg s) v <? vat (ps_deg s) u)))).
Proof.
  intros Hn Hok Hi Hu v. destruct s as [deg bin vert pos coreness]. simpl in v.
  pose proof (ao_md _ _ _ Hok). pose proof (ao_deg _ _ _ Hok). pose proof (ao_bin _ _ _ Hok).
  pose proof (ao_vert _ _ _ Hok). pose proof (ao_pos _ _ _ Hok).
  pose proof (ao_vert_pos _ _ _ Hok i Hi) as [Hv Hpv].
  pose proof (ao_deg_range _ _ _ Hok v Hv). simpl in *. unfold peel_nbr. wsteps.
  destruct (Z.ltb_spec (vat deg v) (vat deg u)) as [Hlt|Hge]; cycle 1.
  { wsteps. split_and!; [done..|]. intros. rewrite andb_false_r. simpl. lia. }
  destruct (exchange_slots _ _ _ _ _ _ _ u _ _ _ _ Hok Hu eq_refl eq_refl eq_refl eq_refl)
    as (Hpw & Hpu & Hw & Hdw & Hdm & Hvpu & Hpww & Hcnt).
  assert (i < vat bin (vat deg u)) as Hipw.
  { rewrite Hcnt. by apply (arrays_segment n md _ i (vat deg u) Hok Hi). }
  wsteps. remember (vat vert (vat bin (vat deg u))) as w eqn:Ew.
  remember (vat bin (vat deg u)) as pw eqn:Epw. remember (vat pos u) as pu eqn:Epu.
  apply wp_mono with (P := fun '(pos', vert') =>
    vlen vert' = n /\ vlen pos' = n /\
    (forall j, 0 <= j < n -> vat vert' j =
       if decide (j = pw) then u else if decide (j = pu) then w else vat vert j) /\
    (forall x, 0 <= x < n -> vat pos' x =
       if decide (x = u) then pw else if decide (x = w) then pu else vat pos x)).
  - destruct (Z.eqb_spec u w) as [Huw|Huw]; simpl.
    + split_and!; [done..| |]; intros; repeat case_decide; congruence || lia.
    + wsteps. rewrite !vlen_vput. split_and!; [done..| |]; intros.
      * rewrite !vat_vput by vlia. repeat case_decide; congruence || lia.
      * rewrite !vat_vput by vlia. repeat case_decide; congruence || lia.
  - intros [pos' vert'] (Hlv & Hlp & Hvert' & Hpos'). unfold vincr. wsteps.
    simpl. split_and!; [|intros j Hj; rewrite Hvert' by lia; repeat case_decide; lia|done|].
    + rewrite <-Epw. apply (exchange_ok _ _ _ _ _ _ _ _ _ u w _ pu pw Hok); done || lia.
    + intros x Hx. rewrite vat_vput by lia.
      case_decide; destruct (Z.eqb_spec x u); subst; simpl; lia.
Qed.

(** ** The peeling order *)

(** A simple undirected graph on [0, n) as neighbour lists. *)
Record simple_graph (n : Z) (nbr : list (list Z)) : Prop := {
  sg_len : vlen nbr = n;
  sg_nodup u : 0 <= u < n -> NoDup (vat nbr u);
  sg_range u v : 0 <= u < n -> v ∈ vat nbr u -> 0 <= v < n /\ v <> u;
  sg_sym u v : 0 <= u < n -> v ∈ vat nbr u -> u ∈ vat nbr v
}.

(** Neighbours of [u] that satisfy [P]. *)
Definition deg_in (nbr : list (list Z)) (P : Z -> Prop) `{!forall x, Decision (P x)} (u : Z) : Z :=
  vlen (filter P (vat nbr u)).

(** [C] induces a subgraph of minimum degree [k]. *)
Definition is_kcore (n : Z) (nbr : list (list Z)) (k : Z) (C : gset Z) : Prop :=
  forall u, u ∈ C -> 0 <= u < n /\ k <= deg_in nbr (.∈ C) u.

(** [k] is the coreness of [v]: the largest [k] with a [k]-core containing [v]. *)
Definition is_coreness (n : Z) (nbr : list (list Z)) (v k : Z) : Prop :=
  (exists C, v ∈ C /\ is_kcore n nbr k C) /\
  (forall C k', v ∈ C -> is_kcore n nbr k' C -> k' <= k).

(** The effect of the whole inner loop on the arrays. *)
Lemma peel_row_ok n md nbr s i :
  n <= INT_MAX -> simple_graph n nbr -> arrays_ok n md s -> 0 <= i < n ->
  let v := vat (ps_vert s) i in
  wp (for_each (vat nbr v) s (fun u s => peel_nbr v u s)) (fun s' =>
    arrays_ok n md s' /\
    (forall j, 0 <= j <= i -> vat (ps_vert s') j = vat (ps_vert s) j) /\
    ps_coreness s' = ps_coreness s /\
    (forall x, 0 <= x < n -> vat (ps_deg s') x = vat (ps_deg s) x -
       ind (bool_decide (x ∈ vat nbr v) && (vat (ps_deg s) v <? vat (ps_deg s) x)))).
Proof.
  intros Hn Hg Hok Hi v. pose proof (ao_vert_pos _ _ _ Hok i Hi) as [Hv _]. fold v in Hv.
  apply (wp_for_each (fun done s' =>
    arrays_ok n md s' /\
    (forall j, 0 <= j <= i -> vat (ps_vert s') j = vat (ps_vert s) j) /\
    ps_coreness s' = ps_coreness s /\
    (forall x, 0 <= x < n -> vat (ps_deg s') x = vat (ps_deg s) x -
       ind (bool_decide (x ∈ done) && (vat (ps_deg s) v <? vat (ps_deg s) x))))).
  - split_and!; [done..|]. intros x Hx. simpl. lia.
  - intros dn u rest s' Hl (Hok' & Hfr & Hc & Hdeg).
    assert (u ∈ vat nbr v) as Hu by (rewrite Hl; set_solver).
    apply (sg_range _ _ Hg v u Hv) in Hu as [Hu Huv].
    pose proof (sg_nodup _ _ Hg v Hv) as Hnd. rewrite Hl in Hnd.
    assert (u ∉ dn) as Hnu. { apply NoDup_app in Hnd as (_ & Hd & _). intros ?. by apply (Hd u); [|left]. }
    assert (v = vat (ps_vert s') i) as Hvi by (symmetry; apply Hfr; lia).
    pose proof (peel_nbr_ok n md s' i u Hn Hok' Hi Hu) as Hstep. simpl in Hstep.
    rewrite <-Hvi in Hstep. eapply wp_mono; [exact Hstep|].
    intros s'' (Hok'' & Hfr' & Hc' & Hdeg'). split_and!; [done|..].
    + intros j Hj. by rewrite Hfr', Hfr by done.
    + congruence.
    + intros x Hx. rewrite Hdeg', (Hdeg x Hx), (Hdeg v Hv), (Hdeg u Hu) by done.
      rewrite Z.ltb_irrefl, andb_false_r, (bool_decide_false (u ∈ dn)) by done. simpl.
      replace (vat (ps_deg s) v - 0) with (vat (ps_deg s) v) by lia.
      replace (vat (ps_deg s) u - 0) with (vat (ps_deg s) u) by lia.
      destruct (Z.eqb_spec x u) as [->|Hne].
      * rewrite (bool_decide_false (u ∈ dn)), (bool_decide_true (u ∈ dn ++ [u])) by set_solver.
        simpl. lia.
      * rewrite (bool_decide_ext (x ∈ dn ++ [u]) (x ∈ dn)) by set_solver. simpl. lia.
  - done.
Qed.

(** The vertices that are not yet peeled when the loop is at slot [i]. *)
Definition unpeeled (n : Z) (s : peel_state) (i : Z) : gset Z :=
  list_to_set (filter (fun u => i <= vat (ps_pos s) u) (seqZ 0 n)).

Lemma elem_of_unpeeled n s i u : u ∈ unpeeled n s i <-> 0 <= u < n /\ i <= vat (ps_pos s) u.
Proof. unfold unpeeled. rewrite elem_of_list_to_set, list_elem_of_filter, elem_of_seqZ. naive_solver lia. Qed.

(** The level reached so far: the degree at which the last vertex was peeled. *)
Definition level (s : peel_state) (i : Z) : Z :=
  if i =? 0 then 0 else vat (ps_deg s) (vat (ps_vert s) (i - 1)).

(** The loop invariant.  Every unpeeled vertex carries the maximum of its
    remaining degree and the level; some [level]-core contains all unpeeled
    vertices; every core of larger [k] is still wholly unpeeled. *)
Record peel_inv (n md : Z) (nbr : list (list Z)) (i : Z) (s : peel_state) : Prop := {
  pi_arrays : arrays_ok n md s;
  pi_len : vlen (ps_coreness s) = n;
  pi_deg u : 0 <= u < n -> i <= vat (ps_pos s) u ->
    vat (ps_deg s) u = Z.max (deg_in nbr (.∈ unpeeled n s i) u) (level s i);
  pi_core : exists C, unpeeled n s i ⊆ C /\ is_kcore n nbr (level s i) C;
  pi_above C k : is_kcore n nbr k C -> C ⊆ unpeeled n s i \/ k <= level s i;
  pi_done u : 0 <= u < n -> vat (ps_pos s) u < i -> is_coreness n nbr u (vat (ps_coreness s) u)
}.

Lemma deg_in_mono nbr (C D : gset Z) u : C ⊆ D -> deg_in nbr (.∈ C) u <= deg_in nbr (.∈ D) u.
Proof.
  intros HCD. unfold deg_in, vlen. induction (vat nbr u) as [|x l IH]; [done|].
  rewrite !filter_cons. repeat case_decide; simpl; set_solver by lia.
Qed.

(** Removing one vertex from the set costs its neighbours one. *)
Lemma deg_in_remove nbr (C : gset Z) u v :
  NoDup (vat nbr u) -> v ∈ C ->
  deg_in nbr (.∈ C) u = deg_in nbr (.∈ C ∖ {[v]}) u + ind (bool_decide (v ∈ vat nbr u)).
Proof.
  intros Hnd Hv. unfold deg_in, vlen. induction Hnd as [|x l Hx Hnd IH]; [done|].
  rewrite !filter_cons. destruct (decide (x = v)) as [->|Hne].
  - rewrite decide_True, decide_False, (bool_decide_true (v ∈ v :: l)) by set_solver.
    rewrite (bool_decide_false (v ∈ l)) in IH by done. simpl in *. lia.
  - rewrite (bool_decide_ext (v ∈ x :: l) (v ∈ l)) by set_solver.
    repeat case_decide; simpl; set_solver by lia.
Qed.

Section outer.
Context (n md : Z) (nbr : list (list Z)) (i : Z) (s : peel_state).
Context (Hn : n <= INT_MAX) (Hg : simple_graph n nbr) (Hi : 0 <= i < n).
Context (Hinv : peel_inv n md nbr i s).
Let v := vat (ps_vert s) i.
Let dv := vat (ps_deg s) v.

Local Lemma cur_facts :
  0 <= v < n /\ vat (ps_pos s) v = i /\ level s i <= dv /\ 0 <= level s i /\
  dv = Z.max (deg_in nbr (.∈ unpeeled n s i) v) (level s i) /\
  (forall u, 0 <= u < n -> i <= vat (ps_pos s) u -> dv <= vat (ps_deg s) u).
Proof using Hi Hinv.
  pose proof (pi_arrays _ _ _ _ _ Hinv) as Hok.
  destruct (ao_vert_pos _ _ _ Hok i Hi) as [Hv Hpv]. fold v in Hv, Hpv.
  pose proof (ao_deg_range _ _ _ Hok v Hv) as Hdv.
  assert (0 <= level s i <= dv) as Hlev.
  { unfold level. destruct (Z.eqb_spec i 0); [unfold dv; lia|].
    destruct (ao_vert_pos _ _ _ Hok (i - 1) ltac:(lia)) as [Hv' _].
    pose proof (ao_deg_range _ _ _ Hok _ Hv').
    pose proof (ao_sorted _ _ _ Hok (i - 1) i ltac:(lia) ltac:(lia)). unfold dv, v. lia. }
  split_and!; try (done || lia).
  - apply (pi_deg _ _ _ _ _ Hinv); [done|lia].
  - intros u Hu Hpu. destruct (ao_pos_vert _ _ _ Hok u Hu) as [Hr Hvu].
    rewrite <-Hvu. apply (ao_sorted _ _ _ Hok); lia.
Qed.

(** The current vertex lies in a [dv]-core with all unpeeled vertices... *)
Local Lemma cur_core : exists C, unpeeled n s i ⊆ C /\ is_kcore n nbr dv C.
Proof using Hi Hinv.
  destruct cur_facts as (Hv & Hpv & Hlev & Hlev0 & Hdv & Hmin).
  destruct (decide (dv = level s i)) as [->|Hne]; [apply (pi_core _ _ _ _ _ Hinv)|].
  exists (unpeeled n s i). split; [done|]. intros u [Hu Hpu]%elem_of_unpeeled.
  split; [done|]. pose proof (pi_deg _ _ _ _ _ Hinv u Hu Hpu). specialize (Hmin u Hu Hpu). lia.
Qed.

(** ... and in no larger core. *)
Local Lemma cur_above C k : is_kcore n nbr k C -> v ∈ C -> k <= dv.
Proof using Hi Hinv.
  intros HC HvC. destruct cur_facts as (Hv & Hpv & Hlev & Hlev0 & Hdv & Hmin).
  destruct (pi_above _ _ _ _ _ Hinv C k HC) as [Hsub|]; [|lia].
  pose proof (deg_in_mono nbr C (unpeeled n s i) v Hsub). destruct (HC v HvC). lia.
Qed.

Context (s' : peel_state).
Context (Hok' : arrays_ok n md s').
Context (Hfrozen : forall j, 0 <= j <= i -> vat (ps_vert s') j = vat (ps_vert s) j).
Context (Hcore' : ps_coreness s' = vput (ps_coreness s) v dv).
Context (Hdeg' : forall x, 0 <= x < n -> vat (ps_deg s') x = vat (ps_deg s) x -
  ind (bool_decide (x ∈ vat nbr v) && (dv <? vat (ps_deg s) x))).

Local Lemma next_pos x : 0 <= x < n -> (vat (ps_pos s') x <= i <-> vat (ps_pos s) x <= i) .
Proof using Hi Hinv Hok' Hfrozen.
  intros Hx. pose proof (pi_arrays _ _ _ _ _ Hinv) as Hok.
  destruct (ao_pos_vert _ _ _ Hok x Hx) as [Hp Hpv].
  destruct (ao_pos_vert _ _ _ Hok' x Hx) as [Hp' Hpv']. split; intros Hle.
  - rewrite Hfrozen in Hpv' by lia.
    destruct (ao_vert_pos _ _ _ Hok _ Hp') as [_ Heq]. rewrite Hpv' in Heq. lia.
  - rewrite <-Hfrozen in Hpv by lia.
    destruct (ao_vert_pos _ _ _ Hok' _ Hp) as [_ Heq]. rewrite Hpv in Heq. lia.
Qed.

Local Lemma pos_cur x : 0 <= x < n -> (vat (ps_pos s) x = i <-> x = v).
Proof using Hi Hinv.
  intros Hx. destruct (ao_pos_vert _ _ _ (pi_arrays _ _ _ _ _ Hinv) x Hx) as [_ Hpv].
  destruct cur_facts as (_ & Hpi & _). split; [|by intros ->].
  intros Hp. by rewrite Hp in Hpv.
Qed.

Local Lemma next_unpeeled : unpeeled n s' (i + 1) = unpeeled n s i ∖ {[v]}.
Proof using Hi Hinv Hok' Hfrozen.
  apply set_eq. intros x. rewrite elem_of_difference, elem_of_singleton, !elem_of_unpeeled.
  split; [intros [Hx Hp]|intros [[Hx Hp] Hne]]; specialize (next_pos x Hx) as ?;
    specialize (pos_cur x Hx) as ?; split_and?; lia.
Qed.

Local Lemma next_level : level s' (i + 1) = dv.
Proof using Hi Hinv Hg Hdeg' Hfrozen.
  destruct cur_facts as (Hv & _). unfold level.
  destruct (Z.eqb_spec (i + 1) 0); [lia|]. rewrite Z.add_simpl_r, Hfrozen by lia.
  fold v. rewrite Hdeg', bool_decide_false by (done || (intros H; by apply (sg_range _ _ Hg) in H as [_ ?])).
  fold dv. simpl. lia.
Qed.

Lemma peel_inv_step : peel_inv n md nbr (i + 1) s'.
Proof using All.
  destruct cur_facts as (Hv & Hpv & Hlev & Hlev0 & Hdv & Hmin).
  pose proof (pi_len _ _ _ _ _ Hinv) as Hlen.
  split; rewrite ?next_unpeeled, ?next_level; try done.
  - rewrite Hcore'. by rewrite vlen_vput.
  - intros u Hu Hp. pose proof (next_pos u Hu). pose proof (pos_cur u Hu).
    assert (i <= vat (ps_pos s) u /\ u <> v) as [Hpu Huv] by lia.
    rewrite Hdeg' by done. pose proof (pi_deg _ _ _ _ _ Hinv u Hu Hpu) as Hdu.
    specialize (Hmin u Hu Hpu).
    assert (v ∈ unpeeled n s i) as Hvu by (apply elem_of_unpeeled; lia).
    rewrite (deg_in_remove nbr (unpeeled n s i) u v (sg_nodup _ _ Hg u Hu) Hvu) in Hdu.
    rewrite (bool_decide_ext (v ∈ vat nbr u) (u ∈ vat nbr v)) in Hdu
      by (split; by apply (sg_sym _ _ Hg)).
    destruct (bool_decide (u ∈ vat nbr v)), (Z.ltb_spec dv (vat (ps_deg s) u)); simpl in *; lia.
  - destruct cur_core as (C & HC & Hk). exists C. set_solver.
  - intros C k HC. destruct (decide (v ∈ C)) as [HvC|HvC]; [right; by eapply cur_above|].
    destruct (pi_above _ _ _ _ _ Hinv C k HC); [set_solver|lia].
  - intros u Hu Hp. pose proof (next_pos u Hu). pose proof (pos_cur u Hu). rewrite Hcore'.
    destruct (decide (u = v)) as [->|Hne].
    + rewrite vat_vput_eq by lia. split; [|intros; by eapply cur_above].
      destruct cur_core as (C & HC & Hk). exists C. split; [|done].
      apply HC, elem_of_unpeeled. lia.
    + rewrite vat_vput_ne by lia. apply (pi_done _ _ _ _ _ Hinv); lia.
Qed.
End outer.

Lemma peel_vertex_ok n md nbr i s :
  n <= INT_MAX -> simple_graph n nbr -> 0 <= i < n -> peel_inv n md nbr i s ->
  wp (peel_vertex nbr i s) (peel_inv n md nbr (i + 1)).
Proof.
  intros Hn Hg Hi Hinv. pose proof (pi_arrays _ _ _ _ _ Hinv) as Hok.
  destruct (cur_facts n md nbr i s Hi Hinv) as (Hv & _).
  pose proof (ao_vert _ _ _ Hok). pose proof (ao_deg _ _ _ Hok). pose proof (sg_len _ _ Hg).
  pose proof (pi_len _ _ _ _ _ Hinv).
  unfold peel_vertex. wsteps.
  set (s1 := PeelState _ _ _ _ _).
  assert (arrays_ok n md s1) as Hok1 by (destruct Hok; by constructor).
  eapply wp_mono; [apply (peel_row_ok n md nbr s1 i Hn Hg Hok1 Hi)|].
  intros s' (Hok' & Hfr & Hc & Hd). by apply (peel_inv_step n md nbr i s).
Qed.

(** ** The bucket sort *)

Lemma cnt_lt_succ n deg d : cnt_lt n deg (d + 1) = cnt_lt n deg d + cnt_eq n deg d.
Proof.
  unfold cnt_lt, cnt_eq. rewrite <-sumz_plus. apply sumz_ext. intros u _. unfold ind.
  destruct (Z.ltb_spec (vat deg u) (d + 1)), (Z.ltb_spec (vat deg u) d), (Z.eqb_spec (vat deg u) d); lia.
Qed.

Lemma cnt_lt_mono n deg d e : d <= e -> cnt_lt n deg d <= cnt_lt n deg e.
Proof.
  intros Hde. apply sumz_le. intros u _. unfold ind.
  destruct (Z.ltb_spec (vat deg u) d), (Z.ltb_spec (vat deg u) e); lia.
Qed.

Lemma cnt_eq_succ k deg d : 0 <= k -> cnt_eq (k + 1) deg d = cnt_eq k deg d + ind (vat deg k =? d).
Proof. apply sumz_succ. Qed.

Lemma cnt_eq_mono k m deg d : 0 <= k <= m -> 0 <= cnt_eq k deg d <= cnt_eq m deg d.
Proof.
  intros Hk. unfold cnt_eq. rewrite (sumz_split _ k m) by lia.
  pose proof (sumz_bound (fun u => ind (vat deg u =? d)) k 1).
  pose proof (sumz_bound (fun i => ind (vat deg (k + i) =? d)) (m - k) 1).
  unfold ind in *. destruct H, H0; try lia; intros; case_match; lia.
Qed.

Section bucket.
Context (n md : Z) (deg : list Z).
Context (Hn : 0 <= n <= INT_MAX) (Hmd : 0 <= md <= n) (Hmd' : md + 2 <= INT_MAX).
Context (Hlen : vlen deg = n) (Hdeg : forall u, 0 <= u < n -> 0 <= vat deg u <= md).

Lemma cnt_bound d : 0 <= cnt_eq n deg d /\ cnt_lt n deg d + cnt_eq n deg d <= n.
Proof using Hn.
  pose proof (cnt_eq_mono 0 n deg d). pose proof (cnt_lt_range n deg (d + 1)).
  rewrite cnt_lt_succ in *. lia.
Qed.

Lemma cnt_lt_0 : cnt_lt n deg 0 = 0.
Proof using Hn Hdeg.
  unfold cnt_lt. rewrite (sumz_ext _ (fun _ => 0)); [rewrite sumz_const; lia|].
  intros u Hu. specialize (Hdeg u Hu). unfold ind. by rewrite (proj2 (Z.ltb_ge _ _)) by lia.
Qed.

Lemma vincr_ok bin d k :
  vlen bin = md + 2 -> 0 <= d < md + 2 -> vat bin d = k -> 0 <= k < n ->
  wp (vincr bin d) (fun bin' => vlen bin' = md + 2 /\ bin' = vput bin d (k + 1)).
Proof using Hn. intros Hl Hd <- Hk. unfold vincr. wsteps. by rewrite vlen_vput. Qed.

Lemma count_bins_ok :
  wp (count_bins n md deg) (fun bin =>
    vlen bin = md + 2 /\ forall d, 0 <= d <= md -> vat bin d = cnt_eq n deg d).
Proof using All.
  unfold count_bins. wsteps.
  apply (wp_for_range (fun v bin =>
    vlen bin = md + 2 /\ forall d, 0 <= d <= md -> vat bin d = cnt_eq v deg d)); [lia| | |done].
  { rewrite vlen_vnew by lia. split; [done|]. intros. by rewrite vat_vnew by lia. }
  intros v bin Hv [Hl Hb]. wsteps. specialize (Hdeg v Hv).
  pose proof (cnt_eq_mono (v + 1) n deg (vat deg v)) as Hm.
  pose proof (cnt_eq_mono v n deg (vat deg v)) as Hm'.
  rewrite cnt_eq_succ, Z.eqb_refl in Hm by lia. simpl in Hm.
  destruct (cnt_bound (vat deg v)). pose proof (cnt_lt_range n deg (vat deg v)).
  eapply wp_mono; [apply (vincr_ok _ _ (cnt_eq v deg (vat deg v))); rewrite ?Hb; lia|].
  intros bin' [Hl' ->]. split; [done|]. intros d Hd.
  rewrite cnt_eq_succ, vat_vput by lia. unfold ind.
  case_decide as E; destruct (Z.eqb_spec (vat deg v) d); subst; rewrite ?Hb; lia.
Qed.

Lemma prefix_bins_ok bin :
  vlen bin = md + 2 -> (forall d, 0 <= d <= md -> vat bin d = cnt_eq n deg d) ->
  wp (prefix_bins md bin) (fun bin' =>
    vlen bin' = md + 2 /\ forall d, 0 <= d <= md -> vat bin' d = cnt_lt n deg d).
Proof using All.
  intros Hl Hb. unfold prefix_bins. wsteps.
  apply (wp_for_range (fun e '(bin', start) =>
    vlen bin' = md + 2 /\ start = cnt_lt n deg e /\
    forall d, 0 <= d <= md -> vat bin' d = if decide (d < e) then cnt_lt n deg d else cnt_eq n deg d)).
  - lia.
  - split_and!; [done| |intros; rewrite Hb, decide_False by lia; done].
    by rewrite cnt_lt_0.
  - intros e [bin' start] He (Hl' & -> & Hb'). destruct (cnt_bound e).
    pose proof (cnt_lt_range n deg e) as ?. pose proof (Hb' e) as Hbe.
    rewrite decide_False in Hbe by lia.
    wsteps. rewrite Hbe, vlen_vput, cnt_lt_succ by lia.
    split_and!; [done..|]. intros d Hd. rewrite vat_vput by lia.
    rewrite Hb' by lia. repeat case_decide; subst; congruence || lia.
  - intros [bin' start] (Hl' & -> & Hb'). simpl. split; [done|].
    intros d Hd. rewrite Hb', decide_True by lia. done.
Qed.

(** The slot of [v]: its class start plus its rank within the class. *)
Definition slot (v : Z) : Z := cnt_lt n deg (vat deg v) + cnt_eq v deg (vat deg v).

Lemma slot_range v : 0 <= v < n ->
  cnt_lt n deg (vat deg v) <= slot v < cnt_lt n deg (vat deg v + 1) /\ 0 <= slot v < n.
Proof using Hn.
  intros Hv. unfold slot. rewrite cnt_lt_succ.
  pose proof (cnt_eq_mono (v + 1) n deg (vat deg v)) as Hm.
  pose proof (cnt_eq_mono v n deg (vat deg v)) as Hm'.
  rewrite cnt_eq_succ, Z.eqb_refl in Hm by lia. simpl in Hm.
  destruct (cnt_bound (vat deg v)). pose proof (cnt_lt_range n deg (vat deg v)). lia.
Qed.

Lemma slot_deg_lt u v :
  0 <= u < n -> 0 <= v < n -> slot u <= slot v -> vat deg u <= vat deg v.
Proof using Hn.
  intros Hu Hv Hle. destruct (slot_range u Hu), (slot_range v Hv).
  destruct (Z.le_gt_cases (vat deg u) (vat deg v)); [done|].
  pose proof (cnt_lt_mono n deg (vat deg v + 1) (vat deg u)). lia.
Qed.

Lemma slot_inj u v : 0 <= u < n -> 0 <= v < n -> slot u = slot v -> u = v.
Proof using Hn.
  assert (forall u v, 0 <= u < v -> v < n -> slot u <> slot v) as Hlt.
  { intros a b Hab Hb Heq.
    assert (vat deg a = vat deg b) as Hd.
    { apply Z.le_antisymm; apply slot_deg_lt; lia. }
    unfold slot in Heq. rewrite Hd in Heq.
    pose proof (cnt_eq_mono (a + 1) b deg (vat deg b)) as Hm.
    rewrite cnt_eq_succ, <-Hd, Z.eqb_refl in Hm by lia. simpl in Hm. rewrite Hd in Hm. lia. }
  intros Hu Hv Heq. destruct (Z.lt_total u v) as [?|[?|?]]; [|done|].
  - destruct (Hlt u v); lia.
  - destruct (Hlt v u); lia.
Qed.

Lemma place_verts_ok bin :
  vlen bin = md + 2 -> (forall d, 0 <= d <= md -> vat bin d = cnt_lt n deg d) ->
  wp (place_verts n deg bin) (fun '(bin', vert, pos) =>
    vlen bin' = md + 2 /\ vlen vert = n /\ vlen pos = n /\
    (forall d, 0 <= d <= md -> vat bin' d = cnt_lt n deg (d + 1)) /\
    (forall v, 0 <= v < n -> vat pos v = slot v /\ vat vert (slot v) = v)).
Proof using All.
  intros Hl Hb. unfold place_verts.
  apply (wp_for_range (fun k '(bin', vert, pos) =>
    vlen bin' = md + 2 /\ vlen vert = n /\ vlen pos = n /\
    (forall d, 0 <= d <= md -> vat bin' d = cnt_lt n deg d + cnt_eq k deg d) /\
    (forall v, 0 <= v < k -> vat pos v = slot v /\ vat vert (slot v) = v))).
  - lia.
  - rewrite !vlen_vnew by lia. split_and!; [done..| |lia].
    intros. unfold cnt_eq. rewrite sumz_0, Hb by lia. lia.
  - intros v [[bin' vert] pos] Hv (Hl' & Hlv & Hlp & Hb' & Hplaced).
    specialize (Hdeg v Hv). destruct (slot_range v Hv) as [Hs1 Hs2].
    assert (vat bin' (vat deg v) = slot v) as Eslot by (rewrite Hb' by lia; done).
    assert (vat (vput pos v (vat bin' (vat deg v))) v = slot v) as Epos
      by (rewrite vat_vput_eq; lia).
    wsteps. rewrite Epos, Eslot.
    eapply wp_mono; [apply (vincr_ok _ _ (slot v)); done || lia|].
    intros bin'' [Hl'' ->]. wsteps. rewrite !vlen_vput. split_and!; [done..| |].
    + intros d Hd. rewrite cnt_eq_succ, vat_vput by lia. unfold ind.
      case_decide as E; destruct (Z.eqb_spec (vat deg v) d); subst; rewrite ?Hb' by lia;
        unfold slot; lia.
    + intros x Hx. destruct (slot_range x ltac:(lia)) as [_ Hsx].
      rewrite !vat_vput by lia. destruct (decide (v = x)) as [->|Hne].
      * split; [done|]. by rewrite decide_True.
      * rewrite decide_False; [apply Hplaced; lia|].
        intros Heq. apply Hne, slot_inj; lia.
  - intros [[bin' vert] pos] (Hl' & Hlv & Hlp & Hb' & Hplaced). split_and!; try done.
    intros d Hd. by rewrite Hb', cnt_lt_succ.
Qed.

Lemma restore_bins_ok bin :
  vlen bin = md + 2 -> (forall d, 0 <= d <= md -> vat bin d = cnt_lt n deg (d + 1)) ->
  wp (restore_bins md bin) (fun bin' =>
    vlen bin' = md + 2 /\ forall d, 0 <= d <= md -> vat bin' d = cnt_lt n deg d).
Proof using All.
  intros Hl Hb. unfold restore_bins. wsteps.
  apply (wp_for_range (fun k bin' =>
    vlen bin' = md + 2 /\ forall d, 0 <= d <= md ->
      vat bin' d = if decide (md - k < d) then cnt_lt n deg d else cnt_lt n deg (d + 1))).
  - lia.
  - split; [done|]. intros d Hd. by rewrite Hb, decide_False by lia.
  - intros k bin' Hk [Hl' Hb']. wsteps. rewrite vlen_vput. split; [done|].
    intros d Hd. rewrite vat_vput, !Hb' by lia.
    repeat case_decide; subst; try lia; f_equal; lia.
  - intros bin' [Hl' Hb']. wsteps. rewrite vlen_vput. split; [done|].
    intros d Hd. rewrite vat_vput by lia. case_decide as E.
    + subst d. by rewrite cnt_lt_0.
    + rewrite Hb', decide_True by lia. done.
Qed.
End bucket.

(** ** Neighbour lists *)

Section rows.
Context {W : Type}.
Implicit Types row : list (Z * W).

Lemma dedup_row_spec u row :
  NoDup (dedup_row u row) /\
  forall v, v ∈ dedup_row u row <-> v ∈ row.*1 /\ v <> u.
Proof.
  unfold dedup_row.
  assert (forall (acc : gset Z * list Z),
    (forall x, x ∈ acc.1 <-> x ∈ acc.2) -> NoDup acc.2 -> u ∉ acc.2 ->
    let r := fold_left (fun '(seen, out) '(v, _) =>
      if v =? u then (seen, out) else if decide (v ∈ seen) then (seen, out)
      else ({[v]} ∪ seen, out ++ [v])) row acc in
    NoDup r.2 /\ forall v, v ∈ r.2 <-> v ∈ acc.2 \/ (v ∈ row.*1 /\ v <> u)) as Hgo.
  { induction row as [|[x w] row IH]; intros [seen out] Hs Hnd Hu; simpl in *; [set_solver|].
    destruct (Z.eqb_spec x u) as [->|Hxu].
    { destruct (IH (seen, out)) as [? Hr]; [done..|]. split; [done|].
      intros v. rewrite Hr, elem_of_cons. naive_solver. }
    case_decide as Hin.
    - destruct (IH (seen, out)) as [? Hr]; [done..|]. split; [done|].
      intros v. rewrite Hr, elem_of_cons. simpl. set_solver.
    - destruct (IH ({[x]} ∪ seen, out ++ [x])) as [? Hr]; simpl in *.
      + set_solver.
      + apply NoDup_app. split_and!; [done|set_solver|apply NoDup_singleton].
      + set_solver.
      + split; [done|]. intros v. rewrite Hr, elem_of_cons. set_solver. }
  destruct (Hgo (∅, [])) as [? Hr]; simpl in *; [set_solver|constructor|set_solver|].
  split; [done|]. intros v. rewrite Hr. set_solver.
Qed.

(** An undirected adjacency structure: endpoints in range, every entry has
    a reverse entry. *)
Record undirected (n : Z) (adj : list (list (Z * W))) : Prop := {
  un_len : vlen adj = n;
  un_range u v : 0 <= u < n -> v ∈ (vat adj u).*1 -> 0 <= v < n;
  un_sym u v : 0 <= u < n -> v ∈ (vat adj u).*1 -> u ∈ (vat adj v).*1
}.

Lemma build_nbr_ok n adj :
  0 <= n -> undirected n adj ->
  wp (build_nbr n adj) (fun nbr =>
    simple_graph n nbr /\ forall u, 0 <= u < n -> vat nbr u = dedup_row u (vat adj u)).
Proof.
  intros Hn Hu. pose proof (un_len _ _ Hu) as Hlen.
  apply (wp_for_range (fun k nbr => vlen nbr = n /\
    forall u, 0 <= u < k -> vat nbr u = dedup_row u (vat adj u))).
  - done.
  - rewrite vlen_vnew by done. split; [done|lia].
  - intros k nbr Hk [Hl Hrow]. wsteps. rewrite vlen_vput. split; [done|].
    intros u Hr. rewrite vat_vput by lia. case_decide; [by subst|]. apply Hrow. lia.
  - intros nbr [Hl Hrow]. split; [|done]. split; [done|..].
    + intros u Hr. rewrite Hrow by done. apply dedup_row_spec.
    + intros u v Hr. rewrite Hrow by done. intros [Hv ?]%dedup_row_spec.
      split; [|done]. by apply (un_range _ _ Hu u).
    + intros u v Hr. rewrite Hrow by done. intros [Hv Hne]%dedup_row_spec.
      rewrite Hrow by (by apply (un_range _ _ Hu u)). apply dedup_row_spec.
      split; [by apply (un_sym _ _ Hu)|done].
Qed.
End rows.

Lemma simple_degree n nbr u : simple_graph n nbr -> 0 <= u < n -> vlen (vat nbr u) < n.
Proof.
  intros Hg Hu.
  assert (vat nbr u ++ [u] ⊆+ seqZ 0 n) as Hsub.
  { apply NoDup_submseteq.
    - apply NoDup_app. split_and!; [by apply (sg_nodup _ _ Hg)| |apply NoDup_singleton].
      intros x Hx ->%list_elem_of_singleton. by apply (sg_range _ _ Hg) in Hx as [_ ?].
    - intros x Hx. apply elem_of_seqZ. apply elem_of_app in Hx as [Hx| ->%list_elem_of_singleton].
      + apply (sg_range _ _ Hg) in Hx; [lia|done].
      + lia. }
  apply submseteq_length in Hsub. rewrite length_app, length_seqZ in Hsub. simpl in Hsub.
  unfold vlen. lia.
Qed.

Lemma init_deg_ok n nbr :
  0 <= n < INT_MAX -> simple_graph n nbr ->
  wp (init_deg n nbr) (fun '(deg, md) =>
    vlen deg = n /\ 0 <= md <= n /\ md + 2 <= INT_MAX /\
    forall u, 0 <= u < n -> vat deg u = vlen (vat nbr u) /\ vat deg u <= md).
Proof.
  intros Hn Hg. pose proof (sg_len _ _ Hg) as Hl.
  apply (wp_for_range (fun k '(deg, md) =>
    vlen deg = n /\ 0 <= md <= Z.max 0 (n - 1) /\
    forall u, 0 <= u < k -> vat deg u = vlen (vat nbr u) /\ vat deg u <= md)).
  - lia.
  - rewrite vlen_vnew by lia. split_and!; [done|lia..].
  - intros v [deg md] Hv (Hld & Hmd & Hdeg). wsteps. rewrite vlen_vput.
    pose proof (simple_degree n nbr v Hg Hv) as Hd. pose proof (vlen_nonneg (vat nbr v)) as Hd0.
    rewrite to_int_small by vlia. split_and!; [done|case_match; lia..|].
    intros u Hu. rewrite vat_vput by lia. case_decide as E.
    + subst u. destruct (Z.ltb_spec md (vlen (vat nbr v))); lia.
    + destruct (Hdeg u) as [-> ?]; [lia|]. destruct (Z.ltb_spec md (vlen (vat nbr v))); lia.
  - intros [deg md] (Hld & Hmd & Hdeg). split_and!; done || vlia.
Qed.

(** The arrays the bucket sort leaves behind satisfy the invariant... *)
Lemma placed_arrays_ok n md deg bin vert pos coreness :
  0 <= n <= INT_MAX -> 0 <= md <= n -> vlen deg = n -> vlen bin = md + 2 ->
  vlen vert = n -> vlen pos = n ->
  (forall u, 0 <= u < n -> 0 <= vat deg u <= md) ->
  (forall d, 0 <= d <= md -> vat bin d = cnt_lt n deg d) ->
  (forall v, 0 <= v < n -> vat pos v = slot n deg v /\ vat vert (slot n deg v) = v) ->
  arrays_ok n md (PeelState deg bin vert pos coreness).
Proof.
  intros Hn Hmd Hl Hlb Hlv Hlp Hrange Hb Hplaced.
  assert (slot n deg <$> seqZ 0 n ≡ₚ seqZ 0 n) as Hperm.
  { apply inj_perm_seqZ; intros; [by apply (slot_range n deg); lia|].
    by apply (slot_inj n deg); lia. }
  assert (forall j, 0 <= j < n -> exists v, 0 <= v < n /\ slot n deg v = j) as Hsurj.
  { intros j Hj. assert (j ∈ slot n deg <$> seqZ 0 n) as Hin
      by (rewrite Hperm; apply elem_of_seqZ; lia).
    apply list_elem_of_fmap in Hin as (v & -> & Hv%elem_of_seqZ). exists v. split; [lia|done]. }
  split; simpl; try done || lia.
  - intros j Hj. destruct (Hsurj j Hj) as (v & Hv & <-). by destruct (Hplaced v Hv) as [Hp ->].
  - intros u Hu. destruct (Hplaced u Hu) as [-> ->].
    split; [by apply (slot_range n deg); lia|done].
  - intros j k Hj Hk. destruct (Hsurj j ltac:(lia)) as (a & Ha & <-).
    destruct (Hsurj k ltac:(lia)) as (b & Hb1 & <-).
    destruct (Hplaced a Ha) as [_ ->], (Hplaced b Hb1) as [_ ->].
    apply (slot_deg_lt n deg); lia.
Qed.

(** ... and start the peeling loop at level 0 with every vertex unpeeled. *)
Lemma peel_inv_init n md nbr s :
  0 <= n -> simple_graph n nbr -> arrays_ok n md s -> vlen (ps_coreness s) = n ->
  (forall u, 0 <= u < n -> vat (ps_deg s) u = vlen (vat nbr u)) ->
  peel_inv n md nbr 0 s.
Proof.
  intros Hn Hg Hok Hlen Hdeg.
  assert (unpeeled n s 0 = list_to_set (seqZ 0 n)) as Hall.
  { apply set_eq. intros x. rewrite elem_of_unpeeled, elem_of_list_to_set, elem_of_seqZ.
    split; [lia|]. intros Hx. split; [lia|]. apply (ao_pos_vert _ _ _ Hok). lia. }
  assert (forall u, 0 <= u < n -> deg_in nbr (.∈ unpeeled n s 0) u = vlen (vat nbr u)) as Hfull.
  { intros u Hu. unfold deg_in. f_equal. apply filter_id. intros x Hx.
    rewrite Hall, elem_of_list_to_set, elem_of_seqZ.
    apply (sg_range _ _ Hg) in Hx; [lia|done]. }
  split; try done.
  - intros u Hu _. rewrite Hfull, Hdeg by done.
    pose proof (vlen_nonneg (vat nbr u)). unfold level. simpl. lia.
  - exists (unpeeled n s 0). split; [done|]. intros u [Hu _]%elem_of_unpeeled.
    split; [done|]. unfold level. simpl. apply vlen_nonneg.
  - intros C k HC. left. intros x Hx. rewrite Hall, elem_of_list_to_set, elem_of_seqZ.
    destruct (HC x Hx). lia.
  - intros u Hu Hp. pose proof (ao_pos_vert _ _ _ Hok u Hu). lia.
Qed.

Lemma bucket_sort_ok n nbr :
  0 <= n < INT_MAX -> simple_graph n nbr ->
  wp (bucket_sort n nbr) (fun s => exists md, peel_inv n md nbr 0 s).
Proof.
  intros Hn Hg. unfold bucket_sort. apply wp_bind.
  eapply wp_mono; [by apply init_deg_ok|]. intros [deg md] (Hl & Hmd & Hmd2 & Hdeg).
  assert (forall u, 0 <= u < n -> 0 <= vat deg u <= md) as Hrange.
  { intros u Hu. destruct (Hdeg u Hu) as [Hd ?]. pose proof (vlen_nonneg (vat nbr u)). lia. }
  apply wp_bind. eapply wp_mono; [apply (count_bins_ok n md deg); done || lia|].
  intros hist [Hlh Hh]. apply wp_bind.
  eapply wp_mono; [apply (prefix_bins_ok n md deg); done || lia|]. intros starts [Hls Hst].
  apply wp_bind. eapply wp_mono; [apply (place_verts_ok n md deg); done || lia|].
  intros [[bin vert] pos] (Hlb & Hlv & Hlp & Hb & Hplaced). apply wp_bind.
  eapply wp_mono; [apply (restore_bins_ok n md deg); done || lia|]. intros bin' [Hlb' Hb'].
  wsteps. exists md. apply peel_inv_init; [lia|done|apply placed_arrays_ok; done || lia| |].
  - simpl. by rewrite vlen_vnew by lia.
  - intros u Hu. by apply Hdeg.
Qed.

(** ** Correctness *)

(** Distinct neighbours of [u] in [C], read off the adjacency lists. *)
Definition degree_within {W} (adj : list (list (Z * W))) (C : gset Z) (u : Z) : Z :=
  Z.of_nat (size ((list_to_set (vat adj u).*1 ∖ {[u]}) ∩ C : gset Z)).

(** [k] is the largest integer such that [v] lies in a set of vertices each of
    which has [k] distinct neighbours in the set. *)
Definition coreness_of {W} (n : Z) (adj : list (list (Z * W))) (v k : Z) : Prop :=
  (exists C : gset Z, v ∈ C /\ forall u, u ∈ C -> 0 <= u < n /\ k <= degree_within adj C u) /\
  (forall (C : gset Z) k', v ∈ C ->
     (forall u, u ∈ C -> 0 <= u < n /\ k' <= degree_within adj C u) -> k' <= k).

Lemma deg_in_within {W} (adj : list (list (Z * W))) nbr (C : gset Z) u :
  vat nbr u = dedup_row u (vat adj u) -> deg_in nbr (.∈ C) u = degree_within adj C u.
Proof.
  intros Heq. unfold deg_in, degree_within, vlen. f_equal. rewrite Heq.
  destruct (dedup_row_spec u (vat adj u)) as [Hnd Hin].
  rewrite <-(size_list_to_set (C := gset Z)) by (by apply NoDup_filter).
  f_equal. apply set_eq. intros x.
  rewrite elem_of_list_to_set, list_elem_of_filter, Hin. set_solver.
Qed.

Lemma coreness_of_nbr {W} n (adj : list (list (Z * W))) nbr v k :
  (forall u, 0 <= u < n -> vat nbr u = dedup_row u (vat adj u)) ->
  is_coreness n nbr v k -> coreness_of n adj v k.
Proof.
  intros Hrow [(C & HvC & HC) Hmax]. split.
  - exists C. split; [done|]. intros u Hu. destruct (HC u Hu) as [Hr Hk].
    by rewrite (deg_in_within adj) in Hk by (by apply Hrow).
  - intros D k' HvD HD. apply (Hmax D); [done|]. intros u Hu.
    destruct (HD u Hu) as [Hr Hk]. split; [done|].
    by rewrite (deg_in_within adj) by (by apply Hrow).
Qed.

Lemma RunKCore_wp {W} n (adj : list (list (Z * W))) :
  0 <= n < INT_MAX -> undirected n adj ->
  wp (RunKCore n adj) (fun core =>
    vlen core = n /\ forall v, 0 <= v < n -> coreness_of n adj v (vat core v)).
Proof.
  intros Hn Hu. unfold RunKCore. apply wp_bind.
  eapply wp_mono; [apply build_nbr_ok; done || lia|]. intros nbr [Hg Hrow].
  apply wp_bind. eapply wp_mono; [by apply bucket_sort_ok|]. intros s0 [md Hinv].
  apply wp_bind. apply (wp_for_range (peel_inv n md nbr)); [lia|done| |].
  - intros i s Hi Hi'. apply peel_vertex_ok; done || lia.
  - intros s Hdone. wsteps. split; [apply (pi_len _ _ _ _ _ Hdone)|].
    intros v Hv. eapply coreness_of_nbr; [done|]. apply (pi_done _ _ _ _ _ Hdone); [done|].
    apply (ao_pos_vert _ _ _ (pi_arrays _ _ _ _ _ Hdone)). done.
Qed.

Definition unit_row (l : list Z) : list (Z * unit) := map (fun v => (v, tt)) l.
Example run_test : RunKCore 5 (map unit_row [[1;2;3]; [0;2;2]; [0;1]; [0]; []]) = Some [2;2;2;1;0].
Proof. vm_compute. reflexivity. Qed.
