(* ===== verification/GraphBuild.v ===== *)
(** * Building the undirected graph of a store

    [LouvainComputer::BuildGraph] (extension/louvain/include/louvain_functions.h)
    numbers the vertices label by label, counts degrees, allocates the rows and
    fills them through per-vertex cursors; [KcoreComputer::BuildGraph]
    (extension/kcore/include/kcore_functions.h) appends to the rows directly.
    Both are proved to compute the incidence lists of the store's edges. *)
From S2P Require Import Prelude Num Storage KCore.
#[local] Open Scope Z_scope.

(** The members the two [Computer] classes fill before they run. *)
Record computer (W : Type) := Computer {
  num_vertex_ : Z;
  num_edge_ : Z;
  label_offsets_ : list Z;
  global_to_local_ : list (Z * Z);
  adj_ : list (list (Z * W));
  aggregate_keys_ : list string;
  aggregate_extra_ : list string
}.
Arguments Computer {W}.
Arguments num_vertex_ {W}.
Arguments num_edge_ {W}.
Arguments label_offsets_ {W}.
Arguments global_to_local_ {W}.
Arguments adj_ {W}.
Arguments aggregate_keys_ {W}.
Arguments aggregate_extra_ {W}.

Definition fresh_computer {W} : computer W := Computer 0 0 [] [] [] [] [].

Section build.
Context {W : Type} `{!Arith W}.
Context (g : StorageReadInterface).

(** Step 1: [label_offsets_], [label_sizes] and the running [offset]. *)
Definition assign_offsets : option (Z * list Z * list Z) :=
  let num := vertex_label_num (schema g) in
  for_range num (0, vnew num (-1), vnew num 0) (fun L '(offset, offs, sizes) =>
    ok ← vertex_label_valid (schema g) L;
    if negb ok then Some (offset, offs, sizes)
    else
      let sz := GetVertexSet_size g L in
      offs' ← vset offs L offset;
      sizes' ← vset sizes L sz;
      offset' ← i32 (offset + to_int sz);
      Some (offset', offs', sizes')).

(** Reverse mapping: [global_to_local_[base + v] = {L, v}]. *)
Definition map_ids (n : Z) (offs sizes : list Z) : option (list (Z * Z)) :=
  for_range (vertex_label_num (schema g)) (vnew n (0, 0)) (fun L ids =>
    base ← vget offs L;
    if base <? 0 then Some ids
    else
      sz ← vget sizes L;
      for_range (to_int sz) ids (fun v ids =>
        k ← i32 (base + v);
        vset ids k (L, to_u32 v))).

(** The traversal both passes make: every stored edge between two numbered
    labels, from its source side. *)
Definition scan_edges {S} (offs sizes : list Z) (s : S) (body : Z -> Z -> S -> option S) : option S :=
  for_each (e_schemas (schema g)) s (fun key s =>
    let '(src_label, dst_label, e_label) := parse_edge_label key in
    src_base ← vget offs src_label;
    dst_base ← vget offs dst_label;
    if (src_base <? 0) || (dst_base <? 0) then Some s
    else
      src_sz ← vget sizes src_label;
      dst_sz ← vget sizes dst_label;
      for_range (to_int src_sz) s (fun i s =>
        let src_vid := to_u32 i in
        if negb (IsValidVertex g src_label src_vid) then Some s
        else
          src_g ← i32 (src_base + i);
          for_each (get_edges g src_label dst_label e_label src_vid) s (fun dst_vid s =>
            if dst_sz <=? dst_vid then Some s
            else
              dst_g ← i32 (dst_base + to_int dst_vid);
              body src_g dst_g s))).

(** [std::atomic<int>::fetch_add(1)]: the old value and the new vector. *)
Definition fetch_add_1 (deg : list Z) (i : Z) : option (Z * list Z) :=
  x ← vget deg i;
  deg' ← vset deg i (to_int (x + 1));
  Some (x, deg').

(** Step 2: degrees and the number of stored edges. *)
Definition count_degrees (n : Z) (offs sizes : list Z) : option (list Z * Z) :=
  scan_edges offs sizes (vnew n 0, 0) (fun src_g dst_g '(deg, total_directed) =>
    r1 ← fetch_add_1 deg src_g;
    r2 ← fetch_add_1 (snd r1) dst_g;
    Some (snd r2, total_directed + 1)).

(** Step 3: [adj_[u].resize(deg[u])]. *)
Definition alloc_rows (n : Z) (deg : list Z) : option (list (list (Z * W))) :=
  for_range n (vnew n []) (fun u adj =>
    d ← vget deg u;
    if d <? 0 then None else vset adj u (vnew d (0, wzero))).

(** [adj_[u][p] = x]. *)
Definition set_entry (adj : list (list (Z * W))) (u p : Z) (x : Z * W) : option (list (list (Z * W))) :=
  row ← vget adj u;
  row' ← vset row p x;
  vset adj u row'.

(** Step 4: fill through the cursors, [deg] having been reset to 0. *)
Definition fill_rows (n : Z) (offs sizes : list Z) (adj : list (list (Z * W))) :
    option (list Z * list (list (Z * W))) :=
  scan_edges offs sizes (vnew n 0, adj) (fun src_g dst_g '(deg, adj) =>
    r1 ← fetch_add_1 deg src_g;
    r2 ← fetch_add_1 (snd r1) dst_g;
    adj1 ← set_entry adj src_g (fst r1) (dst_g, wone);
    adj2 ← set_entry adj1 dst_g (fst r2) (src_g, wone);
    Some (snd r2, adj2)).

(** [LouvainComputer::BuildGraph]. *)
Definition BuildGraph : option (computer W) :=
  lay ← assign_offsets;
  let '(n, offs, sizes) := lay in
  if n =? 0 then Some (Computer 0 0 offs [] [] [] [])
  else
    ids ← map_ids n offs sizes;
    cnt ← count_degrees n offs sizes;
    let '(deg, total_directed) := cnt in
    rows ← alloc_rows n deg;
    filled ← fill_rows n offs sizes rows;
    Some (Computer n (to_int total_directed) offs ids (snd filled) [] []).

(** [adj_[u].push_back(x)]. *)
Definition push_entry (adj : list (list (Z * W))) (u : Z) (x : Z * W) : option (list (list (Z * W))) :=
  row ← vget adj u;
  vset adj u (row ++ [x]).

(** [KcoreComputer::BuildGraph]. *)
Definition Kcore_BuildGraph : option (computer W) :=
  lay ← assign_offsets;
  let '(n, offs, sizes) := lay in
  if n =? 0 then Some (Computer 0 0 offs [] [] [] [])
  else
    ids ← map_ids n offs sizes;
    res ← scan_edges offs sizes (vnew n [], 0) (fun src_g dst_g '(adj, total_directed) =>
      adj1 ← push_entry adj src_g (dst_g, wone);
      adj2 ← push_entry adj1 dst_g (src_g, wone);
      Some (adj2, total_directed + 2));
    Some (Computer n (to_int (snd res)) offs ids (fst res) [] []).

(** ** Specification *)

Definition first_vid (L : Z) : Z := sumz (GetVertexSet_size g) L.
Definition vertex_total : Z := first_vid (vertex_label_num (schema g)).

(** The stored edges as pairs of global ids, in traversal order. *)
Definition edges_of_key (key : Z) : list (Z * Z) :=
  let '(src, dst, e) := parse_edge_label key in
  flat_map (fun i =>
    if IsValidVertex g src i then
      map (fun x => (first_vid src + i, first_vid dst + x))
          (filter (fun x => x < GetVertexSet_size g dst) (get_edges g src dst e i))
    else []) (seqZ 0 (GetVertexSet_size g src)).
Definition store_edges : list (Z * Z) := flat_map edges_of_key (e_schemas (schema g)).

(** The row of [u]: one entry per incident edge end. *)
Definition edge_ends (u : Z) (e : Z * Z) : list (Z * W) :=
  (if fst e =? u then [(snd e, wone)] else []) ++ (if snd e =? u then [(fst e, wone)] else []).
Definition incident (es : list (Z * Z)) (u : Z) : list (Z * W) := flat_map (edge_ends u) es.

(** The store fits the program's integer types and its schema has no deleted
    vertex label. *)
Record buildable : Prop := {
  bd_store : store_ok g;
  bd_tombs : no_tombs (schema g);
  bd_keys key : key ∈ e_schemas (schema g) ->
    let '(src, dst, _) := parse_edge_label key in
    src < vertex_label_num (schema g) /\ dst < vertex_label_num (schema g);
  bd_total : vertex_total <= INT_MAX;
  bd_edges : 2 * vlen store_edges <= INT_MAX
}.
End build.

Arguments incident {W _}.
Arguments edge_ends {W _}.

(** ** Numbering *)

Section numbering.
Context (g : StorageReadInterface) (Hb : buildable g).
Let num := vertex_label_num (schema g).

Lemma num_labels : num = vlen (vlabel_indexer (schema g)) /\ 0 <= num.
Proof using Hb.
  destruct (bd_tombs _ Hb) as (Hlen & Hf & Hlt). unfold num, vertex_label_num, tomb_count.
  assert (filter (fun b => b = true) (vlabel_tomb (schema g)) = []) as ->.
  { clear Hlen. induction Hf as [|b l Hbl _ IH]; [done|]. by rewrite filter_cons_False by congruence. }
  unfold to_u8, vlen in *. simpl. rewrite Z.mod_small; lia.
Qed.

Lemma labels_valid L : 0 <= L < num -> vertex_label_valid (schema g) L = Some true.
Proof using Hb.
  intros HL. destruct num_labels as [Hnum _]. unfold vertex_label_valid.
  rewrite (proj2 (Z.ltb_lt _ _)) by lia.
  destruct (bd_tombs _ Hb) as (Hlen & Hf & _).
  rewrite vget_Some by (unfold vlen in *; lia). simpl. do 2 f_equal.
  apply negb_true_iff. unfold vat. eapply (Forall_lookup_1 _ _ _ _ Hf).
  apply list_lookup_lookup_total_lt. unfold vlen in *. lia.
Qed.

Lemma first_vid_succ L : 0 <= L -> first_vid g (L + 1) = first_vid g L + GetVertexSet_size g L.
Proof. apply sumz_succ. Qed.

Lemma first_vid_mono L M : 0 <= L <= M -> 0 <= first_vid g L <= first_vid g M.
Proof using Hb.
  intros HL. unfold first_vid. rewrite (sumz_split _ L M) by lia.
  pose proof (so_size _ (bd_store _ Hb)) as Hsz.
  pose proof (sumz_bound (GetVertexSet_size g) L (2 ^ 32) ltac:(lia)
    ltac:(intros i _; specialize (Hsz i); lia)).
  pose proof (sumz_bound (fun i => GetVertexSet_size g (L + i)) (M - L) (2 ^ 32) ltac:(lia)
    ltac:(intros i _; specialize (Hsz (L + i)); lia)).
  lia.
Qed.

Lemma size_range L : 0 <= L < num ->
  0 <= GetVertexSet_size g L /\ 0 <= first_vid g L /\
  first_vid g L + GetVertexSet_size g L <= vertex_total g /\ vertex_total g <= INT_MAX.
Proof using Hb.
  intros HL. pose proof (bd_total _ Hb). pose proof (so_size _ (bd_store _ Hb) L).
  rewrite <-first_vid_succ by lia. pose proof (first_vid_mono L (L + 1)).
  pose proof (first_vid_mono (L + 1) num).
  unfold vertex_total in *. unfold num in *. lia.
Qed.

Lemma assign_offsets_ok :
  wp (assign_offsets g) (fun '(n, offs, sizes) =>
    n = vertex_total g /\ vlen offs = num /\ vlen sizes = num /\
    forall L, 0 <= L < num -> vat offs L = first_vid g L /\ vat sizes L = GetVertexSet_size g L).
Proof using Hb.
  destruct num_labels as [_ Hnum]. unfold assign_offsets. fold num.
  apply (wp_for_range (fun k '(n, offs, sizes) =>
    n = first_vid g k /\ vlen offs = num /\ vlen sizes = num /\
    forall L, 0 <= L < k -> vat offs L = first_vid g L /\ vat sizes L = GetVertexSet_size g L)).
  - done.
  - rewrite !vlen_vnew by done. split_and!; [done..|lia].
  - intros L [[n offs] sizes] HL (-> & Hlo & Hls & Hv). rewrite labels_valid by done. simpl.
    destruct (size_range L HL) as (? & ? & ? & ?).
    rewrite to_int_small by vlia. wsteps.
    rewrite !vlen_vput, first_vid_succ by lia. split_and!; [done..|].
    intros M HM. rewrite !vat_vput by lia. case_decide; [by subst|]. apply Hv. lia.
  - intros [[n offs] sizes] (-> & ? & ? & ?). done.
Qed.

Lemma parse_range key :
  let '(src, dst, e) := parse_edge_label key in 0 <= src /\ 0 <= dst /\ 0 <= e.
Proof. unfold parse_edge_label. cbv zeta. split_and!; apply Z.land_nonneg; right; lia. Qed.

(** The traversal is a loop over the list of stored edges. *)
Lemma scan_edges_list {S} offs sizes (s : S) body :
  vlen offs = num -> vlen sizes = num ->
  (forall L, 0 <= L < num -> vat offs L = first_vid g L /\ vat sizes L = GetVertexSet_size g L) ->
  scan_edges g offs sizes s body = for_each (store_edges g) s (fun e s => body (fst e) (snd e) s).
Proof using Hb.
  intros Hlo Hls Hv. unfold scan_edges, store_edges. rewrite for_each_flat_map.
  apply for_each_ext. intros key s' Hkey. unfold edges_of_key.
  pose proof (bd_keys _ Hb key Hkey) as Hk. pose proof (parse_range key) as Hr.
  destruct (parse_edge_label key) as [[src dst] e]. destruct Hk as [Hs Hd]. fold num in Hs, Hd.
  destruct Hr as (Hs0 & Hd0 & _).
  destruct (Hv src ltac:(lia)) as [Eo1 Es1], (Hv dst ltac:(lia)) as [Eo2 Es2].
  rewrite !(vget_Some offs), !(vget_Some sizes) by lia. simpl. rewrite Eo1, Eo2, Es1, Es2.
  destruct (size_range src) as (? & ? & ? & ?); [lia|].
  destruct (size_range dst) as (? & ? & ? & ?); [lia|].
  rewrite !(proj2 (Z.ltb_ge _ 0)) by lia. simpl. rewrite for_each_flat_map.
  rewrite to_int_small by vlia. unfold for_range.
  apply for_each_ext. intros i s'' Hi%elem_of_seqZ.
  unfold to_u32. rewrite Z.mod_small by vlia.
  destruct (IsValidVertex g src i); simpl; [|done].
  rewrite i32_Some by vlia. simpl. rewrite for_each_map, for_each_filter.
  apply for_each_ext. intros x s3 Hx. pose proof (so_edges _ (bd_store _ Hb) _ _ _ _ _ Hx).
  destruct (Z.leb_spec (GetVertexSet_size g dst) x); case_decide; try lia; [done|].
  rewrite to_int_small by vlia. rewrite i32_Some by vlia. done.
Qed.

Lemma store_edges_range e :
  e ∈ store_edges g -> 0 <= fst e < vertex_total g /\ 0 <= snd e < vertex_total g.
Proof using Hb.
  unfold store_edges. rewrite list_elem_of_In, in_flat_map. intros (key & Hkey & He).
  apply list_elem_of_In in Hkey. unfold edges_of_key in He.
  pose proof (bd_keys _ Hb key Hkey) as Hk. pose proof (parse_range key) as Hr.
  destruct (parse_edge_label key) as [[src dst] el]. destruct Hk as [Hs Hd]. fold num in Hs, Hd.
  destruct Hr as (Hs0 & Hd0 & _). apply in_flat_map in He as (i & Hi & He).
  apply list_elem_of_In, elem_of_seqZ in Hi.
  destruct (IsValidVertex g src i); [|done]. apply in_map_iff in He as (x & <- & Hx).
  apply list_elem_of_In, list_elem_of_filter in Hx as [Hx Hin].
  pose proof (so_edges _ (bd_store _ Hb) _ _ _ _ _ Hin).
  destruct (size_range src) as (? & ? & ? & ?); [lia|].
  destruct (size_range dst) as (? & ? & ? & ?); [lia|]. simpl. lia.
Qed.
End numbering.

(** ** Rows *)

Section incidence.
Context {W : Type} `{!Arith W}.

Lemma incident_app es1 es2 u : incident (W := W) (es1 ++ es2) u = incident es1 u ++ incident es2 u.
Proof. apply flat_map_app. Qed.

Lemma incident_length es' u : 0 <= vlen (incident (W := W) es' u) <= 2 * vlen es'.
Proof.
  induction es' as [|e es' IH]; [done|]. unfold incident in *. simpl. rewrite vlen_app.
  assert (0 <= vlen (edge_ends (W := W) u e) <= 2).
  { unfold edge_ends, vlen. rewrite length_app. repeat case_match; simpl; lia. }
  unfold vlen in *. simpl in *. lia.
Qed.

Lemma edge_ends_length u (e : Z * Z) :
  vlen (edge_ends (W := W) u e) = ind (fst e =? u) + ind (snd e =? u).
Proof. unfold edge_ends, vlen. rewrite length_app. repeat case_match; done. Qed.

Lemma incident_snoc es' (e : Z * Z) u :
  vlen (incident (W := W) (es' ++ [e]) u) =
  vlen (incident (W := W) es' u) + ind (fst e =? u) + ind (snd e =? u).
Proof.
  rewrite incident_app, vlen_app. unfold incident at 2. simpl.
  rewrite app_nil_r, edge_ends_length. lia.
Qed.
End incidence.

Lemma push_entry_ok {W} `{!Arith W} n (adj : list (list (Z * W))) (rows : Z -> list (Z * W)) a x :
  vlen adj = n -> (forall u, 0 <= u < n -> vat adj u = rows u) -> 0 <= a < n ->
  wp (push_entry adj a x) (fun adj' => vlen adj' = n /\
    forall u, 0 <= u < n -> vat adj' u = rows u ++ if a =? u then [x] else []).
Proof.
  intros Hl Hf Ha. unfold push_entry. wsteps. split; [by rewrite vlen_vput|].
  intros u Hu. rewrite vat_vput by lia.
  case_decide; destruct (Z.eqb_spec a u); subst; rewrite ?Hf, ?app_nil_r by done; done.
Qed.

Section rows_passes.
Context {W : Type} `{!Arith W}.
Context (n : Z) (es : list (Z * Z)).
Context (Hn : 0 <= n).
Context (Hes : forall e, e ∈ es -> 0 <= fst e < n /\ 0 <= snd e < n).
Context (Hsmall : 2 * vlen es <= INT_MAX).
Implicit Types (adj : list (list (Z * W))) (rows : Z -> list (Z * W)).

Lemma incident_bound dn rest u :
  es = dn ++ rest -> vlen (incident (W := W) dn u) + vlen (incident (W := W) rest u) <= INT_MAX.
Proof using All.
  intros Heq. pose proof (incident_length (W := W) es u) as H.
  rewrite Heq, incident_app, vlen_app in H. rewrite Heq, vlen_app in Hsmall. rewrite vlen_app in H. lia.
Qed.

(** A vector of per-vertex counters with contents [c]. *)
Definition counters (deg : list Z) (c : Z -> Z) : Prop :=
  vlen deg = n /\ forall u, 0 <= u < n -> vat deg u = c u.

Lemma fetch_add_ok deg c a :
  counters deg c -> 0 <= a < n -> 0 <= c a < INT_MAX ->
  wp (fetch_add_1 deg a) (fun r =>
    fst r = c a /\ counters (snd r) (fun u => c u + ind (a =? u))).
Proof using All.
  intros [Hl Hc] Ha Hr. unfold fetch_add_1. wsteps. simpl. rewrite Hc by done.
  rewrite to_int_small by vlia. split; [done|]. split; [by rewrite vlen_vput|].
  intros u Hu. rewrite vat_vput by lia. unfold ind.
  case_decide; destruct (Z.eqb_spec a u); subst; rewrite ?Hc by done; lia.
Qed.

(** Both passes advance the counters of the two ends of the edge. *)
Lemma fetch_both_ok {B} deg dn e rest (k : Z -> Z -> list Z -> option B) Q :
  es = dn ++ e :: rest ->
  counters deg (fun u => vlen (incident (W := W) dn u)) ->
  (forall deg', counters deg' (fun u => vlen (incident (W := W) (dn ++ [e]) u)) ->
     wp (k (vlen (incident (W := W) dn (fst e)))
           (vlen (incident (W := W) dn (snd e)) + ind (fst e =? snd e)) deg') Q) ->
  wp (r1 ← fetch_add_1 deg (fst e); r2 ← fetch_add_1 (snd r1) (snd e); k (fst r1) (fst r2) (snd r2)) Q.
Proof using All.
  intros Hsplit Hc Hk. destruct (Hes e) as [He1 He2]; [rewrite Hsplit; set_solver|].
  assert (forall u, vlen (incident (W := W) (dn ++ [e]) u) <= INT_MAX) as Hbd.
  { intros u. pose proof (incident_bound (dn ++ [e]) rest u). pose proof (incident_length rest u).
    rewrite <-app_assoc in *. naive_solver lia. }
  pose proof (Hbd (fst e)) as Hb1. pose proof (Hbd (snd e)) as Hb2.
  rewrite incident_snoc, Z.eqb_refl in Hb1, Hb2. simpl in Hb1, Hb2.
  pose proof (incident_length dn (fst e)). pose proof (incident_length dn (snd e)).
  assert (forall b, 0 <= ind b) as Hind by (intros []; done).
  pose proof (Hind (snd e =? fst e)). pose proof (Hind (fst e =? snd e)).
  apply wp_bind. eapply wp_mono; [apply fetch_add_ok; [done..|lia]|].
  intros [p1 deg1] [Hp1 Hc1]. simpl in *. apply wp_bind.
  eapply wp_mono; [apply (fetch_add_ok _ _ _ Hc1); [done|lia]|].
  intros [p2 deg2] [Hp2 [Hl2 Hc2]]. simpl in *. subst p1 p2. apply Hk.
  split; [done|]. intros u Hu. rewrite Hc2, incident_snoc by done. lia.
Qed.

Lemma count_pass_ok :
  wp (for_each es (vnew n 0, 0) (fun e '(deg, total) =>
        r1 ← fetch_add_1 deg (fst e); r2 ← fetch_add_1 (snd r1) (snd e);
        Some (snd r2, total + 1)))
     (fun '(deg, total) => counters deg (fun u => vlen (incident (W := W) es u)) /\ total = vlen es).
Proof using All.
  apply (wp_for_each (fun dn '(deg, total) =>
    counters deg (fun u => vlen (incident (W := W) dn u)) /\ total = vlen dn)); [| |by intros []].
  - split; [|done]. split; [by apply vlen_vnew|]. intros u Hu. by rewrite vat_vnew.
  - intros dn e rest [deg total] Hsplit [Hc ->].
    apply (fetch_both_ok deg dn e rest (fun _ _ d => Some (d, vlen dn + 1))); [done..|].
    intros deg' Hc'. simpl. split; [done|]. rewrite vlen_app. done.
Qed.

Lemma alloc_rows_ok deg (c : Z -> Z) :
  counters deg c -> (forall u, 0 <= u < n -> 0 <= c u) ->
  wp (alloc_rows (W := W) n deg) (fun adj =>
    vlen adj = n /\ forall u, 0 <= u < n -> vlen (vat adj u) = c u).
Proof using All.
  intros [Hl Hc] Hpos. unfold alloc_rows.
  apply (wp_for_range (fun k adj =>
    vlen adj = n /\ forall u, 0 <= u < k -> vlen (vat adj u) = c u)); [done| | |done].
  - split; [by apply vlen_vnew|lia].
  - intros u adj Hu [Hla Hv]. wsteps. rewrite Hc by done. specialize (Hpos u Hu).
    rewrite (proj2 (Z.ltb_ge _ _)) by done. wsteps. split; [by rewrite vlen_vput|].
    intros x Hx. rewrite vat_vput by lia. case_decide; [subst; by apply vlen_vnew|].
    apply Hv. lia.
Qed.

(** Rows of fixed sizes [c] whose first entries are [rows]. *)
Definition filled adj (c : Z -> Z) rows : Prop :=
  vlen adj = n /\ forall u, 0 <= u < n ->
    vlen (vat adj u) = c u /\ exists rest, vat adj u = rows u ++ rest.

Lemma set_entry_ok adj c rows a x :
  filled adj c rows -> 0 <= a < n -> vlen (rows a) < c a ->
  wp (set_entry adj a (vlen (rows a)) x) (fun adj' =>
    filled adj' c (fun u => rows u ++ if a =? u then [x] else [])).
Proof using All.
  intros [Hl Hf] Ha Hlt. destruct (Hf a Ha) as [Hlen [rest Hrow]].
  pose proof (vlen_nonneg (rows a)). unfold set_entry. wsteps. split; [by rewrite vlen_vput|].
  intros u Hu. rewrite vat_vput by lia. destruct (Hf u Hu) as [Hlu [restu Hru]].
  case_decide as E; destruct (Z.eqb_spec a u); try done; [subst u|].
  - rewrite vlen_vput. split; [done|]. rewrite Hrow in *. rewrite vlen_app in Hlen.
    destruct rest as [|y rest]; [unfold vlen in Hlen; simpl in *; unfold vlen in *; lia|].
    rewrite vput_middle. exists rest. by rewrite <-app_assoc.
  - split; [done|]. exists restu. by rewrite app_nil_r.
Qed.

Lemma fill_pass_ok adj :
  filled adj (fun u => vlen (incident (W := W) es u)) (fun _ => []) ->
  wp (for_each es (vnew n 0, adj) (fun e '(deg, adj) =>
        r1 ← fetch_add_1 deg (fst e); r2 ← fetch_add_1 (snd r1) (snd e);
        adj1 ← set_entry adj (fst e) (fst r1) (snd e, wone);
        adj2 ← set_entry adj1 (snd e) (fst r2) (fst e, wone);
        Some (snd r2, adj2)))
     (fun '(_, adj') => filled adj' (fun u => vlen (incident (W := W) es u)) (incident es)).
Proof using All.
  intros Hfill. apply (wp_for_each (fun dn '(deg, adj) =>
    counters deg (fun u => vlen (incident (W := W) dn u)) /\
    filled adj (fun u => vlen (incident (W := W) es u)) (incident dn))); [| |by intros [] []].
  - split; [|done]. split; [by apply vlen_vnew|]. intros u Hu. by rewrite vat_vnew.
  - intros dn e rest [deg adj'] Hsplit [Hc Hf].
    destruct (Hes e) as [He1 He2]; [rewrite Hsplit; set_solver|].
    apply (fetch_both_ok deg dn e rest (fun p1 p2 d =>
      adj1 ← set_entry adj' (fst e) p1 (snd e, wone);
      adj2 ← set_entry adj1 (snd e) p2 (fst e, wone); Some (d, adj2))); [done..|].
    intros deg' Hc'.
    assert (forall u, vlen (incident (W := W) es u) =
      vlen (incident (W := W) dn u) + ind (fst e =? u) + ind (snd e =? u) +
      vlen (incident (W := W) rest u)) as Htot.
    { intros u. rewrite <-incident_snoc, <-vlen_app, <-incident_app, <-app_assoc.
      by rewrite Hsplit at 1. }
    assert (forall b, 0 <= ind b) as Hind by (intros []; done).
    assert (forall u, 0 <= vlen (incident (W := W) rest u)) as Hrest by (intros; apply vlen_nonneg).
    apply wp_bind. eapply wp_mono; [apply (set_entry_ok _ _ _ _ _ Hf He1)|].
    { rewrite Htot, Z.eqb_refl. specialize (Hind (snd e =? fst e)). specialize (Hrest (fst e)).
      simpl. lia. }
    intros adj1 Hf1. apply wp_bind.
    assert (vlen (incident (W := W) dn (snd e)) + ind (fst e =? snd e) =
      vlen (incident (W := W) dn (snd e) ++ if fst e =? snd e then [(snd e, wone)] else []))
      as -> by (rewrite vlen_app; by destruct (fst e =? snd e)).
    eapply wp_mono; [apply (set_entry_ok _ _ _ _ _ Hf1 He2)|].
    { rewrite Htot, Z.eqb_refl, vlen_app. specialize (Hrest (snd e)).
      destruct (fst e =? snd e); unfold vlen in *; simpl in *; lia. }
    intros adj2 [Hl2 Hf2]. simpl. split; [done|]. split; [done|]. intros u Hu.
    destruct (Hf2 u Hu) as [Hlu [r Hr]]. split; [done|]. exists r. rewrite Hr, incident_app.
    unfold incident at 3. simpl. rewrite app_nil_r. unfold edge_ends. by rewrite !app_assoc.
Qed.

Lemma push_pass_ok :
  wp (for_each es (vnew n [], 0) (fun e '(adj, total) =>
        adj1 ← push_entry adj (fst e) (snd e, wone);
        adj2 ← push_entry adj1 (snd e) (fst e, wone);
        Some (adj2, total + 2)))
     (fun '(adj, total) => vlen adj = n /\ total = 2 * vlen es /\
        forall u, 0 <= u < n -> vat adj u = incident (W := W) es u).
Proof using All.
  apply (wp_for_each (fun dn '(adj, total) => vlen adj = n /\ total = 2 * vlen dn /\
    forall u, 0 <= u < n -> vat adj u = incident (W := W) dn u)); [| |by intros []].
  - split_and!; [by apply vlen_vnew|done|]. intros u Hu. by rewrite vat_vnew.
  - intros dn e rest [adj total] Hsplit (Hl & -> & Hf).
    destruct (Hes e) as [He1 He2]; [rewrite Hsplit; set_solver|].
    apply wp_bind. eapply wp_mono; [by apply (push_entry_ok _ _ _ _ _ Hl Hf)|].
    intros adj1 [Hl1 Hf1]. apply wp_bind.
    eapply wp_mono; [by apply (push_entry_ok _ _ _ _ _ Hl1 Hf1)|]. intros adj2 [Hl2 Hf2].
    simpl. split_and!; [done|rewrite vlen_app; unfold vlen; simpl; lia|].
    intros u Hu. rewrite Hf2, incident_app by done. unfold incident at 3. simpl.
    rewrite app_nil_r. unfold edge_ends. by rewrite !app_assoc.
Qed.
End rows_passes.

(** ** The graph both builders produce *)

Section built.
Context {W : Type} `{!Arith W}.
Context (g : StorageReadInterface) (Hb : buildable g).
Let num := vertex_label_num (schema g).
Let n := vertex_total g.

Lemma total_nonneg : 0 <= n <= INT_MAX.
Proof using Hb.
  destruct (num_labels g Hb) as [_ Hnum]. pose proof (first_vid_mono g Hb 0 num).
  pose proof (bd_total _ Hb). unfold n, vertex_total in *. unfold num in *. lia.
Qed.

Lemma map_ids_ok offs sizes :
  vlen offs = num -> vlen sizes = num ->
  (forall L, 0 <= L < num -> vat offs L = first_vid g L /\ vat sizes L = GetVertexSet_size g L) ->
  wp (map_ids g n offs sizes) (fun ids => vlen ids = n /\
    forall L v, 0 <= L < num -> 0 <= v < GetVertexSet_size g L ->
      vat ids (first_vid g L + v) = (L, v)).
Proof using Hb.
  intros Hlo Hls Hv. destruct (num_labels g Hb) as [_ Hnum].
  pose proof total_nonneg as Hn. unfold map_ids. fold num.
  apply (wp_for_range (fun k ids => vlen ids = n /\
    forall L v, 0 <= L < k -> 0 <= v < GetVertexSet_size g L ->
      vat ids (first_vid g L + v) = (L, v))); [done| | |done].
  { split; [apply vlen_vnew; lia|lia]. }
  intros L ids HL [Hl Hids]. destruct (Hv L HL) as [Eo Es]. destruct (size_range g Hb L HL) as (? & ? & ? & ?).
  wsteps. rewrite Eo. rewrite (proj2 (Z.ltb_ge _ _)) by lia. wsteps. rewrite Es.
  rewrite to_int_small by vlia.
  apply (wp_for_range (fun j ids => vlen ids = n /\
    (forall M v, 0 <= M < L -> 0 <= v < GetVertexSet_size g M ->
      vat ids (first_vid g M + v) = (M, v)) /\
    forall v, 0 <= v < j -> vat ids (first_vid g L + v) = (L, v))).
  - done.
  - split_and!; [done|done|lia].
  - intros v ids' Hvr (Hl' & Hold & Hnew). unfold n in *. wsteps.
    unfold to_u32. rewrite Z.mod_small by vlia.
    rewrite vlen_vput. split_and!; [done|..].
    + intros M x HM Hx. destruct (size_range g Hb M) as (? & ? & ? & ?); [unfold num in *; lia|].
      pose proof (first_vid_mono g Hb (M + 1) L) as Hm. rewrite first_vid_succ in Hm by lia.
      rewrite vat_vput_ne by lia. by apply Hold.
    + intros x Hx. rewrite vat_vput by lia. case_decide as E.
      * f_equal. lia.
      * apply Hnew. lia.
  - intros ids' (Hl' & Hold & Hnew). split; [done|]. intros M v HM Hvr.
    destruct (decide (M = L)) as [->|]; [by apply Hnew|]. apply Hold; [lia|done].
Qed.

(** What a built graph must be. *)
Record graph_of_store (c : computer W) : Prop := {
  gs_num : num_vertex_ c = n;
  gs_len : vlen (adj_ c) = n;
  gs_rows u : 0 <= u < n -> vat (adj_ c) u = incident (store_edges g) u;
  gs_ids_len : vlen (global_to_local_ c) = n;
  gs_ids L v : 0 <= L < num -> 0 <= v < GetVertexSet_size g L ->
    vat (global_to_local_ c) (first_vid g L + v) = (L, v)
}.

Lemma empty_graph offs m : n = 0 ->
  graph_of_store (Computer 0 m offs [] [] [] []) /\ vlen (store_edges g) = 0.
Proof using Hb.
  intros Hz. split.
  - split; simpl; try (by rewrite Hz) || lia. intros L v HL Hv.
    destruct (size_range g Hb L HL) as (? & ? & ? & ?). unfold n in *. lia.
  - destruct (store_edges g) as [|e es] eqn:E; [done|].
    destruct (store_edges_range g Hb e) as [? ?]; [rewrite E; left|]. unfold n in *. lia.
Qed.

Lemma BuildGraph_wp :
  wp (BuildGraph (W := W) g) (fun c => graph_of_store c /\ num_edge_ c = vlen (store_edges g)).
Proof using Hb.
  pose proof total_nonneg as Hn. pose proof (bd_edges _ Hb) as Hsmall.
  pose proof (vlen_nonneg (store_edges g)) as Hpos.
  unfold BuildGraph. apply wp_bind. eapply wp_mono; [by apply assign_offsets_ok|].
  intros [[n' offs] sizes] (-> & Hlo & Hls & Hv). fold n.
  destruct (Z.eqb_spec n 0) as [Hz|Hnz].
  { wsteps. destruct (empty_graph offs 0 Hz). by split. }
  apply wp_bind. eapply wp_mono; [by apply map_ids_ok|]. intros ids [Hil Hids].
  unfold count_degrees. rewrite (scan_edges_list g Hb) by done. apply wp_bind.
  pose proof (store_edges_range g Hb) as Hrange.
  eapply wp_mono; [apply (count_pass_ok (W := W) n (store_edges g)); done || lia|].
  intros [deg total] [Hc ->]. apply wp_bind.
  eapply wp_mono; [apply (alloc_rows_ok n (store_edges g) (proj1 Hn) Hrange Hsmall _ _ Hc)|].
  { intros. apply vlen_nonneg. }
  intros rows [Hrl Hrows]. unfold fill_rows. rewrite (scan_edges_list g Hb) by done. apply wp_bind.
  eapply wp_mono; [apply (fill_pass_ok n (store_edges g)); [lia|done|done|]|].
  { split; [done|]. intros u Hu. split; [by apply Hrows|]. by exists (vat rows u). }
  intros [cur adj] [Hal Hadj]. wsteps. simpl. split; [|rewrite to_int_small by vlia; done].
  split; simpl; try done. intros u Hu. destruct (Hadj u Hu) as [Hlen [rest Hrow]].
  rewrite Hrow, vlen_app in Hlen. destruct rest; [by rewrite app_nil_r in Hrow|].
  unfold vlen in Hlen. simpl in Hlen. lia.
Qed.

Lemma Kcore_BuildGraph_wp :
  wp (Kcore_BuildGraph (W := W) g) (fun c =>
    graph_of_store c /\ num_edge_ c = 2 * vlen (store_edges g)).
Proof using Hb.
  pose proof total_nonneg as Hn. pose proof (bd_edges _ Hb) as Hsmall.
  pose proof (vlen_nonneg (store_edges g)) as Hpos.
  unfold Kcore_BuildGraph. apply wp_bind. eapply wp_mono; [by apply assign_offsets_ok|].
  intros [[n' offs] sizes] (-> & Hlo & Hls & Hv). fold n.
  destruct (Z.eqb_spec n 0) as [Hz|Hnz].
  { wsteps. destruct (empty_graph offs 0 Hz) as [? Hl]. rewrite Hl. by split. }
  apply wp_bind. eapply wp_mono; [by apply map_ids_ok|]. intros ids [Hil Hids].
  rewrite (scan_edges_list g Hb) by done. apply wp_bind.
  pose proof (store_edges_range g Hb) as Hrange.
  eapply wp_mono; [apply (push_pass_ok n (store_edges g)); done || lia|].
  intros [adj total] (Hal & -> & Hadj). wsteps. simpl.
  split; [|rewrite to_int_small by vlia; done]. by split.
Qed.
End built.

(** Entries of a row are the other ends of edges, in both directions. *)
Lemma incident_elem {W} `{!Arith W} es u v :
  v ∈ (incident (W := W) es u).*1 <-> (u, v) ∈ es \/ (v, u) ∈ es.
Proof.
  unfold incident. induction es as [|[a b] es IH]; simpl; [set_solver|].
  rewrite fmap_app, elem_of_app, IH, !elem_of_cons. unfold edge_ends. simpl.
  rewrite fmap_app, elem_of_app.
  destruct (Z.eqb_spec a u), (Z.eqb_spec b u); subst; simpl;
    rewrite ?list_elem_of_singleton, ?elem_of_nil; naive_solver.
Qed.

Lemma graph_undirected {W} `{!Arith W} g (c : computer W) :
  buildable g -> graph_of_store g c -> undirected (vertex_total g) (adj_ c).
Proof.
  intros Hb Hg. split; [apply (gs_len _ _ Hg)|..].
  - intros u v Hu. rewrite (gs_rows _ _ Hg) by done.
    intros [He|He]%incident_elem; apply (store_edges_range g Hb) in He; simpl in He; lia.
  - intros u v Hu. rewrite (gs_rows _ _ Hg) by done. intros He%incident_elem.
    assert (0 <= v < vertex_total g) as Hv
      by (destruct He as [He|He]; apply (store_edges_range g Hb) in He; simpl in He; lia).
    rewrite (gs_rows _ _ Hg) by done. apply incident_elem. tauto.
Qed.
