(* ===== verification/Aggregate.v ===== *)
(** * Sparse pair aggregation

    The pieces every projection shares: [std::unordered_map<int, V>], the
    [std::sort]/[std::unique] idiom, the enumeration of the pairs [x < y] of a
    vector, the sparse symmetric aggregator [agg] and its expansion into an
    undirected adjacency structure.

    The iteration order of an unordered map is unspecified: it is a parameter
    of the model ([HashOrder]), constrained only to be a permutation, and every
    theorem holds for every such order. *)
From S2P Require Import Prelude Num GraphBuild.
From stdpp Require Import sorting.
#[local] Open Scope Z_scope.

(** ** Unordered maps *)

(** Entries in insertion order, one per key. *)
Abbreviation umap V := (list (Z * V)).

Fixpoint umap_find {V} (m : umap V) (k : Z) : option V :=
  match m with
  | [] => None
  | (k', v) :: m' => if k' =? k then Some v else umap_find m' k
  end.

(** [f(m[k])]: [operator[]] inserts [d] for an absent key. *)
Fixpoint umap_update {V} (m : umap V) (k : Z) (d : V) (f : V -> V) : umap V :=
  match m with
  | [] => [(k, f d)]
  | (k', v) :: m' => if k' =? k then (k', f v) :: m' else (k', v) :: umap_update m' k d f
  end.

(** Iteration order; the first argument is what the map was [reserve]d for. *)
Class HashOrder := {
  iter_order {V : Type} : Z -> umap V -> umap V;
  iter_order_perm {V : Type} (hint : Z) (m : umap V) : iter_order hint m ≡ₚ m
}.

(** The order of insertion is one possible order, its reverse another. *)
#[refine] Definition insertion_order : HashOrder := {| iter_order V hint m := m |}.
Proof. done. Defined.
#[refine] Definition reverse_order : HashOrder := {| iter_order V hint m := reverse m |}.
Proof. intros. apply reverse_Permutation. Defined.

Section umaps.
Context {V : Type}.
Implicit Types m : umap V.

Lemma umap_find_update m k k' d f :
  umap_find (umap_update m k d f) k' =
  if k =? k' then Some (f (default d (umap_find m k))) else umap_find m k'.
Proof.
  induction m as [|[x v] m IH]; simpl.
  - by destruct (Z.eqb_spec k k').
  - destruct (Z.eqb_spec x k) as [->|]; simpl.
    + by destruct (Z.eqb_spec k k').
    + rewrite IH. destruct (Z.eqb_spec x k'), (Z.eqb_spec k k'); congruence || done.
Qed.

Lemma umap_update_keys m k d f x :
  x ∈ (umap_update m k d f).*1 <-> x = k \/ x ∈ m.*1.
Proof.
  induction m as [|[y v] m IH]; simpl; [set_solver|].
  destruct (Z.eqb_spec y k) as [->|]; simpl; rewrite !elem_of_cons, ?IH; naive_solver.
Qed.

Lemma umap_update_nodup m k d f : NoDup m.*1 -> NoDup (umap_update m k d f).*1.
Proof.
  induction m as [|[y v] m IH]; simpl; [intros; apply NoDup_singleton|].
  intros [Hy Hnd]%NoDup_cons. destruct (Z.eqb_spec y k) as [->|]; simpl; constructor; auto.
  rewrite umap_update_keys. naive_solver.
Qed.

Lemma umap_find_elem m k v : NoDup m.*1 -> (umap_find m k = Some v <-> (k, v) ∈ m).
Proof.
  induction m as [|[y v'] m IH]; simpl; intros Hnd; [set_solver|].
  apply NoDup_cons in Hnd as [Hy Hnd]. rewrite elem_of_cons.
  destruct (Z.eqb_spec y k) as [->|Hne].
  - split; [intros [= ->]; by left|]. intros [[= ->]|Hin]; [done|].
    destruct Hy. apply list_elem_of_fmap. by exists (k, v).
  - rewrite IH by done. naive_solver.
Qed.
End umaps.

(** ** Sorted vectors without duplicates *)

(** [std::sort(v.begin(), v.end())]. *)
Definition std_sort (l : list Z) : list Z := merge_sort Z.le l.

(** [v.erase(std::unique(v.begin(), v.end()), v.end())]. *)
Fixpoint std_unique (l : list Z) : list Z :=
  match l with
  | [] => []
  | x :: l' =>
      match l' with
      | [] => [x]
      | y :: _ => if x =? y then std_unique l' else x :: std_unique l'
      end
  end.

Lemma std_unique_elem l x : x ∈ std_unique l <-> x ∈ l.
Proof.
  induction l as [|y [|z l] IH]; [done|done|]. simpl in *.
  destruct (Z.eqb_spec y z) as [->|]; rewrite !elem_of_cons in *; naive_solver.
Qed.

Lemma std_unique_sorted l : Sorted Z.le l -> StronglySorted Z.lt (std_unique l).
Proof.
  intros Hs%Sorted_StronglySorted; [|intros ???; lia].
  induction Hs as [|y l Hs IH Hall]; [constructor|].
  destruct l as [|z l]; [by repeat constructor|]. simpl in *.
  destruct (Z.eqb_spec y z) as [->|Hne]; [done|]. constructor; [done|].
  apply Forall_forall. intros x Hx. apply (std_unique_elem (z :: l)) in Hx.
  inversion_clear Hs as [|? ? _ Hz]. inversion_clear Hall as [|? ? Hyz _].
  rewrite Forall_forall in Hz. apply elem_of_cons in Hx as [->|Hx]; [lia|].
  specialize (Hz x Hx). lia.
Qed.

Definition sort_unique (l : list Z) : list Z := std_unique (std_sort l).

Lemma sort_unique_sorted l : StronglySorted Z.lt (sort_unique l).
Proof. apply std_unique_sorted, Sorted_merge_sort. intros x y. lia. Qed.

Lemma sort_unique_elem l x : x ∈ sort_unique l <-> x ∈ l.
Proof. unfold sort_unique, std_sort. by rewrite std_unique_elem, merge_sort_Permutation. Qed.

(** [for x; for y = x + 1]: the pairs of entries at increasing positions. *)
Fixpoint pairs {A} (l : list A) : list (A * A) :=
  match l with
  | [] => []
  | x :: l' => map (pair x) l' ++ pairs l'
  end.

Lemma pairs_elem (l : list Z) a b :
  StronglySorted Z.lt l -> ((a, b) ∈ pairs l <-> a ∈ l /\ b ∈ l /\ a < b).
Proof.
  induction 1 as [|x l Hs IH Hall]; simpl; [set_solver|]. rewrite Forall_forall in Hall.
  rewrite elem_of_app, IH, !elem_of_cons, list_elem_of_In, in_map_iff.
  setoid_rewrite <-list_elem_of_In. split.
  - intros [(y & [= -> ->] & Hy)|?]; [specialize (Hall _ Hy); tauto|tauto].
  - intros ([->|Ha] & [->|Hb] & Hlt); [lia|naive_solver| |tauto].
    specialize (Hall _ Ha). lia.
Qed.

Lemma pairs_nodup (l : list Z) : StronglySorted Z.lt l -> NoDup (pairs l).
Proof.
  induction 1 as [|x l Hs IH Hall]; simpl; [constructor|]. rewrite Forall_forall in Hall.
  apply NoDup_app. split_and!; [|intros [a b]|done].
  - apply NoDup_fmap_2; [intros ?? [=]; done|].
    clear -Hs. induction Hs as [|y l _ IH Hy]; constructor; [|done].
    rewrite Forall_forall in Hy. intros Hin. specialize (Hy _ Hin). lia.
  - rewrite list_elem_of_In, in_map_iff. intros (y & [= <- <-] & _).
    rewrite pairs_elem by done. intros (Hx & _). specialize (Hall _ Hx). lia.
Qed.

(** ** The aggregator *)

Section aggregate.
Context {W : Type} `{!Arith W}.
Implicit Types (agg : list (umap W)) (E : list (Z * Z * W)).

(** [agg[a][b] += w]. *)
Definition emit agg (a b : Z) (w : W) : option (list (umap W)) :=
  m ← vget agg a;
  vset agg a (umap_update m b wzero (fun x => wadd x w)).

Definition emit_all agg E : option (list (umap W)) :=
  for_each E agg (fun '(a, b, w) agg => emit agg a b w).

(** The weights emitted for the pair [(a, b)], in order. *)
Definition weights_of E (a b : Z) : list W := map snd (filter (fun e => fst e = (a, b)) E).

(** What [+=] from 0.0 accumulates. *)
Definition wsum (ws : list W) : W := fold_left wadd ws wzero.

Definition aggregated (n : Z) E agg : Prop :=
  vlen agg = n /\
  forall a, 0 <= a < n -> NoDup (vat agg a).*1 /\
    forall b, umap_find (vat agg a) b =
      match weights_of E a b with [] => None | ws => Some (wsum ws) end.

Lemma weights_of_snoc E a b a' b' w :
  weights_of (E ++ [(a', b', w)]) a b =
  weights_of E a b ++ if decide ((a', b') = (a, b)) then [w] else [].
Proof.
  unfold weights_of. rewrite filter_app, map_app. f_equal.
  rewrite filter_cons. simpl. case_decide; done.
Qed.

Lemma emit_all_ok n E :
  0 <= n -> (forall a b w, (a, b, w) ∈ E -> 0 <= a < n) ->
  wp (emit_all (vnew n []) E) (aggregated n E).
Proof.
  intros Hn HE. apply (wp_for_each (aggregated n)); [| |done].
  - split; [by apply vlen_vnew|]. intros a Ha. rewrite vat_vnew by done.
    split; [constructor|done].
  - intros dn [[a' b'] w] rest agg Hsplit [Hl Hagg].
    assert (0 <= a' < n) as Ha' by (apply (HE a' b' w); rewrite Hsplit; set_solver).
    unfold emit. wsteps. split; [by rewrite vlen_vput|]. intros a Ha.
    rewrite vat_vput by lia. destruct (Hagg a Ha) as [Hnd Hf].
    case_decide as E'; [subst a'|].
    + split; [by apply umap_update_nodup|]. intros b.
      rewrite umap_find_update, weights_of_snoc, !Hf.
      destruct (Z.eqb_spec b' b) as [->|Hne].
      * rewrite decide_True by done.
        destruct (weights_of dn a b) as [|x ws] eqn:Ew; [done|]. simpl.
        unfold wsum. by rewrite app_comm_cons, fold_left_app.
      * rewrite decide_False by congruence. by rewrite app_nil_r.
    + split; [done|]. intros b. rewrite weights_of_snoc, decide_False by congruence.
      by rewrite app_nil_r.
Qed.
End aggregate.

(** ** Expansion into adjacency rows *)

Section materialize.
Context {W : Type} `{!Arith W} `{!HashOrder}.
Implicit Types (agg : list (umap W)) (adj : list (list (Z * W))) (L : list (Z * Z * W)).

(** Each kept entry [agg[a][b] = w] contributes [{b, w}] to [adj_[a]] and
    [{a, w}] to [adj_[b]]; the second component is [total_entries]. *)
Definition materialize (keep : W -> bool) (n : Z) agg : option (list (list (Z * W)) * Z) :=
  for_range n (vnew n [], 0) (fun a st =>
    m ← vget agg a;
    for_each (iter_order 0 m) st (fun '(b, w) '(adj, total_entries) =>
      if negb (keep w) then Some (adj, total_entries)
      else
        adj1 ← push_entry adj a (b, w);
        adj2 ← push_entry adj1 b (a, w);
        Some (adj2, total_entries + 2))).

(** The kept entries as triples, and the row of [u]. *)
Definition kept_entries (keep : W -> bool) (n : Z) agg : list (Z * Z * W) :=
  flat_map (fun a =>
    map (fun bw => (a, fst bw, snd bw))
        (filter (fun bw => keep (snd bw) = true) (iter_order 0 (vat agg a))))
    (seqZ 0 n).

Definition triple_ends (u : Z) (t : Z * Z * W) : list (Z * W) :=
  let '(a, b, w) := t in
  (if a =? u then [(b, w)] else []) ++ (if b =? u then [(a, w)] else []).
Definition wincident L (u : Z) : list (Z * W) := flat_map (triple_ends u) L.

Lemma wincident_elem L u v w :
  (v, w) ∈ wincident L u <-> (u, v, w) ∈ L \/ (v, u, w) ∈ L.
Proof.
  unfold wincident. induction L as [|[[a b] x] L IH]; simpl; [set_solver|].
  rewrite elem_of_app, IH, !elem_of_cons. unfold triple_ends. rewrite elem_of_app.
  destruct (Z.eqb_spec a u), (Z.eqb_spec b u); subst; simpl;
    rewrite ?list_elem_of_singleton, ?elem_of_nil; naive_solver.
Qed.

(** Entries point upwards and inside the graph. *)
Definition upper (n : Z) agg : Prop :=
  vlen agg = n /\ forall a, 0 <= a < n -> NoDup (vat agg a).*1 /\
    forall b w, (b, w) ∈ vat agg a -> a < b < n.

Lemma kept_entries_elem keep n agg a b w :
  (a, b, w) ∈ kept_entries keep n agg <-> 0 <= a < n /\ keep w = true /\ (b, w) ∈ vat agg a.
Proof.
  unfold kept_entries. rewrite list_elem_of_In, in_flat_map. split.
  - intros (x & Hx & ([b' w'] & [= -> -> ->] & Hin)%in_map_iff).
    apply list_elem_of_In, elem_of_seqZ in Hx.
    apply list_elem_of_In, list_elem_of_filter in Hin as [Hk Hin].
    rewrite iter_order_perm in Hin. split_and!; [lia..|done|done].
  - intros (Ha & Hk & Hin). exists a. split; [apply list_elem_of_In, elem_of_seqZ; lia|].
    apply in_map_iff. exists (b, w). split; [done|].
    apply list_elem_of_In, list_elem_of_filter. by rewrite iter_order_perm.
Qed.

Lemma push_triples_ok n L :
  0 <= n -> (forall a b w, (a, b, w) ∈ L -> 0 <= a < n /\ 0 <= b < n) ->
  wp (for_each L (vnew n [], 0) (fun '(a, b, w) '(adj, total) =>
        adj1 ← push_entry adj a (b, w);
        adj2 ← push_entry adj1 b (a, w);
        Some (adj2, total + 2)))
     (fun '(adj, total) => vlen adj = n /\ total = 2 * vlen L /\
        forall u, 0 <= u < n -> vat adj u = wincident L u).
Proof.
  intros Hn HL.
  apply (wp_for_each (fun dn '(adj, total) => vlen adj = n /\ total = 2 * vlen dn /\
    forall u, 0 <= u < n -> vat adj u = wincident dn u)); [| |by intros []].
  - split_and!; [by apply vlen_vnew|done|]. intros u Hu. by rewrite vat_vnew.
  - intros dn [[a b] w] rest [adj total] Hsplit (Hl & -> & Hf).
    destruct (HL a b w) as [Ha Hb]; [rewrite Hsplit; set_solver|].
    apply wp_bind. eapply wp_mono; [by apply (push_entry_ok _ _ _ _ _ Hl Hf)|].
    intros adj1 [Hl1 Hf1]. apply wp_bind.
    eapply wp_mono; [by apply (push_entry_ok _ _ _ _ _ Hl1 Hf1)|].
    intros adj2 [Hl2 Hf2]. simpl. split_and!; [done|rewrite vlen_app; unfold vlen; simpl; lia|].
    intros u Hu. rewrite Hf2 by done. unfold wincident. rewrite flat_map_app. simpl.
    by rewrite app_nil_r, app_assoc.
Qed.

Lemma materialize_ok keep n agg :
  0 <= n -> upper n agg ->
  wp (materialize keep n agg) (fun '(adj, total) =>
    vlen adj = n /\ total = 2 * vlen (kept_entries keep n agg) /\
    forall u, 0 <= u < n -> vat adj u = wincident (kept_entries keep n agg) u).
Proof.
  intros Hn [Hl Hup].
  assert (materialize keep n agg =
    for_each (kept_entries keep n agg) (vnew n [], 0) (fun '(a, b, w) '(adj, total) =>
        adj1 ← push_entry adj a (b, w);
        adj2 ← push_entry adj1 b (a, w);
        Some (adj2, total + 2))) as ->.
  { unfold kept_entries, materialize, for_range. rewrite for_each_flat_map.
    apply for_each_ext. intros a st Ha%elem_of_seqZ.
    rewrite vget_Some by lia. simpl. rewrite for_each_map, for_each_filter.
    apply for_each_ext. intros [b w] [adj total] _. simpl.
    case_decide as Hk; [by rewrite Hk|]. by apply not_true_is_false in Hk as ->. }
  apply push_triples_ok; [done|]. intros a b w (Ha & _ & Hin)%kept_entries_elem.
  destruct (Hup a Ha) as [_ Hb]. specialize (Hb b w Hin). lia.
Qed.

(** The weight [agg] holds for the unordered pair [{u, v}]. *)
Definition linked agg (u v : Z) (w : W) : Prop :=
  (u < v /\ umap_find (vat agg u) v = Some w) \/ (v < u /\ umap_find (vat agg v) u = Some w).

Lemma kept_entries_linked keep n agg u v w :
  upper n agg -> 0 <= u < n ->
  (v, w) ∈ wincident (kept_entries keep n agg) u <->
  0 <= v < n /\ keep w = true /\ linked agg u v w.
Proof.
  intros [Hl Hup] Hu. rewrite wincident_elem, !kept_entries_elem. unfold linked. split.
  - intros [(_ & Hk & Hin)|(Hv & Hk & Hin)].
    + destruct (Hup u Hu) as [Hnd Hr]. specialize (Hr v w Hin).
      rewrite umap_find_elem by done. split_and!; [lia..|done|]. left. split; [lia|done].
    + destruct (Hup v Hv) as [Hnd Hr]. specialize (Hr u w Hin).
      rewrite (umap_find_elem (vat agg v)) by done. split_and!; [lia..|done|]. right. split; [lia|done].
  - intros (Hv & Hk & [[Hlt Hf]|[Hlt Hf]]).
    + left. apply umap_find_elem in Hf; [done|by apply Hup].
    + right. apply umap_find_elem in Hf; [done|by apply Hup].
Qed.

Lemma aggregated_upper n E agg :
  aggregated n E agg -> (forall a b w, (a, b, w) ∈ E -> a < b < n) -> upper n agg.
Proof.
  intros [Hl Hagg] HE. split; [done|]. intros a Ha. destruct (Hagg a Ha) as [Hnd Hf].
  split; [done|]. intros b w Hin. apply umap_find_elem in Hin; [|done].
  rewrite Hf in Hin. destruct (weights_of E a b) as [|x ws] eqn:Ew; [done|].
  assert (x ∈ weights_of E a b) as Hx by (rewrite Ew; left).
  unfold weights_of in Hx. apply list_elem_of_In, in_map_iff in Hx as ([[a' b'] w'] & _ & Hin').
  apply list_elem_of_In, list_elem_of_filter in Hin' as [[= -> ->] Hin']. by apply (HE _ _ _ Hin').
Qed.
End materialize.

#[export] Hint Resolve sort_unique_sorted : core.
