(* ===== verification/VertexTimestamp.v ===== *)
(** * Vertex timestamps

    [VertexTimestamp] (include/neug/storages/graph/vertex_timestamp.h,
    src/storages/graph/vertex_timestamp.cc) records when each vertex of a label
    was inserted: vertices below [init_vertex_num_] exist since timestamp 0
    unless they are in [removed_vertices_]; the others have an entry of
    [inserted_vertices_], [DELETED_TIMESTAMP] when there is no such vertex.
    Assertions are taken to be disabled, as in release builds; an index outside
    the array is [None]. *)
From S2P Require Import Prelude Storage Aggregate Archive.
#[local] Open Scope Z_scope.

Definition DELETED_TIMESTAMP : Z := 2 ^ 32 - 1.

Record VertexTimestamp := VTS {
  init_vertex_num_ : Z;
  inserted_vertices_ : option (list Z);     (* [None] is the null pointer *)
  max_vertex_num_ : Z;
  removed_vertices_ : option (gset Z)
}.

Definition new_timestamps : VertexTimestamp := VTS 0 None 0 None.

(** [inserted_vertices_[i].load()] and [.store(ts)]. *)
Definition ts_load (s : VertexTimestamp) (i : Z) : option Z := l ← inserted_vertices_ s; vget l i.
Definition ts_store (s : VertexTimestamp) (i ts : Z) : option VertexTimestamp :=
  l ← inserted_vertices_ s; l' ← vset l i ts;
  Some (VTS (init_vertex_num_ s) (Some l') (max_vertex_num_ s) (removed_vertices_ s)).

Definition vts_reset (s : VertexTimestamp) : VertexTimestamp := new_timestamps.

(** [Swap(other)]. *)
Definition vts_swap (s other : VertexTimestamp) : VertexTimestamp * VertexTimestamp := (other, s).

Definition vts_init (s : VertexTimestamp) (init_vertex_num max_vertex_num : Z) : VertexTimestamp :=
  if (init_vertex_num_ s =? init_vertex_num) && (max_vertex_num_ s =? max_vertex_num) then s
  else
    let max_vertex_num' := Z.max init_vertex_num max_vertex_num in
    let capacity := to_u32 (max_vertex_num' - init_vertex_num) in
    VTS init_vertex_num (if capacity =? 0 then None else Some (vnew capacity DELETED_TIMESTAMP)) max_vertex_num' None.

Definition resize_inserted_vertices (s : VertexTimestamp) (new_size : Z) (keep_front : bool) :
    option VertexTimestamp :=
  let with_inserted := fun l => VTS (init_vertex_num_ s) (Some l) (max_vertex_num_ s) (removed_vertices_ s) in
  match inserted_vertices_ s with
  | None => Some (with_inserted (vnew new_size DELETED_TIMESTAMP))
  | Some old =>
      let size := to_u32 (max_vertex_num_ s - init_vertex_num_ s) in
      let min_size := to_u32 (Z.min new_size size) in
      let offset := if keep_front then 0 else to_u32 (size - min_size) in
      l ← for_range min_size (vnew new_size 0) (fun i l => x ← vget old (i + offset); vset l i x);
      l ← for_each (seqZ min_size (new_size - min_size)) l (fun i l => vset l i DELETED_TIMESTAMP);
      Some (with_inserted l)
  end.

Definition vts_reserve (s : VertexTimestamp) (new_size : Z) : option VertexTimestamp :=
  if (new_size <=? max_vertex_num_ s) && (init_vertex_num_ s <? new_size) then Some s
  else if new_size <=? init_vertex_num_ s then
    Some (VTS new_size None new_size ((fun r : gset Z => filter (fun v => v < new_size) r) <$> removed_vertices_ s))
  else
    s ← resize_inserted_vertices s (new_size - init_vertex_num_ s) true;
    Some (VTS (init_vertex_num_ s) (inserted_vertices_ s) (to_u32 new_size) (removed_vertices_ s)).

(** The compare-and-swap of the entry of [v]; [Thrown] when there is a vertex. *)
Definition insert_at (s : VertexTimestamp) (v ts : Z) : option (outcome unit * VertexTimestamp) :=
  let i := to_u32 (v - init_vertex_num_ s) in
  old ← ts_load s i;
  if old =? DELETED_TIMESTAMP then s' ← ts_store s i ts; Some (Returned tt, s') else Some (Thrown, s).

Definition InsertVertex (s : VertexTimestamp) (v ts : Z) : option (outcome unit * VertexTimestamp) :=
  if v <? init_vertex_num_ s then
    if ts =? 0 then Some (Returned tt, s)
    else
      let new_cap := to_u32 (max_vertex_num_ s - v) in
      s ← resize_inserted_vertices s new_cap false;
      insert_at (VTS v (inserted_vertices_ s) (max_vertex_num_ s) (removed_vertices_ s)) v ts
  else insert_at s v ts.

Definition is_removed_below (s : VertexTimestamp) (v : Z) : bool :=
  match removed_vertices_ s with Some r => bool_decide (v ∈ r) | None => false end.

Definition IsVertexValid (s : VertexTimestamp) (v ts : Z) : option bool :=
  if max_vertex_num_ s <? v then Some false
  else if init_vertex_num_ s <=? v then x ← ts_load s (v - init_vertex_num_ s); Some (x <=? ts)
  else Some (negb (is_removed_below s v)).

Definition ValidVertexNum (s : VertexTimestamp) (ts limit : Z) : option Z :=
  let limit := Z.min limit (max_vertex_num_ s) in
  let valid_num := Z.min (init_vertex_num_ s) limit in
  let valid_num := valid_num - match removed_vertices_ s with
    | Some r => Z.of_nat (size (filter (fun v => v < limit) r)) | None => 0 end in
  if limit <=? init_vertex_num_ s then Some valid_num
  else for_range (limit - init_vertex_num_ s) valid_num (fun i n =>
    x ← ts_load s i; Some (if x <=? ts then n + 1 else n)).

Definition RemoveVertex (s : VertexTimestamp) (v : Z) : option (outcome (Z * VertexTimestamp)) :=
  if max_vertex_num_ s <=? v then Some Thrown
  else if init_vertex_num_ s <=? v then
    old_ts ← ts_load s (v - init_vertex_num_ s);
    if old_ts =? DELETED_TIMESTAMP then Some Thrown
    else s' ← ts_store s (v - init_vertex_num_ s) DELETED_TIMESTAMP; Some (Returned (old_ts, s'))
  else
    Some (Returned (0, VTS (init_vertex_num_ s) (inserted_vertices_ s) (max_vertex_num_ s)
                         (Some ({[v]} ∪ default ∅ (removed_vertices_ s))))).

Definition RevertRemoveVertex (s : VertexTimestamp) (v old_ts : Z) : option (outcome VertexTimestamp) :=
  if init_vertex_num_ s <=? v then s' ← ts_store s (v - init_vertex_num_ s) old_ts; Some (Returned s')
  else match removed_vertices_ s with
       | None => Some Thrown
       | Some r => Some (Returned (VTS (init_vertex_num_ s) (inserted_vertices_ s) (max_vertex_num_ s) (Some (r ∖ {[v]}))))
       end.

Definition IsRemoved (s : VertexTimestamp) (v : Z) : option bool :=
  if max_vertex_num_ s <=? v then Some false
  else if init_vertex_num_ s <=? v then x ← ts_load s (v - init_vertex_num_ s); Some (x =? DELETED_TIMESTAMP)
  else Some (is_removed_below s v).

(** The vertices [foreach_vertex] visits, in order. *)
Definition foreach_vertex (s : VertexTimestamp) (vnum ts : Z) : option (list Z) :=
  let limit := Z.min vnum (max_vertex_num_ s) in
  let first := filter (fun v => negb (is_removed_below s v) = true) (seqZ 0 (init_vertex_num_ s)) in
  if limit <=? init_vertex_num_ s then Some first
  else for_range (limit - init_vertex_num_ s) first (fun i vs =>
    x ← ts_load s i;
    Some (if negb (x =? DELETED_TIMESTAMP) && (x <=? ts) then vs ++ [i + init_vertex_num_ s] else vs)).

Definition ResetTimestamps (s : VertexTimestamp) : option VertexTimestamp :=
  for_range (to_u32 (max_vertex_num_ s - init_vertex_num_ s)) s (fun v s =>
    x ← ts_load s v; if negb (x =? DELETED_TIMESTAMP) then ts_store s v 0 else Some s).

(** The index of the first entry that is not 0, or [num]. *)
Fixpoint first_non_zero (l : list Z) : Z :=
  match l with [] => 0 | x :: l => if x =? 0 then 1 + first_non_zero l else 0 end.

Definition vts_compact (s : VertexTimestamp) : option VertexTimestamp :=
  s ← ResetTimestamps s;
  match inserted_vertices_ s with
  | None => Some s
  | Some l =>
      let num := to_u32 (max_vertex_num_ s - init_vertex_num_ s) in
      let first := first_non_zero (take (Z.to_nat num) l) in
      if 0 <? first then
        s ← resize_inserted_vertices s (num - first) false;
        Some (VTS (init_vertex_num_ s + first) (inserted_vertices_ s) (max_vertex_num_ s) (removed_vertices_ s))
      else Some s
  end.

(** [dump_ts] and [load_ts]: the bytes of the file, and reading them into an
    object. *)
Definition dump_ts (s : VertexTimestamp) : option (list Z) :=
  let arc := put_uint 4 (put_uint 4 [] (init_vertex_num_ s)) (max_vertex_num_ s) in
  let removed := match removed_vertices_ s with Some r => std_sort (elements r) | None => [] end in
  let arc := put_uints 4 (put_uint 4 arc (vlen removed)) removed in
  let vec_size := to_u32 (max_vertex_num_ s - init_vertex_num_ s) in
  for_range vec_size (put_uint 4 arc vec_size) (fun i arc => x ← ts_load s i; Some (put_uint 4 arc x)).

Definition load_ts (s : VertexTimestamp) (file : list Z) : option VertexTimestamp :=
  '(init, arc) ← get_uint 4 file;
  '(max, arc) ← get_uint 4 arc;
  let s := vts_init (VTS init (inserted_vertices_ s) max (removed_vertices_ s)) init max in
  '(removed_size, arc) ← get_uint 4 arc;
  '(vs, arc) ← get_uints 4 (Z.to_nat removed_size) arc;
  let removed := if 0 <? removed_size then Some (default ∅ (removed_vertices_ s) ∪ list_to_set vs)
                 else removed_vertices_ s in
  '(vec_size, arc) ← get_uint 4 arc;
  s ← resize_inserted_vertices (VTS (init_vertex_num_ s) (inserted_vertices_ s) (max_vertex_num_ s) removed) vec_size true;
  '(tss, arc) ← get_uints 4 (Z.to_nat vec_size) arc;
  for_each (zip (seqZ 0 vec_size) tss) s (fun '(i, ts) s => ts_store s i ts).

(** [Dump] resets the timestamps, compacts and writes the file. *)
Definition vts_dump (s : VertexTimestamp) : option (list Z * VertexTimestamp) :=
  s ← ResetTimestamps s;
  s ← vts_compact s;
  bytes ← dump_ts s;
  Some (bytes, s).

(** [Open]: the file if it exists. *)
Definition vts_open (s : VertexTimestamp) (file : option (list Z)) : option VertexTimestamp :=
  match file with Some bytes => load_ts s bytes | None => Some (vts_init s 0 4096) end.

(** ** Representation *)

Definition entries (s : VertexTimestamp) : list Z := default [] (inserted_vertices_ s).

(** When vertex [v] was inserted. *)
Definition born (s : VertexTimestamp) (v : Z) : Z :=
  if v <? init_vertex_num_ s then (if is_removed_below s v then DELETED_TIMESTAMP else 0)
  else vat (entries s) (v - init_vertex_num_ s).

Definition is_ts (x : Z) : Prop := 0 <= x <= DELETED_TIMESTAMP.

Record vts_ok (s : VertexTimestamp) : Prop := {
  vo_range : 0 <= init_vertex_num_ s <= max_vertex_num_ s /\ max_vertex_num_ s < 2 ^ 32;
  vo_len : vlen (entries s) = max_vertex_num_ s - init_vertex_num_ s;
  vo_ts : Forall is_ts (entries s);
  vo_removed v : is_removed_below s v = true -> 0 <= v < init_vertex_num_ s
}.

(** The object stands for the timestamps of the vertices [0 .. max - 1]. *)
Definition vts_rel (s : VertexTimestamp) (a : Z * list Z) : Prop :=
  vts_ok s /\ init_vertex_num_ s = fst a /\ max_vertex_num_ s = vlen (snd a) /\
  forall v, 0 <= v < vlen (snd a) -> vat (snd a) v = born s v.

Lemma entries_some s : vts_ok s -> init_vertex_num_ s < max_vertex_num_ s -> inserted_vertices_ s = Some (entries s).
Proof. intros [_ Hl _ _] Hlt. unfold entries, vlen in *. destruct (inserted_vertices_ s); [done|]. simpl in Hl. lia. Qed.

Lemma is_ts_vat l i : Forall is_ts l -> 0 <= i < vlen l -> is_ts (vat l i).
Proof. intros HF Hi. rewrite Forall_forall in HF. apply HF, vat_elem, Hi. Qed.

Lemma ts_load_wp s v : vts_ok s -> init_vertex_num_ s <= v < max_vertex_num_ s ->
  ts_load s (v - init_vertex_num_ s) = Some (born s v).
Proof.
  intros Hs Hv. pose proof (vo_len _ Hs). unfold ts_load. rewrite entries_some by (done || lia). cbn [mbind option_bind].
  rewrite vget_Some by lia. unfold born. by rewrite (proj2 (Z.ltb_ge _ _)) by lia.
Qed.

(** Storing an entry. *)
Lemma ts_store_wp s v ts : vts_ok s -> init_vertex_num_ s <= v < max_vertex_num_ s -> is_ts ts ->
  wp (ts_store s (v - init_vertex_num_ s) ts) (fun s' => vts_ok s' /\ init_vertex_num_ s' = init_vertex_num_ s /\
    max_vertex_num_ s' = max_vertex_num_ s /\ removed_vertices_ s' = removed_vertices_ s /\
    inserted_vertices_ s' = Some (vput (entries s) (v - init_vertex_num_ s) ts) /\
    forall u, 0 <= u -> born s' u = if decide (u = v) then ts else born s u).
Proof.
  intros Hs Hv Hts. pose proof Hs as [Hr Hl Hw Hrm]. unfold ts_store. rewrite entries_some by (done || lia). wsteps. simpl.
  split_and!; try done.
  - split; unfold entries; simpl; [done|by rewrite vlen_vput| |done].
    apply Forall_insert; done.
  - intros u Hu. unfold born at 1. simpl. destruct (Z.ltb_spec u (init_vertex_num_ s)).
    + rewrite decide_False by lia. unfold born, is_removed_below. simpl. by rewrite (proj2 (Z.ltb_lt _ _)) by lia.
    + unfold entries at 1. simpl. rewrite vat_vput by lia. unfold born. rewrite (proj2 (Z.ltb_ge u _)) by lia.
      repeat case_decide; lia || done.
Qed.

Lemma vts_relI s init l : vts_ok s -> init_vertex_num_ s = init -> max_vertex_num_ s = vlen l ->
  (forall v, 0 <= v < vlen l -> vat l v = born s v) -> vts_rel s (init, l).
Proof. by split. Qed.

Lemma store_rel s init l v ts : vts_rel s (init, l) -> init <= v < vlen l -> is_ts ts ->
  wp (ts_store s (v - init_vertex_num_ s) ts) (fun s' => vts_rel s' (init, vput l v ts)).
Proof.
  intros (Hs & Hi & Hm & Hb) Hv Hts. simpl in *. pose proof (vo_range _ Hs).
  eapply wp_mono; [apply ts_store_wp; [done|lia|done]|]. intros s' (Hs' & Hi' & Hm' & _ & _ & Hb').
  apply vts_relI; [done|congruence|rewrite vlen_vput; lia|]. rewrite vlen_vput. intros u Hu.
  rewrite vat_vput, Hb', Hb by lia. repeat case_decide; congruence.
Qed.

(** [resize_inserted_vertices] keeps the front or the back of the old entries
    and fills up with [DELETED_TIMESTAMP]; the kept entries come first. *)
Lemma resize_inserted_wp s n keep_front : vts_ok s -> 0 <= n < 2 ^ 32 ->
  let size := max_vertex_num_ s - init_vertex_num_ s in
  wp (resize_inserted_vertices s n keep_front) (fun s' => exists l, s' = VTS (init_vertex_num_ s) (Some l)
      (max_vertex_num_ s) (removed_vertices_ s) /\ vlen l = n /\ Forall is_ts l /\
    forall i, 0 <= i < n -> vat l i =
      if decide (i < Z.min n size) then vat (entries s) (i + (if keep_front then 0 else size - Z.min n size))
      else DELETED_TIMESTAMP).
Proof.
  intros Hs Hn size. pose proof Hs as [Hr Hl Hw _]. unfold resize_inserted_vertices, entries in *.
  assert (is_ts DELETED_TIMESTAMP) as Hdel by (unfold is_ts, DELETED_TIMESTAMP; lia).
  destruct (inserted_vertices_ s) as [old|]; simpl in *.
  - fold size. assert (0 <= size < 2 ^ 32) as Hsz by (subst size; lia).
    rewrite !(to_u32_small size), !(to_u32_small (Z.min n size)), (to_u32_small (size - Z.min n size)) by lia. set (k := Z.min n size). set (off := if keep_front then 0 else size - k).
    assert (0 <= off /\ off + k <= size) by (subst off k; destruct keep_front; lia).
    apply wp_bind. apply (wp_for_range (fun i l => vlen l = n /\ Forall is_ts l /\
      forall j, 0 <= j < i -> vat l j = vat old (j + off))); [lia| | |].
    + split_and!; [apply vlen_vnew; lia|apply Forall_replicate; unfold is_ts, DELETED_TIMESTAMP; lia|lia].
    + intros i l Hi (Hll & Hlw & Hlj). wsteps. rewrite vlen_vput. split_and!; [done| |].
      * apply Forall_insert; [done|]. apply is_ts_vat; [done|lia].
      * intros j Hj. rewrite vat_vput by lia. case_decide; [by subst|apply Hlj; lia].
    + intros l (Hll & Hlw & Hlj). apply wp_bind.
      apply (wp_for_each (fun done l => vlen l = n /\ Forall is_ts l /\
        (forall j, 0 <= j < k -> vat l j = vat old (j + off)) /\ forall j, j ∈ done -> vat l j = DELETED_TIMESTAMP)).
      * split_and!; try done. intros j Hj. by apply elem_of_nil in Hj.
      * intros dn i rest l' Heq (Hll' & Hlw' & Hlj' & Hd). assert (i ∈ seqZ k (n - k)) as Hin by (rewrite Heq; set_solver).
        apply elem_of_seqZ in Hin. wsteps. rewrite vlen_vput. split_and!; [done|by apply Forall_insert| |].
        -- intros j Hj. rewrite vat_vput by lia. rewrite decide_False by lia. by apply Hlj'.
        -- intros j Hj. assert (j ∈ seqZ k (n - k)) as Hjin by (rewrite Heq; set_solver). apply elem_of_seqZ in Hjin.
           rewrite vat_vput by lia. case_decide; [done|]. apply Hd. set_solver.
      * intros l' (Hll' & Hlw' & Hlj' & Hd). wsteps. exists l'. split_and!; [done..|]. intros i Hi. case_decide.
        -- apply Hlj'; lia.
        -- apply Hd, elem_of_seqZ. lia.
  - exists (vnew n DELETED_TIMESTAMP). split_and!; [done|apply vlen_vnew; lia|by apply Forall_replicate|].
    intros i Hi. rewrite decide_False, vat_vnew; [done|lia|]. subst size. unfold vlen in Hl. simpl in Hl. lia.
Qed.

(** ** The operations on lists of timestamps *)

Inductive vts_op :=
| VInsert (v ts : Z)
| VRemove (v : Z)
| VRevert (v old_ts : Z)
| VValid (v ts : Z)
| VIsRemoved (v : Z)
| VCount (ts limit : Z)
| VForeach (vnum ts : Z)
| VReserve (n : Z)
| VCompact.

Inductive vts_out := ODone | OThrown | OTimestamp (ts : Z) | OBool (b : bool) | ONum (n : Z) | OVertices (vs : list Z).

Definition out_of {A} (f : A -> vts_out * VertexTimestamp) (s : VertexTimestamp) (r : outcome A) : vts_out * VertexTimestamp :=
  match r with Returned a => f a | Thrown => (OThrown, s) end.

Definition vts_exec (op : vts_op) (s : VertexTimestamp) : option (vts_out * VertexTimestamp) :=
  match op with
  | VInsert v ts => r ← InsertVertex s v ts; Some (out_of (fun _ => (ODone, snd r)) (snd r) (fst r))
  | VRemove v => r ← RemoveVertex s v; Some (out_of (fun x => (OTimestamp (fst x), snd x)) s r)
  | VRevert v old_ts => r ← RevertRemoveVertex s v old_ts; Some (out_of (fun s' => (ODone, s')) s r)
  | VValid v ts => b ← IsVertexValid s v ts; Some (OBool b, s)
  | VIsRemoved v => b ← IsRemoved s v; Some (OBool b, s)
  | VCount ts limit => n ← ValidVertexNum s ts limit; Some (ONum n, s)
  | VForeach vnum ts => vs ← foreach_vertex s vnum ts; Some (OVertices vs, s)
  | VReserve n => s' ← vts_reserve s n; Some (ODone, s')
  | VCompact => s' ← vts_compact s; Some (ODone, s')
  end.

(** The vertices below [n] that exist at [ts]. *)
Definition alive (l : list Z) (ts n : Z) : list Z := filter (fun v => vat l v <= ts) (seqZ 0 n).

Definition reset_ts (x : Z) : Z := if x =? DELETED_TIMESTAMP then x else 0.

(** The same calls on [init] and the list; [None] outside their contract: a new
    vertex is at or above [init], a removed vertex is put back with the
    timestamp it had ([0] below [init]), one below [init] is not removed twice, [ts] is
    no deletion mark, validity is not asked of the end, and [foreach_vertex] reaches
    [init].  Below [init] the code keeps no timestamps, so that an insertion or a second
    removal there does something else than on a list. *)
Definition list_step (op : vts_op) (a : Z * list Z) : option (vts_out * (Z * list Z)) :=
  let '(init, l) := a in
  match op with
  | VInsert v ts =>
      if (init <=? v) && (v <? vlen l) && (0 <=? ts) && (ts <? DELETED_TIMESTAMP) then
        Some (if vat l v =? DELETED_TIMESTAMP then (ODone, (init, vput l v ts)) else (OThrown, a))
      else None
  | VRemove v =>
      if vlen l <=? v then Some (OThrown, a)
      else if (0 <=? v) && negb ((v <? init) && (vat l v =? DELETED_TIMESTAMP)) then
        Some (if vat l v =? DELETED_TIMESTAMP then (OThrown, a)
              else (OTimestamp (vat l v), (init, vput l v DELETED_TIMESTAMP)))
      else None
  | VRevert v old_ts =>
      if (0 <=? v) && (v <? vlen l) && (vat l v =? DELETED_TIMESTAMP) && (0 <=? old_ts) && (old_ts <? DELETED_TIMESTAMP) &&
         ((init <=? v) || (old_ts =? 0))
      then Some (ODone, (init, vput l v old_ts)) else None
  | VValid v ts =>
      if (0 <=? v) && negb (v =? vlen l) && (0 <=? ts) && (ts <? DELETED_TIMESTAMP) then
        Some (OBool ((v <? vlen l) && (vat l v <=? ts)), a) else None
  | VIsRemoved v => if 0 <=? v then Some (OBool ((v <? vlen l) && (vat l v =? DELETED_TIMESTAMP)), a) else None
  | VCount ts limit =>
      if (0 <=? limit) && (0 <=? ts) && (ts <? DELETED_TIMESTAMP) then
        Some (ONum (vlen (alive l ts (Z.min limit (vlen l)))), a) else None
  | VForeach vnum ts =>
      if (init <=? vnum) && (0 <=? ts) && (ts <? DELETED_TIMESTAMP) then
        Some (OVertices (alive l ts (Z.min vnum (vlen l))), a) else None
  | VReserve n =>
      if (0 <=? n) && (n <? 2 ^ 32) then
        Some (ODone, if n <=? init then (n, take (Z.to_nat n) l)
                     else (init, l ++ vnew (n - vlen l) DELETED_TIMESTAMP))
      else None
  | VCompact =>
      let l' := map reset_ts l in
      Some (ODone, (init + first_non_zero (drop (Z.to_nat init) l'), l'))
  end.

Lemma insert_at_rel s init l v ts : vts_rel s (init, l) -> init <= v < vlen l -> 0 <= ts < DELETED_TIMESTAMP ->
  wp (insert_at s v ts) (fun r =>
    if vat l v =? DELETED_TIMESTAMP then exists s', r = (Returned tt, s') /\ vts_rel s' (init, vput l v ts)
    else r = (Thrown, s)).
Proof.
  intros Hrel Hv Hts. pose proof Hrel as (Hs & Hi & Hm & Hb). simpl in *. pose proof (vo_range _ Hs).
  unfold insert_at. rewrite to_u32_small by lia. rewrite ts_load_wp by (done || lia). cbn [mbind option_bind].
  rewrite <-Hb by lia. destruct (Z.eqb_spec (vat l v) DELETED_TIMESTAMP); [|by wsteps].
  apply wp_bind. eapply wp_mono; [apply (store_rel s init l v ts); [done|lia|unfold is_ts; lia]|].
  intros s' Hs'. wsteps. by exists s'.
Qed.

Lemma born_below s v : v < init_vertex_num_ s -> born s v = if is_removed_below s v then DELETED_TIMESTAMP else 0.
Proof. intros Hv. unfold born. by rewrite (proj2 (Z.ltb_lt _ _)). Qed.

(** Changing the removed set at one vertex below [init]. *)
Lemma set_removed_rel s init l v r x : vts_rel s (init, l) -> 0 <= v < init ->
  (forall u, bool_decide (u ∈ r) = if decide (u = v) then x =? DELETED_TIMESTAMP else is_removed_below s u) ->
  x = 0 \/ x = DELETED_TIMESTAMP ->
  vts_rel (VTS (init_vertex_num_ s) (inserted_vertices_ s) (max_vertex_num_ s) (Some r)) (init, vput l v x).
Proof.
  intros ([Hr Hl Hw Hrm] & Hi & Hm & Hb) Hv Hset Hx. simpl in *. apply vts_relI; simpl; [|done|rewrite vlen_vput; lia|].
  - split; simpl; try done. intros u. unfold is_removed_below. simpl. rewrite Hset. case_decide; [lia|apply Hrm].
  - rewrite vlen_vput. intros u Hu. rewrite vat_vput by lia. unfold born, is_removed_below. simpl. rewrite Hset.
    destruct (decide (v = u)) as [->|Hne]; [rewrite decide_True by done|rewrite decide_False by congruence].
    + rewrite (proj2 (Z.ltb_lt _ _)) by lia. by destruct Hx as [-> | ->].
    + rewrite Hb by lia. done.
Qed.

Lemma remove_rel s init l v : vts_rel s (init, l) -> 0 <= v < vlen l ->
  (v < init -> vat l v <> DELETED_TIMESTAMP) ->
  wp (RemoveVertex s v) (fun r => if vat l v =? DELETED_TIMESTAMP then r = Thrown else
    exists s', r = Returned (vat l v, s') /\ vts_rel s' (init, vput l v DELETED_TIMESTAMP)).
Proof.
  intros Hrel Hv Hbelow. pose proof Hrel as (Hs & Hi & Hm & Hb). simpl in *. pose proof (vo_range _ Hs).
  unfold RemoveVertex. rewrite (proj2 (Z.leb_gt _ _)) by lia. destruct (Z.leb_spec (init_vertex_num_ s) v).
  - rewrite ts_load_wp by (done || lia). cbn [mbind option_bind]. rewrite <-Hb by lia.
    destruct (Z.eqb_spec (vat l v) DELETED_TIMESTAMP); [by wsteps|].
    apply wp_bind. eapply wp_mono; [apply (store_rel s init l v); [done|lia|unfold is_ts, DELETED_TIMESTAMP; lia]|].
    intros s' Hs'. wsteps. by exists s'.
  - wsteps. specialize (Hbelow ltac:(lia)). rewrite (proj2 (Z.eqb_neq _ _)) by done.
    rewrite Hb, born_below in * by lia. destruct (is_removed_below s v) eqn:E; [done|].
    eexists. split; [done|]. apply set_removed_rel; [done|lia| |by right].
    intros u. unfold is_removed_below. destruct (decide (u = v)) as [->|Hu].
    + rewrite Z.eqb_refl. apply bool_decide_eq_true_2. set_solver.
    + destruct (removed_vertices_ s); simpl; [apply bool_decide_ext; set_solver|apply bool_decide_eq_false_2; set_solver].
Qed.

Lemma revert_rel s init l v old_ts : vts_rel s (init, l) -> 0 <= v < vlen l -> vat l v = DELETED_TIMESTAMP ->
  0 <= old_ts < DELETED_TIMESTAMP -> init <= v \/ old_ts = 0 ->
  wp (RevertRemoveVertex s v old_ts) (fun r => exists s', r = Returned s' /\ vts_rel s' (init, vput l v old_ts)).
Proof.
  intros Hrel Hv Hdel Hts Hcase. pose proof Hrel as (Hs & Hi & Hm & Hb). simpl in *. pose proof (vo_range _ Hs).
  unfold RevertRemoveVertex. destruct (Z.leb_spec (init_vertex_num_ s) v).
  - apply wp_bind. eapply wp_mono; [apply (store_rel s init l v); [done|lia|unfold is_ts; lia]|].
    intros s' Hs'. wsteps. by exists s'.
  - rewrite Hb, born_below in Hdel by lia. unfold is_removed_below in *.
    destruct (removed_vertices_ s) as [r|] eqn:Er; [|unfold DELETED_TIMESTAMP in Hdel; lia]. wsteps. eexists. split; [done|].
    apply set_removed_rel; [done|lia| |left; lia]. intros u. unfold is_removed_below. rewrite Er. destruct (decide (u = v)) as [->|Hu].
    + rewrite (proj2 (Z.eqb_neq _ _)) by lia. apply bool_decide_eq_false_2. set_solver.
    + apply bool_decide_ext. set_solver.
Qed.

(** Scanning the entries from [init] up to [limit]. *)
Lemma wp_scan {A} s init l limit (a : A) (f : Z -> Z -> A -> A) (Q : A -> Prop) :
  vts_rel s (init, l) -> init <= limit <= vlen l ->
  Q (foldl (fun a v => f v (vat l v) a) a (seqZ init (limit - init))) ->
  wp (for_range (limit - init) a (fun i a => x ← ts_load s i; Some (f (i + init) x a))) Q.
Proof.
  intros (Hs & Hi & Hm & Hb) Hl HQ. simpl in *. pose proof (vo_range _ Hs).
  apply (wp_for_range (fun i a' => a' = foldl (fun a v => f v (vat l v) a) a (seqZ init i))); [lia| | |].
  - by rewrite seqZ_nil by lia.
  - intros i a' Hi' ->. replace i with (i + init - init_vertex_num_ s) at 1 by lia.
    rewrite ts_load_wp by (done || lia). cbn [mbind option_bind]. wsteps.
    rewrite (seqZ_app init i 1), foldl_app by lia. rewrite (seqZ_cons (init + i)), (seqZ_nil (Z.succ (init + i))) by lia.
    simpl. rewrite <-Hb by lia. by rewrite (Z.add_comm init i).
  - by intros a' ->.
Qed.

Lemma alive_split l ts a b : 0 <= a <= b ->
  alive l ts b = alive l ts a ++ filter (fun v => vat l v <= ts) (seqZ a (b - a)).
Proof. intros Hab. unfold alive. replace b with (a + (b - a)) at 1 by lia. by rewrite seqZ_app, filter_app by lia. Qed.

Lemma alive_below s init l ts n : vts_rel s (init, l) -> 0 <= n <= init -> 0 <= ts < DELETED_TIMESTAMP ->
  alive l ts n = filter (fun v => negb (is_removed_below s v) = true) (seqZ 0 n).
Proof.
  intros (Hs & Hi & Hm & Hb) Hn Hts. simpl in *. pose proof (vo_range _ Hs). unfold alive. apply filter_ext_elem.
  intros v Hv. apply elem_of_seqZ in Hv. rewrite Hb, born_below by lia.
  destruct (is_removed_below s v); simpl; split; intros; done || lia.
Qed.

Lemma foldl_filter {A B} (P : A -> Prop) `{!forall x, Decision (P x)} (f g : B -> A -> B) (l : list A) b :
  (forall b x, x ∈ l -> f b x = if decide (P x) then g b x else b) -> foldl f b l = foldl g b (filter P l).
Proof.
  revert b. induction l as [|x l IH]; intros b Hf; [done|]. cbn [foldl].
  rewrite Hf, IH by (intros; try apply Hf; set_solver). rewrite filter_cons. by case_decide.
Qed.

Lemma foldl_snoc {A} (l acc : list A) : foldl (fun vs v => vs ++ [v]) acc l = acc ++ l.
Proof. revert acc. induction l as [|x l IH]; intros acc; simpl; [by rewrite app_nil_r|]. by rewrite IH, <-app_assoc. Qed.

Lemma foldl_count {A} (l : list A) n : foldl (fun n _ => n + 1) n l = n + vlen l.
Proof. revert n. induction l as [|x l IH]; intros n; simpl; [unfold vlen; simpl; lia|]. rewrite IH. unfold vlen. simpl. lia. Qed.

Lemma foreach_rel s init l vnum ts : vts_rel s (init, l) -> init <= vnum -> 0 <= ts < DELETED_TIMESTAMP ->
  foreach_vertex s vnum ts = Some (alive l ts (Z.min vnum (vlen l))).
Proof.
  intros Hrel Hv Hts. pose proof Hrel as (Hs & Hi & Hm & Hb). simpl in *. pose proof (vo_range _ Hs).
  unfold foreach_vertex. rewrite Hi, Hm. rewrite <-(alive_below s init l ts init) by (done || lia).
  destruct (Z.leb_spec (Z.min vnum (vlen l)) init) as [Hle|Hlt].
  - do 2 f_equal. lia.
  - cut (wp (for_range (Z.min vnum (vlen l) - init) (alive l ts init) (fun i vs => x ← ts_load s i;
        Some (if negb (x =? DELETED_TIMESTAMP) && (x <=? ts) then vs ++ [i + init] else vs)))
      (fun vs => vs = alive l ts (Z.min vnum (vlen l)))).
    { unfold wp. by destruct (for_range _ _ _) as [vs|]; [intros ->|]. }
    apply (wp_scan s init l _ _ (fun v x vs => if negb (x =? DELETED_TIMESTAMP) && (x <=? ts) then vs ++ [v] else vs));
      [done|lia|].
    rewrite (alive_split l ts init (Z.min vnum (vlen l))), <-foldl_snoc by lia. apply foldl_filter.
    intros vs v _. unfold DELETED_TIMESTAMP in *.
    case_decide; destruct (Z.eqb_spec (vat l v) (2 ^ 32 - 1)), (Z.leb_spec (vat l v) ts); simpl; done || lia.
Qed.

(** The removed vertices below [n], counted. *)
Lemma count_removed s init l ts n : vts_rel s (init, l) -> 0 <= n <= init -> 0 <= ts < DELETED_TIMESTAMP ->
  n - match removed_vertices_ s with Some r => Z.of_nat (size (filter (fun v => v < n) r)) | None => 0 end =
  vlen (alive l ts n).
Proof.
  intros Hrel Hn Hts. rewrite (alive_below s init l ts n) by done. destruct Hrel as (Hs & Hi & _). simpl in Hi.
  pose proof (vo_removed _ Hs) as Hrm. unfold is_removed_below in *. destruct (removed_vertices_ s) as [r|].
  - replace (size (filter (fun v => v < n) r)) with (length (filter (fun v => v ∈ r) (seqZ 0 n))).
    + pose proof (filter_app_complement (fun v => v ∈ r) (seqZ 0 n)) as Hp.
      apply Permutation_length in Hp. rewrite length_app, length_seqZ in Hp. unfold vlen.
      rewrite (filter_ext_elem (fun v => negb (bool_decide (v ∈ r)) = true) (fun v => v ∉ r)); [lia|].
      intros v _. destruct (bool_decide_reflect (v ∈ r)); naive_solver.
    + rewrite <-(size_list_to_set (C := gset Z)) by (apply NoDup_filter, NoDup_seqZ). f_equal. apply set_eq. intros v.
      rewrite elem_of_list_to_set, list_elem_of_filter, elem_of_filter, elem_of_seqZ.
      specialize (Hrm v). rewrite bool_decide_eq_true in Hrm. naive_solver lia.
  - rewrite filter_id by (intros; done). rewrite Z.sub_0_r. unfold vlen. rewrite length_seqZ. lia.
Qed.

Lemma count_rel s init l ts limit : vts_rel s (init, l) -> 0 <= limit -> 0 <= ts < DELETED_TIMESTAMP ->
  ValidVertexNum s ts limit = Some (vlen (alive l ts (Z.min limit (vlen l)))).
Proof.
  intros Hrel Hl Hts. pose proof Hrel as (Hs & Hi & Hm & Hb). simpl in *. pose proof (vo_range _ Hs).
  unfold ValidVertexNum. rewrite Hi, Hm. set (n := Z.min limit (vlen l)).
  destruct (Z.leb_spec n init).
  - rewrite Z.min_r by lia. by rewrite (count_removed s init l ts n) by (done || lia).
  - rewrite Z.min_l by lia.
    replace (match removed_vertices_ s with Some r => _ | None => _ end) with
      (match removed_vertices_ s with Some r => Z.of_nat (size (filter (fun v => v < init) r)) | None => 0 end).
    2:{ pose proof (vo_removed _ Hs) as Hrm. unfold is_removed_below in Hrm. destruct (removed_vertices_ s) as [r|]; [|done].
        do 2 f_equal. apply set_eq. intros v. rewrite !elem_of_filter. specialize (Hrm v).
        rewrite bool_decide_eq_true in Hrm. naive_solver lia. }
    rewrite (count_removed s init l ts init) by (done || lia).
    cut (wp (for_range (n - init) (vlen (alive l ts init)) (fun i m => x ← ts_load s i;
        Some (if x <=? ts then m + 1 else m))) (fun m => m = vlen (alive l ts n))).
    { unfold wp. by destruct (for_range _ _ _) as [m|]; [intros ->|]. }
    apply (wp_scan s init l _ _ (fun v x m => if x <=? ts then m + 1 else m)); [done|lia|].
    rewrite (alive_split l ts init n), vlen_app, <-foldl_count by lia. apply foldl_filter.
    intros m v _. case_decide; destruct (Z.leb_spec (vat l v) ts); done || lia.
Qed.

Lemma reserve_rel s init l n : vts_rel s (init, l) -> 0 <= n < 2 ^ 32 ->
  wp (vts_reserve s n) (fun s' => vts_rel s'
    (if n <=? init then (n, take (Z.to_nat n) l) else (init, l ++ vnew (n - vlen l) DELETED_TIMESTAMP))).
Proof.
  intros Hrel Hn. pose proof Hrel as (Hs & Hi & Hm & Hb). simpl in *. pose proof Hs as [Hr Hl Hw Hrm].
  unfold vts_reserve. rewrite Hi, Hm. destruct (Z.leb_spec n init) as [Hle|Hlt].
  - rewrite (proj2 (Z.ltb_ge init n)), andb_false_r by lia. wsteps. apply vts_relI; simpl; [|done|by rewrite vlen_take by lia|].
    + split; simpl; [lia|unfold entries; simpl; unfold vlen; simpl; lia|by constructor|].
      intros v. specialize (Hrm v). unfold is_removed_below in *. simpl. destruct (removed_vertices_ s); simpl; [|done].
      rewrite !bool_decide_eq_true in *. rewrite elem_of_filter. naive_solver lia.
    + rewrite vlen_take by lia. intros v Hv. rewrite vat_take, Hb, !born_below by (simpl; lia).
      unfold is_removed_below. simpl. destruct (removed_vertices_ s); simpl; [|done].
      erewrite bool_decide_ext; [done|]. rewrite elem_of_filter. naive_solver lia.
  - destruct (Z.leb_spec n (vlen l)); simpl.
    + rewrite (proj2 (Z.ltb_lt _ _)) by lia. wsteps. unfold vnew. rewrite Z2Nat.nonpos by lia. simpl. by rewrite app_nil_r.
    + apply wp_bind. eapply wp_mono; [apply resize_inserted_wp; [done|lia]|].
      intros s' (k & -> & Hk & Hkw & Hkv). wsteps. rewrite to_u32_small by lia. simpl in *.
      assert (vlen (l ++ vnew (n - vlen l) DELETED_TIMESTAMP) = n) as Hlen by (rewrite vlen_app, vlen_vnew; lia).
      apply vts_relI; simpl; [|done|done|].
      * split; simpl; unfold entries; simpl; try lia; [done|apply Hrm].
      * rewrite Hlen. intros v Hv. rewrite vat_app by lia. unfold born, entries. simpl.
        destruct (Z.ltb_spec v (init_vertex_num_ s)).
        -- rewrite decide_True, Hb, born_below by lia. done.
        -- rewrite Hkv by lia. repeat case_decide; try lia.
           ++ rewrite Hb by lia. unfold born. rewrite (proj2 (Z.ltb_ge _ _)) by lia. by rewrite Z.add_0_r.
           ++ by rewrite vat_vnew by lia.
Qed.

Lemma reset_ts_born s v : v < init_vertex_num_ s -> reset_ts (born s v) = born s v.
Proof. intros Hv. rewrite born_below by done. by destruct (is_removed_below s v). Qed.

Lemma is_ts_reset x : is_ts (reset_ts x).
Proof. unfold is_ts, reset_ts, DELETED_TIMESTAMP. case_match; lia. Qed.

Lemma vat_map_reset l v : 0 <= v < vlen l -> vat (map reset_ts l) v = reset_ts (vat l v).
Proof.
  intros Hv. unfold vat, vlen in *. rewrite !list_lookup_total_alt, list_lookup_fmap.
  destruct (lookup_lt_is_Some_2 l (Z.to_nat v)) as [x ->]; [lia|done].
Qed.

Lemma ResetTimestamps_rel s init l : vts_rel s (init, l) ->
  wp (ResetTimestamps s) (fun s' => vts_rel s' (init, map reset_ts l)).
Proof.
  intros (Hs & Hi & Hm & Hb). simpl in *. pose proof (vo_range _ Hs). unfold ResetTimestamps. rewrite to_u32_small by lia.
  apply (wp_for_range (fun i s' => vts_ok s' /\ init_vertex_num_ s' = init /\ max_vertex_num_ s' = vlen l /\
    forall u, 0 <= u < vlen l -> born s' u = if decide (u < init + i) then reset_ts (born s u) else born s u)); [lia| | |].
  - split_and!; [done..|]. intros u Hu. case_decide; [|done]. by rewrite reset_ts_born by lia.
  - intros i s' Hi' (Hs' & Hin & Hmn & Hbn).
    replace (ts_load s' i) with (ts_load s' (init + i - init_vertex_num_ s')) by (f_equal; lia).
    replace (ts_store s' i 0) with (ts_store s' (init + i - init_vertex_num_ s') 0) by (f_equal; lia). rewrite ts_load_wp by (done || lia). cbn [mbind option_bind].
    rewrite (Hbn (init + i)) by lia. rewrite decide_False by lia.
    destruct (Z.eqb_spec (born s (init + i)) DELETED_TIMESTAMP) as [E|E]; simpl.
    + wsteps. split_and!; [done..|]. intros u Hu. rewrite Hbn by lia. repeat case_decide; try lia; try done.
      replace u with (init + i) by lia. by rewrite E.
    + eapply wp_mono; [apply ts_store_wp; [done|lia|unfold is_ts, DELETED_TIMESTAMP; lia]|].
      intros s'' (Hs'' & Hi'' & Hm'' & _ & _ & Hb''). split_and!; [done|lia|lia|]. intros u Hu. rewrite Hb'', Hbn by lia.
      repeat case_decide; try lia; try done. subst u. unfold reset_ts. by rewrite (proj2 (Z.eqb_neq _ _)).
  - intros s' (Hs' & Hin & Hmn & Hbn). apply vts_relI; [done|done|by rewrite vlen_map|].
    rewrite vlen_map. intros v Hv. rewrite vat_map_reset, Hb, Hbn by lia. by rewrite decide_True by lia.
Qed.

Lemma first_non_zero_bounds l : 0 <= first_non_zero l <= vlen l.
Proof. unfold vlen. induction l as [|x l IH]; simpl; [lia|]. case_match; lia. Qed.

Lemma first_non_zero_spec l i : 0 <= i < first_non_zero l -> vat l i = 0.
Proof.
  revert i. induction l as [|x l IH]; intros i Hi; simpl in *; [lia|]. destruct (Z.eqb_spec x 0) as [->|]; [|lia].
  destruct (decide (i = 0)) as [->|Hne]; [done|]. rewrite <-(IH (i - 1)) by lia.
  unfold vat. replace (Z.to_nat i) with (S (Z.to_nat (i - 1))) by lia. done.
Qed.

Lemma entries_drop s init l : vts_rel s (init, l) -> entries s = drop (Z.to_nat init) l.
Proof.
  intros (Hs & Hi & Hm & Hb). simpl in *. pose proof Hs as [Hr Hl _ _]. apply vat_ext; [rewrite vlen_drop; lia|].
  intros i Hi'. rewrite vat_drop, Hb by lia. unfold born. rewrite (proj2 (Z.ltb_ge _ _)) by lia. f_equal. lia.
Qed.

(** Dropping the entries of a prefix of vertices that exist since timestamp 0. *)
Lemma drop_prefix_rel s init l first k : vts_rel s (init, l) -> 0 <= first -> init + first <= vlen l ->
  (forall i, 0 <= i < first -> vat l (init + i) = 0) ->
  vlen k = vlen l - init - first -> Forall is_ts k ->
  (forall i, 0 <= i < vlen k -> vat k i = vat l (init + first + i)) ->
  vts_rel (VTS (init + first) (Some k) (max_vertex_num_ s) (removed_vertices_ s)) (init + first, l).
Proof.
  intros (Hs & Hi & Hm & Hb) Hf Hfl Hz Hk Hkw Hkv. simpl in *. pose proof Hs as [Hr Hl Hw Hrm].
  apply vts_relI; simpl; [|done|done|].
  - split; simpl; [lia|unfold entries; simpl; lia|done|]. intros v Hv. specialize (Hrm v Hv). lia.
  - intros v Hv. unfold born, entries. simpl. destruct (Z.ltb_spec v (init + first)) as [Hlt|Hge].
    + unfold is_removed_below. simpl. fold (is_removed_below s v). destruct (Z.ltb_spec v init) as [Hlt'|Hge'].
      * rewrite Hb, born_below by lia. done.
      * destruct (is_removed_below s v) eqn:E; [specialize (Hrm v E); lia|].
        replace v with (init + (v - init)) by lia. apply Hz. lia.
    + rewrite Hkv by lia. f_equal. lia.
Qed.

Lemma vts_compact_rel s init l : vts_rel s (init, l) ->
  wp (vts_compact s) (fun s' =>
    vts_rel s' (init + first_non_zero (drop (Z.to_nat init) (map reset_ts l)), map reset_ts l)).
Proof.
  intros Hrel. unfold vts_compact. apply wp_bind. eapply wp_mono; [by apply ResetTimestamps_rel|].
  clear s Hrel. intros s Hrel. set (l' := map reset_ts l) in *. clearbody l'. clear l.
  pose proof Hrel as (Hs & Hi & Hm & Hb). simpl in *. pose proof Hs as [Hr Hl Hw _].
  rewrite <-(entries_drop s init l' Hrel). unfold entries in *. destruct (inserted_vertices_ s) as [k|] eqn:Ek; simpl in *.
  - rewrite to_u32_small, <-Hl by lia.
    replace (take (Z.to_nat (vlen k)) k) with k by (unfold vlen; by rewrite Nat2Z.id, firstn_all).
    pose proof (first_non_zero_bounds k). destruct (Z.ltb_spec 0 (first_non_zero k)).
    + apply wp_bind. eapply wp_mono; [apply resize_inserted_wp; [done|lia]|].
      intros s' (k' & -> & Hk & Hkw & Hkv). wsteps. simpl in *. unfold entries in Hkv. rewrite Ek in Hkv. simpl in Hkv.
      rewrite Hi. assert (forall i, 0 <= i < vlen k -> vat k i = vat l' (init + i)) as Hke.
      { intros i Hi'. rewrite Hb by lia. unfold born, entries. rewrite Ek, (proj2 (Z.ltb_ge _ _)) by lia. simpl. f_equal. lia. }
      apply drop_prefix_rel; try done; try lia.
      * intros i Hi'. rewrite <-Hke by lia. by apply first_non_zero_spec.
      * intros i Hi'. rewrite Hkv by lia. rewrite decide_True by lia. rewrite Hke by lia. f_equal. lia.
    + wsteps. by replace (init + first_non_zero k) with init by lia.
  - wsteps. by rewrite Z.add_0_r.
Qed.

Lemma valid_rel s init l v ts : vts_rel s (init, l) -> 0 <= v -> v <> vlen l -> 0 <= ts < DELETED_TIMESTAMP ->
  IsVertexValid s v ts = Some ((v <? vlen l) && (vat l v <=? ts)).
Proof.
  intros (Hs & Hi & Hm & Hb) Hv Hne Hts. simpl in *. pose proof (vo_range _ Hs). unfold IsVertexValid. rewrite Hm.
  destruct (Z.ltb_spec (vlen l) v); [by rewrite (proj2 (Z.ltb_ge _ _)) by lia|].
  rewrite (proj2 (Z.ltb_lt _ _)), Hb by lia. simpl. destruct (Z.leb_spec (init_vertex_num_ s) v).
  - by rewrite ts_load_wp by (done || lia).
  - rewrite born_below by lia. by destruct (is_removed_below s v), (Z.leb_spec DELETED_TIMESTAMP ts), (Z.leb_spec 0 ts); try lia.
Qed.

Lemma is_removed_rel s init l v : vts_rel s (init, l) -> 0 <= v ->
  IsRemoved s v = Some ((v <? vlen l) && (vat l v =? DELETED_TIMESTAMP)).
Proof.
  intros (Hs & Hi & Hm & Hb) Hv. simpl in *. pose proof (vo_range _ Hs). unfold IsRemoved. rewrite Hm.
  destruct (Z.leb_spec (vlen l) v); [by rewrite (proj2 (Z.ltb_ge _ _)) by lia|].
  rewrite (proj2 (Z.ltb_lt _ _)), Hb by lia. simpl. destruct (Z.leb_spec (init_vertex_num_ s) v).
  - by rewrite ts_load_wp by (done || lia).
  - rewrite born_below by lia. by destruct (is_removed_below s v).
Qed.

Ltac split_guard H := match type of H with
  | (if ?b then _ else _) = Some _ => let E := fresh "G" in destruct b eqn:E; [|first [done|idtac]] end.

(** Every call agrees with the call on the list of timestamps. *)
Lemma exec_rel op s a out a' : vts_rel s a -> list_step op a = Some (out, a') ->
  wp (vts_exec op s) (fun r => fst r = out /\ vts_rel (snd r) a').
Proof.
  destruct a as [init l]. intros Hrel Hstep. pose proof Hrel as (Hs & Hi & Hm & Hb). simpl in Hi, Hm.
  pose proof (vo_range _ Hs). destruct op as [v ts|v|v old|v ts|v|ts limit|vnum ts|n|]; cbn [list_step vts_exec] in *.
  - split_guard Hstep. assert (init <= v < vlen l /\ 0 <= ts < DELETED_TIMESTAMP) as [Hv Hts] by lia.
    unfold InsertVertex. rewrite (proj2 (Z.ltb_ge _ _)) by lia. apply wp_bind.
    eapply wp_mono; [by apply insert_at_rel|]. intros r Hr. wsteps.
    destruct (vat l v =? DELETED_TIMESTAMP); injection Hstep as <- <-; [by destruct Hr as (s' & -> & Hs')|by subst r].
  - destruct (Z.leb_spec (vlen l) v).
    + injection Hstep as <- <-. unfold RemoveVertex. rewrite (proj2 (Z.leb_le _ _)) by lia. by wsteps.
    + split_guard Hstep. apply wp_bind. eapply wp_mono; [apply (remove_rel s init l v Hrel); [lia|]|].
      { intros Hlt Hd. rewrite Hd, Z.eqb_refl, (proj2 (Z.ltb_lt _ _)) in G by done. by rewrite andb_false_r in G. }
      intros r Hr. wsteps.
      destruct (vat l v =? DELETED_TIMESTAMP); injection Hstep as <- <-; [by subst r|by destruct Hr as (s' & -> & Hs')].
  - split_guard Hstep. injection Hstep as <- <-. apply wp_bind.
    eapply wp_mono; [apply (revert_rel s init l v old Hrel); lia|]. intros r (s' & -> & Hs'). by wsteps.
  - split_guard Hstep. injection Hstep as <- <-. rewrite (valid_rel s init l) by (done || lia). by wsteps.
  - split_guard Hstep. injection Hstep as <- <-. rewrite (is_removed_rel s init l) by (done || lia). by wsteps.
  - split_guard Hstep. injection Hstep as <- <-. rewrite (count_rel s init l) by (done || lia). by wsteps.
  - split_guard Hstep. injection Hstep as <- <-. rewrite (foreach_rel s init l) by (done || lia). by wsteps.
  - split_guard Hstep. injection Hstep as <- <-. apply wp_bind. eapply wp_mono; [apply (reserve_rel s init l n Hrel); lia|].
    intros s' Hs'. by wsteps.
  - injection Hstep as <- <-. apply wp_bind. eapply wp_mono; [by apply vts_compact_rel|]. intros s' Hs'. by wsteps.
Qed.
