(* ===== verification/VertexTable.v ===== *)
(** * Vertex tables

    [VertexTable] (include/neug/storages/graph/vertex_table.h,
    src/storages/graph/vertex_table.cc): the vertices of one label.  The index gives a
    vertex its number and keeps its key, the timestamps say when it exists and the
    table has its properties.  [vertex_schema_] is shared with the schema, which
    changes it in place; it is an argument of the operations that read it.  Files are
    left out: a table is opened where there are none. *)
From stdpp Require Import strings.
From S2P Require Import Prelude Storage Aggregate Archive VertexTimestamp Bitset Property Column IdIndexer Table VertexSchema.
#[local] Open Scope Z_scope.

Definition MAX_TIMESTAMP : Z := 2 ^ 32 - 2.

(** [numeric_limits<vid_t>::max()]. *)
Definition invalid_vid : Z := 2 ^ 32 - 1.

Record VertexTable := MkVertexTable {
  indexer_ : LFIndexer;
  table_ : option Table;             (* [None] is the null pointer *)
  pk_type_ : DataType;
  v_ts_ : VertexTimestamp
}.

Section vertex_table.
Context `{!Memory} (std_hash : Property -> Z).
Implicit Types (t : VertexTable) (m : VertexSchema).

Definition with_indexer t (i : LFIndexer) : VertexTable := MkVertexTable i (table_ t) (pk_type_ t) (v_ts_ t).
Definition with_table t (tb : Table) : VertexTable := MkVertexTable (indexer_ t) (Some tb) (pk_type_ t) (v_ts_ t).
Definition with_ts t (s : VertexTimestamp) : VertexTable := MkVertexTable (indexer_ t) (table_ t) (pk_type_ t) s.

(** A call that only reports an exception. *)
Definition raise {A} (r : outcome A) t : option (outcome A * VertexTable) := Some (r, t).

(** The constructor: the index is initialised without the length of a string type. *)
Definition new_vertex_table m : option (outcome VertexTable) :=
  '(ty, _, _) ← vget (primary_keys m) 0;
  Some (match init_indexer ty.1 None new_indexer with
        | Thrown => Thrown
        | Returned i => Returned (MkVertexTable i (Some new_table) ty new_timestamps)
        end).

(** [Open], without files. *)
Definition Open m t : option (outcome unit * VertexTable) :=
  let t := with_indexer t (open_empty (indexer_ t)) in
  _ ← table_ t;
  through (with_table t) (initColumns (property_names m) (property_types m)).

Definition SetVertexSchema (old m : VertexSchema) : outcome VertexSchema :=
  if negb (vlen (primary_keys m) =? 1) then Thrown else if negb (is_pk_same old m) then Thrown else Returned m.

(** *** Queries *)

Definition get_index t (oid : Property) (ts : Z) : option (outcome (option Z)) :=
  res ← get_index_opt std_hash (indexer_ t) oid;
  match res with
  | Returned (Some lid) => valid ← IsVertexValid (v_ts_ t) lid ts; Some (Returned (if valid : bool then Some lid else None))
  | _ => Some res
  end.

Definition LidNum t : Z := num_elements_ (indexer_ t).
Definition VertexNum t (ts : Z) : option Z := ValidVertexNum (v_ts_ t) ts (LidNum t).
Definition Capacity t : option Z := capacity (indexer_ t).

Definition GetOid t (lid ts : Z) : option (outcome Property) :=
  if LidNum t <=? lid then Some Thrown
  else
    valid ← IsVertexValid (v_ts_ t) lid ts;
    if negb valid then Some Thrown else k ← get_key (indexer_ t) lid; Some (Returned k).

Definition IsValidLid t (lid ts : Z) : option bool :=
  if lid <? LidNum t then IsVertexValid (v_ts_ t) lid ts else Some false.

(** The vertices that the iterator of [GetVertexSet(ts)] visits: [begin] and [++] go
    to the next valid number. *)
Fixpoint next_valid (fuel : nat) (s : VertexTimestamp) (v limit ts : Z) : option Z :=
  match fuel with
  | O => Some v
  | S fuel =>
      if v <? limit then valid ← IsVertexValid s v ts; if valid : bool then Some v else next_valid fuel s (v + 1) limit ts
      else Some v
  end.

Fixpoint visit_set (fuel : nat) (s : VertexTimestamp) (v limit ts : Z) : option (list Z) :=
  match fuel with
  | O => Some []
  | S fuel =>
      if v =? limit then Some []
      else next ← next_valid (Z.to_nat limit) s (v + 1) limit ts; vs ← visit_set fuel s next limit ts; Some (v :: vs)
  end.

Definition GetVertexSet t (ts : Z) : option (list Z) :=
  let size := LidNum t in
  start ← next_valid (Z.to_nat size) (v_ts_ t) 0 size ts; visit_set (Z.to_nat size) (v_ts_ t) start size ts.

(** [GetPropertyColumn]: the keys, a column of the table, or a null pointer. *)
Definition GetPropertyColumn t m (prop : string) : option (option Column) :=
  pk ← primary_key_name m;
  if bool_decide (prop = pk) then c ← keys_ (indexer_ t); Some (Some c)
  else tb ← table_ t; Some (get_column tb prop).

(** *** Insertion *)

(** The number that [get_index(id, vid)] finds or [insert] gives. *)
Definition claim_vid t (id : Property) (ts : Z) (insert_safe : bool) : option (outcome Z * VertexTable) :=
  res ← get_index_opt std_hash (indexer_ t) id;
  match res with
  | Thrown => Some (Thrown, t)
  | Returned (Some vid) => valid ← IsVertexValid (v_ts_ t) vid ts; Some (if valid : bool then Thrown else Returned vid, t)
  | Returned None => through (with_indexer t) (insert std_hash (indexer_ t) id insert_safe)
  end.

Definition stamp_vid (vid ts : Z) t : option (outcome Z * VertexTable) :=
  '(r, s) ← InsertVertex (v_ts_ t) vid ts;
  Some (match r with Thrown => Thrown | Returned _ => Returned vid end, with_ts t s).

Definition insert_vertex_pk t (id : Property) (ts : Z) (insert_safe : bool) : option (outcome Z * VertexTable) :=
  and_then (claim_vid t id ts insert_safe) (fun vid t => stamp_vid vid ts t).

(** The vertex, or nothing when the reserved space is used up. *)
Definition AddVertex t (id : Property) (props : list Property) (ts : Z) (insert_safe : bool) : option (outcome (option Z) * VertexTable) :=
  cap ← Capacity t;
  if cap <=? LidNum t then Some (Returned None, t)
  else
    and_then (insert_vertex_pk t id ts insert_safe) (fun vid t =>
      tb ← table_ t;
      and_then (through (with_table t) (table_insert tb vid props insert_safe)) (fun _ t => Some (Returned (Some vid), t))).

(** The keys of a batch; a key that is there gives [invalid_vid]. *)
Definition insert_primary_key (oid : Property) t : option (outcome Z * VertexTable) :=
  res ← get_index_opt std_hash (indexer_ t) oid;
  match res with
  | Thrown => Some (Thrown, t)
  | Returned (Some vid) =>
      valid ← IsVertexValid (v_ts_ t) vid MAX_TIMESTAMP;
      if valid : bool then Some (Returned invalid_vid, t) else stamp_vid vid 0 t
  | Returned None => insert_vertex_pk t oid 0 false
  end.

Fixpoint insert_primary_keys (oids : list Property) t : option (outcome (list Z) * VertexTable) :=
  match oids with
  | [] => Some (Returned [], t)
  | oid :: oids =>
      and_then (insert_primary_key oid t) (fun vid t => and_then (insert_primary_keys oids t) (fun vids t => Some (Returned (vid :: vids), t)))
  end.

Definition EnsureCapacity t m (cap : Z) : option (outcome Z * VertexTable) :=
  old ← Capacity t;
  if cap <=? old then Some (Returned old, t)
  else
    let cap := Z.max cap 4096 in
    i ← (if old <? cap then reserve_indexer std_hash (indexer_ t) cap else Some (indexer_ t));
    let t := with_indexer t i in
    and_then (match table_ t with
              | Some tb =>
                  size ← table_size tb;
                  if size <? cap then through (with_table t) (table_resize_default tb cap (default_property_values m)) else Some (Returned tt, t)
              | None => Some (Returned tt, t)
              end) (fun _ t =>
    s ← vts_reserve (v_ts_ t) cap;
    let t := with_ts t s in
    cap ← Capacity t; Some (Returned cap, t)).

(** *** Changes *)

(** The result tells if the property was set. *)
Definition UpdateProperty t (vid prop_id : Z) (value : Property) (ts : Z) : option (outcome bool * VertexTable) :=
  if LidNum t <=? vid then Some (Returned false, t)
  else
    valid ← IsVertexValid (v_ts_ t) vid ts;
    if negb valid then Some (Returned false, t)
    else
      tb ← table_ t;
      if (prop_id <? 0) || (col_num tb <=? prop_id) then Some (Returned false, t)
      else
        c ← get_column_by_id tb prop_id;
        '(r, c) ← col_set_any c vid value false;
        cs ← vset (columns_ tb) prop_id (Some c);
        Some (match r with Thrown => Thrown | Returned _ => Returned true end, with_table t (with_columns cs tb)).

(** [v_ts_.RemoveVertex(v)]. *)
Definition remove_vid (v : Z) t : option (outcome unit * VertexTable) :=
  r ← RemoveVertex (v_ts_ t) v;
  Some (match r with Thrown => (Thrown, t) | Returned (_, s) => (Returned tt, with_ts t s) end).

Definition BatchDeleteVertices t (vids : list Z) : option (outcome unit * VertexTable) :=
  each vids (fun v t =>
    valid ← IsValidLid t v MAX_TIMESTAMP;
    if valid : bool then remove_vid v t else Some (Returned tt, t)) t.

Definition DeleteVertex t (lid ts : Z) : option (outcome unit * VertexTable) :=
  if LidNum t <=? lid then Some (Returned tt, t)
  else
    valid ← IsVertexValid (v_ts_ t) lid ts;
    if valid : bool then remove_vid lid t else Some (Returned tt, t).

Definition DeleteVertexById t (id : Property) (ts : Z) : option (outcome unit * VertexTable) :=
  r ← get_index t id ts;
  match r with
  | Thrown => Some (Thrown, t)
  | Returned None => Some (Returned tt, t)
  | Returned (Some vid) => DeleteVertex t vid ts
  end.

Definition RevertDeleteVertex t (lid ts : Z) : option (outcome unit * VertexTable) :=
  removed ← IsRemoved (v_ts_ t) lid;
  if removed : bool then
    r ← RevertRemoveVertex (v_ts_ t) lid ts;
    Some (match r with Thrown => (Thrown, t) | Returned s => (Returned tt, with_ts t s) end)
  else Some (Returned tt, t).

Definition DeleteProperties t (properties : list string) : option VertexTable :=
  tb ← table_ t; tb ← for_each properties tb (fun prop tb => delete_column tb prop); Some (with_table t tb).

Definition AddProperties t (properties : list string) (types : list DataType) (default_values : list Property) : option (outcome unit * VertexTable) :=
  tb ← table_ t; cap ← Capacity t; through (with_table t) (add_columns tb properties types default_values cap).

(** [CHECK(old_names.size() == new_names.size())] *)
Definition RenameProperties t (old_names new_names : list string) : option VertexTable :=
  if vlen old_names =? vlen new_names then
    tb ← table_ t; tb ← for_each (zip old_names new_names) tb (fun '(old, new) tb => rename_column tb old new); Some (with_table t tb)
  else None.

(** The index keeps its counters; its closed column and container are [None], they are
    not used before they are opened again. *)
Definition Drop t : option VertexTable :=
  let i := indexer_ t in
  _ ← table_ t;
  Some (MkVertexTable (MkIndexer None 0 (num_elements_ i) (num_slots_minus_one_ i) None (hash_policy_ i)) None (pk_type_ t) (vts_reset (v_ts_ t))).

Definition is_dropped t : bool := match table_ t with None => true | Some _ => false end.

Definition Compact t : option VertexTable := s ← vts_compact (v_ts_ t); Some (with_ts t s).
End vertex_table.
