(* ===== verification/VertexTheorems.v ===== *)
(** * A vertex table as a list of vertices

    [vt_step] is what a vertex table promises: a list of keys, the time from which
    each vertex exists, and columns of properties.  [vertex_table_refines] shows that
    [VertexTable] keeps the promise, and [deleted_vertex_not_reloaded] that it cannot
    be kept where [vt_step] is [None]: a vertex that was deleted after a compaction. *)
From stdpp Require Import strings.
From S2P Require Import Prelude Storage Aggregate Archive VertexTimestamp Bitset Property PropertyTheorems Column ColumnTheorems ColumnSpec.
From S2P Require Import IdIndexer IndexerTheorems Table TableTheorems EdgeSchema VertexSchema VertexTable.
#[local] Open Scope Z_scope.

(** ** The specification *)

Record avt := AVT {
  av_keys : list Property;           (* by vertex number *)
  av_cap : Z;                        (* vertices there is room for *)
  av_used : Z;                       (* bytes of the string keys *)
  av_init : Z;                       (* vertices below exist since time 0 or are deleted *)
  av_stamps : list Z;                (* [DELETED_TIMESTAMP] where there is no vertex *)
  av_cols : list acol
}.
Implicit Types a : avt.

Definition av_times (init : Z) (l : list Z) a : avt := AVT (av_keys a) (av_cap a) (av_used a) init l (av_cols a).
Definition av_stamp (v ts : Z) a : avt := av_times (av_init a) (vput (av_stamps a) v ts) a.
Definition av_columns (cols : list acol) a : avt := AVT (av_keys a) (av_cap a) (av_used a) (av_init a) (av_stamps a) cols.

Definition num a : Z := vlen (av_keys a).
Definition is_time (ts : Z) : bool := (0 <=? ts) && (ts <? DELETED_TIMESTAMP).

(** Vertex [v] exists at [ts]. *)
Definition seen a (v ts : Z) : bool := (v <? num a) && (vat (av_stamps a) v <=? ts).
Definition seen_vertices a (ts : Z) : list Z := filter (fun v => seen a v ts = true) (seqZ 0 (num a)).

Definition key_index (ty : DataTypeId) a (id : Property) : option Z :=
  if bool_decide (prop_type id = ty) then index_of (av_keys a) id 0 else None.

Inductive vt_op :=
| DoAdd (id : Property) (props : list Property) (ts : Z) (insert_safe : bool)
| DoFind (oid : Property) (ts : Z)
| DoCount (ts : Z)
| DoVertices (ts : Z)
| DoOid (lid ts : Z)
| DoValid (lid ts : Z)
| DoCell (m : VertexSchema) (prop : string) (v : Z)
| DoUpdate (vid prop_id : Z) (value : Property) (ts : Z)
| DoDelete (lid ts : Z)
| DoDeleteId (id : Property) (ts : Z)
| DoDeleteBatch (vids : list Z)
| DoRevert (lid ts : Z)
| DoEnsure (m : VertexSchema) (cap : Z)
| DoAddProps (names : list string) (types : list DataType) (default_values : list Property)
| DoDeleteProps (names : list string)
| DoRenameProps (names renames : list string)
| DoCompact.

Inductive vt_out := RDone | RThrown | RVid (v : option Z) | RNum (n : Z) | RVids (vs : list Z) | RKey (p : Property) | RBool (b : bool) | RCell (p : option Property).

(** A row of properties. *)
Definition put_row (v : Z) (props : list Property) (safe : bool) a : option (vt_out * avt) :=
  '(o, cols) ← cols_exec (TInsert v props safe) (av_cols a); Some (match o with TDone => RVid (Some v) | _ => RThrown end, av_columns cols a).

Definition remove a (v ts : Z) : avt := if seen a v ts then av_stamp v DELETED_TIMESTAMP a else a.

Definition cols_all (ops : list table_op) (cols : list acol) : option (list acol) :=
  for_each ops cols (fun op cols => '(o, cols) ← cols_exec op cols; match o with TDone => Some cols | _ => None end).

(** The size of the table. *)
Definition rows_of (cols : list acol) : Z := match cols with [] => 0 | c :: _ => vlen (fst (ac_vals c)) end.

(** [None] outside the contract: times are no deletion marks; a new key has the type of
    the index and fits its column; a deleted vertex below [av_init] is not added again
    nor put back with a time other than 0; new capacities are below [2 ^ 32] and take
    the default values; names do not collide. *)
Definition vt_step (ty : DataTypeId) (w : Z) (op : vt_op) a : option (vt_out * avt) :=
  match op with
  | DoAdd id props ts safe =>
      if negb (is_time ts) then None
      else if av_cap a <=? num a then Some (RVid None, a)
      else match key_index ty a id with
           | Some v =>
               if seen a v ts then Some (RThrown, a)
               else if negb (av_init a <=? v) then None
               else if vat (av_stamps a) v =? DELETED_TIMESTAMP then put_row v props safe (av_stamp v ts a)
               else Some (RThrown, a)
           | None =>
               '(_, (ks, _, used)) ← keys_exec ty w (KInsert id safe) (av_keys a, av_cap a, av_used a);
               put_row (num a) props safe (AVT ks (av_cap a) used (av_init a) (vput (av_stamps a) (num a) ts) (av_cols a))
           end
  | DoFind oid ts =>
      if is_time ts then Some (RVid (v ← key_index ty a oid; if seen a v ts then Some v else None), a) else None
  | DoCount ts => if is_time ts then Some (RNum (vlen (seen_vertices a ts)), a) else None
  | DoVertices ts => if is_time ts then Some (RVids (seen_vertices a ts), a) else None
  | DoOid lid ts =>
      if is_time ts && (0 <=? lid) then Some (if seen a lid ts then RKey (vat (av_keys a) lid) else RThrown, a) else None
  | DoValid lid ts => if is_time ts && (0 <=? lid) then Some (RBool (seen a lid ts), a) else None
  | DoCell m prop v =>
      pk ← primary_key_name m;
      if negb ((0 <=? v) && (v <? num a)) then None
      else if bool_decide (prop = pk) then Some (RCell (Some (vat (av_keys a) v)), a)
      else '(o, _) ← cols_exec (TGet prop v) (av_cols a); match o with TCell p => Some (RCell p, a) | _ => None end
  | DoUpdate vid prop_id value ts =>
      if negb (is_time ts && (0 <=? vid)) then None
      else if negb (seen a vid ts) then Some (RBool false, a)
      else match vget (av_cols a) prop_id with
           | None => Some (RBool false, a)
           | Some c => '(r, c) ← ac_step (OpSet vid value false) c;
               Some (match r with Thrown => RThrown | Returned _ => RBool true end, av_columns (vput (av_cols a) prop_id c) a)
           end
  | DoDelete lid ts => if is_time ts && (0 <=? lid) then Some (RDone, remove a lid ts) else None
  | DoDeleteId id ts =>
      if is_time ts then Some (RDone, match key_index ty a id with Some v => remove a v ts | None => a end) else None
  | DoDeleteBatch vids =>
      if forallb (fun v => 0 <=? v) vids then Some (RDone, foldl (fun a v => remove a v MAX_TIMESTAMP) a vids) else None
  | DoRevert lid ts =>
      if negb (is_time ts && (0 <=? lid) && (lid <? num a)) then None
      else if negb (vat (av_stamps a) lid =? DELETED_TIMESTAMP) then Some (RDone, a)
      else if (av_init a <=? lid) || (ts =? 0) then Some (RDone, av_stamp lid ts a) else None
  | DoEnsure m n =>
      if n <=? av_cap a then Some (RNum (av_cap a), a)
      else
        let n := Z.max n 4096 in
        if negb (n <? 2 ^ 32) then None
        else
          cols ← (if rows_of (av_cols a) <? n then cols_all [TResizeDefault n (default_property_values m)] (av_cols a) else Some (av_cols a));
          Some (RNum n, AVT (av_keys a) n (av_used a) (av_init a) (av_stamps a ++ vnew (n - av_cap a) DELETED_TIMESTAMP) cols)
  | DoAddProps names types ds => cols ← cols_all [TAdd names types ds (av_cap a)] (av_cols a); Some (RDone, av_columns cols a)
  | DoDeleteProps names => cols ← cols_all (map TDelete names) (av_cols a); Some (RDone, av_columns cols a)
  | DoRenameProps names renames =>
      if vlen names =? vlen renames then cols ← cols_all (zip_with TRename names renames) (av_cols a); Some (RDone, av_columns cols a) else None
  | DoCompact =>
      let l := map reset_ts (av_stamps a) in
      Some (RDone, av_times (av_init a + first_non_zero (drop (Z.to_nat (av_init a)) l)) l a)
  end.

Fixpoint vrun {S} (exec : vt_op -> S -> option (vt_out * S)) (ops : list vt_op) (s : S) : option (list vt_out * S) :=
  match ops with
  | [] => Some ([], s)
  | op :: ops => '(o, s) ← exec op s; '(os, s) ← vrun exec ops s; Some (o :: os, s)
  end.

Section vertices.
Context `{!Memory} (std_hash : Property -> Z).
Implicit Types t : VertexTable.

(** The calls. *)
Definition report {A} (f : A -> vt_out) (r : option (outcome A * VertexTable)) : option (vt_out * VertexTable) :=
  '(r, t) ← r; Some (match r with Returned x => f x | Thrown => RThrown end, t).
Definition ask {A} (f : A -> vt_out) t (r : option A) : option (vt_out * VertexTable) := x ← r; Some (f x, t).
Definition answer {A} (f : A -> vt_out) (r : outcome A) : vt_out := match r with Returned x => f x | Thrown => RThrown end.

Definition vt_exec (op : vt_op) t : option (vt_out * VertexTable) :=
  match op with
  | DoAdd id props ts safe => report RVid (AddVertex std_hash t id props ts safe)
  | DoFind oid ts => ask (answer RVid) t (VertexTable.get_index std_hash t oid ts)
  | DoCount ts => ask RNum t (VertexNum t ts)
  | DoVertices ts => ask RVids t (GetVertexSet t ts)
  | DoOid lid ts => ask (answer RKey) t (GetOid t lid ts)
  | DoValid lid ts => ask RBool t (IsValidLid t lid ts)
  | DoCell m prop v =>
      c ← GetPropertyColumn t m prop; match c with None => Some (RCell None, t) | Some c => ask (fun p => RCell (Some p)) t (col_get_prop c v) end
  | DoUpdate vid prop_id value ts => report RBool (UpdateProperty t vid prop_id value ts)
  | DoDelete lid ts => report (fun _ => RDone) (DeleteVertex t lid ts)
  | DoDeleteId id ts => report (fun _ => RDone) (DeleteVertexById std_hash t id ts)
  | DoDeleteBatch vids => report (fun _ => RDone) (BatchDeleteVertices t vids)
  | DoRevert lid ts => report (fun _ => RDone) (RevertDeleteVertex t lid ts)
  | DoEnsure m n => report RNum (EnsureCapacity std_hash t m n)
  | DoAddProps names types ds => report (fun _ => RDone) (AddProperties t names types ds)
  | DoDeleteProps names => t ← DeleteProperties t names; Some (RDone, t)
  | DoRenameProps names renames => t ← RenameProperties t names renames; Some (RDone, t)
  | DoCompact => t ← Compact t; Some (RDone, t)
  end.

(** ** The relation *)

Record vt_rel (ty : DataTypeId) (w : Z) t a : Prop := {
  vr_index : index_rel std_hash ty w (indexer_ t) (av_keys a, av_cap a, av_used a);
  vr_times : vts_rel (v_ts_ t) (av_init a, av_stamps a);
  vr_table : exists tb, table_ t = Some tb /\ table_rel tb (av_cols a);
  vr_cap : vlen (av_stamps a) = av_cap a;
  vr_init : 0 <= av_init a <= num a;
  vr_tail v : num a <= v < av_cap a -> vat (av_stamps a) v = DELETED_TIMESTAMP;
  vr_num : num a <= av_cap a
}.

Section related.
Context (ty : DataTypeId) (w : Z) (t : VertexTable) (a : avt) (Hrel : vt_rel ty w t a).

Lemma lid_num : LidNum t = num a.
Proof. apply (capacity_rel _ _ _ _ _ (vr_index _ _ _ _ Hrel)). Qed.

Lemma lid_capacity : Capacity t = Some (av_cap a).
Proof. apply (capacity_rel _ _ _ _ _ (vr_index _ _ _ _ Hrel)). Qed.

Lemma find_key id : get_index_opt std_hash (indexer_ t) id = Some (Returned (key_index ty a id)).
Proof. apply (get_rel _ _ _ _ _ _ (vr_index _ _ _ _ Hrel)). Qed.

Lemma key_index_range id v : key_index ty a id = Some v -> 0 <= v < num a.
Proof.
  destruct (vr_index _ _ _ _ Hrel) as (vals & [Hk _] & _). unfold key_index. case_bool_decide as Ht; [|done].
  pose proof (index_of_spec ty (av_keys a) id 0 (kr_type _ _ _ _ _ Hk) (kr_keys _ _ _ _ _ Hk) Ht) as Hs.
  destruct (index_of (av_keys a) id 0) as [j|]; [|done]. intros [= <-]. unfold num. lia.
Qed.

Lemma valid_at v ts : 0 <= v < num a -> is_time ts = true -> IsVertexValid (v_ts_ t) v ts = Some (seen a v ts).
Proof.
  intros Hv Hts. pose proof (vr_num _ _ _ _ Hrel). pose proof (vr_cap _ _ _ _ Hrel). unfold is_time, seen in *.
  rewrite (valid_rel _ _ _ v ts (vr_times _ _ _ _ Hrel)) by lia. by rewrite !(proj2 (Z.ltb_lt _ _)) by lia.
Qed.

Lemma valid_lid v ts : 0 <= v -> is_time ts = true -> IsValidLid t v ts = Some (seen a v ts).
Proof.
  intros Hv Hts. unfold IsValidLid. rewrite lid_num. destruct (Z.ltb_spec v (num a)); [apply valid_at; [lia|done]|].
  unfold seen. by rewrite (proj2 (Z.ltb_ge _ _)) by lia.
Qed.

(** Other timestamps. *)
Lemma vt_rel_times s init l : vts_rel s (init, l) -> vlen l = av_cap a -> 0 <= init <= num a ->
  (forall v, num a <= v < av_cap a -> vat l v = DELETED_TIMESTAMP) -> vt_rel ty w (with_ts t s) (av_times init l a).
Proof. intros Hs Hl Hi Ht. destruct Hrel as [H1 _ H3 _ _ _ H7]. by split. Qed.

Lemma vt_rel_stamp s v x : vts_rel s (av_init a, vput (av_stamps a) v x) -> 0 <= v < num a -> vt_rel ty w (with_ts t s) (av_stamp v x a).
Proof.
  intros Hs Hv. pose proof (vr_num _ _ _ _ Hrel). pose proof (vr_cap _ _ _ _ Hrel). apply vt_rel_times; [done|by rewrite vlen_vput|apply (vr_init _ _ _ _ Hrel)|].
  intros u Hu. rewrite vat_vput by lia. rewrite decide_False by lia. by apply (vr_tail _ _ _ _ Hrel).
Qed.

(** A call on the table. *)
Lemma vt_rel_table op o cols : cols_exec op (av_cols a) = Some (o, cols) ->
  exists tb tb', table_ t = Some tb /\ table_exec op tb = Some (o, tb') /\ vt_rel ty w (with_table t tb') (av_columns cols a).
Proof.
  intros Hx. destruct Hrel as [H1 H2 (tb & Htb & Htr) H4 H5 H6 H7]. destruct (table_exec_rel tb _ op o cols Htr Hx) as (tb' & Hx' & Htr').
  exists tb, tb'. split; [done|]. split; [done|]. split; try done. by exists tb'.
Qed.

(** *** Timestamps *)

Lemma remove_vid_rel v ts : 0 <= v -> is_time ts = true -> seen a v ts = true ->
  wp (remove_vid v t) (fun r => fst r = Returned tt /\ vt_rel ty w (snd r) (av_stamp v DELETED_TIMESTAMP a)).
Proof.
  intros Hv Hts Hseen. pose proof (vr_num _ _ _ _ Hrel). pose proof (vr_cap _ _ _ _ Hrel). unfold seen, is_time in *.
  assert (vat (av_stamps a) v <> DELETED_TIMESTAMP) as Hne by lia. unfold remove_vid. apply wp_bind.
  eapply wp_mono; [apply (remove_rel _ _ _ v (vr_times _ _ _ _ Hrel)); [lia|by intros _]|]. intros r Hr. rewrite (proj2 (Z.eqb_neq _ _) Hne) in Hr.
  destruct Hr as (s & -> & Hs). apply wp_ret. split; [done|]. apply vt_rel_stamp; [done|lia].
Qed.

Lemma delete_rel_vt lid ts : 0 <= lid -> is_time ts = true ->
  wp (DeleteVertex t lid ts) (fun r => fst r = Returned tt /\ vt_rel ty w (snd r) (remove a lid ts)).
Proof.
  intros Hl Hts. unfold DeleteVertex, remove. rewrite lid_num. destruct (Z.leb_spec (num a) lid) as [Hge|Hlt].
  - apply wp_ret. split; [done|]. unfold seen. by rewrite (proj2 (Z.ltb_ge _ _)) by lia.
  - rewrite valid_at by (done || lia). cbn [mbind option_bind]. destruct (seen a lid ts) eqn:E; [by apply (remove_vid_rel lid ts)|by apply wp_ret].
Qed.

Lemma stamp_vid_rel v ts : av_init a <= v < num a -> is_time ts = true ->
  wp (stamp_vid v ts t) (fun r => if vat (av_stamps a) v =? DELETED_TIMESTAMP then fst r = Returned v /\ vt_rel ty w (snd r) (av_stamp v ts a)
                                  else fst r = Thrown /\ vt_rel ty w (snd r) a).
Proof.
  intros Hv Hts. pose proof (vr_num _ _ _ _ Hrel). pose proof (vr_cap _ _ _ _ Hrel). pose proof (vr_init _ _ _ _ Hrel). unfold is_time in Hts.
  unfold stamp_vid, InsertVertex. rewrite (proj1 (proj2 (vr_times _ _ _ _ Hrel))). cbn [fst]. rewrite (proj2 (Z.ltb_ge _ _)) by lia.
  apply wp_bind. eapply wp_mono; [apply (insert_at_rel _ _ _ v ts (vr_times _ _ _ _ Hrel)); lia|].
  intros r Hr. destruct (_ =? _); [destruct Hr as (s & -> & Hs)|subst r]; apply wp_ret; (split; [done|]).
  - apply vt_rel_stamp; [done|lia].
  - replace a with (av_times (av_init a) (av_stamps a) a) by (by destruct a). apply vt_rel_times; by apply Hrel.
Qed.

Lemma revert_rel_vt lid ts : 0 <= lid < num a -> is_time ts = true ->
  vat (av_stamps a) lid <> DELETED_TIMESTAMP \/ av_init a <= lid \/ ts = 0 ->
  wp (RevertDeleteVertex t lid ts) (fun r => fst r = Returned tt /\
    vt_rel ty w (snd r) (if vat (av_stamps a) lid =? DELETED_TIMESTAMP then av_stamp lid ts a else a)).
Proof.
  intros Hl Hts Hok. pose proof (vr_num _ _ _ _ Hrel). pose proof (vr_cap _ _ _ _ Hrel). unfold is_time in Hts. unfold RevertDeleteVertex.
  rewrite (is_removed_rel _ _ _ lid (vr_times _ _ _ _ Hrel)), (proj2 (Z.ltb_lt _ _)) by lia. cbn [mbind option_bind andb].
  destruct (Z.eqb_spec (vat (av_stamps a) lid) DELETED_TIMESTAMP) as [Hd|Hd]; [|by apply wp_ret]. apply wp_bind.
  eapply wp_mono; [apply (revert_rel _ _ _ lid ts (vr_times _ _ _ _ Hrel)); naive_solver lia|]. intros r (s & -> & Hs). apply wp_ret. split; [done|].
  apply vt_rel_stamp; [done|lia].
Qed.

(** *** Vertex sets *)

Lemma next_valid_spec ts limit fuel v : is_time ts = true -> 0 <= v <= limit -> limit <= num a -> limit - v <= Z.of_nat fuel ->
  exists u, next_valid fuel (v_ts_ t) v limit ts = Some u /\ v <= u <= limit /\ (u < limit -> seen a u ts = true) /\
    filter (fun x => seen a x ts = true) (seqZ v (limit - v)) = filter (fun x => seen a x ts = true) (seqZ u (limit - u)).
Proof.
  intros Hts. revert v. induction fuel as [|fuel IH]; intros v Hv Hl Hf; cbn [next_valid].
  - exists v. split_and!; [done|lia|lia|lia|done].
  - destruct (Z.ltb_spec v limit); [|exists v; split_and!; [done|lia|lia|lia|done]]. rewrite valid_at by (done || lia). cbn [mbind option_bind].
    destruct (seen a v ts) eqn:E; [exists v; split_and!; [done|lia|lia|done|done]|].
    destruct (IH (v + 1)) as (u & Hu & Hr & Hs & Hfl); [lia|lia|lia|]. exists u. split_and!; [done|lia|lia|done|]. rewrite <-Hfl.
    rewrite (seqZ_cons v (limit - v)) by lia. rewrite filter_cons_False by (by rewrite E). do 2 f_equal; lia.
Qed.

Lemma visit_set_spec ts limit fuel v : is_time ts = true -> 0 <= v <= limit -> limit <= num a -> limit - v <= Z.of_nat fuel ->
  (v < limit -> seen a v ts = true) ->
  visit_set fuel (v_ts_ t) v limit ts = Some (filter (fun x => seen a x ts = true) (seqZ v (limit - v))).
Proof.
  intros Hts. revert v. induction fuel as [|fuel IH]; intros v Hv Hl Hf Hs; cbn [visit_set].
  - replace (limit - v) with 0 by lia. done.
  - destruct (Z.eqb_spec v limit) as [->|]; [by rewrite Z.sub_diag|].
    destruct (next_valid_spec ts limit (Z.to_nat limit) (v + 1) Hts) as (u & -> & Hr & Hu & Hfl); [lia|lia|lia|]. cbn [mbind option_bind].
    rewrite (IH u) by (done || lia). cbn [mbind option_bind]. rewrite <-Hfl. rewrite (seqZ_cons v (limit - v)) by lia.
    rewrite filter_cons_True by (apply Hs; lia). do 4 f_equal; lia.
Qed.

Lemma vertex_set_rel ts : is_time ts = true -> GetVertexSet t ts = Some (seen_vertices a ts).
Proof.
  intros Hts. unfold GetVertexSet, seen_vertices. rewrite lid_num. pose proof (vlen_nonneg (av_keys a)). unfold num in *.
  destruct (next_valid_spec ts (num a) (Z.to_nat (num a)) 0 Hts) as (u & Hn & Hr & Hu & Hfl); [unfold num; lia..|]. unfold num in *. rewrite Hn.
  cbn [mbind option_bind]. rewrite Z.sub_0_r in Hfl. rewrite Hfl. apply visit_set_spec; unfold num; done || lia.
Qed.

Lemma vertex_num_rel ts : is_time ts = true -> VertexNum t ts = Some (vlen (seen_vertices a ts)).
Proof.
  intros Hts. unfold VertexNum. rewrite lid_num. pose proof (vlen_nonneg (av_keys a)). pose proof (vr_num _ _ _ _ Hrel). pose proof (vr_cap _ _ _ _ Hrel).
  unfold is_time in Hts. rewrite (count_rel _ _ _ ts (num a) (vr_times _ _ _ _ Hrel)) by (unfold num; lia). rewrite Z.min_l by lia. do 2 f_equal.
  unfold alive, seen_vertices. apply filter_ext_elem. intros v Hv%elem_of_seqZ. unfold seen. rewrite (proj2 (Z.ltb_lt _ _)) by lia. cbn [andb]. by rewrite Z.leb_le.
Qed.

(** *** Insertion *)

Lemma put_row_rel v props safe out a' : put_row v props safe a = Some (out, a') ->
  wp (report RVid (tb ← table_ t; and_then (through (with_table t) (table_insert tb v props safe)) (fun _ t => Some (Returned (Some v), t))))
    (fun r => fst r = out /\ vt_rel ty w (snd r) a').
Proof.
  unfold put_row. destruct (cols_exec _ _) as [[o cols]|] eqn:E; [|done]. intros [= <- <-].
  destruct (vt_rel_table _ o cols E) as (tb & tb' & -> & Hx & Hr). cbn [mbind option_bind table_exec] in *.
  destruct (table_insert tb v props safe) as [[r tb1]|]; [|done]. injection Hx as <- ->. unfold through, and_then. cbn [mbind option_bind].
  destruct r as [[]|]; by apply wp_ret.
Qed.
End related.

Lemma wp_report {A} (f : A -> vt_out) (m : option (outcome A * VertexTable)) (Q : vt_out * VertexTable -> Prop) :
  wp m (fun r => Q (match fst r with Returned x => f x | Thrown => RThrown end, snd r)) -> wp (report f m) Q.
Proof. unfold report. destruct m as [[r t]|]; done. Qed.

Lemma wp_report_then {A B} (f : B -> vt_out) (m : option (outcome A * VertexTable)) (k : A -> VertexTable -> option (outcome B * VertexTable)) Q :
  wp m (fun r => match fst r with Returned x => wp (report f (k x (snd r))) Q | Thrown => Q (RThrown, snd r) end) -> wp (report f (and_then m k)) Q.
Proof. unfold report, and_then. destruct m as [[[x|] t]|]; done. Qed.

(** The number for a key: the vertex may not be there at that time. *)
Lemma insert_vertex_pk_rel ty w t a id ts safe v a1 : vt_rel ty w t a -> is_time ts = true -> num a < av_cap a ->
  match key_index ty a id with
  | Some u => u = v /\ seen a v ts = false /\ av_init a <= v /\ vat (av_stamps a) v = DELETED_TIMESTAMP /\ a1 = av_stamp v ts a
  | None => exists o ks cap used, keys_exec ty w (KInsert id safe) (av_keys a, av_cap a, av_used a) = Some (o, (ks, cap, used)) /\ v = num a /\
      a1 = AVT ks (av_cap a) used (av_init a) (vput (av_stamps a) v ts) (av_cols a)
  end ->
  wp (insert_vertex_pk std_hash t id ts safe) (fun r => fst r = Returned v /\ vt_rel ty w (snd r) a1).
Proof.
  intros Hrel Hts Hroom Hcase. unfold insert_vertex_pk, claim_vid. rewrite (find_key ty w t a Hrel). cbn [mbind option_bind].
  pose proof (vr_init _ _ _ _ Hrel). destruct (key_index ty a id) as [u|] eqn:Ek.
  - destruct Hcase as (-> & Hs & Hi & Hd & ->). pose proof (key_index_range ty w t a Hrel _ _ Ek) as Hv.
    rewrite (valid_at ty w t a Hrel) by done. cbn [mbind option_bind]. rewrite Hs. apply wp_and_then, wp_ret. exists v. split; [done|]. cbn [fst snd].
    eapply wp_mono; [apply (stamp_vid_rel ty w t a Hrel v ts); [lia|done]|]. intros r Hr. by rewrite Hd, Z.eqb_refl in Hr.
  - destruct Hcase as (o & ks & cap & used & Hx & -> & ->). apply wp_and_then, wp_through.
    eapply wp_mono; [by apply (insert_rel _ _ _ _ _ _ _ _ _ _ _ (vr_index _ _ _ _ Hrel) Hx)|]. intros [r s] (i & Hr & -> & Hs). cbn [fst snd] in *. subst r.
    exists i. split; [done|]. cbn [keys_exec] in Hx. destruct (clip_prop w id) as [q|]; [|done]. cbn [mbind option_bind] in Hx.
    fold (num a) in Hx. rewrite (proj2 (Z.leb_gt (av_cap a) (num a))), andb_false_r in Hx by lia. destruct (_ && _) eqn:Eg in Hx; [|done]. injection Hx as <- <- <- <-.
    set (a1 := AVT (av_keys a ++ [id]) (av_cap a) (av_used a + prop_bytes id) (av_init a) (av_stamps a) (av_cols a)).
    assert (num a1 = num a + 1) as Hn by (unfold num, a1; cbn [av_keys]; by rewrite vlen_app, vlen_one).
    assert (vt_rel ty w (with_indexer t s) a1) as Hrel1.
    { destruct Hrel as [_ H2 H3 H4 H5 H6 H7]. split; try done; [cbn [a1 av_init]; lia| |cbn [a1 av_cap]; lia]. intros u Hu. apply H6. cbn [a1 av_cap] in Hu. lia. }
    eapply wp_mono; [apply (stamp_vid_rel ty w _ a1 Hrel1 (num a) ts); [cbn [a1 av_init]; lia|done]|]. intros r Hr.
    assert (vat (av_stamps a1) (num a) = DELETED_TIMESTAMP) as Hd by (apply (vr_tail _ _ _ _ Hrel); lia). by rewrite Hd, Z.eqb_refl in Hr.
Qed.

(** *** Columns *)

Lemma cols_all_rel {A} (op : A -> table_op) (f : A -> Table -> option Table) :
  (forall x tb tb', table_exec (op x) tb = Some (TDone, tb') -> f x tb = Some tb') ->
  forall l tb cols cols', table_rel tb cols -> cols_all (map op l) cols = Some cols' -> exists tb', for_each l tb f = Some tb' /\ table_rel tb' cols'.
Proof.
  intros Hf l. unfold cols_all. induction l as [|x l IH]; intros tb cols cols' Hr Hx; cbn [map for_each] in *; [injection Hx as <-; by exists tb|].
  destruct (cols_exec (op x) cols) as [[o cols1]|] eqn:E; [|done]. cbn [mbind option_bind] in Hx. destruct o; try done.
  destruct (table_exec_rel tb cols (op x) TDone cols1 Hr E) as (tb1 & Hx1 & Hr1). rewrite (Hf _ _ _ Hx1). by apply IH with cols1.
Qed.

Lemma cols_one op cols cols' : cols_all [op] cols = Some cols' -> cols_exec op cols = Some (TDone, cols').
Proof. unfold cols_all. cbn [for_each]. destruct (cols_exec op cols) as [[o c]|]; [|done]. cbn [mbind option_bind]. destruct o; try done. by intros [= ->]. Qed.

Lemma with_table_rel ty w t a tb cols : vt_rel ty w t a -> table_rel tb cols -> vt_rel ty w (with_table t tb) (av_columns cols a).
Proof. intros [H1 H2 _ H4 H5 H6 H7] Hr. split; try done. by exists tb. Qed.

Lemma rows_of_rel tb cols : table_rel tb cols -> table_size tb = Some (rows_of cols).
Proof.
  intros [Hc _ _ _]. unfold table_size, rows_of. destruct Hc as [|c x cs xs (c' & -> & Hr) _]; [done|]. cbn [mbind option_bind].
  by rewrite (proj1 (col_size_rel _ _ _ _ Hr)).
Qed.

Lemma update_rel_vt ty w t a vid prop_id value c r c' : vt_rel ty w t a -> vget (av_cols a) prop_id = Some c -> ac_step (OpSet vid value false) c = Some (r, c') ->
  exists tb x tb', table_ t = Some tb /\ vget (columns_ tb) prop_id = Some (Some x) /\ col_num tb = vlen (av_cols a) /\
    (y ← col_set_any x vid value false; cs ← vset (columns_ tb) prop_id (Some (snd y)); Some (fst y, with_columns cs tb)) = Some (r, tb') /\
    vt_rel ty w (with_table t tb') (av_columns (vput (av_cols a) prop_id c') a).
Proof.
  intros Hrel Hc Hx. destruct (vr_table _ _ _ _ Hrel) as (tb & Htb & Htr). exists tb. destruct (columns_vget tb _ Htr _ _ Hc) as (x & Hx0 & Hcr).
  assert (col_num tb = vlen (av_cols a)) as Hn by by apply table_rel_len. pose proof (vget_lt _ _ _ Hc) as Hi.
  destruct (deref_rel (OpSet vid value false) (fun _ c => col_set_any c vid value false) prop_id (Some x) c r c') as (y & Hy & Hyr); [|by exists x|done|].
  { intros. by eapply exec_set. }
  unfold deref in Hy. cbn [mbind option_bind] in Hy. destruct (col_set_any x vid value false) as [[r1 x1]|] eqn:Es; [|done]. injection Hy as -> <-.
  exists x. eexists. split_and!; [done|done|done| |].
  - rewrite Es. cbn [mbind option_bind fst snd]. rewrite vset_Some by (fold (col_num tb); lia). reflexivity.
  - apply with_table_rel; [done|]. apply (table_rel_columns tb (av_cols a)); [done| |].
    + unfold vput. apply Forall2_insert; [apply Htr|done].
    + pose proof (ac_step_name _ _ _ _ Hx) as Hnm. apply vget_iff in Hc as [_ Hc]. unfold names_of, vput. rewrite list_fmap_insert, Hnm.
      apply list_insert_id. by rewrite list_lookup_fmap, Hc.
Qed.

(** *** Compaction and capacity *)

Lemma compact_rel_vt ty w t a l : vt_rel ty w t a -> l = map reset_ts (av_stamps a) ->
  wp (Compact t) (fun t' => vt_rel ty w t' (av_times (av_init a + first_non_zero (drop (Z.to_nat (av_init a)) l)) l a)).
Proof.
  intros Hrel ->. unfold Compact. apply wp_bind. eapply wp_mono; [by apply vts_compact_rel, (vr_times _ _ _ _ Hrel)|]. intros s Hs. apply wp_ret.
  set (l := map reset_ts (av_stamps a)) in *. set (k := first_non_zero _) in *. pose proof (vr_cap _ _ _ _ Hrel). pose proof (vr_init _ _ _ _ Hrel).
  pose proof (vr_num _ _ _ _ Hrel). assert (vlen l = av_cap a) as Hl by (unfold l; by rewrite vlen_map).
  pose proof (first_non_zero_bounds (drop (Z.to_nat (av_init a)) l)) as Hk. fold k in Hk. rewrite vlen_drop in Hk by lia.
  assert (forall v, num a <= v < av_cap a -> vat l v = DELETED_TIMESTAMP) as Htail.
  { intros v Hv. unfold l. rewrite vat_map_reset by lia. by rewrite (vr_tail _ _ _ _ Hrel) by done. }
  apply vt_rel_times; try done. split; [lia|]. destruct (Z.le_gt_cases (av_init a + k) (num a)) as [|Hgt]; [done|].
  pose proof (first_non_zero_spec (drop (Z.to_nat (av_init a)) l) (num a - av_init a) ltac:(lia)) as Hz. rewrite vat_drop in Hz by lia.
  replace (av_init a + (num a - av_init a)) with (num a) in Hz by lia. rewrite Htail in Hz by lia. done.
Qed.

Lemma ensure_rel_vt ty w t a m n cols : vt_rel ty w t a -> av_cap a < n -> 4096 <= n < 2 ^ 32 ->
  (if rows_of (av_cols a) <? n then cols_all [TResizeDefault n (default_property_values m)] (av_cols a) else Some (av_cols a)) = Some cols ->
  wp (report RNum (EnsureCapacity std_hash t m n)) (fun r => fst r = RNum n /\
    vt_rel ty w (snd r) (AVT (av_keys a) n (av_used a) (av_init a) (av_stamps a ++ vnew (n - av_cap a) DELETED_TIMESTAMP) cols)).
Proof.
  intros Hrel Hlt Hn Hcols. pose proof (vr_num _ _ _ _ Hrel). pose proof (vr_cap _ _ _ _ Hrel). pose proof (vr_init _ _ _ _ Hrel). unfold num in *.
  unfold EnsureCapacity. rewrite (lid_capacity ty w t a Hrel). cbn [mbind option_bind]. rewrite (proj2 (Z.leb_gt _ _)), (Z.max_l n 4096), (proj2 (Z.ltb_lt _ _)) by lia.
  apply wp_report, wp_bind. eapply wp_mono; [apply (indexer_reserve_rel std_hash ty w _ _ _ _ n (vr_index _ _ _ _ Hrel)); lia|].
  intros i Hi. replace (Z.max (Z.max n _) 4) with n in Hi by lia. destruct (vr_table _ _ _ _ Hrel) as (tb & Htb & Htr). cbn [table_ with_indexer]. rewrite Htb.
  rewrite (rows_of_rel tb _ Htr). cbn [mbind option_bind]. apply wp_and_then.
  assert (wp (if rows_of (av_cols a) <? n then through (with_table (with_indexer t i)) (table_resize_default tb n (default_property_values m))
              else Some (Returned tt, with_indexer t i))
             (fun r => fst r = Returned tt /\ indexer_ (snd r) = i /\ v_ts_ (snd r) = v_ts_ t /\ exists tb', table_ (snd r) = Some tb' /\ table_rel tb' cols)) as Hw.
  { destruct (rows_of (av_cols a) <? n); [|injection Hcols as <-; apply wp_ret; split_and!; [done..|]; by exists tb]. apply cols_one in Hcols.
    destruct (table_exec_rel tb _ _ _ _ Htr Hcols) as (tb' & Hx & Hr). cbn [table_exec] in Hx.
    destruct (table_resize_default tb n _) as [[[[]|] tb1]|]; [|done|done]. injection Hx as ->. apply wp_through, wp_ret. split_and!; [done..|]. by exists tb'. }
  eapply wp_mono; [exact Hw|]. intros [r t1] (Hr & Hix & Hts & tb' & Htb' & Htr'). cbn [fst snd] in *. subst r. exists tt. split; [done|].
  apply wp_bind. rewrite Hts. eapply wp_mono; [apply (reserve_rel _ _ _ n (vr_times _ _ _ _ Hrel)); lia|]. intros s Hs.
  rewrite (proj2 (Z.leb_gt _ _)) in Hs by lia. rewrite (vr_cap _ _ _ _ Hrel) in Hs.
  assert (Capacity (with_ts t1 s) = Some n) as Hc by (unfold Capacity; cbn [indexer_ with_ts]; rewrite Hix; apply (capacity_rel _ _ _ _ _ Hi)).
  rewrite Hc. cbn [mbind option_bind]. apply wp_ret. cbn [fst snd]. split; [done|].
  split; cbn [av_keys av_cap av_used av_init av_stamps av_cols indexer_ v_ts_ table_ with_ts num]; [by rewrite Hix|done|by exists tb'| |done| |unfold num; cbn [av_keys]; lia].
  - rewrite vlen_app, vlen_vnew by lia. lia.
  - intros v Hv. unfold num in Hv. cbn [av_keys] in Hv. rewrite vat_app by lia. case_decide; [apply (vr_tail _ _ _ _ Hrel); unfold num; lia|]. by rewrite vat_vnew by lia.
Qed.

(** ** Every call *)

Lemma find_rel_vt ty w t a oid ts : vt_rel ty w t a -> is_time ts = true ->
  VertexTable.get_index std_hash t oid ts = Some (Returned (v ← key_index ty a oid; if seen a v ts then Some v else None)).
Proof.
  intros Hrel Hts. unfold VertexTable.get_index. rewrite (find_key ty w t a Hrel). cbn [mbind option_bind].
  destruct (key_index ty a oid) as [v|] eqn:E; [|done]. by rewrite (valid_at ty w t a Hrel) by (by eapply key_index_range || done).
Qed.

Lemma add_rel_vt ty w t a id props ts safe out a' : vt_rel ty w t a -> vt_step ty w (DoAdd id props ts safe) a = Some (out, a') ->
  wp (report RVid (AddVertex std_hash t id props ts safe)) (fun r => fst r = out /\ vt_rel ty w (snd r) a').
Proof.
  intros Hrel Hx. cbn [vt_step] in Hx. destruct (is_time ts) eqn:Hts; [|done]. cbn [negb] in Hx. unfold AddVertex.
  rewrite (lid_capacity ty w t a Hrel), (lid_num ty w t a Hrel). cbn [mbind option_bind]. destruct (Z.leb_spec (av_cap a) (num a)); [injection Hx as <- <-; by apply wp_ret|].
  assert (forall v a1, put_row v props safe a1 = Some (out, a') ->
    wp (insert_vertex_pk std_hash t id ts safe) (fun r => fst r = Returned v /\ vt_rel ty w (snd r) a1) ->
    wp (report RVid (and_then (insert_vertex_pk std_hash t id ts safe) (fun vid t => tb ← table_ t;
      and_then (through (with_table t) (table_insert tb vid props safe)) (fun _ t => Some (Returned (Some vid), t))))) (fun r => fst r = out /\ vt_rel ty w (snd r) a')) as Hgo.
  { intros v a1 Hput Hw. apply wp_report_then. eapply wp_mono; [exact Hw|]. intros [r t1] [-> Hr]. by apply (put_row_rel ty w t1 a1 Hr). }
  pose proof (insert_vertex_pk_rel ty w t a id ts safe) as Hpk. destruct (key_index ty a id) as [v|] eqn:Ek.
  - pose proof (key_index_range ty w t a Hrel _ _ Ek) as Hv. destruct (seen a v ts) eqn:Es.
    + injection Hx as <- <-. apply wp_report_then. unfold insert_vertex_pk, claim_vid. rewrite (find_key ty w t a Hrel), Ek. cbn [mbind option_bind].
      rewrite (valid_at ty w t a Hrel) by done. cbn [mbind option_bind]. rewrite Es. unfold and_then. by apply wp_ret.
    + destruct (Z.leb_spec (av_init a) v) as [Hi|]; [|done]. cbn [negb] in Hx. destruct (Z.eqb_spec (vat (av_stamps a) v) DELETED_TIMESTAMP) as [Hd|Hd].
      * apply (Hgo v _ Hx), Hpk; done.
      * injection Hx as <- <-. apply wp_report_then. unfold insert_vertex_pk, claim_vid. rewrite (find_key ty w t a Hrel), Ek. cbn [mbind option_bind].
        rewrite (valid_at ty w t a Hrel) by done. cbn [mbind option_bind]. rewrite Es. unfold and_then at 1. cbn [mbind option_bind].
        eapply wp_mono; [apply (stamp_vid_rel ty w t a Hrel v ts); [lia|done]|]. intros [r t1] Hr. rewrite (proj2 (Z.eqb_neq _ _) Hd) in Hr.
        destruct Hr as [Hr Hr1]. cbn [fst snd] in *. by subst r.
  - destruct (keys_exec _ _ _ _) as [[o [[ks cap] used]]|] eqn:Eo; [|done]. apply (Hgo (num a) _ Hx), Hpk; [done..|]. by exists o, ks, cap, used.
Qed.

Lemma batch_rel_vt ty w vids t a : vt_rel ty w t a -> forallb (fun v => 0 <=? v) vids = true ->
  wp (BatchDeleteVertices t vids) (fun r => fst r = Returned tt /\ vt_rel ty w (snd r) (foldl (fun a v => remove a v MAX_TIMESTAMP) a vids)).
Proof.
  intros Hrel Hv. unfold BatchDeleteVertices. set (a2 := foldl _ a vids).
  apply (wp_each (fun vids t => forallb (fun v => 0 <=? v) vids = true /\ exists a1, vt_rel ty w t a1 /\
    foldl (fun a v => remove a v MAX_TIMESTAMP) a1 vids = a2)); [split; [done|by exists a]| |].
  - intros v l t1 [Hl (a1 & H1 & Hf)]. cbn [forallb] in Hl. apply andb_prop in Hl as [Hv0%Z.leb_le Hl].
    rewrite (valid_lid ty w t1 a1 H1) by done. cbn [mbind option_bind]. cbn [foldl] in Hf.
    destruct (seen a1 v MAX_TIMESTAMP) eqn:E.
    + eapply wp_mono; [by apply (remove_vid_rel ty w t1 a1 H1 v MAX_TIMESTAMP)|]. intros r [Hr Hr1]. split; [done|]. split; [done|].
      exists (remove a1 v MAX_TIMESTAMP). split; [unfold remove; by rewrite E|exact Hf].
    + apply wp_ret. split; [done|]. split; [done|]. exists a1. split; [done|]. unfold remove in Hf at 2. by rewrite E in Hf.
  - intros t1 [_ (a1 & H1 & Hf)]. split; [done|]. cbn [foldl] in Hf. by subst a1.
Qed.

(** A call that the specification allows returns what it says. *)
Definition keeps (ty : DataTypeId) (w : Z) t a (op : vt_op) : Prop := forall out a', vt_step ty w op a = Some (out, a') ->
  wp (vt_exec op t) (fun r => fst r = out /\ vt_rel ty w (snd r) a').

Lemma cell_case ty w t a m prop v : vt_rel ty w t a -> keeps ty w t a (DoCell m prop v).
Proof.
  intros Hrel out a' Hx. cbn [vt_step vt_exec] in *. unfold GetPropertyColumn. destruct (primary_key_name m) as [pk|]; [|done]. cbn [mbind option_bind] in *. destruct (_ && _) eqn:G; [|done]. cbn [negb] in Hx.
  case_bool_decide as Hp.
  + injection Hx as <- <-. destruct (vr_index _ _ _ _ Hrel) as (vals & [Hk _] & _). cbn [fst snd] in Hk. destruct (kr_column _ _ _ _ _ Hk) as (c & Hc & Hcr). rewrite Hc.
    cbn [mbind option_bind]. pose proof (kr_len _ _ _ _ _ Hk) as Hlen. cbn [fst] in Hlen. unfold num in G.
    rewrite (col_get_prop_rel _ _ _ _ v Hcr) by (cbn [fst]; lia). apply wp_ret. cbn [fst snd]. split; [|done]. by rewrite <-(kr_rows _ _ _ _ _ Hk v) by lia.
  + destruct (cols_exec (TGet prop v) (av_cols a)) as [[o cols]|] eqn:E; [|done]. cbn [mbind option_bind] in Hx. destruct o as [| | |p]; try done. injection Hx as <- <-.
    destruct (vr_table _ _ _ _ Hrel) as (tb & -> & Htr). destruct (table_exec_rel tb _ _ _ _ Htr E) as (tb' & Ht & _). cbn [table_exec mbind option_bind] in *.
    destruct (get_column tb prop) as [c|]; [|injection Ht as <- _; by apply wp_ret]. destruct (col_get_prop c v) as [q|]; [|done]. injection Ht as <- _. by apply wp_ret.
Qed.

Lemma update_case ty w t a vid prop_id value ts : vt_rel ty w t a -> keeps ty w t a (DoUpdate vid prop_id value ts).
Proof.
  intros Hrel out a' Hx. cbn [vt_step vt_exec] in *. destruct (_ && _) eqn:G in Hx; [|done]. cbn [negb] in Hx. apply andb_prop in G as [Hts Hv%Z.leb_le]. unfold UpdateProperty. rewrite (lid_num ty w t a Hrel).
  destruct (Z.leb_spec (num a) vid) as [Hge|Hlt].
  { unfold seen in Hx. rewrite (proj2 (Z.ltb_ge _ _)) in Hx by lia. injection Hx as <- <-. by apply wp_ret. }
  rewrite (valid_at ty w t a Hrel) by done. cbn [mbind option_bind]. destruct (seen a vid ts); [|injection Hx as <- <-; by apply wp_ret]. cbn [negb] in Hx |- *.
  destruct (vget (av_cols a) prop_id) as [c|] eqn:Ec.
  + destruct (ac_step _ c) as [[r c']|] eqn:Es; [|done]. injection Hx as <- <-. destruct (update_rel_vt ty w t a vid prop_id value c r c' Hrel Ec Es) as (tb & x & tb' & -> & Hc & Hn & Hy & Hr).
    cbn [mbind option_bind]. rewrite Hn. pose proof (vget_lt _ _ _ Ec). rewrite (proj2 (Z.ltb_ge _ _)), (proj2 (Z.leb_gt _ _)) by lia. cbn [orb]. unfold get_column_by_id. rewrite Hc.
    cbn [mbind option_bind]. destruct (col_set_any x vid value false) as [[r1 x1]|]; [|done]. cbn [mbind option_bind fst snd] in *.
    destruct (vset (columns_ tb) prop_id (Some x1)); [|done]. injection Hy as -> <-. apply wp_report, wp_ret. cbn [fst snd]. split; [|done]. by destruct r.
  + injection Hx as <- <-. destruct (vr_table _ _ _ _ Hrel) as (tb & -> & Htr). cbn [mbind option_bind].
    assert (col_num tb = vlen (av_cols a)) as -> by by apply table_rel_len.
    assert (((prop_id <? 0) || (vlen (av_cols a) <=? prop_id)) = true) as ->; [|by apply wp_ret].
    destruct (Z.ltb_spec prop_id 0); [done|]. destruct (Z.leb_spec (vlen (av_cols a)) prop_id); [done|]. by rewrite vget_Some in Ec by lia.
Qed.

Lemma revert_case ty w t a lid ts : vt_rel ty w t a -> keeps ty w t a (DoRevert lid ts).
Proof.
  intros Hrel out a' Hx. cbn [vt_step vt_exec] in *. destruct (_ && _) eqn:G in Hx; [|done]. cbn [negb] in Hx. apply andb_prop in G as [[Hts Hl%Z.leb_le]%andb_prop Hn%Z.ltb_lt].
  apply wp_report. assert (out = RDone /\ (vat (av_stamps a) lid <> DELETED_TIMESTAMP \/ av_init a <= lid \/ ts = 0) /\
    a' = if vat (av_stamps a) lid =? DELETED_TIMESTAMP then av_stamp lid ts a else a) as (-> & Hok & ->).
  { destruct (Z.eqb_spec (vat (av_stamps a) lid) DELETED_TIMESTAMP); cbn [negb] in Hx; [|injection Hx as <- <-; by auto]. split_guard Hx. injection Hx as <- <-. split; [done|]. split; [right; lia|done]. }
  eapply wp_mono; [apply (revert_rel_vt ty w t a Hrel lid ts); done|]. intros [r t1] [-> Hr]. done.
Qed.

Lemma ensure_case ty w t a m n : vt_rel ty w t a -> keeps ty w t a (DoEnsure m n).
Proof.
  intros Hrel out a' Hx. cbn [vt_step vt_exec] in *. destruct (Z.leb_spec n (av_cap a)).
  { injection Hx as <- <-. unfold EnsureCapacity. rewrite (lid_capacity ty w t a Hrel). cbn [mbind option_bind]. rewrite (proj2 (Z.leb_le _ _)) by lia. by apply wp_ret. }
  destruct (Z.ltb_spec (Z.max n 4096) (2 ^ 32)); [|done]. cbn [negb] in Hx.
  destruct (if rows_of _ <? _ then _ else _) as [cols|] eqn:E in Hx; [|done]. injection Hx as <- <-.
  assert (EnsureCapacity std_hash t m n = EnsureCapacity std_hash t m (Z.max n 4096)) as ->.
  { unfold EnsureCapacity. rewrite (lid_capacity ty w t a Hrel). cbn [mbind option_bind]. rewrite !(proj2 (Z.leb_gt _ _)) by lia. by replace (Z.max (Z.max n 4096) 4096) with (Z.max n 4096) by lia. }
  apply ensure_rel_vt; [done|lia|lia|exact E].
Qed.

Lemma add_props_case ty w t a names types ds : vt_rel ty w t a -> keeps ty w t a (DoAddProps names types ds).
Proof.
  intros Hrel out a' Hx. cbn [vt_step vt_exec] in *. destruct (cols_all _ _) as [cols|] eqn:E in Hx; [|done]. injection Hx as <- <-. apply cols_one in E. destruct (vt_rel_table ty w t a Hrel _ _ _ E) as (tb & tb' & Htb & Ht & Hr).
  unfold AddProperties. rewrite Htb, (lid_capacity ty w t a Hrel). cbn [mbind option_bind table_exec] in *. destruct (add_columns _ _ _ _ _) as [[[[]|] t1]|]; [|done|done]. injection Ht as ->. by apply wp_ret.
Qed.

Lemma delete_props_case ty w t a names : vt_rel ty w t a -> keeps ty w t a (DoDeleteProps names).
Proof.
  intros Hrel out a' Hx. cbn [vt_step vt_exec] in *. destruct (cols_all _ _) as [cols|] eqn:E in Hx; [|done]. injection Hx as <- <-. destruct (vr_table _ _ _ _ Hrel) as (tb & Htb & Htr). unfold DeleteProperties. rewrite Htb. cbn [mbind option_bind].
  destruct (cols_all_rel TDelete (fun prop tb => delete_column tb prop)) with (2 := Htr) (3 := E) as (tb' & -> & Hr).
  { intros x tb0 tb1. cbn [table_exec]. destruct (delete_column tb0 x); [|done]. by intros [= ->]. }
  apply wp_ret. split; [done|]. by apply with_table_rel.
Qed.

Lemma rename_props_case ty w t a names renames : vt_rel ty w t a -> keeps ty w t a (DoRenameProps names renames).
Proof.
  intros Hrel out a' Hx. cbn [vt_step vt_exec] in *. destruct (vlen names =? vlen renames) eqn:El; [|done]. destruct (cols_all _ _) as [cols|] eqn:E in Hx; [|done]. injection Hx as <- <-. destruct (vr_table _ _ _ _ Hrel) as (tb & Htb & Htr).
  unfold RenameProperties. rewrite El, Htb. cbn [mbind option_bind]. rewrite zip_with_zip in E.
  destruct (cols_all_rel (uncurry TRename) (fun '(old, new) tb => rename_column tb old new)) with (2 := Htr) (3 := E) as (tb' & -> & Hr).
  { intros [x y] tb0 tb1. cbn [table_exec uncurry]. destruct (rename_column tb0 x y); [|done]. by intros [= ->]. }
  apply wp_ret. split; [done|]. by apply with_table_rel.
Qed.

Lemma vt_exec_rel ty w t a op : vt_rel ty w t a -> keeps ty w t a op.
Proof.
  intros Hrel. destruct op as [id props ts safe|oid ts|ts|ts|lid ts|lid ts|m prop v|vid prop_id value ts|lid ts|id ts|vids|lid ts|m n|names types ds|names|names renames|];
    [intros out a'; by apply add_rel_vt|..];
    [| | | | |by apply cell_case|by apply update_case| | | |by apply revert_case|by apply ensure_case|by apply add_props_case|by apply delete_props_case|by apply rename_props_case|];
    intros out a' Hx; cbn [vt_step vt_exec] in *.
  - split_guard Hx. injection Hx as <- <-. rewrite (find_rel_vt ty w t a) by done. by apply wp_ret.
  - split_guard Hx. injection Hx as <- <-. rewrite (vertex_num_rel ty w t a Hrel) by done. by apply wp_ret.
  - split_guard Hx. injection Hx as <- <-. rewrite (vertex_set_rel ty w t a Hrel) by done. by apply wp_ret.
  - split_guard Hx. injection Hx as <- <-. apply andb_prop in G as [Hts Hl%Z.leb_le]. unfold GetOid. rewrite (lid_num ty w t a Hrel).
    destruct (Z.leb_spec (num a) lid) as [Hge|Hlt]; [apply wp_ret; unfold seen; by rewrite (proj2 (Z.ltb_ge _ _)) by lia|].
    rewrite (valid_at ty w t a Hrel) by done. cbn [mbind option_bind]. destruct (seen a lid ts); [|by apply wp_ret]. cbn [negb].
    destruct (vr_index _ _ _ _ Hrel) as (vals & [Hk _] & _). rewrite (get_key_rel _ _ _ _ _ lid Hk) by (cbn [fst]; done). by apply wp_ret.
  - split_guard Hx. injection Hx as <- <-. apply andb_prop in G as [Hts Hl%Z.leb_le]. rewrite (valid_lid ty w t a Hrel) by done. by apply wp_ret.
  - split_guard Hx. injection Hx as <- <-. apply andb_prop in G as [Hts Hl%Z.leb_le]. apply wp_report. eapply wp_mono; [by apply (delete_rel_vt ty w t a Hrel lid ts)|].
    intros [r t1] [-> Hr]. done.
  - split_guard Hx. injection Hx as <- <-. unfold DeleteVertexById. rewrite (find_rel_vt ty w t a id ts Hrel G). cbn [mbind option_bind]. apply wp_report.
    destruct (key_index ty a id) as [v|] eqn:Ek; [|by apply wp_ret]. cbn [mbind option_bind]. pose proof (key_index_range ty w t a Hrel _ _ Ek).
    unfold remove. destruct (seen a v ts) eqn:E; [|by apply wp_ret]. eapply wp_mono; [apply (delete_rel_vt ty w t a Hrel v ts); [lia|done]|].
    intros [r t1] [-> Hr]. unfold remove in Hr. by rewrite E in Hr.
  - split_guard Hx. injection Hx as <- <-. apply wp_report. eapply wp_mono; [by apply (batch_rel_vt ty w vids t a)|]. intros [r t1] [-> Hr]. done.
  - injection Hx as <- <-. apply wp_bind. eapply wp_mono; [apply (compact_rel_vt ty w t a _ Hrel eq_refl)|]. intros t1 H1. by apply wp_ret.
Qed.

Lemma vrun_rel ty w ops t a outs a' : vt_rel ty w t a -> vrun (vt_step ty w) ops a = Some (outs, a') ->
  wp (vrun (vt_exec) ops t) (fun r => fst r = outs /\ vt_rel ty w (snd r) a').
Proof.
  revert t a outs. induction ops as [|op ops IH]; intros t a outs Hrel Hx; cbn [vrun] in *; [injection Hx as <- <-; by apply wp_ret|].
  destruct (vt_step ty w op a) as [[o a1]|] eqn:E; [|done]. cbn [mbind option_bind] in Hx. destruct (vrun (vt_step ty w) ops a1) as [[os a2]|] eqn:E2; [|done].
  injection Hx as <- <-. apply wp_bind. eapply wp_mono; [by eapply vt_exec_rel|]. intros [o' t1] [Ho Ht1]. cbn [fst snd] in *. subst o'.
  apply wp_bind. eapply wp_mono; [by eapply IH|]. intros [os' t2] [Hos Ht2]. cbn [fst snd] in *. subst os'. by apply wp_ret.
Qed.

Lemma open_rel m ty len key i : vget (primary_keys m) 0 = Some (ty, len, key, i) -> ty ∈ key_types -> NoDup (property_names m) ->
  vlen (property_types m) = vlen (property_names m) -> forallb storable (property_types m) = true ->
  exists t0 t, new_vertex_table m = Some (Returned t0) /\ Open m t0 = Some (Returned tt, t) /\
    vt_rel ty (key_width ty None) t (AVT [] 0 0 0 [] (fresh_cols (property_names m) (property_types m))).
Proof.
  intros Hpk Ht Hd Hl Hs. destruct (indexer_init_rel std_hash ty None Ht) as (s0 & Hi & Hrel). unfold new_vertex_table. rewrite Hpk. cbn [mbind option_bind fst]. rewrite Hi.
  eexists. destruct (initColumns_rel _ _ Hd Hl Hs) as (tb & Htb & Htr). eexists. split; [done|]. unfold Open, through. cbn [table_ with_indexer]. rewrite Htb. split; [done|].
  split; cbn [av_keys av_cap av_used av_init av_stamps av_cols num indexer_ with_table with_indexer v_ts_ table_]; try done; unfold num, vlen; simpl; try lia; [|by exists tb].
  split; [|by split_and!; [..|unfold vlen; simpl; lia]]. split; unfold entries; simpl; [lia|done|by constructor|]. intros v Hv. done.
Qed.

(** C8: For any calls within the contract, a new vertex table behaves as the list of the
    vertices: a key has one number for good, whatever the hash functions; a vertex is
    seen from the time it was added until it is deleted; its properties are those
    that were given to it, through every growth, change of the columns and compaction;
    and no call leaves an array. *)
Theorem vertex_table_refines m ty len key i ops outs a : vget (primary_keys m) 0 = Some (ty, len, key, i) -> ty ∈ key_types ->
  NoDup (property_names m) -> vlen (property_types m) = vlen (property_names m) -> forallb storable (property_types m) = true ->
  vrun (vt_step ty (key_width ty None)) ops (AVT [] 0 0 0 [] (fresh_cols (property_names m) (property_types m))) = Some (outs, a) ->
  exists t0 t1 t, new_vertex_table m = Some (Returned t0) /\ Open m t0 = Some (Returned tt, t1) /\ vrun vt_exec ops t1 = Some (outs, t) /\
    Capacity t = Some (av_cap a) /\ num a <= av_cap a /\ NoDup (av_keys a) /\
    (forall ts, is_time ts = true -> GetVertexSet t ts = Some (seen_vertices a ts)) /\
    (forall ts v, is_time ts = true -> 0 <= v < num a -> VertexTable.get_index std_hash t (vat (av_keys a) v) ts = Some (Returned (if seen a v ts then Some v else None))).
Proof.
  intros Hpk Ht Hd Hl Hs Hx. destruct (open_rel m ty len key i Hpk Ht Hd Hl Hs) as (t0 & t1 & H0 & H1 & Hrel). exists t0, t1.
  pose proof (vrun_rel ty _ ops t1 _ outs a Hrel Hx) as Hw. apply wp_exists in Hw as ([o t] & Hr & Ho & Hrel'). cbn [fst snd] in *. subst o. exists t.
  destruct (vr_index _ _ _ _ Hrel') as (vals & [Hk _] & _). cbn [fst snd] in Hk.
  split; [done|]. split; [done|]. split; [done|]. split; [by eapply lid_capacity|]. split; [apply Hrel'|]. split; [apply (kr_once _ _ _ _ _ Hk)|].
  split; [intros ts Hts; by eapply vertex_set_rel|]. intros ts v Hts Hv. rewrite (find_rel_vt ty (key_width ty None) t a) by done.
  unfold key_index. rewrite bool_decide_eq_true_2 by by apply (proj1 (Forall_forall _ _) (kr_keys _ _ _ _ _ Hk)), vat_elem.
  by rewrite (index_of_at ty) by (done || apply (kr_keys _ _ _ _ _ Hk) || apply (kr_once _ _ _ _ _ Hk)).
Qed.

(** A vertex that is deleted after a compaction has taken its timestamp away: a batch
    that has its key again reports its number as a vertex that was added, but nothing
    is changed, and no time shows the vertex. *)
Theorem deleted_vertex_not_reloaded ty w t a id v : vt_rel ty w t a -> key_index ty a id = Some v -> v < av_init a -> vat (av_stamps a) v = DELETED_TIMESTAMP ->
  insert_primary_keys std_hash [id] t = Some (Returned [v], t) /\
  (forall ts, is_time ts = true -> VertexTable.get_index std_hash t id ts = Some (Returned None)) /\ v <> invalid_vid.
Proof.
  intros Hrel Hk Hv Hd. pose proof (key_index_range ty w t a Hrel _ _ Hk) as Hr. assert (forall ts, is_time ts = true -> seen a v ts = false) as Hs.
  { intros ts Hts. unfold seen, is_time in *. rewrite Hd. lia. }
  split_and!.
  - unfold insert_primary_keys, insert_primary_key. rewrite (find_key ty w t a Hrel), Hk. cbn [mbind option_bind].
    rewrite (valid_at ty w t a Hrel), Hs by done. cbn [mbind option_bind]. unfold stamp_vid, InsertVertex. rewrite (proj1 (proj2 (vr_times _ _ _ _ Hrel))). cbn [fst].
    rewrite (proj2 (Z.ltb_lt _ _)) by done. simpl. destruct t. reflexivity.
  - intros ts Hts. rewrite (find_rel_vt ty w t a id ts Hrel Hts), Hk. cbn [mbind option_bind]. by rewrite Hs.
  - pose proof (vr_num _ _ _ _ Hrel). pose proof (vr_cap _ _ _ _ Hrel). destruct (vr_times _ _ _ _ Hrel) as ([Hb _ _ _] & _ & Hm & _). cbn [fst snd] in *. unfold invalid_vid. lia.
Qed.
End vertices.

(** ** Examples *)

Definition person : VertexSchema :=
  MkVertexSchema "person" [(kInt32, 0); (kVarchar, 8)] ["age"%string; "city"%string] [((kInt64, 0), "id"%string, 0)] [PInt32 0; PVarchar []] [false; false].

(** Additions, look-ups at different times, a deletion that is undone, an update, a
    compaction, changes of the columns, a deletion of a batch. *)
Definition person_calls : list vt_op :=
  [DoAdd (PInt64 50) [PInt32 1; PVarchar [97]] 3 false; DoEnsure person 2; DoAdd (PInt64 50) [PInt32 1; PVarchar [97]] 3 false;
   DoAdd (PInt64 70) [PInt32 2; PVarchar [98]] 5 true; DoAdd (PInt64 50) [PInt32 9; PVarchar []] 6 false; DoFind (PInt64 70) 4; DoFind (PInt64 70) 5; DoCount 4;
   DoDelete 0 6; DoVertices 6; DoRevert 0 3; DoUpdate 1 0 (PInt32 20) 6; DoAddProps ["flag"%string] [(kBoolean, 0)] [PBool true];
   DoRenameProps ["age"%string] ["years"%string]; DoDeleteProps ["city"%string]; DoCell person "years" 1; DoCell person "id" 1; DoCell person "flag" 0; DoCell person "age" 0;
   DoCompact; DoDeleteBatch [1; 7]; DoVertices 9; DoOid 0 9; DoOid 1 9].
Definition person_answers : list vt_out :=
  [RVid None; RNum 4096; RVid (Some 0); RVid (Some 1); RThrown; RVid None; RVid (Some 1); RNum 1;
   RDone; RVids [1]; RDone; RBool true; RDone; RDone; RDone; RCell (Some (PInt32 20)); RCell (Some (PInt64 70)); RCell (Some (PBool true)); RCell None;
   RDone; RDone; RVids [0]; RKey (PInt64 50); RThrown].
Definition person_start : avt := AVT [] 0 0 0 [] (fresh_cols (property_names person) (property_types person)).

Definition person_run (ops : list vt_op) : option (list vt_out * avt) :=
  vrun (vt_step kInt64 (key_width kInt64 None)) ops (AVT [] 0 0 0 [] (fresh_cols (property_names person) (property_types person))).

Lemma person_run_is ops {A} (f : avt -> A) outs x : (r ← person_run ops; Some (fst r, f (snd r))) = Some (outs, x) ->
  exists a, vrun (vt_step kInt64 (key_width kInt64 None)) ops (AVT [] 0 0 0 [] (fresh_cols (property_names person) (property_types person))) = Some (outs, a) /\ f a = x.
Proof. fold (person_run ops). destruct (person_run ops) as [[o a]|]; [|done]. intros [= <- <-]. by exists a. Qed.

Lemma person_key : vget (primary_keys person) 0 = Some (kInt64, 0, "id"%string, 0) /\ kInt64 ∈ key_types /\ NoDup (property_names person).
Proof. split; [done|]. split; apply (bool_decide_unpack _); vm_compute; exact I. Qed.

Lemma vertex_table_refines_witness : exists t0 t1 t, new_vertex_table person = Some (Returned t0) /\ Open person t0 = Some (Returned tt, t1) /\
  vrun (vt_exec short_hash) person_calls t1 = Some (person_answers, t) /\ Capacity t = Some 4096 /\ GetVertexSet t 9 = Some [0].
Proof.
  destruct person_key as (Hpk & Ht & Hd).
  destruct (person_run_is person_calls (fun a => (av_cap a, seen_vertices a 9)) person_answers (4096, [0])) as (a & Hx & Ha); [vm_compute; reflexivity|].
  destruct (vertex_table_refines short_hash person kInt64 0 "id" 0 person_calls person_answers a Hpk Ht Hd eq_refl eq_refl Hx) as (t0 & t1 & t & H0 & H1 & H2 & H3 & _ & _ & H4 & _).
  exists t0, t1, t. injection Ha as Hc Hs. rewrite Hc in H3. pose proof (H4 9 eq_refl) as H5. rewrite Hs in H5.
  split; [exact H0|]. split; [exact H1|]. split; [exact H2|]. split; [exact H3|exact H5].
Defined.

Lemma deleted_vertex_not_reloaded_witness : exists t, insert_primary_keys short_hash [PInt64 50] t = Some (Returned [0], t) /\
  VertexTable.get_index short_hash t (PInt64 50) 9 = Some (Returned None).
Proof.
  destruct person_key as (Hpk & Ht & Hd).
  set (ops := [DoEnsure person 2; DoAdd (PInt64 50) [PInt32 1; PVarchar [97]] 0 false; DoCompact; DoDelete 0 6]).
  destruct (person_run_is ops (fun a => (key_index kInt64 a (PInt64 50), 0 <? av_init a, vat (av_stamps a) 0)) [RNum 4096; RVid (Some 0); RDone; RDone]
    (Some 0, true, DELETED_TIMESTAMP)) as (a & Hx & Ha); [vm_compute; reflexivity|].
  destruct (open_rel short_hash person kInt64 0 "id" 0 Hpk Ht Hd eq_refl eq_refl) as (t0 & t1 & _ & _ & Hrel0).
  pose proof (vrun_rel short_hash kInt64 _ ops t1 _ _ a Hrel0 Hx) as Hw. apply wp_exists in Hw as ([o t] & _ & _ & Hrel). exists t.
  injection Ha as Hk Hi Hv. destruct (deleted_vertex_not_reloaded short_hash kInt64 _ t a (PInt64 50) 0 Hrel Hk (proj1 (Z.ltb_lt _ _) Hi) Hv) as (H1 & H2 & _).
  split; [exact H1|exact (H2 9 eq_refl)].
Defined.
