(* ===== verification/TimestampTheorems.v ===== *)
(** * Vertex timestamps: the theorems

    A sequence of calls agrees with the calls on a list of timestamps; a dumped
    object is read back; inserting a vertex below [init_vertex_num_] hides the
    vertices above it. *)
From stdpp Require Import sorting.
From S2P Require Import Prelude Storage Aggregate Archive VertexTimestamp.
#[local] Open Scope Z_scope.

Fixpoint vts_run (ops : list vts_op) (s : VertexTimestamp) : option (list vts_out * VertexTimestamp) :=
  match ops with
  | [] => Some ([], s)
  | op :: ops => '(out, s) ← vts_exec op s; '(outs, s) ← vts_run ops s; Some (out :: outs, s)
  end.

Fixpoint list_run (ops : list vts_op) (a : Z * list Z) : option (list vts_out * (Z * list Z)) :=
  match ops with
  | [] => Some ([], a)
  | op :: ops => '(out, a) ← list_step op a; '(outs, a) ← list_run ops a; Some (out :: outs, a)
  end.

(** [Init(init, max)]: the first [init] vertices exist since 0. *)
Definition initial (init max : Z) : Z * list Z := (init, vnew init 0 ++ vnew (max - init) DELETED_TIMESTAMP).

Lemma vlen_initial init max : 0 <= init <= max -> vlen (snd (initial init max)) = max.
Proof. intros H. unfold initial. simpl. rewrite vlen_app, !vlen_vnew; lia. Qed.

Lemma init_rel init max : 0 <= init <= max -> max < 2 ^ 32 -> vts_rel (vts_init new_timestamps init max) (initial init max).
Proof.
  intros Hi Hm. unfold vts_init. simpl init_vertex_num_. simpl max_vertex_num_.
  destruct ((0 =? init) && (0 =? max)) eqn:E.
  - assert (init = 0 /\ max = 0) as [-> ->] by lia. apply vts_relI; [|done|done|].
    + split; unfold entries; simpl; [lia|done|constructor|done].
    + intros v Hv. change (0 <= v < 0) in Hv. lia.
  - rewrite Z.max_r, to_u32_small by lia. pose proof (vlen_initial init max Hi) as Hv. simpl in Hv.
    set (ins := if max - init =? 0 then None else Some (vnew (max - init) DELETED_TIMESTAMP)).
    assert (default [] ins = vnew (max - init) DELETED_TIMESTAMP) as Hd.
    { subst ins. destruct (Z.eqb_spec (max - init) 0) as [->|]; done. }
    apply vts_relI; simpl; [|done|done|].
    + split; unfold entries; simpl; rewrite ?Hd; [lia|rewrite vlen_vnew; lia| |done].
      apply Forall_replicate. unfold is_ts, DELETED_TIMESTAMP. lia.
    + rewrite Hv. intros v Hb. unfold born, entries. simpl. rewrite Hd, vat_app, vlen_vnew by lia.
      destruct (Z.ltb_spec v init); case_decide; try lia; by rewrite vat_vnew by lia.
Qed.

Lemma run_rel ops s a outs a' : vts_rel s a -> list_run ops a = Some (outs, a') ->
  wp (vts_run ops s) (fun r => fst r = outs /\ vts_rel (snd r) a').
Proof.
  revert s a outs. induction ops as [|op ops IH]; intros s a outs Hrel Hrun; simpl in *; [by injection Hrun as <- <-|].
  destruct (list_step op a) as [[out a1]|] eqn:E; [|done]. simpl in Hrun.
  destruct (list_run ops a1) as [[outs1 a2]|] eqn:E'; [|done]. injection Hrun as <- <-.
  apply wp_bind. eapply wp_mono; [by eapply exec_rel|]. intros [o s1] [Ho Hs1]. simpl in *.
  apply wp_bind. eapply wp_mono; [by eapply IH|]. intros [os s2] [Hos Hs2]. simpl in *. subst o os. by wsteps.
Qed.

(** C20: after [Init(init, max)], a sequence of insertions, removals and their
    reverts, [Reserve]s, [Compact]s and queries, each within the contract of
    [list_step], gives the answers, exceptions included, of the same calls on the
    plain list of the vertices' timestamps, where a deleted vertex has
    [DELETED_TIMESTAMP]: the split at [init_vertex_num_], the set of removed vertices
    and the compaction of the entries are not observable.  A vertex counts, is valid
    and is visited at [ts] exactly when it was inserted at or before [ts] and is not
    removed.  The contract: numbers and sizes are not negative
    and of 32 bits; a vertex is inserted at or above [init_vertex_num_] and
    below the end; one below [init_vertex_num_] is not removed twice; only a removed
    one is put back, below [init_vertex_num_] with the timestamp 0 that it had; no
    timestamp is the deletion mark; validity is not asked of the end itself; and
    [foreach_vertex] runs at least to [init_vertex_num_].  Outside it the split shows:
    an insertion below [init_vertex_num_] hides vertices ([InsertVertex_hides_vertices]). *)
Theorem vertex_timestamps_refine init max ops outs a' : 0 <= init <= max -> max < 2 ^ 32 ->
  list_run ops (initial init max) = Some (outs, a') ->
  exists s', vts_run ops (vts_init new_timestamps init max) = Some (outs, s') /\ vts_rel s' a'.
Proof.
  intros Hi Hm Hrun. pose proof (run_rel _ _ _ _ _ (init_rel init max Hi Hm) Hrun) as Hw.
  apply wp_exists in Hw as ([os s'] & Hr & Ho & Hs). simpl in *. subst os. by exists s'.
Qed.

Definition ts_ops : list vts_op :=
  [VInsert 3 7; VInsert 3 8; VValid 3 6; VValid 3 7; VRemove 1; VRemove 3; VRevert 3 7; VCount 7 6; VForeach 6 7;
   VCompact; VReserve 9; VInsert 7 2; VForeach 9 5; VIsRemoved 1; VRemove 20].

Lemma vertex_timestamps_refine_witness :
  exists s', vts_run ts_ops (vts_init new_timestamps 3 6) =
    Some ([ODone; OThrown; OBool false; OBool true; OTimestamp 0; OTimestamp 7; ODone; ONum 3; OVertices [0; 2; 3];
           ODone; ODone; ODone; OVertices [0; 2; 3; 7]; OBool true; OThrown], s').
Proof.
  destruct (vertex_timestamps_refine 3 6 ts_ops _ _ ltac:(lia) ltac:(lia) ltac:(vm_compute; reflexivity)) as (s' & Hs & _).
  exists s'. exact Hs.
Defined.

(** ** The file *)

Lemma removed_elems s v : vts_ok s -> v ∈ elements (default ∅ (removed_vertices_ s)) -> 0 <= v < init_vertex_num_ s.
Proof.
  intros Hs Hv. apply (vo_removed _ Hs). unfold is_removed_below. destruct (removed_vertices_ s); simpl in Hv.
  - apply bool_decide_eq_true_2. by apply elem_of_elements.
  - by apply elem_of_elements, elem_of_empty in Hv.
Qed.

(** The removed vertices as they are written. *)
Definition written (s : VertexTimestamp) : list Z :=
  match removed_vertices_ s with Some r => std_sort (elements r) | None => [] end.

Lemma written_elem s v : v ∈ written s <-> is_removed_below s v = true.
Proof.
  unfold written, is_removed_below, std_sort. destruct (removed_vertices_ s).
  - rewrite merge_sort_Permutation, elem_of_elements. by rewrite bool_decide_eq_true.
  - split; [by intros ?%elem_of_nil|done].
Qed.

Lemma written_len s : vts_ok s -> vlen (written s) <= init_vertex_num_ s.
Proof.
  intros Hs. assert (NoDup (written s)) as Hnd.
  { unfold written, std_sort. destruct (removed_vertices_ s); [|constructor]. rewrite merge_sort_Permutation. apply NoDup_elements. }
  assert (written s ⊆+ seqZ 0 (init_vertex_num_ s)) as Hsub.
  { apply NoDup_submseteq; [done|]. intros v Hv. apply written_elem, (vo_removed _ Hs) in Hv. by apply elem_of_seqZ; lia. }
  apply submseteq_length in Hsub. rewrite length_seqZ in Hsub. pose proof (vo_range _ Hs). unfold vlen. lia.
Qed.

Lemma dump_ts_wp s : vts_ok s -> wp (dump_ts s) (fun bytes =>
  bytes = le_bytes 4 (init_vertex_num_ s) ++ le_bytes 4 (max_vertex_num_ s) ++ le_bytes 4 (vlen (written s)) ++
    put_uints 4 [] (written s) ++ le_bytes 4 (vlen (entries s)) ++ put_uints 4 [] (entries s)).
Proof.
  intros Hs. pose proof Hs as [Hr Hl Hw Hrm]. unfold dump_ts. fold (written s). rewrite to_u32_small, <-Hl by lia.
  set (arc := put_uint _ _ (vlen (entries s))).
  apply (wp_for_range (fun i b => b = put_uints 4 arc (take (Z.to_nat i) (entries s)))); [apply vlen_nonneg|done| |].
  - intros i b Hi ->. replace i with (init_vertex_num_ s + i - init_vertex_num_ s) at 1 by lia.
    rewrite ts_load_wp by (done || lia). cbn [mbind option_bind]. wsteps.
    replace (Z.to_nat (i + 1)) with (S (Z.to_nat i)) by lia.
    unfold vlen in Hi. destruct (lookup_lt_is_Some_2 (entries s) (Z.to_nat i)) as [x Hx]; [lia|].
    rewrite (take_S_r _ _ _ Hx), (put_uints_app 4 arc (take _ _)), (put_uints_app 4 arc (_ ++ _)).
    replace (born s (init_vertex_num_ s + i)) with x.
    + unfold put_uint, AddBytes. rewrite <-app_assoc. f_equal. clear. induction (take (Z.to_nat i) (entries s)); simpl.
      * by unfold put_uint, AddBytes; rewrite app_nil_l.
      * rewrite put_uints_app, (put_uints_app _ _ (_ ++ _)), <-app_assoc. by f_equal.
    + unfold born. rewrite (proj2 (Z.ltb_ge _ _)) by lia. unfold vat. rewrite list_lookup_total_alt.
      replace (Z.to_nat (_ + i - _)) with (Z.to_nat i) by lia. by rewrite Hx.
  - intros b ->. unfold vlen. rewrite Nat2Z.id, firstn_all, put_uints_app. subst arc. unfold put_uint, AddBytes.
    rewrite (put_uints_app 4 _ (written s)), !app_nil_l, <-!app_assoc. done.
Qed.

Lemma store_all i m r tss pre post : length post = length tss ->
  for_each (zip (seqZ (vlen pre) (vlen tss)) tss) (VTS i (Some (pre ++ post)) m r) (fun '(k, ts) s => ts_store s k ts) =
  Some (VTS i (Some (pre ++ tss)) m r).
Proof.
  revert pre post. induction tss as [|ts tss IH]; intros pre post Hlen; destruct post as [|x post]; try done.
  replace (vlen (ts :: tss)) with (Z.succ (vlen tss)) by (unfold vlen; simpl; lia).
  rewrite seqZ_cons by (unfold vlen; lia). rewrite Z.pred_succ. cbn [zip zip_with for_each].
  assert (ts_store (VTS i (Some (pre ++ x :: post)) m r) (vlen pre) ts = Some (VTS i (Some (pre ++ ts :: post)) m r)) as ->.
  { unfold ts_store. simpl. by rewrite vset_Some, vput_middle by (rewrite vlen_app; unfold vlen; simpl; lia). }
  cbn [mbind option_bind].
  replace (Z.succ (vlen pre)) with (vlen (pre ++ [ts])) by (rewrite vlen_app; done).
  specialize (IH (pre ++ [ts]) post). rewrite <-!app_assoc in IH. simpl in *. apply IH. lia.
Qed.

Lemma load_dump s bytes : vts_ok s -> dump_ts s = Some bytes ->
  load_ts new_timestamps bytes = Some (VTS (init_vertex_num_ s) (Some (entries s)) (max_vertex_num_ s)
    (if 0 <? vlen (written s) then Some (list_to_set (written s)) else None)).
Proof.
  intros Hs Hd. pose proof (dump_ts_wp s Hs) as Hw. rewrite Hd in Hw. unfold wp in Hw. subst bytes. clear Hd.
  pose proof Hs as [Hr Hl Htw _]. pose proof (written_len s Hs). pose proof (vlen_nonneg (written s)).
  unfold load_ts. assert (256 ^ Z.of_nat 4 = 2 ^ 32) as H256 by done.
  rewrite get_put_uint by lia. cbn [mbind option_bind]. rewrite get_put_uint by lia. cbn [mbind option_bind].
  replace (vts_init _ _ _) with (VTS (init_vertex_num_ s) None (max_vertex_num_ s) None)
    by (unfold vts_init; simpl; by rewrite !Z.eqb_refl).
  rewrite get_put_uint by lia. cbn [mbind option_bind]. replace (Z.to_nat (vlen (written s))) with (length (written s)) by (unfold vlen; lia).
  rewrite get_put_uints.
  2:{ intros v Hv. apply written_elem, (vo_removed _ Hs) in Hv. lia. }
  cbn [mbind option_bind]. rewrite get_put_uint by (pose proof (vlen_nonneg (entries s)); lia). cbn [mbind option_bind].
  unfold resize_inserted_vertices. cbn [inserted_vertices_ mbind option_bind].
  replace (Z.to_nat (vlen (entries s))) with (length (entries s)) by (unfold vlen; lia).
  rewrite <-(app_nil_r (put_uints 4 [] (entries s))), get_put_uints.
  2:{ intros t Ht. rewrite Forall_forall in Htw. specialize (Htw t Ht). unfold is_ts, DELETED_TIMESTAMP in Htw. lia. }
  cbn [mbind option_bind]. simpl removed_vertices_. simpl init_vertex_num_. simpl max_vertex_num_.
  rewrite union_empty_l_L. apply (store_all _ _ _ (entries s) []).
  unfold vnew, vlen. by rewrite length_replicate, Nat2Z.id.
Qed.

(** Reading back gives an object for the same timestamps. *)
Lemma loaded_rel s a : vts_rel s a ->
  vts_rel (VTS (init_vertex_num_ s) (Some (entries s)) (max_vertex_num_ s)
    (if 0 <? vlen (written s) then Some (list_to_set (written s)) else None)) a.
Proof.
  intros (Hs & Hi & Hm & Hb). set (s' := VTS _ _ _ _).
  assert (forall v, is_removed_below s' v = is_removed_below s v) as Hrm.
  { intros v. apply eq_bool_prop_intro. rewrite !Is_true_true, <-(written_elem s). unfold is_removed_below at 1. simpl.
    destruct (Z.ltb_spec 0 (vlen (written s))).
    - by rewrite bool_decide_eq_true, elem_of_list_to_set.
    - destruct (written s); [|unfold vlen in *; simpl in *; lia]. split; [done|by intros ?%elem_of_nil]. }
  destruct Hs as [Hr Hl Hw Hrv]. split_and!; [|done|done|].
  - split; simpl; [done|done|done|]. intros v. rewrite Hrm. apply Hrv.
  - intros v Hv. rewrite Hb by done. unfold born. by rewrite Hrm.
Qed.

(** [Dump] then [Open] on a fresh object: [Dump] succeeds, leaves the object
    with every timestamp reset to 0 and the leading ones compacted away, and
    reading the written bytes gives an object for exactly the same timestamps,
    deleted vertices included. *)
Theorem timestamps_dump_open s init l : vts_rel s (init, l) ->
  exists bytes s' s2, vts_dump s = Some (bytes, s') /\ vts_open new_timestamps (Some bytes) = Some s2 /\
    let l' := map reset_ts l in let a := (init + first_non_zero (drop (Z.to_nat init) l'), l') in
    vts_rel s' a /\ vts_rel s2 a.
Proof.
  intros Hrel. pose proof (ResetTimestamps_rel _ _ _ Hrel) as Hw. apply wp_exists in Hw as (s1 & E1 & H1).
  pose proof (vts_compact_rel _ _ _ H1) as Hw. apply wp_exists in Hw as (s' & E2 & H2).
  pose proof (dump_ts_wp s' (proj1 H2)) as Hw. apply wp_exists in Hw as (bytes & E3 & _).
  exists bytes, s'. eexists. unfold vts_dump. rewrite E1. cbn [mbind option_bind]. rewrite E2. cbn [mbind option_bind].
  rewrite E3. split; [done|]. split; [exact (load_dump s' bytes (proj1 H2) E3)|].
  assert (map reset_ts (map reset_ts l) = map reset_ts l) as Hid.
  { rewrite map_map. apply map_ext. intros x. unfold reset_ts. repeat case_match; done || lia. }
  rewrite Hid in H2. split; [done|by apply loaded_rel].
Qed.

Definition some_timestamps : VertexTimestamp := VTS 2 (Some [5; 2 ^ 32 - 1; 9]) 5 (Some {[1]}).

Lemma some_timestamps_rel : vts_rel some_timestamps (2, [0; 2 ^ 32 - 1; 5; 2 ^ 32 - 1; 9]).
Proof.
  apply vts_relI; [|done|done|].
  - split; [done|done| |].
    + repeat constructor; unfold DELETED_TIMESTAMP; lia.
    + intros v. change (is_removed_below some_timestamps v) with (bool_decide (v ∈ ({[1]} : gset Z))).
      rewrite bool_decide_eq_true, elem_of_singleton. simpl. lia.
  - intros v Hv. change (0 <= v < 5) in Hv.
    assert (v = 0 \/ v = 1 \/ v = 2 \/ v = 3 \/ v = 4) as Hc by lia. by destruct Hc as [->|[->|[->|[->| ->]]]].
Qed.

Lemma timestamps_dump_open_witness : exists bytes s' s2,
  vts_dump some_timestamps = Some (bytes, s') /\ vts_open new_timestamps (Some bytes) = Some s2 /\
  vts_rel s2 (3, [0; 2 ^ 32 - 1; 0; 2 ^ 32 - 1; 0]).
Proof.
  destruct (timestamps_dump_open some_timestamps 2 _ some_timestamps_rel) as (bytes & s' & s2 & H1 & H2 & _ & H3).
  exists bytes, s', s2. split; [exact H1|]. split; [exact H2|exact H3].
Defined.

(** ** Inserting below [init_vertex_num_] *)

(** a vertex below [init_vertex_num_] is inserted again with a timestamp, as
    when a transaction adds a vertex that was deleted from a loaded graph.  The
    entries are resized from the back but the kept ones are put at the front and
    the rest is filled with [DELETED_TIMESTAMP]: when the entries are still
    unused, the call succeeds and every vertex above [v] is gone. *)
Theorem InsertVertex_hides_vertices s init l v ts : vts_rel s (init, l) -> 0 <= v < init -> 0 < ts < DELETED_TIMESTAMP ->
  (forall u, init <= u < vlen l -> vat l u = DELETED_TIMESTAMP) ->
  exists s', InsertVertex s v ts = Some (Returned tt, s') /\ born s' v = ts /\
    (forall u, 0 <= u < v -> born s' u = vat l u) /\
    (forall u t, v < u < vlen l -> 0 <= t < DELETED_TIMESTAMP -> IsVertexValid s' u t = Some false).
Proof.
  intros (Hs & Hi & Hm & Hb) Hv Hts Hfree. simpl in *. pose proof Hs as [Hr Hl Hw Hrm].
  cut (wp (InsertVertex s v ts) (fun r => exists k, r = (Returned tt, VTS v (Some (vput k 0 ts)) (vlen l) (removed_vertices_ s)) /\
    vlen k = vlen l - v /\ forall i, 0 <= i < vlen k -> vat k i = DELETED_TIMESTAMP)).
  { intros Hw'. apply wp_exists in Hw' as (r & Hins & k & -> & Hk & Hkv). eexists. split; [exact Hins|].
    split_and!.
    - unfold born, entries. simpl. rewrite (proj2 (Z.ltb_ge _ _)), Z.sub_diag by lia. by rewrite vat_vput_eq by lia.
    - intros u Hu. rewrite Hb, !born_below by (simpl; lia). done.
    - intros u t Hu Ht. unfold IsVertexValid. simpl. rewrite (proj2 (Z.ltb_ge _ _)), (proj2 (Z.leb_le _ _)) by lia.
      unfold ts_load. simpl. rewrite vget_Some by (rewrite vlen_vput; lia). simpl. rewrite vat_vput_ne, Hkv by lia.
      by rewrite (proj2 (Z.leb_gt _ _)) by lia. }
  unfold InsertVertex. rewrite (proj2 (Z.ltb_lt _ _)), (proj2 (Z.eqb_neq _ _)), to_u32_small by lia.
  apply wp_bind. eapply wp_mono; [apply resize_inserted_wp; [done|lia]|]. intros s' (k & -> & Hk & Hkw & Hkv). rewrite Hm in *.
  assert (forall i, 0 <= i < vlen k -> vat k i = DELETED_TIMESTAMP) as Hall.
  { intros i Hi'. rewrite Hkv by lia. case_decide; [|done]. set (off := _ - Z.min _ _). assert (off = 0) as -> by (subst off; lia).
    rewrite <-(Hfree (init + i)), Hb by lia. unfold born. rewrite (proj2 (Z.ltb_ge _ _)) by lia. f_equal. lia. }
  unfold insert_at, ts_load, ts_store. simpl. rewrite Z.sub_diag, to_u32_small by lia.
  rewrite vget_Some by lia. cbn [mbind option_bind]. rewrite Hall, Z.eqb_refl by lia. wsteps. by exists k.
Qed.

Lemma InsertVertex_hides_vertices_witness : exists s',
  InsertVertex (VTS 3 (Some [2 ^ 32 - 1]) 4 (Some {[0]})) 0 7 = Some (Returned tt, s') /\
  IsVertexValid (VTS 3 (Some [2 ^ 32 - 1]) 4 (Some {[0]})) 2 8 = Some true /\ IsVertexValid s' 2 8 = Some false.
Proof.
  destruct (InsertVertex_hides_vertices (VTS 3 (Some [2 ^ 32 - 1]) 4 (Some {[0]})) 3 [2 ^ 32 - 1; 0; 0; 2 ^ 32 - 1] 0 7)
    as (s' & H1 & _ & _ & H2).
  - apply vts_relI; [|done|done|].
    + split; [done|done|repeat constructor; unfold DELETED_TIMESTAMP; lia|].
      intros v Hv. unfold is_removed_below in Hv. apply bool_decide_eq_true, elem_of_singleton in Hv. simpl. lia.
    + intros v Hv. change (0 <= v < 4) in Hv.
      assert (v = 0 \/ v = 1 \/ v = 2 \/ v = 3) as Hc by lia. by destruct Hc as [->|[->|[->| ->]]].
  - lia.
  - unfold DELETED_TIMESTAMP; lia.
  - intros u Hu. change (3 <= u < 4) in Hu. by replace u with 3 by lia.
  - exists s'. split; [exact H1|]. split; [vm_compute; reflexivity|].
    apply H2; [change (0 < 2 < 4); lia|unfold DELETED_TIMESTAMP; lia].
Defined.
