(* ===== verification/MutableCsr.v ===== *)
(** * Mutable CSR

    [MutableCsr<EDATA_T>] (include/neug/storages/csr/mutable_csr.h,
    src/storages/csr/mutable_csr.cc): the edges of a label, one adjacency buffer
    per vertex.  The buffers are regions of the container [nbr_list_] or blocks
    from the allocator, and the adjacency lists hold pointers to them: [blocks]
    is that memory, a pointer is a block and an offset in entries, and an access
    outside a block is [None].  Fresh memory has arbitrary contents ([uninit]).
    The object has been opened; operations run one at a time. *)
From S2P Require Import Prelude Storage Aggregate Bitset.
#[local] Open Scope Z_scope.

Definition INVALID_TIMESTAMP : Z := 2 ^ 32 - 1.

(** [MutableNbr]. *)
Record nbr (D : Type) := Nbr { neighbor : Z; timestamp : Z; data : D }.
Arguments Nbr {D} _ _ _.
Arguments neighbor {D} _.
Arguments timestamp {D} _.
Arguments data {D} _.

Definition with_timestamp {D} (ts : Z) (x : nbr D) : nbr D := Nbr (neighbor x) ts (data x).
(** [timestamp != INVALID_TIMESTAMP]. *)
Definition live {D} (x : nbr D) : bool := negb (timestamp x =? INVALID_TIMESTAMP).

Abbreviation ptr := (option (Z * Z)).

Record MutableCsr (D : Type) := CSR {
  adj_list_buffer_ : list ptr;
  adj_list_size_ : list Z;
  adj_list_capacity_ : list Z;
  unsorted_since_ : Z;
  edge_num_ : Z;
  blocks : gmap Z (list (nbr D));
  next_block : Z
}.
Arguments CSR {D} _ _ _ _ _ _ _.
Arguments adj_list_buffer_ {D} _.
Arguments adj_list_size_ {D} _.
Arguments adj_list_capacity_ {D} _.
Arguments unsorted_since_ {D} _.
Arguments edge_num_ {D} _.
Arguments blocks {D} _.
Arguments next_block {D} _.

(** The contents of memory that has not been written. *)
Class NbrMemory (D : Type) := uninit : Z -> nbr D.

Section csr.
Context {D : Type} `{NbrMemory D}.
Implicit Types s : MutableCsr D.

Definition set_adj (bufs : list ptr) (sizes caps : list Z) s : MutableCsr D :=
  CSR bufs sizes caps (unsorted_since_ s) (edge_num_ s) (blocks s) (next_block s).
Definition set_sizes (sizes : list Z) s : MutableCsr D :=
  set_adj (adj_list_buffer_ s) sizes (adj_list_capacity_ s) s.
Definition set_blocks (bs : gmap Z (list (nbr D))) s : MutableCsr D :=
  CSR (adj_list_buffer_ s) (adj_list_size_ s) (adj_list_capacity_ s) (unsorted_since_ s) (edge_num_ s) bs (next_block s).
Definition set_unsorted_since (ts : Z) s : MutableCsr D :=
  CSR (adj_list_buffer_ s) (adj_list_size_ s) (adj_list_capacity_ s) ts (edge_num_ s) (blocks s) (next_block s).
(** [edge_num_.fetch_add(d)], a 64-bit counter. *)
Definition add_edge_num (d : Z) s : MutableCsr D :=
  CSR (adj_list_buffer_ s) (adj_list_size_ s) (adj_list_capacity_ s) (unsorted_since_ s) (to_u64 (edge_num_ s + d))
      (blocks s) (next_block s).

(** ** Memory *)

Definition load s (p : ptr) (i : Z) : option (nbr D) :=
  '(b, o) ← p; l ← blocks s !! b; vget l (o + i).

Definition store s (p : ptr) (i : Z) (x : nbr D) : option (MutableCsr D) :=
  '(b, o) ← p; l ← blocks s !! b; l' ← vset l (o + i) x; Some (set_blocks (<[b := l']> (blocks s)) s).

Definition memcpy_nbrs s (dst src : ptr) (n : Z) : option (MutableCsr D) :=
  for_range n s (fun i s => x ← load s src i; store s dst i x).

(** [alloc.allocate(cap * sizeof(nbr_t))]: a new block. *)
Definition allocate s (cap : Z) : ptr * MutableCsr D :=
  (Some (next_block s, 0),
   CSR (adj_list_buffer_ s) (adj_list_size_ s) (adj_list_capacity_ s) (unsorted_since_ s) (edge_num_ s)
       (<[next_block s := uninit <$> seqZ 0 cap]> (blocks s)) (next_block s + 1)).

(** [nbr_list_->Resize(n)]: the container's block 0 keeps its front. *)
Definition resize_nbr_list s (n : Z) : MutableCsr D :=
  set_blocks (<[0 := take (Z.to_nat n) (default [] (blocks s !! 0)) ++
                     drop (length (default [] (blocks s !! 0))) (uninit <$> seqZ 0 n)]> (blocks s)) s.

Definition vertex_capacity s : Z := vlen (adj_list_size_ s).
(** [static_cast<vid_t>(vertex_capacity())]. *)
Definition vnum s : Z := to_u32 (vertex_capacity s).

(** ** Single edges *)

(** The buffer of [src] is full: a larger one. *)
Definition grow s (src sz cap : Z) : option (MutableCsr D) :=
  cap ← i32 (cap + Z.shiftr cap 1);
  let cap := Z.max cap 8 in
  old ← vget (adj_list_buffer_ s) src;
  let '(new_buffer, s) := allocate s cap in
  s ← (if 0 <? sz then memcpy_nbrs s new_buffer old sz else Some s);
  bufs ← vset (adj_list_buffer_ s) src new_buffer;
  caps ← vset (adj_list_capacity_ s) src cap;
  Some (set_adj bufs (adj_list_size_ s) caps s).

Definition put_edge s (src dst : Z) (d : D) (ts : Z) : option (outcome Z * MutableCsr D) :=
  if vertex_capacity s <=? src then Some (Thrown, s)
  else
    sz ← vget (adj_list_size_ s) src;
    cap ← vget (adj_list_capacity_ s) src;
    s ← (if sz =? cap then grow s src sz cap else Some s);
    prev_size ← vget (adj_list_size_ s) src;
    sizes ← vset (adj_list_size_ s) src (to_int (prev_size + 1));
    buf ← vget (adj_list_buffer_ s) src;
    s ← store (set_sizes sizes s) buf prev_size (Nbr dst ts d);
    Some (Returned prev_size, add_edge_num 1 s).

Definition delete_edge s (src offset ts : Z) : option (outcome unit * MutableCsr D) :=
  if vnum s <=? src then Some (Thrown, s)
  else
    sz ← vget (adj_list_size_ s) src;
    if sz <=? offset then Some (Thrown, s)
    else
      buf ← vget (adj_list_buffer_ s) src;
      match buf with
      | None => Some (Thrown, s)
      | Some _ =>
          x ← load s buf offset;
          if timestamp x <=? ts then
            s ← store s buf offset (with_timestamp INVALID_TIMESTAMP x);
            Some (Returned tt, add_edge_num (-1) s)
          else Some (Returned tt, s)
      end.

Definition revert_delete_edge s (src v offset ts : Z) : option (outcome unit * MutableCsr D) :=
  if vnum s <=? src then Some (Thrown, s)
  else
    sz ← vget (adj_list_size_ s) src;
    if sz <=? offset then Some (Thrown, s)
    else
      buf ← vget (adj_list_buffer_ s) src;
      match buf with
      | None => Some (Thrown, s)
      | Some _ =>
          x ← load s buf offset;
          if negb (neighbor x =? v) then Some (Thrown, s)
          else if timestamp x =? INVALID_TIMESTAMP then
            s ← store s buf offset (with_timestamp ts x);
            Some (Returned tt, add_edge_num 1 s)
          else Some (Thrown, s)
      end.

(** ** Whole lists *)

(** The read and write pointers over the buffer of [src]: entries that [keep]
    accepts move to the front, [dropped] is called for the others, the size
    shrinks. *)
Definition filter_row s (src : Z) (keep : nbr D -> bool) (dropped : nbr D -> MutableCsr D -> MutableCsr D) :
    option (MutableCsr D) :=
  sz ← vget (adj_list_size_ s) src;
  buf ← vget (adj_list_buffer_ s) src;
  '(s, write, removed) ← for_range sz (s, 0, 0) (fun read '(s, write, removed) =>
    x ← load s buf read;
    if keep x then
      s ← (if negb (removed =? 0) then store s buf write x else Some s);
      Some (s, write + 1, removed)
    else Some (dropped x s, write, removed + 1));
  sizes ← vset (adj_list_size_ s) src (to_int (sz - removed));
  Some (set_sizes sizes s).

Definition compact s : option (outcome unit * MutableCsr D) :=
  '(s, total_edge_num) ← for_range (vertex_capacity s) (s, 0) (fun i '(s, total) =>
    buf ← vget (adj_list_buffer_ s) i;
    match buf with
    | None => Some (s, total)
    | Some _ =>
        s ← filter_row s i live (fun _ s => s);
        sz ← vget (adj_list_size_ s) i;
        Some (s, to_u64 (total + sz))
    end);
  Some (if total_edge_num =? edge_num_ s then Returned tt else Thrown, s).

Definition reset_timestamp s : option (MutableCsr D) :=
  for_range (vertex_capacity s) s (fun i s =>
    buf ← vget (adj_list_buffer_ s) i;
    match buf with
    | None => Some s
    | Some _ =>
        deg ← vget (adj_list_size_ s) i;
        for_range deg s (fun j s =>
          x ← load s buf j;
          if live x then store s buf j (with_timestamp 0 x) else Some s)
    end).

Definition resize s (n : Z) : MutableCsr D :=
  let old_vnum := vertex_capacity s in
  if old_vnum <? n then
    set_adj (adj_list_buffer_ s ++ vnew (n - old_vnum) None) (adj_list_size_ s ++ vnew (n - old_vnum) 0)
            (adj_list_capacity_ s ++ vnew (n - old_vnum) 0) s
  else
    set_adj (take (Z.to_nat n) (adj_list_buffer_ s)) (take (Z.to_nat n) (adj_list_size_ s))
            (take (Z.to_nat n) (adj_list_capacity_ s)) s.

(** The entries [0 .. n - 1] at [buf]. *)
Definition read_nbrs s (buf : ptr) (n : Z) : option (list (nbr D)) :=
  for_range n [] (fun j l => x ← load s buf j; Some (l ++ [x])).

(** [batch_sort_by_edge_data]; [sort] is [std::sort] by [data]. *)
Definition batch_sort_by_edge_data (sort : list (nbr D) -> list (nbr D)) s (ts : Z) : option (MutableCsr D) :=
  s ← for_range (vertex_capacity s) s (fun i s =>
    buf ← vget (adj_list_buffer_ s) i;
    match buf with
    | None => Some s
    | Some _ =>
        sz ← vget (adj_list_size_ s) i;
        l ← read_nbrs s buf sz;
        for_each (zip (seqZ 0 sz) (sort l)) s (fun '(j, x) s => store s buf j x)
    end);
  Some (set_unsorted_since ts s).

(** [batch_export]: the sources, neighbours and data of the live entries. *)
Definition batch_export s : option (list Z * list Z * list D) :=
  for_range (vnum s) ([], [], []) (fun src lists =>
    buf ← vget (adj_list_buffer_ s) src;
    deg ← vget (adj_list_size_ s) src;
    for_range deg lists (fun i '(src_list, dst_list, data_list) =>
      x ← load s buf i;
      Some (if live x then (src_list ++ [src], dst_list ++ [neighbor x], data_list ++ [data x])
            else (src_list, dst_list, data_list)))).

(** ** Batches *)

Definition drop_live (x : nbr D) s : MutableCsr D := if live x then add_edge_num (-1) s else s.

Definition batch_delete_vertices s (src_set dst_set : gset Z) : option (MutableCsr D) :=
  let vnum := vnum s in
  s ← for_each (std_sort (elements src_set)) s (fun src s =>
    if src <? vnum then
      buf ← vget (adj_list_buffer_ s) src;
      sz ← vget (adj_list_size_ s) src;
      s ← for_range sz s (fun j s => x ← load s buf j; Some (drop_live x s));
      sizes ← vset (adj_list_size_ s) src 0;
      Some (set_sizes sizes s)
    else Some s);
  for_range vnum s (fun src s =>
    sz ← vget (adj_list_size_ s) src;
    buf ← vget (adj_list_buffer_ s) src;
    if sz =? 0 then Some s
    else match buf with
         | None => Some s
         | Some _ => filter_row s src (fun x => bool_decide (neighbor x ∉ dst_set)) drop_live
         end).

(** [map[k].insert(v)]. *)
Definition map_insert (m : gmap Z (gset Z)) (k v : Z) : gmap Z (gset Z) := <[k := {[v]} ∪ default ∅ (m !! k)]> m.
Definition map_keys (m : gmap Z (gset Z)) : list Z := std_sort (elements (dom m)).

Definition batch_delete_edges s (src_list dst_list : list Z) : option (MutableCsr D) :=
  src_dst_map ← for_range (vlen src_list) ∅ (fun i m =>
    src ← vget src_list i;
    if vnum s <=? src then Some m else dst ← vget dst_list i; Some (map_insert m src dst));
  for_each (map_keys src_dst_map) s (fun src s =>
    dsts ← src_dst_map !! src;
    buf ← vget (adj_list_buffer_ s) src;
    match buf with
    | None => Some s
    | Some _ =>
        sz ← vget (adj_list_size_ s) src;
        for_range sz s (fun j s =>
          x ← load s buf j;
          if bool_decide (neighbor x ∈ dsts) then
            s ← store s buf j (with_timestamp INVALID_TIMESTAMP x); Some (add_edge_num (-1) s)
          else Some s)
    end).

(** The overload that takes sources and offsets. *)
Definition batch_delete_offsets s (edges : list (Z * Z)) : option (MutableCsr D) :=
  src_offset_map ← for_each edges ∅ (fun '(src, offset) m =>
    if vnum s <=? src then Some m
    else sz ← vget (adj_list_size_ s) src; Some (if sz <=? offset then m else map_insert m src offset));
  for_each (map_keys src_offset_map) s (fun src s =>
    offsets ← src_offset_map !! src;
    buf ← vget (adj_list_buffer_ s) src;
    match buf with
    | None => Some s
    | Some _ =>
        for_each (std_sort (elements offsets)) s (fun offset s =>
          x ← load s buf offset;
          let s := drop_live x s in
          store s buf offset (with_timestamp INVALID_TIMESTAMP x))
    end).

(** *** [batch_put_edges] *)

(** [degree]: how many of the new edges leave each vertex. *)
Definition count_degrees (vnum : Z) (src_list : list Z) : option (list Z) :=
  for_each src_list (vnew vnum 0) (fun src degree =>
    if src <? vnum then n ← vget degree src; n ← i32 (n + 1); vset degree src n else Some degree).

(** [float]: rounding a non-negative integer to 24 significant bits, ties to
    even; [DEFAULT_RESERVE_RATIO] is [10066330 / 2 ^ 23], the [float] nearest to
    1.2. *)
Definition float_round (x : Z) : Z :=
  let k := Z.log2 x - 23 in
  if k <=? 0 then x
  else
    let q := x / 2 ^ k in
    let r := x mod 2 ^ k in
    let up := (2 ^ (k - 1) <? r) || ((r =? 2 ^ (k - 1)) && Z.odd q) in
    (if up then q + 1 else q) * 2 ^ k.

Definition RATIO_MANTISSA : Z := 10066330.

(** [std::ceil(new_degree * DEFAULT_RESERVE_RATIO)]. *)
Definition reserved (new_degree : Z) : Z :=
  let product := float_round (RATIO_MANTISSA * float_round new_degree) in
  - (- product / 2 ^ 23).

(** The new capacities, [total_to_move] and [total_to_allocate]. *)
Definition plan_capacities s (vnum : Z) (degree : list Z) : option (list Z * Z * Z) :=
  for_range vnum (adj_list_capacity_ s, 0, 0) (fun i '(caps, total_to_move, total_to_allocate) =>
    old_deg ← vget (adj_list_size_ s) i;
    d ← vget degree i;
    new_degree ← i32 (d + old_deg);
    new_cap ← i32 (reserved new_degree);
    caps ← vset caps i new_cap;
    Some (caps, total_to_move + old_deg, total_to_allocate + new_cap)).

(** The old entries, one vertex after the other, in [new_nbr_list]. *)
Definition save_nbrs s (vnum total_to_move : Z) : option (list (nbr D)) :=
  '(new_nbr_list, _) ← for_range vnum (uninit <$> seqZ 0 total_to_move, 0) (fun i '(l, offset) =>
    old_deg ← vget (adj_list_size_ s) i;
    buf ← vget (adj_list_buffer_ s) i;
    l ← (if (0 <? old_deg) && bool_decide (is_Some buf) then
           for_range old_deg l (fun j l => x ← load s buf j; vset l (offset + j) x)
         else Some l);
    Some (l, offset + old_deg));
  Some new_nbr_list.

(** The entries at their new places in [nbr_list_]. *)
Definition move_nbrs s (vnum : Z) (base : ptr) (caps : list Z) (new_nbr_list : list (nbr D)) : option (MutableCsr D) :=
  '(s, _, _) ← for_range vnum (set_adj (adj_list_buffer_ s) (adj_list_size_ s) caps s, 0, 0) (fun i '(s, offset, new_offset) =>
    let new_buffer := '(b, o) ← base; Some (b, o + offset) in
    old_deg ← vget (adj_list_size_ s) i;
    s ← (if (0 <? old_deg) && bool_decide (is_Some new_buffer) then
           for_range old_deg s (fun j s => x ← vget new_nbr_list (new_offset + j); store s new_buffer j x)
         else Some s);
    cap ← vget (adj_list_capacity_ s) i;
    bufs ← vset (adj_list_buffer_ s) i new_buffer;
    Some (set_adj bufs (adj_list_size_ s) (adj_list_capacity_ s) s, offset + cap, new_offset + old_deg));
  Some s.

Definition append_edge s (src : Z) (x : nbr D) : option (MutableCsr D) :=
  buf ← vget (adj_list_buffer_ s) src;
  sz ← vget (adj_list_size_ s) src;
  sizes ← vset (adj_list_size_ s) src (to_int (sz + 1));
  store (set_sizes sizes s) buf sz x.

Definition batch_put_edges s (src_list dst_list : list Z) (data_list : list D) (ts : Z) : option (MutableCsr D) :=
  let vnum := vnum s in
  if vnum =? 0 then Some s
  else
    degree ← count_degrees vnum src_list;
    '(caps, total_to_move, total_to_allocate) ← plan_capacities s vnum degree;
    new_nbr_list ← save_nbrs s vnum total_to_move;
    let s := resize_nbr_list s total_to_allocate in
    let base_ptr := if total_to_allocate =? 0 then None else Some (0, 0) in
    s ← move_nbrs s vnum base_ptr caps new_nbr_list;
    '(s, added_edge_num) ← for_range (vlen src_list) (s, 0) (fun i '(s, added) =>
      src ← vget src_list i;
      if vnum <=? src then Some (s, added)
      else
        dst ← vget dst_list i;
        d ← vget data_list i;
        s ← append_edge s src (Nbr dst ts d);
        Some (s, added + 1));
    Some (add_edge_num added_edge_num s).

(** ** Files *)

(** The files of a snapshot: [.deg], [.cap] when present, [.nbr] and [.meta]. *)
Record CsrFiles := Files {
  file_deg : list Z;
  file_cap : option (list Z);
  file_nbr : list (nbr D);
  file_meta : option (Z * Z)
}.

(** [dump] into a new directory. *)
Definition dump s : option CsrFiles :=
  let vnum := vertex_capacity s in
  '(degree_list, need_cap_list) ← for_range vnum ([] : list Z, false) (fun i '(degs, need) =>
    d ← vget (adj_list_size_ s) i;
    cap ← vget (adj_list_capacity_ s) i;
    Some (degs ++ [d], need || negb (d =? cap)));
  nbr_out ← for_range vnum [] (fun i out =>
    buf ← vget (adj_list_buffer_ s) i;
    cap ← vget (adj_list_capacity_ s) i;
    l ← read_nbrs s buf cap;
    Some (out ++ l));
  Some (Files degree_list (if (need_cap_list : bool) then Some (adj_list_capacity_ s) else None) nbr_out
              (Some (unsorted_since_ s, edge_num_ s))).

(** [open]; nothing is left of the object's former state. *)
Definition open (files : CsrFiles) : option (outcome (MutableCsr D)) :=
  let meta := default (0, 0) (file_meta files) in
  let degree_list := file_deg files in
  let cap_list := default degree_list (file_cap files) in
  let v_cap := vlen degree_list in
  '(bufs, sizes, caps, edge_count, _) ← for_range v_cap (vnew v_cap (None : ptr), vnew v_cap 0, vnew v_cap 0, 0, 0)
    (fun i '(bufs, sizes, caps, edge_count, offset) =>
      deg ← vget degree_list i;
      cap ← vget cap_list i;
      bufs ← vset bufs i (if (vlen (file_nbr files) =? 0) && (offset =? 0) then None else Some (0, offset));
      sizes ← vset sizes i deg;
      caps ← vset caps i cap;
      Some (bufs, sizes, caps, to_u64 (edge_count + deg), offset + cap));
  Some (if snd meta =? edge_count then
          Returned (CSR bufs sizes caps (fst meta) (snd meta) {[0 := file_nbr files]} 1)
        else Thrown).

End csr.
