(* ===== verification/CsrRows.v ===== *)
(** * Rows of the mutable CSR

    The representation invariant of [MutableCsr] (disjoint buffers inside
    allocated blocks, sizes below capacities) and the transition [row_step]:
    one adjacency list changes, the others stay. *)
From S2P Require Import Prelude Storage Aggregate Bitset MutableCsr.
#[local] Open Scope Z_scope.

#[export] Instance nbr_inhabited {D} `{NbrMemory D} : Inhabited (nbr D) := populate (uninit 0).
#[export] Instance data_inhabited {D} `{NbrMemory D} : Inhabited D | 100 := populate (data (uninit 0)).

(** ** Counters modulo [2 ^ 64] *)

Definition eqm (a b : Z) : Prop := to_u64 a = to_u64 b.

#[export] Instance eqm_equiv : Equivalence eqm.
Proof. split; unfold eqm; repeat intro; congruence. Qed.
#[export] Instance eqm_add : Proper (eqm ==> eqm ==> eqm) Z.add.
Proof. unfold eqm, to_u64. intros a a' Ha b b' Hb. by rewrite (Z.add_mod a), (Z.add_mod a'), Ha, Hb by lia. Qed.
Lemma eqm_u64 a : eqm (to_u64 a) a.
Proof. unfold eqm, to_u64. by rewrite Z.mod_mod by lia. Qed.
Lemma eqm_range a b : 0 <= a < 2 ^ 64 -> eqm a b -> a = to_u64 b.
Proof. unfold eqm, to_u64. intros Ha <-. by rewrite Z.mod_small. Qed.
Lemma eqm_eq a b : a = b -> eqm a b.
Proof. by intros ->. Qed.

Section rows.
Context {D : Type} `{NbrMemory D}.
Implicit Types s : MutableCsr D.

Definition buf_at s (i : Z) : ptr := vat (adj_list_buffer_ s) i.
Definition size_at s (i : Z) : Z := vat (adj_list_size_ s) i.
Definition cap_at s (i : Z) : Z := vat (adj_list_capacity_ s) i.
(** Entry [j] of the buffer of vertex [i]. *)
Definition cell s (i j : Z) : option (nbr D) := load s (buf_at s i) j.

Record csr_ok s : Prop := {
  co_bufs : vlen (adj_list_buffer_ s) = vertex_capacity s;
  co_caps : vlen (adj_list_capacity_ s) = vertex_capacity s;
  co_vnum : vertex_capacity s < 2 ^ 32;
  co_size i : 0 <= i < vertex_capacity s -> 0 <= size_at s i <= cap_at s i /\ cap_at s i <= INT_MAX;
  co_cell i j : 0 <= i < vertex_capacity s -> 0 <= j < cap_at s i -> is_Some (cell s i j);
  co_block i b o : 0 <= i < vertex_capacity s -> buf_at s i = Some (b, o) -> 0 <= o /\ b < next_block s;
  co_disjoint i k b o o' j j' : 0 <= i < vertex_capacity s -> 0 <= k < vertex_capacity s -> i <> k ->
    buf_at s i = Some (b, o) -> buf_at s k = Some (b, o') ->
    0 <= j < cap_at s i -> 0 <= j' < cap_at s k -> o + j <> o' + j';
  co_next : 0 < next_block s;
  co_count : 0 <= edge_num_ s < 2 ^ 64
}.

(** Everything but the contents of the blocks. *)
Record same_shape s s' : Prop := {
  ss_bufs : adj_list_buffer_ s' = adj_list_buffer_ s;
  ss_sizes : adj_list_size_ s' = adj_list_size_ s;
  ss_caps : adj_list_capacity_ s' = adj_list_capacity_ s;
  ss_unsorted : unsorted_since_ s' = unsorted_since_ s;
  ss_count : edge_num_ s' = edge_num_ s;
  ss_next : next_block s' = next_block s
}.

Lemma csr_ok_shape s s' : csr_ok s -> same_shape s s' ->
  (forall i j, 0 <= i < vertex_capacity s -> 0 <= j < cap_at s i -> is_Some (cell s' i j)) -> csr_ok s'.
Proof.
  intros [] [] Hc. unfold vertex_capacity, size_at, cap_at, buf_at in *.
  split; unfold vertex_capacity, size_at, cap_at, buf_at;
    rewrite ?ss_bufs0, ?ss_sizes0, ?ss_caps0, ?ss_count0, ?ss_next0; done.
Qed.

Lemma vnum_eq s : csr_ok s -> vnum s = vertex_capacity s.
Proof. intros []. unfold vnum. rewrite to_u32_small; [done|]. unfold vertex_capacity, vlen in *. lia. Qed.

(** Storing an entry within the capacity of vertex [i]. *)
Lemma store_cell s i j x : csr_ok s -> 0 <= i < vertex_capacity s -> 0 <= j < cap_at s i ->
  wp (store s (buf_at s i) j x) (fun s' => csr_ok s' /\ same_shape s s' /\
    forall k m, 0 <= k < vertex_capacity s -> 0 <= m < cap_at s k ->
      cell s' k m = if decide (k = i /\ m = j) then Some x else cell s k m).
Proof.
  intros Hok Hi Hj. destruct (co_cell _ Hok i j Hi Hj) as [y Hy]. unfold cell, load in Hy. unfold store.
  destruct (buf_at s i) as [[b o]|] eqn:Eb; [|done]. cbn [mbind option_bind] in *.
  destruct (blocks s !! b) as [l|] eqn:El; [|done]. cbn [mbind option_bind] in *.
  pose proof (vget_inv _ _ _ Hy) as [Hrange _]. apply wp_bind, wp_vset; [done|]. apply wp_ret.
  set (s' := set_blocks _ s).
  assert (forall k m, 0 <= k < vertex_capacity s -> 0 <= m < cap_at s k ->
    cell s' k m = if decide (k = i /\ m = j) then Some x else cell s k m) as Hcell.
  { intros k m Hk Hm. unfold cell, load. change (buf_at s' k) with (buf_at s k).
    destruct (co_cell _ Hok k m Hk Hm) as [z Hz]. unfold cell, load in Hz.
    destruct (buf_at s k) as [[b' o']|] eqn:Eb'; [|done]. cbn [mbind option_bind] in *. simpl blocks.
    destruct (decide (b' = b)) as [->|Hne].
    - rewrite lookup_insert_eq. rewrite El in *. cbn [mbind option_bind] in *.
      pose proof (vget_inv _ _ _ Hz) as [Hr' _]. rewrite vget_Some by (rewrite vlen_vput; lia).
      rewrite vat_vput by lia. destruct (decide (k = i)) as [->|Hki].
      + rewrite Eb in Eb'. injection Eb' as <-. rewrite vget_Some by lia. repeat case_decide; try done; try lia.
      + pose proof (co_disjoint _ Hok i k b o o' j m Hi Hk ltac:(lia) Eb Eb' Hj Hm).
        rewrite !decide_False by lia. by rewrite vget_Some by lia.
    - rewrite lookup_insert_ne by done. rewrite decide_False; [done|]. intros [-> ->]. rewrite Eb in Eb'. congruence. }
  split_and!; [|done|done]. eapply csr_ok_shape; [done|done|]. intros k m Hk Hm. rewrite Hcell by done.
  case_decide; [done|]. by apply co_cell.
Qed.

(** ** Rows *)

(** The adjacency list of vertex [i]. *)
Definition row_is s (i : Z) (l : list (nbr D)) : Prop :=
  vlen l = size_at s i /\ forall j, 0 <= j < vlen l -> cell s i j = Some (vat l j).

(** One call on vertex [i]: its list becomes [l], the counter changes by [d]. *)
Record row_step s s' (i : Z) (l : list (nbr D)) (d : Z) : Prop := {
  rs_ok : csr_ok s';
  rs_vnum : vertex_capacity s' = vertex_capacity s;
  rs_row : row_is s' i l;
  rs_others k m : 0 <= k < vertex_capacity s -> k <> i -> row_is s k m -> row_is s' k m;
  rs_caps k : 0 <= k < vertex_capacity s -> k <> i -> cap_at s' k = cap_at s k;
  rs_buf k : 0 <= k < vertex_capacity s -> k <> i -> buf_at s' k = buf_at s k;
  rs_unsorted : unsorted_since_ s' = unsorted_since_ s;
  rs_count : eqm (edge_num_ s') (edge_num_ s + d)
}.

Lemma row_step_trans s1 s2 s3 i l1 l2 d1 d2 :
  row_step s1 s2 i l1 d1 -> row_step s2 s3 i l2 d2 -> row_step s1 s3 i l2 (d1 + d2).
Proof.
  intros [] []. split; try done; try congruence.
  - intros k m Hk Hne Hm. apply rs_others1; [lia|done|]. by apply rs_others0.
  - intros k Hk Hne. rewrite rs_caps1 by (done || lia). by apply rs_caps0.
  - intros k Hk Hne. rewrite rs_buf1 by (done || lia). by apply rs_buf0.
  - rewrite rs_count1, rs_count0. by rewrite Z.add_assoc.
Qed.

Lemma row_step_refl s i l : csr_ok s -> row_is s i l -> row_step s s i l 0.
Proof. intros Hok Hl. split; try done. by rewrite Z.add_0_r. Qed.

Lemma row_size s i l : row_is s i l -> size_at s i = vlen l.
Proof. by intros [-> _]. Qed.

Lemma row_load s i l j (Q : nbr D -> Prop) : row_is s i l -> 0 <= j < vlen l -> Q (vat l j) -> wp (load s (buf_at s i) j) Q.
Proof. intros [_ Hl] Hj HQ. fold (cell s i j). by rewrite Hl. Qed.

Lemma row_buf s i l : csr_ok s -> row_is s i l -> 0 < vlen l -> is_Some (buf_at s i).
Proof.
  intros Hok [_ Hl] Hpos. specialize (Hl 0 ltac:(lia)). unfold cell, load in Hl. by destruct (buf_at s i).
Qed.

(** Storing an entry of the list. *)
Lemma row_store s i l j x : csr_ok s -> 0 <= i < vertex_capacity s -> row_is s i l -> 0 <= j < vlen l ->
  wp (store s (buf_at s i) j x) (fun s' => same_shape s s' /\ row_step s s' i (vput l j x) 0).
Proof.
  intros Hok Hi Hl Hj. pose proof (co_size _ Hok i Hi) as Hsz. rewrite (row_size _ _ _ Hl) in Hsz.
  eapply wp_mono; [apply store_cell; [done|done|lia]|]. intros s' (Hok' & Hss & Hcell). split; [done|].
  assert (vertex_capacity s' = vertex_capacity s) as Hv by (unfold vertex_capacity; by rewrite (ss_sizes _ _ Hss)).
  assert (forall k, size_at s' k = size_at s k) as Hsa by (intros; unfold size_at; by rewrite (ss_sizes _ _ Hss)).
  split; try done.
  - split; [rewrite vlen_vput, Hsa; by destruct Hl|]. rewrite vlen_vput. intros m Hm.
    rewrite Hcell, vat_vput by lia. destruct Hl as [_ Hl]. repeat case_decide; try lia; try done. by apply Hl.
  - intros k m Hk Hne [Hlen Hm]. split; [by rewrite Hsa|]. intros q Hq. pose proof (co_size _ Hok k Hk).
    rewrite Hcell by lia. rewrite decide_False by lia. by apply Hm.
  - intros k _ _. unfold cap_at. by rewrite (ss_caps _ _ Hss).
  - intros k _ _. unfold buf_at. by rewrite (ss_bufs _ _ Hss).
  - by rewrite (ss_unsorted _ _ Hss).
  - rewrite (ss_count _ _ Hss). by rewrite Z.add_0_r.
Qed.

(** Setting the size of vertex [i]. *)
Lemma set_size_step s i n l : csr_ok s -> 0 <= i < vertex_capacity s -> 0 <= n <= cap_at s i ->
  vlen l = n -> (forall j, 0 <= j < n -> cell s i j = Some (vat l j)) ->
  row_step s (set_sizes (vput (adj_list_size_ s) i n) s) i l 0.
Proof.
  intros Hok Hi Hn Hl Hc. set (s' := set_sizes _ s). pose proof Hok as [].
  assert (vertex_capacity s' = vertex_capacity s) as Hv by (unfold vertex_capacity; simpl; by rewrite vlen_vput).
  assert (forall k, 0 <= k < vertex_capacity s -> size_at s' k = if decide (k = i) then n else size_at s k) as Hsz.
  { intros k Hk. unfold size_at. simpl. unfold vertex_capacity in Hk, Hi. rewrite vat_vput by lia. repeat case_decide; congruence. }
  split; try done.
  - split; rewrite ?Hv; try done. intros k Hk. rewrite Hsz by done. change (cap_at s' k) with (cap_at s k).
    case_decide; [subst k; split; [lia|by apply co_size0]|by apply co_size0].
  - split; [rewrite Hsz, decide_True by lia; done|]. intros j Hj. apply Hc. lia.
  - intros k m Hk Hne [Hlen Hm]. split; [rewrite Hsz, decide_False by lia; done|done].
  - by rewrite Z.add_0_r.
Qed.

Lemma add_edge_num_step s i l d : csr_ok s -> row_is s i l -> row_step s (add_edge_num d s) i l d.
Proof.
  intros Hok Hl. split; try done.
  - destruct Hok. split; try done. simpl. unfold to_u64. apply Z.mod_pos_bound. lia.
  - apply eqm_u64.
Qed.

(** ** All vertices *)

Definition lives (l : list (nbr D)) : Z := vlen (filter (fun x => live x = true) l).

(** The object stands for the adjacency lists [adj]. *)
Definition csr_rows s (adj : list (list (nbr D))) : Prop :=
  csr_ok s /\ vlen adj = vertex_capacity s /\ forall i, 0 <= i < vlen adj -> row_is s i (vat adj i).

Definition total_live (adj : list (list (nbr D))) : Z := sumz (fun i => lives (vat adj i)) (vlen adj).

(** ... and the counter is the number of their live entries. *)
Definition csr_rel s adj : Prop := csr_rows s adj /\ eqm (edge_num_ s) (total_live adj).

Lemma rows_row s adj i : csr_rows s adj -> 0 <= i < vlen adj -> row_is s i (vat adj i).
Proof. intros (_ & _ & Hr). apply Hr. Qed.

Lemma rows_step s s' adj i l d : csr_rows s adj -> 0 <= i < vlen adj -> row_step s s' i l d -> csr_rows s' (vput adj i l).
Proof.
  intros (Hok & Hlen & Hr) Hi []. split_and!; [done|by rewrite vlen_vput, rs_vnum0|]. rewrite vlen_vput. intros k Hk.
  rewrite vat_vput by lia. case_decide; [by subst|]. apply rs_others0; [lia|done|by apply Hr].
Qed.

Lemma total_vput adj i l : 0 <= i < vlen adj -> total_live (vput adj i l) = total_live adj + (lives l - lives (vat adj i)).
Proof.
  intros Hi. unfold total_live. rewrite vlen_vput. rewrite (sumz_update _ (fun k => lives (vat adj k)) _ i Hi).
  - by rewrite vat_vput_eq.
  - intros k Hk Hne. by rewrite vat_vput_ne by lia.
Qed.

Lemma rel_step s s' adj i l d : csr_rel s adj -> 0 <= i < vlen adj -> row_step s s' i l d ->
  eqm d (lives l - lives (vat adj i)) -> csr_rel s' (vput adj i l).
Proof.
  intros [Hrows Hc] Hi Hstep Hd. split; [by eapply rows_step|].
  rewrite (rs_count _ _ _ _ _ Hstep), Hc, Hd, total_vput by done. done.
Qed.

Definition zsum (d : Z -> Z) (keys : list Z) : Z := foldr Z.add 0 (d <$> keys).

Lemma zsum_snoc d keys i : zsum d (keys ++ [i]) = zsum d keys + d i.
Proof. unfold zsum. rewrite fmap_app, foldr_add_app. simpl. lia. Qed.

(** [adj'] differs from [adj] at [keys] only. *)
Record changes_at (keys : list Z) (adj adj' : list (list (nbr D))) : Prop := {
  ca_len : vlen adj' = vlen adj;
  ca_nodup : NoDup keys;
  ca_range i : i ∈ keys -> 0 <= i < vlen adj;
  ca_same i : 0 <= i < vlen adj -> i ∉ keys -> vat adj' i = vat adj i
}.

Lemma changes_all adj adj' n : n = vlen adj -> vlen adj' = vlen adj -> changes_at (seqZ 0 n) adj adj'.
Proof.
  intros -> Hl. split; [done|apply NoDup_seqZ| |].
  - intros i Hi. apply elem_of_seqZ in Hi. lia.
  - intros i Hi Hn. destruct Hn. apply elem_of_seqZ. lia.
Qed.

(** A loop over the vertices [keys] whose body changes one row at a time; [P] is
    about the rest of the loop state. *)
Lemma wp_rows {St} (get : St -> MutableCsr D) (P : list Z -> St -> Prop) (d : Z -> Z) (body : Z -> St -> option St) (a : St)
    adj adj' keys (Q : St -> Prop) :
  csr_rows (get a) adj -> changes_at keys adj adj' -> P [] a ->
  (forall done i a, i ∈ keys -> 0 <= i < vlen adj -> csr_ok (get a) -> vertex_capacity (get a) = vlen adj ->
     row_is (get a) i (vat adj i) -> P done a ->
     wp (body i a) (fun a' => row_step (get a) (get a') i (vat adj' i) (d i) /\ P (done ++ [i]) a')) ->
  (forall a', csr_rows (get a') adj' -> unsorted_since_ (get a') = unsorted_since_ (get a) ->
     eqm (edge_num_ (get a')) (edge_num_ (get a) + zsum d keys) -> P keys a' -> Q a') ->
  wp (for_each keys a body) Q.
Proof.
  intros (Hok & Hlen & Hr) [Hlen' Hnd Hin Hsame] HP Hbody HQ.
  apply (wp_for_each (fun dn a' => csr_ok (get a') /\ vertex_capacity (get a') = vlen adj /\
    (forall k, 0 <= k < vlen adj -> row_is (get a') k (if decide (k ∈ dn) then vat adj' k else vat adj k)) /\
    unsorted_since_ (get a') = unsorted_since_ (get a) /\ eqm (edge_num_ (get a')) (edge_num_ (get a) + zsum d dn) /\ P dn a')).
  - split_and!; [done|done| |done|unfold zsum; simpl; by rewrite Z.add_0_r|done]. intros k Hk. rewrite decide_False by apply not_elem_of_nil.
    by apply Hr.
  - intros dn i rest a' -> (Hok' & Hv & Hrow & Hu & He & HP'). assert (i ∈ dn ++ i :: rest) as Hi by set_solver.
    assert (i ∉ dn) as Hni. { apply NoDup_app in Hnd as (_ & Hd & _). intros Hc. apply (Hd i Hc). by left. }
    pose proof (Hin i Hi) as Hir. pose proof (Hrow i Hir) as Hri. rewrite decide_False in Hri by done.
    eapply wp_mono; [by apply (Hbody dn i a')|]. intros a'' [Hs HP'']. pose proof Hs as [].
    split_and!; [done|congruence| |congruence| |done].
    + intros k Hk. destruct (decide (k = i)) as [->|Hne]; [by rewrite decide_True by set_solver|].
      specialize (Hrow k Hk). destruct (decide (k ∈ dn)); [rewrite decide_True by set_solver|rewrite decide_False by set_solver];
        apply rs_others0; try done; lia.
    + rewrite rs_count0, He, zsum_snoc. by rewrite Z.add_assoc.
  - intros a' (Hok' & Hv & Hrow & Hu & He & HP'). apply HQ; try done. split_and!; [done|congruence|].
    rewrite Hlen'. intros i Hi. specialize (Hrow i Hi). case_decide; [done|]. by rewrite Hsame.
Qed.

(** A sum over [keys] is a sum over all the vertices. *)
Lemma zsum_sumz (d : Z -> Z) keys n : NoDup keys -> (forall i, i ∈ keys -> 0 <= i < n) ->
  (forall i, 0 <= i < n -> i ∉ keys -> d i = 0) -> zsum d keys = sumz d n.
Proof.
  intros Hnd Hin Hz0.
  assert (seqZ 0 n ≡ₚ keys ++ filter (fun i => i ∉ keys) (seqZ 0 n)) as Hp.
  { apply NoDup_Permutation; [apply NoDup_seqZ| |].
    - apply NoDup_app. split_and!; [done| |apply NoDup_filter, NoDup_seqZ].
      intros i Hi Hf. by apply list_elem_of_filter in Hf as [? _].
    - intros i. rewrite elem_of_app, list_elem_of_filter, elem_of_seqZ. split.
      + intros Hi. destruct (decide (i ∈ keys)); [by left|by right].
      + intros [Hi|[_ Hi]]; [apply Hin in Hi; lia|done]. }
  assert (forall l k, l ≡ₚ k -> zsum d l = zsum d k) as Hperm.
  { intros l k Hlk. unfold zsum. apply (foldr_permutation_proper eq); [solve_proper|intros; lia|by apply Permutation_map]. }
  change (sumz d n) with (zsum d (seqZ 0 n)). rewrite (Hperm _ _ Hp).
  unfold zsum. rewrite fmap_app, foldr_add_app.
  assert (forall l, (forall i, i ∈ l -> d i = 0) -> foldr Z.add 0 (d <$> l) = 0) as Hz.
  { induction l as [|x l IH]; intros Hl; csimpl; [done|]. rewrite (Hl x) by left. apply IH. intros. apply Hl. by right. }
  rewrite (Hz (filter _ _)); [lia|]. intros i Hi. apply list_elem_of_filter in Hi as [Hi Hi']. apply elem_of_seqZ in Hi'.
  apply Hz0; [lia|done].
Qed.

Lemma sumz_lives adj adj' : vlen adj' = vlen adj ->
  sumz (fun i => lives (vat adj' i) - lives (vat adj i)) (vlen adj) = total_live adj' - total_live adj.
Proof.
  intros Hlen. unfold total_live. rewrite Hlen. set (d := fun i => _ - _).
  pose proof (sumz_plus d (fun i => lives (vat adj i)) (vlen adj)) as Hp.
  rewrite (sumz_ext _ (fun i => lives (vat adj' i))) in Hp by (intros; subst d; simpl; lia). lia.
Qed.

End rows.
