(* ===== verification/CsrOps.v ===== *)
(** * Operations of the mutable CSR

    The effect of each operation of [MutableCsr] on the adjacency lists. *)
From S2P Require Import Prelude Storage Aggregate Bitset MutableCsr CsrRows.
#[local] Open Scope Z_scope.

Section ops.
Context {D : Type} `{NbrMemory D}.
Implicit Types s : MutableCsr D.

(** ** Growing a buffer *)

Lemma fmap_seqZ_vlen {A} (f : Z -> A) n : 0 <= n -> vlen (f <$> seqZ 0 n) = n.
Proof. intros. unfold vlen. rewrite length_fmap, length_seqZ. lia. Qed.

(** Copying the row of [i] into a fresh block. *)
Lemma memcpy_row s i l cap b : csr_ok s -> 0 <= i < vertex_capacity s -> row_is s i l -> vlen l <= cap ->
  b = next_block s ->
  let s1 := snd (allocate s cap) in
  wp (memcpy_nbrs s1 (Some (b, 0)) (buf_at s i) (vlen l)) (fun s' => exists k,
    s' = set_blocks (<[b := k]> (blocks s)) s1 /\ vlen k = cap /\ forall j, 0 <= j < vlen l -> vat k j = vat l j).
Proof.
  intros Hok Hi Hl Hcap -> s1. unfold memcpy_nbrs. pose proof (vlen_nonneg l).
  apply (wp_for_range (fun r s' => exists k, s' = set_blocks (<[next_block s := k]> (blocks s)) s1 /\ vlen k = cap /\
    forall j, 0 <= j < r -> vat k j = vat l j)); [done| | |done].
  - exists (uninit <$> seqZ 0 cap). split_and!; [done|by apply fmap_seqZ_vlen; lia|lia].
  - intros r s' Hr (k & -> & Hk & Hkl). apply wp_bind.
    assert (load (set_blocks (<[next_block s := k]> (blocks s)) s1) (buf_at s i) r = Some (vat l r)) as ->.
    { destruct Hl as [_ Hl]. specialize (Hl r Hr). unfold cell, load in *.
      destruct (buf_at s i) as [[b o]|] eqn:Eb; [|done]. cbn [mbind option_bind] in *.
      destruct (co_block _ Hok i b o Hi Eb). simpl. by rewrite lookup_insert_ne by lia. }
    apply wp_ret. unfold store. cbn [mbind option_bind]. simpl blocks. rewrite lookup_insert_eq. cbn [mbind option_bind].
    rewrite Z.add_0_l. wsteps. exists (vput k r (vat l r)). split_and!.
    + unfold set_blocks. simpl. by rewrite insert_insert_eq.
    + by rewrite vlen_vput.
    + intros j Hj. rewrite vat_vput by lia. case_decide; [by subst|]. apply Hkl. lia.
Qed.

Lemma grow_step s i l : csr_ok s -> 0 <= i < vertex_capacity s -> row_is s i l -> vlen l + vlen l / 2 <= INT_MAX ->
  wp (grow s i (vlen l) (vlen l)) (fun s' => row_step s s' i l 0 /\ vlen l < cap_at s' i).
Proof.
  intros Hok Hi Hl Hmax. pose proof (vlen_nonneg l). unfold grow. rewrite Z.shiftr_div_pow2 by lia. change (2 ^ 1) with 2.
  assert (0 <= vlen l / 2) by (apply Z.div_pos; lia).
  pose proof Hok as [Kbufs Kcaps Kvnum Ksize Kcell Kblock Kdisj Knext Kcount]. rewrite <-Kbufs in Hi at 1. wsteps.
  rewrite Kbufs in Hi. set (cap := Z.max (vlen l + vlen l / 2) 8).
  assert (vlen l < cap) by (subst cap; pose proof (Z.div_mod (vlen l) 2); pose proof (Z.mod_pos_bound (vlen l) 2); lia).
  set (b := next_block s). fold (buf_at s i). unfold allocate. cbv beta iota.
  set (s1 := CSR _ _ _ _ _ (<[_ := _]> _) _). apply wp_bind.
  eapply (wp_mono _ (fun s' => exists k, s' = set_blocks (<[b := k]> (blocks s)) s1 /\ vlen k = cap /\
    forall j, 0 <= j < vlen l -> vat k j = vat l j)).
  { destruct (Z.ltb_spec 0 (vlen l)).
    - by apply (memcpy_row s i l cap b Hok Hi Hl); [lia|].
    - apply wp_ret. exists (uninit <$> seqZ 0 cap). split_and!; [done|apply fmap_seqZ_vlen; lia|lia]. }
  intros s' (k & -> & Hk & Hkl). wstep. wstep; [simpl; lia..|]. wstep. wstep; [simpl; lia..|]. wstep.
  unfold set_adj. simpl.
  set (s2 := CSR _ _ _ _ _ _ _).
  assert (vertex_capacity s2 = vertex_capacity s) as Hv by done.
  assert (forall q, 0 <= q < vertex_capacity s -> buf_at s2 q = if decide (q = i) then Some (b, 0) else buf_at s q) as Hb.
  { intros q Hq. unfold buf_at at 1. simpl. rewrite vat_vput by lia. repeat case_decide; done || congruence. }
  assert (forall q, 0 <= q < vertex_capacity s -> cap_at s2 q = if decide (q = i) then cap else cap_at s q) as Hc.
  { intros q Hq. unfold cap_at at 1. simpl. rewrite vat_vput by lia. repeat case_decide; done || congruence. }
  assert (forall j, 0 <= j < cap -> cell s2 i j = Some (vat k j)) as Hnew.
  { intros j Hj. unfold cell. rewrite Hb by done. rewrite decide_True by done. unfold load. simpl.
    rewrite lookup_insert_eq. simpl. by rewrite vget_Some by lia. }
  assert (forall q j, 0 <= q < vertex_capacity s -> q <> i -> cell s2 q j = cell s q j) as Hold.
  { intros q j Hq Hne. unfold cell. rewrite Hb by done. rewrite decide_False by done. unfold load.
    destruct (buf_at s q) as [[b' o']|] eqn:Eb; [|done]. destruct (Kblock q b' o' Hq Eb). simpl.
    by rewrite lookup_insert_ne by lia. }
  split; [|rewrite Hc, decide_True by done; lia]. split; try done.
  - split; rewrite ?Hv; try done.
    + simpl. by rewrite vlen_vput.
    + simpl. by rewrite vlen_vput.
    + intros q Hq. change (size_at s2 q) with (size_at s q). rewrite Hc by done.
      case_decide; [subst q; rewrite (row_size _ _ _ Hl); subst cap; unfold INT_MAX in *; lia|by apply Ksize].
    + intros q j Hq. rewrite Hc by done. case_decide; [subst q; intros; by rewrite Hnew|].
      rewrite Hold by done. by apply Kcell.
    + intros q b' o' Hq. rewrite Hb by done. simpl next_block. case_decide.
      * intros [= <- <-]. subst b. lia.
      * intros Eb. destruct (Kblock q b' o' Hq Eb). lia.
    + intros q r b' o o' j j' Hq Hr Hne. rewrite !Hb, !Hc by done. repeat case_decide; subst; try done.
      * intros [= <- <-] Eb. destruct (Kblock r b o' Hr Eb). subst b. lia.
      * intros Eb [= <- <-]. destruct (Kblock q b o Hq Eb). subst b. lia.
      * by apply Kdisj.
    + simpl. lia.
  - split; [destruct Hl as [Hl _]; exact Hl|]. intros j Hj. rewrite Hnew by lia. f_equal. by apply Hkl.
  - intros q m Hq Hne [Hm1 Hm2]. split; [exact Hm1|]. intros j Hj. rewrite Hold by done. by apply Hm2.
  - intros q Hq Hne. by rewrite Hc, decide_False.
  - intros q Hq Hne. by rewrite Hb, decide_False.
  - by rewrite Z.add_0_r.
Qed.

(** ** Single edges *)

(** Writing entry [vlen l] and counting it, when there is room. *)
Lemma append_step s i l x : csr_ok s -> 0 <= i < vertex_capacity s -> row_is s i l -> vlen l < cap_at s i ->
  wp (store (set_sizes (vput (adj_list_size_ s) i (to_int (vlen l + 1))) s) (buf_at s i) (vlen l) x)
     (fun s' => row_step s s' i (l ++ [x]) 0 /\ cap_at s' i = cap_at s i /\ buf_at s' i = buf_at s i).
Proof.
  intros Hok Hi Hl Hlt. pose proof (vlen_nonneg l). pose proof (co_size _ Hok i Hi).
  rewrite to_int_small by (unfold INT_MIN, INT_MAX in *; lia).
  destruct (co_cell _ Hok i (vlen l) Hi ltac:(lia)) as [y Hy].
  assert (row_step s (set_sizes (vput (adj_list_size_ s) i (vlen l + 1)) s) i (l ++ [y]) 0) as Hset.
  { apply set_size_step; [done|done|lia|by rewrite vlen_app|]. intros j Hj. rewrite vat_app by lia. destruct Hl as [_ Hl].
    case_decide; [apply Hl; lia|]. replace j with (vlen l) by lia. by rewrite Hy, Z.sub_diag. }
  set (s1 := set_sizes _ s) in *. change (buf_at s i) with (buf_at s1 i).
  eapply wp_mono; [apply (row_store s1 i (l ++ [y]) (vlen l) x)|].
  - apply Hset.
  - rewrite (rs_vnum _ _ _ _ _ Hset). done.
  - apply Hset.
  - rewrite vlen_app. unfold vlen. simpl. lia.
  - intros s' [Hss H2]. split_and!.
    + rewrite vput_middle in H2. exact (row_step_trans _ _ _ _ _ _ _ _ Hset H2).
    + unfold cap_at. by rewrite (ss_caps _ _ Hss).
    + unfold buf_at. by rewrite (ss_bufs _ _ Hss).
Qed.

Lemma put_edge_step s i l dst d ts : csr_ok s -> 0 <= i < vertex_capacity s -> row_is s i l ->
  vlen l + vlen l / 2 < INT_MAX ->
  wp (put_edge s i dst d ts) (fun r => fst r = Returned (vlen l) /\ row_step s (snd r) i (l ++ [Nbr dst ts d]) 1).
Proof.
  intros Hok Hi Hl Hmax. unfold put_edge. rewrite (proj2 (Z.leb_gt _ _)) by lia.
  pose proof Hok as [Kbufs Kcaps Kvnum Ksize Kcell Kblock Kdisj Knext Kcount]. assert (0 <= vlen l / 2) by (apply Z.div_pos; [apply vlen_nonneg|lia]).
  wstep. wstep; [unfold vertex_capacity in *; lia..|]. fold (size_at s i). rewrite (row_size _ _ _ Hl).
  wstep. wstep; [lia..|]. fold (cap_at s i). apply wp_bind.
  apply (wp_mono _ (fun s' => row_step s s' i l 0 /\ vlen l < cap_at s' i)).
  { destruct (Z.eqb_spec (vlen l) (cap_at s i)) as [E|E]; [rewrite <-E; apply grow_step; try done; lia|].
    apply wp_ret. split; [by apply row_step_refl|]. pose proof (Ksize i Hi). rewrite (row_size _ _ _ Hl) in *. lia. }
  intros s1 [H1 Hc1]. pose proof H1 as [Rok Rvnum Rrow Roth Rcaps Rbuf Runs Rcnt]. rewrite <-Rvnum in Hi. unfold vertex_capacity in Hi.
  wstep. wstep; [lia..|]. fold (size_at s1 i). rewrite (row_size _ _ _ Rrow). wstep. wstep; [lia..|]. wstep.
  wstep; [rewrite (co_bufs _ Rok); unfold vertex_capacity; lia..|]. fold (buf_at s1 i). apply wp_bind.
  eapply wp_mono; [by apply append_step|]. intros s2 [H2 _]. apply wp_ret. split; [done|]. simpl.
  eapply (row_step_trans _ _ _ _ _ _ 0 1); [by eapply (row_step_trans _ _ _ _ _ _ 0 0)|].
  apply add_edge_num_step; apply H2.
Qed.

Lemma put_edge_range s src dst d ts : vertex_capacity s <= src -> put_edge s src dst d ts = Some (Thrown, s).
Proof. intros. unfold put_edge. by rewrite (proj2 (Z.leb_le _ _)). Qed.

Definition kill (x : nbr D) : nbr D := with_timestamp INVALID_TIMESTAMP x.

(** The common start of [delete_edge] and [revert_delete_edge]. *)
Lemma delete_edge_step s i l j ts : csr_ok s -> 0 <= i < vertex_capacity s -> row_is s i l -> 0 <= j < vlen l ->
  wp (delete_edge s i j ts) (fun r => fst r = Returned tt /\
    if timestamp (vat l j) <=? ts then row_step s (snd r) i (vput l j (kill (vat l j))) (-1) else snd r = s).
Proof.
  intros Hok Hi Hl Hj. unfold delete_edge. rewrite vnum_eq, (proj2 (Z.leb_gt _ _)) by (done || lia).
  wstep. wstep; [unfold vertex_capacity in *; lia..|]. fold (size_at s i). rewrite (row_size _ _ _ Hl).
  rewrite (proj2 (Z.leb_gt _ _)) by lia. wstep. wstep; [rewrite (co_bufs _ Hok); lia..|]. fold (buf_at s i).
  destruct (row_buf _ _ _ Hok Hl ltac:(lia)) as [p Hp]. rewrite Hp. rewrite <-Hp. apply wp_bind.
  apply (row_load _ _ _ _ _ Hl Hj). destruct (timestamp (vat l j) <=? ts); [|done].
  apply wp_bind. eapply wp_mono; [by apply row_store|]. intros s' [_ H1]. apply wp_ret. split; [done|].
  eapply (row_step_trans _ _ _ _ _ _ 0 (-1)); [done|]. apply add_edge_num_step; apply H1.
Qed.

Lemma revert_delete_edge_step s i l v j ts : csr_ok s -> 0 <= i < vertex_capacity s -> row_is s i l -> 0 <= j < vlen l ->
  wp (revert_delete_edge s i v j ts) (fun r =>
    if (neighbor (vat l j) =? v) && negb (live (vat l j)) then
      fst r = Returned tt /\ row_step s (snd r) i (vput l j (with_timestamp ts (vat l j))) 1
    else r = (Thrown, s)).
Proof.
  intros Hok Hi Hl Hj. unfold revert_delete_edge, live. rewrite vnum_eq, (proj2 (Z.leb_gt _ _)) by (done || lia).
  wstep. wstep; [unfold vertex_capacity in *; lia..|]. fold (size_at s i). rewrite (row_size _ _ _ Hl).
  rewrite (proj2 (Z.leb_gt _ _)) by lia. wstep. wstep; [rewrite (co_bufs _ Hok); lia..|]. fold (buf_at s i).
  destruct (row_buf _ _ _ Hok Hl ltac:(lia)) as [p Hp]. rewrite Hp. rewrite <-Hp. apply wp_bind.
  apply (row_load _ _ _ _ _ Hl Hj). destruct (neighbor (vat l j) =? v); [|done]. simpl.
  destruct (timestamp (vat l j) =? INVALID_TIMESTAMP); [|done].
  apply wp_bind. eapply wp_mono; [by apply row_store|]. intros s' [_ H1]. apply wp_ret. split; [done|].
  eapply (row_step_trans _ _ _ _ _ _ 0 1); [done|]. apply add_edge_num_step; apply H1.
Qed.

(** An offset past the list is an error in both. *)
Lemma edge_range s i l v j ts : csr_ok s -> 0 <= i < vertex_capacity s -> row_is s i l -> vlen l <= j ->
  delete_edge s i j ts = Some (Thrown, s) /\ revert_delete_edge s i v j ts = Some (Thrown, s).
Proof.
  intros Hok Hi Hl Hj. unfold delete_edge, revert_delete_edge. rewrite vnum_eq, (proj2 (Z.leb_gt _ _)) by (done || lia).
  rewrite (vget_Some (adj_list_size_ s)) by exact Hi. cbn [mbind option_bind]. fold (size_at s i).
  by rewrite (row_size _ _ _ Hl), (proj2 (Z.leb_le _ _)) by lia.
Qed.

Lemma vertex_range s i v j ts : csr_ok s -> vertex_capacity s <= i ->
  delete_edge s i j ts = Some (Thrown, s) /\ revert_delete_edge s i v j ts = Some (Thrown, s).
Proof.
  intros Hok Hi. unfold delete_edge, revert_delete_edge. by rewrite vnum_eq, (proj2 (Z.leb_le _ _)) by done.
Qed.

End ops.
