(* ===== verification/CsrLists.v ===== *)
(** * Whole-list operations of the mutable CSR *)
From S2P Require Import Prelude Storage Aggregate Bitset MutableCsr CsrRows CsrOps.
#[local] Open Scope Z_scope.

Section lists.
Context {D : Type} `{NbrMemory D}.
Implicit Types s : MutableCsr D.

Definition gsum (g : nbr D -> Z) (l : list (nbr D)) : Z := foldr (fun x a => g x + a) 0 l.

Lemma gsum_app g l k : gsum g (l ++ k) = gsum g l + gsum g k.
Proof. unfold gsum. induction l; simpl; lia. Qed.

Lemma gsum_zero l : gsum (fun _ => 0) l = 0.
Proof. unfold gsum. induction l; simpl; lia. Qed.

Definition keeps (keep : nbr D -> bool) (l : list (nbr D)) : list (nbr D) := filter (fun x => keep x = true) l.
Definition drops (keep : nbr D -> bool) (l : list (nbr D)) : list (nbr D) := filter (fun x => keep x = false) l.

Lemma keeps_snoc keep l x : keeps keep (l ++ [x]) = if keep x then keeps keep l ++ [x] else keeps keep l.
Proof.
  unfold keeps. rewrite filter_app, filter_cons, filter_nil. destruct (keep x); [done|].
  rewrite decide_False by done. by rewrite app_nil_r.
Qed.

Lemma drops_snoc keep l x : drops keep (l ++ [x]) = if keep x then drops keep l else drops keep l ++ [x].
Proof.
  unfold drops. rewrite filter_app, filter_cons, filter_nil. destruct (keep x); [|done].
  rewrite decide_False by done. by rewrite app_nil_r.
Qed.

Lemma keeps_le keep l : 0 <= vlen (keeps keep l) <= vlen l.
Proof. unfold vlen, keeps. pose proof (length_filter (fun x => keep x = true) l). lia. Qed.

(** ** The two-pointer loop *)

Lemma filter_row_step s i l keep dropped g : csr_ok s -> 0 <= i < vertex_capacity s -> row_is s i l ->
  (forall x s', dropped x s' = add_edge_num (g x) s' \/ dropped x s' = s' /\ g x = 0) ->
  wp (filter_row s i keep dropped) (fun s' => row_step s s' i (keeps keep l) (gsum g (drops keep l))).
Proof.
  intros Hok Hi Hl Hdrop. unfold filter_row. pose proof (vlen_nonneg l). pose proof (co_bufs _ Hok) as Hbl.
  wstep. wstep; [exact Hi..|]. fold (size_at s i). rewrite (row_size _ _ _ Hl).
  wstep. wstep; [lia..|]. fold (buf_at s i). apply wp_bind.
  pose (F := fun r => keeps keep (take (Z.to_nat r) l)). pose (G := fun r => drops keep (take (Z.to_nat r) l)).
  assert (forall r, 0 <= r < vlen l -> F (r + 1) = if keep (vat l r) then F r ++ [vat l r] else F r) as HF.
  { intros r Hr. unfold F. by rewrite take_succ_vat, keeps_snoc by done. }
  assert (forall r, 0 <= r < vlen l -> G (r + 1) = if keep (vat l r) then G r else G r ++ [vat l r]) as HG.
  { intros r Hr. unfold G. by rewrite take_succ_vat, drops_snoc by done. }
  apply (wp_for_range (fun r a => let '(s', write, removed) := a in exists m,
    row_step s s' i m (gsum g (G r)) /\ buf_at s' i = buf_at s i /\ cap_at s' i = cap_at s i /\ vlen m = vlen l /\
    write = vlen (F r) /\ removed = r - write /\ 0 <= write <= r /\
    (forall j, 0 <= j < write -> vat m j = vat (F r) j) /\ (forall j, r <= j < vlen l -> vat m j = vat l j))); [done| | |].
  - exists l. unfold F, G. simpl. split_and!; try done; try lia. by apply row_step_refl.
  - intros r [[s' w] rm] Hr (m & Hs & Hb & Hc & Hm & -> & -> & Hw & Hkept & Hrest).
    assert (0 <= i < vertex_capacity s') as Hi' by (rewrite (rs_vnum _ _ _ _ _ Hs); done).
    rewrite <-Hb. apply wp_bind. apply (row_load _ _ _ _ _ (rs_row _ _ _ _ _ Hs)); [lia|]. rewrite Hrest by lia.
    rewrite HF, HG by done. destruct (keep (vat l r)) eqn:Ek.
    + apply wp_bind. apply (wp_mono _ (fun s'' => exists m', row_step s' s'' i m' 0 /\ buf_at s'' i = buf_at s' i /\
        cap_at s'' i = cap_at s' i /\ m' = vput m (vlen (F r)) (vat l r))).
      { destruct (Z.eqb_spec (r - vlen (F r)) 0) as [E|E]; simpl.
        - apply wp_ret. exists m. split_and!; [apply row_step_refl; apply Hs|done|done|].
          apply vat_ext; [by rewrite vlen_vput|]. intros j Hj. rewrite vat_vput by lia. case_decide; [|done].
          subst j. rewrite Hrest by lia. f_equal. lia.
        - eapply wp_mono; [apply row_store; [apply Hs|done|apply Hs|lia]|]. intros s'' [Hss H2].
          exists (vput m (vlen (F r)) (vat l r)). split_and!; [done| | |done].
          + unfold buf_at. by rewrite (ss_bufs _ _ Hss).
          + unfold cap_at. by rewrite (ss_caps _ _ Hss). }
      intros s'' (m' & H2 & Hb2 & Hc2 & ->). apply wp_ret. exists (vput m (vlen (F r)) (vat l r)).
      split_and!; [|congruence|congruence|by rewrite vlen_vput|by rewrite vlen_app|lia|lia|lia| |].
      * pose proof (row_step_trans _ _ _ _ _ _ _ _ Hs H2) as H3. by rewrite Z.add_0_r in H3.
      * intros j Hj. rewrite vat_vput, vat_app by lia. repeat case_decide; try lia.
        -- subst j. by rewrite Z.sub_diag.
        -- apply Hkept. lia.
      * intros j Hj. rewrite vat_vput by lia. rewrite decide_False by lia. apply Hrest. lia.
    + apply wp_ret. exists m. assert (row_step s' (dropped (vat l r) s') i m (g (vat l r))) as H2.
      { destruct (Hdrop (vat l r) s') as [-> | [-> ->]]; [apply add_edge_num_step; apply Hs|apply row_step_refl; apply Hs]. }
      assert (buf_at (dropped (vat l r) s') i = buf_at s' i /\ cap_at (dropped (vat l r) s') i = cap_at s' i) as [Hb2 Hc2]
        by (by destruct (Hdrop (vat l r) s') as [-> | [-> _]]).
      split_and!; [|congruence|congruence|done|done|lia|lia|lia|done|intros j Hj; apply Hrest; lia].
      rewrite gsum_app. simpl. rewrite Z.add_0_r. exact (row_step_trans _ _ _ _ _ _ _ _ Hs H2).
  - intros [[s' w] rm] (m & Hs & Hb & Hc & Hm & -> & -> & Hw & Hkept & _).
    assert (F (vlen l) = keeps keep l) as HFl by (unfold F, vlen; by rewrite Nat2Z.id, firstn_all).
    assert (G (vlen l) = drops keep l) as HGl by (unfold G, vlen; by rewrite Nat2Z.id, firstn_all).
    rewrite HFl, HGl in *. pose proof (rs_vnum _ _ _ _ _ Hs) as Hv. rewrite <-Hv in Hi. unfold vertex_capacity in Hi.
    wstep. wstep; [lia..|]. wstep. replace (vlen l - (vlen l - vlen (keeps keep l))) with (vlen (keeps keep l)) by lia.
    pose proof (keeps_le keep l). pose proof (rs_ok _ _ _ _ _ Hs) as Hok'. pose proof (co_size _ Hok' i Hi) as Hsz.
    rewrite (row_size _ _ _ (rs_row _ _ _ _ _ Hs)), Hm in Hsz.
    rewrite to_int_small by (unfold INT_MIN, INT_MAX in *; lia). rewrite <-(Z.add_0_r (gsum _ _)).
    eapply row_step_trans; [done|]. apply set_size_step; [done|done|lia|done|].
    intros j Hj. destruct (rs_row _ _ _ _ _ Hs) as [_ Hcell]. rewrite Hcell by lia. f_equal. by apply Hkept.
Qed.

(** A null buffer has no entries. *)
Lemma row_null s i l : csr_ok s -> row_is s i l -> buf_at s i = None -> l = [].
Proof.
  intros Hok Hl Hn. destruct l as [|x l]; [done|]. destruct (row_buf _ _ _ Hok Hl) as [p Hp]; [unfold vlen; simpl; lia|].
  congruence.
Qed.

Lemma rows_bufs s adj : csr_rows s adj -> vlen adj = vertex_capacity s /\ vlen (adj_list_buffer_ s) = vlen adj.
Proof. intros (Hok & Hlen & _). split; [done|]. rewrite (co_bufs _ Hok). done. Qed.

Lemma compact_rows s adj : csr_rows s adj ->
  wp (compact s) (fun r => csr_rows (snd r) (map (keeps live) adj) /\ edge_num_ (snd r) = edge_num_ s /\
    unsorted_since_ (snd r) = unsorted_since_ s /\
    fst r = if to_u64 (sumz (fun i => lives (vat adj i)) (vlen adj)) =? edge_num_ s then Returned tt else Thrown).
Proof.
  intros Hrows. unfold compact. pose proof Hrows as (Hok & Hlen & _). rewrite <-Hlen. apply wp_bind.
  apply (wp_rows fst (fun dn a => snd a = to_u64 (zsum (fun i => lives (vat adj i)) dn)) (fun _ => 0) _ _ adj (map (keeps live) adj));
    [done|apply changes_all; [done|apply vlen_map]|done| |].
  - intros dn i [s' total] _ Hi Hok' Hv Hrow Ht. simpl in *. subst total.
    rewrite vat_map by done.
    assert (forall a, to_u64 (to_u64 a + lives (vat adj i)) = to_u64 (a + lives (vat adj i))) as Hmod
      by (intros a; apply eqm_add; [apply eqm_u64|done]).
    pose proof (co_bufs _ Hok') as Hbl. wstep. wstep; [lia..|]. fold (buf_at s' i).
    destruct (buf_at s' i) as [p|] eqn:Eb.
    + apply wp_bind. eapply wp_mono; [apply (filter_row_step s' i (vat adj i) live _ (fun _ => 0)); [done|lia|done|by right]|].
      intros s'' H2. pose proof (rs_vnum _ _ _ _ _ H2) as Hv2. unfold vertex_capacity at 1 in Hv2. wstep. wstep; [lia..|].
      fold (size_at s'' i). rewrite (row_size _ _ _ (rs_row _ _ _ _ _ H2)). wstep. simpl.
      rewrite zsum_snoc. rewrite gsum_zero in H2. split; [done|apply Hmod].
    + apply wp_ret. simpl. pose proof (row_null _ _ _ Hok' Hrow Eb) as Hnil. rewrite Hnil in *.
      split; [by apply row_step_refl|]. rewrite zsum_snoc, Hnil. by rewrite Z.add_0_r.
  - intros [s' total] Hr Hu He Ht. simpl in Hr, Hu, He, Ht. subst total. wsteps. simpl. change (zsum (fun _ => 0) (seqZ 0 (vlen adj))) with (sumz (fun _ => 0) (vlen adj)) in He. rewrite sumz_const, Z.mul_0_r, Z.add_0_r in He by apply vlen_nonneg.
    destruct Hr as (Hok' & Hr). assert (edge_num_ s' = edge_num_ s) as He'.
    { pose proof (eqm_range _ _ (co_count _ Hok') He) as E. unfold to_u64 in E. rewrite Z.mod_small in E; [done|apply Hok]. }
    split_and!; try done. by rewrite He'.
Qed.

(** ** Loops over the entries of a row *)

(** Entry [j] becomes that of [l']; [buf] has been read before. *)
Lemma wp_entries s i l l' d body (Q : MutableCsr D -> Prop) :
  csr_ok s -> 0 <= i < vertex_capacity s -> row_is s i l -> vlen l' = vlen l ->
  (forall j s' m, 0 <= j < vlen l -> csr_ok s' -> 0 <= i < vertex_capacity s' -> buf_at s' i = buf_at s i ->
     row_is s' i m -> vlen m = vlen l -> vat m j = vat l j ->
     wp (body j s') (fun s'' => buf_at s'' i = buf_at s' i /\ row_step s' s'' i (vput m j (vat l' j)) (d j))) ->
  (forall s', row_step s s' i l' (sumz d (vlen l)) -> Q s') ->
  wp (for_range (vlen l) s body) Q.
Proof.
  intros Hok Hi Hl Hlen Hbody HQ.
  apply (wp_for_range (fun r s' => exists m, row_step s s' i m (sumz d r) /\ buf_at s' i = buf_at s i /\ vlen m = vlen l /\
    (forall j, 0 <= j < r -> vat m j = vat l' j) /\ (forall j, r <= j < vlen l -> vat m j = vat l j))); [apply vlen_nonneg| | |].
  - exists l. split_and!; [by apply row_step_refl|done|done|lia|done].
  - intros r s' Hr (m & Hs & Hb & Hm & Hdone & Hrest). pose proof (rs_vnum _ _ _ _ _ Hs) as Hv.
    eapply wp_mono; [apply (Hbody r s' m); [done|apply Hs|lia|done|apply Hs|done|apply Hrest; lia]|].
    intros s'' [Hb2 H2]. exists (vput m r (vat l' r)). rewrite vlen_vput. split_and!; [|congruence|done| |].
    + rewrite sumz_succ by lia. by eapply row_step_trans.
    + intros j Hj. rewrite vat_vput by lia. case_decide; [by subst|]. apply Hdone. lia.
    + intros j Hj. rewrite vat_vput by lia. rewrite decide_False by lia. apply Hrest. lia.
  - intros s' (m & Hs & Hb & Hm & Hdone & _). apply HQ. replace l' with m; [done|]. apply vat_ext; [lia|].
    intros j Hj. apply Hdone. lia.
Qed.

(** The body that stores [x] and then adds [c] to the counter. *)
Lemma store_count s i m j x c : csr_ok s -> 0 <= i < vertex_capacity s -> row_is s i m -> 0 <= j < vlen m ->
  wp (store s (buf_at s i) j x) (fun s' => buf_at s' i = buf_at s i /\ row_step s s' i (vput m j x) 0 /\
    row_step s (add_edge_num c s') i (vput m j x) c).
Proof.
  intros Hok Hi Hm Hj. eapply wp_mono; [by apply row_store|]. intros s' [Hss H1]. split_and!; [|done|].
  - unfold buf_at. by rewrite (ss_bufs _ _ Hss).
  - apply (row_step_trans _ _ _ _ _ _ 0 c H1). apply add_edge_num_step; apply H1.
Qed.

Lemma skip_entry s i m j x : csr_ok s -> row_is s i m -> x = vat m j -> row_step s s i (vput m j x) 0.
Proof. intros Hok Hm ->. rewrite vput_vat. by apply row_step_refl. Qed.

Definition reset_nbr (x : nbr D) : nbr D := if live x then with_timestamp 0 x else x.

Lemma reset_timestamp_rows s adj : csr_rows s adj ->
  wp (reset_timestamp s) (fun s' => csr_rows s' (map (map reset_nbr) adj) /\ eqm (edge_num_ s') (edge_num_ s)).
Proof.
  intros Hrows. unfold reset_timestamp. pose proof Hrows as (Hok & Hlen & _). rewrite <-Hlen.
  apply (wp_rows id (fun _ _ => True) (fun _ => 0) _ _ adj (map (map reset_nbr) adj));
    [done|apply changes_all; [done|apply vlen_map]|done| |].
  - intros dn i s' _ Hi Hok' Hv Hrow _. unfold id in *. rewrite vat_map by done. pose proof (co_bufs _ Hok') as Hbl.
    wstep. wstep; [lia..|]. fold (buf_at s' i). destruct (buf_at s' i) as [p|] eqn:Eb.
    + wstep. wstep; [unfold vertex_capacity in Hv; lia..|]. fold (size_at s' i). rewrite (row_size _ _ _ Hrow).
      apply (wp_entries s' i (vat adj i) (map reset_nbr (vat adj i)) (fun _ => 0)); [done|lia|done|apply vlen_map| |].
      * intros j s2 m Hj Hok2 Hi2 Hb2 Hm Hml Hmj. rewrite <-Eb, <-Hb2. apply wp_bind, (row_load _ _ _ _ _ Hm); [lia|].
        rewrite vat_map, <-Hmj by done. unfold reset_nbr. destruct (live (vat m j)).
        -- eapply wp_mono; [apply (store_count s2 i m j _ 0); [done..|lia]|]. by intros s3 (Hb3 & H3 & _).
        -- apply wp_ret. split; [done|by apply skip_entry].
      * intros s2 H2. rewrite sumz_const, Z.mul_0_r in H2 by apply vlen_nonneg. done.
    + apply wp_ret. pose proof (row_null _ _ _ Hok' Hrow Eb) as Hnil. rewrite Hnil in *. split; [by apply row_step_refl|done].
  - intros s' Hr _ He _. unfold id in *. split; [done|].
    change (zsum (fun _ => 0) (seqZ 0 (vlen adj))) with (sumz (fun _ => 0) (vlen adj)) in He.
    by rewrite sumz_const, Z.mul_0_r, Z.add_0_r in He by apply vlen_nonneg.
Qed.

Lemma resize_rows s adj n : csr_rows s adj -> 0 <= n < 2 ^ 32 ->
  csr_rows (resize s n) (if vlen adj <? n then adj ++ vnew (n - vlen adj) [] else take (Z.to_nat n) adj) /\
  edge_num_ (resize s n) = edge_num_ s.
Proof.
  intros Hrows Hn. pose proof Hrows as (Hok & Hlen & Hr). unfold resize. rewrite <-Hlen. pose proof (co_bufs _ Hok) as Hb.
  pose proof (co_caps _ Hok) as Hc. pose proof (co_size _ Hok) as Hs. pose proof (co_cell _ Hok) as Hcl.
  pose proof (co_block _ Hok) as Hbk. pose proof (co_disjoint _ Hok) as Hd. unfold vertex_capacity in *.
  destruct (Z.ltb_spec (vlen adj) n); (split; [|done]).
  - set (s' := set_adj _ _ _ _).
    assert (forall i, 0 <= i < n -> buf_at s' i = if decide (i < vlen adj) then buf_at s i else None) as Hb'.
    { intros i Hi. unfold buf_at. simpl. rewrite vat_app by lia. rewrite Hb, Hlen. case_decide; [done|].
      by rewrite vat_vnew by lia. }
    assert (forall i, 0 <= i < n -> size_at s' i = if decide (i < vlen adj) then size_at s i else 0) as Hs'.
    { intros i Hi. unfold size_at. simpl. rewrite vat_app by lia. rewrite Hlen. case_decide; [done|].
      by rewrite vat_vnew by lia. }
    assert (forall i, 0 <= i < n -> cap_at s' i = if decide (i < vlen adj) then cap_at s i else 0) as Hc'.
    { intros i Hi. unfold cap_at. simpl. rewrite vat_app by lia. rewrite Hc, Hlen. case_decide; [done|].
      by rewrite vat_vnew by lia. }
    assert (forall i j, 0 <= i < vlen adj -> cell s' i j = cell s i j) as Hcell
      by (intros i j Hi; unfold cell; rewrite Hb' by lia; by rewrite decide_True by lia).
    assert (vlen (adj_list_size_ s') = n) as Hn' by (simpl; rewrite vlen_app, vlen_vnew; lia).
    split_and!.
    + split; unfold vertex_capacity; rewrite ?Hn'; try (simpl; rewrite ?vlen_app, ?vlen_vnew; lia).
      * intros i Hi. rewrite Hs', Hc' by lia. case_decide; [apply Hs; lia|unfold INT_MAX; lia].
      * intros i j Hi. rewrite Hc' by lia. case_decide; [|lia]. rewrite Hcell by lia. apply Hcl. lia.
      * intros i b o Hi. rewrite Hb' by lia. case_decide; [apply Hbk; lia|done].
      * intros i k b o o' j j' Hi Hk Hne. rewrite !Hb', !Hc' by lia. repeat case_decide; try done. apply Hd; lia.
      * apply Hok.
      * apply Hok.
    + unfold vertex_capacity. rewrite Hn', vlen_app, vlen_vnew; lia.
    + rewrite vlen_app, vlen_vnew by lia. intros i Hi. rewrite vat_app by lia. unfold row_is. rewrite Hs' by lia. case_decide.
      * destruct (Hr i ltac:(lia)) as [Hrl Hrc]. split; [done|]. intros j Hj. rewrite Hcell by lia. by apply Hrc.
      * rewrite vat_vnew by lia. split; [done|]. unfold vlen. simpl. lia.
  - set (s' := set_adj _ _ _ _).
    assert (forall i, 0 <= i < n -> buf_at s' i = buf_at s i) as Hb' by (intros; unfold buf_at; simpl; by apply vat_take).
    assert (forall i, 0 <= i < n -> size_at s' i = size_at s i) as Hs' by (intros; unfold size_at; simpl; by apply vat_take).
    assert (forall i, 0 <= i < n -> cap_at s' i = cap_at s i) as Hc' by (intros; unfold cap_at; simpl; by apply vat_take).
    assert (forall i j, 0 <= i < n -> cell s' i j = cell s i j) as Hcell by (intros; unfold cell; by rewrite Hb').
    assert (vlen (adj_list_size_ s') = n) as Hn' by (simpl; rewrite vlen_take; lia).
    split_and!.
    + split; unfold vertex_capacity; rewrite ?Hn'; try (simpl; rewrite ?vlen_take; lia).
      * intros i Hi. rewrite Hs', Hc' by lia. apply Hs. lia.
      * intros i j Hi. rewrite Hc', Hcell by lia. apply Hcl. lia.
      * intros i b o Hi. rewrite Hb' by lia. apply Hbk. lia.
      * intros i k b o o' j j' Hi Hk Hne. rewrite !Hb', !Hc' by lia. apply Hd; lia.
      * apply Hok.
      * apply Hok.
    + unfold vertex_capacity. rewrite Hn', vlen_take; lia.
    + rewrite vlen_take by lia. intros i Hi. rewrite vat_take by lia. unfold row_is. rewrite Hs' by lia.
      destruct (Hr i ltac:(lia)) as [Hrl Hrc]. split; [done|]. intros j Hj. rewrite Hcell by lia. by apply Hrc.
Qed.

End lists.
