(* ===== verification/CsrDelete.v ===== *)
(** * Batch deletions, sorting and export of the mutable CSR *)
From stdpp Require Import sorting.
From S2P Require Import Prelude Storage Aggregate Bitset MutableCsr CsrRows CsrOps CsrLists.
#[local] Open Scope Z_scope.

Section deletes.
Context {D : Type} `{NbrMemory D}.
Implicit Types s : MutableCsr D.

Lemma lives_keeps l : lives l = vlen (keeps (D:=D) live l).
Proof. done. Qed.

Lemma lives_nil : lives (D:=D) [] = 0.
Proof. done. Qed.

Lemma lives_cons x (l : list (nbr D)) : lives (x :: l) = ind (live x) + lives l.
Proof. unfold lives. rewrite filter_cons. destruct (live x); simpl; unfold vlen; simpl; lia. Qed.

Lemma lives_app (l k : list (nbr D)) : lives (l ++ k) = lives l + lives k.
Proof. unfold lives. by rewrite filter_app, vlen_app. Qed.

Lemma lives_vput (l : list (nbr D)) j x : 0 <= j < vlen l -> lives (vput l j x) = lives l + ind (live x) - ind (live (vat l j)).
Proof.
  intros Hj. assert (l = take (Z.to_nat j) l ++ vat l j :: drop (S (Z.to_nat j)) l) as Hl.
  { symmetry. apply take_drop_middle, list_lookup_lookup_total_lt. unfold vlen in Hj. lia. }
  assert (vput l j x = take (Z.to_nat j) l ++ x :: drop (S (Z.to_nat j)) l) as ->.
  { unfold vput, vlen in *. rewrite insert_take_drop; [done|lia]. }
  rewrite Hl at 3. rewrite !lives_app, !lives_cons. lia.
Qed.

Lemma live_kill (x : nbr D) : live (kill x) = false.
Proof. unfold live, kill. cbn [timestamp with_timestamp]. by rewrite Z.eqb_refl. Qed.

Lemma lives_map (f : nbr D -> nbr D) (l : list (nbr D)) : (forall x, x ∈ l -> live (f x) = live x) -> lives (map f l) = lives l.
Proof.
  induction l as [|x l IH]; intros Hf; [done|]. cbn [map]. rewrite !lives_cons, Hf by left. rewrite IH; [done|].
  intros. apply Hf. by right.
Qed.

(** ** [std::set] and [std::map] iteration *)

Lemma sorted_set_elem (X : gset Z) i : i ∈ std_sort (elements X) <-> i ∈ X.
Proof. unfold std_sort. by rewrite merge_sort_Permutation, elem_of_elements. Qed.
Lemma sorted_set_nodup (X : gset Z) : NoDup (std_sort (elements X)).
Proof. unfold std_sort. rewrite merge_sort_Permutation. apply NoDup_elements. Qed.

(** The pairs a [map<vid_t, set<...>>] was built from. *)
Definition map_has (m : gmap Z (gset Z)) (k v : Z) : Prop := v ∈ default ∅ (m !! k).

Definition map_wf (m : gmap Z (gset Z)) : Prop := forall k, is_Some (m !! k) -> exists v, map_has m k v.

Lemma map_wf_insert m k v : map_wf m -> map_wf (map_insert m k v).
Proof.
  intros Hm k' Hk. unfold map_has, map_insert in *. destruct (decide (k' = k)) as [->|Hne].
  - exists v. rewrite lookup_insert_eq. set_solver.
  - rewrite lookup_insert_ne in * by done. by apply Hm.
Qed.

Lemma map_has_insert m k v k' v' : map_has (map_insert m k v) k' v' <-> (k' = k /\ v' = v) \/ map_has m k' v'.
Proof.
  unfold map_has, map_insert. destruct (decide (k' = k)) as [->|Hne].
  - rewrite lookup_insert_eq. simpl. set_solver.
  - rewrite lookup_insert_ne by done. set_solver.
Qed.

Lemma map_keys_elem (m : gmap Z (gset Z)) k : k ∈ map_keys m <-> is_Some (m !! k).
Proof. unfold map_keys. by rewrite sorted_set_elem, elem_of_dom. Qed.

(** ** Deleting the edges of given endpoints *)

Definition kill_if (P : nbr D -> bool) (x : nbr D) : nbr D := if P x then kill x else x.

Definition count_if (P : nbr D -> bool) (l : list (nbr D)) : Z := vlen (filter (fun x => P x = true) l).

Lemma count_if_sumz P (l : list (nbr D)) : sumz (fun j => - ind (P (vat l j))) (vlen l) = - count_if P l.
Proof.
  rewrite <-(fmap_vat l) at 2. generalize (vlen_nonneg l). generalize (vlen l). intros n Hn.
  apply (sumz_ind (fun n => sumz _ n = - count_if P (vat l <$> seqZ 0 n))); [done|done|].
  intros k Hk IH. rewrite sumz_succ, IH, seqZ_snoc, fmap_app by lia. unfold count_if.
  rewrite filter_app, vlen_app. csimpl. rewrite filter_cons, filter_nil. destruct (P (vat l k)); simpl; unfold vlen; simpl; lia.
Qed.

(** The pairs of [src_list] and [dst_list]. *)
Definition pair_mem (src_list dst_list : list Z) (i v : Z) : bool := bool_decide ((i, v) ∈ zip src_list dst_list).

Definition kill_pairs (src_list dst_list : list Z) (i : Z) (l : list (nbr D)) : list (nbr D) :=
  map (kill_if (fun x => pair_mem src_list dst_list i (neighbor x))) l.

Definition matched (src_list dst_list : list Z) (i : Z) (l : list (nbr D)) : Z :=
  count_if (fun x => pair_mem src_list dst_list i (neighbor x)) l.

(** The rows [f i] for every vertex [i]. *)
Definition map_rows (f : Z -> list (nbr D) -> list (nbr D)) (adj : list (list (nbr D))) : list (list (nbr D)) :=
  (fun i => f i (vat adj i)) <$> seqZ 0 (vlen adj).

Lemma vlen_map_rows f adj : vlen (map_rows f adj) = vlen adj.
Proof. unfold map_rows. apply fmap_seqZ_vlen, vlen_nonneg. Qed.

Lemma vat_map_rows f adj i : 0 <= i < vlen adj -> vat (map_rows f adj) i = f i (vat adj i).
Proof.
  intros Hi. unfold map_rows, vat. rewrite (list_lookup_total_alt (_ <$> _)), list_lookup_fmap, lookup_seqZ_lt by lia. simpl.
  by rewrite Z.add_0_l, Z2Nat.id by lia.
Qed.

Lemma zip_vat_snoc (l k : list Z) i : 0 <= i < vlen l -> i < vlen k ->
  zip (take (Z.to_nat (i + 1)) l) (take (Z.to_nat (i + 1)) k) =
  zip (take (Z.to_nat i) l) (take (Z.to_nat i) k) ++ [(vat l i, vat k i)].
Proof.
  intros Hl Hk. rewrite !take_succ_vat by lia. rewrite zip_with_app; [done|]. rewrite !length_take. unfold vlen in *. lia.
Qed.

Lemma src_dst_map_spec s (src_list dst_list : list Z) : csr_ok s -> vlen src_list <= vlen dst_list ->
  wp (for_range (vlen src_list) (∅ : gmap Z (gset Z)) (fun i m =>
        src ← vget src_list i; if vnum s <=? src then Some m else dst ← vget dst_list i; Some (map_insert m src dst)))
     (fun m => map_wf m /\ forall k v, map_has m k v <-> k < vertex_capacity s /\ (k, v) ∈ zip src_list dst_list).
Proof.
  intros Hok Hlen. apply (wp_for_range (fun r m => map_wf m /\ forall k v, map_has m k v <->
    k < vertex_capacity s /\ (k, v) ∈ zip (take (Z.to_nat r) src_list) (take (Z.to_nat r) dst_list))); [apply vlen_nonneg| | |].
  - split; [intros k; rewrite lookup_empty; by intros [? [=]]|]. intros k v. unfold map_has. rewrite lookup_empty. simpl. split; [set_solver|]. intros [_ Hin]. by apply elem_of_nil in Hin.
  - intros r m Hr [Hwf Hm]. wsteps. rewrite vnum_eq by done. rewrite zip_vat_snoc by lia.
    destruct (Z.leb_spec (vertex_capacity s) (vat src_list r)).
    + apply wp_ret. split; [done|]. intros k v. rewrite Hm, elem_of_app, list_elem_of_singleton. split; [tauto|]. intros [Hk [Hin|[= -> ->]]]; [done|lia].
    + wsteps. split; [by apply map_wf_insert|]. intros k v. rewrite map_has_insert, Hm, elem_of_app, list_elem_of_singleton. split.
      * intros [[-> ->]|[Hk Hin]]; tauto.
      * intros [Hk [Hin|[= -> ->]]]; tauto.
  - intros m [Hwf Hm]. split; [done|]. intros k v. rewrite Hm. unfold vlen. rewrite Nat2Z.id, firstn_all.
    assert (zip src_list (take (length src_list) dst_list) = zip src_list dst_list) as ->; [|done].
    clear -Hlen. unfold vlen in Hlen. revert dst_list Hlen. induction src_list as [|x l IH]; intros [|y k] Hl; simpl in *; try done.
    f_equal. apply IH. lia.
Qed.

(** The counter drops by the number of entries that match, deleted before or
    not. *)
Lemma batch_delete_edges_rows s adj src_list dst_list : csr_rows s adj -> vlen src_list <= vlen dst_list ->
  Forall (fun i => 0 <= i) src_list ->
  wp (batch_delete_edges s src_list dst_list) (fun s' => csr_rows s' (map_rows (kill_pairs src_list dst_list) adj) /\
    unsorted_since_ s' = unsorted_since_ s /\
    eqm (edge_num_ s') (edge_num_ s + sumz (fun i => - matched src_list dst_list i (vat adj i)) (vlen adj))).
Proof.
  intros Hrows Hlen Hpos. pose proof Hrows as (Hok & Hv & Hr). unfold batch_delete_edges. apply wp_bind.
  eapply wp_mono; [by apply src_dst_map_spec|]. intros m [Hwf Hm]. rewrite Forall_forall in Hpos.
  assert (forall i, i ∈ map_keys m <-> exists v, (i, v) ∈ zip src_list dst_list /\ i < vlen adj) as Hkeys.
  { intros i. rewrite map_keys_elem, Hv. split.
    - intros Hi. destruct (Hwf i Hi) as [v Hiv]. apply Hm in Hiv as [? ?]. by exists v.
    - intros (v & Hin & Hlt). assert (map_has m i v) as Hh by (by apply Hm). unfold map_has in Hh.
      destruct (m !! i); [done|]. simpl in Hh. set_solver. }
  assert (forall i, i ∈ map_keys m -> 0 <= i < vlen adj) as Hrange.
  { intros i (v & Hin & Hlt)%Hkeys. apply elem_of_zip_l in Hin. specialize (Hpos i Hin). lia. }
  assert (forall i v, 0 <= i < vlen adj -> i ∉ map_keys m -> pair_mem src_list dst_list i v = false) as Hout.
  { intros i v Hi Hk. apply bool_decide_eq_false_2. intros Hin. apply Hk, Hkeys. exists v. split; [done|lia]. }
  assert (forall i l, 0 <= i < vlen adj -> i ∉ map_keys m -> matched src_list dst_list i l = 0) as Hmatched.
  { intros i l Hi Hk. unfold matched, count_if. induction l as [|x l IH]; [done|].
    rewrite filter_cons, Hout by done. by rewrite decide_False. }
  apply (wp_rows id (fun _ _ => True) (fun i => - matched src_list dst_list i (vat adj i)) _ _ adj
    (map_rows (kill_pairs src_list dst_list) adj)); [done| |done| |].
  - split; [apply vlen_map_rows|apply sorted_set_nodup|done|]. intros i Hi Hk. rewrite vat_map_rows by done.
    unfold kill_pairs. rewrite <-(map_id (vat adj i)) at 2. apply map_ext. intros x. unfold kill_if. by rewrite Hout.
  - intros dn i s' Hik Hi Hok' Hv' Hrow _. unfold id in *. rewrite vat_map_rows by done. pose proof (co_bufs _ Hok') as Hbl.
    destruct (proj1 (map_keys_elem m i) Hik) as [X HX]. rewrite HX. cbn [mbind option_bind].
    assert (forall v, bool_decide (v ∈ X) = pair_mem src_list dst_list i v) as Hmem.
    { intros v. unfold pair_mem. apply bool_decide_ext. specialize (Hm i v). unfold map_has in Hm. rewrite HX in Hm. simpl in Hm.
      rewrite Hm, <-Hv. split; [tauto|]. split; [lia|done]. }
    wstep. wstep; [lia..|]. fold (buf_at s' i). destruct (buf_at s' i) as [p|] eqn:Eb.
    + wstep. wstep; [unfold vertex_capacity in Hv'; lia..|]. fold (size_at s' i). rewrite (row_size _ _ _ Hrow).
      apply (wp_entries s' i (vat adj i) (kill_pairs src_list dst_list i (vat adj i))
        (fun j => - ind (pair_mem src_list dst_list i (neighbor (vat (vat adj i) j))))); [done|lia|done|apply vlen_map| |].
      * intros j s2 m2 Hj Hok2 Hi2 Hb2 Hm2 Hml Hmj. rewrite <-Eb, <-Hb2. apply wp_bind, (row_load _ _ _ _ _ Hm2); [lia|].
        unfold kill_pairs. rewrite vat_map, <-Hmj, Hmem by done. unfold kill_if. destruct (pair_mem _ _ i (neighbor (vat m2 j))).
        -- apply wp_bind. eapply wp_mono; [apply (store_count s2 i m2 j _ (-1)); [done..|lia]|].
           intros s3 (Hb3 & _ & H3). by apply wp_ret.
        -- apply wp_ret. split; [done|by apply skip_entry].
      * intros s2 H2. split; [|done]. unfold matched. by rewrite <-count_if_sumz.
    + apply wp_ret. pose proof (row_null _ _ _ Hok' Hrow Eb) as Hnil. rewrite Hnil in *. split; [by apply row_step_refl|done].
  - intros s' Hr' Hu He _. unfold id in *. split_and!; [done|done|].
    rewrite (zsum_sumz _ _ (vlen adj)) in He; [done|apply sorted_set_nodup|done|]. intros i Hi Hk. by rewrite Hmatched.
Qed.

(** ** Deleting entries by offset *)

Definition kill_offsets (edges : list (Z * Z)) (i : Z) (l : list (nbr D)) : list (nbr D) :=
  (fun j => if bool_decide ((i, j) ∈ edges) then kill (vat l j) else vat l j) <$> seqZ 0 (vlen l).

Lemma vlen_kill_offsets edges i l : vlen (kill_offsets edges i l) = vlen l.
Proof. unfold kill_offsets. apply fmap_seqZ_vlen, vlen_nonneg. Qed.

Lemma vat_kill_offsets edges i l j : 0 <= j < vlen l ->
  vat (kill_offsets edges i l) j = if bool_decide ((i, j) ∈ edges) then kill (vat l j) else vat l j.
Proof.
  intros Hj. unfold kill_offsets, vat at 1. rewrite list_lookup_total_alt, list_lookup_fmap, lookup_seqZ_lt by lia.
  simpl. by rewrite Z.add_0_l, Z2Nat.id by lia.
Qed.

Lemma kill_offsets_id edges i l : (forall j, 0 <= j < vlen l -> (i, j) ∉ edges) -> kill_offsets edges i l = l.
Proof.
  intros Hout. apply vat_ext; [apply vlen_kill_offsets|]. rewrite vlen_kill_offsets. intros j Hj.
  rewrite vat_kill_offsets by done. by rewrite bool_decide_eq_false_2 by (by apply Hout).
Qed.

Lemma drop_live_step s i l x : csr_ok s -> row_is s i l -> buf_at (drop_live x s) i = buf_at s i /\
  row_step s (drop_live x s) i l (- ind (live x)).
Proof.
  intros Hok Hl. unfold drop_live. destruct (live x); simpl; (split; [done|]); [by apply add_edge_num_step|by apply row_step_refl].
Qed.

(** The entries [offs] of the row of [i]. *)
Lemma kill_loop s i l buf edges offs : buf_at s i = buf -> csr_ok s -> 0 <= i < vertex_capacity s -> row_is s i l -> NoDup offs ->
  (forall j, j ∈ offs <-> 0 <= j < vlen l /\ (i, j) ∈ edges) ->
  wp (for_each offs s (fun offset s => x ← load s buf offset; store (drop_live x s) buf offset (kill x)))
     (fun s' => row_step s s' i (kill_offsets edges i l) (lives (kill_offsets edges i l) - lives l)).
Proof.
  intros Hbuf Hok Hi Hl Hnd Hoffs.
  apply (wp_for_each (fun dn s' => exists m, row_step s s' i m (lives m - lives l) /\ buf_at s' i = buf /\ vlen m = vlen l /\
    forall j, 0 <= j < vlen l -> vat m j = if decide (j ∈ dn) then kill (vat l j) else vat l j)).
  - exists l. split_and!; [by rewrite Z.sub_diag; apply row_step_refl|done|done|]. intros j Hj. by rewrite decide_False by apply not_elem_of_nil.
  - intros dn j rest s' -> (m & Hs & Hb & Hm & Hv). rewrite <-Hb. assert (j ∈ dn ++ j :: rest) as Hj by set_solver.
    apply Hoffs in Hj as [Hj _]. assert (j ∉ dn) as Hnj. { apply NoDup_app in Hnd as (_ & Hd & _). intros Hc. apply (Hd j Hc). by left. }
    apply wp_bind, (row_load _ _ _ _ _ (rs_row _ _ _ _ _ Hs)); [lia|]. rewrite (Hv j Hj), decide_False by done.
    destruct (drop_live_step s' i m (vat l j)) as [Hb1 H2]; [apply Hs|apply Hs|]. rewrite <-Hb1.
    pose proof (rs_vnum _ _ _ _ _ Hs) as Hv1. pose proof (rs_vnum _ _ _ _ _ H2) as Hv2.
    eapply wp_mono; [apply (store_count _ i m j _ 0); [apply H2|lia|apply H2|lia]|]. intros s3 (Hb3 & H3 & _).
    exists (vput m j (kill (vat l j))). rewrite vlen_vput. split_and!; [|congruence|done|].
    + pose proof (row_step_trans _ _ _ _ _ _ _ _ Hs (row_step_trans _ _ _ _ _ _ _ _ H2 H3)) as H4.
      rewrite lives_vput, live_kill by lia. rewrite (Hv j Hj), decide_False by done.
      replace (lives m + ind false - ind (live (vat l j)) - lives l) with (lives m - lives l + (- ind (live (vat l j)) + 0))
        by (simpl; lia). done.
    + intros k Hk. rewrite vat_vput by lia. destruct (decide (j = k)) as [->|Hne].
      * by rewrite decide_True by set_solver.
      * rewrite Hv by done. destruct (decide (k ∈ dn)); [by rewrite decide_True by set_solver|by rewrite decide_False by set_solver].
  - intros s' (m & Hs & _ & Hm & Hv). assert (kill_offsets edges i l = m) as ->; [|done].
    apply vat_ext; rewrite vlen_kill_offsets; [done|]. intros j Hj. rewrite vat_kill_offsets, Hv by done.
    specialize (Hoffs j). destruct (decide (j ∈ offs)) as [Hin|Hin].
    + by rewrite bool_decide_eq_true_2 by (by apply Hoffs in Hin as [_ ?]).
    + rewrite bool_decide_eq_false_2; [done|]. intros He. apply Hin, Hoffs. done.
Qed.

Lemma src_offset_map_spec s (edges : list (Z * Z)) : csr_ok s -> Forall (fun e => 0 <= fst e) edges ->
  wp (for_each edges (∅ : gmap Z (gset Z)) (fun '(src, offset) m =>
        if vnum s <=? src then Some m
        else sz ← vget (adj_list_size_ s) src; Some (if sz <=? offset then m else map_insert m src offset)))
     (fun m => map_wf m /\ forall k v, map_has m k v <-> k < vertex_capacity s /\ v < size_at s k /\ (k, v) ∈ edges).
Proof.
  intros Hok Hpos. rewrite Forall_forall in Hpos.
  apply (wp_for_each (fun dn m => map_wf m /\ forall k v, map_has m k v <-> k < vertex_capacity s /\ v < size_at s k /\ (k, v) ∈ dn)).
  - split; [intros k; rewrite lookup_empty; by intros [? [=]]|]. intros k v. unfold map_has. rewrite lookup_empty. simpl.
    split; [set_solver|]. intros (_ & _ & Hin). by apply elem_of_nil in Hin.
  - intros dn [src offset] rest m -> [Hwf Hm]. rewrite vnum_eq by done. specialize (Hpos (src, offset) ltac:(set_solver)). simpl in Hpos.
    destruct (Z.leb_spec (vertex_capacity s) src).
    + apply wp_ret. split; [done|]. intros k v. rewrite Hm, elem_of_app, list_elem_of_singleton. split; [tauto|].
      intros (Hk & Hv & [Hin|[= -> ->]]); [done|lia].
    + wstep. wstep; [unfold vertex_capacity in *; lia..|]. apply wp_ret. fold (size_at s src).
      destruct (Z.leb_spec (size_at s src) offset).
      * split; [done|]. intros k v. rewrite Hm, elem_of_app, list_elem_of_singleton. split; [tauto|].
        intros (Hk & Hv & [Hin|[= -> ->]]); [done|lia].
      * split; [by apply map_wf_insert|]. intros k v. rewrite map_has_insert, Hm, elem_of_app, list_elem_of_singleton. split.
        -- intros [[-> ->]|(Hk & Hv & Hin)]; tauto.
        -- intros (Hk & Hv & [Hin|[= -> ->]]); tauto.
  - done.
Qed.

Lemma batch_delete_offsets_rows s adj edges : csr_rows s adj -> Forall (fun e => 0 <= fst e /\ 0 <= snd e) edges ->
  wp (batch_delete_offsets s edges) (fun s' => csr_rows s' (map_rows (kill_offsets edges) adj) /\
    unsorted_since_ s' = unsorted_since_ s /\
    eqm (edge_num_ s') (edge_num_ s + (total_live (map_rows (kill_offsets edges) adj) - total_live adj))).
Proof.
  intros Hrows Hpos. rewrite Forall_forall in Hpos. pose proof Hrows as (Hok & Hv & Hr). unfold batch_delete_offsets. apply wp_bind.
  eapply wp_mono; [apply src_offset_map_spec; [done|]; apply Forall_forall; intros e He; by apply Hpos|]. intros m [Hwf Hm]. set (adj' := map_rows (kill_offsets edges) adj).
  assert (forall i, 0 <= i < vlen adj -> size_at s i = vlen (vat adj i)) as Hsz by (intros i Hi; by apply (row_size s), Hr).
  assert (forall i, i ∈ map_keys m -> 0 <= i < vlen adj) as Hrange.
  { intros i (v & Hh)%map_keys_elem%Hwf. apply Hm in Hh as (Hlt & _ & Hin). specialize (Hpos _ Hin). simpl in Hpos. lia. }
  assert (forall i j, 0 <= i < vlen adj -> i ∉ map_keys m -> 0 <= j < vlen (vat adj i) -> (i, j) ∉ edges) as Hout.
  { intros i j Hi Hk Hj Hin. apply Hk, map_keys_elem. assert (map_has m i j) as Hh by (apply Hm; rewrite Hsz by done; split_and!; [lia|lia|done]).
    unfold map_has in Hh. destruct (m !! i); [done|]. simpl in Hh. set_solver. }
  apply (wp_rows id (fun _ _ => True) (fun i => lives (vat adj' i) - lives (vat adj i)) _ _ adj adj'); [done| |done| |].
  - split; [apply vlen_map_rows|apply sorted_set_nodup|done|]. intros i Hi Hk. subst adj'. rewrite vat_map_rows by done.
    apply kill_offsets_id. intros j Hj. by apply Hout.
  - intros dn i s' Hik Hi Hok' Hv' Hrow _. unfold id in *. subst adj'. rewrite vat_map_rows by done. pose proof (co_bufs _ Hok') as Hbl.
    destruct (proj1 (map_keys_elem m i) Hik) as [X HX]. rewrite HX. cbn [mbind option_bind].
    assert (forall v, v ∈ X <-> v < vlen (vat adj i) /\ (i, v) ∈ edges) as Hmem.
    { intros v. specialize (Hm i v). unfold map_has in Hm. rewrite HX, Hsz in Hm by done. simpl in Hm.
      rewrite Hm. split; [tauto|]. intros []. split; [lia|done]. }
    assert (forall j, j ∈ std_sort (elements X) <-> 0 <= j < vlen (vat adj i) /\ (i, j) ∈ edges) as Hoffs.
    { intros j. rewrite sorted_set_elem, Hmem. split; [|tauto]. intros [Hj Hin]. specialize (Hpos _ Hin). simpl in Hpos. split; [lia|done]. }
    wstep. wstep; [lia..|]. fold (buf_at s' i). destruct (buf_at s' i) as [p|] eqn:Eb.
    + eapply (wp_mono _ (fun s2 => row_step s' s2 i (kill_offsets edges i (vat adj i))
        (lives (kill_offsets edges i (vat adj i)) - lives (vat adj i)))); [|done].
      apply kill_loop; [done|done|lia|done|apply sorted_set_nodup|done].
    + apply wp_ret. pose proof (row_null _ _ _ Hok' Hrow Eb) as Hnil. rewrite Hnil in *.
      split; [|done]. by apply row_step_refl.
  - intros s' Hr' Hu He _. unfold id in *. split_and!; [done|done|].
    rewrite (zsum_sumz _ _ (vlen adj)) in He; [|apply sorted_set_nodup|done|].
    + by rewrite sumz_lives in He by apply vlen_map_rows.
    + intros i Hi Hk. subst adj'. rewrite vat_map_rows, kill_offsets_id by (done || (intros; by apply Hout)). lia.
Qed.

(** ** Deleting vertices *)

Lemma drop_live_cases (x : nbr D) s' : drop_live x s' = add_edge_num (- ind (live x)) s' \/ drop_live x s' = s' /\ - ind (live x) = 0.
Proof. unfold drop_live. destruct (live x); [by left|by right]. Qed.

Lemma lives_split keep (l : list (nbr D)) : gsum (fun x => - ind (live x)) (drops keep l) = lives (keeps keep l) - lives l.
Proof.
  induction l as [|x l IH]; [done|]. unfold keeps, drops in *. rewrite !filter_cons.
  destruct (keep x); repeat case_decide; try congruence; cbn [gsum foldr]; rewrite ?lives_cons;
    unfold gsum in *; lia.
Qed.

Definition clear_sources (src_set : gset Z) (i : Z) (l : list (nbr D)) : list (nbr D) :=
  if bool_decide (i ∈ src_set) then [] else l.

Definition drop_vertices (src_set dst_set : gset Z) (i : Z) (l : list (nbr D)) : list (nbr D) :=
  keeps (fun x => bool_decide (neighbor x ∉ dst_set)) (clear_sources src_set i l).

(** Counting the live entries of a row out of the counter. *)
Lemma drop_loop s i l buf : buf_at s i = buf -> csr_ok s -> 0 <= i < vertex_capacity s -> row_is s i l ->
  wp (for_range (vlen l) s (fun j s => x ← load s buf j; Some (drop_live x s))) (fun s' => row_step s s' i l (- lives l)).
Proof.
  intros Hbuf Hok Hi Hl. apply (wp_entries s i l l (fun j => - ind (live (vat l j)))); [done..| |].
  - intros j s' m Hj Hok' Hi' Hb' Hm Hml Hmj. rewrite <-Hbuf, <-Hb'. apply wp_bind, (row_load _ _ _ _ _ Hm); [lia|].
    rewrite <-Hmj, vput_vat. apply wp_ret. by apply drop_live_step.
  - intros s' Hs'. rewrite count_if_sumz in Hs'. done.
Qed.

Lemma batch_delete_vertices_rows s adj (src_set dst_set : gset Z) : csr_rows s adj -> (forall i, i ∈ src_set -> 0 <= i) ->
  wp (batch_delete_vertices s src_set dst_set) (fun s' =>
    let adj' := map_rows (drop_vertices src_set dst_set) adj in csr_rows s' adj' /\
    unsorted_since_ s' = unsorted_since_ s /\
    eqm (edge_num_ s') (edge_num_ s + (total_live adj' - total_live adj))).
Proof.
  intros Hrows Hpos. pose proof Hrows as (Hok & Hv & Hr). unfold batch_delete_vertices. rewrite vnum_eq, <-Hv by done.
  set (adj1 := map_rows (clear_sources src_set) adj).
  assert (vlen adj1 = vlen adj) as Hlen1 by apply vlen_map_rows.
  apply wp_bind. apply (wp_mono _ (fun s' => csr_rows s' adj1 /\ unsorted_since_ s' = unsorted_since_ s /\
    eqm (edge_num_ s') (edge_num_ s + (total_live adj1 - total_live adj)))).
  - set (body := fun src s => _).
    replace (for_each _ s body) with (for_each (filter (fun i => i < vlen adj) (std_sort (elements src_set))) s body).
    2:{ rewrite for_each_filter. apply for_each_ext. intros i s' _. subst body. simpl.
        destruct (Z.ltb_spec i (vlen adj)); case_decide; done || lia. }
    assert (forall i, i ∈ filter (fun i => i < vlen adj) (std_sort (elements src_set)) <-> i ∈ src_set /\ 0 <= i < vlen adj) as Hkeys.
    { intros i. rewrite list_elem_of_filter, sorted_set_elem. split; [|tauto]. intros []. split; [done|]. split; [by apply Hpos|done]. }
    assert (NoDup (filter (fun i => i < vlen adj) (std_sort (elements src_set)))) as Hnd by apply NoDup_filter, sorted_set_nodup.
    apply (wp_rows id (fun _ _ => True) (fun i => lives (vat adj1 i) - lives (vat adj i)) _ _ adj adj1); [done| |done| |].
    + split; [done|done|intros i Hi; by apply Hkeys|]. intros i Hi Hk. subst adj1. rewrite vat_map_rows by done.
      unfold clear_sources. rewrite bool_decide_eq_false_2; [done|]. intros Hin. apply Hk, Hkeys. done.
    + intros dn i s' Hik Hi Hok' Hv' Hrow _. unfold id in *. apply Hkeys in Hik as [Hik _]. subst adj1 body.
      rewrite vat_map_rows by done. cbv beta. rewrite (proj2 (Z.ltb_lt _ _)) by lia. pose proof (co_bufs _ Hok') as Hbl.
      unfold clear_sources. rewrite bool_decide_eq_true_2 by done. rewrite lives_nil.
      wstep. wstep; [lia..|]. fold (buf_at s' i). wstep. wstep; [unfold vertex_capacity in Hv'; lia..|]. fold (size_at s' i).
      rewrite (row_size _ _ _ Hrow). apply wp_bind. eapply wp_mono; [apply (drop_loop s' i (vat adj i)); [done|done|lia|done]|].
      intros s2 H2. pose proof (rs_vnum _ _ _ _ _ H2) as Hv2. pose proof (rs_ok _ _ _ _ _ H2) as Hok2.
      unfold vertex_capacity at 1 in Hv2. wstep. wstep; [lia..|]. apply wp_ret. split; [|done].
      replace (0 - lives (vat adj i)) with (- lives (vat adj i) + 0) by lia. apply (row_step_trans _ _ _ _ _ _ _ _ H2).
      apply set_size_step; [done|unfold vertex_capacity in *; lia| |done|lia].
      pose proof (co_size _ Hok2 i). unfold vertex_capacity in *. lia.
    + intros s' Hr' Hu He _. unfold id in *. split_and!; [done|done|].
      rewrite (zsum_sumz _ _ (vlen adj)) in He; [by rewrite sumz_lives in He|done|intros i Hi; by apply Hkeys|].
      intros i Hi Hk. subst adj1. rewrite vat_map_rows by done. unfold clear_sources. case_bool_decide; [|lia].
      destruct Hk. apply Hkeys. done.
  - intros s1 (Hrows1 & Hu1 & He1). set (adj' := map_rows (drop_vertices src_set dst_set) adj).
    assert (vlen adj' = vlen adj) as Hlen' by apply vlen_map_rows.
    apply (wp_rows id (fun _ _ => True) (fun i => lives (vat adj' i) - lives (vat adj1 i)) _ _ adj1 adj');
      [done|apply changes_all; congruence|done| |].
    + intros dn i s' _ Hi Hok' Hv' Hrow _. unfold id in *. rewrite Hlen1 in *. subst adj' adj1.
      rewrite vat_map_rows in Hrow |- * by done. rewrite (vat_map_rows (clear_sources _)) by done. unfold drop_vertices.
      set (l := clear_sources _ _ _) in *. pose proof (co_bufs _ Hok') as Hbl.
      wstep. wstep; [unfold vertex_capacity in Hv'; lia..|]. fold (size_at s' i). rewrite (row_size _ _ _ Hrow).
      wstep. wstep; [lia..|]. fold (buf_at s' i). destruct (Z.eqb_spec (vlen l) 0) as [E|E].
      * apply wp_ret. assert (l = []) as -> by (destruct l; [done|unfold vlen in E; simpl in E; lia]).
        split; [by apply row_step_refl|done].
      * destruct (row_buf _ _ _ Hok' Hrow) as [p ->]; [pose proof (vlen_nonneg l); lia|].
        rewrite <-lives_split. eapply wp_mono; [apply (filter_row_step s' i l); [done|lia|done|apply drop_live_cases]|]. done.
    + intros s' Hr' Hu He _. unfold id in *. split_and!; [done|congruence|].
      change (zsum (fun i => lives (vat adj' i) - lives (vat adj1 i)) (seqZ 0 (vlen adj))) with
        (sumz (fun i => lives (vat adj' i) - lives (vat adj1 i)) (vlen adj)) in He.
      rewrite <-Hlen1, sumz_lives in He by congruence. rewrite He, He1. apply eqm_eq. lia.
Qed.

(** ** Sorting and exporting *)

Lemma read_nbrs_row s i l : row_is s i l -> read_nbrs s (buf_at s i) (vlen l) = Some l.
Proof.
  intros Hl. cut (wp (read_nbrs s (buf_at s i) (vlen l)) (fun k => k = l)).
  { intros (k & -> & ->)%wp_exists. done. }
  apply (wp_for_range (fun r k => k = take (Z.to_nat r) l)); [apply vlen_nonneg|done| |].
  - intros r k Hr ->. apply wp_bind, (row_load _ _ _ _ _ Hl Hr). apply wp_ret. by rewrite take_succ_vat.
  - intros k ->. unfold vlen. by rewrite Nat2Z.id, firstn_all.
Qed.

Lemma batch_sort_rows sort s adj ts : csr_rows s adj -> (forall l, sort l ≡ₚ l) ->
  wp (batch_sort_by_edge_data sort s ts) (fun s' => csr_rows s' (map sort adj) /\ unsorted_since_ s' = ts /\
    eqm (edge_num_ s') (edge_num_ s)).
Proof.
  intros Hrows Hperm. pose proof Hrows as (Hok & Hv & Hr). unfold batch_sort_by_edge_data. rewrite <-Hv.
  assert (forall l, vlen (sort l) = vlen l) as Hlen by (intros l; unfold vlen; by rewrite (Permutation_length (Hperm l))).
  apply wp_bind. apply (wp_rows id (fun _ _ => True) (fun _ => 0) _ _ adj (map sort adj));
    [done|apply changes_all; [done|apply vlen_map]|done| |].
  - intros dn i s' _ Hi Hok' Hv' Hrow _. unfold id in *. rewrite vat_map by done. pose proof (co_bufs _ Hok') as Hbl.
    wstep. wstep; [lia..|]. fold (buf_at s' i). destruct (buf_at s' i) as [p|] eqn:Eb.
    + wstep. wstep; [unfold vertex_capacity in Hv'; lia..|]. fold (size_at s' i). rewrite (row_size _ _ _ Hrow).
      rewrite <-Eb, (read_nbrs_row s' i (vat adj i)) by done. cbn [mbind option_bind]. rewrite <-(Hlen (vat adj i)).
      rewrite (for_each_zip (sort (vat adj i)) s' (fun j x s => store s (buf_at s' i) j x)), Hlen.
      apply (wp_entries s' i (vat adj i) (sort (vat adj i)) (fun _ => 0)); [done|lia|done|apply Hlen| |].
      * intros j s2 m Hj Hok2 Hi2 Hb2 Hm Hml Hmj. wstep. wstep; [rewrite Hlen; lia..|]. rewrite <-Hb2.
        eapply wp_mono; [apply (store_count s2 i m j _ 0); [done..|lia]|]. by intros s3 (Hb3 & H3 & _).
      * intros s2 H2. rewrite sumz_const, Z.mul_0_r in H2 by apply vlen_nonneg. done.
    + apply wp_ret. pose proof (row_null _ _ _ Hok' Hrow Eb) as Hnil. rewrite Hnil in *.
      assert (sort [] = []) as -> by (apply Permutation_nil; symmetry; apply Hperm). split; [by apply row_step_refl|done].
  - intros s' (Hok' & Hr') _ He _. unfold id in *. apply wp_ret. split_and!; [|done|].
    + destruct Hok'. split; [by split|done].
    + change (zsum (fun _ => 0) (seqZ 0 (vlen adj))) with (sumz (fun _ => 0) (vlen adj)) in He.
      by rewrite sumz_const, Z.mul_0_r, Z.add_0_r in He by apply vlen_nonneg.
Qed.

(** The live entries of a row and of all rows, as the three exported lists. *)
Definition export_row (i : Z) (l : list (nbr D)) : list (Z * Z * D) := map (fun x => (i, neighbor x, data x)) (keeps live l).
Definition export_rows (adj : list (list (nbr D))) (n : Z) : list (Z * Z * D) :=
  flat_map (fun i => export_row i (vat adj i)) (seqZ 0 n).
Definition split3 (es : list (Z * Z * D)) : list Z * list Z * list D :=
  (map (fun e => fst (fst e)) es, map (fun e => snd (fst e)) es, map snd es).

Lemma batch_export_rows s adj : csr_rows s adj -> batch_export s = Some (split3 (export_rows adj (vlen adj))).
Proof.
  intros (Hok & Hv & Hr). cut (wp (batch_export s) (fun r => r = split3 (export_rows adj (vlen adj)))).
  { intros (k & -> & ->)%wp_exists. done. }
  unfold batch_export. rewrite vnum_eq, <-Hv by done. pose proof (co_bufs _ Hok) as Hbl.
  apply (wp_for_range (fun i r => r = split3 (export_rows adj i))); [apply vlen_nonneg|done| |done].
  intros i r Hi ->. wstep. wstep; [lia..|]. fold (buf_at s i). wstep. wstep; [unfold vertex_capacity in Hv; lia..|].
  fold (size_at s i). rewrite (row_size _ _ _ (Hr i Hi)).
  apply (wp_for_range (fun j r => r = split3 (export_rows adj i ++ export_row i (take (Z.to_nat j) (vat adj i))))).
  - apply vlen_nonneg.
  - unfold export_row. simpl. by rewrite app_nil_r.
  - intros j r Hj ->. apply wp_bind, (row_load _ _ _ _ _ (Hr i Hi) Hj). rewrite take_succ_vat by done.
    unfold export_row. rewrite keeps_snoc. destruct (live (vat (vat adj i) j)); apply wp_ret; [|done].
    unfold split3. by rewrite !map_app, <-!app_assoc.
  - intros r ->. unfold vlen at 1. rewrite Nat2Z.id, firstn_all. unfold export_rows. rewrite seqZ_snoc, flat_map_app by lia.
    simpl. by rewrite app_nil_r.
Qed.

End deletes.
