(* ===== verification/CsrBatch.v ===== *)
(** * [batch_put_edges] and the files of the mutable CSR

    The reserved capacities cover the new degrees, the entries survive the move
    to the new buffers, and the edges are appended in order.  Snapshots are at the end. *)
From S2P Require Import Prelude Storage Aggregate Bitset MutableCsr CsrRows CsrOps CsrLists CsrDelete.
#[local] Open Scope Z_scope.

(** ** The reserve ratio *)

(** Rounding to [float] is off by at most one part in [2 ^ 24]. *)
Lemma float_round_error x : 0 <= x -> 0 <= float_round x /\ (2 ^ 24 - 1) * x <= 2 ^ 24 * float_round x <= (2 ^ 24 + 1) * x.
Proof.
  intros Hx. unfold float_round. set (k := Z.log2 x - 23). destruct (Z.leb_spec k 0) as [Hk|Hk]; [lia|].
  assert (0 < x) as Hpos. { destruct (decide (x = 0)) as [->|]; [subst k; simpl in Hk; lia|lia]. }
  pose proof (Z.log2_spec x Hpos) as [Hlog _].
  assert (2 ^ Z.log2 x = 2 ^ 24 * 2 ^ (k - 1)) as Hl by (rewrite <-Z.pow_add_r by lia; f_equal; lia).
  assert (2 ^ k = 2 * 2 ^ (k - 1)) as Hk2 by (replace (2 * 2 ^ (k - 1)) with (2 ^ 1 * 2 ^ (k - 1)) by done; rewrite <-Z.pow_add_r by lia; f_equal; lia).
  assert (0 < 2 ^ (k - 1)) as Hp by (apply Z.pow_pos_nonneg; lia).
  pose proof (Z.div_mod x (2 ^ k) ltac:(lia)) as Hdm. pose proof (Z.mod_pos_bound x (2 ^ k) ltac:(lia)) as Hr.
  set (q := x / 2 ^ k) in *. set (r := x mod 2 ^ k) in *. set (h := 2 ^ (k - 1)) in *.
  assert (0 <= q) by (apply Z.div_pos; lia).
  assert (forall y, q * 2 ^ k <= y -> - h <= y - x <= h -> 0 <= y /\ (2 ^ 24 - 1) * x <= 2 ^ 24 * y <= (2 ^ 24 + 1) * x) as Hy by (intros; nia).
  destruct ((h <? r) || ((r =? h) && Z.odd q)) eqn:E; apply Hy; nia.
Qed.

(** A capacity is at least the degree and at most twice it. *)
Lemma reserved_bounds n : 0 <= n -> n <= reserved n <= 2 * n.
Proof.
  intros Hn. destruct (decide (n = 0)) as [->|Hn0]; [done|]. destruct (decide (n = 1)) as [->|Hn1]; [by vm_compute|].
  unfold reserved. set (y := float_round n). set (p := float_round (RATIO_MANTISSA * y)).
  pose proof (float_round_error n Hn) as (Hy0 & Hy1 & Hy2). fold y in Hy0, Hy1, Hy2. unfold RATIO_MANTISSA in *.
  pose proof (float_round_error (10066330 * y) ltac:(lia)) as (Hp0 & Hp1 & Hp2). fold p in Hp0, Hp1, Hp2.
  pose proof (Z.div_mod (- p) (2 ^ 23) ltac:(lia)) as Hdm. pose proof (Z.mod_pos_bound (- p) (2 ^ 23) ltac:(lia)). lia.
Qed.

Section batch.
Context {D : Type} `{NbrMemory D}.
Implicit Types s : MutableCsr D.

(** How often [i] occurs in [l]. *)
Definition occ (l : list Z) (i : Z) : Z := vlen (filter (fun x => x = i) l).

Lemma occ_snoc l x i : occ (l ++ [x]) i = occ l i + (if decide (x = i) then 1 else 0).
Proof. unfold occ. rewrite filter_app, vlen_app, filter_cons, filter_nil. by case_decide. Qed.

Lemma occ_app l k i : occ (l ++ k) i = occ l i + occ k i.
Proof. unfold occ. by rewrite filter_app, vlen_app. Qed.

Lemma occ_bounds l i : 0 <= occ l i <= vlen l.
Proof. unfold occ, vlen. pose proof (length_filter (fun x => x = i) l). lia. Qed.

Lemma count_degrees_wp n src_list : 0 <= n -> Forall (fun i => 0 <= i) src_list -> vlen src_list <= INT_MAX ->
  wp (count_degrees n src_list) (fun degree => vlen degree = n /\ forall i, 0 <= i < n -> vat degree i = occ src_list i).
Proof.
  intros Hn Hpos Hmax. rewrite Forall_forall in Hpos.
  apply (wp_for_each (fun dn degree => vlen degree = n /\ forall i, 0 <= i < n -> vat degree i = occ dn i)); [| |done].
  - split; [by apply vlen_vnew|]. intros i Hi. by rewrite vat_vnew.
  - intros dn x rest degree -> [Hl Hd]. specialize (Hpos x ltac:(set_solver)). destruct (Z.ltb_spec x n).
    + pose proof (occ_bounds dn x). rewrite vlen_app in Hmax. assert (0 < vlen (x :: rest)) by (unfold vlen; simpl; lia).
      wstep. wstep; [lia..|]. rewrite Hd by lia. wstep. wstep; [unfold INT_MIN; lia..|]. wstep; [lia..|].
      rewrite vlen_vput. split; [done|]. intros i Hi. rewrite occ_snoc, vat_vput, Hd by lia. repeat case_decide; subst; lia.
    + apply wp_ret. split; [done|]. intros i Hi. rewrite occ_snoc, decide_False, Hd by lia. lia.
Qed.

(** ** Planning and saving *)

Definition row_len (adj : list (list (nbr D))) (i : Z) : Z := vlen (vat adj i).

Lemma rows_size s adj i : csr_rows s adj -> 0 <= i < vlen adj -> vat (adj_list_size_ s) i = row_len adj i.
Proof. intros (_ & _ & Hr) Hi. by apply (row_size s i (vat adj i)), Hr. Qed.

Lemma sumz_nonneg f n : 0 <= n -> (forall i, 0 <= i < n -> 0 <= f i) -> 0 <= sumz f n.
Proof.
  intros Hn Hf. apply (sumz_ind (fun n => 0 <= sumz f n)); [done|by rewrite sumz_0|].
  intros k Hk IH. rewrite sumz_succ by lia. specialize (Hf k Hk). lia.
Qed.

Lemma sumz_mono f k n : 0 <= k <= n -> (forall i, 0 <= i < n -> 0 <= f i) -> sumz f k <= sumz f n.
Proof.
  intros Hk Hf. rewrite (sumz_split f k n) by done. pose proof (sumz_nonneg (fun i => f (k + i)) (n - k) ltac:(lia)) as Hs.
  specialize (Hs ltac:(intros; apply Hf; lia)). lia.
Qed.

(** An index below the end of its own segment is below the next ones. *)
Lemma segment_le f i j n : 0 <= i -> i < n -> (forall k, 0 <= k < n -> 0 <= f k) -> 0 <= j < f i -> 0 <= sumz f i + j < sumz f n.
Proof.
  intros Hi Hn Hf Hj. pose proof (sumz_mono f (i + 1) n ltac:(lia) Hf) as Hm. rewrite sumz_succ in Hm by lia.
  pose proof (sumz_nonneg f i Hi ltac:(intros; apply Hf; lia)). lia.
Qed.

Definition new_cap (src_list : list Z) (adj : list (list (nbr D))) (i : Z) : Z := reserved (occ src_list i + row_len adj i).

Lemma plan_capacities_wp s adj degree src_list : csr_rows s adj -> vlen degree = vlen adj ->
  (forall i, 0 <= i < vlen adj -> vat degree i = occ src_list i) ->
  (forall i, 0 <= i < vlen adj -> 2 * (occ src_list i + row_len adj i) <= INT_MAX) ->
  wp (plan_capacities s (vlen adj) degree) (fun '(caps, total_to_move, total_to_allocate) => vlen caps = vlen adj /\
    (forall i, 0 <= i < vlen adj -> vat caps i = new_cap src_list adj i) /\
    total_to_move = sumz (row_len adj) (vlen adj) /\ total_to_allocate = sumz (new_cap src_list adj) (vlen adj)).
Proof.
  intros Hrows Hdl Hd Hmax. pose proof Hrows as (Hok & Hv & _). unfold vertex_capacity in Hv. pose proof (co_caps _ Hok) as Hcl.
  unfold vertex_capacity in Hcl.
  apply (wp_for_range (fun r '(caps, move, alloc) => vlen caps = vlen adj /\
    (forall i, 0 <= i < r -> vat caps i = new_cap src_list adj i) /\ move = sumz (row_len adj) r /\
    alloc = sumz (new_cap src_list adj) r)); [apply vlen_nonneg| | |done].
  - split_and!; [lia|lia|done|done].
  - intros r [[caps move] alloc] Hr (Hlc & Hc & -> & ->). wstep. wstep; [lia..|]. rewrite (rows_size s adj r) by done.
    wstep. wstep; [lia..|]. rewrite Hd by done. pose proof (occ_bounds src_list r). specialize (Hmax r Hr).
    assert (0 <= row_len adj r) by apply vlen_nonneg. pose proof (reserved_bounds (occ src_list r + row_len adj r) ltac:(lia)).
    wstep. wstep; [unfold INT_MIN, INT_MAX in *; lia..|]. wstep. wstep; [unfold INT_MIN, INT_MAX in *; lia..|].
    wstep. wstep; [lia..|]. apply wp_ret. rewrite vlen_vput, !sumz_succ by lia. split_and!; try done.
    intros i Hi. rewrite vat_vput by lia. case_decide; [by subst|]. apply Hc. lia.
Qed.

(** The saved entries: row [i] starts after the rows before it. *)
Definition holds_rows (adj : list (list (nbr D))) (start : Z -> Z) (n : Z) (l : list (nbr D)) : Prop :=
  forall i j, 0 <= i < n -> 0 <= j < row_len adj i -> vat l (start i + j) = vat (vat adj i) j.

Lemma row_len_nonneg adj i : 0 <= row_len adj i.
Proof. apply vlen_nonneg. Qed.

Lemma save_nbrs_wp s adj : csr_rows s adj ->
  wp (save_nbrs s (vlen adj) (sumz (row_len adj) (vlen adj))) (fun l => vlen l = sumz (row_len adj) (vlen adj) /\
    holds_rows adj (sumz (row_len adj)) (vlen adj) l).
Proof.
  intros Hrows. pose proof Hrows as (Hok & Hv & Hr). unfold vertex_capacity in Hv. pose proof (co_bufs _ Hok) as Hbl.
  unfold vertex_capacity in Hbl. set (total := sumz (row_len adj) (vlen adj)).
  assert (0 <= total) as Htot by (apply sumz_nonneg; [apply vlen_nonneg|intros; apply row_len_nonneg]).
  assert (forall i j, 0 <= i < vlen adj -> 0 <= j < row_len adj i -> 0 <= sumz (row_len adj) i + j < total) as Hseg
    by (intros i j Hi Hj; apply segment_le; [lia|lia|intros; apply row_len_nonneg|done]).
  apply wp_bind. apply (wp_for_range (fun i '(l, offset) => vlen l = total /\ offset = sumz (row_len adj) i /\
    holds_rows adj (sumz (row_len adj)) i l)); [apply vlen_nonneg| | |].
  - split_and!; [by apply fmap_seqZ_vlen|done|]. intros i j Hi. lia.
  - intros i [l offset] Hi (Hl & -> & Hh). wstep. wstep; [lia..|]. rewrite (rows_size s adj i) by done.
    wstep. wstep; [lia..|]. fold (buf_at s i). pose proof (Hr i Hi) as Hri. apply wp_bind.
    apply (wp_mono _ (fun l' => vlen l' = total /\ holds_rows adj (sumz (row_len adj)) (i + 1) l')).
    2:{ intros l' [Hl' Hh']. apply wp_ret. rewrite sumz_succ by lia. done. }
    destruct (Z.ltb_spec 0 (row_len adj i)) as [Hpos|Hzero]; simpl.
    + rewrite bool_decide_eq_true_2 by (by apply (row_buf s i (vat adj i))).
      apply (wp_for_range (fun r l => vlen l = total /\ holds_rows adj (sumz (row_len adj)) i l /\
        forall j, 0 <= j < r -> vat l (sumz (row_len adj) i + j) = vat (vat adj i) j)); [lia|split_and!; [done|done|lia]| |].
      * intros r l' Hr' (Hl' & Hh' & Hj'). apply wp_bind, (row_load _ _ _ _ _ Hri Hr').
        pose proof (Hseg i r Hi Hr'). apply wp_vset; [lia|]. rewrite vlen_vput. split_and!; [done| |].
        -- intros k j Hk Hj. rewrite vat_vput by (pose proof (Hseg k j ltac:(lia) Hj); lia). rewrite decide_False; [by apply Hh'|].
           pose proof (segment_le (row_len adj) k j i ltac:(lia) ltac:(lia) ltac:(intros; apply row_len_nonneg) Hj). lia.
        -- intros j Hj. pose proof (Hseg i j Hi ltac:(unfold row_len in *; lia)). rewrite vat_vput by lia.
           case_decide; [f_equal; lia|]. apply Hj'. lia.
      * intros l' (Hl' & Hh' & Hj'). split; [done|]. intros k j Hk Hj. destruct (decide (k = i)) as [->|Hne]; [by apply Hj'|].
        apply Hh'; [lia|done].
    + apply wp_ret. split; [done|]. intros k j Hk Hj. destruct (decide (k = i)) as [->|Hne]; [lia|]. apply Hh; [lia|done].
  - intros [l offset] (Hl & -> & Hh). by apply wp_ret.
Qed.

(** ** Moving to the new buffers *)

Lemma resize_nbr_list_len s n : 0 <= n ->
  exists l, blocks (resize_nbr_list s n) !! 0 = Some l /\ vlen l = n.
Proof.
  intros Hn. eexists. split; [apply lookup_insert_eq|]. unfold vlen.
  rewrite length_app, length_take, length_drop, length_fmap, length_seqZ. lia.
Qed.

(** The state after the move: block 0 is [l] and vertex [i] starts at the sum of
    the capacities before it. *)
Definition moved s (bufs : list ptr) (caps : list Z) (l : list (nbr D)) : MutableCsr D :=
  CSR bufs (adj_list_size_ s) caps (unsorted_since_ s) (edge_num_ s) (<[0 := l]> (blocks s)) (next_block s).

Definition starts_at (total : Z) (start : Z) : ptr := if total =? 0 then None else Some (0, start).

Lemma move_nbrs_wp s adj caps nbrs (f : Z -> Z) : csr_rows s adj -> vlen caps = vlen adj ->
  (forall i, 0 <= i < vlen adj -> vat caps i = f i /\ row_len adj i <= f i) ->
  vlen nbrs = sumz (row_len adj) (vlen adj) -> holds_rows adj (sumz (row_len adj)) (vlen adj) nbrs ->
  let total := sumz f (vlen adj) in
  wp (move_nbrs (resize_nbr_list s total) (vlen adj) (if total =? 0 then None else Some (0, 0)) caps nbrs) (fun s' =>
    exists bufs l, s' = moved s bufs caps l /\ vlen bufs = vlen adj /\ vlen l = total /\
      (forall i, 0 <= i < vlen adj -> vat bufs i = starts_at total (sumz f i)) /\ holds_rows adj (sumz f) (vlen adj) l).
Proof.
  intros Hrows Hcl Hcap Hnl Hh total. pose proof Hrows as (Hok & Hv & _). unfold vertex_capacity in Hv. pose proof (co_bufs _ Hok) as Hbl.
  unfold vertex_capacity in Hbl.
  assert (forall i, 0 <= i < vlen adj -> 0 <= f i) as Hf by (intros i Hi; destruct (Hcap i Hi); pose proof (row_len_nonneg adj i); lia).
  assert (0 <= total) as Htot by (apply sumz_nonneg; [apply vlen_nonneg|done]).
  destruct (resize_nbr_list_len s total Htot) as (l0 & El0 & Hl0).
  assert (forall i j, 0 <= i < vlen adj -> 0 <= j < f i -> 0 <= sumz f i + j < total) as Hseg
    by (intros i j Hi Hj; apply segment_le; [lia|lia|done|done]).
  set (base := if total =? 0 then None else Some (0, 0)). unfold move_nbrs. apply wp_bind.
  apply (wp_for_range (fun i '(s', offset, new_offset) => exists bufs l, s' = moved s bufs caps l /\ vlen bufs = vlen adj /\
    vlen l = total /\ (forall k, 0 <= k < i -> vat bufs k = starts_at total (sumz f k)) /\ holds_rows adj (sumz f) i l /\
    offset = sumz f i /\ new_offset = sumz (row_len adj) i)); [apply vlen_nonneg| | |].
  - exists (adj_list_buffer_ s), l0. split_and!; [|lia|done|lia|intros i j Hi; lia|done|done].
    unfold moved, set_adj, resize_nbr_list in *. simpl in *. rewrite lookup_insert_eq in El0. by injection El0 as ->.
  - intros i [[s' offset] new_offset] Hi (bufs & l & -> & Hbufs & Hl & Hb & Hhl & -> & ->).
    assert (('(b, o) ← base; Some (b, o + sumz f i)) = starts_at total (sumz f i)) as ->.
    { subst base. unfold starts_at. by destruct (total =? 0). }
    wstep. wstep; [simpl; lia..|]. simpl adj_list_size_. rewrite (rows_size s adj i) by done. apply wp_bind.
    apply (wp_mono _ (fun s' => exists l, s' = moved s bufs caps l /\ vlen l = total /\ holds_rows adj (sumz f) (i + 1) l)).
    2:{ intros s' (l' & -> & Hl' & Hhl'). wstep. wstep; [simpl; lia..|]. simpl adj_list_capacity_. wstep. wstep; [simpl; lia..|].
        simpl. apply wp_ret. exists (vput bufs i (starts_at total (sumz f i))), l'. rewrite vlen_vput, !sumz_succ by lia.
        destruct (Hcap i Hi) as [-> _]. split_and!; try done. intros k Hk. rewrite vat_vput by lia.
        case_decide; [by subst|]. apply Hb. lia. }
    destruct (Hcap i Hi) as [_ Hle]. destruct (Z.ltb_spec 0 (row_len adj i)) as [Hpos|Hzero]; simpl.
    + assert (0 < total) by (pose proof (Hseg i 0 Hi ltac:(lia)); pose proof (sumz_nonneg f i); lia).
      assert (starts_at total (sumz f i) = Some (0, sumz f i)) as -> by (unfold starts_at; by rewrite (proj2 (Z.eqb_neq _ _)) by lia).
      rewrite bool_decide_eq_true_2 by done.
      apply (wp_for_range (fun r s' => exists l, s' = moved s bufs caps l /\ vlen l = total /\ holds_rows adj (sumz f) i l /\
        forall j, 0 <= j < r -> vat l (sumz f i + j) = vat (vat adj i) j)); [lia|exists l; split_and!; [done|done|done|lia]| |].
      * intros r s' Hr (l' & -> & Hl' & Hh' & Hj').
        pose proof (segment_le (row_len adj) i r (vlen adj) ltac:(lia) ltac:(lia) ltac:(intros; apply row_len_nonneg) Hr) as Hsr.
        wstep. wstep; [lia..|]. rewrite (Hh i r Hi Hr). unfold store. cbn [mbind option_bind]. simpl blocks.
        rewrite lookup_insert_eq. cbn [mbind option_bind]. pose proof (Hseg i r Hi ltac:(lia)).
        apply wp_bind, wp_vset; [lia|]. apply wp_ret. exists (vput l' (sumz f i + r) (vat (vat adj i) r)). rewrite vlen_vput.
        split_and!; [|done| |].
        -- unfold moved, set_blocks. simpl. by rewrite insert_insert_eq.
        -- intros k j Hk Hj. destruct (Hcap k ltac:(lia)) as [_ Hlek].
           pose proof (segment_le f k j i ltac:(lia) ltac:(lia) ltac:(intros; apply Hf; lia) ltac:(lia)).
           rewrite vat_vput by lia. rewrite decide_False by lia. by apply Hh'.
        -- intros j Hj. pose proof (Hseg i j Hi ltac:(lia)). rewrite vat_vput by lia. case_decide; [f_equal; lia|]. apply Hj'. lia.
      * intros s' (l' & -> & Hl' & Hh' & Hj'). exists l'. split_and!; [done|done|]. intros k j Hk Hj.
        destruct (decide (k = i)) as [->|Hne]; [by apply Hj'|]. apply Hh'; [lia|done].
    + apply wp_ret. exists l. split_and!; [done|done|]. intros k j Hk Hj.
      destruct (decide (k = i)) as [->|Hne]; [lia|]. apply Hhl; [lia|done].
  - intros [[s' offset] new_offset] (bufs & l & -> & Hbufs & Hl & Hb & Hhl & _). apply wp_ret. by exists bufs, l.
Qed.

(** Buffers that follow each other in block 0. *)
Lemma contiguous_rows s adj l f : vlen (adj_list_buffer_ s) = vlen adj -> vlen (adj_list_capacity_ s) = vlen adj ->
  vertex_capacity s = vlen adj -> vlen adj < 2 ^ 32 -> 0 < next_block s -> 0 <= edge_num_ s < 2 ^ 64 ->
  (forall i, 0 <= i < vlen adj -> size_at s i = row_len adj i /\ cap_at s i = f i /\ row_len adj i <= f i <= INT_MAX) ->
  blocks s !! 0 = Some l -> vlen l = sumz f (vlen adj) ->
  (forall i, 0 <= i < vlen adj -> (0 < f i -> buf_at s i = Some (0, sumz f i)) /\
     forall b o, buf_at s i = Some (b, o) -> b = 0 /\ o = sumz f i) ->
  holds_rows adj (sumz f) (vlen adj) l -> csr_rows s adj.
Proof.
  intros Hbl Hcl Hv Hn Hnext Hcnt Hcap El Hl Hb Hh. set (total := sumz f (vlen adj)) in *.
  assert (forall i, 0 <= i < vlen adj -> 0 <= f i) as Hf by (intros i Hi; destruct (Hcap i Hi); pose proof (row_len_nonneg adj i); lia).
  assert (forall i j, 0 <= i < vlen adj -> 0 <= j < f i -> 0 <= sumz f i + j < total) as Hseg
    by (intros i j Hi Hj; apply segment_le; [lia|lia|done|done]).
  assert (forall i j, 0 <= i < vlen adj -> 0 <= j < f i -> cell s i j = Some (vat l (sumz f i + j))) as Hcell.
  { intros i j Hi Hj. pose proof (Hseg i j Hi Hj). unfold cell, load. rewrite (proj1 (Hb i Hi)) by lia. simpl.
    rewrite El. simpl. by rewrite vget_Some by lia. }
  split_and!; [|done|].
  - split; rewrite ?Hv; try done.
    + intros i Hi. destruct (Hcap i Hi) as (-> & -> & ?). pose proof (row_len_nonneg adj i). lia.
    + intros i j Hi. destruct (Hcap i Hi) as (_ & -> & _). intros Hj. by rewrite Hcell.
    + intros i b o Hi Eb. destruct (Hb i Hi) as [_ Hbo]. destruct (Hbo b o Eb) as [-> ->].
      split; [apply sumz_nonneg; [lia|intros; apply Hf; lia]|done].
    + intros i k b o o' j j' Hi Hk Hne Ei Ek. destruct (Hcap i Hi) as (_ & -> & _), (Hcap k Hk) as (_ & -> & _). intros Hj Hj'.
      destruct (Hb i Hi) as [_ Hbi], (Hb k Hk) as [_ Hbk]. destruct (Hbi b o Ei) as [_ ->], (Hbk b o' Ek) as [_ ->].
      destruct (decide (i < k)).
      * pose proof (segment_le f i j k ltac:(lia) ltac:(lia) ltac:(intros; apply Hf; lia) Hj). lia.
      * pose proof (segment_le f k j' i ltac:(lia) ltac:(lia) ltac:(intros; apply Hf; lia) Hj'). lia.
  - intros i Hi. destruct (Hcap i Hi) as (Hs & _ & ?). split; [by rewrite Hs|]. intros j Hj.
    rewrite Hcell by (unfold row_len in *; lia). f_equal. by apply Hh.
Qed.

Lemma moved_rows s adj bufs caps l f : csr_rows s adj -> vlen caps = vlen adj -> vlen bufs = vlen adj ->
  (forall i, 0 <= i < vlen adj -> vat caps i = f i /\ row_len adj i <= f i <= INT_MAX) ->
  vlen l = sumz f (vlen adj) ->
  (forall i, 0 <= i < vlen adj -> vat bufs i = starts_at (sumz f (vlen adj)) (sumz f i)) ->
  holds_rows adj (sumz f) (vlen adj) l -> csr_rows (moved s bufs caps l) adj.
Proof.
  intros Hrows Hcl Hbl Hcap Hl Hb Hh. pose proof Hrows as (Hok & Hv & _).
  assert (forall i, 0 <= i < vlen adj -> 0 <= f i) as Hf by (intros i Hi; destruct (Hcap i Hi); pose proof (row_len_nonneg adj i); lia).
  apply (contiguous_rows _ _ l f); try done; try apply Hok.
  - rewrite Hv. apply Hok.
  - intros i Hi. destruct (Hcap i Hi) as [Hc ?]. split_and!; [by apply (rows_size s)|done|lia|lia].
  - simpl. by rewrite lookup_insert_eq.
  - intros i Hi. unfold buf_at. simpl. rewrite Hb by done. unfold starts_at.
    destruct (Z.eqb_spec (sumz f (vlen adj)) 0) as [E|E]; (split; [|by intros b o [= <- <-]]); [|done].
    intros Hpos. pose proof (segment_le f i 0 (vlen adj) ltac:(lia) ltac:(lia) Hf ltac:(lia)).
    pose proof (sumz_nonneg f i ltac:(lia) ltac:(intros; apply Hf; lia)). lia.
Qed.

(** ** Appending *)


(** The edges one by one. *)
Definition put_one (src_list dst_list : list Z) (data_list : list D) (ts : Z) (adj : list (list (nbr D))) (k : Z) :
    list (list (nbr D)) :=
  let src := vat src_list k in
  if src <? vlen adj then vput adj src (vat adj src ++ [Nbr (vat dst_list k) ts (vat data_list k)]) else adj.

Definition put_rows (src_list dst_list : list Z) (data_list : list D) (ts : Z) (adj : list (list (nbr D))) (n : Z) :
    list (list (nbr D)) :=
  foldl (put_one src_list dst_list data_list ts) adj (seqZ 0 n).

Lemma put_rows_succ src_list dst_list data_list ts adj n : 0 <= n ->
  put_rows src_list dst_list data_list ts adj (n + 1) =
  put_one src_list dst_list data_list ts (put_rows src_list dst_list data_list ts adj n) n.
Proof. intros Hn. unfold put_rows. rewrite seqZ_snoc, foldl_app by done. done. Qed.

Lemma vlen_put_one src_list dst_list data_list ts adj k : vlen (put_one src_list dst_list data_list ts adj k) = vlen adj.
Proof. unfold put_one. case_match; [apply vlen_vput|done]. Qed.

Lemma vlen_put_rows src_list dst_list data_list ts adj n : 0 <= n ->
  vlen (put_rows src_list dst_list data_list ts adj n) = vlen adj.
Proof.
  intros Hn. apply (sumz_ind (fun n => vlen (put_rows src_list dst_list data_list ts adj n) = vlen adj)); [done|done|].
  intros k Hk IH. by rewrite put_rows_succ, vlen_put_one by lia.
Qed.

(** The sources below [n]. *)
Definition in_range (n : Z) (src_list : list Z) : Z := vlen (filter (fun i => i < n) src_list).

Lemma append_edges_wp s adj src_list dst_list data_list ts cap :
  csr_rows s adj -> vlen src_list <= vlen dst_list -> vlen src_list <= vlen data_list -> Forall (fun i => 0 <= i) src_list ->
  (forall i, 0 <= i < vlen adj -> cap_at s i = cap i /\ occ src_list i + row_len adj i <= cap i) ->
  wp (for_range (vlen src_list) (s, 0) (fun i '(s, added) =>
      src ← vget src_list i;
      if vlen adj <=? src then Some (s, added)
      else
        dst ← vget dst_list i;
        d ← vget data_list i;
        s ← append_edge s src (Nbr dst ts d);
        Some (s, added + 1)))
    (fun '(s', added) => csr_rows s' (put_rows src_list dst_list data_list ts adj (vlen src_list)) /\
      unsorted_since_ s' = unsorted_since_ s /\ eqm (edge_num_ s') (edge_num_ s) /\ added = in_range (vlen adj) src_list).
Proof.
  intros Hrows Hdl Hal Hpos Hcap. rewrite Forall_forall in Hpos.
  apply (wp_for_range (fun r '(s', added) => let adj' := put_rows src_list dst_list data_list ts adj r in
    csr_rows s' adj' /\ unsorted_since_ s' = unsorted_since_ s /\ eqm (edge_num_ s') (edge_num_ s) /\
    (forall i, 0 <= i < vlen adj -> cap_at s' i = cap i /\ row_len adj' i = row_len adj i + occ (take (Z.to_nat r) src_list) i) /\
    added = in_range (vlen adj) (take (Z.to_nat r) src_list))); [apply vlen_nonneg| | |].
  - split_and!; [done|done|done| |done]. intros i Hi. destruct (Hcap i Hi). split; [done|]. assert (occ (take (Z.to_nat 0) src_list) i = 0) as -> by done. by rewrite Z.add_0_r.
  - intros r [s' added] Hr (Hrows' & Hu & He & Hc & ->). set (adj' := put_rows _ _ _ _ _ r) in *.
    assert (vlen adj' = vlen adj) as Hlen by (apply vlen_put_rows; lia).
    wstep. wstep; [lia..|]. assert (0 <= vat src_list r) as Hr0 by (apply Hpos, vat_elem, Hr).
    rewrite take_succ_vat, put_rows_succ by lia. fold adj'. set (src := vat src_list r) in *. unfold put_one. fold src. rewrite Hlen.
    unfold in_range. rewrite filter_app, vlen_app, filter_cons, filter_nil.
    destruct (Z.leb_spec (vlen adj) src).
    + apply wp_ret. rewrite (proj2 (Z.ltb_ge _ _)), decide_False by lia. split_and!; [done|done|done| |rewrite ?vlen_nil, ?vlen_one; lia].
      intros i Hi. rewrite occ_snoc, decide_False by lia. destruct (Hc i Hi). split; [done|lia].
    + rewrite (proj2 (Z.ltb_lt _ _)), decide_True by lia. wstep. wstep; [lia..|]. wstep. wstep; [lia..|]. apply wp_bind.
      pose proof Hrows' as (Hok' & Hv' & Hr'). pose proof (Hr' src ltac:(lia)) as Hrow. pose proof (co_bufs _ Hok') as Hbl.
      destruct (Hcap src ltac:(lia)) as [_ Hcs]. destruct (Hc src ltac:(lia)) as [Hcs' Hrl].
      assert (occ (take (Z.to_nat r) src_list) src + 1 <= occ src_list src) as Hocc.
      { rewrite <-(take_drop (Z.to_nat (r + 1)) src_list) at 2. rewrite occ_app, take_succ_vat, occ_snoc by done.
        fold src. rewrite decide_True by done. pose proof (occ_bounds (drop (Z.to_nat (r + 1)) src_list) src). lia. }
      unfold append_edge. wstep. wstep; [lia..|]. fold (buf_at s' src). wstep. wstep; [unfold vertex_capacity in *; lia..|].
      fold (size_at s' src). rewrite (row_size _ _ _ Hrow). wstep. wstep; [unfold vertex_capacity in *; lia..|].
      eapply wp_mono; [apply append_step; [done|lia|done|unfold row_len in *; lia]|].
      intros s2 (H2 & Hc2 & _). apply wp_ret. split_and!.
      * by apply (rows_step s' s2 adj' src _ 0); [|lia|].
      * rewrite (rs_unsorted _ _ _ _ _ H2). done.
      * rewrite (rs_count _ _ _ _ _ H2), Z.add_0_r. done.
      * intros i Hi. rewrite occ_snoc. destruct (Hc i Hi) as [Hci Hli]. unfold row_len at 1. rewrite vat_vput by lia.
        destruct (decide (src = i)) as [->|Hne].
        -- split; [congruence|]. rewrite vlen_app, vlen_one. unfold row_len in *. lia.
        -- split; [rewrite (rs_caps _ _ _ _ _ H2) by (lia || congruence); done|]. unfold row_len in *. lia.
      * rewrite ?vlen_nil, ?vlen_one; lia.
  - intros [s' added] (Hrows' & Hu & He & _ & ->). rewrite (take_ge src_list) by (unfold vlen; lia). done.
Qed.

Lemma batch_put_edges_rows s adj src_list dst_list data_list ts :
  csr_rows s adj -> vlen src_list <= vlen dst_list -> vlen src_list <= vlen data_list -> Forall (fun i => 0 <= i) src_list ->
  vlen src_list <= INT_MAX ->
  (forall i, 0 <= i < vlen adj -> 2 * (occ src_list i + row_len adj i) <= INT_MAX) ->
  wp (batch_put_edges s src_list dst_list data_list ts) (fun s' =>
    csr_rows s' (put_rows src_list dst_list data_list ts adj (vlen src_list)) /\
    unsorted_since_ s' = unsorted_since_ s /\ eqm (edge_num_ s') (edge_num_ s + in_range (vlen adj) src_list)).
Proof.
  intros Hrows Hdl Hal Hpos Hmax Hcap. pose proof Hrows as (Hok & Hv & _). unfold batch_put_edges. rewrite vnum_eq, <-Hv by done.
  destruct (Z.eqb_spec (vlen adj) 0) as [E|E].
  - apply wp_ret. rewrite Forall_forall in Hpos.
    assert (put_rows src_list dst_list data_list ts adj (vlen src_list) = adj) as ->.
    { destruct adj; [|unfold vlen in E; simpl in E; lia].
      pose proof (vlen_put_rows src_list dst_list data_list ts [] (vlen src_list) (vlen_nonneg _)) as Hl.
      destruct (put_rows _ _ _ _ _ _); [done|]. unfold vlen in Hl. simpl in Hl. lia. }
    assert (in_range (vlen adj) src_list = 0) as ->.
    { unfold in_range. rewrite E. clear -Hpos. induction src_list as [|x l IH]; [done|].
      rewrite filter_cons, decide_False by (specialize (Hpos x ltac:(by left)); lia). apply IH. intros. apply Hpos. by right. }
    rewrite Z.add_0_r. done.
  - apply wp_bind. eapply wp_mono; [apply count_degrees_wp; [apply vlen_nonneg|done|done]|]. intros degree [Hdgl Hdg].
    apply wp_bind. eapply wp_mono; [by apply plan_capacities_wp|]. intros [[caps move] alloc] (Hcl & Hc & -> & ->).
    apply wp_bind. eapply wp_mono; [by apply save_nbrs_wp|]. intros nbrs [Hnl Hnh].
    assert (forall i, 0 <= i < vlen adj -> row_len adj i <= new_cap src_list adj i <= INT_MAX /\
      occ src_list i + row_len adj i <= new_cap src_list adj i) as Hnew.
    { intros i Hi. unfold new_cap. pose proof (occ_bounds src_list i). pose proof (row_len_nonneg adj i). specialize (Hcap i Hi).
      pose proof (reserved_bounds (occ src_list i + row_len adj i) ltac:(lia)). lia. }
    apply wp_bind. eapply wp_mono; [apply (move_nbrs_wp s adj caps nbrs (new_cap src_list adj)); [done|done| |done|done]|].
    { intros i Hi. split; [by apply Hc|]. apply Hnew, Hi. }
    intros s1 (bufs & l & -> & Hbl & Hll & Hb & Hh).
    assert (csr_rows (moved s bufs caps l) adj) as Hrows1.
    { eapply moved_rows; try done. intros i Hi. split; [by apply Hc|]. apply Hnew, Hi. }
    apply wp_bind. eapply wp_mono; [apply (append_edges_wp _ adj _ _ _ _ (new_cap src_list adj)); [done..|]|].
    { intros i Hi. split; [by apply Hc|]. apply Hnew, Hi. }
    intros [s2 added] (Hrows2 & Hu & He & ->). apply wp_ret. split_and!.
    + destruct Hrows2 as (Hok2 & Hv2 & Hr2). split_and!; [|done|done]. destruct Hok2. split; try done.
      simpl. unfold to_u64. apply Z.mod_pos_bound. lia.
    + done.
    + simpl. rewrite eqm_u64, He. done.
Qed.

(** The live entries after the batch. *)
Lemma put_rows_live src_list dst_list data_list ts adj : Forall (fun i => 0 <= i) src_list -> ts <> INVALID_TIMESTAMP ->
  total_live (put_rows src_list dst_list data_list ts adj (vlen src_list)) = total_live adj + in_range (vlen adj) src_list.
Proof.
  intros Hpos Hts. rewrite Forall_forall in Hpos.
  assert (forall r, 0 <= r -> r <= vlen src_list -> total_live (put_rows src_list dst_list data_list ts adj r) =
    total_live adj + in_range (vlen adj) (take (Z.to_nat r) src_list)) as Hgo.
  { intros r Hr0. apply (sumz_ind (fun r => r <= vlen src_list -> total_live (put_rows src_list dst_list data_list ts adj r) =
      total_live adj + in_range (vlen adj) (take (Z.to_nat r) src_list))); [done| |].
    - intros _. assert (in_range (vlen adj) (take (Z.to_nat 0) src_list) = 0) as -> by done. by rewrite Z.add_0_r.
    - intros k Hk IH Hle. specialize (IH ltac:(lia)). assert (0 <= k < vlen src_list) as Hk' by lia.
      rewrite put_rows_succ, take_succ_vat by lia. set (adj' := put_rows _ _ _ _ _ k) in *.
      assert (vlen adj' = vlen adj) as Hlen by (apply vlen_put_rows; lia).
      assert (0 <= vat src_list k) as Hsk by (apply Hpos, vat_elem, Hk'). unfold put_one. rewrite Hlen.
      unfold in_range in *. rewrite filter_app, vlen_app, filter_cons, filter_nil. destruct (Z.ltb_spec (vat src_list k) (vlen adj)).
      + rewrite total_vput by lia. rewrite decide_True, lives_app, lives_cons, lives_nil by done.
        unfold live. cbn [timestamp]. rewrite (proj2 (Z.eqb_neq _ _)) by done. simpl (ind _). rewrite vlen_one. lia.
      + rewrite decide_False by lia. rewrite ?vlen_nil, ?vlen_one; lia. }
  rewrite Hgo by (apply vlen_nonneg || lia). by rewrite (take_ge src_list) by (unfold vlen; lia).
Qed.

End batch.

(** ** Snapshots and reading

    What [dump] writes and what [open] makes of it; the neighbour iterator and
    the typed view (include/neug/storages/csr/generic_view.h) on one row. *)

Section files.
Context {D : Type} `{NbrMemory D}.
Implicit Types s : MutableCsr D.

(** The first [cap] cells of the buffer of [i]. *)
Lemma read_cells s i n : csr_ok s -> 0 <= i < vertex_capacity s -> n = cap_at s i ->
  wp (read_nbrs s (buf_at s i) n) (fun l => vlen l = n /\ forall j, 0 <= j < n -> cell s i j = Some (vat l j)).
Proof.
  intros Hok Hi ->. pose proof (co_size _ Hok i Hi).
  apply (wp_for_range (fun r l => vlen l = r /\ forall j, 0 <= j < r -> cell s i j = Some (vat l j))); [lia|split; [done|lia]| |done].
  intros r l Hr [Hl Hc]. destruct (co_cell _ Hok i r Hi Hr) as [x Hx]. apply wp_bind. fold (cell s i r). rewrite Hx.
  apply wp_ret. apply wp_ret. rewrite vlen_app, vlen_one. split; [lia|]. intros j Hj. rewrite vat_app by lia. case_decide; [apply Hc; lia|].
  replace j with r by lia. replace (r - vlen l) with 0 by lia. done.
Qed.

(** The files of [s]. *)
Record files_of s (adj : list (list (nbr D))) (files : CsrFiles) : Prop := {
  fo_deg : file_deg files = adj_list_size_ s;
  fo_cap : default (file_deg files) (file_cap files) = adj_list_capacity_ s;
  fo_meta : file_meta files = Some (unsorted_since_ s, edge_num_ s);
  fo_len : vlen (file_nbr files) = sumz (cap_at s) (vlen adj);
  fo_nbr : holds_rows adj (sumz (cap_at s)) (vlen adj) (file_nbr files)
}.

Lemma dump_files s adj : csr_rows s adj -> wp (dump s) (files_of s adj).
Proof.
  intros Hrows. pose proof Hrows as (Hok & Hv & Hr). pose proof (co_bufs _ Hok) as Hbl. pose proof (co_caps _ Hok) as Hcl.
  unfold dump. rewrite <-Hv in *. unfold vertex_capacity in Hv. apply wp_bind.
  apply (wp_for_range (fun i '(degs, need) => degs = take (Z.to_nat i) (adj_list_size_ s) /\
    (need = false -> forall k, 0 <= k < i -> size_at s k = cap_at s k))); [apply vlen_nonneg|split; [done|lia]| |].
  - intros i [degs need] Hi [-> Hneed]. wstep. wstep; [lia..|]. wstep. wstep; [lia..|]. apply wp_ret.
    rewrite take_succ_vat by lia. split; [done|]. intros Hn k Hk. apply orb_false_iff in Hn as [-> Hn].
    destruct (decide (k = i)) as [->|Hne]; [|apply Hneed; [done|lia]]. unfold size_at, cap_at. lia.
  - intros [degs need] [-> Hneed]. rewrite (take_ge (adj_list_size_ s)) by (unfold vlen in *; lia). apply wp_bind.
    assert (forall i, 0 <= i < vlen adj -> row_len adj i <= cap_at s i) as Hle.
    { intros i Hi. rewrite <-(rows_size s) by done. apply (co_size _ Hok). unfold vertex_capacity. lia. }
    assert (forall i, 0 <= i < vlen adj -> 0 <= cap_at s i) as Hf
      by (intros i Hi; specialize (Hle i Hi); pose proof (row_len_nonneg adj i); lia).
    apply (wp_for_range (fun i out => vlen out = sumz (cap_at s) i /\ holds_rows adj (sumz (cap_at s)) i out)); [apply vlen_nonneg| | |].
    + split; [done|]. intros i j Hi. lia.
    + intros i out Hi [Hlo Hho]. wstep. wstep; [lia..|]. fold (buf_at s i). wstep. wstep; [lia..|]. fold (cap_at s i).
      apply wp_bind. eapply wp_mono; [apply read_cells; [done|unfold vertex_capacity; lia|done]|]. intros l [Hl Hc]. apply wp_ret.
      rewrite vlen_app, sumz_succ by lia. split; [lia|]. intros k j Hk Hj.
      pose proof (sumz_nonneg (cap_at s) k ltac:(lia) ltac:(intros; apply Hf; lia)). rewrite vat_app, Hlo by lia.
      destruct (decide (k = i)) as [->|Hne].
      * rewrite decide_False by lia. replace (sumz (cap_at s) i + j - sumz (cap_at s) i) with j by lia.
        specialize (Hle i Hi). pose proof (Hc j ltac:(lia)) as Hcj. destruct (Hr i Hi) as [_ Hrc]. unfold row_len in Hj.
        rewrite Hrc in Hcj by lia. by injection Hcj.
      * pose proof (Hle k ltac:(lia)).
        pose proof (segment_le (cap_at s) k j i ltac:(lia) ltac:(lia) ltac:(intros; apply Hf; lia) ltac:(lia)).
        rewrite decide_True by lia. apply Hho; [lia|done].
    + intros out [Hlo Hho]. apply wp_ret. split; try done. simpl. destruct need; [done|]. simpl.
      apply vat_ext; [lia|]. intros i Hi. apply Hneed; [done|lia].
Qed.

Lemma open_files s adj files : csr_rows s adj -> files_of s adj files ->
  wp (open files) (fun r => if edge_num_ s =? to_u64 (sumz (row_len adj) (vlen adj))
    then exists s', r = Returned s' /\ csr_rows s' adj /\ edge_num_ s' = edge_num_ s /\ unsorted_since_ s' = unsorted_since_ s
    else r = Thrown).
Proof.
  intros Hrows [Hdeg Hcap Hmeta Hlen Hh]. pose proof Hrows as (Hok & Hv & Hr). pose proof (co_caps _ Hok) as Hcl.
  unfold open. rewrite Hmeta, Hcap, Hdeg. simpl default. unfold vertex_capacity in *. rewrite <-Hv.
  assert (forall i, 0 <= i < vlen adj -> row_len adj i <= cap_at s i <= INT_MAX) as Hle.
  { intros i Hi. rewrite <-(rows_size s) by done. destruct (co_size _ Hok i); [unfold vertex_capacity; lia|]. unfold size_at in *. lia. }
  assert (forall i, 0 <= i < vlen adj -> 0 <= cap_at s i) as Hf
    by (intros i Hi; specialize (Hle i Hi); pose proof (row_len_nonneg adj i); lia).
  apply wp_bind. apply (wp_for_range (fun i '(bufs, sizes, caps, edge_count, offset) =>
    vlen bufs = vlen adj /\ vlen sizes = vlen adj /\ vlen caps = vlen adj /\
    (forall k, 0 <= k < i -> vat sizes k = row_len adj k /\ vat caps k = cap_at s k /\
       vat bufs k = if (vlen (file_nbr files) =? 0) && (sumz (cap_at s) k =? 0) then None else Some (0, sumz (cap_at s) k)) /\
    edge_count = to_u64 (sumz (row_len adj) i) /\ offset = sumz (cap_at s) i)); [apply vlen_nonneg| | |].
  - pose proof (vlen_nonneg adj). split_and!; try (apply vlen_vnew; lia); [lia|done|done].
  - intros i [[[[bufs sizes] caps] cnt] off] Hi (Hb & Hs & Hc & Hk & -> & ->). wstep. wstep; [lia..|]. rewrite (rows_size s adj i) by done.
    wstep. wstep; [lia..|]. fold (cap_at s i). wstep. wstep; [lia..|]. wstep. wstep; [lia..|]. wstep. wstep; [lia..|]. apply wp_ret.
    rewrite !vlen_vput, !sumz_succ by lia. split_and!; try done.
    + intros k Hk'. rewrite !vat_vput by lia. destruct (decide (i = k)) as [->|Hne]; [done|]. apply Hk. lia.
    + apply eqm_add; [apply eqm_u64|done].
  - intros [[[[bufs sizes] caps] cnt] off] (Hb & Hs & Hc & Hk & -> & ->). apply wp_ret. simpl.
    destruct (edge_num_ s =? _); [|done]. eexists. split; [done|]. split; [|done].
    apply (contiguous_rows _ _ (file_nbr files) (cap_at s)); simpl; try done.
    + rewrite Hv. apply Hok.
    + apply Hok.
    + intros i Hi. destruct (Hk i Hi) as (Hks & Hkc & _). unfold size_at, cap_at at 1. simpl. rewrite Hks, Hkc. split_and!; try done; apply Hle; done.
    + intros i Hi. destruct (Hk i Hi) as (_ & _ & Hkb). unfold buf_at. simpl. rewrite Hkb.
      destruct ((vlen (file_nbr files) =? 0) && (sumz (cap_at s) i =? 0)) eqn:E; (split; [|by intros b o [= <- <-]]); [|done].
      intros Hpos. pose proof (segment_le (cap_at s) i 0 (vlen adj) ltac:(lia) ltac:(lia) Hf ltac:(lia)). lia.
Qed.

End files.
