(* ===== verification/NbrView.v ===== *)
(** * Reading neighbours

    [NbrIterator], [GenericView::get_edges] and the typed view of a mutable CSR
    (include/neug/storages/csr/generic_view.h).  A pointer into an adjacency
    list is its index. *)
From S2P Require Import Prelude Storage Aggregate Bitset MutableCsr CsrRows CsrOps CsrLists CsrDelete.
#[local] Open Scope Z_scope.

Section view.
Context {D : Type} `{NbrMemory D}.
Implicit Types s : MutableCsr D.

(** ** The iterator *)

(** [NbrList]: the entries from [start_ptr] to [end_ptr], where an entry is read
    by its index. *)
Record NbrList := NbrLst { nl_load : Z -> option (nbr D); nl_len : Z }.

(** [while (cur != end && get_timestamp() > timestamp) cur += stride]. *)
Fixpoint skip_invisible (fuel : nat) (ld : Z -> option (nbr D)) (cur end_ ts : Z) : option Z :=
  match fuel with
  | O => Some cur
  | S fuel =>
      if cur =? end_ then Some cur
      else x ← ld cur; if ts <? timestamp x then skip_invisible fuel ld (cur + 1) end_ ts else Some cur
  end.

(** [init] and [operator++]; the loop runs at most to [end]. *)
Definition it_init (ld : Z -> option (nbr D)) (start end_ ts : Z) : option Z :=
  skip_invisible (Z.to_nat (end_ - start)) ld start end_ ts.
Definition it_next (ld : Z -> option (nbr D)) (cur end_ ts : Z) : option Z :=
  skip_invisible (Z.to_nat (end_ - (cur + 1))) ld (cur + 1) end_ ts.

(** [for (it = begin(); it != end(); ++it)]: the indices and entries met. *)
Fixpoint iterate (fuel : nat) (ld : Z -> option (nbr D)) (cur end_ ts : Z) : option (list (Z * nbr D)) :=
  match fuel with
  | O => Some []
  | S fuel =>
      if cur =? end_ then Some []
      else
        x ← ld cur;
        next ← it_next ld cur end_ ts;
        rest ← iterate fuel ld next end_ ts;
        Some ((cur, x) :: rest)
  end.

Definition visit (nl : NbrList) (ts : Z) : option (list (Z * nbr D)) :=
  cur ← it_init (nl_load nl) 0 (nl_len nl) ts;
  iterate (Z.to_nat (nl_len nl)) (nl_load nl) cur (nl_len nl) ts.

(** [get_generic_view(ts).get_edges(v)] of a [MutableCsr], and the entries the
    iterator meets in it. *)
Definition nbr_list s (v : Z) : option NbrList :=
  buf ← vget (adj_list_buffer_ s) v;
  deg ← vget (adj_list_size_ s) v;
  Some (NbrLst (load s buf) deg).

Definition get_edges s (v ts : Z) : option (list (nbr D)) :=
  nl ← nbr_list s v; l ← visit nl ts; Some l.*2.

Definition visible (ts : Z) (x : nbr D) : bool := timestamp x <=? ts.

Lemma vlen_cons {A} (x : A) l : vlen (x :: l) = 1 + vlen l.
Proof. unfold vlen. simpl. lia. Qed.

(** The list [k] starts at index [cur]. *)
Definition reads (ld : Z -> option (nbr D)) (cur : Z) (k : list (nbr D)) : Prop :=
  forall j, 0 <= j < vlen k -> ld (cur + j) = Some (vat k j).

Lemma reads_cons ld cur x k : reads ld cur (x :: k) -> ld cur = Some x /\ reads ld (cur + 1) k.
Proof.
  intros Hs. pose proof (vlen_nonneg k). split.
  - specialize (Hs 0). rewrite Z.add_0_r in Hs. rewrite Hs; [done|]. rewrite vlen_cons. lia.
  - intros j Hj. specialize (Hs (j + 1)). rewrite vlen_cons in Hs. replace (cur + 1 + j) with (cur + (j + 1)) by lia.
    rewrite Hs by lia. unfold vat. rewrite Z2Nat.inj_add by lia. rewrite Nat.add_comm. done.
Qed.

(** The entries of [k], which starts at [cur], that are visible at [ts], with
    their indices. *)
Fixpoint indexed (ts cur : Z) (k : list (nbr D)) : list (Z * nbr D) :=
  match k with
  | [] => []
  | x :: k => if visible ts x then (cur, x) :: indexed ts (cur + 1) k else indexed ts (cur + 1) k
  end.

Lemma indexed_snd ts cur k : (indexed ts cur k).*2 = keeps (visible ts) k.
Proof.
  revert cur. induction k as [|x k IH]; intros cur; [done|]. cbn [indexed]. unfold keeps in *. rewrite filter_cons.
  destruct (visible ts x) eqn:E; [rewrite decide_True by done; csimpl; by rewrite IH|by rewrite decide_False by congruence].
Qed.

(** Skipping drops the invisible entries at the front. *)
Lemma skip_invisible_spec ld cur k ts fuel : reads ld cur k -> fuel = length k ->
  exists k', skip_invisible fuel ld cur (cur + vlen k) ts = Some (cur + vlen k - vlen k') /\
    reads ld (cur + vlen k - vlen k') k' /\ indexed ts cur k = indexed ts (cur + vlen k - vlen k') k' /\
    (length k' <= length k)%nat /\ match k' with [] => True | x :: _ => visible ts x = true end.
Proof.
  revert cur k. induction fuel as [|fuel IH]; intros cur k Hs Hf.
  - destruct k; [|done]. exists []. simpl. rewrite !vlen_nil. replace (cur + 0 - 0) with cur by lia. done.
  - destruct k as [|x k]; [done|]. injection Hf as Hf. pose proof (vlen_nonneg k). cbn [skip_invisible]. rewrite vlen_cons.
    rewrite (proj2 (Z.eqb_neq _ _)) by lia. destruct (reads_cons _ _ _ _ Hs) as [-> Hk].
    cbn [mbind option_bind]. destruct (Z.ltb_spec ts (timestamp x)) as [Hlt|Hge].
    + destruct (IH (cur + 1) k Hk Hf) as (k' & Hk1 & Hk2 & Hk3 & Hk4 & Hk5). exists k'.
      replace (cur + (1 + vlen k)) with (cur + 1 + vlen k) by lia. split_and!; try done; [|simpl; lia].
      cbn [indexed]. rewrite <-Hk3. unfold visible. by rewrite (proj2 (Z.leb_gt _ _)).
    + exists (x :: k). rewrite vlen_cons. replace (cur + (1 + vlen k) - (1 + vlen k)) with cur by lia.
      split_and!; try done. unfold visible. lia.
Qed.

Lemma iterate_spec ld cur k ts fuel : reads ld cur k -> (length k <= fuel)%nat ->
  match k with [] => True | x :: _ => visible ts x = true end ->
  iterate fuel ld cur (cur + vlen k) ts = Some (indexed ts cur k).
Proof.
  revert cur k. induction fuel as [|fuel IH]; intros cur k Hs Hf Hvis.
  - destruct k; [done|simpl in Hf; lia].
  - destruct k as [|x k]; [by cbn; rewrite vlen_nil, Z.add_0_r, Z.eqb_refl|]. simpl in Hf. pose proof (vlen_nonneg k).
    cbn [iterate]. rewrite vlen_cons, (proj2 (Z.eqb_neq _ _)) by lia. destruct (reads_cons _ _ _ _ Hs) as [-> Hk].
    cbn [mbind option_bind]. unfold it_next.
    replace (cur + (1 + vlen k)) with (cur + 1 + vlen k) by lia.
    destruct (skip_invisible_spec ld (cur + 1) k ts (Z.to_nat (cur + 1 + vlen k - (cur + 1))) Hk) as (k' & Hk1 & Hk2 & Hk3 & Hk4 & Hk5);
      [unfold vlen; lia|].
    rewrite Hk1. cbn [mbind option_bind].
    pose proof (IH _ k' Hk2 ltac:(lia) Hk5) as Hit. replace (cur + 1 + vlen k - vlen k' + vlen k') with (cur + 1 + vlen k) in Hit by lia.
    rewrite Hit. cbn [mbind option_bind indexed]. by rewrite Hvis, Hk3.
Qed.

(** Iterating over a list of entries meets the visible ones in order. *)
Lemma visit_spec nl k ts : nl_len nl = vlen k -> reads (nl_load nl) 0 k -> visit nl ts = Some (indexed ts 0 k).
Proof.
  intros Hl Hs. unfold visit, it_init. rewrite Hl. pose proof (vlen_nonneg k).
  destruct (skip_invisible_spec (nl_load nl) 0 k ts (Z.to_nat (vlen k - 0)) Hs) as (k' & Hk1 & Hk2 & Hk3 & Hk4 & Hk5);
    [unfold vlen; lia|]. rewrite Z.add_0_l in *. rewrite Hk1. cbn [mbind option_bind].
  pose proof (iterate_spec _ _ k' ts (Z.to_nat (vlen k)) Hk2 ltac:(unfold vlen in *; lia) Hk5) as Hit.
  replace (vlen k - vlen k' + vlen k') with (vlen k) in Hit by lia. by rewrite Hit, Hk3.
Qed.

Lemma nbr_list_row s adj v : csr_rows s adj -> 0 <= v < vlen adj ->
  exists nl, nbr_list s v = Some nl /\ nl_len nl = vlen (vat adj v) /\ reads (nl_load nl) 0 (vat adj v).
Proof.
  intros (Hok & Hv & Hr) Hi. pose proof (co_bufs _ Hok) as Hbl. unfold nbr_list.
  rewrite (vget_Some (adj_list_buffer_ s)), (vget_Some (adj_list_size_ s)) by (unfold vertex_capacity in *; lia). cbn [mbind option_bind].
  fold (buf_at s v) (size_at s v). destruct (Hr v Hi) as [Hl Hc]. eexists. split; [done|]. cbn [nl_len nl_load]. by rewrite Hl.
Qed.

Lemma get_edges_row s adj v ts : csr_rows s adj -> 0 <= v < vlen adj ->
  get_edges s v ts = Some (keeps (visible ts) (vat adj v)).
Proof.
  intros Hrows Hv. destruct (nbr_list_row s adj v Hrows Hv) as (nl & Hn & Hl & Hs). unfold get_edges. rewrite Hn.
  cbn [mbind option_bind]. rewrite (visit_spec _ _ _ Hl Hs). cbn [mbind option_bind]. by rewrite indexed_snd.
Qed.

(** ** The typed view *)

Context (ltb : D -> D -> bool).

Definition call (x : nbr D) : Z * D := (neighbor x, data x).

(** The first loop of [foreach_nbr_gt] and [foreach_nbr_lt]: [k] entries are
    left, [test] is the comparison with the threshold; the calls made and the
    entries left at the [break]. *)
Fixpoint scan_unsorted (k : nat) s (p : ptr) (ts unsorted_since : Z) (test : D -> bool) (calls : list (Z * D)) :
    option (list (Z * D) * nat) :=
  match k with
  | O => Some (calls, O)
  | S k' =>
      x ← load s p (Z.of_nat k');
      if ts <? timestamp x then scan_unsorted k' s p ts unsorted_since test calls
      else if timestamp x <? unsorted_since then Some (calls, k)
      else scan_unsorted k' s p ts unsorted_since test (if test (data x) then calls ++ [call x] else calls)
  end.

Fixpoint scan_sorted_gt (k : nat) s (p : ptr) (threshold : D) (calls : list (Z * D)) : option (list (Z * D)) :=
  match k with
  | O => Some calls
  | S k' =>
      x ← load s p (Z.of_nat k');
      if ltb threshold (data x) then scan_sorted_gt k' s p threshold (calls ++ [call x]) else Some calls
  end.

Definition foreach_nbr_gt s (v : Z) (threshold : D) (ts unsorted_since : Z) : option (list (Z * D)) :=
  p ← vget (adj_list_buffer_ s) v;
  deg ← vget (adj_list_size_ s) v;
  '(calls, k) ← scan_unsorted (Z.to_nat deg) s p ts unsorted_since (ltb threshold) [];
  scan_sorted_gt k s p threshold calls.

(** [std::upper_bound] over the first [n] entries, sorted by [data]: how many
    are not above the threshold. *)
Fixpoint upper_bound (n : nat) s (p : ptr) (i : Z) (threshold : D) : option Z :=
  match n with
  | O => Some i
  | S n => x ← load s p i; if ltb threshold (data x) then Some i else upper_bound n s p (i + 1) threshold
  end.

(** [func] for the entries [k - 1 .. 0]. *)
Fixpoint call_all (k : nat) s (p : ptr) (calls : list (Z * D)) : option (list (Z * D)) :=
  match k with
  | O => Some calls
  | S k' => x ← load s p (Z.of_nat k'); call_all k' s p (calls ++ [call x])
  end.

Definition foreach_nbr_lt s (v : Z) (threshold : D) (ts unsorted_since : Z) : option (list (Z * D)) :=
  p ← vget (adj_list_buffer_ s) v;
  deg ← vget (adj_list_size_ s) v;
  '(calls, k) ← scan_unsorted (Z.to_nat deg) s p ts unsorted_since (fun d => ltb d threshold) [];
  match k with
  | O => Some calls
  | S _ => m ← upper_bound k s p 0 threshold; call_all (Z.to_nat m) s p calls
  end.

(** A row whose front [old] was sorted before [unsorted_since] and has not been
    touched since. *)
Record sorted_front (ts unsorted_since : Z) (old recent : list (nbr D)) : Prop := {
  sf_old x : x ∈ old -> timestamp x <= ts /\ timestamp x < unsorted_since;
  sf_recent x : x ∈ recent -> unsorted_since <= timestamp x;
  sf_sorted t i j : 0 <= i <= j -> j < vlen old -> ltb t (data (vat old i)) = true -> ltb t (data (vat old j)) = true
}.

Lemma scan_unsorted_spec s v old recent ts unsorted_since test calls :
  (forall j, 0 <= j < vlen (old ++ recent) -> cell s v j = Some (vat (old ++ recent) j)) ->
  (forall x, x ∈ old -> timestamp x <= ts /\ timestamp x < unsorted_since) ->
  (forall x, x ∈ recent -> unsorted_since <= timestamp x) ->
  scan_unsorted (length (old ++ recent)) s (buf_at s v) ts unsorted_since test calls =
  Some (calls ++ map call (rev (keeps (fun x => visible ts x && test (data x)) recent)), length old).
Proof.
  revert calls. induction recent as [|x recent IH] using rev_ind; intros calls Hc Hold Hrec.
  - rewrite app_nil_r in Hc |- *. change (map call (rev (keeps _ []))) with (@nil (Z * D)). rewrite app_nil_r. destruct old as [|y old] using rev_ind; [done|]. clear IHold.
    rewrite length_app, Nat.add_comm. cbn [scan_unsorted Nat.add length]. fold (vlen old).
    pose proof (Hc (vlen old)) as Hcy. unfold cell in Hcy. rewrite Hcy by (rewrite vlen_app, vlen_one; unfold vlen; lia). rewrite vat_app by apply vlen_nonneg.
    rewrite decide_False, Z.sub_diag by lia. cbn [mbind option_bind]. destruct (Hold y) as [H1 H2]; [set_solver|].
    change (vat [y] 0) with y. rewrite (proj2 (Z.ltb_ge _ _)), (proj2 (Z.ltb_lt _ _)) by lia. done.
  - rewrite app_assoc, length_app, Nat.add_comm. cbn [scan_unsorted Nat.add length]. rewrite app_assoc in Hc.
    fold (vlen (old ++ recent)).
    pose proof (Hc (vlen (old ++ recent))) as Hcx. unfold cell in Hcx. rewrite Hcx by (rewrite (vlen_app (old ++ recent)), vlen_one; unfold vlen; lia). rewrite vat_app by apply vlen_nonneg.
    rewrite decide_False, Z.sub_diag by lia. change (vat [x] 0) with x. cbn [mbind option_bind].
    pose proof (Hrec x ltac:(set_solver)) as Hx.
    assert (forall j, 0 <= j < vlen (old ++ recent) -> cell s v j = Some (vat (old ++ recent) j)) as Hc'.
    { intros j Hj. rewrite Hc by (rewrite (vlen_app (old ++ recent)), vlen_one; lia). rewrite (vat_app (old ++ recent)) by lia. by rewrite decide_True by lia. }
    assert (forall x, x ∈ recent -> unsorted_since <= timestamp x) as Hrec' by (intros; apply Hrec; set_solver).
    rewrite keeps_snoc. destruct (Z.ltb_spec ts (timestamp x)).
    + assert (visible ts x = false) as -> by (unfold visible; lia). simpl. by apply IH.
    + assert (visible ts x = true) as -> by (unfold visible; lia). rewrite (proj2 (Z.ltb_ge (timestamp x) _)) by lia. simpl. rewrite IH by done.
      destruct (test (data x)); [|done]. by rewrite rev_app_distr, <-app_assoc.
Qed.

Lemma scan_sorted_gt_spec s v old threshold calls :
  (forall j, 0 <= j < vlen old -> cell s v j = Some (vat old j)) ->
  (forall i j, 0 <= i <= j -> j < vlen old -> ltb threshold (data (vat old i)) = true -> ltb threshold (data (vat old j)) = true) ->
  scan_sorted_gt (length old) s (buf_at s v) threshold calls =
  Some (calls ++ map call (rev (keeps (fun x => ltb threshold (data x)) old))).
Proof.
  revert calls. induction old as [|x old IH] using rev_ind; intros calls Hc Hsorted.
  { change (map call (rev (keeps _ []))) with (@nil (Z * D)). by rewrite app_nil_r. }
  rewrite length_app, Nat.add_comm. cbn [scan_sorted_gt Nat.add length]. fold (vlen old).
  pose proof (Hc (vlen old)) as Hcx. unfold cell in Hcx. rewrite Hcx by (rewrite vlen_app, vlen_one; unfold vlen; lia). rewrite vat_app by apply vlen_nonneg.
  rewrite decide_False, Z.sub_diag by lia. change (vat [x] 0) with x. cbn [mbind option_bind]. rewrite keeps_snoc.
  assert (forall j, 0 <= j < vlen old -> vat (old ++ [x]) j = vat old j) as Hv by (intros j Hj; rewrite vat_app by lia; by rewrite decide_True by lia).
  destruct (ltb threshold (data x)) eqn:Ex.
  - rewrite IH.
    + by rewrite rev_app_distr, <-app_assoc.
    + intros j Hj. rewrite Hc, Hv; [done|lia|rewrite vlen_app, vlen_one; lia].
    + intros i j Hi Hj. specialize (Hsorted i j Hi). rewrite !Hv in Hsorted by lia. apply Hsorted. rewrite vlen_app, vlen_one. lia.
  - assert (keeps (fun x => ltb threshold (data x)) old = []) as ->; [|by rewrite app_nil_r].
    apply elem_of_nil_inv. intros y Hy. apply list_elem_of_filter in Hy as [Hty Hy].
    apply list_elem_of_lookup in Hy as [i Hi]. pose proof (lookup_lt_Some _ _ _ Hi) as Hlt.
    specialize (Hsorted (Z.of_nat i) (vlen old)). rewrite Hv in Hsorted by (unfold vlen; lia).
    rewrite (vat_app old [x] (vlen old)), decide_False, Z.sub_diag in Hsorted by (apply vlen_nonneg || lia).
    change (vat [x] 0) with x in Hsorted. rewrite Ex in Hsorted. unfold vat in Hsorted. rewrite Nat2Z.id in Hsorted.
    rewrite (list_lookup_total_correct _ _ _ Hi) in Hsorted. rewrite vlen_app, vlen_one in Hsorted. unfold vlen in Hsorted.
    specialize (Hsorted ltac:(lia) ltac:(lia) Hty). done.
Qed.

Lemma foreach_nbr_gt_row s adj v threshold ts unsorted_since old recent : csr_rows s adj -> 0 <= v < vlen adj ->
  vat adj v = old ++ recent -> sorted_front ts unsorted_since old recent ->
  foreach_nbr_gt s v threshold ts unsorted_since =
  Some (map call (rev (keeps (fun x => visible ts x && ltb threshold (data x)) (vat adj v)))).
Proof.
  intros (Hok & Hv & Hr) Hi Hl [Hold Hrec Hsorted]. pose proof (co_bufs _ Hok) as Hbl. unfold foreach_nbr_gt.
  rewrite (vget_Some (adj_list_buffer_ s)), (vget_Some (adj_list_size_ s)) by (unfold vertex_capacity in *; lia). cbn [mbind option_bind].
  fold (buf_at s v) (size_at s v). destruct (Hr v Hi) as [Hlen Hc]. rewrite <-Hlen, Hl in *. unfold vlen at 1. rewrite Nat2Z.id.
  rewrite scan_unsorted_spec by done. cbn [mbind option_bind]. rewrite scan_sorted_gt_spec.
  - rewrite app_nil_l, <-map_app, <-rev_app_distr. f_equal. f_equal. f_equal. unfold keeps. rewrite filter_app. f_equal.
    apply filter_ext_elem. intros x Hx. destruct (Hold x Hx). unfold visible. rewrite (proj2 (Z.leb_le _ _)) by lia. done.
  - intros j Hj. rewrite Hc by (rewrite vlen_app; pose proof (vlen_nonneg recent); lia). rewrite vat_app by lia. by rewrite decide_True by lia.
  - intros i j. apply Hsorted.
Qed.

End view.

Arguments NbrList D : clear implicits.
Arguments NbrLst {D} _ _.
Arguments nl_load {D} _.
Arguments nl_len {D} _.
