(* ===== verification/SingleCsr.v ===== *)
(** * Single-edge and empty CSRs

    [SingleMutableCsr<EDATA_T>] (include/neug/storages/csr/mutable_csr.h,
    src/storages/csr/mutable_csr.cc) has one entry per vertex, with timestamp
    [INVALID_TIMESTAMP] while there is no edge, and [EmptyCsr] none at all.  The
    operations have the names of [MutableCsr], prefixed.  [single_nbr_list] is
    [None] while [nbr_list_] is the null pointer; a failed CHECK is [None], and
    assertions are disabled. *)
From S2P Require Import Prelude Storage Aggregate Bitset MutableCsr CsrRows.
#[local] Open Scope Z_scope.

Record SingleMutableCsr (D : Type) := Single {
  single_nbr_list : option (list (nbr D));
  single_edge_num : Z
}.
Arguments Single {D} _ _.
Arguments single_nbr_list {D} _.
Arguments single_edge_num {D} _.

Section single.
Context {D : Type} `{NbrMemory D}.
Implicit Types s : SingleMutableCsr D.

Definition with_nbrs (l : list (nbr D)) s : SingleMutableCsr D := Single (Some l) (single_edge_num s).
Definition single_count (d : Z) s : SingleMutableCsr D := Single (single_nbr_list s) (to_u64 (single_edge_num s + d)).

Definition single_capacity s : Z := match single_nbr_list s with Some l => vlen l | None => 0 end.
(** [static_cast<vid_t>(vertex_capacity())]. *)
Definition single_vnum s : Z := to_u32 (single_capacity s).

(** [data[i]] and [data[i] = x]. *)
Definition single_load s (i : Z) : option (nbr D) := l ← single_nbr_list s; vget l i.
Definition single_store s (i : Z) (x : nbr D) : option (SingleMutableCsr D) :=
  l ← single_nbr_list s; l' ← vset l i x; Some (with_nbrs l' s).

(** An operation that returns at once when [nbr_list_] is null. *)
Definition if_open {A} s (m : option (outcome A * SingleMutableCsr D)) (a : A) : option (outcome A * SingleMutableCsr D) :=
  match single_nbr_list s with None => Some (Returned a, s) | Some _ => m end.
Definition when_open s (m : option (SingleMutableCsr D)) : option (SingleMutableCsr D) :=
  match single_nbr_list s with None => Some s | Some _ => m end.

Definition single_put_edge s (src dst : Z) (d : D) (ts : Z) : option (outcome Z * SingleMutableCsr D) :=
  if single_capacity s <=? src then Some (Thrown, s)
  else
    x ← single_load s src;
    if timestamp x =? INVALID_TIMESTAMP then
      s ← single_store s src (Nbr dst ts d); Some (Returned 0, single_count 1 s)
    else None.

Definition single_delete_edge s (src offset ts : Z) : option (outcome unit * SingleMutableCsr D) :=
  if_open s (
    if single_vnum s <=? src then Some (Thrown, s)
    else
      x ← single_load s src;
      if timestamp x <=? ts then
        s ← single_store s src (with_timestamp INVALID_TIMESTAMP x); Some (Returned tt, single_count (-1) s)
      else Some (Returned tt, s)) tt.

Definition single_revert_delete_edge s (src v offset ts : Z) : option (outcome unit * SingleMutableCsr D) :=
  if_open s (
    if (single_vnum s <=? src) || negb (offset =? 0) then Some (Thrown, s)
    else
      x ← single_load s src;
      if negb (neighbor x =? v) then Some (Thrown, s)
      else if timestamp x =? INVALID_TIMESTAMP then
        s ← single_store s src (with_timestamp ts x); Some (Returned tt, single_count 1 s)
      else Some (Thrown, s)) tt.

Definition single_batch_put_edges s (src_list dst_list : list Z) (data_list : list D) (ts : Z) : option (SingleMutableCsr D) :=
  when_open s (
    let vnum := single_vnum s in
    for_range (vlen src_list) s (fun i s =>
      src ← vget src_list i;
      if vnum <=? src then Some s
      else
        dst ← vget dst_list i; d ← vget data_list i;
        s ← single_store s src (Nbr dst ts d);
        Some (single_count 1 s))).

(** Marking entry [src] deleted, and counting it out when it was not. *)
Definition single_kill s (src : Z) : option (SingleMutableCsr D) :=
  x ← single_load s src;
  single_store (if live x then single_count (-1) s else s) src (with_timestamp INVALID_TIMESTAMP x).

Definition single_batch_delete_vertices s (src_set dst_set : gset Z) : option (SingleMutableCsr D) :=
  when_open s (
    let vnum := single_vnum s in
    s ← for_each (std_sort (elements src_set)) s (fun src s => if src <? vnum then single_kill s src else Some s);
    for_range vnum s (fun v s =>
      x ← single_load s v;
      if bool_decide (neighbor x ∈ dst_set) then single_kill s v else Some s)).

Definition single_batch_delete_edges s (src_list dst_list : list Z) : option (SingleMutableCsr D) :=
  when_open s (
    let vnum := single_vnum s in
    for_range (vlen src_list) s (fun i s =>
      src ← vget src_list i;
      dst ← vget dst_list i;
      if vnum <=? src then Some s
      else
        x ← single_load s src;
        if neighbor x =? dst then single_kill s src else Some s)).

(** The overload by offsets does not look whether the entry is deleted. *)
Definition single_batch_delete_offsets s (edges : list (Z * Z)) : option (SingleMutableCsr D) :=
  when_open s (
    let vnum := single_vnum s in
    for_each edges s (fun '(src, _) s =>
      if vnum <=? src then Some s
      else
        x ← single_load s src;
        s ← single_store s src (with_timestamp INVALID_TIMESTAMP x);
        Some (single_count (-1) s))).

Definition single_reset_timestamp s : option (SingleMutableCsr D) :=
  when_open s (
    for_range (single_capacity s) s (fun i s =>
      x ← single_load s i; if live x then single_store s i (with_timestamp 0 x) else Some s)).

(** [nbr_list_->Resize(vnum * sizeof(nbr_t))], then the new entries are marked. *)
Definition single_resize s (vnum : Z) : option (SingleMutableCsr D) :=
  l ← single_nbr_list s;
  let old_vnum := vlen l in
  let s := with_nbrs (take (Z.to_nat vnum) l ++ drop (length l) (uninit <$> seqZ 0 vnum)) s in
  if old_vnum <? vnum then
    for_each (seqZ old_vnum (vnum - old_vnum)) s (fun i s =>
      x ← single_load s i; single_store s i (with_timestamp INVALID_TIMESTAMP x))
  else Some s.

(** The files of [dump]: the counter and the entries. *)
Definition single_dump s : option (Z * list (nbr D)) :=
  match single_nbr_list s with None => None | Some l => Some (single_edge_num s, l) end.
(** [open] of the files; absent ones leave an empty container. *)
Definition single_open (files : option (Z * list (nbr D))) : SingleMutableCsr D :=
  match files with None => Single (Some []) 0 | Some (n, l) => Single (Some l) n end.

(** ** [EmptyCsr] *)

Definition empty_put_edge (e : unit) (src dst : Z) (d : D) (ts : Z) : option (outcome Z * unit) := Some (Returned 0, e).

End single.
