(* ===== verification/CsrEdges.v ===== *)
(** * The edges of adjacency lists

    The live entries of adjacency lists as a list of edges, up to permutation:
    what changing one row, all rows or adding rows does to it, and transposing
    the edges. *)
From S2P Require Import Prelude Storage Aggregate Bitset MutableCsr CsrRows CsrOps CsrLists CsrDelete CsrBatch.
#[local] Open Scope Z_scope.

Section edges.
Context {D : Type} `{NbrMemory D}.
Implicit Types adj : list (list (nbr D)).

(** An edge: its source and the entry. *)
Definition edge : Type := Z * nbr D.

Definition row_edges (i : Z) (l : list (nbr D)) : list edge := pair i <$> keeps live l.
Definition edges adj : list edge := flat_map (fun i => row_edges i (vat adj i)) (seqZ 0 (vlen adj)).

(** The same edge seen from its other end. *)
Definition flip (e : edge) : edge := (neighbor (snd e), Nbr (fst e) (timestamp (snd e)) (data (snd e))).

Lemma flip_flip e : flip (flip e) = e.
Proof. by destruct e as [i []]. Qed.
#[global] Instance flip_inj : Inj (=) (=) flip.
Proof. intros e e' He. by rewrite <-(flip_flip e), He, flip_flip. Qed.

Lemma edges_elem adj i x : (i, x) ∈ edges adj <-> 0 <= i < vlen adj /\ x ∈ vat adj i /\ live x = true.
Proof.
  unfold edges. rewrite (list_elem_of_In (flat_map _ _)), in_flat_map. split.
  - intros (k & Hk & Hx). apply list_elem_of_In in Hk, Hx. apply elem_of_seqZ in Hk. unfold row_edges in Hx.
    apply list_elem_of_fmap in Hx as (y & [= -> ->] & Hy). apply list_elem_of_filter in Hy as [Hl Hy]. split; [lia|done].
  - intros (Hi & Hx & Hl). exists i. rewrite <-!list_elem_of_In, elem_of_seqZ. split; [lia|].
    apply list_elem_of_fmap. exists x. split; [done|]. by apply list_elem_of_filter.
Qed.

(** The edges that do not leave [i]. *)
Definition edges_but adj (i : Z) : list edge :=
  flat_map (fun k => row_edges k (vat adj k)) (filter (fun k => k <> i) (seqZ 0 (vlen adj))).

Lemma flat_map_perm {A B} (f : A -> list B) l k : l ≡ₚ k -> flat_map f l ≡ₚ flat_map f k.
Proof. apply Permutation_flat_map. Qed.

Lemma flat_map_ext_elem {A B} (f g : A -> list B) l : (forall x, x ∈ l -> f x = g x) -> flat_map f l = flat_map g l.
Proof.
  induction l as [|x l IH]; intros Hfg; [done|]. simpl. rewrite (Hfg x) by set_solver. f_equal. apply IH. set_solver.
Qed.

Lemma edges_row adj i : 0 <= i < vlen adj -> edges adj ≡ₚ row_edges i (vat adj i) ++ edges_but adj i.
Proof.
  intros Hi. unfold edges, edges_but.
  assert (seqZ 0 (vlen adj) ≡ₚ i :: filter (fun k => k <> i) (seqZ 0 (vlen adj))) as Hp.
  { apply NoDup_Permutation; [apply NoDup_seqZ|constructor; [|apply NoDup_filter, NoDup_seqZ]|].
    - rewrite list_elem_of_filter. by intros [? _].
    - intros k. rewrite elem_of_cons, list_elem_of_filter, elem_of_seqZ. destruct (decide (k = i)); naive_solver lia. }
  by rewrite (flat_map_perm _ _ _ Hp).
Qed.

Lemma edges_but_vput adj i l : 0 <= i < vlen adj -> edges_but (vput adj i l) i = edges_but adj i.
Proof.
  intros Hi. unfold edges_but. rewrite vlen_vput. apply flat_map_ext_elem. intros k Hk.
  apply list_elem_of_filter in Hk as [Hne Hk]. apply elem_of_seqZ in Hk. by rewrite vat_vput_ne by lia.
Qed.

Lemma edges_vput adj i l : 0 <= i < vlen adj -> edges (vput adj i l) ≡ₚ row_edges i l ++ edges_but adj i.
Proof.
  intros Hi. rewrite (edges_row (vput adj i l) i) by (by rewrite vlen_vput). by rewrite vat_vput_eq, edges_but_vput by done.
Qed.

(** A row with one live entry more. *)
Lemma edges_cons adj i l x : 0 <= i < vlen adj -> keeps live l ≡ₚ x :: keeps live (vat adj i) ->
  edges (vput adj i l) ≡ₚ (i, x) :: edges adj.
Proof.
  intros Hi Hl. rewrite edges_vput, (edges_row adj i) by done. unfold row_edges. by rewrite Hl.
Qed.

Lemma edges_same adj i l : 0 <= i < vlen adj -> keeps live l ≡ₚ keeps live (vat adj i) -> edges (vput adj i l) ≡ₚ edges adj.
Proof. intros Hi Hl. rewrite edges_vput, (edges_row adj i) by done. unfold row_edges. by rewrite Hl. Qed.

(** Replacing entry [j] of a list. *)
Lemma keeps_vput (l : list (nbr D)) j x : 0 <= j < vlen l ->
  exists k, keeps live l ≡ₚ keeps live [vat l j] ++ k /\ keeps live (vput l j x) ≡ₚ keeps live [x] ++ k.
Proof.
  intros Hj. unfold vput, vat, vlen in *. assert (l !! Z.to_nat j = Some (l !!! Z.to_nat j)) as Hl
    by (apply list_lookup_lookup_total_lt; lia).
  exists (keeps live (take (Z.to_nat j) l ++ drop (S (Z.to_nat j)) l)). unfold keeps. split.
  - rewrite <-(take_drop_middle l (Z.to_nat j) (l !!! Z.to_nat j)) at 1 by done.
    rewrite !filter_app, filter_cons, filter_cons, filter_nil. case_decide; simpl; [|done]. by rewrite Permutation_middle.
  - rewrite insert_take_drop by lia. rewrite !filter_app, filter_cons, filter_cons, filter_nil.
    case_decide; simpl; [|done]. by rewrite Permutation_middle.
Qed.

(** Deleting a live entry, and bringing one back. *)
Lemma edges_kill adj i j : 0 <= i < vlen adj -> 0 <= j < vlen (vat adj i) -> live (vat (vat adj i) j) = true ->
  edges adj ≡ₚ (i, vat (vat adj i) j) :: edges (vput adj i (vput (vat adj i) j (kill (vat (vat adj i) j)))).
Proof.
  intros Hi Hj Hl. destruct (keeps_vput (vat adj i) j (kill (vat (vat adj i) j)) Hj) as (k & H1 & H2).
  rewrite edges_vput, (edges_row adj i) by done. unfold row_edges. rewrite H1, H2. unfold keeps.
  rewrite !filter_cons, !filter_nil. rewrite decide_True by done. rewrite decide_False; [done|]. by rewrite live_kill.
Qed.

Lemma edges_revive adj i j x : 0 <= i < vlen adj -> 0 <= j < vlen (vat adj i) -> live (vat (vat adj i) j) = false -> live x = true ->
  edges (vput adj i (vput (vat adj i) j x)) ≡ₚ (i, x) :: edges adj.
Proof.
  intros Hi Hj Hd Hl. apply edges_cons; [done|]. destruct (keeps_vput (vat adj i) j x Hj) as (k & H1 & H2). rewrite H1, H2. unfold keeps.
  rewrite !filter_cons, !filter_nil. rewrite decide_True by done. rewrite decide_False; [done|]. by rewrite Hd.
Qed.

(** All rows are filtered. *)
Lemma edges_filter adj adj' (P : edge -> bool) : vlen adj' = vlen adj ->
  (forall i, 0 <= i < vlen adj -> keeps live (vat adj' i) = filter (fun x => P (i, x) = true) (keeps live (vat adj i))) ->
  edges adj' = filter (fun e => P e = true) (edges adj).
Proof.
  intros Hlen Hrow. unfold edges. rewrite Hlen.
  assert (forall l, (forall i, i ∈ l -> 0 <= i < vlen adj) ->
    flat_map (fun i => row_edges i (vat adj' i)) l = filter (fun e => P e = true) (flat_map (fun i => row_edges i (vat adj i)) l)) as Hgo.
  { induction l as [|i l IH]; intros Hl; [done|]. simpl. rewrite filter_app, <-IH by set_solver. f_equal.
    unfold row_edges. rewrite Hrow by set_solver. generalize (keeps live (vat adj i)). induction l0 as [|x l0 IH0]; [done|].
    csimpl. rewrite !filter_cons. destruct (P (i, x)) eqn:E; [rewrite !decide_True by done; csimpl; by rewrite IH0|].
    rewrite !decide_False by congruence. done. }
  apply Hgo. intros i Hi. apply elem_of_seqZ in Hi. lia.
Qed.

(** All rows are mapped. *)
Lemma edges_map adj adj' (f : nbr D -> nbr D) : vlen adj' = vlen adj ->
  (forall i, 0 <= i < vlen adj -> keeps live (vat adj' i) ≡ₚ f <$> keeps live (vat adj i)) ->
  edges adj' ≡ₚ prod_map id f <$> edges adj.
Proof.
  intros Hlen Hrow. unfold edges. rewrite Hlen.
  assert (forall l, (forall i, i ∈ l -> 0 <= i < vlen adj) ->
    flat_map (fun i => row_edges i (vat adj' i)) l ≡ₚ prod_map id f <$> (flat_map (fun i => row_edges i (vat adj i)) l)) as Hgo.
  { induction l as [|i l IH]; intros Hl; [done|]. simpl. rewrite fmap_app, <-IH by set_solver. f_equiv.
    unfold row_edges. rewrite Hrow by set_solver. by rewrite <-!list_fmap_compose. }
  apply Hgo. intros i Hi. apply elem_of_seqZ in Hi. lia.
Qed.

Lemma edges_app adj ext : (forall l, l ∈ ext -> keeps live l = []) -> edges (adj ++ ext) = edges adj.
Proof.
  intros He. unfold edges. rewrite vlen_app, seqZ_app, flat_map_app by apply vlen_nonneg. pose proof (vlen_nonneg adj).
  rewrite (flat_map_ext_elem _ (fun i => row_edges i (vat adj i)) (seqZ 0 (vlen adj))).
  2: { intros i Hi. apply elem_of_seqZ in Hi. rewrite vat_app by lia. by rewrite decide_True by lia. }
  rewrite (flat_map_ext_elem _ (fun _ => []) (seqZ (0 + vlen adj) (vlen ext))).
  2: { intros i Hi. apply elem_of_seqZ in Hi. rewrite vat_app by lia. rewrite decide_False by lia. unfold row_edges.
       rewrite He; [done|]. apply vat_elem. lia. }
  assert (forall A B (l : list A), flat_map (fun _ => []) l = @nil B) as -> by (induction l; done). apply app_nil_r.
Qed.

Lemma vlen_edges adj : vlen (edges adj) = total_live adj.
Proof.
  unfold edges, total_live, sumz. unfold zsum.
  induction (seqZ 0 (vlen adj)) as [|i l IH]; [done|]. simpl. rewrite vlen_app, IH. f_equal.
  unfold row_edges, lives, keeps, vlen. by rewrite length_fmap.
Qed.

(** The edges a batch adds to a CSR with [n] vertices. *)
Definition new_edges (n : Z) (src_list dst_list : list Z) (data_list : list D) (ts : Z) : list edge :=
  flat_map (fun k => if vat src_list k <? n then [(vat src_list k, Nbr (vat dst_list k) ts (vat data_list k))] else [])
    (seqZ 0 (vlen src_list)).

Lemma edges_put_rows src_list dst_list data_list ts adj : ts <> INVALID_TIMESTAMP -> Forall (fun i => 0 <= i) src_list ->
  edges (put_rows src_list dst_list data_list ts adj (vlen src_list)) ≡ₚ new_edges (vlen adj) src_list dst_list data_list ts ++ edges adj.
Proof.
  intros Hts Hpos. rewrite Forall_forall in Hpos. unfold new_edges.
  assert (forall r, 0 <= r -> r <= vlen src_list -> edges (put_rows src_list dst_list data_list ts adj r) ≡ₚ
    flat_map (fun k => if vat src_list k <? vlen adj then [(vat src_list k, Nbr (vat dst_list k) ts (vat data_list k))] else []) (seqZ 0 r) ++ edges adj) as Hgo.
  { intros r Hr0. apply (natlike_ind (fun r => r <= vlen src_list -> edges (put_rows src_list dst_list data_list ts adj r) ≡ₚ
      flat_map (fun k => if vat src_list k <? vlen adj then [(vat src_list k, Nbr (vat dst_list k) ts (vat data_list k))] else []) (seqZ 0 r) ++ edges adj)); [done| |done].
    intros k Hk IH Hle. change (Z.succ k) with (k + 1) in *. rewrite put_rows_succ, seqZ_snoc, flat_map_app by done.
    specialize (IH ltac:(lia)). unfold put_one. rewrite vlen_put_rows by done. simpl. rewrite app_nil_r.
    assert (0 <= vat src_list k) by (apply Hpos, vat_elem; lia).
    destruct (Z.ltb_spec (vat src_list k) (vlen adj)); [|by rewrite app_nil_r].
    rewrite edges_cons; [rewrite IH|by rewrite vlen_put_rows|].
    - rewrite <-app_assoc. apply Permutation_cons_app. done.
    - rewrite keeps_snoc. unfold live. simpl. rewrite (proj2 (Z.eqb_neq _ _)) by done. simpl. by rewrite Permutation_app_comm. }
  apply Hgo; [apply vlen_nonneg|done].
Qed.

(** [in] holds the edges of [out], seen from the other end. *)
Definition mirrored (out inn : list (list (nbr D))) : Prop := edges inn ≡ₚ flip <$> edges out.

Lemma new_edges_flip n m src_list dst_list data_list ts : vlen src_list = vlen dst_list ->
  Forall (fun i => i < n) src_list -> Forall (fun i => i < m) dst_list ->
  new_edges m dst_list src_list data_list ts = flip <$> new_edges n src_list dst_list data_list ts.
Proof.
  intros Hlen Hs Hd. unfold new_edges. rewrite Hlen. rewrite Forall_forall in Hs, Hd.
  assert (forall l, (forall k, k ∈ l -> 0 <= k < vlen dst_list) ->
    flat_map (fun k => if vat dst_list k <? m then [(vat dst_list k, Nbr (vat src_list k) ts (vat data_list k))] else []) l =
    flip <$> flat_map (fun k => if vat src_list k <? n then [(vat src_list k, Nbr (vat dst_list k) ts (vat data_list k))] else []) l) as Hgo.
  { induction l as [|k l IH]; intros Hl; [done|]. simpl. rewrite fmap_app, <-IH by set_solver.
    assert (0 <= k < vlen dst_list) by (apply Hl; set_solver).
    rewrite (proj2 (Z.ltb_lt _ _)) by (apply Hd, vat_elem; lia). rewrite (proj2 (Z.ltb_lt (vat src_list k) _)); [done|].
    apply Hs, vat_elem. lia. }
  apply Hgo. intros k Hk. apply elem_of_seqZ in Hk. lia.
Qed.
End edges.
