(* ===== verification/CsrInterface.v ===== *)
(** * The interface of a CSR

    [CsrBase] and [TypedCsrBase<EDATA_T>] (include/neug/storages/csr/csr_base.h)
    as a class of operations, implemented by [MutableCsr], [SingleMutableCsr]
    and [EmptyCsr]; [CsrLaws] is what the first two promise an edge table, in
    terms of the multiset of their edges. *)
From S2P Require Import Prelude Storage Aggregate Bitset MutableCsr CsrRows CsrOps CsrLists CsrDelete CsrBatch CsrEdges NbrView SingleCsr.
#[local] Open Scope Z_scope.

(** The virtual methods; [std::sort] is [MutableCsr]'s parameter.  [csr_nbr_list]
    is what [get_generic_view] gives, and [csr_write] stores through the pointer of
    such a view. *)
Class CsrBase (D C : Type) := {
  csr_size : C -> Z;
  csr_edge_num : C -> Z;
  csr_capacity : C -> Z;
  csr_nbr_list : C -> Z -> option (NbrList D);
  csr_put_edge : C -> Z -> Z -> D -> Z -> option (outcome Z * C);
  csr_delete_edge : C -> Z -> Z -> Z -> option (outcome unit * C);
  csr_revert_delete_edge : C -> Z -> Z -> Z -> Z -> option (outcome unit * C);
  csr_batch_put_edges : C -> list Z -> list Z -> list D -> Z -> option C;
  csr_batch_delete_vertices : C -> gset Z -> gset Z -> option C;
  csr_batch_delete_edges : C -> list Z -> list Z -> option C;
  csr_batch_delete_offsets : C -> list (Z * Z) -> option C;
  csr_compact : C -> option (outcome unit * C);
  csr_sort : C -> Z -> option C;
  csr_reset_timestamp : C -> option C;
  csr_resize : C -> Z -> option C;
  csr_write : C -> Z -> Z -> nbr D -> option C
}.

Definition INFINITE_CAPACITY : Z := 2 ^ 64 - 1.

Section instances.
Context {D : Type} `{NbrMemory D} (sort : list (nbr D) -> list (nbr D)).

Definition mutable_base : CsrBase D (MutableCsr D) := {|
  csr_size := vertex_capacity;
  csr_edge_num := edge_num_;
  csr_capacity := fun _ => INFINITE_CAPACITY;
  csr_nbr_list := nbr_list;
  csr_put_edge := put_edge;
  csr_delete_edge := delete_edge;
  csr_revert_delete_edge := revert_delete_edge;
  csr_batch_put_edges := batch_put_edges;
  csr_batch_delete_vertices := batch_delete_vertices;
  csr_batch_delete_edges := batch_delete_edges;
  csr_batch_delete_offsets := batch_delete_offsets;
  csr_compact := compact;
  csr_sort := batch_sort_by_edge_data sort;
  csr_reset_timestamp := reset_timestamp;
  csr_resize := fun s n => Some (resize s n);
  csr_write := fun s v i x => buf ← vget (adj_list_buffer_ s) v; store s buf i x
|}.

Definition single_base : CsrBase D (SingleMutableCsr D) := {|
  csr_size := single_capacity;
  csr_edge_num := single_edge_num;
  csr_capacity := single_capacity;
  csr_nbr_list := fun s v => l ← single_nbr_list s; Some (NbrLst (fun i => vget l (v + i)) 1);
  csr_put_edge := single_put_edge;
  csr_delete_edge := single_delete_edge;
  csr_revert_delete_edge := single_revert_delete_edge;
  csr_batch_put_edges := single_batch_put_edges;
  csr_batch_delete_vertices := single_batch_delete_vertices;
  csr_batch_delete_edges := single_batch_delete_edges;
  csr_batch_delete_offsets := single_batch_delete_offsets;
  csr_compact := fun s => Some (Returned tt, s);
  csr_sort := fun s _ => Some s;
  csr_reset_timestamp := single_reset_timestamp;
  csr_resize := single_resize;
  csr_write := fun s v i x => single_store s (v + i) x
|}.

(** No view: [get_generic_view] aborts. *)
Definition empty_base : CsrBase D unit := {|
  csr_size := fun _ => 0;
  csr_edge_num := fun _ => 0;
  csr_capacity := fun _ => 0;
  csr_nbr_list := fun _ _ => None;
  csr_put_edge := empty_put_edge;
  csr_delete_edge := fun e _ _ _ => Some (Returned tt, e);
  csr_revert_delete_edge := fun e _ _ _ _ => Some (Returned tt, e);
  csr_batch_put_edges := fun e _ _ _ _ => Some e;
  csr_batch_delete_vertices := fun e _ _ => Some e;
  csr_batch_delete_edges := fun e _ _ => Some e;
  csr_batch_delete_offsets := fun e _ => Some e;
  csr_compact := fun e => Some (Returned tt, e);
  csr_sort := fun e _ => Some e;
  csr_reset_timestamp := fun e => Some e;
  csr_resize := fun e _ => Some e;
  csr_write := fun _ _ _ _ => None
|}.
End instances.

(** ** What an edge table relies on *)

(** [models c adj]: the object stands for the rows [adj]; [room]: a row can
    take one more edge; [batch_room]: the rows can take a batch. *)
Class CsrModel (D C : Type) := {
  models : C -> list (list (nbr D)) -> Prop;
  room : list (nbr D) -> Prop;
  batch_room : list (list (nbr D)) -> list Z -> Prop
}.

Definition outside (src_set dst_set : gset Z) (e : Z * Z) : bool :=
  bool_decide (fst e ∉ src_set) && bool_decide (snd e ∉ dst_set).
Definition ends {D} (e : Z * nbr D) : Z * Z := (fst e, neighbor (snd e)).

(** The edge at the position [p] of the rows, and that there is one. *)
Definition entry_edge {D} `{NbrMemory D} (adj : list (list (nbr D))) (p : Z * Z) : Z * nbr D := (fst p, vat (vat adj (fst p)) (snd p)).
Definition live_at {D} `{NbrMemory D} (adj : list (list (nbr D))) (p : Z * Z) : Prop :=
  0 <= fst p < vlen adj /\ 0 <= snd p < vlen (vat adj (fst p)) /\ live (snd (entry_edge adj p)) = true.

Class CsrLaws (D C : Type) `{NbrMemory D, CsrBase D C, CsrModel D C} := {
  law_size c adj : models c adj -> csr_size c = vlen adj /\ vlen adj < 2 ^ 32;
  law_edge_num c adj : models c adj -> csr_edge_num c = to_u64 (vlen (edges adj));
  law_nbr_list c adj v : models c adj -> 0 <= v < vlen adj ->
    exists nl, csr_nbr_list c v = Some nl /\ nl_len nl = vlen (vat adj v) /\ reads (nl_load nl) 0 (vat adj v);
  law_put c adj src dst d ts : models c adj -> 0 <= src < vlen adj -> room (vat adj src) -> ts <> INVALID_TIMESTAMP ->
    wp (csr_put_edge c src dst d ts) (fun r => exists off l, fst r = Returned off /\ models (snd r) (vput adj src l) /\
      0 <= off < vlen l /\ vat l off = Nbr dst ts d /\ keeps live l ≡ₚ Nbr dst ts d :: keeps live (vat adj src));
  law_delete c adj src off ts : models c adj -> 0 <= src < vlen adj -> 0 <= off < vlen (vat adj src) ->
    timestamp (vat (vat adj src) off) <= ts < INVALID_TIMESTAMP ->
    wp (csr_delete_edge c src off ts) (fun r => fst r = Returned tt /\
      models (snd r) (vput adj src (vput (vat adj src) off (kill (vat (vat adj src) off)))));
  law_revert c adj src off ts : models c adj -> 0 <= src < vlen adj -> 0 <= off < vlen (vat adj src) ->
    live (vat (vat adj src) off) = false -> ts <> INVALID_TIMESTAMP ->
    wp (csr_revert_delete_edge c src (neighbor (vat (vat adj src) off)) off ts) (fun r => fst r = Returned tt /\
      models (snd r) (vput adj src (vput (vat adj src) off (with_timestamp ts (vat (vat adj src) off)))));
  law_batch_put c adj src_list dst_list data_list ts : models c adj -> batch_room adj src_list ->
    vlen src_list <= vlen dst_list -> vlen src_list <= vlen data_list -> vlen src_list <= INT_MAX ->
    Forall (fun i => 0 <= i) src_list -> ts <> INVALID_TIMESTAMP ->
    wp (csr_batch_put_edges c src_list dst_list data_list ts) (fun c' => exists adj', models c' adj' /\ vlen adj' = vlen adj /\
      edges adj' ≡ₚ new_edges (vlen adj) src_list dst_list data_list ts ++ edges adj);
  law_delete_vertices c adj src_set dst_set : models c adj -> (forall i, i ∈ src_set -> 0 <= i) ->
    wp (csr_batch_delete_vertices c src_set dst_set) (fun c' => exists adj', models c' adj' /\ vlen adj' = vlen adj /\
      edges adj' = filter (fun e => outside src_set dst_set (ends e) = true) (edges adj));
  law_delete_edges c adj src_list dst_list : models c adj -> vlen src_list <= vlen dst_list -> Forall (fun i => 0 <= i) src_list ->
    (forall i x, 0 <= i < vlen adj -> x ∈ vat adj i -> (i, neighbor x) ∈ zip src_list dst_list -> live x = true) ->
    wp (csr_batch_delete_edges c src_list dst_list) (fun c' => exists adj', models c' adj' /\ vlen adj' = vlen adj /\
      edges adj' = filter (fun e => bool_decide (ends e ∉ zip src_list dst_list) = true) (edges adj));
  law_delete_offsets c adj offsets : models c adj -> NoDup offsets -> (forall p, p ∈ offsets -> live_at adj p) ->
    wp (csr_batch_delete_offsets c offsets) (fun c' => exists adj', models c' adj' /\ vlen adj' = vlen adj /\
      edges adj ≡ₚ (entry_edge adj <$> offsets) ++ edges adj');
  law_compact c adj : models c adj ->
    wp (csr_compact c) (fun r => fst r = Returned tt /\ exists adj', models (snd r) adj' /\ vlen adj' = vlen adj /\ edges adj' = edges adj);
  law_reset c adj : models c adj ->
    wp (csr_reset_timestamp c) (fun c' => exists adj', models c' adj' /\ vlen adj' = vlen adj /\
      edges adj' ≡ₚ prod_map id (with_timestamp 0) <$> edges adj);
  law_sort c adj ts : models c adj ->
    wp (csr_sort c ts) (fun c' => exists adj', models c' adj' /\ vlen adj' = vlen adj /\ edges adj' ≡ₚ edges adj);
  law_resize c adj n : models c adj -> vlen adj <= n < 2 ^ 32 ->
    wp (csr_resize c n) (fun c' => exists ext, models c' (adj ++ ext) /\ vlen (adj ++ ext) = n /\ forall l, l ∈ ext -> keeps live l = []);
  law_write c adj v i x : models c adj -> 0 <= v < vlen adj -> 0 <= i < vlen (vat adj v) -> live x = live (vat (vat adj v) i) ->
    wp (csr_write c v i x) (fun c' => models c' (vput adj v (vput (vat adj v) i x)))
}.
