(* ===== verification/CsrSpec.v ===== *)
(** * Mutable CSR: abstract operations

    The calls on a [MutableCsr] as one type, the same calls on plain adjacency
    lists, and that each of the first agrees with the second. *)
From S2P Require Import Prelude Storage Aggregate Bitset MutableCsr CsrRows CsrOps CsrLists CsrDelete CsrBatch NbrView.
#[local] Open Scope Z_scope.

Inductive csr_op (D : Type) :=
| CPut (src dst : Z) (d : D) (ts : Z)
| CDelete (src offset ts : Z)
| CRevert (src v offset ts : Z)
| CBatchPut (src_list dst_list : list Z) (data_list : list D) (ts : Z)
| CDeleteVertices (src_set dst_set : gset Z)
| CDeleteEdges (src_list dst_list : list Z)
| CDeleteOffsets (edges : list (Z * Z))
| CCompact
| CReset
| CResize (n : Z)
| CSort (ts : Z)
| CExport
| CEdges (v ts : Z)
| CCount.
Arguments CPut {D}.
Arguments CDelete {D}.
Arguments CRevert {D}.
Arguments CBatchPut {D}.
Arguments CDeleteVertices {D}.
Arguments CDeleteEdges {D}.
Arguments CDeleteOffsets {D}.
Arguments CCompact {D}.
Arguments CReset {D}.
Arguments CResize {D}.
Arguments CSort {D}.
Arguments CExport {D}.
Arguments CEdges {D}.
Arguments CCount {D}.

Inductive csr_out (D : Type) :=
| RDone
| RThrown
| RIndex (i : Z)
| RLists (l : list Z * list Z * list D)
| REdges (l : list (nbr D))
| RCount (n : Z).
Arguments RDone {D}.
Arguments RThrown {D}.
Arguments RIndex {D}.
Arguments RLists {D}.
Arguments REdges {D}.
Arguments RCount {D}.

Section spec.
Context {D : Type} `{NbrMemory D} (sort : list (nbr D) -> list (nbr D)).
Implicit Types s : MutableCsr D.

Definition done_or {A} (f : A -> csr_out D) (r : outcome A) : csr_out D :=
  match r with Returned a => f a | Thrown => RThrown end.

Definition csr_exec (op : csr_op D) s : option (csr_out D * MutableCsr D) :=
  match op with
  | CPut src dst d ts => r ← put_edge s src dst d ts; Some (done_or RIndex (fst r), snd r)
  | CDelete src offset ts => r ← delete_edge s src offset ts; Some (done_or (fun _ => RDone) (fst r), snd r)
  | CRevert src v offset ts => r ← revert_delete_edge s src v offset ts; Some (done_or (fun _ => RDone) (fst r), snd r)
  | CBatchPut src_list dst_list data_list ts => s ← batch_put_edges s src_list dst_list data_list ts; Some (RDone, s)
  | CDeleteVertices src_set dst_set => s ← batch_delete_vertices s src_set dst_set; Some (RDone, s)
  | CDeleteEdges src_list dst_list => s ← batch_delete_edges s src_list dst_list; Some (RDone, s)
  | CDeleteOffsets edges => s ← batch_delete_offsets s edges; Some (RDone, s)
  | CCompact => r ← compact s; Some (done_or (fun _ => RDone) (fst r), snd r)
  | CReset => s ← reset_timestamp s; Some (RDone, s)
  | CResize n => Some (RDone, resize s n)
  | CSort ts => s ← batch_sort_by_edge_data sort s ts; Some (RDone, s)
  | CExport => l ← batch_export s; Some (RLists l, s)
  | CEdges v ts => l ← get_edges s v ts; Some (REdges l, s)
  | CCount => Some (RCount (edge_num_ s), s)
  end.

(** Entry [offset] of row [src], when there is one. *)
Definition entry_at (adj : list (list (nbr D))) (src offset : Z) : option (nbr D) :=
  l ← vget adj src; vget l offset.

Definition set_entry (adj : list (list (nbr D))) (src offset : Z) (x : nbr D) : list (list (nbr D)) :=
  vput adj src (vput (vat adj src) offset x).

Definition nonneg (l : list Z) : bool := forallb (fun i => 0 <=? i) l.
Definition dead_pair (src_list dst_list : list Z) (adj : list (list (nbr D))) : bool :=
  existsb (fun i => existsb (fun x => pair_mem src_list dst_list i (neighbor x) && negb (live x)) (vat adj i)) (seqZ 0 (vlen adj)).

(** The same operations on adjacency lists; [None] outside their contract:
    indices are not negative, a timestamp is not the deletion mark, the lists of
    a batch are as long as its sources, lists stay below [2 ^ 30] entries,
    [batch_delete_edges] meets no entry that is deleted already, and [resize]
    cuts no live edge off.  The code counts a deleted entry out again and goes on
    counting the edges it cuts off, which no counter of live entries can follow. *)
Definition adj_exec (op : csr_op D) (adj : list (list (nbr D))) : option (csr_out D * list (list (nbr D))) :=
  match op with
  | CPut src dst d ts =>
      if (0 <=? src) && negb (ts =? INVALID_TIMESTAMP) then
        if vlen adj <=? src then Some (RThrown, adj)
        else
          let l := vat adj src in
          if vlen l <? 2 ^ 30 then Some (RIndex (vlen l), vput adj src (l ++ [Nbr dst ts d])) else None
      else None
  | CDelete src offset ts =>
      if (0 <=? src) && (0 <=? offset) && (ts <? INVALID_TIMESTAMP) then
        Some match entry_at adj src offset with
             | None => (RThrown, adj)
             | Some x => (RDone, if timestamp x <=? ts then set_entry adj src offset (kill x) else adj)
             end
      else None
  | CRevert src v offset ts =>
      if (0 <=? src) && (0 <=? offset) && negb (ts =? INVALID_TIMESTAMP) then
        Some match entry_at adj src offset with
             | None => (RThrown, adj)
             | Some x => if (neighbor x =? v) && negb (live x) then (RDone, set_entry adj src offset (with_timestamp ts x))
                         else (RThrown, adj)
             end
      else None
  | CBatchPut src_list dst_list data_list ts =>
      if nonneg src_list && (vlen src_list <=? vlen dst_list) && (vlen src_list <=? vlen data_list) && (vlen src_list <=? INT_MAX) &&
         negb (ts =? INVALID_TIMESTAMP) &&
         forallb (fun i => 2 * (occ src_list i + row_len adj i) <=? INT_MAX) (seqZ 0 (vlen adj))
      then Some (RDone, put_rows src_list dst_list data_list ts adj (vlen src_list)) else None
  | CDeleteVertices src_set dst_set =>
      if bool_decide (set_Forall (fun i => 0 <= i) src_set) then Some (RDone, map_rows (drop_vertices src_set dst_set) adj) else None
  | CDeleteEdges src_list dst_list =>
      if nonneg src_list && (vlen src_list <=? vlen dst_list) && negb (dead_pair src_list dst_list adj) then
        Some (RDone, map_rows (kill_pairs src_list dst_list) adj) else None
  | CDeleteOffsets edges =>
      if forallb (fun e => (0 <=? fst e) && (0 <=? snd e)) edges then Some (RDone, map_rows (kill_offsets edges) adj) else None
  | CCompact => Some (RDone, map (keeps live) adj)
  | CReset => Some (RDone, map (map reset_nbr) adj)
  | CResize n =>
      if (0 <=? n) && (n <? 2 ^ 32) && (total_live (drop (Z.to_nat n) adj) =? 0) then
        Some (RDone, if vlen adj <? n then adj ++ vnew (n - vlen adj) [] else take (Z.to_nat n) adj) else None
  | CSort ts => Some (RDone, map sort adj)
  | CExport => Some (RLists (split3 (export_rows adj (vlen adj))), adj)
  | CEdges v ts => if (0 <=? v) && (v <? vlen adj) then Some (REdges (keeps (visible ts) (vat adj v)), adj) else None
  | CCount => Some (RCount (to_u64 (total_live adj)), adj)
  end.

Fixpoint csr_run (ops : list (csr_op D)) s : option (list (csr_out D) * MutableCsr D) :=
  match ops with
  | [] => Some ([], s)
  | op :: ops => '(out, s) ← csr_exec op s; '(outs, s) ← csr_run ops s; Some (out :: outs, s)
  end.

Fixpoint adj_run (ops : list (csr_op D)) (adj : list (list (nbr D))) : option (list (csr_out D) * list (list (nbr D))) :=
  match ops with
  | [] => Some ([], adj)
  | op :: ops => '(out, adj) ← adj_exec op adj; '(outs, adj) ← adj_run ops adj; Some (out :: outs, adj)
  end.

(** ** Counting *)

Lemma nonneg_spec l : nonneg l = true -> Forall (fun i => 0 <= i) l.
Proof. unfold nonneg. rewrite forallb_forall, Forall_forall. intros Hl x Hx. apply Z.leb_le, Hl. by apply list_elem_of_In. Qed.

Lemma total_live_ext (adj adj' : list (list (nbr D))) : vlen adj' = vlen adj ->
  (forall i, 0 <= i < vlen adj -> lives (vat adj' i) = lives (vat adj i)) -> total_live adj' = total_live adj.
Proof. intros Hlen Hl. unfold total_live. rewrite Hlen. by apply sumz_ext. Qed.

Lemma lives_perm (l k : list (nbr D)) : l ≡ₚ k -> lives l = lives k.
Proof. intros Hp. unfold lives, vlen. by rewrite Hp. Qed.

Lemma lives_keeps_live (l : list (nbr D)) : lives (keeps live l) = lives l /\ lives l = vlen (keeps live l).
Proof.
  split; [|done]. unfold lives, keeps. f_equal. apply filter_id. intros x Hx. by apply list_elem_of_filter in Hx as [? _].
Qed.

Lemma live_reset (x : nbr D) : live (reset_nbr x) = live x.
Proof. unfold reset_nbr. destruct (live x) eqn:E; [done|done]. Qed.

(** The entries of row [i] that match and are deleted already. *)
Definition dead_matched (src_list dst_list : list Z) (i : Z) (l : list (nbr D)) : Z :=
  count_if (fun x => pair_mem src_list dst_list i (neighbor x) && negb (live x)) l.

Lemma lives_kill_pairs src_list dst_list i (l : list (nbr D)) :
  lives (kill_pairs src_list dst_list i l) - lives l = - matched src_list dst_list i l + dead_matched src_list dst_list i l.
Proof.
  unfold matched, dead_matched, count_if, kill_pairs. induction l as [|x l IH]; [done|]. cbn [map].
  rewrite !lives_cons, !filter_cons. unfold kill_if in *. destruct (pair_mem _ _ i (neighbor x)), (live x);
    cbn [andb negb]; repeat case_decide; try congruence; rewrite ?vlen_cons, ?live_kill; cbn [ind]; lia.
Qed.

Lemma kill_pairs_total src_list dst_list (adj : list (list (nbr D))) :
  sumz (fun i => - matched src_list dst_list i (vat adj i)) (vlen adj) =
  total_live (map_rows (kill_pairs src_list dst_list) adj) - total_live adj -
  sumz (fun i => dead_matched src_list dst_list i (vat adj i)) (vlen adj).
Proof.
  rewrite <-sumz_lives by apply vlen_map_rows.
  rewrite (sumz_ext (fun i => lives (vat (map_rows _ adj) i) - _)
    (fun i => - matched src_list dst_list i (vat adj i) + dead_matched src_list dst_list i (vat adj i))).
  - rewrite sumz_plus. lia.
  - intros i Hi. rewrite vat_map_rows by done. apply lives_kill_pairs.
Qed.

Lemma entry_range s adj src offset : csr_rows s adj -> 0 <= src -> 0 <= offset -> entry_at adj src offset = None ->
  forall v ts, delete_edge s src offset ts = Some (Thrown, s) /\ revert_delete_edge s src v offset ts = Some (Thrown, s).
Proof.
  intros (Hok & Hv & Hr) Hs Ho He v ts. unfold entry_at in He. destruct (decide (src < vlen adj)).
  - rewrite vget_Some in He by lia. cbn [mbind option_bind] in He. destruct (decide (offset < vlen (vat adj src))).
    + by rewrite vget_Some in He by lia.
    + apply (edge_range s src (vat adj src)); [done|lia|apply Hr; lia|lia].
  - apply vertex_range; [done|lia].
Qed.

Lemma entry_some (adj : list (list (nbr D))) src offset x : entry_at adj src offset = Some x ->
  0 <= src < vlen adj /\ 0 <= offset < vlen (vat adj src) /\ x = vat (vat adj src) offset.
Proof.
  unfold entry_at. destruct (vget adj src) as [l|] eqn:El; [|done]. cbn [mbind option_bind]. intros Hx.
  apply vget_inv in El as [Hs <-]. apply vget_inv in Hx as [Ho <-]. done.
Qed.

(** ** Each operation *)

Definition agrees (op : csr_op D) : Prop := forall s adj out adj',
  csr_rel s adj -> adj_exec op adj = Some (out, adj') -> wp (csr_exec op s) (fun r => fst r = out /\ csr_rel (snd r) adj').

Ltac peel Hx := match type of Hx with (if ?b then _ else _) = Some _ => let E := fresh "G" in destruct b eqn:E; [|done] end.

Lemma agrees_put src dst d ts : agrees (CPut src dst d ts).
Proof.
  intros s adj out adj' Hrel Hx. pose proof Hrel as [(Hok & Hv & Hr) Hc]. cbn [adj_exec csr_exec] in *. peel Hx.
  destruct (Z.leb_spec (vlen adj) src) as [Hle|Hlt].
  - injection Hx as <- <-. rewrite put_edge_range by lia. by wsteps.
  - peel Hx. injection Hx as <- <-. pose proof (vlen_nonneg (vat adj src)). pose proof (Z.div_le_upper_bound (vlen (vat adj src)) 2 (2 ^ 29) ltac:(lia)).
    apply wp_bind. eapply wp_mono; [apply (put_edge_step s src (vat adj src)); [done|lia|apply Hr; lia|unfold INT_MAX; lia]|].
    intros [r s'] [Hres Hstep]. simpl in *. subst r. apply wp_ret. split; [done|].
    eapply (rel_step s s' adj src _ 1); [done|lia|done|]. rewrite lives_app, lives_cons, lives_nil. unfold live. cbn [timestamp].
    destruct (Z.eqb_spec ts INVALID_TIMESTAMP); [lia|]. apply eqm_eq. simpl. lia.
Qed.

Lemma agrees_delete src offset ts : agrees (CDelete src offset ts).
Proof.
  intros s adj out adj' Hrel Hx. pose proof Hrel as [Hrows Hc]. pose proof Hrows as (Hok & Hv & Hr). cbn [adj_exec csr_exec] in *. peel Hx.
  destruct (entry_at adj src offset) as [x|] eqn:Ee; injection Hx as <- <-.
  - apply entry_some in Ee as (Hs & Ho & ->). apply wp_bind.
    eapply wp_mono; [apply (delete_edge_step s src (vat adj src)); [done|lia|by apply Hr|done]|].
    intros [r s'] [Hres Hstep]. simpl in *. subst r. apply wp_ret. split; [done|]. simpl.
    destruct (Z.leb_spec (timestamp (vat (vat adj src) offset)) ts); [|by subst].
    eapply (rel_step s s' adj src _ (-1)); [done|lia|done|]. rewrite lives_vput, live_kill by done.
    unfold live. destruct (Z.eqb_spec (timestamp (vat (vat adj src) offset)) INVALID_TIMESTAMP); [lia|]. apply eqm_eq. simpl. lia.
  - destruct (entry_range s adj src offset Hrows ltac:(lia) ltac:(lia) Ee 0 ts) as [-> _]. by wsteps.
Qed.

Lemma agrees_revert src v offset ts : agrees (CRevert src v offset ts).
Proof.
  intros s adj out adj' Hrel Hx. pose proof Hrel as [Hrows Hc]. pose proof Hrows as (Hok & Hv & Hr). cbn [adj_exec csr_exec] in *. peel Hx.
  destruct (entry_at adj src offset) as [x|] eqn:Ee.
  - apply entry_some in Ee as (Hs & Ho & ->). apply wp_bind.
    eapply wp_mono; [apply (revert_delete_edge_step s src (vat adj src) v offset ts); [done|lia|by apply Hr|done]|].
    intros [r s'] Hstep. apply wp_ret. simpl in *.
    destruct ((neighbor (vat (vat adj src) offset) =? v) && negb (live (vat (vat adj src) offset))) eqn:Em.
    + destruct Hstep as [-> Hstep]. injection Hx as <- <-. split; [done|].
      eapply (rel_step s s' adj src _ 1); [done|lia|done|]. rewrite lives_vput by done. apply andb_prop in Em as [_ Em].
      apply negb_true_iff in Em. rewrite Em. unfold live. cbn [timestamp with_timestamp].
      destruct (Z.eqb_spec ts INVALID_TIMESTAMP); [lia|]. apply eqm_eq. simpl. lia.
    + injection Hstep as -> ->. injection Hx as <- <-. done.
  - injection Hx as <- <-. destruct (entry_range s adj src offset Hrows ltac:(lia) ltac:(lia) Ee v ts) as [_ ->]. by wsteps.
Qed.

Lemma agrees_batch_put src_list dst_list data_list ts : agrees (CBatchPut src_list dst_list data_list ts).
Proof.
  intros s adj out adj' [Hrows Hc] Hx. cbn [adj_exec csr_exec] in *. peel Hx. injection Hx as <- <-.
  rewrite !andb_true_iff, forallb_forall in G. destruct G as [[[[[Hn Hd] Ha] Hm] Hts] Hcap]. apply nonneg_spec in Hn.
  apply wp_bind. eapply wp_mono; [apply (batch_put_edges_rows s adj); [done|lia|lia|done|lia|]|].
  { intros i Hi. apply Z.leb_le, Hcap, list_elem_of_In, elem_of_seqZ. lia. }
  intros s' (Hrows' & _ & He). apply wp_ret. split; [done|]. split; [done|].
  rewrite He, Hc, put_rows_live by (done || lia). done.
Qed.

Lemma agrees_delete_vertices src_set dst_set : agrees (CDeleteVertices src_set dst_set).
Proof.
  intros s adj out adj' [Hrows Hc] Hx. cbn [adj_exec csr_exec] in *. peel Hx. injection Hx as <- <-. apply bool_decide_eq_true in G.
  apply wp_bind. eapply wp_mono; [by apply (batch_delete_vertices_rows s adj)|]. intros s' (Hrows' & _ & He). apply wp_ret.
  split; [done|]. split; [done|]. rewrite He, Hc. apply eqm_eq. lia.
Qed.

Lemma agrees_delete_edges src_list dst_list : agrees (CDeleteEdges src_list dst_list).
Proof.
  intros s adj out adj' [Hrows Hc] Hx. cbn [adj_exec csr_exec] in *. peel Hx. injection Hx as <- <-.
  rewrite !andb_true_iff, negb_true_iff in G. destruct G as [[Hn Hd] Hdead]. apply nonneg_spec in Hn.
  apply wp_bind. eapply wp_mono; [apply (batch_delete_edges_rows s adj); [done|lia|done]|]. intros s' (Hrows' & _ & He). apply wp_ret.
  split; [done|]. split; [done|]. rewrite He, Hc, kill_pairs_total.
  assert (sumz (fun i => dead_matched src_list dst_list i (vat adj i)) (vlen adj) = sumz (fun _ => 0) (vlen adj)) as ->.
  2:{ rewrite sumz_const by apply vlen_nonneg. apply eqm_eq. lia. }
  apply sumz_ext. intros i Hi. unfold dead_matched, count_if. rewrite <-not_true_iff_false in Hdead.
  destruct (filter _ (vat adj i)) as [|x l] eqn:Ef; [done|]. destruct Hdead.
  assert (x ∈ x :: l) as Hx by left. rewrite <-Ef in Hx. apply list_elem_of_filter in Hx as [Hx Hin].
  apply existsb_exists. exists i. split; [apply list_elem_of_In, elem_of_seqZ; lia|].
  apply existsb_exists. exists x. split; [by apply list_elem_of_In|done].
Qed.

Lemma agrees_delete_offsets edges : agrees (CDeleteOffsets edges).
Proof.
  intros s adj out adj' [Hrows Hc] Hx. cbn [adj_exec csr_exec] in *. peel Hx. injection Hx as <- <-. rewrite forallb_forall in G.
  apply wp_bind. eapply wp_mono; [apply (batch_delete_offsets_rows s adj); [done|]|].
  { apply Forall_forall. intros e He. specialize (G e (proj1 (list_elem_of_In _ _) He)). lia. }
  intros s' (Hrows' & _ & He). apply wp_ret. split; [done|]. split; [done|]. rewrite He, Hc. apply eqm_eq. lia.
Qed.

Lemma compact_rel s adj : csr_rel s adj -> wp (compact s) (fun r => fst r = Returned tt /\
  csr_rel (snd r) (map (keeps live) adj) /\ edge_num_ (snd r) = edge_num_ s /\ unsorted_since_ (snd r) = unsorted_since_ s).
Proof.
  intros [Hrows Hc]. eapply wp_mono; [by apply compact_rows|]. intros [r s'] (Hrows' & He & Hu & Hres). simpl in *.
  fold (total_live adj) in Hres. rewrite <-(eqm_range _ _ (co_count _ (proj1 Hrows)) Hc), Z.eqb_refl in Hres.
  split_and!; [done| |done|done]. split; [done|]. rewrite He, Hc. apply eqm_eq. symmetry. apply total_live_ext; [apply vlen_map|].
  intros i Hi. rewrite vat_map by done. apply lives_keeps_live.
Qed.

Lemma agrees_compact : agrees CCompact.
Proof.
  intros s adj out adj' Hrel Hx. injection Hx as <- <-. cbn [csr_exec]. apply wp_bind.
  eapply wp_mono; [by apply compact_rel|]. intros [r s'] (Hr & Hrel' & _). simpl in *. subst r. by apply wp_ret.
Qed.

Lemma agrees_reset : agrees CReset.
Proof.
  intros s adj out adj' [Hrows Hc] Hx. injection Hx as <- <-. cbn [csr_exec]. apply wp_bind.
  eapply wp_mono; [by apply reset_timestamp_rows|]. intros s' (Hrows' & He). apply wp_ret. split; [done|]. split; [done|].
  simpl. rewrite He, Hc. apply eqm_eq. symmetry. apply total_live_ext; [apply vlen_map|].
  intros i Hi. rewrite vat_map by done. apply lives_map. intros. apply live_reset.
Qed.

Lemma agrees_resize n : agrees (CResize n).
Proof.
  intros s adj out adj' [Hrows Hc] Hx. cbn [adj_exec csr_exec] in *. peel Hx. injection Hx as <- <-. apply wp_ret.
  destruct (resize_rows s adj n Hrows ltac:(lia)) as [Hrows' He]. split; [done|]. split; [done|]. simpl. rewrite He, Hc. apply eqm_eq.
  unfold total_live in *. destruct (Z.ltb_spec (vlen adj) n).
  - rewrite vlen_app, vlen_vnew by lia. rewrite (sumz_split (fun i => lives (vat (adj ++ vnew (n - vlen adj) []) i)) (vlen adj)) by (pose proof (vlen_nonneg adj); lia).
    rewrite (sumz_ext (fun i => lives (vat (adj ++ _) i)) (fun i => lives (vat adj i)))
      by (intros; rewrite vat_app by lia; by rewrite decide_True by lia).
    rewrite (sumz_ext (fun i => lives (vat (adj ++ _) _)) (fun _ => 0)), sumz_const; [lia|lia|].
    intros i Hi. pose proof (vlen_nonneg adj). rewrite vat_app, decide_False, vat_vnew by lia. done.
  - rewrite vlen_take by lia. rewrite (sumz_split _ n (vlen adj)) by lia. rewrite vlen_drop in G by lia.
    rewrite (sumz_ext (fun i => lives (vat (drop _ adj) i)) (fun i => lives (vat adj (n + i)))) in G by (intros; by rewrite vat_drop by lia).
    rewrite (sumz_ext (fun i => lives (vat (take _ adj) i)) (fun i => lives (vat adj i))) by (intros; by rewrite vat_take by lia). lia.
Qed.

Lemma agrees_sort ts : (forall l, sort l ≡ₚ l) -> agrees (CSort ts).
Proof.
  intros Hperm s adj out adj' [Hrows Hc] Hx. injection Hx as <- <-. cbn [csr_exec]. apply wp_bind.
  eapply wp_mono; [by apply batch_sort_rows|]. intros s' (Hrows' & _ & He). apply wp_ret. split; [done|]. split; [done|].
  simpl. rewrite He, Hc. apply eqm_eq. symmetry. apply total_live_ext; [apply vlen_map|].
  intros i Hi. rewrite vat_map by done. by apply lives_perm.
Qed.

Lemma agrees_reads (op : csr_op D) : match op with CExport | CEdges _ _ | CCount => True | _ => False end -> agrees op.
Proof.
  intros Hop s adj out adj' Hrel Hx. pose proof Hrel as [Hrows Hc]. destruct op; try done; cbn [adj_exec csr_exec] in *.
  - injection Hx as <- <-. rewrite (batch_export_rows s adj) by done. by wsteps.
  - peel Hx. injection Hx as <- <-. rewrite (get_edges_row s adj) by (done || lia). by wsteps.
  - injection Hx as <- <-. apply wp_ret. split; [|done]. simpl. by rewrite <-(eqm_range _ _ (co_count _ (proj1 Hrows)) Hc).
Qed.

Lemma agrees_all op : (forall l, sort l ≡ₚ l) -> agrees op.
Proof.
  intros Hperm. destruct op; [apply agrees_put|apply agrees_delete|apply agrees_revert|apply agrees_batch_put|apply agrees_delete_vertices|
    apply agrees_delete_edges|apply agrees_delete_offsets|apply agrees_compact|apply agrees_reset|apply agrees_resize|
    by apply agrees_sort|by apply agrees_reads..].
Qed.

Lemma csr_run_rel ops s adj outs adj' : (forall l, sort l ≡ₚ l) -> csr_rel s adj -> adj_run ops adj = Some (outs, adj') ->
  wp (csr_run ops s) (fun r => fst r = outs /\ csr_rel (snd r) adj').
Proof.
  intros Hperm. revert s adj outs. induction ops as [|op ops IH]; intros s adj outs Hrel Hrun; cbn [csr_run adj_run] in *;
    [by injection Hrun as <- <-|].
  destruct (adj_exec op adj) as [[out adj1]|] eqn:E; [|done]. cbn [mbind option_bind] in Hrun.
  destruct (adj_run ops adj1) as [[outs1 adj2]|] eqn:E'; [|done]. injection Hrun as <- <-.
  apply wp_bind. eapply wp_mono; [by eapply agrees_all|]. intros [o s1] [Ho Hs1]. simpl in Ho, Hs1.
  apply wp_bind. eapply wp_mono; [by eapply IH|]. intros [os s2] [Hos Hs2]. simpl in Hos, Hs2. subst o os. by apply wp_ret.
Qed.

End spec.
