(* ===== verification/CsrInstances.v ===== *)
(** * The CSRs as implementations of the interface

    [MutableCsr] and [SingleMutableCsr] have the laws of [CsrLaws]. *)
From S2P Require Import Prelude Storage Aggregate Bitset MutableCsr CsrRows CsrOps CsrLists CsrDelete CsrBatch NbrView.
From S2P Require Import SingleCsr CsrEdges CsrInterface CsrSpec.
#[local] Open Scope Z_scope.

(** ** Deletion by offset *)

Section offsets.
Context {D : Type} `{NbrMemory D}.
Implicit Types adj : list (list (nbr D)).

Definition kill_at adj (p : Z * Z) : list (list (nbr D)) := vput adj (fst p) (vput (vat adj (fst p)) (snd p) (kill (snd (entry_edge adj p)))).
Definition kill_all (offsets : list (Z * Z)) adj : list (list (nbr D)) := map_rows (kill_offsets offsets) adj.

Lemma kill_all_nil adj : kill_all [] adj = adj.
Proof.
  apply vat_ext; [apply vlen_map_rows|]. unfold kill_all. intros i Hi. rewrite vlen_map_rows in Hi. rewrite vat_map_rows by done.
  apply kill_offsets_id. intros j _. apply not_elem_of_nil.
Qed.

Lemma kill_all_row offsets adj i : 0 <= i < vlen adj -> vat (kill_all offsets adj) i = kill_offsets offsets i (vat adj i).
Proof. intros Hi. unfold kill_all. by rewrite vat_map_rows. Qed.

(** An entry that is not among the offsets is left as it is. *)
Lemma kill_all_other offsets adj p : live_at adj p -> p ∉ offsets ->
  live_at (kill_all offsets adj) p /\ entry_edge (kill_all offsets adj) p = entry_edge adj p.
Proof.
  intros (Hv & Ho & Hl) Hp. unfold live_at, entry_edge in *. rewrite kill_all_row, vlen_kill_offsets by done. unfold kill_all. rewrite vlen_map_rows.
  rewrite vat_kill_offsets by done. rewrite bool_decide_eq_false_2 by (destruct p; done). done.
Qed.

Lemma kill_all_snoc offsets adj p : live_at adj p -> p ∉ offsets -> kill_all (offsets ++ [p]) adj = kill_at (kill_all offsets adj) p.
Proof.
  intros Hl Hp. destruct (kill_all_other offsets adj p Hl Hp) as [_ He]. destruct p as [v o]. unfold kill_at. rewrite He. destruct Hl as (Hv & Ho & _). unfold entry_edge. cbn [fst snd] in *.
  assert (forall os, vlen (kill_all os adj) = vlen adj) as Hlen by (intros; apply vlen_map_rows).
  apply vat_ext; [by rewrite vlen_vput, !Hlen|]. intros i Hi. rewrite Hlen in Hi. rewrite vat_vput by (rewrite ?Hlen; lia). rewrite !kill_all_row by done.
  assert (forall j, (i, j) <> (v, o) -> bool_decide ((i, j) ∈ offsets ++ [(v, o)]) = bool_decide ((i, j) ∈ offsets)) as Hother.
  { intros j Hne. apply bool_decide_ext. rewrite elem_of_app, list_elem_of_singleton. naive_solver. }
  destruct (decide (v = i)) as [->|Hiv]; apply vat_ext; rewrite ?vlen_vput, ?vlen_kill_offsets; [done|intros j Hj|done|intros j Hj].
  - rewrite vat_vput by (rewrite ?vlen_kill_offsets; lia). case_decide as Hjo.
    + subst j. rewrite vat_kill_offsets by done. by rewrite bool_decide_eq_true_2 by set_solver.
    + rewrite !vat_kill_offsets by done. by rewrite Hother by congruence.
  - rewrite !vat_kill_offsets by done. by rewrite Hother by congruence.
Qed.

Lemma edges_kill_all offsets adj : NoDup offsets -> (forall p, p ∈ offsets -> live_at adj p) ->
  edges adj ≡ₚ (entry_edge adj <$> offsets) ++ edges (kill_all offsets adj).
Proof.
  induction offsets as [|p offsets IH] using rev_ind; intros Hnd Hl; [by rewrite kill_all_nil|].
  apply NoDup_app in Hnd as (Hnd & Hp & _). assert (p ∉ offsets) as Hnp by (intros Hin; apply (Hp p Hin); by left). assert (live_at adj p) as Hlp by (apply Hl; set_solver).
  rewrite kill_all_snoc by done. rewrite IH at 1 by set_solver. destruct (kill_all_other offsets adj p Hlp Hnp) as [(Hv & Ho & Hx) He].
  rewrite fmap_app, <-app_assoc. f_equiv. cbn [fmap list_fmap app]. rewrite <-He. apply edges_kill; [done|done|done].
Qed.
End offsets.

(** ** [MutableCsr] *)

Section mutable.
Context {D : Type} `{NbrMemory D} (sort : list (nbr D) -> list (nbr D)) (sort_perm : forall l, sort l ≡ₚ l).
Implicit Types (s : MutableCsr D) (adj : list (list (nbr D))).

#[local] Instance sorted_base : CsrBase D (MutableCsr D) := mutable_base sort.

Definition mutable_model : CsrModel D (MutableCsr D) := {|
  models := csr_rel;
  room := fun l => vlen l < 2 ^ 30;
  batch_room := fun adj src_list => forall i, 0 <= i < vlen adj -> 2 * (occ src_list i + row_len adj i) <= INT_MAX
|}.
#[local] Existing Instance mutable_model.

(** The effect of a call from that of the abstract one. *)
Lemma exec_law op s adj out adj' (Q : csr_out D * MutableCsr D -> Prop) : csr_rel s adj -> adj_exec sort op adj = Some (out, adj') ->
  (forall s', csr_rel s' adj' -> Q (out, s')) -> wp (csr_exec sort op s) Q.
Proof.
  intros Hrel Hx HQ. eapply wp_mono; [by eapply agrees_all|]. intros [o s'] [Ho Hs]. simpl in *. subst o. by apply HQ.
Qed.

Lemma unwrap_state (m : option (MutableCsr D)) (Q : MutableCsr D -> Prop) :
  wp (s ← m; Some (@RDone D, s)) (fun r => Q (snd r)) -> wp m Q.
Proof. by destruct m. Qed.

Lemma unwrap_result {A} (f : A -> csr_out D) (m : option (outcome A * MutableCsr D)) (Q : csr_out D * MutableCsr D -> Prop) :
  wp (r ← m; Some (done_or f (fst r), snd r)) Q -> wp m (fun r => Q (done_or f (fst r), snd r)).
Proof. by destruct m. Qed.

Lemma vget_row adj i : 0 <= i < vlen adj -> vget adj i = Some (vat adj i).
Proof. intros. by apply vget_Some. Qed.

Lemma entry_at_Some (adj : list (list (nbr D))) i j : 0 <= i < vlen adj -> 0 <= j < vlen (vat adj i) -> entry_at adj i j = Some (vat (vat adj i) j).
Proof. intros Hi Hj. unfold entry_at. rewrite vget_row by done. cbn [mbind option_bind]. by rewrite vget_Some. Qed.

Lemma mutable_law_put s adj src dst d ts : csr_rel s adj -> 0 <= src < vlen adj -> vlen (vat adj src) < 2 ^ 30 -> ts <> INVALID_TIMESTAMP ->
  wp (put_edge s src dst d ts) (fun r => exists off l, fst r = Returned off /\ csr_rel (snd r) (vput adj src l) /\
    0 <= off < vlen l /\ vat l off = Nbr dst ts d /\ keeps live l ≡ₚ Nbr dst ts d :: keeps live (vat adj src)).
Proof.
  intros Hrel Hs Hr Hts. pose proof (vlen_nonneg (vat adj src)).
  eapply wp_mono; [apply (unwrap_result RIndex _ (fun r => fst r = RIndex (vlen (vat adj src)) /\ csr_rel (snd r) (vput adj src (vat adj src ++ [Nbr dst ts d]))))|].
  - change (wp (csr_exec sort (CPut src dst d ts) s) (fun r => fst r = RIndex (vlen (vat adj src)) /\ csr_rel (snd r) (vput adj src (vat adj src ++ [Nbr dst ts d])))).
    eapply exec_law; [done| |by intros s' Hs'; split]. cbn [adj_exec].
    rewrite (proj2 (Z.leb_le _ _)), (proj2 (Z.eqb_neq ts _)), (proj2 (Z.leb_gt _ _)), (proj2 (Z.ltb_lt _ _)) by lia. done.
  - intros [[off|] s'] [Ho Hs']; [|done]. simpl in *. injection Ho as ->. eexists _, _. split; [done|]. split; [done|].
    rewrite vlen_app, vlen_one. split; [lia|]. split; [rewrite vat_app, decide_False, Z.sub_diag by lia; done|].
    rewrite keeps_snoc. unfold live at 1. simpl. rewrite (proj2 (Z.eqb_neq _ _)) by done. simpl. by rewrite Permutation_app_comm.
Qed.

Lemma mutable_law_delete s adj src off ts : csr_rel s adj -> 0 <= src < vlen adj -> 0 <= off < vlen (vat adj src) ->
  timestamp (vat (vat adj src) off) <= ts < INVALID_TIMESTAMP ->
  wp (delete_edge s src off ts) (fun r => fst r = Returned tt /\
    csr_rel (snd r) (vput adj src (vput (vat adj src) off (kill (vat (vat adj src) off))))).
Proof.
  intros Hrel Hs Ho Hts.
  eapply wp_mono; [apply (unwrap_result (fun _ => RDone) _ (fun r => fst r = RDone /\ csr_rel (snd r) (set_entry adj src off (kill (vat (vat adj src) off)))))|].
  - change (wp (csr_exec sort (CDelete src off ts) s) (fun r => fst r = RDone /\ csr_rel (snd r) (set_entry adj src off (kill (vat (vat adj src) off))))).
    eapply exec_law; [done| |by intros s' Hs'; split]. cbn [adj_exec]. rewrite entry_at_Some by done.
    rewrite !(proj2 (Z.leb_le _ _)), (proj2 (Z.ltb_lt _ _)) by lia. done.
  - intros [[[]|] s'] [Hr Hs']; [done|done].
Qed.

Lemma mutable_law_revert s adj src off ts : csr_rel s adj -> 0 <= src < vlen adj -> 0 <= off < vlen (vat adj src) ->
  live (vat (vat adj src) off) = false -> ts <> INVALID_TIMESTAMP ->
  wp (revert_delete_edge s src (neighbor (vat (vat adj src) off)) off ts) (fun r => fst r = Returned tt /\
    csr_rel (snd r) (vput adj src (vput (vat adj src) off (with_timestamp ts (vat (vat adj src) off))))).
Proof.
  intros Hrel Hs Ho Hd Hts. set (x := vat (vat adj src) off) in *.
  eapply wp_mono; [apply (unwrap_result (fun _ => RDone) _ (fun r => fst r = RDone /\ csr_rel (snd r) (set_entry adj src off (with_timestamp ts x))))|].
  - change (wp (csr_exec sort (CRevert src (neighbor x) off ts) s) (fun r => fst r = RDone /\ csr_rel (snd r) (set_entry adj src off (with_timestamp ts x)))).
    eapply exec_law; [done| |by intros s' Hs'; split]. cbn [adj_exec]. rewrite entry_at_Some by done. fold x.
    rewrite !(proj2 (Z.leb_le _ _)), (proj2 (Z.eqb_neq ts _)), Z.eqb_refl, Hd by lia. done.
  - intros [[[]|] s'] [Hr Hs']; [done|done].
Qed.

Lemma filter_false {A} (l : list A) : filter (fun _ => false = true) l = [].
Proof. induction l as [|x l IH]; [done|]. by rewrite filter_cons, decide_False, IH by done. Qed.

Lemma keeps_keeps (P Q : nbr D -> bool) l : keeps P (keeps Q l) = keeps Q (keeps P l).
Proof. unfold keeps. rewrite !list_filter_filter. apply list_filter_iff. naive_solver. Qed.

Lemma mutable_law_delete_vertices s adj src_set dst_set : csr_rel s adj -> (forall i, i ∈ src_set -> 0 <= i) ->
  wp (batch_delete_vertices s src_set dst_set) (fun s' => exists adj', csr_rel s' adj' /\ vlen adj' = vlen adj /\
    edges adj' = filter (fun e => outside src_set dst_set (ends e) = true) (edges adj)).
Proof.
  intros Hrel Hpos. apply unwrap_state.
  change (wp (csr_exec sort (CDeleteVertices src_set dst_set) s) (fun r => exists adj', csr_rel (snd r) adj' /\ vlen adj' = vlen adj /\
    edges adj' = filter (fun e => outside src_set dst_set (ends e) = true) (edges adj))).
  eapply exec_law; [done|cbn [adj_exec]; rewrite bool_decide_eq_true_2 by done; done|].
  intros s' Hs'. exists (map_rows (drop_vertices src_set dst_set) adj). split; [done|]. split; [apply vlen_map_rows|].
  apply (edges_filter adj _ (fun e => outside src_set dst_set (ends e))); [apply vlen_map_rows|]. intros i Hi. rewrite vat_map_rows by done.
  unfold drop_vertices, clear_sources, outside, ends. simpl. case_bool_decide as Hin.
  - rewrite bool_decide_eq_false_2 by (by intros ?). simpl. by rewrite filter_false.
  - rewrite bool_decide_eq_true_2 by done. simpl. by rewrite keeps_keeps.
Qed.

Lemma keeps_kill_if (P : nbr D -> bool) (l : list (nbr D)) :
  keeps live (map (kill_if P) l) = filter (fun x => negb (P x) = true) (keeps live l).
Proof.
  unfold keeps. induction l as [|x l IH]; [done|]. cbn [map]. rewrite !(filter_cons (fun x : nbr D => live x = true)), IH.
  destruct (P x) eqn:E.
  - assert (kill_if P x = kill x) as -> by (unfold kill_if; by rewrite E). rewrite live_kill, decide_False by done.
    case_decide; [|done]. by rewrite filter_cons, decide_False by (by rewrite E).
  - assert (kill_if P x = x) as -> by (unfold kill_if; by rewrite E).
    case_decide; [|done]. by rewrite filter_cons, decide_True by (by rewrite E).
Qed.

Lemma mutable_law_delete_edges s adj src_list dst_list : csr_rel s adj -> vlen src_list <= vlen dst_list -> Forall (fun i => 0 <= i) src_list ->
  (forall i x, 0 <= i < vlen adj -> x ∈ vat adj i -> (i, neighbor x) ∈ zip src_list dst_list -> live x = true) ->
  wp (batch_delete_edges s src_list dst_list) (fun s' => exists adj', csr_rel s' adj' /\ vlen adj' = vlen adj /\
    edges adj' = filter (fun e => bool_decide (ends e ∉ zip src_list dst_list) = true) (edges adj)).
Proof.
  intros Hrel Hlen Hpos Hlive. apply unwrap_state.
  change (wp (csr_exec sort (CDeleteEdges src_list dst_list) s) (fun r => exists adj', csr_rel (snd r) adj' /\ vlen adj' = vlen adj /\
    edges adj' = filter (fun e => bool_decide (ends e ∉ zip src_list dst_list) = true) (edges adj))).
  eapply exec_law; [done| |].
  - cbn [adj_exec]. assert (nonneg src_list = true) as ->.
    { unfold nonneg. apply forallb_forall. intros i Hi. apply list_elem_of_In in Hi. rewrite Forall_forall in Hpos. apply Z.leb_le. by apply Hpos. }
    rewrite (proj2 (Z.leb_le _ _)) by done. assert (dead_pair src_list dst_list adj = false) as ->; [|done].
    apply not_true_iff_false. unfold dead_pair. rewrite existsb_exists. intros (i & Hi & Hx). apply existsb_exists in Hx as (x & Hx & Hd).
    apply list_elem_of_In in Hi, Hx. apply elem_of_seqZ in Hi. apply andb_prop in Hd as [Hm Hd]. apply bool_decide_eq_true in Hm.
    rewrite (Hlive i x) in Hd by (done || lia). done.
  - intros s' Hs'. exists (map_rows (kill_pairs src_list dst_list) adj). split; [done|]. split; [apply vlen_map_rows|].
    apply (edges_filter adj _ (fun e => bool_decide (ends e ∉ zip src_list dst_list))); [apply vlen_map_rows|]. intros i Hi.
    rewrite vat_map_rows by done. unfold kill_pairs. rewrite keeps_kill_if. apply list_filter_iff. intros x. unfold ends, pair_mem. simpl.
    rewrite negb_true_iff, bool_decide_eq_false, bool_decide_eq_true. done.
Qed.

Lemma mutable_law_delete_offsets s adj offsets : csr_rel s adj -> NoDup offsets -> (forall p, p ∈ offsets -> live_at adj p) ->
  wp (batch_delete_offsets s offsets) (fun s' => exists adj', csr_rel s' adj' /\ vlen adj' = vlen adj /\
    edges adj ≡ₚ (entry_edge adj <$> offsets) ++ edges adj').
Proof.
  intros Hrel Hnd Hl. apply unwrap_state. change (wp (csr_exec sort (CDeleteOffsets offsets) s) (fun r => exists adj', csr_rel (snd r) adj' /\ vlen adj' = vlen adj /\
    edges adj ≡ₚ (entry_edge adj <$> offsets) ++ edges adj')). eapply exec_law; [done| |].
  - cbn [adj_exec]. rewrite (proj2 (forallb_forall _ _)); [done|]. intros p Hp. apply list_elem_of_In, Hl in Hp as (? & ? & _).
    rewrite !(proj2 (Z.leb_le _ _)) by lia. done.
  - intros s' Hs'. exists (kill_all offsets adj). split; [exact Hs'|]. split; [apply vlen_map_rows|]. by apply edges_kill_all.
Qed.

Lemma keeps_live_idem (l : list (nbr D)) : keeps live (keeps live l) = keeps live l.
Proof. unfold keeps. rewrite list_filter_filter. apply list_filter_iff. naive_solver. Qed.

Lemma keeps_live_reset (l : list (nbr D)) : keeps live (map reset_nbr l) = with_timestamp 0 <$> keeps live l.
Proof.
  induction l as [|x l IH]; [done|]. unfold keeps in *. cbn [map]. rewrite !filter_cons, IH, live_reset.
  case_decide as Hl; [|done]. csimpl. f_equal. unfold reset_nbr. by rewrite Hl.
Qed.

Lemma mutable_law_batch_put s adj src_list dst_list data_list ts : csr_rel s adj ->
  (forall i, 0 <= i < vlen adj -> 2 * (occ src_list i + row_len adj i) <= INT_MAX) ->
  vlen src_list <= vlen dst_list -> vlen src_list <= vlen data_list -> vlen src_list <= INT_MAX ->
  Forall (fun i => 0 <= i) src_list -> ts <> INVALID_TIMESTAMP ->
  wp (batch_put_edges s src_list dst_list data_list ts) (fun s' => exists adj', csr_rel s' adj' /\ vlen adj' = vlen adj /\
    edges adj' ≡ₚ new_edges (vlen adj) src_list dst_list data_list ts ++ edges adj).
Proof.
  intros Hrel Hroom Hd Ha Hm Hpos Hts. apply unwrap_state.
  change (wp (csr_exec sort (CBatchPut src_list dst_list data_list ts) s) (fun r => exists adj', csr_rel (snd r) adj' /\ vlen adj' = vlen adj /\
    edges adj' ≡ₚ new_edges (vlen adj) src_list dst_list data_list ts ++ edges adj)).
  eapply exec_law; [done| |].
  - cbn [adj_exec]. assert (nonneg src_list = true) as ->.
    { unfold nonneg. apply forallb_forall. intros i Hi. apply list_elem_of_In in Hi. rewrite Forall_forall in Hpos. apply Z.leb_le. by apply Hpos. }
    rewrite !(proj2 (Z.leb_le _ _)), (proj2 (Z.eqb_neq ts _)) by done.
    assert (forallb (fun i => 2 * (occ src_list i + row_len adj i) <=? INT_MAX) (seqZ 0 (vlen adj)) = true) as ->; [|done].
    apply forallb_forall. intros i Hi. apply list_elem_of_In, elem_of_seqZ in Hi. apply Z.leb_le, Hroom. lia.
  - intros s' Hs'. eexists. split; [exact Hs'|]. split; [apply vlen_put_rows, vlen_nonneg|]. by apply edges_put_rows.
Qed.

Lemma mutable_law_resize s adj n : csr_rel s adj -> vlen adj <= n < 2 ^ 32 ->
  exists ext, csr_rel (resize s n) (adj ++ ext) /\ vlen (adj ++ ext) = n /\ forall l, l ∈ ext -> keeps live l = [].
Proof.
  intros [Hrows Hc] Hn. pose proof (vlen_nonneg adj). destruct (resize_rows s adj n Hrows ltac:(lia)) as [Hrows' He].
  exists (vnew (n - vlen adj) []). rewrite vlen_app, vlen_vnew by lia. split_and!; [|lia|].
  - assert ((if vlen adj <? n then adj ++ vnew (n - vlen adj) [] else take (Z.to_nat n) adj) = adj ++ vnew (n - vlen adj) []) as Heq.
    { destruct (Z.ltb_spec (vlen adj) n); [done|]. assert (n = vlen adj) as -> by lia. rewrite Z.sub_diag. unfold vnew. simpl.
      rewrite app_nil_r. apply take_ge. unfold vlen. lia. }
    rewrite Heq in Hrows'. split; [done|]. rewrite He, Hc. apply eqm_eq. rewrite <-!vlen_edges. f_equal. symmetry. apply edges_app.
    intros l Hl. apply elem_of_replicate in Hl as [-> _]. done.
  - intros l Hl. by apply elem_of_replicate in Hl as [-> _].
Qed.

Lemma lives_of_vput (l : list (nbr D)) j x : 0 <= j < vlen l -> live x = live (vat l j) -> lives (vput l j x) = lives l.
Proof.
  intros Hj Hx. destruct (keeps_vput l j x Hj) as (k & H1 & H2). unfold lives, vlen. fold (keeps live (vput l j x)) (keeps live l).
  rewrite (Permutation_length H1), (Permutation_length H2), !length_app. f_equal. unfold keeps. rewrite !filter_cons, !filter_nil, Hx. by case_decide.
Qed.

Lemma mutable_law_write s adj v i x : csr_rel s adj -> 0 <= v < vlen adj -> 0 <= i < vlen (vat adj v) -> live x = live (vat (vat adj v) i) ->
  wp (buf ← vget (adj_list_buffer_ s) v; store s buf i x) (fun s' => csr_rel s' (vput adj v (vput (vat adj v) i x))).
Proof.
  intros Hrel Hv Hi Hx. pose proof Hrel as [(Hok & Hvn & Hr) _]. pose proof (co_bufs _ Hok) as Hbl.
  apply wp_bind, wp_vget; [unfold vertex_capacity in *; lia|]. eapply wp_mono; [apply (row_store s v (vat adj v)); [done|lia|by apply Hr|done]|].
  intros s' [_ Hstep]. eapply rel_step; [done|done|exact Hstep|]. by rewrite lives_of_vput, Z.sub_diag.
Qed.

Lemma mutable_laws : CsrLaws D (MutableCsr D).
Proof.
  split; simpl.
  - intros s adj [(Hok & Hv & _) _]. split; [done|]. rewrite Hv. apply (co_vnum _ Hok).
  - intros s adj [Hrows Hc]. rewrite vlen_edges. by apply eqm_range; [apply (co_count _ (proj1 Hrows))|].
  - intros s adj v [Hrows _] Hv. by apply nbr_list_row.
  - apply mutable_law_put.
  - apply mutable_law_delete.
  - apply mutable_law_revert.
  - intros. by apply mutable_law_batch_put.
  - apply mutable_law_delete_vertices.
  - apply mutable_law_delete_edges.
  - apply mutable_law_delete_offsets.
  - intros s adj Hrel. eapply wp_mono; [by apply compact_rel|]. intros [r s'] (Hr & Hrel' & _). split; [done|].
    exists (map (keeps live) adj). split; [done|]. split; [apply vlen_map|]. unfold edges. rewrite vlen_map.
    apply flat_map_ext_elem. intros i Hi. apply elem_of_seqZ in Hi. rewrite vat_map by lia. unfold row_edges. by rewrite keeps_live_idem.
  - intros s adj Hrel. apply unwrap_state. change (wp (csr_exec sort CReset s) (fun r => exists adj', csr_rel (snd r) adj' /\ vlen adj' = vlen adj /\
      edges adj' ≡ₚ prod_map id (with_timestamp 0) <$> edges adj)). eapply exec_law; [done|done|]. intros s' Hs'.
    exists (map (map reset_nbr) adj). split; [done|]. split; [apply vlen_map|]. apply edges_map; [apply vlen_map|]. intros i Hi.
    rewrite vat_map by done. by rewrite keeps_live_reset.
  - intros s adj ts Hrel. apply unwrap_state. change (wp (csr_exec sort (CSort ts) s) (fun r => exists adj', csr_rel (snd r) adj' /\ vlen adj' = vlen adj /\
      edges adj' ≡ₚ edges adj)). eapply exec_law; [done|done|]. intros s' Hs'.
    exists (map sort adj). split; [done|]. split; [apply vlen_map|]. rewrite (edges_map adj (map sort adj) id); [|apply vlen_map|].
    + assert (prod_map id id <$> edges adj = edges adj) as ->; [|done]. induction (edges adj) as [|[] l IH]; [done|]. csimpl. by rewrite IH.
    + intros i Hi. rewrite vat_map, list_fmap_id by done. unfold keeps. by rewrite sort_perm.
  - intros s adj n Hrel Hn. by apply mutable_law_resize.
  - apply mutable_law_write.
Qed.
End mutable.

(** ** [SingleMutableCsr] *)

Section single.
Context {D : Type} `{NbrMemory D}.
Implicit Types (s : SingleMutableCsr D) (adj : list (list (nbr D))).

#[local] Existing Instance single_base.

Definition one (x : nbr D) : list (nbr D) := [x].

(** One entry per vertex, and the counter is the number of the live ones. *)
Definition single_rel s adj : Prop := exists l, single_nbr_list s = Some l /\ adj = map one l /\ vlen l < 2 ^ 32 /\
  single_edge_num s = to_u64 (vlen (edges adj)).

Definition single_model : CsrModel D (SingleMutableCsr D) := {|
  models := single_rel;
  room := fun l => Forall (fun x => live x = false) l;
  batch_room := fun adj src_list =>
    NoDup (filter (fun i => i < vlen adj) src_list) /\
    (forall i, 0 <= i < vlen adj -> i ∈ src_list -> Forall (fun x => live x = false) (vat adj i))
|}.
#[local] Existing Instance single_model.

Lemma vat_one (l : list (nbr D)) i : 0 <= i < vlen l -> vat (map one l) i = [vat l i].
Proof. intros Hi. by rewrite vat_map. Qed.

Lemma vput_one (l : list (nbr D)) i x : vput (map one l) i [x] = map one (vput l i x).
Proof. unfold vput. by rewrite list_fmap_insert. Qed.

Lemma single_load_wp s adj i (Q : nbr D -> Prop) : single_rel s adj -> 0 <= i < vlen adj -> Q (vat (vat adj i) 0) -> wp (single_load s i) Q.
Proof.
  intros (l & Hl & -> & _ & _) Hi HQ. rewrite vlen_map in Hi. unfold single_load. rewrite Hl. cbn [mbind option_bind].
  rewrite vget_Some by done. rewrite vat_one in HQ by done. exact HQ.
Qed.

(** Storing an entry, with the counter set for it before or after. *)
Lemma single_store_rel s s0 adj i x : single_rel s adj -> 0 <= i < vlen adj -> single_nbr_list s0 = single_nbr_list s ->
  single_edge_num s0 = to_u64 (vlen (edges (vput adj i [x]))) -> wp (single_store s0 i x) (fun s' => single_rel s' (vput adj i [x])).
Proof.
  intros (l & Hl & -> & Hlt & Hc) Hi H0 He. rewrite vlen_map in Hi. unfold single_store. rewrite H0, Hl. cbn [mbind option_bind].
  rewrite vset_Some by done. exists (vput l i x). rewrite vlen_vput, vput_one in *. done.
Qed.

Lemma single_count_rel s adj adj' d : single_rel s adj -> vlen (edges adj') = vlen (edges adj) + d ->
  single_edge_num (single_count d s) = to_u64 (vlen (edges adj')).
Proof.
  intros (l & _ & _ & _ & Hc) ->. unfold single_count. simpl. rewrite Hc. apply eqm_range; [unfold to_u64; apply Z.mod_pos_bound; lia|].
  by rewrite eqm_u64, eqm_u64.
Qed.

Lemma single_store_count s adj i x d : single_rel s adj -> 0 <= i < vlen adj ->
  vlen (edges (vput adj i [x])) = vlen (edges adj) + d ->
  wp (single_store s i x) (fun s' => single_rel (single_count d s') (vput adj i [x])).
Proof.
  intros Hrel Hi He. pose proof (single_count_rel _ _ _ _ Hrel He) as Hn.
  pose proof (single_store_rel s (single_count d s) adj i x Hrel Hi eq_refl Hn) as Hw. unfold single_store, single_count in *. simpl in *.
  destruct (single_nbr_list s) as [l|]; [|done]. cbn [mbind option_bind] in *. destruct (vset l i x); [|done]. exact Hw.
Qed.

Lemma single_rel_len s adj : single_rel s adj -> single_capacity s = vlen adj /\ single_vnum s = vlen adj /\ vlen adj < 2 ^ 32.
Proof.
  intros (l & Hl & -> & Hlt & _). unfold single_vnum, single_capacity. rewrite Hl, vlen_map. pose proof (vlen_nonneg l).
  rewrite to_u32_small by lia. done.
Qed.

Lemma single_open_wp s adj A (m : option (outcome A * SingleMutableCsr D)) a : single_rel s adj -> if_open s m a = m.
Proof. intros (l & Hl & _). unfold if_open. by rewrite Hl. Qed.
Lemma single_when_wp s adj m : single_rel s adj -> when_open s m = m.
Proof. intros (l & Hl & _). unfold when_open. by rewrite Hl. Qed.

Lemma single_row s adj i : single_rel s adj -> 0 <= i < vlen adj -> vat adj i = [vat (vat adj i) 0] /\ vlen (vat adj i) = 1.
Proof. intros (l & Hl & -> & _) Hi. rewrite vlen_map in Hi. by rewrite vat_one. Qed.

(** Marking a live entry deleted, or a deleted one. *)
Lemma edges_mark adj i x : 0 <= i < vlen adj -> vat adj i = [x] ->
  vlen (edges (vput adj i [kill x])) = vlen (edges adj) - ind (live x) /\
  (forall e, e ∈ edges (vput adj i [kill x]) <-> e ∈ edges adj /\ (fst e <> i)).
Proof.
  intros Hi Hx. split.
  - destruct (live x) eqn:E.
    + pose proof (edges_kill adj i 0 Hi) as Hp. rewrite Hx in Hp. specialize (Hp ltac:(rewrite vlen_one; lia) E).
      change (vput [x] 0 (kill (vat [x] 0))) with [kill x] in Hp. rewrite vlen_edges in *. rewrite vlen_edges.
      rewrite <-!vlen_edges. unfold vlen in *. apply Permutation_length in Hp. simpl in *. lia.
    + assert (edges (vput adj i [kill x]) ≡ₚ edges adj) as Hp.
      { apply edges_same; [done|]. rewrite Hx. unfold keeps. rewrite !filter_cons, live_kill, E. done. }
      unfold vlen. rewrite (Permutation_length Hp). simpl. lia.
  - intros [k y]. rewrite !edges_elem, vlen_vput. simpl. destruct (decide (k = i)) as [->|Hne].
    + rewrite vat_vput_eq by done. split; [|naive_solver]. intros (_ & Hy & Hl). apply list_elem_of_singleton in Hy as ->.
      by rewrite live_kill in Hl.
    + split; [intros (Hk & Hy & Hl)|intros ((Hk & Hy & Hl) & _)]; rewrite vat_vput_ne in * by lia; done.
Qed.

Lemma single_kill_wp s adj i : single_rel s adj -> 0 <= i < vlen adj ->
  wp (single_kill s i) (fun s' => single_rel s' (vput adj i [kill (vat (vat adj i) 0)])).
Proof.
  intros Hrel Hi. destruct (single_row s adj i Hrel Hi) as [Hx _]. set (x := vat (vat adj i) 0) in *. unfold single_kill.
  apply wp_bind, (single_load_wp s adj i); [done|done|]. fold x. destruct (edges_mark adj i x Hi Hx) as [He _].
  apply (single_store_rel s); [done|done|by destruct (live x)|]. destruct (live x) eqn:E; simpl in He.
  - apply (single_count_rel s adj); [done|lia].
  - destruct Hrel as (l & _ & _ & _ & ->). f_equal. lia.
Qed.
(** Killing the entries of vertex [i] whose neighbour [K i] accepts. *)
Definition kill_rows (K : Z -> Z -> bool) adj : list (list (nbr D)) := map_rows (fun i => map (kill_if (fun x => K i (neighbor x)))) adj.

Lemma vlen_kill_rows K adj : vlen (kill_rows K adj) = vlen adj.
Proof. apply vlen_map_rows. Qed.

Lemma vat_kill_rows K adj i : 0 <= i < vlen adj -> vat (kill_rows K adj) i = map (kill_if (fun x => K i (neighbor x))) (vat adj i).
Proof. intros Hi. unfold kill_rows. by rewrite vat_map_rows. Qed.

Lemma edges_kill_rows K adj : edges (kill_rows K adj) = filter (fun e => negb (K (fst (ends e)) (snd (ends e))) = true) (edges adj).
Proof.
  apply (edges_filter adj (kill_rows K adj) (fun e => negb (K (fst (ends e)) (snd (ends e))))); [apply vlen_kill_rows|]. intros i Hi.
  unfold kill_rows. rewrite vat_map_rows by done. apply keeps_kill_if.
Qed.

Lemma kill_rows_ext K K' adj : (forall i v, 0 <= i < vlen adj -> K i v = K' i v) -> kill_rows K adj = kill_rows K' adj.
Proof.
  intros HK. apply vat_ext; [by rewrite !vlen_kill_rows|]. intros i Hi. rewrite vlen_kill_rows in Hi. rewrite !vat_kill_rows by done. apply map_ext. intros x. unfold kill_if. by rewrite HK.
Qed.

Lemma kill_rows_none adj : kill_rows (fun _ _ => false) adj = adj.
Proof.
  apply vat_ext; [apply vlen_kill_rows|]. intros i Hi. rewrite vlen_kill_rows in Hi. unfold kill_rows. rewrite vat_map_rows by done.
  apply map_id.
Qed.

Lemma kill_kill (x : nbr D) : kill (kill x) = kill x.
Proof. done. Qed.

(** One more vertex is looked at. *)
Lemma kill_rows_step K adj k (c : Z -> bool) x : 0 <= k < vlen adj -> vat (kill_rows K adj) k = [x] ->
  (if c (neighbor x) then vput (kill_rows K adj) k [kill x] else kill_rows K adj) =
  kill_rows (fun i v => K i v || ((i =? k) && c v)) adj.
Proof.
  intros Hk Hx. apply vat_ext; [case_match; rewrite ?vlen_vput; by rewrite !vlen_kill_rows|]. intros i Hi.
  assert (0 <= i < vlen adj) as Hi' by (case_match; rewrite ?vlen_vput, vlen_kill_rows in Hi; done).
  pose proof (vat_kill_rows K adj i Hi') as Hrow. rewrite (vat_kill_rows (fun i v => _) adj i) by done. destruct (Z.eqb_spec i k) as [->|Hne].
  - rewrite Hx in Hrow. destruct (vat adj k) as [|y [|]]; [done| |done]. cbn [map] in *. injection Hrow as Hy.
    assert (neighbor x = neighbor y) as Hn by (rewrite Hy; unfold kill_if; by destruct (K k (neighbor y))).
    rewrite Hn. unfold kill_if in *. destruct (c (neighbor y)).
    + rewrite vat_vput_eq by (by rewrite vlen_kill_rows). rewrite orb_true_r. f_equal. rewrite Hy. by destruct (K k (neighbor y)).
    + rewrite andb_false_r, orb_false_r, Hx. by f_equal.
  - assert (vat (if c (neighbor x) then vput (kill_rows K adj) k [kill x] else kill_rows K adj) i = vat (kill_rows K adj) i) as ->
      by (case_match; [by rewrite vat_vput_ne by lia|done]).
    rewrite Hrow. apply map_ext. intros y. unfold kill_if. by rewrite orb_false_r.
Qed.

Lemma single_kill_step s K adj k (c : Z -> bool) : single_rel s (kill_rows K adj) -> 0 <= k < vlen adj ->
  wp (x ← single_load s k; if c (neighbor x) then single_kill s k else Some s)
     (fun s' => single_rel s' (kill_rows (fun i v => K i v || ((i =? k) && c v)) adj)).
Proof.
  intros Hrel Hk. assert (0 <= k < vlen (kill_rows K adj)) as Hk' by (by rewrite vlen_kill_rows).
  destruct (single_row s _ k Hrel Hk') as [Hx _]. set (x := vat (vat (kill_rows K adj) k) 0) in *.
  apply wp_bind, (single_load_wp s (kill_rows K adj) k); [done|done|]. fold x. rewrite <-(kill_rows_step K adj k c x) by done.
  destruct (c (neighbor x)); [|done]. by apply single_kill_wp.
Qed.

Lemma single_kill_load s k : single_kill s k = (single_load s k ≫= fun _ => single_kill s k).
Proof. unfold single_kill. by destruct (single_load s k). Qed.

Lemma single_law_delete_vertices s adj src_set dst_set : single_rel s adj -> (forall i, i ∈ src_set -> 0 <= i) ->
  wp (single_batch_delete_vertices s src_set dst_set) (fun s' => exists adj', single_rel s' adj' /\ vlen adj' = vlen adj /\
    edges adj' = filter (fun e => outside src_set dst_set (ends e) = true) (edges adj)).
Proof.
  intros Hrel Hpos. unfold single_batch_delete_vertices. rewrite (single_when_wp s adj) by done.
  destruct (single_rel_len s adj Hrel) as (_ & -> & _). pose proof (vlen_nonneg adj). apply wp_bind.
  apply (wp_for_each (fun dn s' => single_rel s' (kill_rows (fun i _ => bool_decide (i ∈ dn)) adj))).
  - by rewrite (kill_rows_ext _ (fun _ _ => false)), kill_rows_none by (intros; apply bool_decide_eq_false_2, not_elem_of_nil).
  - intros dn k rest s' Heq Hrel'. assert (k ∈ std_sort (elements src_set)) as Hk by (rewrite Heq; set_solver).
    rewrite sorted_set_elem in Hk. specialize (Hpos k Hk). destruct (Z.ltb_spec k (vlen adj)).
    + pose proof (single_kill_step s' _ adj k (fun _ => true) Hrel' ltac:(lia)) as Hw.
      cbv beta iota in Hw. rewrite <-single_kill_load in Hw. eapply wp_mono; [exact Hw|]. intros s''. simpl.
      rewrite (kill_rows_ext _ (fun i _ => bool_decide (i ∈ dn ++ [k]))); [done|]. intros i v Hi. rewrite andb_true_r.
      apply Bool.eq_iff_eq_true. rewrite orb_true_iff, Z.eqb_eq, !bool_decide_eq_true. set_solver.
    + apply wp_ret. rewrite (kill_rows_ext _ (fun i _ => bool_decide (i ∈ dn))); [done|]. intros i v Hi. apply bool_decide_ext.
      rewrite elem_of_app, list_elem_of_singleton. naive_solver lia.
  - intros s1 Hrel1. set (K := fun i (_ : Z) => bool_decide (i ∈ std_sort (elements src_set))) in *.
    apply (wp_for_range (fun r s' => single_rel s' (kill_rows (fun i v => K i v || ((i <? r) && bool_decide (v ∈ dst_set))) adj))); [done| | |].
    + rewrite (kill_rows_ext _ K); [done|]. intros i v Hi. rewrite (proj2 (Z.ltb_ge _ _)) by lia. apply orb_false_r.
    + intros r s' Hr Hrel'. pose proof (single_kill_step s' _ adj r (fun v => bool_decide (v ∈ dst_set)) Hrel' Hr) as Hw.
      eapply wp_mono; [exact Hw|].
      intros s''. simpl. rewrite (kill_rows_ext _ (fun i v => K i v || ((i <? r + 1) && bool_decide (v ∈ dst_set)))); [done|].
      intros i v Hi. rewrite <-orb_assoc. f_equal. rewrite <-andb_orb_distrib_l. f_equal. apply Bool.eq_iff_eq_true.
      rewrite orb_true_iff, Z.eqb_eq, !Z.ltb_lt. lia.
    + intros s' Hrel'. eexists. split; [exact Hrel'|]. split; [apply vlen_kill_rows|]. rewrite edges_kill_rows.
      apply filter_ext_elem. intros [i x] He. apply edges_elem in He as (Hi & _). unfold outside, ends, K. simpl.
      rewrite (proj2 (Z.ltb_lt i _)) by lia. rewrite (bool_decide_ext (i ∈ std_sort _) (i ∈ src_set)) by apply sorted_set_elem.
      rewrite negb_orb, !bool_decide_not. done.
Qed.
Lemma single_law_delete_edges s adj src_list dst_list : single_rel s adj -> vlen src_list <= vlen dst_list -> Forall (fun i => 0 <= i) src_list ->
  wp (single_batch_delete_edges s src_list dst_list) (fun s' => exists adj', single_rel s' adj' /\ vlen adj' = vlen adj /\
    edges adj' = filter (fun e => bool_decide (ends e ∉ zip src_list dst_list) = true) (edges adj)).
Proof.
  intros Hrel Hlen Hpos. unfold single_batch_delete_edges. rewrite (single_when_wp s adj) by done. rewrite Forall_forall in Hpos.
  destruct (single_rel_len s adj Hrel) as (_ & -> & _).
  set (K := fun r i v => bool_decide ((i, v) ∈ zip (take (Z.to_nat r) src_list) (take (Z.to_nat r) dst_list))).
  apply (wp_for_range (fun r s' => single_rel s' (kill_rows (K r) adj))); [apply vlen_nonneg| | |].
  - rewrite (kill_rows_ext _ (fun _ _ => false)), kill_rows_none; [done|]. intros i v Hi. apply bool_decide_eq_false_2, not_elem_of_nil.
  - intros r s' Hr Hrel'. wstep. wstep; [lia..|]. wstep. wstep; [lia..|].
    assert (0 <= vat src_list r) by (apply Hpos, vat_elem, Hr).
    assert (forall i v, K (r + 1) i v = K r i v || ((i =? vat src_list r) && (v =? vat dst_list r))) as HK.
    { intros i v. unfold K. rewrite zip_vat_snoc by lia. apply Bool.eq_iff_eq_true.
      rewrite orb_true_iff, andb_true_iff, !Z.eqb_eq, !bool_decide_eq_true, elem_of_app, list_elem_of_singleton. naive_solver. }
    destruct (Z.leb_spec (vlen adj) (vat src_list r)).
    + apply wp_ret. rewrite (kill_rows_ext _ (K r)); [done|]. intros i v Hi. rewrite HK, (proj2 (Z.eqb_neq i (vat src_list r))) by lia. apply orb_false_r.
    + assert (0 <= vat src_list r < vlen adj) as Hsr by lia.
      pose proof (single_kill_step s' _ adj (vat src_list r) (fun v => v =? vat dst_list r) Hrel' Hsr) as Hw.
      eapply wp_mono; [exact Hw|]. intros s''. simpl. rewrite (kill_rows_ext _ (K (r + 1))); [done|]. intros i v _. by rewrite HK.
  - intros s' Hrel'. eexists. split; [exact Hrel'|]. split; [apply vlen_kill_rows|]. rewrite edges_kill_rows.
    apply list_filter_iff. intros [i x]. unfold ends, K. simpl. rewrite <-bool_decide_not. rewrite !bool_decide_eq_true.
    unfold vlen in Hlen. rewrite firstn_all2 by (unfold vlen; lia).
    assert (zip src_list (take (Z.to_nat (vlen src_list)) dst_list) = zip src_list dst_list) as ->; [|done].
    unfold vlen. rewrite Nat2Z.id. clear -Hlen. revert dst_list Hlen. induction src_list as [|a l IH]; intros [|b k] Hlen; simpl in *; try done.
    f_equal. apply IH. lia.
Qed.

Lemma single_law_put s adj src dst d ts : single_rel s adj -> 0 <= src < vlen adj -> Forall (fun x => live x = false) (vat adj src) ->
  ts <> INVALID_TIMESTAMP ->
  wp (single_put_edge s src dst d ts) (fun r => exists off l, fst r = Returned off /\ single_rel (snd r) (vput adj src l) /\
    0 <= off < vlen l /\ vat l off = Nbr dst ts d /\ keeps live l ≡ₚ Nbr dst ts d :: keeps live (vat adj src)).
Proof.
  intros Hrel Hs Hd Hts. destruct (single_row s adj src Hrel Hs) as [Hx _]. destruct (single_rel_len s adj Hrel) as (Hc & _ & _).
  unfold single_put_edge. rewrite Hc, (proj2 (Z.leb_gt _ _)) by lia. apply wp_bind, (single_load_wp s adj src); [done|done|].
  rewrite Hx, Forall_singleton in Hd. set (x := vat (vat adj src) 0) in *.
  assert ((timestamp x =? INVALID_TIMESTAMP) = true) as -> by (unfold live in Hd; by apply negb_false_iff in Hd).
  assert (keeps live [Nbr dst ts d] ≡ₚ Nbr dst ts d :: keeps live (vat adj src)) as Hk.
  { rewrite Hx. unfold keeps. rewrite !filter_cons, !filter_nil. rewrite decide_True, decide_False; [done|by rewrite Hd|].
    unfold live. simpl. by rewrite (proj2 (Z.eqb_neq _ _)). }
  assert (vlen (edges (vput adj src [Nbr dst ts d])) = vlen (edges adj) + 1) as He.
  { pose proof (edges_cons adj src _ _ Hs Hk) as Hp. unfold vlen. rewrite (Permutation_length Hp). simpl. lia. }
  apply wp_bind. eapply wp_mono; [by apply (single_store_count s adj src (Nbr dst ts d) 1)|].
  intros s' Hs'. apply wp_ret. exists 0, [Nbr dst ts d]. rewrite vlen_one. split_and!; done || lia.
Qed.

Lemma single_law_delete s adj src off ts : single_rel s adj -> 0 <= src < vlen adj -> 0 <= off < vlen (vat adj src) ->
  timestamp (vat (vat adj src) off) <= ts < INVALID_TIMESTAMP ->
  wp (single_delete_edge s src off ts) (fun r => fst r = Returned tt /\
    single_rel (snd r) (vput adj src (vput (vat adj src) off (kill (vat (vat adj src) off))))).
Proof.
  intros Hrel Hs Ho Hts. destruct (single_row s adj src Hrel Hs) as [Hx Hl]. destruct (single_rel_len s adj Hrel) as (_ & Hv & _).
  assert (off = 0) as -> by lia. set (x := vat (vat adj src) 0) in *. unfold single_delete_edge.
  rewrite (single_open_wp s adj), Hv, (proj2 (Z.leb_gt _ _)) by (done || lia).
  apply wp_bind, (single_load_wp s adj src); [done|done|]. fold x. rewrite Hx. change (vput [x] 0 (kill x)) with [kill x].
  rewrite (proj2 (Z.leb_le _ _)) by lia. fold (kill x). apply wp_bind. destruct (edges_mark adj src x Hs Hx) as [He _].
  assert (live x = true) as Hlive by (unfold live; rewrite (proj2 (Z.eqb_neq _ _)); [done|lia]). rewrite Hlive in He. simpl in He.
  eapply wp_mono; [apply (single_store_count s adj src (kill x) (-1)); [done|done|lia]|]. intros s' Hs'. by wsteps.
Qed.

Lemma single_law_revert s adj src off ts : single_rel s adj -> 0 <= src < vlen adj -> 0 <= off < vlen (vat adj src) ->
  live (vat (vat adj src) off) = false -> ts <> INVALID_TIMESTAMP ->
  wp (single_revert_delete_edge s src (neighbor (vat (vat adj src) off)) off ts) (fun r => fst r = Returned tt /\
    single_rel (snd r) (vput adj src (vput (vat adj src) off (with_timestamp ts (vat (vat adj src) off))))).
Proof.
  intros Hrel Hs Ho Hd Hts. destruct (single_row s adj src Hrel Hs) as [Hx Hl]. destruct (single_rel_len s adj Hrel) as (_ & Hv & _).
  assert (off = 0) as -> by lia. set (x := vat (vat adj src) 0) in *. unfold single_revert_delete_edge.
  rewrite (single_open_wp s adj), Hv, (proj2 (Z.leb_gt _ _)) by (done || lia). cbn [orb negb Z.eqb].
  apply wp_bind, (single_load_wp s adj src); [done|done|]. fold x. rewrite Z.eqb_refl. cbn [negb].
  assert ((timestamp x =? INVALID_TIMESTAMP) = true) as -> by (unfold live in Hd; by apply negb_false_iff in Hd).
  rewrite Hx. change (vput [x] 0 (with_timestamp ts x)) with [with_timestamp ts x]. apply wp_bind.
  eapply wp_mono; [apply (single_store_count s adj src (with_timestamp ts x) 1); [done|done|]|intros s' Hs'; by wsteps].
  assert (keeps live [with_timestamp ts x] ≡ₚ with_timestamp ts x :: keeps live (vat adj src)) as Hk.
  { rewrite Hx. unfold keeps. rewrite !filter_cons, !filter_nil. rewrite decide_True, decide_False; [done|by rewrite Hd|].
    unfold live. simpl. by rewrite (proj2 (Z.eqb_neq _ _)). }
  pose proof (edges_cons adj src _ _ Hs Hk) as Hp. unfold vlen. rewrite (Permutation_length Hp). simpl. lia.
Qed.
Lemma single_law_batch_put s adj src_list dst_list data_list ts : single_rel s adj ->
  NoDup (filter (fun i => i < vlen adj) src_list) ->
  (forall i, 0 <= i < vlen adj -> i ∈ src_list -> Forall (fun x => live x = false) (vat adj i)) ->
  vlen src_list <= vlen dst_list -> vlen src_list <= vlen data_list -> Forall (fun i => 0 <= i) src_list -> ts <> INVALID_TIMESTAMP ->
  wp (single_batch_put_edges s src_list dst_list data_list ts) (fun s' => exists adj', single_rel s' adj' /\ vlen adj' = vlen adj /\
    edges adj' ≡ₚ new_edges (vlen adj) src_list dst_list data_list ts ++ edges adj).
Proof.
  intros Hrel Hnd Hdead Hdl Hal Hpos Hts. unfold single_batch_put_edges. rewrite (single_when_wp s adj) by done. rewrite Forall_forall in Hpos.
  destruct (single_rel_len s adj Hrel) as (_ & -> & _). unfold new_edges.
  set (new := fun k => if vat src_list k <? vlen adj then [(vat src_list k, Nbr (vat dst_list k) ts (vat data_list k))] else []).
  apply (wp_for_range (fun r s' => exists adj', single_rel s' adj' /\ vlen adj' = vlen adj /\
    edges adj' ≡ₚ flat_map new (seqZ 0 r) ++ edges adj /\
    forall i, 0 <= i < vlen adj -> i ∉ take (Z.to_nat r) src_list -> vat adj' i = vat adj i)); [apply vlen_nonneg| | |].
  - by exists adj.
  - intros r s' Hr (adj' & Hrel' & Hl' & He' & Hsame). wstep. wstep; [lia..|]. set (src := vat src_list r).
    assert (src ∈ src_list) as Hin by (apply vat_elem, Hr). pose proof (Hpos src Hin) as Hs0.
    rewrite take_succ_vat, seqZ_snoc, flat_map_app by lia. fold src. assert (new r = if src <? vlen adj then [(src, Nbr (vat dst_list r) ts (vat data_list r))] else []) as Hn by done.
    cbn [flat_map]. rewrite Hn, app_nil_r. destruct (Z.leb_spec (vlen adj) src).
    + rewrite (proj2 (Z.ltb_ge _ _)) by lia. rewrite app_nil_r. apply wp_ret. exists adj'. split_and!; [done..|].
      intros i Hi Hni. apply Hsame; [done|]. set_solver.
    + rewrite (proj2 (Z.ltb_lt _ _)) by lia. wstep. wstep; [lia..|]. wstep. wstep; [lia..|].
      assert (src ∉ take (Z.to_nat r) src_list) as Hnew.
      { intros Hc. rewrite <-(take_drop (Z.to_nat (r + 1)) src_list), take_succ_vat, !filter_app in Hnd by lia. fold src in Hnd.
        apply NoDup_app in Hnd as (Hnd & _ & _). apply NoDup_app in Hnd as (_ & Hnd & _). apply (Hnd src).
        - apply list_elem_of_filter. split; [lia|done].
        - apply list_elem_of_filter. split; [lia|by left]. }
      assert (keeps live [Nbr (vat dst_list r) ts (vat data_list r)] ≡ₚ Nbr (vat dst_list r) ts (vat data_list r) :: keeps live (vat adj' src)) as Hk.
      { rewrite Hsame by (done || lia). assert (keeps live (vat adj src) = []) as ->.
        { unfold keeps. pose proof (Hdead src ltac:(lia) Hin) as Hd. induction Hd as [|x l Hx _ IH]; [done|]. by rewrite filter_cons, decide_False by (by rewrite Hx). }
        unfold keeps. rewrite filter_cons, decide_True; [done|]. unfold live. simpl. by rewrite (proj2 (Z.eqb_neq _ _)). }
      pose proof (edges_cons adj' src _ _ ltac:(lia) Hk) as Hp. apply wp_bind.
      eapply wp_mono; [apply (single_store_count s' adj' src _ 1); [done|lia|unfold vlen; rewrite (Permutation_length Hp); simpl; lia]|].
      intros s'' Hs''. apply wp_ret. eexists. split; [exact Hs''|]. rewrite vlen_vput. split_and!; [done| |].
      * rewrite Hp, He', <-app_assoc. by apply Permutation_cons_app.
      * intros i Hi Hni. rewrite vat_vput_ne by set_solver. apply Hsame; [done|]. set_solver.
  - intros s' (adj' & Hrel' & Hl' & He' & _). by exists adj'.
Qed.

Lemma single_law_delete_offsets s adj offsets : single_rel s adj -> NoDup offsets -> (forall p, p ∈ offsets -> live_at adj p) ->
  wp (single_batch_delete_offsets s offsets) (fun s' => exists adj', single_rel s' adj' /\ vlen adj' = vlen adj /\
    edges adj ≡ₚ (entry_edge adj <$> offsets) ++ edges adj').
Proof.
  intros Hrel Hnd Hl. unfold single_batch_delete_offsets. rewrite (single_when_wp s adj) by done. destruct (single_rel_len s adj Hrel) as (_ & -> & _).
  apply (wp_for_each (fun dn s' => single_rel s' (kill_all dn adj))).
  - by rewrite kill_all_nil.
  - intros dn p rest s' Heq Hrel'. assert (live_at adj p) as Hlp by (apply Hl; rewrite Heq; set_solver).
    assert (p ∉ dn) as Hp. { rewrite Heq in Hnd. apply NoDup_app in Hnd as (_ & Hd & _). intros Hin. apply (Hd p Hin). by left. }
    rewrite kill_all_snoc by done. destruct (kill_all_other dn adj p Hlp Hp) as [(Hv & Ho & Hx) _]. destruct p as [v o]. cbn [fst snd entry_edge] in *.
    unfold kill_at. cbn [fst snd entry_edge]. destruct (single_row s' _ v Hrel' Hv) as [Hrow Hlen]. assert (o = 0) as -> by lia. set (x := vat (vat (kill_all dn adj) v) 0) in *.
    unfold kill_all in Hv. rewrite vlen_map_rows in Hv. rewrite (proj2 (Z.leb_gt _ _)) by lia.
    apply wp_bind, (single_load_wp s' (kill_all dn adj) v); [done|unfold kill_all; by rewrite vlen_map_rows|]. fold x. rewrite Hrow. change (vput [x] 0 (kill x)) with [kill x].
    destruct (edges_mark (kill_all dn adj) v x) as [He _]; [unfold kill_all; by rewrite vlen_map_rows|done|]. rewrite Hx in He.
    apply wp_bind. eapply wp_mono; [apply (single_store_count s' (kill_all dn adj) v (kill x) (-1)); [done|unfold kill_all; by rewrite vlen_map_rows|simpl in He; lia]|].
    intros s'' Hs''. by apply wp_ret.
  - intros s' Hrel'. exists (kill_all offsets adj). split; [done|]. split; [apply vlen_map_rows|]. by apply edges_kill_all.
Qed.

Lemma single_law_reset s adj : single_rel s adj ->
  wp (single_reset_timestamp s) (fun s' => exists adj', single_rel s' adj' /\ vlen adj' = vlen adj /\
    edges adj' ≡ₚ prod_map id (with_timestamp 0) <$> edges adj).
Proof.
  intros Hrel. unfold single_reset_timestamp. rewrite (single_when_wp s adj) by done. destruct (single_rel_len s adj Hrel) as (-> & _ & _).
  set (upto := fun r => map_rows (fun i l => if i <? r then map reset_nbr l else l) adj).
  assert (forall r, vlen (upto r) = vlen adj) as Hlen by (intros; apply vlen_map_rows).
  assert (forall r i, 0 <= i < vlen adj -> vat (upto r) i = if i <? r then map reset_nbr (vat adj i) else vat adj i) as Hrow
    by (intros; unfold upto; by rewrite vat_map_rows).
  apply (wp_for_range (fun r s' => single_rel s' (upto r))); [apply vlen_nonneg| | |].
  - assert (upto 0 = adj) as ->; [|done]. apply vat_ext; [apply Hlen|]. intros i Hi. rewrite Hlen in Hi. rewrite Hrow by done.
    by rewrite (proj2 (Z.ltb_ge _ _)) by lia.
  - intros r s' Hr Hrel'. assert (0 <= r < vlen (upto r)) as Hr' by (by rewrite Hlen). destruct (single_row s' _ r Hrel' Hr') as [Hx _].
    set (x := vat (vat (upto r) r) 0) in *. apply wp_bind, (single_load_wp s' (upto r)); [done|done|]. fold x.
    assert (upto (r + 1) = vput (upto r) r [reset_nbr x]) as Hup.
    { apply vat_ext; [by rewrite vlen_vput, !Hlen|]. intros i Hi. rewrite Hlen in Hi. rewrite vat_vput by (rewrite ?Hlen; lia). rewrite Hrow by done.
      case_decide as Heq; [|rewrite Hrow by done; by destruct (Z.ltb_spec i (r + 1)), (Z.ltb_spec i r); try lia].
      subst i. rewrite (Hrow r r Hi), (proj2 (Z.ltb_ge r r)) in Hx by lia. rewrite (proj2 (Z.ltb_lt _ _)) by lia. rewrite Hx. done. }
    rewrite Hup. unfold reset_nbr. destruct (live x) eqn:E.
    + apply (single_store_rel s'); [done|done|done|]. assert (edges (vput (upto r) r [with_timestamp 0 x]) ≡ₚ (r, with_timestamp 0 x) :: edges_but (upto r) r) as Hp.
      { rewrite edges_vput by done. done. }
      pose proof (edges_row (upto r) r Hr') as Hp'. rewrite Hx in Hp'. unfold row_edges, keeps in Hp'. rewrite filter_cons, decide_True, filter_nil in Hp' by done.
      destruct Hrel' as (l & _ & _ & _ & ->). unfold vlen. rewrite (Permutation_length Hp), (Permutation_length Hp'). done.
    + assert (vput (upto r) r [x] = upto r) as ->; [|done]. rewrite <-Hx. apply vput_vat.
  - intros s' Hrel'. exists (upto (vlen adj)). split; [done|]. split; [apply Hlen|]. apply edges_map; [apply Hlen|]. intros i Hi.
    rewrite Hrow, (proj2 (Z.ltb_lt _ _)) by lia. by rewrite keeps_live_reset.
Qed.

Lemma single_law_resize s adj n : single_rel s adj -> vlen adj <= n < 2 ^ 32 ->
  wp (single_resize s n) (fun s' => exists ext, single_rel s' (adj ++ ext) /\ vlen (adj ++ ext) = n /\ forall l, l ∈ ext -> keeps live l = []).
Proof.
  intros (l & Hl & -> & Hlt & Hc) Hn. rewrite vlen_map in Hn. unfold single_resize. rewrite Hl. cbn [mbind option_bind]. pose proof (vlen_nonneg l).
  rewrite take_ge by (unfold vlen in *; lia). set (k0 := drop (length l) (uninit <$> seqZ 0 n)).
  assert (vlen k0 = n - vlen l) as Hk0 by (unfold k0, vlen; rewrite length_drop, length_fmap, length_seqZ; unfold vlen in *; lia).
  assert (forall k s', vlen k = n - vlen l -> (forall x, x ∈ k -> live x = false) -> single_nbr_list s' = Some (l ++ k) ->
    single_edge_num s' = single_edge_num s ->
    exists ext, single_rel s' (map one l ++ ext) /\ vlen (map one l ++ ext) = n /\ forall l, l ∈ ext -> keeps live l = []) as Hdone.
  { intros k s' Hk Hdead Hs' Hc'. assert (forall m, m ∈ map one k -> keeps live m = []) as Hext.
    { intros m Hm. apply list_elem_of_In, in_map_iff in Hm as (x & <- & Hx). apply list_elem_of_In in Hx.
      unfold one, keeps. by rewrite filter_cons, decide_False, filter_nil by (by rewrite Hdead). }
    exists (map one k). rewrite vlen_app, !vlen_map. split_and!; [|lia|done]. exists (l ++ k). split_and!; [done|by rewrite map_app|rewrite vlen_app; lia|].
    by rewrite edges_app, Hc', Hc. }
  destruct (Z.ltb_spec (vlen l) n); [|apply wp_ret, (Hdone k0)]; [|done| |done|done].
  2: { intros x Hx. assert (k0 = []) as -> by (destruct k0; [done|unfold vlen in *; simpl in *; lia]). by apply elem_of_nil in Hx. }
  apply (wp_for_each (fun dn s' => exists k, vlen k = n - vlen l /\ single_nbr_list s' = Some (l ++ k) /\ single_edge_num s' = single_edge_num s /\
    forall j, vlen l + j ∈ dn -> 0 <= j < vlen k -> live (vat k j) = false)).
  - exists k0. split_and!; [done|done|done|]. intros j Hj. by apply elem_of_nil in Hj.
  - intros dn i rest s' Heq (k & Hk & Hs' & Hc' & Hdead). assert (i ∈ seqZ (vlen l) (n - vlen l)) as Hi by (rewrite Heq; set_solver).
    apply elem_of_seqZ in Hi. unfold single_load, single_store. rewrite Hs'. cbn [mbind option_bind].
    wstep. wstep; [rewrite vlen_app; lia|]. wstep. wstep; [rewrite vlen_app; lia|]. apply wp_ret.
    exists (vput k (i - vlen l) (kill (vat (l ++ k) i))). rewrite vlen_vput. split_and!; [done| |done|].
    + simpl. f_equal. unfold vput. rewrite insert_app_r_alt by (unfold vlen in *; lia). do 2 f_equal. unfold vlen. lia.
    + intros j Hj Hjk. rewrite vat_vput by lia. case_decide; [apply live_kill|]. apply Hdead; [|done]. set_solver by lia.
  - intros s' (k & Hk & Hs' & Hc' & Hdead). apply (Hdone k); [done| |done|done]. intros x Hx.
    apply list_elem_of_lookup in Hx as [j Hj]. pose proof (lookup_lt_Some _ _ _ Hj). assert (x = vat k (Z.of_nat j)) as ->.
    { unfold vat. rewrite Nat2Z.id. symmetry. by apply list_lookup_total_correct. }
    apply Hdead; [|unfold vlen; lia]. apply elem_of_seqZ. unfold vlen in *. lia.
Qed.

Lemma single_laws : CsrLaws D (SingleMutableCsr D).
Proof.
  split; simpl.
  - intros s adj Hrel. by destruct (single_rel_len s adj Hrel) as (-> & _ & ?).
  - by intros s adj (l & _ & _ & _ & ->).
  - intros s adj v Hrel Hv. destruct (single_row s adj v Hrel Hv) as [Hx Hl]. destruct Hrel as (l & Hn & -> & _). rewrite vlen_map in Hv.
    eexists. rewrite Hn. split; [done|]. cbn [nl_len nl_load]. split; [done|]. intros j Hj. assert (j = 0) as -> by lia.
    rewrite Z.add_0_l, Z.add_0_r. rewrite vget_Some by done. rewrite vat_one by done. done.
  - apply single_law_put.
  - apply single_law_delete.
  - apply single_law_revert.
  - intros s adj src_list dst_list data_list ts Hrel [Hnd Hdead] Hd Ha _ Hpos Hts. by apply single_law_batch_put.
  - apply single_law_delete_vertices.
  - intros s adj src_list dst_list Hrel Hlen Hpos _. by apply single_law_delete_edges.
  - apply single_law_delete_offsets.
  - intros s adj Hrel. split; [done|]. by exists adj.
  - apply single_law_reset.
  - intros s adj ts Hrel. by exists adj.
  - apply single_law_resize.
  - intros s adj v i x Hrel Hv Hi Hx. destruct (single_row s adj v Hrel Hv) as [Hrow Hl]. assert (i = 0) as -> by lia. rewrite Z.add_0_r.
    rewrite Hrow in Hx |- *. change (vput [vat (vat adj v) 0] 0 x) with [x]. apply (single_store_rel s); [done|done|done|].
    assert (vlen (edges (vput adj v [x])) = vlen (edges adj)) as ->; [|by destruct Hrel as (? & _ & _ & _ & ->)].
    rewrite !vlen_edges, total_vput by done. rewrite Hrow. unfold lives. rewrite !filter_cons, !filter_nil.
    change (vat [vat (vat adj v) 0] 0) with (vat (vat adj v) 0) in Hx. rewrite Hx. case_decide; unfold vlen; simpl; lia.
Qed.
End single.
