(* ===== verification/OffsetSearch.v ===== *)
(** * Finding an edge in the other direction

    An edge is stored twice, and an operation on it needs the offset in both
    adjacency lists: [fuzzy_search_offset_from_nbr_list],
    [get_offset_for_edge_record] and their callers in
    src/storages/csr/generic_view_utils.cc.  A pointer to the data of an entry is
    the list it is in and its index. *)
From S2P Require Import Prelude Storage Bitset Property Column Table.
From S2P Require Import Aggregate MutableCsr CsrRows CsrOps CsrLists CsrDelete CsrEdges NbrView SingleCsr CsrInterface.
#[local] Open Scope Z_scope.

(** [determine_search_prop_type]. *)
Definition determine_search_prop_type (props : list DataType) : DataTypeId :=
  match props with
  | [(ty, _)] => if bool_decide (ty = kVarchar) then kUInt64 else ty
  | _ => kUInt64
  end.

(** The types that [FOR_EACH_DATA_TYPE_NO_STRING] lists. *)
Definition comparable (ty : DataTypeId) : bool :=
  bool_decide (ty ∈ [kBoolean; kInt32; kUInt32; kInt64; kUInt64; kFloat; kDouble; kDate; kTimestampMs; kInterval]).

Section search.
Context {D : Type} `{NbrMemory D} (U : PropUtils D) (eqb : D -> D -> bool).

Definition data_ptr : Type := (Z -> option (nbr D)) * Z.
Definition at_ptr (p : data_ptr) : option (nbr D) := fst p (snd p).

(** The eight bytes at the data of an entry without data: its timestamp, with
    which the empty data shares its place, and the neighbour of the next entry. *)
Definition raw_data (p : data_ptr) : option Z :=
  x ← at_ptr p; y ← fst p (snd p + 1); Some (timestamp x + 2 ^ 32 * neighbor y).

(** [nbr_data_eq], which reads the data as the type it is told; it throws for a
    type that is not listed. *)
Definition nbr_data_eq (p q : data_ptr) (ty : DataTypeId) : option (outcome bool) :=
  if negb (comparable ty) then Some Thrown
  else if bool_decide (ty = pu_type U) then x ← at_ptr p; y ← at_ptr q; Some (Returned (eqb (data x) (data y)))
  else if bool_decide (ty = kUInt64 /\ pu_type U = kEmpty) then a ← raw_data p; b ← raw_data q; Some (Returned (a =? b))
  else None.

Definition nbr_ts_eq (p q : data_ptr) : option bool := x ← at_ptr p; y ← at_ptr q; Some (timestamp x =? timestamp y).

(** The candidates of a mutable CSR, whose [ts_offset] is positive. *)
Fixpoint find_exact_match_in_candidates (candidates : list Z) (nl : NbrList D) (expected : data_ptr) (ty : DataTypeId) : option (outcome Z) :=
  match candidates with
  | [] => Some (Returned INT_MAX)
  | offset :: candidates =>
      r ← nbr_data_eq (nl_load nl, offset) expected ty;
      match r with
      | Thrown => Some Thrown
      | Returned same =>
          same_ts ← (if same : bool then nbr_ts_eq (nl_load nl, offset) expected else Some false);
          if same_ts : bool then Some (Returned offset) else find_exact_match_in_candidates candidates nl expected ty
      end
  end.

Definition fuzzy_search_offset_from_nbr_list (nl : NbrList D) (ts expected_nbr : Z) (expected : data_ptr) (ty : DataTypeId) : option (outcome Z) :=
  entries ← visit nl ts;
  let candidates := (filter (fun e => neighbor (snd e) = expected_nbr) entries).*1 in
  match candidates with
  | [] => Some (Returned INT_MAX)
  | [offset] => Some (Returned offset)
  | _ => find_exact_match_in_candidates candidates nl expected ty
  end.

(** [inside] says that the pointer of the record lies in the list. *)
Definition get_offset_for_edge_record (nl : NbrList D) (ts expected_nbr : Z) (inside : bool) (expected : data_ptr) (ty : DataTypeId) : option (outcome Z) :=
  if negb inside then fuzzy_search_offset_from_nbr_list nl ts expected_nbr expected ty
  else
    let offset := snd expected in
    x ← nl_load nl offset;
    if negb (neighbor x =? expected_nbr) then Some Thrown
    else
      r ← nbr_data_eq (nl_load nl, offset) expected ty;
      match r with
      | Thrown | Returned false => Some Thrown
      | Returned true =>
          same_ts ← nbr_ts_eq (nl_load nl, offset) expected;
          if same_ts : bool then Some (Returned offset) else Some Thrown
      end.

(** The entry of [src]'s list at [cur_offset], looked for in the list of its
    neighbour. *)
Definition search_other_offset_with_cur_offset {C C'} `{CsrBase D C, CsrBase D C'} (cur : C) (other : C') (ts src_lid other_lid cur_offset : Z)
    (props : list DataType) : option (outcome Z) :=
  other_nbr_list ← csr_nbr_list other other_lid;
  cur_edges ← csr_nbr_list cur src_lid;
  fuzzy_search_offset_from_nbr_list other_nbr_list ts src_lid (nl_load cur_edges, cur_offset) (determine_search_prop_type props).

(** [EdgeRecord]: the end points, the direction it was found in, and the pointer to
    its data. *)
Record EdgeRecord := MkRecord { rec_src : Z; rec_dst : Z; rec_out : bool; rec_inside : bool; rec_prop : data_ptr }.

Definition record_to_csr_offset_pair {Cout Cin} `{CsrBase D Cout, CsrBase D Cin} (oe : Cout) (ie : Cin) (ts : Z) (record : EdgeRecord)
    (props : list DataType) : option (outcome (Z * Z)) :=
  oe_list ← csr_nbr_list oe (rec_src record);
  ie_list ← csr_nbr_list ie (rec_dst record);
  let '(cur_list, another_list, src, nb) :=
    if rec_out record then (oe_list, ie_list, rec_src record, rec_dst record) else (ie_list, oe_list, rec_dst record, rec_src record) in
  let ty := determine_search_prop_type props in
  cur ← get_offset_for_edge_record cur_list ts nb (rec_inside record) (rec_prop record) ty;
  match cur with
  | Thrown => Some Thrown
  | Returned cur_offset =>
      another ← fuzzy_search_offset_from_nbr_list another_list ts src (rec_prop record) ty;
      match another with
      | Thrown => Some Thrown
      | Returned another_offset => Some (Returned (if rec_out record then (cur_offset, another_offset) else (another_offset, cur_offset)))
      end
  end.

(** ** What a search finds *)

Lemma vat_cons_pos (x : nbr D) k i : 0 < i -> vat (x :: k) i = vat k (i - 1).
Proof. intros Hi. unfold vat. by replace (Z.to_nat i) with (S (Z.to_nat (i - 1))) by lia. Qed.

Lemma indexed_elem ts cur k i x : (i, x) ∈ indexed ts cur k <-> cur <= i < cur + vlen k /\ x = vat k (i - cur) /\ visible ts x = true.
Proof.
  revert cur. induction k as [|y k IH]; intros cur; cbn [indexed].
  - rewrite elem_of_nil, vlen_nil. split; [done|lia].
  - rewrite vlen_cons. pose proof (vlen_nonneg k).
    assert ((i, x) ∈ indexed ts (cur + 1) k <-> i <> cur /\ cur <= i < cur + (1 + vlen k) /\ x = vat (y :: k) (i - cur) /\ visible ts x = true) as Hrest.
    { rewrite IH. destruct (decide (i = cur)) as [->|Hne]; [split; [lia|by intros [? _]]|]. split.
      - intros (Hi & -> & Hv). split_and!; [done|lia|lia| |done]. rewrite vat_cons_pos by lia. f_equal. lia.
      - intros (_ & Hi & -> & Hv). rewrite vat_cons_pos in * by lia. replace (i - cur - 1) with (i - (cur + 1)) in * by lia. split_and!; [lia|lia|done|done]. }
    destruct (visible ts y) eqn:E.
    + rewrite elem_of_cons, Hrest. split.
      * intros [[= -> ->]|(Hne & Hi & Hx & Hv)]; [|done]. rewrite Z.sub_diag. split_and!; [lia|lia|done|done].
      * intros (Hi & Hx & Hv). destruct (decide (i = cur)) as [->|Hne]; [left|right; done]. rewrite Z.sub_diag in Hx. by rewrite Hx.
    + rewrite Hrest. split; [by intros (_ & ?)|]. intros (Hi & Hx & Hv). split_and!; try done; try lia. intros ->. rewrite Z.sub_diag in Hx. change (vat (y :: k) 0) with y in Hx. congruence.
Qed.

(** The comparison the program makes decides equality of the data. *)
Record exact_data (ty : DataTypeId) : Prop := {
  ed_type : ty = pu_type U;
  ed_comparable : comparable ty = true;
  ed_eqb a b : eqb a b = true <-> a = b
}.

Lemma nbr_data_eq_exact ty p q x y : exact_data ty -> at_ptr p = Some x -> at_ptr q = Some y ->
  nbr_data_eq p q ty = Some (Returned (eqb (data x) (data y))).
Proof. intros [-> Hc _] Hp Hq. unfold nbr_data_eq. rewrite Hc, bool_decide_eq_true_2 by done. simpl. by rewrite Hp, Hq. Qed.

(** The first candidate with the data and the timestamp is found. *)
Lemma find_exact_spec ty nl k q y cands : exact_data ty -> reads (nl_load nl) 0 k -> at_ptr q = Some y ->
  (forall i, i ∈ cands -> 0 <= i < vlen k) ->
  (exists i, i ∈ cands /\ data (vat k i) = data y /\ timestamp (vat k i) = timestamp y) ->
  exists i, find_exact_match_in_candidates cands nl q ty = Some (Returned i) /\ i ∈ cands /\
    data (vat k i) = data y /\ timestamp (vat k i) = timestamp y.
Proof.
  intros He Hr Hq. induction cands as [|i cands IH]; intros Hc (j & Hj & Hd & Ht); [by apply elem_of_nil in Hj|].
  assert (at_ptr (nl_load nl, i) = Some (vat k i)) as Hi by (apply (Hr i), Hc; left).
  cbn [find_exact_match_in_candidates]. rewrite (nbr_data_eq_exact ty _ q _ y He Hi Hq). cbn [mbind option_bind].
  assert ((exists i', find_exact_match_in_candidates cands nl q ty = Some (Returned i') /\ i' ∈ i :: cands /\
    data (vat k i') = data y /\ timestamp (vat k i') = timestamp y) \/ (j = i)) as Hrest.
  { apply elem_of_cons in Hj as [->|Hj]; [by right|left]. destruct IH as (i' & H1 & H2 & H3 & H4).
    - intros i' Hi'. apply Hc. by right.
    - by exists j.
    - exists i'. split_and!; try done. by right. }
  destruct (eqb (data (vat k i)) (data y)) eqn:E.
  - unfold nbr_ts_eq. rewrite Hi, Hq. cbn [mbind option_bind]. apply (ed_eqb _ He) in E. destruct (Z.eqb_spec (timestamp (vat k i)) (timestamp y)) as [Et|Et].
    + exists i. split_and!; try done. left.
    + destruct Hrest as [?| ->]; done.
  - cbn [mbind option_bind]. destruct Hrest as [?| ->]; [done|]. rewrite Hd in E. by rewrite (proj2 (ed_eqb _ He _ _)) in E.
Qed.

Lemma fuzzy_search_spec ty nl k ts v q y : exact_data ty -> nl_len nl = vlen k -> reads (nl_load nl) 0 k -> at_ptr q = Some y ->
  visible ts y = true -> Nbr v (timestamp y) (data y) ∈ k ->
  exists i, fuzzy_search_offset_from_nbr_list nl ts v q ty = Some (Returned i) /\ 0 <= i < vlen k /\ vat k i = Nbr v (timestamp y) (data y).
Proof.
  intros He Hl Hr Hq Hv Hin. unfold fuzzy_search_offset_from_nbr_list. rewrite (visit_spec nl k ts Hl Hr). cbn [mbind option_bind].
  set (cands := (filter _ _).*1).
  assert (forall i, i ∈ cands <-> 0 <= i < vlen k /\ visible ts (vat k i) = true /\ neighbor (vat k i) = v) as Hc.
  { intros i. unfold cands. rewrite list_elem_of_fmap. split.
    - intros ([i' x] & -> & [Hn Hx]%list_elem_of_filter). apply indexed_elem in Hx as (Hi & -> & Hvis). rewrite Z.sub_0_r in *. simpl in *. split_and!; [lia|lia|done|done].
    - intros (Hi & Hvis & Hn). exists (i, vat k i). split; [done|]. apply list_elem_of_filter. split; [done|]. apply indexed_elem. rewrite Z.sub_0_r. split_and!; [lia|lia|done|done]. }
  apply list_elem_of_lookup in Hin as [j Hj]. assert (vat k (Z.of_nat j) = Nbr v (timestamp y) (data y)) as Hvj by (unfold vat; rewrite Nat2Z.id; by apply list_lookup_total_correct).
  assert (Z.of_nat j ∈ cands) as Hjc.
  { apply Hc. rewrite Hvj. apply lookup_lt_Some in Hj. unfold vlen. split_and!; [lia|lia|done|done]. }
  destruct cands as [|i [|i' cands]]; [by apply elem_of_nil in Hjc| |].
  - apply list_elem_of_singleton in Hjc as <-. exists (Z.of_nat j). split; [done|]. split; [apply Hc; left|done].
  - destruct (find_exact_spec ty nl k q y (i :: i' :: cands) He Hr Hq) as (o & -> & Ho & Hd & Ht).
    + intros o Ho. by apply Hc.
    + exists (Z.of_nat j). by rewrite Hvj.
    + exists o. apply Hc in Ho as (Ho & _ & Hn). split; [done|]. split; [done|]. destruct (vat k o). simpl in *. congruence.
Qed.
End search.
