(* ===== verification/EdgeTable.v ===== *)
(** * Edge tables

    [EdgeTable] (include/neug/storages/graph/edge_table.h,
    src/storages/graph/edge_table.cc): the edges of one label between two vertex
    labels, in one CSR by source and one by destination.  The data of an edge is its
    only property ("bundled"), or the number of its row in a property table.  The
    CSRs are any two implementations of [CsrBase] for the type of the data.  An
    exception leaves what was done before it. *)
From stdpp Require Import strings.
From S2P Require Import Prelude Storage Bitset Property Column Table.
From S2P Require Import Aggregate MutableCsr CsrRows CsrOps CsrLists CsrDelete CsrEdges NbrView SingleCsr CsrInterface OffsetSearch EdgeSchema.
#[local] Open Scope Z_scope.

(** [meta_->properties.empty() || meta_->properties[0] == kEmpty]. *)
Definition no_data (m : EdgeSchema) : bool :=
  match properties m with [] => true | (ty, _) :: _ => bool_decide (ty = kEmpty) end.

(** [while (new_size >= new_cap)]: one round is enough ([grow_capacity_ends]). *)
Fixpoint grow_capacity (fuel : nat) (new_size new_cap : Z) : option Z :=
  if new_size <? new_cap then Some new_cap
  else match fuel with
       | O => None
       | S fuel => grow_capacity fuel new_size (if new_cap <? 4096 then 4096 else new_cap + (new_cap + 4) / 5)
       end.

Section edge_table.
Context {D Cout Cin : Type} `{NbrMemory D} (U : PropUtils D) (eqb : D -> D -> bool) `{CsrBase D Cout, CsrBase D Cin}.

Record EdgeTable := MkEdgeTable {
  meta_ : EdgeSchema;
  out_csr_ : Cout;
  in_csr_ : Cin;
  table_ : Table;
  table_idx_ : Z;
  capacity_ : Z
}.
Implicit Types t : EdgeTable.

Definition with_out t (c : Cout) : EdgeTable := MkEdgeTable (meta_ t) c (in_csr_ t) (table_ t) (table_idx_ t) (capacity_ t).
Definition with_in t (c : Cin) : EdgeTable := MkEdgeTable (meta_ t) (out_csr_ t) c (table_ t) (table_idx_ t) (capacity_ t).
Definition with_table t (tb : Table) : EdgeTable := MkEdgeTable (meta_ t) (out_csr_ t) (in_csr_ t) tb (table_idx_ t) (capacity_ t).
Definition with_idx t (n : Z) : EdgeTable := MkEdgeTable (meta_ t) (out_csr_ t) (in_csr_ t) (table_ t) (to_u64 n) (capacity_ t).
Definition with_capacity t (n : Z) : EdgeTable := MkEdgeTable (meta_ t) (out_csr_ t) (in_csr_ t) (table_ t) (table_idx_ t) n.

(** [put_generic_edge] of both CSRs. *)
Definition out_put t (src dst : Z) (p : Property) (ts : Z) : option (outcome Z * EdgeTable) :=
  d ← to_typed U p; through (with_out t) (csr_put_edge (out_csr_ t) src dst d ts).
Definition in_put t (dst src : Z) (p : Property) (ts : Z) : option (outcome Z * EdgeTable) :=
  d ← to_typed U p; through (with_in t) (csr_put_edge (in_csr_ t) dst src d ts).

Definition AddEdge t (src_lid dst_lid : Z) (edge_data : list Property) (ts : Z) (insert_safe : bool) : option (outcome Z * EdgeTable) :=
  if is_bundled (meta_ t) then
    let bundled_data := match edge_data with [] => PEmpty | p :: _ => p end in
    and_then (in_put t dst_lid src_lid bundled_data ts) (fun _ t => out_put t src_lid dst_lid bundled_data ts)
  else if negb (vlen (properties (meta_ t)) =? vlen edge_data) then Some (Thrown, t)
  else
    let row_id := table_idx_ t in
    let t := with_idx t (row_id + 1) in
    and_then (in_put t dst_lid src_lid (PUInt64 row_id) ts) (fun _ t =>
    and_then (out_put t src_lid dst_lid (PUInt64 row_id) ts) (fun oe_offset t =>
    and_then (through (with_table t) (table_insert (table_ t) row_id edge_data insert_safe)) (fun _ t =>
    Some (Returned oe_offset, t)))).

Definition Capacity t : Z := if is_bundled (meta_ t) then csr_capacity (out_csr_ t) else capacity_ t.
Definition PropTableSize t : Z := if is_bundled (meta_ t) then 0 else table_idx_ t.
Definition EdgeNum t : Z := csr_edge_num (out_csr_ t).
Definition PropertyNum t : Z := col_num (table_ t).

Definition EnsureCapacity t (capacity : Z) : option (outcome unit * EdgeTable) :=
  if is_bundled (meta_ t) then Some (Returned tt, t)
  else if capacity <=? capacity_ t then Some (Returned tt, t)
  else
    let capacity := Z.max capacity 4096 in
    and_then (through (with_table t) (table_resize_default (table_ t) capacity (default_property_values (meta_ t)))) (fun _ t =>
    Some (Returned tt, with_capacity t capacity)).

Definition EnsureCapacities t (src_v_cap dst_v_cap capacity : Z) : option (outcome unit * EdgeTable) :=
  t ← (if csr_size (out_csr_ t) <? src_v_cap then c ← csr_resize (out_csr_ t) src_v_cap; Some (with_out t c) else Some t);
  t ← (if csr_size (in_csr_ t) <? dst_v_cap then c ← csr_resize (in_csr_ t) dst_v_cap; Some (with_in t c) else Some t);
  EnsureCapacity t capacity.

(** *** Batches *)

Definition put_batch t (src_lid dst_lid : list Z) (edge_data : list D) : option EdgeTable :=
  o ← csr_batch_put_edges (out_csr_ t) src_lid dst_lid edge_data 0;
  i ← csr_batch_put_edges (in_csr_ t) dst_lid src_lid edge_data 0;
  Some (with_in (with_out t o) i).

(** [insert_edges_separated_impl]: the data are the row numbers from [offset]. *)
Definition insert_edges_separated_impl t (src_lid dst_lid : list Z) (offset : Z) : option EdgeTable :=
  edge_data ← mapM (fun i => to_typed U (PUInt64 (to_u64 (offset + i)))) (seqZ 0 (vlen src_lid));
  put_batch t src_lid dst_lid edge_data.

(** [batch_add_bundled_edges_impl]: without data, as many empty ones as edges. *)
Definition batch_add_bundled_edges_impl t (src_lid dst_lid : list Z) (edge_data : list Property) : option EdgeTable :=
  data ← mapM (to_typed U) (if no_data (meta_ t) then replicate (length src_lid) PEmpty else edge_data);
  put_batch t src_lid dst_lid data.

(** The rows of a batch from [offset]; an exception ends the loop. *)
Fixpoint insert_rows (tb : Table) (offset : Z) (rows : list (list Property)) : option (outcome unit * Table) :=
  match rows with
  | [] => Some (Returned tt, tb)
  | row :: rows => and_then (table_insert tb offset row true) (fun _ tb => insert_rows tb (offset + 1) rows)
  end.

Definition add_unbundled t (src_lid dst_lid : list Z) (rows : list (list Property)) : option (outcome unit * EdgeTable) :=
  let offset := table_idx_ t in
  let t := with_idx t (offset + vlen src_lid) in
  t ← insert_edges_separated_impl t src_lid dst_lid offset;
  through (with_table t) (insert_rows (table_ t) offset rows).

(** The growth before a batch. *)
Definition ensure_batch t (n : Z) : option (outcome unit * EdgeTable) :=
  let new_size := to_u64 (table_idx_ t + n) in
  if new_size <? Capacity t then Some (Returned tt, t)
  else new_cap ← grow_capacity 1 new_size new_size; EnsureCapacity t new_cap.

Definition BatchAddEdges t (src_lid_list dst_lid_list : list Z) (edge_data_list : list (list Property)) : option (outcome unit * EdgeTable) :=
  and_then (ensure_batch t (vlen src_lid_list)) (fun _ t =>
    if is_bundled (meta_ t) then
      flat_edge_data ← match properties (meta_ t) with
                       | [] => None
                       | (ty, _) :: _ => if bool_decide (ty = kEmpty) then Some [] else mapM head edge_data_list
                       end;
      t ← batch_add_bundled_edges_impl t src_lid_list dst_lid_list flat_edge_data; Some (Returned tt, t)
    else add_unbundled t src_lid_list dst_lid_list edge_data_list).

Definition INVALID_VID : Z := 2 ^ 32 - 1.

(** [filterInvalidEdges]: edges whose end points were both found. *)
Definition valid_flags (src_lid dst_lid : list Z) : list bool :=
  zip_with (fun s d => negb (s =? INVALID_VID) && negb (d =? INVALID_VID)) src_lid dst_lid.
Definition filter_flags {A} (flags : list bool) (l : list A) : list A := (filter (fun p : bool * A => p.1 = true) (zip flags l)).*2.

(** The overload that reads record batches: [src_lid], [dst_lid] and [rows] are what
    the indexers and the columns of the batches give. *)
Definition BatchAddRecords t (src_num dst_num : Z) (src_lid dst_lid : list Z) (rows : list (list Property)) : option (outcome unit * EdgeTable) :=
  i ← csr_resize (in_csr_ t) dst_num; o ← csr_resize (out_csr_ t) src_num;
  let t := with_out (with_in t i) o in
  let flags := valid_flags src_lid dst_lid in
  let src_lid := filter_flags flags src_lid in
  let dst_lid := filter_flags flags dst_lid in
  let rows := filter_flags flags rows in
  and_then (ensure_batch t (vlen src_lid)) (fun _ t =>
    if is_bundled (meta_ t) then
      flat_edge_data ← (if no_data (meta_ t) then Some [] else mapM head rows);
      t ← batch_add_bundled_edges_impl t src_lid dst_lid flat_edge_data; Some (Returned tt, t)
    else add_unbundled t src_lid dst_lid rows).

(** *** Deletion *)

Definition BatchDeleteVertices t (src_set dst_set : gset Z) : option EdgeTable :=
  o ← csr_batch_delete_vertices (out_csr_ t) src_set dst_set;
  i ← csr_batch_delete_vertices (in_csr_ t) dst_set src_set;
  Some (with_in (with_out t o) i).

Definition BatchDeleteEdges t (src_list dst_list : list Z) : option EdgeTable :=
  o ← csr_batch_delete_edges (out_csr_ t) src_list dst_list;
  i ← csr_batch_delete_edges (in_csr_ t) dst_list src_list;
  Some (with_in (with_out t o) i).

Definition BatchDeleteOffsets t (oe_edges ie_edges : list (Z * Z)) : option EdgeTable :=
  o ← csr_batch_delete_offsets (out_csr_ t) oe_edges;
  i ← csr_batch_delete_offsets (in_csr_ t) ie_edges;
  Some (with_in (with_out t o) i).

Definition DeleteEdge t (src_lid dst_lid oe_offset ie_offset ts : Z) : option (outcome unit * EdgeTable) :=
  and_then (through (with_out t) (csr_delete_edge (out_csr_ t) src_lid oe_offset ts)) (fun _ t =>
  through (with_in t) (csr_delete_edge (in_csr_ t) dst_lid ie_offset ts)).

Definition RevertDeleteEdge t (src_lid dst_lid oe_offset ie_offset ts : Z) : option (outcome unit * EdgeTable) :=
  and_then (through (with_out t) (csr_revert_delete_edge (out_csr_ t) src_lid dst_lid oe_offset ts)) (fun _ t =>
  through (with_in t) (csr_revert_delete_edge (in_csr_ t) dst_lid src_lid ie_offset ts)).

(** The body of the loops of [DeleteVertex] at the entry [offset] of [vid]'s list. *)
Definition delete_out t (vid : Z) (x : nbr D) (offset ts : Z) : option (outcome unit * EdgeTable) :=
  r ← search_other_offset_with_cur_offset U eqb (out_csr_ t) (in_csr_ t) ts vid (neighbor x) offset (properties (meta_ t));
  match r with Thrown => Some (Thrown, t) | Returned ie_offset => DeleteEdge t vid (neighbor x) offset ie_offset ts end.
Definition delete_in t (vid : Z) (x : nbr D) (offset ts : Z) : option (outcome unit * EdgeTable) :=
  r ← search_other_offset_with_cur_offset U eqb (in_csr_ t) (out_csr_ t) ts vid (neighbor x) offset (properties (meta_ t));
  match r with Thrown => Some (Thrown, t) | Returned oe_offset => DeleteEdge t (neighbor x) vid oe_offset offset ts end.

(** [for (iter = begin; iter != end; ++iter)] over a list that the body changes;
    the recursion is on the number of entries. *)
Fixpoint delete_loop (fuel : nat) (nl : EdgeTable -> option (NbrList D)) (body : EdgeTable -> nbr D -> Z -> option (outcome unit * EdgeTable))
    (cur ts : Z) t : option (outcome unit * EdgeTable) :=
  match fuel with
  | O => Some (Returned tt, t)
  | S fuel =>
      l ← nl t;
      if cur =? nl_len l then Some (Returned tt, t)
      else
        x ← nl_load l cur;
        and_then (if ts <? timestamp x then Some (Returned tt, t) else body t x cur) (fun _ t =>
          l ← nl t; next ← it_next (nl_load l) cur (nl_len l) ts; delete_loop fuel nl body next ts t)
  end.

Definition delete_row (nl : EdgeTable -> option (NbrList D)) (body : EdgeTable -> nbr D -> Z -> option (outcome unit * EdgeTable)) (ts : Z) t :
    option (outcome unit * EdgeTable) :=
  l ← nl t; start ← it_init (nl_load l) 0 (nl_len l) ts; delete_loop (Z.to_nat (nl_len l)) nl body start ts t.

Definition DeleteVertex t (is_src : bool) (vid ts : Z) : option (outcome unit * EdgeTable) :=
  if is_src then delete_row (fun t => csr_nbr_list (out_csr_ t) vid) (fun t x offset => delete_out t vid x offset ts) ts t
  else delete_row (fun t => csr_nbr_list (in_csr_ t) vid) (fun t x offset => delete_in t vid x offset ts) ts t.

(** *** Properties of an edge *)

(** [EdgeDataAccessor]: the type and the column, null for bundled data. *)
Definition get_edge_data_accessor t (col_id : Z) : option (DataTypeId * option Column) :=
  if is_bundled (meta_ t) then Some (match properties (meta_ t) with [] => kEmpty | (ty, _) :: _ => ty end, None)
  else ty ← vget (properties (meta_ t)) col_id; Some (fst ty, get_column_by_id (table_ t) col_id).

(** [*reinterpret_cast<const size_t*>(it.get_data_ptr())]. *)
Definition row_of (d : D) : option Z := match to_prop U d with PUInt64 i => Some i | _ => None end.

Definition get_data t (col_id : Z) (x : nbr D) : option (outcome Property) :=
  '(ty, column) ← get_edge_data_accessor t col_id;
  match column with
  | Some c => i ← row_of (data x); p ← col_get_prop c i; Some (Returned p)
  | None =>
      if bool_decide (ty = kEmpty) then Some (Returned PEmpty)
      else if comparable ty then Some (Returned (to_prop U (data x))) else Some Thrown
  end.

(** [oe_iter += offset]; an iterator at the end is not advanced within the list. *)
Fixpoint it_advance (n : nat) (l : NbrList D) (cur ts : Z) : option Z :=
  match n with
  | O => Some cur
  | S n => if cur =? nl_len l then None else next ← it_next (nl_load l) cur (nl_len l) ts; it_advance n l next ts
  end.

(** [set_data] of an accessor at an entry of a mutable CSR: [write] stores the entry. *)
Definition set_data (write : EdgeTable -> nbr D -> option EdgeTable) t (col_id : Z) (x : nbr D) (prop : Property) (ts : Z) :
    option (outcome unit * EdgeTable) :=
  '(ty, column) ← get_edge_data_accessor t col_id;
  let x := with_timestamp ts x in
  t ← write t x;
  match column with
  | Some c =>
      i ← row_of (data x);
      '(r, c) ← col_set_prop c i prop;
      cs ← vset (columns_ (table_ t)) col_id (Some c);
      Some (r, with_table t (with_columns cs (table_ t)))
  | None =>
      if bool_decide (ty = kEmpty) then Some (Returned tt, t)
      else if comparable ty then d ← to_typed U prop; t ← write t (Nbr (neighbor x) ts d); Some (Returned tt, t)
      else Some (Thrown, t)
  end.

Definition UpdateEdgeProperty t (src_lid dst_lid oe_offset ie_offset col_id : Z) (prop : Property) (ts : Z) : option (outcome unit * EdgeTable) :=
  l ← csr_nbr_list (out_csr_ t) src_lid;
  cur ← it_init (nl_load l) 0 (nl_len l) ts;
  cur ← it_advance (Z.to_nat oe_offset) l cur ts;
  if cur =? nl_len l then Some (Thrown, t)
  else
    x ← nl_load l cur;
    and_then (set_data (fun t x => c ← csr_write (out_csr_ t) src_lid cur x; Some (with_out t c)) t col_id x prop ts) (fun _ t =>
      if negb (is_bundled (meta_ t)) then Some (Returned tt, t)
      else
        l ← csr_nbr_list (in_csr_ t) dst_lid;
        cur ← it_init (nl_load l) 0 (nl_len l) ts;
        cur ← it_advance (Z.to_nat ie_offset) l cur ts;
        if cur =? nl_len l then Some (Thrown, t)
        else
          x ← nl_load l cur;
          set_data (fun t x => c ← csr_write (in_csr_ t) dst_lid cur x; Some (with_in t c)) t col_id x prop ts).

(** *** Compaction *)

Definition Compact t (compact_csr sort_on_compaction : bool) (ts : Z) : option (outcome unit * EdgeTable) :=
  and_then (if compact_csr
            then and_then (through (with_out t) (csr_compact (out_csr_ t))) (fun _ t => through (with_in t) (csr_compact (in_csr_ t)))
            else Some (Returned tt, t)) (fun _ t =>
  t ← (if sort_on_compaction
       then o ← csr_sort (out_csr_ t) ts; i ← csr_sort (in_csr_ t) ts; Some (with_in (with_out t o) i)
       else Some t);
  o ← csr_reset_timestamp (out_csr_ t); i ← csr_reset_timestamp (in_csr_ t);
  Some (Returned tt, with_in (with_out t o) i)).
End edge_table.
Arguments EdgeTable : clear implicits.
