(* ===== verification/EdgePairs.v ===== *)
(** * The two CSRs of an edge table

    Every operation of an edge table keeps the incoming CSR the mirror image of the
    outgoing one, and changes the multiset of edges as it should.  The lemmas use
    the laws of a CSR ([CsrLaws]) only. *)
From stdpp Require Import strings.
From S2P Require Import Prelude Storage Bitset Property Column Table.
From S2P Require Import Aggregate MutableCsr CsrRows CsrOps CsrLists CsrDelete CsrEdges NbrView SingleCsr CsrInterface OffsetSearch EdgeSchema EdgeTable.
#[local] Open Scope Z_scope.

Definition next_cap (n : Z) : Z := if n <? 4096 then 4096 else n + (n + 4) / 5.

Lemma grow_capacity_ends n : grow_capacity 1 n n = Some (next_cap n) /\ n < next_cap n.
Proof.
  unfold next_cap. cbn [grow_capacity]. rewrite Z.ltb_irrefl. destruct (Z.ltb_spec n 4096).
  - rewrite (proj2 (Z.ltb_lt _ _)) by lia. split; [done|lia].
  - pose proof (Z.div_le_lower_bound (n + 4) 5 1 ltac:(lia) ltac:(lia)). rewrite (proj2 (Z.ltb_lt _ _)) by lia. split; [done|lia].
Qed.

(** ** Lists of entries *)

Section rows.
Context {D : Type} `{NbrMemory D}.
Implicit Types (l k : list (nbr D)) (adj : list (list (nbr D))).

Lemma vput_twice {A} (l : list A) i x y : vput (vput l i x) i y = vput l i y.
Proof. apply list_insert_insert_eq. Qed.

(** The iterator moves over invisible entries only. *)
Lemma skip_split ld cur k ts : reads ld cur k -> exists pre k', k = pre ++ k' /\ (forall x, x ∈ pre -> visible ts x = false) /\
  skip_invisible (length k) ld cur (cur + vlen k) ts = Some (cur + vlen pre) /\ match k' with [] => True | x :: _ => visible ts x = true end.
Proof.
  revert cur. induction k as [|x k IH]; intros cur Hr.
  - exists [], []. rewrite vlen_nil. split_and!; [done|by intros ? ?%elem_of_nil|simpl; f_equal; lia|done].
  - destruct (reads_cons _ _ _ _ Hr) as [Hx Hk]. pose proof (vlen_nonneg k). cbn [length skip_invisible]. rewrite vlen_cons.
    rewrite (proj2 (Z.eqb_neq _ _)) by lia. rewrite Hx. cbn [mbind option_bind]. destruct (Z.ltb_spec ts (timestamp x)) as [Hlt|Hge].
    + destruct (IH (cur + 1) Hk) as (pre & k' & -> & Hpre & Hs & Hk'). exists (x :: pre), k'. split; [done|]. split.
      { intros y [->|Hy]%elem_of_cons; [unfold visible; by apply Z.leb_gt|by apply Hpre]. }
      split; [|done]. replace (cur + (1 + vlen (pre ++ k'))) with (cur + 1 + vlen (pre ++ k')) by lia. rewrite Hs, vlen_cons. f_equal. lia.
    + exists [], (x :: k). rewrite vlen_nil. split_and!; [done|by intros ? ?%elem_of_nil|f_equal; lia|unfold visible; by apply Z.leb_le].
Qed.

Lemma reads_app ld cur l k : reads ld cur (l ++ k) -> reads ld (cur + vlen l) k.
Proof.
  intros Hr j Hj. pose proof (vlen_nonneg l). rewrite <-Z.add_assoc, Hr by (rewrite vlen_app; lia). rewrite vat_app, decide_False by lia.
  by replace (vlen l + j - vlen l) with j by lia.
Qed.

Lemma visible_live ts (x : nbr D) : ts < INVALID_TIMESTAMP -> visible ts x = true -> live x = true.
Proof. unfold visible, live. intros Hts Hv%Z.leb_le. apply negb_true_iff, Z.eqb_neq. lia. Qed.

Lemma kill_if_none (P : nbr D -> bool) l : (forall x, x ∈ l -> P x = false) -> map (kill_if P) l = l.
Proof.
  induction l as [|x l IH]; intros HP; [done|]. cbn [map]. f_equal; [|apply IH; set_solver]. unfold kill_if. by rewrite HP by set_solver.
Qed.

Lemma keeps_kill (P : nbr D -> bool) l : keeps live (map (kill_if P) l) = filter (fun x => negb (P x) = true) (keeps live l).
Proof.
  unfold keeps. induction l as [|x l IH]; [done|]. cbn [map]. rewrite !(filter_cons (fun x : nbr D => live x = true)), IH.
  destruct (P x) eqn:E; unfold kill_if; rewrite E.
  - rewrite live_kill, decide_False by done. case_decide; [|done]. by rewrite filter_cons, decide_False by (by rewrite E).
  - case_decide; [|done]. by rewrite filter_cons, decide_True by (by rewrite E).
Qed.

(** The visible entries of one row are deleted. *)
Lemma edges_kill_row adj v (P : nbr D -> bool) : 0 <= v < vlen adj ->
  edges (vput adj v (map (kill_if P) (vat adj v))) = filter (fun e => negb ((fst e =? v) && P (snd e)) = true) (edges adj).
Proof.
  intros Hv. apply (edges_filter adj _ (fun e => negb ((fst e =? v) && P (snd e)))); [apply vlen_vput|]. intros i Hi. cbn [fst snd].
  destruct (Z.eqb_spec i v) as [->|Hne].
  - rewrite vat_vput_eq by done. by rewrite keeps_kill.
  - rewrite vat_vput_ne by lia. symmetry. by apply filter_id.
Qed.

Lemma flip_filter (P : @edge D -> bool) (es : list (@edge D)) : flip <$> filter (fun e => P e = true) es = filter (fun e => P (flip e) = true) (flip <$> es).
Proof.
  induction es as [|e es IH]; [done|]. csimpl. rewrite !filter_cons, flip_flip. destruct (P e); [rewrite !decide_True by done; csimpl; by rewrite IH|].
  by rewrite !decide_False by done.
Qed.

Lemma mirrored_sym adj adj' : mirrored adj adj' -> mirrored adj' adj.
Proof.
  unfold mirrored. intros ->. rewrite <-list_fmap_compose. rewrite (list_fmap_ext _ id); [by rewrite list_fmap_id|]. intros i e _. apply flip_flip.
Qed.

Lemma mirrored_cons adj adj1 adj' adj1' (e : @edge D) : mirrored adj adj' -> edges adj ≡ₚ e :: edges adj1 -> edges adj' ≡ₚ flip e :: edges adj1' ->
  mirrored adj1 adj1'.
Proof. unfold mirrored. intros Hm H1 H2. rewrite H1, H2 in Hm. csimpl in Hm. by apply Permutation_cons_inv in Hm. Qed.

Lemma mirrored_filter adj adj1 adj' adj1' (P P' : @edge D -> bool) : mirrored adj adj' -> (forall e, P' (flip e) = P e) ->
  edges adj1 = filter (fun e => P e = true) (edges adj) -> edges adj1' = filter (fun e => P' e = true) (edges adj') -> mirrored adj1 adj1'.
Proof.
  unfold mirrored. intros Hm HP -> ->. rewrite Hm, flip_filter.
  assert (filter (fun e => P' e = true) (flip <$> edges adj) = filter (fun e => P (flip e) = true) (flip <$> edges adj)) as ->; [|done].
  apply list_filter_iff. intros e. pose proof (HP (flip e)) as He. rewrite flip_flip in He. by rewrite He.
Qed.

Lemma mirrored_mem adj adj' e : mirrored adj adj' -> e ∈ edges adj -> flip e ∈ edges adj'.
Proof. unfold mirrored. intros -> He. by apply list_elem_of_fmap_2. Qed.
End rows.

(** ** Deleting an edge found from one side *)

Section pair.
Context {D C C' : Type} `{NbrMemory D} (U : PropUtils D) (eqb : D -> D -> bool).
Context `{!CsrBase D C, !CsrModel D C, !CsrLaws D C, !CsrBase D C', !CsrModel D C', !CsrLaws D C'}.

Lemma delete_pair (c : C) (c' : C') adj adj' v off ts props : models c adj -> models c' adj' -> mirrored adj adj' ->
  exact_data U eqb (determine_search_prop_type props) -> ts < INVALID_TIMESTAMP ->
  0 <= v < vlen adj -> 0 <= off < vlen (vat adj v) -> visible ts (vat (vat adj v) off) = true ->
  let x := vat (vat adj v) off in let adj1 := vput adj v (vput (vat adj v) off (kill x)) in
  exists i adj1', search_other_offset_with_cur_offset U eqb c c' ts v (neighbor x) off props = Some (Returned i) /\
    wp (csr_delete_edge c v off ts) (fun r => fst r = Returned tt /\ models (snd r) adj1) /\
    wp (csr_delete_edge c' (neighbor x) i ts) (fun r => fst r = Returned tt /\ models (snd r) adj1') /\
    vlen adj1' = vlen adj' /\ mirrored adj1 adj1'.
Proof.
  intros Hc Hc' Hm He Hts Hv Hoff Hvis x adj1. pose proof (visible_live ts x Hts Hvis) as Hlive. apply Z.leb_le in Hvis as Hle. fold x in Hle.
  assert ((v, x) ∈ edges adj) as Hin by (apply edges_elem; split_and!; [lia|lia|by apply vat_elem|done]).
  apply (mirrored_mem _ _ _ Hm), edges_elem in Hin as (Hn & Hy & _). cbn [fst snd flip] in Hn, Hy.
  destruct (law_nbr_list c adj v Hc Hv) as (nl & Hnl & Hlen & Hr). destruct (law_nbr_list c' adj' (neighbor x) Hc' Hn) as (nl' & Hnl' & Hlen' & Hr').
  destruct (fuzzy_search_spec U eqb _ nl' (vat adj' (neighbor x)) ts v (nl_load nl, off) x He Hlen' Hr') as (i & Hs & Hi & Hyi); [|done|done|].
  { unfold at_ptr. simpl. rewrite <-(Z.add_0_l off). rewrite Hr by done. done. }
  exists i, (vput adj' (neighbor x) (vput (vat adj' (neighbor x)) i (kill (vat (vat adj' (neighbor x)) i)))).
  split; [unfold search_other_offset_with_cur_offset; by rewrite Hnl', Hnl|]. split; [|split; [|split]].
  - apply (law_delete c adj); [done|done|done|]. fold x. lia.
  - apply (law_delete c' adj'); [done|done|done|]. rewrite Hyi. simpl. lia.
  - apply vlen_vput.
  - apply (mirrored_cons adj adj1 adj' _ (v, x) Hm); [by apply edges_kill|]. unfold flip. cbn [fst snd]. rewrite <-Hyi at 1.
    apply edges_kill; [done|done|]. rewrite Hyi. exact Hlive.
Qed.
End pair.

(** ** The table *)

Section table.
Context {D Cout Cin : Type} `{NbrMemory D} (U : PropUtils D) (eqb : D -> D -> bool).
Context `{!CsrBase D Cout, !CsrModel D Cout, !CsrLaws D Cout, !CsrBase D Cin, !CsrModel D Cin, !CsrLaws D Cin}.
Implicit Types t : EdgeTable Cout Cin.

(** The CSRs stand for adjacency lists that mirror each other. *)
Definition pair_rel t (ao ai : list (list (nbr D))) : Prop := models (out_csr_ t) ao /\ models (in_csr_ t) ai /\ mirrored ao ai.

(** All but the CSRs is the same. *)
Record same_rest t t' : Prop := {
  sr_meta : meta_ t' = meta_ t;
  sr_table : table_ t' = table_ t;
  sr_idx : table_idx_ t' = table_idx_ t;
  sr_cap : capacity_ t' = capacity_ t
}.

#[global] Instance same_rest_refl : Reflexive same_rest.
Proof. by split. Qed.
#[global] Instance same_rest_trans : Transitive same_rest.
Proof. intros t1 t2 t3 [] []. split; congruence. Qed.

Lemma same_rest_out t c : same_rest t (with_out t c).
Proof. done. Qed.
Lemma same_rest_in t c : same_rest t (with_in t c).
Proof. done. Qed.

(** *** [DeleteVertex] *)

(** A loop whose body deletes the entry it is given deletes the visible entries. *)
Lemma delete_loop_spec (P : EdgeTable Cout Cin -> list (nbr D) -> Prop) nl body ts :
  (forall t l, P t l -> exists nlx, nl t = Some nlx /\ nl_len nlx = vlen l /\ reads (nl_load nlx) 0 l) ->
  (forall t l off, P t l -> 0 <= off < vlen l -> visible ts (vat l off) = true ->
     wp (body t (vat l off) off) (fun r => fst r = Returned tt /\ P (snd r) (vput l off (kill (vat l off))))) ->
  ts < INVALID_TIMESTAMP ->
  forall fuel t pre k, P t (pre ++ k) -> (length k <= fuel)%nat -> match k with [] => True | x :: _ => visible ts x = true end ->
  wp (delete_loop fuel nl body (vlen pre) ts t) (fun r => fst r = Returned tt /\ P (snd r) (pre ++ map (kill_if (visible ts)) k)).
Proof.
  intros Hnl Hbody Hts. induction fuel as [|fuel IH]; intros t pre k HP Hf Hk.
  - destruct k; [|simpl in Hf; lia]. split; [done|]. exact HP.
  - destruct (Hnl _ _ HP) as (nlx & Hn & Hlen & Hr). cbn [delete_loop]. rewrite Hn. cbn [mbind option_bind]. rewrite Hlen, vlen_app.
    pose proof (vlen_nonneg k). destruct k as [|x k].
    + rewrite vlen_nil, Z.add_0_r, Z.eqb_refl. split; [done|]. exact HP.
    + rewrite vlen_cons. pose proof (vlen_nonneg k). rewrite (proj2 (Z.eqb_neq _ _)) by lia. pose proof (vlen_nonneg pre).
      assert (vat (pre ++ x :: k) (vlen pre) = x) as Hx by (rewrite vat_app, decide_False, Z.sub_diag by lia; done).
      assert (nl_load nlx (vlen pre) = Some x) as Hl by (rewrite <-(Z.add_0_l (vlen pre)), Hr by (rewrite vlen_app, vlen_cons; lia); by rewrite Hx).
      rewrite Hl. cbn [mbind option_bind]. pose proof Hk as Hge%Z.leb_le. rewrite (proj2 (Z.ltb_ge _ _)) by lia. apply wp_and_then.
      assert (vput (pre ++ x :: k) (vlen pre) (kill x) = pre ++ kill x :: k) as Hput.
      { unfold vput, vlen. rewrite Nat2Z.id. by rewrite insert_app_r_alt, Nat.sub_diag by lia. }
      rewrite <-Hx at 1. eapply wp_mono; [apply (Hbody t (pre ++ x :: k)); [done|rewrite vlen_app, vlen_cons; lia|by rewrite Hx]|].
      intros [r t1] [Hr1 HP1]. cbn [fst snd] in *. exists tt. split; [done|]. rewrite Hx, Hput in HP1.
      destruct (Hnl _ _ HP1) as (nl1 & Hn1 & Hlen1 & Hr1'). rewrite Hn1. cbn [mbind option_bind]. unfold it_next.
      change (pre ++ kill x :: k) with (pre ++ [kill x] ++ k) in *. rewrite app_assoc in HP1, Hlen1, Hr1'. set (pre1 := pre ++ [kill x]) in *.
      assert (vlen pre1 = vlen pre + 1) as Hpre1 by (unfold pre1; by rewrite vlen_app, vlen_one).
      destruct (skip_split (nl_load nl1) (vlen pre + 1) k ts) as (pre2 & k2 & -> & Hpre2 & Hs & Hk2).
      { rewrite <-Hpre1. pose proof (reads_app _ 0 pre1 k Hr1') as Hra. by rewrite Z.add_0_l in Hra. }
      rewrite Hlen1, vlen_app, Hpre1. replace (vlen pre + 1 + vlen (pre2 ++ k2) - (vlen pre + 1)) with (vlen (pre2 ++ k2)) by lia.
      unfold vlen at 1. rewrite Nat2Z.id, Hs. cbn [mbind option_bind]. replace (vlen pre + 1 + vlen pre2) with (vlen (pre1 ++ pre2)) by (rewrite vlen_app; lia).
      rewrite app_assoc in HP1. eapply wp_mono; [apply (IH t1 (pre1 ++ pre2) k2); [done|simpl in Hf; rewrite length_app in Hf; lia|done]|].
      intros [r2 t2] [Hr2 HP2]. cbn [fst snd] in *. split; [done|]. cbn [map]. rewrite map_app, (kill_if_none _ pre2) by done.
      assert (kill_if (visible ts) x = kill x) as -> by (unfold kill_if; by rewrite Hk). unfold pre1 in HP2. by rewrite <-!app_assoc in HP2.
Qed.

Lemma delete_row_spec (P : EdgeTable Cout Cin -> list (nbr D) -> Prop) nl body ts t l :
  (forall t l, P t l -> exists nlx, nl t = Some nlx /\ nl_len nlx = vlen l /\ reads (nl_load nlx) 0 l) ->
  (forall t l off, P t l -> 0 <= off < vlen l -> visible ts (vat l off) = true ->
     wp (body t (vat l off) off) (fun r => fst r = Returned tt /\ P (snd r) (vput l off (kill (vat l off))))) ->
  ts < INVALID_TIMESTAMP -> P t l ->
  wp (delete_row nl body ts t) (fun r => fst r = Returned tt /\ P (snd r) (map (kill_if (visible ts)) l)).
Proof.
  intros Hnl Hbody Hts HP. destruct (Hnl _ _ HP) as (nlx & Hn & Hlen & Hr). unfold delete_row, it_init. rewrite Hn. cbn [mbind option_bind].
  rewrite Hlen, Z.sub_0_r. destruct (skip_split (nl_load nlx) 0 l ts Hr) as (pre & k & -> & Hpre & Hs & Hk).
  rewrite !Z.add_0_l in Hs. assert (length (pre ++ k) = Z.to_nat (vlen (pre ++ k))) as Hl by (unfold vlen; by rewrite Nat2Z.id).
  rewrite Hl in Hs. rewrite Hs. cbn [mbind option_bind].
  rewrite map_app, (kill_if_none _ pre) by done. apply delete_loop_spec; [done|done|done|done| |done].
  rewrite <-Hl, length_app. lia.
Qed.

Lemma nbr_list_out t ao ai v : pair_rel t ao ai -> 0 <= v < vlen ao ->
  exists nl, csr_nbr_list (out_csr_ t) v = Some nl /\ nl_len nl = vlen (vat ao v) /\ reads (nl_load nl) 0 (vat ao v).
Proof. intros (Ho & _ & _) Hv. by apply (law_nbr_list (out_csr_ t) ao v). Qed.

Lemma nbr_list_in t ao ai v : pair_rel t ao ai -> 0 <= v < vlen ai ->
  exists nl, csr_nbr_list (in_csr_ t) v = Some nl /\ nl_len nl = vlen (vat ai v) /\ reads (nl_load nl) 0 (vat ai v).
Proof. intros (_ & Hi & _) Hv. by apply (law_nbr_list (in_csr_ t) ai v). Qed.

(** The search type of a schema fits the data. *)
Definition searchable (m : EdgeSchema) : Prop := exact_data U eqb (determine_search_prop_type (properties m)).

(** The edges that are not visible or do not leave [v], or do not reach [v]. *)
Definition not_from (v ts : Z) (e : @edge D) : bool := negb ((fst e =? v) && visible ts (snd e)).
Definition not_to (v ts : Z) (e : @edge D) : bool := negb ((neighbor (snd e) =? v) && visible ts (snd e)).

Lemma DeleteVertex_out t ao ai v ts : pair_rel t ao ai -> searchable (meta_ t) -> ts < INVALID_TIMESTAMP -> 0 <= v < vlen ao ->
  wp (DeleteVertex U eqb t true v ts) (fun r => fst r = Returned tt /\ same_rest t (snd r) /\ exists ao' ai', pair_rel (snd r) ao' ai' /\
    vlen ao' = vlen ao /\ vlen ai' = vlen ai /\ edges ao' = filter (fun e => not_from v ts e = true) (edges ao)).
Proof.
  intros Hrel He Hts Hv. unfold DeleteVertex. set (P t' l := same_rest t t' /\ exists ai', pair_rel t' (vput ao v l) ai' /\ vlen ai' = vlen ai).
  eapply wp_mono; [apply (delete_row_spec P _ _ ts t (vat ao v))|].
  - intros t' l (_ & ai' & Hr & _). destruct (nbr_list_out t' _ ai' v Hr) as (nl & Hnl); [by rewrite vlen_vput|]. rewrite vat_vput_eq in Hnl by done. by exists nl.
  - intros t' l off (Hsr & ai' & (Ho & Hi & Hm) & Hlen) Hoff Hvis. rewrite <-(vat_vput_eq ao v l Hv) in Hoff, Hvis.
    destruct (delete_pair U eqb (out_csr_ t') (in_csr_ t') (vput ao v l) ai' v off ts (properties (meta_ t')) Ho Hi Hm) as (i & ai1 & Hs & Hdo & Hdi & Hl1 & Hm1);
      [by rewrite (sr_meta _ _ Hsr)|done|by rewrite vlen_vput|done|done|]. rewrite vat_vput_eq in * by done. unfold delete_out. rewrite Hs. cbn [mbind option_bind]. unfold DeleteEdge.
    apply wp_and_then, wp_through. eapply wp_mono; [exact Hdo|]. intros [r c] [Hr Hc]. cbn [fst snd] in *. exists tt. split; [done|].
    apply wp_through. eapply wp_mono; [exact Hdi|]. intros [r' c'] [Hr' Hc']. cbn [fst snd] in *. split; [done|]. split; [etrans; [exact Hsr|done]|].
    exists ai1. rewrite vput_twice in Hc, Hm1. split; [done|lia].
  - done.
  - split; [done|]. exists ai. rewrite vput_vat. done.
  - intros [r t'] (Hr & Hsr & ai' & Hrel' & Hlen). cbn [fst snd] in *. split; [done|]. split; [done|]. eexists _, ai'. split; [exact Hrel'|].
    split; [apply vlen_vput|]. split; [done|]. by apply edges_kill_row.
Qed.

Lemma DeleteVertex_in t ao ai v ts : pair_rel t ao ai -> searchable (meta_ t) -> ts < INVALID_TIMESTAMP -> 0 <= v < vlen ai ->
  wp (DeleteVertex U eqb t false v ts) (fun r => fst r = Returned tt /\ same_rest t (snd r) /\ exists ao' ai', pair_rel (snd r) ao' ai' /\
    vlen ao' = vlen ao /\ vlen ai' = vlen ai /\ edges ao' ≡ₚ filter (fun e => not_to v ts e = true) (edges ao)).
Proof.
  intros Hrel He Hts Hv. unfold DeleteVertex. set (P t' l := same_rest t t' /\ exists ao', pair_rel t' ao' (vput ai v l) /\ vlen ao' = vlen ao).
  eapply wp_mono; [apply (delete_row_spec P _ _ ts t (vat ai v))|].
  - intros t' l (_ & ao' & Hr & _). destruct (nbr_list_in t' ao' _ v Hr) as (nl & Hnl); [by rewrite vlen_vput|]. rewrite vat_vput_eq in Hnl by done. by exists nl.
  - intros t' l off (Hsr & ao' & (Ho & Hi & Hm) & Hlen) Hoff Hvis. rewrite <-(vat_vput_eq ai v l Hv) in Hoff, Hvis.
    destruct (delete_pair U eqb (in_csr_ t') (out_csr_ t') (vput ai v l) ao' v off ts (properties (meta_ t')) Hi Ho (mirrored_sym _ _ Hm)) as (i & ao1 & Hs & Hdi & Hdo & Hl1 & Hm1);
      [by rewrite (sr_meta _ _ Hsr)|done|by rewrite vlen_vput|done|done|]. rewrite vat_vput_eq in * by done. unfold delete_in. rewrite Hs. cbn [mbind option_bind]. unfold DeleteEdge.
    apply wp_and_then, wp_through. eapply wp_mono; [exact Hdo|]. intros [r c] [Hr Hc]. cbn [fst snd] in *. exists tt. split; [done|].
    apply wp_through. eapply wp_mono; [exact Hdi|]. intros [r' c'] [Hr' Hc']. cbn [fst snd] in *. split; [done|]. split; [etrans; [exact Hsr|done]|].
    exists ao1. rewrite vput_twice in Hc', Hm1. split; [|lia]. split_and!; [done|done|by apply mirrored_sym].
  - done.
  - split; [done|]. exists ao. rewrite vput_vat. done.
  - intros [r t'] (Hr & Hsr & ao' & Hrel' & Hlen). cbn [fst snd] in *. split; [done|]. split; [done|]. exists ao'. eexists. split; [exact Hrel'|].
    split; [done|]. split; [apply vlen_vput|]. pose proof Hrel' as (_ & _ & Hm'%mirrored_sym). pose proof Hrel as (_ & _ & Hm%mirrored_sym). unfold mirrored in Hm, Hm'.
    rewrite Hm', edges_kill_row by done.
    etrans; [apply reflexive_eq, (flip_filter (fun e => negb ((fst e =? v) && visible ts (snd e))))|]. by rewrite Hm.
Qed.

(** *** Insertion *)

Lemma in_put_wp t ai src dst p d ts : models (in_csr_ t) ai -> to_typed U p = Some d -> 0 <= dst < vlen ai -> room (C := Cin) (vat ai dst) ->
  ts <> INVALID_TIMESTAMP ->
  wp (in_put U t dst src p ts) (fun r => exists off, fst r = Returned off /\ exists c ai', snd r = with_in t c /\ models c ai' /\ vlen ai' = vlen ai /\
    edges ai' ≡ₚ (dst, Nbr src ts d) :: edges ai).
Proof.
  intros Hi Hd Hdst Hroom Hts. unfold in_put. rewrite Hd. cbn [mbind option_bind]. apply wp_through.
  eapply wp_mono; [apply (law_put (in_csr_ t) ai dst src d ts); done|]. intros [r c] (off & l & Hr & Hc & _ & _ & Hk). cbn [fst snd] in *.
  exists off. split; [done|]. eexists c, _. split; [done|]. split; [exact Hc|]. split; [apply vlen_vput|]. by apply edges_cons.
Qed.

Lemma out_put_wp t ao src dst p d ts : models (out_csr_ t) ao -> to_typed U p = Some d -> 0 <= src < vlen ao -> room (C := Cout) (vat ao src) ->
  ts <> INVALID_TIMESTAMP ->
  wp (out_put U t src dst p ts) (fun r => exists off, fst r = Returned off /\ exists c ao', snd r = with_out t c /\ models c ao' /\ vlen ao' = vlen ao /\
    edges ao' ≡ₚ (src, Nbr dst ts d) :: edges ao /\ 0 <= off < vlen (vat ao' src) /\ vat (vat ao' src) off = Nbr dst ts d).
Proof.
  intros Ho Hd Hsrc Hroom Hts. unfold out_put. rewrite Hd. cbn [mbind option_bind]. apply wp_through.
  eapply wp_mono; [apply (law_put (out_csr_ t) ao src dst d ts); done|]. intros [r c] (off & l & Hr & Hc & Hoff & Hx & Hk). cbn [fst snd] in *.
  exists off. split; [done|]. eexists c, _. split; [done|]. split; [exact Hc|]. split; [apply vlen_vput|]. split; [by apply edges_cons|].
  by rewrite vat_vput_eq.
Qed.

Lemma mirrored_put (ao ai ao' ai' : list (list (nbr D))) src dst ts d : mirrored ao ai -> edges ao' ≡ₚ (src, Nbr dst ts d) :: edges ao ->
  edges ai' ≡ₚ (dst, Nbr src ts d) :: edges ai -> mirrored ao' ai'.
Proof. unfold mirrored. intros Hm -> ->. csimpl. by rewrite Hm. Qed.

(** A batch fits both CSRs. *)
Record batch_fits (ao ai : list (list (nbr D))) (src_lid dst_lid : list Z) : Prop := {
  bf_len : vlen src_lid = vlen dst_lid;
  bf_max : vlen src_lid <= INT_MAX;
  bf_src : Forall (fun i => 0 <= i < vlen ao) src_lid;
  bf_dst : Forall (fun i => 0 <= i < vlen ai) dst_lid;
  bf_out : batch_room (C := Cout) ao src_lid;
  bf_in : batch_room (C := Cin) ai dst_lid
}.

Lemma put_batch_wp t ao ai src_lid dst_lid (data : list D) : pair_rel t ao ai -> batch_fits ao ai src_lid dst_lid -> vlen data = vlen src_lid ->
  wp (put_batch t src_lid dst_lid data) (fun t' => same_rest t t' /\ exists ao' ai', pair_rel t' ao' ai' /\ vlen ao' = vlen ao /\ vlen ai' = vlen ai /\
    edges ao' ≡ₚ new_edges (vlen ao) src_lid dst_lid data 0 ++ edges ao).
Proof.
  intros (Ho & Hi & Hm) [Hl Hmax Hs Hd Hbo Hbi] Hdata. unfold put_batch.
  assert (Forall (fun i => 0 <= i) src_lid /\ Forall (fun i => 0 <= i) dst_lid) as [Hs0 Hd0] by (split; eapply Forall_impl; try done; simpl; lia).
  apply wp_bind. eapply wp_mono; [apply (law_batch_put (out_csr_ t) ao src_lid dst_lid data 0); try done; lia|].
  intros o (ao' & Ho' & Hlo & Heo). apply wp_bind. eapply wp_mono; [apply (law_batch_put (in_csr_ t) ai dst_lid src_lid data 0); try done; lia|].
  intros i (ai' & Hi' & Hli & Hei). apply wp_ret. split; [done|]. exists ao', ai'. split; [|done]. split_and!; [done|done|].
  unfold mirrored in *. rewrite Heo, Hei, fmap_app, Hm. f_equiv.
  rewrite (new_edges_flip (vlen ao) (vlen ai)); [done|done|eapply Forall_impl; [exact Hs|simpl; lia]|eapply Forall_impl; [exact Hd|simpl; lia]].
Qed.

(** *** Deletion in batches *)

Lemma BatchDeleteVertices_wp t ao ai (src_set dst_set : gset Z) : pair_rel t ao ai -> (forall i, i ∈ src_set -> 0 <= i) -> (forall i, i ∈ dst_set -> 0 <= i) ->
  wp (BatchDeleteVertices t src_set dst_set) (fun t' => same_rest t t' /\ exists ao' ai', pair_rel t' ao' ai' /\ vlen ao' = vlen ao /\ vlen ai' = vlen ai /\
    edges ao' = filter (fun e => outside src_set dst_set (ends e) = true) (edges ao)).
Proof.
  intros (Ho & Hi & Hm) Hs Hd. unfold BatchDeleteVertices.
  apply wp_bind. eapply wp_mono; [by apply (law_delete_vertices (out_csr_ t) ao)|]. intros o (ao' & Ho' & Hlo & Heo).
  apply wp_bind. eapply wp_mono; [by apply (law_delete_vertices (in_csr_ t) ai)|]. intros i (ai' & Hi' & Hli & Hei).
  apply wp_ret. split; [done|]. exists ao', ai'. split; [|done]. split_and!; [done|done|].
  apply (mirrored_filter ao ao' ai ai' (fun e => outside src_set dst_set (ends e)) (fun e => outside dst_set src_set (ends e)) Hm); [|done|done].
  intros [s [d ts x]]. unfold outside, ends, flip. simpl. apply andb_comm.
Qed.

(** The entries between the given end points are not deleted yet. *)
Definition pairs_live (adj : list (list (nbr D))) (src_list dst_list : list Z) : Prop :=
  forall i x, 0 <= i < vlen adj -> x ∈ vat adj i -> (i, neighbor x) ∈ zip src_list dst_list -> live x = true.

Lemma zip_flip (l k : list Z) a b : vlen l = vlen k -> (a, b) ∈ zip l k <-> (b, a) ∈ zip k l.
Proof.
  revert k. induction l as [|x l IH]; intros [|y k] Hl; unfold vlen in Hl; simpl in Hl; try lia; simpl; [by rewrite !elem_of_nil|]. rewrite !elem_of_cons, (IH k) by (unfold vlen; lia).
  naive_solver.
Qed.

Lemma BatchDeleteEdges_wp t ao ai src_list dst_list : pair_rel t ao ai -> vlen src_list = vlen dst_list ->
  Forall (fun i => 0 <= i) src_list -> Forall (fun i => 0 <= i) dst_list -> pairs_live ao src_list dst_list -> pairs_live ai dst_list src_list ->
  wp (BatchDeleteEdges t src_list dst_list) (fun t' => same_rest t t' /\ exists ao' ai', pair_rel t' ao' ai' /\ vlen ao' = vlen ao /\ vlen ai' = vlen ai /\
    edges ao' = filter (fun e => bool_decide (ends e ∉ zip src_list dst_list) = true) (edges ao)).
Proof.
  intros (Ho & Hi & Hm) Hl Hs Hd Hpo Hpi. unfold BatchDeleteEdges.
  apply wp_bind. eapply wp_mono; [apply (law_delete_edges (out_csr_ t) ao src_list dst_list); [done|lia|done|done]|]. intros o (ao' & Ho' & Hlo & Heo).
  apply wp_bind. eapply wp_mono; [apply (law_delete_edges (in_csr_ t) ai dst_list src_list); [done|lia|done|done]|]. intros i (ai' & Hi' & Hli & Hei).
  apply wp_ret. split; [done|]. exists ao', ai'. split; [|done]. split_and!; [done|done|].
  apply (mirrored_filter ao ao' ai ai' (fun e => bool_decide (ends e ∉ zip src_list dst_list)) (fun e => bool_decide (ends e ∉ zip dst_list src_list)) Hm); [|done|done].
  intros [s [d ts x]]. apply bool_decide_ext. unfold ends, flip. simpl. by rewrite zip_flip.
Qed.

(** *** Single entries *)

(** Two positions that hold the two entries of one edge. *)
Definition paired (ao ai : list (list (nbr D))) (p q : Z * Z) : Prop := live_at ao p /\ live_at ai q /\ entry_edge ai q = flip (entry_edge ao p).

Lemma DeleteEdge_wp t ao ai p q ts : pair_rel t ao ai -> paired ao ai p q -> timestamp (snd (entry_edge ao p)) <= ts < INVALID_TIMESTAMP ->
  wp (DeleteEdge t (fst p) (fst q) (snd p) (snd q) ts) (fun r => fst r = Returned tt /\ same_rest t (snd r) /\
    exists ao' ai', pair_rel (snd r) ao' ai' /\ edges ao ≡ₚ entry_edge ao p :: edges ao').
Proof.
  intros (Ho & Hi & Hm) ((Hv & Hj & Hl) & (Hv' & Hj' & Hl') & He) Hts. assert (timestamp (snd (entry_edge ai q)) = timestamp (snd (entry_edge ao p))) as Hte by (by rewrite He).
  pose proof (edges_kill ao _ _ Hv Hj Hl) as Hko. pose proof (edges_kill ai _ _ Hv' Hj' Hl') as Hki.
  apply wp_and_then, wp_through. eapply wp_mono; [apply (law_delete (out_csr_ t) ao); [done|done|done|exact Hts]|]. intros [r o] [Hr Hc]. cbn [fst snd] in *.
  exists tt. split; [done|]. apply wp_through. eapply wp_mono; [apply (law_delete (in_csr_ t) ai); [done|done|done|unfold entry_edge in Hte; cbn [snd] in Hte; rewrite Hte; exact Hts]|].
  intros [r' i] [Hr' Hc']. cbn [fst snd] in *. split; [done|]. split; [done|]. eexists _, _. split; [split_and!; [exact Hc|exact Hc'|]|exact Hko].
  eapply (mirrored_cons ao _ ai _ (entry_edge ao p)); [done|exact Hko|]. rewrite <-He. exact Hki.
Qed.

(** Two deleted entries of one edge. *)
Record paired_dead (ao ai : list (list (nbr D))) (p q : Z * Z) : Prop := {
  dp_out : 0 <= fst p < vlen ao /\ 0 <= snd p < vlen (vat ao (fst p)) /\ live (snd (entry_edge ao p)) = false;
  dp_in : 0 <= fst q < vlen ai /\ 0 <= snd q < vlen (vat ai (fst q)) /\ live (snd (entry_edge ai q)) = false;
  dp_dst : neighbor (snd (entry_edge ao p)) = fst q;
  dp_src : neighbor (snd (entry_edge ai q)) = fst p;
  dp_data : data (snd (entry_edge ai q)) = data (snd (entry_edge ao p))
}.

Lemma RevertDeleteEdge_wp t ao ai p q ts : pair_rel t ao ai -> paired_dead ao ai p q -> ts <> INVALID_TIMESTAMP ->
  wp (RevertDeleteEdge t (fst p) (fst q) (snd p) (snd q) ts) (fun r => fst r = Returned tt /\ same_rest t (snd r) /\
    exists ao' ai', pair_rel (snd r) ao' ai' /\ edges ao' ≡ₚ (fst p, Nbr (fst q) ts (data (snd (entry_edge ao p)))) :: edges ao).
Proof.
  intros (Ho & Hi & Hm) [(Hv & Hj & Hl) (Hv' & Hj' & Hl') Hd Hs He] Hts.
  assert (forall x : nbr D, live (with_timestamp ts x) = true) as Hlive by (intros; unfold live; simpl; by apply negb_true_iff, Z.eqb_neq).
  pose proof (edges_revive ao _ _ (with_timestamp ts (snd (entry_edge ao p))) Hv Hj Hl (Hlive _)) as Hro. pose proof (edges_revive ai _ _ (with_timestamp ts (snd (entry_edge ai q))) Hv' Hj' Hl' (Hlive _)) as Hri.
  apply wp_and_then, wp_through. rewrite <-Hd at 1. eapply wp_mono; [by apply (law_revert (out_csr_ t) ao)|]. intros [r o] [Hr Hc]. cbn [fst snd] in *.
  exists tt. split; [done|]. apply wp_through. rewrite <-Hs at 1. eapply wp_mono; [by apply (law_revert (in_csr_ t) ai)|].
  intros [r' i] [Hr' Hc']. cbn [fst snd] in *. split; [done|]. split; [done|]. unfold with_timestamp in Hro, Hri. rewrite Hd in Hro. rewrite Hs, He in Hri.
  unfold with_timestamp in Hc, Hc'. fold (snd (entry_edge ao p)) in Hc.
  eexists _, _. split; [split_and!; [exact Hc|exact Hc'|]|].
  - change (vat (vat ao (fst p)) (snd p)) with (snd (entry_edge ao p)). change (vat (vat ai (fst q)) (snd q)) with (snd (entry_edge ai q)). rewrite Hd, Hs, He.
    by eapply mirrored_put.
  - change (vat (vat ao (fst p)) (snd p)) with (snd (entry_edge ao p)). by rewrite Hd.
Qed.

(** Offsets of both CSRs that hold the entries of the same edges. *)
Record paired_all (ao ai : list (list (nbr D))) (ps qs : list (Z * Z)) : Prop := {
  sd_nodup : NoDup ps /\ NoDup qs;
  sd_live : (forall p, p ∈ ps -> live_at ao p) /\ (forall q, q ∈ qs -> live_at ai q);
  sd_flip : entry_edge ai <$> qs ≡ₚ flip <$> (entry_edge ao <$> ps)
}.

Lemma BatchDeleteOffsets_wp t ao ai ps qs : pair_rel t ao ai -> paired_all ao ai ps qs ->
  wp (BatchDeleteOffsets t ps qs) (fun t' => same_rest t t' /\ exists ao' ai', pair_rel t' ao' ai' /\ edges ao ≡ₚ (entry_edge ao <$> ps) ++ edges ao').
Proof.
  intros (Ho & Hi & Hm) [[Hnp Hnq] [Hlp Hlq] Hf]. unfold BatchDeleteOffsets.
  apply wp_bind. eapply wp_mono; [by apply (law_delete_offsets (out_csr_ t) ao)|]. intros o (ao' & Ho' & _ & Heo).
  apply wp_bind. eapply wp_mono; [by apply (law_delete_offsets (in_csr_ t) ai)|]. intros i (ai' & Hi' & _ & Hei).
  apply wp_ret. split; [done|]. exists ao', ai'. split; [|done]. split_and!; [done|done|].
  unfold mirrored in *. rewrite Heo, Hei, fmap_app, Hf in Hm. by apply Permutation_app_inv_l in Hm.
Qed.

(** *** Capacity and compaction *)

Lemma mirrored_app (ao ai eo ei : list (list (nbr D))) : mirrored ao ai -> (forall l, l ∈ eo -> keeps live l = []) -> (forall l, l ∈ ei -> keeps live l = []) ->
  mirrored (ao ++ eo) (ai ++ ei).
Proof. unfold mirrored. intros Hm Ho Hi. by rewrite !edges_app. Qed.

Lemma resize_out_wp t ao ai n : pair_rel t ao ai -> n < 2 ^ 32 ->
  wp (if csr_size (out_csr_ t) <? n then c ← csr_resize (out_csr_ t) n; Some (with_out t c) else Some t)
     (fun t' => same_rest t t' /\ in_csr_ t' = in_csr_ t /\ exists ext, pair_rel t' (ao ++ ext) ai /\ vlen (ao ++ ext) = Z.max n (vlen ao) /\ edges (ao ++ ext) = edges ao).
Proof.
  intros (Ho & Hi & Hm) Hn. destruct (law_size (out_csr_ t) ao Ho) as [-> _]. destruct (Z.ltb_spec (vlen ao) n).
  - apply wp_bind. eapply wp_mono; [apply (law_resize (out_csr_ t) ao n); [done|lia]|]. intros c (ext & Hc & Hlen & Hext). apply wp_ret.
    split; [done|]. split; [done|]. exists ext. rewrite edges_app by done. split; [|split; [lia|done]]. split_and!; [done|done|].
    rewrite <-(app_nil_r ai). apply mirrored_app; [done|done|]. by intros ? ?%elem_of_nil.
  - apply wp_ret. split; [done|]. split; [done|]. exists []. rewrite app_nil_r. split; [done|]. split; [lia|done].
Qed.

Lemma resize_in_wp t ao ai n : pair_rel t ao ai -> n < 2 ^ 32 ->
  wp (if csr_size (in_csr_ t) <? n then c ← csr_resize (in_csr_ t) n; Some (with_in t c) else Some t)
     (fun t' => same_rest t t' /\ exists ext, pair_rel t' ao (ai ++ ext) /\ vlen (ai ++ ext) = Z.max n (vlen ai)).
Proof.
  intros (Ho & Hi & Hm) Hn. destruct (law_size (in_csr_ t) ai Hi) as [-> _]. destruct (Z.ltb_spec (vlen ai) n).
  - apply wp_bind. eapply wp_mono; [apply (law_resize (in_csr_ t) ai n); [done|lia]|]. intros c (ext & Hc & Hlen & Hext). apply wp_ret.
    split; [done|]. exists ext. split; [|lia]. split_and!; [done|done|].
    rewrite <-(app_nil_r ao). apply mirrored_app; [done| |done]. by intros ? ?%elem_of_nil.
  - apply wp_ret. split; [done|]. exists []. rewrite app_nil_r. split; [done|]. lia.
Qed.

Definition stamp (e : @edge D) : @edge D := prod_map id (with_timestamp 0) e.

Lemma mirrored_perm (ao ai ao' ai' : list (list (nbr D))) : mirrored ao ai -> edges ao' ≡ₚ edges ao -> edges ai' ≡ₚ edges ai -> mirrored ao' ai'.
Proof. unfold mirrored. by intros Hm -> ->. Qed.

Lemma mirrored_stamp (ao ai ao' ai' : list (list (nbr D))) : mirrored ao ai -> edges ao' ≡ₚ stamp <$> edges ao -> edges ai' ≡ₚ stamp <$> edges ai -> mirrored ao' ai'.
Proof.
  unfold mirrored. intros Hm -> ->. rewrite Hm, <-!list_fmap_compose. apply reflexive_eq, list_fmap_ext. intros i [s [d ts x]] _. done.
Qed.

Lemma Compact_wp t ao ai compact_csr sort_on_compaction ts : pair_rel t ao ai ->
  wp (Compact t compact_csr sort_on_compaction ts) (fun r => fst r = Returned tt /\ same_rest t (snd r) /\ exists ao' ai', pair_rel (snd r) ao' ai' /\
    vlen ao' = vlen ao /\ vlen ai' = vlen ai /\ edges ao' ≡ₚ stamp <$> edges ao).
Proof.
  intros (Ho & Hi & Hm). unfold Compact. apply wp_and_then.
  eapply wp_mono with (P := fun r => fst r = Returned tt /\ same_rest t (snd r) /\ exists ao1 ai1, models (out_csr_ (snd r)) ao1 /\ models (in_csr_ (snd r)) ai1 /\
    vlen ao1 = vlen ao /\ vlen ai1 = vlen ai /\ edges ao1 = edges ao /\ edges ai1 = edges ai).
  { destruct compact_csr; [|apply wp_ret; split_and!; try done; by exists ao, ai]. apply wp_and_then, wp_through.
    eapply wp_mono; [by apply (law_compact (out_csr_ t) ao)|]. intros [r o] (Hr & ao1 & Ho1 & Hlo & Heo). cbn [fst snd] in *. exists tt. split; [done|].
    apply wp_through. eapply wp_mono; [by apply (law_compact (in_csr_ t) ai)|]. intros [r' i] (Hr' & ai1 & Hi1 & Hli & Hei). cbn [fst snd] in *.
    split_and!; try done. by exists ao1, ai1. }
  intros [r t1] (Hr & Hsr & ao1 & ai1 & Ho1 & Hi1 & Hlo & Hli & Heo & Hei). cbn [fst snd] in *. exists tt. split; [done|]. apply wp_bind.
  eapply wp_mono with (P := fun t2 => same_rest t t2 /\ exists ao2 ai2, models (out_csr_ t2) ao2 /\ models (in_csr_ t2) ai2 /\
    vlen ao2 = vlen ao /\ vlen ai2 = vlen ai /\ edges ao2 ≡ₚ edges ao /\ edges ai2 ≡ₚ edges ai).
  { destruct sort_on_compaction; [|apply wp_ret; split; [done|]; exists ao1, ai1; by rewrite Heo, Hei].
    apply wp_bind. eapply wp_mono; [by apply (law_sort (out_csr_ t1) ao1)|]. intros o (ao2 & Ho2 & Hlo2 & Heo2).
    apply wp_bind. eapply wp_mono; [by apply (law_sort (in_csr_ t1) ai1)|]. intros i (ai2 & Hi2 & Hli2 & Hei2).
    apply wp_ret. split; [etrans; [exact Hsr|done]|]. exists ao2, ai2. rewrite Heo2, Hei2, Heo, Hei. split_and!; try done; lia. }
  intros t2 (Hsr2 & ao2 & ai2 & Ho2 & Hi2 & Hlo2 & Hli2 & Heo2 & Hei2).
  apply wp_bind. eapply wp_mono; [by apply (law_reset (out_csr_ t2) ao2)|]. intros o (ao3 & Ho3 & Hlo3 & Heo3).
  apply wp_bind. eapply wp_mono; [by apply (law_reset (in_csr_ t2) ai2)|]. intros i (ai3 & Hi3 & Hli3 & Hei3).
  apply wp_ret. split; [done|]. split; [etrans; [exact Hsr2|done]|]. exists ao3, ai3. change (prod_map id (with_timestamp 0)) with stamp in *.
  split; [|split; [lia|split; [lia|by rewrite Heo3, Heo2]]]. split_and!; [done|done|].
  apply (mirrored_stamp ao2 ai2); [by eapply mirrored_perm|done|done].
Qed.
End table.
