(* ===== verification/EdgeSpec.v ===== *)
(** * Edge tables as multisets of edges with properties

    What the property table of an edge table does to its rows, and the relation
    [et_rel] between an edge table and the multiset of its edges: end points,
    timestamp and property values. *)
From stdpp Require Import strings.
From S2P Require Import Prelude Storage Bitset Property Column ColumnTheorems ColumnSpec Table TableTheorems.
From S2P Require Import Aggregate MutableCsr CsrRows CsrOps CsrLists CsrDelete CsrEdges NbrView SingleCsr CsrInterface OffsetSearch EdgeSchema EdgeTable EdgePairs.
#[local] Open Scope Z_scope.

(** ** Rows *)

Definition row_at (cols : list acol) (i : Z) : list Property := (fun a => vat (fst (ac_vals a)) i) <$> cols.

Definition set_col (i : Z) (a : acol) (q : Property) : acol :=
  ACol (ac_name a) (ac_type a) (ac_width a) (vput (fst (ac_vals a)) i q, snd (ac_vals a) + prop_bytes q).

(** Row [i] becomes [ps], strings cut to their width; [None] if a value has another
    type than its column, or the strings' bytes are used up. *)
Fixpoint set_row (i : Z) (cols : list acol) (ps : list Property) : option (list acol) :=
  match cols, ps with
  | [], [] => Some []
  | a :: cols, p :: ps =>
      if bool_decide (prop_type p = ac_type a) && (i <? vlen (fst (ac_vals a))) && (snd (ac_vals a) <? 2 ^ 48) then
        q ← clip_prop (ac_width a) p; cols ← set_row i cols ps; Some (set_col i a q :: cols)
      else None
  | _, _ => None
  end.

Fixpoint set_rows (i : Z) (cols : list acol) (rows : list (list Property)) : option (list acol) :=
  match rows with [] => Some cols | ps :: rows => cols ← set_row i cols ps; set_rows (i + 1) cols rows end.

(** Columns of the same kind and length. *)
Definition shape (a : acol) : string * DataTypeId * Z * Z := (ac_name a, ac_type a, ac_width a, vlen (fst (ac_vals a))).

Lemma set_row_inv i cols ps cols' : set_row i cols ps = Some cols' -> shape <$> cols' = shape <$> cols /\ vlen ps = vlen cols /\
  forall j, 0 <= i -> 0 <= j -> j <> i -> row_at cols' j = row_at cols j.
Proof.
  revert ps cols'. induction cols as [|a cols IH]; intros [|p ps] cols' Hx; try done; cbn [set_row] in Hx; [by injection Hx as <-|].
  destruct (bool_decide _ && _ && _); [|done]. destruct (clip_prop _ p) as [q|]; [|done]. cbn [mbind option_bind] in Hx.
  destruct (set_row i cols ps) as [cols1|] eqn:E; [|done]. injection Hx as <-. destruct (IH ps cols1 E) as (H1 & H2 & H3). split_and!.
  - csimpl. f_equal; [|done]. unfold shape, set_col. simpl. by rewrite vlen_vput.
  - rewrite !vlen_cons. lia.
  - intros j Hi Hj Hne. unfold row_at in *. csimpl. f_equal; [|by apply H3]. unfold vat, vput. rewrite list_lookup_total_insert_ne by lia. done.
Qed.

Lemma ac_step_set i safe a p q : 0 <= i -> bool_decide (prop_type p = ac_type a) = true -> i < vlen (fst (ac_vals a)) ->
  (snd (ac_vals a) <? 2 ^ 48) = true -> clip_prop (ac_width a) p = Some q -> ac_step (OpSet i p safe) a = Some (Returned tt, set_col i a q).
Proof.
  intros Hi Ht Hl Hu Hq. unfold ac_step, vals_exec, set_col. destruct (ac_vals a) as [vals used]. cbn [fst snd] in *.
  rewrite Ht, (proj2 (Z.leb_le _ _)) by lia. cbn [andb]. rewrite (proj2 (Z.leb_gt _ _)) by lia. rewrite Hq. cbn [mbind option_bind]. by rewrite Hu.
Qed.

Lemma set_row_columns i safe cols ps ps0 k0 cols' : 0 <= i -> set_row i cols ps = Some cols' ->
  (forall k, 0 <= k -> vget ps0 (k0 + k) = vget ps k) ->
  on_columns (fun k a => v ← vget ps0 k; ac_step (OpSet i v safe) a) k0 cols = Some (Returned tt, cols').
Proof.
  intros Hi. revert ps k0 cols'. induction cols as [|a cols IH]; intros [|p ps] k0 cols' Hx Hp; try done; cbn [set_row] in Hx; [by injection Hx as <-|].
  destruct (bool_decide _ && _ && _) eqn:Ec; [|done]. apply andb_prop in Ec as [[Ht Hl%Z.ltb_lt]%andb_prop Hu].
  destruct (clip_prop _ p) as [q|] eqn:Eq; [|done]. cbn [mbind option_bind] in Hx.
  destruct (set_row i cols ps) as [cols1|] eqn:E; [|done]. injection Hx as <-. cbn [on_columns].
  pose proof (Hp 0 ltac:(lia)) as H0. rewrite Z.add_0_r in H0. rewrite H0. change (vget (p :: ps) 0) with (Some p). cbn [mbind option_bind].
  rewrite (ac_step_set i safe a p q Hi Ht Hl Hu Eq). cbn [mbind option_bind]. rewrite (IH ps (k0 + 1) cols1 E).
  - done.
  - intros k Hk. rewrite <-Z.add_assoc, (Hp (1 + k)) by lia. unfold vget. rewrite !(proj2 (Z.ltb_ge _ _)) by lia. by replace (Z.to_nat (1 + k)) with (S (Z.to_nat k)) by lia.
Qed.

Lemma table_insert_rel tb cols i ps safe cols' : table_rel tb cols -> 0 <= i -> set_row i cols ps = Some cols' ->
  exists tb', table_insert tb i ps safe = Some (Returned tt, tb') /\ table_rel tb' cols'.
Proof.
  intros Hrel Hi Hx. destruct (set_row_inv i cols ps cols' Hx) as (_ & Hl & _).
  destruct (table_exec_rel tb cols (TInsert i ps safe) TDone cols' Hrel) as (tb' & Ht & Hrel').
  - cbn [cols_exec]. rewrite Hl, Z.eqb_refl. by rewrite (set_row_columns i safe cols ps ps 0 cols' Hi Hx).
  - cbn [table_exec] in Ht. destruct (table_insert tb i ps safe) as [[[[]|] tb1]|]; [|done|done]. injection Ht as ->. by exists tb'.
Qed.

Lemma set_rows_inv i cols rows cols' : set_rows i cols rows = Some cols' -> 0 <= i -> shape <$> cols' = shape <$> cols /\
  forall j, 0 <= j < i -> row_at cols' j = row_at cols j.
Proof.
  revert i cols. induction rows as [|ps rows IH]; intros i cols Hx Hi; cbn [set_rows] in Hx; [by injection Hx as <-|].
  destruct (set_row i cols ps) as [cols1|] eqn:E; [|done]. cbn [mbind option_bind] in Hx. destruct (set_row_inv _ _ _ _ E) as (H1 & _ & H3).
  destruct (IH (i + 1) cols1 Hx ltac:(lia)) as [H1' H3']. split; [congruence|]. intros j Hj. rewrite H3' by lia. apply H3; lia.
Qed.

Lemma insert_rows_rel tb cols i rows cols' : table_rel tb cols -> 0 <= i -> set_rows i cols rows = Some cols' ->
  exists tb', insert_rows tb i rows = Some (Returned tt, tb') /\ table_rel tb' cols'.
Proof.
  revert tb cols i. induction rows as [|ps rows IH]; intros tb cols i Hrel Hi Hx; cbn [set_rows insert_rows] in Hx |- *; [injection Hx as <-; by exists tb|].
  destruct (set_row i cols ps) as [cols1|] eqn:E; [|done]. cbn [mbind option_bind] in Hx.
  destruct (table_insert_rel tb cols i ps true cols1 Hrel Hi E) as (tb1 & -> & Hrel1). unfold and_then. cbn [mbind option_bind].
  apply (IH tb1 cols1); [done|lia|done].
Qed.

(** *** More rows *)

(** The columns enlarged to [n] rows with the defaults. *)
Definition grow_cols (n : Z) (defaults : list Property) (cols : list acol) : option (list acol) :=
  match cols_exec (TResizeDefault n defaults) cols with Some (TDone, cols) => Some cols | _ => None end.

Definition all_long (n : Z) (cols : list acol) : Prop := Forall (fun a => vlen (fst (ac_vals a)) = n) cols.

Lemma grow_col_step ds n k i a r a' cap : all_long cap [a] -> cap <= n ->
  (v ← vget ds (k : Z); ac_step (OpResizeDefault n v) a) = Some (r, a') -> r = Returned tt ->
  all_long n [a'] /\ (0 <= i < cap -> vat (fst (ac_vals a')) i = vat (fst (ac_vals a)) i).
Proof.
  intros Hl Hn Hx ->. unfold all_long in Hl |- *. rewrite Forall_singleton in Hl |- *. destruct (vget ds k) as [v|]; [|done]. cbn [mbind option_bind] in Hx. unfold ac_step, vals_exec in Hx.
  destruct (ac_vals a) as [vals used]. cbn [fst] in *. destruct (negb _); [done|]. destruct (Z.leb_spec 0 n); [|done].
  destruct (clip_prop _ v) as [q|]; [|done]. cbn [mbind option_bind] in Hx. destruct (used <? 2 ^ 48); [|done]. cbn [mbind option_bind] in Hx. injection Hx as <-.
  cbn [ac_vals fst]. split.
  - by apply vlen_Resize.
  - intros Hi. apply vat_Resize; lia.
Qed.

Lemma grow_cols_inv n ds cols cols' cap : grow_cols n ds cols = Some cols' -> all_long cap cols -> cap <= n ->
  all_long n cols' /\ vlen cols' = vlen cols /\ forall i, 0 <= i < cap -> row_at cols' i = row_at cols i.
Proof.
  unfold grow_cols. cbn [cols_exec]. destruct (vlen ds =? vlen cols); [|done].
  destruct (on_columns _ 0 cols) as [[[[]|] cols1]|] eqn:E; [|done|done]. intros [= ->] Hl Hn. set (k0 := 0) in E at 1. clearbody k0. revert cols' k0 Hl E.
  induction cols as [|a cols IH]; intros cols' k0 Hl Hx; cbn [on_columns] in Hx; [injection Hx as <-; split_and!; [constructor|done|done]|].
  destruct (v ← vget ds k0; _) as [[r a1]|] eqn:Ea; [|done]. cbn [mbind option_bind] in Hx. destruct r as [[]|]; [|done].
  destruct (on_columns _ (k0 + 1) cols) as [[r2 cols2]|] eqn:E2; [|done]. injection Hx as -> <-. apply Forall_cons in Hl as [Ha Hl].
  destruct (IH cols2 _ Hl E2) as (H1 & H2 & H3). split_and!.
  - apply Forall_cons. split; [|done]. pose proof (grow_col_step ds n k0 0 a _ a1 cap (proj2 (Forall_singleton _ _) Ha) Hn Ea eq_refl) as [Hg _].
    unfold all_long in Hg. by rewrite Forall_singleton in Hg.
  - rewrite !vlen_cons. lia.
  - intros i Hi. unfold row_at in *. csimpl. f_equal; [|by apply H3].
    by apply (grow_col_step ds n k0 i a _ a1 cap (proj2 (Forall_singleton _ _) Ha) Hn Ea eq_refl).
Qed.

Lemma grow_cols_widths n ds cols cols' : grow_cols n ds cols = Some cols' -> ac_width <$> cols' = ac_width <$> cols.
Proof.
  unfold grow_cols. cbn [cols_exec]. destruct (vlen ds =? vlen cols); [|done].
  destruct (on_columns _ 0 cols) as [[[[]|] cols1]|] eqn:E; [|done|done]. intros [= ->]. eapply (on_columns_keeps ac_width); [|exact E].
  intros k a r a' Hx. cbv beta in Hx. destruct (vget ds k) as [v|]; [|done]. cbn [mbind option_bind] in Hx. unfold ac_step in Hx.
  revert Hx. destruct (vals_exec _ _ _ _) as [[[]]|]; [| | |done]; by intros [= <- <-].
Qed.

Lemma grow_cols_rel tb cols n ds cols' : table_rel tb cols -> grow_cols n ds cols = Some cols' ->
  exists tb', table_resize_default tb n ds = Some (Returned tt, tb') /\ table_rel tb' cols'.
Proof.
  unfold grow_cols. intros Hrel Hx. destruct (cols_exec (TResizeDefault n ds) cols) as [[[] cols1]|] eqn:E; try done. injection Hx as ->.
  destruct (table_exec_rel tb cols _ TDone cols' Hrel E) as (tb' & Ht & Hrel'). cbn [table_exec] in Ht.
  destruct (table_resize_default tb n ds) as [[[[]|] tb1]|]; [|done|done]. injection Ht as ->. by exists tb'.
Qed.

(** *** What the rows hold *)

(** The values as the columns store them. *)
Fixpoint clip_row (widths : list Z) (ps : list Property) : list Property :=
  match widths, ps with w :: widths, p :: ps => default PEmpty (clip_prop w p) :: clip_row widths ps | _, _ => [] end.

Lemma set_row_at i cols ps cols' : 0 <= i -> set_row i cols ps = Some cols' -> row_at cols' i = clip_row (ac_width <$> cols) ps.
Proof.
  intros Hi. revert ps cols'. induction cols as [|a cols IH]; intros [|p ps] cols' Hx; try done; cbn [set_row] in Hx; [by injection Hx as <-|].
  destruct (bool_decide _ && _ && _) eqn:Ec; [|done]. apply andb_prop in Ec as [[_ Hl%Z.ltb_lt]%andb_prop _].
  destruct (clip_prop _ p) as [q|] eqn:Eq; [|done]. cbn [mbind option_bind] in Hx. destruct (set_row i cols ps) as [cols1|] eqn:E; [|done]. injection Hx as <-.
  unfold row_at in *. csimpl. rewrite Eq. f_equal; [|by apply IH]. simpl. apply vat_vput_eq. lia.
Qed.

Lemma shape_widths (cols cols' : list acol) : shape <$> cols' = shape <$> cols -> ac_width <$> cols' = ac_width <$> cols.
Proof.
  intros Hs. assert (forall l : list acol, ac_width <$> l = (fun x : string * DataTypeId * Z * Z => snd (fst x)) <$> (shape <$> l)) as Hw
    by (intros l; rewrite <-list_fmap_compose; by apply list_fmap_ext).
  by rewrite !Hw, Hs.
Qed.

Lemma shape_long n (cols cols' : list acol) : shape <$> cols' = shape <$> cols -> all_long n cols -> all_long n cols'.
Proof.
  intros Hs. assert (forall l, all_long n l <-> Forall (fun x : string * DataTypeId * Z * Z => snd x = n) (shape <$> l)) as Hl
    by (intros l; by rewrite Forall_fmap).
  by rewrite !Hl, Hs.
Qed.

Lemma shape_len (cols cols' : list acol) : shape <$> cols' = shape <$> cols -> vlen cols' = vlen cols.
Proof. intros Hs. by rewrite <-(vlen_fmap shape cols'), Hs, vlen_fmap. Qed.

Lemma set_rows_at i cols rows cols' k : 0 <= i -> set_rows i cols rows = Some cols' -> 0 <= k < vlen rows ->
  row_at cols' (i + k) = clip_row (ac_width <$> cols) (vat rows k).
Proof.
  revert i cols k. induction rows as [|ps rows IH]; intros i cols k Hi Hx Hk; [unfold vlen in Hk; simpl in Hk; lia|]. cbn [set_rows] in Hx.
  destruct (set_row i cols ps) as [cols1|] eqn:E; [|done]. cbn [mbind option_bind] in Hx. destruct (set_row_inv _ _ _ _ E) as (Hs & _ & _).
  rewrite vlen_cons in Hk. destruct (decide (k = 0)) as [->|Hne].
  - rewrite Z.add_0_r. destruct (set_rows_inv (i + 1) cols1 rows cols' Hx ltac:(lia)) as [_ Hr]. rewrite Hr by lia. by apply set_row_at.
  - replace (i + k) with (i + 1 + (k - 1)) by lia. rewrite (IH (i + 1) cols1 (k - 1)) by (done || lia). rewrite (shape_widths _ _ Hs).
    f_equal. unfold vat. by replace (Z.to_nat k) with (S (Z.to_nat (k - 1))) by lia.
Qed.

(** ** The relation *)

(** An edge of the table as its clients see it. *)
Record aedge := AEdge { ae_src : Z; ae_dst : Z; ae_ts : Z; ae_props : list Property }.

Section relation.
Context {D Cout Cin : Type} `{NbrMemory D} (U : PropUtils D) {HL : PropLaws U} (eqb : D -> D -> bool).
Context `{!CsrBase D Cout, !CsrModel D Cout, !CsrLaws D Cout, !CsrBase D Cin, !CsrModel D Cin, !CsrLaws D Cin}.
Implicit Types (t : EdgeTable Cout Cin) (m : EdgeSchema) (cols : list acol).

Definition props_of m cols (d : D) : list Property :=
  if is_bundled m then (if no_data m then [] else [to_prop U d])
  else match row_of U d with Some i => row_at cols i | None => [] end.

Definition aedge_of m cols (e : @edge D) : aedge := AEdge (fst e) (neighbor (snd e)) (timestamp (snd e)) (props_of m cols (data (snd e))).

(** The edges have rows of their own kind in the property table. *)
Record rows_rel t (ao : list (list (nbr D))) cols : Prop := {
  rr_type : pu_type U = kUInt64;
  rr_table : table_rel (table_ t) cols;
  rr_long : all_long (capacity_ t) cols;
  rr_cols : vlen cols = vlen (properties (meta_ t));
  rr_idx : 0 <= table_idx_ t <= capacity_ t;
  rr_cap : capacity_ t < 2 ^ 63;
  rr_rows e : e ∈ edges ao -> exists i, row_of U (data (snd e)) = Some i /\ 0 <= i < table_idx_ t
}.

Record et_rel t (ao ai : list (list (nbr D))) cols (E : list aedge) : Prop := {
  et_pair : pair_rel t ao ai;
  et_rows : is_bundled (meta_ t) = false -> rows_rel t ao cols;
  et_edges : E ≡ₚ aedge_of (meta_ t) cols <$> edges ao
}.

(** The data that stands for row [i]. *)
Lemma row_data i : pu_type U = kUInt64 -> exists d, to_typed U (PUInt64 i) = Some d /\ row_of U d = Some i.
Proof.
  intros Ht. destruct (pl_total (U := U) (PUInt64 i)) as [d Hd]; [done|]. exists d. split; [done|]. unfold row_of.
  by rewrite <-(pl_typed (U := U) (PUInt64 i) d).
Qed.

(** The edges only depend on the rows they have. *)
Lemma aedges_same m cols cols' (es : list (@edge D)) :
  (is_bundled m = false -> forall e, e ∈ es -> exists i, row_of U (data (snd e)) = Some i /\ row_at cols' i = row_at cols i) ->
  aedge_of m cols' <$> es = aedge_of m cols <$> es.
Proof.
  intros Hr. apply list_fmap_ext. intros k e He. unfold aedge_of, props_of. destruct (is_bundled m) eqn:Eb; [done|].
  apply list_elem_of_lookup_2 in He. destruct (Hr eq_refl e He) as (i & -> & ->). done.
Qed.

(** An operation on the CSRs that only takes edges away. *)
Lemma et_rel_sub t t' ao ai ao' ai' cols E (P : aedge -> bool) (Pe : @edge D -> bool) : et_rel t ao ai cols E -> same_rest t t' -> pair_rel t' ao' ai' ->
  edges ao' ≡ₚ filter (fun e => Pe e = true) (edges ao) -> (forall e, P (aedge_of (meta_ t) cols e) = Pe e) ->
  et_rel t' ao' ai' cols (filter (fun e => P e = true) E).
Proof.
  intros [Hp Hr He] [Hm Ht Hi Hc] Hp' Hs HP. split; [done| |].
  - rewrite Hm. intros Hb. destruct (Hr Hb) as [R1 R2 R3 R4 R5 R6 R7]. split; rewrite ?Hm, ?Ht, ?Hi, ?Hc; try done.
    intros e He'. apply R7. rewrite Hs in He'. by apply list_elem_of_filter in He' as [_ ?].
  - rewrite Hm, He, Hs. clear -HP. induction (edges ao) as [|e es IH]; [done|]. csimpl. rewrite !filter_cons, HP. destruct (Pe e).
    + rewrite !decide_True by done. csimpl. by rewrite IH.
    + by rewrite !decide_False by done.
Qed.
End relation.
