(* ===== verification/EdgeUpdate.v ===== *)
(** * Updating an edge

    [UpdateEdgeProperty] counts its offsets over the visible entries of a list
    ([update_bundled_spec]), where the rest of the program counts over all of
    them. *)
From stdpp Require Import strings.
From S2P Require Import Prelude Storage Bitset Property Column ColumnSpec Table TableTheorems.
From S2P Require Import Aggregate MutableCsr CsrRows CsrOps CsrLists CsrDelete CsrEdges NbrView SingleCsr CsrInterface OffsetSearch EdgeSchema EdgeTable EdgePairs EdgeSpec.
#[local] Open Scope Z_scope.

Section update.
Context {D Cout Cin : Type} `{NbrMemory D} (U : PropUtils D).
Context `{!CsrBase D Cout, !CsrModel D Cout, !CsrLaws D Cout, !CsrBase D Cin, !CsrModel D Cin, !CsrLaws D Cin}.
Implicit Types t : EdgeTable Cout Cin.

(** The only property of the edges, and the data of the value [prop]. *)
Definition bundled_as (m : EdgeSchema) (prop : Property) (d : D) : Prop :=
  is_bundled m = true /\ match properties m with [(ty, _)] => comparable ty = true | _ => False end /\ to_typed U prop = Some d.

Lemma nonneg_live v ts (d : D) : ts < INVALID_TIMESTAMP -> live (Nbr v ts d) = true.
Proof. intros Hts. unfold live. simpl. apply negb_true_iff, Z.eqb_neq. lia. Qed.

(** Where the [n]-th visible entry is; one step more is the end, and then the
    iterator leaves the list. *)
Definition nth_visible (l : list (nbr D)) (ts : Z) (n : nat) : option Z :=
  match indexed ts 0 l !! n with
  | Some (i, _) => Some i
  | None => if (n =? length (indexed ts 0 l))%nat then Some (vlen l) else None
  end.

Lemma it_advance_spec (nl : NbrList D) cur k ts n : reads (nl_load nl) cur k -> nl_len nl = cur + vlen k ->
  match k with [] => True | x :: _ => visible ts x = true end ->
  it_advance n nl cur ts = match indexed ts cur k !! n with
                           | Some (i, _) => Some i
                           | None => if (n =? length (indexed ts cur k))%nat then Some (nl_len nl) else None
                           end.
Proof.
  revert cur k. induction n as [|n IH]; intros cur k Hr Hl Hk; cbn [it_advance].
  - destruct k as [|x k]; cbn [indexed]; [simpl; rewrite Hl, vlen_nil; f_equal; lia|]. by rewrite Hk.
  - destruct k as [|x k]; [rewrite Hl, vlen_nil, Z.add_0_r, Z.eqb_refl; done|]. pose proof (vlen_nonneg k). rewrite vlen_cons in Hl.
    rewrite (proj2 (Z.eqb_neq cur _)) by lia. destruct (reads_cons _ _ _ _ Hr) as [_ Hk1]. unfold it_next.
    destruct (skip_invisible_spec (nl_load nl) (cur + 1) k ts (Z.to_nat (nl_len nl - (cur + 1))) Hk1) as (k' & Hs & Hr' & Hix & _ & Hk'); [unfold vlen in *; lia|].
    replace (cur + 1 + vlen k) with (nl_len nl) in * by lia. rewrite Hs. cbn [mbind option_bind indexed]. rewrite Hk. cbn [lookup list_lookup length Nat.eqb].
    rewrite Hix. apply (IH (nl_len nl - vlen k') k' Hr'); [lia|done].
Qed.

Lemma advance_from_begin (nl : NbrList D) l ts n : reads (nl_load nl) 0 l -> nl_len nl = vlen l ->
  (cur ← it_init (nl_load nl) 0 (nl_len nl) ts; it_advance n nl cur ts) = nth_visible l ts n.
Proof.
  intros Hr Hl. unfold it_init, nth_visible. destruct (skip_invisible_spec (nl_load nl) 0 l ts (Z.to_nat (nl_len nl - 0)) Hr) as (k & Hs & Hr' & Hix & _ & Hk);
    [unfold vlen in *; lia|]. rewrite Z.add_0_l in *. rewrite Hl in *. rewrite Hs. cbn [mbind option_bind]. rewrite Hix, <-Hl.
  apply (it_advance_spec nl (nl_len nl - vlen k) k ts n); [by rewrite Hl|lia|done].
Qed.

Lemma begin_then {B} (nl : NbrList D) l ts n (f : Z -> option B) : reads (nl_load nl) 0 l -> nl_len nl = vlen l ->
  (cur ← it_init (nl_load nl) 0 (nl_len nl) ts; cur ← it_advance n nl cur ts; f cur) = (cur ← nth_visible l ts n; f cur).
Proof. intros Hr Hl. rewrite <-(advance_from_begin nl l ts n Hr Hl). by destruct (it_init _ _ _ _). Qed.

Lemma nth_visible_at l ts k i x : vget (indexed ts 0 l) k = Some (i, x) -> nth_visible l ts (Z.to_nat k) = Some i /\ (i, x) ∈ indexed ts 0 l.
Proof.
  intros Hk. split; [|by eapply vget_elem]. apply vget_iff in Hk as [_ Hk]. unfold nth_visible. by rewrite Hk.
Qed.

Lemma nth_visible_end l ts : nth_visible l ts (Z.to_nat (vlen (indexed ts 0 l))) = Some (vlen l).
Proof. unfold nth_visible, vlen. rewrite Nat2Z.id, lookup_ge_None_2 by done. by rewrite Nat.eqb_refl. Qed.

(** One side of an update of bundled data: [get] and [put] of a CSR of the table. *)
Lemma update_side {C} `{!CsrBase D C, !CsrModel D C, !CsrLaws D C} (get : EdgeTable Cout Cin -> C) (put : EdgeTable Cout Cin -> C -> EdgeTable Cout Cin)
    t adj v i x col_id prop ts d :
  (forall t c, get (put t c) = c /\ meta_ (put t c) = meta_ t) -> (forall t c c', put (put t c) c' = put t c') ->
  models (get t) adj -> 0 <= v < vlen adj -> (i, x) ∈ indexed ts 0 (vat adj v) -> ts < INVALID_TIMESTAMP -> bundled_as (meta_ t) prop d ->
  wp (set_data U (fun t x => c ← csr_write (get t) v i x; Some (put t c)) t col_id x prop ts)
    (fun r => exists c, r = (Returned tt, put t c) /\ models c (vput adj v (vput (vat adj v) i (Nbr (neighbor x) ts d)))).
Proof.
  intros Hgp Hpp Hc Hv Hin Hts (Hb & Hty & Hd). apply indexed_elem in Hin as (Hi & Hx & Hvis). rewrite Z.sub_0_r in Hx.
  pose proof (visible_live ts x Hts Hvis) as Hlive. assert (forall y : D, live (Nbr (neighbor x) ts y) = true) as Hlive' by (intros; by apply nonneg_live).
  unfold set_data, get_edge_data_accessor. rewrite Hb. destruct (properties (meta_ t)) as [|[ty w] [|]]; [done| |done].
  cbn [mbind option_bind]. apply wp_bind, wp_bind. eapply wp_mono; [apply (law_write (get t) adj v i (with_timestamp ts x)); [done|done|lia|rewrite <-Hx, Hlive; apply (Hlive' (data x))]|].
  intros c1 Hc1. cbn [mbind option_bind]. rewrite bool_decide_eq_false_2 by (intros ->; done). rewrite Hty, Hd. cbn [mbind option_bind].
  destruct (Hgp t c1) as [Hg _]. apply wp_ret. rewrite Hg. apply wp_bind, wp_bind.
  eapply wp_mono; [apply (law_write c1 _ v i (Nbr (neighbor x) ts d) Hc1); [by rewrite vlen_vput| |]; rewrite vat_vput_eq by done|].
  - rewrite vlen_vput. lia.
  - rewrite vat_vput_eq by lia. by rewrite Hlive', <-(Hlive' (data x)).
  - intros c2 Hc2. rewrite vat_vput_eq, !vput_twice in Hc2 by done. apply wp_ret, wp_ret. exists c2. by rewrite Hpp.
Qed.

(** The second half of [UpdateEdgeProperty], and all of it at the entry it found. *)
Definition update_in t dst ki col_id prop ts : option (outcome unit * EdgeTable Cout Cin) :=
  if negb (is_bundled (meta_ t)) then Some (Returned tt, t)
  else
    l ← csr_nbr_list (in_csr_ t) dst;
    cur ← it_init (nl_load l) 0 (nl_len l) ts;
    cur ← it_advance (Z.to_nat ki) l cur ts;
    if cur =? nl_len l then Some (Thrown, t)
    else
      x ← nl_load l cur;
      set_data U (fun t x => c ← csr_write (in_csr_ t) dst cur x; Some (with_in t c)) t col_id x prop ts.
Definition update_rest t src dst ki col_id prop ts cur x : option (outcome unit * EdgeTable Cout Cin) :=
  and_then (set_data U (fun t x => c ← csr_write (out_csr_ t) src cur x; Some (with_out t c)) t col_id x prop ts) (fun _ t => update_in t dst ki col_id prop ts).

(** The entry of one live edge replaced by that of another. *)
Lemma edges_replace (adj : list (list (nbr D))) v i x : 0 <= v < vlen adj -> 0 <= i < vlen (vat adj v) -> live (vat (vat adj v) i) = true -> live x = true ->
  exists rest, edges adj ≡ₚ (v, vat (vat adj v) i) :: rest /\ edges (vput adj v (vput (vat adj v) i x)) ≡ₚ (v, x) :: rest.
Proof.
  intros Hv Hi Hl Hx. set (l := vat adj v) in *. set (pre := take (Z.to_nat i) l). set (suf := drop (S (Z.to_nat i)) l).
  assert (l !! Z.to_nat i = Some (vat l i)) as Hli by (apply list_lookup_lookup_total_lt; unfold vlen in *; lia).
  assert (l = pre ++ vat l i :: suf) as Hsplit by (unfold pre, suf; symmetry; by apply take_drop_middle).
  assert (vput l i x = pre ++ x :: suf) as Hput.
  { unfold vput. rewrite Hsplit at 1. rewrite insert_app_r_alt; unfold pre; rewrite length_take; [|unfold vlen in *; lia].
    replace (Z.to_nat i - _)%nat with 0%nat by (unfold vlen in *; lia). done. }
  assert (forall y, live y = true -> row_edges v (pre ++ y :: suf) ≡ₚ (v, y) :: row_edges v (pre ++ suf)) as Hrow.
  { intros y Hy. unfold row_edges, keeps. rewrite !filter_app, filter_cons, decide_True, !fmap_app by done. csimpl. symmetry. apply Permutation_middle. }
  exists (row_edges v (pre ++ suf) ++ edges_but adj v). split.
  - rewrite (edges_row adj v Hv). fold l. by rewrite Hsplit at 1; rewrite Hrow.
  - rewrite edges_vput by done. by rewrite Hput, Hrow.
Qed.

(** An update of the only property of an edge, at positions counted over the visible
    entries of its two lists: when both are there, both entries get the value and the
    timestamp, and the CSRs still mirror each other if the entries are of the same
    edge; at the end of the outgoing list nothing is changed and at the end of the
    incoming one only the outgoing side is. *)
Theorem update_bundled_spec t ao ai src dst ko ki col_id prop ts d : pair_rel t ao ai -> bundled_as (meta_ t) prop d ->
  0 <= src < vlen ao -> 0 <= dst < vlen ai -> ts < INVALID_TIMESTAMP ->
  let lo := vat ao src in let li := vat ai dst in let run := UpdateEdgeProperty U t src dst ko ki col_id prop ts in
  (ko = vlen (indexed ts 0 lo) -> run = Some (Thrown, t)) /\
  forall i x, vget (indexed ts 0 lo) ko = Some (i, x) ->
    let ao' := vput ao src (vput lo i (Nbr (neighbor x) ts d)) in
    (ki = vlen (indexed ts 0 li) -> wp run (fun r => fst r = Thrown /\ same_rest t (snd r) /\ models (out_csr_ (snd r)) ao' /\ in_csr_ (snd r) = in_csr_ t)) /\
    forall j y, vget (indexed ts 0 li) ki = Some (j, y) ->
      let ai' := vput ai dst (vput li j (Nbr (neighbor y) ts d)) in
      wp run (fun r => fst r = Returned tt /\ same_rest t (snd r) /\ models (out_csr_ (snd r)) ao' /\ models (in_csr_ (snd r)) ai' /\
        ((dst, y) = flip (src, x) -> pair_rel (snd r) ao' ai' /\
           exists rest, edges ao ≡ₚ (src, x) :: rest /\ edges ao' ≡ₚ (src, Nbr dst ts d) :: rest)).
Proof.
  intros Hrel Hb Hsrc Hdst Hts lo li run. pose proof Hrel as (Ho & Hi & Hm).
  destruct (law_nbr_list (out_csr_ t) ao src Ho Hsrc) as (nl & Hnl & Hlen & Hr). fold lo in Hlen, Hr.
  assert (run = (cur ← nth_visible lo ts (Z.to_nat ko); if cur =? vlen lo then Some (Thrown, t) else x ← nl_load nl cur; update_rest t src dst ki col_id prop ts cur x)) as Hrun.
  { unfold run, UpdateEdgeProperty. rewrite Hnl. cbn [mbind option_bind]. rewrite (begin_then nl lo ts (Z.to_nat ko)) by done. by rewrite Hlen. }
  rewrite Hrun. clear run Hrun. split; [intros ->; by rewrite nth_visible_end; cbn [mbind option_bind]; rewrite Z.eqb_refl|].
  intros i x Hk ao'. destruct (nth_visible_at _ _ _ _ _ Hk) as [-> Hin]. pose proof Hin as (Hir & Hx & Hvis)%indexed_elem. rewrite Z.sub_0_r in Hx.
  cbn [mbind option_bind]. rewrite (proj2 (Z.eqb_neq i _)) by lia. assert (nl_load nl i = Some x) as -> by (rewrite <-(Z.add_0_l i), Hr by lia; by rewrite Hx). cbn [mbind option_bind].
  assert (forall Q, (forall c, models c ao' -> wp (update_in (with_out t c) dst ki col_id prop ts) Q) -> wp (update_rest t src dst ki col_id prop ts i x) Q) as Hgo.
  { intros Q HQ. unfold update_rest. apply wp_and_then. eapply wp_mono; [by apply (update_side out_csr_ with_out t ao src i x col_id prop ts d)|].
    intros r (c & -> & Hc). exists tt. split; [done|]. cbn [snd]. by apply HQ. }
  assert (is_bundled (meta_ t) = true) as Hbd by apply Hb.
  destruct (law_nbr_list (in_csr_ t) ai dst Hi Hdst) as (nl' & Hnl' & Hlen' & Hr'). fold li in Hlen', Hr'. split.
  - intros ->. apply Hgo. intros c Hc. unfold update_in. cbn [meta_ with_out in_csr_]. rewrite Hbd, Hnl'. cbn [negb mbind option_bind].
    rewrite (begin_then nl' li ts) by done. rewrite nth_visible_end. cbn [mbind option_bind]. rewrite Hlen', Z.eqb_refl. by apply wp_ret.
  - intros j y Hj. set (ai' := vput ai dst (vput li j (Nbr (neighbor y) ts d))). destruct (nth_visible_at _ _ _ _ _ Hj) as [Hnth Hinj]. pose proof Hinj as (Hjr & Hy & Hvisy)%indexed_elem. rewrite Z.sub_0_r in Hy.
    apply Hgo. intros c Hc. unfold update_in. cbn [meta_ with_out in_csr_]. rewrite Hbd, Hnl'. cbn [negb mbind option_bind].
    rewrite (begin_then nl' li ts) by done. rewrite Hnth. cbn [mbind option_bind]. rewrite (proj2 (Z.eqb_neq j _)) by lia.
    assert (nl_load nl' j = Some y) as -> by (rewrite <-(Z.add_0_l j), Hr' by lia; by rewrite Hy). cbn [mbind option_bind].
    eapply wp_mono; [by apply (update_side in_csr_ with_in (with_out t c) ai dst j y col_id prop ts d)|]. intros r (c' & -> & Hc'). cbn [fst snd].
    split; [done|]. split; [done|]. split; [done|]. split; [done|]. intros Hflip. injection Hflip as Hd ->. cbn [neighbor] in ai'.
    destruct (edges_replace ao src i (Nbr (neighbor x) ts d)) as (rest & He & He'); [done|fold lo; lia|by fold lo; rewrite <-Hx; eapply visible_live|by apply nonneg_live|].
    destruct (edges_replace ai dst j (Nbr src ts d)) as (rest' & Hf & Hf'); [done|fold li; lia|by fold li; rewrite <-Hy; eapply visible_live|by apply nonneg_live|].
    fold lo li in He, Hf. rewrite <-Hx in He. rewrite <-Hy in Hf. change (edges ao' ≡ₚ (src, Nbr (neighbor x) ts d) :: rest) in He'. change (edges ai' ≡ₚ (dst, Nbr src ts d) :: rest') in Hf'. rewrite <-Hd in He'. split; [|by exists rest].
    split_and!; [done|done|]. unfold mirrored in *. rewrite Hf', He'. csimpl. unfold flip at 1. cbn [fst snd neighbor timestamp data]. f_equiv.
    rewrite He, Hf in Hm. csimpl in Hm. unfold flip at 1 in Hm. cbn [fst snd] in Hm. rewrite <-Hd in Hm. by apply Permutation_cons_inv in Hm.
Qed.
End update.
