(* ===== verification/EdgeTheorems.v ===== *)
(** * The operations of an edge table on its edges

    [effect] says what each operation does to the multiset of edges with their
    properties, and [edge_table_refines] that the table, with its two CSRs and its
    property table, does this; [edge_table_reads]: what a view then shows. *)
From stdpp Require Import strings.
From S2P Require Import Prelude Storage Bitset Temporal Property Column ColumnSpec Table TableTheorems.
From S2P Require Import Aggregate MutableCsr CsrRows CsrOps CsrLists CsrDelete CsrEdges NbrView SingleCsr CsrInterface OffsetSearch EdgeSchema EdgeTable EdgePairs EdgeSpec EdgeUpdate.
#[local] Open Scope Z_scope.

(** The operations that change the edges; positions are counted in the rows of the
    outgoing ([oe]) and the incoming ([ie]) CSR, by [EUpdate] over the entries visible
    at its timestamp only. *)
Inductive et_op :=
  | EAdd (src dst : Z) (ps : list Property) (ts : Z) (insert_safe : bool)
  | EBatchAdd (srcs dsts : list Z) (rows : list (list Property))
  | EAddRecords (src_num dst_num : Z) (srcs dsts : list Z) (rows : list (list Property))
  | EDeleteEdge (src dst oe ie ts : Z)
  | ERevertDelete (src dst oe ie ts : Z)
  | EDeleteOffsets (oes ies : list (Z * Z))
  | EUpdate (src dst oe ie col_id : Z) (prop : Property) (ts : Z)
  | EDeleteVertex (is_src : bool) (v ts : Z)
  | EDeleteVertices (src_set dst_set : gset Z)
  | EDeleteEdges (srcs dsts : list Z)
  | ECompact (compact_csr sort_on_compaction : bool) (ts : Z)
  | EEnsure (src_cap dst_cap cap : Z).

(** The properties as the table keeps them. *)
Definition stored (m : EdgeSchema) (cols : list acol) (ps : list Property) : list Property :=
  if is_bundled m then (if no_data m then [] else take 1 ps) else clip_row (ac_width <$> cols) ps.

Definition kept (P : aedge -> bool) (E : list aedge) : list aedge := filter (fun e => P e = true) E.

#[export] Instance kept_proper (P : aedge -> bool) : Proper ((≡ₚ) ==> (≡ₚ)) (kept P).
Proof. intros E E' HE. unfold kept. by rewrite HE. Qed.

(** Without the first [x], and without as many as [gone] has. *)
#[export] Instance aedge_eq_dec : EqDecision aedge.
Proof.
  assert (EqDecision Property) by (assert (EqDecision Date) by solve_decision; assert (EqDecision Interval) by solve_decision; solve_decision).
  solve_decision.
Defined.

Fixpoint take_out (x : aedge) (E : list aedge) : list aedge :=
  match E with [] => [] | y :: E => if decide (x = y) then E else y :: take_out x E end.
Definition taken (gone E : list aedge) : list aedge := foldl (fun E x => take_out x E) E gone.

Lemma take_out_perm x E : x ∈ E -> E ≡ₚ x :: take_out x E.
Proof.
  induction E as [|y E IH]; intros Hx; [by apply elem_of_nil in Hx|]. simpl. destruct (decide (x = y)) as [->|Hne]; [done|].
  apply elem_of_cons in Hx as [?|Hx]; [done|]. rewrite (IH Hx) at 1. apply Permutation_swap.
Qed.

Lemma taken_perm gone E rest : E ≡ₚ gone ++ rest -> taken gone E ≡ₚ rest.
Proof.
  unfold taken. revert E. induction gone as [|x gone IH]; intros E HE; [done|]. apply IH. apply (Permutation_cons_inv (a := x)).
  rewrite <-take_out_perm; [done|]. rewrite HE. left.
Qed.

(** The edges of a batch, with the timestamp 0. *)
Definition batch_edges (m : EdgeSchema) (cols : list acol) (srcs dsts : list Z) (rows : list (list Property)) : list aedge :=
  (fun k => AEdge (vat srcs k) (vat dsts k) 0 (stored m cols (vat rows k))) <$> seqZ 0 (vlen srcs).

Section theorems.
Context {D Cout Cin : Type} `{NbrMemory D} (U : PropUtils D) {HL : PropLaws U} (eqb : D -> D -> bool).
Context `{!CsrBase D Cout, !CsrModel D Cout, !CsrLaws D Cout, !CsrBase D Cin, !CsrModel D Cin, !CsrLaws D Cin}.
Implicit Types (t : EdgeTable Cout Cin) (m : EdgeSchema) (cols : list acol).

(** The edge at a position of the outgoing rows, deleted or not. *)
Definition edge_at m cols (ao : list (list (nbr D))) (p : Z * Z) : aedge := aedge_of U m cols (entry_edge ao p).

(** What an operation does to the edges [E] of a table with the outgoing rows [ao]. *)
Definition effect (op : et_op) m cols (ao : list (list (nbr D))) (E : list aedge) : list aedge :=
  match op with
  | EAdd src dst ps ts _ => AEdge src dst ts (stored m cols ps) :: E
  | EBatchAdd srcs dsts rows => batch_edges m cols srcs dsts rows ++ E
  | EAddRecords _ _ srcs dsts rows =>
      let found {A} (l : list A) := filter_flags (valid_flags srcs dsts) l in
      batch_edges m cols (found srcs) (found dsts) (found rows) ++ E
  | EDeleteEdge src _ oe _ _ => taken [edge_at m cols ao (src, oe)] E
  | ERevertDelete src dst oe _ ts => AEdge src dst ts (ae_props (edge_at m cols ao (src, oe))) :: E
  | EDeleteOffsets oes _ => taken (edge_at m cols ao <$> oes) E
  | EUpdate src dst oe _ _ prop ts =>
      match vget (indexed ts 0 (vat ao src)) oe with
      | Some (i, _) => AEdge src dst ts [prop] :: taken [edge_at m cols ao (src, i)] E
      | None => E
      end
  | EDeleteVertex true v ts => kept (fun e => negb ((ae_src e =? v) && (ae_ts e <=? ts))) E
  | EDeleteVertex false v ts => kept (fun e => negb ((ae_dst e =? v) && (ae_ts e <=? ts))) E
  | EDeleteVertices src_set dst_set => kept (fun e => outside src_set dst_set (ae_src e, ae_dst e)) E
  | EDeleteEdges srcs dsts => kept (fun e => bool_decide ((ae_src e, ae_dst e) ∉ zip srcs dsts)) E
  | ECompact _ _ _ => (fun e => AEdge (ae_src e) (ae_dst e) 0 (ae_props e)) <$> E
  | EEnsure _ _ _ => E
  end.

Definition et_exec (op : et_op) t : option (outcome unit * EdgeTable Cout Cin) :=
  match op with
  | EAdd src dst ps ts safe => and_then (AddEdge U t src dst ps ts safe) (fun _ t => Some (Returned tt, t))
  | EBatchAdd srcs dsts rows => BatchAddEdges U t srcs dsts rows
  | EAddRecords src_num dst_num srcs dsts rows => BatchAddRecords U t src_num dst_num srcs dsts rows
  | EDeleteEdge src dst oe ie ts => DeleteEdge t src dst oe ie ts
  | ERevertDelete src dst oe ie ts => RevertDeleteEdge t src dst oe ie ts
  | EDeleteOffsets oes ies => t ← BatchDeleteOffsets t oes ies; Some (Returned tt, t)
  | EUpdate src dst oe ie col_id prop ts => UpdateEdgeProperty U t src dst oe ie col_id prop ts
  | EDeleteVertex is_src v ts => DeleteVertex U eqb t is_src v ts
  | EDeleteVertices src_set dst_set => t ← BatchDeleteVertices t src_set dst_set; Some (Returned tt, t)
  | EDeleteEdges srcs dsts => t ← BatchDeleteEdges t srcs dsts; Some (Returned tt, t)
  | ECompact c s ts => Compact t c s ts
  | EEnsure src_cap dst_cap cap => EnsureCapacities t src_cap dst_cap cap
  end.

(** Values of the type of the edge data. *)
Definition bundled_ok m (ps : list Property) : Prop :=
  if no_data m then is_Some (to_typed U (default PEmpty (head ps))) else exists p, head ps = Some p /\ prop_type p = pu_type U.

(** Enough rows for [n]: the columns [cols] become [cols1]. *)
Definition grow_ok t cols (n : Z) cols1 : Prop :=
  if is_bundled (meta_ t) || (n <=? capacity_ t) then cols1 = cols
  else grow_cols (Z.max n 4096) (default_property_values (meta_ t)) cols = Some cols1 /\ Z.max n 4096 < 2 ^ 63.

(** The rows of a batch: of the types of the edge data, or with room for them in the
    property table. *)
Definition rows_ok t cols (n : Z) (rows : list (list Property)) : Prop :=
  vlen rows = n /\
  if is_bundled (meta_ t) then (if no_data (meta_ t) then is_Some (to_typed U PEmpty) else Forall (bundled_ok (meta_ t)) rows)
  else table_idx_ t + n < 2 ^ 62 /\ exists cols1,
    grow_ok t cols (if table_idx_ t + n <? capacity_ t then 0 else next_cap (table_idx_ t + n)) cols1 /\
    is_Some (set_rows (table_idx_ t) cols1 rows).

(** A batch fits the CSRs once they are resized. *)
Definition fits_resized t (src_num dst_num : Z) (srcs dsts : list Z) : Prop := forall o i ao' ai',
  csr_resize (out_csr_ t) src_num = Some o -> csr_resize (in_csr_ t) dst_num = Some i -> models o ao' -> models i ai' ->
  batch_fits (Cout := Cout) (Cin := Cin) ao' ai' srcs dsts.

(** The only property of an edge is in the entries, and of the type of [prop]. *)
Definition updatable m (prop : Property) : Prop :=
  is_bundled m = true /\ match properties m with [(ty, _)] => comparable ty = true | _ => False end /\ prop_type prop = pu_type U.

(** The contract: vertices in range, room in the CSRs, values of the right types;
    positions that name the two entries of one edge, deleted ones to be put back and
    others to be deleted, with a timestamp up to that of the deletion; and updates in
    place of the only property of an edge. *)
Definition allowed (op : et_op) t (ao ai : list (list (nbr D))) cols : Prop :=
  match op with
  | EAdd src dst ps ts _ =>
      0 <= src < vlen ao /\ 0 <= dst < vlen ai /\ room (C := Cout) (vat ao src) /\ room (C := Cin) (vat ai dst) /\ ts <> INVALID_TIMESTAMP /\
      if is_bundled (meta_ t) then bundled_ok (meta_ t) ps
      else table_idx_ t < capacity_ t /\ is_Some (set_row (table_idx_ t) cols ps)
  | EBatchAdd srcs dsts rows =>
      batch_fits (Cout := Cout) (Cin := Cin) ao ai srcs dsts /\ rows_ok t cols (vlen srcs) rows /\
      (is_bundled (meta_ t) = true -> properties (meta_ t) <> [])
  | EAddRecords src_num dst_num srcs dsts rows =>
      let found {A} (l : list A) := filter_flags (valid_flags srcs dsts) l in
      vlen ao <= src_num < 2 ^ 32 /\ vlen ai <= dst_num < 2 ^ 32 /\ fits_resized t src_num dst_num (found srcs) (found dsts) /\
      rows_ok t cols (vlen (found srcs)) (found rows)
  | EDeleteEdge src dst oe ie ts =>
      paired ao ai (src, oe) (dst, ie) /\ timestamp (snd (entry_edge ao (src, oe))) <= ts < INVALID_TIMESTAMP
  | ERevertDelete src dst oe ie ts =>
      paired_dead ao ai (src, oe) (dst, ie) /\ ts <> INVALID_TIMESTAMP /\
      (is_bundled (meta_ t) = false -> exists i, row_of U (data (snd (entry_edge ao (src, oe)))) = Some i /\ 0 <= i < table_idx_ t)
  | EDeleteOffsets oes ies => paired_all ao ai oes ies
  | EUpdate src dst oe ie _ prop ts =>
      0 <= src < vlen ao /\ 0 <= dst < vlen ai /\ ts < INVALID_TIMESTAMP /\ updatable (meta_ t) prop /\
      exists i x j y, vget (indexed ts 0 (vat ao src)) oe = Some (i, x) /\ vget (indexed ts 0 (vat ai dst)) ie = Some (j, y) /\ (dst, y) = flip (src, x)
  | EDeleteVertex is_src v ts =>
      searchable U eqb (meta_ t) /\ ts < INVALID_TIMESTAMP /\ if is_src then 0 <= v < vlen ao else 0 <= v < vlen ai
  | EDeleteVertices src_set dst_set => (forall i, i ∈ src_set -> 0 <= i) /\ (forall i, i ∈ dst_set -> 0 <= i)
  | EDeleteEdges srcs dsts =>
      vlen srcs = vlen dsts /\ Forall (fun i => 0 <= i) srcs /\ Forall (fun i => 0 <= i) dsts /\ pairs_live ao srcs dsts /\ pairs_live ai dsts srcs
  | ECompact _ _ _ => True
  | EEnsure src_cap dst_cap cap => src_cap < 2 ^ 32 /\ dst_cap < 2 ^ 32 /\ exists cols1, grow_ok t cols cap cols1
  end.

(** ** Each operation *)

Definition step_ok (op : et_op) t (ao : list (list (nbr D))) cols (E : list aedge) : Prop :=
  wp (et_exec op t) (fun r => fst r = Returned tt /\ meta_ (snd r) = meta_ t /\
    exists ao' ai' cols', et_rel U (snd r) ao' ai' cols' (effect op (meta_ t) cols ao E)).

(** The CSRs change, with edges whose rows are in the property table. *)
Lemma et_rel_csrs t t' ao ai ao' ai' cols E E' : et_rel U t ao ai cols E -> same_rest t t' -> pair_rel t' ao' ai' ->
  (is_bundled (meta_ t) = false -> forall e, e ∈ edges ao' -> exists i, row_of U (data (snd e)) = Some i /\ 0 <= i < table_idx_ t) ->
  E' ≡ₚ aedge_of U (meta_ t) cols <$> edges ao' -> et_rel U t' ao' ai' cols E'.
Proof.
  intros [Hp Hr He] [Hm Ht Hi Hc] Hp' Hrow HE. split; [done| |by rewrite Hm].
  rewrite Hm. intros Hb. destruct (Hr Hb) as [R1 R2 R3 R4 R5 R6 R7]. split; rewrite ?Hm, ?Ht, ?Hi, ?Hc; try done. by apply Hrow.
Qed.

(** Edges are taken away. *)
Lemma et_rel_taken t t' ao ai ao' ai' cols E gone : et_rel U t ao ai cols E -> same_rest t t' -> pair_rel t' ao' ai' ->
  edges ao ≡ₚ gone ++ edges ao' -> et_rel U t' ao' ai' cols (taken (aedge_of U (meta_ t) cols <$> gone) E).
Proof.
  intros Hrel Hs Hp He. apply (et_rel_csrs t t' ao ai ao' ai' cols E _ Hrel Hs Hp).
  - intros Hb e Hin. apply (rr_rows _ _ _ _ (et_rows _ _ _ _ _ _ Hrel Hb)). rewrite He. set_solver.
  - apply taken_perm. by rewrite (et_edges _ _ _ _ _ _ Hrel), He, fmap_app.
Qed.

Lemma delete_entries_step t ao ai cols E src dst oe ie ts : et_rel U t ao ai cols E -> allowed (EDeleteEdge src dst oe ie ts) t ao ai cols ->
  step_ok (EDeleteEdge src dst oe ie ts) t ao cols E.
Proof.
  intros Hrel [Hp Hts]. unfold step_ok. cbn [et_exec effect].
  eapply wp_mono; [apply (DeleteEdge_wp t ao ai (src, oe) (dst, ie) ts); [apply Hrel|done|done]|]. intros [r t'] (Hr & Hsr & ao' & ai' & Hp' & He).
  cbn [fst snd] in *. split; [done|]. split; [apply Hsr|]. exists ao', ai', cols. by apply (et_rel_taken t t' ao ai ao' ai' cols E [_] Hrel Hsr Hp').
Qed.

Lemma delete_offsets_step t ao ai cols E oes ies : et_rel U t ao ai cols E -> allowed (EDeleteOffsets oes ies) t ao ai cols ->
  step_ok (EDeleteOffsets oes ies) t ao cols E.
Proof.
  intros Hrel Hp. unfold step_ok. cbn [et_exec effect]. apply wp_bind. eapply wp_mono; [apply (BatchDeleteOffsets_wp t ao ai); [apply Hrel|done]|].
  intros t' (Hsr & ao' & ai' & Hp' & He). apply wp_ret. cbn [fst snd]. split; [done|]. split; [apply Hsr|]. exists ao', ai', cols.
  assert (edge_at (meta_ t) cols ao <$> oes = aedge_of U (meta_ t) cols <$> (entry_edge ao <$> oes)) as -> by (by rewrite <-list_fmap_compose).
  by apply (et_rel_taken t t' ao ai ao' ai' cols E _ Hrel Hsr Hp').
Qed.

Lemma revert_step t ao ai cols E src dst oe ie ts : et_rel U t ao ai cols E -> allowed (ERevertDelete src dst oe ie ts) t ao ai cols ->
  step_ok (ERevertDelete src dst oe ie ts) t ao cols E.
Proof.
  intros Hrel (Hp & Hts & Hrow). unfold step_ok. cbn [et_exec effect].
  eapply wp_mono; [apply (RevertDeleteEdge_wp t ao ai (src, oe) (dst, ie) ts); [apply Hrel|done|done]|]. intros [r t'] (Hr & Hsr & ao' & ai' & Hp' & He).
  cbn [fst snd] in *. split; [done|]. split; [apply Hsr|]. exists ao', ai', cols. apply (et_rel_csrs t t' ao ai ao' ai' cols E _ Hrel Hsr Hp').
  - intros Hb e Hin. rewrite He in Hin. apply elem_of_cons in Hin as [->|Hin]; [by apply Hrow|]. by apply (rr_rows _ _ _ _ (et_rows _ _ _ _ _ _ Hrel Hb)).
  - rewrite He, (et_edges _ _ _ _ _ _ Hrel). done.
Qed.

Lemma update_step t ao ai cols E src dst oe ie col_id prop ts : et_rel U t ao ai cols E -> allowed (EUpdate src dst oe ie col_id prop ts) t ao ai cols ->
  step_ok (EUpdate src dst oe ie col_id prop ts) t ao cols E.
Proof.
  intros Hrel (Hs & Hd & Hts & (Hb & Hty & Hpt) & i & x & j & y & Hx & Hy & Hf). unfold step_ok. cbn [et_exec effect]. rewrite Hx.
  destruct (pl_total (U := U) prop Hpt) as [d Hdt]. pose proof (pl_typed (U := U) prop d Hpt Hdt) as Hdp.
  destruct (update_bundled_spec U t ao ai src dst oe ie col_id prop ts d) as [_ Hu]; [apply Hrel|done|done|done|done|]. destruct (Hu i x Hx) as [_ Hu']. clear Hu.
  eapply wp_mono; [by apply (Hu' j y)|]. intros [r t'] (Hr & Hsr & _ & _ & Hok). cbn [fst snd] in *. destruct (Hok Hf) as (Hp & rest & He & He').
  split; [done|]. split; [apply Hsr|]. eexists _, _, cols. apply (et_rel_csrs t t' ao ai _ _ cols E _ Hrel Hsr Hp); [by rewrite Hb|]. rewrite He', fmap_cons.
  assert (aedge_of U (meta_ t) cols (src, Nbr dst ts d) = AEdge src dst ts [prop]) as ->.
  { unfold aedge_of, props_of, no_data. rewrite Hb. cbn [fst snd neighbor timestamp data]. destruct (properties (meta_ t)) as [|[ty w] [|]]; [done| |done].
    rewrite bool_decide_eq_false_2 by (by intros ->). by rewrite Hdp. }
  apply perm_skip, taken_perm. rewrite (et_edges _ _ _ _ _ _ Hrel), He. csimpl. unfold edge_at, entry_edge. cbn [fst snd].
  apply vget_elem, indexed_elem in Hx as (_ & Hx & _). rewrite Z.sub_0_r in Hx. by rewrite Hx.
Qed.

Lemma delete_vertex_step t ao ai cols E is_src v ts : et_rel U t ao ai cols E -> allowed (EDeleteVertex is_src v ts) t ao ai cols ->
  step_ok (EDeleteVertex is_src v ts) t ao cols E.
Proof.
  intros Hrel (Hs & Hts & Hv). unfold step_ok. cbn [et_exec]. destruct is_src; cbn [effect].
  - eapply wp_mono; [by apply (DeleteVertex_out U eqb t ao ai); [apply Hrel| | |]|]. intros [r t'] (Hr & Hsr & ao' & ai' & Hp & _ & _ & He). cbn [fst snd] in *.
    split; [done|]. split; [apply Hsr|]. exists ao', ai', cols. apply (et_rel_sub U t t' ao ai ao' ai' cols E _ (not_from v ts) Hrel Hsr Hp); [by rewrite He|done].
  - eapply wp_mono; [by apply (DeleteVertex_in U eqb t ao ai); [apply Hrel| | |]|]. intros [r t'] (Hr & Hsr & ao' & ai' & Hp & _ & _ & He). cbn [fst snd] in *.
    split; [done|]. split; [apply Hsr|]. exists ao', ai', cols. by apply (et_rel_sub U t t' ao ai ao' ai' cols E _ (not_to v ts) Hrel Hsr Hp).
Qed.

Lemma delete_vertices_step t ao ai cols E (src_set dst_set : gset Z) : et_rel U t ao ai cols E -> allowed (EDeleteVertices src_set dst_set) t ao ai cols ->
  step_ok (EDeleteVertices src_set dst_set) t ao cols E.
Proof.
  intros Hrel [Hs Hd]. unfold step_ok. cbn [et_exec effect]. apply wp_bind. eapply wp_mono; [apply (BatchDeleteVertices_wp t ao ai); [apply Hrel|done|done]|].
  intros t' (Hsr & ao' & ai' & Hp & _ & _ & He). apply wp_ret. split; [done|]. split; [apply Hsr|]. exists ao', ai', cols.
  apply (et_rel_sub U t t' ao ai ao' ai' cols E _ (fun e => outside src_set dst_set (ends e)) Hrel Hsr Hp); [by rewrite He|done].
Qed.

Lemma delete_edges_step t ao ai cols E srcs dsts : et_rel U t ao ai cols E -> allowed (EDeleteEdges srcs dsts) t ao ai cols ->
  step_ok (EDeleteEdges srcs dsts) t ao cols E.
Proof.
  intros Hrel (Hl & Hs & Hd & Hpo & Hpi). unfold step_ok. cbn [et_exec effect]. apply wp_bind.
  eapply wp_mono; [apply (BatchDeleteEdges_wp t ao ai); [apply Hrel|done..]|].
  intros t' (Hsr & ao' & ai' & Hp & _ & _ & He). apply wp_ret. split; [done|]. split; [apply Hsr|]. exists ao', ai', cols.
  apply (et_rel_sub U t t' ao ai ao' ai' cols E _ (fun e => bool_decide (ends e ∉ zip srcs dsts)) Hrel Hsr Hp); [by rewrite He|done].
Qed.

Lemma compact_step t ao ai cols E c s ts : et_rel U t ao ai cols E -> step_ok (ECompact c s ts) t ao cols E.
Proof.
  intros [Hp Hr He]. unfold step_ok. cbn [et_exec effect]. eapply wp_mono; [by apply (Compact_wp t ao ai)|].
  intros [r t'] (Hrt & [Hm Ht Hi Hc] & ao' & ai' & Hp' & _ & _ & He'). cbn [fst snd] in *. split; [done|]. split; [done|]. exists ao', ai', cols. split; [done| |].
  - rewrite Hm. intros Hb. destruct (Hr Hb) as [R1 R2 R3 R4 R5 R6 R7]. split; rewrite ?Hm, ?Ht, ?Hi, ?Hc; try done.
    intros e Hin. rewrite He' in Hin. apply list_elem_of_fmap in Hin as ([v x] & -> & Hin). apply (R7 _ Hin).
  - rewrite Hm, He, He', <-!list_fmap_compose. apply reflexive_eq, list_fmap_ext. intros i [v [d ts' x]] _. done.
Qed.

(** *** Capacity *)

(** Only the table and its capacity differ. *)
Record same_csrs t t' : Prop := {
  sc_meta : meta_ t' = meta_ t;
  sc_out : out_csr_ t' = out_csr_ t;
  sc_in : in_csr_ t' = in_csr_ t;
  sc_idx : table_idx_ t' = table_idx_ t
}.

Lemma ensure_wp t ao ai cols cols1 E n : et_rel U t ao ai cols E -> grow_ok t cols n cols1 ->
  wp (EnsureCapacity t n) (fun r => fst r = Returned tt /\ same_csrs t (snd r) /\ et_rel U (snd r) ao ai cols1 E /\
    ac_width <$> cols1 = ac_width <$> cols /\ (is_bundled (meta_ t) = false -> n <= capacity_ (snd r))).
Proof.
  intros Hrel Hg. pose proof Hrel as [Hp Hr He]. unfold EnsureCapacity, grow_ok in *. destruct (is_bundled (meta_ t)) eqn:Eb; simpl in Hg.
  { subst cols1. apply wp_ret. split; [done|]. split; [done|]. split; [exact Hrel|]. done. }
  destruct (Z.leb_spec n (capacity_ t)).
  { subst cols1. apply wp_ret. split; [done|]. split; [done|]. split; [exact Hrel|]. done. }
  destruct Hg as [Hg Hc]. destruct (Hr eq_refl) as [R1 R2 R3 R4 R5 R6 R7].
  destruct (grow_cols_rel (table_ t) cols _ _ cols1 R2 Hg) as (tb' & Htb & Htr). destruct (grow_cols_inv _ _ _ _ (capacity_ t) Hg R3 ltac:(lia)) as (Hl & Hcl & Hrow).
  apply wp_and_then, wp_through. rewrite Htb. exists tt. cbn [fst snd]. split; [done|]. split; [done|]. split; [done|].
  split; [|split; [by eapply grow_cols_widths|intros _; cbn [snd with_capacity capacity_]; lia]]. split; cbn [snd meta_ with_capacity with_table].
  - exact Hp.
  - intros _. split; cbn [snd meta_ with_capacity with_table table_ capacity_ table_idx_]; try done; [congruence|lia].
  - rewrite He. apply reflexive_eq. symmetry. apply aedges_same. intros _ e He'. destruct (R7 e He') as (i & Hi & Hlt). exists i. split; [done|]. apply Hrow. lia.
Qed.

Lemma ensure_step t ao ai cols E src_cap dst_cap cap : et_rel U t ao ai cols E -> allowed (EEnsure src_cap dst_cap cap) t ao ai cols ->
  step_ok (EEnsure src_cap dst_cap cap) t ao cols E.
Proof.
  intros [Hp Hr He] (Hs & Hd & cols1 & Hg). unfold step_ok. cbn [et_exec effect]. unfold EnsureCapacities. apply wp_bind.
  eapply wp_mono; [by apply (resize_out_wp t ao ai)|]. intros t1 ([Hm1 Ht1 Hi1 Hc1] & _ & eo & Hp1 & _ & He1). apply wp_bind.
  eapply wp_mono; [by apply (resize_in_wp t1 (ao ++ eo) ai)|]. intros t2 ([Hm2 Ht2 Hi2 Hc2] & ei & Hp2 & _).
  assert (meta_ t2 = meta_ t) as Hm by congruence.
  eapply wp_mono; [apply (ensure_wp t2 (ao ++ eo) (ai ++ ei) cols cols1 E cap)|].
  - split; [done| |].
    + rewrite Hm. intros Hb. destruct (Hr Hb) as [R1 R2 R3 R4 R5 R6 R7]. split; rewrite ?Hm2, ?Ht2, ?Hi2, ?Hc2, ?Hm1, ?Ht1, ?Hi1, ?Hc1; try done. by rewrite He1.
    + by rewrite Hm, He1.
  - unfold grow_ok in *. by rewrite Hm, Hc2, Hc1.
  - intros [r t3] (Hrt & Hsc & Hrel & _). cbn [fst snd] in *. split; [done|]. split; [rewrite (sc_meta _ _ Hsc); congruence|].
    by exists (ao ++ eo), (ai ++ ei), cols1.
Qed.

(** *** Insertion *)

(** The new edge and its row. *)
Lemma et_rel_add t t' ao ai ao' ai' cols cols' E src dst ts d ps : et_rel U t ao ai cols E -> meta_ t' = meta_ t -> pair_rel t' ao' ai' ->
  edges ao' ≡ₚ (src, Nbr dst ts d) :: edges ao -> props_of U (meta_ t) cols' d = ps ->
  (is_bundled (meta_ t) = false -> rows_rel U t' ao' cols' /\ forall j, 0 <= j < table_idx_ t -> row_at cols' j = row_at cols j) ->
  et_rel U t' ao' ai' cols' (AEdge src dst ts ps :: E).
Proof.
  intros [Hp Hr He] Hm Hp' He' Hps Hrows. split; [done| |].
  - rewrite Hm. intros Hb. by apply Hrows.
  - rewrite Hm, He, He'. csimpl.
    assert (aedge_of U (meta_ t) cols' (src, Nbr dst ts d) = AEdge src dst ts ps) as -> by (unfold aedge_of; cbn [fst snd neighbor timestamp data]; by rewrite Hps). f_equiv. apply reflexive_eq. symmetry.
    apply aedges_same. intros Hb e Hin. destruct (Hrows Hb) as [_ Hrow]. destruct (rr_rows _ _ _ _ (Hr Hb) e Hin) as (i & Hi & Hlt). exists i. split; [done|]. by apply Hrow.
Qed.

Lemma bundled_data m ps : is_bundled m = true -> bundled_ok m ps ->
  exists d, to_typed U (match ps with [] => PEmpty | p :: _ => p end) = Some d /\ forall cols, props_of U m cols d = stored m cols ps.
Proof.
  intros Hb. unfold bundled_ok, props_of, stored. rewrite Hb. destruct (no_data m).
  - intros [d Hd]. exists d. destruct ps; done.
  - intros (p & Hp & Ht). destruct ps as [|q ps]; [done|]. injection Hp as ->. destruct (pl_total (U := U) p Ht) as [d Hd]. exists d. split; [done|].
    intros cols. simpl. by rewrite (pl_typed (U := U) p d Ht Hd).
Qed.

Lemma add_step t ao ai cols E src dst ps ts safe : et_rel U t ao ai cols E -> allowed (EAdd src dst ps ts safe) t ao ai cols ->
  step_ok (EAdd src dst ps ts safe) t ao cols E.
Proof.
  intros Hrel (Hs & Hd & Hro & Hri & Hts & Hok). pose proof Hrel as [(Ho & Hi & Hm) Hr He]. unfold step_ok. cbn [et_exec effect].
  apply wp_and_then. unfold AddEdge. destruct (is_bundled (meta_ t)) eqn:Eb.
  - destruct (bundled_data _ _ Eb Hok) as (d & Hdt & Hps). apply wp_and_then.
    eapply wp_mono; [by apply (in_put_wp U t ai src dst _ d ts)|]. intros [r t1] (off1 & Hr1 & c1 & ai' & -> & Hi' & _ & Hei). cbn [fst snd] in *.
    exists off1. split; [done|]. eapply wp_mono; [by apply (out_put_wp U (with_in t c1) ao src dst _ d ts)|].
    intros [r2 t2] (off & Hr2 & c2 & ao' & -> & Ho' & _ & Heo & _ & _). cbn [fst snd] in *. exists off. split; [done|]. split; [done|]. split; [done|].
    exists ao', ai', cols. apply (et_rel_add t _ ao ai ao' ai' cols cols E src dst ts d); [done|done| |done|apply Hps|by rewrite Eb].
    split_and!; [done|done|by eapply mirrored_put].
  - destruct Hok as [Hcap [cols' Hset]]. destruct (Hr eq_refl) as [R1 R2 R3 R4 R5 R6 R7]. destruct (set_row_inv _ _ _ _ Hset) as (Hsh & Hlen & Hrow).
    rewrite (proj2 (Z.eqb_eq _ _)) by congruence. cbn [negb]. set (idx := table_idx_ t) in *. destruct (row_data U idx R1) as (d & Hdt & Hrd).
    apply wp_and_then. eapply wp_mono; [by apply (in_put_wp U (with_idx t (idx + 1)) ai src dst _ d ts)|].
    intros [r t1] (off1 & Hr1 & c1 & ai' & -> & Hi' & _ & Hei). cbn [fst snd] in *. exists off1. split; [done|]. apply wp_and_then.
    eapply wp_mono; [by apply (out_put_wp U (with_in (with_idx t (idx + 1)) c1) ao src dst _ d ts)|].
    intros [r2 t2] (off & Hr2 & c2 & ao' & -> & Ho' & _ & Heo & _ & _). cbn [fst snd] in *. exists off. split; [done|]. apply wp_and_then, wp_through.
    destruct (table_insert_rel (table_ t) cols idx ps safe cols' R2 ltac:(lia) Hset) as (tb' & Htb & Htr).
    cbn [table_ with_out with_in with_idx]. rewrite Htb. exists tt. split; [done|]. exists off. split; [done|]. split; [done|]. split; [done|].
    exists ao', ai', cols'. apply (et_rel_add t _ ao ai ao' ai' cols cols' E src dst ts d); [done|done| |done| |].
    + split_and!; [done|done|by eapply mirrored_put].
    + unfold props_of, stored. rewrite Eb, Hrd. apply set_row_at; [lia|done].
    + intros _. split; [|intros j Hj; apply Hrow; lia].
      assert (to_u64 (idx + 1) = idx + 1) as Hu by (apply Z.mod_small; lia).
      split; cbn [snd meta_ table_ table_idx_ capacity_ with_table with_out with_in with_idx]; [done|done|exact (shape_long _ _ _ Hsh R3)|by rewrite (shape_len _ _ Hsh)| |done|];
        rewrite Hu; [lia|]. intros e Hin. rewrite Heo in Hin. apply elem_of_cons in Hin as [->|Hin]; [exists idx; split; [done|lia]|].
      destruct (R7 e Hin) as (i & Hie & Hlt). exists i. split; [done|lia].
Qed.

(** *** Batches *)

Lemma ensure_batch_wp t ao ai cols cols1 E n : et_rel U t ao ai cols E -> 0 <= n ->
  (is_bundled (meta_ t) = true -> cols1 = cols) ->
  (is_bundled (meta_ t) = false -> table_idx_ t + n < 2 ^ 62 /\
     grow_ok t cols (if table_idx_ t + n <? capacity_ t then 0 else next_cap (table_idx_ t + n)) cols1) ->
  wp (ensure_batch t n) (fun r => fst r = Returned tt /\ same_csrs t (snd r) /\ et_rel U (snd r) ao ai cols1 E /\
    ac_width <$> cols1 = ac_width <$> cols /\ (is_bundled (meta_ t) = false -> table_idx_ t + n <= capacity_ (snd r))).
Proof.
  intros Hrel Hn Hbun Hunb. unfold ensure_batch. destruct (grow_capacity_ends (to_u64 (table_idx_ t + n))) as [Hgrow _]. rewrite Hgrow.
  destruct (is_bundled (meta_ t)) eqn:Eb.
  - rewrite (Hbun eq_refl). assert (EnsureCapacity t (next_cap (to_u64 (table_idx_ t + n))) = Some (Returned tt, t)) as Hens by (unfold EnsureCapacity; by rewrite Eb).
    cbn [mbind option_bind]. rewrite Hens. destruct (_ <? Capacity t); apply wp_ret; done.
  - destruct (Hunb eq_refl) as [Hlt Hg]. destruct (et_rows _ _ _ _ _ _ Hrel Eb) as [_ _ _ _ R5 R6 _].
    assert (to_u64 (table_idx_ t + n) = table_idx_ t + n) as Hu by (apply Z.mod_small; lia). rewrite Hu. unfold Capacity. rewrite Eb.
    destruct (Z.ltb_spec (table_idx_ t + n) (capacity_ t)).
    + apply wp_ret. split; [done|]. split; [done|]. unfold grow_ok in Hg. rewrite Eb in Hg. simpl in Hg. rewrite (proj2 (Z.leb_le 0 _)) in Hg by lia. subst cols1.
      split; [done|]. split; [done|]. intros _. simpl. lia.
    + cbn [mbind option_bind]. eapply wp_mono; [by apply (ensure_wp t ao ai cols cols1 E)|]. intros [r t'] (Hr & Hsc & Hrel' & Hw & Hc). cbn [fst snd] in *.
      split_and!; try done. intros _. specialize (Hc Eb). destruct (grow_capacity_ends (table_idx_ t + n)) as [_ Hnc]. lia.
Qed.

Lemma mapM_rows idx n : pu_type U = kUInt64 -> 0 <= idx -> 0 <= n -> idx + n < 2 ^ 64 ->
  exists data, mapM (fun i => to_typed U (PUInt64 (to_u64 (idx + i)))) (seqZ 0 n) = Some data /\ vlen data = n /\
    forall k, 0 <= k < n -> row_of U (vat data k) = Some (idx + k).
Proof.
  intros Ht Hi Hn Hlt. destruct (mapM (fun i => to_typed U (PUInt64 (to_u64 (idx + i)))) (seqZ 0 n)) as [data|] eqn:E.
  - exists data. split; [done|]. apply mapM_Some in E. pose proof (Forall2_length _ _ _ E) as Hl. rewrite length_seqZ in Hl.
    split; [unfold vlen; lia|]. intros k Hk.
    assert (seqZ 0 n !! Z.to_nat k = Some k) as Hsk by (apply lookup_seqZ; lia).
    destruct (Forall2_lookup_l _ _ _ _ _ E Hsk) as (d & Hd & Htd). assert (vat data k = d) as -> by (unfold vat; by apply list_lookup_total_correct).
    unfold row_of. rewrite <-(pl_typed (U := U) (PUInt64 (to_u64 (idx + k))) d (eq_sym Ht) Htd). f_equal. apply Z.mod_small. lia.
  - exfalso. apply eq_None_not_Some in E. apply E. apply mapM_is_Some, Forall_forall. intros i _. apply pl_total. done.
Qed.

(** The edges of a batch whose ends are in range. *)
Lemma new_edges_fmap n srcs dsts (data : list D) ts : Forall (fun i => 0 <= i < n) srcs ->
  new_edges n srcs dsts data ts = (fun k => (vat srcs k, Nbr (vat dsts k) ts (vat data k))) <$> seqZ 0 (vlen srcs).
Proof.
  intros Hs. rewrite Forall_forall in Hs. unfold new_edges. assert (forall l, (forall k, k ∈ l -> 0 <= k < vlen srcs) ->
    flat_map (fun k => if vat srcs k <? n then [(vat srcs k, Nbr (vat dsts k) ts (vat data k))] else []) l =
    (fun k => (vat srcs k, Nbr (vat dsts k) ts (vat data k))) <$> l) as Hgo.
  { induction l as [|k l IH]; intros Hl; [done|]. csimpl. rewrite IH by set_solver.
    assert (vat srcs k < n) by (apply Hs, vat_elem, Hl; left). by rewrite (proj2 (Z.ltb_lt _ _)). }
  apply Hgo. intros k Hk. apply elem_of_seqZ in Hk. lia.
Qed.

Lemma et_rel_batch t t' ao ai ao' ai' cols cols1 cols' E srcs dsts rows (data : list D) n : et_rel U t ao ai cols1 E -> meta_ t' = meta_ t -> pair_rel t' ao' ai' ->
  Forall (fun i => 0 <= i < n) srcs -> edges ao' ≡ₚ new_edges n srcs dsts data 0 ++ edges ao ->
  (forall k, 0 <= k < vlen srcs -> props_of U (meta_ t) cols' (vat data k) = stored (meta_ t) cols (vat rows k)) ->
  (is_bundled (meta_ t) = false -> rows_rel U t' ao' cols' /\ forall j, 0 <= j < table_idx_ t -> row_at cols' j = row_at cols1 j) ->
  et_rel U t' ao' ai' cols' (batch_edges (meta_ t) cols srcs dsts rows ++ E).
Proof.
  intros [Hp Hr He] Hm Hp' Hs He' Hps Hrows. split; [done| |].
  - rewrite Hm. intros Hb. by apply Hrows.
  - unfold batch_edges. rewrite Hm, He, He', fmap_app, new_edges_fmap by done. f_equiv.
    + rewrite <-list_fmap_compose. apply reflexive_eq, list_fmap_ext. intros i k Hk. apply list_elem_of_lookup_2, elem_of_seqZ in Hk.
      simpl. unfold aedge_of. simpl. rewrite Hps by lia. done.
    + apply reflexive_eq. symmetry. apply aedges_same. intros Hb e Hin. destruct (Hrows Hb) as [_ Hrow].
      destruct (rr_rows _ _ _ _ (Hr Hb) e Hin) as (i & Hi & Hlt). exists i. split; [done|]. by apply Hrow.
Qed.

Lemma bundled_batch m rows (n : Z) : is_bundled m = true -> vlen rows = n ->
  (if no_data m then is_Some (to_typed U PEmpty) else Forall (bundled_ok m) rows) ->
  exists flat data, (if no_data m then Some [] else mapM head rows) = Some flat /\
    mapM (to_typed U) (if no_data m then replicate (Z.to_nat n) PEmpty else flat) = Some data /\ vlen data = n /\
    forall cols k, 0 <= k < n -> props_of U m cols (vat data k) = stored m cols (vat rows k).
Proof.
  intros Hb Hn. unfold props_of, stored. rewrite Hb. destruct (no_data m) eqn:End.
  - intros [d Hd]. exists [], (replicate (Z.to_nat n) d). pose proof (vlen_nonneg rows). split; [done|]. split; [|split; [unfold vlen; rewrite length_replicate; lia|done]].
    apply mapM_Some. induction (Z.to_nat n); simpl; by constructor.
  - intros Hok. subst n. assert (exists flat data, mapM head rows = Some flat /\ mapM (to_typed U) flat = Some data /\ vlen data = vlen rows /\
      forall k, 0 <= k < vlen rows -> [to_prop U (vat data k)] = take 1 (vat rows k)) as (flat & data & H1 & H2 & H3 & H4); [|by exists flat, data].
    induction rows as [|r rows IH]; [exists [], []; split_and!; try done; intros k Hk; unfold vlen in Hk; simpl in Hk; lia|].
    apply Forall_cons in Hok as [Hr Hok]. unfold bundled_ok in Hr. rewrite End in Hr. destruct Hr as (p & Hp & Ht). destruct r as [|q r]; [done|]. injection Hp as ->.
    destruct (pl_total (U := U) p Ht) as [d Hd]. destruct (IH Hok) as (flat & data & H1 & H2 & H3 & H4). exists (p :: flat), (d :: data).
    cbn [mapM head mbind option_bind]. rewrite H1. cbn [mbind option_bind mret option_ret]. split; [done|]. cbn [mapM]. rewrite Hd. cbn [mbind option_bind]. rewrite H2.
    split; [done|]. rewrite !vlen_cons. split; [lia|]. intros k Hk. destruct (decide (k = 0)) as [->|Hk0].
    + change (vat (d :: data) 0) with d. change (vat ((p :: r) :: rows) 0) with (p :: r). simpl. by rewrite (pl_typed (U := U) p d Ht Hd).
    + unfold vat in *. replace (Z.to_nat k) with (S (Z.to_nat (k - 1))) by lia. cbn [lookup_total list_lookup_total]. apply H4. lia.
Qed.

(** What both overloads do with the rows once there is room. *)
Definition put_edges t (srcs dsts : list Z) (rows : list (list Property)) : option (outcome unit * EdgeTable Cout Cin) :=
  if is_bundled (meta_ t) then
    flat ← (if no_data (meta_ t) then Some [] else mapM head rows);
    t ← batch_add_bundled_edges_impl U t srcs dsts flat; Some (Returned tt, t)
  else add_unbundled U t srcs dsts rows.

Lemma put_bundled t ao ai cols E srcs dsts rows : et_rel U t ao ai cols E -> batch_fits (Cout := Cout) (Cin := Cin) ao ai srcs dsts ->
  is_bundled (meta_ t) = true -> rows_ok t cols (vlen srcs) rows ->
  wp (put_edges t srcs dsts rows) (fun r => fst r = Returned tt /\ meta_ (snd r) = meta_ t /\
    exists ao' ai' cols', et_rel U (snd r) ao' ai' cols' (batch_edges (meta_ t) cols srcs dsts rows ++ E)).
Proof.
  intros Hrel Hfits Eb [Hlen Hok]. rewrite Eb in Hok. unfold put_edges. rewrite Eb.
  destruct (bundled_batch (meta_ t) rows (vlen srcs) Eb Hlen Hok) as (flat & data & -> & Hdata & Hdl & Hps). cbn [mbind option_bind].
  unfold batch_add_bundled_edges_impl. unfold vlen at 1 in Hdata. rewrite Nat2Z.id in Hdata. rewrite Hdata. cbn [mbind option_bind]. apply wp_bind.
  eapply wp_mono; [apply (put_batch_wp t ao ai srcs dsts data); [apply Hrel|done|done]|].
  intros t2 ([Hm2 _ _ _] & ao' & ai' & Hp & _ & _ & He). apply wp_ret. split; [done|]. split; [done|]. exists ao', ai', cols.
  apply (et_rel_batch t t2 ao ai ao' ai' cols cols cols E srcs dsts rows data (vlen ao)); [done|done|done|apply Hfits|done| |congruence].
  intros k Hk. by apply Hps.
Qed.

Lemma put_unbundled t ao ai cols cols1 E srcs dsts rows : et_rel U t ao ai cols1 E -> batch_fits (Cout := Cout) (Cin := Cin) ao ai srcs dsts ->
  is_bundled (meta_ t) = false -> vlen rows = vlen srcs -> table_idx_ t + vlen srcs < 2 ^ 62 -> table_idx_ t + vlen srcs <= capacity_ t ->
  ac_width <$> cols1 = ac_width <$> cols -> is_Some (set_rows (table_idx_ t) cols1 rows) ->
  wp (put_edges t srcs dsts rows) (fun r => fst r = Returned tt /\ meta_ (snd r) = meta_ t /\
    exists ao' ai' cols', et_rel U (snd r) ao' ai' cols' (batch_edges (meta_ t) cols srcs dsts rows ++ E)).
Proof.
  intros Hrel Hfits Eb Hlen Hlt Hcap Hw [cols2 Hset]. unfold put_edges. rewrite Eb. pose proof (vlen_nonneg srcs) as Hn.
  unfold add_unbundled, insert_edges_separated_impl. destruct (et_rows _ _ _ _ _ _ Hrel Eb) as [R1 R2 R3 R4 R5 R6 R7].
  set (idx := table_idx_ t) in *. destruct (mapM_rows idx (vlen srcs) R1 ltac:(lia) Hn ltac:(lia)) as (data & -> & Hdl & Hrow). cbn [mbind option_bind].
  apply wp_bind. eapply wp_mono; [apply (put_batch_wp (with_idx t (idx + vlen srcs)) ao ai srcs dsts data); [apply Hrel|done|done]|].
  intros t2 ([Hm2 Ht2 Hx2 Hc2] & ao' & ai' & Hp & _ & _ & He). cbn [meta_ table_ table_idx_ capacity_ with_idx] in *.
  destruct (insert_rows_rel (table_ t) cols1 idx rows cols2 R2 ltac:(lia) Hset) as (tb' & Htb & Htr). destruct (set_rows_inv _ _ _ _ Hset ltac:(lia)) as [Hsh Hold].
  apply wp_through. rewrite Ht2, Htb. cbn [fst snd]. split; [done|]. split; [done|]. exists ao', ai', cols2.
  apply (et_rel_batch t _ ao ai ao' ai' cols cols1 cols2 E srcs dsts rows data (vlen ao)); [done|done|done|apply Hfits|done| |].
  - intros k Hk. unfold props_of, stored. rewrite Eb, Hrow by done. rewrite <-Hw. rewrite (set_rows_at idx cols1 rows cols2 k) by (done || lia). done.
  - intros _. split; [|done]. assert (to_u64 (idx + vlen srcs) = idx + vlen srcs) as Hu by (apply Z.mod_small; lia).
    split; cbn [meta_ table_ table_idx_ capacity_ with_table]; rewrite ?Hx2, ?Hc2, ?Hu, ?Hm2; [done|done|exact (shape_long _ _ _ Hsh R3)|by rewrite (shape_len _ _ Hsh)|lia|done|].
    intros e Hin. rewrite He, new_edges_fmap in Hin by apply Hfits. apply elem_of_app in Hin as [Hin|Hin].
    + apply list_elem_of_fmap in Hin as (k & -> & Hk%elem_of_seqZ). simpl. exists (idx + k). rewrite Hrow by lia. split; [done|lia].
    + destruct (R7 e Hin) as (i & Hie & Hilt). exists i. split; [done|lia].
Qed.

(** The growth and then the rows; [F] is the rest of an overload. *)
Lemma batch_wp t ao ai cols E srcs dsts rows F : et_rel U t ao ai cols E -> batch_fits (Cout := Cout) (Cin := Cin) ao ai srcs dsts ->
  rows_ok t cols (vlen srcs) rows -> (forall t', meta_ t' = meta_ t -> F t' = put_edges t' srcs dsts rows) ->
  wp (and_then (ensure_batch t (vlen srcs)) (fun _ t => F t)) (fun r => fst r = Returned tt /\ meta_ (snd r) = meta_ t /\
    exists ao' ai' cols', et_rel U (snd r) ao' ai' cols' (batch_edges (meta_ t) cols srcs dsts rows ++ E)).
Proof.
  intros Hrel Hfits Hrows HF. apply wp_and_then. pose proof (vlen_nonneg srcs) as Hn. pose proof Hrows as [Hlen Hok]. destruct (is_bundled (meta_ t)) eqn:Eb.
  - eapply wp_mono; [apply (ensure_batch_wp t ao ai cols cols E (vlen srcs) Hrel Hn); congruence|].
    intros [r t1] (Hr & [Hm1 Ho1 Hi1 Hx1] & Hrel1 & _). cbn [fst snd] in *. exists tt. split; [done|]. rewrite (HF t1 Hm1), <-Hm1.
    apply (put_bundled t1 ao ai cols); [done|done|congruence|]. unfold rows_ok. rewrite Hm1, Eb. done.
  - destruct Hok as (Hlt & cols1 & Hg & Hset). eapply wp_mono; [apply (ensure_batch_wp t ao ai cols cols1 E (vlen srcs) Hrel Hn); [congruence|done]|].
    intros [r t1] (Hr & [Hm1 Ho1 Hi1 Hx1] & Hrel1 & Hw & Hcap). cbn [fst snd] in *. specialize (Hcap Eb). exists tt. split; [done|]. rewrite (HF t1 Hm1), <-Hm1.
    apply (put_unbundled t1 ao ai cols cols1); rewrite ?Hx1, ?Hm1; done.
Qed.

Lemma batch_step t ao ai cols E srcs dsts rows : et_rel U t ao ai cols E -> allowed (EBatchAdd srcs dsts rows) t ao ai cols ->
  step_ok (EBatchAdd srcs dsts rows) t ao cols E.
Proof.
  intros Hrel (Hfits & Hrows & Hne). unfold step_ok. cbn [et_exec effect]. apply (batch_wp t ao ai cols); [done|done|done|].
  intros t' Hm. unfold put_edges, no_data. rewrite Hm. destruct (is_bundled (meta_ t)); [|done]. specialize (Hne eq_refl). by destruct (properties (meta_ t)) as [|[ty w] ps].
Qed.

Lemma resize_both t ao ai src_num dst_num : pair_rel t ao ai -> vlen ao <= src_num < 2 ^ 32 -> vlen ai <= dst_num < 2 ^ 32 ->
  exists o i eo ei, csr_resize (in_csr_ t) dst_num = Some i /\ csr_resize (out_csr_ t) src_num = Some o /\
    pair_rel (with_out (with_in t i) o) (ao ++ eo) (ai ++ ei) /\ edges (ao ++ eo) = edges ao.
Proof.
  intros (Ho & Hi & Hm) Hs Hd. pose proof (law_resize (out_csr_ t) ao src_num Ho Hs) as Hro. pose proof (law_resize (in_csr_ t) ai dst_num Hi Hd) as Hri.
  destruct (csr_resize (out_csr_ t) src_num) as [o|]; [|done]. destruct (csr_resize (in_csr_ t) dst_num) as [i|]; [|done].
  destruct Hro as (eo & Hmo & _ & Heo). destruct Hri as (ei & Hmi & _ & Hei). exists o, i, eo, ei. split; [done|]. split; [done|].
  split; [|by apply edges_app]. split_and!; [done|done|by apply mirrored_app].
Qed.

Lemma records_step t ao ai cols E src_num dst_num srcs dsts rows : et_rel U t ao ai cols E -> allowed (EAddRecords src_num dst_num srcs dsts rows) t ao ai cols ->
  step_ok (EAddRecords src_num dst_num srcs dsts rows) t ao cols E.
Proof.
  intros Hrel (Hs & Hd & Hfits & Hrows). unfold step_ok. cbn [et_exec effect]. unfold BatchAddRecords.
  destruct (resize_both t ao ai src_num dst_num (et_pair _ _ _ _ _ _ Hrel) Hs Hd) as (o & i & eo & ei & Hi & Ho & Hp & He). rewrite Hi, Ho. cbn [mbind option_bind].
  set (t1 := with_out (with_in t i) o) in *. assert (same_rest t t1) as Hsr by done.
  apply (batch_wp t1 (ao ++ eo) (ai ++ ei) cols); [|apply (Hfits o i); [done|done|apply Hp..]|exact Hrows|done].
  apply (et_rel_csrs t t1 ao ai (ao ++ eo) (ai ++ ei) cols E E Hrel Hsr Hp); rewrite He; [|apply Hrel]. intros Hb. by apply (rr_rows _ _ _ _ (et_rows _ _ _ _ _ _ Hrel Hb)).
Qed.

(** ** Reading *)

(** The properties of an entry through the accessors. *)
Definition read_props t (x : nbr D) : option (list Property) :=
  mapM (fun k => r ← get_data U t k x; match r with Returned p => Some p | Thrown => None end) (seqZ 0 (vlen (properties (meta_ t)))).

(** The edges that a view at [ts] shows for a source, and for a destination. *)
Definition read_out t (v ts : Z) : option (list aedge) :=
  nl ← csr_nbr_list (out_csr_ t) v; l ← visit nl ts;
  mapM (fun '(_, x) => ps ← read_props t x; Some (AEdge v (neighbor x) (timestamp x) ps)) l.
Definition read_in t (v ts : Z) : option (list aedge) :=
  nl ← csr_nbr_list (in_csr_ t) v; l ← visit nl ts;
  mapM (fun '(_, x) => ps ← read_props t x; Some (AEdge (neighbor x) v (timestamp x) ps)) l.

(** Data in the entries are of a type that accessors read. *)
Definition readable m : Prop := is_bundled m = true -> match properties m with [(ty, _)] => comparable ty = true | _ => True end.

Lemma filter_none {A} (P : A -> bool) (l : list A) : (forall x, x ∈ l -> P x = false) -> filter (fun x => P x = true) l = [].
Proof.
  induction l as [|x l IH]; intros HP; [done|]. rewrite filter_cons, decide_False; [apply IH; set_solver|]. by rewrite HP by set_solver.
Qed.

Lemma visible_edges (adj : list (list (nbr D))) v ts : 0 <= v < vlen adj -> ts < INVALID_TIMESTAMP ->
  filter (fun e => (fst e =? v) && visible ts (snd e) = true) (edges adj) ≡ₚ pair v <$> keeps (visible ts) (vat adj v).
Proof.
  intros Hv Hts. rewrite (edges_row adj v Hv), filter_app.
  rewrite (filter_none (fun e : Z * nbr D => (fst e =? v) && visible ts (snd e)) (edges_but adj v)).
  2: { intros [i x] Hin. simpl. destruct (Z.eqb_spec i v) as [->|]; [|done]. exfalso. unfold edges_but in Hin.
    apply list_elem_of_In, in_flat_map in Hin as (k & Hk & Hx). apply list_elem_of_In in Hk, Hx. apply list_elem_of_filter in Hk as [Hne _].
    apply list_elem_of_fmap in Hx as (y & [= -> _] & _). done. }
  rewrite app_nil_r. unfold row_edges, keeps. apply reflexive_eq. induction (vat adj v) as [|x l IH]; [done|]. rewrite !filter_cons.
  destruct (visible ts x) eqn:Ev.
  - rewrite (visible_live ts x Hts Ev), !decide_True by done. csimpl. rewrite filter_cons. cbn [fst snd]. rewrite Z.eqb_refl, Ev, decide_True by done. by rewrite IH.
  - rewrite (decide_False (P := false = true)) by done. case_decide; [|done]. csimpl. rewrite filter_cons. cbn [fst snd]. by rewrite Ev, andb_false_r, decide_False by done.
Qed.

Lemma read_props_rel t ao ai cols E e : et_rel U t ao ai cols E -> readable (meta_ t) -> e ∈ edges ao ->
  read_props t (snd e) = Some (props_of U (meta_ t) cols (data (snd e))).
Proof.
  intros [_ Hr _] Hread He. unfold read_props, get_data, get_edge_data_accessor, props_of, no_data, readable in *.
  destruct (is_bundled (meta_ t)) eqn:Eb.
  - specialize (Hread eq_refl). unfold is_bundled in Eb. destruct (properties (meta_ t)) as [|[ty w] [|]]; [done| |done].
    change (vlen [(ty, w)]) with 1. change (seqZ 0 1) with [0]. cbn [mapM mbind option_bind]. destruct (bool_decide (ty = kEmpty)) eqn:Ee.
    + apply bool_decide_eq_true in Ee. subst ty. done.
    + by rewrite Hread.
  - destruct (Hr eq_refl) as [R1 R2 R3 R4 R5 R6 R7]. destruct (R7 e He) as (i & Hi & Hlt). rewrite Hi, <-R4. apply mapM_Some.
    apply Forall2_lookup. intros k. unfold row_at. rewrite list_lookup_fmap. destruct (cols !! k) as [a|] eqn:Ea; simpl.
    + pose proof (lookup_lt_Some _ _ _ Ea) as Hk. rewrite lookup_seqZ_lt by (unfold vlen; lia). constructor. rewrite Z.add_0_l.
      assert (vget cols (Z.of_nat k) = Some a) as Hka by (apply vget_iff; rewrite Nat2Z.id; split; [lia|done]).
      destruct (columns_vget (table_ t) cols R2 (Z.of_nat k) a Hka) as (c & Hc & Hcr). unfold get_column_by_id. rewrite Hc.
      assert (is_Some (vget (properties (meta_ t)) (Z.of_nat k))) as [ty ->].
      { apply vget_lt in Hka. unfold vget. rewrite (proj2 (Z.ltb_ge _ _)) by lia. apply lookup_lt_is_Some. unfold vlen in *. lia. }
      cbn [mbind option_bind]. unfold all_long in R3. rewrite Forall_forall in R3. apply list_elem_of_lookup_2 in Ea. pose proof (R3 a Ea) as Hlen.
      by rewrite (col_get_prop_rel _ _ c (ac_vals a) i Hcr) by lia.
    + apply lookup_ge_None in Ea. rewrite lookup_seqZ_ge by (unfold vlen; lia). constructor.
Qed.

Lemma kept_edges m cols E (es : list (@edge D)) (P : aedge -> bool) (Pe : @edge D -> bool) : E ≡ₚ aedge_of U m cols <$> es ->
  (forall e, P (aedge_of U m cols e) = Pe e) -> kept P E ≡ₚ aedge_of U m cols <$> filter (fun e => Pe e = true) es.
Proof.
  intros HE HP. rewrite HE. unfold kept. clear HE. induction es as [|e es IH]; [done|]. csimpl. rewrite !filter_cons, HP. destruct (Pe e).
  - rewrite !decide_True by done. csimpl. by rewrite IH.
  - by rewrite !decide_False by done.
Qed.

Lemma mapM_indexed {B} (f : nbr D -> option B) (g : nbr D -> B) ts (l : list (nbr D)) : (forall x, x ∈ keeps (visible ts) l -> f x = Some (g x)) ->
  mapM (fun '(_, x) => f x) (indexed ts 0 l) = Some (g <$> keeps (visible ts) l).
Proof.
  intros Hf. rewrite <-(indexed_snd ts 0 l) in *. apply mapM_Some. induction (indexed ts 0 l) as [|[i x] k IH]; [constructor|]. csimpl. constructor.
  - apply Hf. left.
  - apply IH. intros y Hy. apply Hf. by right.
Qed.

(** C7: A table that stands for a multiset of edges with their properties does what
    [effect] says with each operation of [et_op], and returns normally, when the
    operation is within its contract [allowed].  The operations: an edge, a batch or
    the records of files are added, with the properties cut to the widths of the
    columns; the edges of a vertex, of sets of vertices, between pairs of vertices, at
    one pair of offsets or at two lists of them are deleted, exactly these in both
    CSRs; a deleted edge is put back; the only property of an edge is updated in
    place; compaction only resets the timestamps; growing the capacities changes no
    edge.  The incoming CSR stays the mirror image of the outgoing one and every edge
    of an unbundled table has a row below [table_idx_].  The contract: vertices in
    range, room in the CSRs, values of the types of the properties, capacities in
    their integer types, batches of pairs that match no deleted entry, offsets that
    name the two entries of one edge (not deleted and visible to a deletion, deleted
    for a revert), and updates of bundled data only: an update of a property in the
    property table sets the timestamp of the outgoing entry alone and ends the mirror
    image ([update_then_delete_fails]). *)
Theorem edge_table_refines op t ao ai cols E : et_rel U t ao ai cols E -> allowed op t ao ai cols ->
  wp (et_exec op t) (fun r => fst r = Returned tt /\ meta_ (snd r) = meta_ t /\
    exists ao' ai' cols', et_rel U (snd r) ao' ai' cols' (effect op (meta_ t) cols ao E)).
Proof.
  intros Hrel Hok. change (step_ok op t ao cols E). destruct op.
  - by eapply add_step.
  - by eapply batch_step.
  - by eapply records_step.
  - by eapply delete_entries_step.
  - by eapply revert_step.
  - by eapply delete_offsets_step.
  - by eapply update_step.
  - by eapply delete_vertex_step.
  - by eapply delete_vertices_step.
  - by eapply delete_edges_step.
  - by eapply compact_step.
  - by eapply ensure_step.
Qed.

(** C24: What a view at [ts] shows for a vertex, from its adjacency list and the
    accessors of all the properties: exactly the edges of the table at that vertex
    with a timestamp up to [ts], as source and as destination. *)
Theorem edge_table_reads t ao ai cols E ts : et_rel U t ao ai cols E -> readable (meta_ t) -> ts < INVALID_TIMESTAMP ->
  (forall v, 0 <= v < vlen ao -> exists l, read_out t v ts = Some l /\ l ≡ₚ kept (fun e => (ae_src e =? v) && (ae_ts e <=? ts)) E) /\
  (forall v, 0 <= v < vlen ai -> exists l, read_in t v ts = Some l /\ l ≡ₚ kept (fun e => (ae_dst e =? v) && (ae_ts e <=? ts)) E).
Proof.
  intros Hrel Hread Hts. pose proof Hrel as [(Ho & Hi & Hm) _ He]. split; intros v Hv.
  - destruct (law_nbr_list (out_csr_ t) ao v Ho Hv) as (nl & Hnl & Hlen & Hr). unfold read_out. rewrite Hnl. cbn [mbind option_bind].
    rewrite (visit_spec nl _ ts Hlen Hr). cbn [mbind option_bind].
    assert (forall x, x ∈ keeps (visible ts) (vat ao v) -> (v, x) ∈ edges ao) as Hin.
    { intros x Hx. pose proof (visible_edges ao v ts Hv Hts) as Hp. assert ((v, x) ∈ pair v <$> keeps (visible ts) (vat ao v)) as Hvx by by apply list_elem_of_fmap_2.
      rewrite <-Hp in Hvx. by apply list_elem_of_filter in Hvx as [_ ?]. }
    eexists. split; [apply (mapM_indexed (fun x => ps ← read_props t x; Some (AEdge v (neighbor x) (timestamp x) ps)) (fun x => aedge_of U (meta_ t) cols (v, x)))|].
    + intros x Hx. pose proof (read_props_rel t ao ai cols E (v, x) Hrel Hread (Hin x Hx)) as Hp. cbn [snd] in Hp. by rewrite Hp.
    + rewrite (kept_edges (meta_ t) cols E (edges ao) _ (fun e => (fst e =? v) && visible ts (snd e)) He) by done.
      rewrite (visible_edges ao v ts Hv Hts). by rewrite <-list_fmap_compose.
  - destruct (law_nbr_list (in_csr_ t) ai v Hi Hv) as (nl & Hnl & Hlen & Hr). unfold read_in. rewrite Hnl. cbn [mbind option_bind].
    rewrite (visit_spec nl _ ts Hlen Hr). cbn [mbind option_bind].
    assert (forall x, x ∈ keeps (visible ts) (vat ai v) -> flip (v, x) ∈ edges ao) as Hin.
    { intros x Hx. pose proof (visible_edges ai v ts Hv Hts) as Hp. assert ((v, x) ∈ pair v <$> keeps (visible ts) (vat ai v)) as Hvx by by apply list_elem_of_fmap_2.
      rewrite <-Hp in Hvx. apply list_elem_of_filter in Hvx as [_ Hvx]. by apply (mirrored_mem _ _ _ (mirrored_sym _ _ Hm)). }
    eexists. split; [apply (mapM_indexed (fun x => ps ← read_props t x; Some (AEdge (neighbor x) v (timestamp x) ps)) (fun x => aedge_of U (meta_ t) cols (flip (v, x))))|].
    + intros x Hx. pose proof (read_props_rel t ao ai cols E _ Hrel Hread (Hin x Hx)) as Hp. unfold flip in Hp. cbn [snd fst] in Hp. unfold read_props, get_data in *. cbn [data] in *.
      by rewrite Hp.
    + pose proof (mirrored_sym _ _ Hm) as Hm'. unfold mirrored in Hm'. rewrite Hm' in He.
      set (P0 := fun e : Z * nbr D => (fst e =? v) && visible ts (snd e)).
      rewrite (kept_edges (meta_ t) cols E _ _ (fun e => P0 (flip e)) He) by done. rewrite <-(flip_filter P0). unfold P0.
      rewrite (visible_edges ai v ts Hv Hts). by rewrite <-!list_fmap_compose.
Qed.
End theorems.
