(* ===== verification/CsrTheorems.v ===== *)
(** * Mutable CSR: the theorems

    Any sequence of operations on a [MutableCsr] gives the answers of the same
    operations on plain adjacency lists; a compacted CSR survives [dump] and
    [open]; the cases in which the edge counter goes wrong. *)
From stdpp Require Import sorting.
From S2P Require Import Prelude Storage Aggregate Bitset MutableCsr CsrRows CsrOps CsrLists CsrDelete CsrBatch NbrView CsrSpec.
#[local] Open Scope Z_scope.

Section theorems.
Context {D : Type} `{NbrMemory D} (sort : list (nbr D) -> list (nbr D)).
Implicit Types s : MutableCsr D.

Definition no_files : CsrFiles (D:=D) := Files [] None [] None.

Definition empty_csr : MutableCsr D := CSR [] [] [] 0 0 {[0 := []]} 1.

Lemma open_no_files : open no_files = Some (Returned empty_csr).
Proof. done. Qed.

Lemma empty_rel : csr_rel empty_csr [].
Proof.
  split; [|done]. split_and!; [|done|intros i Hi; change (0 <= i < 0) in Hi; lia].
  split; try done; change (vertex_capacity empty_csr) with 0; intros; lia.
Qed.

(** C5: a [MutableCsr] opened without a snapshot, whatever fresh memory contains:
    a sequence of insertions, deletions and their reverts, batch insertions
    and deletions, [compact], [reset_timestamp], [resize], sorting, export and
    neighbour iteration, each within the contract of [adj_exec], runs without
    undefined behaviour and gives, errors included, the answers of the same calls on
    plain adjacency lists; the buffers stay disjoint and the edge counter stays the
    number of live entries.  The contract: indices and sizes
    are not negative and of 32 bits, and a neighbour
    list is asked of a vertex in range, timestamps are not the deletion mark, the lists
    of a batch are as long as its sources, rows stay below [2 ^ 30] entries,
    [batch_delete_edges] matches no entry that is deleted already, and [resize] cuts no
    live edge off.  In the last two cases the code's counter goes wrong: it counts an
    edge out twice ([batch_delete_edges_miscounts]), and keeps counting edges that are
    gone. *)
Theorem mutable_csr_refines ops outs adj' : (forall l, sort l ≡ₚ l) -> adj_run sort ops [] = Some (outs, adj') ->
  exists s0 s', open no_files = Some (Returned s0) /\ csr_run sort ops s0 = Some (outs, s') /\ csr_rel s' adj'.
Proof.
  intros Hperm Hrun. pose proof (csr_run_rel sort ops empty_csr [] outs adj' Hperm empty_rel Hrun) as Hw.
  apply wp_exists in Hw as ([os s'] & Hr & Ho & Hs). simpl in Ho, Hs. subst os. by exists empty_csr, s'.
Qed.

(** C27: a checkpoint: [compact], then [dump], then [open] of the files.  The
    compaction succeeds, and the object that was opened has the adjacency lists
    of the live entries, in order, with the same capacities, counter and
    [unsorted_since_], whether or not a [.cap] file was written. *)
Theorem csr_checkpoint s adj : csr_rel s adj ->
  exists s1 files s2, compact s = Some (Returned tt, s1) /\ dump s1 = Some files /\ open files = Some (Returned s2) /\
    csr_rel s2 (map (keeps live) adj) /\ edge_num_ s2 = edge_num_ s /\ unsorted_since_ s2 = unsorted_since_ s.
Proof.
  intros Hrel. pose proof (compact_rel s adj Hrel) as Hw. apply wp_exists in Hw as ([r s1] & E1 & Hres & [Hrows1 Hc1] & He1 & Hu1).
  simpl in Hres, Hrows1, Hc1, He1, Hu1. subst r.
  pose proof (dump_files s1 _ Hrows1) as Hw. apply wp_exists in Hw as (files & E2 & Hf).
  pose proof (open_files s1 _ files Hrows1 Hf) as Hw. apply wp_exists in Hw as (r & E3 & Hr).
  assert (sumz (row_len (map (keeps live) adj)) (vlen (map (keeps live) adj)) = total_live (map (keeps live) adj)) as Hlen.
  { apply sumz_ext. intros i Hi. rewrite vlen_map in Hi. unfold row_len. rewrite !vat_map by done. symmetry.
    destruct (lives_keeps_live (vat adj i)) as [-> ->]. done. }
  rewrite Hlen, <-(eqm_range _ _ (co_count _ (proj1 Hrows1)) Hc1), Z.eqb_refl in Hr.
  destruct Hr as (s2 & -> & Hrows2 & He2 & Hu2). exists s1, files, s2. split_and!; try done; [|congruence..].
  split; [done|]. by rewrite He2.
Qed.

(** without [compact] (which the options [compact_csr] and
    [compact_on_close] turn off) a CSR that has a deleted entry is written with
    a degree that counts the entry and a counter that does not: [dump] succeeds
    and [open] of its files throws. *)
Theorem csr_dump_deleted s adj : csr_rel s adj -> total_live adj < sumz (row_len adj) (vlen adj) < 2 ^ 64 ->
  exists files, dump s = Some files /\ open files = Some Thrown.
Proof.
  intros [Hrows Hc] Hlt. pose proof (dump_files s adj Hrows) as Hw. apply wp_exists in Hw as (files & E2 & Hf).
  pose proof (open_files s adj files Hrows Hf) as Hw. apply wp_exists in Hw as (r & E3 & Hr).
  exists files. split; [done|]. rewrite E3. f_equal.
  assert (0 <= total_live adj) by (apply sumz_nonneg; [apply vlen_nonneg|intros; apply vlen_nonneg]).
  rewrite (eqm_range _ _ (co_count _ (proj1 Hrows)) Hc) in Hr. unfold to_u64 in Hr. rewrite !Z.mod_small in Hr by lia.
  by rewrite (proj2 (Z.eqb_neq _ _)) in Hr by lia.
Qed.

(** C39: [batch_delete_edges] by endpoints does not look at the timestamp, unlike
    the overload by offsets: an entry deleted already is counted out a second
    time.  When there is such an entry, the counter is then too low by their number
    (modulo the width of the counter), although the rows are as they should be, and the
    next [compact] throws. *)
Theorem batch_delete_edges_miscounts s adj src_list dst_list : csr_rel s adj ->
  vlen src_list <= vlen dst_list -> Forall (fun i => 0 <= i) src_list ->
  let dead := sumz (fun i => dead_matched src_list dst_list i (vat adj i)) (vlen adj) in 0 < dead < 2 ^ 64 ->
  exists s1 s2, batch_delete_edges s src_list dst_list = Some s1 /\
    csr_rows s1 (map_rows (kill_pairs src_list dst_list) adj) /\
    edge_num_ s1 = to_u64 (total_live (map_rows (kill_pairs src_list dst_list) adj) - dead) /\
    compact s1 = Some (Thrown, s2).
Proof.
  intros [Hrows Hc] Hlen Hpos dead Hdead. pose proof (batch_delete_edges_rows s adj src_list dst_list Hrows Hlen Hpos) as Hw.
  apply wp_exists in Hw as (s1 & E1 & Hrows1 & _ & He1). set (adj1 := map_rows _ adj) in *.
  rewrite Hc, kill_pairs_total in He1. fold dead adj1 in He1.
  assert (edge_num_ s1 = to_u64 (total_live adj1 - dead)) as He.
  { apply eqm_range; [apply (co_count _ (proj1 Hrows1))|]. rewrite He1. apply eqm_eq. lia. }
  pose proof (compact_rows s1 adj1 Hrows1) as Hw. apply wp_exists in Hw as ([r s2] & E2 & _ & _ & _ & Hres). simpl in Hres.
  exists s1, s2. split_and!; [done|done|done|]. rewrite E2. do 2 f_equal. rewrite Hres. fold (total_live adj1).
  rewrite He. destruct (Z.eqb_spec (to_u64 (total_live adj1)) (to_u64 (total_live adj1 - dead))) as [E|]; [|done].
  exfalso. unfold to_u64 in E. pose proof (Z.div_mod (total_live adj1) (2 ^ 64) ltac:(lia)).
  pose proof (Z.div_mod (total_live adj1 - dead) (2 ^ 64) ltac:(lia)). nia.
Qed.

(** [foreach_nbr_gt] on a row whose front was sorted by [batch_sort] and holds
    no entry deleted since, followed by entries put later: exactly the entries
    visible at the view's timestamp with data above the threshold, from the
    last to the first. *)
Theorem foreach_nbr_gt_spec (ltb : D -> D -> bool) s adj v threshold ts old recent : csr_rel s adj -> 0 <= v < vlen adj ->
  vat adj v = old ++ recent -> sorted_front ltb ts (unsorted_since_ s) old recent ->
  foreach_nbr_gt ltb s v threshold ts (unsorted_since_ s) =
  Some (map call (rev (keeps (fun x => visible ts x && ltb threshold (data x)) (vat adj v)))).
Proof. intros [Hrows _] Hv Hl Hf. by eapply foreach_nbr_gt_row. Qed.

End theorems.

(** ** Edges with integer data *)

#[local] Instance z_memory : NbrMemory Z := fun i => Nbr (i + 77) 5 99.
Definition data_le (x y : nbr Z) : Prop := data x <= data y.
#[local] Instance data_le_dec : RelDecision data_le := fun x y => Z_le_dec (data x) (data y).
Definition z_sort (l : list (nbr Z)) : list (nbr Z) := merge_sort data_le l.

Lemma z_sort_perm l : z_sort l ≡ₚ l.
Proof. apply merge_sort_Permutation. Qed.

(** The object after [ops]. *)
Definition csr_after (ops : list (csr_op Z)) : MutableCsr Z :=
  match csr_run z_sort ops empty_csr with Some (_, s) => s | None => empty_csr end.

Lemma csr_after_rel ops outs adj : adj_run z_sort ops [] = Some (outs, adj) -> csr_rel (csr_after ops) adj.
Proof.
  intros Hrun. pose proof (csr_run_rel z_sort ops empty_csr [] outs adj z_sort_perm empty_rel Hrun) as Hw.
  apply wp_exists in Hw as ([os s'] & Hr & _ & Hs). unfold csr_after. by rewrite Hr.
Qed.

Definition csr_ops : list (csr_op Z) :=
  [CResize 3; CPut 0 1 5 1; CPut 0 2 7 2; CPut 2 0 1 2; CPut 5 0 0 1; CDelete 0 0 3; CRevert 0 1 0 4; CDelete 0 9 3;
   CBatchPut [1; 0] [2; 2] [8; 3] 0; CEdges 0 2; CDeleteEdges [0] [1]; CCount; CCompact; CSort 4; CReset; CExport;
   CDeleteOffsets [(0, 0)]; CDeleteVertices {[2]} {[1]}; CCount].

Lemma mutable_csr_refines_witness : exists s0 s', open no_files = Some (Returned s0) /\
  csr_run z_sort csr_ops s0 = Some ([RDone; RIndex 0; RIndex 1; RIndex 0; RThrown; RDone; RDone; RThrown; RDone;
    REdges [Nbr 2 2 7; Nbr 2 0 3]; RDone; RCount 4; RDone; RDone; RDone;
    RLists ([0; 0; 1; 2], [2; 2; 2; 0], [3; 7; 8; 1]); RDone; RDone; RCount 2], s').
Proof.
  destruct (mutable_csr_refines z_sort csr_ops _ _ z_sort_perm ltac:(vm_compute; reflexivity)) as (s0 & s' & H1 & H2 & _).
  exists s0, s'. split; [exact H1|exact H2].
Defined.

(** Two edges of vertex 0, the first one deleted. *)
Definition deleted_ops : list (csr_op Z) := [CResize 2; CPut 0 1 5 1; CPut 0 2 7 2; CDelete 0 0 3].
Definition deleted_adj : list (list (nbr Z)) := [[Nbr 1 INVALID_TIMESTAMP 5; Nbr 2 2 7]; []].

Lemma deleted_rel : csr_rel (csr_after deleted_ops) deleted_adj.
Proof. eapply csr_after_rel. vm_compute. reflexivity. Qed.

Lemma csr_checkpoint_witness : exists s1 files s2, compact (csr_after deleted_ops) = Some (Returned tt, s1) /\
  dump s1 = Some files /\ open files = Some (Returned s2) /\ csr_rel s2 [[Nbr 2 2 7]; []].
Proof.
  destruct (csr_checkpoint (csr_after deleted_ops) deleted_adj deleted_rel) as (s1 & files & s2 & H1 & H2 & H3 & H4 & _).
  exists s1, files, s2. split; [exact H1|]. split; [exact H2|]. split; [exact H3|exact H4].
Defined.

Lemma csr_dump_deleted_witness : exists files, dump (csr_after deleted_ops) = Some files /\ open files = Some Thrown.
Proof.
  apply (csr_dump_deleted (csr_after deleted_ops) deleted_adj deleted_rel). vm_compute. split; reflexivity.
Defined.

Lemma batch_delete_edges_miscounts_witness : exists s1 s2, batch_delete_edges (csr_after deleted_ops) [0] [1] = Some s1 /\
  edge_num_ s1 = 0 /\ compact s1 = Some (Thrown, s2).
Proof.
  destruct (batch_delete_edges_miscounts (csr_after deleted_ops) deleted_adj [0] [1] deleted_rel) as (s1 & s2 & H1 & _ & H2 & H3).
  - vm_compute. discriminate.
  - repeat constructor. lia.
  - vm_compute. split; reflexivity.
  - exists s1, s2. split; [exact H1|]. split; [|exact H3]. rewrite H2. vm_compute. reflexivity.
Defined.

(** A sorted row with two entries put later. *)
Definition view_ops : list (csr_op Z) := [CResize 1; CPut 0 1 5 1; CPut 0 2 3 1; CSort 4; CReset; CPut 0 3 9 6; CPut 0 4 8 7].

Lemma foreach_nbr_gt_spec_witness : foreach_nbr_gt Z.ltb (csr_after view_ops) 0 4 6 4 = Some [(3, 9); (1, 5)].
Proof.
  assert (csr_rel (csr_after view_ops) [[Nbr 2 0 3; Nbr 1 0 5; Nbr 3 6 9; Nbr 4 7 8]]) as Hrel
    by (eapply csr_after_rel; vm_compute; reflexivity).
  pose proof (foreach_nbr_gt_spec Z.ltb (csr_after view_ops) _ 0 4 6 [Nbr 2 0 3; Nbr 1 0 5] [Nbr 3 6 9; Nbr 4 7 8] Hrel) as Hs.
  assert (unsorted_since_ (csr_after view_ops) = 4) as Hu by (vm_compute; reflexivity). rewrite Hu in Hs. rewrite Hs.
  - vm_compute. reflexivity.
  - vm_compute. split; [discriminate|reflexivity].
  - reflexivity.
  - split.
    + intros x [->|[->|Hx]%elem_of_cons]%elem_of_cons; [simpl; lia|simpl; lia|by apply elem_of_nil in Hx].
    + intros x [->|[->|Hx]%elem_of_cons]%elem_of_cons; [simpl; lia|simpl; lia|by apply elem_of_nil in Hx].
    + intros t i j Hi Hj. change (j < 2) in Hj. assert (i = 0 /\ j = 0 \/ i = 0 /\ j = 1 \/ i = 1 /\ j = 1) as Hc by lia.
      destruct Hc as [[-> ->]|[[-> ->]|[-> ->]]]; [done| |done]. change ((t <? 3) = true -> (t <? 5) = true). lia.
Defined.

(** Two edges sorted by data, then the one with the smaller data deleted. *)
Definition stale_ops : list (csr_op Z) := [CResize 1; CPut 0 1 5 1; CPut 0 2 3 1; CSort 4; CReset; CDelete 0 0 6].

(** the second loop of [foreach_nbr_gt] does not look at timestamps, so it
    reports an entry that was deleted after the sort, which [get_edges] does
    not; [foreach_nbr_lt] also reports it, and takes [upper_bound], so that it
    reports an entry equal to the threshold. *)
Theorem typed_view_stale :
  get_edges (csr_after stale_ops) 0 6 = Some [Nbr 1 0 5] /\
  foreach_nbr_gt Z.ltb (csr_after stale_ops) 0 2 6 4 = Some [(1, 5); (2, 3)] /\
  foreach_nbr_lt Z.ltb (csr_after stale_ops) 0 5 6 4 = Some [(1, 5); (2, 3)].
Proof. vm_compute. done. Qed.
