(* ===== verification/EdgeInterface.v ===== *)
(** * Edge tables as a property graph uses them

    The edge tables of a graph differ in the types of their data and in the classes
    of their CSRs; the graph calls them through these methods.  [edge_table_ops]:
    [EdgeTable] over any two CSRs has them.  [EdgeTableLaws] states what the graph
    relies on, and [edge_table_laws] derives it from the theorems about [EdgeTable]. *)
From stdpp Require Import strings.
From S2P Require Import Prelude Storage Bitset Property Column ColumnSpec Table TableTheorems.
From S2P Require Import Aggregate MutableCsr CsrRows CsrOps CsrLists CsrDelete CsrEdges NbrView SingleCsr CsrInterface OffsetSearch EdgeSchema EdgeTable EdgePairs EdgeSpec EdgeTheorems.
#[local] Open Scope Z_scope.

(** [et_new] is the constructor and [et_open] is [Open] where there are no files. *)
Class EdgeTableOps (T : Type) := {
  et_new : EdgeSchema -> outcome T;
  et_open : T -> option (outcome unit * T);
  et_meta : T -> EdgeSchema;
  et_set_schema : EdgeSchema -> T -> T;
  et_capacity : T -> Z;
  et_edge_num : T -> Z;
  et_ensure : T -> Z -> option (outcome unit * T);
  et_ensure_all : T -> Z -> Z -> Z -> option (outcome unit * T);
  et_add : T -> Z -> Z -> list Property -> Z -> bool -> option (outcome Z * T);
  et_delete_vertex : T -> bool -> Z -> Z -> option (outcome unit * T);
  et_delete_vertices : T -> gset Z -> gset Z -> option T;
  et_delete_edge : T -> Z -> Z -> Z -> Z -> Z -> option (outcome unit * T);
  et_delete_edges : T -> list Z -> list Z -> option T;
  et_delete_offsets : T -> list (Z * Z) -> list (Z * Z) -> option T;
  et_update : T -> Z -> Z -> Z -> Z -> Z -> Property -> Z -> option (outcome unit * T);
  et_compact : T -> bool -> bool -> Z -> option (outcome unit * T)
}.

(** [et_holds t ns nd E]: [t] has the edges [E] and room for [ns] source and [nd]
    destination vertices. *)
Class EdgeTableModel (T : Type) := et_holds : T -> Z -> Z -> list aedge -> Prop.

Class EdgeTableLaws (T : Type) `{EdgeTableOps T, EdgeTableModel T} := {
  et_law_schema (t : T) : et_set_schema (et_meta t) t = t;
  et_law_delete_vertices (t : T) ns nd E (src_set dst_set : gset Z) : et_holds t ns nd E -> (forall i, i ∈ src_set -> 0 <= i) -> (forall i, i ∈ dst_set -> 0 <= i) ->
    wp (et_delete_vertices t src_set dst_set) (fun t' => et_meta t' = et_meta t /\
      et_holds t' ns nd (kept (fun e => outside src_set dst_set (ae_src e, ae_dst e)) E));
  et_law_delete_vertex (t : T) ns nd E (is_src : bool) v ts : et_holds t ns nd E -> 0 <= v < (if is_src then ns else nd) -> ts < INVALID_TIMESTAMP ->
    wp (et_delete_vertex t is_src v ts) (fun r => fst r = Returned tt /\ et_meta (snd r) = et_meta t /\
      et_holds (snd r) ns nd (kept (fun e => negb (((if is_src then ae_src e else ae_dst e) =? v) && (ae_ts e <=? ts))) E))
}.

Section edge_table.
Context {D Cout Cin : Type} `{NbrMemory D} (U : PropUtils D) {HL : PropLaws U} (eqb : D -> D -> bool).
Context `{!CsrBase D Cout, !CsrModel D Cout, !CsrLaws D Cout, !CsrBase D Cin, !CsrModel D Cin, !CsrLaws D Cin}.
Context (empty_out : Cout) (empty_in : Cin).
Implicit Types t : EdgeTable Cout Cin.

(** The columns of the properties, unless they are bundled. *)
Definition open_edge_table t : option (outcome unit * EdgeTable Cout Cin) :=
  if is_bundled (meta_ t) then Some (Returned tt, t)
  else through (with_table t) (initColumns (EdgeSchema.property_names (meta_ t)) (properties (meta_ t))).

Definition edge_table_ops : EdgeTableOps (EdgeTable Cout Cin) := {|
  et_new := fun m => Returned (MkEdgeTable m empty_out empty_in new_table 0 0);
  et_open := open_edge_table;
  et_meta := meta_;
  et_set_schema := fun m t => MkEdgeTable m (out_csr_ t) (in_csr_ t) (table_ t) (table_idx_ t) (capacity_ t);
  et_capacity := Capacity;
  et_edge_num := EdgeNum;
  et_ensure := EnsureCapacity;
  et_ensure_all := EnsureCapacities;
  et_add := AddEdge U;
  et_delete_vertex := DeleteVertex U eqb;
  et_delete_vertices := BatchDeleteVertices;
  et_delete_edge := DeleteEdge;
  et_delete_edges := BatchDeleteEdges;
  et_delete_offsets := BatchDeleteOffsets;
  et_update := UpdateEdgeProperty U;
  et_compact := Compact
|}.

Definition edge_table_model : EdgeTableModel (EdgeTable Cout Cin) := fun t ns nd E =>
  searchable U eqb (meta_ t) /\ exists ao ai cols, et_rel U t ao ai cols E /\ ns <= vlen ao /\ nd <= vlen ai.

#[local] Existing Instances edge_table_ops edge_table_model.

Lemma outside_ends (src_set dst_set : gset Z) m cols e :
  outside src_set dst_set (ae_src (aedge_of U m cols e), ae_dst (aedge_of U m cols e)) = outside src_set dst_set (ends e).
Proof. done. Qed.

Lemma edge_table_laws : EdgeTableLaws (EdgeTable Cout Cin).
Proof.
  split.
  - by intros [].
  - intros t ns nd E S D' (Hsr & ao & ai & cols & Hrel & Hns & Hnd) HS HD'. eapply wp_mono; [by apply (BatchDeleteVertices_wp t ao ai); [apply Hrel|..]|].
    intros t' (Hsame & ao' & ai' & Hp & Ho & Hi & He). cbn [et_meta edge_table_ops] in *. pose proof (sr_meta _ _ Hsame) as Hm. split; [done|]. split; [by rewrite Hm|].
    exists ao', ai', cols. split; [|lia]. apply (et_rel_sub U t t' ao ai ao' ai' cols E _ (fun e => outside S D' (ends e)) Hrel Hsame Hp); [by rewrite He|done].
  - intros t ns nd E is_src v ts (Hsr & ao & ai & cols & Hrel & Hns & Hnd) Hv Hts. destruct is_src.
    + eapply wp_mono; [apply (DeleteVertex_out U eqb t ao ai v ts); [apply Hrel|done|done|lia]|]. intros [r t'] (Hr & Hsame & ao' & ai' & Hp & Ho & Hi & He). cbn [fst snd et_meta edge_table_ops] in *.
      pose proof (sr_meta _ _ Hsame) as Hm. split; [done|]. split; [done|]. split; [by rewrite Hm|]. exists ao', ai', cols. split; [|lia].
      apply (et_rel_sub U t t' ao ai ao' ai' cols E _ (not_from v ts) Hrel Hsame Hp); [by rewrite He|done].
    + eapply wp_mono; [apply (DeleteVertex_in U eqb t ao ai v ts); [apply Hrel|done|done|lia]|]. intros [r t'] (Hr & Hsame & ao' & ai' & Hp & Ho & Hi & He). cbn [fst snd et_meta edge_table_ops] in *.
      pose proof (sr_meta _ _ Hsame) as Hm. split; [done|]. split; [done|]. split; [by rewrite Hm|]. exists ao', ai', cols. split; [|lia].
      by apply (et_rel_sub U t t' ao ai ao' ai' cols E _ (not_to v ts) Hrel Hsame Hp).
Qed.
End edge_table.
