(* ===== verification/EdgeExamples.v ===== *)
(** * Edge tables at work

    A table with two properties per edge, and one without any: the witnesses of the
    theorems about edge tables, and what goes wrong outside their contract. *)
From stdpp Require Import strings.
From S2P Require Import Prelude Storage Bitset Property Column ColumnSpec Table TableTheorems.
From S2P Require Import Aggregate MutableCsr CsrRows CsrOps CsrLists CsrDelete CsrEdges NbrView SingleCsr CsrInterface CsrSpec CsrInstances.
From S2P Require Import OffsetSearch EdgeSchema EdgeTable EdgePairs EdgeSpec EdgeTheorems EdgeUpdate CsrTheorems.
#[local] Open Scope Z_scope.

#[local] Existing Instance z_memory.
#[local] Instance z_base : CsrBase Z (MutableCsr Z) := mutable_base z_sort.
#[local] Instance z_model : CsrModel Z (MutableCsr Z) := mutable_model.
#[local] Instance z_laws : CsrLaws Z (MutableCsr Z) := mutable_laws z_sort z_sort_perm.

(** The table after [ops]. *)
Definition table_after (names : list string) (types : list DataType) (ops : list table_op) : Table :=
  match initColumns names types with
  | Some (Returned _, t) => match trun table_exec ops t with Some (_, t) => t | None => t end
  | _ => new_table
  end.

Lemma table_after_rel names types ops outs cols : NoDup names -> vlen types = vlen names -> forallb storable types = true ->
  trun cols_exec ops (fresh_cols names types) = Some (outs, cols) -> table_rel (table_after names types ops) cols.
Proof.
  intros Hd Hl Hs Hx. unfold table_after. destruct (initColumns_rel names types Hd Hl Hs) as (t0 & -> & Hrel).
  destruct (trun_rel ops t0 _ outs cols Hrel Hx) as (t & -> & Ht). exact Ht.
Qed.

(** ** Two properties *)

Definition edge_type (name : string) (types : list DataType) (names : list string) (defaults : list Property) : EdgeSchema :=
  MkEdgeSchema "person" "person" name false true true kMultiple kMultiple types names defaults (map (fun _ => false) names).
Definition knows : EdgeSchema := edge_type "knows" [(kVarchar, 3); (kInt32, 0)] ["note"%string; "weight"%string] [PVarchar []; PInt32 0].
Definition knows_out : list (list (nbr Z)) := [[Nbr 1 1 0; Nbr 1 2 1]; []; [Nbr 1 3 2]].
Definition knows_in : list (list (nbr Z)) := [[]; [Nbr 0 1 0; Nbr 0 2 1; Nbr 2 3 2]; []].
Definition knows_rows : list table_op :=
  [TResizeDefault 4 [PVarchar []; PInt32 0]; TInsert 0 [PVarchar [97]; PInt32 10] false; TInsert 1 [PVarchar [98; 98; 98; 98]; PInt32 20] false;
   TInsert 2 [PVarchar []; PInt32 30] false].
Definition knows_cols : list acol :=
  [ACol "note" kVarchar 3 ([PVarchar [97]; PVarchar [98; 98; 98]; PVarchar []; PVarchar []], 4);
   ACol "weight" kInt32 0 ([PInt32 10; PInt32 20; PInt32 30; PInt32 0], 0)].

Definition knows_table : EdgeTable (MutableCsr Z) (MutableCsr Z) :=
  MkEdgeTable knows (csr_after [CResize 3; CPut 0 1 0 1; CPut 0 1 1 2; CPut 2 1 2 3]) (csr_after [CResize 3; CPut 1 0 0 1; CPut 1 0 1 2; CPut 1 2 2 3])
    (table_after ["note"%string; "weight"%string] [(kVarchar, 3); (kInt32, 0)] knows_rows) 3 4.
Definition knows_edges : list aedge :=
  [AEdge 0 1 1 [PVarchar [97]; PInt32 10]; AEdge 0 1 2 [PVarchar [98; 98; 98]; PInt32 20]; AEdge 2 1 3 [PVarchar []; PInt32 30]].

Lemma knows_rel : et_rel uint64_utils knows_table knows_out knows_in knows_cols knows_edges.
Proof.
  split.
  - split; [|split].
    + eapply csr_after_rel. vm_compute. reflexivity.
    + eapply csr_after_rel. vm_compute. reflexivity.
    + apply (reflexive_eq (R := Permutation)). reflexivity.
  - intros _. split.
    + reflexivity.
    + eapply table_after_rel; [apply (bool_decide_eq_true_1 _); vm_compute; reflexivity|reflexivity|reflexivity|vm_compute; reflexivity].
    + repeat constructor.
    + reflexivity.
    + simpl. lia.
    + simpl. lia.
    + intros e He. change (edges knows_out) with [(0, Nbr 1 1 0); (0, Nbr 1 2 1); (2, Nbr 1 3 2)] in He.
      exists (data (snd e)). split; [done|]. simpl. set_solver by lia.
  - reflexivity.
Qed.

Lemma edge_table_reads_witness : exists l, read_in uint64_utils knows_table 1 2 = Some l /\
  l ≡ₚ [AEdge 0 1 1 [PVarchar [97]; PInt32 10]; AEdge 0 1 2 [PVarchar [98; 98; 98]; PInt32 20]].
Proof.
  apply (proj2 (edge_table_reads uint64_utils knows_table _ _ _ _ 2 knows_rel ltac:(discriminate) ltac:(reflexivity)) 1).
  split; [discriminate|reflexivity].
Defined.

(** ** One integer *)

Definition rates : EdgeSchema := edge_type "rates" [(kInt64, 0)] ["rate"%string] [PInt64 0].
Definition rates_out : list (list (nbr Z)) := [[Nbr 1 1 7; Nbr 2 1 8; Nbr 3 1 9]; []; []; []].
Definition rates_in : list (list (nbr Z)) := [[]; [Nbr 0 1 7]; [Nbr 0 1 8]; [Nbr 0 1 9]].
Definition rates_table : EdgeTable (MutableCsr Z) (MutableCsr Z) :=
  MkEdgeTable rates (csr_after [CResize 4; CPut 0 1 7 1; CPut 0 2 8 1; CPut 0 3 9 1]) (csr_after [CResize 4; CPut 1 0 7 1; CPut 2 0 8 1; CPut 3 0 9 1])
    new_table 0 0.

Lemma rates_rel : pair_rel rates_table rates_out rates_in.
Proof.
  split; [|split].
  - eapply csr_after_rel. vm_compute. reflexivity.
  - eapply csr_after_rel. vm_compute. reflexivity.
  - apply (reflexive_eq (R := Permutation)). reflexivity.
Qed.

Definition rates_edges : list aedge := [AEdge 0 1 1 [PInt64 7]; AEdge 0 2 1 [PInt64 8]; AEdge 0 3 1 [PInt64 9]].

Lemma rates_et_rel : et_rel int64_utils rates_table rates_out rates_in [] rates_edges.
Proof. split; [exact rates_rel|discriminate|reflexivity]. Qed.

(** The rows that an object stands for are determined. *)
Lemma csr_rel_functional s adj adj' : csr_rel (D := Z) s adj -> csr_rel s adj' -> adj = adj'.
Proof.
  intros [(_ & Hv & Hr) _] [(_ & Hv' & Hr') _]. apply vat_ext; [lia|]. intros i Hi. destruct (Hr i Hi) as [Hl Hc]. destruct (Hr' i ltac:(lia)) as [Hl' Hc'].
  apply vat_ext; [lia|]. intros j Hj. pose proof (Hc j Hj) as Hx. rewrite Hc' in Hx by lia. by injection Hx.
Qed.

Lemma resized_rows s adj n adj' : csr_rel s adj -> adj_exec z_sort (CResize n) adj = Some (RDone, adj') ->
  forall c adj1, csr_resize s n = Some c -> csr_rel c adj1 -> adj1 = adj'.
Proof.
  intros Hrel Hx c adj1 [= <-] H1. pose proof (agrees_resize z_sort n s adj _ _ Hrel Hx) as [_ H2]. by eapply csr_rel_functional.
Qed.

(** Records for five vertices, the second with a source that was not found. *)
Lemma rates_records : allowed int64_utils Z.eqb (EAddRecords 5 5 [0; INVALID_VID; 4] [3; 1; 2] [[PInt64 10]; [PInt64 11]; [PInt64 12]]) rates_table rates_out rates_in [].
Proof.
  split; [split; [discriminate|reflexivity]|]. split; [split; [discriminate|reflexivity]|]. split.
  - intros o i ao' ai' Ho Hi Hmo Hmi.
    rewrite (resized_rows _ _ 5 (rates_out ++ [[]]) (proj1 rates_rel) eq_refl o ao' Ho Hmo), (resized_rows _ _ 5 (rates_in ++ [[]]) (proj1 (proj2 rates_rel)) eq_refl i ai' Hi Hmi).
    assert (forall k, 0 <= k < 5 -> k = 0 \/ k = 1 \/ k = 2 \/ k = 3 \/ k = 4) as Hk by lia.
    split; [done|done|by repeat constructor|by repeat constructor| |]; intros k Hr; destruct (Hk k Hr) as [-> | [-> | [-> | [-> | ->]]]]; by vm_compute.
  - split; [done|]. change (Forall (bundled_ok int64_utils rates) [[PInt64 10]; [PInt64 12]]). by repeat constructor; [exists (PInt64 10)|exists (PInt64 12)].
Qed.

Lemma edge_table_refines_witness :
  wp (et_exec uint64_utils Z.eqb (EDeleteVertex true 0 5) knows_table) (fun r => fst r = Returned tt /\
    meta_ (snd r) = knows /\ exists ao' ai' cols', et_rel uint64_utils (snd r) ao' ai' cols' [AEdge 2 1 3 [PVarchar []; PInt32 30]]) /\
  wp (et_exec uint64_utils Z.eqb (EDeleteEdge 0 1 1 1 5) knows_table) (fun r => fst r = Returned tt /\
    meta_ (snd r) = knows /\ exists ao' ai' cols', et_rel uint64_utils (snd r) ao' ai' cols'
      [AEdge 0 1 1 [PVarchar [97]; PInt32 10]; AEdge 2 1 3 [PVarchar []; PInt32 30]]) /\
  wp (et_exec int64_utils Z.eqb (EUpdate 0 2 1 0 0 (PInt64 99) 4) rates_table) (fun r => fst r = Returned tt /\
    meta_ (snd r) = rates /\ exists ao' ai' cols', et_rel int64_utils (snd r) ao' ai' cols'
      [AEdge 0 2 4 [PInt64 99]; AEdge 0 1 1 [PInt64 7]; AEdge 0 3 1 [PInt64 9]]) /\
  wp (et_exec int64_utils Z.eqb (EAddRecords 5 5 [0; INVALID_VID; 4] [3; 1; 2] [[PInt64 10]; [PInt64 11]; [PInt64 12]]) rates_table) (fun r =>
    fst r = Returned tt /\ meta_ (snd r) = rates /\ exists ao' ai' cols', et_rel int64_utils (snd r) ao' ai' cols'
      (AEdge 0 3 0 [PInt64 10] :: AEdge 4 2 0 [PInt64 12] :: rates_edges)).
Proof.
  split; [|split; [|split]].
  - apply (edge_table_refines uint64_utils Z.eqb (EDeleteVertex true 0 5) knows_table _ _ _ _ knows_rel).
    split; [|split].
    + split; [reflexivity|reflexivity|apply Z.eqb_eq].
    + reflexivity.
    + split; [discriminate|reflexivity].
  - apply (edge_table_refines uint64_utils Z.eqb (EDeleteEdge 0 1 1 1 5) knows_table _ _ _ _ knows_rel).
    split; [|split; [discriminate|reflexivity]]. split_and!; try (split_and!; [discriminate|reflexivity|discriminate|reflexivity|reflexivity]). reflexivity.
  - apply (edge_table_refines int64_utils Z.eqb (EUpdate 0 2 1 0 0 (PInt64 99) 4) rates_table _ _ _ _ rates_et_rel).
    split; [split; [discriminate|reflexivity]|]. split; [split; [discriminate|reflexivity]|]. split; [reflexivity|]. split; [by split_and!|].
    exists 1, (Nbr 2 1 8), 0, (Nbr 0 1 8). by split_and!.
  - apply (edge_table_refines int64_utils Z.eqb _ rates_table _ _ _ _ rates_et_rel rates_records).
Defined.

Lemma update_bundled_spec_witness : wp (UpdateEdgeProperty int64_utils rates_table 0 2 1 0 0 (PInt64 99) 4) (fun r => fst r = Returned tt /\
  same_rest rates_table (snd r) /\ models (out_csr_ (snd r)) [[Nbr 1 1 7; Nbr 2 4 99; Nbr 3 1 9]; []; []; []] /\
  models (in_csr_ (snd r)) [[]; [Nbr 0 1 7]; [Nbr 0 4 99]; [Nbr 0 1 9]] /\
  ((2, Nbr 0 1 8) = flip (0, Nbr 2 1 8) -> pair_rel (snd r) [[Nbr 1 1 7; Nbr 2 4 99; Nbr 3 1 9]; []; []; []] [[]; [Nbr 0 1 7]; [Nbr 0 4 99]; [Nbr 0 1 9]] /\
     exists rest, edges rates_out ≡ₚ (0, Nbr 2 1 8) :: rest /\ edges [[Nbr 1 1 7; Nbr 2 4 99; Nbr 3 1 9]; []; []; []] ≡ₚ (0, Nbr 2 4 99) :: rest)).
Proof.
  assert (bundled_as int64_utils (meta_ rates_table) (PInt64 99) 99) as Hb by (split; [reflexivity|split; reflexivity]).
  destruct (update_bundled_spec int64_utils rates_table rates_out rates_in 0 2 1 0 0 (PInt64 99) 4 99 rates_rel Hb) as [_ Hu];
    [split; [discriminate|reflexivity]|split; [discriminate|reflexivity]|reflexivity|].
  destruct (Hu 1 (Nbr 2 1 8) eq_refl) as [_ Hs]. exact (Hs 0 (Nbr 0 1 8) eq_refl).
Defined.

(** An update at the offsets of an edge counts over visible entries only: once the
    edge 0 -> 1 is deleted, the entry of 0 -> 2 has offset 1 in the list of 0
    (the search from the other side finds it there), but the update at that offset
    changes the outgoing entry of 0 -> 3 and the incoming one of 0 -> 2, so that a
    reader sees the new value at a different edge in each direction; and at the
    offset of 0 -> 3 it throws. *)
Theorem update_skips_deleted :
  ('(_, t) ← DeleteEdge rates_table 0 1 0 0 3;
   offset ← search_other_offset_with_cur_offset int64_utils Z.eqb (in_csr_ t) (out_csr_ t) 4 2 0 0 (properties rates);
   '(r, t') ← UpdateEdgeProperty int64_utils t 0 2 1 0 0 (PInt64 99) 4;
   o ← read_out int64_utils t' 0 4; i2 ← read_in int64_utils t' 2 4; i3 ← read_in int64_utils t' 3 4;
   '(r3, _) ← UpdateEdgeProperty int64_utils t 0 3 2 0 0 (PInt64 99) 4;
   Some (offset, r, o, (i2, i3), r3)) =
  Some (Returned 1, Returned tt, [AEdge 0 2 1 [PInt64 8]; AEdge 0 3 4 [PInt64 99]],
    ([AEdge 0 2 4 [PInt64 99]], [AEdge 0 3 1 [PInt64 9]]), Thrown).
Proof. vm_compute. reflexivity. Qed.

(** The update of an edge whose properties are in the table sets the timestamp of
    the outgoing entry only.  With a parallel edge, the search for the other entry
    then compares timestamps that differ and finds nothing: a later deletion of
    the source throws after it has deleted the outgoing entry, and the incoming
    one stays. *)
Theorem update_then_delete_fails :
  ('(r, t) ← UpdateEdgeProperty uint64_utils knows_table 0 1 0 0 1 (PInt32 11) 4;
   o ← read_out uint64_utils t 0 5; i ← read_in uint64_utils t 1 5;
   '(r', t') ← DeleteVertex uint64_utils Z.eqb t true 0 5;
   o' ← read_out uint64_utils t' 0 5; i' ← read_in uint64_utils t' 1 5;
   Some (r, (map ae_ts o, map ae_ts i), r', (map ae_ts o', map ae_ts i'))) =
  Some (Returned tt, ([4; 2], [1; 2; 3]), Thrown, ([2], [1; 2; 3])).
Proof. vm_compute. reflexivity. Qed.

(** ** No property *)

#[local] Instance unit_memory : NbrMemory unit := fun i => Nbr (i + 77) 5 tt.
#[local] Instance unit_base : CsrBase unit (MutableCsr unit) := mutable_base id.

Definition plain_csr (src dst : Z) : option (MutableCsr unit) :=
  '(_, s) ← put_edge (resize empty_csr 2) src dst tt 1; '(_, s) ← put_edge s src dst tt 2; Some s.

(** Without properties the search compares the eight bytes at the empty data, half of
    which belong to the next entry: of two parallel edges it finds neither, and the
    deletion of the source throws with one side done. *)
Theorem delete_plain_parallel :
  (o ← plain_csr 0 1; i ← plain_csr 1 0;
   let t := MkEdgeTable (edge_type "plain" [] [] []) o i new_table 0 0 in
   offset ← search_other_offset_with_cur_offset empty_utils (fun _ _ => true) o i 5 0 1 0 [];
   '(r, t) ← DeleteVertex empty_utils (fun _ _ => true) t true 0 5;
   out ← read_out empty_utils t 0 5; inn ← read_in empty_utils t 1 5;
   Some (offset, r, map ae_ts out, map ae_ts inn)) =
  Some (Returned INT_MAX, Thrown, [2], [1; 2]).
Proof. vm_compute. reflexivity. Qed.
