(* ===== verification/PropertyGraph.v ===== *)
(** * The property graph

    [PropertyGraph] (include/neug/storages/graph/property_graph.h,
    src/storages/graph/property_graph.cc): the schema with one vertex table per vertex
    label and one edge table per edge type.  A vertex table reads its type through a
    pointer to the schema; here the type is passed to it.  Edge tables are known by
    [EdgeTableOps].  An exception leaves what was done before it; files, mutexes and
    record batches are left out, and so are the properties of edge types, whose
    tables replace their CSRs. *)
From stdpp Require Import strings gmap.
From S2P Require Import Prelude Storage Aggregate Bitset VertexTimestamp Property Column IdIndexer Table EdgeSchema VertexSchema SchemaOps VertexTable EdgeInterface.
#[local] Open Scope Z_scope.
#[local] Open Scope schema_scope.

Inductive StatusCode := OK | ERR_INVALID_ARGUMENT.

Record PropertyGraph (T : Type) := MkGraph {
  schema_ : SchemaState;
  vertex_tables_ : list VertexTable;
  edge_tables_ : gmap Z T;
  vertex_label_total_count_ : Z;
  edge_label_total_count_ : Z
}.
Arguments MkGraph {T} _ _ _ _ _.
Arguments schema_ {T} _.
Arguments vertex_tables_ {T} _.
Arguments edge_tables_ {T} _.
Arguments vertex_label_total_count_ {T} _.
Arguments edge_label_total_count_ {T} _.

Section graph.
Context `{!Memory} (std_hash : Property -> Z) {T : Type} `{!EdgeTableOps T}.
Implicit Types g : PropertyGraph T.

Definition new_graph : PropertyGraph T := MkGraph new_schema [] ∅ 0 0.

Definition with_schema s g : PropertyGraph T := MkGraph s (vertex_tables_ g) (edge_tables_ g) (vertex_label_total_count_ g) (edge_label_total_count_ g).
Definition with_vertex_tables l g : PropertyGraph T := MkGraph (schema_ g) l (edge_tables_ g) (vertex_label_total_count_ g) (edge_label_total_count_ g).
Definition with_edge_tables m g : PropertyGraph T := MkGraph (schema_ g) (vertex_tables_ g) m (vertex_label_total_count_ g) (edge_label_total_count_ g).
(** The totals become the frontiers of the schema. *)
Definition with_vertex_total g : PropertyGraph T :=
  MkGraph (schema_ g) (vertex_tables_ g) (edge_tables_ g) (to_u8 (vlen (vlabel_indexer_ (schema_ g)))) (edge_label_total_count_ g).
Definition with_edge_total g : PropertyGraph T :=
  MkGraph (schema_ g) (vertex_tables_ g) (edge_tables_ g) (vertex_label_total_count_ g) (to_u8 (vlen (elabel_indexer_ (schema_ g)))).

(** Results: what a function returns or throws, and the graph after it. *)
Definition status (c : StatusCode) g : option (outcome StatusCode * PropertyGraph T) := Some (Returned c, g).
(** [RETURN_IF_NOT_OK_CONFLICT]: a conflict is an error only if the caller says so. *)
Definition conflict (error_on_conflict : bool) : StatusCode := if error_on_conflict then ERR_INVALID_ARGUMENT else OK.
(** A query of the schema before the rest of a function. *)
Definition query {A B} g (m : option (outcome A)) (f : A -> option (outcome B * PropertyGraph T)) : option (outcome B * PropertyGraph T) :=
  r ← m; match r with Returned x => f x | Thrown => Some (Thrown, g) end.

(** A method of the vertex table [v_label]. *)
Definition on_vertex_table {A} (v_label : Z) (f : VertexTable -> option (outcome A * VertexTable)) g : option (outcome A * PropertyGraph T) :=
  vt ← vget (vertex_tables_ g) v_label;
  '(r, vt) ← f vt;
  l ← vset (vertex_tables_ g) v_label vt;
  Some (r, with_vertex_tables l g).

(** A method of [edge_tables_.at(index)], which throws where there is none. *)
Definition on_edge_table {A} (index : Z) (f : T -> option (outcome A * T)) g : option (outcome A * PropertyGraph T) :=
  match edge_tables_ g !! index with
  | None => Some (Thrown, g)
  | Some t => '(r, t) ← f t; Some (r, with_edge_tables (<[index := t]> (edge_tables_ g)) g)
  end.
Definition has_table g (index : Z) : bool := bool_decide (is_Some (edge_tables_ g !! index)).

Definition silent {S} (m : option S) : option (outcome unit * S) := s ← m; Some (Returned tt, s).

Definition vertex_schema_of g (v_label : Z) : option VertexSchema := m ← vget (v_schemas_ (schema_ g)) v_label; m.

(** The loops over the vertex labels that are not deleted, and over edge labels. *)
Definition each_valid_vertex (f : Z -> PropertyGraph T -> option (outcome unit * PropertyGraph T)) g : option (outcome unit * PropertyGraph T) :=
  each (seqZ 0 (vertex_label_total_count_ g)) (fun i g =>
    valid ← vlabel_valid (schema_ g) i; if valid : bool then f i g else Some (Returned tt, g)) g.
Definition each_edge_label (f : Z -> PropertyGraph T -> option (outcome unit * PropertyGraph T)) g : option (outcome unit * PropertyGraph T) :=
  each (seqZ 0 (edge_label_total_count_ g)) f g.

(** *** Capacities *)

Definition table_capacity g (v_label : Z) : option Z := vt ← vget (vertex_tables_ g) v_label; VertexTable.Capacity vt.

(** [EnsureCapacity(v_label, capacity)] *)
Definition EnsureVertexCapacity (v_label capacity : Z) g : option (outcome StatusCode * PropertyGraph T) :=
  valid ← vlabel_valid (schema_ g) v_label;
  if negb valid then status ERR_INVALID_ARGUMENT g
  else
    old_cap ← table_capacity g v_label;
    if capacity <=? old_cap then status OK g
    else
      m ← vertex_schema_of g v_label;
      and_then (on_vertex_table v_label (fun vt => VertexTable.EnsureCapacity std_hash vt m capacity) g) (fun v_new_cap g =>
      and_then (each_valid_vertex (fun dst_label => each_edge_label (fun e_label g =>
        let index := generate_edge_label v_label dst_label e_label in
        and_then (if has_table g index
                  then dst_cap ← table_capacity g dst_label; on_edge_table index (fun t => et_ensure_all t v_new_cap dst_cap 0) g
                  else Some (Returned tt, g)) (fun _ g =>
          let index := generate_edge_label dst_label v_label e_label in
          if negb (v_label =? dst_label) && has_table g index
          then dst_cap ← table_capacity g dst_label; on_edge_table index (fun t => et_ensure_all t dst_cap v_new_cap 0) g
          else Some (Returned tt, g)))) g) (fun _ g => status OK g)).

(** [EnsureCapacity(src_label, dst_label, edge_label, ...)], with and without the
    capacities of the vertices: [grow] is the call of the table. *)
Definition EnsureEdgeCapacity (src_label dst_label edge_label capacity : Z) (grow : T -> option (outcome unit * T)) g : option (outcome StatusCode * PropertyGraph T) :=
  there ← exist (schema_ g) src_label dst_label edge_label;
  if negb there then status ERR_INVALID_ARGUMENT g
  else
    match edge_tables_ g !! generate_edge_label src_label dst_label edge_label with
    | None => status ERR_INVALID_ARGUMENT g
    | Some t =>
        if capacity <=? et_capacity t then status OK g
        else and_then (on_edge_table (generate_edge_label src_label dst_label edge_label) grow g) (fun _ g => status OK g)
    end.

(** *** Types *)

Definition primary_key_types : list DataTypeId := [kInt64; kVarchar; kUInt64; kInt32; kUInt32].

(** A vertex table for a new label, or for one that was deleted. *)
Definition place_vertex_table (id : Z) (m : VertexSchema) g : option (outcome bool * PropertyGraph T) :=
  if id <? vlen (vertex_tables_ g) then
    vt ← vget (vertex_tables_ g) id;
    if is_dropped vt then
      new ← new_vertex_table m;
      match new with
      | Thrown => Some (Thrown, g)
      | Returned vt => l ← vset (vertex_tables_ g) id vt; Some (Returned true, with_vertex_tables l g)
      end
    else Some (Returned false, g)
  else
    new ← new_vertex_table m;
    match new with
    | Thrown => Some (Thrown, g)
    | Returned vt => Some (Returned true, with_vertex_tables (vertex_tables_ g ++ [vt]) g)
    end.

Definition CreateVertexType (name : string) (props : list (DataType * string * Property)) (primary_keys : list string) (error_on_conflict : bool) g :
    option (outcome StatusCode * PropertyGraph T) :=
  there ← contains_vertex_label (schema_ g) name;
  if there : bool then status (conflict error_on_conflict) g
  else
    match primary_keys with
    | [key] =>
        let names := map (fun '(_, n, _) => n) props in
        let types := map (fun '(ty, _, _) => ty) props in
        let defaults := map (fun '(_, _, d) => d) props in
        match find_name names key with
        | None => status ERR_INVALID_ARGUMENT g
        | Some ind =>
            ty ← vget types ind;
            if negb (bool_decide (fst ty ∈ primary_key_types)) then status ERR_INVALID_ARGUMENT g
            else
              names ← erase names ind; types ← erase types ind; defaults ← erase defaults ind;
              and_then ('(r, s) ← AddVertexLabel (schema_ g) name types names [(ty, key, ind)] defaults; Some (r, with_schema s g)) (fun _ g =>
              query g (vlabel_id (schema_ g) name) (fun id =>
              m ← vertex_schema_of g id;
              and_then (place_vertex_table id m g) (fun placed g =>
              if negb placed then status ERR_INVALID_ARGUMENT g
              else
                and_then (on_vertex_table id (Open m) g) (fun _ g =>
                and_then (on_vertex_table id (fun vt => VertexTable.EnsureCapacity std_hash vt m 4096) g) (fun _ g =>
                status OK (with_vertex_total g))))))
        end
    | _ => status ERR_INVALID_ARGUMENT g
    end.

Definition CreateEdgeType (src dst name : string) (props : list (DataType * string * Property)) (error_on_conflict : bool) g :
    option (outcome StatusCode * PropertyGraph T) :=
  s1 ← contains_vertex_label (schema_ g) src;
  if negb s1 then status ERR_INVALID_ARGUMENT g
  else
    d1 ← contains_vertex_label (schema_ g) dst;
    if negb d1 then status ERR_INVALID_ARGUMENT g
    else
      query g (has_edge_label_names (schema_ g) src dst name) (fun there =>
      if there : bool then status (conflict error_on_conflict) g
      else
        let types := map (fun '(ty, _, _) => ty) props in
        let names := map (fun '(_, n, _) => n) props in
        let defaults := map (fun '(_, _, d) => d) props in
        and_then ('(r, s) ← AddEdgeLabel (schema_ g) src dst name types names kMultiple kMultiple true true false defaults; Some (r, with_schema s g)) (fun _ g =>
        let g := with_edge_total g in
        query g (edge_ids (schema_ g) src dst name) (fun '(i, j, k) =>
        let index := generate_edge_label i j k in
        if has_table g index then status ERR_INVALID_ARGUMENT g
        else
          query g (Some (edge_type_at (schema_ g) i j k)) (fun m =>
          query g (Some (et_new m)) (fun t =>
          let g := with_edge_tables (<[index := t]> (edge_tables_ g)) g in
          src_cap ← table_capacity g i; dst_cap ← table_capacity g j;
          and_then (on_edge_table index et_open g) (fun _ g =>
          and_then (on_edge_table index (fun t => et_ensure_all t (Z.max src_cap 4096) (Z.max dst_cap 4096) 4096) g) (fun _ g =>
          status OK g))))))).

(** [DeleteVertexType(v_label_id)] *)
Definition drop_edge_type (src dst edge : Z) g : option (outcome unit * PropertyGraph T) :=
  there ← exist (schema_ g) src dst edge;
  if there : bool then
    s ← delete_edge_triplet (schema_ g) src dst edge false;
    Some (Returned tt, with_edge_tables (delete (generate_edge_label src dst edge) (edge_tables_ g)) (with_schema s g))
  else Some (Returned tt, g).

Definition DeleteVertexType (v_label_id : Z) g : option (outcome StatusCode * PropertyGraph T) :=
  s ← delete_vertex_label (schema_ g) v_label_id false;
  let g := with_schema s g in
  and_then (on_vertex_table v_label_id (fun vt => silent (Drop vt)) g) (fun _ g =>
  and_then (each_valid_vertex (fun i => each_edge_label (fun j g =>
    valid ← edge_label_valid (schema_ g) j;
    if negb valid then Some (Returned tt, g)
    else and_then (drop_edge_type v_label_id i j g) (fun _ g => drop_edge_type i v_label_id j g))) g) (fun _ g =>
  status OK g)).

Definition DeleteVertexTypeByName (name : string) g : option (outcome StatusCode * PropertyGraph T) :=
  query g (Some (vlabel_id_internal (schema_ g) name)) (fun id => DeleteVertexType id g).

Definition DeleteEdgeType (src dst edge : Z) g : option (outcome StatusCode * PropertyGraph T) :=
  s ← delete_edge_triplet (schema_ g) src dst edge false;
  status OK (with_edge_tables (delete (generate_edge_label src dst edge) (edge_tables_ g)) (with_schema s g)).
Definition DeleteEdgeTypeByName (src dst edge : string) g : option (outcome StatusCode * PropertyGraph T) :=
  query g (edge_ids_internal (schema_ g) src dst edge) (fun '(i, j, k) => DeleteEdgeType i j k g).

(** *** Properties of vertex types *)

(** The loop over the properties: it ends at the first for which [bad] holds. *)
Fixpoint any_property {A} (bad : A -> option (outcome bool)) (l : list A) : option (outcome bool) :=
  match l with
  | [] => Some (Returned false)
  | x :: l => b ⇐ bad x; if b : bool then Some (Returned true) else any_property bad l
  end.

Definition AddVertexProperties (name : string) (props : list (DataType * string * Property)) (error_on_conflict : bool) g : option (outcome StatusCode * PropertyGraph T) :=
  there ← contains_vertex_label (schema_ g) name;
  if negb there then status (conflict error_on_conflict) g
  else
    query g (any_property (fun '(_, prop, _) => schema_has_property (schema_ g) name prop) props) (fun exists_one =>
    if exists_one : bool then status (conflict error_on_conflict) g
    else
      let names := map (fun '(_, n, _) => n) props in
      let types := map (fun '(ty, _, _) => ty) props in
      let defaults := map (fun '(_, _, d) => d) props in
      and_then ('(r, s) ← SchemaOps.AddVertexProperties (schema_ g) name names types defaults; Some (r, with_schema s g)) (fun _ g =>
      query g (vlabel_id (schema_ g) name) (fun v_label =>
      and_then (on_vertex_table v_label (fun vt => AddProperties vt names types defaults) g) (fun _ g => status OK g)))).

Definition RenameVertexProperties (name : string) (renames : list (string * string)) (error_on_conflict : bool) g : option (outcome StatusCode * PropertyGraph T) :=
  there ← contains_vertex_label (schema_ g) name;
  if negb there then status (conflict error_on_conflict) g
  else
    query g (any_property (fun '(prop, _) => b ⇐ schema_has_property (schema_ g) name prop; Some (Returned (negb b))) renames) (fun missing_one =>
    if missing_one : bool then status (conflict error_on_conflict) g
    else
      and_then ('(r, s) ← SchemaOps.RenameVertexProperties (schema_ g) name (map fst renames) (map snd renames); Some (r, with_schema s g)) (fun _ g =>
      query g (vlabel_id (schema_ g) name) (fun v_label =>
      and_then (on_vertex_table v_label (fun vt => silent (RenameProperties vt (map fst renames) (map snd renames))) g) (fun _ g => status OK g)))).

(** The properties to delete, or an error; a property that is not there is passed on
    when that is no error. *)
Definition delete_vertex_properties_check (name : string) (props : list string) (error_on_conflict : bool) g : option (outcome (option (list string))) :=
  there ← contains_vertex_label (schema_ g) name;
  if negb there then Some (Returned (if error_on_conflict then None else Some []))
  else
    v_label ⇐ vlabel_id (schema_ g) name;
    failed ⇐ any_property (fun prop =>
      m ← vertex_schema_of g v_label; there ← vertex_has_property_internal m prop; Some (Returned (negb there && error_on_conflict))) props;
    Some (Returned (if failed : bool then None else Some props)).

Definition DeleteVertexProperties (name : string) (delete_properties : list string) (error_on_conflict : bool) g : option (outcome StatusCode * PropertyGraph T) :=
  query g (delete_vertex_properties_check name delete_properties error_on_conflict g) (fun checked =>
  match checked with
  | None => status ERR_INVALID_ARGUMENT g
  | Some props =>
      query g (vlabel_id (schema_ g) name) (fun v_label =>
      and_then ('(r, s) ← SchemaOps.DeleteVertexProperties (schema_ g) name props false; Some (r, with_schema s g)) (fun _ g =>
      and_then (on_vertex_table v_label (fun vt => silent (DeleteProperties vt props)) g) (fun _ g => status OK g)))
  end).

(** *** Vertices and edges *)

Definition AddVertex (label : Z) (id : Property) (props : list Property) (ts : Z) (insert_safe : bool) g : option (outcome (option Z) * PropertyGraph T) :=
  on_vertex_table label (fun vt => VertexTable.AddVertex std_hash vt id props ts insert_safe) g.

Definition AddEdge (src_label src_lid dst_label dst_lid edge_label : Z) (props : list Property) (ts : Z) (insert_safe : bool) g : option (outcome Z * PropertyGraph T) :=
  on_edge_table (generate_edge_label src_label dst_label edge_label) (fun t => et_add t src_lid dst_lid props ts insert_safe) g.

Definition UpdateVertexProperty (v_label vid prop_id : Z) (value : Property) (ts : Z) g : option (outcome StatusCode * PropertyGraph T) :=
  and_then (on_vertex_table v_label (fun vt => UpdateProperty vt vid prop_id value ts) g) (fun done g =>
  status (if done : bool then OK else ERR_INVALID_ARGUMENT) g).

(** A change of an edge table, an error where there is none. *)
Definition change_edges (index : Z) (f : T -> option (outcome unit * T)) g : option (outcome StatusCode * PropertyGraph T) :=
  if has_table g index then and_then (on_edge_table index f g) (fun _ g => status OK g) else status ERR_INVALID_ARGUMENT g.

Definition UpdateEdgeProperty (src_label src_vid dst_label dst_vid e_label oe_offset ie_offset prop_id : Z) (value : Property) (ts : Z) g :
    option (outcome StatusCode * PropertyGraph T) :=
  change_edges (generate_edge_label src_label dst_label e_label) (fun t => et_update t src_vid dst_vid oe_offset ie_offset prop_id value ts) g.

Definition DeleteEdge (src_label src_lid dst_label dst_lid edge_label oe_offset ie_offset ts : Z) g : option (outcome StatusCode * PropertyGraph T) :=
  change_edges (generate_edge_label src_label dst_label edge_label) (fun t => et_delete_edge t src_lid dst_lid oe_offset ie_offset ts) g.

Definition BatchDeleteEdges (src_label dst_label edge_label : Z) (edges : list (Z * Z)) g : option (outcome StatusCode * PropertyGraph T) :=
  and_then (on_edge_table (generate_edge_label src_label dst_label edge_label) (fun t => silent (et_delete_edges t (map fst edges) (map snd edges))) g) (fun _ g => status OK g).
Definition BatchDeleteOffsets (src_label dst_label edge_label : Z) (oe_edges ie_edges : list (Z * Z)) g : option (outcome StatusCode * PropertyGraph T) :=
  and_then (on_edge_table (generate_edge_label src_label dst_label edge_label) (fun t => silent (et_delete_offsets t oe_edges ie_edges)) g) (fun _ g => status OK g).

(** The loops over the edge types at a vertex label: [as_dst] for those that end at it,
    [as_src] for those that start at it. *)
Definition at_types (label : Z) (as_dst as_src : T -> option (outcome unit * T)) g : option (outcome unit * PropertyGraph T) :=
  each_valid_vertex (fun i => each_edge_label (fun j g =>
    and_then (if has_edge_label (schema_ g) i label j then on_edge_table (generate_edge_label i label j) as_dst g else Some (Returned tt, g)) (fun _ g =>
    if has_edge_label (schema_ g) label i j then on_edge_table (generate_edge_label label i j) as_src g else Some (Returned tt, g)))) g.

Definition BatchDeleteVertices (v_label_id : Z) (vids : list Z) g : option (outcome StatusCode * PropertyGraph T) :=
  and_then (on_vertex_table v_label_id (fun vt => VertexTable.BatchDeleteVertices vt vids) g) (fun _ g =>
  let vids_set : gset Z := list_to_set vids in
  and_then (at_types v_label_id (fun t => silent (et_delete_vertices t ∅ vids_set)) (fun t => silent (et_delete_vertices t vids_set ∅)) g) (fun _ g =>
  status OK g)).

(** [DeleteVertex(label, lid, ts)] *)
Definition DeleteVertex (label lid ts : Z) g : option (outcome StatusCode * PropertyGraph T) :=
  and_then (at_types label (fun t => et_delete_vertex t true lid ts) (fun t => et_delete_vertex t false lid ts) g) (fun _ g =>
  and_then (on_vertex_table label (fun vt => VertexTable.DeleteVertex vt lid ts) g) (fun _ g => status OK g)).

Definition DeleteVertexByOid (label : Z) (oid : Property) (ts : Z) g : option (outcome StatusCode * PropertyGraph T) :=
  vt ← vget (vertex_tables_ g) label;
  query g (get_index std_hash vt oid ts) (fun found => match found with None => status ERR_INVALID_ARGUMENT g | Some lid => DeleteVertex label lid ts g end).

Definition LidNum (label : Z) g : option Z := vt ← vget (vertex_tables_ g) label; Some (VertexTable.LidNum vt).
Definition VertexNum (label ts : Z) g : option Z := vt ← vget (vertex_tables_ g) label; VertexTable.VertexNum vt ts.
Definition IsValidLid (label lid ts : Z) g : option bool := vt ← vget (vertex_tables_ g) label; VertexTable.IsValidLid vt lid ts.
Definition EdgeNum (src_label edge_label dst_label : Z) g : Z :=
  match edge_tables_ g !! generate_edge_label src_label dst_label edge_label with Some t => et_edge_num t | None => 0 end.
Definition get_lid (label : Z) (oid : Property) (ts : Z) g : option (outcome (option Z)) := vt ← vget (vertex_tables_ g) label; get_index std_hash vt oid ts.
Definition GetOid (label lid ts : Z) g : option (outcome Property) := vt ← vget (vertex_tables_ g) label; VertexTable.GetOid vt lid ts.

(** *** Compaction *)

(** One vertex table joins the new ones [acc], and a fresh one takes its place. *)
Definition move_vertex_table (new_schema : SchemaState) (i : Z) (st : PropertyGraph T * list VertexTable) : option (outcome unit * (PropertyGraph T * list VertexTable)) :=
  let '(g, acc) := st in
  valid ← vlabel_valid (schema_ g) i;
  if negb valid then Some (Returned tt, st)
  else
    r ← (name ⇐ vertex_label_name (schema_ g) i; Some (vlabel_id_internal new_schema name));
    match r with
    | Thrown => Some (Thrown, st)
    | Returned id =>
        m ← vget (v_schemas_ new_schema) id; m ← m;
        fresh ← new_vertex_table m;
        match fresh with
        | Thrown => Some (Thrown, st)
        | Returned fresh =>
            vt ← vget (vertex_tables_ g) i; l ← vset (vertex_tables_ g) i fresh;
            old ← vertex_schema_of g i;
            Some (match SetVertexSchema old m with Returned _ => Returned tt | Thrown => Thrown end, (with_vertex_tables l g, acc ++ [vt]))
        end
    end.

(** The numbers of a type in the new schema, if it stays. *)
Definition new_triplet (s new_schema : SchemaState) (src dst edge : Z) : option (outcome (option (Z * Z * Z))) :=
  v1 ← vlabel_valid s src;
  if negb v1 then Some (Returned None)
  else
    v2 ← vlabel_valid s dst;
    if negb v2 then Some (Returned None)
    else
      e1 ← edge_label_valid s edge;
      if negb e1 then Some (Returned None)
      else
        there ← exist s src dst edge;
        if negb there then Some (Returned None)
        else
          src_name ⇐ vertex_label_name s src; dst_name ⇐ vertex_label_name s dst; e_name ⇐ edge_label_name_of s edge;
          i ⇐ Some (vlabel_id_internal new_schema src_name); j ⇐ Some (vlabel_id_internal new_schema dst_name);
          k ⇐ Some (elabel_id_internal new_schema e_name); Some (Returned (Some (i, j, k))).

(** One edge table joins the new ones; what [emplace] finds or makes takes its place. *)
Definition move_edge_table (new_schema : SchemaState) (key : Z * Z * Z) (st : PropertyGraph T * gmap Z T) : option (outcome unit * (PropertyGraph T * gmap Z T)) :=
  let '(g, acc) := st in
  let '(src, dst, edge) := key in
  r ← new_triplet (schema_ g) new_schema src dst edge;
  match r with
  | Thrown => Some (Thrown, st)
  | Returned None => Some (Returned tt, st)
  | Returned (Some (i, j, k)) =>
      let new_index := generate_edge_label i j k in
      let old_index := generate_edge_label src dst edge in
      match edge_type_at new_schema i j k with
      | Thrown => Some (Thrown, st)
      | Returned m =>
          match et_new m with
          | Thrown => Some (Thrown, st)
          | Returned fresh =>
              let there := default fresh (acc !! new_index) in
              match edge_tables_ g !! old_index with
              | None => Some (Thrown, (g, <[new_index := there]> acc))
              | Some t => Some (Returned tt, (with_edge_tables (<[old_index := there]> (edge_tables_ g)) g, <[new_index := et_set_schema m t]> acc))
              end
          end
      end
  end.

Definition type_keys g : list (Z * Z * Z) :=
  src ← seqZ 0 (vertex_label_total_count_ g); dst ← seqZ 0 (vertex_label_total_count_ g); edge ← seqZ 0 (edge_label_total_count_ g); [(src, dst, edge)].

Definition compact_schema g : option (outcome unit * PropertyGraph T) :=
  query g (SchemaOps.compact_schema (schema_ g)) (fun new_schema =>
  and_then ('(r, (g, acc)) ← each (seqZ 0 (vertex_label_total_count_ g)) (move_vertex_table new_schema) (g, []);
            Some (match r with Returned _ => Returned acc | Thrown => Thrown end, g)) (fun vts g =>
  and_then ('(r, (g, acc)) ← each (type_keys g) (move_edge_table new_schema) (g, ∅);
            Some (match r with Returned _ => Returned acc | Thrown => Thrown end, g)) (fun ets g =>
  Some (Returned tt, with_edge_total (with_vertex_total (MkGraph new_schema vts ets 0 0)))))).

(** [Compact]: the schema, then every table. *)
Definition Compact (compact_csr : bool) (ts : Z) g : option (outcome unit * PropertyGraph T) :=
  and_then (compact_schema g) (fun _ g =>
  each_valid_vertex (fun i g =>
    and_then (on_vertex_table i (fun vt => silent (VertexTable.Compact vt)) g) (fun _ g =>
    each_valid_vertex (fun j => each_edge_label (fun k g =>
      valid ← edge_label_valid (schema_ g) k;
      if negb valid then Some (Returned tt, g)
      else
        there ← exist (schema_ g) i j k;
        if negb there then Some (Returned tt, g)
        else
          query g (Some (edge_type_at (schema_ g) i j k)) (fun m =>
          let index := generate_edge_label i j k in
          if has_table g index then on_edge_table index (fun t => et_compact t compact_csr (sort_on_compaction m) ts) g else Some (Returned tt, g)))) g)) g).
End graph.
