(* ===== verification/GraphTheorems.v ===== *)
(** * Deletion of vertices and labels in a graph

    First the loops over the edge tables.  [batch_delete_vertices_spec]: a batch of deletions leaves no edge at a deleted
    vertex and touches no other edge.  [delete_vertex_wrong_ends]: the deletion of one
    vertex looks for its edges at the wrong end points.  [loops_return]: the deletion
    of a vertex type forgets the edge types from the type to itself. *)
From stdpp Require Import strings gmap.
From S2P Require Import Prelude Storage Aggregate Bitset VertexTimestamp Property Column IdIndexer Table TableTheorems EdgeSchema VertexSchema SchemaOps SchemaInvariant SchemaTheorems.
From S2P Require Import MutableCsr CsrInterface VertexTable VertexTheorems EdgeSpec EdgeTheorems EdgeInterface PropertyGraph.
#[local] Open Scope Z_scope.

(** ** Loops over the edge tables

    [graph_ok] says that the tables of a graph fit its schema, and [graph_holds] which
    edges they have.  A loop over the edge types at a vertex label is a list of [act]s,
    each of which takes edges away from one table; [type_acts_keep] gives what is left. *)

Section loops.
Context {T : Type} `{!EdgeTableOps T, !EdgeTableModel T}.
Implicit Types g : PropertyGraph T.

(** Every label has a place for its table, and every edge type its table. *)
Record graph_ok g : Prop := {
  go_schema : schema_ok (schema_ g);
  go_vertices : vlen (vertex_tables_ g) = vlen (vlabel_indexer_ (schema_ g));
  go_vtotal : vertex_label_total_count_ g = vlen (vlabel_indexer_ (schema_ g));
  go_etotal : edge_label_total_count_ g = vlen (elabel_indexer_ (schema_ g));
  go_edges : et_meta <$> edge_tables_ g = e_schemas_ (schema_ g)
}.

(** [E] has the edges of every table, and [ns] the number of vertices of each label
    that the tables have room for. *)
Definition graph_holds g (ns : Z -> Z) (E : Z -> list aedge) : Prop :=
  forall i j k t, 0 <= i <= 255 -> 0 <= j <= 255 -> 0 <= k <= 255 ->
    edge_tables_ g !! generate_edge_label i j k = Some t -> et_holds t (ns i) (ns j) (E (generate_edge_label i j k)).

(** The same but for the contents of the edge tables. *)
Definition same_frame g g' : Prop :=
  schema_ g' = schema_ g /\ vertex_tables_ g' = vertex_tables_ g /\ vertex_label_total_count_ g' = vertex_label_total_count_ g /\
  edge_label_total_count_ g' = edge_label_total_count_ g /\ et_meta <$> edge_tables_ g' = et_meta <$> edge_tables_ g.

Lemma same_frame_refl g : same_frame g g. Proof. by split_and!. Qed.
Lemma same_frame_trans g1 g2 g3 : same_frame g1 g2 -> same_frame g2 g3 -> same_frame g1 g3.
Proof. intros (H1 & H2 & H3 & H4 & H5) (G1 & G2 & G3 & G4 & G5). split_and!; congruence. Qed.
Lemma graph_ok_frame g g' : same_frame g g' -> graph_ok g -> graph_ok g'.
Proof. intros (H1 & H2 & H3 & H4 & H5) [G1 G2 G3 G4 G5]. split; congruence. Qed.

Lemma graph_holds_ext g ns E E' : (forall key, E key = E' key) -> graph_holds g ns E -> graph_holds g ns E'.
Proof. intros He Hg i j k t Hi Hj Hk Ht. rewrite <-He. by apply Hg. Qed.

(** ** Acts *)

(** The edges of the table [fst a] for which [snd a] does not hold go away. *)
Definition act : Type := Z * (aedge -> bool).
Definition keeps_edge (acts : list act) (key : Z) (e : aedge) : bool := forallb (fun a => negb (fst a =? key) || snd a e) acts.
Definition after (acts : list act) (E : Z -> list aedge) (key : Z) : list aedge := kept (keeps_edge acts key) (E key).

Lemma kept_kept P Q E : kept P (kept Q E) = kept (fun e => Q e && P e) E.
Proof.
  unfold kept. rewrite list_filter_filter. apply list_filter_iff. intros e. rewrite andb_true_iff. tauto.
Qed.
Lemma kept_ext P Q E : (forall e, P e = Q e) -> kept P E = kept Q E.
Proof. intros He. unfold kept. apply list_filter_iff. intros e. by rewrite He. Qed.
Lemma kept_all P E : (forall e, P e = true) -> kept P E = E.
Proof.
  intros He. unfold kept. induction E as [|e E IH]; [done|]. rewrite filter_cons, He, decide_True by done. by rewrite IH.
Qed.

Lemma after_nil E key : after [] E key = E key. Proof. by apply kept_all. Qed.
Lemma after_app acts1 acts2 E key : after acts2 (after acts1 E) key = after (acts1 ++ acts2) E key.
Proof. unfold after. rewrite kept_kept. apply kept_ext. intros e. unfold keeps_edge. by rewrite forallb_app. Qed.

(** What a step of a loop does. *)
Definition does (acts : list act) (ns : Z -> Z) (m : option (outcome unit * PropertyGraph T)) g E : Prop :=
  wp m (fun r => fst r = Returned tt /\ same_frame g (snd r) /\ graph_holds (snd r) ns (after acts E)).

Lemma does_nothing ns g E : graph_holds g ns E -> does [] ns (Some (Returned tt, g)) g E.
Proof.
  intros Hg. apply wp_ret. split; [done|]. split; [apply same_frame_refl|]. eapply graph_holds_ext; [|exact Hg]. intros key. by rewrite after_nil.
Qed.

Lemma does_then acts1 acts2 ns m (f : PropertyGraph T -> option (outcome unit * PropertyGraph T)) g E : does acts1 ns m g E ->
  (forall g1, same_frame g g1 -> graph_holds g1 ns (after acts1 E) -> does acts2 ns (f g1) g1 (after acts1 E)) -> does (acts1 ++ acts2) ns (and_then m (fun _ => f)) g E.
Proof.
  intros Hm Hf. unfold does. apply wp_and_then. eapply wp_mono; [exact Hm|]. intros [r g1] (Hr & Hs & Hg). exists tt. split; [done|].
  eapply wp_mono; [by apply Hf|]. intros r2 (Hr2 & Hs2 & Hg2). split; [done|]. split; [by eapply same_frame_trans|].
  eapply graph_holds_ext; [|exact Hg2]. intros key. apply after_app.
Qed.

Lemma does_each {A} (l : list A) (acts : A -> list act) ns (f : A -> PropertyGraph T -> option (outcome unit * PropertyGraph T)) g E :
  graph_holds g ns E -> (forall x g1 E1, x ∈ l -> same_frame g g1 -> graph_holds g1 ns E1 -> does (acts x) ns (f x g1) g1 E1) -> does (flat_map acts l) ns (each l f g) g E.
Proof.
  revert g E. induction l as [|x l IH]; intros g E Hg Hf; cbn [each flat_map]; [by apply does_nothing|].
  apply (does_then (acts x) (flat_map acts l) ns (f x g) (each l f)).
  - apply Hf; [apply list_elem_of_here|apply same_frame_refl|done].
  - intros g1 Hs1 Hg1. apply IH; [done|]. intros y g2 E2 Hy Hs2 Hg2. apply Hf; [by apply list_elem_of_further|by eapply same_frame_trans|done].
Qed.

Lemma lookup_meta (g : PropertyGraph T) key m : (et_meta <$> edge_tables_ g) !! key = Some m -> exists t, edge_tables_ g !! key = Some t /\ et_meta t = m.
Proof. rewrite lookup_fmap. destruct (edge_tables_ g !! key) as [t|]; [|done]. intros [= <-]. by exists t. Qed.

(** One table. *)
Lemma does_table i j k (P : aedge -> bool) ns f g E : 0 <= i <= 255 -> 0 <= j <= 255 -> 0 <= k <= 255 ->
  graph_holds g ns E -> is_Some ((et_meta <$> edge_tables_ g) !! generate_edge_label i j k) ->
  (forall t, et_holds t (ns i) (ns j) (E (generate_edge_label i j k)) ->
     wp (f t) (fun r => fst r = Returned tt /\ et_meta (snd r) = et_meta t /\ et_holds (snd r) (ns i) (ns j) (kept P (E (generate_edge_label i j k))))) ->
  does [(generate_edge_label i j k, P)] ns (on_edge_table (generate_edge_label i j k) f g) g E.
Proof.
  intros Hi Hj Hk Hg [m Hm] Hf. apply lookup_meta in Hm as (t & Ht & _). set (key := generate_edge_label i j k) in *. unfold does, on_edge_table. rewrite Ht.
  apply wp_bind. eapply wp_mono; [apply Hf; by apply Hg|]. intros [r t1] (Hr & Hm1 & Hh1). cbn [fst snd] in *. apply wp_ret. split; [done|]. split.
  - split_and!; try done. simpl. rewrite fmap_insert, Hm1. apply insert_id. by rewrite lookup_fmap, Ht.
  - intros i1 j1 k1 t' Hi1 Hj1 Hk1. simpl. rewrite lookup_insert_Some. unfold after. intros [[E0 <-]|[Hne Ht']].
    + destruct (edge_number_inj i j k i1 j1 k1) as (<- & <- & <-); [done..|]. fold key. erewrite kept_ext; [exact Hh1|]. intros e. unfold keeps_edge. cbn. by rewrite Z.eqb_refl, andb_true_r.
    + rewrite kept_all; [by apply Hg|]. intros e. unfold keeps_edge. cbn. by rewrite (proj2 (Z.eqb_neq _ _)).
Qed.

(** ** The loops *)

(** The label is there and not deleted. *)
Definition live_number s (i : Z) : Prop := vlabel_valid s i = Some true.
Definition is_live s (i : Z) : bool := match vlabel_valid s i with Some b => b | None => false end.

Lemma valid_known s i : schema_ok s -> 0 <= i < vlen (vlabel_indexer_ s) -> vlabel_valid s i = Some (is_live s i).
Proof.
  intros Hs Hi. destruct (so_vlabels _ Hs) as (_ & Ht & _). unfold is_live, vlabel_valid. rewrite (proj2 (Z.ltb_lt _ _)) by lia.
  destruct (vget_is (vlabel_tomb_ s) i) as [b ->]; [lia|done].
Qed.

Lemma has_table_meta g i j k : graph_ok g -> has_edge_label (schema_ g) i j k = true -> is_Some ((et_meta <$> edge_tables_ g) !! generate_edge_label i j k).
Proof. intros Hg H%bool_decide_eq_true. by rewrite (go_edges _ Hg). Qed.

Definition pair_acts s (label : Z) (Pd Ps : aedge -> bool) (i k : Z) : list act :=
  (if has_edge_label s i label k then [(generate_edge_label i label k, Pd)] else []) ++
  (if has_edge_label s label i k then [(generate_edge_label label i k, Ps)] else []).
Definition type_acts s (label : Z) (Pd Ps : aedge -> bool) : list act :=
  flat_map (fun i => if is_live s i then flat_map (pair_acts s label Pd Ps i) (seqZ 0 (vlen (elabel_indexer_ s))) else []) (seqZ 0 (vlen (vlabel_indexer_ s))).

Lemma at_types_does label (as_dst as_src : T -> option (outcome unit * T)) Pd Ps ns g E : graph_ok g -> graph_holds g ns E -> 0 <= label <= 255 ->
  (forall i t E, live_number (schema_ g) i -> et_holds t (ns i) (ns label) E ->
     wp (as_dst t) (fun r => fst r = Returned tt /\ et_meta (snd r) = et_meta t /\ et_holds (snd r) (ns i) (ns label) (kept Pd E))) ->
  (forall i t E, live_number (schema_ g) i -> et_holds t (ns label) (ns i) E ->
     wp (as_src t) (fun r => fst r = Returned tt /\ et_meta (snd r) = et_meta t /\ et_holds (snd r) (ns label) (ns i) (kept Ps E))) ->
  does (type_acts (schema_ g) label Pd Ps) ns (at_types label as_dst as_src g) g E.
Proof.
  intros Hg Hh Hlabel Hd Hs. unfold at_types, each_valid_vertex, type_acts. rewrite (go_vtotal _ Hg). apply does_each; [done|].
  intros i g1 E1 Hi%elem_of_seqZ Hf1 Hh1. pose proof (graph_ok_frame _ _ Hf1 Hg) as Hg1. destruct Hf1 as (Es & _). rewrite Es, (valid_known _ i (go_schema _ Hg)) by lia. cbn [mbind option_bind].
  destruct (is_live (schema_ g) i) eqn:El; [|by apply does_nothing]. assert (live_number (schema_ g) i) as Hlive by (unfold live_number; by rewrite (valid_known _ i (go_schema _ Hg)), El by lia).
  unfold each_edge_label. rewrite (go_etotal _ Hg1), Es. apply does_each; [done|]. intros k g2 E2 Hk%elem_of_seqZ Hf2 Hh2. pose proof (graph_ok_frame _ _ Hf2 Hg1) as Hg2. pose proof Hf2 as (Es2 & _).
  destruct (so_vlabels _ (go_schema _ Hg)) as (_ & _ & Hn). destruct (so_elabels _ (go_schema _ Hg)) as (_ & _ & Hne). unfold pair_acts. rewrite <-Es, <-Es2. apply does_then.
  - destruct (has_edge_label (schema_ g2) i label k) eqn:Eh; [|by apply does_nothing]. apply does_table; [lia|lia|lia|done|by apply has_table_meta|]. intros t Ht. by apply Hd.
  - intros g3 Hf3 Hh3. pose proof (graph_ok_frame _ _ Hf3 Hg2) as Hg3. pose proof Hf3 as (Es3 & _). rewrite Es3. destruct (has_edge_label (schema_ g2) label i k) eqn:Eh; [|by apply does_nothing].
    apply does_table; [lia|lia|lia|done|apply has_table_meta; [done|by rewrite Es3]|]. intros t Ht. by apply Hs.
Qed.

Lemma keeps_edge_iff acts key e : keeps_edge acts key e = true <-> forall a, a ∈ acts -> fst a = key -> snd a e = true.
Proof.
  unfold keeps_edge. rewrite forallb_forall. setoid_rewrite orb_true_iff. setoid_rewrite negb_true_iff. setoid_rewrite Z.eqb_neq. setoid_rewrite list_elem_of_In.
  split; intros Ha a Hin; [intros Hk; by destruct (Ha a Hin)|]. destruct (decide (fst a = key)); [right; by apply Ha|by left].
Qed.

Lemma elem_of_type_acts s label Pd Ps a : a ∈ type_acts s label Pd Ps <-> exists i k, 0 <= i < vlen (vlabel_indexer_ s) /\ 0 <= k < vlen (elabel_indexer_ s) /\ is_live s i = true /\
  ((has_edge_label s i label k = true /\ a = (generate_edge_label i label k, Pd)) \/ (has_edge_label s label i k = true /\ a = (generate_edge_label label i k, Ps))).
Proof.
  unfold type_acts. rewrite list_elem_of_In, in_flat_map. setoid_rewrite <-list_elem_of_In. setoid_rewrite elem_of_seqZ. split.
  - intros (i & Hi & Ha). destruct (is_live s i) eqn:El; [|by apply elem_of_nil in Ha]. apply list_elem_of_In, in_flat_map in Ha as (k & Hk & Ha). apply list_elem_of_In in Hk, Ha.
    apply elem_of_seqZ in Hk. exists i, k. split; [lia|]. split; [lia|]. split; [done|]. unfold pair_acts in Ha. apply elem_of_app in Ha as [Ha|Ha].
    + destruct (has_edge_label s i label k); [|by apply elem_of_nil in Ha]. apply list_elem_of_singleton in Ha. by left.
    + destruct (has_edge_label s label i k); [|by apply elem_of_nil in Ha]. apply list_elem_of_singleton in Ha. by right.
  - intros (i & k & Hi & Hk & El & Ha). exists i. split; [lia|]. rewrite El. apply list_elem_of_In, in_flat_map. exists k. split; [apply list_elem_of_In, elem_of_seqZ; lia|]. apply list_elem_of_In.
    unfold pair_acts. apply elem_of_app. destruct Ha as [[-> ->]|[-> ->]]; [left|right]; by apply list_elem_of_singleton.
Qed.

(** What the loops leave of the edges of a type between labels that are not deleted. *)
Lemma type_acts_keep s label Pd Ps i j k e : schema_ok s -> 0 <= label <= 255 -> has_edge_label s i j k = true -> 0 <= i <= 255 -> 0 <= j <= 255 -> 0 <= k <= 255 ->
  live_number s i -> live_number s j ->
  keeps_edge (type_acts s label Pd Ps) (generate_edge_label i j k) e = (negb (j =? label) || Pd e) && (negb (i =? label) || Ps e).
Proof.
  intros Hs Hlabel Hh Hi Hj Hk Hli Hlj. apply eq_true_iff_eq. rewrite keeps_edge_iff, andb_true_iff, !orb_true_iff, !negb_true_iff, !Z.eqb_neq. setoid_rewrite elem_of_type_acts.
  assert (0 <= i < vlen (vlabel_indexer_ s) /\ 0 <= j < vlen (vlabel_indexer_ s) /\ 0 <= k < vlen (elabel_indexer_ s)) as (Hri & Hrj & Hrk).
  { apply bool_decide_eq_true in Hh as [m Hm]. destruct (so_edges _ Hs _ _ Hm) as (_ & (i' & j' & k' & Hkey & H1 & H2 & H3) & _).
    destruct (edge_number_inj i j k i' j' k') as (-> & -> & ->); eauto using vlabel_small, elabel_small. by apply vget_lt in H1, H2, H3. }
  assert (is_live s i = true /\ is_live s j = true) as [Eli Elj] by (unfold is_live; by rewrite Hli, Hlj). split.
  - intros Ha. split.
    + destruct (decide (j = label)) as [->|]; [right|by left]. apply (Ha (generate_edge_label i label k, Pd)); [|done]. exists i, k. split_and!; try done; try lia. by left.
    + destruct (decide (i = label)) as [->|]; [right|by left]. apply (Ha (generate_edge_label label j k, Ps)); [|done]. exists j, k. split_and!; try done; try lia. by right.
  - intros [Hd Hsr] a (i' & k' & Hi' & Hk' & _ & Ha) Hkey. destruct (so_vlabels _ Hs) as (_ & _ & Hn). destruct (so_elabels _ Hs) as (_ & _ & Hne). destruct Ha as [[_ ->]|[_ ->]]; cbn [fst snd] in *.
    + destruct (edge_number_inj i' label k' i j k) as (-> & -> & ->); [lia..|done|]. by destruct Hd.
    + destruct (edge_number_inj label i' k' i j k) as (-> & -> & ->); [lia..|done|]. by destruct Hsr.
Qed.
End loops.

(** ** Vertices that are not seen *)

Lemma vat_vput_either {A} `{Inhabited A} (l : list A) x y v : vat (vput l x y) v = y \/ vat (vput l x y) v = vat l v.
Proof.
  unfold vat, vput. destruct (decide (Z.to_nat x = Z.to_nat v)) as [E|E]; [|right; by rewrite list_lookup_total_insert_ne].
  rewrite E. destruct (decide (Z.to_nat v < length l)%nat) as [Hl|Hl]; [left; by apply list_lookup_total_insert_eq|right; by rewrite list_insert_ge by lia].
Qed.

Lemma seen_remove a x v t ts : seen a v ts = false -> is_time ts = true -> seen (remove a x t) v ts = false.
Proof.
  intros Hs Ht. unfold remove. destruct (seen a x t); [|done]. unfold seen, av_stamp, av_times, num, is_time in *. cbn [av_keys av_stamps].
  destruct (v <? vlen (av_keys a)); [|done]. cbn [andb] in *. destruct (vat_vput_either (av_stamps a) x DELETED_TIMESTAMP v) as [->| ->]; [unfold DELETED_TIMESTAMP in *; lia|done].
Qed.

(** What a removal leaves alone. *)
Lemma remove_sizes a x t : num (remove a x t) = num a /\ vlen (av_stamps (remove a x t)) = vlen (av_stamps a).
Proof. unfold remove. destruct (seen a x t); [|done]. unfold num, av_stamp, av_times. simpl. by rewrite vlen_vput. Qed.

Lemma removed_unseen a v ts : 0 <= v -> num a <= vlen (av_stamps a) -> is_time ts = true -> seen (remove a v MAX_TIMESTAMP) v ts = false.
Proof.
  intros Hv Hn Ht. unfold remove. destruct (seen a v MAX_TIMESTAMP) eqn:Es.
  - unfold seen in *. apply andb_prop in Es as [Hlt%Z.ltb_lt _]. unfold num, av_stamp, av_times, is_time in *. cbn [av_keys av_stamps]. rewrite vat_vput_eq by lia. unfold DELETED_TIMESTAMP in *. lia.
  - unfold seen, is_time, MAX_TIMESTAMP, DELETED_TIMESTAMP in *. lia.
Qed.

Lemma batch_unseen vids a v ts : v ∈ vids -> Forall (fun x => 0 <= x) vids -> num a <= vlen (av_stamps a) -> is_time ts = true ->
  seen (foldl (fun a x => remove a x MAX_TIMESTAMP) a vids) v ts = false.
Proof.
  intros Hin Hf Hn Ht. revert a Hn. induction vids as [|x vids IH]; intros a Hn; [by apply elem_of_nil in Hin|]. apply Forall_cons in Hf as [Hx Hf]. cbn [foldl].
  destruct (remove_sizes a x MAX_TIMESTAMP) as [E1 E2]. apply elem_of_cons in Hin as [->|Hin]; [|apply IH; [done|done|lia]]. clear IH.
  pose proof (removed_unseen a x ts Hx Hn Ht) as Hs. clear E1 E2 Hn Hf. revert Hs. generalize (remove a x MAX_TIMESTAMP). induction vids as [|y vids IH]; intros b Hb; [done|]. cbn [foldl].
  by apply IH, seen_remove.
Qed.

Section deletion.
Context `{!Memory} (std_hash : Property -> Z) {T : Type} `{!EdgeTableOps T, !EdgeTableModel T, !EdgeTableLaws T}.
Implicit Types g : PropertyGraph T.

Lemma live_range s i : live_number s i -> 0 <= i < vlen (vlabel_indexer_ s).
Proof.
  unfold live_number, vlabel_valid. destruct (Z.ltb_spec i (vlen (vlabel_indexer_ s))); [|done]. destruct (vget (vlabel_tomb_ s) i) eqn:E; [|done].
  apply vget_lt in E. lia.
Qed.

(** A method of a vertex table. *)
Lemma on_vertex_table_wp {A} v (f : VertexTable -> option (outcome A * VertexTable)) g vt (Q : outcome A * VertexTable -> Prop) : graph_ok g ->
  vget (vertex_tables_ g) v = Some vt -> wp (f vt) Q ->
  wp (on_vertex_table v f g) (fun r => exists vt', vget (vertex_tables_ (snd r)) v = Some vt' /\ Q (fst r, vt') /\ snd r = with_vertex_tables (vput (vertex_tables_ g) v vt') g).
Proof.
  intros Hg Hvt Hf. pose proof (vget_lt _ _ _ Hvt) as Hr. unfold on_vertex_table. rewrite Hvt. cbn [mbind option_bind]. apply wp_bind. eapply wp_mono; [exact Hf|].
  intros [r vt'] HQ. apply wp_bind, wp_set; [done|]. apply wp_ret. exists vt'. cbn [fst snd]. split; [|done]. by apply vget_vput_eq.
Qed.

Lemma graph_ok_vertex g v vt : graph_ok g -> graph_ok (with_vertex_tables (vput (vertex_tables_ g) v vt) g).
Proof. intros [H1 H2 H3 H4 H5]. split; simpl; try done. by rewrite vput_len. Qed.

(** The edges at deleted vertices of a label: [i] and [j] are the labels of the ends. *)
Definition at_deleted (v : Z) (vids : list Z) (i j : Z) (e : aedge) : bool :=
  ((i =? v) && bool_decide (ae_src e ∈ vids)) || ((j =? v) && bool_decide (ae_dst e ∈ vids)).

Lemma live_small s i : schema_ok s -> live_number s i -> 0 <= i <= 255.
Proof. intros Hs Hi%live_range. destruct (so_vlabels _ Hs) as (_ & _ & Hn). lia. Qed.

Lemma elabel_of_type s i j k : schema_ok s -> has_edge_label s i j k = true -> 0 <= i <= 255 -> 0 <= j <= 255 -> 0 <= k <= 255 -> 0 <= k < vlen (elabel_indexer_ s).
Proof.
  intros Hs [m Hm]%bool_decide_eq_true Hi Hj Hk. destruct (so_edges _ Hs _ _ Hm) as (_ & (i' & j' & k' & Hkey & H1 & H2 & H3) & _).
  destruct (edge_number_inj i j k i' j' k') as (-> & -> & ->); eauto using vlabel_small, elabel_small. by eapply vget_lt.
Qed.

Lemma at_types_wp label (as_dst as_src : T -> option (outcome unit * T)) Pd Ps ns g E (Q : outcome unit * PropertyGraph T -> Prop) : graph_ok g -> graph_holds g ns E -> live_number (schema_ g) label ->
  (forall i t E, live_number (schema_ g) i -> et_holds t (ns i) (ns label) E ->
     wp (as_dst t) (fun r => fst r = Returned tt /\ et_meta (snd r) = et_meta t /\ et_holds (snd r) (ns i) (ns label) (kept Pd E))) ->
  (forall i t E, live_number (schema_ g) i -> et_holds t (ns label) (ns i) E ->
     wp (as_src t) (fun r => fst r = Returned tt /\ et_meta (snd r) = et_meta t /\ et_holds (snd r) (ns label) (ns i) (kept Ps E))) ->
  (forall g' E', same_frame g g' -> graph_holds g' ns E' ->
     (forall i j k, live_number (schema_ g) i -> live_number (schema_ g) j -> 0 <= k <= 255 -> has_edge_label (schema_ g) i j k = true ->
        E' (generate_edge_label i j k) = kept (fun e => (negb (j =? label) || Pd e) && (negb (i =? label) || Ps e)) (E (generate_edge_label i j k))) ->
     Q (Returned tt, g')) ->
  wp (at_types label as_dst as_src g) Q.
Proof.
  intros Hg Hh Hl Hd Hs HQ. pose proof (live_small _ _ (go_schema _ Hg) Hl) as Hr.
  eapply wp_mono; [by apply (at_types_does label as_dst as_src Pd Ps ns g E)|]. intros [r g'] (Hrt & Hf & Hh'). cbn [fst snd] in *. subst r. eapply HQ; [done|exact Hh'|].
  intros i j k Hi Hj Hk Hhas. apply kept_ext. intros e. pose proof (go_schema _ Hg) as Hok. apply type_acts_keep; try done; by apply (live_small (schema_ g)).
Qed.

(** C11: [BatchDeleteVertices] makes the vertices invisible at every time and takes away
    exactly the edges at them, in every edge type between labels that are there:
    no edge is left at a deleted vertex, and no other edge is gone. *)
Theorem batch_delete_vertices_spec g ns E v vids vt ty w a : graph_ok g -> graph_holds g ns E -> live_number (schema_ g) v -> Forall (fun x => 0 <= x) vids ->
  vget (vertex_tables_ g) v = Some vt -> vt_rel std_hash ty w vt a ->
  wp (PropertyGraph.BatchDeleteVertices v vids g) (fun r => fst r = Returned OK /\ graph_ok (snd r) /\ schema_ (snd r) = schema_ g /\
    (exists vt' a', vget (vertex_tables_ (snd r)) v = Some vt' /\ vt_rel std_hash ty w vt' a' /\ forall x ts, x ∈ vids -> is_time ts = true -> seen a' x ts = false) /\
    exists E', graph_holds (snd r) ns E' /\
      forall i j k, live_number (schema_ g) i -> live_number (schema_ g) j -> 0 <= k <= 255 -> has_edge_label (schema_ g) i j k = true ->
        E' (generate_edge_label i j k) = kept (fun e => negb (at_deleted v vids i j e)) (E (generate_edge_label i j k))).
Proof.
  intros Hg Hh Hv Hvids Hvt Hrel. unfold PropertyGraph.BatchDeleteVertices. apply wp_and_then.
  assert (forallb (fun x => 0 <=? x) vids = true) as Hb. { apply forallb_forall. intros x Hx. rewrite Forall_forall in Hvids. apply Z.leb_le, Hvids. by apply list_elem_of_In. }
  eapply wp_mono; [apply (on_vertex_table_wp v _ g vt _ Hg Hvt (batch_rel_vt std_hash ty w vids vt a Hrel Hb))|]. intros [r g1] (vt' & Hvt' & [Hr Hrel'] & Hg1). cbn [fst snd] in *. subst r.
  exists tt. split; [done|]. apply wp_and_then. pose proof (graph_ok_vertex g v vt' Hg) as Hok1. rewrite <-Hg1 in Hok1. assert (schema_ g1 = schema_ g) as Es1 by by rewrite Hg1.
  assert (forall i, i ∈ (list_to_set vids : gset Z) -> 0 <= i) as Hpos by (intros i Hi%elem_of_list_to_set; by rewrite Forall_forall in Hvids; apply Hvids).
  assert (forall i, i ∈ (∅ : gset Z) -> 0 <= i) as Hnone by set_solver.
  apply (at_types_wp v _ _ (fun e => outside ∅ (list_to_set vids) (ae_src e, ae_dst e)) (fun e => outside (list_to_set vids) ∅ (ae_src e, ae_dst e)) ns g1 E); [done|by rewrite Hg1|by rewrite Es1| | |].
  - intros i t Et _ Ht. apply wp_bind. eapply wp_mono; [by apply (et_law_delete_vertices t (ns i) (ns v) Et ∅ (list_to_set vids))|]. intros t' [Hm Ht']. by apply wp_ret.
  - intros i t Et _ Ht. apply wp_bind. eapply wp_mono; [by apply (et_law_delete_vertices t (ns v) (ns i) Et (list_to_set vids) ∅)|]. intros t' [Hm Ht']. by apply wp_ret.
  - intros g2 E' Hf Hh' HE. exists tt. split; [done|]. apply wp_ret. cbn [fst snd]. split; [done|]. split; [by eapply graph_ok_frame|]. destruct Hf as (Es & Ev & _).
    split; [congruence|]. split.
    + eexists vt', _. rewrite Ev. split; [done|]. split; [exact Hrel'|]. intros x ts Hx Hts. apply batch_unseen; try done. pose proof (vr_num _ _ _ _ _ Hrel). pose proof (vr_cap _ _ _ _ _ Hrel). lia.
    + exists E'. split; [done|]. rewrite Es1 in HE. intros i j k Hi Hj Hk Hhas. rewrite HE by done. apply kept_ext. intros e. unfold outside, at_deleted. cbn [fst snd].
      rewrite !(bool_decide_eq_true_2 (_ ∉ ∅)) by set_solver. rewrite andb_true_r. cbn [andb]. rewrite !(bool_decide_ext (_ ∉ list_to_set vids) (~ _ ∈ vids)) by by rewrite elem_of_list_to_set.
      rewrite !bool_decide_not. destruct (j =? v), (i =? v), (bool_decide (ae_dst e ∈ vids)), (bool_decide (ae_src e ∈ vids)); done.
Qed.

(** The edges that [DeleteVertex] takes away: those that START at the vertex number
    [lid] of ANOTHER label and lead to the label, and those that END at number [lid]. *)
Definition taken (v lid ts : Z) (i j : Z) (e : aedge) : bool :=
  ((j =? v) && (ae_src e =? lid) && (ae_ts e <=? ts)) || ((i =? v) && (ae_dst e =? lid) && (ae_ts e <=? ts)).

(** C18: [DeleteVertex] makes the vertex invisible, but it exchanges the two directions: of
    the edges that lead to the label of the vertex it takes away those whose source
    has the number of the vertex in its own label, and of the edges that leave the
    label those whose destination has this number.  An edge at the deleted vertex stays
    if its other end has another number, and edges of other vertices go. *)
Theorem delete_vertex_wrong_ends g ns E v lid ts vt ty w a : graph_ok g -> graph_holds g ns E -> live_number (schema_ g) v -> 0 <= lid -> is_time ts = true ->
  (forall i, live_number (schema_ g) i -> lid < ns i) -> vget (vertex_tables_ g) v = Some vt -> vt_rel std_hash ty w vt a ->
  wp (PropertyGraph.DeleteVertex v lid ts g) (fun r => fst r = Returned OK /\ graph_ok (snd r) /\ schema_ (snd r) = schema_ g /\
    (exists vt', vget (vertex_tables_ (snd r)) v = Some vt' /\ vt_rel std_hash ty w vt' (remove a lid ts)) /\
    exists E', graph_holds (snd r) ns E' /\
      forall i j k, live_number (schema_ g) i -> live_number (schema_ g) j -> 0 <= k <= 255 -> has_edge_label (schema_ g) i j k = true ->
        E' (generate_edge_label i j k) = kept (fun e => negb (taken v lid ts i j e)) (E (generate_edge_label i j k))).
Proof.
  intros Hg Hh Hv Hlid Hts Hns Hvt Hrel. unfold PropertyGraph.DeleteVertex. apply wp_and_then. assert (ts < INVALID_TIMESTAMP) as Hi by (unfold is_time, DELETED_TIMESTAMP, INVALID_TIMESTAMP in *; lia).
  apply (at_types_wp v _ _ (fun e => negb ((ae_src e =? lid) && (ae_ts e <=? ts))) (fun e => negb ((ae_dst e =? lid) && (ae_ts e <=? ts))) ns g E); [done..| | |].
  - intros i t Et Hl Ht. apply (et_law_delete_vertex t (ns i) (ns v) Et true lid ts); [done|split; [done|by apply Hns]|done].
  - intros i t Et Hl Ht. apply (et_law_delete_vertex t (ns v) (ns i) Et false lid ts); [done|split; [done|by apply Hns]|done].
  - intros g1 E' Hf Hh' HE. exists tt. split; [done|]. apply wp_and_then. pose proof (graph_ok_frame _ _ Hf Hg) as Hg1. destruct Hf as (Es & Ev & _).
    assert (vget (vertex_tables_ g1) v = Some vt) as Hvt1 by by rewrite Ev.
    eapply wp_mono; [apply (on_vertex_table_wp v _ g1 vt _ Hg1 Hvt1 (delete_rel_vt std_hash ty w vt a Hrel lid ts Hlid Hts))|]. intros [r g2] (vt' & Hvt' & [Hr Hrel'] & Hg2). cbn [fst snd] in *. subst r.
    exists tt. split; [done|]. apply wp_ret. cbn [fst snd]. split; [done|]. split; [rewrite Hg2; by apply graph_ok_vertex|]. split; [by rewrite Hg2|]. split; [by exists vt'|].
    exists E'. split; [by rewrite Hg2|]. intros i j k Hli Hlj Hk Hhas. rewrite HE by done. apply kept_ext. intros e. unfold taken.
    destruct (j =? v), (i =? v), (ae_src e =? lid), (ae_dst e =? lid), (ae_ts e <=? ts); done.
Qed.

(** ** The deletion of a vertex type *)

(** No type is hidden by a tombstone. *)
Definition visible_types s : Prop := forall i j k m, 0 <= i <= 255 -> 0 <= j <= 255 -> 0 <= k <= 255 -> e_schemas_ s !! generate_edge_label i j k = Some m ->
  (generate_edge_label i j k ∉ tomb_bits (elabel_triplet_tomb_ s)) /\ vget (elabel_tomb_ s) k = Some false.

Definition same_graph g g' : Prop :=
  graph_ok g' /\ visible_types (schema_ g') /\ same_labels (schema_ g) (schema_ g') /\ vertex_tables_ g' = vertex_tables_ g.

Lemma same_graph_refl g : graph_ok g -> visible_types (schema_ g) -> same_graph g g.
Proof. intros Hg Hv. split; [exact Hg|]. split; [exact Hv|]. split; [|done]. unfold same_labels. by split_and!. Qed.
Lemma same_graph_trans g1 g2 g3 : same_graph g1 g2 -> same_graph g2 g3 -> same_graph g1 g3.
Proof. intros (H1 & H2 & H3 & H4) (G1 & G2 & G3 & G4). split; [done|]. split; [done|]. split; [by eapply same_labels_trans|congruence]. Qed.

Definition without (keys : list Z) (m : gmap Z T) : gmap Z T := foldl (fun m key => delete key m) m keys.

Lemma lookup_without keys m key : without keys m !! key = if bool_decide (key ∈ keys) then None else m !! key.
Proof.
  unfold without. revert m. induction keys as [|k keys IH]; intros m; cbn [foldl]; [done|]. rewrite IH. destruct (decide (key ∈ keys)) as [Hin|Hin].
  - by rewrite !bool_decide_eq_true_2 by set_solver.
  - rewrite (bool_decide_eq_false_2 (key ∈ keys)) by done. destruct (decide (key = k)) as [->|Hne]; [rewrite bool_decide_eq_true_2 by set_solver; apply lookup_delete_eq|].
    rewrite bool_decide_eq_false_2 by set_solver. by apply lookup_delete_ne.
Qed.

(** A step that deletes the tables at [keys] and their types. *)
Definition drops (keys : list Z) (m : option (outcome unit * PropertyGraph T)) g : Prop :=
  wp m (fun r => fst r = Returned tt /\ same_graph g (snd r) /\ edge_tables_ (snd r) = without keys (edge_tables_ g)).

Lemma drops_then keys1 keys2 m (f : PropertyGraph T -> option (outcome unit * PropertyGraph T)) g : drops keys1 m g ->
  (forall g1, same_graph g g1 -> drops keys2 (f g1) g1) -> drops (keys1 ++ keys2) (and_then m (fun _ => f)) g.
Proof.
  intros Hm Hf. apply wp_and_then. eapply wp_mono; [exact Hm|]. intros [r g1] (Hr & Hs & He). exists tt. split; [done|].
  eapply wp_mono; [by apply Hf|]. intros r2 (Hr2 & Hs2 & He2). split; [done|]. split; [by eapply same_graph_trans|]. cbn [snd] in *. rewrite He2, He. unfold without. by rewrite foldl_app.
Qed.

Lemma drops_each {A} (l : list A) (keys : A -> list Z) (f : A -> PropertyGraph T -> option (outcome unit * PropertyGraph T)) g :
  graph_ok g -> visible_types (schema_ g) -> (forall x g1, x ∈ l -> same_graph g g1 -> drops (keys x) (f x g1) g1) -> drops (flat_map keys l) (each l f g) g.
Proof.
  revert g. induction l as [|x l IH]; intros g Hg Hv Hf; cbn [each flat_map]; [by apply wp_ret; split; [|split; [apply same_graph_refl|]]|].
  apply (drops_then (keys x) (flat_map keys l) (f x g) (each l f)).
  - apply Hf; [apply list_elem_of_here|by apply same_graph_refl].
  - intros g1 Hs1. pose proof Hs1 as (Hg1 & Hv1 & _). apply IH; [done|done|]. intros y g2 Hy Hs2. apply Hf; [by apply list_elem_of_further|by eapply same_graph_trans].
Qed.

Lemma drops_absent g keys : graph_ok g -> visible_types (schema_ g) -> (forall key, key ∈ keys -> edge_tables_ g !! key = None) -> drops keys (Some (Returned tt, g)) g.
Proof.
  intros Hg Hv Hk. apply wp_ret. split; [done|]. split; [by apply same_graph_refl|]. apply map_eq. intros key. cbn [snd]. rewrite lookup_without. case_bool_decide; [by apply Hk|done].
Qed.

Lemma no_table g key : graph_ok g -> e_schemas_ (schema_ g) !! key = None -> edge_tables_ g !! key = None.
Proof. intros Hg. rewrite <-(go_edges _ Hg), lookup_fmap. by destruct (edge_tables_ g !! key). Qed.

Lemma drop_edge_type_drops i j k g : graph_ok g -> visible_types (schema_ g) -> 0 <= i <= 255 -> 0 <= j <= 255 -> 0 <= k <= 255 ->
  drops [generate_edge_label i j k] (drop_edge_type i j k g) g.
Proof.
  intros Hg Hv Hi Hj Hk. pose proof (go_schema _ Hg) as Hs. unfold drop_edge_type, exist, has_edge_label. set (key := generate_edge_label i j k).
  destruct (e_schemas_ (schema_ g) !! key) as [m|] eqn:E.
  - destruct (Hv i j k m Hi Hj Hk E) as [Hb Ht]. destruct (so_edges _ Hs _ _ E) as (_ & (i' & j' & k' & Hkey & N1 & N2 & N3) & Hr).
    destruct (edge_number_inj i j k i' j' k') as (<- & <- & <-); eauto using vlabel_small, elabel_small.
    destruct (delete_edge_triplet_spec (schema_ g) _ _ _ i j k m false Hs N1 N2 N3 E) as (s1 & Hdel & Hs1 & Hsame & Hes & _ & Hbits & _ & Hetomb).
    unfold edge_triplet_valid. fold key. rewrite (proj2 (Z.ltb_lt _ _)), tomb_get_ok by lia. cbn [mbind option_bind]. rewrite bool_decide_eq_false_2 by done. rewrite bool_decide_eq_true_2 by by eexists.
    cbn [negb andb]. rewrite Hdel. cbn [mbind option_bind]. apply wp_ret. split; [done|]. split; [|done]. split; [|split; [|done]].
    + pose proof Hsame as (L1 & L2 & _). destruct Hg as [G1 G2 G3 G4 G5]. split; simpl; [done|congruence|congruence|congruence|]. by rewrite fmap_delete, G5, Hes.
    + intros a b c m1 Ha Hb' Hc. simpl. rewrite Hes. intros [Hne Hm1]%lookup_delete_Some. destruct (Hv a b c m1 Ha Hb' Hc Hm1) as [Hnb Htc].
      split; [rewrite Hbits; fold key; set_solver|]. destruct Hetomb as [->|[-> Hunused]]; [done|]. destruct (decide (c = k)) as [->|Hck].
      * exfalso. assert (e_schemas_ s1 !! generate_edge_label a b k = Some m1) as Hm1' by (rewrite Hes; by apply lookup_delete_Some). apply (Hunused _ _ Hm1').
        destruct (so_edges _ Hs _ _ Hm1) as (_ & (a' & b' & c' & Hkey' & X1 & X2 & X3) & _).
        pose proof (vlabel_small _ _ _ Hs X1). pose proof (vlabel_small _ _ _ Hs X2). pose proof (elabel_small _ _ _ Hs X3).
        destruct (edge_number_inj a b k a' b' c') as (_ & _ & <-); [done..|congruence].
      * rewrite vget_vput_ne; [done|by eapply vget_lt|done].
  - rewrite (bool_decide_eq_false_2 (is_Some None)) by by intros [? ?]. unfold edge_triplet_valid. fold key. destruct (Z.ltb_spec key (tomb_size (elabel_triplet_tomb_ (schema_ g)))).
    + pose proof (edge_number i j k Hi Hj Hk). rewrite tomb_get_ok by (unfold key; lia). cbn [mbind option_bind]. rewrite andb_false_r. apply drops_absent; [done|done|]. intros key' ->%list_elem_of_singleton. by apply no_table.
    + cbn [mbind option_bind andb]. apply drops_absent; [done|done|]. intros key' ->%list_elem_of_singleton. by apply no_table.
Qed.

Lemma elabel_known s k : schema_ok s -> 0 <= k < vlen (elabel_indexer_ s) -> exists t, vget (elabel_tomb_ s) k = Some t /\ edge_label_valid s k = Some (negb t).
Proof.
  intros Hs Hk. destruct (so_elabels _ Hs) as (_ & Ht & _). destruct (vget_is (elabel_tomb_ s) k) as [t Htt]; [lia|]. exists t. split; [done|].
  unfold edge_label_valid. rewrite (proj2 (Z.ltb_lt _ _)), Htt by lia. done.
Qed.

Definition loop_keys s (v : Z) : list Z :=
  flat_map (fun i => if is_live s i then flat_map (fun k => [generate_edge_label v i k; generate_edge_label i v k]) (seqZ 0 (vlen (elabel_indexer_ s))) else []) (seqZ 0 (vlen (vlabel_indexer_ s))).

Lemma elem_of_loop_keys s v key : key ∈ loop_keys s v <-> exists i k, 0 <= i < vlen (vlabel_indexer_ s) /\ 0 <= k < vlen (elabel_indexer_ s) /\ is_live s i = true /\
  (key = generate_edge_label v i k \/ key = generate_edge_label i v k).
Proof.
  unfold loop_keys. rewrite list_elem_of_In, in_flat_map. setoid_rewrite <-list_elem_of_In. setoid_rewrite elem_of_seqZ. split.
  - intros (i & Hi & Ha). destruct (is_live s i) eqn:El; [|by apply elem_of_nil in Ha]. apply list_elem_of_In, in_flat_map in Ha as (k & Hk & Ha). apply list_elem_of_In in Hk, Ha.
    apply elem_of_seqZ in Hk. exists i, k. split; [lia|]. split; [lia|]. split; [done|]. set_solver.
  - intros (i & k & Hi & Hk & El & Ha). exists i. split; [lia|]. rewrite El. apply list_elem_of_In, in_flat_map. exists k. split; [apply list_elem_of_In, elem_of_seqZ; lia|]. apply list_elem_of_In. set_solver.
Qed.

Lemma type_loop_drops v g : graph_ok g -> visible_types (schema_ g) -> 0 <= v <= 255 ->
  drops (loop_keys (schema_ g) v) (each_valid_vertex (fun i => each_edge_label (fun j g =>
    valid ← edge_label_valid (schema_ g) j;
    if negb valid then Some (Returned tt, g)
    else and_then (drop_edge_type v i j g) (fun _ g => drop_edge_type i v j g))) g) g.
Proof.
  intros Hg Hvis Hv. unfold each_valid_vertex, loop_keys. rewrite (go_vtotal _ Hg). destruct (so_vlabels _ (go_schema _ Hg)) as (_ & _ & Hn). destruct (so_elabels _ (go_schema _ Hg)) as (_ & _ & Hne).
  apply drops_each; [done|done|]. intros i g1 Hi%elem_of_seqZ (Hg1 & Hv1 & Hl1 & _). pose proof Hl1 as (L1 & L2 & L3 & _).
  assert (vlabel_valid (schema_ g1) i = vlabel_valid (schema_ g) i) as Ev by (unfold vlabel_valid; by rewrite L1, L3). rewrite Ev, (valid_known _ i (go_schema _ Hg)) by lia. cbn [mbind option_bind].
  destruct (is_live (schema_ g) i); [|apply drops_absent; [done|done|set_solver]]. unfold each_edge_label. rewrite (go_etotal _ Hg1), L2. apply drops_each; [done|done|].
  intros k g2 Hk%elem_of_seqZ (Hg2 & Hv2 & Hl2 & _). pose proof Hl2 as (_ & M2 & _). destruct (elabel_known (schema_ g2) k (go_schema _ Hg2)) as (t & Ht & Hval); [rewrite M2, L2; lia|].
  rewrite Hval. cbn [mbind option_bind]. destruct t; cbn [negb].
  - apply drops_absent; [done|done|]. intros key Hkey. apply no_table; [done|]. assert (key = generate_edge_label v i k \/ key = generate_edge_label i v k) as Hor by set_solver.
    destruct (e_schemas_ (schema_ g2) !! key) as [m|] eqn:E; [|done]. exfalso. destruct Hor as [->| ->]; apply Hv2 in E as [_ E]; try lia; congruence.
  - apply (drops_then [_] [_]); [apply drop_edge_type_drops; (done || lia)|]. intros g3 (Hg3 & Hv3 & _). apply drop_edge_type_drops; (done || lia).
Qed.

(** The types from a label to itself, when nothing is hidden. *)
Lemma etype_loop s v name edge m : labels_ok (vlabel_indexer_ s) (vlabel_tomb_ s) -> labels_ok (elabel_indexer_ s) (elabel_tomb_ s) -> visible_types s ->
  vget (vlabel_indexer_ s) v = Some name -> vget (vlabel_tomb_ s) v = Some false ->
  etype s name name edge = Some m <-> exists k, vget (elabel_indexer_ s) k = Some edge /\ e_schemas_ s !! generate_edge_label v v k = Some m.
Proof.
  intros (Hd & _ & Hn) (Hde & _ & Hne) Hvis Hname Htomb. assert (live_vlabel s name = Some v) as Hlive by by apply live_id_iff. rewrite etype_iff, Hlive. split.
  - intros (i & j & k & [= <-] & [= <-] & Hk & _ & Hm). exists k. by apply live_id_iff in Hk as [Hk _].
  - intros (k & Hk & Hm). pose proof (vget_lt _ _ _ Hk). pose proof (vget_lt _ _ _ Hname). destruct (Hvis v v k m ltac:(lia) ltac:(lia) ltac:(lia) Hm) as [Hb Ht].
    exists v, v, k. split_and!; try done. by apply live_id_iff.
Qed.

Lemma live_after_delete s v i l : i <> v -> 0 <= v < vlen (vlabel_tomb_ s) -> vlabel_valid (set_vlabel_tomb (vput (vlabel_tomb_ s) v true) (set_v_schemas l s)) i = vlabel_valid s i.
Proof. intros Hne Hr. unfold vlabel_valid. cbn [vlabel_indexer_ vlabel_tomb_ set_vlabel_tomb set_v_schemas]. by rewrite vget_vput_ne. Qed.

(** C40: A deleted vertex type: the edge types between the type and itself stay in the
    schema with their tables, because the loop passes over the labels that are not
    deleted and the type is deleted before.  All other edge types at it are gone.  As
    soon as a vertex type of this name is created again, the old edge types and the
    edges of vertices that are no more are seen again. *)
Theorem loops_return g v name vt : graph_ok g -> visible_types (schema_ g) -> live_number (schema_ g) v -> vget (vlabel_indexer_ (schema_ g)) v = Some name ->
  vget (vertex_tables_ g) v = Some vt -> is_dropped vt = false ->
  wp (DeleteVertexType v g) (fun r => fst r = Returned OK /\ graph_ok (snd r) /\ vtype (schema_ (snd r)) name = None /\
    (forall i k, live_number (schema_ g) i -> i <> v -> 0 <= k < vlen (elabel_indexer_ (schema_ g)) ->
       edge_tables_ (snd r) !! generate_edge_label v i k = None /\ edge_tables_ (snd r) !! generate_edge_label i v k = None) /\
    (forall k, 0 <= k <= 255 -> edge_tables_ (snd r) !! generate_edge_label v v k = edge_tables_ g !! generate_edge_label v v k) /\
    forall types names pk ds m, new_vertex_schema name types names pk ds = Returned m ->
      exists s, AddVertexLabel (schema_ (snd r)) name types names pk ds = Some (Returned tt, s) /\ forall edge, etype s name name edge = etype (schema_ g) name name edge).
Proof.
  intros Hg Hvis Hlive Hname Hvt Hdrop. pose proof (go_schema _ Hg) as Hs. pose proof (live_range _ _ Hlive) as Hr. pose proof (live_small _ _ Hs Hlive) as Hr8.
  destruct (so_vlabels _ Hs) as (Hd & Ht & Hn). destruct (vlabel_at _ Hs v Hr) as (name' & m0 & _ & Hm0 & _). set (s0 := set_vlabel_tomb (vput (vlabel_tomb_ (schema_ g)) v true) (set_v_schemas (vput (v_schemas_ (schema_ g)) v (Some (vertex_clear m0))) (schema_ g))).
  pose proof (delete_vertex_label_ok (schema_ g) v false Hs Hr) as Hs0. unfold DeleteVertexType. rewrite (delete_vertex_label_is (schema_ g) v m0 false Hs Hm0) in *. cbn [mbind option_bind] in *. fold s0 in Hs0 |- *.
  assert (graph_ok (with_schema s0 g)) as Hg0 by (destruct Hg as [G1 G2 G3 G4 G5]; by split). apply wp_and_then. unfold is_dropped in Hdrop. destruct (VertexTable.table_ vt) as [tb|] eqn:Etb; [|done].
  eapply wp_mono; [apply (on_vertex_table_wp v _ (with_schema s0 g) vt (fun r => fst r = Returned tt) Hg0 Hvt); unfold silent, Drop; by rewrite Etb|]. intros [r g1] (vt1 & Hvt1 & Hr1 & Hg1). cbn [fst snd] in *. subst r.
  exists tt. split; [done|]. assert (graph_ok g1) as Hok1 by (rewrite Hg1; by apply graph_ok_vertex). assert (schema_ g1 = s0) as Es1 by by rewrite Hg1. assert (edge_tables_ g1 = edge_tables_ g) as Ee1 by by rewrite Hg1.
  assert (visible_types (schema_ g1)) as Hvis1 by (rewrite Es1; exact Hvis). apply wp_and_then. eapply wp_mono; [by apply (type_loop_drops v g1)|]. intros [r g2] (Hr2 & (Hg2 & Hv2 & Hl2 & _) & He2). cbn [fst snd] in *. subst r.
  exists tt. split; [done|]. apply wp_ret. cbn [fst snd]. rewrite Ee1, Es1 in *. pose proof Hl2 as (L1 & L2 & L3 & L4). cbn [s0 vlabel_indexer_ elabel_indexer_ vlabel_tomb_ v_schemas_ set_vlabel_tomb set_v_schemas] in L1, L2, L3, L4.
  assert (is_live s0 v = false) as Hdead. { unfold is_live, vlabel_valid. cbn [s0 vlabel_indexer_ vlabel_tomb_ set_vlabel_tomb set_v_schemas]. rewrite (proj2 (Z.ltb_lt _ _)) by lia. by rewrite vget_vput_eq by lia. }
  assert (forall k, 0 <= k <= 255 -> edge_tables_ g2 !! generate_edge_label v v k = edge_tables_ g !! generate_edge_label v v k) as Hloop.
  { intros k Hk. rewrite He2, lookup_without, bool_decide_eq_false_2; [done|]. intros (i & k' & Hi & Hk' & Hil & Hkey)%elem_of_loop_keys. destruct (so_elabels _ Hs) as (_ & _ & Hne). cbn [s0 vlabel_indexer_ elabel_indexer_ set_vlabel_tomb set_v_schemas] in Hi, Hk'.
    destruct Hkey as [Hkey|Hkey]; apply edge_number_inj in Hkey as (? & ? & ?); try lia; subst i; congruence. }
  split; [done|]. split; [done|]. split; [|split; [|split; [exact Hloop|]]].
  - destruct (vtype (schema_ g2) name) as [m|] eqn:E; [|done]. exfalso. apply vtype_iff in E as (i & Hi & Hti & _); [|by apply go_schema]. rewrite L1 in Hi. rewrite L3 in Hti.
    assert (i = v) as -> by (apply find_name_iff in Hi, Hname; [congruence|done..]). rewrite vget_vput_eq in Hti by lia. done.
  - intros i k Hi Hne Hk. pose proof (live_range _ _ Hi) as Hri. assert (is_live s0 i = true) as Hil by (unfold is_live, s0; rewrite live_after_delete by (done || lia); by rewrite Hi).
    rewrite He2, !lookup_without. rewrite !bool_decide_eq_true_2; [done|apply elem_of_loop_keys; exists i, k; split; [exact Hri|split; [exact Hk|split; [done|by right]]]|
      apply elem_of_loop_keys; exists i, k; split; [exact Hri|split; [exact Hk|split; [done|by left]]]].
  - intros types names pk ds m Hm. pose proof (go_schema _ Hg2) as Hs2. assert (find_name (vlabel_indexer_ (schema_ g2)) name = Some v) as Hfind by (rewrite L1; by apply find_name_iff).
    eexists. split; [apply (AddVertexLabel_spec (schema_ g2) name types names pk ds m Hs2); [left; rewrite L1; by eapply vget_elem|exact Hm]|]. intros edge. rewrite Hfind. apply option_eq. intros m1.
    rewrite (etype_loop (schema_ g) v); [|apply Hs|apply Hs|done|done|].
    2: { revert Hlive. unfold live_number, vlabel_valid. rewrite (proj2 (Z.ltb_lt _ _)) by lia. by destruct (vget (vlabel_tomb_ (schema_ g)) v) as [[]|]. }
    assert (forall k, 0 <= k <= 255 -> e_schemas_ (schema_ g2) !! generate_edge_label v v k = e_schemas_ (schema_ g) !! generate_edge_label v v k) as Hes.
    { intros k Hk. rewrite <-(go_edges _ Hg2), <-(go_edges _ Hg), !lookup_fmap. by rewrite Hloop. }
    rewrite (etype_loop _ v); simpl; [| |apply Hs2|exact Hv2|by rewrite L1|rewrite vget_vput_eq; [done|rewrite L3, vput_len; lia]].
    + rewrite L2. split; intros (k & Hk & Hm1); exists k; (split; [done|]); pose proof (elabel_small _ _ _ Hs Hk); rewrite Hes in *; done.
    + destruct (so_vlabels _ Hs2) as (X1 & X2 & X3). by split_and!; rewrite ?vput_len.
Qed.
End deletion.
