(* ===== verification/GraphCompact.v ===== *)
(** * Compaction of a graph

    [graph_compaction]: [compact_schema] of a graph moves every table to the new
    number of its label or type, so that under its name it is the table it was. *)
From stdpp Require Import strings gmap.
From S2P Require Import Prelude Storage Aggregate Bitset VertexTimestamp Property Column IdIndexer Table TableTheorems EdgeSchema VertexSchema SchemaOps SchemaInvariant SchemaTheorems.
From S2P Require Import VertexTable EdgeSpec EdgeInterface PropertyGraph GraphTheorems.
#[local] Open Scope Z_scope.

(** ** Labels with what belongs to them *)

Lemma live_labels_names {A B} (names : list string) (xs : list A) (ys : list B) tomb l k : vlen xs = vlen ys ->
  live_labels names xs tomb = Some l -> live_labels names ys tomb = Some k -> map fst l = map fst k.
Proof.
  revert xs ys tomb l k. induction names as [|name names IH]; intros [|x xs] [|y ys] tomb l k Hl; try done; cbn [live_labels]; try by intros [= <-] [= <-].
  - by destruct tomb.
  - destruct tomb as [|t tomb]; [done|]. assert (vlen xs = vlen ys) as Hl' by (unfold vlen in *; simpl in Hl; lia).
    destruct (live_labels names xs tomb) as [l1|] eqn:E1; [|done]. destruct (live_labels names ys tomb) as [k1|] eqn:E2; [|done]. cbn [mbind option_bind]. intros [= <-] [= <-].
    pose proof (IH _ _ _ _ _ Hl' E1 E2) as He. by destruct t; cbn [map fst]; f_equal.
Qed.

Lemma live_labels_drop {A} (names : list string) (xs : list A) tomb (i : nat) name x t :
  vget names (Z.of_nat i) = Some name -> vget xs (Z.of_nat i) = Some x -> vget tomb (Z.of_nat i) = Some t ->
  live_labels (drop i names) (drop i xs) (drop i tomb) =
    (l ← live_labels (drop (S i) names) (drop (S i) xs) (drop (S i) tomb); Some (if t : bool then l else (name, x) :: l)).
Proof.
  intros [_ Hn]%vget_iff [_ Hx]%vget_iff [_ Ht]%vget_iff. rewrite Nat2Z.id in *. by rewrite (drop_S _ _ _ Hn), (drop_S _ _ _ Hx), (drop_S _ _ _ Ht).
Qed.

Section compaction.
Context {T : Type} `{!EdgeTableOps T, !EdgeTableModel T, !EdgeTableLaws T}.
Implicit Types g : PropertyGraph T.

(** The table of a name. *)
Definition vtable_of g (label : string) : option VertexTable := i ← live_vlabel (schema_ g) label; vget (vertex_tables_ g) i.
Definition etable_of g : string -> string -> string -> option T := look (schema_ g) (edge_tables_ g).

(** Fresh tables can be made: they stand where the old ones were. *)
Record can_move g : Prop := {
  cm_vertex i m : live_number (schema_ g) i -> vget (v_schemas_ (schema_ g)) i = Some (Some m) ->
    vlen (primary_keys m) = 1 /\ exists t, new_vertex_table m = Some (Returned t);
  cm_edge key m : e_schemas_ (schema_ g) !! key = Some m -> exists t, et_new m = Returned t
}.

Section run.
Context (g : PropertyGraph T) (Hg : graph_ok g) (Hm : can_move g).
Context (vs : list (string * option VertexSchema)) (es : list (string * string)) (types : gmap Z EdgeSchema) (largest : Z).
Let s : SchemaState := schema_ g.
Let s' : SchemaState := compacted vs es types largest.
Context (Hc : compacts s vs es types largest).

Lemma schema_fine : schema_ok s. Proof. apply (go_schema _ Hg). Qed.
Lemma new_fine : schema_ok s'. Proof. by apply (compacts_ok s); [apply schema_fine|]. Qed.
Lemma vlabels_kept : kept (vlabel_indexer_ s) (vlabel_tomb_ s) (map fst vs).
Proof. by apply (kept_vlabels s schema_fine vs); [apply (cs_sub _ _ _ _ _ Hc)|apply (cs_vertices _ _ _ _ _ Hc)]. Qed.

Lemma live_found i name : vget (vlabel_indexer_ s) i = Some name -> vget (vlabel_tomb_ s) i = Some false -> exists id, find_name (map fst vs) name = Some id.
Proof.
  intros Hn Ht. destruct (so_vlabels _ schema_fine) as (Hd & _). apply (proj2 (kept_find _ _ _ name Hd vlabels_kept)). exists i. by apply live_id_iff.
Qed.

Lemma live_number_iff i : live_number s i <-> vget (vlabel_tomb_ s) i = Some false.
Proof.
  destruct (so_vlabels _ schema_fine) as (_ & Ht & _). unfold live_number, vlabel_valid. destruct (Z.ltb_spec i (vlen (vlabel_indexer_ s))).
  - destruct (vget (vlabel_tomb_ s) i) as [[]|]; split; done.
  - split; [done|]. intros H1%vget_lt. lia.
Qed.

(** The new type of a label is the old one. *)
Lemma moved_type i name m : vget (vlabel_indexer_ s) i = Some name -> vget (v_schemas_ s) i = Some (Some m) -> vget (vlabel_tomb_ s) i = Some false ->
  exists id, vlabel_id_internal s' name = Returned id /\ vget (v_schemas_ s') id = Some (Some m).
Proof.
  intros Hn Hmi Ht. destruct (live_found i name Hn Ht) as [id Hid]. exists id. unfold vlabel_id_internal. cbn [s' compacted vlabel_indexer_ v_schemas_]. rewrite Hid. split; [done|].
  destruct (so_vlabels _ new_fine) as (Hd & _). apply (pairs_at vs id name); [done| |by apply find_name_inv]. apply (cs_vertices _ _ _ _ _ Hc). by exists i.
Qed.

(** *** Vertex tables *)

Definition vertex_part (tv : list (string * VertexTable)) (rest : list Z) (st : PropertyGraph T * list VertexTable) : Prop :=
  exists i : nat, rest = seqZ (Z.of_nat i) (vlen (vlabel_indexer_ s) - Z.of_nat i) /\ Z.of_nat i <= vlen (vlabel_indexer_ s) /\ schema_ (fst st) = s /\ edge_tables_ (fst st) = edge_tables_ g /\
    edge_label_total_count_ (fst st) = edge_label_total_count_ g /\ vertex_label_total_count_ (fst st) = vertex_label_total_count_ g /\
    vlen (vertex_tables_ (fst st)) = vlen (vertex_tables_ g) /\ (forall j, Z.of_nat i <= j -> vget (vertex_tables_ (fst st)) j = vget (vertex_tables_ g) j) /\
    exists tl, live_labels (drop i (vlabel_indexer_ s)) (drop i (vertex_tables_ g)) (drop i (vlabel_tomb_ s)) = Some tl /\ snd st ++ map snd tl = map snd tv.

Lemma move_vertex_step tv i rest st : vertex_part tv (i :: rest) st -> wp (move_vertex_table s' i st) (fun r => fst r = Returned tt /\ vertex_part tv rest (snd r)).
Proof.
  intros (n & Hrest & Hn & Es & Ee & Ect & Evt & Hlen & Hsame & tl & Htl & Hacc). destruct st as [g1 acc]. cbn [fst snd] in *.
  assert (Z.of_nat n < vlen (vlabel_indexer_ s)) as Hlt. { destruct (decide (vlen (vlabel_indexer_ s) - Z.of_nat n <= 0)) as [Hle|]; [|lia]. by rewrite seqZ_nil in Hrest. }
  rewrite seqZ_cons in Hrest by lia. injection Hrest as -> Hrest. pose proof schema_fine as Hs. destruct (so_vlabels _ Hs) as (_ & Ht & _). pose proof (go_vertices _ Hg) as Hv.
  destruct (vlabel_at s Hs (Z.of_nat n) ltac:(lia)) as (name & m & Hname & Hmi & _). destruct (vget_is (vertex_tables_ g) (Z.of_nat n)) as [vt Hvt]; [rewrite Hv; fold s; lia|]. destruct (vget_is (vlabel_tomb_ s) (Z.of_nat n)) as [t Htt]; [lia|].
  rewrite (live_labels_drop _ _ _ n name vt t Hname Hvt Htt) in Htl. destruct (live_labels (drop (S n) _) _ _) as [tl1|] eqn:E1; [|done]. cbn [mbind option_bind] in Htl. injection Htl as <-.
  assert (forall g2 acc2, schema_ g2 = s -> edge_tables_ g2 = edge_tables_ g -> edge_label_total_count_ g2 = edge_label_total_count_ g -> vertex_label_total_count_ g2 = vertex_label_total_count_ g ->
    vlen (vertex_tables_ g2) = vlen (vertex_tables_ g) -> (forall j, Z.of_nat (S n) <= j -> vget (vertex_tables_ g2) j = vget (vertex_tables_ g) j) -> acc2 ++ map snd tl1 = map snd tv -> vertex_part tv rest (g2, acc2)) as Hdone.
  { intros g2 acc2 H1 H2 H3 H4 H5 H6 H7. exists (S n). cbn [fst snd]. split; [rewrite Hrest; f_equal; lia|]. split; [lia|]. do 6 (split; [done|]). exists tl1. by split. }
  unfold move_vertex_table. rewrite Es. unfold vlabel_valid. rewrite (proj2 (Z.ltb_lt _ _)), Htt by lia. cbn [mbind option_bind]. destruct t; cbn [negb].
  - apply wp_ret. split; [done|]. apply Hdone; try done. intros j Hj. apply Hsame. lia.
  - destruct (cm_vertex _ Hm (Z.of_nat n) m) as (Hpk & fresh & Hfresh); [by apply live_number_iff|done|]. destruct (moved_type (Z.of_nat n) name m Hname Hmi Htt) as (id & Hid & Hnew).
    unfold vertex_label_name. rewrite Htt. cbn [mbind option_bind]. rewrite Hname. cbn [obind mbind option_bind]. rewrite Hid, Hnew. cbn [mbind option_bind]. rewrite Hfresh. cbn [mbind option_bind].
    rewrite (Hsame (Z.of_nat n)) by lia. rewrite Hvt. cbn [mbind option_bind]. rewrite vset_is by (rewrite Hlen, Hv; fold s; lia). cbn [mbind option_bind]. unfold vertex_schema_of. rewrite Es, Hmi. cbn [mbind option_bind].
    unfold SetVertexSchema. rewrite Hpk. unfold is_pk_same. rewrite bool_decide_eq_true_2 by done. cbn [negb Z.eqb Pos.eqb]. apply wp_ret. cbn [fst snd]. split; [done|]. apply Hdone; simpl; try done.
    + by rewrite vput_len.
    + intros j Hj. rewrite vget_vput_ne; [apply Hsame; lia|rewrite Hlen, Hv; fold s; lia|lia].
    + rewrite <-app_assoc. exact Hacc.
Qed.

(** *** Edge tables *)

Definition type_index (x : Z * Z * Z) : Z := let '(i, j, k) := x in generate_edge_label i j k.

(** The new number of a type, if it stays. *)
Definition new_index (key : Z) : option Z := m ← e_schemas_ s !! key; new_number s (map fst vs) (map fst es) key m.

Lemma valid_from_tomb i t : vget (vlabel_tomb_ s) i = Some t -> vlabel_valid s i = Some (negb t).
Proof.
  intros Ht. destruct (so_vlabels _ schema_fine) as (_ & Hl & _). pose proof (vget_lt _ _ _ Ht). unfold vlabel_valid. rewrite (proj2 (Z.ltb_lt _ _)) by lia. by rewrite Ht.
Qed.
Lemma evalid_from_tomb i t : vget (elabel_tomb_ s) i = Some t -> edge_label_valid s i = Some (negb t).
Proof.
  intros Ht. destruct (so_elabels _ schema_fine) as (_ & Hl & _). pose proof (vget_lt _ _ _ Ht). unfold edge_label_valid. rewrite (proj2 (Z.ltb_lt _ _)) by lia. by rewrite Ht.
Qed.

(** The numbers of a type that stays, and its type there. *)
Definition moves (x : Z * Z * Z) (n : Z) (m : EdgeSchema) : Prop :=
  let '(i, j, k) := x in exists i' j' k', n = generate_edge_label i' j' k' /\ new_triplet s s' i j k = Some (Returned (Some (i', j', k'))) /\ edge_type_at s' i' j' k' = Returned m.

Lemma exist_of_type i j k : 0 <= i <= 255 -> 0 <= j <= 255 -> 0 <= k <= 255 ->
  exist s i j k = Some (match e_schemas_ s !! generate_edge_label i j k with None => false | Some _ => negb (bool_decide (generate_edge_label i j k ∈ tomb_bits (elabel_triplet_tomb_ s))) end).
Proof.
  intros Hi Hj Hk. pose proof (edge_number i j k Hi Hj Hk) as Hpos. unfold exist, edge_triplet_valid, has_edge_label. cbv zeta. destruct (e_schemas_ s !! generate_edge_label i j k) as [m|] eqn:E.
  - destruct (so_edges _ schema_fine _ _ E) as (_ & _ & Hr). rewrite (proj2 (Z.ltb_lt _ _)), tomb_get_ok by lia. cbn [mbind option_bind]. rewrite (bool_decide_eq_true_2 (is_Some _)) by by eexists. by rewrite andb_true_r.
  - rewrite (bool_decide_eq_false_2 (is_Some None)) by by intros [? ?]. destruct (Z.ltb_spec (generate_edge_label i j k) (tomb_size (elabel_triplet_tomb_ s))).
    + rewrite tomb_get_ok by lia. cbn [mbind option_bind]. by rewrite andb_false_r.
    + done.
Qed.

Lemma new_triplet_spec i j k : 0 <= i < vlen (vlabel_indexer_ s) -> 0 <= j < vlen (vlabel_indexer_ s) -> 0 <= k < vlen (elabel_indexer_ s) ->
  match new_index (generate_edge_label i j k) with
  | None => new_triplet s s' i j k = Some (Returned None)
  | Some n => exists m, e_schemas_ s !! generate_edge_label i j k = Some m /\ moves (i, j, k) n m
  end.
Proof.
  intros Hi Hj Hk. pose proof schema_fine as Hs. destruct (so_vlabels _ Hs) as (_ & Ht & Hn). destruct (so_elabels _ Hs) as (_ & Hte & Hne). pose proof vlabels_kept as Hvl. pose proof (cs_edges _ _ _ _ _ Hc) as Hel.
  unfold new_index. set (key := generate_edge_label i j k). destruct (vget_is (vlabel_tomb_ s) i) as [t1 T1]; [lia|]. destruct (vget_is (vlabel_tomb_ s) j) as [t2 T2]; [lia|]. destruct (vget_is (elabel_tomb_ s) k) as [t3 T3]; [lia|].
  unfold moves, new_triplet. rewrite (valid_from_tomb i t1 T1), (valid_from_tomb j t2 T2), (evalid_from_tomb k t3 T3), exist_of_type by lia. cbn [mbind option_bind]. fold key.
  destruct (e_schemas_ s !! key) as [m|] eqn:E; cbn [mbind option_bind]; [|by destruct t1, t2, t3].
  destruct (so_edges _ Hs _ _ E) as (_ & (i' & j' & k' & Hkey & N1 & N2 & N3) & _). destruct (edge_number_inj i j k i' j' k') as (<- & <- & <-); try done; try lia; eauto using vlabel_small, elabel_small.
  unfold new_number. case_bool_decide as Hb; [by destruct t1, t2, t3|].
  destruct (dead_find _ _ _ _ i (so_vlabels _ Hs) Hvl N1) as [[D1 ->]|[D1 [i1 F1]]]; rewrite D1 in T1; injection T1 as <-; cbn [mbind option_bind negb]; [done|]. rewrite F1. cbn [mbind option_bind].
  destruct (dead_find _ _ _ _ j (so_vlabels _ Hs) Hvl N2) as [[D2 ->]|[D2 [j1 F2]]]; rewrite D2 in T2; injection T2 as <-; cbn [mbind option_bind negb]; [done|]. rewrite F2. cbn [mbind option_bind].
  destruct (dead_find _ _ _ _ k (so_elabels _ Hs) Hel N3) as [[D3 ->]|[D3 [k1 F3]]]; rewrite D3 in T3; injection T3 as <-; cbn [mbind option_bind negb]; [done|]. rewrite F3. cbn [mbind option_bind].
  exists m. split; [done|]. exists i1, j1, k1. split; [done|]. split.
  - unfold vertex_label_name, edge_label_name_of. rewrite D1, D2, (evalid_from_tomb k false D3). cbn [mbind option_bind negb]. rewrite N1, N2, N3. cbn [obind mbind option_bind].
    unfold vlabel_id_internal, elabel_id_internal. cbn [s' compacted vlabel_indexer_ elabel_indexer_]. by rewrite F1, F2, F3.
  - unfold edge_type_at. cbn [s' compacted e_schemas_]. rewrite (proj2 (cs_types _ _ _ _ _ Hc (generate_edge_label i1 j1 k1) m)); [done|]. exists key. split; [done|].
    unfold new_number. rewrite bool_decide_eq_false_2 by done. by rewrite F1, F2, F3.
Qed.

Lemma new_index_inj key1 key2 n : new_index key1 = Some n -> new_index key2 = Some n -> key1 = key2.
Proof.
  unfold new_index. destruct (e_schemas_ s !! key1) as [m1|] eqn:E1; [|done]. destruct (e_schemas_ s !! key2) as [m2|] eqn:E2; [|done]. cbn [mbind option_bind].
  intros H1 H2. by apply (new_number_inj s schema_fine _ _ vlabels_kept (cs_edges _ _ _ _ _ Hc) key1 key2 m1 m2 n).
Qed.

Lemma elem_of_type_keys (g1 : PropertyGraph T) i j k : (i, j, k) ∈ type_keys g1 <-> 0 <= i < vertex_label_total_count_ g1 /\ 0 <= j < vertex_label_total_count_ g1 /\ 0 <= k < edge_label_total_count_ g1.
Proof.
  unfold type_keys. rewrite list_elem_of_bind. setoid_rewrite list_elem_of_bind. setoid_rewrite list_elem_of_bind. setoid_rewrite list_elem_of_singleton. setoid_rewrite elem_of_seqZ. split.
  - intros (i' & (j' & (k' & [= -> -> ->] & Hk) & Hj) & Hi). lia.
  - intros (Hi & Hj & Hk). exists i. split; [|lia]. exists j. split; [|lia]. exists k. split; [done|lia].
Qed.

Lemma type_keys_NoDup (g1 : PropertyGraph T) : NoDup (type_keys g1).
Proof.
  unfold type_keys. apply NoDup_bind; [| |apply NoDup_seqZ].
  - intros i1 i2 [[a b] c] _ _ (j1 & (k1 & [= -> -> ->]%list_elem_of_singleton & _)%list_elem_of_bind & _)%list_elem_of_bind (j2 & (k2 & [= -> _ _]%list_elem_of_singleton & _)%list_elem_of_bind & _)%list_elem_of_bind. done.
  - intros i _. apply NoDup_bind; [| |apply NoDup_seqZ].
    + intros j1 j2 [[a b] c] _ _ (k1 & [= -> -> ->]%list_elem_of_singleton & _)%list_elem_of_bind (k2 & [= -> _]%list_elem_of_singleton & _)%list_elem_of_bind. done.
    + intros j _. apply NoDup_bind; [| |apply NoDup_seqZ]; [|intros k _; apply NoDup_singleton].
      intros k1 k2 x _ _ ->%list_elem_of_singleton [= ->]%list_elem_of_singleton. done.
Qed.

(** What is left to move, and what was moved. *)
Definition edge_part (rest : list (Z * Z * Z)) (st : PropertyGraph T * gmap Z T) : Prop :=
  exists moved, type_keys g = moved ++ rest /\ schema_ (fst st) = s /\
    (forall x, x ∈ rest -> edge_tables_ (fst st) !! type_index x = edge_tables_ g !! type_index x) /\
    (forall n t, snd st !! n = Some t <-> exists x, x ∈ moved /\ edge_tables_ g !! type_index x = Some t /\ new_index (type_index x) = Some n).

Lemma type_keys_of i j k : (i, j, k) ∈ type_keys g <-> 0 <= i < vlen (vlabel_indexer_ s) /\ 0 <= j < vlen (vlabel_indexer_ s) /\ 0 <= k < vlen (elabel_indexer_ s).
Proof. rewrite elem_of_type_keys. by rewrite (go_vtotal _ Hg), (go_etotal _ Hg). Qed.

Lemma type_index_inj x y : x ∈ type_keys g -> y ∈ type_keys g -> type_index x = type_index y -> x = y.
Proof.
  destruct x as [[i j] k], y as [[i' j'] k']. intros (Hi & Hj & Hk)%type_keys_of (Hi' & Hj' & Hk')%type_keys_of He.
  destruct (so_vlabels _ schema_fine) as (_ & _ & Hn). destruct (so_elabels _ schema_fine) as (_ & _ & Hne). by destruct (edge_number_inj i j k i' j' k') as (-> & -> & ->); try lia.
Qed.

Lemma table_of_type key m : e_schemas_ s !! key = Some m -> exists t, edge_tables_ g !! key = Some t /\ et_meta t = m.
Proof. intros Hk. apply lookup_meta. by rewrite (go_edges _ Hg). Qed.

Lemma move_edge_step x rest st : edge_part (x :: rest) st -> wp (move_edge_table s' x st) (fun r => fst r = Returned tt /\ edge_part rest (snd r)).
Proof.
  intros (moved & Hkeys & Es & Hsame & Hacc). destruct st as [g2 acc]. cbn [fst snd] in *. pose proof (type_keys_NoDup g) as Hnd. rewrite Hkeys in Hnd. apply NoDup_app in Hnd as (_ & Hdis & Hnd).
  apply NoDup_cons in Hnd as [Hnx _]. assert (x ∈ type_keys g) as Hx by (rewrite Hkeys; set_solver).
  assert (forall y, y ∈ moved \/ y ∈ rest -> y <> x /\ y ∈ type_keys g) as Hother. { intros y Hy. split; [|rewrite Hkeys; set_solver]. intros ->. destruct Hy as [Hy|Hy]; [|done]. by apply (Hdis x Hy), list_elem_of_here. }
  assert (forall acc' : gmap Z T, (forall n t, acc' !! n = Some t <-> acc !! n = Some t \/ edge_tables_ g !! type_index x = Some t /\ new_index (type_index x) = Some n) ->
    forall n t, acc' !! n = Some t <-> exists y, y ∈ moved ++ [x] /\ edge_tables_ g !! type_index y = Some t /\ new_index (type_index y) = Some n) as Hadd.
  { intros acc' Ha n t. rewrite Ha, Hacc. split.
    - intros [(y & Hy & H1 & H2)|[H1 H2]]; [exists y|exists x]; set_solver.
    - intros (y & [Hy|Hy%list_elem_of_singleton]%elem_of_app & H1 & H2); [left; by exists y|right; subst y; done]. }
  assert (moved ++ x :: rest = (moved ++ [x]) ++ rest) as Happ by by rewrite <-app_assoc. pose proof Hx as Hr. destruct x as [[i j] k]. apply type_keys_of in Hr as (Hi & Hj & Hk).
  pose proof (new_triplet_spec i j k Hi Hj Hk) as Hnew. unfold move_edge_table. rewrite Es. cbn [type_index] in *. destruct (new_index (generate_edge_label i j k)) as [n|] eqn:En.
  - destruct Hnew as (m & Em & i' & j' & k' & -> & -> & Hat). cbn [mbind option_bind]. rewrite Hat. destruct (cm_edge _ Hm _ _ Em) as [fresh ->]. destruct (table_of_type _ _ Em) as (t & Et & Hmeta).
    pose proof (Hsame (i, j, k) (list_elem_of_here _ _)) as Hold. cbn [type_index] in Hold. rewrite Hold, Et. apply wp_ret. split; [done|]. exists (moved ++ [(i, j, k)]). cbn [fst snd]. rewrite Hkeys. split; [done|]. split; [done|].
    rewrite <-Hmeta, et_law_schema. split.
    + intros y Hy. cbn [edge_tables_ with_edge_tables]. destruct (Hother y (or_intror Hy)) as [Hne Hyk]. rewrite lookup_insert_ne; [apply Hsame; by apply list_elem_of_further|].
      intros He. by apply Hne, (type_index_inj y (i, j, k)).
    + apply Hadd. intros n t'. rewrite lookup_insert_Some. rewrite Et. split; [intros [[<- <-]|[_ H]]; [by right|by left]|]. intros [H|[[= <-] [= <-]]]; [|by left]. right. split; [|done].
      intros <-. apply Hacc in H as (y & Hy & _ & Hyn). destruct (Hother y (or_introl Hy)) as [Hne Hyk]. apply Hne, (type_index_inj y (i, j, k)); [done|done|]. by apply (new_index_inj _ _ (generate_edge_label i' j' k')).
  - rewrite Hnew. cbn [mbind option_bind]. apply wp_ret. split; [done|]. exists (moved ++ [(i, j, k)]). cbn [fst snd]. rewrite Hkeys. split; [done|]. split; [done|]. split.
    + intros y Hy. apply Hsame. by apply list_elem_of_further.
    + apply Hadd. intros n t'. naive_solver.
Qed.

(** *** The whole run *)

Context (tv : list (string * VertexTable)) (Htv : live_labels (vlabel_indexer_ s) (vertex_tables_ g) (vlabel_tomb_ s) = Some tv)
  (Htv_iff : forall name x, (name, x) ∈ tv <-> exists i, vget (vlabel_indexer_ s) i = Some name /\ vget (vertex_tables_ g) i = Some x /\ vget (vlabel_tomb_ s) i = Some false).
Context (acc : gmap Z T) (Hacc : forall n t, acc !! n = Some t <-> exists x, x ∈ type_keys g /\ edge_tables_ g !! type_index x = Some t /\ new_index (type_index x) = Some n).

Definition moved_graph : PropertyGraph T := with_edge_total (with_vertex_total (MkGraph s' (map snd tv) acc 0 0)).

Lemma tv_names : map fst tv = map fst vs.
Proof.
  apply (live_labels_names (vlabel_indexer_ s) (vertex_tables_ g) (v_schemas_ s) (vlabel_tomb_ s)); [|done|apply (cs_labels _ _ _ _ _ Hc)].
  destruct (so_types _ schema_fine) as [-> _]. apply (go_vertices _ Hg).
Qed.

Lemma all_types_moved n t : acc !! n = Some t <-> exists key, edge_tables_ g !! key = Some t /\ new_index key = Some n.
Proof.
  rewrite Hacc. split; [intros (x & _ & H); by exists (type_index x)|]. intros (key & Ht & Hn). unfold new_index in Hn. destruct (e_schemas_ s !! key) as [m|] eqn:E; [|done].
  destruct (so_edges _ schema_fine _ _ E) as (_ & (i & j & k & -> & N1%vget_lt & N2%vget_lt & N3%vget_lt) & _). exists (i, j, k). split; [by apply type_keys_of|]. split; [done|].
  unfold new_index. cbn [type_index]. by rewrite E.
Qed.

Lemma moved_ok : graph_ok moved_graph.
Proof.
  pose proof new_fine as Hs'. destruct (so_vlabels _ Hs') as (_ & _ & Hn). destruct (so_elabels _ Hs') as (_ & _ & Hne). pose proof (vlen_nonneg (vlabel_indexer_ s')). pose proof (vlen_nonneg (elabel_indexer_ s')).
  split; simpl; [done| |rewrite to_u8_is; [done|exact (conj (vlen_nonneg _) Hn)]|rewrite to_u8_is; [done|exact (conj (vlen_nonneg _) Hne)]|].
  - rewrite <-tv_names. unfold vlen. by rewrite !length_map.
  - apply map_eq. intros n. apply option_eq. intros m. rewrite lookup_fmap_Some. rewrite (cs_types _ _ _ _ _ Hc). split.
    + intros (t & <- & (key & Ht & Hn1)%all_types_moved). unfold new_index in Hn1. assert (e_schemas_ s !! key = Some (et_meta t)) as E by (unfold s; by rewrite <-(go_edges _ Hg), lookup_fmap, Ht).
      rewrite E in Hn1. by exists key.
    + intros (key & E & Hn1). destruct (table_of_type key m E) as (t & Ht & Hmeta). exists t. split; [done|]. apply all_types_moved. exists key. split; [done|]. unfold new_index. by rewrite E.
Qed.

Lemma moved_vtable label : vtable_of moved_graph label = vtable_of g label.
Proof.
  destruct (so_vlabels _ new_fine) as (Hd' & _). destruct (so_vlabels _ schema_fine) as (Hd & _). apply option_eq. intros vt. unfold vtable_of. cbn [moved_graph with_edge_total with_vertex_total schema_ vertex_tables_]. split.
  - destruct (live_vlabel s' label) as [p|] eqn:Ep; [|done]. cbn [mbind option_bind]. apply (compacted_vlabel s schema_fine vs es types largest) in Ep; [|apply Hc|apply Hc|apply Hc|apply Hc|apply Hc|apply Hc].
    intros ([name x] & Hx & E)%vget_map_iff. cbn [snd] in E. subst x. apply find_name_inv in Ep. rewrite <-tv_names in Ep. apply vget_map_iff in Ep as ([name' x'] & Hx' & E). cbn [fst] in E. rewrite Hx in Hx'. injection Hx' as <- <-. subst name.
    assert ((label, vt) ∈ tv) as (i & N & V & L)%Htv_iff by by eapply vget_elem. assert (live_vlabel (schema_ g) label = Some i) as -> by by apply live_id_iff. done.
  - destruct (live_vlabel (schema_ g) label) as [i|] eqn:Ei; [|done]. cbn [mbind option_bind]. intros V. apply live_id_iff in Ei as [N L]; [|done].
    assert ((label, vt) ∈ tv) as Hin by (apply Htv_iff; by exists i). destruct (live_found i label N L) as [p Hp].
    assert (live_vlabel s' label = Some p) as -> by (apply (compacted_vlabel s schema_fine vs es types largest); [apply Hc..|done]). cbn [mbind option_bind].
    apply (pairs_at tv p label); [by rewrite tv_names|done|rewrite tv_names; by apply find_name_inv].
Qed.

Lemma moved_etable a b e : etable_of moved_graph a b e = etable_of g a b e.
Proof.
  apply option_eq. intros t. unfold etable_of. apply (compacted_look s schema_fine vs es types largest); [apply Hc..| |].
  - intros key t' Ht. unfold s. rewrite <-(go_edges _ Hg), lookup_fmap, Ht. by eexists.
  - intros n x. cbn [moved_graph with_edge_total with_vertex_total edge_tables_]. rewrite all_types_moved. unfold new_index. split.
    + intros (key & Ht & Hn). destruct (e_schemas_ s !! key) as [m|] eqn:E; [|done]. by exists key, m.
    + intros (key & m & E & Ht & Hn). exists key. by rewrite E.
Qed.
End run.

(** C12: Compaction of the schema of a graph renumbers labels and types, and moves the
    tables with them: the result has the compacted schema, every label and type has its
    table, and under each name there is the very table that was there before, while
    deleted ones are gone. *)
Theorem graph_compaction g : graph_ok g -> can_move g ->
  wp (PropertyGraph.compact_schema g) (fun r => fst r = Returned tt /\ graph_ok (snd r) /\ SchemaOps.compact_schema (schema_ g) = Some (Returned (schema_ (snd r))) /\
    (forall label, vtable_of (snd r) label = vtable_of g label) /\ (forall src dst edge, etable_of (snd r) src dst edge = etable_of g src dst edge)).
Proof.
  intros Hg Hm. pose proof (go_schema _ Hg) as Hs. destruct (so_vlabels _ Hs) as (_ & Ht & _). destruct (compacts_exists _ Hs) as (vs & es & types & largest & Hc).
  destruct (proj1 (wp_exists _ _) (live_labels_wp (vlabel_indexer_ (schema_ g)) (vertex_tables_ g) (vlabel_tomb_ (schema_ g)) (go_vertices _ Hg) Ht)) as (tv & Htv & _ & Htv_iff).
  unfold PropertyGraph.compact_schema, query. rewrite (cs_result _ _ _ _ _ Hc). cbn [mbind option_bind]. apply wp_and_then, wp_bind.
  apply (wp_each (vertex_part g tv)).
  - exists 0%nat. cbn [fst snd]. split; [rewrite (go_vtotal _ Hg); f_equal; lia|]. split; [apply vlen_nonneg|]. do 6 (split; [done|]). exists tv. by rewrite !drop_0.
  - intros i rest st Hst. by apply (move_vertex_step g Hg Hm vs es types largest Hc tv).
  - intros [g1 acc1] (n & Hrest & Hn & Es & Ee & Ect & Evt & _ & _ & tl & Htl & Hacc). cbn [fst snd] in *. apply wp_ret. exists acc1. split; [done|]. cbn [snd].
    assert (vlen (vlabel_indexer_ (schema_ g)) <= Z.of_nat n) as Hge. { destruct (decide (vlen (vlabel_indexer_ (schema_ g)) - Z.of_nat n <= 0)) as [|Hlt]; [lia|]. by rewrite seqZ_cons in Hrest by lia. }
    assert (tl = []) as ->. { pose proof (go_vertices _ Hg) as Hv. unfold vlen in *. rewrite !drop_ge in Htl by lia. by injection Htl. } rewrite app_nil_r in Hacc. subst acc1.
    apply wp_and_then, wp_bind. assert (type_keys g1 = type_keys g) as Ek by (unfold type_keys; by rewrite Ect, Evt). rewrite Ek. apply (wp_each (edge_part g vs es)).
    + exists []. cbn [fst snd app]. split; [done|]. split; [done|]. split; [intros x _; by rewrite Ee|]. intros m t. rewrite lookup_empty. split; [done|]. intros (x & Hx & _). by apply elem_of_nil in Hx.
    + intros x rest st Hst. by apply (move_edge_step g Hg Hm vs es types largest Hc).
    + intros [g2 acc] (moved & Hkeys & _ & _ & Hacc). cbn [fst snd] in *. rewrite app_nil_r in Hkeys. subst moved. apply wp_ret. exists acc. split; [done|]. apply wp_ret. cbn [fst snd].
      split; [done|]. split; [by eapply (moved_ok g Hg vs es types largest Hc)|]. split; [done|].
      split; [intros label; by eapply (moved_vtable g Hg vs es types largest Hc)|intros a b e; by eapply (moved_etable g Hg vs es types largest Hc)].
Qed.
End compaction.
