(* ===== verification/Wal.v ===== *)
(** * The write-ahead log

    The redo records of src/transaction/wal/wal.cc with their serialisation, and the
    log files of src/transaction/wal/local_wal_writer.cc and local_wal_parser.cc.  A
    reader is a function on archives that can throw.  A header is laid out as the
    Itanium ABI lays out its bit-fields.  Paths, descriptors and the factories are left
    out. *)
From stdpp Require Import strings sorting.
From S2P Require Import Prelude Storage Bitset Archive Temporal Property Column Table EdgeSchema.
#[local] Open Scope Z_scope.

Declare Scope wal_scope.
Delimit Scope wal_scope with wal.
#[local] Open Scope wal_scope.

Definition reader (A : Type) : Type := list Z -> option (outcome A * list Z).
Definition returns {A} (x : A) : reader A := fun arc => Some (Returned x, arc).
Definition reader_bind {A B} (r : reader A) (f : A -> reader B) : reader B := fun arc => and_then (r arc) f.
Notation "x <<- r ; f" := (reader_bind r (fun x => f)) (at level 200, r at level 100, f at level 200, right associativity) : wal_scope.
Definition plain {A} (get : list Z -> option (A * list Z)) : reader A := fun arc => '(x, arc) ← get arc; Some (Returned x, arc).

(** ** Values *)

(** The bytes of a [std::string] of names. *)
Definition chars (s : string) : list Z := map (fun a => Z.of_N (Ascii.N_of_ascii a)) (String.list_ascii_of_string s).
Definition text (bs : list Z) : string := String.string_of_list_ascii (map (fun b => Ascii.ascii_of_N (Z.to_N b)) bs).
Definition put_text (arc : list Z) (s : string) : list Z := put_string arc (chars s).
Definition get_text : reader string := plain (fun arc => '(bs, arc) ← get_string arc; Some (text bs, arc)).

(** A property is read into a new object. *)
Definition get_prop : reader Property := fun arc => get_property arc PEmpty.

(** [DataType] with the length of a string type, if it has one. *)
Definition put_datatype (arc : list Z) (t : DataType) : list Z :=
  let arc := put_type arc (fst t) in
  if snd t =? 0 then put_uint 1 arc 0 else put_uint 8 (put_uint 1 arc 1) (snd t).
Definition get_datatype : reader DataType :=
  id <<- plain get_type; info <<- plain (get_uint 1);
  match id with
  | None => fun arc => Some (Thrown, arc)
  | Some id =>
      if info =? 0 then returns (id, 0)
      else match id with kVarchar => n <<- plain (get_uint 8); returns (kVarchar, n) | _ => fun arc => Some (Thrown, arc) end
  end.

Definition strategy_code (s : EdgeStrategy) : Z := match s with kNone => 0 | kSingle => 1 | kMultiple => 2 end.
Definition put_strategy (arc : list Z) (s : EdgeStrategy) : list Z := put_int32 arc (strategy_code s).
Definition get_strategy : reader EdgeStrategy := plain (fun arc => '(c, arc) ← get_int32 arc;
  if c =? 0 then Some (kNone, arc) else if c =? 1 then Some (kSingle, arc) else if c =? 2 then Some (kMultiple, arc) else None).

(** A vector: a 32-bit size and the elements. *)
Definition put_list {A} (put : list Z -> A -> list Z) (arc : list Z) (l : list A) : list Z := foldl put (put_uint 4 arc (to_u32 (vlen l))) l.
Fixpoint get_times {A} (n : nat) (r : reader A) : reader (list A) :=
  match n with O => returns [] | S n => x <<- r; l <<- get_times n r; returns (x :: l) end.
Definition get_list {A} (r : reader A) : reader (list A) := n <<- plain (get_uint 4); get_times (Z.to_nat n) r.

(** A property of a type: type, name and default. *)
Definition prop_def : Type := DataType * string * Property.
Definition put_def (arc : list Z) (d : prop_def) : list Z := let '(ty, name, default_value) := d in put_property (put_text (put_datatype arc ty) name) default_value.
Definition get_def : reader prop_def := ty <<- get_datatype; name <<- get_text; d <<- get_prop; returns (ty, name, d).
Definition put_names (arc : list Z) (p : string * string) : list Z := put_text (put_text arc (fst p)) (snd p).
Definition get_names : reader (string * string) := old <<- get_text; new <<- get_text; returns (old, new).

(** ** Redo records *)

Inductive OpType :=
  | OpCreateVertexType | OpCreateEdgeType | OpInsertVertex | OpInsertEdge | OpUpdateVertexProp | OpUpdateEdgeProp | OpRemoveVertex | OpRemoveEdge
  | OpAddVertexProp | OpAddEdgeProp | OpRenameVertexProp | OpRenameEdgeProp | OpDeleteVertexProp | OpDeleteEdgeProp | OpDeleteVertexTy | OpDeleteEdgeTy.

Definition op_code (o : OpType) : Z :=
  match o with
  | OpCreateVertexType => 0 | OpCreateEdgeType => 1 | OpInsertVertex => 2 | OpInsertEdge => 3 | OpUpdateVertexProp => 4 | OpUpdateEdgeProp => 5
  | OpRemoveVertex => 6 | OpRemoveEdge => 7 | OpAddVertexProp => 8 | OpAddEdgeProp => 9 | OpRenameVertexProp => 10 | OpRenameEdgeProp => 11
  | OpDeleteVertexProp => 12 | OpDeleteEdgeProp => 13 | OpDeleteVertexTy => 14 | OpDeleteEdgeTy => 15
  end.
Definition all_ops : list OpType :=
  [OpCreateVertexType; OpCreateEdgeType; OpInsertVertex; OpInsertEdge; OpUpdateVertexProp; OpUpdateEdgeProp; OpRemoveVertex; OpRemoveEdge;
   OpAddVertexProp; OpAddEdgeProp; OpRenameVertexProp; OpRenameEdgeProp; OpDeleteVertexProp; OpDeleteEdgeProp; OpDeleteVertexTy; OpDeleteEdgeTy].
Definition put_op (arc : list Z) (o : OpType) : list Z := put_uint 1 arc (op_code o).
(** A byte that is no operation is [None]. *)
Definition get_op : reader (option OpType) := c <<- plain (get_uint 1); returns (all_ops !! Z.to_nat c).

Inductive redo :=
  | CreateVertexTypeRedo (vertex_type : string) (properties : list prop_def) (primary_key_names : list string)
  | CreateEdgeTypeRedo (src_type dst_type edge_type : string) (properties : list prop_def) (oe_edge_strategy ie_edge_strategy : EdgeStrategy)
  | AddVertexPropertiesRedo (vertex_type : string) (properties : list prop_def)
  | AddEdgePropertiesRedo (src_type dst_type edge_type : string) (properties : list prop_def)
  | RenameVertexPropertiesRedo (vertex_type : string) (update_properties : list (string * string))
  | RenameEdgePropertiesRedo (src_type dst_type edge_type : string) (update_properties : list (string * string))
  | DeleteVertexPropertiesRedo (vertex_type : string) (delete_properties : list string)
  | DeleteEdgePropertiesRedo (src_type dst_type edge_type : string) (delete_properties : list string)
  | DeleteVertexTypeRedo (vertex_type : string)
  | DeleteEdgeTypeRedo (src_type dst_type edge_type : string)
  | InsertVertexRedo (label : Z) (oid : Property) (props : list Property)
  | InsertEdgeRedo (src_label : Z) (src : Property) (dst_label : Z) (dst : Property) (edge_label : Z) (properties : list Property)
  | UpdateVertexPropRedo (label : Z) (oid : Property) (prop_id : Z) (value : Property)
  | UpdateEdgePropRedo (src_label : Z) (src : Property) (dst_label : Z) (dst : Property) (edge_label oe_offset ie_offset prop_id : Z) (value : Property)
  | RemoveVertexRedo (label : Z) (oid : Property)
  | RemoveEdgeRedo (src_label : Z) (src : Property) (dst_label : Z) (dst : Property) (edge_label oe_offset ie_offset : Z).

Definition redo_op (r : redo) : OpType :=
  match r with
  | CreateVertexTypeRedo _ _ _ => OpCreateVertexType | CreateEdgeTypeRedo _ _ _ _ _ _ => OpCreateEdgeType
  | AddVertexPropertiesRedo _ _ => OpAddVertexProp | AddEdgePropertiesRedo _ _ _ _ => OpAddEdgeProp
  | RenameVertexPropertiesRedo _ _ => OpRenameVertexProp | RenameEdgePropertiesRedo _ _ _ _ => OpRenameEdgeProp
  | DeleteVertexPropertiesRedo _ _ => OpDeleteVertexProp | DeleteEdgePropertiesRedo _ _ _ _ => OpDeleteEdgeProp
  | DeleteVertexTypeRedo _ => OpDeleteVertexTy | DeleteEdgeTypeRedo _ _ _ => OpDeleteEdgeTy
  | InsertVertexRedo _ _ _ => OpInsertVertex | InsertEdgeRedo _ _ _ _ _ _ => OpInsertEdge
  | UpdateVertexPropRedo _ _ _ _ => OpUpdateVertexProp | UpdateEdgePropRedo _ _ _ _ _ _ _ _ _ => OpUpdateEdgeProp
  | RemoveVertexRedo _ _ => OpRemoveVertex | RemoveEdgeRedo _ _ _ _ _ _ _ => OpRemoveEdge
  end.

(** Labels are one byte each. *)
Definition put_label (arc : list Z) (l : Z) : list Z := put_uint 1 arc l.
Definition get_label : reader Z := plain (get_uint 1).
Definition put_type_names (arc : list Z) (src dst edge : string) : list Z := put_text (put_text (put_text arc src) dst) edge.
Definition put_ends (arc : list Z) (src_label : Z) (src : Property) (dst_label : Z) (dst : Property) (edge_label : Z) : list Z :=
  put_label (put_property (put_label (put_property (put_label arc src_label) src) dst_label) dst) edge_label.

(** [Serialize] after the operation. *)
Definition put_redo (arc : list Z) (r : redo) : list Z :=
  match r with
  | CreateVertexTypeRedo vertex_type properties primary_key_names => put_list put_text (put_list put_def (put_text arc vertex_type) properties) primary_key_names
  | CreateEdgeTypeRedo src dst edge properties oe ie => put_strategy (put_strategy (put_list put_def (put_type_names arc src dst edge) properties) oe) ie
  | AddVertexPropertiesRedo vertex_type properties => put_list put_def (put_text arc vertex_type) properties
  | AddEdgePropertiesRedo src dst edge properties => put_list put_def (put_type_names arc src dst edge) properties
  | RenameVertexPropertiesRedo vertex_type update_properties => put_list put_names (put_text arc vertex_type) update_properties
  | RenameEdgePropertiesRedo src dst edge update_properties => put_list put_names (put_type_names arc src dst edge) update_properties
  | DeleteVertexPropertiesRedo vertex_type delete_properties => put_list put_text (put_text arc vertex_type) delete_properties
  | DeleteEdgePropertiesRedo src dst edge delete_properties => put_list put_text (put_type_names arc src dst edge) delete_properties
  | DeleteVertexTypeRedo vertex_type => put_text arc vertex_type
  | DeleteEdgeTypeRedo src dst edge => put_type_names arc src dst edge
  | InsertVertexRedo label oid props => put_list put_property (put_property (put_label arc label) oid) props
  | InsertEdgeRedo src_label src dst_label dst edge_label properties => put_list put_property (put_ends arc src_label src dst_label dst edge_label) properties
  | UpdateVertexPropRedo label oid prop_id value => put_property (put_int32 (put_property (put_label arc label) oid) prop_id) value
  | UpdateEdgePropRedo src_label src dst_label dst edge_label oe_offset ie_offset prop_id value =>
      put_property (put_int32 (put_int32 (put_int32 (put_ends arc src_label src dst_label dst edge_label) oe_offset) ie_offset) prop_id) value
  | RemoveVertexRedo label oid => put_property (put_label arc label) oid
  | RemoveEdgeRedo src_label src dst_label dst edge_label oe_offset ie_offset =>
      put_int32 (put_int32 (put_ends arc src_label src dst_label dst edge_label) oe_offset) ie_offset
  end.
Definition Serialize (arc : list Z) (r : redo) : list Z := put_redo (put_op arc (redo_op r)) r.

Definition get_int : reader Z := plain get_int32.
Definition get_type_names : reader (string * string * string) := src <<- get_text; dst <<- get_text; edge <<- get_text; returns (src, dst, edge).
Definition get_ends : reader (Z * Property * Z * Property * Z) :=
  src_label <<- get_label; src <<- get_prop; dst_label <<- get_label; dst <<- get_prop; edge_label <<- get_label; returns (src_label, src, dst_label, dst, edge_label).

(** [Deserialize] *)
Definition get_redo (o : OpType) : reader redo :=
  match o with
  | OpCreateVertexType => t <<- get_text; props <<- get_list get_def; keys <<- get_list get_text; returns (CreateVertexTypeRedo t props keys)
  | OpCreateEdgeType => t <<- get_type_names; props <<- get_list get_def; oe <<- get_strategy; ie <<- get_strategy;
      let '(src, dst, edge) := t in returns (CreateEdgeTypeRedo src dst edge props oe ie)
  | OpAddVertexProp => t <<- get_text; props <<- get_list get_def; returns (AddVertexPropertiesRedo t props)
  | OpAddEdgeProp => t <<- get_type_names; props <<- get_list get_def; let '(src, dst, edge) := t in returns (AddEdgePropertiesRedo src dst edge props)
  | OpRenameVertexProp => t <<- get_text; l <<- get_list get_names; returns (RenameVertexPropertiesRedo t l)
  | OpRenameEdgeProp => t <<- get_type_names; l <<- get_list get_names; let '(src, dst, edge) := t in returns (RenameEdgePropertiesRedo src dst edge l)
  | OpDeleteVertexProp => t <<- get_text; l <<- get_list get_text; returns (DeleteVertexPropertiesRedo t l)
  | OpDeleteEdgeProp => t <<- get_type_names; l <<- get_list get_text; let '(src, dst, edge) := t in returns (DeleteEdgePropertiesRedo src dst edge l)
  | OpDeleteVertexTy => t <<- get_text; returns (DeleteVertexTypeRedo t)
  | OpDeleteEdgeTy => t <<- get_type_names; let '(src, dst, edge) := t in returns (DeleteEdgeTypeRedo src dst edge)
  | OpInsertVertex => label <<- get_label; oid <<- get_prop; props <<- get_list get_prop; returns (InsertVertexRedo label oid props)
  | OpInsertEdge => e <<- get_ends; props <<- get_list get_prop; let '(sl, src, dl, dst, el) := e in returns (InsertEdgeRedo sl src dl dst el props)
  | OpUpdateVertexProp => label <<- get_label; oid <<- get_prop; prop_id <<- get_int; value <<- get_prop; returns (UpdateVertexPropRedo label oid prop_id value)
  | OpUpdateEdgeProp => e <<- get_ends; oe <<- get_int; ie <<- get_int; prop_id <<- get_int; value <<- get_prop;
      let '(sl, src, dl, dst, el) := e in returns (UpdateEdgePropRedo sl src dl dst el oe ie prop_id value)
  | OpRemoveVertex => label <<- get_label; oid <<- get_prop; returns (RemoveVertexRedo label oid)
  | OpRemoveEdge => e <<- get_ends; oe <<- get_int; ie <<- get_int; let '(sl, src, dl, dst, el) := e in returns (RemoveEdgeRedo sl src dl dst el oe ie)
  end.

(** The loops of the two [IngestWal]: records are read and applied one after the other
    until the archive is empty; [accepts] are the operations that the loop knows, and
    [unexpected] is what becomes of another.  Every round takes at least the byte of the
    operation. *)
Section ingest.
Context {G : Type} (accepts : OpType -> bool) (apply : redo -> G -> option (outcome unit * G)) (unexpected : option (outcome unit)).

Fixpoint ingest (fuel : nat) (arc : list Z) (g : G) : option (outcome unit * G) :=
  match fuel with
  | O => None
  | S fuel =>
      match arc with
      | [] => Some (Returned tt, g)
      | _ =>
          '(o, arc) ← get_op arc;
          match o with
          | Thrown => Some (Thrown, g)
          | Returned (Some o) =>
              if accepts o then
                '(r, arc) ← get_redo o arc;
                match r with Thrown => Some (Thrown, g) | Returned r => and_then (apply r g) (fun _ g => ingest fuel arc g) end
              else r ← unexpected; Some (r, g)
          | Returned None => r ← unexpected; Some (r, g)
          end
      end
  end.
Definition IngestWal (arc : list Z) (g : G) : option (outcome unit * G) := ingest (S (length arc)) arc g.
End ingest.

(** ** Log files *)

(** [WalHeader]: the timestamp, then one bit for the type and 31 for the length. *)
Definition HEADER_SIZE : Z := 8.
Definition to_i31 (z : Z) : Z := (z + 2 ^ 30) mod 2 ^ 31 - 2 ^ 30.
Definition put_header (timestamp type length : Z) : list Z := put_uint 4 (put_uint 4 [] (to_u32 timestamp)) (type mod 2 + 2 * (length mod 2 ^ 31)).
Definition get_header (bs : list Z) : option (Z * Z * Z) :=
  '(timestamp, bs) ← get_uint 4 bs; '(w, _) ← get_uint 4 bs; Some (timestamp, w mod 2, to_i31 (w / 2)).

(** A file of [size_] bytes: the bytes [data_], and zeros behind them. *)
Record WalFile := MkWalFile { wal_data : list Z; wal_size : Z }.
Definition ftruncate (size : Z) (f : WalFile) : WalFile :=
  MkWalFile (if size <? vlen (wal_data f) then take (Z.to_nat size) (wal_data f) else wal_data f) size.
(** A [write] where the last one ended. *)
Definition write_on (bs : list Z) (f : WalFile) : WalFile := MkWalFile (wal_data f ++ bs) (Z.max (wal_size f) (vlen (wal_data f) + vlen bs)).
Definition read_at (f : WalFile) (pos n : Z) : option (list Z) :=
  if (0 <=? pos) && (0 <=? n) && (pos + n <=? wal_size f)
  then Some (map (fun i => default 0 (wal_data f !! Z.to_nat i)) (seqZ pos n)) else None.

(** [LocalWalWriter] with its file open. *)
Definition TRUNC_SIZE : Z := 2 ^ 30.
Record LocalWalWriter := MkWriter { file_ : WalFile; file_size_ : Z; file_used_ : Z }.
Definition open_writer : LocalWalWriter := MkWriter (ftruncate TRUNC_SIZE (MkWalFile [] 0)) TRUNC_SIZE 0.
Definition append (data : list Z) (w : LocalWalWriter) : LocalWalWriter :=
  let expected_size := file_used_ w + vlen data in
  let '(f, size) := if file_size_ w <? expected_size
                    then let new_file_size := (expected_size / TRUNC_SIZE + 1) * TRUNC_SIZE in (ftruncate new_file_size (file_ w), new_file_size)
                    else (file_ w, file_size_ w) in
  MkWriter (write_on data f) size expected_size.

(** [LocalWalParser]: the contents of units where the source keeps pointers to them. *)
Record LocalWalParser := MkParser {
  insert_wal_list_ : list (list Z);
  update_wal_list_ : list (Z * list Z);
  last_ts_ : Z
}.

(** One unit is entered. *)
Definition collect (ts type : Z) (content : list Z) (p : LocalWalParser) : option LocalWalParser :=
  let last := Z.max ts (last_ts_ p) in
  if negb (type =? 0) then Some (MkParser (insert_wal_list_ p) (update_wal_list_ p ++ [(ts, content)]) last)
  else
    let l := if vlen (insert_wal_list_ p) <=? ts then Resize [] (insert_wal_list_ p) (to_u32 (ts + 1)) else insert_wal_list_ p in
    l ← vset l ts content; Some (MkParser l (update_wal_list_ p) last).

(** The units of one file from [pos] on. *)
Fixpoint parse_file (fuel : nat) (f : WalFile) (pos : Z) (p : LocalWalParser) : option LocalWalParser :=
  match fuel with
  | O => None
  | S fuel =>
      header ← read_at f pos HEADER_SIZE; '(ts, type, length) ← get_header header;
      let pos := pos + HEADER_SIZE in
      if ts =? 0 then Some p
      else content ← read_at f pos length; p ← collect ts type content p; parse_file fuel f (pos + length) p
  end.

(** [open]: the files in the order of the directory; empty ones are passed over.  A
    unit takes at least the bytes of its header. *)
Definition by_ts (x y : Z * list Z) : Prop := fst x <= fst y.
#[export] Instance by_ts_dec x y : Decision (by_ts x y) := decide (fst x <= fst y).
Fixpoint parse_files (fs : list WalFile) (p : LocalWalParser) : option LocalWalParser :=
  match fs with
  | [] => Some p
  | f :: fs => p ← (if wal_size f =? 0 then Some p else parse_file (S (length (wal_data f))) f 0 p); parse_files fs p
  end.
Definition open_parser (fs : list WalFile) : option LocalWalParser :=
  p ← parse_files fs (MkParser (Resize [] [] 4096) [] 0);
  Some (MkParser (insert_wal_list_ p) (merge_sort by_ts (update_wal_list_ p)) (last_ts_ p)).
Definition get_insert_wal (p : LocalWalParser) (ts : Z) : option (list Z) := vget (insert_wal_list_ p) ts.

(** ** Recovery *)

(** What a database does with logged units. *)
Class Replay (G : Type) := {
  replay_insert : Z -> list Z -> G -> option (outcome unit * G);
  replay_update : Z -> list Z -> G -> option (outcome unit * G);
  replay_compact : Z -> G -> option (outcome unit * G)
}.

Section recovery.
Context {G : Type} `{!Replay G}.

Definition IngestWalRange (p : LocalWalParser) (from to : Z) (g : G) : option (outcome unit * G) :=
  each (seqZ from (to - from)) (fun j g => unit ← get_insert_wal p j; replay_insert j unit g) g.

Fixpoint ingest_updates (p : LocalWalParser) (from_ts : Z) (l : list (Z * list Z)) (g : G) : option (outcome Z * G) :=
  match l with
  | [] => Some (Returned from_ts, g)
  | (to_ts, unit) :: l =>
      and_then (if from_ts <? to_ts then IngestWalRange p from_ts to_ts g else Some (Returned tt, g)) (fun _ g =>
      and_then (if vlen unit =? 0 then replay_compact to_ts g else replay_update to_ts unit g) (fun _ g =>
      ingest_updates p (to_u32 (to_ts + 1)) l g))
  end.
Definition ingestWals (p : LocalWalParser) (g : G) : option (outcome unit * G) :=
  and_then (ingest_updates p 1 (update_wal_list_ p) g) (fun from_ts g =>
  if from_ts <=? last_ts_ p then IngestWalRange p from_ts (to_u32 (last_ts_ p + 1)) g else Some (Returned tt, g)).
End recovery.
