(* ===== verification/WalTheorems.v ===== *)
(** * Properties of the write-ahead log

    [redo_roundtrip]: the records of a transaction are read back and applied in order.
    [recovery_in_order]: recovery replays the units of all log files in the order of
    their timestamps.  [recovery_flaws]: where it does not. *)
From stdpp Require Import strings sorting.
From S2P Require Import Prelude Storage Bitset Archive Temporal TemporalTheorems Property PropertyTheorems Column Table EdgeSchema Wal.
#[local] Open Scope Z_scope.
#[local] Open Scope wal_scope.

(** ** Writers and readers *)

Class Appends {A} (put : list Z -> A -> list Z) := appends arc x : put arc x = arc ++ put [] x.
Class Reads {A} (put : list Z -> A -> list Z) (r : reader A) (ok : A -> Prop) := reads_ok x rest : ok x -> r (put [] x ++ rest) = Some (Returned x, rest).

Lemma bind_reads {A B} put {r : reader A} {ok} `{!Reads put r ok} (f : A -> reader B) x rest : ok x -> reader_bind r f (put [] x ++ rest) = f x rest.
Proof. intros Hx. unfold reader_bind. by rewrite (reads_ok (put := put) (r := r) x rest Hx). Qed.

Lemma reads_plain {A} (put : list Z -> A -> list Z) get (ok : A -> Prop) : (forall x, ok x -> inverts put get x) -> Reads put (plain get) ok.
Proof. intros Hi x rest Hx. unfold plain. by rewrite (inv_read _ _ _ (Hi x Hx)). Qed.

Definition u8 (z : Z) : Prop := 0 <= z < 256.
Definition u64 (z : Z) : Prop := 0 <= z < 2 ^ 64.

#[export] Instance uint_appends k : Appends (put_uint k). Proof. by intros arc x. Qed.
#[export] Instance int32_appends : Appends put_int32. Proof. by intros arc x. Qed.
#[export] Instance label_appends : Appends put_label. Proof. by intros arc x. Qed.
#[export] Instance string_appends : Appends put_string.
Proof. intros arc x. unfold put_string, AddBytes. by rewrite (appends (put := put_uint 8) arc), app_assoc. Qed.
#[export] Instance text_appends : Appends put_text. Proof. intros arc x. apply (appends (put := put_string)). Qed.
#[export] Instance property_appends : Appends put_property.
Proof. intros arc p. unfold put_property. destruct p; simpl; unfold put_interval, put_bool, put_type, put_int32, put_int64, put_string, put_uint, AddBytes; rewrite ?app_nil_l, <-?app_assoc; done. Qed.
#[export] Instance datatype_appends : Appends put_datatype.
Proof. intros arc t. unfold put_datatype, put_type, put_int32, put_uint, AddBytes. destruct (snd t =? 0); by rewrite ?app_nil_l, <-?app_assoc. Qed.
#[export] Instance strategy_appends : Appends put_strategy. Proof. by intros arc x. Qed.
#[export] Instance def_appends : Appends put_def.
Proof.
  intros arc [[ty name] d]. unfold put_def. rewrite (appends (put := put_property)), (appends (put := put_text)), (appends (put := put_datatype)).
  rewrite (appends (put := put_property) (put_text _ _)), (appends (put := put_text) (put_datatype _ _)). by rewrite <-!app_assoc.
Qed.
#[export] Instance names_appends : Appends put_names.
Proof. intros arc [a b]. unfold put_names. cbn [fst snd]. rewrite (appends (put := put_text)), (appends (put := put_text) arc), (appends (put := put_text) (put_text [] a)). by rewrite <-!app_assoc. Qed.

Lemma foldl_appends {A} (put : list Z -> A -> list Z) `{!Appends put} l arc : foldl put arc l = arc ++ foldl put [] l.
Proof.
  revert arc. induction l as [|x l IH]; intros arc; cbn [foldl]; [by rewrite app_nil_r|]. rewrite IH, (IH (put [] x)), (appends arc x). by rewrite app_assoc.
Qed.
#[export] Instance list_appends {A} (put : list Z -> A -> list Z) `{!Appends put} : Appends (put_list put).
Proof.
  intros arc l. unfold put_list. rewrite (foldl_appends put l (put_uint 4 arc _)), (foldl_appends put l (put_uint 4 [] _)), (appends (put := put_uint 4) arc). by rewrite app_assoc.
Qed.

#[export] Instance uint_reads k : Reads (put_uint k) (plain (get_uint k)) (fun u => 0 <= u < 256 ^ Z.of_nat k).
Proof. apply reads_plain, uint_inverts. Qed.
#[export] Instance label_reads : Reads put_label get_label u8.
Proof. apply reads_plain. intros x Hx. by apply uint_inverts. Qed.
#[export] Instance int_reads : Reads put_int32 get_int (fun z => INT_MIN <= z <= INT_MAX).
Proof. apply reads_plain, int32_inverts. Qed.

(** Texts are the strings of bytes. *)
Lemma text_chars s : text (chars s) = s.
Proof.
  unfold text, chars. rewrite map_map. rewrite <-(String.string_of_list_ascii_of_string s) at 2. f_equal. rewrite <-(map_id (String.list_ascii_of_string s)) at 2.
  apply map_ext. intros a. by rewrite N2Z.id, Ascii.ascii_N_embedding.
Qed.
Definition text_ok (s : string) : Prop := vlen (chars s) < 2 ^ 64.
#[export] Instance text_reads : Reads put_text get_text text_ok.
Proof. intros s rest Hs. unfold get_text, plain, put_text. rewrite get_put_string by done. cbn [mbind option_bind]. by rewrite text_chars. Qed.
#[export] Instance property_reads : Reads put_property get_prop prop_ok.
Proof. intros p rest Hp. unfold get_prop. rewrite property_reads_into by done. by destruct p. Qed.

Definition datatype_ok (t : DataType) : Prop := u64 (snd t) /\ (snd t <> 0 -> fst t = kVarchar).
#[export] Instance datatype_reads : Reads put_datatype get_datatype datatype_ok.
Proof.
  intros [id n] rest [Hn Hv]. cbn [fst snd] in *. unfold get_datatype, put_datatype. cbn [fst snd]. destruct (Z.eqb_spec n 0) as [->|Hne].
  - rewrite (appends (put := put_uint 1)), <-app_assoc. unfold reader_bind at 1, plain at 1. rewrite type_inverts. cbn [mbind option_bind and_then].
    by rewrite (bind_reads (put_uint 1)) by done.
  - rewrite (appends (put := put_uint 8)), (appends (put := put_uint 1)), <-!app_assoc. unfold reader_bind at 1, plain at 1. rewrite type_inverts. cbn [mbind option_bind and_then].
    rewrite (bind_reads (put_uint 1)) by done. rewrite (Hv Hne). change (1 =? 0) with false. cbv iota. by rewrite (bind_reads (put_uint 8)) by exact Hn.
Qed.
#[export] Instance strategy_reads : Reads put_strategy get_strategy (fun _ => True).
Proof.
  intros s rest _. unfold get_strategy, plain, put_strategy. rewrite (inv_read _ _ _ (int32_inverts (strategy_code s) ltac:(destruct s; done))). by destruct s.
Qed.

(** Brings what was written into the form [put [] x ++ put' [] y ++ rest] and reads it
    off. *)
Ltac normal_form :=
  repeat match goal with
  | |- context [put_text (?f ?x ?y) ?s] => rewrite (appends (put := put_text) (f x y) s)
  | |- context [put_property (?f ?x ?y) ?s] => rewrite (appends (put := put_property) (f x y) s)
  | |- context [put_label (?f ?x ?y) ?s] => rewrite (appends (put := put_label) (f x y) s)
  | |- context [put_int32 (?f ?x ?y) ?s] => rewrite (appends (put := put_int32) (f x y) s)
  | |- context [put_strategy (?f ?x ?y) ?s] => rewrite (appends (put := put_strategy) (f x y) s)
  | |- context [put_list ?p (?f ?x ?y) ?s] => rewrite (appends (put := put_list p) (f x y) s)
  | |- context [put_list ?p (?f ?q ?x ?y) ?s] => rewrite (appends (put := put_list p) (f q x y) s)
  | |- context [put_strategy (?f ?q ?x ?y) ?s] => rewrite (appends (put := put_strategy) (f q x y) s)
  end; rewrite <-?app_assoc.

Definition def_ok (d : prop_def) : Prop := let '(ty, name, v) := d in datatype_ok ty /\ text_ok name /\ prop_ok v.
#[export] Instance def_reads : Reads put_def get_def def_ok.
Proof.
  intros [[ty name] d] rest (H1 & H2 & H3). unfold put_def, get_def. normal_form. rewrite (bind_reads put_datatype) by done. rewrite (bind_reads put_text) by done.
  by rewrite (bind_reads put_property) by done.
Qed.
#[export] Instance names_reads : Reads put_names get_names (fun p => text_ok (fst p) /\ text_ok (snd p)).
Proof.
  intros [a b] rest [H1 H2]. unfold put_names, get_names. cbn [fst snd] in *. normal_form. rewrite (bind_reads put_text) by done. by rewrite (bind_reads put_text) by done.
Qed.

Definition list_ok {A} (ok : A -> Prop) (l : list A) : Prop := vlen l < 2 ^ 32 /\ Forall ok l.
#[export] Instance list_reads {A} (put : list Z -> A -> list Z) r ok `{!Appends put, !Reads put r ok} : Reads (put_list put) (get_list r) (list_ok ok).
Proof.
  intros l rest [Hl Hok]. unfold put_list, get_list. rewrite foldl_appends, <-app_assoc by done. pose proof (vlen_nonneg l) as Hn.
  assert (to_u32 (vlen l) = vlen l) as -> by (unfold to_u32; apply Z.mod_small; lia). rewrite (bind_reads (put_uint 4)) by (change (256 ^ Z.of_nat 4) with (2 ^ 32); lia).
  unfold vlen in *. rewrite Nat2Z.id. clear Hl Hn. induction Hok as [|x l Hx Hok IH]; cbn [foldl length get_times]; [done|].
  rewrite foldl_appends, <-app_assoc by done. rewrite (bind_reads put) by done. unfold reader_bind. by rewrite IH.
Qed.

(** ** Redo records *)

Definition i32_ok (z : Z) : Prop := INT_MIN <= z <= INT_MAX.
Definition names_ok (src dst edge : string) : Prop := text_ok src /\ text_ok dst /\ text_ok edge.
Definition ends_ok (src_label : Z) (src : Property) (dst_label : Z) (dst : Property) (edge_label : Z) : Prop :=
  u8 src_label /\ prop_ok src /\ u8 dst_label /\ prop_ok dst /\ u8 edge_label.

(** What the fields of a record can hold. *)
Definition redo_ok (r : redo) : Prop :=
  match r with
  | CreateVertexTypeRedo t props keys => text_ok t /\ list_ok def_ok props /\ list_ok text_ok keys
  | CreateEdgeTypeRedo s d e props _ _ | AddEdgePropertiesRedo s d e props => names_ok s d e /\ list_ok def_ok props
  | AddVertexPropertiesRedo t props => text_ok t /\ list_ok def_ok props
  | RenameVertexPropertiesRedo t l => text_ok t /\ list_ok (fun p => text_ok (fst p) /\ text_ok (snd p)) l
  | RenameEdgePropertiesRedo s d e l => names_ok s d e /\ list_ok (fun p => text_ok (fst p) /\ text_ok (snd p)) l
  | DeleteVertexPropertiesRedo t l => text_ok t /\ list_ok text_ok l
  | DeleteEdgePropertiesRedo s d e l => names_ok s d e /\ list_ok text_ok l
  | DeleteVertexTypeRedo t => text_ok t
  | DeleteEdgeTypeRedo s d e => names_ok s d e
  | InsertVertexRedo l oid props => u8 l /\ prop_ok oid /\ list_ok prop_ok props
  | InsertEdgeRedo sl s dl d el props => ends_ok sl s dl d el /\ list_ok prop_ok props
  | UpdateVertexPropRedo l oid id v => u8 l /\ prop_ok oid /\ i32_ok id /\ prop_ok v
  | UpdateEdgePropRedo sl s dl d el oe ie id v => ends_ok sl s dl d el /\ i32_ok oe /\ i32_ok ie /\ i32_ok id /\ prop_ok v
  | RemoveVertexRedo l oid => u8 l /\ prop_ok oid
  | RemoveEdgeRedo sl s dl d el oe ie => ends_ok sl s dl d el /\ i32_ok oe /\ i32_ok ie
  end.

Lemma type_names_appends arc s d e : put_type_names arc s d e = arc ++ put_type_names [] s d e.
Proof.
  unfold put_type_names. rewrite (appends (put := put_text)), (appends (put := put_text) (put_text arc s)), (appends (put := put_text) arc).
  normal_form. done.
Qed.
Lemma ends_appends arc sl s dl d el : put_ends arc sl s dl d el = arc ++ put_ends [] sl s dl d el.
Proof. unfold put_ends. rewrite (appends (put := put_label) arc). normal_form. done. Qed.

Lemma type_names_read {B} s d e (f : string * string * string -> reader B) rest : names_ok s d e ->
  reader_bind get_type_names f (put_type_names [] s d e ++ rest) = f (s, d, e) rest.
Proof.
  intros (Hs & Hd & He). unfold put_type_names, get_type_names. normal_form. unfold reader_bind at 1. rewrite (bind_reads put_text) by done. rewrite (bind_reads put_text) by done.
  by rewrite (bind_reads put_text) by done.
Qed.
Lemma ends_read {B} sl s dl d el (f : Z * Property * Z * Property * Z -> reader B) rest : ends_ok sl s dl d el ->
  reader_bind get_ends f (put_ends [] sl s dl d el ++ rest) = f (sl, s, dl, d, el) rest.
Proof.
  intros (Hsl & Hs & Hdl & Hd & He). unfold put_ends, get_ends. normal_form. unfold reader_bind at 1.
  rewrite (bind_reads put_label) by done. rewrite (bind_reads put_property) by done. rewrite (bind_reads put_label) by done. rewrite (bind_reads put_property) by done.
  by rewrite (bind_reads put_label) by done.
Qed.

(** One value is read off. *)
Ltac read_one :=
  first [ rewrite type_names_read by done | rewrite ends_read by done | rewrite (bind_reads put_text) by done | rewrite (bind_reads put_property) by done
        | rewrite (bind_reads put_label) by done | rewrite (bind_reads put_int32) by done | rewrite (bind_reads put_strategy) by done
        | rewrite (bind_reads (put_list put_def)) by done | rewrite (bind_reads (put_list put_text)) by done
        | rewrite (bind_reads (put_list put_names)) by done | rewrite (bind_reads (put_list put_property)) by done ].

Lemma redo_appends arc r : put_redo arc r = arc ++ put_redo [] r.
Proof.
  destruct r; cbn [put_redo]; rewrite ?(ends_appends arc), ?(type_names_appends arc), ?(appends (put := put_text) arc), ?(appends (put := put_label) arc); normal_form; done.
Qed.
Lemma Serialize_appends arc r : Serialize arc r = arc ++ Serialize [] r.
Proof. unfold Serialize, put_op. rewrite redo_appends, (redo_appends (put_uint 1 [] _)), (appends (put := put_uint 1) arc). by rewrite app_assoc. Qed.

Lemma redo_reads r rest : redo_ok r -> get_redo (redo_op r) (put_redo [] r ++ rest) = Some (Returned r, rest).
Proof.
  destruct r; cbn [redo_ok put_redo redo_op get_redo]; intros Hr; destruct_and?; normal_form; repeat read_one; done.
Qed.

(** [IngestWal] reads the records back and applies them in order. *)
Lemma ingest_records {G} acc (apply : redo -> G -> option (outcome unit * G)) un (rs : list redo) : Forall (fun r => redo_ok r /\ acc (redo_op r) = true) rs ->
  forall fuel g, (length (foldl Serialize [] rs) < fuel)%nat -> ingest acc apply un fuel (foldl Serialize [] rs) g = each rs apply g.
Proof.
  induction 1 as [|r rs [Hr Hacc] Hrs IH]; intros fuel g Hf; (destruct fuel as [|fuel]; [lia|]); cbn [foldl each]; [done|].
  assert (foldl Serialize (Serialize [] r) rs = Serialize [] r ++ foldl Serialize [] rs) as Happ by (apply (@foldl_appends _ Serialize Serialize_appends)).
  cbn [foldl] in Hf. rewrite Happ in *. unfold Serialize in Hf at 1. unfold Serialize at 1. rewrite redo_appends in *. unfold put_op, put_uint, AddBytes in *. cbn [le_bytes app] in *.
  assert (get_op (op_code (redo_op r) mod 256 :: put_redo [] r ++ foldl Serialize [] rs) = Some (Returned (Some (redo_op r)), put_redo [] r ++ foldl Serialize [] rs)) as Hop.
  { unfold get_op. change (op_code (redo_op r) mod 256 :: put_redo [] r ++ foldl Serialize [] rs) with (put_uint 1 [] (op_code (redo_op r)) ++ (put_redo [] r ++ foldl Serialize [] rs)).
    rewrite (bind_reads (put_uint 1)) by (destruct r; done). by destruct r. }
  cbn [ingest]. rewrite Hop. cbn [mbind option_bind]. rewrite Hacc, redo_reads by done. cbn [mbind option_bind]. unfold and_then.
  destruct (apply r g) as [[[[]|] g1]|]; cbn [mbind option_bind]; [|done|done]. apply IH. cbn [length] in Hf. rewrite length_app in Hf. lia.
Qed.

(** C19: The redo records of a transaction, written one after the other, are read back as
    they were and applied in the order in which they were written, for every way to
    apply a record. *)
Theorem redo_roundtrip {G} acc (apply : redo -> G -> option (outcome unit * G)) un rs g : Forall (fun r => redo_ok r /\ acc (redo_op r) = true) rs ->
  IngestWal acc apply un (foldl Serialize [] rs) g = each rs apply g.
Proof. intros Hrs. apply ingest_records; [done|lia]. Qed.

Definition sample_redos : list redo :=
  [CreateVertexTypeRedo "person" [((kVarchar, 9), "name"%string, PVarchar [120]); ((kInt64, 0), "id"%string, PInt64 0)] ["id"%string];
   CreateEdgeTypeRedo "person" "person" "knows" [((kInt32, 0), "since"%string, PInt32 0)] kMultiple kSingle;
   InsertVertexRedo 0 (PInt64 (-5)) [PVarchar [97; 98]]; InsertVertexRedo 0 (PInt64 7) [PEmpty];
   InsertEdgeRedo 0 (PInt64 (-5)) 0 (PInt64 7) 0 [PInt32 1999]; UpdateEdgePropRedo 0 (PInt64 (-5)) 0 (PInt64 7) 0 0 (-1) 0 (PInt32 2000);
   RenameVertexPropertiesRedo "person" [("name"%string, "label"%string)]; DeleteVertexTypeRedo "person"].

Lemma redo_roundtrip_witness : length (foldl Serialize [] sample_redos) = 379%nat /\
  IngestWal (fun _ => true) (fun r l => Some (Returned tt, l ++ [r])) None (foldl Serialize [] sample_redos) [] = Some (Returned tt, sample_redos).
Proof.
  split; [vm_compute; reflexivity|]. rewrite (redo_roundtrip (fun _ => true) (fun r l => Some (Returned tt, l ++ [r])) None sample_redos []); [reflexivity|].
  repeat apply Forall_cons_2; try apply Forall_nil_2; (split; [|reflexivity]); cbn [redo_ok]; unfold names_ok, ends_ok, text_ok, list_ok, u8, i32_ok, INT_MIN, INT_MAX;
    repeat (split || apply Forall_cons_2 || apply Forall_nil_2); try (vm_compute; first [reflexivity|discriminate|done]); try done.
Defined.

(** ** Log files *)

(** A logged unit: an insert transaction or an update transaction with its records. *)
Record wal_unit := MkUnit { u_ts : Z; u_update : bool; u_content : list Z }.
Definition unit_fits (u : wal_unit) : Prop := 0 < u_ts u < 2 ^ 32 - 1 /\ vlen (u_content u) < 2 ^ 30.
(** What [Commit] gives to the writer. *)
Definition unit_bytes (u : wal_unit) : list Z := put_header (u_ts u) (ind (u_update u)) (vlen (u_content u)) ++ u_content u.
Definition write_units (us : list wal_unit) : LocalWalWriter := foldl (fun w u => append (unit_bytes u) w) open_writer us.
Definition bytes_of (us : list wal_unit) : list Z := flat_map unit_bytes us.

(** There is room for the header of zeros at which the parser ends. *)
Definition has_end (w : LocalWalWriter) : Prop := file_used_ w + HEADER_SIZE <= file_size_ w.

Record written (us : list wal_unit) (w : LocalWalWriter) : Prop := {
  wr_data : wal_data (file_ w) = bytes_of us;
  wr_size : wal_size (file_ w) = file_size_ w;
  wr_used : file_used_ w = vlen (bytes_of us);
  wr_fits : file_used_ w <= file_size_ w;
  wr_pos : 0 < file_size_ w
}.

Lemma write_units_written us : written us (write_units us).
Proof.
  unfold write_units. induction us as [|u us IH] using rev_ind; [by split|]. rewrite foldl_app. cbn [foldl].
  destruct (foldl _ open_writer us) as [f size used]. destruct IH as [H1 H2 H3 H4 H5]. cbn [file_ file_size_ file_used_] in *.
  assert (bytes_of (us ++ [u]) = bytes_of us ++ unit_bytes u) as Hb by (unfold bytes_of; rewrite flat_map_app; cbn [flat_map]; by rewrite app_nil_r).
  assert (vlen (wal_data f) = used) as Hl by congruence. pose proof (vlen_nonneg (unit_bytes u)) as Hn. pose proof (vlen_nonneg (bytes_of us)) as Hn0.
  unfold append. cbn [file_ file_size_ file_used_]. destruct (Z.ltb_spec size (used + vlen (unit_bytes u))) as [Hlt|Hge].
  - set (n := (used + vlen (unit_bytes u)) / TRUNC_SIZE). assert (used + vlen (unit_bytes u) < (n + 1) * TRUNC_SIZE) as Hbig.
    { pose proof (Z.mod_pos_bound (used + vlen (unit_bytes u)) TRUNC_SIZE eq_refl). pose proof (Z.div_mod (used + vlen (unit_bytes u)) TRUNC_SIZE ltac:(done)). fold n in H0. lia. }
    assert (((n + 1) * TRUNC_SIZE <? vlen (wal_data f)) = false) as Ht by (apply Z.ltb_ge; lia).
    split; unfold write_on, ftruncate; cbn [file_ file_size_ file_used_ wal_data wal_size]; rewrite ?Ht, ?Hb, ?H1, ?vlen_app; first [done|lia].
  - split; unfold write_on; cbn [file_ file_size_ file_used_ wal_data wal_size]; rewrite ?Hb, ?H1, ?vlen_app; first [done|lia].
Qed.

Lemma read_at_front f pre bs post : wal_data f = pre ++ bs ++ post -> vlen pre + vlen bs <= wal_size f -> read_at f (vlen pre) (vlen bs) = Some bs.
Proof.
  intros Hd Hs. pose proof (vlen_nonneg pre). pose proof (vlen_nonneg bs). unfold read_at. rewrite !(proj2 (Z.leb_le _ _)) by lia. cbn [andb]. f_equal. rewrite Hd.
  apply list_eq. intros i. rewrite list_lookup_fmap. destruct (decide (i < length bs)%nat) as [Hi|Hi].
  - rewrite lookup_seqZ_lt by (unfold vlen; lia). cbn [fmap option_fmap option_map]. unfold vlen. rewrite Z2Nat.inj_add, !Nat2Z.id by lia.
    rewrite lookup_app_r by lia. replace (length pre + i - length pre)%nat with i by lia. rewrite lookup_app_l by done. by destruct (lookup_lt_is_Some_2 bs i Hi) as [x ->].
  - rewrite lookup_seqZ_ge by (unfold vlen; lia). symmetry. apply lookup_ge_None_2. lia.
Qed.

Lemma read_at_end f : vlen (wal_data f) + HEADER_SIZE <= wal_size f -> read_at f (vlen (wal_data f)) HEADER_SIZE = Some (replicate 8 0).
Proof.
  intros Hs. pose proof (vlen_nonneg (wal_data f)). unfold read_at, HEADER_SIZE in *. rewrite !(proj2 (Z.leb_le _ _)) by lia. cbn [andb]. f_equal.
  apply list_eq. intros i. rewrite list_lookup_fmap. destruct (decide (i < 8)%nat) as [Hi|Hi].
  - rewrite lookup_seqZ_lt, lookup_replicate_2 by lia. cbn [fmap option_fmap option_map]. rewrite lookup_ge_None_2 by (unfold vlen; lia). done.
  - rewrite lookup_seqZ_ge by lia. symmetry. apply lookup_ge_None_2. rewrite length_replicate. lia.
Qed.

Lemma read_at_past f pos n : wal_size f < pos + n -> read_at f pos n = None.
Proof. intros Hp. unfold read_at. rewrite (proj2 (Z.leb_gt (pos + n) _)) by lia. by rewrite andb_false_r. Qed.

Lemma header_length ts type n : vlen (put_header ts type n) = HEADER_SIZE. Proof. done. Qed.
Lemma get_put_header ts b n : 0 < ts < 2 ^ 32 -> 0 <= n < 2 ^ 30 -> get_header (put_header ts (ind b) n) = Some (ts, ind b, n).
Proof.
  intros Hts Hn. unfold get_header, put_header. rewrite (appends (put := put_uint 4)). unfold to_u32. rewrite (Z.mod_small ts), (Z.mod_small n) by lia.
  rewrite (inv_read _ _ _ (uint_inverts 4 ts ltac:(change (256 ^ Z.of_nat 4) with (2 ^ 32); lia))). cbn [mbind option_bind].
  assert (ind b mod 2 = ind b) as -> by by destruct b. assert (0 <= ind b <= 1) as Hb by by destruct b.
  rewrite <-(app_nil_r (put_uint 4 [] _)), (inv_read _ _ _ (uint_inverts 4 (ind b + 2 * n) ltac:(change (256 ^ Z.of_nat 4) with (2 ^ 32); lia))). cbn [mbind option_bind].
  assert ((ind b + 2 * n) mod 2 = ind b) as -> by (rewrite Z.mul_comm, Z_mod_plus_full; by destruct b). assert ((ind b + 2 * n) / 2 = n) as -> by (symmetry; apply Z.div_unique with (ind b); lia).
  unfold to_i31. rewrite Z.mod_small by lia. do 2 f_equal. lia.
Qed.

(** *** What the parser collects *)

(** The list of insert units only grows. *)
Definition resize_units (n : Z) (l : list (list Z)) : list (list Z) := l ++ replicate (Z.to_nat (n - vlen l)) [].

Definition add_unit (p : LocalWalParser) (u : wal_unit) : LocalWalParser :=
  MkParser (if u_update u then insert_wal_list_ p else vput (resize_units (u_ts u + 1) (insert_wal_list_ p)) (u_ts u) (u_content u))
    (if u_update u then update_wal_list_ p ++ [(u_ts u, u_content u)] else update_wal_list_ p) (Z.max (u_ts u) (last_ts_ p)).

Lemma resize_units_len n l : vlen (resize_units n l) = Z.max n (vlen l).
Proof. unfold resize_units, vlen. rewrite length_app, length_replicate. lia. Qed.
Lemma resize_units_id n l : n <= vlen l -> resize_units n l = l.
Proof. intros Hn. unfold resize_units. replace (Z.to_nat (n - vlen l)) with 0%nat by lia. apply app_nil_r. Qed.

Lemma Resize_units n l : vlen l <= n -> Resize [] l n = resize_units n l.
Proof. unfold Resize, resize_units, vlen. intros Hn. rewrite take_ge by lia. do 2 f_equal. lia. Qed.

Lemma collect_unit p u : 0 < u_ts u < 2 ^ 32 - 1 -> collect (u_ts u) (ind (u_update u)) (u_content u) p = Some (add_unit p u).
Proof.
  intros Hts. unfold collect, add_unit. destruct (u_update u); cbn [ind negb Z.eqb]; [done|]. set (l := if _ <=? u_ts u then _ else _).
  assert (l = resize_units (u_ts u + 1) (insert_wal_list_ p)) as -> by (unfold l; destruct (Z.leb_spec (vlen (insert_wal_list_ p)) (u_ts u)); [unfold to_u32; rewrite Z.mod_small by lia; apply Resize_units; lia|]; by rewrite resize_units_id by lia).
  by rewrite vset_Some by (rewrite resize_units_len; lia).
Qed.

Lemma parse_units us : Forall unit_fits us -> forall fuel f pre p, wal_data f = pre ++ bytes_of us -> vlen (wal_data f) <= wal_size f ->
  parse_file (length us + fuel) f (vlen pre) p = parse_file fuel f (vlen (wal_data f)) (foldl add_unit p us).
Proof.
  induction 1 as [|u us [Hts Hc] Hus IH]; intros fuel f pre p Hd Hs; cbn [length Nat.add foldl].
  - unfold bytes_of in Hd. cbn [flat_map] in Hd. rewrite app_nil_r in Hd. by rewrite Hd.
  - cbn [parse_file]. unfold bytes_of in Hd. cbn [flat_map] in Hd. fold (bytes_of us) in Hd. unfold unit_bytes in Hd at 1. rewrite <-!app_assoc in Hd.
    set (h := put_header (u_ts u) (ind (u_update u)) (vlen (u_content u))) in *. assert (vlen h = HEADER_SIZE) as Hh by apply header_length.
    pose proof (vlen_nonneg (u_content u)). pose proof (vlen_nonneg (bytes_of us)). assert (vlen (wal_data f) = vlen pre + (HEADER_SIZE + (vlen (u_content u) + vlen (bytes_of us)))) as Hl by (rewrite Hd, !vlen_app; lia).
    rewrite <-Hh at 1. rewrite (read_at_front f pre h _ Hd) by lia. cbn [mbind option_bind]. unfold h at 1. rewrite get_put_header by lia. cbn [mbind option_bind].
    rewrite (proj2 (Z.eqb_neq _ _)) by lia. replace (vlen pre + HEADER_SIZE) with (vlen (pre ++ h)) by (rewrite vlen_app; lia).
    rewrite (read_at_front f (pre ++ h) (u_content u) (bytes_of us)) by first [rewrite Hd, <-!app_assoc; done|rewrite vlen_app; lia]. cbn [mbind option_bind].
    replace (vlen (pre ++ h) + vlen (u_content u)) with (vlen (pre ++ h ++ u_content u)) by (rewrite !vlen_app; lia).
    rewrite collect_unit by lia.
    cbn [mbind option_bind]. apply (IH fuel f (pre ++ h ++ u_content u)); [rewrite Hd, <-!app_assoc; done|done].
Qed.

Lemma bytes_longer us : (length us <= length (bytes_of us))%nat.
Proof.
  induction us as [|u us IH]; [done|]. unfold bytes_of in *. cbn [flat_map length]. unfold unit_bytes at 1. rewrite !length_app. cbn [length put_header put_uint AddBytes app le_bytes]. lia.
Qed.

Definition fresh_parser : LocalWalParser := MkParser (resize_units 4096 []) [] 0.
Definition collected (us : list wal_unit) : LocalWalParser := foldl add_unit fresh_parser us.

Lemma parse_logs logs p : Forall (Forall unit_fits) logs -> Forall (fun us => has_end (write_units us)) logs ->
  parse_files (map (fun us => file_ (write_units us)) logs) p = Some (foldl add_unit p (concat logs)).
Proof.
  revert p. induction logs as [|us logs IH]; intros p Hf He; cbn [map parse_files concat]; [done|]. apply Forall_cons in Hf as [Hf Hfs]. apply Forall_cons in He as [He Hes].
  destruct (write_units_written us) as [H1 H2 H3 H4 H5]. rewrite (proj2 (Z.eqb_neq _ _)) by lia. unfold has_end in He.
  change 0 with (vlen (@nil Z)). pose proof (bytes_longer us). rewrite H1. replace (S (length (bytes_of us))) with (length us + S (length (bytes_of us) - length us))%nat by lia.
  rewrite (parse_units us Hf _ _ []) by (rewrite ?H1; (done || lia)). cbn [parse_file]. rewrite read_at_end by (rewrite H1; lia). cbn [mbind option_bind]. rewrite foldl_app. by apply IH.
Qed.

Lemma open_logs logs : Forall (Forall unit_fits) logs -> Forall (fun us => has_end (write_units us)) logs ->
  open_parser (map (fun us => file_ (write_units us)) logs) =
    Some (MkParser (insert_wal_list_ (collected (concat logs))) (merge_sort by_ts (update_wal_list_ (collected (concat logs)))) (last_ts_ (collected (concat logs)))).
Proof. intros Hf He. unfold open_parser. by rewrite parse_logs. Qed.

(** The timestamp of a unit, how many entries the list of insert units has, and the
    insert unit found at a timestamp: the last one that was read. *)
Definition last_ts (us : list wal_unit) : Z := foldr (fun u n => Z.max (u_ts u) n) 0 us.
Definition list_size (us : list wal_unit) : Z := foldr (fun u n => if u_update u then n else Z.max (u_ts u + 1) n) 4096 us.
Definition content_at (us : list wal_unit) (ts : Z) : list Z := foldl (fun c u => if negb (u_update u) && (u_ts u =? ts) then u_content u else c) [] us.
Definition updates (us : list wal_unit) : list (Z * list Z) := map (fun u => (u_ts u, u_content u)) (filter (fun u => u_update u = true) us).

Lemma last_ts_app us vs : last_ts (us ++ vs) = Z.max (last_ts us) (last_ts vs).
Proof.
  unfold last_ts. assert (forall vs, 0 <= foldr (fun u n => Z.max (u_ts u) n) 0 vs) as Hp by (intros l; induction l as [|? ? IH]; simpl; lia).
  induction us as [|u us IH]; cbn [app foldr]; [specialize (Hp vs); lia|]. rewrite IH. lia.
Qed.
Lemma list_size_ge us : 4096 <= list_size us.
Proof. unfold list_size. induction us as [|u us IH]; cbn [foldr]; [lia|]. destruct (u_update u); lia. Qed.
Lemma list_size_app us vs : list_size (us ++ vs) = Z.max (list_size us) (list_size vs).
Proof.
  pose proof (list_size_ge vs) as Hv. unfold list_size in *. induction us as [|u us IH]; cbn [app foldr]; [lia|]. rewrite IH. destruct (u_update u); lia.
Qed.

Lemma vget_resize n l j : 0 <= j < Z.max n (vlen l) -> vget (resize_units n l) j = Some (if j <? vlen l then default [] (vget l j) else []).
Proof.
  intros Hj. pose proof (vlen_nonneg l). destruct (vget_is (resize_units n l) j) as [x Hx]; [by rewrite resize_units_len|]. rewrite Hx. apply vget_iff in Hx as [_ Hx]. unfold resize_units in Hx.
  destruct (Z.ltb_spec j (vlen l)) as [Hlt|Hge].
  - rewrite lookup_app_l in Hx by (unfold vlen in *; lia). assert (vget l j = Some x) as -> by (apply vget_iff; split; [lia|done]). done.
  - rewrite lookup_app_r in Hx by (unfold vlen in *; lia). by apply lookup_replicate in Hx as [-> _].
Qed.

Lemma list_size_cons u us : list_size (u :: us) = if u_update u then list_size us else Z.max (u_ts u + 1) (list_size us). Proof. done. Qed.
Lemma last_ts_cons u us : last_ts (u :: us) = Z.max (u_ts u) (last_ts us). Proof. done. Qed.

Lemma content_beyond us j : list_size us <= j -> content_at us j = [].
Proof.
  unfold content_at. generalize (@nil Z). induction us as [|u us IH]; intros c Hj; cbn [foldl]; [done|]. pose proof (list_size_ge us). unfold list_size in *. cbn [foldr] in Hj.
  rewrite IH by (destruct (u_update u); lia). destruct (u_update u); cbn [negb andb]; [done|]. by rewrite (proj2 (Z.eqb_neq _ _)) by lia.
Qed.

Lemma collected_spec us : Forall (fun u => 0 < u_ts u) us -> let p := collected us in vlen (insert_wal_list_ p) = list_size us /\
  (forall j, 0 <= j < list_size us -> vget (insert_wal_list_ p) j = Some (content_at us j)) /\ update_wal_list_ p = updates us /\ last_ts_ p = last_ts us.
Proof.
  intros Hus. cbn zeta. induction us as [|u us IH] using rev_ind.
  - split; [done|]. split; [|done]. intros j Hj. change (vget (resize_units 4096 []) j = Some (content_at [] j)). rewrite vget_resize by done. unfold content_at. cbn [foldl]. by destruct (j <? vlen []); [destruct (vget [] j) eqn:E; [apply vget_lt in E; unfold vlen in E; simpl in E; lia|]|].
  - apply Forall_app in Hus as [Hus Hu]. apply (proj1 (Forall_singleton _ _)) in Hu. cbn beta in Hu. destruct (IH Hus) as (H1 & H2 & H3 & H4). unfold collected in *. rewrite foldl_app. cbn [foldl]. rewrite list_size_app, last_ts_app.
    unfold updates. rewrite filter_app, map_app. fold (updates us). unfold add_unit at 1 3 5 7. cbn [insert_wal_list_ update_wal_list_ last_ts_]. pose proof (list_size_ge us).
    assert (forall j, content_at (us ++ [u]) j = if negb (u_update u) && (u_ts u =? j) then u_content u else content_at us j) as Hc by (intros j; unfold content_at; by rewrite foldl_app).
    unfold list_size at 2 4, last_ts at 2. cbn [foldr]. setoid_rewrite Hc. rewrite H3, H4, filter_cons, filter_nil.
    destruct (u_update u) eqn:Eu; cbn [negb andb].
    + rewrite decide_True by done. split; [lia|]. split; [intros j Hj; apply H2; lia|]. split; [done|lia].
    + rewrite decide_False by done. cbn [map]. rewrite app_nil_r. rewrite vput_len, resize_units_len. split; [lia|]. split; [|split; [done|lia]].
      intros j Hj. destruct (Z.eqb_spec (u_ts u) j) as [<-|Hne]; [rewrite vget_vput_eq; [done|rewrite resize_units_len; lia]|].
      rewrite vget_vput_ne by (rewrite ?resize_units_len; (lia || done)). rewrite vget_resize by lia. f_equal. destruct (Z.ltb_spec j (vlen (insert_wal_list_ (foldl add_unit fresh_parser us)))) as [Hlt|Hge].
      * by rewrite H2 by lia.
      * rewrite content_beyond; [done|lia].
Qed.

(** ** Recovery *)

Lemma each_app {A S} (l k : list A) (f : A -> S -> option (outcome unit * S)) s : each (l ++ k) f s = and_then (each l f s) (fun _ s => each k f s).
Proof.
  revert s. induction l as [|x l IH]; intros s; cbn [app each]; [done|]. unfold and_then. destruct (f x s) as [[[[]|] s1]|]; cbn [mbind option_bind]; [|done|done].
  rewrite IH. done.
Qed.
Lemma each_ext {A S} (l : list A) (f f' : A -> S -> option (outcome unit * S)) s : (forall x s, x ∈ l -> f x s = f' x s) -> each l f s = each l f' s.
Proof.
  revert s. induction l as [|x l IH]; intros s Hf; cbn [each]; [done|]. rewrite Hf by apply list_elem_of_here. unfold and_then. destruct (f' x s) as [[[[]|] s1]|]; cbn [mbind option_bind]; [|done|done].
  apply IH. intros y s2 Hy. apply Hf. by apply list_elem_of_further.
Qed.

(** A step that does nothing defined, among steps that return. *)
Lemma each_none {A S} (l : list A) (f : A -> S -> option (outcome unit * S)) x s : x ∈ l -> (forall s, f x s = None) ->
  (forall y s, y ∈ l -> f y s = None \/ exists s', f y s = Some (Returned tt, s')) -> each l f s = None.
Proof.
  intros Hx Hn. revert s. induction l as [|y l IH]; intros s Hf; [by apply elem_of_nil in Hx|]. cbn [each]. unfold and_then.
  destruct (Hf y s (list_elem_of_here y l)) as [->|[s' E]]; [done|]. apply elem_of_cons in Hx as [->|Hx]; [by rewrite Hn|]. rewrite E. cbn [mbind option_bind].
  apply IH; [done|]. intros z s2 Hz. apply Hf. by apply list_elem_of_further.
Qed.

Definition unit_at (us : list wal_unit) (ts : Z) : option wal_unit := head (filter (fun u => u_ts u = ts) us).
(** An entry of the list of insert units is read for every timestamp that is not that
    of an update; the list has to reach so far. *)
Definition readable (us : list wal_unit) : Prop := forall j, list_size us <= j <= last_ts us -> exists u, u ∈ us /\ u_update u = true /\ u_ts u = j.

Lemma unit_at_iff us ts u : NoDup (map u_ts us) -> unit_at us ts = Some u <-> u ∈ us /\ u_ts u = ts.
Proof.
  unfold unit_at. induction us as [|v us IH]; intros Hd; [split; [done|intros [[]%elem_of_nil _]]|]. apply NoDup_cons in Hd as [Hv Hd]. rewrite filter_cons, elem_of_cons. case_decide as E.
  - cbn [head]. split; [intros [= <-]; split; [by left|done]|]. intros [[->|Hu] Hts]; [done|]. destruct Hv. rewrite E, <-Hts. by apply list_elem_of_fmap_2.
  - rewrite IH by done. split; [intros [? ?]; split; [by right|done]|]. intros [[->|?] ?]; done.
Qed.
Lemma unit_at_none us ts : unit_at us ts = None <-> forall u, u ∈ us -> u_ts u <> ts.
Proof.
  unfold unit_at. induction us as [|v us IH]; [split; [by intros _ u ?%elem_of_nil|done]|]. rewrite filter_cons. case_decide as E.
  - cbn [head]. split; [done|]. intros Hn. destruct (Hn v (list_elem_of_here v us) E).
  - rewrite IH. split; intros Hn u Hu; [apply elem_of_cons in Hu as [->|Hu]; [done|by apply Hn]|apply Hn; by apply list_elem_of_further].
Qed.
Lemma content_unit us ts : NoDup (map u_ts us) -> content_at us ts = match unit_at us ts with Some u => if u_update u then [] else u_content u | None => [] end.
Proof.
  intros Hd. induction us as [|v us IH] using rev_ind; [done|]. rewrite map_app in Hd. apply NoDup_app in Hd as (Hd & Hv & _).
  assert (unit_at (us ++ [v]) ts = match unit_at us ts with Some u => Some u | None => if decide (u_ts v = ts) then Some v else None end) as ->.
  { unfold unit_at. rewrite filter_app, filter_cons, filter_nil. destruct (filter _ us) eqn:E; cbn [app head]; [by case_decide|done]. }
  unfold content_at in *. rewrite foldl_app. cbn [foldl]. rewrite (IH Hd). destruct (unit_at us ts) as [u|] eqn:E.
  - apply (unit_at_iff us ts u Hd) in E as [Hu <-]. assert (u_ts v <> u_ts u) as Hne by (intros Eq; apply (Hv (u_ts u)); [by apply list_elem_of_fmap_2|rewrite <-Eq; apply list_elem_of_here]).
    rewrite (proj2 (Z.eqb_neq _ _)) by done. by rewrite andb_false_r.
  - case_decide as Ev; [rewrite (proj2 (Z.eqb_eq _ _) Ev)|rewrite (proj2 (Z.eqb_neq _ _) Ev), andb_false_r]; [|done]. by destruct (u_update v).
Qed.

Lemma last_ts_ge us u : u ∈ us -> u_ts u <= last_ts us.
Proof.
  unfold last_ts. intros Hu. induction us as [|v us IH]; [by apply elem_of_nil in Hu|]. cbn [foldr]. apply elem_of_cons in Hu as [->|Hu]; [lia|]. specialize (IH Hu). lia.
Qed.

Class ReplayLaws (G : Type) `{!Replay G} := { replay_nothing ts (g : G) : replay_insert ts [] g = Some (Returned tt, g) }.

Section recovery.
Context {G : Type} `{!Replay G}.

Definition replay_unit (u : wal_unit) (g : G) : option (outcome unit * G) :=
  if u_update u then (if vlen (u_content u) =? 0 then replay_compact (u_ts u) g else replay_update (u_ts u) (u_content u) g)
  else replay_insert (u_ts u) (u_content u) g.
Definition replay_at (us : list wal_unit) (ts : Z) (g : G) : option (outcome unit * G) :=
  match unit_at us ts with Some u => replay_unit u g | None => Some (Returned tt, g) end.

(** The reference: the units in the order of their timestamps. *)
Definition replay_in_order (us : list wal_unit) (g : G) : option (outcome unit * G) := each (seqZ 1 (last_ts us)) (replay_at us) g.

Section units.
Context (us : list wal_unit) (Hpos : Forall (fun u => 0 < u_ts u) us) (Hd : NoDup (map u_ts us)) (Hr : readable us).
Context (p : LocalWalParser) (Hmax : last_ts us < 2 ^ 32 - 1) (Hlast : last_ts_ p = last_ts us) (Hlen : vlen (insert_wal_list_ p) = list_size us).
Context (Hget : forall j, 0 <= j < list_size us -> vget (insert_wal_list_ p) j = Some (content_at us j)).

Lemma range_replays `{!ReplayLaws G} from to g : 1 <= from -> to <= last_ts us + 1 -> (forall u, u ∈ us -> u_update u = true -> from <= u_ts u < to -> False) ->
  IngestWalRange p from to g = each (seqZ from (to - from)) (replay_at us) g.
Proof.
  intros Hf Hto Hno. unfold IngestWalRange. apply each_ext. intros j g1 Hj%elem_of_seqZ. unfold get_insert_wal.
  assert (j < list_size us) as Hlt. { destruct (Z.ltb_spec j (list_size us)); [done|]. destruct (Hr j ltac:(lia)) as (u & Hu & Hup & Hts). destruct (Hno u Hu Hup). lia. }
  rewrite Hget by lia. cbn [mbind option_bind]. rewrite content_unit by done. unfold replay_at, replay_unit. destruct (unit_at us j) as [u|] eqn:E; [|apply replay_nothing].
  apply (unit_at_iff us j u Hd) in E as [Hu <-]. destruct (u_update u) eqn:Eu; [|done]. destruct (Hno u Hu Eu). lia.
Qed.

Definition waiting (from : Z) (l : list (Z * list Z)) : Prop :=
  StronglySorted (fun x y => fst x < fst y) l /\ forall t c, (t, c) ∈ l <-> exists u, u ∈ us /\ u_update u = true /\ u_ts u = t /\ u_content u = c /\ from <= t.

Definition ingest_from (from : Z) (l : list (Z * list Z)) (g : G) : option (outcome unit * G) :=
  and_then (ingest_updates p from l g) (fun from_ts g => if from_ts <=? last_ts_ p then IngestWalRange p from_ts (to_u32 (last_ts_ p + 1)) g else Some (Returned tt, g)).

Lemma ingest_from_cons from t c l g : 0 <= t < 2 ^ 32 - 1 -> ingest_from from ((t, c) :: l) g =
  and_then (if from <? t then IngestWalRange p from t g else Some (Returned tt, g)) (fun _ g =>
  and_then (if vlen c =? 0 then replay_compact t g else replay_update t c g) (fun _ g => ingest_from (t + 1) l g)).
Proof.
  intros Ht. unfold ingest_from. cbn [ingest_updates]. assert (to_u32 (t + 1) = t + 1) as -> by (unfold to_u32; apply Z.mod_small; lia). unfold and_then. destruct (if from <? t then _ else _) as [[[[]|] g1]|]; cbn [mbind option_bind]; [|done|done].
  destruct (if vlen c =? 0 then _ else _) as [[[[]|] g2]|]; done.
Qed.

Lemma waiting_cons from t c l : waiting from ((t, c) :: l) ->
  from <= t <= last_ts us /\ (exists u, u ∈ us /\ u_update u = true /\ u_ts u = t /\ u_content u = c) /\ waiting (t + 1) l /\
  (forall u, u ∈ us -> u_update u = true -> from <= u_ts u < t -> False).
Proof.
  intros [Hs Hw]. apply StronglySorted_inv in Hs as [Hs Hall]. rewrite Forall_forall in Hall. destruct (proj1 (Hw t c) (list_elem_of_here _ _)) as (u & Hu & Hup & Hts & Hc & Hf).
  split; [split; [done|rewrite <-Hts; by apply last_ts_ge]|]. split; [by exists u|]. split.
  - split; [done|]. intros t' c'. split.
    + intros Hin. pose proof (Hall _ Hin) as Hlt. cbn [fst] in Hlt. destruct (proj1 (Hw t' c')) as (v & Hv & Hvp & Hvt & Hvc & _); [by apply list_elem_of_further|]. exists v. split_and!; try done. lia.
    + intros (v & Hv & Hvp & Hvt & Hvc & Hge). assert ((t', c') ∈ (t, c) :: l) as Hin by (apply Hw; exists v; split_and!; try done; lia).
      apply elem_of_cons in Hin as [[= -> _]|Hin]; [lia|done].
  - intros v Hv Hvp Hvt. assert ((u_ts v, u_content v) ∈ (t, c) :: l) as Hin by (apply Hw; exists v; split_and!; try done; lia).
    apply elem_of_cons in Hin as [[= E _]|Hin]; [lia|]. apply Hall in Hin. cbn [fst] in Hin. lia.
Qed.

Lemma ingest_from_replays `{!ReplayLaws G} l from g : 1 <= from -> waiting from l -> ingest_from from l g = each (seqZ from (last_ts us + 1 - from)) (replay_at us) g.
Proof.
  revert from g. induction l as [|[t c] l IH]; intros from g Hf Hw.
  - unfold ingest_from, and_then. cbn [ingest_updates mbind option_bind]. rewrite Hlast. destruct (Z.leb_spec from (last_ts us)); [assert (to_u32 (last_ts us + 1) = last_ts us + 1) as -> by (unfold to_u32; apply Z.mod_small; lia)|]; [|by rewrite seqZ_nil by lia].
    apply range_replays; [done|lia|]. intros u Hu Hup Hts. destruct Hw as [_ Hw]. assert ((u_ts u, u_content u) ∈ []) as Hin by (apply Hw; exists u; split_and!; try done; lia).
    by apply elem_of_nil in Hin.
  - apply waiting_cons in Hw as (Ht & (u & Hu & Hup & Hts & Hc) & Hw & Hno). rewrite ingest_from_cons by lia.
    assert (seqZ from (last_ts us + 1 - from) = seqZ from (t - from) ++ t :: seqZ (t + 1) (last_ts us + 1 - (t + 1))) as ->.
    { replace (last_ts us + 1 - from) with ((t - from) + (last_ts us + 1 - t)) by lia. rewrite seqZ_app by lia. f_equal. replace (from + (t - from)) with t by lia.
      rewrite (seqZ_cons t) by lia. f_equal; f_equal; lia. }
    rewrite each_app. assert ((if from <? t then IngestWalRange p from t g else Some (Returned tt, g)) = each (seqZ from (t - from)) (replay_at us) g) as ->.
    { destruct (Z.ltb_spec from t); [apply range_replays; [done|lia|done]|]. by rewrite seqZ_nil by lia. }
    unfold and_then at 1 3. destruct (each (seqZ from (t - from)) (replay_at us) g) as [[[[]|] g1]|]; cbn [mbind option_bind]; [|done|done].
    cbn [each]. assert (replay_at us t g1 = if vlen c =? 0 then replay_compact t g1 else replay_update t c g1) as ->.
    { unfold replay_at. assert (unit_at us t = Some u) as -> by (by apply unit_at_iff). unfold replay_unit. by rewrite Hup, Hts, Hc. }
    unfold and_then. destruct (if vlen c =? 0 then _ else _) as [[[[]|] g2]|]; cbn [mbind option_bind]; [|done|done].
    apply IH; [lia|done].
Qed.

(** The list is too short. *)
Lemma ingest_from_fails l from j g : 1 <= from -> waiting from l -> from <= j -> list_size us <= j <= last_ts us -> (forall u, u ∈ us -> u_update u = true -> u_ts u <> j) ->
  (forall ts c g, (exists g', replay_insert ts c g = Some (Returned tt, g')) /\ (exists g', replay_update ts c g = Some (Returned tt, g')) /\ exists g', replay_compact ts g = Some (Returned tt, g')) ->
  ingest_from from l g = None.
Proof.
  intros Hf Hw Hj Hrange Hno Hret. assert (forall from to g, from <= j < to -> IngestWalRange p from to g = None) as Hnone.
  { intros a b g1 Hab. unfold IngestWalRange. apply (each_none _ _ j); [apply elem_of_seqZ; lia| |].
    - intros g2. unfold get_insert_wal. destruct (vget (insert_wal_list_ p) j) eqn:E; [apply vget_lt in E; lia|done].
    - intros i g2 _. unfold get_insert_wal. destruct (vget (insert_wal_list_ p) i) as [c|]; [right|by left]. cbn [mbind option_bind]. apply (Hret i c g2). }
  assert (forall from to g, IngestWalRange p from to g = None \/ exists g', IngestWalRange p from to g = Some (Returned tt, g')) as Hor.
  { intros a b g1. unfold IngestWalRange. generalize (seqZ a (b - a)). intros k. revert g1. induction k as [|i k IH]; intros g1; cbn [each]; [right; by exists g1|]. unfold get_insert_wal at 1 3.
    destruct (vget (insert_wal_list_ p) i) as [c|]; cbn [mbind option_bind]; [|by left]. destruct (Hret i c g1) as ((g' & E) & _). rewrite E. unfold and_then. cbn [mbind option_bind]. apply IH. }
  revert from g Hf Hw Hj. induction l as [|[t c] l IH]; intros from g Hf Hw Hj.
  - unfold ingest_from, and_then. cbn [ingest_updates mbind option_bind]. rewrite Hlast, (proj2 (Z.leb_le _ _)) by lia. apply Hnone. unfold to_u32. rewrite Z.mod_small by lia. lia.
  - apply waiting_cons in Hw as (Ht & (u & Hu & Hup & Hts & _) & Hw & _). rewrite ingest_from_cons by lia. assert (j <> t) by (intros ->; by apply (Hno u Hu Hup)).
    assert (forall g, and_then (if vlen c =? 0 then replay_compact t g else replay_update t c g) (fun _ g => ingest_from (t + 1) l g) = None \/ j < t) as Hrest.
    { intros g1. destruct (decide (j < t)) as [|Hge]; [by right|left]. destruct (Hret t c g1) as (_ & (g2 & E2) & (g3 & E3)). rewrite E2, E3.
      destruct (vlen c =? 0); unfold and_then; cbn [mbind option_bind]; apply IH; (done || lia). }
    destruct (decide (j < t)) as [Hlt|Hge]; [rewrite (proj2 (Z.ltb_lt from t)), Hnone by lia; done|].
    assert (exists m, (if from <? t then IngestWalRange p from t g else Some (Returned tt, g)) = m /\ (m = None \/ exists g', m = Some (Returned tt, g'))) as (m & -> & [->|[g1 ->]]).
    { destruct (from <? t); eexists; (split; [reflexivity|]); [apply Hor|right; by exists g]. }
    + done.
    + unfold and_then at 1. cbn [mbind option_bind]. by destruct (Hrest g1).
Qed.
End units.
End recovery.

#[local] Instance by_ts_total : Total by_ts. Proof. intros x y. unfold by_ts. lia. Qed.
#[local] Instance by_ts_trans : Transitive by_ts. Proof. intros x y z. unfold by_ts. lia. Qed.

Lemma elem_of_updates us t c : (t, c) ∈ updates us <-> exists u, u ∈ us /\ u_update u = true /\ u_ts u = t /\ u_content u = c.
Proof.
  unfold updates. rewrite list_elem_of_fmap. setoid_rewrite list_elem_of_filter. split.
  - intros (u & [= -> ->] & Hup & Hu). by exists u.
  - intros (u & Hu & Hup & <- & <-). by exists u.
Qed.

Lemma sorted_updates us : Forall (fun u => 0 < u_ts u) us -> NoDup (map u_ts us) -> waiting us 1 (merge_sort by_ts (updates us)).
Proof.
  intros Hpos Hd. rewrite Forall_forall in Hpos. split.
  - assert (NoDup (map fst (merge_sort by_ts (updates us)))) as Hf.
    { rewrite merge_sort_Permutation. unfold updates. rewrite map_map. cbn [fst]. clear Hpos. induction us as [|u us IH]; [constructor|]. apply NoDup_cons in Hd as [Hu Hd]. rewrite filter_cons.
      case_decide; [|by apply IH]. cbn [map]. apply NoDup_cons. split; [|by apply IH]. intros (v & Hv & Hin)%list_elem_of_fmap. apply Hu. rewrite Hv. apply list_elem_of_filter in Hin as [_ Hin]. by apply list_elem_of_fmap_2. }
    pose proof (StronglySorted_merge_sort by_ts (updates us)) as Hs. induction Hs as [|x l Hs IH Hall]; [constructor|]. cbn [map] in Hf. apply NoDup_cons in Hf as [Hx Hf]. constructor; [by apply IH|].
    rewrite Forall_forall in Hall |- *. intros y Hy. pose proof (Hall y Hy) as Hle. unfold by_ts in Hle. assert (fst x <> fst y) by (intros E; apply Hx; rewrite E; by apply list_elem_of_fmap_2). lia.
  - intros t c. rewrite merge_sort_Permutation, elem_of_updates. split; intros (u & Hu & Hup & Hts & Hc); exists u; split_and!; try done; [|by destruct Hc]. specialize (Hpos u Hu). cbn beta in Hpos. lia.
Qed.

Lemma fits_positive us : Forall unit_fits us -> Forall (fun u => 0 < u_ts u) us.
Proof. intros Hf. eapply Forall_impl; [exact Hf|]. intros u [Hu _]. lia. Qed.

Lemma last_ts_fits us : Forall unit_fits us -> last_ts us < 2 ^ 32 - 1.
Proof. induction 1 as [|u us [Hu _] _ IH]; [done|]. rewrite last_ts_cons. lia. Qed.

Section logs.
Context {G : Type} `{!Replay G}.

Lemma logs_replayed `{!ReplayLaws G} (logs : list (list wal_unit)) (g : G) : Forall (Forall unit_fits) logs -> Forall (fun us => has_end (write_units us)) logs ->
  NoDup (map u_ts (concat logs)) -> readable (concat logs) ->
  wp (open_parser (map (fun us => file_ (write_units us)) logs)) (fun p => ingestWals p g = replay_in_order (concat logs) g).
Proof.
  intros Hf He Hd Hr. assert (Forall (fun u => 0 < u_ts u) (concat logs)) as Hpos by (by apply fits_positive, Forall_concat). destruct (collected_spec _ Hpos) as (H1 & H2 & H3 & H4).
  rewrite open_logs by done. apply wp_ret. set (p := MkParser _ _ _). change (ingest_from p 1 (update_wal_list_ p) g = replay_in_order (concat logs) g).
  unfold replay_in_order. replace (last_ts (concat logs)) with (last_ts (concat logs) + 1 - 1) at 1 by lia.
  apply (ingest_from_replays (concat logs) Hd Hr p (last_ts_fits _ (proj2 (Forall_concat _ _) Hf)) H4 H2); [lia|]. cbn [p update_wal_list_]. rewrite H3. by apply sorted_updates.
Qed.

(** Units that are in the order of their timestamps. *)
Lemma unit_at_app us v ts : unit_at (us ++ [v]) ts = match unit_at us ts with Some u => Some u | None => if decide (u_ts v = ts) then Some v else None end.
Proof. unfold unit_at. rewrite filter_app, filter_cons, filter_nil. destruct (filter _ us) eqn:E; cbn [app head]; [by case_decide|done]. Qed.

Lemma replay_sorted us (g : G) : Forall (fun u => 0 < u_ts u) us -> StronglySorted Z.lt (map u_ts us) -> replay_in_order us g = each us replay_unit g.
Proof.
  unfold replay_in_order. revert g. induction us as [|v us IH] using rev_ind; intros g Hpos Hs; [done|]. rewrite map_app in Hs. apply Forall_app in Hpos as [Hpos Hv]. apply (proj1 (Forall_singleton _ _)) in Hv. cbn beta in Hv.
  assert (StronglySorted Z.lt (map u_ts us)) as Hs1 by (by apply StronglySorted_app_1_l in Hs).
  assert (forall u, u ∈ us -> u_ts u < u_ts v) as Hlt by (intros u Hu; apply (StronglySorted_app_1_elem_of Z.lt (map u_ts us) (map u_ts [v]) (u_ts u) (u_ts v) Hs); [by apply list_elem_of_fmap_2|apply list_elem_of_here]).
  assert (last_ts us < u_ts v) as Hl. { clear - Hlt Hv. induction us as [|u us IH]; [done|]. rewrite last_ts_cons. pose proof (Hlt u (list_elem_of_here u us)). assert (last_ts us < u_ts v) by (apply IH; intros x Hx; apply Hlt; by apply list_elem_of_further). lia. }
  rewrite last_ts_app, last_ts_cons. assert (0 <= last_ts us) as Hl0 by (unfold last_ts; clear; induction us; simpl; lia). change (last_ts []) with 0. replace (Z.max (last_ts us) (Z.max (u_ts v) 0)) with (last_ts us + ((u_ts v - last_ts us - 1) + 1)) by lia.
  rewrite seqZ_app, seqZ_app by lia. replace (1 + last_ts us + (u_ts v - last_ts us - 1)) with (u_ts v) by lia. rewrite (seqZ_cons (u_ts v) 1) by lia. change (seqZ (Z.succ (u_ts v)) (Z.pred 1)) with (@nil Z). rewrite !each_app.
  rewrite (each_ext (seqZ 1 (last_ts us)) _ (replay_at us)).
  2: { intros j g1 Hj%elem_of_seqZ. unfold replay_at. rewrite unit_at_app. destruct (unit_at us j); [done|]. by rewrite decide_False by lia. }
  rewrite IH by done. unfold and_then. destruct (each us replay_unit g) as [[[[]|] g1]|]; cbn [mbind option_bind]; [|done|done]. rewrite each_app.
  assert (forall g1, each (seqZ (1 + last_ts us) (u_ts v - last_ts us - 1)) (replay_at (us ++ [v])) g1 = Some (Returned tt, g1)) as ->.
  { intros g2. assert (forall l g2, (forall j, j ∈ l -> last_ts us < j < u_ts v) -> each l (replay_at (us ++ [v])) g2 = Some (Returned tt, g2)) as Hn.
    { intros l. induction l as [|j l IHl]; intros g3 Hj; [done|]. cbn [each]. pose proof (Hj j (list_elem_of_here j l)). unfold replay_at at 1. rewrite unit_at_app.
      assert (unit_at us j = None) as -> by (apply unit_at_none; intros u Hu Eu; pose proof (last_ts_ge us u Hu); lia). rewrite decide_False by lia. unfold and_then. cbn [mbind option_bind].
      apply IHl. intros k Hk. apply Hj. by apply list_elem_of_further. }
    apply Hn. intros j Hj%elem_of_seqZ. lia. }
  unfold and_then. cbn [mbind option_bind each]. unfold replay_at, and_then. rewrite unit_at_app. assert (unit_at us (u_ts v) = None) as -> by (apply unit_at_none; intros u Hu Eu; pose proof (Hlt u Hu); lia).
  by rewrite decide_True.
Qed.

(** C13: Recovery reads the log files of all threads, in whatever order the directory gives
    them, and replays the logged units in the order of their timestamps, compactions
    in their place, provided that the timestamps are distinct, every file has room for
    the header that ends it, and the list of insert units reaches as far as it is
    read. *)
Theorem recovery_in_order `{!ReplayLaws G} (logs : list (list wal_unit)) (g : G) : Forall (Forall unit_fits) logs -> Forall (fun us => has_end (write_units us)) logs ->
  NoDup (map u_ts (concat logs)) -> readable (concat logs) ->
  wp (open_parser (map (fun us => file_ (write_units us)) logs)) (fun p => ingestWals p g = replay_in_order (concat logs) g).
Proof. apply logs_replayed. Qed.

Lemma vget_ext {A} (l k : list A) : vlen l = vlen k -> (forall j, 0 <= j < vlen l -> vget l j = vget k j) -> l = k.
Proof.
  unfold vlen. intros Hl Hv. apply list_eq. intros i. destruct (decide (i < length l)%nat) as [Hi|Hi]; [|by rewrite !lookup_ge_None_2 by lia].
  specialize (Hv (Z.of_nat i) ltac:(lia)). unfold vget in Hv. rewrite (proj2 (Z.ltb_ge _ _)), Nat2Z.id in Hv by lia. done.
Qed.

Lemma collected_reused a b c u1 u2 : Forall (fun u => 0 < u_ts u) (a ++ u1 :: b ++ u2 :: c) -> u_update u1 = false -> u_update u2 = false -> u_ts u1 = u_ts u2 ->
  collected (a ++ u1 :: b ++ u2 :: c) = collected (a ++ b ++ u2 :: c).
Proof.
  intros Hpos U1 U2 Hts. assert (Forall (fun u => 0 < u_ts u) (a ++ b ++ u2 :: c)) as Hpos' by (apply Forall_app in Hpos as [? [? ?]%Forall_cons]; by apply Forall_app).
  destruct (collected_spec _ Hpos) as (H1 & H2 & H3 & H4). destruct (collected_spec _ Hpos') as (K1 & K2 & K3 & K4).
  assert (list_size (a ++ u1 :: b ++ u2 :: c) = list_size (a ++ b ++ u2 :: c)) as Hls.
  { rewrite !list_size_app, !list_size_cons, !list_size_app, !list_size_cons, U1, U2. lia. }
  destruct (collected (a ++ u1 :: b ++ u2 :: c)) as [l1 v1 n1], (collected (a ++ b ++ u2 :: c)) as [l2 v2 n2]. cbn [insert_wal_list_ update_wal_list_ last_ts_] in *. f_equal.
  - apply vget_ext; [congruence|]. intros j Hj. rewrite H2, K2 by lia. f_equal. unfold content_at. rewrite !foldl_app. cbn [foldl]. rewrite !foldl_app. cbn [foldl]. rewrite U1, U2, Hts. cbn [negb andb].
    destruct (u_ts u2 =? j); done.
  - rewrite H3, K3. unfold updates. rewrite !filter_app, filter_cons, !map_app, U1, decide_False by done. by rewrite filter_app, map_app.
  - rewrite H4, K4, !last_ts_app, !last_ts_cons, !last_ts_app, !last_ts_cons. lia.
Qed.
(** A file that leaves no room for the header that ends it. *)
Lemma parse_no_end us fs p : Forall unit_fits us -> ~ has_end (write_units us) -> parse_files (file_ (write_units us) :: fs) p = None.
Proof.
  intros Hf He. destruct (write_units_written us) as [H1 H2 H3 H4 H5]. unfold has_end in He. cbn [parse_files]. rewrite (proj2 (Z.eqb_neq _ _)) by lia.
  change 0 with (vlen (@nil Z)). pose proof (bytes_longer us). rewrite H1. replace (S (length (bytes_of us))) with (length us + S (length (bytes_of us) - length us))%nat by lia.
  rewrite (parse_units us Hf _ _ []) by (rewrite ?H1; (done || lia)). cbn [parse_file]. rewrite read_at_past by (rewrite H1; lia).
  done.
Qed.

(** C17: Where recovery goes wrong.  An insert unit whose timestamp is used again by a later
    one leaves no trace, and timestamps are used again after every compaction, because
    the version manager starts anew.  A timestamp without an insert unit beyond the end
    of the list of insert units, which has 4096 entries or one more than the largest
    timestamp of an insert unit, is read out of range.  A log that ends less than a
    header before the end of its file is read past the end. *)
Theorem recovery_flaws :
  (forall a b c u1 u2, Forall unit_fits (a ++ u1 :: b ++ u2 :: c) -> u_update u1 = false -> u_update u2 = false -> u_ts u1 = u_ts u2 ->
     has_end (write_units (a ++ u1 :: b ++ u2 :: c)) -> has_end (write_units (a ++ b ++ u2 :: c)) ->
     open_parser [file_ (write_units (a ++ u1 :: b ++ u2 :: c))] = open_parser [file_ (write_units (a ++ b ++ u2 :: c))]) /\
  (forall logs j (g : G), Forall (Forall unit_fits) logs -> Forall (fun us => has_end (write_units us)) logs -> NoDup (map u_ts (concat logs)) ->
     list_size (concat logs) <= j <= last_ts (concat logs) -> (forall u, u ∈ concat logs -> u_update u = true -> u_ts u <> j) ->
     (forall ts c g, (exists g', replay_insert ts c g = Some (Returned tt, g')) /\ (exists g', replay_update ts c g = Some (Returned tt, g')) /\
        exists g', replay_compact ts g = Some (Returned tt, g')) ->
     wp (open_parser (map (fun us => file_ (write_units us)) logs)) (fun p => ingestWals p g = None)) /\
  (forall us fs, Forall unit_fits us -> ~ has_end (write_units us) -> open_parser (file_ (write_units us) :: fs) = None).
Proof.
  split; [|split].
  - intros a b c u1 u2 Hf U1 U2 Hts He1 He2. assert (Forall unit_fits (a ++ b ++ u2 :: c)) as Hf2 by (apply Forall_app in Hf as [? [? ?]%Forall_cons]; by apply Forall_app).
    pose proof (open_logs [a ++ u1 :: b ++ u2 :: c] ltac:(by constructor) ltac:(by constructor)) as E1. pose proof (open_logs [a ++ b ++ u2 :: c] ltac:(by constructor) ltac:(by constructor)) as E2.
    cbn [map concat] in E1, E2. rewrite !app_nil_r in E1, E2. rewrite E1, E2. by rewrite (collected_reused a b c u1 u2 (fits_positive _ Hf)).
  - intros logs j g Hf He Hd Hj Hno Hret. assert (Forall (fun u => 0 < u_ts u) (concat logs)) as Hpos by (by apply fits_positive, Forall_concat). destruct (collected_spec _ Hpos) as (H1 & H2 & H3 & H4).
    rewrite open_logs by done. apply wp_ret. set (p := MkParser _ _ _). change (ingest_from p 1 (update_wal_list_ p) g = None). pose proof (list_size_ge (concat logs)).
    apply (ingest_from_fails (concat logs) p (last_ts_fits _ (proj2 (Forall_concat _ _) Hf)) H4 H1 _ 1 j); [lia| |lia|done|done|done]. cbn [p update_wal_list_]. rewrite H3. by apply sorted_updates.
  - intros us fs Hf He. unfold open_parser. by rewrite parse_no_end.
Qed.
End logs.

(** ** Logs at work *)

(** A database that remembers what it did. *)
Inductive event := Inserted (ts : Z) (content : list Z) | Updated (ts : Z) (content : list Z) | Compacted (ts : Z).
#[local] Instance events : Replay (list event) := {|
  replay_insert ts c g := Some (Returned tt, if decide (c = []) then g else g ++ [Inserted ts c]);
  replay_update ts c g := Some (Returned tt, g ++ [Updated ts c]);
  replay_compact ts g := Some (Returned tt, g ++ [Compacted ts])
|}.
#[local] Instance events_laws : ReplayLaws (list event). Proof. by split. Qed.

(** Two threads: an insertion and a compaction of one, an insertion and an update of
    the other. *)
Definition sample_logs : list (list wal_unit) :=
  [[MkUnit 2 false [7; 8]; MkUnit 4 true []]; [MkUnit 1 false [9]; MkUnit 5 true [1; 2; 3]]].

Lemma sample_logs_ok : Forall (Forall unit_fits) sample_logs /\ Forall (fun us => has_end (write_units us)) sample_logs.
Proof. split; repeat (apply Forall_cons_2 || apply Forall_nil_2); try (split; [split; reflexivity|reflexivity]); vm_compute; discriminate. Qed.

Lemma recovery_in_order_witness : wp (open_parser (map (fun us => file_ (write_units us)) sample_logs)) (fun p =>
  ingestWals p [] = Some (Returned tt, [Inserted 1 [9]; Inserted 2 [7; 8]; Compacted 4; Updated 5 [1; 2; 3]])).
Proof.
  destruct sample_logs_ok as [Hf He]. eapply wp_mono; [apply (recovery_in_order sample_logs [] Hf He)|].
  - apply (bool_decide_unpack _). vm_compute. exact I.
  - intros j Hj. change (list_size (concat sample_logs)) with 4096 in Hj. change (last_ts (concat sample_logs)) with 5 in Hj. lia.
  - intros p ->. vm_compute. reflexivity.
Defined.

(** Two insertions at timestamp 1, with a compaction between them: the first is lost;
    and an update at timestamp 5000 of a database that nothing was inserted into. *)
Lemma recovery_flaws_witness :
  (wp (open_parser [file_ (write_units [MkUnit 1 false [7]; MkUnit 2 true []; MkUnit 1 false [8]])]) (fun p => ingestWals p [] = Some (Returned tt, [Inserted 1 [8]; Compacted 2]))) /\
  wp (open_parser [file_ (write_units [MkUnit 5000 true [6]])]) (fun p => ingestWals p ([] : list event) = None).
Proof.
  destruct (recovery_flaws (G := list event)) as (Hreuse & Hgap & _). split.
  - pose proof (Hreuse [] [MkUnit 2 true []] [] (MkUnit 1 false [7]) (MkUnit 1 false [8])) as E. cbn [app] in E. rewrite E; [vm_compute; reflexivity| |reflexivity|reflexivity|reflexivity| |].
    + repeat (apply Forall_cons_2 || apply Forall_nil_2); (split; [split; reflexivity|reflexivity]).
    + vm_compute. discriminate.
    + vm_compute. discriminate.
  - apply (Hgap [[MkUnit 5000 true [6]]] 4999 []); try done.
    + repeat (apply Forall_cons_2 || apply Forall_nil_2). split; [split; reflexivity|reflexivity].
    + by repeat constructor.
    + apply (bool_decide_unpack _). vm_compute. exact I.
    + intros u Hu. apply list_elem_of_singleton in Hu as ->. done.
    + intros ts c g. split; [by eexists|]. split; by eexists.
Defined.
