(* ===== verification/InsertTransaction.v ===== *)
(** * Insert transactions

    [InsertTransaction] (src/transaction/insert_transaction.cc): a transaction keeps the
    vertices it adds in indices of its own and its changes as redo records; [Commit]
    writes the records to the log and applies them to the graph, as recovery does.
    Other transactions change the graph in between, so the graph is an argument of
    every call.  An [IdIndexer] is the list of its keys.  [CHECK] and [LOG(FATAL)], which
    end the process, are [None].  The allocator is left out.  [insert_durability]:
    recovery repeats the commits.  [duplicate_insert_unrecoverable],
    [concurrent_insert_wrong_vertex]: what two transactions at the same time can do to
    the log and the graph.  The theorems are applied in GraphExamples. *)
From stdpp Require Import strings gmap sorting.
From S2P Require Import Prelude Storage Aggregate Bitset Archive VertexTimestamp Temporal TemporalTheorems Property PropertyTheorems Column ColumnSpec IdIndexer IndexerTheorems Table TableTheorems.
From S2P Require Import EdgeSchema VertexSchema SchemaOps SchemaInvariant SchemaTheorems VertexTable VertexTheorems EdgeInterface PropertyGraph GraphTheorems Wal WalTheorems.
#[local] Open Scope Z_scope.
#[local] Open Scope schema_scope.

Definition INVALID_TIME : Z := 2 ^ 32 - 1.

Record InsertTransaction := MkInsert {
  arc_ : list Z;
  added_vertices_ : list (option (DataTypeId * list Property));   (* [None] is the null pointer *)
  added_vertices_base_ : list Z;
  vertex_nums_ : list Z;
  timestamp_ : Z
}.
Implicit Types tx : InsertTransaction.

(** [arc_.Resize(sizeof(WalHeader))] *)
Definition empty_arc : list Z := replicate (Z.to_nat HEADER_SIZE) 0.
Definition begin_insert (ts : Z) : InsertTransaction := MkInsert empty_arc [] [] [] ts.
Definition clear : InsertTransaction := MkInsert empty_arc [] [] [] INVALID_TIME.
Definition log_redo (r : redo) tx : InsertTransaction := MkInsert (Serialize (arc_ tx) r) (added_vertices_ tx) (added_vertices_base_ tx) (vertex_nums_ tx) (timestamp_ tx).

(** [extract_with_invalid_flags], and the types of the properties that are there. *)
Fixpoint extract {A} (l : list A) (invalid : list bool) : option (list A) :=
  match l, invalid with
  | [], _ => Some []
  | x :: l, b :: invalid => k ← extract l invalid; Some (if b : bool then k else x :: k)
  | _, [] => None
  end.
Definition get_vertex_properties s (label : Z) : option (outcome (list DataType)) :=
  _ ⇐ ensure (vlabel_valid s label); m ← vget (v_schemas_ s) label; m ← m; l ← extract (property_types m) (vprop_soft_deleted m); Some (Returned l).
Definition get_vertex_primary_key s (label : Z) : option (outcome (list (DataType * string * Z))) :=
  _ ⇐ ensure (vlabel_valid s label); m ← vget (v_schemas_ s) label; m ← m; Some (Returned (primary_keys m)).
Definition get_edge_properties s (src dst edge : Z) : option (outcome (list DataType)) :=
  _ ⇐ ensure (vlabel_valid s src); _ ⇐ ensure (vlabel_valid s dst); _ ⇐ ensure (edge_label_valid s edge); _ ⇐ ensure (edge_triplet_valid s src dst edge);
  m ⇐ Some (edge_type_at s src dst edge); l ← extract (properties m) (eprop_soft_deleted m); Some (Returned l).

(** The properties have the types that are asked for. *)
Definition same_types (types : list DataType) (props : list Property) : bool :=
  (vlen types =? vlen props) && forallb (fun '(ty, p) => bool_decide (prop_type p = fst ty)) (zip types props).

(** [get_index] of an added label: a key of another type is [None]. *)
Definition added_index (d : DataTypeId * list Property) (id : Property) : option (option Z) :=
  if bool_decide (prop_type id = fst d) then Some (index_of (snd d) id 0) else None.

Section transaction.
Context `{!Memory} (std_hash : Property -> Z) {T : Type} `{!EdgeTableOps T}.
Implicit Types g : PropertyGraph T.

Definition added_at tx (label : Z) : option (option (DataTypeId * list Property)) :=
  if vlen (added_vertices_ tx) <=? label then Some None else vget (added_vertices_ tx) label.

Definition GetVertexIndex tx g (label : Z) (id : Property) : option (outcome (option Z)) :=
  found ⇐ get_lid std_hash label id (timestamp_ tx) g;
  match found with
  | Some index => Some (Returned (Some index))
  | None =>
      d ← added_at tx label;
      match d with
      | None => Some (Returned None)
      | Some d =>
          i ← added_index d id;
          match i with None => Some (Returned None) | Some i => base ← vget (added_vertices_base_ tx) label; Some (Returned (Some (to_u32 (i + base)))) end
      end
  end.

Definition GetVertexId tx g (label lid : Z) : option (outcome Property) :=
  d ← added_at tx label;
  match d with
  | None => GetOid label lid (timestamp_ tx) g
  | Some d =>
      base ← vget (added_vertices_base_ tx) label;
      if base <=? lid then k ← vget (snd d) (lid - base); Some (Returned k) else GetOid label lid (timestamp_ tx) g
  end.

Definition create_id_indexer_if_not_exists tx g (label : Z) : option (outcome unit * InsertTransaction) :=
  let tx := if vlen (added_vertices_ tx) <=? label
            then MkInsert (arc_ tx) (Resize None (added_vertices_ tx) (label + 1)) (Resize 0 (added_vertices_base_ tx) (label + 1)) (Resize 0 (vertex_nums_ tx) (label + 1)) (timestamp_ tx)
            else tx in
  d ← vget (added_vertices_ tx) label;
  match d with
  | Some _ => Some (Returned tt, tx)
  | None =>
      pks ← get_vertex_primary_key (schema_ g) label;
      match pks with
      | Thrown => Some (Thrown, tx)
      | Returned pks =>
          '(ty, _, _) ← vget pks 0;
          if bool_decide (fst ty ∈ primary_key_types) then
            added ← vset (added_vertices_ tx) label (Some (fst ty, [])); num ← LidNum label g; bases ← vset (added_vertices_base_ tx) label num;
            Some (Returned tt, MkInsert (arc_ tx) added bases (vertex_nums_ tx) (timestamp_ tx))
          else Some (Thrown, tx)
      end
  end.

(** The number of the vertex, or nothing when the call returns false. *)
Definition AddVertex tx g (label : Z) (id : Property) (props : list Property) : option (outcome (option Z) * InsertTransaction) :=
  types ← get_vertex_properties (schema_ g) label;
  match types with
  | Thrown => Some (Thrown, tx)
  | Returned types =>
      if negb (same_types types props) then Some (Returned None, tx)
      else
        and_then (create_id_indexer_if_not_exists tx g label) (fun _ tx =>
        found ← GetVertexIndex tx g label id;
        match found with
        | Thrown => Some (Thrown, tx)
        | Returned (Some vid) => Some (Returned (Some vid), tx)
        | Returned None =>
            d ← vget (added_vertices_ tx) label; d ← d; base ← vget (added_vertices_base_ tx) label; num ← vget (vertex_nums_ tx) label;
            added ← vset (added_vertices_ tx) label (Some (fst d, snd d ++ [id])); nums ← vset (vertex_nums_ tx) label (to_u32 (num + 1));
            Some (Returned (Some (to_u32 (num + base))), log_redo (InsertVertexRedo label id props) (MkInsert (arc_ tx) added (added_vertices_base_ tx) nums (timestamp_ tx)))
        end)
  end.

Definition AddEdge tx g (src_label src_vid dst_label dst_vid edge_label : Z) (props : list Property) : option (outcome bool * InsertTransaction) :=
  ends ← (src ⇐ GetVertexId tx g src_label src_vid; dst ⇐ GetVertexId tx g dst_label dst_vid; types ⇐ get_edge_properties (schema_ g) src_label dst_label edge_label;
          Some (Returned (src, dst, types)));
  match ends with
  | Thrown => Some (Thrown, tx)
  | Returned (src, dst, types) =>
      if same_types types props then Some (Returned true, log_redo (InsertEdgeRedo src_label src dst_label dst edge_label props) tx)
      else Some (Returned false, tx)
  end.

(** *** Application of the records *)

(** [get_vertex_with_retries]: ten more tries, a second apart.  Nothing else changes the
    graph meanwhile. *)
Fixpoint get_vertex_with_retries (tries : nat) (label : Z) (oid : Property) (ts : Z) g : option (outcome (option Z)) :=
  found ⇐ get_lid std_hash label oid ts g;
  match found, tries with
  | Some lid, _ => Some (Returned (Some lid))
  | None, O => Some (Returned None)
  | None, S tries => get_vertex_with_retries tries label oid ts g
  end.
Definition checked_vertex (label : Z) (oid : Property) (ts : Z) g : option (outcome Z) :=
  found ⇐ get_vertex_with_retries 10 label oid ts g; match found with Some lid => Some (Returned lid) | None => None end.

Definition is_insert (o : OpType) : bool := match o with OpInsertVertex | OpInsertEdge => true | _ => false end.
Definition apply_insert (ts : Z) (r : redo) g : option (outcome unit * PropertyGraph T) :=
  match r with
  | InsertVertexRedo label oid props =>
      and_then (PropertyGraph.AddVertex std_hash label oid props ts false g) (fun vid g => Some (match vid with Some _ => Returned tt | None => Thrown end, g))
  | InsertEdgeRedo src_label src dst_label dst edge_label props =>
      query g (checked_vertex src_label src ts g) (fun src_lid => query g (checked_vertex dst_label dst ts g) (fun dst_lid =>
      and_then (PropertyGraph.AddEdge src_label src_lid dst_label dst_lid edge_label props ts false g) (fun _ g => Some (Returned tt, g))))
  | _ => None
  end.
Definition IngestInsert (ts : Z) (data : list Z) g : option (outcome unit * PropertyGraph T) := IngestWal is_insert (apply_insert ts) None data g.

(** *** Commit and abort *)

(** The transaction, the graph, the log and the timestamps released so far. *)
Definition commit_state : Type := InsertTransaction * PropertyGraph T * LocalWalWriter * list Z.

Definition Commit (st : commit_state) : option (outcome bool * commit_state) :=
  let '(tx, g, w, released) := st in
  if timestamp_ tx =? INVALID_TIME then Some (Returned true, st)
  else if vlen (arc_ tx) =? HEADER_SIZE then Some (Returned true, (clear, g, w, released ++ [timestamp_ tx]))
  else
    let data := drop (Z.to_nat HEADER_SIZE) (arc_ tx) in
    _ ← guard (vlen data < 2 ^ 30);   (* the length has 31 bits with the sign *)
    let arc := put_header (timestamp_ tx) 0 (vlen (arc_ tx) - HEADER_SIZE) ++ data in
    let tx := MkInsert arc (added_vertices_ tx) (added_vertices_base_ tx) (vertex_nums_ tx) (timestamp_ tx) in
    let w := append arc w in
    '(r, g) ← IngestInsert (timestamp_ tx) data g;
    match r with
    | Thrown => Some (Thrown, (tx, g, w, released))
    | Returned _ => Some (Returned true, (clear, g, w, released ++ [timestamp_ tx]))
    end.

(** [Abort], which the destructor calls too. *)
Definition Abort (st : commit_state) : commit_state :=
  let '(tx, g, w, released) := st in
  if timestamp_ tx =? INVALID_TIME then st else (clear, g, w, released ++ [timestamp_ tx]).

(** Transactions one after the other, each with its records. *)
Fixpoint commit_all (txs : list InsertTransaction) (st : PropertyGraph T * LocalWalWriter * list Z) : option (outcome unit * (PropertyGraph T * LocalWalWriter * list Z)) :=
  match txs with
  | [] => Some (Returned tt, st)
  | tx :: txs =>
      let '(g, w, released) := st in
      '(r, (_, g, w, released)) ← Commit (tx, g, w, released);
      match r with Thrown => Some (Thrown, (g, w, released)) | Returned _ => commit_all txs (g, w, released) end
  end.

(** ** What is logged *)

Definition logged tx (rs : list redo) : Prop := arc_ tx = empty_arc ++ foldl Serialize [] rs.

Lemma logged_begin ts : logged (begin_insert ts) []. Proof. done. Qed.
Lemma logged_more tx rs r : logged tx rs -> logged (log_redo r tx) (rs ++ [r]).
Proof. unfold logged. intros Hl. cbn [log_redo arc_]. rewrite Hl, (Serialize_appends (_ ++ _)), foldl_app. cbn [foldl]. by rewrite (Serialize_appends (foldl _ _ _)), app_assoc. Qed.
Lemma logged_same tx tx' rs : arc_ tx = arc_ tx' -> logged tx rs -> logged tx' rs.
Proof. unfold logged. by intros ->. Qed.

Lemma create_arc tx g label r tx' : create_id_indexer_if_not_exists tx g label = Some (r, tx') -> arc_ tx' = arc_ tx.
Proof.
  unfold create_id_indexer_if_not_exists. set (tx1 := if _ <=? label then _ else tx). assert (arc_ tx1 = arc_ tx) as E by (unfold tx1; by destruct (_ <=? label)).
  destruct (vget (added_vertices_ tx1) label) as [[d|]|]; cbn [mbind option_bind]; [by intros [= _ <-]| |done].
  destruct (get_vertex_primary_key (schema_ g) label) as [[pks|]|]; cbn [mbind option_bind]; [|by intros [= _ <-]|done].
  destruct (vget pks 0) as [[[ty n] i]|]; cbn [mbind option_bind]; [|done]. case_bool_decide; [|by intros [= _ <-]].
  destruct (vset _ label _); cbn [mbind option_bind]; [|done]. destruct (LidNum label g); cbn [mbind option_bind]; [|done]. destruct (vset _ label _); cbn [mbind option_bind]; [|done]. by intros [= _ <-].
Qed.

(** A vertex that is new is logged once, one that is there is not logged. *)
Lemma add_vertex_logs tx g label id props r tx' rs : logged tx rs -> AddVertex tx g label id props = Some (r, tx') -> logged tx' rs \/ logged tx' (rs ++ [InsertVertexRedo label id props]).
Proof.
  intros Hl. unfold AddVertex, and_then. destruct (get_vertex_properties (schema_ g) label) as [[types|]|]; cbn [mbind option_bind]; [|by intros [= _ <-]; left|done].
  destruct (negb _); [by intros [= _ <-]; left|]. destruct (create_id_indexer_if_not_exists tx g label) as [[[[]|] tx1]|] eqn:Ec; cbn [mbind option_bind]; [| |done].
  2: { intros [= _ <-]. left. eapply logged_same; [|exact Hl]. symmetry. by eapply create_arc. }
  apply create_arc in Ec. apply (logged_same _ tx1) in Hl; [|done].
  destruct (GetVertexIndex tx1 g label id) as [[[v|]|]|]; cbn [mbind option_bind]; [by intros [= _ <-]; left| |by intros [= _ <-]; left|done].
  destruct (vget (added_vertices_ tx1) label) as [[d|]|]; cbn [mbind option_bind]; [|done|done]. destruct (vget (added_vertices_base_ tx1) label); cbn [mbind option_bind]; [|done].
  destruct (vget (vertex_nums_ tx1) label); cbn [mbind option_bind]; [|done]. destruct (vset (added_vertices_ tx1) label _); cbn [mbind option_bind]; [|done]. destruct (vset (vertex_nums_ tx1) label _); cbn [mbind option_bind]; [|done]. intros [= _ <-]. right.
  apply logged_more. by eapply logged_same; [|exact Hl].
Qed.

(** ** Commit and recovery *)

(** Records that an insert transaction writes, and that fit into one unit. *)
Definition insertable (rs : list redo) : Prop := Forall (fun r => redo_ok r /\ is_insert (redo_op r) = true) rs /\ vlen (foldl Serialize [] rs) < 2 ^ 30.

Definition unit_of (c : InsertTransaction * list redo) : wal_unit := MkUnit (timestamp_ (fst c)) false (foldl Serialize [] (snd c)).
Definition commit_ok (c : InsertTransaction * list redo) : Prop := logged (fst c) (snd c) /\ insertable (snd c) /\ 0 < timestamp_ (fst c) < INVALID_TIME.

Lemma serialize_nil rs : vlen (foldl Serialize [] rs) = 0 <-> rs = [].
Proof.
  split; [|by intros ->]. destruct rs as [|r rs]; [done|]. cbn [foldl]. rewrite (@foldl_appends _ Serialize Serialize_appends). unfold Serialize at 1. rewrite redo_appends, !vlen_app.
  pose proof (vlen_nonneg (put_redo [] r)). pose proof (vlen_nonneg (foldl Serialize [] rs)). change (vlen (put_op [] (redo_op r))) with 1. lia.
Qed.

Lemma commit_step c g w released : commit_ok c -> Commit (fst c, g, w, released) =
  if decide (snd c = []) then Some (Returned true, (clear, g, w, released ++ [timestamp_ (fst c)]))
  else
    '(r, g) ← IngestInsert (timestamp_ (fst c)) (u_content (unit_of c)) g;
    let w := append (unit_bytes (unit_of c)) w in
    match r with
    | Thrown => Some (Thrown, (MkInsert (unit_bytes (unit_of c)) (added_vertices_ (fst c)) (added_vertices_base_ (fst c)) (vertex_nums_ (fst c)) (timestamp_ (fst c)), g, w, released))
    | Returned _ => Some (Returned true, (clear, g, w, released ++ [timestamp_ (fst c)]))
    end.
Proof.
  destruct c as [tx rs]. intros (Hl & [Hrs Hfit] & Hts). cbn [fst snd] in *. unfold Commit, logged in *. rewrite (proj2 (Z.eqb_neq _ _)) by lia. rewrite Hl, vlen_app. change (vlen empty_arc) with HEADER_SIZE.
  pose proof (serialize_nil rs) as Hnil. case_decide as Hz.
  - rewrite (proj2 (Z.eqb_eq _ _)); [done|]. apply Hnil in Hz. lia.
  - rewrite (proj2 (Z.eqb_neq _ _)) by (intros E; apply Hz, Hnil; lia). rewrite drop_app_length' by reflexivity. rewrite option_guard_True by done. cbn [mbind option_bind].
    replace (HEADER_SIZE + vlen (foldl Serialize [] rs) - HEADER_SIZE) with (vlen (foldl Serialize [] rs)) by lia. cbn [u_content unit_of snd]. done.
Qed.

Lemma ingest_insert ts rs g : insertable rs -> IngestInsert ts (foldl Serialize [] rs) g = each rs (apply_insert ts) g.
Proof. intros [Hrs _]. unfold IngestInsert, IngestWal. apply ingest_records; [done|lia]. Qed.

(** What recovery does with the graph. *)
Definition graph_replay (compact_csr : bool) (ingest_update : Z -> list Z -> PropertyGraph T -> option (outcome unit * PropertyGraph T)) : Replay (PropertyGraph T) := {|
  replay_insert := IngestInsert;
  replay_update := ingest_update;
  replay_compact ts g := Compact compact_csr ts g
|}.
Lemma graph_replay_laws cc iu : @ReplayLaws (PropertyGraph T) (graph_replay cc iu). Proof. by split. Qed.

Lemma replay_insert_unit cc iu tx rs g : insertable rs -> @replay_unit _ (graph_replay cc iu) (unit_of (tx, rs)) g = each rs (apply_insert (timestamp_ tx)) g.
Proof. apply ingest_insert. Qed.

Lemma sublist_map {A B} (f : A -> B) l k : sublist l k -> sublist (map f l) (map f k).
Proof. induction 1; cbn [map]; by constructor. Qed.
Lemma sublist_sorted {A} (R : A -> A -> Prop) l k : sublist l k -> StronglySorted R k -> StronglySorted R l.
Proof.
  induction 1 as [|x l k Hl IH|x l k Hl IH]; intros Hs; [done| |]; apply StronglySorted_inv in Hs as [Hs Hx]; [|by apply IH].
  constructor; [by apply IH|]. rewrite Forall_forall in Hx |- *. intros y Hy. apply Hx. by eapply elem_of_sublist.
Qed.

(** The units that are written, what recovery does with them, and what the records do. *)
Lemma commits_logged cc iu cs : Forall commit_ok cs -> forall g us released r g' w' released',
  commit_all (map fst cs) (g, write_units us, released) = Some (r, (g', w', released')) ->
  exists vs, w' = write_units (us ++ vs) /\ sublist vs (map unit_of cs) /\ each vs (@replay_unit _ (graph_replay cc iu)) g = Some (r, g') /\
    each cs (fun c => each (snd c) (apply_insert (timestamp_ (fst c)))) g = Some (r, g') /\ (r = Returned tt -> released' = released ++ map (fun c => timestamp_ (fst c)) cs).
Proof.
  induction 1 as [|c cs Hc Hcs IH]; intros g us released r g' w' released' Hx; cbn [map commit_all] in Hx.
  - injection Hx as <- <- <- <-. exists []. rewrite !app_nil_r. by split_and!.
  - rewrite (commit_step c) in Hx by done. case_decide as Hz; cbn [mbind option_bind] in Hx.
    + destruct (IH _ _ _ _ _ _ _ Hx) as (vs & -> & Hs & Hr & Ha & Hrel). exists vs. split; [done|]. split; [by constructor|]. split; [done|]. split.
      * cbn [each]. by rewrite Hz.
      * intros E. rewrite (Hrel E), <-app_assoc. done.
    + destruct c as [tx rs]. destruct Hc as (_ & Hins & _). cbn [u_content unit_of fst snd] in *. rewrite ingest_insert in Hx by done.
      destruct (each rs (apply_insert (timestamp_ tx)) g) as [[[[]|] g1]|] eqn:E; cbn [mbind option_bind] in Hx; [| |done].
      * change (append (unit_bytes (unit_of (tx, rs))) (write_units us)) with (foldl (fun w u => append (unit_bytes u) w) (write_units us) [unit_of (tx, rs)]) in Hx.
        unfold write_units in Hx. rewrite <-foldl_app in Hx. destruct (IH _ _ _ _ _ _ _ Hx) as (vs & -> & Hs & Hr & Ha & Hrel). exists (unit_of (tx, rs) :: vs).
        rewrite <-app_assoc. split; [done|]. split; [by constructor|]. cbn [each fst snd]. unfold and_then at 1 2.
        rewrite replay_insert_unit, E by done. cbn [mbind option_bind]. split; [done|]. split; [done|]. intros Er. rewrite (Hrel Er), <-app_assoc. done.
      * injection Hx as <- <- <- <-. exists [unit_of (tx, rs)]. unfold write_units. rewrite foldl_app. split; [done|]. split; [constructor; apply sublist_nil_l|]. cbn [each fst snd]. unfold and_then.
        by rewrite replay_insert_unit, E by done.
Qed.

Lemma no_updates_readable us : Forall (fun u => 0 < u_ts u /\ u_update u = false) us -> readable us.
Proof.
  intros Hus j Hj. assert (last_ts us < list_size us); [|lia]. clear Hj. induction Hus as [|u us [Hu Hup] Hus IH]; [done|]. rewrite last_ts_cons, list_size_cons, Hup. lia.
Qed.

Lemma log_recovers cc iu cs g0 r g w released : Forall commit_ok cs -> StronglySorted Z.lt (map (fun c => timestamp_ (fst c)) cs) ->
  commit_all (map fst cs) (g0, open_writer, []) = Some (r, (g, w, released)) -> has_end w ->
  wp (open_parser [file_ w]) (fun p => @ingestWals _ (graph_replay cc iu) p g0 = Some (r, g)) /\
  each cs (fun c => each (snd c) (apply_insert (timestamp_ (fst c)))) g0 = Some (r, g) /\ (r = Returned tt -> released = map (fun c => timestamp_ (fst c)) cs).
Proof.
  intros Hcs Hs Hx He. destruct (commits_logged cc iu cs Hcs g0 [] [] r g w released Hx) as (vs & -> & Hsub & Hr & Ha & Hrel). split; [|done]. cbn [app] in *.
  assert (Forall (fun u => unit_fits u /\ u_update u = false) (map unit_of cs)) as Hfits.
  { apply Forall_fmap. eapply Forall_impl; [exact Hcs|]. intros [tx rs] (_ & [_ Hfit] & Hts). split; [|done]. by split. }
  assert (Forall (fun u => unit_fits u /\ u_update u = false) vs) as Hfv. { rewrite Forall_forall in Hfits |- *. intros u Hu. apply Hfits. by eapply elem_of_sublist. }
  assert (StronglySorted Z.lt (map u_ts vs)) as Hsv. { apply (sublist_sorted _ _ (map u_ts (map unit_of cs))); [by apply sublist_map|]. by rewrite map_map. }
  pose proof (@logs_replayed _ (graph_replay cc iu) (graph_replay_laws cc iu) [vs] g0) as Hw. cbn [map concat] in Hw. rewrite app_nil_r in Hw. 
  eapply wp_mono; [apply Hw; [constructor; [by eapply Forall_impl; [exact Hfv|]; intros u []|done]|by constructor| |]|].
  - by apply strictly_sorted_nodup.
  - apply no_updates_readable. eapply Forall_impl; [exact Hfv|]. intros u [[Hu _] Hup]. split; [lia|done].
  - intros p ->. rewrite (@replay_sorted _ (graph_replay cc iu)); [done| |done]. eapply Forall_impl; [exact Hfv|]. intros u [[Hu _] _]. lia.
Qed.

(** C14: Insert transactions that commit one after the other are recovered from the log with
    the same effect: on the graph they started from, the graph becomes what they made of
    it, which is what their records make of it; where a commit throws, with its records
    already in the log, recovery throws as well. *)
Theorem insert_durability cc iu cs g0 r g w released : Forall commit_ok cs -> StronglySorted Z.lt (map (fun c => timestamp_ (fst c)) cs) ->
  commit_all (map fst cs) (g0, open_writer, []) = Some (r, (g, w, released)) -> has_end w ->
  wp (open_parser [file_ w]) (fun p => @ingestWals _ (graph_replay cc iu) p g0 = Some (r, g)) /\
  each cs (fun c => each (snd c) (apply_insert (timestamp_ (fst c)))) g0 = Some (r, g) /\ (r = Returned tt -> released = map (fun c => timestamp_ (fst c)) cs).
Proof. apply log_recovers. Qed.

(** ** Transactions at the same time *)

Lemma index_of_snoc t ks id i : t ∈ key_types -> prop_type id = t -> index_of ks id i = None -> index_of (ks ++ [id]) id i = Some (i + vlen ks).
Proof.
  intros Ht Hid. revert i. induction ks as [|k ks IH]; intros i Hi; cbn [app index_of] in *.
  - rewrite (proj2 (key_eqb t id id Ht Hid Hid) eq_refl). change (vlen []) with 0. f_equal. lia.
  - destruct (prop_eqb k id); [done|]. rewrite IH by done. f_equal. unfold vlen. cbn [length]. lia.
Qed.

(** A vertex that was added has the next number and is there from its time on. *)
Lemma added_vertex ty w a id props ts safe v a1 : ty ∈ key_types -> key_index ty a id = None -> num a < vlen (av_stamps a) ->
  vt_step ty w (DoAdd id props ts safe) a = Some (RVid (Some v), a1) ->
  is_time ts = true /\ 0 <= num a < 2 ^ 32 /\ v = num a /\ num a1 = num a + 1 /\ prop_type id = ty /\ av_keys a1 = av_keys a ++ [id] /\ key_index ty a1 id = Some v /\ av_cap a1 = av_cap a /\ vat (av_stamps a1) v = ts.
Proof.
  intros Ht Hk Hn Hx. cbn [vt_step] in Hx. destruct (is_time ts) eqn:Hts; [|done]. cbn [negb] in Hx. destruct (Z.leb_spec (av_cap a) (num a)) as [Hc|Hc]; [done|]. rewrite Hk in Hx.
  unfold keys_exec in Hx. destruct (clip_prop w id) as [q|]; cbn [mbind option_bind] in Hx; [|done]. destruct (_ && _) eqn:G in Hx; [|done]. cbn [mbind option_bind] in Hx. unfold put_row in Hx.
  destruct (cols_exec _ _) as [[o cols]|]; cbn [mbind option_bind] in Hx; [|done].
  repeat (apply andb_prop in G as [G ?]). apply bool_decide_eq_true in G. assert (index_of (av_keys a) id 0 = None) as Hi by (by apply (bool_decide_eq_true_1 _)).
  assert (v = num a /\ a1 = av_columns cols (AVT (av_keys a ++ [id]) (av_cap a) (av_used a + prop_bytes id) (av_init a) (vput (av_stamps a) (num a) ts) (av_cols a))) as [-> ->].
  { destruct o; try done. by injection Hx as <- <-. }
  unfold num, key_index in *. cbn [av_columns av_keys av_stamps av_cap] in *. rewrite bool_decide_true by done. rewrite (index_of_snoc ty) by done. rewrite vlen_app. pose proof (vlen_nonneg (av_keys a)). unfold sentinel in *. split_and!; try (done || lia). by apply vat_vput_eq.
Qed.

Lemma vget_fresh {A} (z : A) label : 0 <= label -> vget (Resize z [] (label + 1)) label = Some z.
Proof. intros Hl. apply vget_iff. split; [done|]. unfold Resize. rewrite take_nil. cbn [app length]. apply lookup_replicate. split; [done|lia]. Qed.

(** The first vertex of a label that a transaction adds gets the number that the graph
    would give it next. *)
Definition first_added (ts label n : Z) (ty : DataTypeId) (id : Property) (props : list Property) : InsertTransaction :=
  log_redo (InsertVertexRedo label id props)
    (MkInsert empty_arc (vput (vput (Resize None [] (label + 1)) label (Some (ty, []))) label (Some (ty, [id]))) (vput (Resize 0 [] (label + 1)) label n) (vput (Resize 0 [] (label + 1)) label 1) ts).

Lemma add_first ts g label id props types pks ty nm i n : 0 <= label -> get_lid std_hash label id ts g = Some (Returned None) ->
  get_vertex_properties (schema_ g) label = Some (Returned types) -> same_types types props = true -> get_vertex_primary_key (schema_ g) label = Some (Returned pks) -> vget pks 0 = Some (ty, nm, i) ->
  fst ty ∈ primary_key_types -> LidNum label g = Some n ->
  AddVertex (begin_insert ts) g label id props = if bool_decide (prop_type id = fst ty) then Some (Returned (Some (to_u32 n)), first_added ts label n (fst ty) id props) else None.
Proof.
  intros Hl Hg Hty Hs Hpk Hp0 Hin Hn. unfold AddVertex, and_then. rewrite Hty. cbn [mbind option_bind]. rewrite Hs. cbn [negb].
  unfold create_id_indexer_if_not_exists. cbn [begin_insert added_vertices_ added_vertices_base_ vertex_nums_ arc_ timestamp_]. change (vlen (@nil (option (DataTypeId * list Property)))) with 0.
  rewrite (proj2 (Z.leb_le _ _)) by done. cbn [begin_insert added_vertices_ added_vertices_base_ vertex_nums_ arc_ timestamp_]. rewrite vget_fresh by done. cbn [mbind option_bind].
  rewrite Hpk. cbn [mbind option_bind]. rewrite Hp0. cbn [mbind option_bind]. rewrite bool_decide_true by done.
  pose proof (vget_fresh (@None (DataTypeId * list Property)) label Hl) as Hf. pose proof (vget_fresh 0 label Hl) as Hz. apply vget_lt in Hf as Hr. apply vget_lt in Hz as Hr2.
  rewrite vset_Some by done. cbn [mbind option_bind]. rewrite Hn. cbn [mbind option_bind]. rewrite vset_Some by done. cbn [mbind option_bind].
  set (tx1 := MkInsert _ _ _ _ ts). unfold GetVertexIndex. change (timestamp_ tx1) with ts. rewrite Hg. cbn [mbind option_bind].
  assert (added_at tx1 label = Some (Some (fst ty, []))) as ->.
  { unfold added_at, tx1. cbn [added_vertices_]. rewrite vput_len, (proj2 (Z.leb_gt _ _)) by lia. by apply vget_vput_eq. }
  cbn [mbind option_bind]. unfold added_index. cbn [fst snd index_of]. case_bool_decide as Ht; cbn [mbind option_bind]; [|done].
  subst tx1. cbn [added_vertices_ added_vertices_base_ vertex_nums_ arc_ timestamp_]. rewrite !vget_vput_eq, Hz by done. cbn [mbind option_bind]. by rewrite !vset_Some by (rewrite ?vput_len; done).
Qed.

Lemma first_vertex ts g label id props v tx : 0 <= label -> get_lid std_hash label id ts g = Some (Returned None) ->
  AddVertex (begin_insert ts) g label id props = Some (Returned (Some v), tx) ->
  logged tx [InsertVertexRedo label id props] /\ timestamp_ tx = ts /\ exists n ty, LidNum label g = Some n /\ v = to_u32 n /\
    added_at tx label = Some (Some (ty, [id])) /\ vget (added_vertices_base_ tx) label = Some n.
Proof.
  intros Hl Hg Hx. pose proof (vget_fresh (@None (DataTypeId * list Property)) label Hl) as Hr%vget_lt. pose proof (vget_fresh 0 label Hl) as Hr2%vget_lt. pose proof Hx as Hy. unfold AddVertex, and_then in Hy.
  destruct (get_vertex_properties (schema_ g) label) as [[types|]|] eqn:Hty; cbn [mbind option_bind] in Hy; [|done|done]. destruct (same_types types props) eqn:Hs; [|done].
  unfold create_id_indexer_if_not_exists in Hy. cbn [negb begin_insert added_vertices_ added_vertices_base_ vertex_nums_ arc_ timestamp_] in Hy. change (vlen (@nil (option (DataTypeId * list Property)))) with 0 in Hy.
  rewrite (proj2 (Z.leb_le _ _)) in Hy by done. cbn [added_vertices_] in Hy. rewrite vget_fresh in Hy by done. cbn [mbind option_bind] in Hy.
  destruct (get_vertex_primary_key (schema_ g) label) as [[pks|]|] eqn:Hpk; cbn [mbind option_bind] in Hy; [|done|done]. destruct (vget pks 0) as [[[ty nm] i]|] eqn:Hp0; cbn [mbind option_bind] in Hy; [|done].
  case_bool_decide as Hin; [|done]. rewrite vset_Some in Hy by done. cbn [mbind option_bind] in Hy. destruct (LidNum label g) as [n|] eqn:Hn; [|done]. clear Hy.
  rewrite (add_first ts g label id props types pks ty nm i n) in Hx by done. case_bool_decide; [|done]. injection Hx as <- <-. split; [by apply (logged_more _ [])|]. split; [done|]. exists n, (fst ty).
  split_and!; [done|done| |by apply vget_vput_eq]. unfold added_at. cbn [first_added log_redo added_vertices_]. rewrite !vput_len, (proj2 (Z.leb_gt _ _)) by lia. apply vget_vput_eq. by rewrite vput_len.
Qed.

Lemma apply_insert_vertex ty w g label vt a id props ts out a' : vget (vertex_tables_ g) label = Some vt -> vt_rel std_hash ty w vt a -> vt_step ty w (DoAdd id props ts false) a = Some (out, a') ->
  wp (apply_insert ts (InsertVertexRedo label id props) g) (fun r => fst r = match out with RVid (Some _) => Returned tt | _ => Thrown end /\
    exists vt', vget (vertex_tables_ (snd r)) label = Some vt' /\ vt_rel std_hash ty w vt' a').
Proof.
  intros Hg Hrel Hx. pose proof (add_rel_vt std_hash ty w vt a id props ts false out a' Hrel Hx) as Hw. unfold apply_insert, PropertyGraph.AddVertex, on_vertex_table, and_then. rewrite Hg. cbn [mbind option_bind].
  unfold report in Hw. destruct (VertexTable.AddVertex std_hash vt id props ts false) as [[r vt']|]; cbn [mbind option_bind] in *; [|done]. destruct Hw as [Hr Hrel']. cbn [fst snd] in *.
  pose proof (vget_lt _ _ _ Hg). rewrite vset_Some by done. cbn [mbind option_bind]. assert (exists vt1, vget (vertex_tables_ (with_vertex_tables (vput (vertex_tables_ g) label vt') g)) label = Some vt1 /\ vt_rel std_hash ty w vt1 a') as Hex
    by (exists vt'; split; [by apply vget_vput_eq|done]).
  destruct r as [[v|]|]; apply wp_ret; subst out; by split.
Qed.

(** C15: Two transactions add the same vertex: both take it for new and log it.  The second
    to commit fails with its record already in the log, so that recovery from this log
    fails too. *)
Theorem duplicate_insert_unrecoverable cc iu ty w g label vt a id props1 props2 ts1 ts2 v1 v2 tx1 tx2 v a1 :
  0 <= label -> vget (vertex_tables_ g) label = Some vt -> vt_rel std_hash ty w vt a -> ty ∈ key_types -> key_index ty a id = None -> 0 < ts1 < ts2 -> ts2 < INVALID_TIME ->
  insertable [InsertVertexRedo label id props1] -> insertable [InsertVertexRedo label id props2] ->
  AddVertex (begin_insert ts1) g label id props1 = Some (Returned (Some v1), tx1) -> AddVertex (begin_insert ts2) g label id props2 = Some (Returned (Some v2), tx2) ->
  vt_step ty w (DoAdd id props1 ts1 false) a = Some (RVid (Some v), a1) ->
  v1 = v /\ v2 = v /\ wp (commit_all [tx1; tx2] (g, open_writer, [])) (fun '(r, (g', w, released)) => r = Thrown /\ released = [ts1] /\
    (has_end w -> wp (open_parser [file_ w]) (fun p => @ingestWals _ (graph_replay cc iu) p g = Some (Thrown, g')))).
Proof.
  intros Hl Hg Hrel Ht Hk Hts Hinv Hi1 Hi2 Hx1 Hx2 Hstep. assert (forall t, 0 < t < INVALID_TIME -> get_lid std_hash label id t g = Some (Returned None)) as Hnone.
  { intros t Hr. unfold get_lid. rewrite Hg. cbn [mbind option_bind]. rewrite (find_rel_vt std_hash ty w vt a) by first [done|unfold is_time, DELETED_TIMESTAMP, INVALID_TIME in *; lia]. by rewrite Hk. }
  assert (num a < vlen (av_stamps a)) as Hn. { rewrite (vr_cap _ _ _ _ _ Hrel). cbn [vt_step] in Hstep. destruct (negb _); [done|]. destruct (Z.leb_spec (av_cap a) (num a)); [done|lia]. }
  destruct (added_vertex ty w a id props1 ts1 false v a1 Ht Hk Hn Hstep) as (_ & Hnum & -> & Hnum1 & _ & _ & Hk1 & _ & Hst).
  assert (LidNum label g = Some (num a)) as Hlid by (unfold LidNum; rewrite Hg; cbn [mbind option_bind]; by rewrite (lid_num _ _ _ _ _ Hrel)).
  destruct (first_vertex ts1 g label id props1 v1 tx1 Hl (Hnone ts1 ltac:(lia)) Hx1) as (Hlog1 & Ht1 & n1 & ty1 & Hn1 & -> & _).
  destruct (first_vertex ts2 g label id props2 v2 tx2 Hl (Hnone ts2 ltac:(lia)) Hx2) as (Hlog2 & Ht2 & n2 & ty2 & Hn2 & -> & _).
  rewrite Hlid in Hn1, Hn2. injection Hn1 as <-. injection Hn2 as <-. assert (to_u32 (num a) = num a) as Hu by (by apply Z.mod_small). split; [done|]. split; [done|].
  set (r1 := InsertVertexRedo label id props1) in *. set (r2 := InsertVertexRedo label id props2) in *.
  assert (Forall commit_ok [(tx1, [r1]); (tx2, [r2])]) as Hok by (constructor; [|constructor; [|constructor]]; (split; [done|split; [done|cbn [fst]; lia]])).
  destruct (proj1 (wp_exists _ _) (apply_insert_vertex ty w g label vt a id props1 ts1 _ a1 Hg Hrel Hstep)) as ([o1 g1] & E1 & Ho1 & vt1 & Hg1 & Hrel1). cbn [fst snd] in *. subst o1. fold r1 in E1.
  assert (exists out, vt_step ty w (DoAdd id props2 ts2 false) a1 = Some (out, a1) /\ (out = RThrown \/ out = RVid None)) as (out & Hstep2 & Hout).
  { cbn [vt_step]. assert (is_time ts2 = true) as -> by (unfold is_time, DELETED_TIMESTAMP, INVALID_TIME in *; lia). cbn [negb]. destruct (av_cap a1 <=? num a1); [eexists; split; [done|by right]|].
    rewrite Hk1. assert (seen a1 (num a) ts2 = true) as -> by (unfold seen; rewrite Hst, Hnum1; lia). eexists; split; [done|by left]. }
  destruct (proj1 (wp_exists _ _) (apply_insert_vertex ty w g1 label vt1 a1 id props2 ts2 _ a1 Hg1 Hrel1 Hstep2)) as ([o2 g2] & E2 & Ho2 & _). cbn [fst snd] in *.
  fold r2 in E2. assert (o2 = Thrown) as -> by (destruct Hout as [-> | ->]; done). clear Hout.
  assert (exists w2, commit_all [tx1; tx2] (g, open_writer, []) = Some (Thrown, (g2, w2, [ts1]))) as (w2 & Hall).
  { cbn [commit_all]. pose proof (Forall_inv Hok) as Hok1. pose proof (Forall_inv (Forall_inv_tail Hok)) as Hok2.
    pose proof (commit_step (tx1, [r1]) g open_writer [] Hok1) as C1. cbn [fst snd] in C1. rewrite C1, decide_False by done. cbn [u_content unit_of fst snd]. rewrite ingest_insert by done. cbn [each]. rewrite Ht1.
    unfold and_then. rewrite E1. cbn [mbind option_bind]. set (wa := append _ _). pose proof (commit_step (tx2, [r2]) g1 wa ([] ++ [ts1]) Hok2) as C2. cbn [fst snd] in C2. rewrite C2, decide_False by done.
    cbn [u_content unit_of fst snd]. rewrite ingest_insert by done. cbn [each]. rewrite Ht2. unfold and_then. rewrite E2. cbn [mbind option_bind]. by eexists. }
  rewrite Hall. apply wp_ret. split; [done|]. split; [done|]. intros He.
  eapply (log_recovers cc iu [(tx1, [r1]); (tx2, [r2])]); [done| |exact Hall|done]. cbn [map fst]. rewrite Ht1, Ht2. repeat constructor. lia.
Qed.
(** C16: A transaction that adds a vertex knows it by the number that the graph would give it.
    When another vertex takes that number before the commit, the transaction takes the
    one for the other: asked for the number of [y] it gives that of [x], and an edge of
    [y] is logged as an edge of [x]. *)
Theorem concurrent_insert_wrong_vertex ty w g label vt a x y props_x props_y ts ts' tx v v' a1 :
  0 <= label -> vget (vertex_tables_ g) label = Some vt -> vt_rel std_hash ty w vt a -> ty ∈ key_types -> key_index ty a x = None -> key_index ty a y = None -> x <> y ->
  0 < ts < INVALID_TIME -> ts' <= ts -> AddVertex (begin_insert ts) g label x props_x = Some (Returned (Some v), tx) ->
  vt_step ty w (DoAdd y props_y ts' false) a = Some (RVid (Some v'), a1) ->
  wp (apply_insert ts' (InsertVertexRedo label y props_y) g) (fun '(r, g') => r = Returned tt /\
    GetVertexIndex tx g' label y = Some (Returned (Some v)) /\ GetVertexId tx g' label v = Some (Returned x) /\
    forall edge_label props tx', AddEdge tx g' label v label v edge_label props = Some (Returned true, tx') ->
      logged tx' [InsertVertexRedo label x props_x; InsertEdgeRedo label x label x edge_label props]).
Proof.
  intros Hl Hg Hrel Ht Hkx Hky Hxy Hts Hts' Hx Hstep.
  assert (get_lid std_hash label x ts g = Some (Returned None)) as Hnone.
  { unfold get_lid. rewrite Hg. cbn [mbind option_bind]. rewrite (find_rel_vt std_hash ty w vt a) by first [done|unfold is_time, DELETED_TIMESTAMP, INVALID_TIME in *; lia]. by rewrite Hkx. }
  assert (num a < vlen (av_stamps a)) as Hn. { rewrite (vr_cap _ _ _ _ _ Hrel). cbn [vt_step] in Hstep. destruct (negb _); [done|]. destruct (Z.leb_spec (av_cap a) (num a)); [done|lia]. }
  destruct (added_vertex ty w a y props_y ts' false v' a1 Ht Hky Hn Hstep) as (_ & Hnum & -> & Hnum1 & _ & _ & Hk1 & _ & Hst).
  destruct (first_vertex ts g label x props_x v tx Hl Hnone Hx) as (Hlog & Htx & n & ty' & Hlid & -> & Hadded & Hbase).
  assert (n = num a) as ->. { unfold LidNum in Hlid. rewrite Hg in Hlid. cbn [mbind option_bind] in Hlid. rewrite (lid_num _ _ _ _ _ Hrel) in Hlid. by injection Hlid. }
  assert (to_u32 (num a) = num a) as Hu by (by apply Z.mod_small). rewrite Hu.
  eapply wp_mono; [apply (apply_insert_vertex ty w g label vt a y props_y ts' _ a1 Hg Hrel Hstep)|]. intros [r g'] (Hr & vt' & Hg' & Hrel'). cbn [fst snd] in *.
  assert (GetVertexId tx g' label (num a) = Some (Returned x)) as Hid.
  { unfold GetVertexId. rewrite Hadded. cbn [mbind option_bind]. rewrite Hbase. cbn [mbind option_bind snd]. by rewrite Z.leb_refl, Z.sub_diag. }
  split; [done|]. split; [|split; [done|]].
  - unfold GetVertexIndex, get_lid. rewrite Hg', Htx. cbn [mbind option_bind]. rewrite (find_rel_vt std_hash ty w vt' a1) by first [done|unfold is_time, DELETED_TIMESTAMP, INVALID_TIME in *; lia].
    rewrite Hk1. cbn [mbind option_bind]. assert (seen a1 (num a) ts = true) as -> by (unfold seen; rewrite Hst, Hnum1; lia). done.
  - intros e props tx' He. unfold AddEdge, obind in He. rewrite Hid in He. cbn [mbind option_bind] in He.
    destruct (get_edge_properties _ _ _ _) as [[types|]|]; cbn [mbind option_bind] in He; [|done|done]. destruct (same_types types props); [|done]. injection He as <-. by apply (logged_more _ [_]).
Qed.
End transaction.
