(* ===== verification/GraphExamples.v ===== *)
(** * A graph at work

    People, shops and a deleted label in between: the witnesses of the theorems about
    property graphs and insert transactions, over edge tables on [MutableCsr]. *)
From stdpp Require Import strings gmap.
From S2P Require Import Prelude Storage Aggregate Bitset VertexTimestamp Property PropertyTheorems Column ColumnSpec IdIndexer IndexerTheorems Table TableTheorems EdgeSchema VertexSchema SchemaOps SchemaInvariant SchemaTheorems.
From S2P Require Import MutableCsr CsrRows CsrOps CsrLists CsrDelete CsrEdges NbrView SingleCsr CsrInterface CsrSpec CsrInstances CsrTheorems OffsetSearch EdgeTable EdgePairs EdgeSpec EdgeTheorems EdgeInterface.
From S2P Require Import VertexTable VertexTheorems PropertyGraph GraphTheorems GraphCompact Archive Wal WalTheorems InsertTransaction.
#[local] Open Scope Z_scope.

#[local] Existing Instance z_memory.
#[local] Instance z_base : CsrBase Z (MutableCsr Z) := mutable_base z_sort.
#[local] Instance z_model : CsrModel Z (MutableCsr Z) := mutable_model.
#[local] Instance z_laws : CsrLaws Z (MutableCsr Z) := mutable_laws z_sort z_sort_perm.
Definition ZTable : Type := EdgeTable (MutableCsr Z) (MutableCsr Z).
#[local] Instance z_ops : EdgeTableOps ZTable := edge_table_ops int32_utils Z.eqb empty_csr empty_csr.
#[local] Instance z_holds : EdgeTableModel ZTable := edge_table_model int32_utils Z.eqb.
#[local] Instance z_table_laws : EdgeTableLaws ZTable := edge_table_laws int32_utils Z.eqb empty_csr empty_csr.

(** ** The schema *)

Definition market_ops : list schema_op :=
  [add_vertex "city"; add_vertex "person"; add_vertex "shop"; add_edge "person" "shop" "buys"; add_edge "person" "person" "knows"; OpDeleteVertexLabel 0 true]%string.
Definition market : SchemaState := from_option id new_schema (schema_run new_schema market_ops).
Definition friends : EdgeSchema :=
  MkEdgeSchema "person" "person" "knows" false true true kMultiple kMultiple [(kInt32, 0)] ["since"%string] [PInt32 0] [false].
Definition citizen : VertexSchema := MkVertexSchema "person" [(kVarchar, 9)] ["name"%string] [((kInt64, 0), "id"%string, 0)] [PVarchar []] [false].

Lemma market_ok : schema_ok market.
Proof.
  apply reachable_ok, (run_reachable market_ops new_schema); [constructor| |vm_compute; reflexivity]. cbn [run_pre market_ops add_vertex add_edge schema_pre].
  repeat match goal with |- context [match schema_exec ?s ?op with _ => _ end] => let x := eval vm_compute in (schema_exec s op) in change (schema_exec s op) with x; cbv iota beta end.
  split_and!; try done; try schema_small; try schema_member; try (split; [by exists 1|by eexists]); by exists 1.
Qed.

(** ** The tables *)

Definition buys_table : ZTable :=
  MkEdgeTable buys (csr_after [CResize 2; CPut 0 1 7 1; CPut 1 0 8 1]) (csr_after [CResize 2; CPut 1 0 7 1; CPut 0 1 8 1]) new_table 0 0.
Definition friends_table : ZTable :=
  MkEdgeTable friends (csr_after [CResize 2; CPut 0 1 9 1]) (csr_after [CResize 2; CPut 1 0 9 1]) new_table 0 0.
Definition buys_edges : list aedge := [AEdge 0 1 1 [PInt32 7]; AEdge 1 0 1 [PInt32 8]].
Definition friends_edges : list aedge := [AEdge 0 1 1 [PInt32 9]].

Lemma int32_searchable m : properties m = [(kInt32, 0)] -> searchable int32_utils Z.eqb m.
Proof. intros Hm. unfold searchable. rewrite Hm. split; [reflexivity|reflexivity|apply Z.eqb_eq]. Qed.

Lemma buys_holds : et_holds buys_table 2 2 buys_edges.
Proof.
  split; [by apply int32_searchable|]. exists [[Nbr 1 1 7]; [Nbr 0 1 8]], [[Nbr 1 1 8]; [Nbr 0 1 7]], []. split; [|by split]. split; [split; [|split]|done|].
  - eapply csr_after_rel. vm_compute. reflexivity.
  - eapply csr_after_rel. vm_compute. reflexivity.
  - vm_compute. apply perm_swap.
  - reflexivity.
Qed.

Lemma friends_holds : et_holds friends_table 2 2 friends_edges.
Proof.
  split; [by apply int32_searchable|]. exists [[Nbr 1 1 9]; []], [[]; [Nbr 0 1 9]], []. split; [|by split]. split; [split; [|split]|done|].
  - eapply csr_after_rel. vm_compute. reflexivity.
  - eapply csr_after_rel. vm_compute. reflexivity.
  - apply (reflexive_eq (R := Permutation)). reflexivity.
  - reflexivity.
Qed.

(** A table of two people. *)
Definition citizen_calls : list vt_op := [DoEnsure citizen 2; DoAdd (PInt64 50) [PVarchar [97]] 3 false; DoAdd (PInt64 70) [PVarchar [98]] 3 false].

(** A vertex that is not there, and its addition to a table. *)
Definition adds (a : avt) (id : Property) (ts v : Z) : bool :=
  bool_decide (key_index kInt64 a id = None) && match vt_step kInt64 (key_width kInt64 None) (DoAdd id [PVarchar [99]] ts false) a with Some (RVid (Some u), _) => u =? v | _ => false end.
Lemma adds_step a id ts v : adds a id ts v = true -> key_index kInt64 a id = None /\ exists a1, vt_step kInt64 (key_width kInt64 None) (DoAdd id [PVarchar [99]] ts false) a = Some (RVid (Some v), a1).
Proof.
  unfold adds. intros [Hk%(bool_decide_eq_true_1 _) Hs]%andb_prop. split; [done|]. destruct (vt_step _ _ _ a) as [[[| |[u|]| | | | |] a1]|]; try done. apply Z.eqb_eq in Hs as ->. by exists a1.
Qed.

Lemma citizens : exists vt a, vt_rel short_hash kInt64 (key_width kInt64 None) vt a /\ is_dropped vt = false /\ seen_vertices a 5 = [0; 1] /\
  num a = 2 /\ adds a (PInt64 9) 6 2 = true /\ key_index kInt64 a (PInt64 11) = None.
Proof.
  assert (kInt64 ∈ key_types) as Ht by (apply (bool_decide_unpack _); vm_compute; exact I). assert (NoDup (VertexSchema.property_names citizen)) as Hd by (apply (bool_decide_unpack _); vm_compute; exact I).
  destruct (open_rel short_hash citizen kInt64 0 "id" 0 eq_refl Ht Hd eq_refl eq_refl) as (t0 & t1 & _ & _ & Hrel0).
  assert (fmap (fun r => (fst r, (seen_vertices (snd r) 5, num (snd r), adds (snd r) (PInt64 9) 6 2, key_index kInt64 (snd r) (PInt64 11)))) (vrun (vt_step kInt64 (key_width kInt64 None)) citizen_calls (AVT [] 0 0 0 [] (fresh_cols (VertexSchema.property_names citizen) (property_types citizen))))
    = Some ([RNum 4096; RVid (Some 0); RVid (Some 1)], ([0; 1], 2, true, None))) as Hx by (vm_compute; reflexivity).
  destruct (vrun (vt_step _ _) citizen_calls _) as [[o a]|] eqn:E; [|done]. injection Hx as -> Hs Hnum Hadds Hkey.
  pose proof (vrun_rel short_hash kInt64 _ citizen_calls t1 _ _ a Hrel0 E) as Hw. apply wp_exists in Hw as ([o' vt] & _ & _ & Hrel). exists vt, a. split; [exact Hrel|]. split; [|done].
  destruct (vr_table _ _ _ _ _ Hrel) as (tb & Htb & _). cbn [snd] in Htb. unfold is_dropped. by rewrite Htb.
Qed.

Definition market_tables : gmap Z ZTable := <[generate_edge_label 1 2 0 := buys_table]> {[generate_edge_label 1 1 1 := friends_table]}.
Definition market_graph (vt : VertexTable) : PropertyGraph ZTable := MkGraph market [vt; vt; vt] market_tables 3 2.
Definition market_edges (key : Z) : list aedge := if key =? generate_edge_label 1 2 0 then buys_edges else friends_edges.

Lemma market_types : e_schemas_ market = <[generate_edge_label 1 2 0 := buys]> {[generate_edge_label 1 1 1 := friends]}.
Proof. vm_compute. reflexivity. Qed.

Lemma market_graph_ok vt : graph_ok (market_graph vt).
Proof.
  split; [exact market_ok|reflexivity|reflexivity|reflexivity|]. change (schema_ (market_graph vt)) with market. rewrite market_types. cbn [market_graph edge_tables_]. unfold market_tables.
  rewrite fmap_insert, map_fmap_singleton. reflexivity.
Qed.

Lemma market_holds vt : graph_holds (market_graph vt) (fun _ => 2) market_edges.
Proof.
  intros i j k t Hi Hj Hk. cbn [market_graph edge_tables_]. unfold market_tables. rewrite lookup_insert_Some, lookup_singleton_Some. intros [[E <-]|[_ [E <-]]]; rewrite <-E.
  - exact buys_holds.
  - exact friends_holds.
Qed.

Lemma market_live : live_number market 1 /\ live_number market 2 /\ ~ live_number market 0.
Proof. split_and!; [vm_compute; reflexivity|vm_compute; reflexivity|]. unfold live_number. vm_compute. discriminate. Qed.

(** ** The theorems on the market *)

(** Person 0 goes, with what was bought by it and the one friend it had. *)
Lemma batch_delete_vertices_spec_witness : exists vt a, vt_rel short_hash kInt64 (key_width kInt64 None) vt a /\
  wp (PropertyGraph.BatchDeleteVertices 1 [0] (market_graph vt)) (fun r => fst r = Returned OK /\ exists E', graph_holds (snd r) (fun _ => 2) E' /\
    E' (generate_edge_label 1 2 0) = [AEdge 1 0 1 [PInt32 8]] /\ E' (generate_edge_label 1 1 1) = []).
Proof.
  destruct citizens as (vt & a & Hrel & _). exists vt, a. split; [exact Hrel|]. destruct market_live as (H1 & H2 & _).
  eapply wp_mono; [apply (batch_delete_vertices_spec short_hash (market_graph vt) (fun _ => 2) market_edges 1 [0] vt kInt64 (key_width kInt64 None) a
    (market_graph_ok vt) (market_holds vt) H1 ltac:(by constructor) eq_refl Hrel)|].
  intros r (Hr & _ & _ & _ & E' & Hh & HE). split; [exact Hr|]. exists E'. split; [exact Hh|]. split.
  - rewrite (HE 1 2 0 H1 H2 ltac:(lia) eq_refl). reflexivity.
  - rewrite (HE 1 1 1 H1 H1 ltac:(lia) eq_refl). reflexivity.
Defined.

(** Person 0 goes, but what it bought from shop 1 stays, while what person 1 bought
    from shop 0 is gone. *)
Lemma delete_vertex_wrong_ends_witness : exists vt a, vt_rel short_hash kInt64 (key_width kInt64 None) vt a /\
  wp (PropertyGraph.DeleteVertex 1 0 5 (market_graph vt)) (fun r => fst r = Returned OK /\ exists E', graph_holds (snd r) (fun _ => 2) E' /\
    E' (generate_edge_label 1 2 0) = [AEdge 0 1 1 [PInt32 7]]).
Proof.
  destruct citizens as (vt & a & Hrel & _). exists vt, a. split; [exact Hrel|]. destruct market_live as (H1 & H2 & _).
  eapply wp_mono; [apply (delete_vertex_wrong_ends short_hash (market_graph vt) (fun _ => 2) market_edges 1 0 5 vt kInt64 (key_width kInt64 None) a
    (market_graph_ok vt) (market_holds vt) H1 ltac:(lia) eq_refl ltac:(intros; lia) eq_refl Hrel)|].
  intros r (Hr & _ & _ & _ & E' & Hh & HE). split; [exact Hr|]. exists E'. split; [exact Hh|].
  rewrite (HE 1 2 0 H1 H2 ltac:(lia) eq_refl). reflexivity.
Defined.

Lemma market_visible : visible_types market.
Proof.
  intros i j k m Hi Hj Hk. rewrite market_types, lookup_insert_Some, lookup_singleton_Some.
  intros [[E _]|[_ [E _]]]; apply edge_number_inj in E as (<- & <- & <-); try lia; (split; [|reflexivity]); apply (bool_decide_unpack _); vm_compute; exact I.
Qed.

(** The type of people goes; the friendships stay, and are there again with the type. *)
Lemma loops_return_witness : exists vt, is_dropped vt = false /\
  wp (DeleteVertexType 1 (market_graph vt)) (fun r => fst r = Returned OK /\
    edge_tables_ (snd r) !! generate_edge_label 1 2 0 = None /\ edge_tables_ (snd r) !! generate_edge_label 1 1 1 = Some friends_table /\
    exists s, AddVertexLabel (schema_ (snd r)) "person" [(kVarchar, 9)] ["name"%string] [((kInt64, 0), "id"%string, 0)] [PVarchar []] = Some (Returned tt, s) /\
      etype s "person" "person" "knows" = Some friends).
Proof.
  destruct citizens as (vt & a & Hrel & Hd & _). exists vt. split; [exact Hd|]. destruct market_live as (H1 & H2 & _).
  eapply wp_mono; [apply (loops_return (market_graph vt) 1 "person" vt (market_graph_ok vt) market_visible H1 eq_refl eq_refl Hd)|].
  intros r (Hr & _ & _ & Hgone & Hloop & Hback). split; [exact Hr|]. destruct (Hgone 2 0 H2 ltac:(lia) ltac:(by split)) as [Hbuys _]. split; [exact Hbuys|]. split.
  - rewrite (Hloop 1) by lia. vm_compute. reflexivity.
  - destruct (Hback [(kVarchar, 9)] ["name"%string] [((kInt64, 0), "id"%string, 0)] [PVarchar []] citizen eq_refl) as (s & Hs & He). exists s. split; [exact Hs|].
    rewrite He. vm_compute. reflexivity.
Defined.

Lemma market_can_move vt : can_move (market_graph vt).
Proof.
  split.
  - intros i m Hi%live_range. cbn [market_graph schema_] in *. change (vlen (vlabel_indexer_ market)) with 3 in Hi.
    assert (i = 0 \/ i = 1 \/ i = 2) as [->|[->| ->]] by lia; intros E; vm_compute in E; injection E as <-; (split; [reflexivity|]); vm_compute; eexists; reflexivity.
  - intros key m. cbn [market_graph schema_]. rewrite market_types, lookup_insert_Some, lookup_singleton_Some. intros [[_ <-]|[_ [_ <-]]]; eexists; reflexivity.
Qed.

(** The deleted cities go: people and shops are labels 0 and 1, with their tables. *)
Lemma graph_compaction_witness : exists vt, is_dropped vt = false /\
  wp (PropertyGraph.compact_schema (market_graph vt)) (fun r => fst r = Returned tt /\ vlabel_indexer_ (schema_ (snd r)) = ["person"; "shop"]%string /\
    vtable_of (snd r) "person" = Some vt /\ etable_of (snd r) "person" "shop" "buys" = Some buys_table /\ etable_of (snd r) "person" "person" "knows" = Some friends_table).
Proof.
  destruct citizens as (vt & a & _ & Hd & _). exists vt. split; [exact Hd|].
  eapply wp_mono; [apply (graph_compaction (market_graph vt) (market_graph_ok vt) (market_can_move vt))|].
  intros r (Hr & _ & Hs & Hv & He). split; [exact Hr|]. split; [|rewrite Hv, !He; split_and!; vm_compute; reflexivity].
  assert (fmap (M := option) (fun o => match o with Returned s => vlabel_indexer_ s | Thrown => [] end) (SchemaOps.compact_schema market) = Some ["person"; "shop"]%string) as Hx by (vm_compute; reflexivity).
  change market with (schema_ (market_graph vt)) in Hx. rewrite Hs in Hx. by injection Hx.
Defined.

(** ** Insert transactions on the market *)

Definition joins (id : Property) : redo := InsertVertexRedo 1 id [PVarchar [99]].

Lemma joins_insertable n : In n [9; 11] -> insertable [joins (PInt64 n)].
Proof.
  intros Hn. assert (prop_ok (PInt64 n)) as Hp by (destruct Hn as [<-|[<-|[]]]; (split; [done|done])). split; [|by destruct Hn as [<-|[<-|[]]]; vm_compute].
  constructor; [|constructor]. split; [|done]. split; [split; done|]. split; [done|]. split; [done|]. by constructor.
Qed.

Lemma joins_added vt a n ts : vt_rel short_hash kInt64 (key_width kInt64 None) vt a -> num a = 2 -> key_index kInt64 a (PInt64 n) = None -> 0 < ts < INVALID_TIME ->
  InsertTransaction.AddVertex short_hash (begin_insert ts) (market_graph vt) 1 (PInt64 n) [PVarchar [99]] = Some (Returned (Some 2), first_added ts 1 2 kInt64 (PInt64 n) [PVarchar [99]]).
Proof.
  intros Hrel Hnum Hk Hts. rewrite (add_first short_hash ts (market_graph vt) 1 (PInt64 n) [PVarchar [99]] [(kVarchar, 9)] [((kInt64, 0), "id"%string, 0)] (kInt64, 0) "id"%string 0 2); try done.
  - change (get_lid short_hash 1 (PInt64 n) ts (market_graph vt)) with (VertexTable.get_index short_hash vt (PInt64 n) ts).
    rewrite (find_rel_vt short_hash kInt64 (key_width kInt64 None) vt a) by first [done|unfold is_time, DELETED_TIMESTAMP, INVALID_TIME in *; lia]. by rewrite Hk.
  - apply (bool_decide_unpack _). vm_compute. exact I.
  - unfold LidNum. cbn [market_graph vertex_tables_]. change (vget [vt; vt; vt] 1) with (Some vt). cbn [mbind option_bind]. by rewrite (lid_num _ _ _ _ _ Hrel), Hnum.
Qed.

(** Two people with the same key. *)
Lemma duplicate_insert_unrecoverable_witness : exists vt a, vt_rel short_hash kInt64 (key_width kInt64 None) vt a /\
  wp (commit_all short_hash [first_added 6 1 2 kInt64 (PInt64 9) [PVarchar [99]]; first_added 8 1 2 kInt64 (PInt64 9) [PVarchar [99]]] (market_graph vt, open_writer, [])) (fun '(r, (g, w, released)) =>
    r = Thrown /\ released = [6] /\ (has_end w -> wp (open_parser [file_ w]) (fun p => @ingestWals _ (graph_replay short_hash false (fun _ _ g => Some (Returned tt, g))) p (market_graph vt) = Some (Thrown, g)))).
Proof.
  destruct citizens as (vt & a & Hrel & _ & _ & Hnum & Hadds & _). exists vt, a. split; [exact Hrel|]. apply adds_step in Hadds as (Hk & a1 & Hstep).
  assert (kInt64 ∈ key_types) as Ht by (apply (bool_decide_unpack _); vm_compute; exact I).
  apply (duplicate_insert_unrecoverable short_hash false (fun _ _ g => Some (Returned tt, g)) kInt64 (key_width kInt64 None) (market_graph vt) 1 vt a (PInt64 9) [PVarchar [99]] [PVarchar [99]] 6 8 2 2 _ _ 2 a1);
    try done; try (by apply joins_insertable; simpl; auto); apply (joins_added vt a); done.
Defined.

(** Person 11 is taken for person 9. *)
Lemma concurrent_insert_wrong_vertex_witness : exists vt a, vt_rel short_hash kInt64 (key_width kInt64 None) vt a /\
  wp (apply_insert short_hash 6 (joins (PInt64 9)) (market_graph vt)) (fun '(r, g) => r = Returned tt /\
    GetVertexIndex short_hash (first_added 8 1 2 kInt64 (PInt64 11) [PVarchar [99]]) g 1 (PInt64 9) = Some (Returned (Some 2)) /\
    GetVertexId (first_added 8 1 2 kInt64 (PInt64 11) [PVarchar [99]]) g 1 2 = Some (Returned (PInt64 11))).
Proof.
  destruct citizens as (vt & a & Hrel & _ & _ & Hnum & Hadds & Hk11). exists vt, a. split; [exact Hrel|]. apply adds_step in Hadds as (Hk & a1 & Hstep).
  assert (kInt64 ∈ key_types) as Ht by (apply (bool_decide_unpack _); vm_compute; exact I).
  eapply wp_mono; [apply (concurrent_insert_wrong_vertex short_hash kInt64 (key_width kInt64 None) (market_graph vt) 1 vt a (PInt64 11) (PInt64 9) [PVarchar [99]] [PVarchar [99]] 8 6
    (first_added 8 1 2 kInt64 (PInt64 11) [PVarchar [99]]) 2 2 a1); try done; apply (joins_added vt a); done|].
  intros [r g] (H1 & H2 & H3 & _). done.
Defined.

(** A transaction without changes, then a new person. *)
Lemma insert_durability_witness : exists vt a, vt_rel short_hash kInt64 (key_width kInt64 None) vt a /\
  wp (commit_all short_hash [begin_insert 3; first_added 6 1 2 kInt64 (PInt64 9) [PVarchar [99]]] (market_graph vt, open_writer, [])) (fun '(r, (g, w, released)) =>
    r = Returned tt /\ released = [3; 6] /\ wp (open_parser [file_ w]) (fun p => @ingestWals _ (graph_replay short_hash false (fun _ _ g => Some (Returned tt, g))) p (market_graph vt) = Some (Returned tt, g))).
Proof.
  destruct citizens as (vt & a & Hrel & _ & _ & Hnum & Hadds & _). exists vt, a. split; [exact Hrel|]. apply adds_step in Hadds as (Hk & a1 & Hstep).
  set (cs := [(begin_insert 3, []); (first_added 6 1 2 kInt64 (PInt64 9) [PVarchar [99]], [joins (PInt64 9)])]).
  assert (Forall commit_ok cs) as Hok.
  { constructor; [split; [done|split; [split; [constructor|reflexivity]|done]]|]. constructor; [|constructor]. split; [reflexivity|]. split; [apply joins_insertable; simpl; auto|done]. }
  destruct (proj1 (wp_exists _ _) (apply_insert_vertex short_hash kInt64 (key_width kInt64 None) (market_graph vt) 1 vt a (PInt64 9) [PVarchar [99]] 6 _ a1 eq_refl Hrel Hstep)) as ([o g1] & E & Ho & _). cbn [fst] in Ho. subst o.
  assert (commit_all short_hash (map fst cs) (market_graph vt, open_writer, []) = Some (Returned tt, (g1, write_units [unit_of (first_added 6 1 2 kInt64 (PInt64 9) [PVarchar [99]], [joins (PInt64 9)])], [3; 6]))) as Hall.
  { cbn [cs map fst commit_all]. pose proof (commit_step short_hash _ (market_graph vt) open_writer [] (Forall_inv Hok)) as C1. cbn [fst snd] in C1. rewrite C1, decide_True by done. cbn [mbind option_bind].
    pose proof (commit_step short_hash _ (market_graph vt) open_writer [3] (Forall_inv (Forall_inv_tail Hok))) as C2. cbn [fst snd] in C2. cbn [app]. change (timestamp_ (begin_insert 3)) with 3. rewrite C2, decide_False by done.
    cbn [u_content unit_of fst snd]. rewrite ingest_insert by (apply joins_insertable; simpl; auto). cbn [each]. change (timestamp_ (first_added 6 1 2 kInt64 (PInt64 9) [PVarchar [99]])) with 6. unfold and_then. change (InsertVertexRedo 1 (PInt64 9) [PVarchar [99]]) with (joins (PInt64 9)) in E. rewrite E. reflexivity. }
  change [begin_insert 3; first_added 6 1 2 kInt64 (PInt64 9) [PVarchar [99]]] with (map fst cs). rewrite Hall. apply wp_ret. split; [done|]. split; [done|].
  refine (proj1 (insert_durability short_hash false (fun _ _ g => Some (Returned tt, g)) cs (market_graph vt) (Returned tt) g1 _ [3; 6] Hok _ Hall _)); [|by vm_compute].
  repeat constructor; done.
Defined.
