(* ===== verification/Projection.v ===== *)
(** * Projections of a bibliographic store to weighted graphs

    [BuildCountryCoauthorProjection], [BuildInfraCountryProjection] and
    [BuildDatasourceProjection] of [LouvainComputer], and
    [BuildCountryCoauthorProjection] and [BuildOrgProjectProjection] of
    [KcoreComputer].  Counters that are only logged are left out; a
    publication that the code skips has the empty country list here, on which
    every later loop does nothing. *)
From S2P Require Import Prelude Num Storage GraphBuild Aggregate.
From stdpp Require pretty.
#[local] Open Scope Z_scope.

Record CoauthorConfig := { ca_year_min : Z; ca_year_max : Z; ca_max_coauthors : Z }.
Record InfraConfig := {
  in_year_min : Z; in_year_max : Z; in_min_hosts_per_datasource : Z; in_max_author_orgs : Z }.
Record DatasourceConfig := { dc_year_min : Z; dc_year_max : Z; dc_min_pubs : Z }.
Record KcoreCoauthorConfig := {
  kc_year_min : Z; kc_year_max : Z; kc_max_coauthors : Z; kc_min_edge_weight : Z }.
Record ProjectConfig := {
  pc_year_min : Z; pc_year_max : Z; pc_min_org_projects : Z; pc_min_edge_weight : Z;
  pc_max_project_size : Z }.

(** ** Labels *)

(** [static_cast<label_t>(-1)], the "no label" sentinel. *)
Definition NO_LABEL : Z := to_u8 (-1).

(** [schema.get_vertex_label_id] inside [try]: [k] on success, [e] when it throws. *)
Definition with_label {A} (sch : Schema) (name : string) (e : option A) (k : Z -> option A) : option A :=
  r ← get_vertex_label_id sch name;
  match r with Returned l => k l | Thrown => e end.

(** The first edge label from [src] to [dst], leaving the loop with [break]. *)
Fixpoint find_edge_label (keys : list Z) (src dst : Z) : Z :=
  match keys with
  | [] => NO_LABEL
  | key :: keys' =>
      let '(s, d, e) := parse_edge_label key in
      if (s =? src) && (d =? dst) then e else find_edge_label keys' src dst
  end.

(** The variant without [break], guarded by "not found yet". *)
Definition scan_edge_label (keys : list Z) (src dst : Z) : Z :=
  fold_left (fun found key =>
    let '(s, d, e) := parse_edge_label key in
    if (s =? src) && (d =? dst) && (found =? NO_LABEL) then e else found) keys NO_LABEL.

(** ** Countries *)

Record country_index := CountryIndex {
  cc_to_idx : gmap string Z;
  org_to_cidx : list Z;
  cc_list : list string
}.

(** Organisation [i]: [emplace] its country code, record its index. *)
Definition index_org (g : StorageReadInterface) (org_label : Z) (cc_col : Z -> string)
    (i : Z) (ci : country_index) : option country_index :=
  if negb (IsValidVertex g org_label (to_u32 i)) then Some ci
  else
    let cc := cc_col i in
    if decide (cc = EmptyString) then Some ci
    else
      match cc_to_idx ci !! cc with
      | Some k =>
          o ← vset (org_to_cidx ci) i k;
          Some (CountryIndex (cc_to_idx ci) o (cc_list ci))
      | None =>
          let k := to_int (Z.of_nat (size (cc_to_idx ci))) in
          o ← vset (org_to_cidx ci) i k;
          Some (CountryIndex (<[cc := k]> (cc_to_idx ci)) o (cc_list ci ++ [cc]))
      end.

Definition index_countries (g : StorageReadInterface) (org_label : Z) (cc_col : Z -> string)
    (num_orgs : Z) : option country_index :=
  for_range num_orgs (CountryIndex ∅ (vnew num_orgs (-1)) []) (index_org g org_label cc_col).

(** ** Publications *)

(** The distinct author organisations and the country index of each. *)
Definition collect_countries (num_orgs : Z) (org_to_cidx : list Z) (edges : list Z) :
    option (gset Z * list Z) :=
  for_each edges (∅, []) (fun org_vid '(distinct_orgs, cvec) =>
    if num_orgs <=? org_vid then Some (distinct_orgs, cvec)
    else if decide (to_int org_vid ∈ distinct_orgs) then Some (distinct_orgs, cvec)
    else
      cidx ← vget org_to_cidx org_vid;
      Some ({[to_int org_vid]} ∪ distinct_orgs, if cidx <? 0 then cvec else cvec ++ [cidx])).

(** The sorted, distinct countries of publication [i]; empty when the
    publication is skipped. *)
Definition pub_country_set (g : StorageReadInterface) (pub_label org_label e_label : Z)
    (year_col : Z -> Z) (year_min year_max max_orgs num_orgs : Z) (org_to_cidx : list Z)
    (i : Z) : option (list Z) :=
  if negb (IsValidVertex g pub_label (to_u32 i)) then Some []
  else if (year_min <=? year_max) && ((year_col i <? year_min) || (year_max <? year_col i))
  then Some []
  else
    oc ← collect_countries num_orgs org_to_cidx (get_edges g pub_label org_label e_label (to_u32 i));
    let '(distinct_orgs, cvec) := oc in
    if (0 <? max_orgs) && (max_orgs <? to_int (Z.of_nat (size distinct_orgs))) then Some []
    else match cvec with [] => Some [] | _ => Some (sort_unique cvec) end.

(** The comparator of the bucket sort, [x.first < y.first]. *)
Definition key_le (x y : Z * Z) : Prop := fst x <= fst y.
#[export] Instance key_le_dec : RelDecision key_le := fun x y => Z_le_dec (fst x) (fst y).

Section projections.
Context {W : Type} `{!Arith W} `{!HashOrder}.
Context (g : StorageReadInterface).

(** Fold every publication's country pairs into [agg]. *)
Definition coauthor_aggregate (num_pubs num_countries : Z) (countries : Z -> option (list Z)) :
    option (list (umap W)) :=
  for_range num_pubs (vnew num_countries []) (fun i agg =>
    cvec ← countries i;
    if vlen cvec <? 2 then Some agg
    else for_each (pairs cvec) agg (fun '(a, b) agg => emit agg a b wone)).

(** [global_to_local_] and [aggregate_keys_] of a country graph. *)
Definition map_countries (n : Z) (cc_list : list string) : option (list (Z * Z) * list string) :=
  for_range n (vnew n (0, 0), vnew n EmptyString) (fun i '(ids, keys) =>
    ids' ← vset ids i (NO_LABEL, to_u32 i);
    cc ← vget cc_list i;
    keys' ← vset keys i cc;
    Some (ids', keys')).

(** [adj_], [global_to_local_] and [aggregate_keys_] of a country graph. *)
Definition finish_country_graph (keep : W -> bool) (n : Z) (agg : list (umap W))
    (cc_list : list string) : option (computer W) :=
  at_ ← materialize keep n agg;
  let '(adj, total_entries) := at_ in
  maps ← map_countries n cc_list;
  Some (Computer n (to_int total_entries) [] (fst maps) adj (snd maps) []).

(** [LouvainComputer::BuildCountryCoauthorProjection]. *)
Definition BuildCountryCoauthorProjection (cfg : CoauthorConfig) : option (computer W) :=
  with_label (schema g) "Publication" (Some fresh_computer) (fun pub_label =>
  with_label (schema g) "Organization" (Some fresh_computer) (fun org_label =>
  let e_label := find_edge_label (e_schemas (schema g)) pub_label org_label in
  if e_label =? NO_LABEL then Some fresh_computer
  else match int64_column g pub_label "year", string_column g org_label "country_code" with
  | Some year_col, Some cc_col =>
      let num_pubs := GetVertexSet_size g pub_label in
      let num_orgs := GetVertexSet_size g org_label in
      ci ← index_countries g org_label cc_col num_orgs;
      let num_countries := to_int (Z.of_nat (size (cc_to_idx ci))) in
      if num_countries =? 0 then Some fresh_computer
      else
        agg ← coauthor_aggregate num_pubs num_countries
          (pub_country_set g pub_label org_label e_label year_col (ca_year_min cfg)
             (ca_year_max cfg) (ca_max_coauthors cfg) num_orgs (org_to_cidx ci));
        finish_country_graph (fun _ => true) num_countries agg (cc_list ci)
  | _, _ => Some fresh_computer
  end)).

(** [KcoreComputer::BuildCountryCoauthorProjection]: the same graph without
    the edges lighter than [min_edge_weight]. *)
Definition Kcore_BuildCountryCoauthorProjection (cfg : KcoreCoauthorConfig) : option (computer W) :=
  with_label (schema g) "Publication" (Some fresh_computer) (fun pub_label =>
  with_label (schema g) "Organization" (Some fresh_computer) (fun org_label =>
  let e_label := find_edge_label (e_schemas (schema g)) pub_label org_label in
  if e_label =? NO_LABEL then Some fresh_computer
  else match int64_column g pub_label "year", string_column g org_label "country_code" with
  | Some year_col, Some cc_col =>
      let num_pubs := GetVertexSet_size g pub_label in
      let num_orgs := GetVertexSet_size g org_label in
      ci ← index_countries g org_label cc_col num_orgs;
      let num_countries := to_int (Z.of_nat (size (cc_to_idx ci))) in
      if num_countries =? 0 then Some fresh_computer
      else
        agg ← coauthor_aggregate num_pubs num_countries
          (pub_country_set g pub_label org_label e_label year_col (kc_year_min cfg)
             (kc_year_max cfg) (kc_max_coauthors cfg) num_orgs (org_to_cidx ci));
        let thr := wofZ (kc_min_edge_weight cfg) in
        finish_country_graph (fun w => negb (wltb w thr)) num_countries agg (cc_list ci)
  | _, _ => Some fresh_computer
  end)).

(** *** Infrastructure projection *)

(** Pass 1: [pub_countries]. *)
Definition infra_pub_countries (num_pubs : Z) (countries : Z -> option (list Z)) :
    option (list (list Z)) :=
  for_range num_pubs (vnew num_pubs []) (fun i pc => c ← countries i; vset pc i c).

(** Pass 2 for one datasource: its country histogram and its total. *)
Definition host_counts (num_pubs : Z) (pub_countries : list (list Z)) (edges : list Z) :
    option (umap Z * Z) :=
  r ← for_each edges (∅ : gset Z, [], 0) (fun pub_vid '(seen, bucket, total) =>
    if num_pubs <=? pub_vid then Some (seen, bucket, total)
    else if decide (to_int pub_vid ∈ seen) then Some (seen, bucket, total)
    else
      let seen' := {[to_int pub_vid]} ∪ seen in
      cvec ← vget pub_countries pub_vid;
      match cvec with
      | [] => Some (seen', bucket, total)
      | _ => Some (seen', fold_left (fun bk c => umap_update bk c 0 (fun x => x + 1)) cvec bucket, total + 1)
      end);
  let '(_, bucket, total) := r in Some (bucket, total).

(** Pass 2 and the long-tail filter: the buckets that enter pass 3. *)
Definition datasource_bucket (ds_label pub_label e_label num_pubs min_hosts : Z)
    (pub_countries : list (list Z)) (i : Z) : option (umap Z) :=
  if negb (IsValidVertex g ds_label (to_u32 i)) then Some []
  else
    bt ← host_counts num_pubs pub_countries (get_edges g ds_label pub_label e_label (to_u32 i));
    let '(bucket, total) := bt in
    match bucket with
    | [] => Some []
    | _ => Some (if (0 <? min_hosts) && (total <? min_hosts) then [] else bucket)
    end.

(** [std::sort] of the bucket's entries by country. *)
Definition sort_items (bucket : umap Z) : list (Z * Z) :=
  sorting.merge_sort key_le (iter_order 0 bucket).

(** Pass 3: min-coupling per datasource. *)
Definition min_coupling (num_datasources num_countries : Z) (buckets : Z -> option (umap Z)) :
    option (list (umap W)) :=
  for_range num_datasources (vnew num_countries []) (fun i agg =>
    bucket ← buckets i;
    if vlen bucket <? 2 then Some agg
    else for_each (pairs (sort_items bucket)) agg (fun '((a, wa), (b, wb)) agg =>
      let coupling := wofZ (Z.min wa wb) in
      if wleb coupling wzero then Some agg else emit agg a b coupling)).

(** [LouvainComputer::BuildInfraCountryProjection]. *)
Definition BuildInfraCountryProjection (cfg : InfraConfig) : option (computer W) :=
  with_label (schema g) "Publication" (Some fresh_computer) (fun pub_label =>
  with_label (schema g) "Organization" (Some fresh_computer) (fun org_label =>
  with_label (schema g) "Datasource" (Some fresh_computer) (fun ds_label =>
  let keys := e_schemas (schema g) in
  let pub_org := scan_edge_label keys pub_label org_label in
  let ds_pub := scan_edge_label keys ds_label pub_label in
  if (pub_org =? NO_LABEL) || (ds_pub =? NO_LABEL) then Some fresh_computer
  else match int64_column g pub_label "year", string_column g org_label "country_code" with
  | Some year_col, Some cc_col =>
      let num_pubs := GetVertexSet_size g pub_label in
      let num_orgs := GetVertexSet_size g org_label in
      let num_datasources := GetVertexSet_size g ds_label in
      ci ← index_countries g org_label cc_col num_orgs;
      let num_countries := to_int (Z.of_nat (size (cc_to_idx ci))) in
      if num_countries =? 0 then Some fresh_computer
      else
        pc ← infra_pub_countries num_pubs
          (pub_country_set g pub_label org_label pub_org year_col (in_year_min cfg)
             (in_year_max cfg) (in_max_author_orgs cfg) num_orgs (org_to_cidx ci));
        agg ← min_coupling num_datasources num_countries
          (datasource_bucket ds_label pub_label ds_pub num_pubs
             (in_min_hosts_per_datasource cfg) pc);
        finish_country_graph (fun _ => true) num_countries agg (cc_list ci)
  | _, _ => Some fresh_computer
  end))).

(** *** Datasource projection *)

(** Pass 1: [pub_in_window]. *)
Definition pubs_in_window (pub_label num_pubs year_min year_max : Z) (year_col : Z -> Z) :
    option (list bool) :=
  for_range num_pubs (vnew num_pubs false) (fun i mask =>
    if negb (IsValidVertex g pub_label (to_u32 i)) then Some mask
    else if (year_min <=? year_max) && ((year_col i <? year_min) || (year_max <? year_col i))
    then Some mask
    else vset mask i true).

(** The distinct targets of an edge list that are in range and in the window. *)
Definition hosted (num : Z) (mask : list bool) (edges : list Z) : option (list Z) :=
  r ← for_each edges (∅ : gset Z, []) (fun vid '(seen, out) =>
    if num <=? vid then Some (seen, out)
    else
      ok ← vget mask vid;
      if negb ok then Some (seen, out)
      else if decide (to_int vid ∈ seen) then Some (seen, out)
      else Some ({[to_int vid]} ∪ seen, out ++ [to_int vid]));
  Some (snd r).

(** Pass 2: per-datasource in-window publications, sorted. *)
Definition datasource_pubs (ds_label pub_label e_label num_pubs num_datasources : Z)
    (mask : list bool) : option (list (list Z)) :=
  for_range num_datasources (vnew num_datasources []) (fun i ds_pubs =>
    if negb (IsValidVertex g ds_label (to_u32 i)) then Some ds_pubs
    else
      pubs ← hosted num_pubs mask (get_edges g ds_label pub_label e_label (to_u32 i));
      vset ds_pubs i (std_sort pubs)).

(** [ds_keep]: datasources with enough, and at least one, publications. *)
Definition keep_datasources (num_datasources min_pubs : Z) (ds_pubs : list (list Z)) :
    option (list Z) :=
  for_range num_datasources [] (fun i ds_keep =>
    row ← vget ds_pubs i;
    if (min_pubs <=? to_int (vlen row)) && negb (vlen row =? 0)
    then Some (ds_keep ++ [to_int i]) else Some ds_keep).

(** The inverted index [pub_to_ds]. *)
Definition invert_pubs (num_pubs : Z) (ds_keep : list Z) (ds_pubs : list (list Z)) :
    option (list (list Z)) :=
  for_range (vlen ds_keep) (vnew num_pubs []) (fun s pub_to_ds =>
    ds_vid ← vget ds_keep s;
    row ← vget ds_pubs ds_vid;
    for_each row pub_to_ds (fun p pub_to_ds =>
      l ← vget pub_to_ds p;
      vset pub_to_ds p (l ++ [s]))).

Definition kPubDsCap : Z := 256.

(** Pass 3: co-hosting pairs, skipping publications hosted too widely. *)
Definition cohost_aggregate (num_pubs num_kept : Z) (pub_to_ds : list (list Z)) :
    option (list (umap W)) :=
  for_range (to_int num_pubs) (vnew num_kept []) (fun p agg =>
    dsvec ← vget pub_to_ds p;
    let k := to_int (vlen dsvec) in
    if k <? 2 then Some agg
    else if kPubDsCap <? k then Some agg
    else for_each (pairs dsvec) agg (fun '(a, b) agg => emit agg a b wone)).

(** Pass 4 for one datasource: its first provider with a country code. *)
Fixpoint first_provider (org_label num_orgs : Z) (cc_col : Z -> string)
    (org_id_col : option (Z -> string)) (edges : list Z) : string * string :=
  match edges with
  | [] => (EmptyString, EmptyString)
  | org_vid :: edges' =>
      if (num_orgs <=? org_vid) || negb (IsValidVertex g org_label org_vid)
         || bool_decide (cc_col org_vid = EmptyString)
      then first_provider org_label num_orgs cc_col org_id_col edges'
      else (match org_id_col with Some c => c org_vid | None => EmptyString end, cc_col org_vid)
  end.

(** [std::to_string] of a vertex id. *)
Definition to_string (z : Z) : string := pretty.pretty z.

(** [global_to_local_], [aggregate_keys_] and [aggregate_extra_]. *)
Definition annotate_datasources (ds_label org_label ds_org num_orgs : Z) (cc_col : Z -> string)
    (org_id_col ds_id_col : option (Z -> string)) (ds_keep : list Z) :
    list (Z * Z) * list string * list string :=
  (map (fun d => (ds_label, to_u32 d)) ds_keep,
   map (fun d => match ds_id_col with Some c => c d | None => to_string d end) ds_keep,
   map (fun d =>
     let '(oid, cc) :=
       if ds_org =? NO_LABEL then (EmptyString, EmptyString)
       else first_provider org_label num_orgs cc_col org_id_col
              (get_edges g ds_label org_label ds_org (to_u32 d)) in
     (oid ++ "|" ++ cc)%string) ds_keep).

(** [LouvainComputer::BuildDatasourceProjection]. *)
Definition BuildDatasourceProjection (cfg : DatasourceConfig) : option (computer W) :=
  with_label (schema g) "Publication" (Some fresh_computer) (fun pub_label =>
  with_label (schema g) "Organization" (Some fresh_computer) (fun org_label =>
  with_label (schema g) "Datasource" (Some fresh_computer) (fun ds_label =>
  let keys := e_schemas (schema g) in
  let ds_pub := scan_edge_label keys ds_label pub_label in
  let ds_org := scan_edge_label keys ds_label org_label in
  if ds_pub =? NO_LABEL then Some fresh_computer
  else match int64_column g pub_label "year", string_column g org_label "country_code" with
  | Some year_col, Some cc_col =>
      let org_id_col := string_column g org_label "id" in
      let ds_id_col := string_column g ds_label "id" in
      let num_pubs := GetVertexSet_size g pub_label in
      let num_orgs := GetVertexSet_size g org_label in
      let num_datasources := GetVertexSet_size g ds_label in
      mask ← pubs_in_window pub_label num_pubs (dc_year_min cfg) (dc_year_max cfg) year_col;
      ds_pubs ← datasource_pubs ds_label pub_label ds_pub num_pubs num_datasources mask;
      ds_keep ← keep_datasources num_datasources (dc_min_pubs cfg) ds_pubs;
      let num_kept := to_int (vlen ds_keep) in
      if num_kept =? 0 then Some fresh_computer
      else
        pub_to_ds ← invert_pubs num_pubs ds_keep ds_pubs;
        agg ← cohost_aggregate num_pubs num_kept pub_to_ds;
        at_ ← materialize (fun _ => true) num_kept agg;
        let '(adj, total_entries) := at_ in
        let '(ids, names, extra) :=
          annotate_datasources ds_label org_label ds_org num_orgs cc_col org_id_col ds_id_col ds_keep in
        Some (Computer num_kept (to_int total_entries) [] ids adj names extra)
  | _, _ => Some fresh_computer
  end))).
End projections.
