(* ===== verification/KcoreCompute.v ===== *)
(** * k-core: the project projection and [Compute]

    The rest of [KcoreComputer] (extension/kcore/include/kcore_functions.h):
    [parse_year_prefix], [BuildOrgProjectProjection] and [Compute], which
    builds the graph of its mode, runs [RunKCore] and summarises the result. *)
From S2P Require Import Prelude Num Storage KCore GraphBuild Aggregate Projection.
From Stdlib Require Import Ascii.
#[local] Open Scope Z_scope.

(** ** Dates *)

Definition char_code (c : ascii) : Z := Z.of_N (N_of_ascii c).

Fixpoint parse_digits (k : nat) (s : string) (y : Z) : Z :=
  match k with
  | O => y
  | S k' =>
      match s with
      | EmptyString => -1
      | String c s' =>
          if (char_code c <? 48) || (57 <? char_code c) then -1
          else parse_digits k' s' (y * 10 + (char_code c - 48))
      end
  end.

(** [-1] for a date shorter than four characters or not starting with digits. *)
Definition parse_year_prefix (sv : string) : Z :=
  if Z.of_nat (String.length sv) <? 4 then -1 else parse_digits 4 sv 0.

(** ** Organisations sharing projects *)

Section project.
Context {W : Type} `{!Arith W} `{!HashOrder}.
Context (g : StorageReadInterface).

(** Pass 1: [proj_in_window]. *)
Definition projects_in_window (proj_label num_projs ymin ymax : Z) (sd_col : Z -> string) :
    option (list bool) :=
  for_range num_projs (vnew num_projs false) (fun p mask =>
    if negb (IsValidVertex g proj_label (to_u32 p)) then Some mask
    else if ymin <=? ymax then
      let y := parse_year_prefix (sd_col p) in
      if y <? 0 then Some mask
      else if (y <? ymin) || (ymax <? y) then Some mask
      else vset mask p true
    else vset mask p true).

(** Pass 2: the inverted index [proj_orgs] and [org_proj_count]. *)
Definition invert_projects (org_label proj_label e_label num_orgs num_projs : Z)
    (mask : list bool) : option (list (list Z) * list Z) :=
  for_range num_orgs (vnew num_projs [], vnew num_orgs 0) (fun i st =>
    if negb (IsValidVertex g org_label (to_u32 i)) then Some st
    else
      projs ← hosted num_projs mask (get_edges g org_label proj_label e_label (to_u32 i));
      for_each projs st (fun pv '(proj_orgs, cnt) =>
        l ← vget proj_orgs (to_u32 pv);
        proj_orgs' ← vset proj_orgs (to_u32 pv) (l ++ [to_int i]);
        cnt' ← vincr cnt i;
        Some (proj_orgs', cnt'))).

(** [org_keep] and [org_to_super]. *)
Definition keep_orgs (num_orgs min_proj : Z) (cnt : list Z) : option (list Z * list Z) :=
  for_range num_orgs ([], vnew num_orgs (-1)) (fun i '(org_keep, org_to_super) =>
    c ← vget cnt i;
    if (min_proj <=? c) && (0 <? c) then
      org_to_super' ← vset org_to_super i (to_int (vlen org_keep));
      Some (org_keep ++ [to_int i], org_to_super')
    else Some (org_keep, org_to_super)).

(** The kept organisations of one project, as super-vertex ids. *)
Definition super_ids (orgs org_to_super : list Z) : option (list Z) :=
  for_each orgs [] (fun o svec =>
    s ← vget org_to_super o;
    Some (if 0 <=? s then svec ++ [s] else svec)).

(** Pass 3: organisation pairs per project. *)
Definition project_aggregate (num_projs num_kept max_psize : Z) (mask : list bool)
    (proj_orgs : list (list Z)) (org_to_super : list Z) : option (list (umap W)) :=
  for_range num_projs (vnew num_kept []) (fun p agg =>
    ok ← vget mask p;
    if negb ok then Some agg
    else
      orgs ← vget proj_orgs p;
      if vlen orgs <? 2 then Some agg
      else if (0 <? max_psize) && (max_psize <? to_int (vlen orgs)) then Some agg
      else
        svec ← super_ids orgs org_to_super;
        for_each (pairs (sort_unique svec)) agg (fun '(a, b) agg => emit agg a b wone)).

(** [global_to_local_], [aggregate_keys_] and [aggregate_extra_]. *)
Definition annotate_orgs (org_label : Z) (cc_col org_id_col : option (Z -> string)) (org_keep : list Z) :
    list (Z * Z) * list string * list string :=
  (map (fun o => (org_label, to_u32 o)) org_keep,
   map (fun o => match org_id_col with Some c => c o | None => to_string o end) org_keep,
   map (fun o => match cc_col with Some c => c o | None => EmptyString end) org_keep).

(** [KcoreComputer::BuildOrgProjectProjection]. *)
Definition BuildOrgProjectProjection (cfg : ProjectConfig) : option (computer W) :=
  with_label (schema g) "Organization" (Some fresh_computer) (fun org_label =>
  with_label (schema g) "Project" (Some fresh_computer) (fun proj_label =>
  let e_label := find_edge_label (e_schemas (schema g)) org_label proj_label in
  if e_label =? NO_LABEL then Some fresh_computer
  else match string_column g proj_label "startDate" with
  | None => Some fresh_computer
  | Some sd_col =>
      let cc_col := string_column g org_label "country_code" in
      let org_id_col := string_column g org_label "id" in
      let num_orgs := GetVertexSet_size g org_label in
      let num_projs := GetVertexSet_size g proj_label in
      mask ← projects_in_window proj_label num_projs (pc_year_min cfg) (pc_year_max cfg) sd_col;
      inv ← invert_projects org_label proj_label e_label num_orgs num_projs mask;
      let '(proj_orgs, cnt) := inv in
      kept ← keep_orgs num_orgs (pc_min_org_projects cfg) cnt;
      let '(org_keep, org_to_super) := kept in
      let num_kept := to_int (vlen org_keep) in
      if num_kept =? 0 then Some fresh_computer
      else
        agg ← project_aggregate num_projs num_kept (pc_max_project_size cfg) mask proj_orgs org_to_super;
        let thr := wofZ (pc_min_edge_weight cfg) in
        at_ ← materialize (fun w => negb (wltb w thr)) num_kept agg;
        let '(adj, total_entries) := at_ in
        let '(ids, names, extra) := annotate_orgs org_label cc_col org_id_col org_keep in
        Some (Computer num_kept (to_int total_entries) [] ids adj names extra)
  end)).

(** ** Compute *)

Inductive kcore_mode :=
| KPlain
| KCoauthor (cfg : KcoreCoauthorConfig)
| KProject (cfg : ProjectConfig).

Record KcoreResult := {
  kr_num_vertices : Z;
  kr_num_edges : Z;
  kr_max_coreness : Z;
  kr_num_in_max_core : Z;
  kr_coreness : list Z;
  kr_id_mapping : list (Z * Z);
  kr_aggregate_keys : list string;
  kr_aggregate_extra : list string
}.

Definition kcore_build (mode : kcore_mode) : option (computer W) :=
  match mode with
  | KPlain => Kcore_BuildGraph g
  | KCoauthor cfg => Kcore_BuildCountryCoauthorProjection g cfg
  | KProject cfg => BuildOrgProjectProjection cfg
  end.

(** The two summary loops: the maximum and the number of vertices that
    attain it. *)
Definition max_core (n : Z) (coreness : list Z) : option (Z * Z) :=
  mc ← for_range n 0 (fun v mc => c ← vget coreness v; Some (if mc <? c then c else mc));
  n_in_max ← for_range n 0 (fun v k => c ← vget coreness v;
    if c =? mc then i32 (k + 1) else Some k);
  Some (mc, n_in_max).

(** [KcoreComputer::Compute]. *)
Definition Kcore_Compute (mode : kcore_mode) : option KcoreResult :=
  c ← kcore_build mode;
  let n := num_vertex_ c in
  let num_edges := Z.quot (num_edge_ c) 2 in
  if n =? 0 then
    Some {| kr_num_vertices := n; kr_num_edges := num_edges; kr_max_coreness := 0;
            kr_num_in_max_core := 0; kr_coreness := []; kr_id_mapping := global_to_local_ c;
            kr_aggregate_keys := aggregate_keys_ c; kr_aggregate_extra := aggregate_extra_ c |}
  else
    coreness ← RunKCore n (adj_ c);
    mm ← max_core n coreness;
    let '(mc, n_in_max) := mm in
    Some {| kr_num_vertices := n; kr_num_edges := num_edges; kr_max_coreness := mc;
            kr_num_in_max_core := n_in_max; kr_coreness := coreness;
            kr_id_mapping := global_to_local_ c;
            kr_aggregate_keys := aggregate_keys_ c; kr_aggregate_extra := aggregate_extra_ c |}.
End project.
