(* ===== verification/Louvain.v ===== *)
(** * The Louvain method

    [LouvainComputer::Compute] with [LocalMove], [AccumulateByComm] and
    [ComputeModularity] (extension/louvain/include/louvain_functions.h), in the
    serial order of the loops.  Weights are any [Arith]; hash-map iteration
    orders are those of any [HashOrder].  Vector accesses are checked. *)
From S2P Require Import Prelude Num Storage GraphBuild Aggregate Projection.
#[local] Open Scope Z_scope.

Section louvain.
Context {W : Type} `{!Arith W} `{!HashOrder}.
Implicit Types (adj : list (list (Z * W))) (node_weight : list W) (comm : list Z).

(** The parameters of the computer. *)
Record params := { max_iterations_ : Z; resolution_ : W; max_levels_ : Z }.
Context (p : params).

(** [vec[i] += x]. *)
Definition vadd (l : list W) (i : Z) (x : W) : option (list W) :=
  y ← vget l i; vset l i (wadd y x).

(** ** Local moves *)

(** [AccumulateByComm]: [out[comm[u]] += node_weight[u]] on a zeroed [out]
    of [n] entries. *)
Definition AccumulateByComm comm node_weight (n : Z) : option (list W) :=
  for_range n (vnew n wzero) (fun u out =>
    c ← vget comm u;
    x ← vget node_weight u;
    vadd out c x).

(** [comm_edge_weight]: the weight from [u] to each neighbouring community. *)
Definition comm_edge_weights (row : list (Z * W)) comm : option (umap W) :=
  for_each row [] (fun '(v, w) m =>
    c ← vget comm v;
    Some (umap_update m c wzero (fun x => wadd x w))).

(** The gain formulas, in the order of evaluation of the source. *)
Definition stay_delta (old_w ki ki_over_2m ct : W) : W :=
  wsub old_w (wmul (wmul (resolution_ p) ki_over_2m) (wsub ct ki)).
Definition move_delta (w_ic ki_over_2m ct : W) : W :=
  wsub w_ic (wmul (wmul (resolution_ p) ki_over_2m) ct).

(** The scan for the best community: a strictly larger gain replaces. *)
Definition scan_best (entries : umap W) (old_comm : Z) (ki_over_2m : W) (comm_total : list W)
    (best : W * Z) : option (W * Z) :=
  for_each entries best (fun '(c, w_ic) '(best_delta, best_comm) =>
    if c =? old_comm then Some (best_delta, best_comm)
    else
      ct ← vget comm_total c;
      let delta := move_delta w_ic ki_over_2m ct in
      Some (if wltb best_delta delta then (delta, c) else (best_delta, best_comm))).

(** The body of the parallel loop over [u]: the community [u] moves to. *)
Definition choose_comm adj node_weight comm (total_weight : W) (comm_total : list W) (u : Z) : option Z :=
  old_comm ← vget comm u;
  ki ← vget node_weight u;
  row ← vget adj u;
  cew ← comm_edge_weights row comm;
  let ki_over_2m := wdiv ki (wmul two total_weight) in
  let old_w := default wzero (umap_find cew old_comm) in
  ct ← vget comm_total old_comm;
  r ← scan_best (iter_order (vlen row) cew) old_comm ki_over_2m comm_total
        (stay_delta old_w ki ki_over_2m ct, old_comm);
  Some (snd r).

(** One synchronous sweep: [new_comm] and [moved_count]. *)
Definition sweep adj node_weight comm (n : Z) (total_weight : W) (comm_total : list W) :
    option (list Z * Z) :=
  for_range n (vnew n 0, 0) (fun u '(new_comm, moved_count) =>
    best ← choose_comm adj node_weight comm total_weight comm_total u;
    new_comm' ← vset new_comm u best;
    old_comm ← vget comm u;
    moved' ← if best =? old_comm then Some moved_count else i32 (moved_count + 1);
    Some (new_comm', moved')).

(** The iterations of [LocalMove]; [iters] is what is left of
    [max_iterations_]. *)
Fixpoint move_iters (iters : nat) adj node_weight comm (n : Z) (total_weight : W)
    (comm_total : list W) (any_moved : bool) : option (bool * list Z) :=
  match iters with
  | O => Some (any_moved, comm)
  | S iters' =>
      sw ← sweep adj node_weight comm n total_weight comm_total;
      let '(comm', moved_count) := sw in
      comm_total' ← AccumulateByComm comm' node_weight n;
      let any_moved' := if 0 <? moved_count then true else any_moved in
      if moved_count =? 0 then Some (any_moved', comm')
      else move_iters iters' adj node_weight comm' n total_weight comm_total' any_moved'
  end.

Definition LocalMove adj node_weight comm (n : Z) (total_weight : W) : option (bool * list Z) :=
  comm_total ← AccumulateByComm comm node_weight n;
  move_iters (Z.to_nat (max_iterations_ p)) adj node_weight comm n total_weight comm_total false.

(** ** Renumbering and coarsening *)

(** [comm_remap]: community ids in order of first appearance. *)
Definition remap_step (u : Z) (st : list Z * gmap Z Z * Z) : option (list Z * gmap Z Z * Z) :=
  let '(comm, remap, next_id) := st in
  c ← vget comm u;
  match remap !! c with
  | Some k =>
      comm' ← vset comm u k;
      Some (comm', remap, next_id)
  | None =>
      next' ← i32 (next_id + 1);
      comm' ← vset comm u next_id;
      Some (comm', <[c := next_id]> remap, next')
  end.

Definition renumber comm (n : Z) : option (list Z * Z) :=
  r ← for_range n (comm, ∅, 0) remap_step;
  let '(comm', _, next_id) := r in Some (comm', next_id).

Definition merge_origs comm (n num_comms : Z) (node_to_orig : list (list Z)) : option (list (list Z)) :=
  for_range n (vnew num_comms []) (fun u acc =>
    origs ← vget node_to_orig u;
    for_each origs acc (fun orig acc =>
      c ← vget comm u;
      l ← vget acc c;
      vset acc c (l ++ [orig]))).

(** [coarse_adj_map[a][b] += w]. *)
Definition coarse_edges (row : list (Z * W)) comm (cu : Z) (maps : list (umap W)) : option (list (umap W)) :=
  for_each row maps (fun '(v, w) maps =>
    cv ← vget comm v;
    if cu <=? cv then
      maps1 ← emit maps cu cv w;
      if negb (cu =? cv) then emit maps1 cv cu w else Some maps1
    else Some maps).

Definition coarse_graph adj node_weight comm (n num_comms : Z) : option (list W * list (umap W)) :=
  for_range n (vnew num_comms wzero, vnew num_comms []) (fun u '(weights, maps) =>
    cu ← vget comm u;
    x ← vget node_weight u;
    weights' ← vadd weights cu x;
    row ← vget adj u;
    maps' ← coarse_edges row comm cu maps;
    Some (weights', maps')).

(** [new_adj[c]] lists the entries of [coarse_adj_map[c]]. *)
Definition new_adj (num_comms : Z) (maps : list (umap W)) : option (list (list (Z * W))) :=
  for_range num_comms (vnew num_comms []) (fun c rows =>
    m ← vget maps c;
    vset rows c (iter_order 0 m)).

(** ** Levels *)

Record level_state := LevelState {
  ls_n : Z;
  ls_adj : list (list (Z * W));
  ls_node_weight : list W;
  ls_node_to_orig : list (list Z);
  ls_comm : list Z
}.

Definition iota (n : Z) : list Z := seqZ 0 n.

Definition coarsen (st : level_state) comm (num_comms : Z) : option level_state :=
  origs ← merge_origs comm (ls_n st) num_comms (ls_node_to_orig st);
  wm ← coarse_graph (ls_adj st) (ls_node_weight st) comm (ls_n st) num_comms;
  let '(weights, maps) := wm in
  rows ← new_adj num_comms maps;
  Some (LevelState num_comms rows weights origs (iota num_comms)).

Definition set_comm (st : level_state) comm : level_state :=
  LevelState (ls_n st) (ls_adj st) (ls_node_weight st) (ls_node_to_orig st) comm.

(** The level loop; [levels] is what is left of [max_levels_]. *)
Fixpoint run_levels (levels : nat) (level : Z) (total_weight : W) (st : level_state) :
    option (Z * level_state) :=
  match levels with
  | O => Some (level, st)
  | S levels' =>
      lm ← LocalMove (ls_adj st) (ls_node_weight st) (ls_comm st) (ls_n st) total_weight;
      let '(improved, comm) := lm in
      if negb improved && (0 <? level) then Some (level, set_comm st comm)
      else
        rn ← renumber comm (ls_n st);
        let '(comm', num_comms) := rn in
        if num_comms =? ls_n st then Some (level, set_comm st comm')
        else
          st' ← coarsen st comm' num_comms;
          run_levels levels' (level + 1) total_weight st'
  end.

(** ** Modularity *)

Definition row_weight (row : list (Z * W)) : W := fold_left (fun s e => wadd s (snd e)) row wzero.

(** [node_weight] and [total_weight] of the original graph. *)
Definition init_weights adj (n : Z) : option (list W * W) :=
  r ← for_range n (vnew n wzero, wzero) (fun u '(node_weight, total_weight) =>
    row ← vget adj u;
    let w := row_weight row in
    node_weight' ← vset node_weight u w;
    Some (node_weight', wadd total_weight w));
  Some (fst r, wdiv (snd r) two).

Definition degrees adj (n : Z) : option (list W) :=
  for_range n (vnew n wzero) (fun u ku_arr => row ← vget adj u; vset ku_arr u (row_weight row)).

Definition max_comm_id comm (n : Z) : option Z :=
  for_range n 0 (fun u m => c ← vget comm u; Some (if m <? c then c else m)).

Definition accumulate_degrees comm (ku_arr : list W) (n nc : Z) : option (list W) :=
  for_range n (vnew nc wzero) (fun u out =>
    c ← vget comm u;
    x ← vget ku_arr u;
    vadd out c x).

Definition internal_weight adj comm (n : Z) : option W :=
  for_range n wzero (fun u q =>
    row ← vget adj u;
    for_each row q (fun '(v, w) q =>
      cu ← vget comm u;
      cv ← vget comm v;
      Some (if cu =? cv then wadd q w else q))).

Definition penalty_sum (comm_total : list W) (nc : Z) (total_weight : W) : option W :=
  for_range nc wzero (fun c penalty =>
    st ← vget comm_total c;
    let x := wdiv st (wmul two total_weight) in
    Some (wadd penalty (wmul x x))).

Definition ComputeModularity adj (n : Z) comm (total_weight : W) : option W :=
  if wleb total_weight wzero then Some wzero
  else
    ku_arr ← degrees adj n;
    m ← max_comm_id comm n;
    nc ← i32 (m + 1);
    comm_total ← accumulate_degrees comm ku_arr n nc;
    q ← internal_weight adj comm n;
    let q := wdiv q (wmul two total_weight) in
    penalty ← penalty_sum comm_total nc total_weight;
    Some (wsub q (wmul (resolution_ p) penalty)).

(** ** Compute *)

(** [result.community[orig] = comm[c]]. *)
Definition expand_communities (num_vertex : Z) (st : level_state) : option (list Z) :=
  for_range (ls_n st) (vnew num_vertex 0) (fun c community =>
    origs ← vget (ls_node_to_orig st) c;
    for_each origs community (fun orig community =>
      x ← vget (ls_comm st) c;
      vset community orig x)).

Record Result := {
  r_num_vertices : Z;
  r_num_communities : Z;
  r_levels_completed : Z;
  r_modularity : W;
  r_community : list Z;
  r_id_mapping : list (Z * Z);
  r_aggregate_keys : list string;
  r_aggregate_extra : list string
}.

Definition initial_level (n : Z) adj node_weight : level_state :=
  LevelState n adj node_weight (map (fun i => [i]) (iota n)) (iota n).

(** [Compute] after the graph has been built. *)
Definition compute_on (c : computer W) : option Result :=
  let n := num_vertex_ c in
  if n =? 0 then
    Some {| r_num_vertices := n; r_num_communities := 0; r_levels_completed := 0;
            r_modularity := wzero; r_community := []; r_id_mapping := global_to_local_ c;
            r_aggregate_keys := aggregate_keys_ c; r_aggregate_extra := aggregate_extra_ c |}
  else
    iw ← init_weights (adj_ c) n;
    let '(node_weight, total_weight) := iw in
    lv ← run_levels (Z.to_nat (max_levels_ p)) 0 total_weight (initial_level n (adj_ c) node_weight);
    let '(level, st) := lv in
    community ← expand_communities n st;
    q ← ComputeModularity (adj_ c) n community total_weight;
    Some {| r_num_vertices := n;
            r_num_communities := to_int (Z.of_nat (size (list_to_set community : gset Z)));
            r_levels_completed := level;
            r_modularity := q; r_community := community; r_id_mapping := global_to_local_ c;
            r_aggregate_keys := aggregate_keys_ c; r_aggregate_extra := aggregate_extra_ c |}.

Inductive louvain_mode :=
| Plain
| Coauthor (cfg : CoauthorConfig)
| Infra (cfg : InfraConfig)
| Datasource (cfg : DatasourceConfig).

Definition build (g : StorageReadInterface) (mode : louvain_mode) : option (computer W) :=
  match mode with
  | Plain => BuildGraph g
  | Coauthor cfg => BuildCountryCoauthorProjection g cfg
  | Infra cfg => BuildInfraCountryProjection g cfg
  | Datasource cfg => BuildDatasourceProjection g cfg
  end.

(** [LouvainComputer::Compute]. *)
Definition Compute (g : StorageReadInterface) (mode : louvain_mode) : option Result :=
  c ← build g mode; compute_on c.
End louvain.

Arguments params W : clear implicits.
Arguments Result W : clear implicits.
Arguments level_state W : clear implicits.
