(* ===== verification/LouvainCorrect.v ===== *)
(** * Correctness of the Louvain driver

    The properties of [LouvainComputer::Compute] that hold in every weight
    arithmetic and for every hash order: no undefined behaviour, termination
    within the configured bounds, a well-formed partition, and communities
    that never join two connected components. *)
From S2P Require Import Prelude Num Storage GraphBuild Aggregate Projection Louvain.
#[local] Open Scope Z_scope.

(** ** Assignments *)

(** Every entry of [comm] is a community of [0, k). *)
Definition in_range (k : Z) (comm : list Z) : Prop :=
  forall u, 0 <= u < vlen comm -> 0 <= vat comm u < k.

Lemma vlen_iota n : 0 <= n -> vlen (iota n) = n.
Proof. intros. unfold vlen, iota. rewrite length_seqZ. lia. Qed.

Lemma vat_iota n u : 0 <= u < n -> vat (iota n) u = u.
Proof.
  intros. unfold vat, iota. apply list_lookup_total_correct.
  rewrite lookup_seqZ. lia.
Qed.

#[export] Hint Rewrite vlen_iota using lia : vec.

Section moves.
Context {W : Type} `{!Arith W} `{!HashOrder} (p : params W).
Implicit Types (adj : list (list (Z * W))) (node_weight : list W) (comm : list Z).

(** A graph all of whose entries stay inside [0, n). *)
Record rows_ok (n : Z) adj : Prop := {
  ro_len : vlen adj = n;
  ro_range u v : 0 <= u < n -> v ∈ (vat adj u).*1 -> 0 <= v < n
}.

Lemma AccumulateByComm_wp comm node_weight n :
  0 <= n -> vlen comm = n -> vlen node_weight = n -> in_range n comm ->
  wp (AccumulateByComm comm node_weight n) (fun out => vlen out = n).
Proof.
  intros Hn Hc Hw Hr. apply (wp_for_range (fun _ out => vlen out = n)); [done|by apply vlen_vnew| |done].
  intros u out Hu Hl. unfold vadd. specialize (Hr u). wsteps. vlia.
Qed.

(** Where a move can lead: the keys of [comm_edge_weight] are the communities
    of the neighbours. *)
Lemma comm_edge_weights_wp row comm n :
  vlen comm = n -> (forall v, v ∈ row.*1 -> 0 <= v < n) ->
  wp (comm_edge_weights row comm) (fun m => NoDup m.*1 /\
    forall c, c ∈ m.*1 <-> exists v, v ∈ row.*1 /\ vat comm v = c).
Proof.
  intros Hl Hr.
  apply (wp_for_each (fun dn m => NoDup m.*1 /\
    forall c, c ∈ m.*1 <-> exists v, v ∈ dn.*1 /\ vat comm v = c)); [| |done].
  - split; [constructor|]. intros c. simpl. setoid_rewrite elem_of_nil. naive_solver.
  - intros dn [v w] rest m Hs [Hnd Hk].
    assert (0 <= v < n) by (apply Hr; rewrite Hs, fmap_app; set_solver).
    wsteps. split; [by apply umap_update_nodup|]. intros c.
    rewrite umap_update_keys, Hk, fmap_app. setoid_rewrite elem_of_app.
    setoid_rewrite list_elem_of_singleton. naive_solver.
Qed.

Lemma scan_best_wp entries old_comm k comm_total best n :
  vlen comm_total = n -> (forall c, c ∈ entries.*1 -> 0 <= c < n) ->
  wp (scan_best p entries old_comm k comm_total best) (fun r =>
    snd r = snd best \/ snd r ∈ entries.*1).
Proof.
  intros Hl Hr.
  apply (wp_for_each (fun dn r => snd r = snd best \/ snd r ∈ dn.*1)); [by left| |done].
  intros dn [c w] rest [bd bc] Hs Hinv.
  assert (0 <= c < n) by (apply Hr; rewrite Hs, fmap_app; set_solver).
  destruct (c =? old_comm); wsteps; [|case_match]; simpl in *; rewrite fmap_app; set_solver.
Qed.

(** The communities [u] may choose: its own or a neighbour's. *)
Definition reachable_comm adj comm (u c : Z) : Prop :=
  c = vat comm u \/ exists v, v ∈ (vat adj u).*1 /\ vat comm v = c.

Lemma choose_comm_wp adj node_weight comm m comm_total u n :
  rows_ok n adj -> vlen node_weight = n -> vlen comm = n -> in_range n comm ->
  vlen comm_total = n -> 0 <= u < n ->
  wp (choose_comm p adj node_weight comm m comm_total u) (reachable_comm adj comm u).
Proof.
  intros [Hla Hra] Hw Hc Hr Ht Hu. unfold choose_comm. pose proof (Hr u). wsteps.
  eapply wp_mono; [apply (comm_edge_weights_wp _ _ n); [done|by intros v; apply Hra]|].
  intros cew [Hnd Hk]. wsteps.
  eapply wp_mono; [apply (scan_best_wp _ _ _ _ _ n); [done|]|].
  { intros c. rewrite iter_order_perm, Hk. intros (v & Hv & <-). apply Hr. rewrite Hc. by apply (Hra u). }
  intros r Hbest. wsteps. simpl in Hbest. rewrite iter_order_perm, Hk in Hbest. done.
Qed.

Lemma reachable_range adj comm u c n :
  rows_ok n adj -> vlen comm = n -> in_range n comm -> 0 <= u < n ->
  reachable_comm adj comm u c -> 0 <= c < n.
Proof.
  intros [Hla Hra] Hc Hr Hu [->|(v & Hv & <-)]; apply Hr; [lia|]. rewrite Hc. by apply (Hra u).
Qed.

(** One sweep: every vertex gets a community it can reach, computed from the
    assignment before the sweep, and [moved_count] counts the changes. *)
Lemma sweep_wp adj node_weight comm m comm_total n :
  0 <= n <= INT_MAX -> rows_ok n adj -> vlen node_weight = n -> vlen comm = n ->
  in_range n comm -> vlen comm_total = n ->
  wp (sweep p adj node_weight comm n m comm_total) (fun '(comm', moved) =>
    vlen comm' = n /\ moved = sumz (fun u => ind (negb (vat comm' u =? vat comm u))) n /\
    (forall u, 0 <= u < n ->
      choose_comm p adj node_weight comm m comm_total u = Some (vat comm' u) /\
      reachable_comm adj comm u (vat comm' u))).
Proof.
  intros Hn Ha Hw Hc Hr Ht.
  apply (wp_for_range (fun i '(comm', moved) =>
    vlen comm' = n /\ moved = sumz (fun u => ind (negb (vat comm' u =? vat comm u))) i /\
    (forall u, 0 <= u < i ->
      choose_comm p adj node_weight comm m comm_total u = Some (vat comm' u) /\
      reachable_comm adj comm u (vat comm' u)))); [lia| | |done].
  - split_and!; [by apply vlen_vnew; lia|done|lia].
  - intros i [comm' moved] Hi (Hl & -> & Hch). apply wp_bind.
    pose proof (choose_comm_wp adj node_weight comm m comm_total i n Ha Hw Hc Hr Ht Hi) as Hwp.
    apply wp_exists in Hwp as (c & Hsome & Hreach). rewrite Hsome. simpl. wsteps.
    assert (sumz (fun u => ind (negb (vat (vput comm' i c) u =? vat comm u))) (i + 1)
      = sumz (fun u => ind (negb (vat comm' u =? vat comm u))) i
        + ind (negb (c =? vat comm i))) as Hsum.
    { rewrite sumz_succ, vat_vput_eq by lia. f_equal. apply sumz_ext. intros x Hx.
      by rewrite vat_vput_ne by lia. }
    pose proof (sumz_bound (fun u => ind (negb (vat comm' u =? vat comm u))) i 1 ltac:(lia)
      ltac:(intros; apply ind_range)) as Hb.
    eapply (wp_mono _ (fun moved' => moved' = sumz (fun u => ind (negb (vat (vput comm' i c) u =? vat comm u))) (i + 1))).
    { rewrite Hsum. destruct (c =? vat comm i); simpl; wsteps; lia. }
    intros moved' ->. wsteps. split_and!; [vlia|done|]. intros u Hu.
    rewrite vat_vput by lia. case_decide as E; [by subst|]. apply Hch. lia.
Qed.

(** ** Iterating the sweep *)

(** An equivalence that contains the edges of the graph; connectedness is the
    smallest one. *)
Definition edge_equiv (n : Z) adj (R : Z -> Z -> Prop) : Prop :=
  Equivalence R /\ forall u v, 0 <= u < n -> v ∈ (vat adj u).*1 -> R u v.

(** Vertices of one community are related. *)
Definition joined (n : Z) (R : Z -> Z -> Prop) comm : Prop :=
  forall u v, 0 <= u < n -> 0 <= v < n -> vat comm u = vat comm v -> R u v.

Lemma reachable_joined n adj R comm comm' :
  rows_ok n adj -> edge_equiv n adj R -> joined n R comm ->
  (forall u, 0 <= u < n -> reachable_comm adj comm u (vat comm' u)) ->
  joined n R comm'.
Proof.
  intros [_ Hra] [He Hadj] Hj Hreach.
  assert (forall u, 0 <= u < n -> exists x, 0 <= x < n /\ vat comm x = vat comm' u /\ R u x) as Hrep.
  { intros u Hu. destruct (Hreach u Hu) as [Heq|(v & Hv & Heq)].
    - exists u. split_and!; [lia..|done|reflexivity].
    - exists v. split_and!; [by apply (Hra u)..|done|by apply Hadj]. }
  intros u v Hu Hv Heq.
  destruct (Hrep u Hu) as (x & Hx & Hxu & Rux), (Hrep v Hv) as (y & Hy & Hyv & Rvy).
  etransitivity; [exact Rux|]. transitivity y; [|by symmetry].
  apply Hj; [done..|congruence].
Qed.

(** One sweep from [comm], with the totals of [comm]. *)
Definition sweep_step adj node_weight (n : Z) (m : W) (comm comm' : list Z) : Prop :=
  exists comm_total moved, AccumulateByComm comm node_weight n = Some comm_total /\
    sweep p adj node_weight comm n m comm_total = Some (comm', moved).

(** No vertex prefers another community. *)
Definition stable adj node_weight (n : Z) (m : W) comm : Prop :=
  sweep_step adj node_weight n m comm comm.

Section iterations.
Context (n : Z) (adj : list (list (Z * W))) (node_weight : list W) (m : W).
Context (Hn : 0 <= n <= INT_MAX) (Ha : rows_ok n adj) (Hw : vlen node_weight = n).

Record assignment comm : Prop := { as_len : vlen comm = n; as_range : in_range n comm }.

Lemma sweep_assignment comm comm' :
  assignment comm -> vlen comm' = n ->
  (forall u, 0 <= u < n -> reachable_comm adj comm u (vat comm' u)) -> assignment comm'.
Proof using Ha.
  intros [Hc Hr] Hl Hreach. split; [done|]. intros u Hu. rewrite Hl in Hu.
  eapply reachable_range; [exact Ha|exact Hc|exact Hr|exact Hu|]. by apply Hreach.
Qed.

Lemma unmoved_eq comm comm' :
  vlen comm = n -> vlen comm' = n ->
  sumz (fun u => ind (negb (vat comm' u =? vat comm u))) n = 0 -> comm' = comm.
Proof using Hn.
  intros Hc Hc' Hz. apply vat_ext; [congruence|]. intros u Hu. rewrite Hc' in Hu.
  destruct (Z.eqb_spec (vat comm' u) (vat comm u)) as [|Hne]; [done|exfalso].
  pose proof (sumz_update (fun u => ind (negb (vat comm' u =? vat comm u)))
    (fun x => if decide (x = u) then 0 else ind (negb (vat comm' x =? vat comm x))) n u Hu) as Hupd.
  pose proof (sumz_bound (fun x => if decide (x = u) then 0 else ind (negb (vat comm' x =? vat comm x)))
    n 1 ltac:(lia) ltac:(intros; unfold ind; repeat case_match; lia)).
  rewrite Hupd in Hz by (intros; by rewrite decide_False).
  rewrite decide_True in Hz by done. apply Z.eqb_neq in Hne. rewrite Hne in Hz. simpl in Hz. lia.
Qed.

(** What the iterations from [comm] produce: some number [k] of sweeps within
    the budget; a smaller number only at a stable assignment; the flag records
    whether anything changed. *)
Definition moves_spec (iters : nat) comm (any : bool) (r : bool * list Z) : Prop :=
  assignment (snd r) /\
  (exists k, (k <= iters)%nat /\ nsteps (sweep_step adj node_weight n m) k comm (snd r) /\
     ((k < iters)%nat -> stable adj node_weight n m (snd r))) /\
  (fst r = false -> any = false /\ snd r = comm) /\
  (forall R, edge_equiv n adj R -> joined n R comm -> joined n R (snd r)).

Lemma move_iters_wp iters comm comm_total any :
  assignment comm -> AccumulateByComm comm node_weight n = Some comm_total ->
  wp (move_iters p iters adj node_weight comm n m comm_total any) (moves_spec iters comm any).
Proof using Hn Ha Hw.
  revert comm comm_total any. induction iters as [|iters IH]; intros comm ct any Hc Hct; simpl.
  { split_and!; simpl; [done| |done|done]. exists O. split_and!; [lia|constructor|lia]. }
  assert (vlen ct = n) as Hlt.
  { pose proof (AccumulateByComm_wp comm node_weight n ltac:(lia) (as_len _ Hc) Hw (as_range _ Hc)) as Hwp.
    by rewrite Hct in Hwp. }
  pose proof (sweep_wp adj node_weight comm m ct n Hn Ha Hw (as_len _ Hc) (as_range _ Hc) Hlt) as Hsw.
  apply wp_exists in Hsw as ([comm' moved] & Hsw & Hl & Hmoved & Hch). rewrite Hsw. simpl.
  assert (assignment comm') as Hc' by (eapply sweep_assignment; [done|done|]; intros; by apply Hch).
  assert (sweep_step adj node_weight n m comm comm') as Hstep by (by exists ct, moved).
  assert (forall R, edge_equiv n adj R -> joined n R comm -> joined n R comm') as HR.
  { intros R HR Hj. eapply reachable_joined; [done..|]. intros; by apply Hch. }
  pose proof (AccumulateByComm_wp comm' node_weight n ltac:(lia) Hl Hw (as_range _ Hc')) as Hacc.
  apply wp_exists in Hacc as (ct' & Hct' & _). rewrite Hct'. simpl.
  destruct (Z.eqb_spec moved 0) as [Hz|Hnz].
  - assert (comm' = comm) as -> by (apply unmoved_eq; [apply Hc|done|congruence]).
    wsteps. split_and!; simpl; [done| | |done].
    + exists (S O). split_and!; [lia|by econstructor; [|constructor]|done].
    + subst. rewrite Hz. simpl. done.
  - eapply wp_mono; [by apply IH|]. intros r (Has & (k & Hk & Hsteps & Hst) & Hany & HR').
    split_and!; [done| |..].
    + exists (S k). split_and!; [lia|by econstructor|intros; apply Hst; lia].
    + intros Hf. destruct (Hany Hf) as [Hfalse _].
      pose proof (sumz_bound (fun u => ind (negb (vat comm' u =? vat comm u))) n 1 ltac:(lia)
        ltac:(intros; apply ind_range)).
      rewrite (proj2 (Z.ltb_lt _ _)) in Hfalse by lia. done.
    + intros R He Hj. apply HR'; [done|]. by apply HR.
Qed.

Lemma LocalMove_wp comm :
  assignment comm ->
  wp (LocalMove p adj node_weight comm n m) (moves_spec (Z.to_nat (max_iterations_ p)) comm false).
Proof using Hn Ha Hw.
  intros Hc. unfold LocalMove.
  pose proof (AccumulateByComm_wp comm node_weight n ltac:(lia) (as_len _ Hc) Hw (as_range _ Hc)) as Hacc.
  apply wp_exists in Hacc as (ct & Hct & _). rewrite Hct. simpl. by apply move_iters_wp.
Qed.
End iterations.
End moves.

(** ** Renumbering *)

(** [comm'] is [comm] with its ids replaced by [0 .. k - 1] in order of first
    appearance. *)
Record renumbered (n : Z) (comm comm' : list Z) (k : Z) : Prop := {
  rn_len : vlen comm' = n;
  rn_count : 0 <= k <= n;
  rn_range u : 0 <= u < n -> 0 <= vat comm' u < k;
  rn_same u v : 0 <= u < n -> 0 <= v < n -> (vat comm' u = vat comm' v <-> vat comm u = vat comm v);
  rn_onto c : 0 <= c < k -> exists u, 0 <= u < n /\ vat comm' u = c;
  rn_first u c : 0 <= u < n -> 0 <= c < vat comm' u -> exists v, 0 <= v < u /\ vat comm' v = c;
  rn_identity : k = n -> comm' = iota n
}.

(** The loop invariant: [remap] is the injection built from the first [i]
    entries. *)
Record remap_inv (n : Z) (comm : list Z) (i : Z) (comm' : list Z) (remap : gmap Z Z) (next : Z) : Prop := {
  ri_len : vlen comm' = n;
  ri_next : 0 <= next <= i;
  ri_todo u : i <= u < n -> vat comm' u = vat comm u;
  ri_done u : 0 <= u < i -> remap !! vat comm u = Some (vat comm' u);
  ri_key c k : remap !! c = Some k -> 0 <= k < next /\ exists u, 0 <= u < i /\ vat comm u = c;
  ri_inj c c' k : remap !! c = Some k -> remap !! c' = Some k -> c = c';
  ri_onto k : 0 <= k < next -> exists u, 0 <= u < i /\ vat comm' u = k;
  ri_first u c : 0 <= u < i -> 0 <= c < vat comm' u -> exists v, 0 <= v < u /\ vat comm' v = c;
  ri_id : next = i -> forall u, 0 <= u < i -> vat comm' u = u
}.

Lemma remap_inv_step n comm i comm' remap next k remap' next' :
  remap_inv n comm i comm' remap next -> 0 <= i < n ->
  (remap !! vat comm i = Some k /\ remap' = remap /\ next' = next) \/
  (remap !! vat comm i = None /\ k = next /\ remap' = <[vat comm i := next]> remap /\ next' = next + 1) ->
  remap_inv n comm (i + 1) (vput comm' i k) remap' next'.
Proof.
  intros [Hl Hnx Htodo Hdone Hkey Hinj Honto Hfirst Hid] Hi Hcase.
  assert (forall u, 0 <= u -> vat (vput comm' i k) u = if decide (i = u) then k else vat comm' u) as Hput
    by (intros; apply vat_vput; lia).
  destruct Hcase as [(Hk & -> & ->)|(Hk & -> & -> & ->)].
  - destruct (Hkey _ _ Hk) as [Hkr (u0 & Hu0 & Hcu0)].
    assert (vat comm' u0 = k) as Hku0 by (specialize (Hdone u0 Hu0); congruence).
    split; [by rewrite vlen_vput|lia|..].
    + intros u Hu. rewrite Hput, decide_False by lia. apply Htodo. lia.
    + intros u Hu. rewrite Hput by lia. case_decide; [by subst|]. apply Hdone. lia.
    + intros c k' Hc. destruct (Hkey _ _ Hc) as [? (u & ? & ?)]. split; [done|]. exists u. split; [lia|done].
    + done.
    + intros k' Hk'. destruct (Honto _ Hk') as (u & Hu & <-). exists u.
      rewrite Hput, decide_False by lia. split; [lia|done].
    + intros u c Hu. rewrite Hput by lia. case_decide as E; intros Hc.
      * destruct (Hfirst u0 c) as (v & Hv & <-); [lia|lia|]. exists v.
        rewrite Hput, decide_False by lia. split; [lia|done].
      * destruct (Hfirst u c) as (v & Hv & <-); [lia|lia|]. exists v.
        rewrite Hput, decide_False by lia. split; [lia|done].
    + intros ->. lia.
  - split; [by rewrite vlen_vput|lia|..].
    + intros u Hu. rewrite Hput, decide_False by lia. apply Htodo. lia.
    + intros u Hu. rewrite Hput by lia. case_decide; [subst; by rewrite lookup_insert_eq|].
      rewrite lookup_insert_ne; [apply Hdone; lia|].
      intros E. rewrite E, Hdone in Hk by lia. done.
    + intros c k'. rewrite lookup_insert_Some. intros [[<- <-]|[? Hc]].
      * split; [lia|]. exists i. split; [lia|done].
      * destruct (Hkey _ _ Hc) as [? (u & ? & ?)]. split; [lia|]. exists u. split; [lia|done].
    + intros c c' k'. rewrite !lookup_insert_Some.
      intros [[<- <-]|[? Hc]] [[<- ?]|[? Hc']]; [done|..|by eapply Hinj].
      * apply Hkey in Hc'. lia.
      * apply Hkey in Hc. lia.
    + intros k' Hk'. destruct (decide (k' = next)) as [->|].
      * exists i. rewrite Hput, decide_True by lia. split; [lia|done].
      * destruct (Honto k') as (u & Hu & <-); [lia|]. exists u.
        rewrite Hput, decide_False by lia. split; [lia|done].
    + intros u c Hu. rewrite Hput by lia. case_decide as E; intros Hc.
      * destruct (Honto c) as (v & Hv & <-); [lia|]. exists v.
        rewrite Hput, decide_False by lia. split; [lia|done].
      * destruct (Hfirst u c) as (v & Hv & <-); [lia|lia|]. exists v.
        rewrite Hput, decide_False by lia. split; [lia|done].
    + intros E u Hu. rewrite Hput by lia. case_decide; [lia|]. apply Hid; lia.
Qed.

Lemma renumber_wp comm n :
  vlen comm = n -> 0 <= n <= INT_MAX ->
  wp (renumber comm n) (fun '(comm', k) => renumbered n comm comm' k).
Proof.
  intros Hl Hn. unfold renumber. apply wp_bind.
  apply (wp_for_range (fun i '(comm', remap, next) => remap_inv n comm i comm' remap next)); [lia| | |].
  - split; try done || lia.
  - intros i [[comm' remap] next] Hi Hinv. unfold remap_step.
    pose proof (ri_len _ _ _ _ _ _ Hinv) as Hl'. pose proof (ri_next _ _ _ _ _ _ Hinv).
    wsteps. rewrite (ri_todo _ _ _ _ _ _ Hinv) by lia.
    destruct (remap !! vat comm i) as [k|] eqn:Hk; wsteps; eapply remap_inv_step; eauto 6.
  - intros [[comm' remap] next] [Hl' Hnx _ Hdone Hkey Hinj Honto Hfirst Hid]. wsteps. split; try done.
    + intros u Hu. by apply (Hkey (vat comm u)), Hdone.
    + intros u v Hu Hv. pose proof (Hdone u Hu) as Hdu. pose proof (Hdone v Hv) as Hdv. split; intros E.
      * rewrite E in Hdu. by eapply Hinj.
      * rewrite E in Hdu. congruence.
    + intros E. apply vat_ext; [rewrite vlen_iota; lia|]. intros u Hu.
      rewrite Hid, vat_iota by lia. done.
Qed.

(** ** Coarsening *)

Lemma concat_push {A} (acc : list (list A)) c x :
  0 <= c < vlen acc -> concat (vput acc c (vat acc c ++ [x])) ≡ₚ concat acc ++ [x].
Proof.
  intros Hc. unfold vat, vput, vlen in *. set (k := Z.to_nat c).
  assert (k < length acc)%nat as Hk by lia.
  assert (acc !! k = Some (acc !!! k)) as Hlk by (by apply list_lookup_lookup_total_lt).
  rewrite <-(take_drop_middle acc k _ Hlk) at 3.
  rewrite insert_take_drop by done. rewrite !concat_app. simpl.
  rewrite <-!app_assoc. solve_Permutation.
Qed.

Section coarsening.
Context {W : Type} `{!Arith W} `{!HashOrder}.
Implicit Types (adj : list (list (Z * W))) (node_weight : list W) (comm : list Z).

(** [new_node_to_orig]: the members of the merged nodes. *)
Lemma merge_origs_wp comm n k origs :
  0 <= n -> 0 <= k -> vlen comm = n -> in_range k comm -> vlen origs = n ->
  wp (merge_origs comm n k origs) (fun acc =>
    vlen acc = k /\ concat acc ≡ₚ concat origs /\
    forall c x, 0 <= c < k -> (x ∈ vat acc c <-> exists u, 0 <= u < n /\ vat comm u = c /\ x ∈ vat origs u)).
Proof.
  intros Hn Hk Hc Hr Ho.
  set (P (i : Z) (acc : list (list Z)) (extra : list Z) := vlen acc = k /\
    concat acc ≡ₚ concat (vat origs <$> seqZ 0 i) ++ extra /\
    forall c x, 0 <= c < k -> (x ∈ vat acc c <->
      (exists u, 0 <= u < i /\ vat comm u = c /\ x ∈ vat origs u) \/ (vat comm i = c /\ x ∈ extra))).
  apply (wp_for_range (fun i acc => P i acc [])); [lia| | |].
  - split_and!; [by apply vlen_vnew|..].
    + unfold vnew. simpl. by induction (Z.to_nat k).
    + intros c x Hx. rewrite vat_vnew by lia. rewrite elem_of_nil. naive_solver lia.
  - intros i acc Hi HP. wsteps. specialize (Hr i).
    apply (wp_for_each (fun dn acc => P i acc dn)); [done| |].
    + intros dn x rest acc' Hs (Hl & Hp & Hm). wsteps. split_and!; [vlia|..].
      * rewrite concat_push, Hp by lia. by rewrite app_assoc.
      * intros c y Hy. rewrite vat_vput by lia. case_decide as E.
        -- subst c. rewrite !elem_of_app, Hm by lia. naive_solver.
        -- rewrite Hm by lia. naive_solver.
    + intros acc' (Hl & Hp & Hm). split_and!; [done|..].
      * rewrite Hp, app_nil_r, seqZ_snoc by lia. rewrite fmap_app, concat_app. simpl.
        rewrite app_nil_r. done.
      * intros c x Hx. rewrite Hm by done. rewrite elem_of_nil. split.
        -- intros [(u & ? & ?)|[? ?]]; left; [exists u|exists i]; (split; [lia|done]).
        -- intros [(u & ? & ? & ?)|[_ []]]. destruct (decide (u = i)) as [->|]; [by right|].
           left. exists u. split; [lia|done].
  - intros acc (Hl & Hp & Hm). split_and!; [done|..].
    + rewrite Hp, app_nil_r. f_equiv.
      by rewrite <-Ho, fmap_vat.
    + intros c x Hx. rewrite Hm by done. rewrite elem_of_nil. naive_solver.
Qed.

(** The weight added to bucket [c]: in order of [u], from [0.0]. *)
Definition bucket comm node_weight (n c : Z) : W :=
  wsum (vat node_weight <$> filter (fun u => vat comm u = c) (seqZ 0 n)).

Lemma bucket_succ comm node_weight i c : 0 <= i ->
  bucket comm node_weight (i + 1) c =
  if decide (vat comm i = c) then wadd (bucket comm node_weight i c) (vat node_weight i)
  else bucket comm node_weight i c.
Proof.
  intros Hi. unfold bucket. rewrite seqZ_snoc, filter_app, fmap_app by lia.
  rewrite filter_cons. unfold wsum. rewrite fold_left_app. case_decide; done.
Qed.

Lemma vadd_bucket k comm node_weight out i :
  0 <= i < vlen comm -> vlen comm = vlen node_weight -> 0 <= vat comm i < k -> vlen out = k ->
  (forall c, 0 <= c < k -> vat out c = bucket comm node_weight i c) ->
  wp (vadd out (vat comm i) (vat node_weight i)) (fun out' =>
    vlen out' = k /\ forall c, 0 <= c < k -> vat out' c = bucket comm node_weight (i + 1) c).
Proof.
  intros Hi Hl Hc Ho Hb. unfold vadd. wsteps. split; [vlia|]. intros c Hck.
  rewrite vat_vput, bucket_succ, !Hb by lia. by case_decide; subst.
Qed.

Lemma accumulate_wp comm node_weight n k :
  0 <= n -> 0 <= k -> vlen comm = n -> vlen node_weight = n -> in_range k comm ->
  wp (accumulate_degrees comm node_weight n k) (fun out =>
    vlen out = k /\ forall c, 0 <= c < k -> vat out c = bucket comm node_weight n c).
Proof.
  intros Hn Hk Hc Hw Hr.
  apply (wp_for_range (fun i out => vlen out = k /\
    forall c, 0 <= c < k -> vat out c = bucket comm node_weight i c)); [done| | |done].
  - split; [by apply vlen_vnew|]. intros c Hck. by rewrite vat_vnew.
  - intros i out Hi [Ho Hb]. wsteps. apply vadd_bucket; try done || lia. apply Hr. lia.
Qed.

(** The entries [coarse_adj_map[a][b] += w] of one row, and of the graph. *)
Definition row_triples comm (u : Z) (row : list (Z * W)) : list (Z * Z * W) :=
  flat_map (fun '(v, w) =>
    let cu := vat comm u in let cv := vat comm v in
    if cu <=? cv then (cu, cv, w) :: (if negb (cu =? cv) then [(cv, cu, w)] else []) else []) row.
Definition coarse_triples adj comm (n : Z) : list (Z * Z * W) :=
  flat_map (fun u => row_triples comm u (vat adj u)) (seqZ 0 n).

Lemma coarse_edges_emit row comm n u maps :
  vlen comm = n -> (forall v, v ∈ row.*1 -> 0 <= v < n) ->
  coarse_edges row comm (vat comm u) maps = emit_all maps (row_triples comm u row).
Proof.
  intros Hc Hr. unfold coarse_edges, emit_all, row_triples. rewrite for_each_flat_map.
  apply for_each_ext. intros [v w] maps' Hv.
  assert (0 <= v < n) by (apply Hr, list_elem_of_fmap; by exists (v, w)).
  rewrite vget_Some by lia. simpl. destruct (_ <=? _); [|done]. simpl.
  destruct (emit maps' _ _ w); simpl; [|done]. destruct (_ =? _); simpl; [done|].
  by destruct (emit _ _ _ _).
Qed.

Lemma coarse_triples_succ adj comm i : 0 <= i ->
  coarse_triples adj comm (i + 1) = coarse_triples adj comm i ++ row_triples comm i (vat adj i).
Proof. intros Hi. unfold coarse_triples. rewrite seqZ_snoc, flat_map_app by lia. simpl. by rewrite app_nil_r. Qed.

Lemma row_triples_elem comm u row a b w :
  (a, b, w) ∈ row_triples comm u row <-> exists v, (v, w) ∈ row /\
    ((a = vat comm u /\ b = vat comm v /\ a <= b) \/ (a = vat comm v /\ b = vat comm u /\ b < a)).
Proof.
  unfold row_triples. rewrite list_elem_of_In, in_flat_map. split.
  - intros ([v x] & Hin%list_elem_of_In & Ht%list_elem_of_In).
    destruct (Z.leb_spec (vat comm u) (vat comm v)) as [Hle|]; [|set_solver].
    destruct (Z.eqb_spec (vat comm u) (vat comm v)); simpl in Ht; set_unfold; naive_solver lia.
  - intros (v & Hin & Hcase). exists (v, w). split; [by apply list_elem_of_In|].
    apply list_elem_of_In. destruct (Z.leb_spec (vat comm u) (vat comm v)); [|lia].
    destruct (Z.eqb_spec (vat comm u) (vat comm v)); simpl; set_unfold; naive_solver lia.
Qed.

Lemma coarse_triples_elem adj comm n a b w :
  (a, b, w) ∈ coarse_triples adj comm n <-> exists u v, 0 <= u < n /\ (v, w) ∈ vat adj u /\
    ((a = vat comm u /\ b = vat comm v /\ a <= b) \/ (a = vat comm v /\ b = vat comm u /\ b < a)).
Proof.
  unfold coarse_triples. rewrite list_elem_of_In, in_flat_map. setoid_rewrite <-list_elem_of_In.
  setoid_rewrite row_triples_elem. setoid_rewrite elem_of_seqZ. naive_solver lia.
Qed.

Lemma emit_all_app (agg : list (umap W)) E1 E2 :
  emit_all agg (E1 ++ E2) = agg' ← emit_all agg E1; emit_all agg' E2.
Proof. apply for_each_app. Qed.

Lemma coarse_graph_wp adj node_weight comm n k :
  0 <= n -> 0 <= k -> rows_ok n adj -> vlen node_weight = n -> vlen comm = n -> in_range k comm ->
  wp (coarse_graph adj node_weight comm n k) (fun '(weights, maps) =>
    (vlen weights = k /\ forall c, 0 <= c < k -> vat weights c = bucket comm node_weight n c) /\
    aggregated k (coarse_triples adj comm n) maps).
Proof.
  intros Hn Hk [Hla Hra] Hw Hc Hr.
  assert (forall u v w, 0 <= u < n -> (v, w) ∈ vat adj u -> 0 <= v < n) as Hv.
  { intros u v w Hu Hin. apply (Hra u); [done|]. apply list_elem_of_fmap. by exists (v, w). }
  assert (forall i, 0 <= i <= n -> wp (emit_all (vnew k []) (coarse_triples adj comm i))
    (aggregated k (coarse_triples adj comm i))) as Hemit.
  { intros i Hi. apply emit_all_ok; [done|]. intros a b w (u & v & Hu & Hin & Hcase)%coarse_triples_elem.
    pose proof (Hv u v w ltac:(lia) Hin). pose proof (Hr u). pose proof (Hr v). lia. }
  apply (wp_for_range (fun i '(weights, maps) =>
    (vlen weights = k /\ forall c, 0 <= c < k -> vat weights c = bucket comm node_weight i c) /\
    emit_all (vnew k []) (coarse_triples adj comm i) = Some maps)); [done| | |].
  - split; [|done]. split; [by apply vlen_vnew|]. intros c Hck. by rewrite vat_vnew.
  - intros i [weights maps] Hi [[Ho Hb] He]. wsteps.
    eapply wp_mono; [apply (vadd_bucket k); try done || lia; apply Hr; lia|].
    intros weights' Hb'. wsteps.
    rewrite (coarse_edges_emit _ _ n) by (done || intros; by eapply Hra).
    pose proof (Hemit (i + 1) ltac:(lia)) as Hnext.
    rewrite coarse_triples_succ, emit_all_app, He in Hnext |- * by lia. simpl in *.
    destruct (emit_all maps _); [|done]. simpl. done.
  - intros [weights maps] [Hb He]. split; [done|]. pose proof (Hemit n ltac:(lia)) as Hwp.
    by rewrite He in Hwp.
Qed.

Lemma new_adj_wp k (maps : list (umap W)) :
  0 <= k -> vlen maps = k ->
  wp (new_adj k maps) (fun rows => vlen rows = k /\
    forall c, 0 <= c < k -> vat rows c ≡ₚ vat maps c).
Proof.
  intros Hk Hl.
  apply (wp_for_range (fun i rows => vlen rows = k /\
    forall c, 0 <= c < i -> vat rows c ≡ₚ vat maps c)); [done| | |done].
  - split; [by apply vlen_vnew|lia].
  - intros i rows Hi [Hr Hp]. wsteps. split; [vlia|]. intros c Hc.
    rewrite vat_vput by lia. case_decide; [subst; apply iter_order_perm|]. apply Hp. lia.
Qed.

(** An entry of the coarse graph comes from an edge between the communities. *)
Lemma coarse_origin adj comm n k maps c d :
  rows_ok n adj -> aggregated k (coarse_triples adj comm n) maps -> 0 <= c < k ->
  d ∈ (vat maps c).*1 ->
  exists u v, 0 <= u < n /\ 0 <= v < n /\ v ∈ (vat adj u).*1 /\
    ((c = vat comm u /\ d = vat comm v) \/ (c = vat comm v /\ d = vat comm u)).
Proof.
  intros [_ Hra] Hagg Hc Hd. apply list_elem_of_fmap in Hd as ([d' w] & -> & Hd).
  destruct (proj2 Hagg c Hc) as [Hnd Hf]. apply umap_find_elem in Hd; [|done].
  rewrite Hf in Hd. destruct (weights_of _ c d') as [|x ws] eqn:Ew; [done|].
  assert (x ∈ weights_of (coarse_triples adj comm n) c d') as Hx by (rewrite Ew; left).
  unfold weights_of in Hx. apply list_elem_of_In, in_map_iff in Hx as ([[a b] w'] & _ & Hin).
  apply list_elem_of_In, list_elem_of_filter in Hin as [[= -> ->] Hin].
  apply coarse_triples_elem in Hin as (u & v & Hu & Hin & Hcase).
  assert (v ∈ (vat adj u).*1) as Hv by (apply list_elem_of_fmap; by exists (v, w')).
  pose proof (Hra u v Hu Hv). exists u, v. split_and!; [lia..|done|tauto].
Qed.

(** The next level, described by what its parts are. *)
Record coarse_of (st : level_state W) comm (k : Z) (st' : level_state W) : Prop := {
  co_n : ls_n st' = k;
  co_comm : ls_comm st' = iota k;
  co_origs_len : vlen (ls_node_to_orig st') = k;
  co_origs_perm : concat (ls_node_to_orig st') ≡ₚ concat (ls_node_to_orig st);
  co_origs c x : 0 <= c < k -> (x ∈ vat (ls_node_to_orig st') c <->
    exists u, 0 <= u < ls_n st /\ vat comm u = c /\ x ∈ vat (ls_node_to_orig st) u);
  co_weight_len : vlen (ls_node_weight st') = k;
  co_weight c : 0 <= c < k -> vat (ls_node_weight st') c = bucket comm (ls_node_weight st) (ls_n st) c;
  co_adj_len : vlen (ls_adj st') = k;
  co_adj : exists maps, aggregated k (coarse_triples (ls_adj st) comm (ls_n st)) maps /\
    forall c, 0 <= c < k -> vat (ls_adj st') c ≡ₚ vat maps c
}.

Lemma coarsen_spec st comm k :
  0 <= ls_n st -> 0 <= k -> rows_ok (ls_n st) (ls_adj st) -> vlen (ls_node_weight st) = ls_n st ->
  vlen (ls_node_to_orig st) = ls_n st -> vlen comm = ls_n st -> in_range k comm ->
  wp (coarsen st comm k) (coarse_of st comm k).
Proof.
  intros Hn Hk Ha Hw Ho Hc Hr. unfold coarsen. apply wp_bind.
  eapply wp_mono; [by apply (merge_origs_wp _ _ k)|]. intros acc (Hla & Hcat & Hmem). apply wp_bind.
  eapply wp_mono; [by apply coarse_graph_wp|]. intros [weights maps] [[Hlw Hwt] Hagg]. apply wp_bind.
  eapply wp_mono; [apply new_adj_wp; [lia|apply Hagg]|]. intros rows [Hlr Hrows]. wsteps.
  split; simpl; try done. by exists maps.
Qed.
End coarsening.

(** ** Levels *)

Lemma elem_of_concat {A} (l : list (list A)) x : x ∈ concat l <-> exists a, x ∈ a /\ a ∈ l.
Proof. rewrite list_elem_of_In, in_concat. setoid_rewrite <-list_elem_of_In. naive_solver. Qed.

Lemma concat_disjoint (l : list (list Z)) i j x :
  NoDup (concat l) -> 0 <= i < vlen l -> 0 <= j < vlen l -> x ∈ vat l i -> x ∈ vat l j -> i = j.
Proof.
  unfold vlen, vat. intros Hnd Hi Hj Hxi Hxj.
  enough (Z.to_nat i = Z.to_nat j) by lia.
  assert (Z.to_nat i < length l)%nat as Hi' by lia. assert (Z.to_nat j < length l)%nat as Hj' by lia.
  clear Hi Hj. revert Hxi Hxj Hi' Hj'. generalize (Z.to_nat i) (Z.to_nat j). clear i j.
  induction l as [|a l IH]; simpl; intros i j Hi Hj Hil Hjl; [lia|].
  apply NoDup_app in Hnd as (_ & Hdis & Hnd).
  assert (forall k, (k < length l)%nat -> x ∈ (l !!! k) -> x ∈ concat l) as Hin.
  { intros k Hk Hx. apply elem_of_concat. exists (l !!! k). split; [done|].
    by apply list_elem_of_lookup_total_2. }
  destruct i as [|i], j as [|j]; simpl in *; [done|..].
  - destruct (Hdis x Hi). apply (Hin j); [lia|done].
  - destruct (Hdis x Hj). apply (Hin i); [lia|done].
  - f_equal. apply IH; [done..|lia|lia].
Qed.

Lemma elem_of_concat_vat (l : list (list Z)) x :
  x ∈ concat l <-> exists c, 0 <= c < vlen l /\ x ∈ vat l c.
Proof.
  unfold vlen, vat. rewrite elem_of_concat. split.
  - intros (a & Hx & [i Hi]%list_elem_of_lookup_1). exists (Z.of_nat i).
    split; [apply lookup_lt_Some in Hi; lia|]. rewrite Nat2Z.id.
    by erewrite list_lookup_total_correct by done.
  - intros (c & Hc & Hx). exists (l !!! Z.to_nat c). split; [done|].
    apply list_elem_of_lookup_total_2. lia.
Qed.

Section levels.
Context {W : Type} `{!Arith W} `{!HashOrder} (p : params W).
Context (N : Z) (adj0 : list (list (Z * W))).
Context (HN : N <= INT_MAX).
Implicit Types (st : level_state W) (comm : list Z).

(** The first original vertex of a node represents it. *)
Definition rep st (u : Z) : Z := hd 0 (vat (ls_node_to_orig st) u).

(** Nodes merge and touch related vertices only. *)
Definition level_related (R : Z -> Z -> Prop) st : Prop :=
  (forall u x, 0 <= u < ls_n st -> x ∈ vat (ls_node_to_orig st) u -> R x (rep st u)) /\
  (forall u v, 0 <= u < ls_n st -> v ∈ (vat (ls_adj st) u).*1 -> R (rep st u) (rep st v)).

(** The state between two levels. *)
Record level_ok st : Prop := {
  lo_n : 0 < ls_n st <= N;
  lo_rows : rows_ok (ls_n st) (ls_adj st);
  lo_weight : vlen (ls_node_weight st) = ls_n st;
  lo_origs : vlen (ls_node_to_orig st) = ls_n st;
  lo_parts : concat (ls_node_to_orig st) ≡ₚ seqZ 0 N;
  lo_ne u : 0 <= u < ls_n st -> vat (ls_node_to_orig st) u <> [];
  lo_comm : ls_comm st = iota (ls_n st);
  lo_conn R : edge_equiv N adj0 R -> level_related R st
}.

Lemma rep_member st u :
  level_ok st -> 0 <= u < ls_n st -> rep st u ∈ vat (ls_node_to_orig st) u.
Proof.
  intros Hok Hu. pose proof (lo_ne _ Hok u Hu) as Hne. unfold rep.
  destruct (vat (ls_node_to_orig st) u); [done|]. left.
Qed.

Lemma initial_level_ok node_weight :
  0 < N -> rows_ok N adj0 -> vlen node_weight = N -> level_ok (initial_level N adj0 node_weight).
Proof.
  intros Hpos Hr Hw.
  assert (vlen (map (fun i => [i]) (iota N)) = N) as Hlen.
  { pose proof (vlen_iota N ltac:(lia)). unfold vlen in *. by rewrite length_map. }
  assert (forall u, 0 <= u < N -> vat (map (fun i => [i]) (iota N)) u = [u]) as Hat.
  { intros u Hu. unfold vat. apply list_lookup_total_correct, list_lookup_fmap_Some.
    exists u. split; [done|]. apply lookup_seqZ. lia. }
  split; simpl; [lia|done|done|done| | |done|].
  - unfold iota. induction (seqZ 0 N); simpl; [done|]. by constructor.
  - intros u Hu. by rewrite Hat.
  - intros R [He HR]. unfold level_related, rep. simpl. split.
    + intros u x Hu. rewrite Hat by done. rewrite list_elem_of_singleton. intros ->. simpl. reflexivity.
    + intros u v Hu Hv. pose proof (ro_range _ _ Hr u v Hu Hv). rewrite !Hat by done. simpl. by apply HR.
Qed.

(** The relation of the nodes that an equivalence of the vertices induces. *)
Lemma level_equiv R st :
  Equivalence R -> level_related R st ->
  edge_equiv (ls_n st) (ls_adj st) (fun u v => R (rep st u) (rep st v)).
Proof.
  intros He [_ Hadj]. split; [|done]. split.
  - intros u. reflexivity.
  - intros u v ?. by symmetry.
  - intros u v w ??. by etransitivity.
Qed.

Section coarse_level.
Context (st st' : level_state W) (comm comm' : list Z) (k : Z).
Context (Hok : level_ok st) (Hrn : renumbered (ls_n st) comm comm' k) (Hco : coarse_of st comm' k st').
Context (Hj : forall R, edge_equiv (ls_n st) (ls_adj st) R -> joined (ls_n st) R comm).

Lemma coarse_level_edge c d :
  0 <= c < k -> d ∈ (vat (ls_adj st') c).*1 -> exists u v, 0 <= u < ls_n st /\
    0 <= v < ls_n st /\ v ∈ (vat (ls_adj st) u).*1 /\
    ((c = vat comm' u /\ d = vat comm' v) \/ (c = vat comm' v /\ d = vat comm' u)).
Proof using Hok Hco.
  intros Hc Hd. destruct (co_adj _ _ _ _ Hco) as (maps & Hagg & Hrows).
  rewrite Hrows in Hd by done. by eapply coarse_origin; eauto using lo_rows.
Qed.

Lemma coarse_level_member c : 0 <= c < k ->
  hd 0 (vat (ls_node_to_orig st') c) ∈ vat (ls_node_to_orig st') c.
Proof using Hok Hrn Hco.
  intros Hc. destruct (rn_onto _ _ _ _ Hrn c Hc) as (u & Hu & Hcu).
  assert (rep st u ∈ vat (ls_node_to_orig st') c) as Hx
    by (apply (co_origs _ _ _ _ Hco); [done|]; eauto using rep_member).
  destruct (vat _ c); [by apply elem_of_nil in Hx|]. left.
Qed.

(** Coarsening along a partition that respects [R] keeps nodes related. *)
Lemma coarsen_related R : edge_equiv N adj0 R -> level_related R st'.
Proof using All.
  intros HR. pose proof (rn_range _ _ _ _ Hrn) as Hrange.
  pose proof HR as [He _]. pose proof (lo_conn _ Hok R HR) as Hrel.
  assert (forall u v, 0 <= u < ls_n st -> 0 <= v < ls_n st -> vat comm' u = vat comm' v ->
    R (rep st u) (rep st v)) as Hsame.
  { intros u v Hu Hv E. apply (Hj _ (level_equiv R st He Hrel)); [done..|].
    by apply (rn_same _ _ _ _ Hrn). }
  assert (forall c u x, 0 <= u < ls_n st -> c = vat comm' u ->
    x ∈ vat (ls_node_to_orig st') c -> R x (rep st u)) as Hrep.
  { intros c u x Hu -> Hx. apply (co_origs _ _ _ _ Hco) in Hx as (u' & Hu' & E & Hx); [|by apply Hrange].
    etransitivity; [by apply (proj1 Hrel u')|]. by apply Hsame. }
  pose proof coarse_level_member as Hhd. pose proof (co_n _ _ _ _ Hco) as Hk.
  split; unfold rep at 1.
  - intros c x Hc Hx. rewrite Hk in Hc. destruct (rn_onto _ _ _ _ Hrn c Hc) as (u & Hu & <-).
    etransitivity; [by eapply Hrep|]. symmetry. by eapply Hrep; eauto.
  - intros c d Hc Hd. rewrite Hk in Hc.
    destruct (coarse_level_edge c d Hc Hd) as (u & v & Hu & Hv & Hin & Hcase).
    pose proof (proj2 Hrel u v Hu Hin) as Huv.
    destruct Hcase as [[-> ->]|[-> ->]].
    + etransitivity; [by eapply (Hrep _ u); eauto|]. etransitivity; [exact Huv|].
      symmetry. by eapply (Hrep _ v); eauto.
    + etransitivity; [by eapply (Hrep _ v); eauto|]. etransitivity; [symmetry; exact Huv|].
      symmetry. by eapply (Hrep _ u); eauto.
Qed.

Lemma coarse_level_ok : level_ok st'.
Proof using All.
  pose proof (lo_n _ Hok) as Hn. pose proof (rn_range _ _ _ _ Hrn) as Hrange.
  pose proof (rn_count _ _ _ _ Hrn) as Hk.
  split; rewrite ?(co_n _ _ _ _ Hco); try apply Hco.
  - pose proof (Hrange 0). lia.
  - split; [apply Hco|]. intros c d Hc Hd.
    destruct (coarse_level_edge c d Hc Hd) as (u & v & Hu & Hv & _ & [[_ ->]|[_ ->]]); by apply Hrange.
  - rewrite (co_origs_perm _ _ _ _ Hco). apply Hok.
  - intros c Hc Hnil. pose proof (coarse_level_member c Hc) as Hx. rewrite Hnil in Hx.
    by apply elem_of_nil in Hx.
  - apply coarsen_related.
Qed.
End coarse_level.

Lemma coarsen_wp st comm comm' k :
  level_ok st -> renumbered (ls_n st) comm comm' k -> wp (coarsen st comm' k) (coarse_of st comm' k).
Proof.
  intros Hok Hrn. pose proof (lo_n _ Hok). pose proof (rn_count _ _ _ _ Hrn).
  pose proof (rn_len _ _ _ _ Hrn). pose proof (rn_range _ _ _ _ Hrn) as Hr.
  apply coarsen_spec; try done || lia; try apply Hok. intros u Hu. apply Hr. lia.
Qed.

(** The level loop: it stops at the latest when every node is its own
    community, each level removes at least one node, and the final assignment
    is the identity on the nodes that are left. *)
Lemma run_levels_inv (I : level_state W -> Prop) levels level m st :
  (forall st st' comm comm' k, level_ok st -> renumbered (ls_n st) comm comm' k ->
     coarse_of st comm' k st' -> I st -> I st') ->
  level_ok st -> I st -> 0 <= level ->
  wp (run_levels p levels level m st) (fun '(level', st') =>
    level_ok st' /\ I st' /\ level <= level' <= level + Z.of_nat levels /\
    ls_n st' + (level' - level) <= ls_n st).
Proof using HN.
  intros HI. revert level st. induction levels as [|levels IH]; intros level st Hok Hst Hlev; simpl.
  { split_and!; [done..|lia|lia|lia]. }
  pose proof (lo_n _ Hok) as Hn. apply wp_bind.
  eapply wp_mono; [apply LocalMove_wp; try done || lia; try apply Hok|].
  { rewrite (lo_comm _ Hok). split; [rewrite vlen_iota; lia|]. intros u Hu.
    rewrite vlen_iota in Hu by lia. rewrite vat_iota; lia. }
  intros [improved comm] (Has & _ & Hsame & Hj). simpl in *.
  destruct (negb improved && (0 <? level)) eqn:Hstop; wsteps.
  { apply andb_true_iff in Hstop as [Himp _]. apply negb_true_iff in Himp.
    destruct (Hsame Himp) as [_ ->]. destruct st; simpl in *. split_and!; [done..|lia|lia|lia]. }
  eapply wp_mono; [apply renumber_wp; [apply Has|lia]|]. intros [comm' k] Hrn.
  pose proof (rn_count _ _ _ _ Hrn) as Hk.
  destruct (Z.eqb_spec k (ls_n st)) as [Heq|Hne].
  { wsteps. rewrite (rn_identity _ _ _ _ Hrn Heq), <-(lo_comm _ Hok).
    destruct st; simpl in *. split_and!; [done..|lia|lia|lia]. }
  apply wp_bind. eapply wp_mono; [by apply (coarsen_wp _ comm)|]. intros st' Hco.
  pose proof (co_n _ _ _ _ Hco). eapply wp_mono; [apply IH; [|by eapply HI|lia]|].
  { apply (coarse_level_ok st st' comm comm' k); try done. intros R HR. apply (Hj R HR).
    rewrite (lo_comm _ Hok). intros u v Hu Hv.
    rewrite !vat_iota by lia. intros ->. destruct HR as [He _]. reflexivity. }
  intros [level' st''] (? & ? & ? & ?). split_and!; [done..|lia|lia|lia].
Qed.

Lemma run_levels_wp levels level m st :
  level_ok st -> 0 <= level ->
  wp (run_levels p levels level m st) (fun '(level', st') =>
    level_ok st' /\ level <= level' <= level + Z.of_nat levels /\
    ls_n st' + (level' - level) <= ls_n st).
Proof using HN.
  intros Hok Hlev. eapply wp_mono; [by apply (run_levels_inv (fun _ => True))|].
  intros [level' st'] (? & _ & ? & ?). done.
Qed.

(** Every original vertex gets the node it belongs to. *)
Lemma expand_communities_wp st :
  level_ok st ->
  wp (expand_communities N st) (fun community => vlen community = N /\
    forall c x, 0 <= c < ls_n st -> x ∈ vat (ls_node_to_orig st) c -> vat community x = c).
Proof using HN.
  intros Hok. pose proof (lo_n _ Hok) as Hn. pose proof (lo_origs _ Hok) as Hlo.
  set (origs := ls_node_to_orig st) in *.
  assert (forall c x, 0 <= c < ls_n st -> x ∈ vat origs c -> 0 <= x < N) as Hx.
  { intros c x Hc Hin. assert (x ∈ concat origs) as Hcat by (apply elem_of_concat_vat; exists c; split; [lia|done]).
    unfold origs in Hcat. rewrite (lo_parts _ Hok) in Hcat. apply elem_of_seqZ in Hcat. lia. }
  assert (forall c c' x, 0 <= c < ls_n st -> 0 <= c' < ls_n st -> x ∈ vat origs c -> x ∈ vat origs c' -> c = c') as Hdis.
  { intros c c' x Hc Hc' ??. apply (concat_disjoint origs c c' x); try done || lia.
    unfold origs. rewrite (lo_parts _ Hok). apply NoDup_seqZ. }
  apply (wp_for_range (fun i com => vlen com = N /\
    forall c x, 0 <= c < i -> x ∈ vat origs c -> vat com x = c)); [lia| | |done].
  { split; [apply vlen_vnew; lia|lia]. }
  intros i com Hi [Hl Hc]. apply wp_bind, wp_vget; fold origs; [lia|].
  apply (wp_for_each (fun dn com => vlen com = N /\ (forall x, x ∈ dn -> vat com x = i) /\
    forall c x, 0 <= c < i -> x ∈ vat origs c -> vat com x = c)).
  - split_and!; [done|by intros x ?%elem_of_nil|done].
  - intros dn x rest com' Hs (Hl' & Hdn & Hc'). rewrite (lo_comm _ Hok).
    assert (x ∈ vat origs i) as Hxi by (rewrite Hs; set_solver).
    pose proof (Hx i x Hi Hxi). wsteps. rewrite vat_iota by lia. split_and!; [vlia|..].
    + intros y Hy. assert (0 <= y < N).
      { apply (Hx i); [done|]. rewrite Hs. set_solver. }
      rewrite vat_vput by lia. case_decide; [done|]. apply Hdn. set_solver.
    + intros c y Hci Hy. pose proof (Hx c y ltac:(lia) Hy).
      rewrite vat_vput by lia. case_decide; [|by apply Hc']. subst y.
      pose proof (Hdis c i x ltac:(lia) Hi Hy Hxi). lia.
  - intros com' (Hl' & Hdn & Hc'). split; [done|]. intros c x Hci Hcx.
    destruct (decide (c = i)) as [->|]; [by apply Hdn|]. apply Hc'; [lia|done].
Qed.
End levels.

(** ** The result *)

(** A labelling of [n] vertices with exactly the communities [0 .. k - 1]. *)
Record partition_into (n k : Z) (community : list Z) : Prop := {
  pa_len : vlen community = n;
  pa_range v : 0 <= v < n -> 0 <= vat community v < k;
  pa_onto c : 0 <= c < k -> exists v, 0 <= v < n /\ vat community v = c
}.

Lemma partition_distinct n k community :
  0 <= k -> partition_into n k community ->
  Z.of_nat (size (list_to_set community : gset Z)) = k.
Proof.
  intros Hk [Hl Hr Ho].
  assert ((list_to_set community : gset Z) = list_to_set (seqZ 0 k)) as ->.
  { apply set_eq. intros c. rewrite !elem_of_list_to_set, elem_of_seqZ, <-(fmap_vat community), Hl.
    rewrite list_elem_of_fmap. setoid_rewrite elem_of_seqZ. split.
    - intros (v & -> & Hv). specialize (Hr v). lia.
    - intros Hc. destruct (Ho c) as (v & Hv & <-); [lia|]. exists v. split; [done|lia]. }
  rewrite size_list_to_set by apply NoDup_seqZ. rewrite length_seqZ. lia.
Qed.

Lemma expanded_partition {W} `{!Arith W} (N : Z) adj0 (st : level_state W) community :
  level_ok N adj0 st -> vlen community = N ->
  (forall c x, 0 <= c < ls_n st -> x ∈ vat (ls_node_to_orig st) c -> vat community x = c) ->
  partition_into N (ls_n st) community /\
  forall R, edge_equiv N adj0 R -> joined N R community.
Proof.
  intros Hok Hl Hc. pose proof (lo_n _ _ _ Hok) as Hn. pose proof (lo_origs _ _ _ Hok) as Hlo.
  assert (forall v, 0 <= v < N -> exists c, 0 <= c < ls_n st /\ v ∈ vat (ls_node_to_orig st) c) as Hall.
  { intros v Hv. rewrite <-Hlo. apply elem_of_concat_vat. rewrite (lo_parts _ _ _ Hok).
    apply elem_of_seqZ. lia. }
  split; [split; [done|..]|].
  - intros v Hv. destruct (Hall v Hv) as (c & Hcr & Hin). by rewrite (Hc c).
  - intros c Hcr. pose proof (rep_member N adj0 st c Hok Hcr) as Hm. exists (rep st c).
    split; [|by apply Hc].
    assert (rep st c ∈ concat (ls_node_to_orig st)) as Hcat
      by (apply elem_of_concat_vat; exists c; split; [lia|done]).
    rewrite (lo_parts _ _ _ Hok) in Hcat. apply elem_of_seqZ in Hcat. lia.
  - intros R HR u v Hu Hv E. pose proof HR as [He _]. destruct (lo_conn _ _ _ Hok R HR) as [Hrep _].
    destruct (Hall u Hu) as (c & Hcr & Hcu), (Hall v Hv) as (d & Hdr & Hdv).
    rewrite (Hc c u), (Hc d v) in E by done. subst d.
    etransitivity; [by apply Hrep|]. symmetry. by apply Hrep.
Qed.

Section result.
Context {W : Type} `{!Arith W} `{!HashOrder} (p : params W).

Lemma degrees_wp adj n :
  0 <= n -> vlen adj = n ->
  wp (degrees (W := W) adj n) (fun ku => vlen ku = n /\
    forall u, 0 <= u < n -> vat ku u = row_weight (vat adj u)).
Proof.
  intros Hn Hl. apply (wp_for_range (fun i ku => vlen ku = n /\
    forall u, 0 <= u < i -> vat ku u = row_weight (vat adj u))); [done| | |done].
  - split; [by apply vlen_vnew|lia].
  - intros i ku Hi [Hk Hr]. wsteps. split; [vlia|]. intros u Hu.
    rewrite vat_vput by lia. case_decide; [by subst|]. apply Hr. lia.
Qed.

(** [nc = max_comm_id + 1] bounds every id that occurs. *)
Lemma max_comm_id_wp comm n k :
  0 <= n -> vlen comm = n -> in_range k comm ->
  wp (max_comm_id comm n) (fun mx => 0 <= mx /\ (mx = 0 \/ mx < k) /\ in_range (mx + 1) comm).
Proof.
  intros Hn Hc Hr. apply (wp_for_range (fun i mx => 0 <= mx /\ (mx = 0 \/ mx < k) /\
    forall u, 0 <= u < i -> vat comm u <= mx)); [done|split_and!; [lia|lia|intros; lia]|..].
  - intros i mx Hi (? & ? & Hmx). specialize (Hr i). wsteps.
    destruct (Z.ltb_spec mx (vat comm i)); (split_and!; [lia..|]);
      intros u Hu; (destruct (decide (u = i)) as [->|]; [lia|]);
      (specialize (Hmx u); lia).
  - intros mx (? & ? & Hmx). split_and!; [done..|]. intros u Hu.
    specialize (Hr u Hu). specialize (Hmx u). lia.
Qed.

Lemma ComputeModularity_wp adj n comm m k :
  0 <= n -> k <= INT_MAX -> rows_ok n adj -> vlen comm = n -> in_range k comm ->
  wp (ComputeModularity p adj n comm m) (fun _ => True).
Proof.
  intros Hn Hk [Hla Hra] Hc Hr. unfold ComputeModularity. destruct (wleb m wzero); [done|].
  apply wp_bind. eapply wp_mono; [by apply degrees_wp|]. intros ku [Hku _]. apply wp_bind.
  eapply wp_mono; [by apply (max_comm_id_wp _ _ k)|]. intros mx (Hpos & Hmax & Hmx). wsteps.
  eapply wp_mono; [apply accumulate_wp; done || lia|].
  intros ct [Hct _]. wsteps.
  apply (wp_for_range (fun _ _ => True)); [done|done|..].
  { intros u q Hu _. wsteps. apply (wp_for_each (fun _ _ => True)); [done|..|done].
    intros dn [v w] rest q' Hs _.
    assert (0 <= v < n) by (apply (Hra u); [done|]; rewrite Hs, fmap_app; set_solver).
    wsteps. done. }
  intros q _. wsteps. apply (wp_for_range (fun _ _ => True)); [lia|done|..].
  { intros. wsteps. done. }
  intros. by wsteps.
Qed.

Lemma init_weights_wp adj n :
  0 <= n -> vlen adj = n ->
  wp (init_weights adj n) (fun '(nw, m) => vlen nw = n /\
    (forall u, 0 <= u < n -> vat nw u = row_weight (vat adj u)) /\
    m = wdiv (wsum nw) two).
Proof.
  intros Hn Hl. unfold init_weights. apply wp_bind.
  apply (wp_for_range (fun i '(nw, total) => vlen nw = n /\
    (forall u, 0 <= u < i -> vat nw u = row_weight (vat adj u)) /\
    total = wsum (vat nw <$> seqZ 0 i))); [done| | |].
  - split_and!; [by apply vlen_vnew|lia|done].
  - intros i [nw total] Hi (Hw & Hr & ->). wsteps. split_and!; [vlia|..].
    + intros u Hu. rewrite vat_vput by lia. case_decide; [by subst|]. apply Hr. lia.
    + rewrite seqZ_snoc by lia. unfold wsum. rewrite fmap_app, fold_left_app. simpl.
      rewrite vat_vput_eq by lia. f_equal. f_equal. apply list_fmap_ext.
      intros j x [-> Hj]%lookup_seqZ. by rewrite vat_vput_ne by lia.
  - intros [nw total] (Hw & Hr & ->). wsteps. split_and!; [done..|]. simpl. by rewrite <-Hw, fmap_vat.
Qed.

(** What [Compute] promises of a graph with [n] vertices. *)
Record result_ok (c : computer W) (r : Result W) : Prop := {
  ro_vertices : r_num_vertices r = num_vertex_ c;
  ro_partition : partition_into (num_vertex_ c) (r_num_communities r) (r_community r);
  ro_levels : 0 <= r_levels_completed r <= Z.max 0 (max_levels_ p);
  ro_shrink : r_levels_completed r + r_num_communities r <= num_vertex_ c;
  ro_connected R : edge_equiv (num_vertex_ c) (adj_ c) R -> joined (num_vertex_ c) R (r_community r);
  ro_ids : r_id_mapping r = global_to_local_ c;
  ro_keys : r_aggregate_keys r = aggregate_keys_ c /\ r_aggregate_extra r = aggregate_extra_ c
}.

Lemma compute_on_wp (c : computer W) :
  0 <= num_vertex_ c <= INT_MAX -> rows_ok (num_vertex_ c) (adj_ c) ->
  wp (compute_on p c) (result_ok c).
Proof.
  intros Hn Hr. unfold compute_on. destruct (Z.eqb_spec (num_vertex_ c) 0) as [Hz|Hnz].
  { wsteps. split; simpl; try done || lia; [|intros R _ u v; lia].
    rewrite Hz. split; simpl; [done|lia..]. }
  apply wp_bind. eapply wp_mono; [apply init_weights_wp; [lia|apply Hr]|].
  intros [nw m] (Hw & _ & _). apply wp_bind.
  pose proof (initial_level_ok (num_vertex_ c) (adj_ c) nw ltac:(lia) Hr Hw) as Hinit.
  eapply wp_mono; [by apply (run_levels_wp p (num_vertex_ c) (adj_ c) ltac:(lia) _ 0 m _ Hinit)|].
  intros [level st] (Hok & Hlev & Hshrink). apply wp_bind. simpl in Hshrink.
  eapply wp_mono; [by apply (expand_communities_wp (num_vertex_ c) (adj_ c) ltac:(lia) st)|]. intros com [Hlc Hcom].
  destruct (expanded_partition _ _ _ _ Hok Hlc Hcom) as [Hpart Hconn].
  pose proof (lo_n _ _ _ Hok). apply wp_bind.
  eapply wp_mono; [apply (ComputeModularity_wp _ _ _ _ (ls_n st)); try done || lia|].
  { intros u Hu. apply (pa_range _ _ _ Hpart). lia. }
  intros q _. wsteps.
  assert (to_int (Z.of_nat (size (list_to_set com : gset Z))) = ls_n st) as Hcount
    by (rewrite (partition_distinct _ (ls_n st) _ ltac:(lia) Hpart), to_int_small by vlia; done).
  split; simpl; rewrite ?Hcount; done || lia.
Qed.
End result.
