(* ===== verification/Modularity.v ===== *)
(** * Modularity in exact arithmetic

    The mathematics behind the Louvain code, over the rationals: finite sums,
    the modularity of a labelling of a weighted graph, how it changes when one
    vertex changes its label, and how it is preserved when the graph is
    aggregated along a labelling.  Nothing here mentions the code. *)
From S2P Require Import Prelude Num.
From Stdlib Require Import QArith Qcanon Field.
#[local] Open Scope Z_scope.
#[local] Open Scope Qc_scope.

(** ** Finite sums *)

Definition qsum {A} (f : A -> Qc) (l : list A) : Qc := foldr (fun x s => f x + s) 0 l.

Section qsums.
Context {A : Type}.
Implicit Types (f g : A -> Qc) (l : list A).

Lemma qsum_app f l1 l2 : qsum f (l1 ++ l2) = qsum f l1 + qsum f l2.
Proof. induction l1 as [|x l1 IH]; simpl; [ring|]. rewrite IH. ring. Qed.

Lemma qsum_ext f g l : (forall x, x ∈ l -> f x = g x) -> qsum f l = qsum g l.
Proof.
  induction l as [|x l IH]; intros Hext; simpl; [done|].
  rewrite Hext by left. rewrite IH; [done|]. intros. apply Hext. by right.
Qed.

Lemma qsum_zero l : qsum (fun _ : A => 0) l = 0.
Proof. induction l as [|x l IH]; simpl; [done|]. rewrite IH. ring. Qed.

Lemma qsum_plus f g l : qsum (fun x => f x + g x) l = qsum f l + qsum g l.
Proof. induction l as [|x l IH]; simpl; [ring|]. rewrite IH. ring. Qed.

Lemma qsum_scale c f l : qsum (fun x => c * f x) l = c * qsum f l.
Proof. induction l as [|x l IH]; simpl; [ring|]. rewrite IH. ring. Qed.

Lemma qsum_perm f l1 l2 : l1 ≡ₚ l2 -> qsum f l1 = qsum f l2.
Proof. induction 1; simpl; [done|congruence|ring|congruence]. Qed.

Lemma qsum_map {B} (h : B -> A) f (m : list B) : qsum f (map h m) = qsum (fun x => f (h x)) m.
Proof. induction m as [|x m IH]; simpl; [done|]. by rewrite IH. Qed.

Lemma qsum_flat_map {B} (h : B -> list A) f (m : list B) :
  qsum f (flat_map h m) = qsum (fun x => qsum f (h x)) m.
Proof. induction m as [|x m IH]; simpl; [done|]. by rewrite qsum_app, IH. Qed.

Lemma qsum_filter (P : A -> Prop) `{!forall x, Decision (P x)} f l :
  qsum f (filter P l) = qsum (fun x => if decide (P x) then f x else 0) l.
Proof.
  induction l as [|x l IH]; [done|]. rewrite filter_cons. simpl.
  case_decide; simpl; rewrite IH; [done|ring].
Qed.

Lemma qsum_nonneg f l : (forall x, x ∈ l -> 0 <= f x) -> 0 <= qsum f l.
Proof.
  induction l as [|x l IH]; intros Hf; simpl; [apply Qcle_refl|].
  rewrite <-(Qcplus_0_l 0). apply Qcplus_le_compat; [apply Hf; left|].
  apply IH. intros. apply Hf. by right.
Qed.
End qsums.

Lemma qsum_swap {A B} (f : A -> B -> Qc) (l : list A) (m : list B) :
  qsum (fun x => qsum (f x) m) l = qsum (fun y => qsum (fun x => f x y) l) m.
Proof.
  induction l as [|x l IH]; simpl; [by rewrite qsum_zero|]. by rewrite IH, qsum_plus.
Qed.

(** The vertices. *)
Abbreviation V n := (seqZ 0 n).

(** A value guarded by a condition. *)
Definition guard (P : Prop) `{!Decision P} (x : Qc) : Qc := if decide P then x else 0.

Lemma guard_mult (P : Prop) `{!Decision P} x y : guard P x * y = guard P (x * y).
Proof. unfold guard. case_decide; [done|ring]. Qed.

Lemma qsum_delta n a x : (0 <= a < n)%Z -> qsum (fun c => guard (a = c) x) (V n) = x.
Proof.
  intros Ha.
  assert (NoDup (V n)) as Hnd by apply NoDup_seqZ.
  assert (a ∈ V n) as Hin by (apply elem_of_seqZ; lia). clear Ha.
  induction Hnd as [|y l Hy Hnd IH]; [by apply elem_of_nil in Hin|]. simpl. unfold guard at 1.
  case_decide as E.
  - subst y. rewrite (qsum_ext _ (fun _ => 0)); [rewrite qsum_zero; ring|].
    intros c Hc. unfold guard. rewrite decide_False; [done|]. by intros ->.
  - rewrite IH; [ring|]. apply elem_of_cons in Hin as [?|?]; [done|done].
Qed.

(** Sums over the vertices, grouped by their label. *)
Lemma qsum_group n k (lab : Z -> Z) (f : Z -> Qc) :
  (forall u, 0 <= u < n -> 0 <= lab u < k)%Z ->
  qsum f (V n) = qsum (fun c => qsum (fun u => guard (lab u = c) (f u)) (V n)) (V k).
Proof.
  intros Hlab. rewrite <-qsum_swap. apply qsum_ext. intros u Hu%elem_of_seqZ.
  symmetry. apply qsum_delta. apply Hlab. lia.
Qed.

(** One summand taken out. *)
Lemma qsum_split_at n u (f : Z -> Qc) : (0 <= u < n)%Z ->
  qsum f (V n) = f u + qsum (fun x => if decide (x = u) then 0 else f x) (V n).
Proof.
  intros Hu. rewrite <-(qsum_delta n u (f u) Hu), <-qsum_plus. apply qsum_ext.
  intros x _. unfold guard. destruct (decide (u = x)) as [->|].
  - rewrite decide_True by done. ring.
  - rewrite decide_False by done. ring.
Qed.

(** ** Modularity *)

Lemma two_nonzero : (two : Qc) <> 0.
Proof. intros H. apply (f_equal this) in H. discriminate. Qed.

Lemma two_plus (x : Qc) : two * x = x + x.
Proof. assert ((two : Qc) = 1 + 1) as -> by (by apply Qc_is_canon). ring. Qed.

Lemma Qcdiv_le (x y d : Qc) : 0 < d -> x <= y -> x / d <= y / d.
Proof.
  intros Hd Hxy. assert (d <> 0) as Hd0 by (intros ->; by apply Qclt_not_eq in Hd).
  destruct (Qclt_le_dec (y / d) (x / d)) as [Hlt|]; [exfalso|done].
  apply (Qcmult_lt_compat_r _ _ d Hd) in Hlt. rewrite (Qcmult_comm (y / d)), (Qcmult_comm (x / d)), !Qcmult_div_r in Hlt by done.
  by apply Qcle_not_lt in Hxy.
Qed.

Lemma Qcdiv_lt (x y d : Qc) : 0 < d -> x < y -> x / d < y / d.
Proof.
  intros Hd Hxy. assert (d <> 0) as Hd0 by (intros ->; by apply Qclt_not_eq in Hd).
  destruct (Qclt_le_dec (x / d) (y / d)) as [|Hle]; [done|exfalso].
  apply (Qcmult_le_compat_r _ _ d) in Hle; [|by apply Qclt_le_weak].
  rewrite (Qcmult_comm (y / d)), (Qcmult_comm (x / d)), !Qcmult_div_r in Hle by done. by apply Qcle_not_lt in Hle.
Qed.

(** Field identities whose denominators are [two] and [m]. *)
Ltac qfield := field; repeat split; (apply two_nonzero || assumption).

Section modularity.
Context (gamma m : Qc) (n : Z).
Implicit Types (A : Z -> Z -> Qc) (lab : Z -> Z).

Definition wsymmetric A : Prop := forall u v, (0 <= u < n)%Z -> (0 <= v < n)%Z -> A u v = A v u.

Definition wdegree A (u : Z) : Qc := qsum (A u) (V n).

(** Sum of [B u v] over the ordered pairs with equal labels. *)
Definition within (B : Z -> Z -> Qc) lab : Qc :=
  qsum (fun u => qsum (fun v => guard (lab u = lab v) (B u v)) (V n)) (V n).

(** Observed minus expected weight of the pair. *)
Definition surplus A (u v : Z) : Qc := A u v - gamma * wdegree A u * wdegree A v / (two * m).

(** Newman's modularity with resolution [gamma]; [m] is half the total weight. *)
Definition modularity A lab : Qc := within (surplus A) lab / (two * m).

(** Total degree of a community, and the weight from [u] to it. *)
Definition comm_degree A lab (c : Z) : Qc := qsum (fun v => guard (lab v = c) (wdegree A v)) (V n).
Definition weight_to A lab (u c : Z) : Qc := qsum (fun v => guard (lab v = c) (A u v)) (V n).

Lemma within_ext B B' lab lab' :
  (forall u v, (0 <= u < n)%Z -> (0 <= v < n)%Z -> B u v = B' u v) ->
  (forall u, (0 <= u < n)%Z -> lab u = lab' u) -> within B lab = within B' lab'.
Proof.
  intros HB Hlab. apply qsum_ext. intros u Hu%elem_of_seqZ. apply qsum_ext. intros v Hv%elem_of_seqZ.
  by rewrite HB, !Hlab by lia.
Qed.

Lemma within_sub B C a lab :
  within (fun u v => B u v - a * C u v) lab = within B lab - a * within C lab.
Proof.
  unfold within. rewrite <-qsum_scale.
  transitivity (qsum (fun u => qsum (fun v => guard (lab u = lab v) (B u v)) (V n) +
    - (1) * (a * qsum (fun v => guard (lab u = lab v) (C u v)) (V n))) (V n)).
  - apply qsum_ext. intros u _. rewrite <-!qsum_scale, <-qsum_plus. apply qsum_ext. intros v _.
    unfold guard. case_decide; ring.
  - rewrite qsum_plus, qsum_scale. ring.
Qed.

(** The pairs of equal label, summed community by community. *)
Lemma within_product lab k (f : Z -> Qc) :
  (forall u, 0 <= u < n -> 0 <= lab u < k)%Z ->
  within (fun u v => f u * f v) lab =
  qsum (fun c => let s := qsum (fun u => guard (lab u = c) (f u)) (V n) in s * s) (V k).
Proof.
  intros Hlab.
  transitivity (qsum (fun c => qsum (fun u => qsum (fun v =>
    guard (lab u = c) (guard (lab v = c) (f u * f v))) (V n)) (V n)) (V k)).
  - rewrite <-qsum_swap. apply qsum_ext. intros u Hu%elem_of_seqZ.
    rewrite <-qsum_swap. apply qsum_ext. intros v Hv%elem_of_seqZ.
    unfold guard at 1. case_decide as E.
    + transitivity (qsum (fun c => guard (lab u = c) (f u * f v)) (V k));
        [symmetry; apply qsum_delta, Hlab; lia|]. apply qsum_ext.
      intros c _. unfold guard. repeat case_decide; congruence.
    + rewrite (qsum_ext _ (fun _ => 0)); [by rewrite qsum_zero|]. intros c _. unfold guard.
      repeat case_decide; congruence.
  - apply qsum_ext. intros c _. simpl.
    rewrite <-qsum_scale. apply qsum_ext. intros u _.
    rewrite Qcmult_comm, <-qsum_scale. apply qsum_ext. intros v _.
    unfold guard. repeat case_decide; ring.
Qed.

(** Modularity as the code computes it: internal weight minus the squared
    community degrees. *)
Lemma modularity_by_community A lab k :
  m <> 0 -> (forall u, 0 <= u < n -> 0 <= lab u < k)%Z ->
  modularity A lab =
  within A lab / (two * m) -
  gamma * qsum (fun c => let x := comm_degree A lab c / (two * m) in x * x) (V k).
Proof.
  intros Hm Hlab. unfold modularity.
  rewrite (within_ext (surplus A)
    (fun u v => A u v - gamma / (two * m) * (wdegree A u * wdegree A v)) lab lab); [|..].
  - rewrite within_sub, (within_product lab k) by done.
    rewrite (qsum_ext (fun c => let x := comm_degree A lab c / (two * m) in x * x)
      (fun c => / (two * m) * / (two * m) * (comm_degree A lab c * comm_degree A lab c))).
    + rewrite qsum_scale. simpl. unfold comm_degree. qfield.
    + intros c _. simpl. qfield.
  - intros u v _ _. unfold surplus. qfield.
  - done.
Qed.

(** ** Moving one vertex *)

Definition relabel lab (u c : Z) : Z -> Z := fun x => if decide (x = u) then c else lab x.

(** What [u] contributes with the other members of [c], and the pairs that do
    not involve [u]. *)
Definition others (B : Z -> Z -> Qc) lab (u c : Z) : Qc :=
  qsum (fun y => if decide (y = u) then 0 else guard (lab y = c) (B u y)) (V n).
Definition without (B : Z -> Z -> Qc) lab (u : Z) : Qc :=
  qsum (fun x => if decide (x = u) then 0 else
    qsum (fun y => if decide (y = u) then 0 else guard (lab x = lab y) (B x y)) (V n)) (V n).

Lemma within_split B lab u : wsymmetric B -> (0 <= u < n)%Z ->
  within B lab = without B lab u + two * others B lab u (lab u) + B u u.
Proof.
  intros Hsym Hu. unfold within. rewrite (qsum_split_at n u) by done.
  rewrite (qsum_split_at n u (fun v => guard (lab u = lab v) (B u v))) by done.
  unfold guard at 1. rewrite decide_True by done.
  rewrite (qsum_ext (fun x => if decide (x = u) then 0 else
      qsum (fun v => guard (lab x = lab v) (B x v)) (V n))
    (fun x => (if decide (x = u) then 0 else guard (lab x = lab u) (B u x)) +
      (if decide (x = u) then 0 else
       qsum (fun y => if decide (y = u) then 0 else guard (lab x = lab y) (B x y)) (V n)))).
  2: { intros x Hx%elem_of_seqZ. case_decide; [ring|].
       rewrite (qsum_split_at n u) by done. by rewrite (Hsym x u) by lia. }
  rewrite qsum_plus. fold (without B lab u). fold (others B lab u (lab u)).
  rewrite (qsum_ext (fun x => if decide (x = u) then 0 else guard (lab u = lab x) (B u x))
    (fun y => if decide (y = u) then 0 else guard (lab y = lab u) (B u y))).
  - fold (others B lab u (lab u)). rewrite two_plus. ring.
  - intros x _. unfold guard. repeat case_decide; congruence.
Qed.

Lemma within_relabel B lab u c : wsymmetric B -> (0 <= u < n)%Z ->
  within B (relabel lab u c) - within B lab = two * (others B lab u c - others B lab u (lab u)).
Proof.
  intros Hsym Hu. rewrite !(within_split B _ u) by done.
  assert (without B (relabel lab u c) u = without B lab u) as ->.
  { apply qsum_ext. intros x _. case_decide; [done|]. apply qsum_ext. intros y _.
    unfold relabel. by repeat case_decide. }
  assert (others B (relabel lab u c) u (relabel lab u c u) = others B lab u c) as ->.
  { apply qsum_ext. intros y _. unfold relabel. rewrite (decide_True (P := u = u)) by done.
    by repeat case_decide. }
  ring.
Qed.

Lemma others_surplus A lab u c : m <> 0 -> (0 <= u < n)%Z ->
  others (surplus A) lab u c =
  weight_to A lab u c - guard (lab u = c) (A u u) -
  gamma * wdegree A u / (two * m) * (comm_degree A lab c - guard (lab u = c) (wdegree A u)).
Proof.
  intros Hm Hu. unfold weight_to, comm_degree. rewrite !(qsum_split_at n u (fun v => guard _ _)) by done.
  transitivity (qsum (fun y => (if decide (y = u) then 0 else guard (lab y = c) (A u y)) +
    - (gamma * wdegree A u / (two * m)) *
      (if decide (y = u) then 0 else guard (lab y = c) (wdegree A y))) (V n)).
  - apply qsum_ext. intros y _. unfold guard, surplus. repeat case_decide; qfield.
  - rewrite qsum_plus, qsum_scale. qfield.
Qed.

(** Moving [u] to another community [c]: the gain is the difference of the
    two quantities the code compares, over [m], where the one for staying
    leaves out the self-loop of [u]. *)
Lemma modularity_move A lab u c :
  wsymmetric A -> m <> 0 -> (0 <= u < n)%Z -> c <> lab u ->
  modularity A (relabel lab u c) - modularity A lab =
  ((weight_to A lab u c - gamma * (wdegree A u / (two * m)) * comm_degree A lab c) -
   (weight_to A lab u (lab u) - A u u -
    gamma * (wdegree A u / (two * m)) * (comm_degree A lab (lab u) - wdegree A u))) / m.
Proof.
  intros Hsym Hm Hu Hc.
  assert (wsymmetric (surplus A)) as HsB.
  { intros x y Hx Hy. unfold surplus. rewrite (Hsym x y) by done. qfield. }
  pose proof (within_relabel (surplus A) lab u c HsB Hu) as Hw.
  rewrite !others_surplus in Hw by done. unfold guard in Hw.
  rewrite !(decide_False (P := lab u = c)), !(decide_True (P := lab u = lab u)) in Hw by congruence.
  unfold modularity.
  assert (forall x y z : Qc, x - y = two * z -> x / (two * m) - y / (two * m) = z / m) as Hdiv.
  { intros x y z Hxy. transitivity ((x - y) / (two * m)); [qfield|]. rewrite Hxy. qfield. }
  erewrite Hdiv by exact Hw. qfield.
Qed.
End modularity.

Lemma wdegree_ext n A A' u :
  (forall v, (0 <= v < n)%Z -> A u v = A' u v) -> wdegree n A u = wdegree n A' u.
Proof. intros HA. apply qsum_ext. intros v Hv%elem_of_seqZ. apply HA. lia. Qed.

Lemma modularity_ext gamma m n A A' lab lab' :
  (forall u v, (0 <= u < n)%Z -> (0 <= v < n)%Z -> A u v = A' u v) ->
  (forall u, (0 <= u < n)%Z -> lab u = lab' u) ->
  modularity gamma m n A lab = modularity gamma m n A' lab'.
Proof.
  intros HA Hlab. unfold modularity. f_equal. apply within_ext; [|done]. intros u v Hu Hv.
  unfold surplus. rewrite HA, (wdegree_ext n A A' u), (wdegree_ext n A A' v) by auto. done.
Qed.

Lemma modularity_relabel_self gamma m n A lab u :
  modularity gamma m n A (relabel lab u (lab u)) = modularity gamma m n A lab.
Proof.
  unfold modularity. f_equal. apply within_ext; [done|]. intros x _. unfold relabel.
  by case_decide; subst.
Qed.

(** ** Aggregation along a labelling *)

Section aggregation.
Context (gamma m : Qc) (n k : Z) (lab : Z -> Z).
Context (Hlab : forall u, (0 <= u < n)%Z -> (0 <= lab u < k)%Z).
Implicit Types (A B : Z -> Z -> Qc).

(** The weight between two blocks. *)
Definition block B (c d : Z) : Qc :=
  qsum (fun u => guard (lab u = c) (qsum (fun v => guard (lab v = d) (B u v)) (V n))) (V n).

Lemma block_symmetric A : wsymmetric n A -> wsymmetric k (block A).
Proof.
  intros Hsym c d _ _. unfold block.
  transitivity (qsum (fun u => qsum (fun v => guard (lab u = c) (guard (lab v = d) (A u v))) (V n)) (V n)).
  - apply qsum_ext. intros u _. unfold guard at 1 3. case_decide; [done|by rewrite qsum_zero].
  - rewrite qsum_swap. apply qsum_ext. intros v Hv%elem_of_seqZ. unfold guard at 3.
    case_decide.
    + apply qsum_ext. intros u Hu%elem_of_seqZ. rewrite (Hsym u v) by lia.
      unfold guard. by repeat case_decide.
    + rewrite <-(qsum_zero (V n)). apply qsum_ext. intros u _. unfold guard. by repeat case_decide.
Qed.

Lemma block_degree A c : wdegree k (block A) c = comm_degree n A lab c.
Proof using Hlab.
  unfold wdegree, block, comm_degree. rewrite <-qsum_swap. apply qsum_ext. intros u _.
  unfold guard at 1 3. case_decide; [|by rewrite qsum_zero].
  symmetry. by apply qsum_group.
Qed.

Lemma within_block B q : within k (block B) q = within n B (fun u => q (lab u)).
Proof using Hlab.
  unfold within, block.
  transitivity (qsum (fun c => qsum (fun u => guard (lab u = c)
    (qsum (fun v => guard (q (lab u) = q (lab v)) (B u v)) (V n))) (V n)) (V k)).
  - apply qsum_ext. intros c _.
    transitivity (qsum (fun d => qsum (fun u => guard (lab u = c)
      (qsum (fun v => guard (lab v = d) (guard (q (lab u) = q (lab v)) (B u v))) (V n))) (V n)) (V k)).
    + apply qsum_ext. intros d _. unfold guard at 1. case_decide as E.
      * apply qsum_ext. intros u _. unfold guard at 1 3. case_decide; [|done].
        apply qsum_ext. intros v _. unfold guard. repeat case_decide; congruence.
      * rewrite <-(qsum_zero (V n)). apply qsum_ext. intros u _. unfold guard at 1.
        case_decide; [|done]. rewrite <-(qsum_zero (V n)). apply qsum_ext. intros v _.
        unfold guard. repeat case_decide; congruence.
    + rewrite <-qsum_swap. apply qsum_ext. intros u _. unfold guard at 1 4.
      case_decide; [|by rewrite qsum_zero]. symmetry. by apply qsum_group.
  - symmetry. by apply qsum_group.
Qed.

Lemma surplus_block A c d : m <> 0 ->
  surplus gamma m k (block A) c d = block (surplus gamma m n A) c d.
Proof using Hlab.
  intros Hm. unfold surplus at 1. rewrite !block_degree. unfold block, comm_degree.
  set (kd := qsum (fun v => guard (lab v = d) (wdegree n A v)) (V n)).
  transitivity (qsum (fun u => guard (lab u = c) (qsum (fun v => guard (lab v = d) (A u v)) (V n)) +
    - (gamma * kd / (two * m)) * guard (lab u = c) (wdegree n A u)) (V n)).
  - rewrite qsum_plus, qsum_scale. qfield.
  - apply qsum_ext. intros u _. unfold guard at 1 3 4. case_decide; [|ring].
    transitivity (qsum (fun v => guard (lab v = d) (A u v) +
      - (gamma * wdegree n A u / (two * m)) * guard (lab v = d) (wdegree n A v)) (V n)).
    + rewrite qsum_plus, qsum_scale. fold kd. qfield.
    + apply qsum_ext. intros v _. unfold guard, surplus. case_decide; qfield.
Qed.

(** A labelling of the blocks has the modularity of the labelling it induces
    on the vertices. *)
Lemma modularity_block A q : m <> 0 ->
  modularity gamma m k (block A) q = modularity gamma m n A (fun u => q (lab u)).
Proof using Hlab.
  intros Hm. unfold modularity. rewrite <-within_block. f_equal.
  apply within_ext; [|done]. intros. by apply surplus_block.
Qed.

Lemma block_total A :
  qsum (wdegree k (block A)) (V k) = qsum (wdegree n A) (V n).
Proof using Hlab.
  rewrite (qsum_group n k lab) by done. apply qsum_ext. intros c _. apply block_degree.
Qed.
End aggregation.
