(* ===== verification/LouvainExact.v ===== *)
(** * The Louvain code in exact arithmetic

    The instance [exact_arith] of the code of [Louvain]: the modularity it
    reports is Newman's modularity, a vertex chooses a community that maximises
    the modularity over single moves, and coarsening preserves the weighted
    graph up to aggregation, hence every modularity. *)
From S2P Require Import Prelude Num Storage GraphBuild Aggregate Projection Louvain LouvainCorrect Modularity.
From Stdlib Require Import QArith Qcanon.
#[local] Open Scope Z_scope.

(** ** The weights of an adjacency structure *)

Definition mat (adj : list (list (Z * Qc))) (u v : Z) : Qc :=
  qsum (fun e => guard (fst e = v) (snd e)) (vat adj u).

Lemma fold_left_qsum {A} (f : A -> Qc) l q :
  fold_left (fun s x => (s + f x)%Qc) l q = (q + qsum f l)%Qc.
Proof. revert q. induction l as [|x l IH]; intros q; simpl; [ring|]. rewrite IH. ring. Qed.

Lemma wsum_qsum (l : list Qc) : wsum l = qsum (fun x => x) l.
Proof. unfold wsum. simpl. rewrite (fold_left_qsum (fun x => x)). ring. Qed.

Lemma row_weight_qsum (row : list (Z * Qc)) : row_weight row = qsum snd row.
Proof. unfold row_weight. simpl. rewrite (fold_left_qsum snd). ring. Qed.

(** Sums over the entries of a row are sums over the vertices. *)
Lemma qsum_row n adj u (P : Z -> Prop) `{!forall v, Decision (P v)} :
  rows_ok n adj -> 0 <= u < n ->
  qsum (fun e => guard (P (fst e)) (snd e)) (vat adj u) = qsum (fun v => guard (P v) (mat adj u v)) (seqZ 0 n).
Proof.
  intros [_ Hra] Hu.
  transitivity (qsum (fun e => qsum (fun v => guard (fst e = v) (guard (P v) (snd e))) (seqZ 0 n)) (vat adj u)).
  - apply qsum_ext. intros [v w] Hin. simpl.
    rewrite <-(qsum_delta n v (guard (P v) w)) at 1.
    + apply qsum_ext. intros x _. unfold guard. by repeat case_decide; subst.
    + apply (Hra u); [done|]. apply list_elem_of_fmap. by exists (v, w).
  - rewrite qsum_swap. apply qsum_ext. intros v _. unfold mat, guard at 3.
    case_decide.
    + apply qsum_ext. intros e _. unfold guard. by repeat case_decide.
    + rewrite <-(qsum_zero (vat adj u)). apply qsum_ext. intros e _. unfold guard. by repeat case_decide.
Qed.

Lemma row_weight_degree n adj u :
  rows_ok n adj -> 0 <= u < n -> row_weight (vat adj u) = wdegree n (mat adj) u.
Proof.
  intros Hr Hu. rewrite row_weight_qsum. unfold wdegree.
  etransitivity; [|etransitivity; [exact (qsum_row n adj u (fun _ => True) Hr Hu)|]];
    by apply qsum_ext.
Qed.

Lemma bucket_qsum comm nw n c :
  bucket comm nw n c = qsum (fun u => guard (vat comm u = c) (vat nw u)) (seqZ 0 n).
Proof.
  unfold bucket. rewrite wsum_qsum.
  transitivity (qsum (vat nw) (filter (fun u => vat comm u = c) (seqZ 0 n)));
    [apply (qsum_map (vat nw) (fun x => x))|by rewrite qsum_filter].
Qed.

(** ** Modularity *)

Section exact.
Context `{!HashOrder} (p : params Qc).
Implicit Types (adj : list (list (Z * Qc))) (nw : list Qc) (comm : list Z).

Lemma internal_weight_exact adj comm n :
  0 <= n -> rows_ok n adj -> vlen comm = n ->
  wp (internal_weight adj comm n) (fun q => q = within n (mat adj) (vat comm)).
Proof.
  intros Hn Hr Hc. set (f u := qsum (fun v => guard (vat comm u = vat comm v) (mat adj u v)) (seqZ 0 n)).
  apply (wp_for_range (fun i q => q = qsum f (seqZ 0 i))); [done|done| |done].
  intros u q Hu ->. pose proof (ro_len _ _ Hr). wsteps.
  pose proof (qsum_row n adj u (fun v => vat comm u = vat comm v) Hr Hu) as Hrow.
  set (q0 := qsum f (seqZ 0 u)).
  apply (wp_for_each (fun dn q => q = (q0 + qsum (fun e => guard (vat comm u = vat comm (fst e)) (snd e)) dn)%Qc)).
  - simpl. ring.
  - intros dn [v w] rest q Hs ->.
    assert (0 <= v < n) by (apply (ro_range _ _ Hr u); [done|]; rewrite Hs, fmap_app; set_solver).
    wsteps. rewrite qsum_app. simpl.
    generalize (qsum (fun e => guard (vat comm u = vat comm (fst e)) (snd e)) dn). intros s. unfold guard.
    destruct (Z.eqb_spec (vat comm u) (vat comm v)); case_decide; try done; ring.
  - intros q ->. rewrite seqZ_snoc, qsum_app, Hrow by lia. fold (f u). simpl. fold q0. ring.
Qed.

Lemma penalty_sum_exact ct nc m :
  0 <= nc -> vlen ct = nc ->
  wp (penalty_sum ct nc m) (fun s => s = qsum (fun c => let x := (vat ct c / (two * m))%Qc in (x * x)%Qc) (seqZ 0 nc)).
Proof.
  intros Hn Hl. apply (wp_for_range (fun i s =>
    s = qsum (fun c => let x := (vat ct c / (two * m))%Qc in (x * x)%Qc) (seqZ 0 i))); [done|done| |done].
  intros i s Hi ->. wsteps. rewrite seqZ_snoc, qsum_app by lia. simpl. ring.
Qed.

Lemma ComputeModularity_exact adj n comm (m : Qc) k :
  0 <= n -> k <= INT_MAX -> rows_ok n adj -> vlen comm = n -> in_range k comm -> (0 < m)%Qc ->
  wp (ComputeModularity p adj n comm m) (fun q =>
    q = modularity (resolution_ p) m n (mat adj) (vat comm)).
Proof.
  intros Hn Hk Hr Hc Hrange Hm. unfold ComputeModularity.
  destruct (wleb m wzero) eqn:Hle.
  { simpl in Hle. apply Qc_leb_le in Hle. by apply Qcle_not_lt in Hle. }
  apply wp_bind. eapply wp_mono; [apply degrees_wp; [done|apply Hr]|]. intros ku [Hku Hdeg]. apply wp_bind.
  eapply wp_mono; [by apply (max_comm_id_wp _ _ k)|]. intros mx (Hpos & Hmax & Hmx). wsteps.
  eapply wp_mono; [apply accumulate_wp; done || lia|]. intros ct [Hlct Hct]. apply wp_bind.
  eapply wp_mono; [by apply internal_weight_exact|]. intros q ->. apply wp_bind.
  eapply wp_mono; [apply penalty_sum_exact; [|done]; lia|]. intros s ->. wsteps. simpl.
  assert (m <> 0%Qc) as Hm0 by (intros ->; by apply Qclt_not_eq in Hm).
  rewrite (modularity_by_community _ _ _ _ _ (mx + 1)); [|done|intros u Hu; apply Hmx; lia].
  f_equal. f_equal. apply qsum_ext. intros c Hcr%elem_of_seqZ. simpl. rewrite Hct by lia.
  rewrite bucket_qsum. unfold comm_degree.
  rewrite (qsum_ext (fun u => guard (vat comm u = c) (vat ku u))
    (fun v => guard (vat comm v = c) (wdegree n (mat adj) v))); [done|].
  intros u Hu%elem_of_seqZ. rewrite Hdeg, (row_weight_degree n) by (done || lia). done.
Qed.

(** ** The choice of a community *)

Lemma comm_edge_weights_exact adj comm n u :
  rows_ok n adj -> vlen comm = n -> 0 <= u < n ->
  wp (comm_edge_weights (vat adj u) comm) (fun m =>
    forall c, default 0%Qc (umap_find m c) = weight_to n (mat adj) (vat comm) u c).
Proof.
  intros Hr Hc Hu.
  apply (wp_for_each (fun dn m => forall c, default 0%Qc (umap_find m c) =
    qsum (fun e => guard (vat comm (fst e) = c) (snd e)) dn)).
  - done.
  - intros dn [v w] rest m Hs Hm.
    assert (0 <= v < n) by (apply (ro_range _ _ Hr u); [done|]; rewrite Hs, fmap_app; set_solver).
    wsteps. intros c. rewrite umap_find_update, qsum_app, <-Hm. simpl. unfold guard.
    destruct (Z.eqb_spec (vat comm v) c) as [->|]; case_decide; try done; simpl; ring.
  - intros m Hm c. rewrite Hm. exact (qsum_row n adj u (fun v => vat comm v = c) Hr Hu).
Qed.

(** The scan returns a maximum of the staying baseline and the gains of the
    other entries, and moves only for a strict improvement. *)
Lemma scan_best_exact entries old_comm k ct d0 n :
  vlen ct = n -> (forall c, c ∈ entries.*1 -> 0 <= c < n) ->
  wp (scan_best p entries old_comm k ct (d0, old_comm)) (fun r =>
    (forall c w, (c, w) ∈ entries -> c <> old_comm -> (move_delta p w k (vat ct c) <= fst r)%Qc) /\
    (d0 <= fst r)%Qc /\
    (snd r = old_comm /\ fst r = d0 \/
     exists w, (snd r, w) ∈ entries /\ snd r <> old_comm /\
       fst r = move_delta p w k (vat ct (snd r)) /\ (d0 < fst r)%Qc)).
Proof.
  intros Hl Hr.
  apply (wp_for_each (fun dn r =>
    (forall c w, (c, w) ∈ dn -> c <> old_comm -> (move_delta p w k (vat ct c) <= fst r)%Qc) /\
    (d0 <= fst r)%Qc /\
    (snd r = old_comm /\ fst r = d0 \/
     exists w, (snd r, w) ∈ dn /\ snd r <> old_comm /\
       fst r = move_delta p w k (vat ct (snd r)) /\ (d0 < fst r)%Qc))); [| |done].
  { split_and!; [by intros ?? ?%elem_of_nil|apply Qcle_refl|by left]. }
  intros dn [c w] rest [bd bc] Hs (Hall & H0 & Hbest). simpl in *.
  assert (0 <= c < n) by (apply Hr; rewrite Hs, fmap_app; set_solver).
  destruct (Z.eqb_spec c old_comm) as [->|Hne]; wsteps.
  - simpl. split_and!; [|done|set_solver]. intros c' w'. rewrite elem_of_app, list_elem_of_singleton.
    intros [?|[= -> ->]]; [by apply Hall|done].
  - simpl. destruct (Qc_ltb bd _) eqn:Hlt; simpl.
    + apply Qc_ltb_lt in Hlt. split_and!.
      * intros c' w'. rewrite elem_of_app, list_elem_of_singleton.
        intros [Hin|[= -> ->]] Hc'; [|apply Qcle_refl].
        eapply Qcle_trans; [by apply Hall|]. by apply Qclt_le_weak.
      * eapply Qcle_trans; [exact H0|]. by apply Qclt_le_weak.
      * right. exists w. split_and!; [set_solver|done|done|by eapply Qcle_lt_trans].
    + assert (move_delta p w k (vat ct c) <= bd)%Qc as Hle.
      { destruct (Qclt_le_dec bd (move_delta p w k (vat ct c))) as [Hd|Hd]; [|done].
        apply Qc_ltb_lt in Hd. simpl in Hd. congruence. }
      split_and!; [|done|set_solver]. intros c' w'. rewrite elem_of_app, list_elem_of_singleton.
      intros [?|[= -> ->]] ?; [by apply Hall|done].
Qed.

(** A level whose node weights are the weighted degrees and whose totals are
    those of the assignment. *)
Record exact_level (n : Z) adj nw comm (ct : list Qc) : Prop := {
  el_rows : rows_ok n adj;
  el_sym : wsymmetric n (mat adj);
  el_nw_len : vlen nw = n;
  el_nw u : 0 <= u < n -> vat nw u = wdegree n (mat adj) u;
  el_comm_len : vlen comm = n;
  el_comm : in_range n comm;
  el_ct_len : vlen ct = n;
  el_ct c : 0 <= c < n -> vat ct c = comm_degree n (mat adj) (vat comm) c
}.

Lemma accumulate_exact n adj nw comm :
  0 <= n -> rows_ok n adj -> vlen nw = n ->
  (forall u, 0 <= u < n -> vat nw u = wdegree n (mat adj) u) -> vlen comm = n -> in_range n comm ->
  wp (AccumulateByComm comm nw n) (fun ct => vlen ct = n /\
    forall c, 0 <= c < n -> vat ct c = comm_degree n (mat adj) (vat comm) c).
Proof.
  intros Hn Hr Hw Hdeg Hc Hrange. eapply wp_mono; [by apply (accumulate_wp comm nw n n)|].
  intros ct [Hl Hct]. split; [done|]. intros c Hcr. rewrite Hct, bucket_qsum by done.
  apply qsum_ext. intros u Hu%elem_of_seqZ. by rewrite Hdeg by lia.
Qed.

Section choice.
Context (n : Z) (adj : list (list (Z * Qc))) (nw : list Qc) (comm : list Z) (ct : list Qc) (m : Qc) (u : Z).
Context (Hlv : exact_level n adj nw comm ct) (Hm : (0 < m)%Qc) (Hu : 0 <= u < n).
Let A := mat adj.
Let lab := vat comm.
Let Q := modularity (resolution_ p) m n A.

(** What the code compares: for the own community the baseline, for the others
    the gain. *)
Definition stay_score : Qc :=
  stay_delta p (weight_to n A lab u (lab u)) (wdegree n A u) (wdegree n A u / (two * m))%Qc
    (comm_degree n A lab (lab u)).
Definition move_score (c : Z) : Qc :=
  move_delta p (weight_to n A lab u c) (wdegree n A u / (two * m))%Qc (comm_degree n A lab c).

Lemma move_score_gain c : c <> lab u ->
  (Q (relabel lab u c) - Q lab = (move_score c - (stay_score - A u u)) / m)%Qc.
Proof using Hlv Hm Hu.
  intros Hc. assert (m <> 0%Qc) as Hm0 by (intros ->; by apply Qclt_not_eq in Hm).
  unfold Q. rewrite modularity_move by (done || apply Hlv).
  unfold move_score, stay_score, move_delta, stay_delta. simpl. qfield.
Qed.

(** The outcome of the choice, in terms of the scores. *)
Lemma choose_comm_exact :
  wp (choose_comm p adj nw comm m ct u) (fun b =>
    (b = lab u \/ (b <> lab u /\ reachable_comm adj comm u b /\ (stay_score < move_score b)%Qc)) /\
    (forall c, reachable_comm adj comm u c -> c <> lab u ->
       (move_score c <= if decide (b = lab u) then stay_score else move_score b)%Qc)).
Proof using Hlv Hu.
  destruct Hlv as [Hr Hs Hlw Hw Hlc Hc Hlt Ht]. pose proof (ro_len _ _ Hr) as Hla.
  unfold choose_comm. pose proof (Hc u). wsteps.
  eapply wp_mono; [apply wp_and; [apply (comm_edge_weights_wp _ _ n Hlc);
    intros; by apply (ro_range _ _ Hr u)|by apply (comm_edge_weights_exact adj comm n u)]|].
  intros cew [[Hnd Hk] Hf]. apply wp_bind, wp_vget; [lia|].
  assert (forall c w, (c, w) ∈ cew -> 0 <= c < n /\ reachable_comm adj comm u c /\
    move_delta p w (wdegree n A u / (two * m))%Qc (vat ct c) = move_score c) as Hent.
  { intros c w Hin. assert (exists v, v ∈ (vat adj u).*1 /\ vat comm v = c) as (v & Hv & <-)
      by (apply Hk, list_elem_of_fmap; by exists (c, w)).
    assert (0 <= vat comm v < n) by (apply Hc; rewrite Hlc; by apply (ro_range _ _ Hr u)).
    split_and!; [lia..|right; eauto|]. apply umap_find_elem in Hin; [|done].
    specialize (Hf (vat comm v)). rewrite Hin in Hf. simpl in Hf. by rewrite Hf, Ht. }
  rewrite Hf, (Hw u), (Ht (vat comm u)) by (done || (apply Hc; lia)). change (wp (scan_best p
    (iter_order (vlen (vat adj u)) cew) (lab u) (wdegree n A u / (two * m))%Qc ct (stay_score, lab u) ≫=
    fun r => Some (snd r)) (fun b => 
    (b = lab u \/ (b <> lab u /\ reachable_comm adj comm u b /\ (stay_score < move_score b)%Qc)) /\
    (forall c, reachable_comm adj comm u c -> c <> lab u ->
       (move_score c <= if decide (b = lab u) then stay_score else move_score b)%Qc))). 
  apply wp_bind. eapply wp_mono; [apply (scan_best_exact _ _ _ _ _ n); [done|]|].
  { intros c. rewrite iter_order_perm. intros ([c' w] & -> & Hin)%list_elem_of_fmap. by apply (Hent c' w). }
  intros [bd b] (Hall & Hd0 & Hbest). setoid_rewrite iter_order_perm in Hall.
  setoid_rewrite iter_order_perm in Hbest. simpl in *.
  assert (forall c, reachable_comm adj comm u c -> c <> lab u -> (move_score c <= bd)%Qc) as Hmax.
  { intros c [->|Hv] Hne; [done|]. apply Hk, list_elem_of_fmap in Hv as ([c' w] & -> & Hin).
    destruct (Hent _ _ Hin) as (_ & _ & E). simpl in *. rewrite <-E. by apply Hall. }
  destruct Hbest as [[-> ->]|(w & Hin & Hne & -> & Hgt)].
  - rewrite decide_True by done. split; [by left|done].
  - destruct (Hent _ _ Hin) as (_ & Hreach & Heq). rewrite Heq in *.
    rewrite decide_False by done. split; [by right|done].
Qed.

(** A move is worth more than the self-loop of the vertex. *)
Lemma choose_comm_gain :
  wp (choose_comm p adj nw comm m ct u) (fun b =>
    b <> lab u -> (Q lab + A u u / m < Q (relabel lab u b))%Qc).
Proof using Hlv Hm Hu.
  eapply wp_mono; [apply choose_comm_exact|]. intros b [[->|(_ & _ & Hlt)] _] Hne; [done|].
  pose proof (move_score_gain b Hne) as Hg.
  assert (Q (relabel lab u b) = Q lab + (move_score b - (stay_score - A u u)) / m)%Qc as ->
    by (rewrite <-Hg; ring).
  apply (proj1 (Qcplus_lt_mono_l _ _ (Q lab))), Qcdiv_lt; [done|].
  apply (Qcplus_lt_mono_r _ _ (A u u - stay_score)%Qc) in Hlt.
  by replace (stay_score + (A u u - stay_score))%Qc with (A u u) in Hlt by ring;
    replace (move_score b + (A u u - stay_score))%Qc with (move_score b - (stay_score - A u u))%Qc in Hlt by ring.
Qed.

(** Without a self-loop the choice maximises the modularity over the moves of
    the vertex. *)
Lemma choose_comm_optimal :
  A u u = 0%Qc ->
  wp (choose_comm p adj nw comm m ct u) (fun b => reachable_comm adj comm u b /\
    forall c, reachable_comm adj comm u c -> (Q (relabel lab u c) <= Q (relabel lab u b))%Qc).
Proof using Hlv Hm Hu.
  intros Hloop. set (score c := if decide (c = lab u) then stay_score else move_score c).
  assert (forall c, Q (relabel lab u c) = Q lab + (score c - stay_score) / m)%Qc as HQ.
  { intros c. unfold score. case_decide as E.
    - subst c. unfold Q. rewrite modularity_relabel_self.
      assert (m <> 0%Qc) by (intros ->; by apply Qclt_not_eq in Hm). qfield.
    - pose proof (move_score_gain c E) as Hg. rewrite Hloop in Hg.
      replace (move_score c - stay_score)%Qc with (move_score c - (stay_score - 0))%Qc by ring.
      rewrite <-Hg. ring. }
  eapply wp_mono; [apply choose_comm_exact|]. intros b [Hb Hmax]. split.
  { destruct Hb as [->|(_ & ? & _)]; [by left|done]. }
  intros c Hc. rewrite !HQ. apply (proj1 (Qcplus_le_mono_l _ _ (Q lab))), Qcdiv_le; [done|].
  apply (proj1 (Qcplus_le_mono_r _ _ (- stay_score)%Qc)). unfold score.
  destruct (decide (c = lab u)) as [->|Hne]; [|by apply Hmax].
  destruct Hb as [->|(Hb & _ & Hlt)]; [rewrite decide_True by done; apply Qcle_refl|].
  rewrite decide_False by done. by apply Qclt_le_weak.
Qed.
End choice.

(** ** Coarsening *)

Lemma mat_find adj (c d : Z) :
  NoDup (vat adj c).*1 -> mat adj c d = default 0%Qc (umap_find (vat adj c) d).
Proof.
  unfold mat. induction (vat adj c) as [|[x w] l IH]; simpl; [done|].
  intros [Hx Hnd]%NoDup_cons. rewrite IH by done. unfold guard.
  destruct (Z.eqb_spec x d) as [->|]; case_decide; try done; simpl; [|ring].
  destruct (umap_find l d) eqn:E; simpl; [|ring].
  apply umap_find_elem in E; [|done]. destruct Hx. apply list_elem_of_fmap. by exists (d, q).
Qed.

Lemma row_triples_sum comm u row c d :
  qsum (fun t : Z * Z * Qc => guard (fst t = (c, d)) (snd t)) (row_triples comm u row) =
  if decide (c <= d)
  then guard (vat comm u = c) (qsum (fun e => guard (vat comm (fst e) = d) (snd e)) row)
  else guard (vat comm u = d) (qsum (fun e => guard (vat comm (fst e) = c) (snd e)) row).
Proof.
  unfold row_triples. rewrite qsum_flat_map.
  assert (forall a b, guard (vat comm u = a) (qsum (fun e : Z * Qc => guard (vat comm (fst e) = b) (snd e)) row) =
    qsum (fun e => guard (vat comm u = a) (guard (vat comm (fst e) = b) (snd e))) row) as Hin.
  { intros a b. unfold guard at 1. case_decide.
    - apply qsum_ext. intros e _. unfold guard. by repeat case_decide.
    - rewrite <-(qsum_zero row). apply qsum_ext. intros e _. unfold guard. by repeat case_decide. }
  rewrite !Hin. case_decide as Hcd; apply qsum_ext; intros [v w] _; simpl;
    destruct (Z.leb_spec (vat comm u) (vat comm v)); simpl;
    destruct (Z.eqb_spec (vat comm u) (vat comm v)); simpl; unfold guard;
    repeat case_decide; simplify_eq/=; try lia; try ring.
Qed.

Lemma coarse_mat adj comm n k maps c d :
  rows_ok n adj -> wsymmetric n (mat adj) -> aggregated k (coarse_triples adj comm n) maps ->
  0 <= c < k -> 0 <= d < k -> mat maps c d = block n (vat comm) (mat adj) c d.
Proof.
  intros Hr Hsym Hagg Hc Hd. destruct (proj2 Hagg c Hc) as [Hnd Hf].
  rewrite mat_find, Hf by done.
  transitivity (wsum (weights_of (coarse_triples adj comm n) c d)).
  { by destruct (weights_of _ c d). }
  rewrite wsum_qsum. unfold weights_of.
  rewrite (qsum_map snd (fun x => x)), qsum_filter.
  transitivity (if decide (c <= d) then block n (vat comm) (mat adj) c d else block n (vat comm) (mat adj) d c).
  - etransitivity; [exact (qsum_flat_map _ (fun t => guard (fst t = (c, d)) (snd t)) _)|].
    etransitivity; [apply qsum_ext; intros u _; exact (row_triples_sum comm u (vat adj u) c d)|].
    case_decide; apply qsum_ext; intros u Hu%elem_of_seqZ; f_equal;
      [exact (qsum_row n adj u (fun v => vat comm v = d) Hr ltac:(lia))
      |exact (qsum_row n adj u (fun v => vat comm v = c) Hr ltac:(lia))].
  - case_decide; [done|]. by apply (block_symmetric n k).
Qed.

(** ** Levels *)

(** A level in relation to the original graph: the weights are symmetric, the
    node weights are the degrees, and every labelling of the nodes has the
    modularity of the labelling it induces on the original vertices. *)
Record exact_state (m : Qc) (N : Z) adj0 (st : level_state Qc) : Prop := {
  es_sym : wsymmetric (ls_n st) (mat (ls_adj st));
  es_nw u : 0 <= u < ls_n st -> vat (ls_node_weight st) u = wdegree (ls_n st) (mat (ls_adj st)) u;
  es_mod : exists node : Z -> Z,
    (forall c x, 0 <= c < ls_n st -> x ∈ vat (ls_node_to_orig st) c -> node x = c) /\
    (forall x, 0 <= x < N -> 0 <= node x < ls_n st) /\
    forall q, modularity (resolution_ p) m (ls_n st) (mat (ls_adj st)) q =
      modularity (resolution_ p) m N (mat adj0) (fun x => q (node x))
}.

(** The coarse graph is the aggregate of the fine one. *)
Lemma coarse_state_mat st st' comm k c d :
  rows_ok (ls_n st) (ls_adj st) -> wsymmetric (ls_n st) (mat (ls_adj st)) ->
  coarse_of st comm k st' -> 0 <= c < k -> 0 <= d < k ->
  mat (ls_adj st') c d = block (ls_n st) (vat comm) (mat (ls_adj st)) c d.
Proof.
  intros Hr Hsym Hco Hc Hd. destruct (co_adj _ _ _ _ Hco) as (maps & Hagg & Hperm).
  rewrite <-(coarse_mat _ _ _ k maps) by done. unfold mat. by apply qsum_perm, Hperm.
Qed.

Lemma coarse_state_exact m N adj0 st st' comm comm' k :
  m <> 0%Qc -> level_ok N adj0 st -> renumbered (ls_n st) comm comm' k -> coarse_of st comm' k st' ->
  exact_state m N adj0 st -> exact_state m N adj0 st'.
Proof.
  intros Hm Hok Hrn Hco [Hsym Hnw (node & Hnode & Hrange & Hmod)].
  pose proof (lo_rows _ _ _ Hok) as Hrows. pose proof (rn_range _ _ _ _ Hrn) as Hlab.
  pose proof (co_n _ _ _ _ Hco) as Hk.
  assert (forall c d, 0 <= c < k -> 0 <= d < k ->
    mat (ls_adj st') c d = block (ls_n st) (vat comm') (mat (ls_adj st)) c d) as Hmat
    by (intros; by apply (coarse_state_mat st st' comm' k)).
  split; rewrite Hk.
  - intros c d Hc Hd. rewrite !Hmat by done. by apply (block_symmetric (ls_n st) k).
  - intros c Hc. rewrite (co_weight _ _ _ _ Hco), bucket_qsum by done.
    rewrite (wdegree_ext k (mat (ls_adj st')) (block (ls_n st) (vat comm') (mat (ls_adj st)))) by auto.
    rewrite block_degree by done. apply qsum_ext. intros u Hu%elem_of_seqZ. by rewrite Hnw by lia.
  - exists (fun x => vat comm' (node x)). split_and!.
    + intros c x Hc Hx. apply (co_origs _ _ _ _ Hco) in Hx as (u & Hu & <- & Hx); [|done].
      by rewrite (Hnode u x).
    + intros x Hx. by apply Hlab, Hrange.
    + intros q. rewrite (modularity_ext _ _ _ _ (block (ls_n st) (vat comm') (mat (ls_adj st))) q q) by done.
      rewrite (modularity_block _ _ (ls_n st) k) by done. apply Hmod.
Qed.

Lemma initial_state_exact m N adj0 nw :
  0 < N -> rows_ok N adj0 -> wsymmetric N (mat adj0) ->
  (forall u, 0 <= u < N -> vat nw u = row_weight (vat adj0 u)) ->
  exact_state m N adj0 (initial_level N adj0 nw).
Proof.
  intros HN Hr Hsym Hw. split; simpl; [done|..].
  - intros u Hu. rewrite Hw by done. by apply row_weight_degree.
  - exists (fun x => x). split_and!; [|done|done]. intros c x Hc.
    assert (vat (map (fun i => [i]) (iota N)) c = [c]) as ->; [|by intros ->%list_elem_of_singleton].
    unfold vat. apply list_lookup_total_correct, list_lookup_fmap_Some.
    exists c. split; [done|]. apply lookup_seqZ. lia.
Qed.

(** Half the total weight of the graph. *)
Definition half_weight (n : Z) adj : Qc := (qsum (wdegree n (mat adj)) (seqZ 0 n) / two)%Qc.

(** [Compute] reports the modularity of the partition it returns, which is
    that of the coarsest graph with every node on its own. *)
Lemma compute_on_exact (c : computer Qc) :
  0 < num_vertex_ c <= INT_MAX -> rows_ok (num_vertex_ c) (adj_ c) ->
  wsymmetric (num_vertex_ c) (mat (adj_ c)) -> (0 < half_weight (num_vertex_ c) (adj_ c))%Qc ->
  wp (compute_on p c) (fun r =>
    r_modularity r = modularity (resolution_ p) (half_weight (num_vertex_ c) (adj_ c))
      (num_vertex_ c) (mat (adj_ c)) (vat (r_community r)) /\
    exists st, ls_n st = r_num_communities r /\ wsymmetric (ls_n st) (mat (ls_adj st)) /\
      r_modularity r = modularity (resolution_ p) (half_weight (num_vertex_ c) (adj_ c))
        (ls_n st) (mat (ls_adj st)) (fun u => u)).
Proof.
  intros Hn Hr Hsym Hpos. unfold compute_on. set (N := num_vertex_ c) in *.
  set (m := half_weight N (adj_ c)) in *.
  assert (m <> 0%Qc) as Hm by (intros E; rewrite E in Hpos; by apply Qclt_not_eq in Hpos).
  destruct (Z.eqb_spec N 0); [lia|]. apply wp_bind.
  eapply wp_mono; [apply init_weights_wp; [lia|apply Hr]|]. intros [nw m'] (Hw & Hnw & ->).
  assert (wdiv (wsum nw) two = m) as ->.
  { unfold m, half_weight. rewrite wsum_qsum, <-(fmap_vat nw), Hw. simpl. f_equal.
    etransitivity; [exact (qsum_map (vat nw) (fun x => x) _)|]. apply qsum_ext. intros u Hu%elem_of_seqZ.
    rewrite Hnw by lia. apply row_weight_degree; [done|lia]. }
  apply wp_bind. eapply wp_mono; [apply (run_levels_inv p N (adj_ c) ltac:(lia) (exact_state m N (adj_ c)))|].
  - intros. by eapply coarse_state_exact.
  - apply initial_level_ok; [lia|done..].
  - apply initial_state_exact; [lia|done..].
  - lia.
  - intros [level st] (Hok & [Hs _ (node & Hnode & Hrange & Hmod)] & _ & _). apply wp_bind.
    eapply wp_mono; [by apply (expand_communities_wp N (adj_ c) ltac:(lia) st)|]. intros com [Hlc Hcom].
    destruct (expanded_partition _ _ _ _ Hok Hlc Hcom) as [Hpart _].
    pose proof (lo_n _ _ _ Hok). apply wp_bind.
    eapply wp_mono; [apply (ComputeModularity_exact _ _ _ _ (ls_n st)); try done || lia|].
    { intros u Hu. apply (pa_range _ _ _ Hpart). lia. }
    intros q ->. wsteps. simpl. split; [done|]. exists st. split_and!; [|done|].
    + by rewrite (partition_distinct _ (ls_n st) _ ltac:(lia) Hpart), to_int_small by vlia.
    + rewrite Hmod. apply modularity_ext; [done|]. intros x Hx.
      destruct (proj1 (elem_of_concat_vat (ls_node_to_orig st) x)) as (d & Hd & Hin).
      { rewrite (lo_parts _ _ _ Hok). apply elem_of_seqZ. lia. }
      rewrite (lo_origs _ _ _ Hok) in Hd. by rewrite (Hcom d x), (Hnode d x).
Qed.
End exact.
