(* ===== verification/ProjectionCorrect.v ===== *)
(** * Correctness of the projections

    Each projection builds the weighted graph it documents: the vertices are
    the distinct country codes (or the kept datasources or organisations), and
    the weight of a pair is accumulated over the publications, datasources or
    projects the pair shares. *)
From S2P Require Import Prelude Num Storage KCore GraphBuild Aggregate Projection KcoreCompute.
From stdpp Require Import sorting.
#[local] Open Scope Z_scope.

(** ** Weighted graphs from an aggregator *)

Section graphs.
Context {W : Type} `{!Arith W}.
Implicit Types (E : list (Z * Z * W)) (agg : list (umap W)).

(** [adj] has exactly the entries [wt] describes, each once. *)
Record weighted_graph (n : Z) (wt : Z -> Z -> option W) (adj : list (list (Z * W))) : Prop := {
  wg_len : vlen adj = n;
  wg_nodup u : 0 <= u < n -> NoDup (vat adj u).*1;
  wg_row u v w : 0 <= u < n -> ((v, w) ∈ vat adj u <-> 0 <= v < n /\ wt u v = Some w)
}.

(** The weight of an unordered pair: what was accumulated for it, if kept. *)
Definition pair_weight (keep : W -> bool) E (u v : Z) : option W :=
  if u =? v then None
  else match weights_of E (Z.min u v) (Z.max u v) with
       | [] => None
       | ws => if keep (wsum ws) then Some (wsum ws) else None
       end.

Lemma pair_weight_sym keep E u v : pair_weight keep E u v = pair_weight keep E v u.
Proof. unfold pair_weight. by rewrite Z.eqb_sym, Z.min_comm, Z.max_comm. Qed.

Lemma wincident_nodup (L : list (Z * Z * W)) u :
  NoDup L.*1 -> (forall a b w, (a, b, w) ∈ L -> a < b) -> NoDup (wincident L u).*1.
Proof.
  induction L as [|[[a b] w] L IH]; intros Hnd Hlt; [constructor|].
  apply NoDup_cons in Hnd as [Hx Hnd].
  assert (NoDup (wincident L u).*1) as IH' by (apply IH; [done|]; intros; eapply Hlt; by right).
  assert (a < b) as Hab by (apply (Hlt a b w); left).
  assert (forall v, v ∈ (wincident L u).*1 -> (a, b) = (u, v) \/ (a, b) = (v, u) -> False) as Hfresh.
  { intros v ([v' w'] & -> & Hin)%list_elem_of_fmap Hab'. simpl in *.
    apply wincident_elem in Hin as [Hin|Hin].
    - pose proof (Hlt u v' w' ltac:(by right)). destruct Hab' as [[= -> ->]|[= -> ->]]; [|lia].
      apply Hx, list_elem_of_fmap. by exists (u, v', w').
    - pose proof (Hlt v' u w' ltac:(by right)). destruct Hab' as [[= -> ->]|[= -> ->]]; [lia|].
      apply Hx, list_elem_of_fmap. by exists (v', u, w'). }
  unfold wincident. simpl. fold (wincident L u).
  destruct (Z.eqb_spec a u) as [->|], (Z.eqb_spec b u) as [->|]; simpl; [lia| | |done];
    apply NoDup_cons; (split; [|done]); intros Hin; by apply (Hfresh _ Hin); auto.
Qed.

Context `{!HashOrder}.

Lemma kept_entries_nodup keep n agg :
  (forall a, 0 <= a < n -> NoDup (vat agg a).*1) -> NoDup (kept_entries keep n agg).*1.
Proof.
  intros Hnd. unfold kept_entries.
  assert (forall l, NoDup l -> (forall a, a ∈ l -> 0 <= a < n) ->
    NoDup ((flat_map (fun a => map (fun bw : Z * W => (a, fst bw, snd bw))
      (filter (fun bw => keep (snd bw) = true) (iter_order 0 (vat agg a)))) l).*1)) as Hgo.
  { induction l as [|a l IH]; intros Hl Hr; simpl; [constructor|].
    apply NoDup_cons in Hl as [Ha Hl]. rewrite fmap_app. apply NoDup_app. split_and!.
    - assert ((map (fun bw : Z * W => (a, fst bw, snd bw))
        (filter (fun bw => keep (snd bw) = true) (iter_order 0 (vat agg a)))).*1 =
        pair a <$> (filter (fun bw => keep (snd bw) = true) (iter_order 0 (vat agg a))).*1) as ->
        by (by rewrite <-!list_fmap_compose).
      apply NoDup_fmap_2; [intros ?? [=]; done|].
      eapply sublist_NoDup; [|apply fmap_sublist, sublist_filter].
      rewrite iter_order_perm. apply Hnd, Hr. left.
    - intros [x y] Hx Hin. apply list_elem_of_fmap in Hx as (t & E1 & Hx).
      apply list_elem_of_In, in_map_iff in Hx as (? & <- & _). simpl in E1. simplify_eq.
      apply list_elem_of_fmap in Hin as (t & E2 & Hin).
      apply list_elem_of_In, in_flat_map in Hin as (a' & Ha' & Hin).
      apply in_map_iff in Hin as (? & <- & _). simpl in E2. simplify_eq.
      apply Ha. by apply list_elem_of_In.
    - apply IH; [done|]. intros. apply Hr. by right. }
  apply Hgo; [apply NoDup_seqZ|]. intros a Ha%elem_of_seqZ. lia.
Qed.

(** The materialised graph of everything emitted. *)
Lemma materialize_graph keep n E agg :
  0 <= n -> aggregated n E agg -> (forall a b w, (a, b, w) ∈ E -> 0 <= a < b /\ b < n) ->
  wp (materialize keep n agg) (fun '(adj, total) => weighted_graph n (pair_weight keep E) adj /\
    total = 2 * vlen (kept_entries keep n agg)).
Proof.
  intros Hn Hagg HE.
  assert (upper n agg) as Hup.
  { eapply aggregated_upper; [done|]. intros a b w Hin. specialize (HE a b w Hin). lia. }
  eapply wp_mono; [by apply materialize_ok|]. intros [adj total] (Hl & Ht & Hrows). split; [|done].
  split; [done|..].
  - intros u Hu. rewrite Hrows by done. apply wincident_nodup.
    + apply kept_entries_nodup. intros a Ha. by apply Hagg.
    + intros a b w (Ha & _ & Hin)%kept_entries_elem. by apply (proj2 (proj2 Hup a Ha)) in Hin as [? _].
  - intros u v w Hu. rewrite Hrows, kept_entries_linked by done. unfold linked, pair_weight.
    destruct Hagg as [_ Hf]. split.
    + intros (Hv & Hk & [[Hlt Hw]|[Hlt Hw]]); (split; [done|]);
        rewrite (proj2 (Z.eqb_neq u v)) by lia.
      * rewrite (proj2 (Hf u Hu)) in Hw. rewrite Z.min_l, Z.max_r by lia.
        destruct (weights_of E u v); [done|]. simplify_eq. by rewrite Hk.
      * rewrite (proj2 (Hf v Hv)) in Hw. rewrite Z.min_r, Z.max_l by lia.
        destruct (weights_of E v u); [done|]. simplify_eq. by rewrite Hk.
    + intros [Hv Hw]. destruct (Z.eqb_spec u v); [done|].
      destruct (weights_of E (Z.min u v) (Z.max u v)) as [|x ws] eqn:Ews; [done|].
      destruct (keep (wsum (x :: ws))) eqn:Hk; [|done]. simplify_eq. split_and!; [lia..|done|].
      destruct (Z.lt_total u v) as [Hlt|[?|Hlt]]; [left|done|right]; (split; [done|]).
      * rewrite Z.min_l, Z.max_r in Ews by lia. by rewrite (proj2 (Hf u Hu)), Ews.
      * rewrite Z.min_r, Z.max_l in Ews by lia. by rewrite (proj2 (Hf v Hv)), Ews.
Qed.
End graphs.

(** ** Pairs that share items *)

Lemma filter_eq_nodup {A} `{!EqDecision A} (l : list A) x :
  NoDup l -> filter (fun y => y = x) l = if decide (x ∈ l) then [x] else [].
Proof.
  induction 1 as [|y l Hy Hnd IH]; [by rewrite decide_False by apply not_elem_of_nil|].
  rewrite filter_cons, IH. destruct (decide (y = x)) as [->|Hne].
  - rewrite (decide_False (P := x ∈ l)) by done. by rewrite decide_True by left.
  - destruct (decide (x ∈ l)); [by rewrite decide_True by (by right)|].
    rewrite decide_False; [done|]. rewrite elem_of_cons. naive_solver.
Qed.

Section sharing.
Context {W : Type} `{!Arith W}.
Implicit Types (S : Z -> list Z).

(** Every item [i] emits [1.0] for each pair of its members. *)
Definition pair_emits S (cnt : Z) : list (Z * Z * W) :=
  flat_map (fun i => map (fun ab => (fst ab, snd ab, wone)) (pairs (S i))) (seqZ 0 cnt).

(** How many items have both [a] and [b]. *)
Definition shared S (cnt a b : Z) : Z :=
  sumz (fun i => ind (bool_decide (a ∈ S i) && bool_decide (b ∈ S i))) cnt.

Lemma shared_sym S cnt a b : shared S cnt a b = shared S cnt b a.
Proof. apply sumz_ext. intros i _. by rewrite andb_comm. Qed.

Lemma shared_nonneg S cnt a b : 0 <= cnt -> 0 <= shared S cnt a b.
Proof. intros. apply (sumz_bound _ _ 1); [done|]. intros. apply ind_range. Qed.

Lemma weights_of_app (E1 E2 : list (Z * Z * W)) a b :
  weights_of (E1 ++ E2) a b = weights_of E1 a b ++ weights_of E2 a b.
Proof. unfold weights_of. by rewrite filter_app, map_app. Qed.

Lemma weights_of_pairs l a b :
  StronglySorted Z.lt l -> a < b ->
  weights_of (map (fun ab => (fst ab, snd ab, wone : W)) (pairs l)) a b =
  if decide (a ∈ l /\ b ∈ l) then [wone] else [].
Proof.
  intros Hs Hab. unfold weights_of.
  assert (forall L : list (Z * Z), map snd (filter (fun e => fst e = (a, b))
    (map (fun ab => (fst ab, snd ab, wone : W)) L)) = map (fun _ => wone) (filter (fun ab => ab = (a, b)) L)) as ->.
  { induction L as [|[x y] L IH]; [done|]. simpl. rewrite !filter_cons. simpl.
    repeat case_decide; simpl; congruence. }
  rewrite filter_eq_nodup by (by apply pairs_nodup).
  pose proof (pairs_elem l a b Hs) as Hin.
  destruct (decide ((a, b) ∈ pairs l)), (decide (a ∈ l /\ b ∈ l)); simpl; tauto || done.
Qed.

Lemma weights_pair_emits S cnt a b :
  0 <= cnt -> (forall i, 0 <= i < cnt -> StronglySorted Z.lt (S i)) -> a < b ->
  weights_of (pair_emits S cnt) a b = replicate (Z.to_nat (shared S cnt a b)) wone.
Proof.
  intros Hc HS Hab. apply (sumz_ind (fun k => weights_of (pair_emits S k) a b =
    replicate (Z.to_nat (shared S k a b)) wone)); [done|done|].
  intros k Hk IH. unfold pair_emits in *. rewrite seqZ_snoc, flat_map_app, weights_of_app, IH by lia.
  simpl. rewrite app_nil_r, weights_of_pairs by (done || apply HS; lia).
  assert (shared S (k + 1) a b = shared S k a b + ind (bool_decide (a ∈ S k) && bool_decide (b ∈ S k))) as ->
    by (apply sumz_succ; lia).
  pose proof (shared_nonneg S k a b ltac:(lia)).
  destruct (decide (a ∈ S k /\ b ∈ S k)) as [[Ha Hb]|Hno].
  - rewrite !bool_decide_true by done. simpl. rewrite Z2Nat.inj_add by lia.
    by rewrite replicate_add.
  - assert (bool_decide (a ∈ S k) && bool_decide (b ∈ S k) = false) as ->.
    { apply andb_false_iff. rewrite !bool_decide_eq_false. destruct (decide (a ∈ S k)); [right|left]; tauto. }
    simpl. by rewrite Z.add_0_r, app_nil_r.
Qed.

Lemma pair_emits_range S cnt n a b w :
  (forall i, 0 <= i < cnt -> StronglySorted Z.lt (S i) /\ forall x, x ∈ S i -> 0 <= x < n) ->
  (a, b, w) ∈ pair_emits S cnt -> 0 <= a < b /\ b < n.
Proof.
  intros HS. unfold pair_emits. rewrite list_elem_of_In, in_flat_map.
  intros (i & Hi%list_elem_of_In%elem_of_seqZ & Hin).
  apply in_map_iff in Hin as ([x y] & [= <- <- _] & Hin%list_elem_of_In).
  destruct (HS i ltac:(lia)) as [Hs Hr]. apply pairs_elem in Hin as (Hx & Hy & ?); [|done].
  pose proof (Hr x Hx). pose proof (Hr y Hy). simpl. lia.
Qed.

(** The sum of [k] ones, as the aggregator computes it. *)
Definition count_weight (k : Z) : W := wsum (replicate (Z.to_nat k) wone).

Definition shared_weight (keep : W -> bool) S (cnt u v : Z) : option W :=
  if u =? v then None
  else let k := shared S cnt u v in
       if (0 <? k) && keep (count_weight k) then Some (count_weight k) else None.

Lemma pair_weight_shared keep S cnt u v :
  0 <= cnt -> (forall i, 0 <= i < cnt -> StronglySorted Z.lt (S i)) ->
  pair_weight keep (pair_emits S cnt) u v = shared_weight keep S cnt u v.
Proof.
  intros Hc HS. unfold pair_weight, shared_weight. destruct (Z.eqb_spec u v) as [|Hne]; [done|].
  rewrite weights_pair_emits by (done || lia).
  assert (shared S cnt (Z.min u v) (Z.max u v) = shared S cnt u v) as ->.
  { destruct (Z.le_ge_cases u v).
    - by rewrite Z.min_l, Z.max_r by lia.
    - rewrite Z.min_r, Z.max_l by lia. apply shared_sym. }
  pose proof (shared_nonneg S cnt u v Hc). unfold count_weight.
  destruct (Z.ltb_spec 0 (shared S cnt u v)) as [Hpos|Hz].
  - destruct (Z.to_nat (shared S cnt u v)) eqn:E; [lia|]. by simpl.
  - assert (shared S cnt u v = 0) as -> by lia. done.
Qed.

(** A loop that folds one set of members per item into the aggregator. *)
Lemma pair_loop S cnt n (body : Z -> list (umap W) -> option (list (umap W))) :
  0 <= cnt -> 0 <= n ->
  (forall i, 0 <= i < cnt -> StronglySorted Z.lt (S i) /\ forall x, x ∈ S i -> 0 <= x < n) ->
  (forall i agg, 0 <= i < cnt ->
     body i agg = for_each (pairs (S i)) agg (fun '(a, b) agg => emit agg a b wone)) ->
  wp (for_range cnt (vnew n []) body) (aggregated n (pair_emits S cnt)).
Proof.
  intros Hc Hn HS Hbody.
  assert (for_range cnt (vnew n []) body = emit_all (vnew n []) (pair_emits S cnt)) as ->.
  { unfold for_range, emit_all, pair_emits. rewrite for_each_flat_map.
    apply for_each_ext. intros i agg Hi%elem_of_seqZ. rewrite Hbody, for_each_map by lia.
    by apply for_each_ext; intros [a b] ? _. }
  apply emit_all_ok; [done|]. intros a b w Hin. eapply pair_emits_range in Hin; [|done]. lia.
Qed.
End sharing.

(** ** The country index *)

Section countries.
Context (g : StorageReadInterface) (org_label : Z) (cc_col : Z -> string) (num_orgs : Z).
Context (Hnum : 0 <= num_orgs <= INT_MAX).

(** The country code an organisation counts for. *)
Definition org_country (i : Z) : option string :=
  if IsValidVertex g org_label i
  then if decide (cc_col i = EmptyString) then None else Some (cc_col i)
  else None.

(** The index after the first [i] organisations: a bijection between the codes
    seen and [0 .. size - 1], in order of first appearance. *)
Record countries_inv (i : Z) (ci : country_index) : Prop := {
  cv_len : vlen (org_to_cidx ci) = num_orgs;
  cv_size : Z.of_nat (size (cc_to_idx ci)) = vlen (cc_list ci);
  cv_bound : vlen (cc_list ci) <= i;
  cv_nodup : NoDup (cc_list ci);
  cv_index cc k : cc_to_idx ci !! cc = Some k <-> 0 <= k < vlen (cc_list ci) /\ vat (cc_list ci) k = cc;
  cv_codes cc : cc ∈ cc_list ci <-> exists j, 0 <= j < i /\ org_country j = Some cc;
  cv_org j : 0 <= j < i -> forall k, 0 <= k < vlen (cc_list ci) ->
    (vat (org_to_cidx ci) j = k <-> org_country j = Some (vat (cc_list ci) k));
  cv_none j : 0 <= j < num_orgs -> i <= j \/ org_country j = None -> vat (org_to_cidx ci) j = -1;
  cv_range j : 0 <= j < num_orgs -> -1 <= vat (org_to_cidx ci) j < vlen (cc_list ci)
}.

Lemma vat_snoc_old {A} `{Inhabited A} (l : list A) x k : 0 <= k < vlen l -> vat (l ++ [x]) k = vat l k.
Proof. intros Hk. unfold vat, vlen in *. apply lookup_total_app_l. lia. Qed.

Lemma vat_snoc_new {A} `{Inhabited A} (l : list A) x : vat (l ++ [x]) (vlen l) = x.
Proof. unfold vat, vlen. rewrite Nat2Z.id. apply list_lookup_total_correct. by rewrite list_lookup_middle. Qed.

Lemma index_org_ok i ci :
  0 <= i < num_orgs -> countries_inv i ci ->
  wp (index_org g org_label cc_col i ci) (countries_inv (i + 1)).
Proof using Hnum.
  intros Hi [Hl Hsz Hb Hnd Hix Hco Horg Hno Hr]. unfold index_org.
  rewrite (to_u32_nat i) by lia.
  assert (forall c, org_country i = c ->
    (c = None -> countries_inv (i + 1) ci)) as Hskip.
  { intros c Hc ->. split; try done; [lia|..].
    - intros cc. rewrite Hco. split; intros (j & Hj & Hjc); exists j; (split; [|done]); [lia|].
      destruct (decide (j = i)) as [->|]; [congruence|lia].
    - intros j Hj k Hk. destruct (decide (j = i)) as [->|]; [|apply Horg; [lia|done]].
      rewrite Hc, (Hno i) by (auto || lia). split; [lia|done].
    - intros j Hj Hcase. apply Hno; [done|]. destruct Hcase as [?|?]; [left; lia|by right]. }
  destruct (IsValidVertex g org_label i) eqn:Hv; simpl.
  2: { apply (Hskip None); [|done]. unfold org_country. by rewrite Hv. }
  destruct (decide (cc_col i = EmptyString)) as [He|He]; simpl.
  { apply (Hskip None); [|done]. unfold org_country. by rewrite Hv, decide_True. }
  clear Hskip.
  assert (org_country i = Some (cc_col i)) as Hc by (unfold org_country; by rewrite Hv, decide_False).
  set (cc := cc_col i) in *.
  destruct (cc_to_idx ci !! cc) as [k|] eqn:Hk.
  - destruct (proj1 (Hix cc k) Hk) as [Hkr Hkc]. wsteps.
    split; simpl; try done; [by rewrite vlen_vput|lia|..].
    + intros c. rewrite Hco. split; intros (j & Hj & Hjc); [exists j; split; [lia|done]|].
      destruct (decide (j = i)) as [->|]; [|exists j; split; [lia|done]].
      assert (c ∈ cc_list ci) as Hin; [|by apply Hco in Hin].
      assert (c = cc) as -> by congruence. rewrite <-Hkc. unfold vat, vlen in *.
      apply list_elem_of_lookup_total_2. lia.
    + intros j Hj k' Hk'. rewrite vat_vput by lia. case_decide as E; [subst j|apply Horg; [lia|done]].
      rewrite Hc. split; [intros ->; by rewrite Hkc|]. intros [= E].
      assert (cc_to_idx ci !! cc = Some k') by (apply Hix; by split). congruence.
    + intros j Hj Hcase. rewrite vat_vput by lia. case_decide as E.
      * subst. destruct Hcase; [lia|congruence].
      * apply Hno; [done|]. destruct Hcase; [left; lia|by right].
    + intros j Hj. rewrite vat_vput by lia. case_decide; [lia|]. by apply Hr.
  - assert (cc ∉ cc_list ci) as Hfresh.
    { intros Hin. apply list_elem_of_lookup_1 in Hin as [k Hin].
      assert (cc_to_idx ci !! cc = Some (Z.of_nat k)); [|congruence].
      apply Hix. unfold vlen, vat. pose proof (lookup_lt_Some _ _ _ Hin).
      split; [lia|]. rewrite Nat2Z.id. by apply list_lookup_total_correct. }
    rewrite Hsz, to_int_small by vlia. wsteps.
    pose proof (vlen_nonneg (cc_list ci)) as Hpos.
    assert (vlen (cc_list ci ++ [cc]) = vlen (cc_list ci) + 1) as Hl1 by (rewrite vlen_app; done).
    split; simpl; rewrite ?Hl1; [by rewrite vlen_vput| |lia|..].
    + rewrite map_size_insert_None by done. lia.
    + apply NoDup_app. split_and!; [done|set_solver|apply NoDup_singleton].
    + intros c k. rewrite lookup_insert_Some, Hix. split.
      * intros [[<- <-]|(Hne & Hkr & <-)]; [split; [lia|apply vat_snoc_new]|].
        split; [lia|]. by rewrite vat_snoc_old.
      * intros [Hkr <-]. destruct (decide (k = vlen (cc_list ci))) as [->|].
        -- left. by rewrite vat_snoc_new.
        -- right. rewrite vat_snoc_old by lia. split_and!; [|lia..|done]. intros E. apply Hfresh.
           rewrite E. unfold vat, vlen in *. apply list_elem_of_lookup_total_2. lia.
    + intros c. rewrite elem_of_app, list_elem_of_singleton, Hco. split.
      * intros [(j & Hj & ?)| ->]; [exists j|exists i]; (split; [lia|done]).
      * intros (j & Hj & Hjc). destruct (decide (j = i)) as [->|]; [right; congruence|].
        left. exists j. split; [lia|done].
    + intros j Hj k Hk'. rewrite vat_vput by lia. case_decide as E.
      * subst j. rewrite Hc. destruct (decide (k = vlen (cc_list ci))) as [->|].
        -- by rewrite vat_snoc_new.
        -- rewrite vat_snoc_old by lia. split; [lia|]. intros [= E]. destruct Hfresh. rewrite E.
           unfold vat, vlen in *. apply list_elem_of_lookup_total_2. lia.
      * destruct (decide (k = vlen (cc_list ci))) as [->|].
        -- rewrite vat_snoc_new. pose proof (Hr j ltac:(lia)). split; [lia|].
           intros Hjc. destruct Hfresh. apply Hco. exists j. split; [lia|done].
        -- rewrite vat_snoc_old by lia. apply Horg; lia.
    + intros j Hj Hcase. rewrite vat_vput by lia. case_decide as E.
      * subst. destruct Hcase; [lia|congruence].
      * apply Hno; [done|]. destruct Hcase; [left; lia|by right].
    + intros j Hj. rewrite vat_vput by lia. case_decide; [lia|]. pose proof (Hr j Hj). lia.
Qed.

Lemma index_countries_ok :
  wp (index_countries g org_label cc_col num_orgs) (countries_inv num_orgs).
Proof using Hnum.
  apply (wp_for_range countries_inv); [lia| |intros; by apply index_org_ok|done].
  split; simpl; try done || lia.
  - apply vlen_vnew. lia.
  - constructor.
  - intros cc k. rewrite lookup_empty. split; [done|]. unfold vlen. simpl. lia.
  - intros cc. split; [by intros ?%elem_of_nil|]. intros (j & ? & _). lia.
  - intros j Hj _. rewrite vat_vnew; lia.
  - intros j Hj. rewrite vat_vnew; unfold vlen; simpl; lia.
Qed.
End countries.

(** ** The countries of a publication *)

Section publications.
Context (g : StorageReadInterface) (pub_label org_label e_label : Z).
Let num_pubs := GetVertexSet_size g pub_label.
Let num_orgs := GetVertexSet_size g org_label.
Context (Hstore : store_ok g) (Hnum : num_orgs <= INT_MAX).

Definition pub_orgs (i : Z) : list Z :=
  filter (fun o => o < GetVertexSet_size g org_label) (get_edges g pub_label org_label e_label i).

Lemma pub_orgs_range i o : o ∈ pub_orgs i -> 0 <= o < num_orgs.
Proof using Hstore.
  unfold pub_orgs. rewrite list_elem_of_filter. intros [? Hin].
  apply (so_edges _ Hstore) in Hin. unfold num_orgs. lia.
Qed.

Lemma collect_countries_ok cidx i :
  vlen cidx = num_orgs ->
  wp (collect_countries num_orgs cidx (get_edges g pub_label org_label e_label i))
    (fun '(orgs, cvec) => orgs = list_to_set (pub_orgs i) /\
      forall k, k ∈ cvec <-> 0 <= k /\ exists o, o ∈ pub_orgs i /\ vat cidx o = k).
Proof using Hstore Hnum.
  intros Hl.
  apply (wp_for_each (fun dn '(orgs, cvec) =>
    orgs = list_to_set (filter (fun o => o < num_orgs) dn) /\
    forall k, k ∈ cvec <-> 0 <= k /\ exists o, o ∈ filter (fun o => o < num_orgs) dn /\ vat cidx o = k));
    [| |by intros [? ?]].
  { split; [done|]. intros k. rewrite filter_nil. setoid_rewrite elem_of_nil. naive_solver. }
  intros dn o rest [orgs cvec] Hs [-> Hc].
  assert (0 <= o < 2 ^ 32) as Ho by (apply (so_edges _ Hstore pub_label org_label e_label i); rewrite Hs; set_solver).
  destruct (Z.leb_spec num_orgs o).
  { wsteps. rewrite filter_app, filter_cons_False, filter_nil, app_nil_r by lia. done. }
  rewrite to_int_small by vlia.
  assert (filter (fun o => o < num_orgs) (dn ++ [o]) = filter (fun o => o < num_orgs) dn ++ [o]) as ->
    by (by rewrite filter_app, filter_cons_True, filter_nil by lia).
  destruct (decide _) as [Hin|Hnin]; rewrite elem_of_list_to_set in *.
  - wsteps. split; [rewrite list_to_set_app_L; simpl; set_solver|].
    intros k. rewrite Hc. setoid_rewrite elem_of_app. setoid_rewrite list_elem_of_singleton. naive_solver.
  - wsteps. split; [rewrite list_to_set_app_L; simpl; set_solver|]. intros k.
    setoid_rewrite elem_of_app. setoid_rewrite list_elem_of_singleton.
    destruct (Z.ltb_spec (vat cidx o) 0); rewrite ?elem_of_app, ?list_elem_of_singleton, Hc; naive_solver lia.
Qed.

Lemma pub_orgs_count i : Z.of_nat (size (list_to_set (pub_orgs i) : gset Z)) <= num_orgs.
Proof using Hstore.
  assert ((list_to_set (pub_orgs i) : gset Z) ⊆ list_to_set (seqZ 0 num_orgs)) as Hsub.
  { intros o. rewrite !elem_of_list_to_set, elem_of_seqZ. intros ?%pub_orgs_range. lia. }
  apply subseteq_size in Hsub. rewrite (size_list_to_set (seqZ 0 num_orgs)) in Hsub by apply NoDup_seqZ.
  rewrite length_seqZ in Hsub. pose proof (so_size _ Hstore org_label). unfold num_orgs in *. lia.
Qed.

Context (cc_col : Z -> string) (year_col : Z -> Z) (year_min year_max max_orgs : Z).

(** Inside the year window (when there is one) and not a mega-collaboration. *)
Definition pub_accepted (i : Z) : bool :=
  IsValidVertex g pub_label i &&
  (negb (year_min <=? year_max) || ((year_min <=? year_col i) && (year_col i <=? year_max))) &&
  (negb (0 <? max_orgs) || (Z.of_nat (size (list_to_set (pub_orgs i) : gset Z)) <=? max_orgs)).

Definition pub_in_country (i : Z) (cc : string) : bool :=
  existsb (fun o => bool_decide (org_country g org_label cc_col o = Some cc)) (pub_orgs i).

(** The code's country set is the set of the codes of the publication. *)
Lemma pub_country_set_ok ci i :
  0 <= i < num_pubs -> countries_inv g org_label cc_col num_orgs num_orgs ci ->
  wp (pub_country_set g pub_label org_label e_label year_col year_min year_max max_orgs num_orgs
        (org_to_cidx ci) i)
    (fun l => StronglySorted Z.lt l /\ forall k, k ∈ l <->
      0 <= k < vlen (cc_list ci) /\ pub_accepted i = true /\ pub_in_country i (vat (cc_list ci) k) = true).
Proof using Hstore Hnum.
  intros Hi Hci. unfold pub_country_set.
  pose proof (so_size _ Hstore pub_label : 0 <= num_pubs < _). rewrite (to_u32_small i) by lia.
  assert (pub_accepted i = false -> wp (Some []) (fun l => StronglySorted Z.lt l /\ forall k, k ∈ l <->
      0 <= k < vlen (cc_list ci) /\ pub_accepted i = true /\ pub_in_country i (vat (cc_list ci) k) = true)) as Hskip.
  { intros Hno. simpl. split; [constructor|]. intros k. rewrite elem_of_nil. split; [done|]. rewrite Hno. naive_solver. }
  assert (pub_accepted i = IsValidVertex g pub_label i &&
    negb ((year_min <=? year_max) && ((year_col i <? year_min) || (year_max <? year_col i))) &&
    negb ((0 <? max_orgs) && (max_orgs <? Z.of_nat (size (list_to_set (pub_orgs i) : gset Z))))) as Hacc.
  { unfold pub_accepted. by rewrite !negb_andb, negb_orb, !Z.ltb_antisym, !negb_involutive. }
  destruct (IsValidVertex g pub_label i) eqn:Hv; simpl in *; [|by apply Hskip].
  destruct ((year_min <=? year_max) && _); simpl in *; [by apply Hskip|].
  apply wp_bind. eapply wp_mono; [apply collect_countries_ok; apply Hci|]. intros [orgs cvec] [-> Hc].
  pose proof (pub_orgs_count i). rewrite to_int_small by (split; vlia).
  destruct ((0 <? max_orgs) && _) eqn:Hmax; simpl in *; [by apply Hskip|].
  rewrite Hacc in Hskip |- *. clear Hskip Hacc Hmax.
  assert (forall k, k ∈ cvec <-> 0 <= k < vlen (cc_list ci) /\ true = true /\
    pub_in_country i (vat (cc_list ci) k) = true) as Hcs.
  { intros k. rewrite Hc. unfold pub_in_country. setoid_rewrite existsb_exists. split.
    - intros (Hk & o & Ho & Hko). pose proof (pub_orgs_range i o Ho) as Hor.
      pose proof (cv_range _ _ _ _ _ _ Hci o Hor). split_and!; [lia..|].
      exists o. split; [by apply list_elem_of_In|]. apply bool_decide_eq_true.
      apply (cv_org _ _ _ _ _ _ Hci o Hor k); [lia|done].
    - intros (Hk & _ & o & Ho%list_elem_of_In & Hko%bool_decide_eq_true).
      split; [lia|]. exists o. split; [done|].
      by apply (cv_org _ _ _ _ _ _ Hci o (pub_orgs_range i o Ho) k). }
  destruct cvec as [|c cvec]; [by split; [constructor|]|].
  split; [apply sort_unique_sorted|]. intros k. by rewrite sort_unique_elem.
Qed.
End publications.

(** ** The co-author graph of countries *)

Section coauthor.
Context {W : Type} `{!Arith W} `{!HashOrder}.

Lemma finish_country_graph_ok (keep : W -> bool) n E agg codes :
  0 <= n < 2 ^ 32 -> aggregated n E agg -> (forall a b w, (a, b, w) ∈ E -> 0 <= a < b /\ b < n) ->
  vlen codes = n ->
  wp (finish_country_graph keep n agg codes) (fun c =>
    num_vertex_ c = n /\ aggregate_keys_ c = codes /\ weighted_graph n (pair_weight keep E) (adj_ c) /\
    vlen (global_to_local_ c) = n /\ forall i, 0 <= i < n -> vat (global_to_local_ c) i = (NO_LABEL, i)).
Proof.
  intros Hn Hagg HE Hl. unfold finish_country_graph. apply wp_bind.
  eapply wp_mono; [apply (materialize_graph _ _ E); [lia|done|done]|]. intros [adj total] [Hg _]. apply wp_bind.
  apply (wp_for_range (fun k '(ids, keys) => vlen ids = n /\ vlen keys = n /\
    forall i, 0 <= i < k -> vat ids i = (NO_LABEL, i) /\ vat keys i = vat codes i)); [lia| | |].
  - split_and!; [by apply vlen_vnew; lia..|lia].
  - intros k [ids keys] Hk (Hi & Hkl & Hf). wsteps. split_and!; [vlia..|]. intros i Hik.
    rewrite !vat_vput by lia. case_decide; [|apply Hf; lia]. subst.
    split; [|done]. by rewrite to_u32_small by lia.
  - intros [ids keys] (Hi & Hkl & Hf). wsteps. simpl. split_and!; try done.
    + apply vat_ext; [lia|]. intros i Hir. apply Hf. lia.
    + intros i Hir. by apply Hf.
Qed.

Context (g : StorageReadInterface) (pub_label org_label e_label : Z) (cc_col : Z -> string) (year_col : Z -> Z).
Let num_pubs := GetVertexSet_size g pub_label.
Let num_orgs := GetVertexSet_size g org_label.
Context (Hstore : store_ok g) (Hnum : num_orgs <= INT_MAX).
Context (year_min year_max max_orgs : Z).

Abbreviation accepted := (pub_accepted g pub_label org_label e_label year_col year_min year_max max_orgs).
Abbreviation in_country := (pub_in_country g pub_label org_label e_label cc_col).

(** Accepted publications with authors in both countries. *)
Definition copubs (cc1 cc2 : string) : Z :=
  sumz (fun i => ind (accepted i && in_country i cc1 && in_country i cc2)) (GetVertexSet_size g pub_label).

(** The weight of two different countries. *)
Definition copub_weight (keep : W -> bool) (codes : list string) (u v : Z) : option W :=
  if u =? v then None
  else let k := copubs (vat codes u) (vat codes v) in
       if (0 <? k) && keep (count_weight k) then Some (count_weight k) else None.

(** The vertices are the country codes in use, each once. *)
Record country_vertices (c : computer W) : Prop := {
  cg_nodup : NoDup (aggregate_keys_ c);
  cg_codes cc : cc ∈ aggregate_keys_ c <->
    exists o, 0 <= o < GetVertexSet_size g org_label /\ org_country g org_label cc_col o = Some cc;
  cg_num : num_vertex_ c = vlen (aggregate_keys_ c);
  cg_bound : num_vertex_ c <= GetVertexSet_size g org_label;
  cg_ids_len : vlen (global_to_local_ c) = num_vertex_ c;
  cg_ids i : 0 <= i < num_vertex_ c -> vat (global_to_local_ c) i = (NO_LABEL, i)
}.

Lemma no_countries ci :
  countries_inv g org_label cc_col num_orgs num_orgs ci -> vlen (cc_list ci) = 0 ->
  country_vertices fresh_computer /\ forall wt, weighted_graph 0 wt (adj_ (W := W) fresh_computer).
Proof using Hstore num_pubs.
  intros Hci Hz. pose proof (so_size _ Hstore org_label). destruct (cc_list ci) eqn:E; [|unfold vlen in Hz; simpl in Hz; lia]. split; [split|split];
    simpl; try done || lia.
  - constructor.
  - intros cc. pose proof (cv_codes _ _ _ _ _ _ Hci cc) as Hc. rewrite E in Hc. exact Hc.
Qed.

Lemma coauthor_body keep :
  wp (ci ← index_countries g org_label cc_col num_orgs;
      let num_countries := to_int (Z.of_nat (size (cc_to_idx ci))) in
      if num_countries =? 0 then Some fresh_computer
      else
        agg ← coauthor_aggregate num_pubs num_countries
          (pub_country_set g pub_label org_label e_label year_col year_min year_max max_orgs
             num_orgs (org_to_cidx ci));
        finish_country_graph keep num_countries agg (cc_list ci))
    (fun c => country_vertices c /\
      weighted_graph (num_vertex_ c) (copub_weight keep (aggregate_keys_ c)) (adj_ c)).
Proof using Hstore Hnum.
  pose proof (so_size _ Hstore org_label) as Horgs. fold num_orgs in Horgs.
  pose proof (so_size _ Hstore pub_label) as Hpubs. fold num_pubs in Hpubs.
  apply wp_bind. eapply wp_mono; [apply index_countries_ok; lia|]. intros ci Hci.
  pose proof (cv_bound _ _ _ _ _ _ Hci) as Hbound. pose proof (vlen_nonneg (cc_list ci)).
  rewrite (cv_size _ _ _ _ _ _ Hci), to_int_small by vlia. cbv zeta.
  destruct (Z.eqb_spec (vlen (cc_list ci)) 0) as [Hz|Hnz].
  { wsteps. destruct (no_countries ci Hci Hz). by split. }
  set (n := vlen (cc_list ci)) in *.
  set (S i := default [] (pub_country_set g pub_label org_label e_label year_col year_min year_max
    max_orgs num_orgs (org_to_cidx ci) i)).
  assert (forall i, 0 <= i < num_pubs -> pub_country_set g pub_label org_label e_label year_col
    year_min year_max max_orgs num_orgs (org_to_cidx ci) i = Some (S i) /\ StronglySorted Z.lt (S i) /\
    forall k, k ∈ S i <-> 0 <= k < n /\ accepted i = true /\ in_country i (vat (cc_list ci) k) = true) as HS.
  { intros i Hi. pose proof (pub_country_set_ok g pub_label org_label e_label Hstore Hnum cc_col year_col
      year_min year_max max_orgs ci i Hi Hci) as Hwp.
    apply wp_exists in Hwp as (l & Hl & ? & ?). fold num_orgs in Hl. unfold S. rewrite Hl. by split_and!. }
  assert (forall i, 0 <= i < num_pubs -> StronglySorted Z.lt (S i) /\ forall x, x ∈ S i -> 0 <= x < n) as HSr.
  { intros i Hi. destruct (HS i Hi) as (_ & Hs & Hin). split; [done|]. intros x Hx. by apply Hin. }
  apply wp_bind. eapply wp_mono; [apply (pair_loop S); [lia|lia|done|]|].
  { intros i agg Hi. destruct (HS i Hi) as (-> & _). simpl.
    destruct (S i) as [|x [|y l]]; simpl; try done. unfold vlen. simpl.
    rewrite (proj2 (Z.ltb_ge _ _)) by lia. done. }
  intros agg Hagg. eapply wp_mono; [eapply finish_country_graph_ok; [vlia|done| |done]|].
  { intros a b w Hin. eapply pair_emits_range; [|done]. done. }
  intros c (Hcn & Hck & Hcg & Hci1 & Hci2). split.
  - split; rewrite ?Hck, ?Hcn; try done; apply Hci.
  - rewrite Hcn, Hck. destruct Hcg as [Hl Hnd Hrow]. split; [done..|].
    intros u v w Hu. rewrite Hrow by done.
    rewrite pair_weight_shared by (lia || by intros; apply HSr).
    assert (0 <= v < n -> shared_weight keep S num_pubs u v = copub_weight keep (cc_list ci) u v) as Heq.
    { intros Hv. unfold shared_weight, copub_weight. destruct (u =? v); [done|].
      assert (shared S num_pubs u v = copubs (vat (cc_list ci) u) (vat (cc_list ci) v)) as ->; [|done].
      apply sumz_ext. intros i Hi. f_equal. destruct (HS i Hi) as (_ & _ & Hin).
      apply eq_true_iff_eq. rewrite !andb_true_iff, !bool_decide_eq_true, !Hin. tauto. }
    split; intros [Hv Hw]; (split; [done|]); rewrite ?Heq in *; done.
Qed.
End coauthor.
