(* ===== verification/HostingCorrect.v ===== *)
(** * Correctness of the hosting projections

    The datasource projection of Louvain (datasources that host the same
    publications) and the organisation projection of k-core (organisations in
    the same projects).  Both scan one edge label, invert it, drop the vertices
    below a threshold and count shared items. *)
From S2P Require Import Prelude Num Storage KCore GraphBuild Aggregate Projection KcoreCompute.
From S2P Require Import ProjectionCorrect.
From stdpp Require Import sorting.
#[local] Open Scope Z_scope.

(** ** Counting *)

Lemma filter_seqZ_count (f : Z -> bool) n :
  0 <= n -> vlen (filter (fun x => f x = true) (seqZ 0 n)) = sumz (fun x => ind (f x)) n.
Proof.
  intros Hn. apply (sumz_ind (fun k => vlen (filter (fun x => f x = true) (seqZ 0 k)) =
    sumz (fun x => ind (f x)) k)); [done|done|].
  intros k Hk IH. rewrite seqZ_snoc, filter_app, vlen_app, IH, sumz_succ by lia. f_equal.
  rewrite filter_cons. by destruct (f k).
Qed.

Lemma filter_fmap {A B} (f : A -> B) (P : B -> Prop) `{!forall x, Decision (P x)} (l : list A) :
  filter P (f <$> l) = f <$> filter (fun x => P (f x)) l.
Proof.
  induction l as [|x l IH]; [done|]. rewrite fmap_cons, !filter_cons, IH.
  by destruct (decide (P (f x))).
Qed.

(** A duplicate-free list of the elements of [0, n) that satisfy [f]. *)
Definition lists (f : Z -> bool) (n : Z) (l : list Z) : Prop :=
  NoDup l /\ forall x, x ∈ l <-> 0 <= x < n /\ f x = true.

Lemma lists_perm f n l : lists f n l -> l ≡ₚ filter (fun x => f x = true) (seqZ 0 n).
Proof.
  intros [Hnd Hin]. apply NoDup_Permutation; [done|apply NoDup_filter, NoDup_seqZ|].
  intros x. rewrite Hin, list_elem_of_filter, elem_of_seqZ. naive_solver lia.
Qed.

Lemma lists_count f n l : 0 <= n -> lists f n l -> vlen l = sumz (fun x => ind (f x)) n.
Proof.
  intros Hn Hl. rewrite <-filter_seqZ_count by done. unfold vlen. by rewrite (lists_perm f n l).
Qed.

Lemma filter_seqZ_sorted (P : Z -> Prop) `{!forall x, Decision (P x)} m n :
  StronglySorted Z.lt (filter P (seqZ m n)).
Proof.
  destruct (decide (0 <= n)) as [Hn|].
  2: { replace n with (Z.of_nat 0 - Z.of_nat (Z.to_nat (- n))) by lia. rewrite seqZ_nil by lia. constructor. }
  revert m. pattern n. apply natlike_ind; [constructor| |done]. intros k Hk IH m.
  rewrite seqZ_cons, Z.pred_succ by lia. rewrite filter_cons. case_decide; [|done].
  constructor; [done|]. apply Forall_forall. intros x [_ Hx%elem_of_seqZ]%list_elem_of_filter. lia.
Qed.

Lemma sorted_ext (l1 l2 : list Z) :
  StronglySorted Z.lt l1 -> StronglySorted Z.lt l2 -> (forall x, x ∈ l1 <-> x ∈ l2) -> l1 = l2.
Proof.
  intros H1 H2 Hin. assert (AntiSymm eq Z.lt) by (intros x y; lia). apply (StronglySorted_unique Z.lt); [done|done|].
  apply NoDup_Permutation; auto using strictly_sorted_nodup.
Qed.

(** ** The distinct in-window targets of an edge list *)

Lemma hosted_ok num mask edges :
  0 <= num <= INT_MAX -> vlen mask = num -> (forall x, x ∈ edges -> 0 <= x) ->
  wp (hosted num mask edges) (lists (fun x => vat mask x && bool_decide (x ∈ edges)) num).
Proof.
  intros Hn Hl He. unfold hosted. apply wp_bind.
  apply (wp_for_each (fun dn '(seen, out) => (seen : gset Z) = list_to_set out /\
    lists (fun x => vat mask x && bool_decide (x ∈ dn)) num out)).
  - split; [done|]. split; [constructor|]. intros x.
    rewrite bool_decide_false, andb_false_r by apply not_elem_of_nil. rewrite elem_of_nil. naive_solver.
  - intros dn x rest [seen out] Hs [-> [Hnd Hin]].
    assert (0 <= x) as Hx by (apply He; rewrite Hs; set_solver).
    assert (forall y, bool_decide (y ∈ dn ++ [x]) = bool_decide (y ∈ dn) || bool_decide (y = x)) as Happ.
    { intros y. rewrite <-bool_decide_or. apply bool_decide_ext. set_solver. }
    assert (vat mask x = false \/ num <= x \/ x ∈ out ->
      lists (fun y => vat mask y && bool_decide (y ∈ dn ++ [x])) num out) as Hsame.
    { intros Hcase. split; [done|]. intros y. rewrite Hin, Happ.
      destruct (decide (y = x)) as [->|]; [|by rewrite (bool_decide_false (y = x)), orb_false_r].
      rewrite (bool_decide_true (x = x)), orb_true_r, andb_true_r by done. split.
      - intros [? ?%andb_true_iff]. tauto.
      - intros [? Hm]. destruct Hcase as [?|[?|Hout]]; [congruence|lia|by apply Hin in Hout]. }
    destruct (Z.leb_spec num x); wsteps; [by auto|].
    destruct (vat mask x) eqn:Hm; simpl; [|by auto]. rewrite to_int_small by vlia.
    destruct (decide (x ∈ list_to_set out)) as [Hout|Hout]; rewrite elem_of_list_to_set in Hout; [by split; [|apply Hsame; auto]|].
    split; [rewrite list_to_set_app_L; simpl; set_solver|]. split.
    + apply NoDup_app. split_and!; [done|set_solver|apply NoDup_singleton].
    + intros y. rewrite elem_of_app, list_elem_of_singleton, Hin, Happ.
      destruct (decide (y = x)) as [->|].
      * rewrite (bool_decide_true (x = x)), orb_true_r, Hm by done. naive_solver lia.
      * rewrite (bool_decide_false (y = x)), orb_false_r by done. naive_solver.
  - intros [seen out] [_ Hout]. wsteps. done.
Qed.

(** A mask computed entry by entry. *)
Lemma mask_loop n (f : Z -> bool) (body : Z -> list bool -> option (list bool)) :
  0 <= n ->
  (forall i mask, 0 <= i < n -> vlen mask = n -> vat mask i = false ->
     body i mask = if f i then vset mask i true else Some mask) ->
  wp (for_range n (vnew n false) body) (fun mask => vlen mask = n /\
    forall i, 0 <= i < n -> vat mask i = f i).
Proof.
  intros Hn Hbody. apply (wp_for_range (fun k mask => vlen mask = n /\
    forall i, 0 <= i < n -> vat mask i = (i <? k) && f i)); [done| | |].
  - split; [by apply vlen_vnew|]. intros i Hi. rewrite vat_vnew by done. destruct (Z.ltb_spec i 0); [lia|done].
  - intros k mask Hk [Hl Hm]. rewrite Hbody; [|done|done|].
    2: { rewrite Hm by done. by destruct (Z.ltb_spec k k); [lia|]. }
    assert (forall i, (i <? k + 1) = (i <? k) || (i =? k)) as Hlt.
    { intros i. destruct (Z.ltb_spec i (k + 1)), (Z.ltb_spec i k), (Z.eqb_spec i k); done || lia. }
    destruct (f k) eqn:Hf; wsteps; (split; [vlia|]); intros i Hi; rewrite Hlt.
    + rewrite vat_vput, Hm by lia. case_decide as E.
      * subst. by rewrite Z.eqb_refl, orb_true_r, Hf.
      * destruct (Z.eqb_spec i k); [lia|]. by rewrite orb_false_r.
    + rewrite Hm by done. destruct (Z.eqb_spec i k) as [->|]; [|by rewrite orb_false_r].
      by rewrite Hf, !andb_false_r.
  - intros mask [Hl Hm]. split; [done|]. intros i Hi. rewrite Hm by done.
    by rewrite (proj2 (Z.ltb_lt _ _)) by lia.
Qed.

Lemma edges_nonneg g s d e v x : store_ok g -> x ∈ get_edges g s d e v -> 0 <= x.
Proof. intros Hs Hin. apply (so_edges _ Hs) in Hin. lia. Qed.

(** ** Datasources that host the same publications *)

Section datasources.
Context {W : Type} `{!Arith W} `{!HashOrder}.
Context (g : StorageReadInterface) (ds_label pub_label e_label : Z) (year_col : Z -> Z).
Context (year_min year_max min_pubs : Z).
Let num_pubs := GetVertexSet_size g pub_label.
Let num_ds := GetVertexSet_size g ds_label.
Context (Hstore : store_ok g) (Hpubs : num_pubs <= INT_MAX) (Hds : num_ds <= INT_MAX).

Definition in_window (p : Z) : bool :=
  IsValidVertex g pub_label p &&
  (negb (year_min <=? year_max) || ((year_min <=? year_col p) && (year_col p <=? year_max))).

(** Datasource [d] hosts the in-window publication [p]. *)
Definition hosts (d p : Z) : bool :=
  IsValidVertex g ds_label d && (in_window p && bool_decide (p ∈ get_edges g ds_label pub_label e_label d)).
Definition host_count (d : Z) : Z := sumz (fun p => ind (hosts d p)) (GetVertexSet_size g pub_label).

(** The datasources that become vertices. *)
Definition kept_datasources : list Z :=
  filter (fun d => (min_pubs <=? host_count d) && negb (host_count d =? 0) = true)
    (seqZ 0 (GetVertexSet_size g ds_label)).

(** Publications hosted by both, unless hosted by more than the cap. *)
Definition cohosted (d1 d2 : Z) : Z :=
  sumz (fun p => ind (hosts d1 p && hosts d2 p &&
    (vlen (filter (fun d => hosts d p = true) kept_datasources) <=? kPubDsCap)))
    (GetVertexSet_size g pub_label).

Lemma sizes_nonneg : 0 <= num_pubs /\ 0 <= num_ds.
Proof using Hstore.
  pose proof (so_size _ Hstore pub_label). pose proof (so_size _ Hstore ds_label).
  unfold num_pubs, num_ds. lia.
Qed.

Lemma pubs_in_window_ok :
  wp (pubs_in_window g pub_label num_pubs year_min year_max year_col) (fun mask =>
    vlen mask = num_pubs /\ forall p, 0 <= p < num_pubs -> vat mask p = in_window p).
Proof using Hstore Hpubs num_ds.
  pose proof (so_size _ Hstore pub_label : 0 <= num_pubs < _) as Hp. apply mask_loop; [lia|]. intros p mask Hpr _ _. unfold in_window.
  rewrite (to_u32_nat p) by lia.
  rewrite !Z.leb_antisym, negb_involutive.
  destruct (IsValidVertex g pub_label p); simpl; [|done].
  destruct (year_max <? year_min); simpl; [done|].
  by destruct (year_col p <? year_min), (year_max <? year_col p).
Qed.

Lemma datasource_pubs_ok mask :
  vlen mask = num_pubs -> (forall p, 0 <= p < num_pubs -> vat mask p = in_window p) ->
  wp (datasource_pubs g ds_label pub_label e_label num_pubs num_ds mask) (fun rows =>
    vlen rows = num_ds /\ forall d, 0 <= d < num_ds -> lists (hosts d) num_pubs (vat rows d)).
Proof using Hstore Hpubs Hds.
  intros Hl Hm. pose proof sizes_nonneg as [Hp Hd].
  assert (forall d, IsValidVertex g ds_label d = false -> lists (hosts d) num_pubs []) as Hempty.
  { intros d Hv. split; [constructor|]. intros p. unfold hosts. rewrite Hv, elem_of_nil. naive_solver. }
  apply (wp_for_range (fun k rows => vlen rows = num_ds /\
    (forall d, k <= d < num_ds -> vat rows d = []) /\
    forall d, 0 <= d < k -> lists (hosts d) num_pubs (vat rows d))); [done| | |naive_solver].
  - split_and!; [by apply vlen_vnew|intros; by rewrite vat_vnew by lia|lia].
  - intros k rows Hk (Hr & Hnil & Hf).
    rewrite (to_u32_nat k) by lia.
    destruct (IsValidVertex g ds_label k) eqn:Hv; simpl.
    + apply wp_bind. eapply wp_mono; [apply hosted_ok; [lia|done|]|].
      { intros x. by apply edges_nonneg. }
      intros l [Hnd Hin]. wsteps. split_and!; [vlia|intros; rewrite vat_vput_ne by lia; apply Hnil; lia|].
      intros d Hdr. rewrite vat_vput by lia. case_decide as E; [subst d|apply Hf; lia].
      unfold std_sort. split; [by rewrite merge_sort_Permutation|]. intros p.
      rewrite merge_sort_Permutation, Hin. unfold hosts. rewrite Hv. simpl. split; intros [Hpr Hb];
        (split; [done|]); rewrite Hm in *; done.
    + split_and!; [done|intros; apply Hnil; lia|]. intros d Hdr.
      destruct (decide (d = k)) as [->|]; [|apply Hf; lia]. rewrite Hnil by lia. by apply Hempty.
Qed.

Lemma host_count_range d : 0 <= host_count d <= num_pubs.
Proof using Hstore.
  pose proof sizes_nonneg as [Hp _]. unfold host_count. fold num_pubs.
  pose proof (sumz_bound (fun p => ind (hosts d p)) num_pubs 1 Hp ltac:(intros; apply ind_range)). lia.
Qed.

Lemma keep_datasources_ok rows :
  vlen rows = num_ds -> (forall d, 0 <= d < num_ds -> lists (hosts d) num_pubs (vat rows d)) ->
  wp (keep_datasources num_ds min_pubs rows) (fun keep => keep = kept_datasources).
Proof using Hstore Hpubs Hds.
  intros Hl Hr. pose proof sizes_nonneg as [Hp Hd].
  apply (wp_for_range (fun k keep => keep =
    filter (fun d => (min_pubs <=? host_count d) && negb (host_count d =? 0) = true) (seqZ 0 k)));
    [done|done| |done].
  intros k keep Hk ->. wsteps.
  pose proof (lists_count _ _ _ Hp (Hr k Hk)) as Hcount.
  change (vlen (vat rows k) = host_count k) in Hcount.
  pose proof (host_count_range k). rewrite Hcount, !to_int_small by vlia.
  rewrite seqZ_snoc, filter_app by lia. rewrite filter_cons.
  destruct (_ && _); simpl; [done|by rewrite app_nil_r].
Qed.

Lemma kept_datasources_range s : 0 <= s < vlen kept_datasources -> 0 <= vat kept_datasources s < num_ds.
Proof.
  intros Hs. pose proof (vat_elem _ _ Hs) as Hin.
  unfold kept_datasources in Hin at 2. rewrite list_elem_of_filter, elem_of_seqZ in Hin.
  unfold num_ds. lia.
Qed.

(** The inverted index lists, in ascending order, the kept hosts. *)
Definition host_row (p : Z) : list Z :=
  filter (fun s => hosts (vat kept_datasources s) p = true) (seqZ 0 (vlen kept_datasources)).

Lemma invert_pubs_ok rows :
  vlen rows = num_ds -> (forall d, 0 <= d < num_ds -> lists (hosts d) num_pubs (vat rows d)) ->
  wp (invert_pubs num_pubs kept_datasources rows) (fun inv => vlen inv = num_pubs /\
    forall p, 0 <= p < num_pubs -> vat inv p = host_row p).
Proof using Hstore Hpubs Hds.
  intros Hl Hr. pose proof sizes_nonneg as [Hp Hd].
  apply (wp_for_range (fun k inv => vlen inv = num_pubs /\ forall p, 0 <= p < num_pubs ->
    vat inv p = filter (fun s => hosts (vat kept_datasources s) p = true) (seqZ 0 k)));
    [apply vlen_nonneg| | |done].
  { split; [by apply vlen_vnew|]. intros p Hpr. by rewrite vat_vnew. }
  intros s inv Hs [Hli Hinv]. pose proof (kept_datasources_range s Hs) as Hks. wsteps.
  destruct (Hr _ Hks) as [Hnd Hin].
  apply (wp_for_each (fun dn inv => vlen inv = num_pubs /\ forall p, 0 <= p < num_pubs ->
    vat inv p = filter (fun s => hosts (vat kept_datasources s) p = true) (seqZ 0 s) ++
      if decide (p ∈ dn) then [s] else [])).
  - split; [done|]. intros p Hpr. rewrite Hinv, decide_False by (done || apply not_elem_of_nil). by rewrite app_nil_r.
  - intros dn p rest inv' Hsplit [Hli' Hinv'].
    assert (0 <= p < num_pubs) as Hpr by (apply Hin; rewrite Hsplit; set_solver).
    assert (p ∉ dn) as Hfresh.
    { rewrite Hsplit in Hnd. apply NoDup_app in Hnd as (_ & Hdis & _). intros Hdn.
      apply (Hdis p Hdn). left. }
    wsteps. split; [vlia|]. intros q Hq. rewrite vat_vput by lia. case_decide as E.
    + subst q. rewrite Hinv', (decide_False (P := p ∈ dn)) by done.
      rewrite decide_True by set_solver. by rewrite app_nil_r.
    + rewrite Hinv' by done. f_equal. by destruct (decide (q ∈ dn)), (decide (q ∈ dn ++ [p])); set_solver.
  - intros inv' [Hli' Hinv']. split; [done|]. intros p Hpr. rewrite Hinv' by done.
    rewrite seqZ_snoc, filter_app by lia. f_equal. rewrite filter_cons. specialize (Hin p).
    destruct (decide (p ∈ _)), (decide (hosts _ p = true)); tauto.
Qed.

(** Super-vertices are linked by the publications they co-host. *)
Definition cohost_weight (u v : Z) : option W :=
  if u =? v then None
  else let k := cohosted (vat kept_datasources u) (vat kept_datasources v) in
       if 0 <? k then Some (count_weight k) else None.

Lemma host_row_length p : vlen (host_row p) = vlen (filter (fun d => hosts d p = true) kept_datasources).
Proof.
  transitivity (vlen (filter (fun d => hosts d p = true)
    (vat kept_datasources <$> seqZ 0 (vlen kept_datasources)))); [|by rewrite fmap_vat].
  rewrite filter_fmap. unfold host_row, vlen at 1. by rewrite <-(length_fmap (vat kept_datasources)).
Qed.

Lemma cohost_graph inv :
  vlen inv = num_pubs -> (forall p, 0 <= p < num_pubs -> vat inv p = host_row p) ->
  vlen kept_datasources <= INT_MAX ->
  wp (agg ← cohost_aggregate num_pubs (vlen kept_datasources) inv;
      materialize (fun _ => true) (vlen kept_datasources) agg) (fun '(adj, _) =>
    weighted_graph (vlen kept_datasources) cohost_weight adj).
Proof using Hstore Hpubs Hds.
  intros Hl Hinv Hk. pose proof sizes_nonneg as [Hp _]. set (n := vlen kept_datasources) in *.
  pose proof (vlen_nonneg kept_datasources : 0 <= n) as Hn.
  set (S p := if vlen (host_row p) <=? kPubDsCap then host_row p else []).
  assert (forall p, StronglySorted Z.lt (S p) /\ forall x, x ∈ S p -> 0 <= x < n) as HS.
  { intros p. unfold S. destruct (_ <=? _); [|split; [constructor|set_solver]].
    split; [apply filter_seqZ_sorted|]. intros x. unfold host_row.
    rewrite list_elem_of_filter, elem_of_seqZ. fold n. lia. }
  assert (forall p, 0 <= vlen (host_row p) <= n) as Hrow.
  { intros p. unfold host_row. rewrite filter_seqZ_count by done. fold n.
    pose proof (sumz_bound (fun x => ind (hosts (vat kept_datasources x) p)) n 1 Hn
      ltac:(intros; apply ind_range)). lia. }
  apply wp_bind. unfold cohost_aggregate. rewrite to_int_small by vlia.
  eapply wp_mono; [apply (pair_loop S); [lia|done|by intros; apply HS|]|].
  { intros p agg Hpr. rewrite vget_Some, Hinv by lia. simpl. specialize (Hrow p).
    rewrite to_int_small by vlia. unfold S. rewrite (Z.ltb_antisym (vlen (host_row p)) kPubDsCap).
    destruct (Z.ltb_spec (vlen (host_row p)) 2).
    - assert (pairs (host_row p) = []) as E.
      { unfold vlen in *. by destruct (host_row p) as [|x [|y l]]; [..|simpl in *; lia]. }
      destruct (vlen (host_row p) <=? kPubDsCap); by rewrite ?E.
    - by destruct (vlen (host_row p) <=? kPubDsCap). }
  intros agg Hagg. eapply wp_mono; [apply (materialize_graph _ _ (pair_emits S num_pubs)); [done|done|]|].
  { intros a b w Hin. eapply pair_emits_range; [|exact Hin]. by intros; apply HS. }
  intros [adj total] [[Hla Hnd Hr] _]. split; [done..|]. intros u v w Hu. rewrite Hr by done.
  rewrite pair_weight_shared by (lia || by intros; apply HS).
  assert (0 <= v < n -> shared_weight (fun _ => true) S num_pubs u v = cohost_weight u v) as Heq.
  { intros Hv. unfold shared_weight, cohost_weight. destruct (u =? v); [done|].
    assert (shared S num_pubs u v = cohosted (vat kept_datasources u) (vat kept_datasources v)) as ->;
      [|by rewrite andb_true_r].
    apply sumz_ext. intros p Hpr. f_equal. rewrite <-host_row_length. unfold S.
    destruct (vlen (host_row p) <=? kPubDsCap); simpl.
    - rewrite andb_true_r. unfold host_row. apply eq_true_iff_eq.
      rewrite !andb_true_iff, !bool_decide_eq_true, !list_elem_of_filter, !elem_of_seqZ. fold n. naive_solver lia.
    - by rewrite !andb_false_r. }
  split; intros [Hv Hw]; (split; [done|]); rewrite ?Heq in *; done.
Qed.

(** The vertices of the datasource graph. *)
Record datasource_vertices (c : computer W) : Prop := {
  dv_num : num_vertex_ c = vlen kept_datasources;
  dv_ids : global_to_local_ c = map (fun d => (ds_label, d)) kept_datasources
}.

(** The organisations that can provide datasource [d]: in range, valid and with
    a country code. *)
Definition providers org_label ds_org (num_orgs : Z) (cc_col : Z -> string) (d : Z) : list Z :=
  filter (fun o => (o <? num_orgs) && IsValidVertex g org_label o && negb (bool_decide (cc_col o = EmptyString)) = true)
    (if ds_org =? NO_LABEL then [] else get_edges g ds_label org_label ds_org d).

(** The annotations: the datasource's own id, and id and country of its first
    provider. *)
Definition datasource_key (ds_id_col : option (Z -> string)) (d : Z) : string :=
  match ds_id_col with Some c => c d | None => to_string d end.
Definition provider_id (org_id_col : option (Z -> string)) (ps : list Z) : string :=
  match ps, org_id_col with o :: _, Some c => c o | _, _ => EmptyString end.
Definition provider_country (cc_col : Z -> string) (ps : list Z) : string :=
  match ps with o :: _ => cc_col o | [] => EmptyString end.

Record datasource_annotations org_label ds_org num_orgs cc_col org_id_col ds_id_col (c : computer W) : Prop := {
  da_keys : aggregate_keys_ c = map (datasource_key ds_id_col) kept_datasources;
  da_extra : aggregate_extra_ c = map (fun d =>
    (provider_id org_id_col (providers org_label ds_org num_orgs cc_col d) ++ "|" ++
     provider_country cc_col (providers org_label ds_org num_orgs cc_col d))%string) kept_datasources
}.

Lemma first_provider_spec org_label num_orgs cc_col org_id_col edges :
  let ps := filter (fun o => (o <? num_orgs) && IsValidVertex g org_label o &&
    negb (bool_decide (cc_col o = EmptyString)) = true) edges in
  first_provider g org_label num_orgs cc_col org_id_col edges = (provider_id org_id_col ps, provider_country cc_col ps).
Proof.
  induction edges as [|o edges IH]; [done|]. cbv zeta in *. simpl. rewrite filter_cons, IH.
  rewrite (Z.leb_antisym o num_orgs).
  destruct (o <? num_orgs), (IsValidVertex g org_label o), (bool_decide (cc_col o = EmptyString)); simpl;
    repeat case_decide; done.
Qed.

Lemma annotations_ok org_label ds_org num_orgs cc_col org_id_col ds_id_col num adj total ids names extra :
  annotate_datasources g ds_label org_label ds_org num_orgs cc_col org_id_col ds_id_col kept_datasources =
    (ids, names, extra) ->
  datasource_annotations org_label ds_org num_orgs cc_col org_id_col ds_id_col
    (Computer num total [] ids adj names extra).
Proof using Hstore Hds.
  intros [= _ <- <-]. split; simpl; [done|]. apply map_ext_in. intros d Hin%list_elem_of_In.
  pose proof sizes_nonneg as [_ Hd].
  unfold kept_datasources in Hin. rewrite list_elem_of_filter, elem_of_seqZ in Hin. fold num_ds in Hin.
  rewrite to_u32_nat by lia. unfold providers. destruct (ds_org =? NO_LABEL); [done|].
  by rewrite first_provider_spec.
Qed.

Lemma datasource_body org_label ds_org num_orgs cc_col org_id_col ds_id_col :
  wp (mask ← pubs_in_window g pub_label num_pubs year_min year_max year_col;
      ds_pubs ← datasource_pubs g ds_label pub_label e_label num_pubs num_ds mask;
      ds_keep ← keep_datasources num_ds min_pubs ds_pubs;
      let num_kept := to_int (vlen ds_keep) in
      if num_kept =? 0 then Some fresh_computer
      else
        pub_to_ds ← invert_pubs num_pubs ds_keep ds_pubs;
        agg ← cohost_aggregate num_pubs num_kept pub_to_ds;
        at_ ← materialize (fun _ => true) num_kept agg;
        let '(adj, total_entries) := at_ in
        let '(ids, names, extra) :=
          annotate_datasources g ds_label org_label ds_org num_orgs cc_col org_id_col ds_id_col ds_keep in
        Some (Computer num_kept (to_int total_entries) [] ids adj names extra))
    (fun c => (datasource_vertices c /\
       datasource_annotations org_label ds_org num_orgs cc_col org_id_col ds_id_col c) /\
     weighted_graph (num_vertex_ c) cohost_weight (adj_ c)).
Proof using Hstore Hpubs Hds.
  pose proof sizes_nonneg as [Hp Hd].
  apply wp_bind. eapply wp_mono; [apply pubs_in_window_ok|]. intros mask [Hlm Hm]. apply wp_bind.
  eapply wp_mono; [by apply datasource_pubs_ok|]. intros rows [Hlr Hr]. apply wp_bind.
  eapply wp_mono; [by apply keep_datasources_ok|]. intros ? ->.
  assert (0 <= vlen kept_datasources <= num_ds) as Hk.
  { split; [apply vlen_nonneg|]. unfold kept_datasources. rewrite filter_seqZ_count by done.
    pose proof (sumz_bound (fun d => ind ((min_pubs <=? host_count d) && negb (host_count d =? 0)))
      num_ds 1 Hd ltac:(intros; apply ind_range)). unfold num_ds in *. lia. }
  rewrite to_int_small by vlia. cbv zeta. destruct (Z.eqb_spec (vlen kept_datasources) 0) as [Hz|Hnz].
  { assert (kept_datasources = []) as Hnil.
    { destruct kept_datasources; [done|]. unfold vlen in Hz. simpl in Hz. lia. }
    wsteps. split; [|split; simpl; done || lia]. by split; split; rewrite ?Hnil. }
  apply wp_bind. eapply wp_mono; [by apply invert_pubs_ok|]. intros inv [Hli Hinv].
  pose proof (cohost_graph inv Hli Hinv ltac:(lia)) as Hg. apply wp_bind.
  destruct (cohost_aggregate _ _ inv) as [agg|]; [|done]. simpl in Hg |- *. apply wp_bind.
  eapply wp_mono; [exact Hg|]. intros [adj total] Hadj. wsteps. simpl. split; [|done].
  split; [|by apply annotations_ok]. split; simpl; [done|]. apply map_ext_in. intros d Hin%list_elem_of_In.
  unfold kept_datasources in Hin. rewrite list_elem_of_filter, elem_of_seqZ in Hin.
  fold num_ds in Hin. by rewrite to_u32_nat by lia.
Qed.
End datasources.

(** ** Organisations in the same projects *)

Section projects.
Context {W : Type} `{!Arith W} `{!HashOrder}.
Context (g : StorageReadInterface) (org_label proj_label e_label : Z) (sd_col : Z -> string).
Context (year_min year_max min_proj max_psize : Z).
Let num_orgs := GetVertexSet_size g org_label.
Let num_projs := GetVertexSet_size g proj_label.
Context (Hstore : store_ok g) (Horgs : num_orgs <= INT_MAX) (Hprojs : num_projs <= INT_MAX).

(** A project whose start date is in the window. *)
Definition proj_active (p : Z) : bool :=
  IsValidVertex g proj_label p &&
  (negb (year_min <=? year_max) ||
   ((0 <=? parse_year_prefix (sd_col p)) && (year_min <=? parse_year_prefix (sd_col p)) &&
    (parse_year_prefix (sd_col p) <=? year_max))).

Definition works_on (o p : Z) : bool :=
  IsValidVertex g org_label o && (proj_active p && bool_decide (p ∈ get_edges g org_label proj_label e_label o)).
Definition project_count (o : Z) : Z := sumz (fun p => ind (works_on o p)) (GetVertexSet_size g proj_label).
Definition team (p : Z) : list Z :=
  filter (fun o => works_on o p = true) (seqZ 0 (GetVertexSet_size g org_label)).

Definition kept_orgs : list Z :=
  filter (fun o => (min_proj <=? project_count o) && (0 <? project_count o) = true)
    (seqZ 0 (GetVertexSet_size g org_label)).

(** Active projects of both, unless the team is too large. *)
Definition coprojects (o1 o2 : Z) : Z :=
  sumz (fun p => ind (works_on o1 p && works_on o2 p &&
    (negb (0 <? max_psize) || (vlen (team p) <=? max_psize)))) (GetVertexSet_size g proj_label).

Lemma proj_sizes : 0 <= num_orgs /\ 0 <= num_projs.
Proof using Hstore.
  pose proof (so_size _ Hstore org_label). pose proof (so_size _ Hstore proj_label).
  unfold num_orgs, num_projs. lia.
Qed.

Lemma projects_in_window_ok :
  wp (projects_in_window g proj_label num_projs year_min year_max sd_col) (fun mask =>
    vlen mask = num_projs /\ forall p, 0 <= p < num_projs -> vat mask p = proj_active p).
Proof using Hstore Hprojs Horgs.
  pose proof proj_sizes as [_ Hp]. apply mask_loop; [done|]. intros p mask Hpr _ _. unfold proj_active.
  rewrite (to_u32_nat p) by lia. set (y := parse_year_prefix (sd_col p)).
  destruct (IsValidVertex g proj_label p); simpl; [|done].
  destruct (year_min <=? year_max); simpl; [|done].
  rewrite !Z.leb_antisym.
  by destruct (y <? 0), (y <? year_min), (year_max <? y).
Qed.

(** The inverted index and the per-organisation counts after [k] organisations. *)
Definition inverted (k : Z) (proj_orgs : list (list Z)) (cnt : list Z) : Prop :=
  vlen proj_orgs = num_projs /\ vlen cnt = num_orgs /\
  (forall p, 0 <= p < num_projs ->
     vat proj_orgs p = filter (fun o => works_on o p = true) (seqZ 0 k)) /\
  (forall o, 0 <= o < num_orgs -> vat cnt o = if o <? k then project_count o else 0).

Lemma invert_row k proj_orgs cnt projs :
  0 <= k < num_orgs -> inverted k proj_orgs cnt -> lists (works_on k) num_projs projs ->
  wp (for_each projs (proj_orgs, cnt) (fun pv '(proj_orgs, cnt) =>
        l ← vget proj_orgs (to_u32 pv);
        proj_orgs' ← vset proj_orgs (to_u32 pv) (l ++ [to_int k]);
        cnt' ← vincr cnt k;
        Some (proj_orgs', cnt'))) (fun '(proj_orgs, cnt) => inverted (k + 1) proj_orgs cnt).
Proof using Hstore Horgs Hprojs.
  intros Hk (Hlp & Hlc & Hpo & Hcnt) Hl. pose proof proj_sizes as [_ Hp].
  pose proof (lists_count _ _ _ Hp Hl) as Hcount. change (vlen projs = project_count k) in Hcount.
  destruct Hl as [Hnd Hin]. pose proof (sumz_bound (fun p => ind (works_on k p)) num_projs 1 Hp
    ltac:(intros; apply ind_range) : 0 <= project_count k <= _) as Hpc.
  apply (wp_for_each (fun dn '(po, cn) => vlen po = num_projs /\ vlen cn = num_orgs /\
    (forall p, 0 <= p < num_projs -> vat po p = filter (fun o => works_on o p = true) (seqZ 0 k) ++
       if decide (p ∈ dn) then [k] else []) /\
    (forall o, 0 <= o < num_orgs -> vat cn o = if o =? k then vlen dn else vat cnt o))).
  - split_and!; [done..| |].
    + intros p Hpr. rewrite Hpo, decide_False by (done || apply not_elem_of_nil). by rewrite app_nil_r.
    + intros o Ho. destruct (Z.eqb_spec o k) as [->|]; [|done]. rewrite Hcnt by done.
      by destruct (Z.ltb_spec k k); [lia|].
  - intros dn p rest [po cn] Hsplit (Hlp' & Hlc' & Hpo' & Hcn').
    assert (0 <= p < num_projs) as Hpr by (apply Hin; rewrite Hsplit; set_solver).
    assert (p ∉ dn) as Hfresh.
    { rewrite Hsplit in Hnd. apply NoDup_app in Hnd as (_ & Hdis & _). intros Hdn.
      apply (Hdis p Hdn). left. }
    assert (vlen dn < project_count k) as Hdn.
    { rewrite <-Hcount, Hsplit, vlen_app. unfold vlen. simpl. lia. }
    pose proof (vlen_nonneg dn).
    rewrite !(to_u32_nat p), (to_int_small k) by vlia. unfold vincr. wsteps.
    { rewrite Hcn', Z.eqb_refl by done. vlia. }
    split_and!; [vlia..| |].
    + intros q Hq. rewrite vat_vput by lia. case_decide as E.
      * subst q. rewrite Hpo', (decide_False (P := p ∈ dn)) by done.
        rewrite decide_True by set_solver. by rewrite app_nil_r.
      * rewrite Hpo' by done. f_equal. by destruct (decide (q ∈ dn)), (decide (q ∈ dn ++ [p])); set_solver.
    + intros o Ho. rewrite vat_vput by lia. case_decide as E.
      * subst o. rewrite Hcn', Z.eqb_refl, vlen_app by done. done.
      * rewrite Hcn' by done. by destruct (Z.eqb_spec o k); [lia|].
  - intros [po cn] (Hlp' & Hlc' & Hpo' & Hcn'). split_and!; [done..| |].
    + intros p Hpr. rewrite Hpo', seqZ_snoc, filter_app by (done || lia). f_equal.
      rewrite filter_cons. specialize (Hin p).
      destruct (decide (p ∈ projs)), (decide (works_on k p = true)); tauto.
    + intros o Ho. rewrite Hcn', Hcnt by done.
      destruct (Z.eqb_spec o k), (Z.ltb_spec o (k + 1)), (Z.ltb_spec o k); subst; done || lia.
Qed.

Lemma invert_projects_ok mask :
  vlen mask = num_projs -> (forall p, 0 <= p < num_projs -> vat mask p = proj_active p) ->
  wp (invert_projects g org_label proj_label e_label num_orgs num_projs mask)
    (fun '(proj_orgs, cnt) => inverted num_orgs proj_orgs cnt).
Proof using Hstore Horgs Hprojs.
  intros Hl Hm. pose proof proj_sizes as [Ho Hp].
  apply (wp_for_range (fun k '(proj_orgs, cnt) => inverted k proj_orgs cnt)); [done| | |done].
  - split_and!; [by apply vlen_vnew..| |]; intros; rewrite vat_vnew by done; [done|].
    by destruct (Z.ltb_spec o 0); [lia|].
  - intros k [po cnt] Hk Hinv. rewrite (to_u32_nat k) by lia.
    destruct (IsValidVertex g org_label k) eqn:Hv; simpl.
    + apply wp_bind. eapply wp_mono; [apply hosted_ok; [lia|done|]|].
      { intros x. by apply edges_nonneg. }
      intros projs [Hnd Hin]. apply invert_row; [done|done|]. split; [done|]. intros p. rewrite Hin.
      unfold works_on. rewrite Hv. simpl. split; intros [Hpr Hb]; (split; [done|]); rewrite Hm in *; done.
    + apply (invert_row k po cnt []); [done|done|]. split; [constructor|]. intros p.
      unfold works_on. rewrite Hv, elem_of_nil. naive_solver.
Qed.

Lemma project_count_range o : 0 <= project_count o <= num_projs.
Proof using Hstore.
  pose proof proj_sizes as [_ Hp]. unfold project_count. fold num_projs.
  pose proof (sumz_bound (fun p => ind (works_on o p)) num_projs 1 Hp ltac:(intros; apply ind_range)). lia.
Qed.

(** [org_to_super] inverts [org_keep]. *)
Lemma keep_orgs_ok cnt :
  vlen cnt = num_orgs -> (forall o, 0 <= o < num_orgs -> vat cnt o = project_count o) ->
  wp (keep_orgs num_orgs min_proj cnt) (fun '(keep, sup) => keep = kept_orgs /\ vlen sup = num_orgs /\
    forall o, 0 <= o < num_orgs -> forall s, 0 <= s ->
      (vat sup o = s <-> s < vlen kept_orgs /\ vat kept_orgs s = o)).
Proof using Hstore Horgs Hprojs.
  intros Hl Hc. pose proof proj_sizes as [Ho Hp].
  set (P o := (min_proj <=? project_count o) && (0 <? project_count o) = true).
  apply (wp_for_range (fun k '(keep, sup) => keep = filter P (seqZ 0 k) /\ vlen sup = num_orgs /\
    forall o, 0 <= o < num_orgs -> forall s, 0 <= s -> (vat sup o = s <-> s < vlen keep /\ vat keep s = o)));
    [done| | |by intros [keep sup] (-> & ? & ?)].
  - split_and!; [done|by apply vlen_vnew|]. intros o Hor s Hs. rewrite vat_vnew by done.
    unfold vlen. simpl. lia.
  - intros k [keep sup] Hk (-> & Hls & Hsup). wsteps. rewrite Hc by done.
    assert (vlen (filter P (seqZ 0 k)) <= k) as Hlen.
    { unfold P. rewrite filter_seqZ_count by lia.
      pose proof (sumz_bound (fun o => ind ((min_proj <=? project_count o) && (0 <? project_count o))) k 1
        ltac:(lia) ltac:(intros; apply ind_range)). lia. }
    pose proof (vlen_nonneg (filter P (seqZ 0 k))).
    rewrite seqZ_snoc, filter_app by lia. rewrite filter_cons, filter_nil.
    destruct (decide (P k)) as [HP|HP]; unfold P in HP;
      [rewrite HP|apply not_true_is_false in HP; rewrite HP].
    + rewrite (to_int_small k), to_int_small by vlia. wsteps.
      split_and!; [done|vlia|]. intros o Hor s Hs.
      assert (vlen (filter P (seqZ 0 k) ++ [k]) = vlen (filter P (seqZ 0 k)) + 1) as -> by (by rewrite vlen_app).
      rewrite vat_vput by lia. case_decide as E.
      * subst o. split.
        -- intros <-. split; [lia|]. apply vat_snoc_new.
        -- intros [Hs1 Hs2]. destruct (decide (s = vlen (filter P (seqZ 0 k)))) as [->|]; [done|].
           rewrite vat_snoc_old in Hs2 by lia.
           assert (k ∈ filter P (seqZ 0 k)) as Hin by (rewrite <-Hs2 at 1; apply vat_elem; lia).
           apply list_elem_of_filter in Hin as [_ ?%elem_of_seqZ]. lia.
      * rewrite Hsup by done. split.
        -- intros [? ?]. split; [lia|]. by rewrite vat_snoc_old by lia.
        -- intros [Hs1 Hs2]. destruct (decide (s = vlen (filter P (seqZ 0 k)))) as [->|].
           { rewrite vat_snoc_new in Hs2. lia. }
           rewrite vat_snoc_old in Hs2 by lia. split; [lia|done].
    + wsteps. rewrite app_nil_r. done.
Qed.

(** Super-vertices are linked by the projects they share. *)
Definition coproject_weight (keep : W -> bool) (u v : Z) : option W :=
  if u =? v then None
  else let k := coprojects (vat kept_orgs u) (vat kept_orgs v) in
       if (0 <? k) && keep (count_weight k) then Some (count_weight k) else None.

Lemma kept_orgs_range s : 0 <= s < vlen kept_orgs -> 0 <= vat kept_orgs s < num_orgs.
Proof.
  intros Hs. pose proof (vat_elem _ _ Hs) as Hin.
  unfold kept_orgs in Hin at 2. rewrite list_elem_of_filter, elem_of_seqZ in Hin.
  unfold num_orgs. lia.
Qed.

Lemma super_ids_ok sup p :
  vlen sup = num_orgs ->
  wp (super_ids (team p) sup) (fun svec => forall s, s ∈ svec <->
    0 <= s /\ exists o, o ∈ team p /\ vat sup o = s).
Proof.
  intros Hl. apply (wp_for_each (fun dn svec => forall s, s ∈ svec <->
    0 <= s /\ exists o, o ∈ dn /\ vat sup o = s)); [| |done].
  - intros s. setoid_rewrite elem_of_nil. naive_solver.
  - intros dn o rest svec Hs Hin.
    assert (o ∈ team p) as Ho by (rewrite Hs; set_solver).
    unfold team in Ho. rewrite list_elem_of_filter, elem_of_seqZ in Ho. fold num_orgs in Ho. wsteps.
    intros s. setoid_rewrite elem_of_app. setoid_rewrite list_elem_of_singleton.
    destruct (Z.leb_spec 0 (vat sup o)); rewrite ?elem_of_app, ?list_elem_of_singleton, Hin; naive_solver lia.
Qed.

(** The members that one project contributes. *)
Definition project_members (p : Z) : list Z :=
  if proj_active p && (negb (0 <? max_psize) || (vlen (team p) <=? max_psize))
  then filter (fun s => works_on (vat kept_orgs s) p = true) (seqZ 0 (vlen kept_orgs)) else [].

Lemma project_members_ok p :
  StronglySorted Z.lt (project_members p) /\ forall s, s ∈ project_members p -> 0 <= s < vlen kept_orgs.
Proof.
  unfold project_members. destruct (_ && _); [|split; [constructor|set_solver]].
  split; [apply filter_seqZ_sorted|]. intros s. rewrite list_elem_of_filter, elem_of_seqZ. lia.
Qed.

Lemma kept_members_length p :
  (length (filter (fun s => works_on (vat kept_orgs s) p = true) (seqZ 0 (vlen kept_orgs))) <= length (team p))%nat.
Proof.
  pose proof (filter_fmap (vat kept_orgs) (fun o => works_on o p = true) (seqZ 0 (vlen kept_orgs))) as E.
  rewrite fmap_vat in E. rewrite <-(length_fmap (vat kept_orgs)).
  transitivity (length (filter (fun o => works_on o p = true) kept_orgs));
    [apply Nat.eq_le_incl; f_equal; symmetry; exact E|].
  apply submseteq_length, NoDup_submseteq.
  - apply NoDup_filter, NoDup_filter, NoDup_seqZ.
  - intros o [Hw [_ Ho]%list_elem_of_filter]%list_elem_of_filter. by apply list_elem_of_filter.
Qed.

Lemma project_aggregate_ok mask proj_orgs cnt sup :
  vlen mask = num_projs -> (forall p, 0 <= p < num_projs -> vat mask p = proj_active p) ->
  inverted num_orgs proj_orgs cnt -> vlen sup = num_orgs -> vlen kept_orgs <= INT_MAX ->
  (forall o, 0 <= o < num_orgs -> forall s, 0 <= s ->
     (vat sup o = s <-> s < vlen kept_orgs /\ vat kept_orgs s = o)) ->
  wp (project_aggregate (W := W) num_projs (vlen kept_orgs) max_psize mask proj_orgs sup)
    (aggregated (vlen kept_orgs) (pair_emits project_members num_projs)).
Proof using Hstore Horgs Hprojs.
  intros Hlm Hm (Hlp & _ & Hpo & _) Hls Hk Hsup.
  pose proof proj_sizes as [Ho Hp]. pose proof (vlen_nonneg kept_orgs).
  apply pair_loop; [done|done|intros; apply project_members_ok|].
  intros p agg Hpr. rewrite (vget_Some mask), Hm by lia. simpl. unfold project_members.
  destruct (proj_active p) eqn:Hact; simpl; [|done].
  rewrite (vget_Some proj_orgs), Hpo by lia. simpl. change (filter _ (seqZ 0 num_orgs)) with (team p).
  assert (vlen (team p) <= num_orgs) as Hteam.
  { unfold team. rewrite filter_seqZ_count by done. fold num_orgs.
    pose proof (sumz_bound (fun o => ind (works_on o p)) num_orgs 1 Ho ltac:(intros; apply ind_range)). lia. }
  pose proof (vlen_nonneg (team p)). rewrite to_int_small by vlia. rewrite Z.leb_antisym, <-negb_andb.
  pose proof (super_ids_ok sup p Hls) as Hsv. apply wp_exists in Hsv as (svec & Hsv & Hin). rewrite Hsv. simpl.
  assert (sort_unique svec = filter (fun s => works_on (vat kept_orgs s) p = true) (seqZ 0 (vlen kept_orgs))) as Hrow.
  { apply sorted_ext; [apply sort_unique_sorted|apply filter_seqZ_sorted|]. intros s.
    rewrite sort_unique_elem, Hin, list_elem_of_filter, elem_of_seqZ.
    assert (forall o, o ∈ team p <-> works_on o p = true /\ 0 <= o < num_orgs) as Hte.
    { intros o. unfold team. rewrite list_elem_of_filter, elem_of_seqZ. fold num_orgs. naive_solver lia. }
    setoid_rewrite Hte. split.
    - intros (Hs & o & [Hw Hor] & Hso). apply Hsup in Hso as [? <-]; [|done..]. split; [done|lia].
    - intros [Hw Hs]. split; [lia|]. exists (vat kept_orgs s).
      pose proof (kept_orgs_range s ltac:(lia)). split; [done|]. apply Hsup; [done|lia|split; [lia|done]]. }
  destruct (Z.ltb_spec (vlen (team p)) 2) as [Hsmall|_].
  - assert (pairs (sort_unique svec) = []) as E.
    { assert (length (sort_unique svec) <= length (team p))%nat as Hle.
      { rewrite Hrow. apply kept_members_length. }
      unfold vlen in Hsmall. destruct (sort_unique svec) as [|x [|y l]]; simpl in *; done || lia. }
    rewrite <-Hrow. destruct (_ && _); simpl; by rewrite ?E.
  - destruct (_ && _); simpl; by rewrite ?Hrow.
Qed.

Record org_vertices (c : computer W) : Prop := {
  ov_num : num_vertex_ c = vlen kept_orgs;
  ov_ids : global_to_local_ c = map (fun o => (org_label, o)) kept_orgs
}.

Lemma project_body (keep : W -> bool) (name extra : Z -> string) :
  wp (mask ← projects_in_window g proj_label num_projs year_min year_max sd_col;
      inv ← invert_projects g org_label proj_label e_label num_orgs num_projs mask;
      let '(proj_orgs, cnt) := inv in
      kept ← keep_orgs num_orgs min_proj cnt;
      let '(org_keep, org_to_super) := kept in
      let num_kept := to_int (vlen org_keep) in
      if num_kept =? 0 then Some fresh_computer
      else
        agg ← project_aggregate num_projs num_kept max_psize mask proj_orgs org_to_super;
        at_ ← materialize keep num_kept agg;
        let '(adj, total_entries) := at_ in
        Some (Computer num_kept (to_int total_entries) []
                (map (fun o => (org_label, to_u32 o)) org_keep) adj (map name org_keep) (map extra org_keep)))
    (fun c => org_vertices c /\ weighted_graph (num_vertex_ c) (coproject_weight keep) (adj_ c)).
Proof using Hstore Horgs Hprojs.
  pose proof proj_sizes as [Ho Hp].
  apply wp_bind. eapply wp_mono; [apply projects_in_window_ok|]. intros mask [Hlm Hm]. apply wp_bind.
  eapply wp_mono; [by apply invert_projects_ok|]. intros [proj_orgs cnt] Hinv. apply wp_bind.
  eapply wp_mono; [apply keep_orgs_ok; [apply Hinv|]|].
  { intros o Hor. destruct Hinv as (_ & _ & _ & Hc). rewrite Hc by done.
    by rewrite (proj2 (Z.ltb_lt _ _)) by lia. }
  intros [? sup] (-> & Hls & Hsup).
  assert (0 <= vlen kept_orgs <= num_orgs) as Hk.
  { split; [apply vlen_nonneg|]. unfold kept_orgs. rewrite filter_seqZ_count by done.
    pose proof (sumz_bound (fun o => ind ((min_proj <=? project_count o) && (0 <? project_count o)))
      num_orgs 1 Ho ltac:(intros; apply ind_range)). unfold num_orgs in *. lia. }
  rewrite to_int_small by vlia. cbv zeta. destruct (Z.eqb_spec (vlen kept_orgs) 0) as [Hz|Hnz].
  { wsteps. split; [|split; simpl; done || lia]. split; simpl; [done|].
    destruct kept_orgs; [done|]. unfold vlen in Hz. simpl in Hz. lia. }
  apply wp_bind. eapply wp_mono; [apply (project_aggregate_ok mask proj_orgs cnt sup); try done || lia|].
  intros agg Hagg. apply wp_bind. set (n := vlen kept_orgs) in *.
  eapply wp_mono; [apply (materialize_graph keep n (pair_emits project_members num_projs)); [lia|done|]|].
  { intros a b w Hin. eapply pair_emits_range; [|exact Hin]. intros; apply project_members_ok. }
  intros [adj total] [[Hla Hnd Hr] _]. wsteps. simpl. split; [split; simpl; [done|]|].
  { apply map_ext_in. intros o Hin%list_elem_of_In. unfold kept_orgs in Hin.
    rewrite list_elem_of_filter, elem_of_seqZ in Hin. fold num_orgs in Hin. by rewrite to_u32_nat by lia. }
  split; [done..|]. intros u v w Hu. rewrite Hr by done.
  rewrite pair_weight_shared by (lia || intros; apply project_members_ok).
  assert (0 <= v < n -> shared_weight keep project_members num_projs u v = coproject_weight keep u v) as Heq.
  { intros Hv. unfold shared_weight, coproject_weight. destruct (u =? v); [done|].
    assert (shared project_members num_projs u v = coprojects (vat kept_orgs u) (vat kept_orgs v)) as ->; [|done].
    apply sumz_ext. intros p Hpr. f_equal. apply eq_true_iff_eq.
    rewrite !andb_true_iff, !bool_decide_eq_true. unfold project_members.
    assert (forall o, works_on o p = true -> proj_active p = true) as Hact.
    { intros o. unfold works_on. rewrite !andb_true_iff. tauto. }
    destruct (proj_active p) eqn:Ea; simpl.
    - destruct (negb (0 <? max_psize) || (vlen (team p) <=? max_psize)); [|set_solver].
      rewrite !list_elem_of_filter, !elem_of_seqZ. fold n. naive_solver lia.
    - split; [set_solver|]. intros [[Hw _] _]. by apply Hact in Hw. }
  split; intros [Hv Hw]; (split; [done|]); rewrite ?Heq in *; done.
Qed.
End projects.
