(* ===== verification/InfraCorrect.v ===== *)
(** * Correctness of the infrastructure projection

    [BuildInfraCountryProjection]: the host counts of a datasource, the
    long-tail filter and the min-coupling of two countries through the
    datasources they share. *)
From S2P Require Import Prelude Num Storage KCore GraphBuild Aggregate Projection KcoreCompute.
From S2P Require Import ProjectionCorrect HostingCorrect.
From stdpp Require Import sorting.
#[local] Open Scope Z_scope.

(** A count kept in a map that only holds positive counts. *)
Definition positive (k : Z) : option Z := if 0 <? k then Some k else None.

Lemma bump_all (cvec : list Z) (bucket : umap Z) (h : Z -> Z) :
  NoDup cvec -> NoDup bucket.*1 -> (forall c, 0 <= h c) ->
  (forall c, umap_find bucket c = positive (h c)) ->
  let bucket' := fold_left (fun bk c => umap_update bk c 0 (fun x => x + 1)) cvec bucket in
  NoDup bucket'.*1 /\
  forall c, umap_find bucket' c = positive (h c + ind (bool_decide (c ∈ cvec))).
Proof.
  intros Hnd. revert bucket h. induction Hnd as [|x cvec Hx Hnd IH]; intros bucket h Hb Hpos Hf; cbn [fold_left].
  - split; [done|]. intros c. by rewrite bool_decide_false, Z.add_0_r by apply not_elem_of_nil.
  - destruct (IH (umap_update bucket x 0 (fun y => y + 1)) (fun c => h c + ind (x =? c))) as [Hk Hf'].
    + by apply umap_update_nodup.
    + intros c. pose proof (Hpos c). pose proof (ind_range (x =? c)). lia.
    + intros c. rewrite umap_find_update, !Hf. pose proof (Hpos c). unfold positive.
      destruct (Z.eqb_spec x c) as [->|]; simpl; [|by rewrite Z.add_0_r].
      destruct (Z.ltb_spec 0 (h c)), (Z.ltb_spec 0 (h c + 1)); simpl; try lia; f_equal; lia.
    + split; [done|]. intros c. rewrite Hf'. f_equal.
      destruct (Z.eqb_spec x c) as [->|Hne]; simpl.
      * rewrite (bool_decide_false (c ∈ cvec)), (bool_decide_true (c ∈ c :: cvec)) by (done || left). simpl. lia.
      * assert (bool_decide (c ∈ x :: cvec) = bool_decide (c ∈ cvec)) as ->; [|lia].
        apply bool_decide_ext. rewrite elem_of_cons. naive_solver.
Qed.

Section infra.
Context {W : Type} `{!Arith W} `{!HashOrder}.
Context (g : StorageReadInterface) (ds_label pub_label e_label min_hosts n : Z).
Let num_pubs := GetVertexSet_size g pub_label.
Let num_ds := GetVertexSet_size g ds_label.
Context (Hstore : store_ok g) (Hpubs : num_pubs <= INT_MAX).
(** The country sets of pass 1. *)
Context (pc : list (list Z)) (Hpc : vlen pc = num_pubs).
Context (Hrows : forall p, 0 <= p < num_pubs ->
  StronglySorted Z.lt (vat pc p) /\ forall c, c ∈ vat pc p -> 0 <= c < n).

Definition ds_hosts (d p : Z) : bool := bool_decide (p ∈ get_edges g ds_label pub_label e_label d).

(** Publications of country [c] on [d], and publications with any country. *)
Definition host_of (d c : Z) : Z :=
  sumz (fun p => ind (ds_hosts d p && bool_decide (c ∈ vat pc p))) (GetVertexSet_size g pub_label).
Definition total_of (d : Z) : Z :=
  sumz (fun p => ind (ds_hosts d p && bool_decide (vat pc p <> []))) (GetVertexSet_size g pub_label).

(** Counting over the distinct publications seen so far. *)
Lemma filter_count (us : list Z) (d : Z) (f : Z -> bool) :
  lists (ds_hosts d) num_pubs us ->
  vlen (filter (fun p => f p = true) us) = sumz (fun p => ind (ds_hosts d p && f p)) num_pubs.
Proof using Hstore.
  intros [Hnd Hin]. apply lists_count; [pose proof (so_size _ Hstore pub_label); unfold num_pubs; lia|].
  split; [by apply NoDup_filter|]. intros p. rewrite list_elem_of_filter, Hin, andb_true_iff. tauto.
Qed.

Lemma host_counts_ok d :
  wp (host_counts num_pubs pc (get_edges g ds_label pub_label e_label d)) (fun '(bucket, total) =>
    NoDup bucket.*1 /\ (forall c, umap_find bucket c = positive (host_of d c)) /\ total = total_of d).
Proof using Hstore Hpubs Hpc Hrows.
  unfold host_counts. apply wp_bind.
  apply (wp_for_each (fun dn '(seen, bucket, total) => exists us : list Z,
    (seen : gset Z) = list_to_set us /\ NoDup us /\ (forall p, p ∈ us <-> p ∈ dn /\ p < num_pubs) /\
    NoDup bucket.*1 /\
    (forall c, umap_find bucket c = positive (vlen (filter (fun p => bool_decide (c ∈ vat pc p) = true) us))) /\
    total = vlen (filter (fun p => bool_decide (vat pc p <> []) = true) us))).
  - exists []. split_and!; [done|constructor|set_solver|constructor|done|done].
  - intros dn p rest [[seen bucket] total] Hs (us & -> & Hnd & Hin & Hbk & Hf & ->).
    assert (0 <= p) as Hp by (eapply (edges_nonneg g); [done|rewrite Hs; set_solver]).
    assert (num_pubs <= p \/ p ∈ us -> forall q, q ∈ us <-> q ∈ dn ++ [p] /\ q < num_pubs) as Hsame.
    { intros Hcase q. rewrite elem_of_app, list_elem_of_singleton, Hin. split; [tauto|].
      intros [[?| ->] ?]; [done|]. destruct Hcase as [?|?%Hin]; [lia|done]. }
    destruct (Z.leb_spec num_pubs p).
    { wsteps. exists us. split_and!; auto. }
    rewrite to_int_small by vlia. destruct (decide _) as [Hse|Hnew]; rewrite elem_of_list_to_set in *.
    { wsteps. exists us. split_and!; auto. }
    destruct (Hrows p ltac:(lia)) as [Hsort _]. wsteps.
    assert (forall f : Z -> bool, vlen (filter (fun q => f q = true) (us ++ [p])) =
      vlen (filter (fun q => f q = true) us) + ind (f p)) as Hsnoc.
    { intros f. rewrite filter_app, vlen_app. f_equal. rewrite filter_cons. by destruct (f p). }
    assert (forall x, ({[p]} ∪ list_to_set us : gset Z) = list_to_set (us ++ [p]) /\ NoDup (us ++ [p]) /\
      (forall q, q ∈ us ++ [p] <-> q ∈ dn ++ [p] /\ q < num_pubs) /\ x = x :> Z) as Hnext.
    { intros x. split_and!; [rewrite list_to_set_app_L; simpl; set_solver| | |done].
      - apply NoDup_app. split_and!; [done|set_solver|apply NoDup_singleton].
      - intros q. rewrite !elem_of_app, !list_elem_of_singleton, Hin. naive_solver lia. }
    destruct (bump_all (vat pc p) bucket (fun c => vlen (filter (fun p => bool_decide (c ∈ vat pc p) = true) us)))
      as [Hbk' Hf']; [by apply strictly_sorted_nodup|done|intros; apply vlen_nonneg|done|].
    destruct (Hnext 0) as (? & ? & ? & _). destruct (vat pc p) as [|c cs] eqn:Ep; wsteps;
      exists (us ++ [p]); split_and!; try done.
    + intros x. rewrite (Hsnoc (fun q => bool_decide (x ∈ vat pc q))), Ep, Hf'.
      by rewrite bool_decide_false by apply not_elem_of_nil.
    + rewrite (Hsnoc (fun q => bool_decide (vat pc q <> []))), Ep. simpl. lia.
    + intros x. rewrite (Hsnoc (fun q => bool_decide (x ∈ vat pc q))), Ep. apply Hf'.
    + rewrite (Hsnoc (fun q => bool_decide (vat pc q <> []))), Ep. done.
  - intros [[seen bucket] total] (us & _ & Hnd & Hin & Hbk & Hf & ->). wsteps.
    assert (lists (ds_hosts d) num_pubs us) as Hl.
    { split; [done|]. intros p. rewrite Hin. unfold ds_hosts. rewrite bool_decide_eq_true.
      split; [intros [Hp ?]; pose proof (edges_nonneg g _ _ _ _ _ Hstore Hp); split; [lia|done]|naive_solver]. }
    split_and!; [done| |].
    + intros c. rewrite Hf. f_equal. exact (filter_count us d (fun p => bool_decide (c ∈ vat pc p)) Hl).
    + exact (filter_count us d (fun p => bool_decide (vat pc p <> [])) Hl).
Qed.

(** A datasource that survives the long-tail filter, and its countries. *)
Definition ds_kept (d : Z) : bool :=
  IsValidVertex g ds_label d && negb ((0 <? min_hosts) && (total_of d <? min_hosts)).
Definition ds_countries (d : Z) : list Z :=
  filter (fun c => ds_kept d && (0 <? host_of d c) = true) (seqZ 0 n).

Lemma host_of_range d c : 0 <= host_of d c.
Proof using Hstore.
  apply (sumz_bound _ _ 1); [apply (so_size _ Hstore)|]. intros. apply ind_range.
Qed.

Lemma host_of_country d c : 0 < host_of d c -> 0 <= c < n.
Proof using Hrows.
  intros Hh. destruct (decide (0 <= c < n)) as [|Hc]; [done|exfalso].
  unfold host_of in Hh. rewrite (sumz_ext _ (fun _ => 0)) in Hh.
  - destruct (Z.le_gt_cases 0 (GetVertexSet_size g pub_label)); [rewrite sumz_const in Hh; lia|].
    unfold sumz in Hh. rewrite seqZ_nil in Hh by lia. simpl in Hh. lia.
  - intros p Hp. rewrite bool_decide_false; [by rewrite andb_false_r|]. intros Hin.
    by apply (proj2 (Hrows p Hp)) in Hin.
Qed.

Lemma datasource_bucket_ok d :
  0 <= d < num_ds -> num_ds < 2 ^ 32 ->
  wp (datasource_bucket g ds_label pub_label e_label num_pubs min_hosts pc d) (fun bucket =>
    NoDup bucket.*1 /\ forall c, umap_find bucket c = if ds_kept d then positive (host_of d c) else None).
Proof using Hstore Hpubs Hpc Hrows.
  intros Hd Hds. unfold datasource_bucket, ds_kept. rewrite to_u32_small by lia.
  destruct (IsValidVertex g ds_label d); simpl; [|split; [constructor|done]].
  apply wp_bind. eapply wp_mono; [apply host_counts_ok|]. intros [bucket total] (Hnd & Hf & ->).
  destruct ((0 <? min_hosts) && _); simpl.
  - by destruct bucket; (split; [constructor|]).
  - destruct bucket; simpl; [|done]. split; [constructor|]. intros c. apply (Hf c).
Qed.

(** Sorting the entries of the bucket by country. *)
Lemma sort_items_ok d bucket :
  NoDup bucket.*1 -> (forall c, umap_find bucket c = if ds_kept d then positive (host_of d c) else None) ->
  sort_items bucket = map (fun c => (c, host_of d c)) (ds_countries d).
Proof using Hrows.
  intros Hnd Hf. set (items := sort_items bucket).
  assert (items ≡ₚ bucket) as Hp by (unfold items, sort_items; by rewrite merge_sort_Permutation, iter_order_perm).
  assert (forall c k, (c, k) ∈ items <-> ds_kept d = true /\ 0 < host_of d c /\ k = host_of d c) as Hin.
  { intros c k. rewrite Hp, <-umap_find_elem, Hf by done. unfold positive.
    destruct (ds_kept d), (Z.ltb_spec 0 (host_of d c)); naive_solver lia. }
  assert (items.*1 = ds_countries d) as Hkeys.
  { apply sorted_ext.
    - assert (Sorted key_le items) as Hs by (apply Sorted_merge_sort; intros x y; unfold key_le; lia).
      assert (NoDup items.*1) as Hni by (by rewrite Hp). clear -Hs Hni.
      apply Sorted_StronglySorted in Hs; [|intros x y z; unfold key_le; lia].
      induction Hs as [|[c k] l Hs IH Hall]; simpl in *; [constructor|].
      apply NoDup_cons in Hni as [Hc Hni]. constructor; [by apply IH|].
      rewrite Forall_forall in Hall. apply Forall_forall. intros x Hx.
      destruct (decide (x = c)) as [->|]; [done|].
      apply list_elem_of_fmap in Hx as ([y k'] & -> & Hy). specialize (Hall _ Hy). unfold key_le in Hall.
      simpl in *. lia.
    - apply filter_seqZ_sorted.
    - intros c. unfold ds_countries. rewrite list_elem_of_filter, elem_of_seqZ, list_elem_of_fmap, andb_true_iff.
      split.
      + intros ([c' k] & -> & (? & ? & _)%Hin). simpl. pose proof (host_of_country d c'). split; [split; [done|]|lia].
        by apply Z.ltb_lt.
      + intros [[? ?%Z.ltb_lt] _]. exists (c, host_of d c). split; [done|]. by apply Hin. }
  rewrite <-Hkeys. clear Hkeys Hp.
  assert (forall e, e ∈ items -> e = (fst e, host_of d (fst e))) as He.
  { intros [c k] (_ & _ & ->)%Hin. done. }
  clear Hin. induction items as [|e l IH]; simpl; [done|].
  rewrite <-He by left. f_equal. apply IH. intros. apply He. by right.
Qed.

Lemma pairs_map {A B} (f : A -> B) l : pairs (map f l) = map (fun xy => (f (fst xy), f (snd xy))) (pairs l).
Proof.
  induction l as [|x l IH]; simpl; [done|]. rewrite map_app, IH, !map_map. done.
Qed.

(** What datasource [d] adds for countries [a] and [b]. *)
Definition coupling (d a b : Z) : list W :=
  let w := wofZ (Z.min (host_of d a) (host_of d b)) in
  if ds_kept d && (0 <? host_of d a) && (0 <? host_of d b) && negb (wleb w wzero) then [w] else [].

Definition coupling_emits : list (Z * Z * W) :=
  flat_map (fun d => flat_map (fun ab => map (fun w => (fst ab, snd ab, w)) (coupling d (fst ab) (snd ab)))
    (pairs (ds_countries d))) (seqZ 0 (GetVertexSet_size g ds_label)).

Lemma ds_countries_elem d c :
  c ∈ ds_countries d <-> ds_kept d = true /\ 0 < host_of d c.
Proof using Hrows.
  unfold ds_countries. rewrite list_elem_of_filter, elem_of_seqZ, andb_true_iff, Z.ltb_lt.
  pose proof (host_of_country d c). naive_solver lia.
Qed.

Lemma coupling_range a b w : (a, b, w) ∈ coupling_emits -> 0 <= a < b /\ b < n.
Proof using Hrows.
  unfold coupling_emits. rewrite list_elem_of_In, in_flat_map. intros (d & _ & Hin).
  apply in_flat_map in Hin as ([x y] & Hxy%list_elem_of_In & Hin). apply in_map_iff in Hin as (? & [= -> -> _] & _).
  apply pairs_elem in Hxy as (Ha & Hb & ?); [|apply filter_seqZ_sorted].
  apply ds_countries_elem in Ha as [_ Ha%host_of_country], Hb as [_ Hb%host_of_country]. lia.
Qed.

Lemma weights_of_one x y (ws : list W) a b :
  weights_of (map (fun w => (x, y, w)) ws) a b = if decide ((x, y) = (a, b)) then ws else [].
Proof.
  unfold weights_of. induction ws as [|w ws IH]; cbn [map]; [by case_decide|].
  rewrite filter_cons. cbn [fst]. destruct (decide ((x, y) = (a, b))); cbn [map snd]; by rewrite IH.
Qed.

Lemma weights_coupling a b : a < b ->
  weights_of coupling_emits a b = flat_map (fun d => coupling d a b) (seqZ 0 (GetVertexSet_size g ds_label)).
Proof using Hrows.
  intros Hab. unfold coupling_emits. induction (seqZ 0 _) as [|d l IH]; simpl; [done|].
  rewrite weights_of_app, IH. f_equal. clear IH l.
  assert (forall L, weights_of (flat_map (fun ab => map (fun w => (fst ab, snd ab, w))
      (coupling d (fst ab) (snd ab))) L) a b =
    flat_map (fun _ => coupling d a b) (filter (fun ab => ab = (a, b)) L)) as ->.
  { induction L as [|[x y] L IH]; [done|]. cbn [flat_map]. rewrite weights_of_app, weights_of_one, IH, filter_cons.
    cbn [fst snd]. by destruct (decide ((x, y) = (a, b))) as [[= -> ->]|Hne]. }
  rewrite filter_eq_nodup by (apply pairs_nodup, filter_seqZ_sorted).
  case_decide as Hin; simpl; [by rewrite app_nil_r|].
  rewrite pairs_elem, !ds_countries_elem in Hin by apply filter_seqZ_sorted.
  unfold coupling. destruct (ds_kept d); simpl; [|done].
  destruct (Z.ltb_spec 0 (host_of d a)), (Z.ltb_spec 0 (host_of d b)); simpl; try done. tauto.
Qed.

Lemma coupling_sym d a b : coupling d a b = coupling d b a.
Proof.
  unfold coupling. rewrite Z.min_comm. by destruct (ds_kept d), (0 <? host_of d a), (0 <? host_of d b).
Qed.

(** The weight of two countries: the couplings of all datasources. *)
Definition infra_weight (u v : Z) : option W :=
  if u =? v then None
  else match flat_map (fun d => coupling d u v) (seqZ 0 (GetVertexSet_size g ds_label)) with
       | [] => None
       | ws => Some (wsum ws)
       end.

Lemma min_coupling_ok :
  0 <= n ->
  wp (min_coupling num_ds n (datasource_bucket g ds_label pub_label e_label num_pubs min_hosts pc))
    (aggregated n coupling_emits).
Proof using Hstore Hpubs Hpc Hrows.
  intros Hn. pose proof (so_size _ Hstore ds_label : 0 <= num_ds < _) as Hds.
  assert (min_coupling num_ds n (datasource_bucket g ds_label pub_label e_label num_pubs min_hosts pc) =
    emit_all (vnew n []) coupling_emits) as ->.
  { unfold min_coupling, for_range, emit_all, coupling_emits. rewrite for_each_flat_map.
    apply for_each_ext. intros d agg Hd%elem_of_seqZ.
    pose proof (datasource_bucket_ok d ltac:(lia) ltac:(lia)) as Hb.
    apply wp_exists in Hb as (bucket & -> & Hnd & Hf). simpl.
    rewrite for_each_flat_map. rewrite (sort_items_ok d bucket Hnd Hf), pairs_map, for_each_map.
    assert (vlen bucket = vlen (ds_countries d)) as Hlen.
    { unfold vlen. f_equal. rewrite <-(length_map (fun c => (c, host_of d c))), <-(sort_items_ok d bucket Hnd Hf).
      unfold sort_items. by rewrite merge_sort_Permutation, iter_order_perm. }
    rewrite Hlen. destruct (Z.ltb_spec (vlen (ds_countries d)) 2) as [Hsmall|_].
    { unfold vlen in Hsmall. by destruct (ds_countries d) as [|x [|y l]]; simpl in *; [..|lia]. }
    apply for_each_ext. intros [a b] agg' Hab. simpl.
    apply pairs_elem in Hab as (Ha & Hb & _); [|apply filter_seqZ_sorted].
    apply ds_countries_elem in Ha as [Hk Ha%Z.ltb_lt], Hb as [_ Hb%Z.ltb_lt].
    unfold coupling. rewrite Hk, Ha, Hb. simpl.
    destruct (wleb _ wzero); simpl; [done|]. by destruct (emit agg' a b _). }
  apply emit_all_ok; [done|]. intros a b w Hin%coupling_range. lia.
Qed.

Lemma infra_weight_pair u v : pair_weight (fun _ => true) coupling_emits u v = infra_weight u v.
Proof using Hrows.
  unfold pair_weight, infra_weight. destruct (Z.eqb_spec u v); [done|].
  rewrite weights_coupling by lia. destruct (Z.le_ge_cases u v).
  - rewrite Z.min_l, Z.max_r by lia. by destruct (flat_map _ _).
  - rewrite Z.min_r, Z.max_l by lia.
    assert (flat_map (fun d => coupling d v u) (seqZ 0 (GetVertexSet_size g ds_label)) =
      flat_map (fun d => coupling d u v) (seqZ 0 (GetVertexSet_size g ds_label))) as ->
      by (apply flat_map_ext; intros; apply coupling_sym).
    by destruct (flat_map _ _).
Qed.
End infra.

(** ** The whole projection *)

Lemma infra_pub_countries_ok num_pubs countries (S : Z -> list Z) :
  0 <= num_pubs -> (forall p, 0 <= p < num_pubs -> countries p = Some (S p)) ->
  wp (infra_pub_countries num_pubs countries) (fun pc => vlen pc = num_pubs /\
    forall p, 0 <= p < num_pubs -> vat pc p = S p).
Proof.
  intros Hn HS. apply (wp_for_range (fun k pc => vlen pc = num_pubs /\
    forall p, 0 <= p < k -> vat pc p = S p)); [done|split; [by apply vlen_vnew|lia]| |done].
  intros k pc Hk [Hl Hpc]. rewrite HS by done. simpl. wsteps. split; [vlia|]. intros p Hp.
  rewrite vat_vput by lia. case_decide; [by subst|]. apply Hpc. lia.
Qed.

Section infra_graph.
Context {W : Type} `{!Arith W} `{!HashOrder}.
Context (g : StorageReadInterface) (pub_label org_label ds_label e_po e_dp : Z).
Context (cc_col : Z -> string) (year_col : Z -> Z) (year_min year_max max_orgs min_hosts : Z).
Let num_pubs := GetVertexSet_size g pub_label.
Let num_orgs := GetVertexSet_size g org_label.
Let num_ds := GetVertexSet_size g ds_label.
Context (Hstore : store_ok g) (Hnum : num_orgs <= INT_MAX) (Hpubs : num_pubs <= INT_MAX).

(** The country sets of the publications, as indices into [codes]. *)
Record country_sets (codes : list string) (pc : list (list Z)) : Prop := {
  cs_len : vlen pc = GetVertexSet_size g pub_label;
  cs_sorted p : 0 <= p < GetVertexSet_size g pub_label -> StronglySorted Z.lt (vat pc p);
  cs_elem p k : 0 <= p < GetVertexSet_size g pub_label -> (k ∈ vat pc p <->
    0 <= k < vlen codes /\
    pub_accepted g pub_label org_label e_po year_col year_min year_max max_orgs p = true /\
    pub_in_country g pub_label org_label e_po cc_col p (vat codes k) = true)
}.

Lemma infra_body :
  wp (ci ← index_countries g org_label cc_col num_orgs;
      let num_countries := to_int (Z.of_nat (size (cc_to_idx ci))) in
      if num_countries =? 0 then Some fresh_computer
      else
        pc ← infra_pub_countries num_pubs
          (pub_country_set g pub_label org_label e_po year_col year_min year_max max_orgs num_orgs (org_to_cidx ci));
        agg ← min_coupling num_ds num_countries
          (datasource_bucket g ds_label pub_label e_dp num_pubs min_hosts pc);
        finish_country_graph (fun _ => true) num_countries agg (cc_list ci))
    (fun c => country_vertices g org_label cc_col c /\ exists pc, country_sets (aggregate_keys_ c) pc /\
      weighted_graph (W := W) (num_vertex_ c)
        (infra_weight g ds_label pub_label e_dp min_hosts pc) (adj_ c)).
Proof using Hstore Hnum Hpubs.
  pose proof (so_size _ Hstore org_label : 0 <= num_orgs < _) as Horgs.
  pose proof (so_size _ Hstore pub_label : 0 <= num_pubs < _) as Hpp.
  apply wp_bind. eapply wp_mono; [apply index_countries_ok; lia|]. intros ci Hci.
  pose proof (cv_bound _ _ _ _ _ _ Hci) as Hbound. pose proof (vlen_nonneg (cc_list ci)).
  rewrite (cv_size _ _ _ _ _ _ Hci), to_int_small by vlia. cbv zeta.
  destruct (Z.eqb_spec (vlen (cc_list ci)) 0) as [Hz|Hnz].
  { wsteps. destruct (no_countries (W := W) g pub_label org_label cc_col Hstore ci Hci Hz) as [Hv Hg].
    split; [done|]. exists (vnew num_pubs []). split; [|apply Hg].
    split; [apply vlen_vnew; lia|..]; intros p; [|intros k]; intros Hp; rewrite vat_vnew by done; [constructor|].
    rewrite elem_of_nil. unfold vlen. simpl. lia. }
  set (n := vlen (cc_list ci)) in *.
  set (S p := default [] (pub_country_set g pub_label org_label e_po year_col year_min year_max
    max_orgs num_orgs (org_to_cidx ci) p)).
  assert (forall p, 0 <= p < num_pubs -> pub_country_set g pub_label org_label e_po year_col
    year_min year_max max_orgs num_orgs (org_to_cidx ci) p = Some (S p) /\ StronglySorted Z.lt (S p) /\
    forall k, k ∈ S p <-> 0 <= k < n /\
      pub_accepted g pub_label org_label e_po year_col year_min year_max max_orgs p = true /\
      pub_in_country g pub_label org_label e_po cc_col p (vat (cc_list ci) k) = true) as HS.
  { intros p Hp. pose proof (pub_country_set_ok g pub_label org_label e_po Hstore Hnum cc_col year_col
      year_min year_max max_orgs ci p Hp Hci) as Hwp.
    apply wp_exists in Hwp as (l & Hl & ? & ?). fold num_orgs in Hl. unfold S. rewrite Hl. by split_and!. }
  apply wp_bind. eapply wp_mono; [apply (infra_pub_countries_ok _ _ S); [lia|]|].
  { intros p Hp. by apply HS. }
  intros pc [Hlpc Hpc].
  assert (forall p, 0 <= p < num_pubs -> StronglySorted Z.lt (vat pc p) /\
    forall c, c ∈ vat pc p -> 0 <= c < n) as Hrows.
  { intros p Hp. rewrite Hpc by done. destruct (HS p Hp) as (_ & Hs & Hin). split; [done|].
    intros c Hc. by apply Hin. }
  apply wp_bind. eapply wp_mono; [apply (min_coupling_ok g ds_label pub_label e_dp min_hosts n); try done; lia|].
  intros agg Hagg. eapply wp_mono; [eapply (finish_country_graph_ok _ n); [vlia|done| |done]|].
  { intros a b w Hin. eapply (coupling_range g ds_label pub_label e_dp min_hosts n pc); [|exact Hin]. done. }
  intros c (Hcn & Hck & Hcg & Hci1 & Hci2). split.
  - split; rewrite ?Hck, ?Hcn; try done; apply Hci.
  - exists pc. rewrite Hcn, Hck. split.
    + split; [done|..]; intros p; [|intros k]; intros Hp; rewrite Hpc by done; by apply HS.
    + destruct Hcg as [Hl Hnd Hrow]. split; [done..|]. intros u v w Hu. rewrite Hrow by done.
      by rewrite (infra_weight_pair g ds_label pub_label e_dp min_hosts n pc).
Qed.
End infra_graph.
