(* ===== verification/Call.v ===== *)
(** * The CALL functions

    [LOUVAIN], [LOUVAIN_COAUTHOR], [LOUVAIN_INFRA_COUNTRY],
    [LOUVAIN_DATASOURCE] (extension/louvain/include/louvain_functions.h) and
    [KCORE], [KCORE_COAUTHOR], [KCORE_PROJECT]
    (extension/kcore/include/kcore_functions.h): binding the arguments of the
    query, running the computer, writing the CSV files and building the
    one-row result.

    The clock, the file system - which directories can be created and which files
    opened - and the property columns are parameters; a file is its path and contents.  Logging is left out. *)
From S2P Require Import Prelude Num Storage KCore GraphBuild Aggregate Projection KcoreCompute Louvain.
From Stdlib Require Import Ascii.
#[local] Open Scope Z_scope.

(** ** Text *)

Definition nl : string := String (ascii_of_nat 10) EmptyString.
Definition quote : ascii := ascii_of_nat 34.
Definition qs : string := String quote EmptyString.
Definition comma : string := ","%string.

(** [std::string::find(c) != npos]. *)
Fixpoint contains (c : ascii) (s : string) : bool :=
  match s with
  | EmptyString => false
  | String x s' => Ascii.eqb x c || contains c s'
  end.

Fixpoint double_quotes (s : string) : string :=
  match s with
  | EmptyString => EmptyString
  | String c s' =>
      if Ascii.eqb c quote then String quote (String quote (double_quotes s'))
      else String c (double_quotes s')
  end.

(** The [escape_csv] lambda. *)
Definition escape_csv (s : string) : string :=
  if contains ","%char s || contains quote s || contains (ascii_of_nat 10) s
  then String quote (double_quotes s +:+ qs) else s.

(** [s.find('|')] with the two [substr]s; both parts are empty without a bar. *)
Fixpoint split_bar_at (s : string) : option (string * string) :=
  match s with
  | EmptyString => None
  | String c s' =>
      if Ascii.eqb c "|"%char then Some (EmptyString, s')
      else match split_bar_at s' with
           | Some (a, b) => Some (String c a, b)
           | None => None
           end
  end.
Definition split_bar (s : string) : string * string := default (EmptyString, EmptyString) (split_bar_at s).

(** ** Arguments *)

Section calls.
Context {W : Type} `{!Arith W} `{!HashOrder}.

(** A constant of the physical plan: the accessor of another alternative
    returns its zero. *)
Inductive constant :=
| I64 (z : Z)
| F64 (w : W).
Definition const_i64 (c : constant) : Z := match c with I64 z => z | F64 _ => 0 end.
Definition const_f64 (c : constant) : W := match c with F64 w => w | I64 _ => wzero end.

(** The arguments of the call; [None] is an argument that is not a constant. *)
Abbreviation arguments := (list (option constant)).

(** [arguments_size() > k && arguments(k).has_const_()]. *)
Definition arg_i64 (args : arguments) (k : nat) (d : Z) : Z :=
  match args !! k with Some (Some c) => const_i64 c | _ => d end.
Definition arg_f64 (args : arguments) (k : nat) (d : W) : W :=
  match args !! k with Some (Some c) => const_f64 c | _ => d end.

Inductive LogicalTypeID := TString | TInt64 | TDouble.

Record LouvainInput := { li_max_iter : Z; li_resolution : W; li_max_levels : Z }.
Record LouvainCoauthorInput := {
  lc_year_min : Z; lc_year_max : Z; lc_max_coauthors : Z; lc_max_iter : Z; lc_resolution : W;
  lc_max_levels : Z }.
Record LouvainInfraCountryInput := {
  lf_year_min : Z; lf_year_max : Z; lf_min_hosts : Z; lf_max_author_orgs : Z; lf_max_iter : Z;
  lf_resolution : W; lf_max_levels : Z }.
Record LouvainDatasourceInput := {
  ld_year_min : Z; ld_year_max : Z; ld_min_pubs : Z; ld_max_iter : Z; ld_resolution : W;
  ld_max_levels : Z }.
Record KcoreCoauthorInput := {
  kci_year_min : Z; kci_year_max : Z; kci_max_coauthors : Z; kci_min_edge_weight : Z }.
Record KcoreProjectInput := {
  kpi_year_min : Z; kpi_year_max : Z; kpi_min_org_projects : Z; kpi_min_edge_weight : Z }.

(** ** Results *)

Inductive cell :=
| CString (s : string)
| CInt64 (z : Z)
| CDouble (w : W).

(** The [outputCols] of the functions, by type. *)
Definition cell_type (c : cell) : LogicalTypeID :=
  match c with CString _ => TString | CInt64 _ => TInt64 | CDouble _ => TDouble end.
Definition louvain_columns : list LogicalTypeID := [TString; TInt64; TInt64; TDouble; TInt64; TString; TString].
Definition projection_columns : list LogicalTypeID := [TString; TInt64; TInt64; TDouble; TInt64; TString].
Definition kcore_columns : list LogicalTypeID := [TString; TInt64; TInt64; TInt64; TInt64; TString].

(** What a call leaves behind: the row of its [Context] (empty for an empty
    context), or an exception, and the files it wrote. *)
Record exec_result := ExecResult { er_row : outcome (list cell); er_files : list (string * string) }.

(** The outside world of one call. *)
Record call_env := {
  now_ms : Z;                                   (* system_clock in ms, result file *)
  props_ms : Z;                                 (* system_clock in ms, property directory *)
  can_open : string -> bool;                    (* ofstream::is_open *)
  can_create : string -> bool;                  (* create_directories; false: it throws filesystem_error *)
  property_names : Z -> list string;            (* get_vertex_property_names(label) *)
  property_value : Z -> Z -> Z -> option string (* label, vid, column; None: throws *)
}.
Context (env : call_env).

Definition louvain_dir : string := "/tmp/p/neug_louvain".
Definition kcore_dir : string := "/tmp/p/neug_kcore".

(** The path of a result file, and the functions that create its directory first. *)
Definition output_path (dir prefix : string) : string :=
  (dir +:+ "/" +:+ prefix +:+ "_" +:+ to_string (now_ms env) +:+ ".csv")%string.
Definition GenerateLouvainOutputPath (prefix : string) : outcome string :=
  if can_create env louvain_dir then Returned (output_path louvain_dir prefix) else Thrown.
Definition GenerateKcoreOutputPath (prefix : string) : outcome string :=
  if can_create env kcore_dir then Returned (output_path kcore_dir prefix) else Thrown.

(** The rest of a call, unless the path throws. *)
Definition with_path (path : outcome string) (rest : string -> option exec_result) : option exec_result :=
  match path with Thrown => Some (ExecResult Thrown []) | Returned outputFile => rest outputFile end.

(** The lines of a CSV file, one per vertex. *)
Definition csv (header : string) (n : Z) (line : Z -> option string) : option string :=
  for_range n (header +:+ nl)%string (fun i out => l ← line i; Some (out +:+ l +:+ nl)%string).

(** [result.aggregate_keys[i]], or the empty string past the end. *)
Definition key_or_empty (keys : list string) (i : Z) : string := default EmptyString (vget keys i).

Definition louvain_row (r : Result W) (file : string) : list cell :=
  [CString "success"; CInt64 (r_num_vertices r); CInt64 (r_num_communities r);
   CDouble (r_modularity r); CInt64 (r_levels_completed r); CString file].

(** *** LOUVAIN *)

Definition louvain_line (r : Result W) (i : Z) : option string :=
  lv ← vget (r_id_mapping r) i;
  c ← vget (r_community r) i;
  Some (to_string i +:+ comma +:+ to_string (fst lv) +:+ comma +:+ to_string (snd lv) +:+ comma +:+ to_string c).

(** [schema.get_vertex_label_name]. *)
Definition get_vertex_label_name (sch : Schema) (index : Z) : option (outcome string) :=
  t ← vget (vlabel_tomb sch) index;
  if (t : bool) then Some Thrown
  else name ← vget (vlabel_indexer sch) index; Some (Returned name).

(** [label_info_map] and [label_to_vertices]: the name and the vertices of
    each label, the name looked up at its first vertex. *)
Definition group_by_label (sch : Schema) (r : Result W) : option (outcome (umap (string * list Z))) :=
  for_range (r_num_vertices r) (Returned []) (fun i acc =>
    match acc with
    | Thrown => Some Thrown
    | Returned m =>
        lv ← vget (r_id_mapping r) i;
        let push := fun x : string * list Z => (fst x, snd x ++ [i]) in
        match umap_find m (fst lv) with
        | Some x => Some (Returned (umap_update m (fst lv) x push))
        | None =>
            nm ← get_vertex_label_name sch (fst lv);
            match nm with
            | Thrown => Some Thrown
            | Returned name => Some (Returned (umap_update m (fst lv) (name, []) push))
            end
        end
    end).

(** One line of a property file. *)
Definition property_line (r : Result W) (vlabel gid : Z) : option string :=
  lv ← vget (r_id_mapping r) gid;
  c ← vget (r_community r) gid;
  let cells := map (fun pi =>
    (comma +:+ match property_value env vlabel (snd lv) pi with
               | Some v => escape_csv v
               | None => EmptyString
               end)%string) (seqZ 0 (vlen (property_names env vlabel))) in
  Some (to_string gid +:+ comma +:+ to_string (snd lv) +:+ comma +:+ to_string c +:+ String.concat EmptyString cells).

Definition property_header (vlabel : Z) : string :=
  ("global_id,original_vid,community_id" +:+
   String.concat EmptyString (map (fun p => comma +:+ p) (property_names env vlabel)))%string.

Definition property_file (r : Result W) (vlabel : Z) (ids : list Z) : option string :=
  for_each ids (property_header vlabel +:+ nl)%string (fun gid out =>
    l ← property_line r vlabel gid; Some (out +:+ l +:+ nl)%string).

(** The per-label files; a file that cannot be opened is skipped. *)
Definition property_files (sch : Schema) (dir : string) (r : Result W) :
    option (outcome (list (string * string))) :=
  groups ← group_by_label sch r;
  match groups with
  | Thrown => Some Thrown
  | Returned m =>
      files ← for_each (iter_order 0 m) [] (fun '(vlabel, (name, ids)) files =>
        let path := (dir +:+ "/" +:+ name +:+ ".csv")%string in
        if can_open env path then
          body ← property_file r vlabel ids;
          Some (files ++ [(path, body)])
        else Some files);
      Some (Returned files)
  end.

(** A call on a graph that is no [StorageReadInterface], or whose result file
    cannot be opened, returns an empty context. *)
Definition empty_result : option exec_result := Some (ExecResult (Returned []) []).

Definition ExecuteLouvain (graph : option StorageReadInterface) (inp : LouvainInput) :
    option exec_result :=
  match graph with
  | None => empty_result
  | Some g =>
      r ← Compute {| max_iterations_ := to_int (li_max_iter inp); resolution_ := li_resolution inp;
                     max_levels_ := to_int (li_max_levels inp) |} g Plain;
      with_path (GenerateLouvainOutputPath "louvain") (fun outputFile =>
        if negb (can_open env outputFile) then empty_result
        else
          body ← csv "global_id,vertex_label,original_vid,community_id" (r_num_vertices r) (louvain_line r);
          let propsDir := (louvain_dir +:+ "/props_" +:+ to_string (props_ms env))%string in
          if negb (can_create env propsDir) then Some (ExecResult Thrown [(outputFile, body)])
          else
            pf ← property_files (schema g) propsDir r;
            match pf with
            | Thrown => Some (ExecResult Thrown [(outputFile, body)])
            | Returned files =>
                Some (ExecResult (Returned (louvain_row r outputFile ++ [CString propsDir])) ((outputFile, body) :: files))
            end)
  end.

(** *** LOUVAIN_COAUTHOR, LOUVAIN_INFRA_COUNTRY *)

Definition country_line (r : Result W) (i : Z) : option string :=
  c ← vget (r_community r) i;
  Some (to_string i +:+ comma +:+ key_or_empty (r_aggregate_keys r) i +:+ comma +:+ to_string c).

(** Running a projection and writing its one file. *)
Definition run_projection (graph : option StorageReadInterface) (p : params W) (mode : louvain_mode)
    (prefix header : string) (line : Result W -> Z -> option string) : option exec_result :=
  match graph with
  | None => empty_result
  | Some g =>
      r ← Compute p g mode;
      with_path (GenerateLouvainOutputPath prefix) (fun outputFile =>
        if negb (can_open env outputFile) then empty_result
        else
          body ← csv header (r_num_vertices r) (line r);
          Some (ExecResult (Returned (louvain_row r outputFile)) [(outputFile, body)]))
  end.

Definition ExecuteLouvainCoauthor (graph : option StorageReadInterface) (inp : LouvainCoauthorInput) :
    option exec_result :=
  run_projection graph
    {| max_iterations_ := to_int (lc_max_iter inp); resolution_ := lc_resolution inp;
       max_levels_ := to_int (lc_max_levels inp) |}
    (Coauthor {| ca_year_min := lc_year_min inp; ca_year_max := lc_year_max inp;
                 ca_max_coauthors := to_int (lc_max_coauthors inp) |})
    "louvain_coauthor" "global_id,country_code,community_id" country_line.

Definition ExecuteLouvainInfraCountry (graph : option StorageReadInterface)
    (inp : LouvainInfraCountryInput) : option exec_result :=
  run_projection graph
    {| max_iterations_ := to_int (lf_max_iter inp); resolution_ := lf_resolution inp;
       max_levels_ := to_int (lf_max_levels inp) |}
    (Infra {| in_year_min := lf_year_min inp; in_year_max := lf_year_max inp;
              in_min_hosts_per_datasource := to_int (lf_min_hosts inp);
              in_max_author_orgs := to_int (lf_max_author_orgs inp) |})
    "louvain_infra_country" "global_id,country_code,community_id" country_line.

(** *** LOUVAIN_DATASOURCE *)

Definition datasource_line (r : Result W) (i : Z) : option string :=
  c ← vget (r_community r) i;
  let '(org_id, cc) := split_bar (key_or_empty (r_aggregate_extra r) i) in
  Some (to_string i +:+ comma +:+ qs +:+ key_or_empty (r_aggregate_keys r) i +:+ qs +:+ comma +:+
        org_id +:+ comma +:+ cc +:+ comma +:+ to_string c).

Definition ExecuteLouvainDatasource (graph : option StorageReadInterface)
    (inp : LouvainDatasourceInput) : option exec_result :=
  run_projection graph
    {| max_iterations_ := to_int (ld_max_iter inp); resolution_ := ld_resolution inp;
       max_levels_ := to_int (ld_max_levels inp) |}
    (Datasource {| dc_year_min := ld_year_min inp; dc_year_max := ld_year_max inp;
                   dc_min_pubs := to_int (ld_min_pubs inp) |})
    "louvain_datasource" "global_id,datasource_id,provider_org_id,provider_country_code,community_id"
    datasource_line.

(** *** KCORE, KCORE_COAUTHOR, KCORE_PROJECT *)

Definition kcore_row (r : KcoreResult) (file : string) : list cell :=
  [CString "success"; CInt64 (kr_num_vertices r); CInt64 (kr_max_coreness r);
   CInt64 (kr_num_in_max_core r); CInt64 (kr_num_edges r); CString file].

(** The k-core functions do not test [is_open]: a closed stream drops its
    output, and the call still succeeds. *)
Definition run_kcore (graph : option StorageReadInterface) (mode : kcore_mode) (prefix header : string)
    (line : KcoreResult -> Z -> option string) : option exec_result :=
  match graph with
  | None => empty_result
  | Some g =>
      r ← Kcore_Compute (W := W) g mode;
      with_path (GenerateKcoreOutputPath prefix) (fun outputFile =>
        body ← csv header (kr_num_vertices r) (line r);
        Some (ExecResult (Returned (kcore_row r outputFile)) (if can_open env outputFile then [(outputFile, body)] else [])))
  end.

Definition kcore_line (r : KcoreResult) (i : Z) : option string :=
  lv ← vget (kr_id_mapping r) i;
  c ← vget (kr_coreness r) i;
  Some (to_string i +:+ comma +:+ to_string (fst lv) +:+ comma +:+ to_string (snd lv) +:+ comma +:+ to_string c).

Definition kcore_country_line (r : KcoreResult) (i : Z) : option string :=
  c ← vget (kr_coreness r) i;
  Some (to_string i +:+ comma +:+ key_or_empty (kr_aggregate_keys r) i +:+ comma +:+ to_string c).

Definition kcore_project_line (r : KcoreResult) (i : Z) : option string :=
  c ← vget (kr_coreness r) i;
  Some (to_string i +:+ comma +:+ qs +:+ key_or_empty (kr_aggregate_keys r) i +:+ qs +:+ comma +:+
        key_or_empty (kr_aggregate_extra r) i +:+ comma +:+ to_string c).

Definition ExecutePlain (graph : option StorageReadInterface) : option exec_result :=
  run_kcore graph KPlain "kcore" "global_id,vertex_label,original_vid,coreness" kcore_line.

Definition ExecuteCoauthor (graph : option StorageReadInterface) (inp : KcoreCoauthorInput) :
    option exec_result :=
  run_kcore graph
    (KCoauthor {| kc_year_min := kci_year_min inp; kc_year_max := kci_year_max inp;
                  kc_max_coauthors := to_int (kci_max_coauthors inp);
                  kc_min_edge_weight := to_int (kci_min_edge_weight inp) |})
    "kcore_coauthor" "global_id,country_code,coreness" kcore_country_line.

Definition ExecuteProject (graph : option StorageReadInterface) (inp : KcoreProjectInput) :
    option exec_result :=
  run_kcore graph
    (KProject {| pc_year_min := kpi_year_min inp; pc_year_max := kpi_year_max inp;
                 pc_min_org_projects := to_int (kpi_min_org_projects inp);
                 pc_min_edge_weight := to_int (kpi_min_edge_weight inp);
                 pc_max_project_size := 200 |})
    "kcore_project" "global_id,org_id,country_code,coreness" kcore_project_line.

(** ** The function sets *)

(** An overload: its parameter types, its [bindFunc] and its [execFunc]. *)
Record overload (I : Type) := Overload {
  ov_types : list LogicalTypeID;
  ov_bind : arguments -> I;
  ov_exec : option StorageReadInterface -> I -> option exec_result
}.
Arguments Overload {I}.
Arguments ov_types {I}.
Arguments ov_bind {I}.
Arguments ov_exec {I}.

(** A call: binding, then execution. *)
Definition call {I} (o : overload I) (args : arguments) (graph : option StorageReadInterface) :
    option exec_result :=
  ov_exec o graph (ov_bind o args).

Definition louvain_overloads : list (overload LouvainInput) := [
  Overload [] (fun _ => {| li_max_iter := 20; li_resolution := wone; li_max_levels := 10 |}) ExecuteLouvain;
  Overload [TInt64; TDouble; TInt64] (fun args =>
    {| li_max_iter := arg_i64 args 0 20; li_resolution := arg_f64 args 1 wone;
       li_max_levels := arg_i64 args 2 10 |}) ExecuteLouvain].

Definition coauthor_overloads : list (overload LouvainCoauthorInput) := [
  Overload [TInt64; TInt64] (fun args =>
    {| lc_year_min := arg_i64 args 0 0; lc_year_max := arg_i64 args 1 0; lc_max_coauthors := 30;
       lc_max_iter := 20; lc_resolution := wone; lc_max_levels := 10 |}) ExecuteLouvainCoauthor;
  Overload [TInt64; TInt64; TInt64; TInt64; TDouble; TInt64] (fun args =>
    {| lc_year_min := arg_i64 args 0 0; lc_year_max := arg_i64 args 1 0;
       lc_max_coauthors := arg_i64 args 2 30; lc_max_iter := arg_i64 args 3 20;
       lc_resolution := arg_f64 args 4 wone; lc_max_levels := arg_i64 args 5 10 |}) ExecuteLouvainCoauthor].

Definition infra_overloads : list (overload LouvainInfraCountryInput) := [
  Overload [TInt64; TInt64] (fun args =>
    {| lf_year_min := arg_i64 args 0 0; lf_year_max := arg_i64 args 1 0; lf_min_hosts := 0;
       lf_max_author_orgs := 30; lf_max_iter := 20; lf_resolution := wone; lf_max_levels := 10 |}) ExecuteLouvainInfraCountry;
  Overload [TInt64; TInt64; TInt64; TInt64; TInt64; TDouble; TInt64] (fun args =>
    {| lf_year_min := arg_i64 args 0 0; lf_year_max := arg_i64 args 1 0;
       lf_min_hosts := arg_i64 args 2 0; lf_max_author_orgs := arg_i64 args 3 30;
       lf_max_iter := arg_i64 args 4 20; lf_resolution := arg_f64 args 5 wone;
       lf_max_levels := arg_i64 args 6 10 |}) ExecuteLouvainInfraCountry].

Definition datasource_overloads : list (overload LouvainDatasourceInput) := [
  Overload [TInt64; TInt64] (fun args =>
    {| ld_year_min := arg_i64 args 0 0; ld_year_max := arg_i64 args 1 0; ld_min_pubs := 100;
       ld_max_iter := 20; ld_resolution := wone; ld_max_levels := 10 |}) ExecuteLouvainDatasource;
  Overload [TInt64; TInt64; TInt64; TInt64; TDouble; TInt64] (fun args =>
    {| ld_year_min := arg_i64 args 0 0; ld_year_max := arg_i64 args 1 0;
       ld_min_pubs := arg_i64 args 2 100; ld_max_iter := arg_i64 args 3 20;
       ld_resolution := arg_f64 args 4 wone; ld_max_levels := arg_i64 args 5 10 |}) ExecuteLouvainDatasource].

Definition kcore_overloads : list (overload unit) := [Overload [] (fun _ => tt) (fun graph _ => ExecutePlain graph)].

Definition kcore_coauthor_overloads : list (overload KcoreCoauthorInput) := [
  Overload [TInt64; TInt64] (fun args =>
    {| kci_year_min := arg_i64 args 0 0; kci_year_max := arg_i64 args 1 0;
       kci_max_coauthors := 30; kci_min_edge_weight := 1 |}) ExecuteCoauthor;
  Overload [TInt64; TInt64; TInt64; TInt64] (fun args =>
    {| kci_year_min := arg_i64 args 0 0; kci_year_max := arg_i64 args 1 0;
       kci_max_coauthors := arg_i64 args 2 30; kci_min_edge_weight := arg_i64 args 3 1 |}) ExecuteCoauthor].

Definition kcore_project_overloads : list (overload KcoreProjectInput) := [
  Overload [TInt64; TInt64] (fun args =>
    {| kpi_year_min := arg_i64 args 0 0; kpi_year_max := arg_i64 args 1 0;
       kpi_min_org_projects := 1; kpi_min_edge_weight := 1 |}) ExecuteProject;
  Overload [TInt64; TInt64; TInt64; TInt64] (fun args =>
    {| kpi_year_min := arg_i64 args 0 0; kpi_year_max := arg_i64 args 1 0;
       kpi_min_org_projects := arg_i64 args 2 1; kpi_min_edge_weight := arg_i64 args 3 1 |}) ExecuteProject].

End calls.
