(* ===== verification/Csv.v ===== *)
(** * Reading the result files back

    A reader of comma-separated records in the style of RFC 4180, the
    specification the writers of [Call] are proved against. *)
From S2P Require Import Prelude Num Storage KCore GraphBuild Aggregate Projection KcoreCompute Louvain Call.
From Stdlib Require Import Ascii.
#[local] Open Scope Z_scope.
#[local] Open Scope string_scope.

Definition newline : ascii := ascii_of_nat 10.
Definition ends_field (c : ascii) : bool := Ascii.eqb c ","%char || Ascii.eqb c newline.

(** An unquoted field ends before the next comma or line end. *)
Fixpoint read_plain (s : string) : string * string :=
  match s with
  | EmptyString => (EmptyString, EmptyString)
  | String c s' => if ends_field c then (EmptyString, s)
                   else let '(f, r) := read_plain s' in (String c f, r)
  end.

(** A quoted field, after its opening quote: a doubled quote stands for one. *)
Fixpoint read_quoted (s : string) : option (string * string) :=
  match s with
  | EmptyString => None
  | String c s' =>
      if Ascii.eqb c quote then
        match s' with
        | String d s'' =>
            if Ascii.eqb d quote then '(f, r) ← read_quoted s''; Some (String quote f, r)
            else Some (EmptyString, s')
        | EmptyString => Some (EmptyString, EmptyString)
        end
      else '(f, r) ← read_quoted s'; Some (String c f, r)
  end.

Definition read_field (s : string) : option (string * string) :=
  match s with
  | String c s' => if Ascii.eqb c quote then read_quoted s' else Some (read_plain s)
  | EmptyString => Some (EmptyString, EmptyString)
  end.

(** At most [width] fields up to the line end. *)
Fixpoint read_record (width : nat) (s : string) : option (list string * string) :=
  match width with
  | O => None
  | S width =>
      '(f, r) ← read_field s;
      match r with
      | EmptyString => Some ([f], EmptyString)
      | String c r' =>
          if Ascii.eqb c newline then Some ([f], r')
          else if Ascii.eqb c ","%char then '(fs, r'') ← read_record width r'; Some (f :: fs, r'')
          else None
      end
  end.

(** At most [height] records. *)
Fixpoint read_csv (width height : nat) (s : string) : option (list (list string)) :=
  match s, height with
  | EmptyString, _ => Some []
  | _, O => None
  | _, S height => '(rec, r) ← read_record width s; recs ← read_csv width height r; Some (rec :: recs)
  end.

(** [s] consists of [rows], for every reader that is wide and high enough. *)
Definition csv_of (s : string) (rows : list (list string)) : Prop :=
  forall width height, Forall (fun row => (length row <= width)%nat) rows -> (length rows <= height)%nat ->
    read_csv width height s = Some rows.

(** The remainder after a field. *)
Definition field_end (r : string) : Prop :=
  match r with EmptyString => True | String c _ => ends_field c = true end.

(** [s] reads back as the field [v]. *)
Definition field_of (s v : string) : Prop :=
  forall r, field_end r -> read_field (s +:+ r) = Some (v, r).

(** [l] reads back as the record [row]. *)
Definition record_of (l : string) (row : list string) : Prop :=
  forall width r, (length row <= width)%nat -> read_record width (l +:+ nl +:+ r) = Some (row, r).

(** ** Fields *)

Lemma sapp_assoc (a b c : string) : (a +:+ b) +:+ c = a +:+ (b +:+ c).
Proof. induction a as [|x a IH]; [done|]. change (String x ((a +:+ b) +:+ c) = String x (a +:+ (b +:+ c))). by rewrite IH. Qed.

Lemma sapp_nil_r (a : string) : a +:+ "" = a.
Proof. induction a as [|x a IH]; [done|]. change (String x (a +:+ "") = String x a). by rewrite IH. Qed.

(** No separator and no quote. *)
Definition plain (v : string) : Prop :=
  contains ","%char v = false /\ contains quote v = false /\ contains newline v = false.

Lemma read_plain_spec v r :
  contains ","%char v = false -> contains newline v = false -> field_end r -> read_plain (v +:+ r) = (v, r).
Proof.
  intros Hc Hn Hr. induction v as [|x v IH].
  - destruct r as [|c r]; [done|]. simpl in *. by rewrite Hr.
  - simpl in Hc, Hn. apply orb_false_iff in Hc as [Hxc Hc], Hn as [Hxn Hn].
    change (read_plain (String x (v +:+ r)) = (String x v, r)). simpl. unfold ends_field. rewrite Hxc, Hxn. simpl.
    by rewrite (IH Hc Hn).
Qed.

Lemma field_plain v : plain v -> field_of v v.
Proof.
  intros (Hc & Hq & Hn) r Hr. pose proof (read_plain_spec v r Hc Hn Hr) as Hp. destruct v as [|y v].
  - change (read_field r = Some ("", r)). change (read_plain r = ("", r)) in Hp.
    destruct r as [|c r]; [done|]. unfold read_field. rewrite Hp.
    destruct (Ascii.eqb_spec c quote) as [->|]; [discriminate Hr|done].
  - change (read_field (String y (v +:+ r)) = Some (String y v, r)).
    change (read_plain (String y (v +:+ r)) = (String y v, r)) in Hp. unfold read_field. rewrite Hp.
    simpl in Hq. by apply orb_false_iff in Hq as [-> _].
Qed.

Lemma read_quoted_spec v r : field_end r -> read_quoted (double_quotes v +:+ qs +:+ r) = Some (v, r).
Proof.
  intros Hr. induction v as [|x v IH].
  - simpl. destruct r as [|c r]; [done|]. simpl in *.
    destruct (Ascii.eqb_spec c quote) as [->|]; [|done]. discriminate Hr.
  - simpl. destruct (Ascii.eqb_spec x quote) as [->|Hne].
    + change (read_quoted (String quote (String quote (double_quotes v +:+ qs +:+ r))) = Some (String quote v, r)).
      simpl. by rewrite IH.
    + change (read_quoted (String x (double_quotes v +:+ qs +:+ r)) = Some (String x v, r)).
      simpl. rewrite (proj2 (Ascii.eqb_neq _ _) Hne). by rewrite IH.
Qed.

Lemma field_escaped v : field_of (escape_csv v) v.
Proof.
  unfold escape_csv. destruct (contains "," v || contains quote v || contains (ascii_of_nat 10) v) eqn:Hb.
  - intros r Hr. change (read_field (String quote ((double_quotes v +:+ qs) +:+ r)) = Some (v, r)).
    simpl. rewrite sapp_assoc. by apply read_quoted_spec.
  - apply orb_false_iff in Hb as [[Hc Hq]%orb_false_iff Hn]. by apply field_plain.
Qed.

(** Quotes around the field without doubling those inside. *)
Lemma double_quotes_id v : contains quote v = false -> double_quotes v = v.
Proof.
  induction v as [|x v IH]; [done|]. simpl. intros [Hx Hv]%orb_false_iff. by rewrite Hx, IH.
Qed.

Lemma field_quoted v : contains quote v = false -> field_of (qs +:+ v +:+ qs) v.
Proof.
  intros Hv r Hr. change (read_quoted ((v +:+ qs) +:+ r) = Some (v, r)). rewrite sapp_assoc.
  rewrite <-(double_quotes_id v Hv) at 1. by apply read_quoted_spec.
Qed.

(** ** Records *)

Lemma record_one s v : field_of s v -> record_of s [v].
Proof. intros Hf [|width] r Hw; simpl in *; [lia|]. by rewrite (Hf (nl +:+ r)). Qed.

Lemma record_cons s v l row : field_of s v -> record_of l row -> record_of (s +:+ comma +:+ l) (v :: row).
Proof.
  intros Hf Hl [|width] r Hw; simpl in *; [lia|]. rewrite !sapp_assoc.
  rewrite (Hf (comma +:+ l +:+ nl +:+ r)) by done. simpl.
  change ("" +:+ l +:+ nl +:+ r) with (l +:+ nl +:+ r). by rewrite (Hl width r) by lia.
Qed.

Lemma record_quoted v l row :
  contains quote v = false -> record_of l row -> record_of (qs +:+ v +:+ qs +:+ comma +:+ l) (v :: row).
Proof.
  intros Hv Hl. pose proof (record_cons (qs +:+ v +:+ qs) v l row (field_quoted v Hv) Hl) as Hr.
  by rewrite !sapp_assoc in Hr.
Qed.

(** A first field, then one after a comma for each element of [xs]. *)
Lemma record_fields {A} (f g : A -> string) (xs : list A) s v :
  field_of s v -> (forall x, field_of (f x) (g x)) ->
  record_of (s +:+ String.concat "" (map (fun x => comma +:+ f x) xs)) (v :: map g xs).
Proof.
  intros Hs Hf. revert s v Hs. induction xs as [|x xs IH]; intros s v Hs.
  - simpl. rewrite sapp_nil_r. by apply record_one.
  - assert (String.concat "" (map (fun x => comma +:+ f x) (x :: xs)) =
      comma +:+ (f x +:+ String.concat "" (map (fun x => comma +:+ f x) xs))) as ->.
    { destruct xs; simpl; [by rewrite sapp_nil_r|done]. }
    apply record_cons; [done|]. apply (IH (f x) (g x)), Hf.
Qed.

(** ** Numbers *)

Lemma plain_cons c v :
  c <> ","%char -> c <> quote -> c <> newline -> plain v -> plain (String c v).
Proof.
  intros H1 H2 H3 (Hc & Hq & Hn). split_and!; simpl;
    rewrite ?(proj2 (Ascii.eqb_neq _ _) H1), ?(proj2 (Ascii.eqb_neq _ _) H2), ?(proj2 (Ascii.eqb_neq _ _) H3); done.
Qed.

Lemma plain_pretty_N_go x s : plain s -> plain (pretty.pretty_N_go x s).
Proof.
  revert s. induction (N.lt_wf_0 x) as [x _ IH]; intros s Hs.
  destruct (decide (0 < x)%N) as [Hx|Hx].
  - rewrite pretty.pretty_N_go_step by done. apply IH; [by apply N.div_lt|].
    unfold pretty.pretty_N_char. repeat case_match; by apply plain_cons.
  - assert (x = 0)%N as -> by lia. by rewrite pretty.pretty_N_go_0.
Qed.

Lemma plain_pretty_N x : plain (pretty.pretty_N x).
Proof. unfold pretty.pretty_N. case_decide; [done|]. by apply plain_pretty_N_go. Qed.

Lemma plain_to_string z : plain (to_string z).
Proof.
  destruct z as [|p|p]; [done|apply (plain_pretty_N (Npos p))|].
  apply (plain_cons "-" (pretty.pretty_N (Npos p))); [done..|apply plain_pretty_N].
Qed.

Lemma field_number z : field_of (to_string z) (to_string z).
Proof. apply field_plain, plain_to_string. Qed.

(** ** Files *)

Lemma csv_of_nil : csv_of "" [].
Proof. by intros width [|height] _ _. Qed.

Lemma csv_of_cons l row s rows :
  record_of l row -> row <> [] -> csv_of s rows -> csv_of (l +:+ nl +:+ s) (row :: rows).
Proof.
  intros Hl Hne Hs width [|height] Hw Hh; simpl in Hh; [lia|].
  apply Forall_cons in Hw as [Hrow Hrows].
  assert (exists c t, l +:+ nl +:+ s = String c t) as (c & t & Heq).
  { destruct l as [|c l]; [by exists newline, s|]. by exists c, (l +:+ nl +:+ s). }
  pose proof (Hl width s Hrow) as Hread. rewrite Heq in *. simpl. rewrite Hread. simpl.
  by rewrite (Hs width height) by (done || lia).
Qed.

(** Appending a line to the lines already written. *)
Lemma for_each_csv {A} (line : A -> option string) (row : A -> list string) (xs : list A) s :
  (forall x, x ∈ xs -> exists l, line x = Some l /\ record_of l (row x) /\ row x <> []) ->
  exists t, for_each xs s (fun x out => l ← line x; Some (out +:+ l +:+ nl)) = Some (s +:+ t) /\
    csv_of t (map row xs).
Proof.
  revert s. induction xs as [|x xs IH]; intros s Hx.
  - exists "". split; [by rewrite sapp_nil_r|apply csv_of_nil].
  - destruct (Hx x) as (l & Hl & Hrec & Hne); [by left|].
    destruct (IH (s +:+ l +:+ nl)) as (t & Ht & Hcsv); [intros; apply Hx; by right|].
    exists (l +:+ nl +:+ t). split; [|by apply csv_of_cons].
    simpl. rewrite Hl. simpl. rewrite Ht. by rewrite !sapp_assoc.
Qed.

(** The files of [csv]: a header and one record per index. *)
Lemma csv_reads header names n (line : Z -> option string) (row : Z -> list string) :
  0 <= n -> record_of header names -> names <> [] ->
  (forall i, 0 <= i < n -> exists l, line i = Some l /\ record_of l (row i) /\ row i <> []) ->
  exists body, csv header n line = Some body /\ csv_of body (names :: map row (seqZ 0 n)).
Proof.
  intros Hn Hh Hne Hl. unfold csv, for_range.
  destruct (for_each_csv line row (seqZ 0 n) (header +:+ nl)) as (t & Ht & Hcsv).
  { intros i Hi%elem_of_seqZ. apply Hl. lia. }
  exists (header +:+ nl +:+ t). rewrite Ht, sapp_assoc. split; [done|]. by apply csv_of_cons.
Qed.
