(* ===== verification/Sample.v ===== *)
(** * A sample store

    A small bibliographic store, the concrete input of the examples: three
    publications, four organisations in three countries, two datasources and
    two projects. *)
From S2P Require Import Prelude Num Storage KCore GraphBuild Aggregate.
#[local] Open Scope Z_scope.

Definition sample_schema : Schema := {|
  vlabel_indexer := ["Publication"; "Organization"; "Datasource"; "Project"]%string;
  vlabel_tomb := [false; false; false; false];
  e_schemas := [generate_edge_label 0 1 0; generate_edge_label 2 0 1;
                generate_edge_label 2 1 2; generate_edge_label 1 3 3]
|}.

Definition sample_size (L : Z) : Z := default 0 ([3; 4; 2; 2] !! Z.to_nat L).

(** Targets by source vertex, per edge label. *)
Definition sample_targets (e : Z) : list (list Z) :=
  match e with
  | 0 => [[0; 1]; [0; 2; 3]; [1; 2; 3]]
  | 1 => [[0; 1; 2]; [0; 2; 2]]
  | 2 => [[0]; [3]]
  | 3 => [[0]; [0; 1]; [1]; []]
  | _ => []
  end.
Definition sample_edges (src dst e v : Z) : list Z :=
  if decide (generate_edge_label src dst e ∈ e_schemas sample_schema)
  then default [] (vget (sample_targets e) v) else [].

Definition sample_years : list Z := [2020; 2021; 2022].
Definition sample_countries : list string := ["FR"; "DE"; "FR"; "IT"]%string.
Definition sample_org_ids : list string := ["o1"; "o2"; "o3"; "o4"]%string.
Definition sample_dates : list string := ["2020-01-01"; "2021-05-01"]%string.

Definition sample_store : StorageReadInterface := {|
  schema := sample_schema;
  GetVertexSet_size := sample_size;
  IsValidVertex := fun L v => v <? sample_size L;
  get_edges := sample_edges;
  int64_column := fun L name =>
    if decide (name = "year"%string) then Some (fun v => default 0 (vget sample_years v)) else None;
  string_column := fun L name =>
    if decide (name = "country_code"%string) then Some (fun v => default EmptyString (vget sample_countries v))
    else if decide (name = "id"%string) then Some (fun v => default EmptyString (vget sample_org_ids v))
    else if decide (name = "startDate"%string) then Some (fun v => default EmptyString (vget sample_dates v))
    else None
|}.

Lemma sample_store_ok : store_ok sample_store.
Proof.
  split.
  - intros L. simpl. unfold sample_size.
    destruct (Z.to_nat L) as [|[|[|[|[|]]]]]; simpl; lia.
  - intros s d e v x. simpl. unfold sample_edges. case_decide; [|set_solver].
    assert (forall rows : list (list Z), Forall (Forall (fun x => 0 <= x < 2 ^ 32)) rows ->
      x ∈ default [] (vget rows v) -> 0 <= x < 2 ^ 32) as Hrows.
    { intros rows Hall Hx. destruct (vget rows v) as [row|] eqn:Hv; [|set_solver].
      assert (row ∈ rows) as Hrow.
      { unfold vget in Hv. destruct (v <? 0); [done|]. by eapply list_elem_of_lookup_2. }
      rewrite Forall_forall in Hall. specialize (Hall row Hrow). rewrite Forall_forall in Hall. by apply Hall. }
    apply Hrows. unfold sample_targets. repeat case_match; repeat constructor; lia.
Qed.

Lemma sample_buildable : buildable sample_store.
Proof.
  split.
  - exact sample_store_ok.
  - split_and!; [done|by repeat constructor|done].
  - intros key Hkey. simpl in Hkey.
    repeat (apply elem_of_cons in Hkey as [->|Hkey]; [by vm_compute|]). by apply elem_of_nil in Hkey.
  - by vm_compute.
  - by vm_compute.
Qed.
