(* ===== verification/KcoreTheorems.v ===== *)
(** * k-core: the theorems

    What [KCORE] promises: the peeling algorithm returns the coreness of every
    vertex, and [Compute] summarises it, on the graph of the store and on the
    projections. *)
From S2P Require Import Prelude Num Storage KCore GraphBuild Aggregate Projection KcoreCompute.
From S2P Require Import ProjectionCorrect HostingCorrect Sample.
#[local] Open Scope Z_scope.

(** ** The summary *)

Lemma max_core_wp n core :
  0 <= n <= INT_MAX -> vlen core = n -> (forall v, 0 <= v < n -> 0 <= vat core v) ->
  wp (max_core n core) (fun '(mc, k) =>
    (forall v, 0 <= v < n -> vat core v <= mc) /\ (0 < n -> exists v, 0 <= v < n /\ vat core v = mc) /\
    (n = 0 -> mc = 0) /\ k = sumz (fun v => ind (vat core v =? mc)) n).
Proof.
  intros Hn Hl Hpos. unfold max_core. apply wp_bind.
  apply (wp_for_range (fun i mc => 0 <= mc /\ (forall v, 0 <= v < i -> vat core v <= mc) /\
    (mc = 0 \/ exists v, 0 <= v < i /\ vat core v = mc))); [lia|split_and!; [lia|lia|by left]| |].
  - intros i mc Hi (Hmc & Hle & Hatt). wsteps. specialize (Hpos i Hi).
    destruct (Z.ltb_spec mc (vat core i)); (split_and!; [lia|..]).
    + intros v Hv. destruct (decide (v = i)) as [->|]; [lia|]. specialize (Hle v). lia.
    + right. exists i. split; [lia|done].
    + intros v Hv. destruct (decide (v = i)) as [->|]; [lia|]. specialize (Hle v). lia.
    + destruct Hatt as [|(v & Hv & ?)]; [by left|]. right. exists v. split; [lia|done].
  - intros mc (Hmc & Hle & Hatt). apply wp_bind.
    apply (wp_for_range (fun i k => k = sumz (fun v => ind (vat core v =? mc)) i)); [lia|done| |].
    + intros i k Hi ->. wsteps. rewrite sumz_succ by lia.
      pose proof (sumz_bound (fun v => ind (vat core v =? mc)) i 1 ltac:(lia) ltac:(intros; apply ind_range)).
      destruct (vat core i =? mc); wsteps; simpl; lia.
    + intros k ->. wsteps. split_and!; [done| | |done].
      * intros Hpn. destruct Hatt as [->|Hatt]; [|done]. exists 0. split; [lia|].
        specialize (Hle 0). specialize (Hpos 0). lia.
      * intros ->. destruct Hatt as [|(v & ? & _)]; [done|lia].
Qed.

Lemma coreness_nonneg {W} n (adj : list (list (Z * W))) v k :
  0 <= v < n -> coreness_of n adj v k -> 0 <= k.
Proof.
  intros Hv [_ Hmax]. apply (Hmax {[v]}); [set_solver|].
  intros u ->%elem_of_singleton. split; [done|]. unfold degree_within. lia.
Qed.

(** What a result says of a graph with rows [adj]. *)
Record kcore_ok {W} (n : Z) (adj : list (list (Z * W))) (r : KcoreResult) : Prop := {
  ko_vertices : kr_num_vertices r = n;
  ko_len : vlen (kr_coreness r) = n;
  ko_core v : 0 <= v < n -> coreness_of n adj v (vat (kr_coreness r) v);
  ko_max v : 0 <= v < n -> vat (kr_coreness r) v <= kr_max_coreness r;
  ko_attained : 0 < n -> exists v, 0 <= v < n /\ vat (kr_coreness r) v = kr_max_coreness r;
  ko_count : kr_num_in_max_core r = sumz (fun v => ind (vat (kr_coreness r) v =? kr_max_coreness r)) n
}.

Lemma Kcore_Compute_wp {W} `{!Arith W} `{!HashOrder} g mode (c : computer W) :
  kcore_build g mode = Some c -> 0 <= num_vertex_ c < INT_MAX -> undirected (num_vertex_ c) (adj_ c) ->
  wp (Kcore_Compute (W := W) g mode) (fun r => kcore_ok (num_vertex_ c) (adj_ c) r /\
    kr_num_edges r = Z.quot (num_edge_ c) 2 /\ kr_id_mapping r = global_to_local_ c /\
    kr_aggregate_keys r = aggregate_keys_ c).
Proof.
  intros Hb Hn Hu. unfold Kcore_Compute. rewrite Hb. simpl.
  destruct (Z.eqb_spec (num_vertex_ c) 0) as [Hz|Hnz].
  { wsteps. rewrite Hz. split_and!; try done. split; simpl; done || lia. }
  apply wp_bind. eapply wp_mono; [by apply RunKCore_wp|]. intros core [Hl Hcore]. apply wp_bind.
  eapply wp_mono; [apply max_core_wp; [lia|done|]|].
  { intros v Hv. eapply coreness_nonneg; [done|]. by apply Hcore. }
  intros [mc k] (Hmax & Hatt & _ & ->). wsteps. split_and!; done.
Qed.

(** A weighted graph with symmetric weights is undirected. *)
Lemma weighted_undirected {W} n (wt : Z -> Z -> option W) adj :
  (forall u v, wt u v = wt v u) -> weighted_graph n wt adj -> undirected n adj.
Proof.
  intros Hsym [Hl Hnd Hrow]. split; [done|..].
  - intros u v Hu ([v' w] & -> & Hin)%list_elem_of_fmap. simpl. by apply Hrow in Hin as [? _].
  - intros u v Hu ([v' w] & -> & Hin)%list_elem_of_fmap. simpl. apply Hrow in Hin as [Hv Hw]; [|done].
    apply list_elem_of_fmap. exists (u, w). split; [done|]. apply Hrow; [done|]. by rewrite Hsym in Hw.
Qed.

Lemma copub_weight_sym {W} `{!Arith W} g pub org e cc y ymin ymax mo (keep : W -> bool) codes u v :
  copub_weight g pub org e cc y ymin ymax mo keep codes u v =
  copub_weight g pub org e cc y ymin ymax mo keep codes v u.
Proof.
  unfold copub_weight. rewrite Z.eqb_sym. destruct (v =? u); [done|].
  assert (copubs g pub org e cc y ymin ymax mo (vat codes u) (vat codes v) =
    copubs g pub org e cc y ymin ymax mo (vat codes v) (vat codes u)) as ->; [|done].
  apply sumz_ext. intros i _. by rewrite <-!andb_assoc, (andb_comm (pub_in_country _ _ _ _ _ _ _)).
Qed.

Lemma coproject_weight_sym {W} `{!Arith W} g org proj e sd ymin ymax mp mx (keep : W -> bool) u v :
  coproject_weight g org proj e sd ymin ymax mp mx keep u v =
  coproject_weight g org proj e sd ymin ymax mp mx keep v u.
Proof.
  unfold coproject_weight. rewrite Z.eqb_sym. destruct (v =? u); [done|].
  set (ko := kept_orgs _ _ _ _ _ _ _ _).
  assert (coprojects g org proj e sd ymin ymax mx (vat ko u) (vat ko v) =
    coprojects g org proj e sd ymin ymax mx (vat ko v) (vat ko u)) as ->; [|done].
  apply sumz_ext. intros i _. by rewrite (andb_comm (works_on _ _ _ _ _ _ _ (vat ko u) _)).
Qed.

(** ** Properties *)

(** C2: The peeling algorithm: on every adjacency structure
    of an undirected graph, multi-edges and self-loops included, [RunKCore]
    neither overflows nor leaves a vector, and returns for every vertex the
    largest [k] such that the vertex lies in a subgraph of minimum degree [k]. *)
Theorem RunKCore_coreness {W} n (adj : list (list (Z * W))) :
  0 <= n < INT_MAX -> undirected n adj ->
  exists core, RunKCore n adj = Some core /\ vlen core = n /\
    forall v, 0 <= v < n -> coreness_of n adj v (vat core v).
Proof. intros Hn Hu. by apply wp_exists, RunKCore_wp. Qed.

Definition triangle_tail : list (list (Z * unit)) :=
  [unit_row [1; 2; 2]; unit_row [0; 2]; unit_row [0; 0; 1; 3]; unit_row [2; 3]].

Lemma triangle_tail_undirected : undirected 4 triangle_tail.
Proof.
  split; [done|..]; intros u v Hu Hin;
    assert (u = 0 \/ u = 1 \/ u = 2 \/ u = 3) as [->|[->|[->| ->]]] by lia;
    vm_compute in Hin; repeat (apply elem_of_cons in Hin as [->|Hin]; [vm_compute; set_solver|]);
    by apply elem_of_nil in Hin.
Qed.

Lemma RunKCore_coreness_witness :
  exists core, RunKCore 4 triangle_tail = Some core /\ vlen core = 4 /\
    forall v, 0 <= v < 4 -> coreness_of 4 triangle_tail v (vat core v).
Proof.
  apply (RunKCore_coreness 4 triangle_tail); [by vm_compute|exact triangle_tail_undirected].
Defined.

Lemma Kcore_plain_wp {W} `{!Arith W} `{!HashOrder} g :
  buildable g -> vertex_total g < INT_MAX ->
  wp (Kcore_Compute (W := W) g KPlain) (fun r => exists c, Kcore_BuildGraph (W := W) g = Some c /\
    graph_of_store g c /\ kcore_ok (vertex_total g) (adj_ c) r /\ kr_num_edges r = vlen (store_edges g) /\
    kr_id_mapping r = global_to_local_ c).
Proof.
  intros Hb Hn. pose proof (Kcore_BuildGraph_wp (W := W) g Hb) as Hbuild.
  apply wp_exists in Hbuild as (c & Hc & Hg & He).
  pose proof (total_nonneg g Hb). pose proof (gs_num _ _ Hg) as Hnum.
  pose proof (Kcore_Compute_wp g KPlain c Hc) as Hrun. rewrite Hnum in Hrun.
  eapply wp_mono; [apply Hrun; [lia|by apply graph_undirected]|]. intros r (Hok & Hed & Hid & _).
  exists c. split_and!; try done. rewrite Hed, He, Z.mul_comm. by apply Z.quot_mul.
Qed.

(** C32: [KCORE] on a store: for every store whose sizes fit the
    integer types and whose schema has no deleted vertex label, [Compute]
    returns the coreness of every vertex in the undirected graph of the stored
    edges, the maximum coreness, how many vertices attain it, and the number
    of stored edges. *)
Theorem Kcore_Compute_store {W} `{!Arith W} `{!HashOrder} g :
  buildable g -> vertex_total g < INT_MAX ->
  exists c r, Kcore_BuildGraph (W := W) g = Some c /\ graph_of_store g c /\
    Kcore_Compute (W := W) g KPlain = Some r /\ kcore_ok (vertex_total g) (adj_ c) r /\
    kr_num_edges r = vlen (store_edges g) /\ kr_id_mapping r = global_to_local_ c.
Proof.
  intros Hb Hn. pose proof (Kcore_plain_wp (W := W) g Hb Hn) as Hwp.
  apply wp_exists in Hwp as (r & ? & c & ?). exists c, r. naive_solver.
Qed.

Lemma Kcore_Compute_store_witness :
  exists c r, Kcore_BuildGraph (W := double) sample_store = Some c /\ graph_of_store sample_store c /\
    Kcore_Compute (H := insertion_order) (W := double) sample_store KPlain = Some r /\
    kcore_ok (vertex_total sample_store) (adj_ c) r /\
    kr_num_edges r = vlen (store_edges sample_store) /\ kr_id_mapping r = global_to_local_ c.
Proof.
  apply (Kcore_Compute_store (H := insertion_order) sample_store); [exact sample_buildable|by vm_compute].
Defined.
