(* ===== verification/ProjectionTheorems.v ===== *)
(** * The projections: the theorems

    On every store with the labels, columns and edge labels a projection looks
    for, the builder succeeds and yields the weighted graph the projection is
    specified as; without them it yields the empty graph. *)
From S2P Require Import Prelude Num Storage KCore GraphBuild Aggregate Projection KcoreCompute.
From S2P Require Import ProjectionCorrect HostingCorrect InfraCorrect KcoreTheorems Sample.
From Stdlib Require Import QArith Qcanon.
#[local] Open Scope Z_scope.

(** ** What a store must offer *)

Definition label_of (g : StorageReadInterface) (name : string) (l : Z) : Prop :=
  get_vertex_label_id (schema g) name = Some (Returned l).

(** Publications with a year, organisations with a country code, and an edge
    label from the former to the latter. *)
Record bibliographic (g : StorageReadInterface) (pub org : Z) (year : Z -> Z) (cc : Z -> string) : Prop := {
  bi_store : store_ok g;
  bi_pub : label_of g "Publication" pub;
  bi_org : label_of g "Organization" org;
  bi_year : int64_column g pub "year" = Some year;
  bi_cc : string_column g org "country_code" = Some cc;
  bi_orgs : GetVertexSet_size g org < INT_MAX
}.

Lemma with_label_ok {A} g name l (e : option A) k :
  label_of g name l -> with_label (schema g) name e k = k l.
Proof. intros Hl. unfold with_label. by rewrite Hl. Qed.

Lemma edge_label_eqb e : e <> NO_LABEL -> (e =? NO_LABEL) = false.
Proof. apply Z.eqb_neq. Qed.

Lemma sample_bibliographic : bibliographic sample_store 0 1
  (fun v => default 0 (vget sample_years v)) (fun v => default EmptyString (vget sample_countries v)).
Proof. by split; [exact sample_store_ok|..]. Qed.

(** ** Co-authorship *)

Section coauthorship.
Context {W : Type} `{!Arith W} `{!HashOrder}.

Lemma coauthor_build_wp g pub org year cc e cfg :
  bibliographic g pub org year cc -> find_edge_label (e_schemas (schema g)) pub org = e -> e <> NO_LABEL ->
  wp (BuildCountryCoauthorProjection (W := W) g cfg) (fun c => country_vertices g org cc c /\
    weighted_graph (num_vertex_ c)
      (copub_weight g pub org e cc year (ca_year_min cfg) (ca_year_max cfg) (ca_max_coauthors cfg)
         (fun _ => true) (aggregate_keys_ c)) (adj_ c)).
Proof.
  intros [Hs Hp Ho Hy Hc Hn] <- He. unfold BuildCountryCoauthorProjection.
  rewrite (with_label_ok g "Publication" pub), (with_label_ok g "Organization" org) by done.
  rewrite edge_label_eqb, Hy, Hc by done. apply coauthor_body; [done|lia].
Qed.

(** What case_community_findings.md says of the weight of two countries: one unit for
    every pair of distinct author organisations of an accepted publication. *)
Definition orgs_in g pub org e (cc : Z -> string) (i : Z) (code : string) : Z :=
  vlen (filter (fun o => org_country g org cc o = Some code) (remove_dups (pub_orgs g pub org e i))).
Definition org_pairs g pub org e cc (accepted : Z -> bool) (c1 c2 : string) : Z :=
  sumz (fun i => if accepted i then orgs_in g pub org e cc i c1 * orgs_in g pub org e cc i c2 else 0) (GetVertexSet_size g pub).

Lemma orgs_in_pos g pub org e cc i code : pub_in_country g pub org e cc i code = true <-> 1 <= orgs_in g pub org e cc i code.
Proof.
  unfold pub_in_country, orgs_in. rewrite existsb_exists. split.
  - intros (o & Ho & Hc%bool_decide_eq_true). apply list_elem_of_In in Ho. assert (o ∈ filter (fun o => org_country g org cc o = Some code) (remove_dups (pub_orgs g pub org e i))) as Hin.
    { apply list_elem_of_filter. split; [done|]. by apply elem_of_remove_dups. }
    destruct (filter _ _); [by apply elem_of_nil in Hin|]. unfold vlen. simpl. lia.
  - intros Hn. destruct (filter (fun o => org_country g org cc o = Some code) _) as [|o l] eqn:E; [unfold vlen in Hn; simpl in Hn; lia|].
    assert (o ∈ o :: l) as Hin by left. rewrite <-E in Hin. apply list_elem_of_filter in Hin as [Hc Ho]. exists o.
    split; [apply list_elem_of_In; by apply elem_of_remove_dups|by apply bool_decide_eq_true].
Qed.

Lemma copubs_pair g pub org e cc i (a : bool) c1 c2 : let n c := orgs_in g pub org e cc i c in
  let one := ind (a && pub_in_country g pub org e cc i c1 && pub_in_country g pub org e cc i c2) in
  let all := if a then n c1 * n c2 else 0 in
  one <= all /\ (one = all <-> (a = true -> 1 <= n c1 -> 1 <= n c2 -> n c1 = 1 /\ n c2 = 1)).
Proof.
  intros n one all. unfold one, all, n. pose proof (orgs_in_pos g pub org e cc i c1) as H1. pose proof (orgs_in_pos g pub org e cc i c2) as H2.
  pose proof (vlen_nonneg (filter (fun o => org_country g org cc o = Some c1) (remove_dups (pub_orgs g pub org e i)))).
  pose proof (vlen_nonneg (filter (fun o => org_country g org cc o = Some c2) (remove_dups (pub_orgs g pub org e i)))).
  unfold orgs_in in *. set (x := vlen (filter (fun o => org_country g org cc o = Some c1) _)) in *. set (y := vlen (filter (fun o => org_country g org cc o = Some c2) _)) in *. clearbody x y.
  destruct a; [|by split; [|split]]. destruct (pub_in_country g pub org e cc i c1), (pub_in_country g pub org e cc i c2); simpl.
  - assert (1 <= x /\ 1 <= y) as [Hx Hy] by naive_solver. split; [nia|]. split; [|intros Hxy; destruct (Hxy eq_refl Hx Hy) as [-> ->]; done]. intros Hxy _ _ _. nia.
  - assert (y = 0) as -> by (assert (~ 1 <= y) by naive_solver; lia). split; [lia|]. split; intros; lia.
  - assert (x = 0) as -> by (assert (~ 1 <= x) by naive_solver; lia). split; [lia|]. split; intros; lia.
  - assert (x = 0) as -> by (assert (~ 1 <= x) by naive_solver; lia). split; [lia|]. split; intros; lia.
Qed.

Lemma sumz_eq_pointwise f h n : 0 <= n -> (forall i, 0 <= i < n -> f i <= h i) ->
  (sumz f n = sumz h n <-> forall i, 0 <= i < n -> f i = h i).
Proof.
  intros Hn Hle. split; [|by apply sumz_ext]. revert Hle. apply (natlike_ind (fun n => (forall i, 0 <= i < n -> f i <= h i) -> sumz f n = sumz h n -> forall i, 0 <= i < n -> f i = h i)); [lia| |done].
  clear n Hn. intros n Hn IH Hle. rewrite <-Z.add_1_r, !sumz_succ by done. intros Heq i Hi. pose proof (sumz_le f h n ltac:(intros; apply Hle; lia)). pose proof (Hle n ltac:(lia)).
  destruct (decide (i = n)) as [->|]; [lia|]. apply IH; [intros; apply Hle; lia|lia|lia].
Qed.

Lemma copubs_org_pairs g pub org e cc year ymin ymax most c1 c2 : store_ok g ->
  let accepted := pub_accepted g pub org e year ymin ymax most in let n := orgs_in g pub org e cc in
  copubs g pub org e cc year ymin ymax most c1 c2 <= org_pairs g pub org e cc accepted c1 c2 /\
  (copubs g pub org e cc year ymin ymax most c1 c2 = org_pairs g pub org e cc accepted c1 c2 <->
   forall i, 0 <= i < GetVertexSet_size g pub -> accepted i = true -> 1 <= n i c1 -> 1 <= n i c2 -> n i c1 = 1 /\ n i c2 = 1).
Proof.
  intros Hs accepted n. unfold copubs, org_pairs. pose proof (so_size _ Hs pub) as Hsz. fold accepted.
  pose proof (fun i => copubs_pair g pub org e cc i (accepted i) c1 c2) as Hp. cbv zeta in Hp. split.
  - apply sumz_le. intros i _. apply Hp.
  - rewrite sumz_eq_pointwise; [|lia|intros i _; apply Hp]. split; intros Hall i Hi; apply Hp; by apply Hall.
Qed.

(** C33: The co-author graph of a [bibliographic] store (with the labels Publication
    and Organization, their year and country columns, and an edge type between them):
    the vertices are the country codes in use, and two countries are joined by as many
    units of weight as there are accepted publications with authors in both; a
    publication counts once for a pair, when it is valid, in the year window, and not
    a mega-collaboration. There are no self-loops and the graph is symmetric.
    case_community_findings.md gives instead one unit for every pair of distinct
    author organisations of a publication: the weight of two countries is never more
    than that, and the same exactly when no accepted publication with authors in both
    has two organisations in one of them. *)
Theorem coauthor_projection g pub org year cc e cfg :
  bibliographic g pub org year cc -> find_edge_label (e_schemas (schema g)) pub org = e -> e <> NO_LABEL ->
  let accepted := pub_accepted g pub org e year (ca_year_min cfg) (ca_year_max cfg) (ca_max_coauthors cfg) in
  let joint := copubs g pub org e cc year (ca_year_min cfg) (ca_year_max cfg) (ca_max_coauthors cfg) in
  let orgs := orgs_in g pub org e cc in
  exists c : computer W, BuildCountryCoauthorProjection g cfg = Some c /\ country_vertices g org cc c /\
    weighted_graph (num_vertex_ c)
      (copub_weight g pub org e cc year (ca_year_min cfg) (ca_year_max cfg) (ca_max_coauthors cfg)
         (fun _ => true) (aggregate_keys_ c)) (adj_ c) /\
    forall c1 c2, joint c1 c2 <= org_pairs g pub org e cc accepted c1 c2 /\
      (joint c1 c2 = org_pairs g pub org e cc accepted c1 c2 <->
       forall i, 0 <= i < GetVertexSet_size g pub -> accepted i = true -> 1 <= orgs i c1 -> 1 <= orgs i c2 ->
         orgs i c1 = 1 /\ orgs i c2 = 1).
Proof.
  intros Hbib He Hne accepted joint orgs. pose proof (coauthor_build_wp g pub org year cc e cfg Hbib He Hne) as Hw.
  apply wp_exists in Hw as (c & Hc & Hv & Hg). exists c. split; [done|]. split; [done|]. split; [done|]. intros c1 c2. apply copubs_org_pairs, Hbib.
Qed.

(** [KCORE_COAUTHOR]: the same graph without the pairs
    lighter than [min_edge_weight], and the coreness of every country in it. *)
Theorem kcore_coauthor_projection g pub org year cc e cfg :
  bibliographic g pub org year cc -> find_edge_label (e_schemas (schema g)) pub org = e -> e <> NO_LABEL ->
  exists (c : computer W) r, Kcore_BuildCountryCoauthorProjection g cfg = Some c /\
    country_vertices g org cc c /\
    weighted_graph (num_vertex_ c)
      (copub_weight g pub org e cc year (kc_year_min cfg) (kc_year_max cfg) (kc_max_coauthors cfg)
         (fun w => negb (wltb w (wofZ (kc_min_edge_weight cfg)))) (aggregate_keys_ c)) (adj_ c) /\
    Kcore_Compute (W := W) g (KCoauthor cfg) = Some r /\ kcore_ok (num_vertex_ c) (adj_ c) r /\
    kr_aggregate_keys r = aggregate_keys_ c.
Proof.
  intros [Hs Hp Ho Hy Hc Hn] <- He.
  assert (wp (Kcore_BuildCountryCoauthorProjection (W := W) g cfg) (fun c => country_vertices g org cc c /\
    weighted_graph (num_vertex_ c)
      (copub_weight g pub org (find_edge_label (e_schemas (schema g)) pub org) cc year (kc_year_min cfg)
         (kc_year_max cfg) (kc_max_coauthors cfg)
         (fun w => negb (wltb w (wofZ (kc_min_edge_weight cfg)))) (aggregate_keys_ c)) (adj_ c))) as Hwp.
  { unfold Kcore_BuildCountryCoauthorProjection.
    rewrite (with_label_ok g "Publication" pub), (with_label_ok g "Organization" org) by done.
    rewrite edge_label_eqb, Hy, Hc by done. apply coauthor_body; [done|lia]. }
  apply wp_exists in Hwp as (c & Hbuild & Hv & Hg). exists c.
  pose proof (vlen_nonneg (aggregate_keys_ c)). pose proof (cg_num _ _ _ _ Hv). pose proof (cg_bound _ _ _ _ Hv).
  pose proof (Kcore_Compute_wp g (KCoauthor cfg) c Hbuild ltac:(lia)) as Hrun.
  apply wp_exists in Hrun as (r & Hr & Hok & _ & _ & Hk); [by exists r|].
  eapply weighted_undirected; [|exact Hg]. intros. apply copub_weight_sym.
Qed.

(** Without the labels, or the edge label, or the typed columns, the builder
    returns the empty graph and raises nothing. *)
Theorem coauthor_projection_missing g cfg :
  (get_vertex_label_id (schema g) "Publication" = Some Thrown \/
   (exists pub, label_of g "Publication" pub /\ get_vertex_label_id (schema g) "Organization" = Some Thrown) \/
   (exists pub org, label_of g "Publication" pub /\ label_of g "Organization" org /\
     (find_edge_label (e_schemas (schema g)) pub org = NO_LABEL \/ int64_column g pub "year" = None \/
      string_column g org "country_code" = None))) ->
  BuildCountryCoauthorProjection g cfg = Some (fresh_computer (W := W)).
Proof.
  intros [Hm|[(pub & Hp & Hm)|(pub & org & Hp & Ho & Hm)]];
    unfold BuildCountryCoauthorProjection, with_label.
  - by rewrite Hm.
  - rewrite Hp. simpl. by rewrite Hm.
  - rewrite Hp. simpl. rewrite Ho. simpl. destruct Hm as [Hm|[Hm|Hm]]; rewrite ?Hm; [done| |].
    + by destruct (_ =? _).
    + by destruct (_ =? _), (int64_column g pub "year").
Qed.
End coauthorship.

(** The weight of France and Italy is 2, for two publications of three pairs of
    organisations. *)
Lemma coauthor_projection_witness :
  let cc := fun v => default EmptyString (vget sample_countries v) in let year := fun v => default 0 (vget sample_years v) in
  exists c : computer double, BuildCountryCoauthorProjection (H := insertion_order) sample_store
      {| ca_year_min := 2020; ca_year_max := 2022; ca_max_coauthors := 30 |} = Some c /\
    country_vertices sample_store 1 cc c /\
    weighted_graph (num_vertex_ c) (copub_weight sample_store 0 1 0 cc year 2020 2022 30 (fun _ => true) (aggregate_keys_ c)) (adj_ c) /\
    copubs sample_store 0 1 0 cc year 2020 2022 30 "FR" "IT" = 2 /\
    org_pairs sample_store 0 1 0 cc (pub_accepted sample_store 0 1 0 year 2020 2022 30) "FR" "IT" = 3 /\
    ~ (forall i, 0 <= i < GetVertexSet_size sample_store 0 -> pub_accepted sample_store 0 1 0 year 2020 2022 30 i = true ->
         1 <= orgs_in sample_store 0 1 0 cc i "FR" -> 1 <= orgs_in sample_store 0 1 0 cc i "IT" ->
         orgs_in sample_store 0 1 0 cc i "FR" = 1 /\ orgs_in sample_store 0 1 0 cc i "IT" = 1).
Proof.
  intros cc year. destruct (coauthor_projection (H := insertion_order) (W := double) sample_store 0 1 year cc 0
    {| ca_year_min := 2020; ca_year_max := 2022; ca_max_coauthors := 30 |}) as (c & Hc & Hv & Hg & Hp); [exact sample_bibliographic|done|done|].
  destruct (Hp "FR"%string "IT"%string) as [_ Hiff]. exists c. split; [exact Hc|]. split; [exact Hv|]. split; [exact Hg|].
  assert (copubs sample_store 0 1 0 cc year 2020 2022 30 "FR" "IT" = 2) as H2 by (vm_compute; reflexivity).
  assert (org_pairs sample_store 0 1 0 cc (pub_accepted sample_store 0 1 0 year 2020 2022 30) "FR" "IT" = 3) as H3 by (vm_compute; reflexivity).
  split; [exact H2|]. split; [exact H3|]. intros Hall. apply Hiff in Hall. cbn [ca_year_min ca_year_max ca_max_coauthors] in Hall. rewrite H2, H3 in Hall. discriminate.
Defined.

Lemma kcore_coauthor_projection_witness :
  exists (c : computer double) r, Kcore_BuildCountryCoauthorProjection (H := insertion_order) sample_store
      {| kc_year_min := 2020; kc_year_max := 2022; kc_max_coauthors := 30; kc_min_edge_weight := 2 |} = Some c /\
    country_vertices sample_store 1 (fun v => default EmptyString (vget sample_countries v)) c /\
    weighted_graph (num_vertex_ c)
      (copub_weight sample_store 0 1 0 (fun v => default EmptyString (vget sample_countries v))
         (fun v => default 0 (vget sample_years v)) 2020 2022 30
         (fun w => negb (wltb w (wofZ 2))) (aggregate_keys_ c)) (adj_ c) /\
    Kcore_Compute (H := insertion_order) (W := double) sample_store
      (KCoauthor {| kc_year_min := 2020; kc_year_max := 2022; kc_max_coauthors := 30; kc_min_edge_weight := 2 |}) = Some r /\
    kcore_ok (num_vertex_ c) (adj_ c) r /\ kr_aggregate_keys r = aggregate_keys_ c.
Proof.
  apply (kcore_coauthor_projection (H := insertion_order) sample_store 0 1 _ _ 0); [exact sample_bibliographic|done|done].
Defined.

(** A store without any label. *)
Definition bare_store : StorageReadInterface := {|
  schema := {| vlabel_indexer := []; vlabel_tomb := []; e_schemas := [] |};
  GetVertexSet_size := fun _ => 0; IsValidVertex := fun _ _ => false;
  get_edges := fun _ _ _ _ => []; int64_column := fun _ _ => None; string_column := fun _ _ => None |}.

Lemma coauthor_projection_missing_witness :
  BuildCountryCoauthorProjection (H := insertion_order) bare_store
    {| ca_year_min := 0; ca_year_max := 0; ca_max_coauthors := 30 |} = Some (fresh_computer (W := double)).
Proof. apply (coauthor_projection_missing (H := insertion_order) bare_store). left. reflexivity. Defined.

(** ** Shared infrastructure *)

Section infrastructure.
Context {W : Type} `{!Arith W} `{!HashOrder}.

Lemma infra_build_wp g pub org ds year cc e_po e_dp cfg :
  bibliographic g pub org year cc -> label_of g "Datasource" ds -> GetVertexSet_size g pub <= INT_MAX ->
  scan_edge_label (e_schemas (schema g)) pub org = e_po -> e_po <> NO_LABEL ->
  scan_edge_label (e_schemas (schema g)) ds pub = e_dp -> e_dp <> NO_LABEL ->
  wp (BuildInfraCountryProjection (W := W) g cfg) (fun c => country_vertices g org cc c /\
    exists pc, country_sets g pub org e_po cc year (in_year_min cfg) (in_year_max cfg) (in_max_author_orgs cfg)
      (aggregate_keys_ c) pc /\
    weighted_graph (num_vertex_ c) (infra_weight g ds pub e_dp (in_min_hosts_per_datasource cfg) pc) (adj_ c)).
Proof.
  intros [Hs Hp Ho Hy Hc Hn] Hd Hpubs <- He <- He'. unfold BuildInfraCountryProjection.
  rewrite (with_label_ok g "Publication" pub), (with_label_ok g "Organization" org),
    (with_label_ok g "Datasource" ds) by done. cbv zeta.
  rewrite !edge_label_eqb, Hy, Hc by done. apply infra_body; [done|lia|done].
Qed.

(** The infrastructure graph: the vertices are the country
    codes in use, and the weight of two countries is the sum, over the
    datasources that host enough publications, of the smaller of the two
    countries' numbers of accepted hosted publications. *)
Theorem infra_projection g pub org ds year cc e_po e_dp cfg :
  bibliographic g pub org year cc -> label_of g "Datasource" ds -> GetVertexSet_size g pub <= INT_MAX ->
  scan_edge_label (e_schemas (schema g)) pub org = e_po -> e_po <> NO_LABEL ->
  scan_edge_label (e_schemas (schema g)) ds pub = e_dp -> e_dp <> NO_LABEL ->
  exists (c : computer W) pc, BuildInfraCountryProjection g cfg = Some c /\ country_vertices g org cc c /\
    country_sets g pub org e_po cc year (in_year_min cfg) (in_year_max cfg) (in_max_author_orgs cfg)
      (aggregate_keys_ c) pc /\
    weighted_graph (num_vertex_ c) (infra_weight g ds pub e_dp (in_min_hosts_per_datasource cfg) pc) (adj_ c).
Proof.
  intros Hbib Hd Hpubs He Hne He' Hne'.
  pose proof (infra_build_wp g pub org ds year cc e_po e_dp cfg Hbib Hd Hpubs He Hne He' Hne') as Hwp.
  apply wp_exists in Hwp as (c & Hb & Hv & pc & Hcs & Hg). by exists c, pc.
Qed.

Lemma datasource_build_wp g pub org ds year cc e_dp cfg :
  bibliographic g pub org year cc -> label_of g "Datasource" ds ->
  GetVertexSet_size g pub <= INT_MAX -> GetVertexSet_size g ds <= INT_MAX ->
  scan_edge_label (e_schemas (schema g)) ds pub = e_dp -> e_dp <> NO_LABEL ->
  wp (BuildDatasourceProjection (W := W) g cfg) (fun c =>
    (datasource_vertices g ds pub e_dp year (dc_year_min cfg) (dc_year_max cfg) (dc_min_pubs cfg) c /\
     datasource_annotations g ds pub e_dp year (dc_year_min cfg) (dc_year_max cfg) (dc_min_pubs cfg)
       org (scan_edge_label (e_schemas (schema g)) ds org) (GetVertexSet_size g org) cc
       (string_column g org "id") (string_column g ds "id") c) /\
    weighted_graph (num_vertex_ c)
      (cohost_weight g ds pub e_dp year (dc_year_min cfg) (dc_year_max cfg) (dc_min_pubs cfg)) (adj_ c)).
Proof.
  intros [Hs Hp Ho Hy Hc Hn] Hd Hpubs Hdss <- He. unfold BuildDatasourceProjection.
  rewrite (with_label_ok g "Publication" pub), (with_label_ok g "Organization" org),
    (with_label_ok g "Datasource" ds) by done. cbv zeta.
  rewrite edge_label_eqb, Hy, Hc by done. by apply datasource_body.
Qed.

(** The datasource graph: the vertices are the datasources
    with enough in-window publications, and two of them are joined by the
    number of in-window publications both host, leaving out those that more
    than 256 of the kept datasources host. *)
Theorem datasource_projection g pub org ds year cc e_dp cfg :
  bibliographic g pub org year cc -> label_of g "Datasource" ds ->
  GetVertexSet_size g pub <= INT_MAX -> GetVertexSet_size g ds <= INT_MAX ->
  scan_edge_label (e_schemas (schema g)) ds pub = e_dp -> e_dp <> NO_LABEL ->
  exists c : computer W, BuildDatasourceProjection g cfg = Some c /\
    datasource_vertices g ds pub e_dp year (dc_year_min cfg) (dc_year_max cfg) (dc_min_pubs cfg) c /\
    weighted_graph (num_vertex_ c)
      (cohost_weight g ds pub e_dp year (dc_year_min cfg) (dc_year_max cfg) (dc_min_pubs cfg)) (adj_ c).
Proof.
  intros Hbib Hd Hpubs Hdss He Hne.
  pose proof (datasource_build_wp g pub org ds year cc e_dp cfg Hbib Hd Hpubs Hdss He Hne) as Hwp.
  apply wp_exists in Hwp as (c & Hc & [Hv _] & Hg). by exists c.
Qed.

(** [KCORE_PROJECT]: the vertices are the organisations in
    enough active projects, two of them are joined by the number of active
    projects both take part in, leaving out projects with too many partners
    and pairs below [min_edge_weight]; the result is the coreness in that
    graph. *)
Theorem project_projection g org proj sd e cfg :
  store_ok g -> label_of g "Organization" org -> label_of g "Project" proj ->
  string_column g proj "startDate" = Some sd ->
  GetVertexSet_size g org < INT_MAX -> GetVertexSet_size g proj <= INT_MAX ->
  find_edge_label (e_schemas (schema g)) org proj = e -> e <> NO_LABEL ->
  exists (c : computer W) r, BuildOrgProjectProjection g cfg = Some c /\
    org_vertices g org proj e sd (pc_year_min cfg) (pc_year_max cfg) (pc_min_org_projects cfg) c /\
    weighted_graph (num_vertex_ c)
      (coproject_weight g org proj e sd (pc_year_min cfg) (pc_year_max cfg) (pc_min_org_projects cfg)
         (pc_max_project_size cfg) (fun w => negb (wltb w (wofZ (pc_min_edge_weight cfg))))) (adj_ c) /\
    Kcore_Compute (W := W) g (KProject cfg) = Some r /\ kcore_ok (num_vertex_ c) (adj_ c) r.
Proof.
  intros Hs Ho Hp Hsd Hn Hn' <- He.
  assert (wp (BuildOrgProjectProjection (W := W) g cfg) (fun c =>
    org_vertices g org proj (find_edge_label (e_schemas (schema g)) org proj) sd
      (pc_year_min cfg) (pc_year_max cfg) (pc_min_org_projects cfg) c /\
    weighted_graph (num_vertex_ c)
      (coproject_weight g org proj (find_edge_label (e_schemas (schema g)) org proj) sd
         (pc_year_min cfg) (pc_year_max cfg) (pc_min_org_projects cfg)
         (pc_max_project_size cfg) (fun w => negb (wltb w (wofZ (pc_min_edge_weight cfg))))) (adj_ c))) as Hwp.
  { unfold BuildOrgProjectProjection.
    rewrite (with_label_ok g "Organization" org), (with_label_ok g "Project" proj) by done. cbv zeta.
    rewrite edge_label_eqb, Hsd by done. apply project_body; [done|lia|done]. }
  apply wp_exists in Hwp as (c & Hbuild & Hv & Hg). exists c.
  assert (0 <= num_vertex_ c < INT_MAX) as Hrange.
  { rewrite (ov_num _ _ _ _ _ _ _ _ _ Hv). split; [apply vlen_nonneg|]. unfold kept_orgs.
    pose proof (so_size _ Hs org). rewrite filter_seqZ_count by lia.
    pose proof (sumz_bound (fun o => ind ((pc_min_org_projects cfg <=? project_count g org proj
      (find_edge_label (e_schemas (schema g)) org proj) sd (pc_year_min cfg) (pc_year_max cfg) o) &&
      (0 <? project_count g org proj (find_edge_label (e_schemas (schema g)) org proj) sd
         (pc_year_min cfg) (pc_year_max cfg) o))) (GetVertexSet_size g org) 1 ltac:(lia)
      ltac:(intros; apply ind_range)). lia. }
  pose proof (Kcore_Compute_wp g (KProject cfg) c Hbuild Hrange) as Hrun.
  apply wp_exists in Hrun as (r & Hr & Hok & _); [by exists r|].
  eapply weighted_undirected; [|exact Hg]. intros. apply coproject_weight_sym.
Qed.
End infrastructure.

Lemma infra_projection_witness :
  exists (c : computer double) pc, BuildInfraCountryProjection (H := insertion_order) sample_store
      {| in_year_min := 2020; in_year_max := 2022; in_min_hosts_per_datasource := 0; in_max_author_orgs := 30 |} = Some c /\
    country_vertices sample_store 1 (fun v => default EmptyString (vget sample_countries v)) c /\
    country_sets sample_store 0 1 0 (fun v => default EmptyString (vget sample_countries v))
      (fun v => default 0 (vget sample_years v)) 2020 2022 30 (aggregate_keys_ c) pc /\
    weighted_graph (num_vertex_ c) (infra_weight sample_store 2 0 1 0 pc) (adj_ c).
Proof.
  apply (infra_projection (H := insertion_order) sample_store 0 1 2 _ _ 0 1
    {| in_year_min := 2020; in_year_max := 2022; in_min_hosts_per_datasource := 0; in_max_author_orgs := 30 |});
    first [exact sample_bibliographic|done].
Defined.

Lemma datasource_projection_witness :
  exists c : computer double, BuildDatasourceProjection (H := insertion_order) sample_store
      {| dc_year_min := 2020; dc_year_max := 2022; dc_min_pubs := 2 |} = Some c /\
    datasource_vertices sample_store 2 0 1 (fun v => default 0 (vget sample_years v)) 2020 2022 2 c /\
    weighted_graph (num_vertex_ c)
      (cohost_weight sample_store 2 0 1 (fun v => default 0 (vget sample_years v)) 2020 2022 2) (adj_ c).
Proof.
  apply (datasource_projection (H := insertion_order) sample_store 0 1 2 _
    (fun v => default EmptyString (vget sample_countries v)) 1
    {| dc_year_min := 2020; dc_year_max := 2022; dc_min_pubs := 2 |});
    first [exact sample_bibliographic|done].
Defined.

Lemma project_projection_witness :
  exists (c : computer double) r, BuildOrgProjectProjection (H := insertion_order) sample_store
      {| pc_year_min := 2020; pc_year_max := 2022; pc_min_org_projects := 1; pc_min_edge_weight := 1;
         pc_max_project_size := 200 |} = Some c /\
    org_vertices sample_store 1 3 3 (fun v => default EmptyString (vget sample_dates v)) 2020 2022 1 c /\
    weighted_graph (num_vertex_ c)
      (coproject_weight sample_store 1 3 3 (fun v => default EmptyString (vget sample_dates v)) 2020 2022 1
         200 (fun w => negb (wltb w (wofZ 1)))) (adj_ c) /\
    Kcore_Compute (H := insertion_order) (W := double) sample_store
      (KProject {| pc_year_min := 2020; pc_year_max := 2022; pc_min_org_projects := 1; pc_min_edge_weight := 1;
         pc_max_project_size := 200 |}) = Some r /\ kcore_ok (num_vertex_ c) (adj_ c) r.
Proof.
  apply (project_projection (H := insertion_order) sample_store 1 3 _ 3
    {| pc_year_min := 2020; pc_year_max := 2022; pc_min_org_projects := 1; pc_min_edge_weight := 1;
       pc_max_project_size := 200 |}); first [exact sample_store_ok|done].
Defined.
