(* ===== verification/LouvainGraph.v ===== *)
(** * The graphs Louvain runs on, in exact arithmetic

    The weight matrix of a store's graph and of a weighted projection: inside
    the vertex range, symmetric, and (for projections) without self-loops. *)
From S2P Require Import Prelude Num Storage KCore GraphBuild Aggregate Projection KcoreCompute Louvain.
From S2P Require Import LouvainCorrect Modularity LouvainExact ProjectionCorrect.
From Stdlib Require Import QArith Qcanon.
#[local] Open Scope Z_scope.

(** ** Weighted graphs *)

Section weighted.
Context {W : Type} (n : Z) (wt : Z -> Z -> option W) (adj : list (list (Z * W))).
Context (Hg : weighted_graph n wt adj).

Lemma weighted_rows_ok : rows_ok n adj.
Proof using Hg.
  destruct Hg as [Hl _ Hrow]. split; [done|].
  intros u v Hu ([v' w] & -> & Hin)%list_elem_of_fmap. simpl. by apply Hrow in Hin as [? _].
Qed.
End weighted.

Lemma weighted_mat n wt adj u v :
  weighted_graph n wt adj -> 0 <= u < n -> 0 <= v < n -> mat adj u v = default 0%Qc (wt u v).
Proof.
  intros [Hl Hnd Hrow] Hu Hv. rewrite mat_find by auto.
  destruct (umap_find (vat adj u) v) as [w|] eqn:Hf.
  - apply umap_find_elem in Hf; [|auto]. apply Hrow in Hf as [_ ->]; done.
  - destruct (wt u v) as [w|] eqn:Hw; [|done].
    assert ((v, w) ∈ vat adj u) as Hin by (by apply Hrow).
    apply umap_find_elem in Hin; [congruence|auto].
Qed.

Lemma weighted_symmetric n wt adj :
  weighted_graph n wt adj -> (forall u v, wt u v = wt v u) -> wsymmetric n (mat adj).
Proof. intros Hg Hs u v Hu Hv. by rewrite !(weighted_mat n wt), Hs by done. Qed.

(** ** The multigraph of a store *)

Section store.
Context (n : Z) (es : list (Z * Z)).
Context (Hes : forall e, e ∈ es -> 0 <= fst e < n /\ 0 <= snd e < n).

(** Stored edges between [u] and [v], a self-loop counted twice. *)
Definition edge_weight (u v : Z) : Qc :=
  qsum (fun e : Z * Z => (guard (e = (u, v)) 1 + guard (e = (v, u)) 1)%Qc) es.

Lemma guard_pair (e : Z * Z) u v x :
  guard (e = (u, v)) x = guard (fst e = u) (guard (snd e = v) x).
Proof. destruct e as [a b]. unfold guard. simpl. repeat case_decide; simplify_eq; done. Qed.

Lemma incident_mat u v : qsum (fun e => guard (fst e = v) (snd e)) (incident (W := Qc) es u) = edge_weight u v.
Proof.
  unfold incident, edge_weight. rewrite qsum_flat_map. apply qsum_ext. intros [a b] _.
  rewrite !guard_pair. unfold edge_ends, guard. simpl.
  destruct (Z.eqb_spec a u), (Z.eqb_spec b u); simpl; repeat case_decide; simplify_eq; ring.
Qed.

Lemma edge_weight_sym : wsymmetric n edge_weight.
Proof. intros u v _ _. apply qsum_ext. intros e _. ring. Qed.

(** Every edge adds two to the total degree. *)
Lemma edge_weight_total : qsum (wdegree n edge_weight) (seqZ 0 n) = (two * Q2Qc (inject_Z (vlen es)))%Qc.
Proof using Hes.
  set (f (u v : Z) (e : Z * Z) := (guard (e = (u, v)) 1 + guard (e = (v, u)) 1)%Qc : Qc).
  transitivity (qsum (fun u => qsum (fun e => qsum (fun v => f u v e) (seqZ 0 n)) es) (seqZ 0 n)).
  { apply qsum_ext. intros u _. apply qsum_swap. }
  rewrite qsum_swap. transitivity (qsum (fun _ : Z * Z => two : Qc) es).
    + apply qsum_ext. intros [a b] Hin. destruct (Hes _ Hin) as [Ha Hb]. simpl in *.
      assert (forall x y, 0 <= x < n -> 0 <= y < n ->
        qsum (fun u => qsum (fun v => guard (x = u) (guard (y = v) 1%Qc)) (seqZ 0 n)) (seqZ 0 n) = 1%Qc) as Hone.
      { intros x y Hx Hy. transitivity (qsum (fun c => guard (x = c) 1%Qc) (seqZ 0 n)); [|by apply qsum_delta].
        apply qsum_ext. intros u _.
        destruct (decide (x = u)) as [->|Hne].
        - transitivity (qsum (fun v => guard (y = v) 1%Qc) (seqZ 0 n)).
          + apply qsum_ext. intros v _. unfold guard at 1. by rewrite decide_True.
          + rewrite qsum_delta by done. unfold guard. by rewrite decide_True.
        - transitivity (qsum (fun _ : Z => 0%Qc) (seqZ 0 n)).
          + apply qsum_ext. intros v _. unfold guard at 1. by rewrite decide_False.
          + rewrite qsum_zero. unfold guard. by rewrite decide_False. }
      transitivity (qsum (fun u => (qsum (fun v => guard (a = u) (guard (b = v) 1%Qc)) (seqZ 0 n) +
        qsum (fun v => guard (a = v) (guard (b = u) 1%Qc)) (seqZ 0 n))%Qc) (seqZ 0 n)).
      * apply qsum_ext. intros u _. rewrite <-qsum_plus. apply qsum_ext. intros v _.
        unfold f. by rewrite !guard_pair.
      * rewrite qsum_plus, Hone by done. rewrite (qsum_swap (fun u v => guard (a = v) (guard (b = u) 1%Qc))).
        rewrite Hone by done. by apply Qc_is_canon.
    + clear Hes f. induction es as [|e l IH]; [by apply Qc_is_canon|].
      change (qsum (fun _ : Z * Z => two : Qc) (e :: l)) with (two + qsum (fun _ : Z * Z => two : Qc) l)%Qc. rewrite IH.
      assert (vlen (e :: l) = vlen l + 1) as -> by (unfold vlen; simpl; lia).
      assert (Q2Qc (inject_Z (vlen l + 1)) = (Q2Qc (inject_Z (vlen l)) + 1)%Qc) as ->.
      { apply Qc_is_canon. simpl. rewrite inject_Z_plus, !Qred_correct. reflexivity. }
      ring.
Qed.
End store.

Lemma store_mat g (c : computer Qc) u v :
  graph_of_store g c -> 0 <= u < vertex_total g -> mat (adj_ c) u v = edge_weight (store_edges g) u v.
Proof. intros Hg Hu. unfold mat. rewrite (gs_rows _ _ Hg) by done. apply incident_mat. Qed.

Lemma store_rows_ok {W} `{!Arith W} g (c : computer W) :
  buildable g -> graph_of_store g c -> rows_ok (vertex_total g) (adj_ c).
Proof.
  intros Hb Hg. destruct (graph_undirected g c Hb Hg) as [Hl Hr _]. split; [done|].
  intros u v Hu Hv. by apply (Hr u).
Qed.

(** Half the total weight is the number of stored edges. *)
Lemma store_half_weight g (c : computer Qc) :
  buildable g -> graph_of_store g c ->
  half_weight (vertex_total g) (adj_ c) = Q2Qc (inject_Z (vlen (store_edges g))).
Proof.
  intros Hb Hg. unfold half_weight.
  rewrite (qsum_ext _ (wdegree (vertex_total g) (edge_weight (store_edges g)))).
  - rewrite edge_weight_total by (intros; by apply store_edges_range). simpl. field. apply two_nonzero.
  - intros u Hu%elem_of_seqZ. apply wdegree_ext. intros v Hv. apply store_mat; [done|lia].
Qed.

(** [Compute] on a store that can be built. *)
Lemma Compute_plain_wp {W} `{!Arith W} `{!HashOrder} (p : params W) g :
  buildable g ->
  wp (Compute p g Plain) (fun r => exists c, BuildGraph g = Some c /\ graph_of_store g c /\ result_ok p c r).
Proof.
  intros Hb. pose proof (BuildGraph_wp (W := W) g Hb) as Hwp. apply wp_exists in Hwp as (c & Hc & Hg & _).
  pose proof (total_nonneg g Hb) as Hn. pose proof (store_rows_ok g c Hb Hg) as Hr.
  rewrite <-(gs_num _ _ Hg) in Hr, Hn. unfold Compute. simpl. rewrite Hc. simpl.
  eapply wp_mono; [by apply compute_on_wp|]. intros r Hok. by exists c.
Qed.
