(* ===== verification/Examples.v ===== *)
(** * Concrete graphs

    The inputs of the examples, and boolean counterparts of the graph
    conditions for checking them by evaluation. *)
From S2P Require Import Prelude Num Storage KCore GraphBuild Aggregate Projection KcoreCompute Louvain.
From S2P Require Import LouvainCorrect Modularity LouvainExact.
From Stdlib Require Import QArith Qcanon.
#[local] Open Scope Z_scope.

(** The defaults of the call functions. *)
Definition default_params {W} `{!Arith W} : params W :=
  {| max_iterations_ := 20; resolution_ := wone; max_levels_ := 10 |}.

(** A computer on given rows. *)
Definition on_rows {W} (rows : list (list (Z * W))) : computer W :=
  Computer (vlen rows) 0 [] [] rows [] [].

(** Rows of unit weights. *)
Definition unit_rows {W} `{!Arith W} (rows : list (list Z)) : list (list (Z * W)) :=
  map (map (fun v => (v, wone))) rows.

(** Two triangles joined by an edge. *)
Definition barbell : list (list Z) := [[1; 2]; [0; 2]; [0; 1; 3]; [2; 4; 5]; [3; 5]; [3; 4]].

Definition barbell_degrees : list double := map (fun row => double_ofZ (vlen row)) barbell.

(** Decidable counterpart of [rows_ok]. *)
Definition rows_okb {W} (adj : list (list (Z * W))) : bool :=
  forallb (fun row => forallb (fun e => (0 <=? fst e) && (fst e <? vlen adj)) row) adj.

Lemma rows_okb_ok {W} (adj : list (list (Z * W))) : rows_okb adj = true -> rows_ok (vlen adj) adj.
Proof.
  intros Hb. split; [done|]. intros u v Hu ([v' w] & -> & Hin)%list_elem_of_fmap.
  unfold rows_okb in Hb. rewrite forallb_forall in Hb.
  specialize (Hb (vat adj u) (proj1 (list_elem_of_In _ _) (vat_elem adj u Hu))).
  rewrite forallb_forall in Hb. specialize (Hb _ (proj1 (list_elem_of_In _ _) Hin)). simpl in *. lia.
Qed.

Lemma barbell_ok {W} `{!Arith W} : rows_ok 6 (unit_rows (W := W) barbell).
Proof. exact (rows_okb_ok (unit_rows barbell) eq_refl). Qed.

(** A property of all the indices below [n], decided. *)
Definition all_below (n : Z) (f : Z -> bool) : bool := forallb f (seqZ 0 n).
Lemma all_below_ok n f : all_below n f = true -> forall u, 0 <= u < n -> f u = true.
Proof.
  unfold all_below. rewrite forallb_forall. intros Hf u Hu. apply Hf, list_elem_of_In, elem_of_seqZ. lia.
Qed.

Definition Qc_eqb (x y : Qc) : bool := Qeq_bool x y.
Lemma Qc_eqb_ok x y : Qc_eqb x y = true -> x = y.
Proof. intros H. by apply Qc_is_canon, Qeq_bool_eq. Qed.

Definition symmetricb (adj : list (list (Z * Qc))) : bool :=
  all_below (vlen adj) (fun u => all_below (vlen adj) (fun v => Qc_eqb (mat adj u v) (mat adj v u))).
Lemma symmetricb_ok adj : symmetricb adj = true -> wsymmetric (vlen adj) (mat adj).
Proof.
  intros H u v Hu Hv. apply Qc_eqb_ok. pose proof (all_below_ok _ _ H u Hu) as H1. by apply (all_below_ok _ _ H1).
Qed.

Definition in_rangeb (k : Z) (comm : list Z) : bool := forallb (fun c => (0 <=? c) && (c <? k)) comm.
Lemma in_rangeb_ok k comm : in_rangeb k comm = true -> in_range k comm.
Proof.
  intros H u Hu. unfold in_rangeb in H. rewrite forallb_forall in H.
  specialize (H _ (proj1 (list_elem_of_In _ _) (vat_elem comm u Hu))). lia.
Qed.

