(* ===== verification/LouvainTheorems.v ===== *)
(** * Louvain: the theorems

    What [LOUVAIN] promises, in every arithmetic and for every hash order, and
    what it computes in exact arithmetic. *)
From S2P Require Import Prelude Num Storage KCore GraphBuild Aggregate Projection KcoreCompute Louvain.
From S2P Require Import LouvainCorrect Modularity LouvainExact ProjectionCorrect LouvainGraph Sample Examples.
From Stdlib Require Import QArith Qcanon.
#[local] Open Scope Z_scope.

(** ** Every arithmetic *)

Section properties.
Context {W : Type} `{!Arith W} `{!HashOrder}.

(** C1: [Compute] on a graph of at most [INT_MAX] vertices,
    whatever the weights and the hash order: it returns (no vector is left, no
    counter overflows), after at most [max_levels] coarsenings; the labels are
    exactly [0 .. num_communities - 1], each used; each coarsening has removed
    at least one vertex. *)
Theorem Compute_partition (p : params W) (c : computer W) :
  0 <= num_vertex_ c <= INT_MAX -> rows_ok (num_vertex_ c) (adj_ c) ->
  exists r, compute_on p c = Some r /\
    partition_into (num_vertex_ c) (r_num_communities r) (r_community r) /\
    0 <= r_levels_completed r <= Z.max 0 (max_levels_ p) /\
    r_levels_completed r + r_num_communities r <= num_vertex_ c.
Proof.
  intros Hn Hr. destruct (proj1 (wp_exists _ _) (compute_on_wp p c Hn Hr)) as (r & Hc & Hok).
  exists r. split_and!; [done|apply Hok..].
Qed.

(** C34: Vertices of one community are connected in the graph:
    Louvain never merges two connected components. *)
Theorem Compute_connected (p : params W) (c : computer W) :
  0 <= num_vertex_ c <= INT_MAX -> rows_ok (num_vertex_ c) (adj_ c) ->
  exists r, compute_on p c = Some r /\
    forall u v, 0 <= u < num_vertex_ c -> 0 <= v < num_vertex_ c ->
      vat (r_community r) u = vat (r_community r) v ->
      rtsc (fun x y => 0 <= x < num_vertex_ c /\ y ∈ (vat (adj_ c) x).*1) u v.
Proof.
  intros Hn Hr. destruct (proj1 (wp_exists _ _) (compute_on_wp p c Hn Hr)) as (r & Hc & Hok).
  exists r. split; [done|]. apply (ro_connected _ _ _ Hok). split.
  - split; [intros x; reflexivity|intros x y ?; by symmetry|intros x y z ??; by etransitivity].
  - intros u v Hu Hv. apply rtc_once. by left.
Qed.

(** Local moves: [LocalMove] makes [k <= max_iterations]
    synchronous sweeps; it stops early only at an assignment that a further
    sweep would not change; it reports no improvement exactly when nothing
    moved. *)
Theorem LocalMove_sweeps (p : params W) n adj node_weight (m : W) comm :
  0 <= n <= INT_MAX -> rows_ok n adj -> vlen node_weight = n -> assignment n comm ->
  exists improved comm', LocalMove p adj node_weight comm n m = Some (improved, comm') /\
    assignment n comm' /\
    (exists k, (k <= Z.to_nat (max_iterations_ p))%nat /\
       nsteps (sweep_step p adj node_weight n m) k comm comm' /\
       ((k < Z.to_nat (max_iterations_ p))%nat -> stable p adj node_weight n m comm')) /\
    (improved = false -> comm' = comm).
Proof.
  intros Hn Ha Hw Hc. pose proof (LocalMove_wp p n adj node_weight m Hn Ha Hw comm Hc) as Hwp.
  apply wp_exists in Hwp as ([improved comm'] & Hrun & Has & Hk & Hsame & _).
  exists improved, comm'. split_and!; [done..|]. intros Hf. by apply Hsame.
Qed.

(** Renumbering replaces the community ids by [0 .. k - 1] in
    order of first appearance, identifies exactly what was identified before,
    and is the identity when every vertex is alone. *)
Theorem renumber_spec comm n :
  vlen comm = n -> 0 <= n <= INT_MAX ->
  exists comm' k, renumber comm n = Some (comm', k) /\ renumbered n comm comm' k.
Proof.
  intros Hl Hn. pose proof (renumber_wp comm n Hl Hn) as Hwp.
  apply wp_exists in Hwp as ([comm' k] & ? & ?). by exists comm', k.
Qed.

(** [LOUVAIN] on a store: for every store that fits the
    integer types and has no deleted vertex label, [Compute] builds the
    multigraph of the stored edges and returns a partition of its vertices,
    with the vertex ids of the store. *)
Theorem Compute_store (p : params W) g :
  buildable g ->
  exists c r, BuildGraph (W := W) g = Some c /\ graph_of_store g c /\
    Compute p g Plain = Some r /\
    partition_into (vertex_total g) (r_num_communities r) (r_community r) /\
    r_id_mapping r = global_to_local_ c.
Proof.
  intros Hb. pose proof (Compute_plain_wp p g Hb) as Hwp.
  apply wp_exists in Hwp as (r & Hrun & c & Hc & Hg & Hok). exists c, r.
  pose proof (ro_partition _ _ _ Hok) as Hp. rewrite (gs_num _ _ Hg) in Hp.
  split_and!; [done..|apply Hok].
Qed.

(** The two graph builders agree: [LouvainComputer], which
    counts, allocates and fills slots, and [KcoreComputer], which appends,
    build the same rows and the same numbering. *)
Theorem builders_agree g :
  buildable g ->
  exists c1 c2 : computer W, BuildGraph g = Some c1 /\ Kcore_BuildGraph g = Some c2 /\
    num_vertex_ c1 = num_vertex_ c2 /\ adj_ c1 = adj_ c2 /\ num_edge_ c2 = 2 * num_edge_ c1.
Proof.
  intros Hb. pose proof (BuildGraph_wp (W := W) g Hb) as H1. pose proof (Kcore_BuildGraph_wp (W := W) g Hb) as H2.
  apply wp_exists in H1 as (c1 & Hc1 & Hg1 & He1). apply wp_exists in H2 as (c2 & Hc2 & Hg2 & He2).
  exists c1, c2. split_and!; [done..| | |lia].
  - by rewrite (gs_num _ _ Hg1), (gs_num _ _ Hg2).
  - apply vat_ext; [by rewrite (gs_len _ _ Hg1), (gs_len _ _ Hg2)|]. intros u Hu.
    rewrite (gs_len _ _ Hg1) in Hu. by rewrite (gs_rows _ _ Hg1), (gs_rows _ _ Hg2).
Qed.

(** C30: On a store that is [buildable] - no vertex label deleted, at most [INT_MAX]
    vertices and edge ends, edge types between the labels there are - [BuildGraph]
    succeeds, numbers the vertices label by label, gives every vertex one entry per
    incident edge end, in the order of the traversal, multi-edges and self-loops
    included, and counts the edges.  The condition on the labels is needed: with an edge
    type that is numbered past the labels left by a deletion the program indexes a
    vector out of range ([BuildGraph_label_gap]). *)
Theorem BuildGraph_store g :
  buildable g ->
  exists c : computer W, BuildGraph g = Some c /\ graph_of_store g c /\
    num_edge_ c = vlen (store_edges g).
Proof. intros Hb. by apply wp_exists, BuildGraph_wp. Qed.
End properties.

(** *** Examples *)

#[local] Existing Instance insertion_order.

Lemma Compute_partition_witness :
  exists r, compute_on (default_params (W := double)) (on_rows (unit_rows barbell)) = Some r /\
    partition_into 6 (r_num_communities r) (r_community r) /\
    0 <= r_levels_completed r <= Z.max 0 10 /\ r_levels_completed r + r_num_communities r <= 6.
Proof.
  apply (Compute_partition (W := double) default_params (on_rows (unit_rows barbell))); [by vm_compute|exact barbell_ok].
Defined.

Lemma Compute_connected_witness :
  exists r, compute_on (default_params (W := double)) (on_rows (unit_rows barbell)) = Some r /\
    forall u v, 0 <= u < 6 -> 0 <= v < 6 -> vat (r_community r) u = vat (r_community r) v ->
      rtsc (fun x y => 0 <= x < 6 /\ y ∈ (vat (unit_rows (W := double) barbell) x).*1) u v.
Proof.
  apply (Compute_connected (W := double) default_params (on_rows (unit_rows barbell))); [by vm_compute|exact barbell_ok].
Defined.

Lemma LocalMove_sweeps_witness :
  exists improved comm', LocalMove default_params (unit_rows barbell) barbell_degrees (iota 6) 6 (double_ofZ 7)
      = Some (improved, comm') /\ assignment 6 comm' /\
    (exists k, (k <= 20)%nat /\
       nsteps (sweep_step default_params (unit_rows barbell) barbell_degrees 6 (double_ofZ 7)) k (iota 6) comm' /\
       ((k < 20)%nat -> stable default_params (unit_rows barbell) barbell_degrees 6 (double_ofZ 7) comm')) /\
    (improved = false -> comm' = iota 6).
Proof.
  apply (LocalMove_sweeps default_params 6 (unit_rows barbell) barbell_degrees (double_ofZ 7) (iota 6));
    [by vm_compute|exact barbell_ok|reflexivity|].
  split; [reflexivity|]. intros u Hu. rewrite vat_iota; unfold vlen in Hu; simpl in Hu; lia.
Defined.

Lemma renumber_spec_witness :
  exists comm' k, renumber [4; 2; 4; 0] 4 = Some (comm', k) /\ renumbered 4 [4; 2; 4; 0] comm' k.
Proof. apply (renumber_spec [4; 2; 4; 0] 4); [reflexivity|by vm_compute]. Defined.

Lemma Compute_store_witness :
  exists c r, BuildGraph (W := double) sample_store = Some c /\ graph_of_store sample_store c /\
    Compute (default_params (W := double)) sample_store Plain = Some r /\
    partition_into (vertex_total sample_store) (r_num_communities r) (r_community r) /\
    r_id_mapping r = global_to_local_ c.
Proof. apply (Compute_store (W := double) default_params sample_store). exact sample_buildable. Defined.

Lemma builders_agree_witness :
  exists c1 c2 : computer double, BuildGraph sample_store = Some c1 /\ Kcore_BuildGraph sample_store = Some c2 /\
    num_vertex_ c1 = num_vertex_ c2 /\ adj_ c1 = adj_ c2 /\ num_edge_ c2 = 2 * num_edge_ c1.
Proof. apply (builders_agree (W := double) sample_store). exact sample_buildable. Defined.

Lemma BuildGraph_store_witness :
  exists c : computer double, BuildGraph sample_store = Some c /\ graph_of_store sample_store c /\
    num_edge_ c = vlen (store_edges sample_store).
Proof. apply (BuildGraph_store (W := double) sample_store). exact sample_buildable. Defined.

(** ** Two vertices and an edge *)

Definition pair_rows : list (list (Z * double)) := unit_rows [[1]; [0]].

(** The two assignments that keep the vertices apart. *)
Definition apart (comm : list Z) : Prop := comm = [0; 1] \/ comm = [1; 0].

(** A sweep that moves something is followed by the next. *)
Lemma move_iters_moved {W} `{!Arith W} `{!HashOrder} (p : params W) k adj nw comm comm' mc n m ct ct' any :
  sweep p adj nw comm n m ct = Some (comm', mc) -> AccumulateByComm comm' nw n = Some ct' -> 0 < mc ->
  move_iters p (S k) adj nw comm n m ct any = move_iters p k adj nw comm' n m ct' true.
Proof.
  intros Hs Ha Hmc. simpl. rewrite Hs. simpl. rewrite Ha. simpl.
  by rewrite (proj2 (Z.eqb_neq mc 0)), (proj2 (Z.ltb_lt 0 mc)) by lia.
Qed.

Lemma pair_iters (p : params double) k comm any :
  resolution_ p = wone -> apart comm ->
  exists b comm', move_iters p k pair_rows [wone; wone] comm 2 wone [wone; wone] any = Some (b, comm') /\ apart comm'.
Proof.
  intros Hp. revert comm any. induction k as [|k IH]; intros comm any Hc; [by exists any, comm|].
  destruct p as [iters gamma levels]. simpl in Hp. subst gamma. destruct Hc as [->| ->].
  - rewrite (move_iters_moved _ _ _ _ _ [1; 0] 2 _ _ _ [wone; wone]) by (done || by vm_compute).
    apply IH. by right.
  - rewrite (move_iters_moved _ _ _ _ _ [0; 1] 2 _ _ _ [wone; wone]) by (done || by vm_compute).
    apply IH. by left.
Qed.

(** The steps of [compute_on]. *)
Lemma compute_on_steps {W} `{!Arith W} `{!HashOrder} (p : params W) c nw m level st community q :
  num_vertex_ c <> 0 -> init_weights (adj_ c) (num_vertex_ c) = Some (nw, m) ->
  run_levels p (Z.to_nat (max_levels_ p)) 0 m (initial_level (num_vertex_ c) (adj_ c) nw) = Some (level, st) ->
  expand_communities (num_vertex_ c) st = Some community ->
  ComputeModularity p (adj_ c) (num_vertex_ c) community m = Some q ->
  compute_on p c = Some {| r_num_vertices := num_vertex_ c;
    r_num_communities := to_int (Z.of_nat (size (list_to_set community : gset Z)));
    r_levels_completed := level; r_modularity := q; r_community := community;
    r_id_mapping := global_to_local_ c; r_aggregate_keys := aggregate_keys_ c;
    r_aggregate_extra := aggregate_extra_ c |}.
Proof.
  intros Hn Hw Hl Hx Hq. unfold compute_on. rewrite (proj2 (Z.eqb_neq _ _) Hn), Hw. simpl.
  rewrite Hl. simpl. rewrite Hx. simpl. by rewrite Hq.
Qed.

(** On a single edge the two endpoints, moving at the same
    time, swap communities in every sweep: for all bounds on iterations and
    levels the result keeps them apart, at modularity -1/2, although together
    they have modularity 0. *)
Theorem Compute_pair (iters levels : Z) :
  let p := {| max_iterations_ := iters; resolution_ := wone; max_levels_ := levels |} in
  exists r, compute_on p (on_rows pair_rows) = Some r /\
    r_community r = [0; 1] /\ r_num_communities r = 2 /\
    r_modularity r = wdiv (wofZ (-1)) two /\
    ComputeModularity p pair_rows 2 [0; 0] wone = Some (wzero : double).
Proof.
  intros p. assert (init_weights pair_rows 2 = Some ([wone; wone], wone)) as Hw by by vm_compute.
  assert (exists st, run_levels p (Z.to_nat levels) 0 wone (initial_level 2 pair_rows [wone; wone]) = Some (0, st) /\
    ls_node_to_orig st = [[0]; [1]] /\ ls_comm st = [0; 1] /\ ls_n st = 2) as (st & Hst & Ho & Hc & Hn).
  { destruct (Z.to_nat levels) as [|k]; [eexists; split; [reflexivity|by split_and!]|]. cbn [run_levels initial_level ls_adj ls_node_weight ls_comm ls_n].
    destruct (pair_iters p (Z.to_nat iters) [0; 1] false) as (b & comm & Hm & Ha); [done|by left|].
    assert (LocalMove p pair_rows [wone; wone] (iota 2) 2 wone = Some (b, comm)) as ->.
    { unfold LocalMove. assert (AccumulateByComm (iota 2) [wone (W := double); wone] 2 = Some [wone; wone]) as ->
        by by vm_compute. exact Hm. }
    cbn [mbind option_bind]. rewrite andb_false_r.
    assert (renumber comm 2 = Some ([0; 1], 2)) as ->; [by destruct Ha as [->| ->]; vm_compute|].
    eexists. split; [reflexivity|by split_and!]. }
  assert (expand_communities 2 st = Some [0; 1]) as Hx.
  { unfold expand_communities. rewrite Ho, Hc, Hn. by vm_compute. }
  assert (ComputeModularity p pair_rows 2 [0; 1] wone = Some (wdiv (wofZ (-1)) two)) as Hq by by vm_compute.
  assert (ComputeModularity p pair_rows 2 [0; 0] wone = Some (wzero : double)) as Hz by by vm_compute.
  rewrite (compute_on_steps p (on_rows pair_rows) [wone; wone] wone 0 st [0; 1] (wdiv (wofZ (-1)) two));
    [|done|exact Hw|exact Hst|exact Hx|exact Hq].
  eexists. split; [reflexivity|]. cbn [r_community r_num_communities r_modularity].
  split; [done|]. split; [by vm_compute|]. by split.
Qed.

(** ** Exact arithmetic *)

Section exact_properties.
Context `{!HashOrder}.

(** [ComputeModularity] is Newman's modularity with
    resolution: the sum over all ordered pairs of equally labelled vertices of
    observed minus expected weight, over twice the total weight. *)
Theorem ComputeModularity_newman (p : params Qc) adj n comm m k :
  0 <= n -> k <= INT_MAX -> rows_ok n adj -> vlen comm = n -> in_range k comm -> (0 < m)%Qc ->
  ComputeModularity p adj n comm m = Some (modularity (resolution_ p) m n (mat adj) (vat comm)).
Proof.
  intros Hn Hk Hr Hc Hi Hm. pose proof (ComputeModularity_exact p adj n comm m k Hn Hk Hr Hc Hi Hm) as Hwp.
  apply wp_exists in Hwp as (q & Hq & ->). exact Hq.
Qed.

(** C26: A vertex without a self-loop chooses a community that maximises
    the modularity among its own and its neighbours' communities, whatever the
    hash order: the code's delta formulas rank the single moves exactly. *)
Theorem choose_comm_maximises (p : params Qc) n adj nw comm ct m u :
  exact_level n adj nw comm ct -> (0 < m)%Qc -> 0 <= u < n -> mat adj u u = 0%Qc ->
  exists b, choose_comm p adj nw comm m ct u = Some b /\ reachable_comm adj comm u b /\
    forall c, reachable_comm adj comm u c ->
      (modularity (resolution_ p) m n (mat adj) (relabel (vat comm) u c) <=
       modularity (resolution_ p) m n (mat adj) (relabel (vat comm) u b))%Qc.
Proof.
  intros Hl Hm Hu Hloop.
  exact (proj1 (wp_exists _ _) (choose_comm_optimal p n adj nw comm ct m u Hl Hm Hu Hloop)).
Qed.

(** With a self-loop (as in every coarse graph) the staying
    baseline keeps the loop's weight, so a vertex moves only when the gain
    exceeds the loop's share of the total weight. *)
Theorem choose_comm_threshold (p : params Qc) n adj nw comm ct m u :
  exact_level n adj nw comm ct -> (0 < m)%Qc -> 0 <= u < n ->
  exists b, choose_comm p adj nw comm m ct u = Some b /\
    (b <> vat comm u ->
     (modularity (resolution_ p) m n (mat adj) (vat comm) + mat adj u u / m <
      modularity (resolution_ p) m n (mat adj) (relabel (vat comm) u b))%Qc).
Proof.
  intros Hl Hm Hu.
  exact (proj1 (wp_exists _ _) (choose_comm_gain p n adj nw comm ct m u Hl Hm Hu)).
Qed.

(** C25: Coarsening is exact: merging the communities of a level
    yields the aggregated graph, keeps the weights symmetric and the node
    weights equal to the degrees, and gives every labelling of the merged
    nodes the modularity of the labelling it induces below. *)
Theorem coarsen_preserves_modularity m (st : level_state Qc) comm k :
  0 <= ls_n st -> 0 <= k -> rows_ok (ls_n st) (ls_adj st) -> vlen (ls_node_weight st) = ls_n st ->
  vlen (ls_node_to_orig st) = ls_n st -> vlen comm = ls_n st -> in_range k comm ->
  wsymmetric (ls_n st) (mat (ls_adj st)) -> m <> 0%Qc ->
  exists st', coarsen st comm k = Some st' /\ ls_n st' = k /\
    (forall c d, 0 <= c < k -> 0 <= d < k ->
       mat (ls_adj st') c d = block (ls_n st) (vat comm) (mat (ls_adj st)) c d) /\
    forall gamma q, modularity gamma m k (mat (ls_adj st')) q =
      modularity gamma m (ls_n st) (mat (ls_adj st)) (fun u => q (vat comm u)).
Proof.
  intros Hn Hk Hr Hw Ho Hc Hi Hs Hm.
  pose proof (coarsen_spec st comm k Hn Hk Hr Hw Ho Hc Hi) as Hwp.
  apply wp_exists in Hwp as (st' & Hrun & Hco). exists st'.
  assert (forall c d, 0 <= c < k -> 0 <= d < k ->
    mat (ls_adj st') c d = block (ls_n st) (vat comm) (mat (ls_adj st)) c d) as Hmat
    by (intros; by apply (coarse_state_mat st st' comm k)).
  split_and!; [done|apply Hco|done|]. intros gamma q.
  rewrite (modularity_ext _ _ _ _ (block (ls_n st) (vat comm) (mat (ls_adj st))) q q) by done.
  apply modularity_block; [|done]. intros u Hu. apply Hi. lia.
Qed.

(** C3: [LOUVAIN] in exact arithmetic on a store that is [buildable] - no vertex
    label deleted, at most [INT_MAX] vertices and edge ends, edge types between the
    labels there are - and has a vertex and an edge: it returns, and the reported
    modularity is the modularity, at the configured resolution, of the returned
    partition of the multigraph of the stored edges, whose total weight is the number
    of edges.  The condition on the labels is needed ([BuildGraph_label_gap]); without
    edges the program reports 0, where the modularity is not defined. *)
Theorem Compute_store_modularity (p : params Qc) g :
  buildable g -> 0 < vertex_total g -> 0 < vlen (store_edges g) ->
  exists r, Compute p g Plain = Some r /\
    r_modularity r = modularity (resolution_ p) (Q2Qc (inject_Z (vlen (store_edges g)))) (vertex_total g)
      (edge_weight (store_edges g)) (vat (r_community r)).
Proof.
  intros Hb Hv He. pose proof (BuildGraph_wp (W := Qc) g Hb) as Hwp.
  apply wp_exists in Hwp as (c & Hc & Hg & _). pose proof (total_nonneg g Hb) as Hn.
  pose proof (store_rows_ok g c Hb Hg) as Hr. pose proof (store_half_weight g c Hb Hg) as Hh.
  assert (wsymmetric (vertex_total g) (mat (adj_ c))) as Hs.
  { intros u v Hu Hv'. rewrite !(store_mat g c) by done. by apply (edge_weight_sym (vertex_total g)). }
  assert (0 < Q2Qc (inject_Z (vlen (store_edges g))))%Qc as Hpos.
  { unfold Qclt. change (Qlt 0 (Qred (inject_Z (vlen (store_edges g))))). rewrite Qred_correct.
    unfold Qlt, inject_Z. simpl. lia. }
  rewrite <-(gs_num _ _ Hg) in Hr, Hn, Hh, Hs, Hv. rewrite <-Hh in Hpos.
  pose proof (compute_on_exact p c ltac:(lia) Hr Hs Hpos) as Hwp.
  apply wp_exists in Hwp as (r & Hrun & Hq & _). exists r.
  split; [unfold Compute; simpl; by rewrite Hc|]. rewrite Hq, Hh, (gs_num _ _ Hg).
  apply modularity_ext; [|done]. intros u v Hu Hv'. by apply store_mat.
Qed.
End exact_properties.

(** *** Examples *)

(** The level of the rows [adj] under the labels [comm]. *)
Definition degree_weights (adj : list (list (Z * Qc))) : list Qc :=
  map (wdegree (vlen adj) (mat adj)) (iota (vlen adj)).
Definition degree_totals (adj : list (list (Z * Qc))) (comm : list Z) : list Qc :=
  map (comm_degree (vlen adj) (mat adj) (vat comm)) (iota (vlen adj)).

Lemma exact_levelb_ok adj comm :
  rows_okb adj = true -> symmetricb adj = true -> vlen comm = vlen adj -> in_rangeb (vlen adj) comm = true ->
  exact_level (vlen adj) adj (degree_weights adj) comm (degree_totals adj comm).
Proof.
  intros Hr Hs Hl Hi. assert (forall (f : Z -> Qc) u, 0 <= u < vlen adj ->
    vat (map f (iota (vlen adj))) u = f u) as Hmap.
  { intros f u Hu. unfold vat. apply list_lookup_total_correct, list_lookup_fmap_Some.
    exists u. split; [done|]. apply lookup_seqZ. lia. }
  assert (forall f : Z -> Qc, vlen (map f (iota (vlen adj))) = vlen adj) as Hlen.
  { intros f. unfold vlen, iota. rewrite length_map, length_seqZ. lia. }
  split; [by apply rows_okb_ok|by apply symmetricb_ok|apply Hlen|intros u Hu; by apply Hmap|
    done|by apply in_rangeb_ok|apply Hlen|intros c Hc; by apply Hmap].
Qed.

(** The two triangles merged: loops of weight 6 and the joining edge. *)
Definition coarse_barbell : list (list (Z * Qc)) :=
  [[(0, wofZ 6); (1, wofZ 1)]; [(0, wofZ 1); (1, wofZ 6)]].
Definition seven : Qc := Q2Qc 7.

Lemma ComputeModularity_newman_witness :
  ComputeModularity default_params (unit_rows barbell) 6 [0; 0; 0; 1; 1; 1] seven =
  Some (modularity (resolution_ default_params) seven 6 (mat (unit_rows barbell)) (vat [0; 0; 0; 1; 1; 1])).
Proof.
  apply (ComputeModularity_newman default_params (unit_rows barbell) 6 [0; 0; 0; 1; 1; 1] seven 2);
    [lia|by vm_compute|exact barbell_ok|reflexivity|by apply in_rangeb_ok|reflexivity].
Defined.

Lemma choose_comm_maximises_witness :
  let adj := unit_rows (W := Qc) barbell in
  exists b, choose_comm default_params adj (degree_weights adj) (iota 6) seven (degree_totals adj (iota 6)) 2
      = Some b /\ reachable_comm adj (iota 6) 2 b /\
    forall c, reachable_comm adj (iota 6) 2 c ->
      (modularity (resolution_ default_params) seven 6 (mat adj) (relabel (vat (iota 6)) 2 c) <=
       modularity (resolution_ default_params) seven 6 (mat adj) (relabel (vat (iota 6)) 2 b))%Qc.
Proof.
  intros adj. apply (choose_comm_maximises default_params 6 adj (degree_weights adj) (iota 6)
    (degree_totals adj (iota 6)) seven 2); [|reflexivity|lia|by apply Qc_eqb_ok; vm_compute].
  by apply (exact_levelb_ok adj (iota 6)); vm_compute.
Defined.

Lemma choose_comm_threshold_witness :
  exists b, choose_comm default_params coarse_barbell (degree_weights coarse_barbell) (iota 2) seven
      (degree_totals coarse_barbell (iota 2)) 0 = Some b /\
    (b <> 0 -> (modularity (resolution_ default_params) seven 2 (mat coarse_barbell) (vat (iota 2)) +
        mat coarse_barbell 0 0 / seven <
      modularity (resolution_ default_params) seven 2 (mat coarse_barbell) (relabel (vat (iota 2)) 0 b))%Qc).
Proof.
  apply (choose_comm_threshold default_params 2 coarse_barbell (degree_weights coarse_barbell) (iota 2)
    (degree_totals coarse_barbell (iota 2)) seven 0); [|reflexivity|lia].
  by apply (exact_levelb_ok coarse_barbell (iota 2)); vm_compute.
Defined.

Lemma coarsen_preserves_modularity_witness :
  let adj := unit_rows (W := Qc) barbell in
  let st := initial_level 6 adj (degree_weights adj) in
  let comm := [0; 0; 0; 1; 1; 1] in
  exists st', coarsen st comm 2 = Some st' /\ ls_n st' = 2 /\
    (forall c d, 0 <= c < 2 -> 0 <= d < 2 ->
       mat (ls_adj st') c d = block 6 (vat comm) (mat adj) c d) /\
    forall gamma q, modularity gamma seven 2 (mat (ls_adj st')) q =
      modularity gamma seven 6 (mat adj) (fun u => q (vat comm u)).
Proof.
  intros adj st comm. apply (coarsen_preserves_modularity seven st comm 2);
    [done|lia|exact barbell_ok|reflexivity|reflexivity|reflexivity|by apply in_rangeb_ok|
     by apply (symmetricb_ok adj); vm_compute|done].
Defined.

Lemma Compute_store_modularity_witness :
  exists r, Compute (default_params (W := Qc)) sample_store Plain = Some r /\
    r_modularity r = modularity (resolution_ default_params)
      (Q2Qc (inject_Z (vlen (store_edges sample_store)))) (vertex_total sample_store)
      (edge_weight (store_edges sample_store)) (vat (r_community r)).
Proof.
  apply (Compute_store_modularity default_params sample_store);
    [exact sample_buildable|by vm_compute|by vm_compute].
Defined.
