(* ===== verification/CallCorrect.v ===== *)
(** * The files and rows of the CALL functions

    The result of a call on a store: grouping the vertices by label, the
    property files, and the lines of the result file. *)
From S2P Require Import Prelude Num Storage KCore GraphBuild Aggregate Projection KcoreCompute Louvain.
From S2P Require Import LouvainCorrect Call Csv.
#[local] Open Scope Z_scope.

(** A vertex of the graph is a vertex of one label. *)
Lemma locate_vertex g u : buildable g -> 0 <= u < vertex_total g ->
  exists L v, 0 <= L < vertex_label_num (schema g) /\ 0 <= v < GetVertexSet_size g L /\ u = first_vid g L + v.
Proof.
  intros Hb Hu. destruct (num_labels g Hb) as [_ Hnum]. unfold vertex_total in Hu.
  set (num := vertex_label_num (schema g)) in *. clearbody num. revert num Hnum Hu.
  apply (natlike_ind (fun num => 0 <= u < first_vid g num -> exists L v, 0 <= L < num /\
    0 <= v < GetVertexSet_size g L /\ u = first_vid g L + v)).
  - unfold first_vid. rewrite sumz_0. lia.
  - intros num Hnum IH Hu. rewrite <-Z.add_1_r, first_vid_succ in Hu by done.
    destruct (decide (u < first_vid g num)) as [Hlt|Hge].
    + destruct (IH ltac:(lia)) as (L & v & ? & ? & ?). exists L, v. lia.
    + exists num, (u - first_vid g num). lia.
Qed.

(** The identifier of a vertex of the graph: its label and its vertex id. *)
Lemma vertex_id {W} `{!Arith W} g (c : computer W) u :
  buildable g -> graph_of_store g c -> 0 <= u < vertex_total g ->
  0 <= fst (vat (global_to_local_ c) u) < vertex_label_num (schema g) /\
  u = first_vid g (fst (vat (global_to_local_ c) u)) + snd (vat (global_to_local_ c) u) /\
  0 <= snd (vat (global_to_local_ c) u) < GetVertexSet_size g (fst (vat (global_to_local_ c) u)).
Proof.
  intros Hb Hg Hu. destruct (locate_vertex g u Hb Hu) as (L & v & HL & Hv & ->).
  by rewrite (gs_ids _ _ Hg).
Qed.

(** The name of a label of the schema. *)
Lemma label_name g L : buildable g -> 0 <= L < vertex_label_num (schema g) ->
  get_vertex_label_name (schema g) L = Some (Returned (vat (vlabel_indexer (schema g)) L)).
Proof.
  intros Hb HL. destruct (num_labels g Hb) as [Hnum _]. pose proof (labels_valid g Hb L HL) as Hv.
  unfold vertex_label_valid in Hv. rewrite (proj2 (Z.ltb_lt _ _)) in Hv by lia.
  unfold get_vertex_label_name. destruct (vget (vlabel_tomb (schema g)) L) as [[]|]; simpl in *; try done.
  by rewrite vget_Some by lia.
Qed.

(** Elements of a mapped vector, and the size of a filtered range. *)
Lemma vget_map {A B} `{!Inhabited A} (f : A -> B) (l : list A) i :
  0 <= i < vlen l -> vget (map f l) i = Some (f (vat l i)).
Proof.
  intros Hi. unfold vget, vat, vlen in *. rewrite (proj2 (Z.ltb_ge _ _)) by lia.
  rewrite list_lookup_fmap, list_lookup_lookup_total_lt by lia. done.
Qed.

Lemma vlen_filter_seqZ (P : Z -> Prop) `{!forall x, Decision (P x)} n :
  0 <= n -> vlen (filter P (seqZ 0 n)) <= n.
Proof.
  intros Hn. unfold vlen. pose proof (length_filter P (seqZ 0 n)) as Hl. rewrite length_seqZ in Hl. lia.
Qed.

(** ** Grouping by label *)

Section grouping.
Context {W : Type} `{!Arith W} `{!HashOrder}.
Context (sch : Schema) (r : Result W).
Let label_at u := fst (vat (r_id_mapping r) u).

(** The vertices below [i] with label [L]. *)
Definition members (i L : Z) : list Z := filter (fun u => fst (vat (r_id_mapping r) u) = L) (seqZ 0 i).

Lemma members_succ i L : 0 <= i ->
  members (i + 1) L = members i L ++ (if decide (label_at i = L) then [i] else []).
Proof.
  intros Hi. unfold members. rewrite seqZ_snoc, filter_app by done. f_equal.
Qed.

(** The groups after the vertices below [i]. *)
Definition groups_ok (i : Z) (m : umap (string * list Z)) : Prop :=
  NoDup m.*1 /\ forall L, umap_find m L =
    if decide (members i L = []) then None else Some (vat (vlabel_indexer sch) L, members i L).

Lemma members_nonempty i L : members i L <> [] <-> exists u, 0 <= u < i /\ label_at u = L.
Proof.
  split.
  - intros Hne. destruct (members i L) as [|u l] eqn:Hm; [done|]. exists u.
    assert (u ∈ members i L) as Hu by (rewrite Hm; by left).
    apply list_elem_of_filter in Hu as [HL Hu%elem_of_seqZ]. split; [lia|done].
  - intros (u & Hu & HL) Hm. assert (u ∈ members i L) as Hin.
    { apply list_elem_of_filter. split; [done|]. apply elem_of_seqZ. lia. }
    rewrite Hm in Hin. by apply elem_of_nil in Hin.
Qed.

(** Vertex [i] joins its group. *)
Lemma groups_push i m d :
  0 <= i -> groups_ok i m -> (umap_find m (label_at i) = None -> d = (vat (vlabel_indexer sch) (label_at i), [])) ->
  groups_ok (i + 1) (umap_update m (label_at i) d (fun x => (fst x, snd x ++ [i]))).
Proof.
  intros Hi [Hnd Hm] Hd. split; [by apply umap_update_nodup|]. intros L.
  rewrite umap_find_update, members_succ by done. destruct (Z.eqb_spec (label_at i) L) as [<-|Hne].
  - rewrite (decide_True (P := label_at i = label_at i)), decide_False by (done || by intros [_ ?]%app_nil).
    pose proof (Hm (label_at i)) as Hf. case_decide as Hnil; rewrite Hf; simpl; [|done].
    by rewrite (Hd Hf), Hnil.
  - rewrite (decide_False (P := label_at i = L)), app_nil_r by done. apply Hm.
Qed.

Lemma group_by_label_wp :
  0 <= r_num_vertices r -> vlen (r_id_mapping r) = r_num_vertices r ->
  (forall u, 0 <= u < r_num_vertices r ->
     get_vertex_label_name sch (label_at u) = Some (Returned (vat (vlabel_indexer sch) (label_at u)))) ->
  wp (group_by_label sch r) (fun o => exists m, o = Returned m /\ groups_ok (r_num_vertices r) m).
Proof.
  intros Hn Hlen Hname. unfold group_by_label.
  apply (wp_for_range (fun i o => exists m, o = Returned m /\ groups_ok i m)); [done| | |done].
  - exists []. split; [done|]. split; [constructor|]. intros L. by rewrite decide_True.
  - intros i o Hi (m & -> & Hm). wsteps. destruct (umap_find m (label_at i)) as [x|] eqn:Hx;
      unfold label_at in Hx; rewrite Hx.
    + wsteps. eexists. split; [done|]. apply groups_push; [lia|done|]. unfold label_at. congruence.
    + pose proof (Hname i Hi) as Hl. unfold label_at in Hl. rewrite Hl. wsteps. eexists. split; [done|]. by apply groups_push; [lia|..].
Qed.
End grouping.

(** ** The property files *)

Section property_files.
Context {W : Type} `{!Arith W} `{!HashOrder}.
Context (env : call_env) (r : Result W).
Context (Hids : vlen (r_id_mapping r) = r_num_vertices r) (Hcomm : vlen (r_community r) = r_num_vertices r).

(** The values of the columns, empty where the column throws. *)
Definition property_values (L v : Z) : list string :=
  map (fun pi => default EmptyString (property_value env L v pi)) (seqZ 0 (vlen (property_names env L))).

(** The record of a vertex in the file of its label. *)
Definition property_record (L gid : Z) : list string :=
  [to_string gid; to_string (snd (vat (r_id_mapping r) gid)); to_string (vat (r_community r) gid)] ++
  property_values L (snd (vat (r_id_mapping r) gid)).

Lemma property_line_ok L gid : 0 <= gid < r_num_vertices r ->
  exists l, property_line env r L gid = Some l /\ record_of l (property_record L gid).
Proof using Hids Hcomm.
  intros Hg. unfold property_line. rewrite !vget_Some by lia. simpl. eexists. split; [done|].
  unfold property_record, property_values. set (v := snd (vat (r_id_mapping r) gid)).
  apply record_cons; [apply field_number|]. apply record_cons; [apply field_number|].
  erewrite map_ext; [apply (record_fields (fun pi => match property_value env L v pi with
    | Some x => escape_csv x | None => EmptyString end)
    (fun pi => default EmptyString (property_value env L v pi))); [apply field_number|]|done].
  intros pi. simpl. destruct (property_value env L v pi) as [x|]; [apply field_escaped|].
  simpl. by apply field_plain.
Qed.

(** [body] is the file of label [L]: the header line, then a record per vertex. *)
Definition property_file_of (L : Z) (ids : list Z) (body : string) : Prop :=
  exists t, body = (property_header env L +:+ nl +:+ t)%string /\ csv_of t (map (property_record L) ids).

Lemma property_file_ok L ids :
  (forall u, u ∈ ids -> 0 <= u < r_num_vertices r) ->
  exists body, property_file env r L ids = Some body /\ property_file_of L ids body.
Proof using Hids Hcomm.
  intros Hin. unfold property_file.
  destruct (for_each_csv (property_line env r L) (property_record L) ids (property_header env L +:+ nl)%string)
    as (t & Ht & Hcsv).
  { intros u Hu. destruct (property_line_ok L u (Hin u Hu)) as (l & Hl & Hrec). by exists l. }
  rewrite Ht, sapp_assoc. eexists. split; [done|]. by exists t.
Qed.

(** The path of the file of label [L]. *)
Definition property_path (sch : Schema) (dir : string) (L : Z) : string :=
  (dir +:+ "/" +:+ vat (vlabel_indexer sch) L +:+ ".csv")%string.

(** The files of [property_files]: one for each label that has vertices and
    whose file opens, holding the vertices of the label in order. *)
Definition property_files_of (sch : Schema) (dir : string) (files : list (string * string)) : Prop :=
  (forall path body, (path, body) ∈ files -> exists L, members r (r_num_vertices r) L <> [] /\
     path = property_path sch dir L /\ can_open env path = true /\
     property_file_of L (members r (r_num_vertices r) L) body) /\
  (forall L, members r (r_num_vertices r) L <> [] -> can_open env (property_path sch dir L) = true ->
     exists body, (property_path sch dir L, body) ∈ files).

Lemma members_range n L u : u ∈ members r n L -> 0 <= u < n.
Proof. unfold members. intros [_ Hu%elem_of_seqZ]%list_elem_of_filter. lia. Qed.

Lemma property_files_wp sch dir :
  0 <= r_num_vertices r ->
  (forall u, 0 <= u < r_num_vertices r -> get_vertex_label_name sch (fst (vat (r_id_mapping r) u)) =
     Some (Returned (vat (vlabel_indexer sch) (fst (vat (r_id_mapping r) u))))) ->
  wp (property_files env sch dir r) (fun o => exists files, o = Returned files /\ property_files_of sch dir files).
Proof using Hids Hcomm.
  intros Hn Hname. unfold property_files. apply wp_bind.
  eapply wp_mono; [by apply group_by_label_wp|]. intros o (m & -> & Hnd & Hm). apply wp_bind.
  assert (forall L x, (L, x) ∈ iter_order 0 m -> members r (r_num_vertices r) L <> [] /\
    x = (vat (vlabel_indexer sch) L, members r (r_num_vertices r) L)) as Hgroup.
  { intros L x Hin. rewrite (iter_order_perm 0 m), <-umap_find_elem, Hm in Hin by done. by case_decide; simplify_eq. }
  assert (forall L, members r (r_num_vertices r) L <> [] -> exists x, (L, x) ∈ iter_order 0 m) as Hlabel.
  { intros L HL. eexists. rewrite (iter_order_perm 0 m), <-umap_find_elem, Hm by done. by rewrite decide_False. }
  apply (wp_for_each (fun seen files =>
    (forall path body, (path, body) ∈ files -> exists L, members r (r_num_vertices r) L <> [] /\
       path = property_path sch dir L /\ can_open env path = true /\
       property_file_of L (members r (r_num_vertices r) L) body) /\
    (forall L x, (L, x) ∈ seen -> can_open env (property_path sch dir L) = true ->
       exists body, (property_path sch dir L, body) ∈ files))).
  - split; [set_solver|]. intros L x []%elem_of_nil.
  - intros seen [L x] rest files Heq [Hsound Hcompl].
    destruct (Hgroup L x) as [HL ->]; [rewrite Heq; set_solver|]. fold (property_path sch dir L).
    destruct (can_open env (property_path sch dir L)) eqn:Hopen.
    + destruct (property_file_ok L (members r (r_num_vertices r) L)) as (body & Hbody & Hof).
      { intros u. apply members_range. }
      rewrite Hbody. wsteps. split.
      * intros path b [?|[= -> ->]%list_elem_of_singleton]%elem_of_app; [by apply Hsound|]. by exists L.
      * intros M y [Hy|[= -> ->]%list_elem_of_singleton]%elem_of_app Ho; [|exists body; set_solver].
        destruct (Hcompl M y Hy Ho) as (b & Hb). exists b. set_solver.
    + wsteps. split; [done|]. intros M y [Hy|[= -> ->]%list_elem_of_singleton]%elem_of_app Ho; [eauto|congruence].
  - intros files [Hsound Hcompl]. wsteps. eexists. split; [done|]. split; [done|].
    intros L HL Ho. destruct (Hlabel L HL) as (x & Hx). by apply (Hcompl L x).
Qed.
End property_files.
