(* ===== verification/CallTheorems.v ===== *)
(** * The CALL functions: the theorems

    What a query gets back: the row of the result and the contents of the
    files, read with the reader of [Csv]. *)
From S2P Require Import Prelude Num Storage KCore GraphBuild Aggregate Projection KcoreCompute Louvain.
From S2P Require Import LouvainCorrect ProjectionCorrect HostingCorrect InfraCorrect Call Csv Sample.
From S2P Require Import KcoreTheorems ProjectionTheorems LouvainGraph CallCorrect.
From Stdlib Require Import Ascii.
#[local] Open Scope Z_scope.

(** A header line of plain names. *)
Lemma record_names v vs :
  Forall plain (v :: vs) -> record_of (v +:+ String.concat EmptyString (map (fun x => comma +:+ x) vs))%string (v :: vs).
Proof.
  intros [Hv Hvs]%Forall_cons. revert v Hv. induction Hvs as [|x vs Hx Hvs IH]; intros v Hv.
  - simpl. rewrite sapp_nil_r. by apply record_one, field_plain.
  - assert (String.concat EmptyString (map (fun x => comma +:+ x) (x :: vs)) =
      comma +:+ (x +:+ String.concat EmptyString (map (fun x => comma +:+ x) vs)))%string as ->.
    { destruct vs; simpl; [by rewrite sapp_nil_r|done]. }
    apply record_cons; [by apply field_plain|]. by apply IH.
Qed.

Section calls.
Context {W : Type} `{!Arith W} `{!HashOrder} (env : call_env).

(** The directory of the results can be created and the result file opened. *)
Definition writable (prefix : string) : Prop :=
  can_create env louvain_dir = true /\ can_open env (output_path env louvain_dir prefix) = true.

(** ** The escaping of property values *)

(** Whatever the value, [escape_csv] writes a field that reads
    back as the value, before a comma as well as before a line end. *)
Theorem escape_csv_reads v r : field_end r -> read_field (escape_csv v +:+ r)%string = Some (v, r).
Proof. apply field_escaped. Qed.

(** ** LOUVAIN *)

(** The record of a vertex in the result file. *)
Definition louvain_record (r : Result W) (i : Z) : list string :=
  [to_string i; to_string (fst (vat (r_id_mapping r) i)); to_string (snd (vat (r_id_mapping r) i));
   to_string (vat (r_community r) i)].

Lemma louvain_line_ok (r : Result W) i :
  0 <= i < r_num_vertices r -> vlen (r_id_mapping r) = r_num_vertices r -> vlen (r_community r) = r_num_vertices r ->
  exists l, louvain_line r i = Some l /\ record_of l (louvain_record r i) /\ louvain_record r i <> [].
Proof.
  intros Hi Hids Hcomm. unfold louvain_line. rewrite !vget_Some by lia. simpl. eexists. split; [done|]. split; [|done].
  repeat (apply record_cons; [apply field_number|]). apply record_one, field_number.
Qed.

(** The parameters of a call of [LOUVAIN]. *)
Definition louvain_params (inp : LouvainInput (W := W)) : params W :=
  {| max_iterations_ := to_int (li_max_iter inp); resolution_ := li_resolution inp;
     max_levels_ := to_int (li_max_levels inp) |}.

(** C31: [LOUVAIN] on a store that can be built ends in one of four ways.  When the
    directory of the results cannot be created it throws and nothing is written; when
    the result file does not open it returns the empty context and writes nothing;
    when the directory of the properties cannot be created it throws, with the result
    file already written; otherwise it returns one row whose cells have the types of
    the declared columns.  The result file holds the header and one record (index,
    label, vertex id, community) per vertex in order, and every label with vertices
    whose file opens has a file that reads back the properties of exactly its
    vertices. *)
Theorem ExecuteLouvain_output g inp :
  buildable g ->
  let outputFile := output_path env louvain_dir "louvain" in
  let dir := (louvain_dir +:+ "/props_" +:+ to_string (props_ms env))%string in
  exists r body files row, Compute (louvain_params inp) g Plain = Some r /\
    ExecuteLouvain env (Some g) inp = Some (
      if negb (can_create env louvain_dir) then ExecResult Thrown []
      else if negb (can_open env outputFile) then ExecResult (Returned []) []
      else if negb (can_create env dir) then ExecResult Thrown [(outputFile, body)]
      else ExecResult (Returned row) ((outputFile, body) :: files)) /\
    row = louvain_row r outputFile ++ [CString dir] /\ map cell_type row = louvain_columns /\
    csv_of body (["global_id"; "vertex_label"; "original_vid"; "community_id"]%string ::
      map (louvain_record r) (seqZ 0 (vertex_total g))) /\
    property_files_of env r (schema g) dir files.
Proof.
  intros Hb outputFile dir. pose proof (Compute_plain_wp (louvain_params inp) g Hb) as Hwp.
  apply wp_exists in Hwp as (r & Hrun & c & _ & Hg & Hok).
  pose proof (ro_vertices _ _ _ Hok) as Hn. rewrite (gs_num _ _ Hg) in Hn.
  pose proof (total_nonneg g Hb) as Hpos.
  assert (vlen (r_id_mapping r) = r_num_vertices r) as Hids.
  { rewrite (ro_ids _ _ _ Hok), Hn. apply (gs_ids_len _ _ Hg). }
  assert (vlen (r_community r) = r_num_vertices r) as Hcomm.
  { rewrite Hn, <-(gs_num _ _ Hg). apply (ro_partition _ _ _ Hok). }
  destruct (csv_reads "global_id,vertex_label,original_vid,community_id"
    ["global_id"; "vertex_label"; "original_vid"; "community_id"]%string (r_num_vertices r) (louvain_line r)
    (louvain_record r)) as (body & Hbody & Hcsv); [lia| |done|by intros; apply louvain_line_ok|].
  { apply (record_names "global_id" ["vertex_label"; "original_vid"; "community_id"]%string). by repeat constructor. }
  pose proof (property_files_wp env r Hids Hcomm (schema g) dir ltac:(lia)) as Hfiles.
  apply wp_exists in Hfiles as (o & Hfiles & files & -> & Hof).
  - rewrite Hn in Hcsv. exists r, body, files, (louvain_row r outputFile ++ [CString dir]).
    split_and!; [done| |done..]. unfold ExecuteLouvain. fold (louvain_params inp). unfold mbind, option_bind. rewrite Hrun.
    cbv beta iota zeta. unfold GenerateLouvainOutputPath. fold outputFile dir. destruct (can_create env louvain_dir); [|done]. cbn [with_path].
    destruct (can_open env outputFile); [|done]. cbn [negb]. rewrite Hbody. destruct (can_create env dir); [|done]. cbn [negb]. by rewrite Hfiles.
  - intros u Hu. rewrite (ro_ids _ _ _ Hok). apply label_name; [done|].
    apply (vertex_id g c u); [done..|lia].
Qed.

(** ** KCORE *)

Definition kcore_record (r : KcoreResult) (i : Z) : list string :=
  [to_string i; to_string (fst (vat (kr_id_mapping r) i)); to_string (snd (vat (kr_id_mapping r) i));
   to_string (vat (kr_coreness r) i)].

(** [KCORE] on a store returns its row when its directory can be created, even
    when the file does not open and nothing is written; otherwise the file holds
    one record per vertex with its label, vertex id and coreness. *)
Theorem ExecutePlain_output g :
  buildable g -> vertex_total g < INT_MAX ->
  let outputFile := output_path env kcore_dir "kcore" in
  exists r body, Kcore_Compute (W := W) g KPlain = Some r /\
    ExecutePlain (W := W) env (Some g) = Some (
      if negb (can_create env kcore_dir) then ExecResult Thrown []
      else ExecResult (Returned (kcore_row (W := W) r outputFile)) (if can_open env outputFile then [(outputFile, body)] else [])) /\
    map cell_type (kcore_row (W := W) r outputFile) = kcore_columns /\
    csv_of body (["global_id"; "vertex_label"; "original_vid"; "coreness"]%string ::
      map (kcore_record r) (seqZ 0 (vertex_total g))).
Proof.
  intros Hb Hmax outputFile. pose proof (Kcore_plain_wp (W := W) g Hb Hmax) as Hwp.
  apply wp_exists in Hwp as (r & Hrun & c & _ & Hg & Hok & _ & Hid). pose proof (total_nonneg g Hb) as Hpos.
  pose proof (ko_vertices _ _ _ Hok) as Hn. pose proof (ko_len _ _ _ Hok) as Hcore.
  pose proof (gs_ids_len _ _ Hg) as Hids. rewrite <-Hid in Hids.
  destruct (csv_reads "global_id,vertex_label,original_vid,coreness"
    ["global_id"; "vertex_label"; "original_vid"; "coreness"]%string (kr_num_vertices r) (kcore_line r)
    (kcore_record r)) as (body & Hbody & Hcsv); [lia| |done| |].
  - apply (record_names "global_id" ["vertex_label"; "original_vid"; "coreness"]%string). by repeat constructor.
  - intros i Hi. unfold kcore_line. rewrite !vget_Some by lia. simpl. eexists. split; [done|]. split; [|done].
    repeat (apply record_cons; [apply field_number|]). apply record_one, field_number.
  - exists r, body. rewrite <-Hn. split_and!; [done| |done|done].
    unfold ExecutePlain, run_kcore, mbind, option_bind. rewrite Hrun. unfold GenerateKcoreOutputPath. fold outputFile.
    destruct (can_create env kcore_dir); [|done]. cbn [with_path]. by rewrite Hbody.
Qed.

(** ** LOUVAIN_COAUTHOR and LOUVAIN_INFRA_COUNTRY *)

(** A projection that builds a graph in range computes a result. *)
Lemma Compute_projection_wp (p : params W) g mode (Q : computer W -> Prop) :
  wp (build g mode) (fun c => Q c /\ rows_ok (num_vertex_ c) (adj_ c)) ->
  (forall c, Q c -> 0 <= num_vertex_ c <= INT_MAX) ->
  wp (Compute p g mode) (fun r => exists c, Q c /\ result_ok p c r).
Proof.
  intros Hb Hn. apply wp_exists in Hb as (c & Hc & HQ & Hg). unfold Compute. rewrite Hc. simpl.
  eapply wp_mono; [by apply compute_on_wp; [apply Hn|]|]. intros r Hok. by exists c.
Qed.

Definition country_record (r : Result W) (i : Z) : list string :=
  [to_string i; vat (r_aggregate_keys r) i; to_string (vat (r_community r) i)].

(** The keys of the result are the country codes in use, each once, and the
    file has a record for each. *)
Definition country_file_of g org cc (r : Result W) (body : string) : Prop :=
  NoDup (r_aggregate_keys r) /\
  (forall code, code ∈ r_aggregate_keys r <->
     exists o, 0 <= o < GetVertexSet_size g org /\ org_country g org cc o = Some code) /\
  csv_of body (["global_id"; "country_code"; "community_id"]%string ::
    map (country_record r) (seqZ 0 (vlen (r_aggregate_keys r)))).

Lemma country_file_ok g pub org year cc (p : params W) mode prefix :
  bibliographic g pub org year cc -> (forall o, plain (cc o)) ->
  writable prefix ->
  wp (build g mode) (fun c => country_vertices g org cc c /\ rows_ok (num_vertex_ c) (adj_ c)) ->
  exists r body, Compute p g mode = Some r /\
    run_projection env (Some g) p mode prefix "global_id,country_code,community_id" country_line =
      Some (ExecResult (Returned (louvain_row r (output_path env louvain_dir prefix)))
        [(output_path env louvain_dir prefix, body)]) /\
    country_file_of g org cc r body.
Proof.
  intros Hbib Hplain [Hdir Hopen] Hb. apply (Compute_projection_wp p) in Hb.
  2: { intros c Hv. pose proof (cg_bound _ _ _ _ Hv). pose proof (bi_orgs _ _ _ _ _ Hbib).
    rewrite (cg_num _ _ _ _ Hv) in *. pose proof (vlen_nonneg (aggregate_keys_ c)). lia. }
  apply wp_exists in Hb as (r & Hrun & c & Hv & Hok).
  pose proof (ro_vertices _ _ _ Hok) as Hn. rewrite (cg_num _ _ _ _ Hv) in Hn.
  destruct (ro_keys _ _ _ Hok) as [Hkeys _]. pose proof (pa_len _ _ _ (ro_partition _ _ _ Hok)) as Hcomm.
  rewrite (cg_num _ _ _ _ Hv) in Hcomm. pose proof (vlen_nonneg (aggregate_keys_ c)) as Hpos.
  destruct (csv_reads "global_id,country_code,community_id" ["global_id"; "country_code"; "community_id"]%string
    (r_num_vertices r) (country_line r) (country_record r)) as (body & Hbody & Hcsv); [lia| |done| |].
  - apply (record_names "global_id" ["country_code"; "community_id"]%string). by repeat constructor.
  - intros i Hi. unfold country_line, key_or_empty. rewrite Hkeys, !vget_Some by lia. simpl.
    eexists. split; [done|]. split; [|done]. unfold country_record. rewrite Hkeys.
    apply record_cons; [apply field_number|]. apply record_cons; [|apply record_one, field_number].
    apply field_plain. pose proof (vat_elem (aggregate_keys_ c) i ltac:(lia)) as Hin.
    apply (cg_codes _ _ _ _ Hv) in Hin as (o & _ & Ho). unfold org_country in Ho.
    destruct (IsValidVertex g org o); [|done]. case_decide; [done|]. injection Ho as <-. apply Hplain.
  - exists r, body. unfold country_file_of. rewrite Hkeys. rewrite Hn in Hcsv.
    split_and!; [done| |apply Hv|apply Hv|done]. unfold run_projection, mbind, option_bind.
    rewrite Hrun. unfold GenerateLouvainOutputPath. rewrite Hdir. cbv beta iota zeta delta [negb with_path]. by rewrite Hopen, Hbody.
Qed.

Definition coauthor_call_params (inp : LouvainCoauthorInput (W := W)) : params W :=
  {| max_iterations_ := to_int (lc_max_iter inp); resolution_ := lc_resolution inp;
     max_levels_ := to_int (lc_max_levels inp) |}.
Definition coauthor_call_config (inp : LouvainCoauthorInput (W := W)) : CoauthorConfig :=
  {| ca_year_min := lc_year_min inp; ca_year_max := lc_year_max inp;
     ca_max_coauthors := to_int (lc_max_coauthors inp) |}.

(** [LOUVAIN_COAUTHOR] on a bibliographic store: when the
    file opens and no country code needs quoting, the file holds one record
    (index, country code, community) for every country code in use, each code
    once. *)
Theorem ExecuteLouvainCoauthor_output g pub org year cc e inp :
  bibliographic g pub org year cc -> find_edge_label (e_schemas (schema g)) pub org = e -> e <> NO_LABEL ->
  (forall o, plain (cc o)) -> writable "louvain_coauthor" ->
  let outputFile := output_path env louvain_dir "louvain_coauthor" in
  exists r body, Compute (coauthor_call_params inp) g (Coauthor (coauthor_call_config inp)) = Some r /\
    ExecuteLouvainCoauthor env (Some g) inp =
      Some (ExecResult (Returned (louvain_row r outputFile)) [(outputFile, body)]) /\
    country_file_of g org cc r body.
Proof.
  intros Hbib He Hne Hplain Hopen outputFile. apply (country_file_ok g pub org year cc); [done..|].
  eapply wp_mono; [by eapply (coauthor_build_wp g pub org year cc e)|].
  intros c [Hv Hg]. split; [done|]. by eapply weighted_rows_ok.
Qed.

Definition infra_call_params (inp : LouvainInfraCountryInput (W := W)) : params W :=
  {| max_iterations_ := to_int (lf_max_iter inp); resolution_ := lf_resolution inp;
     max_levels_ := to_int (lf_max_levels inp) |}.
Definition infra_call_config (inp : LouvainInfraCountryInput (W := W)) : InfraConfig :=
  {| in_year_min := lf_year_min inp; in_year_max := lf_year_max inp;
     in_min_hosts_per_datasource := to_int (lf_min_hosts inp);
     in_max_author_orgs := to_int (lf_max_author_orgs inp) |}.

(** [LOUVAIN_INFRA_COUNTRY] on a bibliographic store: when the file opens and
    no country code needs quoting, the file holds one record for every country
    code in use, each code once. *)
Theorem ExecuteLouvainInfraCountry_output g pub org ds year cc e_po e_dp inp :
  bibliographic g pub org year cc -> label_of g "Datasource" ds -> GetVertexSet_size g pub <= INT_MAX ->
  scan_edge_label (e_schemas (schema g)) pub org = e_po -> e_po <> NO_LABEL ->
  scan_edge_label (e_schemas (schema g)) ds pub = e_dp -> e_dp <> NO_LABEL ->
  (forall o, plain (cc o)) -> writable "louvain_infra_country" ->
  let outputFile := output_path env louvain_dir "louvain_infra_country" in
  exists r body, Compute (infra_call_params inp) g (Infra (infra_call_config inp)) = Some r /\
    ExecuteLouvainInfraCountry env (Some g) inp =
      Some (ExecResult (Returned (louvain_row r outputFile)) [(outputFile, body)]) /\
    country_file_of g org cc r body.
Proof.
  intros Hbib Hd Hpubs He Hne He' Hne' Hplain Hopen outputFile.
  apply (country_file_ok g pub org year cc); [done..|].
  eapply wp_mono; [by eapply (infra_build_wp g pub org ds year cc e_po e_dp)|].
  intros c (Hv & pc & _ & Hg). split; [done|]. by eapply weighted_rows_ok.
Qed.

(** ** LOUVAIN_DATASOURCE *)

Lemma split_bar_app a b : contains "|"%char a = false -> split_bar (a +:+ "|" +:+ b)%string = (a, b).
Proof.
  intros Ha. unfold split_bar. enough (split_bar_at (a +:+ "|" +:+ b)%string = Some (a, b)) as -> by done.
  induction a as [|x a IH]; [done|]. simpl in Ha. apply orb_false_iff in Ha as [Hx Ha].
  change (split_bar_at (String x (a +:+ "|" +:+ b)%string) = Some (String x a, b)). simpl. by rewrite Hx, IH.
Qed.

Definition datasource_call_params (inp : LouvainDatasourceInput (W := W)) : params W :=
  {| max_iterations_ := to_int (ld_max_iter inp); resolution_ := ld_resolution inp;
     max_levels_ := to_int (ld_max_levels inp) |}.
Definition datasource_call_config (inp : LouvainDatasourceInput (W := W)) : DatasourceConfig :=
  {| dc_year_min := ld_year_min inp; dc_year_max := ld_year_max inp; dc_min_pubs := to_int (ld_min_pubs inp) |}.

(** Datasource [d] in the file: its key, id and country of its provider. *)
Definition datasource_fields g org ds (cc : Z -> string) (d : Z) : list string :=
  let ps := providers g ds org (scan_edge_label (e_schemas (schema g)) ds org) (GetVertexSet_size g org) cc d in
  [datasource_key (string_column g ds "id") d; provider_id (string_column g org "id") ps; provider_country cc ps].

(** What the writer takes for granted: no quote in a datasource id, no bar in
    an organisation id, no separator in an organisation id or country code. *)
Record datasource_plain g org ds (cc : Z -> string) : Prop := {
  dp_key d : contains quote (datasource_key (string_column g ds "id") d) = false;
  dp_provider c o : string_column g org "id" = Some c -> plain (c o) /\ contains "|"%char (c o) = false;
  dp_country o : plain (cc o)
}.

Lemma datasource_line_ok (r : Result W) g org ds cc d i :
  datasource_plain g org ds cc ->
  vget (r_community r) i = Some (vat (r_community r) i) ->
  vget (r_aggregate_keys r) i = Some (datasource_key (string_column g ds "id") d) ->
  vget (r_aggregate_extra r) i =
    Some (provider_id (string_column g org "id") (providers g ds org (scan_edge_label (e_schemas (schema g)) ds org)
      (GetVertexSet_size g org) cc d) ++ "|" ++ provider_country cc (providers g ds org
      (scan_edge_label (e_schemas (schema g)) ds org) (GetVertexSet_size g org) cc d))%string ->
  exists l, datasource_line r i = Some l /\
    record_of l (to_string i :: datasource_fields g org ds cc d ++ [to_string (vat (r_community r) i)]).
Proof.
  intros [Hkey Hprov Hcc] Hc Hk Hx. unfold datasource_line, key_or_empty, datasource_fields. cbv zeta.
  set (ps := providers _ _ _ _ _ _ _) in *. rewrite Hc, Hk, Hx. cbn [default mbind option_bind].
  unfold from_option, id. assert (plain (provider_id (string_column g org "id") ps) /\
    contains "|"%char (provider_id (string_column g org "id") ps) = false) as [Hp Hbar].
  { unfold provider_id. destruct ps, (string_column g org "id"); try done. by apply Hprov. }
  rewrite split_bar_app by done. eexists. split; [done|].
  apply record_cons; [apply field_number|].
  apply record_quoted; [done|].
  apply record_cons; [by apply field_plain|]. apply record_cons; [|apply record_one, field_number].
  apply field_plain. unfold provider_country. by destruct ps.
Qed.

(** [LOUVAIN_DATASOURCE]: when the file opens and the ids and
    country codes need no quoting, the file holds one record (index, datasource
    id, provider id, provider country, community) for every datasource that
    hosts enough publications; the provider is the first valid organisation
    with a country code. *)
Theorem ExecuteLouvainDatasource_output g pub org ds year cc e_dp inp :
  bibliographic g pub org year cc -> label_of g "Datasource" ds ->
  GetVertexSet_size g pub <= INT_MAX -> GetVertexSet_size g ds <= INT_MAX ->
  scan_edge_label (e_schemas (schema g)) ds pub = e_dp -> e_dp <> NO_LABEL ->
  datasource_plain g org ds cc -> writable "louvain_datasource" ->
  let outputFile := output_path env louvain_dir "louvain_datasource" in
  let kept := kept_datasources g ds pub e_dp year (ld_year_min inp) (ld_year_max inp) (to_int (ld_min_pubs inp)) in
  exists r body, Compute (datasource_call_params inp) g (Datasource (datasource_call_config inp)) = Some r /\
    ExecuteLouvainDatasource env (Some g) inp =
      Some (ExecResult (Returned (louvain_row r outputFile)) [(outputFile, body)]) /\
    map cell_type (louvain_row r outputFile) = projection_columns /\
    csv_of body (["global_id"; "datasource_id"; "provider_org_id"; "provider_country_code"; "community_id"]%string ::
      map (fun i => to_string i :: datasource_fields g org ds cc (vat kept i) ++ [to_string (vat (r_community r) i)])
        (seqZ 0 (vlen kept))).
Proof.
  intros Hbib Hd Hpubs Hdss He Hne Hplain [Hdir Hopen] outputFile kept.
  pose proof (datasource_build_wp (W := W) g pub org ds year cc e_dp (datasource_call_config inp)
    Hbib Hd Hpubs Hdss He Hne) as Hbuild.
  assert (0 <= vlen kept <= INT_MAX) as Hk.
  { pose proof (so_size _ (bi_store _ _ _ _ _ Hbib) ds). pose proof (vlen_nonneg kept). split; [done|].
    transitivity (GetVertexSet_size g ds); [|done]. unfold kept, kept_datasources.
    apply vlen_filter_seqZ. lia. }
  eapply wp_mono in Hbuild; [|intros c [Hv Hg]; exact (conj Hv (weighted_rows_ok _ _ _ Hg))].
  apply (Compute_projection_wp (datasource_call_params inp) g (Datasource (datasource_call_config inp))) in Hbuild;
    [|intros c [Hv _]; by rewrite (dv_num _ _ _ _ _ _ _ _ _ Hv)].
  apply wp_exists in Hbuild as (r & Hrun & c & [Hv Ha] & Hok).
  pose proof (dv_num _ _ _ _ _ _ _ _ _ Hv : num_vertex_ c = vlen kept) as Hnum.
  pose proof (ro_vertices _ _ _ Hok) as Hn. pose proof (ro_keys _ _ _ Hok) as [Hkeys Hextra].
  pose proof (pa_len _ _ _ (ro_partition _ _ _ Hok)) as Hcomm. rewrite Hnum in Hn, Hcomm.
  rewrite (da_keys _ _ _ _ _ _ _ _ _ _ _ _ _ _ _ Ha : _ = map _ kept) in Hkeys.
  rewrite (da_extra _ _ _ _ _ _ _ _ _ _ _ _ _ _ _ Ha : _ = map _ kept) in Hextra.
  destruct (csv_reads "global_id,datasource_id,provider_org_id,provider_country_code,community_id"
    ["global_id"; "datasource_id"; "provider_org_id"; "provider_country_code"; "community_id"]%string
    (r_num_vertices r) (datasource_line r) (fun i => to_string i :: datasource_fields g org ds cc (vat kept i) ++
      [to_string (vat (r_community r) i)])) as (body & Hbody & Hcsv); [lia| |done| |].
  - apply (record_names "global_id"
      ["datasource_id"; "provider_org_id"; "provider_country_code"; "community_id"]%string). by repeat constructor.
  - intros i Hi. destruct (datasource_line_ok r g org ds cc (vat kept i) i) as (l & Hl & Hrec); [done|..].
    + by rewrite vget_Some by lia.
    + by rewrite Hkeys, vget_map by lia.
    + by rewrite Hextra, vget_map by lia.
    + by exists l.
  - exists r, body. rewrite Hn in Hcsv. split_and!; [done| |done|done].
    unfold ExecuteLouvainDatasource, run_projection.
    fold (datasource_call_params inp) (datasource_call_config inp).
    unfold mbind, option_bind. rewrite Hrun. unfold GenerateLouvainOutputPath. rewrite Hdir. cbv beta iota zeta delta [with_path]. fold outputFile.
    fold outputFile in Hopen. cbv beta iota delta [negb]. by rewrite Hopen, Hbody.
Qed.
End calls.

(** ** The overloads *)

Section overloads.
Context {W : Type} `{!Arith W} `{!HashOrder} (env : call_env).

(** The two overloads of a function, as its function set lists them. *)
Definition short_call {I} (os : list (overload (W := W) I)) args graph : option (option exec_result) :=
  o ← os !! 0%nat; Some (call o args graph).
Definition long_call {I} (os : list (overload (W := W) I)) args graph : option (option exec_result) :=
  o ← os !! 1%nat; Some (call o args graph).

Lemma arg_i64_absent a b k j d :
  (2 <= j)%nat -> arg_i64 (W := W) (a :: b :: replicate k None) j d = d.
Proof.
  intros Hj. unfold arg_i64. destruct j as [|[|j]]; [lia..|]. simpl.
  destruct (replicate k None !! j) as [[c|]|] eqn:Hr; [|done|done]. by apply lookup_replicate_1 in Hr as [? _].
Qed.

Lemma arg_f64_absent a b k j d :
  (2 <= j)%nat -> arg_f64 (W := W) (a :: b :: replicate k None) j d = d.
Proof.
  intros Hj. unfold arg_f64. destruct j as [|[|j]]; [lia..|]. simpl.
  destruct (replicate k None !! j) as [[c|]|] eqn:Hr; [|done|done]. by apply lookup_replicate_1 in Hr as [? _].
Qed.

(** Every optional parameter has the same default in the two
    overloads of its function: the long overload, called with the years alone
    or with arguments that are no constants, is the short overload. *)
Theorem overload_defaults a b k graph :
  long_call (coauthor_overloads env) (a :: b :: replicate k None) graph = short_call (coauthor_overloads env) [a; b] graph /\
  long_call (infra_overloads env) (a :: b :: replicate k None) graph = short_call (infra_overloads env) [a; b] graph /\
  long_call (datasource_overloads env) (a :: b :: replicate k None) graph =
    short_call (datasource_overloads env) [a; b] graph /\
  long_call (kcore_coauthor_overloads env) (a :: b :: replicate k None) graph =
    short_call (kcore_coauthor_overloads env) [a; b] graph /\
  long_call (kcore_project_overloads env) (a :: b :: replicate k None) graph =
    short_call (kcore_project_overloads env) [a; b] graph /\
  long_call (louvain_overloads env) [None; None; None] graph = short_call (louvain_overloads env) [] graph.
Proof.
  unfold long_call, short_call, call; simpl. 
  by rewrite ?(arg_i64_absent a b k 2), ?(arg_i64_absent a b k 3), ?(arg_i64_absent a b k 4),
    ?(arg_i64_absent a b k 5), ?(arg_i64_absent a b k 6), ?(arg_f64_absent a b k 4), ?(arg_f64_absent a b k 5) by lia.
Qed.
End overloads.

(** ** Examples *)

#[local] Existing Instance insertion_order.

(** Files open; organisations have a country code and a name, which needs
    quoting for the second and throws for the fourth. *)
Definition sample_env : call_env := {|
  now_ms := 1700000000000;
  props_ms := 1700000000001;
  can_open := fun _ => true;
  can_create := fun _ => true;
  property_names := fun L => if L =? 1 then ["country_code"; "name"]%string else [];
  property_value := fun L v pi =>
    if pi =? 0 then vget sample_countries v
    else vget ["Inria"; "Max, Planck"; "ENS " +:+ qs +:+ "Ulm" +:+ qs]%string v
|}.

Lemma sample_plain v : plain (default EmptyString (vget sample_countries v)).
Proof.
  unfold vget. destruct (v <? 0); [done|]. unfold sample_countries.
  destruct (Z.to_nat v) as [|[|[|[|n]]]]; done.
Qed.

Definition louvain_input : LouvainInput (W := double) :=
  {| li_max_iter := 20; li_resolution := wone; li_max_levels := 10 |}.

Lemma escape_csv_reads_witness :
  read_field (escape_csv ("a," +:+ qs +:+ "b") +:+ nl)%string = Some ("a," +:+ qs +:+ "b", nl)%string.
Proof. apply (escape_csv_reads ("a," +:+ qs +:+ "b")%string nl). reflexivity. Defined.

(** The directory of the properties cannot be created. *)
Definition full_disk_env : call_env := {|
  now_ms := 1700000000000; props_ms := 1700000000001; can_open := fun _ => true; can_create := String.eqb louvain_dir;
  property_names := property_names sample_env; property_value := property_value sample_env
|}.

Lemma ExecuteLouvain_output_witness :
  (exists r body files row, Compute (louvain_params louvain_input) sample_store Plain = Some r /\
    ExecuteLouvain sample_env (Some sample_store) louvain_input =
      Some (ExecResult (Returned row) ((output_path sample_env louvain_dir "louvain", body) :: files)) /\
    map cell_type row = louvain_columns /\
    property_files_of sample_env r (schema sample_store) (louvain_dir +:+ "/props_" +:+ to_string (props_ms sample_env))%string files) /\
  (exists r body, Compute (louvain_params louvain_input) sample_store Plain = Some r /\
    ExecuteLouvain full_disk_env (Some sample_store) louvain_input =
      Some (ExecResult Thrown [(output_path full_disk_env louvain_dir "louvain", body)]) /\
    csv_of body (["global_id"; "vertex_label"; "original_vid"; "community_id"]%string ::
      map (louvain_record r) (seqZ 0 (vertex_total sample_store)))).
Proof.
  split.
  - destruct (ExecuteLouvain_output sample_env sample_store louvain_input sample_buildable) as (r & body & files & row & Hr & He & _ & Ht & _ & Hf).
    exists r, body, files, row. split; [exact Hr|]. split; [exact He|]. split; [exact Ht|exact Hf].
  - destruct (ExecuteLouvain_output full_disk_env sample_store louvain_input sample_buildable) as (r & body & files & row & Hr & He & _ & _ & Hc & _).
    exists r, body. split; [exact Hr|]. split; [exact He|exact Hc].
Defined.

Lemma ExecutePlain_output_witness :
  let outputFile := output_path sample_env kcore_dir "kcore" in
  exists r body, Kcore_Compute (W := double) sample_store KPlain = Some r /\
    ExecutePlain (W := double) sample_env (Some sample_store) =
      Some (ExecResult (Returned (kcore_row (W := double) r outputFile)) [(outputFile, body)]) /\
    map cell_type (kcore_row (W := double) r outputFile) = kcore_columns /\
    csv_of body (["global_id"; "vertex_label"; "original_vid"; "coreness"]%string ::
      map (kcore_record r) (seqZ 0 (vertex_total sample_store))).
Proof.
  apply (ExecutePlain_output (W := double) sample_env sample_store); [exact sample_buildable|by vm_compute].
Defined.

Definition coauthor_input : LouvainCoauthorInput (W := double) :=
  {| lc_year_min := 2020; lc_year_max := 2022; lc_max_coauthors := 30; lc_max_iter := 20;
     lc_resolution := wone; lc_max_levels := 10 |}.

Lemma ExecuteLouvainCoauthor_output_witness :
  let outputFile := output_path sample_env louvain_dir "louvain_coauthor" in
  exists r body, Compute (coauthor_call_params coauthor_input) sample_store
      (Coauthor (coauthor_call_config coauthor_input)) = Some r /\
    ExecuteLouvainCoauthor sample_env (Some sample_store) coauthor_input =
      Some (ExecResult (Returned (louvain_row r outputFile)) [(outputFile, body)]) /\
    country_file_of sample_store 1 (fun v => default EmptyString (vget sample_countries v)) r body.
Proof.
  apply (ExecuteLouvainCoauthor_output sample_env sample_store 0 1
    (fun v => default 0 (vget sample_years v)) (fun v => default EmptyString (vget sample_countries v)) 0 coauthor_input);
    [exact sample_bibliographic|done|done|exact sample_plain|done].
Defined.

Definition infra_input : LouvainInfraCountryInput (W := double) :=
  {| lf_year_min := 2020; lf_year_max := 2022; lf_min_hosts := 0; lf_max_author_orgs := 30;
     lf_max_iter := 20; lf_resolution := wone; lf_max_levels := 10 |}.

Lemma ExecuteLouvainInfraCountry_output_witness :
  let outputFile := output_path sample_env louvain_dir "louvain_infra_country" in
  exists r body, Compute (infra_call_params infra_input) sample_store
      (Infra (infra_call_config infra_input)) = Some r /\
    ExecuteLouvainInfraCountry sample_env (Some sample_store) infra_input =
      Some (ExecResult (Returned (louvain_row r outputFile)) [(outputFile, body)]) /\
    country_file_of sample_store 1 (fun v => default EmptyString (vget sample_countries v)) r body.
Proof.
  apply (ExecuteLouvainInfraCountry_output sample_env sample_store 0 1 2
    (fun v => default 0 (vget sample_years v)) (fun v => default EmptyString (vget sample_countries v)) 0 1 infra_input);
    first [exact sample_bibliographic|exact sample_plain|done].
Defined.

Definition datasource_input : LouvainDatasourceInput (W := double) :=
  {| ld_year_min := 2020; ld_year_max := 2022; ld_min_pubs := 2; ld_max_iter := 20;
     ld_resolution := wone; ld_max_levels := 10 |}.

Lemma sample_ids_plain v : plain (default EmptyString (vget sample_org_ids v)) /\
  contains "|"%char (default EmptyString (vget sample_org_ids v)) = false.
Proof.
  unfold vget. destruct (v <? 0); [done|]. unfold sample_org_ids.
  destruct (Z.to_nat v) as [|[|[|[|n]]]]; done.
Qed.

Lemma sample_datasource_plain :
  datasource_plain sample_store 1 2 (fun v => default EmptyString (vget sample_countries v)).
Proof.
  split; [intros d; apply (sample_ids_plain d)|intros c o [= <-]; apply sample_ids_plain|exact sample_plain].
Qed.

Lemma ExecuteLouvainDatasource_output_witness :
  let outputFile := output_path sample_env louvain_dir "louvain_datasource" in
  let kept := kept_datasources sample_store 2 0 1 (fun v => default 0 (vget sample_years v)) 2020 2022 (to_int 2) in
  exists r body, Compute (datasource_call_params datasource_input) sample_store
      (Datasource (datasource_call_config datasource_input)) = Some r /\
    ExecuteLouvainDatasource sample_env (Some sample_store) datasource_input =
      Some (ExecResult (Returned (louvain_row r outputFile)) [(outputFile, body)]) /\
    map cell_type (louvain_row r outputFile) = projection_columns /\
    csv_of body (["global_id"; "datasource_id"; "provider_org_id"; "provider_country_code"; "community_id"]%string ::
      map (fun i => to_string i :: datasource_fields sample_store 1 2
        (fun v => default EmptyString (vget sample_countries v)) (vat kept i) ++ [to_string (vat (r_community r) i)])
        (seqZ 0 (vlen kept))).
Proof.
  apply (ExecuteLouvainDatasource_output sample_env sample_store 0 1 2
    (fun v => default 0 (vget sample_years v)) (fun v => default EmptyString (vget sample_countries v)) 1 datasource_input);
    first [exact sample_bibliographic|exact sample_datasource_plain|done].
Defined.
