(* ===== verification/StoreTheorems.v ===== *)
(** * Labels, dates and degenerate graphs: the theorems

    The labels of the schema and their deletion, the year prefix of a date, and
    what happens at the edges of the algorithms' assumptions. *)
From S2P Require Import Prelude Num Storage KCore GraphBuild Aggregate Projection KcoreCompute Louvain Sample.
From Stdlib Require Import Ascii.
#[local] Open Scope Z_scope.

(** ** Edge labels *)

Lemma shiftr_byte x : 0 <= x -> x = Z.shiftr x 8 * 2 ^ 8 + Z.land x 255 /\ 0 <= Z.shiftr x 8 /\ 0 <= Z.land x 255 < 2 ^ 8.
Proof.
  intros Hx. change 255 with (Z.ones 8). rewrite Z.land_ones, Z.shiftr_div_pow2 by lia.
  pose proof (Z_div_mod_eq_full x (2 ^ 8)). pose proof (Z.mod_pos_bound x (2 ^ 8)).
  pose proof (Z.div_pos x (2 ^ 8)). lia.
Qed.

(** [generate_edge_label] packs a triple of label ids into the
    24 low bits of a key and [parse_edge_label] unpacks it: they are inverse
    bijections between triples of bytes and 24-bit keys. *)
Theorem edge_label_bijection :
  (forall src dst edge, 0 <= src < 2 ^ 8 -> 0 <= dst < 2 ^ 8 -> 0 <= edge < 2 ^ 8 ->
     0 <= generate_edge_label src dst edge < 2 ^ 24 /\
     parse_edge_label (generate_edge_label src dst edge) = (src, dst, edge)) /\
  (forall key, 0 <= key < 2 ^ 24 ->
     let '(src, dst, edge) := parse_edge_label key in
     0 <= src < 2 ^ 8 /\ 0 <= dst < 2 ^ 8 /\ 0 <= edge < 2 ^ 8 /\ generate_edge_label src dst edge = key).
Proof.
  split.
  - intros src dst edge Hs Hd He. split; [|by apply parse_generate].
    rewrite generate_edge_label_value by done. lia.
  - intros key Hk. unfold parse_edge_label. cbv zeta.
    destruct (shiftr_byte key) as (E1 & ? & ?); [lia|].
    destruct (shiftr_byte (Z.shiftr key 8)) as (E2 & ? & ?); [lia|].
    destruct (shiftr_byte (Z.shiftr (Z.shiftr key 8) 8)) as (E3 & ? & ?); [lia|].
    split_and!; try lia. rewrite generate_edge_label_value by lia. lia.
Qed.

(** ** Vertex labels *)

(** Resolving a label by name: exactly the names of labels
    that are not deleted have an id; every other name throws, and nothing else
    can happen. *)
Theorem get_vertex_label_id_spec sch name :
  NoDup (vlabel_indexer sch) -> vlen (vlabel_tomb sch) = vlen (vlabel_indexer sch) ->
  (forall i, get_vertex_label_id sch name = Some (Returned i) <->
     vget (vlabel_indexer sch) i = Some name /\ vertex_label_valid sch i = Some true) /\
  (get_vertex_label_id sch name = Some Thrown <->
     forall i, vget (vlabel_indexer sch) i = Some name -> vertex_label_valid sch i = Some false).
Proof.
  intros Hnd Hlen. unfold get_vertex_label_id.
  assert (forall i, vget (vlabel_indexer sch) i = Some name <-> get_index (vlabel_indexer sch) name 0 = Some i) as Hix.
  { intros i. rewrite get_index_spec, Z.sub_0_r by done. split; [|naive_solver]. intros Hi. split; [|done].
    apply vget_inv in Hi. lia. }
  destruct (get_index (vlabel_indexer sch) name 0) as [j|] eqn:Hj.
  - pose proof (get_index_bound _ _ _ _ Hj) as Hb.
    assert (vertex_label_valid sch j = Some (negb (vat (vlabel_tomb sch) j))) as Hv.
    { unfold vertex_label_valid. rewrite (proj2 (Z.ltb_lt _ _)), vget_Some by lia. done. }
    rewrite vget_Some by lia. simpl. destruct (vat (vlabel_tomb sch) j); simpl in *.
    + split; [|split; [|done]].
      * intros i. split; [done|]. intros [Hi%Hix Hval]. congruence.
      * intros _ i Hi%Hix. by simplify_eq.
    + split; [|split; [done|]].
      * intros i. split; [intros [= <-]; by rewrite Hix|]. intros [Hi%Hix _]. by simplify_eq.
      * intros Hall. specialize (Hall j (proj2 (Hix j) eq_refl)). congruence.
  - split; [|split; [|done]].
    + intros i. split; [done|]. by intros [?%Hix _].
    + by intros _ i ?%Hix.
Qed.

Lemma vertex_label_valid_delete sch i j :
  vlen (vlabel_tomb sch) = vlen (vlabel_indexer sch) -> 0 <= i < vlen (vlabel_indexer sch) -> 0 <= j < vlen (vlabel_indexer sch) ->
  exists sch', DeleteVertexLabel sch i = Some sch' /\ vlabel_indexer sch' = vlabel_indexer sch /\
    vlabel_tomb sch' = vput (vlabel_tomb sch) i true /\
    vertex_label_valid sch' j = if decide (i = j) then Some false else vertex_label_valid sch j.
Proof.
  intros Hlen Hi Hj. unfold DeleteVertexLabel. rewrite vset_Some by lia. simpl.
  eexists. split; [done|]. split_and!; [done..|]. unfold vertex_label_valid. simpl.
  rewrite (proj2 (Z.ltb_lt _ _)), !vget_Some, vat_vput by (rewrite ?vlen_vput; lia). simpl. by case_decide.
Qed.

(** Deleting a vertex label leaves the ids of the others in
    place but lowers [vertex_label_num], so that the last label, still valid,
    is no longer below the count the graph builders loop to. *)
Theorem deleted_label_gap sch i :
  no_tombs sch -> 0 <= i < vlen (vlabel_indexer sch) - 1 ->
  exists sch', DeleteVertexLabel sch i = Some sch' /\
    let last := vlen (vlabel_indexer sch) - 1 in
    vertex_label_num sch' = last /\ vertex_label_frontier sch' = last + 1 /\
    vertex_label_valid sch' last = Some true /\ vertex_label_valid sch' i = Some false.
Proof.
  intros (Hlen & Hf & Hlt) Hi.
  assert (vlen (vlabel_tomb sch) = vlen (vlabel_indexer sch)) as Hl by (unfold vlen; lia).
  destruct (vertex_label_valid_delete sch i (vlen (vlabel_indexer sch) - 1)) as (s1 & H1 & Hix & Htb & Hv1); [lia..|].
  destruct (vertex_label_valid_delete sch i i) as (s2 & H2 & _ & _ & Hv2); [lia..|].
  rewrite H1 in H2. injection H2 as <-. rewrite decide_True in Hv2 by done. rewrite decide_False in Hv1 by lia.
  exists s1. split; [done|]. cbv zeta. unfold vertex_label_num, vertex_label_frontier. rewrite Hix, Htb.
  assert (tomb_count (vput (vlabel_tomb sch) i true) = 1) as ->.
  { assert (exists l1 l2, vlabel_tomb sch = l1 ++ false :: l2 /\ vlen l1 = i) as (l1 & l2 & Heq & <-).
    { destruct (list_elem_of_split_length (vlabel_tomb sch) (Z.to_nat i) false) as (l1 & l2 & ? & ?).
      - destruct (lookup_lt_is_Some_2 (vlabel_tomb sch) (Z.to_nat i)) as [b Hb]; [unfold vlen in *; lia|].
        rewrite Hb. f_equal. exact (Forall_lookup_1 _ _ _ _ Hf Hb).
      - exists l1, l2. unfold vlen. split; [done|lia]. }
    rewrite Heq, vput_middle. unfold tomb_count. rewrite filter_app, filter_cons_True by done.
    rewrite Heq, Forall_app, Forall_cons in Hf. destruct Hf as (Hf1 & _ & Hf2).
    assert (forall l, Forall (fun b => b = false) l -> filter (fun b => b = true) l = []) as Hnil.
    { induction 1 as [|b l -> _ IH]; [done|]. by rewrite filter_cons_False. }
    by rewrite !Hnil. }
  rewrite Hv1, Hv2. unfold vertex_label_valid, to_u8. rewrite (proj2 (Z.ltb_lt _ _)), vget_Some by lia. simpl.
  rewrite !Z.mod_small by lia. split_and!; [done|lia| |done].
  assert (vat (vlabel_tomb sch) (vlen (vlabel_indexer sch) - 1) = false) as ->; [|done].
  rewrite Forall_forall in Hf. apply Hf, vat_elem. lia.
Qed.

(** ** An edge label past the enumerated labels *)

(** A loop with a body that fails on one element fails. *)
Lemma for_each_fails {A S} (l : list A) (s : S) body x :
  x ∈ l -> (forall s, body x s = None) -> for_each l s body = None.
Proof.
  intros Hin Hx. revert s. induction Hin as [l|x y l _ IH]; intros s; simpl; [by rewrite Hx|].
  destruct (body y s); simpl; [by apply IH|done].
Qed.

Lemma scan_edges_gap g {S} offs sizes (s : S) body key :
  key ∈ e_schemas (schema g) ->
  vlen offs <= (parse_edge_label key).1.1 \/ vlen offs <= (parse_edge_label key).1.2 ->
  scan_edges g offs sizes s body = None.
Proof.
  intros Hkey Hgap. unfold scan_edges. apply (for_each_fails _ _ _ key); [done|]. intros s'.
  destruct (parse_edge_label key) as [[src dst] e]. simpl in Hgap.
  assert (forall i, vlen offs <= i -> vget offs i = None) as Hnone.
  { intros i Hi. unfold vget. destruct (i <? 0); [done|]. apply lookup_ge_None_2. unfold vlen in *. lia. }
  destruct Hgap as [Hg|Hg]; rewrite (Hnone _ Hg); [done|]. by destruct (vget offs src).
Qed.

Lemma assign_offsets_length g n offs sizes :
  assign_offsets g = Some (n, offs, sizes) -> vlen offs = vertex_label_num (schema g).
Proof.
  intros Ha. set (num := vertex_label_num (schema g)).
  assert (0 <= num) as Hnum by (apply Z.mod_pos_bound; lia).
  assert (forall l st st', for_each l st (fun L '(offset, offs, sizes) =>
    ok ← vertex_label_valid (schema g) L;
    if negb ok then Some (offset, offs, sizes)
    else
      offs' ← vset offs L offset;
      sizes' ← vset sizes L (GetVertexSet_size g L);
      offset' ← i32 (offset + to_int (GetVertexSet_size g L));
      Some (offset', offs', sizes')) = Some st' -> vlen st'.1.2 = vlen st.1.2) as Hgo.
  { induction l as [|L l IH]; intros [[o os] sz] st'; simpl; [by intros [= <-]|].
    destruct (vertex_label_valid (schema g) L) as [[]|]; simpl; [|by intros Hr%IH|done].
    destruct (vset os L o) as [os'|] eqn:Hof; [|done]. simpl. destruct (vset sz L _); [|done]. simpl.
    destruct (i32 _); [|done]. simpl. intros Hr%IH. rewrite Hr. simpl.
    unfold vset in Hof. destruct (_ && _); [|done]. injection Hof as <-. apply vlen_vput. }
  apply Hgo in Ha. simpl in Ha. rewrite Ha. by apply vlen_vnew.
Qed.

(** An edge label that touches a vertex label at or past
    [vertex_label_num] makes both builders index the offset vector out of its
    bounds, whatever the edges, as soon as the graph has a vertex. *)
Theorem BuildGraph_label_gap {W} `{!Arith W} g key n offs sizes :
  key ∈ e_schemas (schema g) ->
  vertex_label_num (schema g) <= (parse_edge_label key).1.1 \/
    vertex_label_num (schema g) <= (parse_edge_label key).1.2 ->
  assign_offsets g = Some (n, offs, sizes) -> n <> 0 ->
  BuildGraph (W := W) g = None /\ Kcore_BuildGraph (W := W) g = None.
Proof.
  intros Hkey Hgap Ha Hn. rewrite <-(assign_offsets_length g n offs sizes Ha) in Hgap.
  unfold BuildGraph, Kcore_BuildGraph. rewrite Ha. simpl. rewrite (proj2 (Z.eqb_neq _ _) Hn). split.
  - destruct (map_ids g n offs sizes); [|done]. simpl. unfold count_degrees. by rewrite (scan_edges_gap g _ _ _ _ key).
  - destruct (map_ids g n offs sizes); [|done]. simpl. by rewrite (scan_edges_gap g _ _ _ _ key).
Qed.

(** Three vertex labels, the first deleted, and an edge label from the second
    to the third. *)
Definition tomb_schema : Schema := {|
  vlabel_indexer := ["A"; "B"; "C"]%string; vlabel_tomb := [false; false; false];
  e_schemas := [generate_edge_label 1 2 0] |}.
Definition tomb_store : StorageReadInterface := {|
  schema := default tomb_schema (DeleteVertexLabel tomb_schema 0);
  GetVertexSet_size := fun _ => 2; IsValidVertex := fun _ _ => true;
  get_edges := fun _ _ _ _ => [0]; int64_column := fun _ _ => None; string_column := fun _ _ => None |}.

Lemma BuildGraph_label_gap_witness :
  BuildGraph (W := double) tomb_store = None /\ Kcore_BuildGraph (W := double) tomb_store = None.
Proof.
  apply (BuildGraph_label_gap tomb_store (generate_edge_label 1 2 0) 2 [-1; 0] [0; 2]);
    [by left|right; by vm_compute|by vm_compute|done].
Defined.

Lemma deleted_label_gap_witness :
  exists sch', DeleteVertexLabel tomb_schema 0 = Some sch' /\
    let last := vlen (vlabel_indexer tomb_schema) - 1 in
    vertex_label_num sch' = last /\ vertex_label_frontier sch' = last + 1 /\
    vertex_label_valid sch' last = Some true /\ vertex_label_valid sch' 0 = Some false.
Proof.
  apply (deleted_label_gap tomb_schema 0); [|by vm_compute].
  split_and!; [done|by repeat constructor|done].
Defined.

Lemma get_vertex_label_id_spec_witness :
  (forall i, get_vertex_label_id (schema tomb_store) "A" = Some (Returned i) <->
     vget (vlabel_indexer (schema tomb_store)) i = Some "A"%string /\
     vertex_label_valid (schema tomb_store) i = Some true) /\
  (get_vertex_label_id (schema tomb_store) "A" = Some Thrown <->
     forall i, vget (vlabel_indexer (schema tomb_store)) i = Some "A"%string ->
       vertex_label_valid (schema tomb_store) i = Some false).
Proof.
  apply (get_vertex_label_id_spec (schema tomb_store) "A"); [|reflexivity].
  apply (bool_decide_unpack _). reflexivity.
Defined.

(** ** Dates *)

(** A year in four decimal digits. *)
Definition digit (d : Z) : ascii := ascii_of_N (Z.to_N (48 + d)).
Definition year4 (y : Z) : string :=
  String (digit (y / 1000)) (String (digit (y / 100 mod 10)) (String (digit (y / 10 mod 10))
    (String (digit (y mod 10)) EmptyString))).

Lemma char_code_digit d : 0 <= d < 10 -> char_code (digit d) = 48 + d.
Proof. intros Hd. unfold char_code, digit. rewrite N_ascii_embedding; lia. Qed.

Lemma digit_char_code c : 48 <= char_code c <= 57 -> digit (char_code c - 48) = c.
Proof.
  intros Hc. unfold digit, char_code in *. replace (48 + (Z.of_N (N_of_ascii c) - 48)) with (Z.of_N (N_of_ascii c)) by lia.
  by rewrite N2Z.id, ascii_N_embedding.
Qed.

(** One step of the digit loop. *)
Lemma parse_digits_step k c s y v :
  0 <= v -> (parse_digits (S k) (String c s) y = v <->
    48 <= char_code c <= 57 /\ parse_digits k s (y * 10 + (char_code c - 48)) = v).
Proof.
  intros Hv. simpl. destruct (Z.ltb_spec (char_code c) 48), (Z.ltb_spec 57 (char_code c)); simpl; lia.
Qed.

(** [parse_year_prefix] inverts the four-digit notation:
    it returns a year [y >= 0] on exactly the strings that start with the four
    digits of [y], and is negative on every other string. *)
Theorem parse_year_prefix_spec s y :
  (0 <= y /\ parse_year_prefix s = y) <-> (0 <= y < 10000 /\ exists rest, s = (year4 y +:+ rest)%string).
Proof.
  split.
  - intros [Hy Hp]. unfold parse_year_prefix in Hp.
    destruct s as [|a [|b [|c [|d rest]]]]; try (simpl in Hp; lia).
    destruct (_ <? 4); [lia|]. rewrite !parse_digits_step in Hp by done.
    destruct Hp as (Ha & Hb & Hc & Hd & Hp). simpl in Hp.
    set (x1 := char_code a - 48) in *. set (x2 := char_code b - 48) in *.
    set (x3 := char_code c - 48) in *. set (x4 := char_code d - 48) in *.
    assert (y = 1000 * x1 + 100 * x2 + 10 * x3 + x4) as -> by lia. split; [lia|]. exists rest.
    unfold year4.
    replace ((1000 * x1 + 100 * x2 + 10 * x3 + x4) / 1000) with x1
      by (apply (Z.div_unique_pos _ _ _ (100 * x2 + 10 * x3 + x4)); lia).
    replace ((1000 * x1 + 100 * x2 + 10 * x3 + x4) / 100) with (10 * x1 + x2)
      by (apply (Z.div_unique_pos _ _ _ (10 * x3 + x4)); lia).
    replace ((1000 * x1 + 100 * x2 + 10 * x3 + x4) / 10) with (100 * x1 + 10 * x2 + x3)
      by (apply (Z.div_unique_pos _ _ _ x4); lia).
    replace ((10 * x1 + x2) mod 10) with x2 by (apply (Z.mod_unique_pos _ _ x1); lia).
    replace ((100 * x1 + 10 * x2 + x3) mod 10) with x3 by (apply (Z.mod_unique_pos _ _ (10 * x1 + x2)); lia).
    replace ((1000 * x1 + 100 * x2 + 10 * x3 + x4) mod 10) with x4
      by (apply (Z.mod_unique_pos _ _ (100 * x1 + 10 * x2 + x3)); lia).
    unfold x1, x2, x3, x4. by rewrite !digit_char_code.
  - intros [Hy (rest & ->)]. split; [lia|].
    pose proof (Z.div_pos y 1000 ltac:(lia) ltac:(lia)). pose proof (Z.div_lt_upper_bound y 1000 10 ltac:(lia) ltac:(lia)).
    pose proof (Z.mod_pos_bound (y / 100) 10 ltac:(lia)). pose proof (Z.mod_pos_bound (y / 10) 10 ltac:(lia)).
    pose proof (Z.mod_pos_bound y 10 ltac:(lia)).
    unfold parse_year_prefix. rewrite (proj2 (Z.ltb_ge _ _)) by (simpl; lia).
    change (year4 y +:+ rest)%string with (String (digit (y / 1000)) (String (digit (y / 100 mod 10))
      (String (digit (y / 10 mod 10)) (String (digit (y mod 10)) rest)))).
    rewrite !parse_digits_step by lia. rewrite !char_code_digit by lia. simpl.
    split_and!; try lia.
    pose proof (Z_div_mod_eq_full y 10). pose proof (Z_div_mod_eq_full (y / 10) 10).
    pose proof (Z_div_mod_eq_full (y / 100) 10).
    assert (y / 10 / 10 = y / 100) by (by rewrite Z.div_div by lia).
    assert (y / 100 / 10 = y / 1000) by (by rewrite Z.div_div by lia). lia.
Qed.
