(* ===== verification/Parallel.v ===== *)
(** * The parallel loops

    [LouvainComputer] runs its loops with OpenMP (extension/louvain/include/
    louvain_functions.h).  Two of them are more than independent iterations: the
    adjacency rows are filled by threads that share one atomic cursor per
    vertex, and the community weights are accumulated in per-thread buffers.
    Here a thread is a program counter and the edges it still has to process,
    and a run is any interleaving of the threads' atomic actions; an action that
    leaves a vector is an explicit outcome. *)
From S2P Require Import Prelude Num Storage KCore GraphBuild.
#[local] Open Scope Z_scope.

(** ** Filling the rows *)

Lemma vget_snoc {A} `{!Inhabited A} (l : list A) x k y :
  vget (l ++ [x]) k = Some y <-> vget l k = Some y \/ (k = vlen l /\ y = x).
Proof.
  unfold vget, vlen. destruct (Z.ltb_spec k 0); [naive_solver lia|].
  rewrite lookup_app_Some. destruct (decide (Z.to_nat k < length l)%nat).
  - split; [|naive_solver lia]. intros [?|[? _]]; [by left|lia].
  - rewrite (lookup_ge_None_2 l) by lia. split.
    + intros [?|[? Hl]]; [done|]. apply list_lookup_singleton_Some in Hl as [? ->]. right. split; [lia|done].
    + intros [?|[-> ->]]; [done|]. right. split; [lia|]. rewrite Nat2Z.id. by rewrite Nat.sub_diag.
Qed.

Section fill.
Context {W : Type} `{!Arith W}.

(** Where a thread is in the body of the innermost loop: the edge, and the
    cursor values it has fetched. *)
Inductive fill_pc :=
| Next
| Fetched1 (src_g dst_g pu : Z)
| Fetched2 (src_g dst_g pu pv : Z)
| Stored1 (src_g dst_g pv : Z).

(** A thread: its program counter and the edges left of its share. *)
Record fill_thread := FillThread { ft_pc : fill_pc; ft_todo : list (Z * Z) }.

Definition finished (th : fill_thread) : Prop := ft_pc th = Next /\ ft_todo th = [].

(** The memory the threads share: the cursors and the rows. *)
Record fill_memory := FillMemory { fm_deg : list Z; fm_adj : list (list (Z * W)) }.

(** The next action of an unfinished thread. *)
Definition fill_act (th : fill_thread) (m : fill_memory) : option (fill_thread * fill_memory) :=
  match ft_pc th, ft_todo th with
  | Next, [] => Some (th, m)
  | Next, (src_g, dst_g) :: todo =>
      r ← fetch_add_1 (fm_deg m) src_g;
      Some (FillThread (Fetched1 src_g dst_g (fst r)) todo, FillMemory (snd r) (fm_adj m))
  | Fetched1 src_g dst_g pu, todo =>
      r ← fetch_add_1 (fm_deg m) dst_g;
      Some (FillThread (Fetched2 src_g dst_g pu (fst r)) todo, FillMemory (snd r) (fm_adj m))
  | Fetched2 src_g dst_g pu pv, todo =>
      adj ← set_entry (fm_adj m) src_g pu (dst_g, wone);
      Some (FillThread (Stored1 src_g dst_g pv) todo, FillMemory (fm_deg m) adj)
  | Stored1 src_g dst_g pv, todo =>
      adj ← set_entry (fm_adj m) dst_g pv (src_g, wone);
      Some (FillThread Next todo, FillMemory (fm_deg m) adj)
  end.

Record fill_state := FillState { fs_mem : fill_memory; fs_threads : list fill_thread }.

(** One thread acts; the outcome is [None] when the action leaves a vector. *)
Inductive fill_step : fill_state -> option fill_state -> Prop :=
| fill_step_thread m l1 th l2 :
    ~ finished th ->
    fill_step (FillState m (l1 ++ th :: l2))
      ('(th', m') ← fill_act th m; Some (FillState m' (l1 ++ th' :: l2))).

Definition fill_next (s s' : fill_state) : Prop := fill_step s (Some s').

(** The threads start with their shares and zeroed cursors. *)
Definition fill_start (n : Z) (rows : list (list (Z * W))) (shares : list (list (Z * Z))) : fill_state :=
  FillState (FillMemory (vnew n 0) rows) (map (FillThread Next) shares).

(** *** The tickets

    A fetched cursor value is a ticket for a slot.  [log] is the history of the
    tickets in the order they were drawn, as the vertex and the entry the
    drawing thread will store. *)

Definition slots (u : Z) (log : list (Z * (Z * W))) : list (Z * W) := map snd (filter (fun t => fst t = u) log).

Definition ends (es : list (Z * Z)) : list (Z * (Z * W)) :=
  flat_map (fun e => [(fst e, (snd e, wone)); (snd e, (fst e, wone))]) es.

(** Entries still to be drawn, and drawn slots still to be stored. *)
Definition undrawn (th : fill_thread) : list (Z * (Z * W)) :=
  match ft_pc th with Fetched1 a b _ => [(b, (a, wone))] | _ => [] end ++ ends (ft_todo th).
Definition pending (th : fill_thread) : list (Z * Z * (Z * W)) :=
  match ft_pc th with
  | Next => []
  | Fetched1 a b pu => [(a, pu, (b, wone))]
  | Fetched2 a b pu pv => [(a, pu, (b, wone)); (b, pv, (a, wone))]
  | Stored1 a b pv => [(b, pv, (a, wone))]
  end.

Lemma slots_ends u es : slots u (ends es) = incident es u.
Proof.
  unfold slots, incident. induction es as [|[a b] es IH]; [done|].
  simpl. rewrite <-IH. unfold edge_ends. simpl. rewrite !filter_cons. simpl.
  destruct (Z.eqb_spec a u), (Z.eqb_spec b u); repeat case_decide; done.
Qed.

Lemma slots_app u l1 l2 : slots u (l1 ++ l2) = slots u l1 ++ slots u l2.
Proof. unfold slots. by rewrite filter_app, map_app. Qed.

Lemma slots_one u t : slots u [t] = if decide (fst t = u) then [snd t] else [].
Proof. unfold slots. rewrite filter_cons. by case_decide. Qed.

Lemma slots_perm u l1 l2 : l1 ≡ₚ l2 -> slots u l1 ≡ₚ slots u l2.
Proof. intros Hp. unfold slots. by rewrite Hp. Qed.

(** *** The invariant *)

Context (n : Z) (es : list (Z * Z)).
Context (Hn : 0 <= n) (Hes : forall e, e ∈ es -> 0 <= fst e < n /\ 0 <= snd e < n).
Context (Hsmall : 2 * vlen es <= INT_MAX).

(** [U] are the entries to be drawn and [P] the slots to be stored, over all
    threads. *)
Record fill_inv (log : list (Z * (Z * W))) (m : fill_memory) (U : list (Z * (Z * W))) (P : list (Z * Z * (Z * W))) :
    Prop := {
  fi_deg_len : vlen (fm_deg m) = n;
  fi_deg u : 0 <= u < n -> vat (fm_deg m) u = vlen (slots u log);
  fi_adj_len : vlen (fm_adj m) = n;
  fi_row u : 0 <= u < n -> vlen (vat (fm_adj m) u) = vlen (incident (W := W) es u);
  fi_all : log ++ U ≡ₚ ends es;
  fi_pending u k x : (u, k, x) ∈ P -> vget (slots u log) k = Some x;
  fi_owner : NoDup (map fst P);
  fi_stored u k x : 0 <= u < n -> vget (slots u log) k = Some x ->
    vget (vat (fm_adj m) u) k = Some x \/ (u, k, x) ∈ P
}.

Lemma ends_length l : vlen (ends l) = 2 * vlen l.
Proof. unfold vlen, ends. induction l as [|e l IH]; [done|]. simpl in *. lia. Qed.

Lemma ends_range t : t ∈ ends es -> 0 <= fst t < n.
Proof using Hes.
  unfold ends. intros Ht. apply list_elem_of_In, in_flat_map in Ht as (e & He & Ht).
  apply list_elem_of_In, Hes in He. simpl in Ht. naive_solver.
Qed.

Lemma slots_bound u l1 l2 : l1 ++ l2 ≡ₚ ends es ->
  vlen (slots u l1) + vlen (slots u l2) = vlen (incident (W := W) es u) /\ vlen (incident (W := W) es u) <= INT_MAX.
Proof using Hsmall.
  intros Hp. rewrite <-slots_ends, <-vlen_app, <-slots_app.
  assert (forall l l' : list (Z * W), l ≡ₚ l' -> vlen l = vlen l') as Hperm.
  { intros l l' H. unfold vlen. by rewrite H. }
  split; [by apply Hperm, slots_perm|]. transitivity (vlen (ends es)); [|by rewrite ends_length].
  unfold slots, vlen. rewrite length_map. pose proof (length_filter (fun t => fst t = u) (ends es)). lia.
Qed.

Lemma fill_inv_perm log m U U' P P' : U ≡ₚ U' -> P ≡ₚ P' -> fill_inv log m U P -> fill_inv log m U' P'.
Proof.
  intros HU HP [H1 H2 H3 H4 H5 H6 H7 H8]. split; [done..|by rewrite <-HU| | |].
  - intros u k x. rewrite <-HP. apply H6.
  - eapply NoDup_Permutation_proper; [|exact H7]. by rewrite HP.
  - intros u k x. rewrite <-HP. apply H8.
Qed.

(** Drawing a ticket. *)
Lemma draw_ok log m U P u x :
  fill_inv log m ((u, x) :: U) P ->
  wp (fetch_add_1 (fm_deg m) u) (fun r => fill_inv (log ++ [(u, x)]) (FillMemory (snd r) (fm_adj m)) U ((u, fst r, x) :: P)).
Proof using Hn Hes Hsmall.
  intros [Hdl Hd Hal Hrow Hall Hpend Hown Hst].
  assert (0 <= u < n) as Hu.
  { apply (ends_range (u, x)). rewrite <-Hall, elem_of_app. right. by left. }
  destruct (slots_bound u _ _ Hall) as [Hb1 Hb2].
  assert (vlen (slots u ((u, x) :: U)) = 1 + vlen (slots u U)) as Hone.
  { unfold slots. rewrite filter_cons_True by done. unfold vlen. simpl. lia. }
  pose proof (vlen_nonneg (slots u U)). pose proof (vlen_nonneg (slots u log)).
  assert (forall v, slots v (log ++ [(u, x)]) = if decide (u = v) then slots u log ++ [x] else slots v log) as Hsl.
  { intros v. rewrite slots_app, slots_one. simpl. case_decide; [by subst|by rewrite app_nil_r]. }
  unfold fetch_add_1. wsteps. simpl. rewrite to_int_small, Hd by (rewrite ?Hd by done; vlia).
  split; simpl; [by rewrite vlen_vput| |done|done| | | |].
  - intros v Hv. rewrite vat_vput by lia. rewrite Hsl. case_decide; [|by apply Hd].
    rewrite vlen_app. unfold vlen. simpl. lia.
  - rewrite <-Hall, <-app_assoc. done.
  - intros v k y Hin. rewrite Hsl. apply elem_of_cons in Hin as [[= -> -> ->]|Hin].
    + rewrite decide_True by done. apply vget_snoc. by right.
    + apply Hpend in Hin. case_decide; [subst|done]. apply vget_snoc. by left.
  - constructor; [|done]. intros Hin. apply list_elem_of_fmap in Hin as ([[v k] y] & [= <- <-] & Hin).
    apply Hpend, vget_inv in Hin. lia.
  - intros v k y Hv. rewrite Hsl. case_decide; [subst v|].
    + rewrite vget_snoc. intros [Hk|[-> ->]]; [|right; by left].
      destruct (Hst u k y Hv Hk); [by left|right; by right].
    + intros Hk. destruct (Hst v k y Hv Hk); [by left|right; by right].
Qed.

(** Storing into the slot of a ticket. *)
Lemma store_ok log m U P u k x :
  fill_inv log m U ((u, k, x) :: P) ->
  wp (set_entry (fm_adj m) u k x) (fun adj => fill_inv log (FillMemory (fm_deg m) adj) U P).
Proof using Hn Hes Hsmall.
  intros [Hdl Hd Hal Hrow Hall Hpend Hown Hst].
  assert (vget (slots u log) k = Some x) as Hk by (apply Hpend; by left).
  assert (0 <= u < n) as Hu.
  { apply (ends_range (u, x)). rewrite <-Hall, elem_of_app. left.
    assert (x ∈ slots u log) as Hin by (by apply vget_inv in Hk as [? <-]; apply vat_elem).
    apply list_elem_of_fmap in Hin as ([u' x'] & -> & [Heq Hin]%list_elem_of_filter). simpl in Heq. by subst. }
  destruct (slots_bound u _ _ Hall) as [Hb1 _]. pose proof (vlen_nonneg (slots u U)).
  pose proof (proj1 (vget_inv _ _ _ Hk)) as Hrange.
  unfold set_entry. wsteps; [rewrite Hrow; lia|]. apply NoDup_cons in Hown as [_ Hown].
  split; simpl; [done|done|by rewrite vlen_vput| |done| |done|].
  - intros v Hv. rewrite vat_vput by lia. case_decide; [subst; rewrite vlen_vput|]; by apply Hrow.
  - intros v j y Hin. apply Hpend. by right.
  - intros v j y Hv Hj. rewrite vat_vput by lia. pose proof (vget_inv _ _ _ Hj) as [Hjr _].
    destruct (slots_bound v _ _ Hall) as [Hv1 _]. pose proof (vlen_nonneg (slots v U)).
    destruct (Hst v j y Hv Hj) as [Hs|[[= -> -> ->]|Hp]%elem_of_cons]; [| |by right].
    + left. case_decide; [subst v|done]. rewrite vget_Some by (rewrite vlen_vput, Hrow; lia).
      rewrite vat_vput by (rewrite ?Hrow; lia). case_decide; [congruence|]. f_equal. by apply vget_inv in Hs as [_ ?].
    + left. rewrite decide_True by done. rewrite vget_Some by (rewrite vlen_vput, Hrow; lia).
      rewrite vat_vput_eq by (rewrite Hrow; lia). done.
Qed.

(** *** Runs *)

(** Actions a thread still has to take. *)
Definition work (th : fill_thread) : nat :=
  match ft_pc th with Next => 0 | Fetched1 _ _ _ => 3 | Fetched2 _ _ _ _ => 2 | Stored1 _ _ _ => 1 end
  + 4 * length (ft_todo th).

(** One action of one thread, the others holding [U] and [P]. *)
Lemma fill_act_ok log m th U P :
  ~ finished th -> fill_inv log m (undrawn th ++ U) (pending th ++ P) ->
  wp (fill_act th m) (fun '(th', m') => work th = S (work th') /\
    exists log', fill_inv log' m' (undrawn th' ++ U) (pending th' ++ P)).
Proof using Hn Hes Hsmall.
  intros Hf Hi. destruct th as [[|a b pu|a b pu pv|a b pv] todo]; unfold fill_act; simpl in *.
  - destruct todo as [|[a b] todo]; [by destruct Hf|]. apply wp_bind. simpl in Hi.
    eapply wp_mono; [exact (draw_ok log m _ P a (b, wone) Hi)|]. intros [k deg] Hd. wsteps. split; [unfold work; simpl; lia|].
    exists (log ++ [(a, (b, wone))]). exact Hd.
  - apply wp_bind. eapply wp_mono; [exact (draw_ok log m _ _ b (a, wone) Hi)|]. intros [k deg] Hd. wsteps. split; [done|].
    eexists. eapply fill_inv_perm; [done| |exact Hd]. apply perm_swap.
  - apply wp_bind. eapply wp_mono; [by apply (store_ok log m)|]. intros adj Hd. wsteps. split; [done|].
    by exists log.
  - apply wp_bind. eapply wp_mono; [by apply (store_ok log m)|]. intros adj Hd. wsteps. split; [done|].
    by exists log.
Qed.

Definition state_work (s : fill_state) : nat := sum_list (map work (fs_threads s)).

Definition state_inv (s : fill_state) : Prop :=
  exists log, fill_inv log (fs_mem s) (flat_map undrawn (fs_threads s)) (flat_map pending (fs_threads s)).

Lemma flat_map_middle {A B} (f : A -> list B) l1 x l2 : flat_map f (l1 ++ x :: l2) ≡ₚ f x ++ flat_map f (l1 ++ l2).
Proof. rewrite !flat_map_app. simpl. rewrite !app_assoc. by rewrite (Permutation_app_comm (flat_map f l1)). Qed.

(** Every step keeps the invariant and takes one unit of work; no step leaves a
    vector. *)
Lemma fill_step_ok s o : state_inv s -> fill_step s o ->
  exists s', o = Some s' /\ state_inv s' /\ state_work s = S (state_work s').
Proof using Hn Hes Hsmall.
  intros (log & Hi) Hstep. destruct Hstep as [m l1 th l2 Hf]. simpl in Hi.
  eapply fill_inv_perm in Hi; [|apply flat_map_middle..].
  pose proof (fill_act_ok _ _ _ _ _ Hf Hi) as Hwp. apply wp_exists in Hwp as ([th' m'] & Hact & Hw & log' & Hi').
  exists (FillState m' (l1 ++ th' :: l2)). rewrite Hact. split; [done|]. split.
  - exists log'. simpl. eapply fill_inv_perm; [symmetry; apply flat_map_middle..|exact Hi'].
  - unfold state_work. simpl. rewrite !map_app. simpl.
    clear -Hw. induction (map work l1) as [|x l IH]; simpl; lia.
Qed.

Lemma fill_steps_ok k s s' : state_inv s -> nsteps fill_next k s s' ->
  state_inv s' /\ (state_work s = k + state_work s')%nat.
Proof using Hn Hes Hsmall.
  intros Hi Hk. induction Hk as [s|k s1 s2 s3 Hs _ IH]; [done|].
  destruct (fill_step_ok _ _ Hi Hs) as (? & [= <-] & Hi2 & Hw). destruct (IH Hi2) as [? ?]. split; [done|lia].
Qed.

Lemma fill_start_ok rows shares :
  vlen rows = n -> (forall u, 0 <= u < n -> vlen (vat rows u) = vlen (incident (W := W) es u)) ->
  concat shares ≡ₚ es -> state_inv (fill_start n rows shares) /\ state_work (fill_start n rows shares) = (4 * length es)%nat.
Proof using Hn Hes Hsmall.
  intros Hl Hrows Hp.
  assert (forall sh, flat_map undrawn (map (FillThread Next) sh) = ends (concat sh)) as Hund.
  { induction sh as [|x sh IH]; [done|]. simpl. rewrite IH. unfold undrawn, ends. simpl. by rewrite flat_map_app. }
  assert (forall sh, flat_map pending (map (FillThread Next) sh) = []) as Hpend by (by induction sh).
  split.
  - exists []. simpl. rewrite Hund, Hpend. split; simpl; [by apply vlen_vnew| |done|done| |set_solver|constructor|].
    + intros u Hu. by rewrite vat_vnew.
    + unfold ends. by rewrite Hp.
    + intros u k x _ Hk. unfold vget, slots in Hk. simpl in Hk. by destruct (_ <? _).
  - rewrite <-Hp. unfold state_work. simpl. clear. induction shares as [|x sh IH]; [done|]. simpl.
    rewrite length_app. unfold work at 1. simpl in *. lia.
Qed.

(** Some thread can act unless all have finished, and then no work is left. *)
Lemma fill_progress s : Forall finished (fs_threads s) \/ exists o, fill_step s o.
Proof using Type.
  clear -s.
  destruct s as [m threads]. simpl.
  assert (forall th, finished th \/ ~ finished th) as Hdec.
  { intros [[] [|]]; unfold finished; simpl; first [left; done|right; naive_solver]. }
  assert (Forall finished threads \/ exists l1 th l2, threads = l1 ++ th :: l2 /\ ~ finished th) as [Hf|Hex].
  { induction threads as [|th l IH]; [by left|]. destruct (Hdec th) as [Hth|Hth]; [|right; by exists [], th, l].
    destruct IH as [Hl|(l1 & th' & l2 & -> & Hth')]; [left; by constructor|right; by exists (th :: l1), th', l2]. }
  - by left.
  - right. destruct Hex as (l1 & th & l2 & -> & Hth). eexists. by constructor.
Qed.

Lemma finished_work s : Forall finished (fs_threads s) -> state_work s = 0%nat.
Proof using Type.
  clear -s.
  unfold state_work. intros Hf. induction Hf as [|[pc todo] l [Hpc Htd] _ IH]; [done|].
  simpl in *. by subst.
Qed.

(** When all threads have finished, row [u] is the tickets of [u] in the order
    in which they were drawn. *)
Lemma finished_rows s u : state_inv s -> Forall finished (fs_threads s) -> 0 <= u < n ->
  vat (fm_adj (fs_mem s)) u ≡ₚ incident es u /\ vat (fm_deg (fs_mem s)) u = vlen (incident (W := W) es u).
Proof using Hn Hes Hsmall.
  intros (log & [_ Hd _ Hrow Hall _ _ Hst]) Hf Hu.
  assert (flat_map undrawn (fs_threads s) = [] /\ flat_map pending (fs_threads s) = []) as [HU HP].
  { clear -Hf. induction Hf as [|[pc todo] l [Hpc Htd] _ [IH1 IH2]]; [done|]. simpl in *. subst.
    by rewrite IH1, IH2. }
  rewrite HU, app_nil_r in Hall. rewrite HP in Hst.
  assert (slots u log ≡ₚ incident es u) as Hslots by (rewrite <-slots_ends; by apply slots_perm).
  assert (vlen (slots u log) = vlen (incident (W := W) es u)) as Hlen by (unfold vlen; by rewrite Hslots).
  split; [|by rewrite Hd]. rewrite <-Hslots.
  enough (vat (fm_adj (fs_mem s)) u = slots u log) as -> by done.
  apply vat_ext; [by rewrite Hrow|]. intros k Hk. rewrite Hrow in Hk by done.
  destruct (Hst u k (vat (slots u log) k) Hu) as [Hs|[]%elem_of_nil]; [apply vget_Some; lia|].
  by apply vget_inv in Hs as [_ ->].
Qed.
End fill.
