(* ===== verification/ParallelTheorems.v ===== *)
(** * The parallel loops: the theorems

    Every interleaving of the filling threads yields the serial rows up to
    order; a sweep does not depend on the order of its iterations; and in exact
    arithmetic the per-thread accumulation equals the serial one. *)
From S2P Require Import Prelude Num Storage KCore GraphBuild Aggregate Projection KcoreCompute Louvain.
From S2P Require Import LouvainCorrect Modularity LouvainExact LouvainGraph Parallel Sample Examples.
From Stdlib Require Import QArith Qcanon.
#[local] Open Scope Z_scope.

(** ** Filling the rows *)

(** C6: On a store that is [buildable], the filling of the rows by any number of threads, each
    with any share of the edges, in any interleaving of their atomic actions:
    no action leaves a vector, no slot is about to be written by two threads,
    the run takes four actions per edge, unless all threads have finished some
    thread can act, and in the end every row is the row of the serial graph up
    to the order of its entries. *)
Theorem parallel_fill {W} `{!Arith W} g (rows : list (list (Z * W))) shares :
  buildable g -> vlen rows = vertex_total g ->
  (forall u, 0 <= u < vertex_total g -> vlen (vat rows u) = vlen (incident (W := W) (store_edges g) u)) ->
  concat shares ≡ₚ store_edges g ->
  forall k s, nsteps fill_next k (fill_start (vertex_total g) rows shares) s ->
    (k <= 4 * length (store_edges g))%nat /\
    (forall o, fill_step s o -> is_Some o) /\
    NoDup (map fst (flat_map (pending (W := W)) (fs_threads s))) /\
    (Forall finished (fs_threads s) \/ exists o, fill_step s o) /\
    (Forall finished (fs_threads s) -> k = (4 * length (store_edges g))%nat /\
       exists c : computer W, BuildGraph g = Some c /\
         forall u, 0 <= u < vertex_total g -> vat (fm_adj (fs_mem s)) u ≡ₚ vat (adj_ c) u).
Proof.
  intros Hb Hl Hrows Hsh k s Hk. pose proof (total_nonneg g Hb) as Hn.
  pose proof (store_edges_range g Hb) as Hes. pose proof (bd_edges _ Hb) as Hsm.
  assert (forall e, e ∈ store_edges g -> 0 <= fst e < vertex_total g /\ 0 <= snd e < vertex_total g) as Hes'
    by (intros; by apply Hes).
  destruct (fill_start_ok (vertex_total g) (store_edges g) (proj1 Hn) Hes' Hsm rows shares Hl Hrows Hsh) as [Hi Hw].
  destruct (fill_steps_ok (vertex_total g) (store_edges g) (proj1 Hn) Hes' Hsm k _ s Hi Hk) as [Hi' Hw'].
  split_and!; [lia| | | |].
  - intros o Ho. destruct (fill_step_ok _ _ (proj1 Hn) Hes' Hsm _ _ Hi' Ho) as (s' & -> & _). by eexists.
  - destruct Hi' as (log & Hi'). apply (fi_owner _ _ _ _ _ _ Hi').
  - apply fill_progress.
  - intros Hf. split; [by rewrite (finished_work s Hf) in Hw'; lia|].
    pose proof (BuildGraph_wp (W := W) g Hb) as Hwp. apply wp_exists in Hwp as (c & Hc & Hg & _). exists c.
    split; [done|]. intros u Hu. rewrite (gs_rows _ _ Hg) by done.
    by apply (finished_rows (vertex_total g) (store_edges g) (proj1 Hn) Hes' Hsm s u Hi' Hf).
Qed.

(** ** The sweep *)

Section sweeps.
Context {W : Type} `{!Arith W} `{!HashOrder}.
Context (p : params W).

(** The loop of a sweep with its iterations in the given order. *)
Definition sweep_in (order : list Z) (adj : list (list (Z * W))) node_weight comm (n : Z) (total_weight : W)
    (comm_total : list W) : option (list Z * Z) :=
  for_each order (vnew n 0, 0) (fun u '(new_comm, moved_count) =>
    best ← choose_comm p adj node_weight comm total_weight comm_total u;
    new_comm' ← vset new_comm u best;
    old_comm ← vget comm u;
    moved' ← if best =? old_comm then Some moved_count else i32 (moved_count + 1);
    Some (new_comm', moved')).

Lemma sweep_in_wp order adj nw comm n m ct :
  rows_ok n adj -> vlen nw = n -> vlen comm = n -> in_range n comm -> vlen ct = n ->
  0 <= n -> vlen order <= INT_MAX -> (forall u, u ∈ order -> 0 <= u < n) ->
  let chosen u := default 0 (choose_comm p adj nw comm m ct u) in
  wp (sweep_in order adj nw comm n m ct) (fun '(comm', moved) =>
    vlen comm' = n /\ (forall u, u ∈ order -> vat comm' u = chosen u) /\
    moved = vlen (filter (fun u => chosen u <> vat comm u) order)).
Proof.
  intros Ha Hw Hc Hr Ht Hn Hsmall Hin chosen. unfold sweep_in.
  apply (wp_for_each (fun seen '(comm', moved) => vlen comm' = n /\
    (forall u, u ∈ seen -> vat comm' u = chosen u) /\ moved = vlen (filter (fun u => chosen u <> vat comm u) seen)));
    [split_and!; [by apply vlen_vnew|by intros u []%elem_of_nil|done]| |done].
  intros seen u rest [comm' moved] Heq (Hl & Hch & ->).
  assert (0 <= u < n) as Hu by (apply Hin; rewrite Heq; set_solver).
  pose proof (choose_comm_wp p adj nw comm m ct u n Ha Hw Hc Hr Ht Hu) as Hwp.
  apply wp_exists in Hwp as (b & Hb & _). assert (chosen u = b) as Hcu by (unfold chosen; by rewrite Hb).
  rewrite Hb. cbn [mbind option_bind]. wsteps.
  assert (vlen (filter (fun u => chosen u <> vat comm u) seen) < INT_MAX) as Hlt.
  { unfold vlen in *. pose proof (length_filter (fun u => chosen u <> vat comm u) seen).
    apply (f_equal length) in Heq. rewrite length_app in Heq. simpl in Heq. lia. }
  pose proof (vlen_nonneg (filter (fun u => chosen u <> vat comm u) seen)).
  apply (wp_mono _ (fun moved => moved = vlen (filter (fun u => chosen u <> vat comm u) (seen ++ [u])))).
  - rewrite filter_app, filter_cons, vlen_app. subst b.
    destruct (Z.eqb_spec (chosen u) (vat comm u)); case_decide; try done; wsteps; unfold vlen; simpl; lia.
  - intros moved ->. wsteps. split_and!; [by rewrite vlen_vput| |done].
    intros v [Hv|Hv%list_elem_of_singleton]%elem_of_app.
    + assert (0 <= v < n) by (apply Hin; rewrite Heq; set_solver).
      rewrite vat_vput by lia. case_decide; [by subst v|by apply Hch].
    + subst v. by rewrite vat_vput_eq by lia.
Qed.

(** A sweep gives the same assignment and the same number of
    moves whatever the order in which its iterations run. *)
Theorem sweep_order order adj nw comm n m ct :
  0 <= n <= INT_MAX -> rows_ok n adj -> vlen nw = n -> vlen comm = n -> in_range n comm -> vlen ct = n ->
  order ≡ₚ seqZ 0 n ->
  is_Some (sweep p adj nw comm n m ct) /\ sweep_in order adj nw comm n m ct = sweep p adj nw comm n m ct.
Proof.
  intros Hn Ha Hw Hc Hr Ht Hp.
  assert (forall o, o ≡ₚ seqZ 0 n -> vlen o <= INT_MAX /\ forall u, u ∈ o <-> 0 <= u < n) as Ho.
  { intros o E. split; [unfold vlen; rewrite E, length_seqZ; lia|]. intros u. rewrite E, elem_of_seqZ. lia. }
  destruct (Ho order Hp) as [Hs1 Hin1]. destruct (Ho (seqZ 0 n) ltac:(done)) as [Hs2 Hin2].
  pose proof (sweep_in_wp order adj nw comm n m ct Ha Hw Hc Hr Ht (proj1 Hn) Hs1 ltac:(naive_solver)) as H1.
  pose proof (sweep_in_wp (seqZ 0 n) adj nw comm n m ct Ha Hw Hc Hr Ht (proj1 Hn) Hs2 ltac:(naive_solver)) as H2.
  change (sweep p adj nw comm n m ct) with (sweep_in (seqZ 0 n) adj nw comm n m ct).
  apply wp_exists in H1 as ([c1 m1] & -> & Hl1 & Hch1 & ->).
  apply wp_exists in H2 as ([c2 m2] & -> & Hl2 & Hch2 & ->). split; [by eexists|]. do 2 f_equal.
  - apply vat_ext; [congruence|]. intros u Hu. rewrite Hl1 in Hu. by rewrite Hch1, Hch2 by (apply Hin1 || apply Hin2; done).
  - unfold vlen. by rewrite Hp.
Qed.
End sweeps.

(** ** Community weights *)

(** The buffer of one thread: its share [us] of the vertices. *)
Definition thread_buffer {W} `{!Arith W} (comm : list Z) (node_weight : list W) (n : Z) (us : list Z) : option (list W) :=
  for_each us (vnew n wzero) (fun u buf =>
    c ← vget comm u;
    x ← vget node_weight u;
    vadd buf c x).

(** [AccumulateByComm] with OpenMP: a buffer per thread, then the sum over the
    threads, in thread order. *)
Definition AccumulateByComm_omp {W} `{!Arith W} (comm : list Z) (node_weight : list W) (n : Z)
    (shares : list (list Z)) : option (list W) :=
  local ← for_each shares [] (fun us local =>
    buf ← thread_buffer comm node_weight n us; Some (local ++ [buf]));
  for_range n (vnew n wzero) (fun i out =>
    s ← for_each local wzero (fun buf s => x ← vget buf i; Some (wadd s x));
    vset out i s).

Section accumulate.
Context (comm : list Z) (nw : list Qc) (n : Z).
Context (Hn : 0 <= n) (Hc : vlen comm = n) (Hw : vlen nw = n) (Hr : in_range n comm).

Definition share_sum (us : list Z) (c : Z) : Qc := qsum (fun u => guard (vat comm u = c) (vat nw u)) us.

Lemma thread_buffer_wp us : (forall u, u ∈ us -> 0 <= u < n) ->
  wp (thread_buffer comm nw n us) (fun buf => vlen buf = n /\ forall c, 0 <= c < n -> vat buf c = share_sum us c).
Proof using Hn Hc Hw Hr.
  intros Hin. unfold thread_buffer.
  apply (wp_for_each (fun seen buf => vlen buf = n /\ forall c, 0 <= c < n -> vat buf c = share_sum seen c));
    [|intros seen u rest buf Heq [Hl Hb]|done].
  - split; [by apply vlen_vnew|]. intros c Hcr. by rewrite vat_vnew.
  - assert (0 <= u < n) as Hu by (apply Hin; rewrite Heq; set_solver). pose proof (Hr u ltac:(lia)).
    wsteps. unfold vadd. wsteps. split; [by rewrite vlen_vput|]. intros c Hcr.
    unfold share_sum. rewrite vat_vput, qsum_app by lia. simpl. unfold guard.
    case_decide as E; [subst c|]; rewrite Hb by done; unfold share_sum, guard.
    + simpl. rewrite Qcplus_0_r. done.
    + by rewrite !Qcplus_0_r.
Qed.

Lemma thread_buffers_wp shares : (forall us u, us ∈ shares -> u ∈ us -> 0 <= u < n) ->
  wp (for_each shares [] (fun us local => buf ← thread_buffer comm nw n us; Some (local ++ [buf])))
    (fun local => Forall2 (fun us buf => vlen buf = n /\ forall c, 0 <= c < n -> vat buf c = share_sum us c) shares local).
Proof using Hn Hc Hw Hr.
  intros Hin. apply (wp_for_each (fun seen local => Forall2 (fun us buf => vlen buf = n /\
    forall c, 0 <= c < n -> vat buf c = share_sum us c) seen local)); [constructor| |done].
  intros seen us rest local Heq HF. apply wp_bind.
  eapply wp_mono; [apply thread_buffer_wp; intros u; apply Hin; rewrite Heq; set_solver|].
  intros buf Hbuf. wsteps. apply Forall2_app; [done|]. by constructor.
Qed.

Lemma merge_buffers shares local i : 0 <= i < n ->
  Forall2 (fun us buf => vlen buf = n /\ forall c, 0 <= c < n -> vat buf c = share_sum us c) shares local ->
  forall s, for_each local s (fun buf s => x ← vget buf i; Some (wadd s x)) = Some (s + share_sum (concat shares) i)%Qc.
Proof using Type.
  clear. intros Hi HF. induction HF as [|us buf shares local [Hl Hb] _ IH]; intros s.
  - simpl. unfold share_sum. simpl. by rewrite Qcplus_0_r.
  - simpl. rewrite vget_Some, Hb by lia. simpl. rewrite IH. unfold share_sum. rewrite qsum_app. f_equal. ring.
Qed.

(** In exact arithmetic the per-thread accumulation, for any
    number of threads and any shares, is the serial one; the floating-point
    program may differ by rounding, in the order of the additions only. *)
Theorem accumulate_threads shares :
  concat shares ≡ₚ seqZ 0 n ->
  is_Some (AccumulateByComm comm nw n) /\ AccumulateByComm_omp comm nw n shares = AccumulateByComm comm nw n.
Proof using Hn Hc Hw Hr.
  intros Hp. assert (forall us u, us ∈ shares -> u ∈ us -> 0 <= u < n) as Hin.
  { intros us u Hus Hu. assert (u ∈ seqZ 0 n) as Hs; [|apply elem_of_seqZ in Hs; lia].
    rewrite <-Hp. apply list_elem_of_In, in_concat. exists us.
    by rewrite <-!list_elem_of_In. }
  pose proof (thread_buffer_wp (seqZ 0 n) ltac:(intros u Hu%elem_of_seqZ; lia)) as Hser.
  change (AccumulateByComm comm nw n) with (thread_buffer comm nw n (seqZ 0 n)).
  apply wp_exists in Hser as (ct & -> & Hl & Hct). split; [by eexists|].
  unfold AccumulateByComm_omp. pose proof (thread_buffers_wp shares Hin) as Hloc.
  apply wp_exists in Hloc as (local & -> & HF). cbn [mbind option_bind].
  assert (wp (for_range n (vnew n wzero) (fun i out =>
    s ← for_each local wzero (fun buf s => x ← vget buf i; Some (wadd s x)); vset out i s))
    (fun out => out = ct)) as Hwp; [|by apply wp_exists in Hwp as (out & -> & ->)].
  apply (wp_for_range (fun k out => vlen out = n /\ forall i, 0 <= i < k -> vat out i = vat ct i)); [done| | |].
  - split; [by apply vlen_vnew|lia].
  - intros k out Hk [Hlo Ho]. rewrite (merge_buffers shares local k Hk HF). cbn [mbind option_bind]. wsteps.
    split; [by rewrite vlen_vput|]. intros i Hi. rewrite vat_vput by lia. case_decide; [subst i|apply Ho; lia].
    rewrite Hct by done. unfold share_sum. rewrite (qsum_perm _ _ _ Hp). simpl. ring.
  - intros out [Hlo Ho]. apply vat_ext; [congruence|]. intros i Hi. apply Ho. lia.
Qed.
End accumulate.

(** ** Examples *)

(** The rows of the sample store as allocated, and its edges shared between two
    threads. *)
Definition sample_rows : list (list (Z * double)) :=
  map (fun u => vnew (vlen (incident (W := double) (store_edges sample_store) u)) (0, wzero)) (seqZ 0 11).
Definition sample_shares : list (list (Z * Z)) :=
  [take 9 (store_edges sample_store); drop 9 (store_edges sample_store)].

Lemma sample_rows_ok u : 0 <= u < vertex_total sample_store ->
  vlen (vat sample_rows u) = vlen (incident (W := double) (store_edges sample_store) u).
Proof.
  assert (all_below 11 (fun u => vlen (vat sample_rows u) =?
    vlen (incident (W := double) (store_edges sample_store) u)) = true) as Hall by by vm_compute.
  intros Hu. apply Z.eqb_eq. exact (all_below_ok _ _ Hall u Hu).
Qed.

(** A run that follows a schedule, a list of thread numbers. *)
Definition unfinished (th : fill_thread) : bool :=
  match ft_pc th, ft_todo th with Next, [] => false | _, _ => true end.

Lemma unfinished_false th : negb (unfinished th) = true -> finished th.
Proof. by destruct th as [[] []]. Qed.

Fixpoint run_schedule {W} `{!Arith W} (sched : list nat) (s : fill_state (W := W)) : option (fill_state (W := W)) :=
  match sched with
  | [] => Some s
  | i :: sched =>
      th ← fs_threads s !! i;
      if unfinished th then
        '(th', m') ← fill_act th (fs_mem s);
        run_schedule sched (FillState m' (take i (fs_threads s) ++ th' :: drop (S i) (fs_threads s)))
      else None
  end.

Lemma run_schedule_ok {W} `{!Arith W} sched (s s' : fill_state (W := W)) :
  run_schedule sched s = Some s' -> nsteps fill_next (length sched) s s'.
Proof.
  revert s. induction sched as [|i sched IH]; intros [m ths] Hrun; simpl in *; [simplify_eq; constructor|].
  apply bind_Some in Hrun as (th & Hth & Hrun). destruct (unfinished th) eqn:Hu; [|done].
  apply bind_Some in Hrun as ([th' m'] & Hact & Hrun). econstructor; [|by apply IH].
  pose proof (fill_step_thread m (take i ths) th (drop (S i) ths)) as Hs.
  rewrite take_drop_middle, Hact in Hs by done. apply Hs.
  intros [Hpc Htd]. unfold unfinished in Hu. by rewrite Hpc, Htd in Hu.
Qed.

(** The two threads alternate until the first has no edge left, then the second
    finishes. *)
Definition sample_schedule : list nat := concat (replicate 36 [0%nat; 1%nat]) ++ replicate 8 1%nat.

Lemma parallel_fill_witness :
  exists s : fill_state (W := double), nsteps fill_next (4 * length (store_edges sample_store))
      (fill_start (W := double) (vertex_total sample_store) sample_rows sample_shares) s /\
    Forall finished (fs_threads s) /\
    exists c : computer double, BuildGraph sample_store = Some c /\
      forall u, 0 <= u < vertex_total sample_store -> vat (fm_adj (fs_mem s)) u ≡ₚ vat (adj_ c) u.
Proof.
  set (start := fill_start _ _ _).
  assert (match run_schedule sample_schedule start with
    | Some s => forallb (fun th => negb (unfinished th)) (fs_threads s)
    | None => false end = true) as Hall by by vm_compute.
  destruct (run_schedule sample_schedule start) as [s|] eqn:Hrun; [|discriminate Hall].
  assert (Forall finished (fs_threads s)) as Hf.
  { clear Hrun. apply Forall_forall. intros th Hin. rewrite forallb_forall in Hall.
    apply list_elem_of_In, Hall in Hin. apply unfinished_false, Hin. }
  apply run_schedule_ok in Hrun. exists s. split; [|split; [exact Hf|]].
  - replace (4 * length (store_edges sample_store))%nat with (length sample_schedule) by by vm_compute. exact Hrun.
  - refine (proj2 (proj2 (proj2 (proj2 (proj2 (parallel_fill sample_store sample_rows sample_shares sample_buildable
      _ sample_rows_ok _ _ s Hrun)))) Hf)); [by vm_compute|].
    change (concat sample_shares) with (take 9 (store_edges sample_store) ++ drop 9 (store_edges sample_store) ++ []).
    by rewrite app_nil_r, take_drop.
Defined.

Lemma sweep_order_witness :
  is_Some (sweep (H := insertion_order) default_params (unit_rows barbell) barbell_degrees (iota 6) 6 (double_ofZ 7)
    barbell_degrees) /\
  sweep_in (H := insertion_order) default_params [5; 4; 3; 2; 1; 0] (unit_rows barbell) barbell_degrees (iota 6) 6
      (double_ofZ 7) barbell_degrees =
    sweep (H := insertion_order) default_params (unit_rows barbell) barbell_degrees (iota 6) 6 (double_ofZ 7) barbell_degrees.
Proof.
  apply (sweep_order (H := insertion_order) default_params [5; 4; 3; 2; 1; 0] (unit_rows barbell) barbell_degrees
    (iota 6) 6 (double_ofZ 7) barbell_degrees);
    [by vm_compute|exact barbell_ok|reflexivity|reflexivity|by apply in_rangeb_ok|reflexivity|].
  symmetry. exact (reverse_Permutation [5; 4; 3; 2; 1; 0]).
Defined.

Lemma accumulate_threads_witness :
  let nw : list Qc := [wofZ 2; wofZ 3; wofZ 1] in
  is_Some (AccumulateByComm [0; 2; 0] nw 3) /\
  AccumulateByComm_omp [0; 2; 0] nw 3 [[0; 1]; [2]; []] = AccumulateByComm [0; 2; 0] nw 3.
Proof.
  intros nw. apply (accumulate_threads [0; 2; 0] nw 3); [lia|reflexivity|reflexivity|by apply in_rangeb_ok|reflexivity].
Defined.
